(* ===== verification/_CoqProject ===== *)
-Q . S2P
Prelude.v
Text.v
Money.v
Domain.v
Breaker.v
Schedule.v
Efforts.v
Catalog.v
Cost.v
Ladder.v
Classify.v
Budget.v
Policy.v
Canonical.v
Wire.v
Names.v
Sticky.v
Stream.v
Anthropic.v
AnthropicStream.v
Hub.v
Meter.v
Slots.v
Leasing.v
Frames.v
Converse.v
ConverseStream.v
OpenAI.v
OpenAIStream.v
Gemini.v
Responses.v
ResponsesStream.v
ResponsesEcho.v
Pump.v
Pumped.v
Collected.v
Failover.v
Pool.v
Climb.v
Alias.v
Respond.v
Endpoints.v
EndpointTable.v
Upstream.v
Offers.v
CatalogSync.v
Period.v
Plan.v
Listing.v
Identity.v
Shared.v
Ordered.v
Refresh.v
Tokens.v
Import.v
SystemOne.v
