(* ===== verification/Prelude.v ===== *)
(** * A verification library of the open-ai-gateway

    The program is a gateway in front of language-model providers: it takes a
    request in any of several dialects, decides which model serves it, picks a
    credential for that model, sends the request with retries and failover,
    climbs to a better model when the answer is unusable, and accounts for
    every answer it paid for.  This library models the part of it that
    decides, in Rust under [src/crates/], as functions and step relations that
    compute, and proves what makes each part correct.

    ** Parts, and the file that models each

    Shared:
    - [Prelude] (this file): results, bounded and saturating arithmetic, list
      filters, the counting argument behind "a free spelling exists", the
      tactics [bool_to_prop] and [crush_match], the hint database [oag].
    - [Text]: what the source uses of Rust strings, over bytes: trimming,
      splitting, decimal numbers.
    - [Money]: [rust_decimal] as the class [Decimal] with its laws
      [DecimalLaws]; rational arithmetic is the instance the witnesses use.
    - [Domain]: [oag-core]'s credential kinds, providers, dialects, tiers, and
      errors with their dispositions ([credential.rs], [provider.rs],
      [tier.rs], [error.rs]).

    Deciding:
    - [Breaker]: one circuit breaker ([oag-pool/src/breaker.rs], Module
      Breaker) and a replica's breakers with the dispatch guard
      ([oag-server/src/breakers.rs], Module Fleet).
    - [Schedule]: the selection cascade ([oag-pool/src/schedule.rs]).
    - [Sticky]: the key a conversation is pinned under
      ([oag-pool/src/sticky.rs]).
    - [Efforts], [Catalog], [Cost], [Ladder], [Classify], [Budget], [Policy]:
      [oag-router], a file each, [Budget] and [Policy] both from [policy.rs].

    Dialects, [oag-proto]:
    - [Canonical]: the hub request, its signal, effort and vendor fields
      ([canonical.rs]).
    - [Names]: function names and tool-call ids on the wire
      ([function_names.rs], and [ToolUseIds] of [converse.rs]).
    - [Wire]: reading and building JSON values, as the codecs do.
    - [Stream]: canonical stream events, their accumulator and the quality gate
      ([stream.rs]).
    - [Anthropic], [AnthropicStream], [Hub]: the Anthropic dialect
      ([anthropic.rs]): requests and answers; the rendered stream and a client
      that reads it; the body every whole answer passes through.
    - [OpenAI], [OpenAIStream]: Chat Completions ([openai.rs]).
    - [Responses], [ResponsesStream], [ResponsesEcho]: the Responses dialect
      ([responses.rs]); the last composes its two halves over the wire.
    - [Gemini]: [generateContent] ([gemini.rs]).
    - [Converse], [ConverseStream]: Bedrock's Converse ([converse.rs]), which
      no client speaks.
    - [Frames]: the AWS event stream and server-sent events, byte by byte
      ([event_stream.rs], the reader of [gateway/sse.rs]).

    Serving a request, [oag-server/src/gateway/]:
    - [Slots]: the concurrency slots Redis keeps ([oag-store/src/cache.rs]) and
      the guard that beats and releases one ([select.rs]).
    - [Leasing]: choosing a credential and taking its slot ([select.rs]).
    - [Failover], [Pool], [Climb]: one rung ([failover.rs]); that rung over the
      real pool; the loop around it ([climb.rs]).
    - [Meter]: the ledger row of an attempt ([meter.rs]).
    - [Pump], [Pumped], [Collected]: the task between an upstream's bytes and a
      client's ([sse.rs]), what it promises, and one answer read both ways.
    - [Alias]: the spellings of a model name ([alias.rs]).
    - [Respond]: the answer to every error ([respond.rs], the messages of
      [error.rs]).
    - [Plan]: from key, route and request to a decision ([plan.rs]).
    - [Listing]: the models a key is shown ([models.rs]).
    - [SystemOne]: questions put to a System One host beside the chat routes,
      and what those hosts list ([gateway/systemone.rs], [set_catalog] of
      [state.rs]).

    Who calls, and with what:
    - [Identity]: minting, capping and revoking inbound keys, the signed
      entries of the shared cache and the lookup behind every request
      ([oag-store/src/repo/keys.rs], [auth.rs], [cache.rs],
      [gateway/authn.rs]).
    - [Shared]: the rest of what Redis holds for all replicas -- the token
      bucket of a route, locks, claims and pins -- and the one connection a
      replica has to it ([oag-store/src/cache.rs]).
    - [Refresh]: credentials sealed at rest, and the refresh of one by many
      requests at once ([oag-core/src/seal.rs], [gateway/refresh.rs]).
    - [Tokens]: where refreshed tokens come from -- Grok, Codex, Google
      ([oag-upstream/src/xai_oauth.rs], [openai_oauth.rs], [gcp_token.rs]).
    - [Ordered]: a [BTreeMap] of strings.

    Upstreams:
    - [Endpoints]: what an endpoint row may say, the hosts it may name, the
      adapter it gets and the reload that serves it ([oag-core/src/endpoint.rs],
      [service.rs], [oag-server/src/egress.rs], [state.rs],
      [oag-upstream/src/custom.rs]).
    - [EndpointTable]: the table of endpoints and the handlers that write it
      ([oag-server/src/endpoints.rs], [oag-store/src/repo/endpoints.rs]).
    - [Upstream]: the request every adapter sends, and AWS's signature
      ([oag-upstream]).
    - [Offers]: reading a model list across its pages, and choosing among the
      offers for one model ([oag-upstream/src/listing.rs]).
    - [CatalogSync]: the catalogue's sync with such a list
      ([oag-server/src/endpoint_sync.rs], [oag-store/src/repo/catalog.rs]).

    Administration:
    - [Period]: reporting windows and the months of a seat's fee
      ([oag-server/src/admin/period.rs]).
    - [Import]: a command line's own transcripts, folded into the ledger and
      taken out of it ([oag/src/admin/usage_import.rs] and its directory).

    ** How they interact

    [Plan.route_request] reads the model's name ([Alias.normalise]), reads the
    route, the key's policy and the spend, and decides ([Plan.plan_request],
    over [Policy.decide]); [Listing.data] offers what that would honour.
    [Climb.run_with_escalation] is given the plan.  Each pass runs [Failover.forward_with_failover], which
    leases credentials one after another and runs [Failover.try_credential] on
    each: it fits the request to the model ([Canonical.for_model]), respells
    names ([Names]), claims the credential's breaker ([Fleet.claim]) and sends,
    retrying by the disposition of the error ([Errors.disposition]).  A
    collected answer is judged ([Stream.quality_gate]); an unusable one sends
    the request up the ladder ([Policy.escalate_decision]) and an empty pool
    sends it past the provider ([Policy.escalate_past_provider]).  Every answer
    on the way becomes a row ([Meter.usage_write]).

    [Failover] takes its pool as a function; [Pool] puts [Leasing.lease] there,
    and [Leasing] takes its slots by the scripts of [Slots].  An adapter is
    the class [Pump.ProviderAdapter]: its framing, one of the readers of
    [Frames], and its reading of one payload, which is a codec's
    [parse_event]; the class [Pumped.Lawful] is what the pump relies on, and its
    instances are proved for the codecs.  The pump folds the events into the
    account ([Stream]) and into the client's dialect
    ([AnthropicStream], [OpenAIStream], [ResponsesStream], [Gemini]); a client
    that wants one body gets [Hub.render_from_events] through
    [Pump.collect_stream_with].  [Collected] joins Converse's codec, its frames
    and the collectors.

    [EndpointTable]'s handlers are programs over atomic statements, run
    interleaved with other requests' statements; the rows they leave pass
    [Endpoints]'s rules, and [Endpoints]'s reload makes adapters of them.
    [Upstream] builds each adapter's request from the codecs' bodies, with the
    header functions [Offers] uses for model lists; [CatalogSync] plans over
    [Offers]'s choice and [Efforts]' levels.

    [Identity.AuthCache.System], [Shared.Dial.Conn] and [Refresh.Refresh.World]
    are the states of step relations: loads, dials and refreshes of any number
    of requests and replicas, one atomic step of one of them at a time, with
    failures, dropped futures and lost answers as steps of their own.
    [Refresh] takes its lock by [Shared.Claims] on [Identity]'s Redis; what a
    vendor answers there is any answer, and [Tokens] is what the adapters make
    of one.  [Import] prices with [CatalogSync]'s rows and [Cost], and reads the
    ledger [Meter] writes.

    [SystemOne] runs its own loops over [Failover]'s world, breakers, waits and
    dispositions, admits by [Plan]'s reads, sends what [Upstream] and [Offers]
    build, and writes [Meter]'s row; the SDK's decoders are parameters.

    State is passed explicitly.  [Failover.World] holds the replica's breakers
    and a trace of what was done in order -- leases, requests, the streams and
    bodies that came back, releases, parkings, waits -- that no definition
    reads.  What is outside the
    process (the pool's rows, token refresh, adapters, network, clock) is a
    function in [Failover.Env] of how far the run has come, so two calls may
    answer differently, and nothing is assumed of it unless a theorem says so:
    [Failover.never_excluded], that the pool does not hand back a credential
    it was told is excluded, which [Pool] proves of leasing, and in
    [waits_are_bounded] the errors that preparing a credential may give.
    [Pump]'s environment is a list of passes, [Offers]' a function from what
    was asked so far.

    Packages the source calls are classes, with what is relied on of them in a
    class of laws and an instance for the witnesses: [JsonText] and [ByteText]
    (printing and parsing JSON), [UrlCrate] with [UrlLaws], [HeaderCrate] with
    [HeaderLaws], [UrlQuery] with [UrlQueryLaws], [DecimalText], [TimeCrate]
    with [TimeLaws], [Decimal] with [DecimalLaws], [AuthCodec] with
    [AuthCodecLaws], [Aead] with [AeadLaws], [RsaCrate], [member_laws] for an object's members.  SHA-256 and HMAC are
    parameters.

    ** What the theorems show

    - Requests, end to end: [request_is_metered] (the loop ends, no lease
      leaks, and each generated answer, told from what came over the wire, has
      one row), [held_to_the_plan],
      [climb_is_labelled], [suppression_is_counterfactual].
    - One rung: [failover_is_bounded_and_accounted], [probes_left_as_found],
      [waits_are_bounded]; [failover_over_the_pool] discharges their
      assumption of the pool.
    - Credentials: [breaker_refines_history] refines the breaker to a
      specification over the history of outcomes; [probe_is_exclusive] holds of
      every interleaving of requests and of what becomes of them, by rule
      induction over [Fleet.step];
      [select_optimal] and [select_every_best] of the cascade;
      [pins_are_scoped] of affinity.  [slots_never_oversubscribed] is of every
      interleaving of the slot scripts, [missed_beats_keep_the_seat] of a
      holder that beats late, [lease_is_honest], [lease_refusals] and
      [lease_returns] of leasing.
    - Callers: [identity_is_the_databases], whoever writes to the shared cache;
      [identities_age_out], how long an identity outlives what the database
      says; [minted_key_is_its_own], [lookups_are_bounded].
      [bucket_bounds_a_stretch] and [waits_are_exact] of a route's rate.
    - One connection: [one_dial_at_a_time], [stale_deadline_spares], and
      [a_waiting_caller_is_woken], that nobody waits in vain.
    - Refreshing: [refreshes_take_turns] while the lock is held in time,
      [stored_credentials_form_a_chain] and [no_request_goes_backwards] even
      when it is not; [sealed_credential_opens]; [refresh_token_goes_home],
      [mints_are_spaced], [handed_tokens_last], [no_piece_is_quoted].
    - Routing: floors, the lowest capable rung, passthrough, refusals,
      climbing past a provider, what a caller is told it may use, budgets, the
      catalogue's index, classification.
    - Requests on the wire: vendor fields, function names and tool-call ids
      round trip; efforts are fitted to the model.  [request_roundtrip],
      [chat_request_roundtrip], [responses_request_roundtrip],
      [gemini_request_roundtrip] and [converse_request_roundtrip] read each
      dialect's requests back; [thinking_is_acceptable] and
      [converse_request_is_accepted] are of the service's own rules.
    - Streams: [chunking_irrelevant], the events do not depend on where the
      transport cut the bytes; [frames_roundtrip]; [verdict_of_stream], the
      verdict and the usage are those of the whole stream.
      [stream_is_accepted] (exactly which rendered streams a client of the
      dialect accepts), [stream_says_the_answer] and
      [responses_stream_is_accepted] run a client of the dialect on the
      rendered stream, by a simulation ([AnthropicStream.sim]);
      [chat_stream_roundtrip] and [responses_stream_roundtrip] read it back;
      [hub_keeps_the_answer], [completion_keeps_the_answer] and
      [responses_keeps_the_answer] are of whole bodies, and
      [converse_collected_alike] of one answer in both shapes.
    - The pump: [accounting_ignores_the_client], against the upstream followed
      with nobody to send to ([Pumped.drain]); [ending_is_told_once], in the
      client's dialect and for the failure recorded; [passthrough_is_verbatim],
      [collector_agrees_with_pump], [pump_ends],
      [pump_is_bounded].
    - Planning and listing: [plan_respects_floor], [asked_rung_is_served],
      [plan_refusals]; [listed_is_served] composes listing, alias reading and
      planning; [error_response_honest] is of what a refusal tells the caller.
    - Endpoints: [served_rows_are_typed], column by column;
      [base_url_is_canonical]; [reload_has_no_gap], whose adapter answers for
      which provider at every moment of a reload; [written_rows_are_served],
      [change_is_all_or_nothing], [no_key_moves] and
      [schema_agrees_with_rules] over every interleaving of the writers.
    - Upstream requests: [key_rides_alone], over every line of the request;
      [model_is_one_segment]; and [aws_requests_verify], by a verifier written
      from the service's description of a signature, apart from the signer.
    - Model lists: [list_is_read_to_its_end] (every page is asked for, and the
      reading ends), [lists_are_read_at_home], [offer_is_the_cheapest].
    - The catalogue's sync: [sync_spares_what_is_not_its_own], whatever was
      written between its look and its write; [second_sync_changes_nothing],
      [report_says_what_was_done]; [glob_is_matching] of its filters.
    - Questions: [question_is_accounted] (leases, bounds, probes and the one
      row of an answer), [questions_go_where_named],
      [chat_and_questions_keep_apart] over [Plan] and the two catalogues,
      [renamed_keeps_the_rest]; [listing_writes_nothing] and
      [listed_name_is_answered_there] of the listing.
    - Money: merged usage is the least bound, cost is monotone, seat rows are
      exactly the served answers of flat-rate seats; [windows_run_forwards],
      [neighbours_meet], [whole_months_are_whole] and [fees_are_bounded] of
      reporting periods.
    - Imported usage: [what_is_imported], exactly which sessions;
      [a_rerun_finishes], of an import planned and written again;
      [revert_undoes_an_import], which rows it takes and which it leaves;
      [prices_are_unambiguous].

    Some theorems state what the code does where its comments say otherwise:
    [Policy.entitled_overpromises_shared_model],
    [Policy.baseline_below_the_serving_rung], [Names.sanitize_keeps_underscores],
    [Fleet.cancelled_probe_is_stuck], [Alias.alias_of_at_id_refused],
    [AnthropicStream.text_joins_thinking], [Slots.beat_can_undo_release],
    [Pumped.error_frame_is_glued],
    [CatalogSync.SmallSync.restated_is_reported_laddered],
    [Identity.SmallIdentity.revoked_key_is_taken_later],
    [Identity.SmallIdentity.expired_key_is_taken_briefly] and
    [Refresh.SmallRefresh.two_at_once], two presentations of one refresh token
    when a call outlasts the lock.

    ** Numbers, bounds and fuel

    Machine integers are [Z] with the saturation or wrap-around written out
    ([sat_add], [sat_mul], [i64_sat_add], and [wrapping_u64] for sums a release
    build lets wrap); durations are milliseconds, instants seconds in the
    breakers, milliseconds in the meter, microseconds in a token bucket and
    nanoseconds in [Period] and [Import].  The bucket's doubles are rationals.  Loops
    that are not structural run on fuel: the retry and failover loops count
    down what the configuration allows, so they are total; [Climb.FUEL] is two
    passes, and [request_is_metered] proves them enough; a walk up a ladder has
    one unit per rung and one more, and [resolve_loop_enough] and
    [past_provider_loop_enough] prove that enough; making a name unique tries
    one spelling more than are taken, and [free_spelling] finds one; the
    cascade of a lease has one unit per row and the recount, and
    [cascade_spec] proves that enough; a list is read for at most
    [Offers.MAX_PAGES] pages, and [page_loop_ends] shows the reading
    ends within them; a System One host's by [MAX_LISTING_PAGES], which is
    the loop's own count.

    ** What is not modelled, and why

    Sockets, HTTP serving and the transport; the polling of vendors' usage
    pages, which is an exchange with third parties; the store's SQL other than
    keys, the endpoint table, refreshed credentials, imported usage and the
    catalogue's sync; configuration, which is environment variables; the
    administration API's other handlers and the rest of the command line,
    which read and print the store.  Clocks are one clock in [Identity],
    [Shared] and [Refresh], and ciphers, signatures and base64 are parameters.
    Metrics and log lines are left out everywhere, as is the [f32] temperature
    of the codecs.  Futures dropped mid-way -- a client hanging up -- are
    modelled in [Fleet] (a guard dropped at any step), in [Slots] and in [Pump]
    (the client's channel closes), and not in [Failover], whose runs are
    uninterrupted. *)

From stdpp Require Export base tactics option list numbers strings gmap sets.
From Stdlib Require Export Lia.

#[global] Set Warnings "-clear-no-such-hyp".
#[local] Open Scope Z_scope.

(** ** Automation *)

Create HintDb oag discriminated.
Create Rewrite HintDb oag.

(** Turn boolean connectives and comparisons in the hypotheses and the goal
    into propositions, ready for [lia] and [naive_solver]. *)
Ltac bool_to_prop :=
  repeat match goal with
  | H : _ && _ = true |- _ => apply andb_true_iff in H as [? ?]
  | H : _ || _ = false |- _ => apply orb_false_iff in H as [? ?]
  | H : negb _ = true |- _ => apply negb_true_iff in H
  | H : negb _ = false |- _ => apply negb_false_iff in H
  | H : (_ <=? _)%Z = true |- _ => apply Z.leb_le in H
  | H : (_ <=? _)%Z = false |- _ => apply Z.leb_gt in H
  | H : (_ <? _)%Z = true |- _ => apply Z.ltb_lt in H
  | H : (_ <? _)%Z = false |- _ => apply Z.ltb_ge in H
  | H : (_ =? _)%Z = true |- _ => apply Z.eqb_eq in H
  | H : (_ =? _)%Z = false |- _ => apply Z.eqb_neq in H
  | H : (_ >=? _)%Z = true |- _ => apply Z.geb_le in H
  | H : bool_decide _ = true |- _ => apply bool_decide_eq_true in H
  | H : bool_decide _ = false |- _ => apply bool_decide_eq_false in H
  end.

(** Case on every match of the goal and close what computation closes. *)
Ltac crush_match := repeat case_match; simplify_eq/=; try done.

(** ** Results: [Result<T, E>] of the source *)

Inductive result (A E : Type) : Type :=
  | Ok (a : A)
  | Err (e : E).
Arguments Ok {A E} _.
Arguments Err {A E} _.

Definition result_bind {A B E} (r : result A E) (f : A → result B E) : result B E :=
  match r with Ok a => f a | Err e => Err e end.

Declare Scope oag_scope.
Delimit Scope oag_scope with oag.
Notation "'let?' x ':=' r 'in' k" := (result_bind r (fun x => k))
  (at level 10, x pattern, r at level 100, k at level 200) : oag_scope.

Definition ok_or {A E} (o : option A) (e : E) : result A E :=
  match o with Some a => Ok a | None => Err e end.
Definition result_ok {A E} (r : result A E) : option A :=
  match r with Ok a => Some a | Err _ => None end.

Lemma result_bind_Ok {A B E} (r : result A E) (f : A → result B E) b :
  result_bind r f = Ok b ↔ ∃ a, r = Ok a ∧ f a = Ok b.
Proof. destruct r; naive_solver. Qed.

(** ** Machine integers

    A [u8], [u32], [u64], [usize] or [i64] of the source is a [Z]; the bounds
    and the saturating operations are written out. *)

Definition U8_MAX : Z := 255.
Definition U16_MAX : Z := 65535.
Definition U32_MAX : Z := 4294967295.
Definition U64_MAX : Z := 18446744073709551615.
Definition I64_MAX : Z := 9223372036854775807.
Definition I64_MIN : Z := -9223372036854775808.

Definition is_uint (max x : Z) : Prop := 0 ≤ x ≤ max.
Definition is_i64 (x : Z) : Prop := I64_MIN ≤ x ≤ I64_MAX.

(** [x.saturating_add(y)] on an unsigned type whose maximum is [max]. *)
Definition sat_add (max x y : Z) : Z := Z.min max (x + y).
Definition sat_mul (max x y : Z) : Z := Z.min max (x * y).
Definition sat_sub (x y : Z) : Z := Z.max 0 (x - y).
Definition i64_sat_add (x y : Z) : Z := Z.max I64_MIN (Z.min I64_MAX (x + y)).

(** [u8::try_from(i)] for an index [i]. *)
Definition try_u8 (i : nat) : option Z :=
  if Z.of_nat i <=? U8_MAX then Some (Z.of_nat i) else None.

Lemma sat_add_range max x y :
  0 ≤ max → is_uint max x → is_uint max y → is_uint max (sat_add max x y).
Proof. unfold is_uint, sat_add. lia. Qed.

Lemma sat_add_exact max x y : x + y ≤ max → sat_add max x y = x + y.
Proof. unfold sat_add. lia. Qed.

Lemma sat_add_ge max x y : is_uint max x → 0 ≤ y → x ≤ sat_add max x y.
Proof. unfold is_uint, sat_add. lia. Qed.

Lemma i64_sat_add_range x y : is_i64 (i64_sat_add x y).
Proof. unfold is_i64, i64_sat_add, I64_MIN, I64_MAX. lia. Qed.

Lemma try_u8_Some i r : try_u8 i = Some r ↔ r = Z.of_nat i ∧ Z.of_nat i ≤ U8_MAX.
Proof. unfold try_u8. destruct (Z.leb_spec (Z.of_nat i) U8_MAX); naive_solver lia. Qed.

#[export] Hint Resolve sat_add_range i64_sat_add_range : oag.

(** ** Lists and iterators *)

Section iterators.
Context {A : Type}.
Implicit Types (p q : A → bool) (l : list A).

(** [iter().position(p)]. *)
Fixpoint position p l : option nat :=
  match l with
  | [] => None
  | x :: l => if p x then Some O else S <$> position p l
  end.

(** [iter().find(p)]. *)
Definition find p l : option A := List.find p l.

(** [iter().any(p)] and [iter().all(p)]. *)
Definition any p l : bool := List.existsb p l.
Definition all p l : bool := List.forallb p l.

(** [iter().filter(p).collect()]. *)
Definition keep p l : list A := List.filter p l.

(** [iter().filter_map(f).collect()]. *)
Fixpoint filter_map {B} (f : A → option B) l : list B :=
  match l with
  | [] => []
  | x :: l => match f x with Some y => y :: filter_map f l | None => filter_map f l end
  end.

(** [iter().map(key).min()] over an integer key. *)
Definition min_key (key : A → Z) l : option Z :=
  match l with
  | [] => None
  | x :: l => Some (fold_left (fun m y => Z.min m (key y)) l (key x))
  end.

(** [iter().max_by(cmp)]: of several maximal elements the last wins.
    [ge new best] says the comparison does not put [new] below [best]. *)
Definition max_by (ge : A → A → bool) l : option A :=
  match l with
  | [] => None
  | x :: l => Some (fold_left (fun best y => if ge y best then y else best) l x)
  end.

Lemma position_Some p l i :
  position p l = Some i →
  ∃ x, l !! i = Some x ∧ p x = true ∧ ∀ j y, (j < i)%nat → l !! j = Some y → p y = false.
Proof.
  revert i; induction l as [|x l IH]; intros i; simpl; [done|].
  destruct (p x) eqn:Hx.
  - intros [= <-]. exists x. split_and!; [done..|]. intros ??; lia.
  - rewrite fmap_Some. intros (k & Hk & ->).
    destruct (IH _ Hk) as (y & ? & ? & Hmin). exists y. split_and!; [done..|].
    intros [|j] z ?; simpl; [naive_solver|]. intros. eapply Hmin; [|done]. lia.
Qed.

Lemma position_None p l : position p l = None ↔ ∀ x, In x l → p x = false.
Proof.
  induction l as [|x l IH]; simpl; [naive_solver|].
  destruct (p x) eqn:Hx.
  - split; [done|]. intros H. rewrite (H x) in Hx by auto. done.
  - rewrite fmap_None, IH. split; [|by auto]. intros H y [<-|?]; auto.
Qed.

Lemma find_Some p l x : find p l = Some x → In x l ∧ p x = true.
Proof. apply List.find_some. Qed.

Lemma find_None p l : find p l = None ↔ ∀ x, In x l → p x = false.
Proof.
  split; [apply List.find_none|]. unfold find.
  induction l as [|y l IH]; simpl; [done|]. intros H. rewrite H by auto. auto.
Qed.

Lemma find_is_Some p l : is_Some (find p l) ↔ ∃ x, In x l ∧ p x = true.
Proof.
  rewrite <-not_eq_None_Some, find_None. split.
  - intros H. destruct (List.existsb p l) eqn:E.
    + by apply List.existsb_exists in E.
    + exfalso. apply H. intros x Hx. destruct (p x) eqn:Hp; [|done].
      enough (List.existsb p l = true) by congruence.
      apply List.existsb_exists. eauto.
  - intros (x & Hx & Hp) H. rewrite (H x Hx) in Hp. done.
Qed.

Lemma keep_In p l x : In x (keep p l) ↔ In x l ∧ p x = true.
Proof. apply List.filter_In. Qed.

Lemma any_true p l : any p l = true ↔ ∃ x, In x l ∧ p x = true.
Proof. apply List.existsb_exists. Qed.

Lemma all_true p l : all p l = true ↔ ∀ x, In x l → p x = true.
Proof. apply List.forallb_forall. Qed.

Lemma filter_map_app {B} (f : A → option B) l l' :
  filter_map f (l ++ l') = filter_map f l ++ filter_map f l'.
Proof. induction l as [|x l IH]; simpl; [done|]. destruct (f x); simpl; by rewrite IH. Qed.

Lemma filter_map_In {B} (f : A → option B) l y :
  In y (filter_map f l) ↔ ∃ x, In x l ∧ f x = Some y.
Proof.
  induction l as [|x l IH]; simpl; [naive_solver|].
  destruct (f x) eqn:?; simpl; rewrite IH; naive_solver.
Qed.

Lemma fold_min_spec (key : A → Z) l m :
  let r := fold_left (fun m y => Z.min m (key y)) l m in
  r ≤ m ∧ (∀ x, In x l → r ≤ key x) ∧ (r = m ∨ ∃ x, In x l ∧ r = key x).
Proof.
  revert m; induction l as [|y l IH]; intros m; simpl.
  { split_and!; [lia|done|by left]. }
  destruct (IH (Z.min m (key y))) as (H1 & H2 & H3). split_and!.
  - lia.
  - intros x [<-|Hx]; [lia|auto].
  - destruct H3 as [->|(x & ? & ?)]; [|naive_solver].
    destruct (Z.min_spec m (key y)) as [[_ ->]|[_ ->]]; naive_solver.
Qed.

Lemma min_key_spec (key : A → Z) l m :
  min_key key l = Some m → (∃ x, In x l ∧ key x = m) ∧ ∀ x, In x l → m ≤ key x.
Proof.
  destruct l as [|a l]; simpl; [done|]. intros [= <-].
  destruct (fold_min_spec key l (key a)) as (H1 & H2 & H3). split.
  - destruct H3 as [->|(x & ? & ->)]; eauto.
  - intros x [<-|Hx]; auto.
Qed.

Lemma min_key_None (key : A → Z) l : min_key key l = None ↔ l = [].
Proof. by destruct l. Qed.

(** The winner of [max_by] is an element no other element beats, when [ge]
    is total and transitive. *)
Lemma fold_max_spec (ge : A → A → bool) l b :
  (∀ x y, ge x y = false → ge y x = true) →
  (∀ x y z, ge x y = true → ge y z = true → ge x z = true) →
  (∀ x, ge x x = true) →
  let r := fold_left (fun best y => if ge y best then y else best) l b in
  ge r b = true ∧ (∀ x, In x l → ge r x = true) ∧ (r = b ∨ In r l).
Proof.
  intros Htot Htrans Hrefl. revert b; induction l as [|y l IH]; intros b; simpl.
  { auto. }
  destruct (IH (if ge y b then y else b)) as (H1 & H2 & H3).
  destruct (ge y b) eqn:Hyb; split_and!; eauto; try naive_solver.
Qed.

Lemma max_by_spec (ge : A → A → bool) l r :
  (∀ x y, ge x y = false → ge y x = true) →
  (∀ x y z, ge x y = true → ge y z = true → ge x z = true) →
  (∀ x, ge x x = true) →
  max_by ge l = Some r → In r l ∧ ∀ x, In x l → ge r x = true.
Proof.
  intros Ht Htr Hr. destruct l as [|a l]; simpl; [done|]. intros [= <-].
  destruct (fold_max_spec ge l a Ht Htr Hr) as (H1 & H2 & H3). split.
  - destruct H3 as [->|?]; auto.
  - intros x [<-|Hx]; auto.
Qed.

Lemma keep_nil p l : keep p l = [] ↔ ∀ x, In x l → p x = false.
Proof.
  unfold keep. induction l as [|x l IH]; simpl; [naive_solver|].
  destruct (p x) eqn:Hx.
  - split; [done|]. intros H. rewrite (H x) in Hx by auto. done.
  - rewrite IH. split; [|by auto]. intros H y [<-|?]; auto.
Qed.

Lemma max_by_None (ge : A → A → bool) l : max_by ge l = None ↔ l = [].
Proof. by destruct l. Qed.

(** The elements a minimum leaves standing: [let m = l.min(key)?] followed by
    [l.filter(key == m)]. *)
Lemma keep_min_spec (key : A → Z) l m x :
  min_key key l = Some m →
  In x (keep (fun y => key y =? m) l) ↔ In x l ∧ ∀ y, In y l → key x ≤ key y.
Proof.
  intros Hm. destruct (min_key_spec _ _ _ Hm) as [(a & Ha & <-) Hle].
  rewrite keep_In, Z.eqb_eq. split; intros [Hx H]; split; try done.
  - intros y Hy. rewrite H. auto.
  - specialize (H a Ha). specialize (Hle x Hx). lia.
Qed.

Lemma keep_min_nonempty (key : A → Z) l m :
  min_key key l = Some m → keep (fun y => key y =? m) l ≠ [].
Proof.
  intros Hm. destruct (min_key_spec _ _ _ Hm) as [(a & Ha & <-) Hle] . intros Hn.
  rewrite keep_nil in Hn. specialize (Hn a Ha). rewrite Z.eqb_refl in Hn. done.
Qed.

Lemma In_lookup l x : In x l ↔ ∃ i, l !! i = Some x.
Proof. rewrite <-list_elem_of_In. apply list_elem_of_lookup. Qed.
End iterators.

(** Pigeonhole: of more spellings than a finite set holds, one is free. *)
Lemma free_spelling `{Countable A} (f : nat → A) (used : gset A) :
  (∀ i j, (i ≤ size used)%nat → (j ≤ size used)%nat → f i = f j → i = j) →
  ∃ i, (i ≤ size used)%nat ∧ f i ∉ used.
Proof.
  intros Hinj. destruct (decide (Forall (fun i => f i ∈ used) (seq 0 (S (size used))))) as [Hall|Hno].
  - exfalso. rewrite Forall_forall in Hall.
    assert (NoDup (f <$> seq 0 (S (size used)))) as Hnd.
    { apply NoDup_fmap_2_strong; [|apply NoDup_seq].
      intros i j Hi%elem_of_seq Hj%elem_of_seq. apply Hinj; lia. }
    assert (list_to_set (f <$> seq 0 (S (size used))) ⊆ used) as Hsub.
    { intros x Hx%elem_of_list_to_set. apply list_elem_of_fmap in Hx as (i & -> & Hi). auto. }
    apply subseteq_size in Hsub. rewrite size_list_to_set in Hsub by done.
    rewrite length_fmap, length_seq in Hsub. lia.
  - apply not_Forall_Exists in Hno; [|apply _]. apply Exists_exists in Hno as (i & Hi%elem_of_seq & Hn).
    exists i. split; [lia|done].
Qed.

#[export] Hint Rewrite @keep_In @filter_map_In @any_true @all_true : oag.
