(* ===== verification/Text.v ===== *)
(** * Text: the operations of Rust's [str] the gateway uses

    A [String] of the source is a [string], read as its UTF-8 bytes: [len] is
    the number of bytes, equality and ordering are bytewise, as they are in
    Rust.  Every operation here is the one of the Rust standard library named
    in its comment. *)

From Stdlib Require Import Ascii.
From S2P Require Import Prelude.
#[local] Open Scope Z_scope.

Notation "a +:+ b" := (String.append a b) (at level 60, right associativity) : oag_scope.
#[local] Open Scope oag_scope.
#[local] Arguments String.append !_ _ / : simpl nomatch.

Module Str.

(** [s.len()]. *)
Definition len (s : string) : Z := Z.of_nat (String.length s).

Definition is_empty (s : string) : bool :=
  match s with EmptyString => true | _ => false end.

Definition eqb (a b : string) : bool := String.eqb a b.

(** [s.bytes()] and the string of some bytes. *)
Definition bytes (s : string) : list ascii := String.list_ascii_of_string s.
Definition of_bytes (l : list ascii) : string := String.string_of_list_ascii l.

Definition code (c : ascii) : Z := Z.of_N (N_of_ascii c).
Definition in_span (lo hi : Z) (c : ascii) : bool := (lo <=? code c) && (code c <=? hi).

Definition is_ascii_lowercase := in_span 97 122.
Definition is_ascii_uppercase := in_span 65 90.
Definition is_ascii_digit := in_span 48 57.
Definition is_ascii_alphanumeric (c : ascii) : bool :=
  is_ascii_lowercase c || is_ascii_uppercase c || is_ascii_digit c.

Definition to_ascii_lowercase_byte (c : ascii) : ascii :=
  if is_ascii_uppercase c then ascii_of_N (Z.to_N (code c + 32)) else c.

(** [s.to_ascii_lowercase()]. *)
Fixpoint to_ascii_lowercase (s : string) : string :=
  match s with
  | EmptyString => EmptyString
  | String c s => String (to_ascii_lowercase_byte c) (to_ascii_lowercase s)
  end.

(** [s.starts_with(p)], [s.strip_prefix(p)]. *)
Definition starts_with (s p : string) : bool := String.prefix p s.

Fixpoint strip_prefix (s p : string) {struct p} : option string :=
  match p, s with
  | EmptyString, _ => Some s
  | String a p, String b s => if Ascii.eqb a b then strip_prefix s p else None
  | String _ _, EmptyString => None
  end.

(** [s.contains(needle)]. *)
Fixpoint contains (s needle : string) : bool :=
  starts_with s needle ||
  match s with EmptyString => false | String _ s => contains s needle end.

(** [s.split_once(c)] on the first, [s.rsplit_once(c)] on the last [c]. *)
Fixpoint split_once (s : string) (c : ascii) : option (string * string) :=
  match s with
  | EmptyString => None
  | String a s =>
      if Ascii.eqb a c then Some (EmptyString, s)
      else match split_once s c with Some (l, r) => Some (String a l, r) | None => None end
  end.

Fixpoint rsplit_once (s : string) (c : ascii) : option (string * string) :=
  match s with
  | EmptyString => None
  | String a s =>
      match rsplit_once s c with
      | Some (l, r) => Some (String a l, r)
      | None => if Ascii.eqb a c then Some (EmptyString, s) else None
      end
  end.

Fixpoint drop (n : nat) (s : string) {struct n} : string :=
  match n, s with S n, String _ s => drop n s | _, _ => s end.

Fixpoint take (n : nat) (s : string) {struct n} : string :=
  match n, s with S n, String c s => String c (take n s) | _, _ => EmptyString end.

(** [s.split(c)]. *)
Fixpoint split (s : string) (c : ascii) : list string :=
  match s with
  | EmptyString => [EmptyString]
  | String a s =>
      if Ascii.eqb a c then EmptyString :: split s c
      else match split s c with
           | [] => [String a EmptyString]
           | p :: ps => String a p :: ps
           end
  end.

(** [s.push(c)], [s.ends_with(c)], [s.trim_matches(c)]. *)
Definition push (s : string) (c : ascii) : string := s +:+ String c EmptyString.

Definition ends_with_char (s : string) (c : ascii) : bool :=
  match rev (bytes s) with d :: _ => Ascii.eqb d c | [] => false end.

Fixpoint drop_char (c : ascii) (l : list ascii) : list ascii :=
  match l with d :: l' => if Ascii.eqb d c then drop_char c l' else l | [] => [] end.

Definition trim_matches (s : string) (c : ascii) : string :=
  of_bytes (rev (drop_char c (rev (drop_char c (bytes s))))).

(** [s.trim_end_matches(c)]. *)
Definition trim_end_matches (s : string) (c : ascii) : string :=
  of_bytes (rev (drop_char c (rev (bytes s)))).

(** [s.strip_suffix(p)]. *)
Definition strip_suffix (s p : string) : option string :=
  let n := (String.length s - String.length p)%nat in
  if (String.length p <=? String.length s)%nat && eqb (drop n s) p then Some (take n s) else None.

(** [s.chars().any(char::is_control)]: the category Cc is U+0000..1F, U+007F
    and U+0080..9F, the last spelt with the lead byte C2. *)
Fixpoint control_byte (l : list ascii) : bool :=
  match l with
  | [] => false
  | a :: l =>
      (code a <? 32) || (code a =? 127)
      || (code a =? 194) && match l with b :: _ => in_span 128 159 b | [] => false end
      || control_byte l
  end.

Definition has_control (s : string) : bool := control_byte (bytes s).

(** [s.chars().count()]: every byte but a continuation byte begins one. *)
Definition chars_count (s : string) : Z :=
  Z.of_nat (length (List.filter (fun c => negb (in_span 128 191 c)) (bytes s))).

(** The length in bytes of the [White_Space] character the string starts
    with, 0 when it starts with none: U+0009..D, U+0020, U+0085, U+00A0,
    U+1680, U+2000..A, U+2028, U+2029, U+202F, U+205F and U+3000. *)
Definition white_space_at (s : string) : nat :=
  match bytes s with
  | a :: rest =>
      if (code a =? 32) || in_span 9 13 a then 1%nat
      else match rest with
      | b :: rest =>
          if (code a =? 194) && ((code b =? 133) || (code b =? 160)) then 2%nat
          else match rest with
          | c :: _ =>
              if ((code a =? 225) && (code b =? 154) && (code c =? 128))
                 || ((code a =? 226) && (code b =? 128)
                     && (in_span 128 138 c || (code c =? 168) || (code c =? 169) || (code c =? 175)))
                 || ((code a =? 226) && (code b =? 129) && (code c =? 159))
                 || ((code a =? 227) && (code b =? 128) && (code c =? 128))
              then 3%nat else 0%nat
          | [] => 0%nat
          end
      | [] => 0%nat
      end
  | [] => 0%nat
  end.

(** The length in bytes of the [White_Space] character the string ends with. *)
Definition white_space_end (s : string) : nat :=
  let l := String.length s in
  let ends k := Nat.eqb (white_space_at (drop (l - k) s)) k in
  if ends 1%nat then 1%nat else if ends 2%nat then 2%nat else if ends 3%nat then 3%nat else 0%nat.

Fixpoint trim_start_fuel (fuel : nat) (s : string) : string :=
  match fuel with
  | O => s
  | S fuel => match white_space_at s with O => s | n => trim_start_fuel fuel (drop n s) end
  end.

Fixpoint trim_end_fuel (fuel : nat) (s : string) : string :=
  match fuel with
  | O => s
  | S fuel =>
      match white_space_end s with
      | O => s
      | n => trim_end_fuel fuel (take (String.length s - n) s)
      end
  end.

(** [s.trim()]; each step removes at least one byte, so the length is enough
    fuel. *)
Definition trim (s : string) : string :=
  let s := trim_start_fuel (String.length s) s in
  trim_end_fuel (String.length s) s.

(** [parts.join(sep)]. *)
Fixpoint join (sep : string) (parts : list string) : string :=
  match parts with
  | [] => EmptyString
  | [p] => p
  | p :: ps => p +:+ sep +:+ join sep ps
  end.

(** [n.to_string()] for an unsigned integer: decimal digits, no padding. *)
Definition digit (d : Z) : ascii := ascii_of_N (Z.to_N (48 + d)).

Fixpoint decimal_fuel (fuel : nat) (n : Z) : string :=
  match fuel with
  | O => EmptyString
  | S fuel =>
      if n <? 10 then String (digit n) EmptyString
      else decimal_fuel fuel (n / 10) +:+ String (digit (n mod 10)) EmptyString
  end.

(** Twenty digits hold every [u64]. *)
Definition decimal (n : Z) : string := decimal_fuel 20 n.

(** ** Lemmas *)

Lemma str_eqb_eq a b : eqb a b = true ↔ a = b.
Proof. apply String.eqb_eq. Qed.

Lemma str_eqb_neq a b : eqb a b = false ↔ a ≠ b.
Proof. apply String.eqb_neq. Qed.

Lemma str_eqb_refl a : eqb a a = true.
Proof. apply String.eqb_refl. Qed.

Lemma of_bytes_bytes s : of_bytes (bytes s) = s.
Proof. apply String.string_of_list_ascii_of_string. Qed.

Lemma bytes_of_bytes l : bytes (of_bytes l) = l.
Proof. apply String.list_ascii_of_string_of_list_ascii. Qed.

Lemma bytes_length s : length (bytes s) = String.length s.
Proof. induction s; simpl; congruence. Qed.

Lemma bytes_app a b : bytes (a +:+ b) = bytes a ++ bytes b.
Proof. induction a as [|c a IH]; simpl; [done|]. by rewrite IH. Qed.

Lemma bytes_inj a b : bytes a = bytes b → a = b.
Proof. intros H. by rewrite <-(of_bytes_bytes a), <-(of_bytes_bytes b), H. Qed.

Lemma length_append a b : String.length (a +:+ b) = (String.length a + String.length b)%nat.
Proof. rewrite <-!bytes_length, bytes_app, length_app. done. Qed.

Lemma append_empty_r a : a +:+ EmptyString = a.
Proof. apply bytes_inj. by rewrite bytes_app, app_nil_r. Qed.

Lemma append_assoc a b c : (a +:+ b) +:+ c = a +:+ b +:+ c.
Proof. apply bytes_inj. by rewrite !bytes_app, app_assoc. Qed.

Lemma append_inj_l a b c : a +:+ b = a +:+ c → b = c.
Proof. intros H. apply bytes_inj. apply (f_equal bytes) in H. rewrite !bytes_app in H. by simplify_list_eq. Qed.

Lemma strip_prefix_Some s p r : strip_prefix s p = Some r ↔ s = p +:+ r.
Proof.
  revert s; induction p as [|a p IH]; intros s; simpl.
  { split; intros H; simplify_eq/=; done. }
  destruct s as [|b s]; [split; intros H; congruence|].
  destruct (Ascii.eqb_spec a b) as [->|Hne].
  - rewrite IH. split; intros H; congruence.
  - split; intros H; congruence.
Qed.

Lemma starts_with_strip s p : starts_with s p = true ↔ is_Some (strip_prefix s p).
Proof.
  revert s; unfold starts_with; induction p as [|a p IH]; intros s; simpl.
  { split; [eauto|]. by destruct s. }
  destruct s as [|b s]; [split; [done|intros []; done]|].
  change (String.prefix (String a p) (String b s))
    with (if ascii_dec a b then String.prefix p s else false).
  destruct (ascii_dec a b) as [->|Hne].
  - rewrite Ascii.eqb_refl. apply IH.
  - destruct (Ascii.eqb_spec a b); [done|]. split; [done|intros []; done].
Qed.

Lemma starts_with_app s p : starts_with s p = true ↔ ∃ r, s = p +:+ r.
Proof.
  rewrite starts_with_strip. split; intros [r H]; exists r; by apply strip_prefix_Some.
Qed.

Lemma split_once_Some s c l r :
  split_once s c = Some (l, r) ↔ s = l +:+ String c r ∧ ¬ In c (bytes l).
Proof.
  revert l r; induction s as [|a s IH]; intros l r; simpl.
  { split; [done|]. intros [H _]. by destruct l. }
  destruct (Ascii.eqb_spec a c) as [->|Hne].
  - split; [intros [= <- <-]; auto|]. intros [H Hn].
    destruct l as [|b l]; simpl in *; [naive_solver|]. simplify_eq. naive_solver.
  - split.
    + destruct (split_once s c) as [[l' r']|] eqn:E; [|done]. intros [= <- <-].
      destruct (proj1 (IH l' r') eq_refl) as [-> ?]. simpl. naive_solver.
    + intros [H Hn]. destruct l as [|b l]; simpl in *; simplify_eq.
      rewrite (proj2 (IH l r)); [done|]. naive_solver.
Qed.

Lemma rsplit_once_None s c : rsplit_once s c = None ↔ ¬ In c (bytes s).
Proof.
  induction s as [|a s IH]; simpl; [naive_solver|].
  destruct (rsplit_once s c) as [[l r]|]; [naive_solver|].
  destruct (Ascii.eqb_spec a c) as [->|Hne]; naive_solver.
Qed.

Lemma rsplit_once_Some s c l r :
  rsplit_once s c = Some (l, r) ↔ s = l +:+ String c r ∧ ¬ In c (bytes r).
Proof.
  revert l r; induction s as [|a s IH]; intros l r; simpl.
  { split; [done|]. intros [H _]. by destruct l. }
  destruct (rsplit_once s c) as [[l' r']|] eqn:E.
  - destruct (proj1 (IH l' r') eq_refl) as [Hs Hn]. split.
    + intros [= <- <-]. simpl. by rewrite <-Hs.
    + intros [H Hr]. destruct l as [|b l]; simpl in *; simplify_eq.
      * exfalso. apply Hr. rewrite bytes_app. apply in_or_app. right. by left.
      * assert (Some (l', r') = Some (l, r)) as [= -> ->]; [|done].
        by apply IH.
  - apply rsplit_once_None in E. destruct (Ascii.eqb_spec a c) as [->|Hne]; split; try done.
    + intros [= <- <-]. auto.
    + intros [H Hr]. destruct l as [|b l]; simpl in *; simplify_eq; [done|].
      exfalso. apply E. rewrite bytes_app. apply in_or_app. right. by left.
    + intros [H Hr]. destruct l as [|b l]; simpl in *; simplify_eq.
      exfalso. apply E. rewrite bytes_app. apply in_or_app. right. by left.
Qed.

Lemma length_take n s : String.length (take n s) = Nat.min n (String.length s).
Proof. revert s; induction n as [|n IH]; intros [|c s]; simpl; auto. Qed.

Lemma take_ge n s : (String.length s ≤ n)%nat → take n s = s.
Proof.
  revert s; induction n as [|n IH]; intros [|c s] H; simpl in *; try done; [lia|].
  rewrite IH; [done|lia].
Qed.

Lemma bytes_take n s : bytes (take n s) = List.firstn n (bytes s).
Proof. revert s; induction n as [|n IH]; intros [|c s]; simpl; try done. by rewrite IH. Qed.

(** The number a string of decimal digits spells. *)
Definition value (s : string) : Z := fold_left (fun acc c => acc * 10 + (code c - 48)) (bytes s) 0.

Lemma code_ascii z : 0 ≤ z < 256 → code (ascii_of_N (Z.to_N z)) = z.
Proof. intros H. unfold code. rewrite N_ascii_embedding; lia. Qed.

Lemma code_inj a b : code a = code b → a = b.
Proof.
  unfold code. intros H. rewrite <-(ascii_N_embedding a), <-(ascii_N_embedding b).
  f_equal. lia.
Qed.

Lemma code_range c : 0 ≤ code c < 256.
Proof. unfold code. pose proof (N_ascii_bounded c). lia. Qed.

Lemma code_digit d : 0 ≤ d < 10 → code (digit d) = 48 + d.
Proof. intros H. apply code_ascii. lia. Qed.

Lemma decimal_fuel_spec f n :
  0 ≤ n < 10 ^ Z.of_nat (S f) →
  value (decimal_fuel (S f) n) = n ∧
  (∀ c, In c (bytes (decimal_fuel (S f) n)) → is_ascii_digit c = true) ∧
  (1 ≤ String.length (decimal_fuel (S f) n) ≤ S f)%nat.
Proof.
  assert (∀ d, 0 ≤ d < 10 → is_ascii_digit (digit d) = true) as Hdig.
  { intros d Hd. unfold is_ascii_digit, in_span. rewrite code_digit by done.
    apply andb_true_iff. split; apply Z.leb_le; lia. }
  revert n; induction f as [|f IH]; intros n Hn.
  - assert (n < 10) as Hlt by lia. cbn [decimal_fuel]. rewrite (proj2 (Z.ltb_lt n 10)) by done.
    unfold value; simpl. rewrite code_digit by lia. split_and!; [lia| |lia|lia].
    intros c [<-|[]]. apply Hdig. lia.
  - change (decimal_fuel (S (S f)) n) with
      (if n <? 10 then String (digit n) EmptyString
       else decimal_fuel (S f) (n / 10) +:+ String (digit (n mod 10)) EmptyString).
    destruct (Z.ltb_spec n 10).
    + unfold value; simpl. rewrite code_digit by lia. split_and!; [lia| |lia|lia].
      intros c [<-|[]]. apply Hdig. lia.
    + destruct (IH (n / 10)) as (Hv & Hd & Hl1 & Hl2).
      { split; [apply Z.div_pos; lia|]. apply Z.div_lt_upper_bound; [lia|].
        replace (10 * 10 ^ Z.of_nat (S f)) with (10 ^ Z.of_nat (S (S f))); [lia|].
        rewrite !Nat2Z.inj_succ, !Z.pow_succ_r by lia. lia. }
      pose proof (Z.mod_pos_bound n 10). pose proof (Z.div_mod n 10). split_and!.
      * unfold value in *. rewrite bytes_app, fold_left_app, Hv. simpl.
        rewrite code_digit by lia. lia.
      * intros c. rewrite bytes_app, in_app_iff. intros [Hc|[<-|[]]]; [auto|]. apply Hdig. lia.
      * rewrite length_append. cbn [String.length]. lia.
      * rewrite length_append. cbn [String.length]. lia.
Qed.

Lemma u64_digits n : 0 ≤ n ≤ U64_MAX → 0 ≤ n < 10 ^ Z.of_nat 20.
Proof.
  unfold U64_MAX. change (10 ^ Z.of_nat 20) with 100000000000000000000. lia.
Qed.

Lemma decimal_inj n m :
  0 ≤ n ≤ U64_MAX → 0 ≤ m ≤ U64_MAX → decimal n = decimal m → n = m.
Proof.
  unfold decimal. intros Hn Hm H.
  destruct (decimal_fuel_spec 19 n (u64_digits n Hn)) as (<- & _).
  destruct (decimal_fuel_spec 19 m (u64_digits m Hm)) as (<- & _). by rewrite H.
Qed.

Lemma decimal_digits n c :
  0 ≤ n ≤ U64_MAX → In c (bytes (decimal n)) → is_ascii_digit c = true.
Proof.
  unfold decimal. intros Hn. apply (decimal_fuel_spec 19 n). by apply u64_digits.
Qed.

Lemma decimal_length n :
  0 ≤ n ≤ U64_MAX → 1 ≤ len (decimal n) ≤ 20.
Proof.
  unfold decimal, len. intros Hn.
  destruct (decimal_fuel_spec 19 n (u64_digits n Hn)) as (_ & _ & ? & ?). lia.
Qed.

Lemma len_append a b : len (a +:+ b) = len a + len b.
Proof. unfold len. rewrite length_append. lia. Qed.

Lemma len_take n s : len (take n s) = Z.min (Z.of_nat n) (len s).
Proof. unfold len. rewrite length_take. lia. Qed.

Lemma len_nonneg s : 0 ≤ len s.
Proof. unfold len. lia. Qed.

Lemma len_bytes s : len s = Z.of_nat (length (bytes s)).
Proof. unfold len. by rewrite bytes_length. Qed.

Lemma append_inj_last a b c d :
  push a c = push b d → a = b ∧ c = d.
Proof.
  unfold push. intros H%(f_equal bytes). rewrite !bytes_app in H. simpl in H.
  apply app_inj_tail in H as [Hab ->]. split; [by apply bytes_inj|done].
Qed.

Lemma take_In n s c : In c (bytes (take n s)) → In c (bytes s).
Proof.
  rewrite bytes_take. intros H. rewrite <-(firstn_skipn n (bytes s)). apply in_or_app. by left.
Qed.

Lemma is_empty_true s : is_empty s = true ↔ s = EmptyString.
Proof. by destruct s. Qed.

(** ** Trimming *)

Definition graphic (c : ascii) : bool := in_span 33 126 c.

Lemma graphic_range c : graphic c = true → 33 ≤ code c ≤ 126.
Proof. unfold graphic, in_span. intros H. bool_to_prop. lia. Qed.

Lemma white_space_at_last u c :
  graphic c = true → (white_space_at (u +:+ String c EmptyString) ≤ String.length u)%nat.
Proof.
  intros Hc%graphic_range. unfold white_space_at.
  assert (∀ lo hi, 126 < lo ∨ hi < 33 → in_span lo hi c = false) as Hs.
  { intros lo hi H. unfold in_span. apply andb_false_iff. rewrite !Z.leb_gt. lia. }
  assert (∀ k, 126 < k ∨ k < 33 → (code c =? k) = false) as Hk by (intros k H; apply Z.eqb_neq; lia).
  destruct u as [|x [|y [|z u]]]; rewrite bytes_app; cbn [bytes String.list_ascii_of_string app String.length].
  - rewrite Hk, Hs by lia. done.
  - destruct ((code x =? 32) || in_span 9 13 x); [lia|].
    rewrite !Hk by lia. rewrite !andb_false_r. cbn. lia.
  - destruct ((code x =? 32) || in_span 9 13 x); [lia|].
    destruct ((code x =? 194) && ((code y =? 133) || (code y =? 160))); [lia|].
    rewrite !Hk, Hs by lia. rewrite !andb_false_r. cbn. lia.
  - repeat case_match; lia.
Qed.

Lemma drop_length_le n s : (n ≤ String.length s)%nat → String.length (drop n s) = (String.length s - n)%nat.
Proof. revert s; induction n as [|n IH]; intros [|c s] H; cbn in *; try lia. by rewrite IH by lia. Qed.

Lemma drop_append_le n s t : (n ≤ String.length s)%nat → drop n (s +:+ t) = drop n s +:+ t.
Proof.
  revert s; induction n as [|n IH]; intros [|c s] H; cbn in *; try lia; try done. apply IH. lia.
Qed.

Lemma white_space_end_last s c :
  graphic c = true → white_space_end (s +:+ String c EmptyString) = 0%nat.
Proof.
  intros Hc. unfold white_space_end.
  assert (∀ k, (1 ≤ k)%nat → Nat.eqb (white_space_at
    (drop (String.length (s +:+ String c EmptyString) - k) (s +:+ String c EmptyString))) k = false) as H.
  { intros k Hk. apply Nat.eqb_neq. rewrite length_append. cbn [String.length].
    rewrite drop_append_le by lia.
    pose proof (white_space_at_last (drop (String.length s + 1 - k) s) c Hc).
    rewrite drop_length_le in * by lia. lia. }
  by rewrite !H by lia.
Qed.

(** A text between two bytes that are no space, after one that is. *)
Lemma trim_space a s c :
  graphic a = true → graphic c = true →
  trim (String " " (String a (s +:+ String c EmptyString))) = String a (s +:+ String c EmptyString).
Proof.
  intros Ha Hc. set (t := s +:+ String c EmptyString).
  assert (white_space_at (String a t) = 0%nat) as Hs.
  { apply graphic_range in Ha. unfold white_space_at, in_span.
    cbn [bytes String.list_ascii_of_string].
    rewrite !(proj2 (Z.eqb_neq (code a) _)) by lia. rewrite (proj2 (Z.leb_gt (code a) 13)) by lia.
    rewrite andb_false_r. cbn. by destruct (String.list_ascii_of_string t) as [|? []]. }
  unfold trim. cbn [String.length trim_start_fuel].
  change (white_space_at (String " " (String a t))) with 1%nat. cbn [drop]. rewrite Hs.
  cbn [String.length trim_end_fuel]. unfold t.
  change (String a (s +:+ String c EmptyString)) with ((String a s) +:+ String c EmptyString).
  by rewrite white_space_end_last.
Qed.

Lemma graphic_no_space c s : graphic c = true → white_space_at (String c s) = 0%nat.
Proof.
  intros Ha%graphic_range. unfold white_space_at, in_span. cbn [bytes String.list_ascii_of_string].
  rewrite !(proj2 (Z.eqb_neq (code c) _)) by lia. rewrite (proj2 (Z.leb_gt (code c) 13)) by lia.
  rewrite andb_false_r. cbn. by destruct (String.list_ascii_of_string s) as [|? []].
Qed.

(** A text of graphic bytes is its own trimming. *)
Lemma trim_graphic s : all graphic (bytes s) = true → trim s = s.
Proof.
  intros Hg. rewrite all_true in Hg. destruct s as [|a s]; [done|].
  unfold trim. cbn [String.length trim_start_fuel].
  rewrite graphic_no_space by (apply Hg; by left). cbn [String.length trim_end_fuel].
  destruct (exists_last (l := bytes (String a s))) as (l & c & Hl); [done|].
  assert (String a s = of_bytes l +:+ String c EmptyString) as ->.
  { apply bytes_inj. rewrite bytes_app, bytes_of_bytes. exact Hl. }
  rewrite white_space_end_last; [done|]. apply Hg. rewrite Hl. apply in_or_app. by right; left.
Qed.

Lemma graphic_no_control s : all graphic (bytes s) = true → has_control s = false.
Proof.
  unfold has_control. generalize (bytes s) as l. induction l as [|a l IH]; cbn; [done|].
  intros [Ha%graphic_range Hl]%andb_true_iff. rewrite IH by done.
  rewrite (proj2 (Z.ltb_ge _ _)), !(proj2 (Z.eqb_neq _ _)) by lia. done.
Qed.

(** ** Suffixes *)

Lemma drop_char_spec c l :
  (∃ n, l = repeat c n ++ drop_char c l) ∧ head (drop_char c l) ≠ Some c.
Proof.
  induction l as [|d l [[n Hn] Hh]]; cbn; [split; [by exists 0%nat|done]|].
  destruct (Ascii.eqb_spec d c) as [->|Hd].
  - split; [exists (S n); cbn; by rewrite <-Hn|done].
  - split; [by exists 0%nat|cbn; congruence].
Qed.

Lemma drop_char_id c l : head l ≠ Some c → drop_char c l = l.
Proof. destruct l as [|d l]; cbn; [done|]. destruct (Ascii.eqb_spec d c); congruence. Qed.

Lemma drop_char_repeat c n l : drop_char c (repeat c n ++ l) = drop_char c l.
Proof. induction n as [|n IH]; cbn; [done|]. by rewrite Ascii.eqb_refl. Qed.

Lemma trim_end_matches_idem s c :
  trim_end_matches (trim_end_matches s c) c = trim_end_matches s c.
Proof.
  unfold trim_end_matches. rewrite bytes_of_bytes, rev_involutive. do 2 f_equal.
  apply drop_char_id, drop_char_spec.
Qed.

(** Only the end changes: what is left is a prefix, the rest is all [c]. *)
Lemma trim_end_matches_prefix s c :
  ∃ n, s = trim_end_matches s c +:+ of_bytes (repeat c n).
Proof.
  destruct (drop_char_spec c (rev (bytes s))) as [[n Hn] _]. exists n.
  apply bytes_inj. unfold trim_end_matches. rewrite bytes_app, !bytes_of_bytes.
  rewrite <-(rev_involutive (bytes s)) at 1. rewrite Hn at 1. rewrite rev_app_distr. f_equal.
  clear. induction n as [|n IH]; [done|]. cbn. rewrite IH. symmetry. apply repeat_cons.
Qed.

Lemma trim_end_matches_app s c n :
  trim_end_matches (s +:+ of_bytes (repeat c n)) c = trim_end_matches s c.
Proof.
  unfold trim_end_matches. rewrite bytes_app, bytes_of_bytes, rev_app_distr.
  assert (rev (repeat c n) = repeat c n) as ->; [|by rewrite drop_char_repeat].
  induction n as [|n IH]; [done|]. cbn. rewrite IH. symmetry. apply repeat_cons.
Qed.

Lemma trim_end_matches_last s d c :
  d ≠ c → trim_end_matches (push s d) c = push s d.
Proof.
  intros H. unfold trim_end_matches, push. rewrite bytes_app. cbn.
  rewrite rev_app_distr. cbn. rewrite (proj2 (Ascii.eqb_neq d c)) by done. cbn.
  rewrite rev_involutive. apply bytes_inj. by rewrite bytes_of_bytes, bytes_app.
Qed.

Lemma trim_end_matches_In s c x : In x (bytes (trim_end_matches s c)) → In x (bytes s).
Proof.
  destruct (trim_end_matches_prefix s c) as [n Hn]. intros H. rewrite Hn, bytes_app.
  apply in_or_app. by left.
Qed.

Lemma take_app_exact s t : take (String.length s) (s +:+ t) = s.
Proof. induction s as [|a s IH]; cbn; [by destruct t|]. by rewrite IH. Qed.

Lemma drop_app_exact s t : drop (String.length s) (s +:+ t) = t.
Proof. by induction s. Qed.

Lemma take_drop n s : take n s +:+ drop n s = s.
Proof. revert s; induction n as [|n IH]; intros [|c s]; cbn; [done..|]. by rewrite IH. Qed.

Lemma strip_suffix_Some s p r : strip_suffix s p = Some r ↔ s = r +:+ p.
Proof.
  unfold strip_suffix. split.
  - case_match eqn:E; [|done]. intros [= <-]. apply andb_true_iff in E as [_ E].
    apply str_eqb_eq in E. rewrite <-E at 2. by rewrite take_drop.
  - intros ->. rewrite length_append, Nat.add_sub, take_app_exact, drop_app_exact, str_eqb_refl.
    by rewrite (proj2 (Nat.leb_le _ _)) by lia.
Qed.

Lemma contains_spec s needle :
  contains s needle = true ↔ ∃ a b, s = a +:+ needle +:+ b.
Proof.
  split.
  - induction s as [|c s IH]; cbn [contains]; intros [H|H]%orb_true_iff.
    + apply starts_with_app in H as [r ->]. by exists EmptyString, r.
    + done.
    + apply starts_with_app in H as [r ->]. by exists EmptyString, r.
    + destruct (IH H) as (a & b & ->). by exists (String c a), b.
  - intros (a & b & ->). induction a as [|c a IH]; cbn [String.append].
    + assert (starts_with (needle +:+ b) needle = true) as H by (apply starts_with_app; eauto).
      destruct (needle +:+ b); cbn [contains]; by rewrite H.
    + cbn [contains]. rewrite IH. apply orb_true_r.
Qed.

End Str.

#[export] Hint Rewrite Str.bytes_app Str.length_append Str.bytes_length : oag.
#[export] Hint Resolve Str.str_eqb_refl : oag.
