(* ===== verification/Money.v ===== *)
(** * Decimal amounts

    The gateway counts money and percentages in [rust_decimal::Decimal], a
    package outside this repository.  The model takes it as a parameter: the
    operations the code calls, and the documented laws it relies on.  An
    operation here is the total one; the package panics where a result does
    not fit its 96-bit mantissa, and the theorems speak of the executions in
    which none does not.

    [exact] is a concrete instance, rational arithmetic, under which the laws
    hold and every definition computes. *)

From Stdlib Require Import QArith.
From S2P Require Import Prelude.
#[local] Open Scope Z_scope.

Class Decimal (D : Type) : Type := {
  (** [a <= b] *)
  dle : D → D → bool;
  dadd : D → D → D;
  dmul : D → D → D;
  ddiv : D → D → D;
  (** [Decimal::from(n)] *)
  dint : Z → D;
  (** [Decimal::new(mantissa, scale)]: mantissa times ten to minus scale *)
  dnew : Z → Z → D
}.

Section operations.
Context `{Decimal D}.

Definition dzero : D := dint 0.
Definition done_ : D := dint 1.
Definition dlt (a b : D) : bool := negb (dle b a).
Definition deq (a b : D) : bool := dle a b && dle b a.
(** [a.max(b)]: [b] unless [a] is above it. *)
Definition dmax (a b : D) : D := if dle a b then b else a.
End operations.

Class DecimalLaws (D : Type) `{Decimal D} : Prop := {
  dle_total a b : dle a b = true ∨ dle b a = true;
  dle_trans a b c : dle a b = true → dle b c = true → dle a c = true;
  dint_mono x y : x ≤ y → dle (dint x) (dint y) = true;
  dint_lt x y : x < y → dlt (dint x) (dint y) = true;
  dnew_int x : deq (dnew x 0) (dint x) = true;
  dnew_le x y s : x ≤ y → dle (dnew x s) (dnew y s) = true;
  dnew_scale x s : 0 ≤ s → deq (dnew (x * 10) (s + 1)) (dnew x s) = true;
  dadd_mono a b c d : dle a b = true → dle c d = true → dle (dadd a c) (dadd b d) = true;
  dmul_mono a b c d :
    dle dzero a = true → dle dzero c = true →
    dle a b = true → dle c d = true → dle (dmul a c) (dmul b d) = true;
  dmul_one a : deq (dmul a done_) a = true;
  dmul_zero a : deq (dmul dzero a) dzero = true;
  dadd_zero a : deq (dadd dzero a) a = true;
  ddiv_mono a b c :
    dlt dzero c = true → dle a b = true → dle (ddiv a c) (ddiv b c) = true;
  ddiv_self a : dlt dzero a = true → deq (ddiv a a) done_ = true;
  ddiv_zero a : dlt dzero a = true → deq (ddiv dzero a) dzero = true
}.

Section laws.
Context `{DecimalLaws D}.
Implicit Types a b c : D.

Lemma dle_refl a : dle a a = true.
Proof. by destruct (dle_total a a). Qed.

Lemma dle_false a b : dle a b = false → dle b a = true.
Proof. intros Hf. destruct (dle_total a b); [congruence|done]. Qed.

Lemma dlt_le a b : dlt a b = true → dle a b = true.
Proof. unfold dlt. intros Hn%negb_true_iff. by apply dle_false. Qed.

Lemma dle_dlt a b : dle a b = false ↔ dlt b a = true.
Proof. unfold dlt. rewrite negb_true_iff. done. Qed.

Lemma dle_lt_trans a b c : dle a b = true → dlt b c = true → dlt a c = true.
Proof.
  unfold dlt. rewrite !negb_true_iff. intros H1 H2.
  destruct (dle c a) eqn:E; [|done]. by rewrite (dle_trans c a b) in H2.
Qed.

Lemma dlt_le_trans a b c : dlt a b = true → dle b c = true → dlt a c = true.
Proof.
  unfold dlt. rewrite !negb_true_iff. intros H1 H2.
  destruct (dle c a) eqn:E; [|done]. by rewrite (dle_trans b c a) in H1.
Qed.

Lemma deq_le a b : deq a b = true → dle a b = true ∧ dle b a = true.
Proof. apply andb_true_iff. Qed.

Lemma dmax_ge_l a b : dle a (dmax a b) = true.
Proof. unfold dmax. destruct (dle a b) eqn:?; [done|apply dle_refl]. Qed.

Lemma dmax_ge_r a b : dle b (dmax a b) = true.
Proof. unfold dmax. destruct (dle a b) eqn:E; [apply dle_refl|by apply dle_false]. Qed.

Lemma dzero_le_one : dle (dzero (D:=D)) done_ = true.
Proof. apply dint_mono. lia. Qed.
End laws.

#[export] Hint Resolve dle_refl dmax_ge_l dmax_ge_r dzero_le_one : oag.

(** ** The exact instance *)

#[export] Instance exact : Decimal Q := {|
  dle := Qle_bool;
  dadd a b := Qred (Qplus a b);
  dmul a b := Qred (Qmult a b);
  ddiv a b := Qred (Qdiv a b);
  dint z := inject_Z z;
  dnew m s := Qmake m (Z.to_pos (10 ^ s))
|}.

Lemma exact_dlt (a b : Q) : dlt a b = true ↔ (a < b)%Q.
Proof.
  unfold dlt; simpl. rewrite negb_true_iff, <-not_true_iff_false, Qle_bool_iff.
  split; [apply Qnot_le_lt|apply Qlt_not_le].
Qed.

Lemma exact_deq (a b : Q) : deq a b = true ↔ (a == b)%Q.
Proof.
  unfold deq; simpl. rewrite andb_true_iff, !Qle_bool_iff. split.
  - intros []. by apply Qle_antisym.
  - intros Heq. rewrite Heq. split; apply Qle_refl.
Qed.

#[export] Instance exact_laws : DecimalLaws Q.
Proof.
  split; intros *; rewrite ?exact_dlt, ?exact_deq; unfold dzero, done_; simpl;
    rewrite ?Qle_bool_iff, ?Qred_correct.
  - destruct (Qlt_le_dec b a); [right; by apply Qlt_le_weak|by left].
  - apply Qle_trans.
  - intros. by rewrite <-Zle_Qle.
  - intros. by rewrite <-Zlt_Qlt.
  - reflexivity.
  - unfold Qle; simpl. nia.
  - intros Hs. unfold Qeq; simpl. rewrite !Z2Pos.id by (apply Z.pow_pos_nonneg; lia).
    rewrite Z.pow_add_r by lia. lia.
  - apply Qplus_le_compat.
  - intros Ha Hc Hab Hcd. apply Qmult_le_compat_nonneg; by split.
  - apply Qmult_1_r.
  - apply Qmult_0_l.
  - apply Qplus_0_l.
  - intros Hc Hab. unfold Qdiv. apply Qmult_le_compat_r; [done|].
    apply Qinv_le_0_compat. by apply Qlt_le_weak.
  - intros Ha. unfold Qdiv. apply Qmult_inv_r. intros Heq. rewrite Heq in Ha. by apply (Qlt_irrefl 0).
  - intros Ha. unfold Qdiv. apply Qmult_0_l.
Qed.
