(* ===== verification/Domain.v ===== *)
(** * Domain types of [oag-core]

    Credential kinds, dialects, platforms, endpoints, providers with their
    support matrix, tiers and errors ([crates/oag-core/src/credential.rs],
    [provider.rs], [tier.rs], [error.rs]).

    The endpoint registry is a process-wide snapshot in the source; here it is
    the map its readers see, passed as an argument. *)

From Stdlib Require Import Ascii.
From S2P Require Import Prelude Text.
#[local] Open Scope string_scope.
#[local] Open Scope oag_scope.
#[local] Open Scope Z_scope.

(** Identifiers are UUIDs in the source: 128-bit numbers compared for
    equality only. *)
Definition AccountId : Type := N.

(** ** Credential kinds *)

Inductive CredentialKind : Type := ApiKey | OAuth | BedrockKey | ServiceAccount.

#[export] Instance CredentialKind_eq_dec : EqDecision CredentialKind.
Proof. solve_decision. Defined.

Module Credential.

Definition eqb (a b : CredentialKind) : bool := bool_decide (a = b).

Definition refreshable (k : CredentialKind) : bool :=
  match k with OAuth => true | _ => false end.

Definition flat_rate (k : CredentialKind) : bool :=
  match k with OAuth => true | _ => false end.

Definition qualifier (k : CredentialKind) : option string :=
  match k with
  | ApiKey => Some "api"
  | OAuth => Some "sub"
  | BedrockKey | ServiceAccount => None
  end.

Definition QUALIFIED : list CredentialKind := [ApiKey; OAuth].

Definition from_qualifier (s : string) : option CredentialKind :=
  find (fun k => bool_decide (qualifier k = Some s)) QUALIFIED.

Definition channel_label (k : CredentialKind) : string :=
  match k with
  | ApiKey => "API key"
  | OAuth => "subscription"
  | BedrockKey => "Bedrock"
  | ServiceAccount => "service account"
  end.

Definition from_column (s : string) : option CredentialKind :=
  if Str.eqb s "api_key" then Some ApiKey
  else if Str.eqb s "oauth" then Some OAuth
  else if Str.eqb s "bedrock" then Some BedrockKey
  else if Str.eqb s "service_account" then Some ServiceAccount
  else None.

(** [Display]: the column's spelling. *)
Definition to_string (k : CredentialKind) : string :=
  match k with
  | ApiKey => "api_key"
  | OAuth => "oauth"
  | BedrockKey => "bedrock"
  | ServiceAccount => "service_account"
  end.

(** [SecretMaterial], with its secrets in the clear. *)
Record SecretMaterial : Type := {
  access_token : string;
  refresh_token : option string;
  expires_at : option Z;
  version : Z;
  client_id : option string;
  account_id : option string
}.

Definition trimmed (m : SecretMaterial) : SecretMaterial := {|
  access_token := Str.trim (access_token m);
  refresh_token := Str.trim <$> refresh_token m;
  expires_at := expires_at m;
  version := version m;
  client_id := Str.trim <$> client_id m;
  account_id := account_id m
|}.

(** The subtraction is exact: an expiry is in Unix seconds, far from the ends
    of [i64]. *)
Definition expires_within (m : SecretMaterial) (now_unix skew_secs : Z) : bool :=
  match expires_at m with Some exp => exp - skew_secs <=? now_unix | None => false end.

Lemma from_column_to_string k : from_column (to_string k) = Some k.
Proof. by destruct k. Qed.

Lemma to_string_from_column s k : from_column s = Some k → to_string k = s.
Proof.
  unfold from_column. intros H.
  repeat case_match; simplify_eq/=; symmetry; by apply Str.str_eqb_eq.
Qed.

Lemma from_qualifier_qualifier s k : from_qualifier s = Some k ↔ qualifier k = Some s.
Proof.
  split.
  - intros H. apply find_Some in H as [_ H]. by apply bool_decide_eq_true in H.
  - destruct k; intros [= <-]; reflexivity.
Qed.

End Credential.

(** ** Dialects and platforms *)

Inductive Dialect : Type :=
  | AnthropicMessages
  | OpenAIChatCompletions
  | OpenAIResponses
  | GeminiGenerateContent
  | SystemOne
  | BedrockConverse.

#[export] Instance Dialect_eq_dec : EqDecision Dialect.
Proof. solve_decision. Defined.

Definition dialect_is_chat (d : Dialect) : bool :=
  match d with SystemOne => false | _ => true end.

(** [Dialect::as_str]. *)
Definition dialect_as_str (d : Dialect) : string :=
  match d with
  | AnthropicMessages => "Anthropic Messages"
  | OpenAIChatCompletions => "OpenAI Chat Completions"
  | OpenAIResponses => "OpenAI Responses"
  | GeminiGenerateContent => "Gemini generateContent"
  | SystemOne => "System One"
  | BedrockConverse => "Bedrock Converse"
  end.

Definition endpoint_column (d : Dialect) : option string :=
  match d with
  | OpenAIChatCompletions => Some "openai"
  | AnthropicMessages => Some "anthropic"
  | GeminiGenerateContent => Some "gemini"
  | SystemOne => Some "system_one"
  | BedrockConverse => Some "bedrock_converse"
  | OpenAIResponses => None
  end.

Definition from_endpoint_column (column : string) : result Dialect string :=
  if Str.eqb column "openai" then Ok OpenAIChatCompletions
  else if Str.eqb column "anthropic" then Ok AnthropicMessages
  else if Str.eqb column "gemini" then Ok GeminiGenerateContent
  else if Str.eqb column "system_one" then Ok SystemOne
  else if Str.eqb column "bedrock_converse" then Ok BedrockConverse
  else Err ("unknown dialect `" +:+ column +:+
            "`: use openai, anthropic, gemini, system_one or bedrock_converse").

Inductive Platform : Type := Plain | Aws | Gcp | Azure.

#[export] Instance Platform_eq_dec : EqDecision Platform.
Proof. solve_decision. Defined.

Definition platform_speaks (p : Platform) (d : Dialect) : bool :=
  match p, d with
  | Plain, (OpenAIChatCompletions | AnthropicMessages | GeminiGenerateContent | SystemOne) => true
  | Azure, OpenAIChatCompletions => true
  | Aws, (AnthropicMessages | BedrockConverse) => true
  | Gcp, (GeminiGenerateContent | AnthropicMessages) => true
  | _, _ => false
  end.

Inductive AuthStyle : Type := Bearer | XApiKey | XGoogApiKey | ApiKeyHeader | NoAuth.

Definition auth_suits (a : AuthStyle) (p : Platform) : bool :=
  match p with
  | Plain => true
  | Azure => match a with ApiKeyHeader => true | _ => false end
  | Gcp => match a with Bearer => true | _ => false end
  | Aws => match a with NoAuth => true | _ => false end
  end.

(** ** Endpoints and providers *)

Record Endpoint : Type := {
  ep_name : string;
  ep_dialect : Dialect;
  ep_platform : Platform
}.

Inductive Provider : Type :=
  | Anthropic | OpenAI | Gemini | Kimi | DeepSeek | Zhipu | XAI | Bedrock | Jev
  | Custom (endpoint : Endpoint).

Module Prov.

(** [Endpoint]'s [PartialEq] compares names and nothing else. *)
Definition endpoint_eqb (a b : Endpoint) : bool := Str.eqb (ep_name a) (ep_name b).

(** The derived [PartialEq]: by variant, and two endpoints by [Endpoint]'s. *)
Definition eqb (a b : Provider) : bool :=
  match a, b with
  | Anthropic, Anthropic | OpenAI, OpenAI | Gemini, Gemini | Kimi, Kimi
  | DeepSeek, DeepSeek | Zhipu, Zhipu | XAI, XAI | Bedrock, Bedrock | Jev, Jev => true
  | Custom a, Custom b => endpoint_eqb a b
  | _, _ => false
  end.

(** The equivalence [eqb] decides. *)
#[export] Instance provider_equiv : Equiv Provider := fun a b => eqb a b = true.

Definition native_dialect (p : Provider) : Dialect :=
  match p with
  | Anthropic | Bedrock => AnthropicMessages
  | OpenAI | Kimi | DeepSeek | Zhipu | XAI => OpenAIChatCompletions
  | Gemini => GeminiGenerateContent
  | Jev => SystemOne
  | Custom endpoint => ep_dialect endpoint
  end.

Definition as_str (p : Provider) : string :=
  match p with
  | Anthropic => "anthropic"
  | OpenAI => "openai"
  | Gemini => "gemini"
  | Kimi => "kimi"
  | DeepSeek => "deepseek"
  | Zhipu => "zhipu"
  | XAI => "xai"
  | Bedrock => "bedrock"
  | Jev => "jev"
  | Custom endpoint => ep_name endpoint
  end.

Definition ALL : list Provider :=
  [Anthropic; OpenAI; Gemini; Kimi; DeepSeek; Zhipu; XAI; Bedrock; Jev].

Definition is_custom (p : Provider) : bool :=
  match p with Custom _ => true | _ => false end.

(** [Provider::builtin]: names and aliases. *)
Definition builtin (s : string) : option Provider :=
  if Str.eqb s "anthropic" then Some Anthropic
  else if Str.eqb s "openai" then Some OpenAI
  else if Str.eqb s "gemini" then Some Gemini
  else if Str.eqb s "kimi" || Str.eqb s "moonshot" then Some Kimi
  else if Str.eqb s "deepseek" then Some DeepSeek
  else if Str.eqb s "zhipu" || Str.eqb s "glm" then Some Zhipu
  else if Str.eqb s "xai" || Str.eqb s "grok" then Some XAI
  else if Str.eqb s "bedrock" then Some Bedrock
  else if Str.eqb s "jev" || Str.eqb s "typesafe" then Some Jev
  else None.

(** ** The endpoint registry *)

Definition Registry : Type := gmap string Endpoint.

(** [install]: the snapshot is replaced whole; of two endpoints of one name
    the later wins, as it does when an iterator is collected into a map. *)
Definition install (endpoints : list Endpoint) : gmap string Endpoint :=
  fold_left (fun m e => <[ep_name e := e]> m) endpoints ∅.

(** [Provider::from_str]: built-ins first, then the registry. [None] is
    [Error::UnknownProvider]. *)
Definition from_str (registry : gmap string Endpoint) (s : string) : option Provider :=
  match builtin s with
  | Some p => Some p
  | None => Custom <$> registry !! s
  end.

(** ** Endpoint names *)

Definition RESERVED : list string := ["oag"; "codex"].
Definition MAX_NAME : Z := 32.

Definition validate_name (name : string) : result () string :=
  let name_head (b : ascii) := Str.is_ascii_lowercase b || Str.is_ascii_digit b in
  let name_byte (b : ascii) :=
    name_head b || Ascii.eqb b "_" || Ascii.eqb b "-" in
  let well_formed :=
    (Str.len name <=? MAX_NAME) &&
    match Str.bytes name with
    | b :: rest => name_head b && all name_byte rest
    | [] => false
    end in
  if negb well_formed then
    Err ("endpoint name `" +:+ name +:+
         "` must be 1 to 32 characters from a-z, 0-9, `_` and `-`, starting with a letter or a digit")
  else if match builtin name with Some _ => true | None => false end
          || any (Str.eqb name) RESERVED then
    Err ("endpoint name `" +:+ name +:+
         "` is reserved: a built-in provider, one of its aliases, `oag` or `codex` already means it")
  else Ok ().

Definition endpoint_new (name : string) (d : Dialect) (p : Platform) : result Endpoint string :=
  let? _ := validate_name name in
  Ok {| ep_name := name; ep_dialect := d; ep_platform := p |}.

(** ** What a provider supports *)

Inductive NoSubscription : Type :=
  | ProhibitedByTerms (quote source : string)
  | NoImporter.

Inductive SubscriptionSupport : Type :=
  | Served (import : string)
  | CredentialImportOnly (import gap : string)
  | NotOffered (why : NoSubscription).

Record ProviderSupport : Type := {
  provider : Provider;
  display_name : string;
  aliases : list string;
  credential_kinds : list CredentialKind;
  subscription : SubscriptionSupport;
  note : option string
}.

Definition support (p : Provider) : ProviderSupport :=
  match p with
  | Anthropic => {|
      provider := p; display_name := "Anthropic"; aliases := [];
      credential_kinds := [ApiKey];
      subscription := NotOffered (ProhibitedByTerms
        "developers may not collect, store, or intermediate Claude.ai credentials or session tokens"
        "https://code.claude.com/docs/en/legal-and-compliance");
      note := Some "Console API keys, pooled for the org: the carve-out those same terms grant, and the reason api_key is the default kind." |}
  | OpenAI => {|
      provider := p; display_name := "OpenAI"; aliases := [];
      credential_kinds := [ApiKey; OAuth];
      subscription := Served "oag admin account add --from codex";
      note := Some "A Codex seat also needs `gateway.codex.instructions` (or `instructions_path`, e.g. deploy/codex-instructions.txt); without it the backend rejects the request." |}
  | Gemini => {|
      provider := p; display_name := "Google Gemini"; aliases := [];
      credential_kinds := [ApiKey]; subscription := NotOffered NoImporter; note := None |}
  | Kimi => {|
      provider := p; display_name := "Moonshot Kimi"; aliases := ["moonshot"];
      credential_kinds := [ApiKey]; subscription := NotOffered NoImporter; note := None |}
  | DeepSeek => {|
      provider := p; display_name := "DeepSeek"; aliases := [];
      credential_kinds := [ApiKey]; subscription := NotOffered NoImporter; note := None |}
  | Zhipu => {|
      provider := p; display_name := "Zhipu GLM"; aliases := ["glm"];
      credential_kinds := [ApiKey]; subscription := NotOffered NoImporter; note := None |}
  | XAI => {|
      provider := p; display_name := "xAI"; aliases := ["grok"];
      credential_kinds := [ApiKey; OAuth];
      subscription := Served "oag admin account add --from grok";
      note := Some "A seat serves the one principal named by --owner-email and nobody else: it is sanctioned for the holder's own use." |}
  | Bedrock => {|
      provider := p; display_name := "AWS Bedrock"; aliases := [];
      credential_kinds := [ApiKey; BedrockKey]; subscription := NotOffered NoImporter;
      note := Some "SigV4-signed, billed through your AWS agreement. The credential is stored packed as access_key:secret[:session_token], so it needs no shape of its own." |}
  | Jev => {|
      provider := p; display_name := "Jev (TypeSafe AI)"; aliases := ["typesafe"];
      credential_kinds := [ApiKey]; subscription := NotOffered NoImporter;
      note := Some "Answers System One questions at /jev/v1/systemone and serves no chat model, so a route's Jev key is never chosen for a chat request." |}
  | Custom endpoint => {|
      provider := p; display_name := ep_name endpoint; aliases := [];
      credential_kinds :=
        match ep_platform endpoint with
        | Plain | Azure => [ApiKey]
        | Aws => [BedrockKey]
        | Gcp => [ServiceAccount]
        end;
      subscription := NotOffered NoImporter; note := None |}
  end.

Definition accepts (s : ProviderSupport) (kind : CredentialKind) : bool :=
  any (Credential.eqb kind) (credential_kinds s).

(** ** Lemmas *)

Lemma provider_eqb_refl p : eqb p p = true.
Proof. destruct p; simpl; try done. apply Str.str_eqb_refl. Qed.

#[export] Instance provider_equivalence : Equivalence (≡@{Provider}).
Proof.
  unfold equiv, provider_equiv. split.
  - intros p. apply provider_eqb_refl.
  - intros [] [] H; simpl in *; try done. unfold endpoint_eqb in *.
    apply Str.str_eqb_eq in H. by apply Str.str_eqb_eq.
  - intros [] [] [] H1 H2; simpl in *; try done. unfold endpoint_eqb in *.
    apply Str.str_eqb_eq in H1, H2. apply Str.str_eqb_eq. congruence.
Qed.

(** Equal providers have one name and no other; [as_str] is the equality. *)
#[export] Instance as_str_proper : Proper ((≡) ==> (=)) as_str.
Proof. intros [] [] H; try done. by apply Str.str_eqb_eq. Qed.

#[export] Instance eqb_proper : Proper ((≡) ==> (≡) ==> (=)) eqb.
Proof.
  intros a b Hab c d Hcd. apply eq_true_iff_eq. change (a ≡ c ↔ b ≡ d).
  by rewrite Hab, Hcd.
Qed.

Lemma provider_eqb_sym a b : eqb a b = eqb b a.
Proof. apply eq_true_iff_eq. change (a ≡ b ↔ b ≡ a). by split. Qed.

Lemma provider_eqb_respects p q r : eqb p q = true → eqb p r = eqb q r.
Proof. intros H. by rewrite (H : p ≡ q). Qed.

Lemma builtin_not_custom s p : builtin s = Some p → is_custom p = false.
Proof. unfold builtin. intros H. by repeat case_match; simplify_eq. Qed.

Lemma builtin_as_str p : is_custom p = false → builtin (as_str p) = Some p.
Proof. by destruct p. Qed.

Lemma validate_name_not_builtin name :
  validate_name name = Ok () → builtin name = None.
Proof. unfold validate_name. intros H. repeat case_match; simplify_eq; done. Qed.

Lemma install_lookup es s e :
  install es !! s = Some e → In e es ∧ ep_name e = s.
Proof.
  unfold install.
  assert (∀ m, (fold_left (fun m e => <[ep_name e := e]> m) es m : gmap string Endpoint) !! s = Some e →
    (In e es ∧ ep_name e = s) ∨ m !! s = Some e) as Hgen.
  { induction es as [|e' es IH]; intros m; simpl; [by right|].
    intros H. apply IH in H as [[? ?]|H]; [auto|].
    apply lookup_insert_Some in H as [[? ->]|[? ?]]; auto. }
  intros H. by apply Hgen in H as [|H]; [|rewrite lookup_empty in H].
Qed.

End Prov.

(** ** Tiers *)

(** [TierName], a newtype over the rung's name. *)
Definition TierName : Type := string.

Record Tier : Type := {
  tier_name : string;
  tier_rank : Z
}.

Module Tiers.

(** [PartialEq] and [Ord] look at the rank alone. *)
Definition eqb (a b : Tier) : bool := tier_rank a =? tier_rank b.
Definition ltb (a b : Tier) : bool := tier_rank a <? tier_rank b.

#[export] Instance tier_equiv : Equiv Tier := fun a b => eqb a b = true.

#[export] Instance tier_equivalence : Equivalence (≡@{Tier}).
Proof.
  unfold equiv, tier_equiv, eqb. split.
  - intros t. by apply Z.eqb_refl.
  - intros a b H. bool_to_prop. by apply Z.eqb_eq.
  - intros a b c H1 H2. bool_to_prop. apply Z.eqb_eq. congruence.
Qed.

#[export] Instance ltb_proper : Proper ((≡) ==> (≡) ==> (=)) ltb.
Proof.
  intros a b Hab c d Hcd. unfold equiv, tier_equiv, eqb in *. bool_to_prop.
  unfold ltb. congruence.
Qed.

End Tiers.

Inductive RoutingMode : Type := Passthrough | Managed.

#[export] Instance RoutingMode_eq_dec : EqDecision RoutingMode.
Proof. solve_decision. Defined.

(** ** Errors and their disposition *)

Inductive BudgetScope : Type := ScopeApiKey | ScopeRoute | ScopePrincipal.

(** [Error], each variant with the fields the code reads.  A [Duration] is
    its milliseconds. *)
Inductive Error : Type :=
  | UnknownProvider (name : string)
  | Config (what : string)
  | NoCredential (provider : Provider)
  | UnknownModelChannel (qualifier : string)
  | ChannelNotOffered (provider : Provider) (kind : CredentialKind)
  | NoCredentialOfKind (provider : Provider) (kind : CredentialKind)
  | ReserveHeld (provider : Provider) (reserve_pct : Z)
  | AtCapacity (provider : Provider) (candidates : Z)
  | NoViableModel (what : string)
  | Unauthenticated
  | BudgetExhausted (scope : BudgetScope)
  | RateLimited (retry_after : Z)
  | Overloaded
  | UnsupportedAction (action : string)
  | UnsupportedField (field : string) (dialect : Dialect)
  | Upstream (provider : Provider) (account : AccountId) (status : Z) (body : string)
      (retry_after : option Z)
  | StreamIdle (after : Z)
  | UpstreamTimeout (after : Z)
  | UpstreamUnavailable (reason : string) (lasting : bool)
  | SystemOneNotConfigured (route : string) (provider : Provider)
  | Serde (what : string)
  | Internal (what : string).

Inductive Disposition : Type :=
  | RetrySameAccount
  | FailoverAccount (cooldown : Z)
  | DRateLimited (retry_after : option Z)
  | EscalateTier
  | Fatal.

Module Errors.

Definition SECS : Z := 1000.
Definition MINS : Z := 60 * SECS.
Definition HOURS : Z := 60 * MINS.

Definition MARKERS : list string :=
  ["context_length_exceeded"; "context length"; "context window";
   "prompt is too long"; "token count"; "too many tokens"].

Definition names_a_capability_limit (body : string) : bool :=
  let body := Str.to_ascii_lowercase body in
  any (fun marker => Str.contains body marker) MARKERS.

Definition COOLDOWN : Z := 10 * MINS.

(** The [match status] of [Error::disposition], arm by arm. *)
Definition disposition_of_status (status : Z) (body : string) (retry_after : option Z) : Disposition :=
  let among := any (Z.eqb status) in
  if among [401; 403] then FailoverAccount COOLDOWN
  else if among [402] then FailoverAccount (1 * HOURS)
  else if among [408; 409; 425] then RetrySameAccount
  else if among [429] then DRateLimited retry_after
  else if among [500; 502; 503; 504; 529] then FailoverAccount (30 * SECS)
  else if among [413; 422] then EscalateTier
  else if (status =? 400) && names_a_capability_limit body then EscalateTier
  else Fatal.

Definition disposition (e : Error) : Disposition :=
  match e with
  | Upstream _ _ status body retry_after => disposition_of_status status body retry_after
  | StreamIdle _ => FailoverAccount (1 * MINS)
  | UpstreamTimeout _ | UpstreamUnavailable _ false => FailoverAccount (30 * SECS)
  | UpstreamUnavailable _ true => FailoverAccount COOLDOWN
  | NoCredential _ | ReserveHeld _ _ | NoViableModel _ => EscalateTier
  | AtCapacity _ _ => RetrySameAccount
  | _ => Fatal
  end.

(** [holder] and [model_channel_qualifiers]: the words of two messages. *)
Definition holder (p : Provider) : string :=
  match p with Jev => "Jev" | other => Prov.as_str other end.

Definition model_channel_qualifiers : string :=
  Str.join ", " (filter_map (fun k =>
    match Credential.qualifier k with
    | Some q => Some ("@" +:+ q +:+ " (" +:+ Credential.channel_label k +:+ ")")
    | None => None
    end) Credential.QUALIFIED).

End Errors.
