(* ===== verification/Breaker.v ===== *)
(** * Circuit breakers

    [Breaker] is [crates/oag-pool/src/breaker.rs], one credential's breaker;
    [Fleet] is [crates/oag-server/src/breakers.rs], the breakers of every
    credential a replica has talked to and the [Dispatch] guard a request
    holds while sending may still be called off.

    A [Duration] is its milliseconds; a Unix time is an [i64] of seconds. *)

From S2P Require Import Prelude Domain.
#[local] Open Scope Z_scope.

(** [Granted] is the source's [Admission::Admitted]. *)
Inductive Admission : Type := Denied | Granted | Probe.

#[export] Instance Admission_eq_dec : EqDecision Admission.
Proof. solve_decision. Defined.

Inductive BreakerState : Type := Closed | Open (until_unix : Z) | HalfOpen.

Module Breaker.

Record Breaker : Type := {
  consecutive_failures : Z;
  trip_threshold : Z;
  cooldown : Z;
  opened_until : option Z;
  half_open_probe_sent : bool
}.

Definition new (threshold cooldown : Z) : Breaker := {|
  consecutive_failures := 0;
  trip_threshold := Z.max threshold 1;
  cooldown := cooldown;
  opened_until := None;
  half_open_probe_sent := false
|}.

Definition state (b : Breaker) (now : Z) : BreakerState :=
  match opened_until b with
  | Some until => if now <? until then Open until else HalfOpen
  | None => Closed
  end.

Definition permits (b : Breaker) (now : Z) : bool :=
  match state b now with
  | Closed => true
  | Open _ => false
  | HalfOpen => negb (half_open_probe_sent b)
  end.

Definition set_probe_sent (v : bool) (b : Breaker) : Breaker := {|
  consecutive_failures := consecutive_failures b;
  trip_threshold := trip_threshold b;
  cooldown := cooldown b;
  opened_until := opened_until b;
  half_open_probe_sent := v
|}.

Definition begin_request (b : Breaker) (now : Z) : Admission * Breaker :=
  match state b now with
  | Closed => (Granted, b)
  | Open _ => (Denied, b)
  | HalfOpen =>
      if half_open_probe_sent b then (Denied, b) else (Probe, set_probe_sent true b)
  end.

Definition release_probe (b : Breaker) : Breaker := set_probe_sent false b.

Definition record_success (b : Breaker) : Breaker := {|
  consecutive_failures := 0;
  trip_threshold := trip_threshold b;
  cooldown := cooldown b;
  opened_until := None;
  half_open_probe_sent := false
|}.

(** [i64::try_from(cooldown.as_secs()).unwrap_or(i64::MAX)]. *)
Definition cooldown_secs (b : Breaker) : Z := Z.min I64_MAX (cooldown b / 1000).

Definition record_failure (b : Breaker) (now : Z) : Breaker :=
  let failures := sat_add U32_MAX (consecutive_failures b) 1 in
  if trip_threshold b <=? failures then {|
    consecutive_failures := failures;
    trip_threshold := trip_threshold b;
    cooldown := cooldown b;
    opened_until := Some (i64_sat_add now (cooldown_secs b));
    half_open_probe_sent := false
  |} else {|
    consecutive_failures := failures;
    trip_threshold := trip_threshold b;
    cooldown := cooldown b;
    opened_until := opened_until b;
    half_open_probe_sent := half_open_probe_sent b
  |}.

(** ** The operations as events *)

Inductive Event : Type :=
  | EBegin (now : Z)
  | ERelease
  | ESuccess
  | EFailure (now : Z).

Definition apply (b : Breaker) (e : Event) : Breaker :=
  match e with
  | EBegin now => (begin_request b now).2
  | ERelease => release_probe b
  | ESuccess => record_success b
  | EFailure now => record_failure b now
  end.

Definition run (b : Breaker) (es : list Event) : Breaker := fold_left apply es b.

(** ** The abstract breaker

    What the breaker promises, read off the history of outcomes alone: how
    many failures trail the last success, and when the last of them was. *)

Record Outcomes : Type := { trailing : Z; last_failure : option Z }.

Definition no_outcomes : Outcomes := {| trailing := 0; last_failure := None |}.

Definition observe (o : Outcomes) (e : Event) : Outcomes :=
  match e with
  | ESuccess => no_outcomes
  | EFailure now => {| trailing := trailing o + 1; last_failure := Some now |}
  | EBegin _ | ERelease => o
  end.

Definition outcomes (es : list Event) : Outcomes := fold_left observe es no_outcomes.

(** The position the abstract breaker is in: shut for [cooldown] after the
    last of at least [threshold] failures in a row, half open after that, and
    closed below the threshold. *)
Definition spec_state (threshold cooldown : Z) (o : Outcomes) (now : Z) : BreakerState :=
  if Z.max threshold 1 <=? Z.min U32_MAX (trailing o) then
    match last_failure o with
    | Some t =>
        let until := i64_sat_add t (Z.min I64_MAX (cooldown / 1000)) in
        if now <? until then Open until else HalfOpen
    | None => Closed
    end
  else Closed.

(** ** Invariant *)

Definition inv (b : Breaker) : Prop :=
  0 ≤ consecutive_failures b ≤ U32_MAX ∧ 1 ≤ trip_threshold b ∧
  (is_Some (opened_until b) ↔ trip_threshold b ≤ consecutive_failures b) ∧
  (half_open_probe_sent b = true → is_Some (opened_until b)).

(** The breakers the code can hold: made by [new], changed by the operations. *)
Inductive reachable : Breaker → Prop :=
  | reach_new threshold cooldown : reachable (new threshold cooldown)
  | reach_apply b e : reachable b → reachable (apply b e).

Ltac unfold_ops :=
  unfold apply, begin_request, release_probe, record_success, record_failure,
    set_probe_sent, state in *.

Lemma new_inv threshold cooldown : inv (new threshold cooldown).
Proof.
  unfold inv, new, U32_MAX; simpl. split_and!; try lia; try done.
  split; [intros []; done|lia].
Qed.

Lemma release_inv b : inv b → inv (release_probe b).
Proof. intros (?&?&?&?). unfold inv; simpl. split_and!; try lia; try done. Qed.

Lemma success_inv b : inv b → inv (record_success b).
Proof.
  intros (?&?&?&?). unfold inv, U32_MAX in *; simpl. split_and!; try lia; try done.
  split; [intros []; done|lia].
Qed.

Lemma begin_inv b now : inv b → inv (begin_request b now).2.
Proof.
  intros (?&?&Hiff&?). unfold begin_request, state. destruct (opened_until b) eqn:E.
  - repeat case_match; simpl; simplify_eq; unfold inv; simpl; rewrite ?E; naive_solver.
  - simpl. unfold inv. rewrite E. naive_solver.
Qed.

Lemma failure_inv b now : inv b → inv (record_failure b now).
Proof.
  intros (?&?&Hiff&?). unfold record_failure, inv in *.
  set (f := sat_add U32_MAX (consecutive_failures b) 1).
  assert (f = Z.min U32_MAX (consecutive_failures b + 1)) by reflexivity.
  assert (1 ≤ U32_MAX) by (unfold U32_MAX; lia).
  destruct (Z.leb_spec (trip_threshold b) f); simpl; split_and!; try lia; try done.
  rewrite Hiff. lia.
Qed.

Lemma apply_inv b e : inv b → inv (apply b e).
Proof.
  destruct e; simpl; eauto using begin_inv, release_inv, success_inv, failure_inv.
Qed.

Lemma reachable_inv b : reachable b → inv b.
Proof. induction 1; eauto using new_inv, apply_inv. Qed.

#[export] Hint Resolve new_inv apply_inv reachable_inv : oag.

Lemma apply_threshold b e : trip_threshold (apply b e) = trip_threshold b.
Proof. destruct e; unfold_ops; by repeat case_match. Qed.

Lemma apply_cooldown b e : cooldown (apply b e) = cooldown b.
Proof. destruct e; unfold_ops; by repeat case_match. Qed.

(** [begin_request] answers the question [permits] asks. *)
Lemma begin_denied b now : (begin_request b now).1 = Denied ↔ permits b now = false.
Proof. unfold begin_request, permits. by repeat case_match; simplify_eq/=. Qed.

(** A refusal changes nothing. *)
Lemma begin_denied_same b now : (begin_request b now).1 = Denied → (begin_request b now).2 = b.
Proof. unfold begin_request. intros H. by repeat case_match; simplify_eq/=. Qed.

Lemma begin_shape b now :
  (begin_request b now).2 = b ∨ (begin_request b now).2 = set_probe_sent true b.
Proof. unfold begin_request. repeat case_match; auto. Qed.

Lemma begin_admitted b now :
  (begin_request b now).1 = Granted → (begin_request b now).2 = b ∧ opened_until b = None.
Proof. unfold begin_request, state. intros H. by repeat case_match; simplify_eq/=. Qed.

(** A breaker with its probe out and no outcome since refuses at any time. *)
Lemma probe_out_denied b now :
  is_Some (opened_until b) → half_open_probe_sent b = true → (begin_request b now).1 = Denied.
Proof.
  intros [u Hu] Hp. unfold begin_request, state. rewrite Hu, Hp. by destruct (now <? u).
Qed.

Lemma probe_taken b now b' :
  begin_request b now = (Probe, b') →
  b' = set_probe_sent true b ∧ half_open_probe_sent b = false ∧
  ∃ u, opened_until b = Some u ∧ u ≤ now.
Proof.
  unfold begin_request, state. intros H. repeat case_match; simplify_eq/=.
  split_and!; try done. bool_to_prop. eauto using Z.lt_le_incl.
Qed.

(** ** Refinement *)

(** The concrete breaker represents these outcomes. *)
Definition represents (threshold cd : Z) (o : Outcomes) (b : Breaker) : Prop :=
  trip_threshold b = Z.max threshold 1 ∧ cooldown b = cd ∧ 0 ≤ trailing o ∧
  consecutive_failures b = Z.min U32_MAX (trailing o) ∧
  (trailing o = 0 → last_failure o = None) ∧
  opened_until b =
    (if Z.max threshold 1 <=? Z.min U32_MAX (trailing o)
     then (fun t => i64_sat_add t (Z.min I64_MAX (cd / 1000))) <$> last_failure o
     else None).

Lemma represents_new threshold cd : represents threshold cd no_outcomes (new threshold cd).
Proof. unfold represents; simpl. split_and!; try lia; try done. by destruct (Z.max threshold 1 <=? Z.min U32_MAX 0). Qed.

Lemma represents_step threshold cd o b e :
  represents threshold cd o b → represents threshold cd (observe o e) (apply b e).
Proof.
  intros (Ht & Hc & H0 & Hf & Hl & Ho). destruct e as [now| | |now]; simpl.
  - destruct (begin_shape b now) as [-> | ->]; by unfold represents.
  - by unfold represents.
  - unfold represents; simpl. split_and!; try lia; try done. by destruct (Z.max threshold 1 <=? Z.min U32_MAX 0).
  - unfold record_failure, sat_add, cooldown_secs. rewrite Hf, Ht, Hc.
    replace (Z.min U32_MAX (Z.min U32_MAX (trailing o) + 1))
      with (Z.min U32_MAX (trailing o + 1)) by (unfold U32_MAX; lia).
    destruct (Z.leb_spec (Z.max threshold 1) (Z.min U32_MAX (trailing o + 1)))
      as [Hle|Hgt]; unfold represents; simpl; split_and!; try done; try lia.
    + rewrite (proj2 (Z.leb_le _ _) Hle). done.
    + rewrite (proj2 (Z.leb_gt _ _) Hgt), Ho.
      destruct (Z.leb_spec (Z.max threshold 1) (Z.min U32_MAX (trailing o))); [lia|done].
Qed.

Lemma represents_run threshold cd es :
  represents threshold cd (outcomes es) (run (new threshold cd) es).
Proof.
  unfold outcomes, run. generalize (represents_new threshold cd).
  generalize no_outcomes (new threshold cd).
  induction es as [|e es IH]; intros o b H; simpl; [done|].
  apply IH. by apply represents_step.
Qed.

Lemma represents_state threshold cd o b now :
  represents threshold cd o b → state b now = spec_state threshold cd o now.
Proof.
  intros (Ht & Hc & H0 & Hf & Hl & Ho). unfold state, spec_state. rewrite Ho.
  case_match; [|done]. by destruct (last_failure o).
Qed.

(** C38. The breaker implements its abstract specification: after any sequence
    of requests, releases, successes and failures, its position at any time is
    the one the history of outcomes alone determines -- open for the cooldown
    after at least [threshold] consecutive failures, half open once it has
    passed, closed after a success or below the threshold. *)
Theorem breaker_refines_history threshold cooldown es now :
  state (run (new threshold cooldown) es) now
  = spec_state threshold cooldown (outcomes es) now.
Proof. apply represents_state, represents_run. Qed.

(** A half-open breaker lets exactly one probe out: once [begin_request]
    has answered [Probe], every further [begin_request], at whatever times and
    however many, is [Denied] and leaves the breaker as it is, until an outcome
    is recorded or the probe handed back. *)
Theorem half_open_admits_one_probe b now b' times t :
  begin_request b now = (Probe, b') →
  let b'' := run b' (map EBegin times) in
  b'' = b' ∧ (begin_request b'' t).1 = Denied ∧ permits b'' t = false.
Proof.
  intros H. apply probe_taken in H as (-> & Hp & u & Hu & Hle). cbv zeta.
  assert (∀ s, (begin_request (set_probe_sent true b) s).1 = Denied) as Hden.
  { intros s. apply probe_out_denied; simpl; eauto. }
  assert (run (set_probe_sent true b) (map EBegin times) = set_probe_sent true b) as ->.
  { unfold run. induction times as [|s times IH]; simpl; [done|].
    by rewrite begin_denied_same. }
  split_and!; [done|done|]. by apply begin_denied.
Qed.

Lemma half_open_admits_one_probe_witness :
  let b := run (new 2 60000) [EFailure 100; EFailure 100] in
  begin_request b 160 = (Probe, set_probe_sent true b) ∧
  (begin_request (run (set_probe_sent true b) (map EBegin [160; 161; 9000])) 12000).1 = Denied.
Proof.
  split; [reflexivity|].
  apply (half_open_admits_one_probe
    (run (new 2 60000) [EFailure 100; EFailure 100]) 160 _ [160; 161; 9000] 12000).
  reflexivity.
Defined.

End Breaker.

Module Fleet.

Definition TRIP_THRESHOLD : Z := 5.
Definition COOLDOWN : Z := 60 * 1000.

(** [Mutex<HashMap<AccountId, Breaker>>]; [None] is the poisoned lock, which
    no operation can take again. *)
Abbreviation Breakers := (option (gmap AccountId Breaker.Breaker)).

Definition fresh : Breaker.Breaker := Breaker.new TRIP_THRESHOLD COOLDOWN.

(** [entry(account).or_insert_with(|| Breaker::new(..))]. *)
Definition entry (m : gmap AccountId Breaker.Breaker) (a : AccountId) : Breaker.Breaker :=
  default fresh (m !! a).

Definition permits (bs : Breakers) (a : AccountId) (now : Z) : bool :=
  match bs with
  | None => true
  | Some m => match m !! a with Some b => Breaker.permits b now | None => true end
  end.

Definition begin_request (bs : Breakers) (a : AccountId) (now : Z) : Admission * Breakers :=
  match bs with
  | None => (Granted, None)
  | Some m =>
      let '(adm, b) := Breaker.begin_request (entry m a) now in (adm, Some (<[a := b]> m))
  end.

Definition release_probe (bs : Breakers) (a : AccountId) : Breakers :=
  match bs with
  | None => None
  | Some m =>
      match m !! a with Some b => Some (<[a := Breaker.release_probe b]> m) | None => Some m end
  end.

Definition record_success (bs : Breakers) (a : AccountId) : Breakers :=
  (fun m => <[a := Breaker.record_success (entry m a)]> m) <$> bs.

(** [now] is the clock reading the source takes inside. *)
Definition record_failure (bs : Breakers) (a : AccountId) (now : Z) : Breakers :=
  (fun m => <[a := Breaker.record_failure (entry m a) now]> m) <$> bs.

Definition open_count (bs : Breakers) (now : Z) : Z :=
  match bs with
  | None => 0
  | Some m =>
      Z.of_nat (length (keep (fun kb : AccountId * Breaker.Breaker =>
        match Breaker.state kb.2 now with Open _ => true | _ => false end) (map_to_list m)))
  end.

Definition clear (bs : Breakers) (a : AccountId) : Breakers := record_success bs a.

(** The [Dispatch] guard. *)
Record Dispatch : Type := { account : AccountId; probe : bool }.

Definition claim (bs : Breakers) (a : AccountId) (now : Z) : option Dispatch * Breakers :=
  let '(adm, bs) := begin_request bs a now in
  match adm with
  | Denied => (None, bs)
  | Granted => (Some {| account := a; probe := false |}, bs)
  | Probe => (Some {| account := a; probe := true |}, bs)
  end.

Definition sent (d : Dispatch) : Dispatch := {| account := account d; probe := false |}.

(** [Drop for Dispatch]. *)
Definition drop (bs : Breakers) (d : Dispatch) : Breakers :=
  if probe d then release_probe bs (account d) else bs.

(** ** Requests interleaving on one replica

    [guards] are the dispatch guards alive, by request.  [disturbed] is a
    ghost no step reads: the guards whose credential's breaker was written by
    someone else since they were claimed. *)
Record System : Type := { breakers : Breakers; guards : gmap N Dispatch; disturbed : gset N }.

(** The guards alive on [a]. *)
Definition on (g : gmap N Dispatch) (a : AccountId) : gset N :=
  dom (filter (λ rd : N * Dispatch, account rd.2 = a) g).

Inductive step : System → System → Prop :=
  | step_claim s r a now d bs :
      guards s !! r = None → claim (breakers s) a now = (Some d, bs) →
      step s {| breakers := bs; guards := <[r := d]> (guards s); disturbed := disturbed s ∖ {[r]} |}
  | step_refused s a now bs :
      claim (breakers s) a now = (None, bs) →
      step s {| breakers := bs; guards := guards s; disturbed := disturbed s |}
  | step_sent s r d :
      guards s !! r = Some d →
      step s {| breakers := breakers s; guards := <[r := sent d]> (guards s); disturbed := disturbed s |}
  (** A guard that was disturbed gives back a probe that may be another's. *)
  | step_drop s r d :
      guards s !! r = Some d →
      step s {| breakers := drop (breakers s) d; guards := delete r (guards s);
                disturbed := if bool_decide (r ∈ disturbed s) then disturbed s ∪ on (guards s) (account d)
                             else disturbed s |}
  (** The outcome of any request, sent whenever, and an operator's [clear]. *)
  | step_success s a :
      step s {| breakers := record_success (breakers s) a; guards := guards s;
                disturbed := disturbed s ∪ on (guards s) a |}
  | step_failure s a now :
      step s {| breakers := record_failure (breakers s) a now; guards := guards s;
                disturbed := disturbed s ∪ on (guards s) a |}
  | step_clear s a :
      step s {| breakers := clear (breakers s) a; guards := guards s;
                disturbed := disturbed s ∪ on (guards s) a |}.

Definition start : System := {| breakers := Some ∅; guards := ∅; disturbed := ∅ |}.

Inductive reachable : System → Prop :=
  | reach_start : reachable start
  | reach_step s s' : reachable s → step s s' → reachable s'.

(** ** Lemmas *)

Lemma entry_insert_eq m a b : entry (<[a := b]> m) a = b.
Proof. unfold entry. by rewrite lookup_insert_eq. Qed.

Lemma entry_insert_ne m a a' b : a ≠ a' → entry (<[a := b]> m) a' = entry m a'.
Proof. intros. unfold entry. by rewrite lookup_insert_ne. Qed.

(** A credential nobody has talked to is permitted, as a fresh breaker is. *)
Lemma permits_entry m a now : permits (Some m) a now = Breaker.permits (entry m a) now.
Proof. unfold permits, entry. by destruct (m !! a). Qed.

Lemma fresh_permits now : Breaker.permits fresh now = true.
Proof. done. Qed.

Lemma begin_request_Some m a now :
  begin_request (Some m) a now =
  ((Breaker.begin_request (entry m a) now).1,
   Some (<[a := (Breaker.begin_request (entry m a) now).2]> m)).
Proof. unfold begin_request. by destruct (Breaker.begin_request _ _). Qed.

Lemma claim_inv bs a now od bs' :
  claim bs a now = (od, bs') →
  (begin_request bs a now).2 = bs' ∧
  match od with
  | None => (begin_request bs a now).1 = Denied
  | Some d => account d = a ∧
      (begin_request bs a now).1 = (if probe d then Probe else Granted)
  end.
Proof. unfold claim. destruct (begin_request bs a now) as [[] ?]; intros [= <- <-]; done. Qed.

(** Two fleets no caller can tell apart by asking. *)
#[export] Instance fleet_equiv : Equiv Breakers :=
  fun x y => ∀ a now, permits x a now = permits y a now.

#[export] Instance fleet_equivalence : Equivalence fleet_equiv.
Proof.
  unfold fleet_equiv. split.
  - by intros x a now.
  - by intros x y H a now.
  - intros x y z H1 H2 a now. by rewrite H1.
Qed.

Lemma permits_insert m a b a' now :
  permits (Some (<[a := b]> m)) a' now =
  if decide (a = a') then Breaker.permits b now else permits (Some m) a' now.
Proof.
  rewrite !permits_entry. case_decide as Heq; [by rewrite Heq, entry_insert_eq|].
  by rewrite entry_insert_ne.
Qed.

(** A guard dropped before its request was sent leaves no trace: whether
    the admission was ordinary or the half-open probe, after [claim] and then
    [Drop] every credential is permitted at exactly the times it was before. *)
Theorem abandoned_claim_leaves_no_trace bs a now d bs' :
  claim bs a now = (Some d, bs') → drop bs' d ≡ bs.
Proof.
  intros H. apply claim_inv in H as (<- & Ha & Hadm). destruct bs as [m|].
  2: { simpl in *. destruct d as [? []]; done. }
  rewrite begin_request_Some in *. simpl in *. unfold drop. rewrite Ha.
  destruct (probe d).
  - destruct (Breaker.begin_request (entry m a) now) as [adm b'] eqn:E. simpl in *; subst adm.
    apply Breaker.probe_taken in E as (-> & Hp & _). simpl. rewrite lookup_insert_eq.
    intros a' t. rewrite insert_insert_eq, permits_insert. case_decide as Heq; [subst a'|done].
    rewrite permits_entry. destruct (entry m a). simpl in *. by subst.
  - intros a' t. rewrite permits_insert. case_decide as Heq; [subst a'|done].
    rewrite permits_entry. f_equal. by apply Breaker.begin_admitted.
Qed.

Definition tripped : Breakers :=
  Some {[ 7%N := Breaker.run fresh (replicate 5 (Breaker.EFailure 1000)) ]}.

Lemma abandoned_claim_leaves_no_trace_witness :
  permits (claim tripped 7%N 1060).2 7%N 1061 = false ∧
  drop (claim tripped 7%N 1060).2 {| account := 7%N; probe := true |} ≡ tripped.
Proof.
  split; [reflexivity|]. apply (abandoned_claim_leaves_no_trace tripped 7%N 1060). reflexivity.
Defined.

(** A probe that was sent and whose outcome is never recorded shuts its
    credential for good: when the request is cancelled on the wire, its guard
    has already given up the probe, dropping it returns nothing, and every
    later claim on the credential, at any time, is refused. *)
Theorem cancelled_probe_is_stuck bs a now d bs' t :
  claim bs a now = (Some d, bs') → probe d = true →
  let bs'' := drop bs' (sent d) in
  permits bs'' a t = false ∧ (claim bs'' a t).1 = None.
Proof.
  intros H Hp. apply claim_inv in H as (<- & Ha & Hadm). rewrite Hp in Hadm.
  destruct bs as [m|]; [|done]. unfold drop, sent. rewrite begin_request_Some in Hadm |- *.
  destruct (Breaker.begin_request (entry m a) now) as [adm b'] eqn:E. simpl in *; subst adm.
  apply Breaker.probe_taken in E as (-> & _ & u & Hu & _).
  assert ((Breaker.begin_request (Breaker.set_probe_sent true (entry m a)) t).1 = Denied) as Hd.
  { apply Breaker.probe_out_denied; simpl; eauto. }
  rewrite lookup_insert_eq. split; [by apply Breaker.begin_denied|].
  unfold claim. rewrite begin_request_Some, entry_insert_eq, Hd. done.
Qed.

Lemma cancelled_probe_is_stuck_witness :
  (claim tripped 7%N 1060).1 = Some {| account := 7%N; probe := true |} ∧
  permits (drop (claim tripped 7%N 1060).2
    (sent {| account := 7%N; probe := true |})) 7%N 999999999 = false.
Proof.
  split; [reflexivity|].
  apply (cancelled_probe_is_stuck tripped 7%N 1060 {| account := 7%N; probe := true |}
    (claim tripped 7%N 1060).2 999999999); reflexivity.
Defined.

(** ** The invariant of the interleaving *)

(** The credential's breaker has its probe marked out. *)
Definition probe_out (bs : Breakers) (a : AccountId) : Prop :=
  match bs with
  | None => True
  | Some m =>
      Breaker.half_open_probe_sent (entry m a) = true ∧
      is_Some (Breaker.opened_until (entry m a))
  end.

(** Request [r] holds the unspent probe of [a], and nobody has written to the
    breaker of [a] since it claimed it. *)
Definition holds_probe (s : System) (r : N) (a : AccountId) : Prop :=
  (r ∉ disturbed s) ∧ ∃ d, guards s !! r = Some d ∧ probe d = true ∧ account d = a.

Definition exclusive (s : System) : Prop :=
  ∀ r a, holds_probe s r a → probe_out (breakers s) a ∧ ∀ r', holds_probe s r' a → r' = r.

Lemma on_In g a r : r ∈ on g a ↔ ∃ d, g !! r = Some d ∧ account d = a.
Proof.
  unfold on. rewrite elem_of_dom. split.
  - intros [d [Hd Ha]%map_lookup_filter_Some]. eauto.
  - intros (d & Hd & Ha). exists d. by apply map_lookup_filter_Some.
Qed.

Lemma probe_out_other m a a' b :
  a ≠ a' → probe_out (Some m) a' → probe_out (Some (<[a := b]> m)) a'.
Proof. intros. unfold probe_out. by rewrite entry_insert_ne. Qed.

(** While the probe is out the only admissions a credential's breaker grants
    are none. *)
Lemma probe_out_refuses m a now :
  probe_out (Some m) a → begin_request (Some m) a now = (Denied, Some (<[a := entry m a]> m)).
Proof.
  intros [Hp Ho]. rewrite begin_request_Some.
  assert ((Breaker.begin_request (entry m a) now).1 = Denied) as Hd
    by by apply Breaker.probe_out_denied.
  by rewrite Hd, (Breaker.begin_denied_same _ _ Hd).
Qed.

Lemma probe_out_begin bs a a' now :
  probe_out bs a' → probe_out (begin_request bs a now).2 a'.
Proof.
  destruct bs as [m|]; [|done]. intros H. destruct (decide (a = a')) as [->|].
  - rewrite probe_out_refuses by done. simpl. rewrite entry_insert_eq. exact H.
  - rewrite begin_request_Some. by apply probe_out_other.
Qed.

Lemma probe_claimed_out bs a now d :
  claim bs a now = (Some d, (begin_request bs a now).2) → probe d = true →
  probe_out (begin_request bs a now).2 a ∧ ¬ probe_out bs a ∨ bs = None.
Proof.
  intros H Hp. apply claim_inv in H as (_ & Ha & Hadm). rewrite Hp in Hadm.
  destruct bs as [m|]; [left|by right]. split.
  - rewrite begin_request_Some in *. simpl in *.
    destruct (Breaker.begin_request (entry m a) now) as [adm b'] eqn:E. simpl in *; subst adm.
    apply Breaker.probe_taken in E as (-> & _ & u & Hu & _).
    rewrite entry_insert_eq. simpl. eauto.
  - intros Hout. by rewrite probe_out_refuses in Hadm.
Qed.

Lemma exclusive_claim s r a now d bs :
  guards s !! r = None → claim (breakers s) a now = (Some d, bs) → exclusive s →
  exclusive {| breakers := bs; guards := <[r := d]> (guards s); disturbed := disturbed s ∖ {[r]} |}.
Proof.
  intros Hr Hc Hex. destruct (claim_inv _ _ _ _ _ Hc) as (<- & Ha & Hadm).
  set (s' := Build_System _ _ _).
  assert (∀ r' a', holds_probe s' r' a' →
    (r' = r ∧ a' = a ∧ probe d = true) ∨ (r' ≠ r ∧ holds_probe s r' a')) as Hsplit.
  { intros r' a' (Hn & d' & Hd & Hp & Hd'). cbn in *. apply lookup_insert_Some in Hd as [[<- <-]|[Hne Hd]].
    - left. by rewrite <- Hd', Ha.
    - right. split; [done|]. split; [set_solver|eauto]. }
  assert (∀ r', probe d = true → ¬ holds_probe s r' a) as Hfresh.
  { intros r' Hp Hh. destruct (Hex r' a Hh) as [Hout _].
    destruct (probe_claimed_out _ _ _ _ Hc Hp) as [[_ Hn]|Hnone]; [done|].
    rewrite Hnone, Hp in Hadm. done. }
  intros r1 a1 H1. destruct (Hsplit r1 a1 H1) as [(-> & -> & Hp)|(Hne & Hh)].
  - split; [destruct (probe_claimed_out _ _ _ _ Hc Hp) as [[? _]|Hnone]; [done|]; cbn; by rewrite Hnone|].
    intros r' H'. destruct (Hsplit r' a H') as [(-> & _)|(_ & Hh)]; [done|]. by apply Hfresh in Hh.
  - destruct (Hex r1 a1 Hh) as [Hout Huniq]. split; [by apply probe_out_begin|].
    intros r' H'. destruct (Hsplit r' a1 H') as [(-> & -> & Hp)|(_ & Hh')]; [|by apply Huniq].
    by apply Hfresh in Hh.
Qed.

(** What leaves the breaker of every probe held as it was, and lets no guard
    hold one that did not. *)
Lemma exclusive_fewer s s' :
  exclusive s →
  (∀ r a, holds_probe s' r a → holds_probe s r a ∧ (probe_out (breakers s) a → probe_out (breakers s') a)) →
  exclusive s'.
Proof.
  intros Hex Hsub r a Hh. destruct (Hsub r a Hh) as [Hs Hout]. destruct (Hex r a Hs) as [Ho Hu].
  split; [auto|]. intros r' Hh'. apply Hu. by apply Hsub in Hh' as [? _].
Qed.

Lemma exclusive_drop s r d :
  guards s !! r = Some d → exclusive s →
  exclusive {| breakers := drop (breakers s) d; guards := delete r (guards s);
               disturbed := if bool_decide (r ∈ disturbed s) then disturbed s ∪ on (guards s) (account d)
                            else disturbed s |}.
Proof.
  intros Hr Hex. apply (exclusive_fewer s); [done|]. intros r1 a1 (Hn & d1 & Hd1 & Hp1 & Ha1). cbn in *.
  apply lookup_delete_Some in Hd1 as [Hne Hd1].
  assert (r1 ∉ disturbed s) as Hn1 by (case_bool_decide; set_solver).
  assert (holds_probe s r1 a1) as Hh by (split; [done|eauto]). split; [done|]. intros Hout.
  unfold drop. destruct (probe d) eqn:Hp; [|done].
  assert (account d ≠ a1) as Hacc.
  { intros <-. case_bool_decide.
    - apply Hn, elem_of_union. right. apply on_In. eauto.
    - apply Hne. apply (Hex r1 _ Hh). split; [done|eauto]. }
  destruct (breakers s) as [m|]; [|done]. simpl.
  destruct (m !! account d); [by apply probe_out_other|done].
Qed.

(** Whoever writes to a breaker disturbs the guards on its credential, and no
    other. *)
Lemma exclusive_outcome s a (f : gmap AccountId Breaker.Breaker → Breaker.Breaker) :
  exclusive s →
  exclusive {| breakers := (fun m => <[a := f m]> m) <$> breakers s; guards := guards s;
               disturbed := disturbed s ∪ on (guards s) a |}.
Proof.
  intros Hex. apply (exclusive_fewer s); [done|]. intros r1 a1 (Hn & d1 & Hd1 & Hp1 & Ha1). cbn in *.
  assert (a ≠ a1) as Hne.
  { intros <-. apply Hn, elem_of_union. right. apply on_In. eauto. }
  split; [split; [set_solver|eauto]|]. destruct (breakers s) as [m|]; [|done]. by apply probe_out_other.
Qed.

Lemma step_exclusive s s' : step s s' → exclusive s → exclusive s'.
Proof.
  intros [] Hex; eauto using exclusive_claim, exclusive_drop.
  - apply (exclusive_fewer s0); [done|]. intros r a' Hh. split; [done|].
    apply claim_inv in H as [<- _]. apply probe_out_begin.
  - apply (exclusive_fewer s0); [done|]. intros r1 a1 (Hn & d1 & Hd1 & Hp1 & Ha1). cbn in *.
    apply lookup_insert_Some in Hd1 as [[_ <-]|[_ Hd1]]; [done|]. split; [split; [done|eauto]|done].
  - by apply (exclusive_outcome _ _ (fun m => Breaker.record_success (entry m a))).
  - by apply (exclusive_outcome _ _ (fun m => Breaker.record_failure (entry m a) now)).
  - by apply (exclusive_outcome _ _ (fun m => Breaker.record_success (entry m a))).
Qed.

Lemma reachable_exclusive s : reachable s → exclusive s.
Proof.
  induction 1; [|eauto using step_exclusive].
  intros r a (_ & d & Hd & _). cbn in Hd. by rewrite lookup_empty in Hd.
Qed.

(** C39. However requests interleave -- claims, sends, drops, and outcomes and
    clears of any credential at any time -- two of them never both hold the
    half-open probe of one credential, unless someone wrote to that
    credential's breaker since one of them claimed it: an outcome, a clear, or
    a guard so overtaken that was dropped.  While one so holds it, every claim
    on the credential is refused. *)
Theorem probe_is_exclusive s r1 r2 a now :
  reachable s → holds_probe s r1 a → holds_probe s r2 a →
  r1 = r2 ∧ (breakers s ≠ None → (claim (breakers s) a now).1 = None).
Proof.
  intros Hs H1 H2. apply reachable_exclusive in Hs. destruct (Hs r2 a H2) as [Hout Huniq].
  split; [by apply Huniq|]. intros Hsome. destruct (breakers s) as [m|]; [|done]. unfold claim.
  by rewrite probe_out_refuses.
Qed.

(** Five failures on an idle credential, then the probe. *)
Definition failures (n : nat) : Breakers :=
  Nat.iter n (fun bs => record_failure bs 7%N 1000) (Some ∅).

Lemma reachable_failures n : reachable {| breakers := failures n; guards := ∅; disturbed := ∅ |}.
Proof.
  induction n as [|n IH]; [apply reach_start|]. apply (reach_step _ _ IH).
  pose proof (step_failure {| breakers := failures n; guards := ∅; disturbed := ∅ |} 7%N 1000) as H.
  cbn [breakers guards disturbed] in H. assert (∅ ∪ on ∅ 7%N = (∅ : gset N)) as E.
  { apply set_eq. intros r. rewrite elem_of_union, on_In. split; [|set_solver].
    intros [?|(d & Hd & _)]; [set_solver|]. by rewrite lookup_empty in Hd. }
  by rewrite E in H.
Qed.

Definition probing : Dispatch := {| account := 7%N; probe := true |}.

(** Request 1 has claimed the probe. *)
Definition claimed : System :=
  {| breakers := (claim (failures 5) 7%N 1060).2; guards := {[ 1%N := probing ]}; disturbed := ∅ |}.

Lemma claimed_reachable : reachable claimed.
Proof.
  apply (reach_step {| breakers := failures 5; guards := ∅; disturbed := ∅ |}); [apply reachable_failures|].
  pose proof (step_claim {| breakers := failures 5; guards := ∅; disturbed := ∅ |} 1%N 7%N 1060 probing
    (claim (failures 5) 7%N 1060).2 eq_refl eq_refl) as H. cbn [breakers guards disturbed] in H.
  assert (∅ ∖ {[1%N]} = (∅ : gset N)) as E by set_solver. by rewrite E in H.
Qed.

Lemma probe_is_exclusive_witness :
  holds_probe claimed 1%N 7%N ∧ 1%N = 1%N ∧
  (breakers claimed ≠ None → (claim (breakers claimed) 7%N 99999).1 = None).
Proof.
  assert (holds_probe claimed 1%N 7%N) as Hh by (split; [set_solver|by exists probing]).
  split; [exact Hh|]. exact (probe_is_exclusive claimed 1%N 1%N 7%N 99999 claimed_reachable Hh Hh).
Defined.

(** The exception happens.  A request sent before the breaker opened fails
    while another holds the probe unspent: the breaker opens again, and when
    it is half open a second request is given a second probe. *)
Example two_unspent_probes :
  ∃ s, reachable s ∧ guards s !! 1%N = Some probing ∧ guards s !! 2%N = Some probing.
Proof.
  eexists. split; [|split].
  - eapply reach_step; [eapply reach_step; [apply claimed_reachable|apply (step_failure claimed 7%N 1070)]|].
    apply (step_claim _ 2%N 7%N 1200 probing); [reflexivity|vm_compute; reflexivity].
  - reflexivity.
  - reflexivity.
Qed.

End Fleet.
