(* ===== verification/Schedule.v ===== *)
(** * The selection cascade

    [crates/oag-pool/src/schedule.rs]: given every credential that could serve
    a request, pick one.  A snapshot goes in, a choice and the stage that
    decided it come out; the random tie-break is an argument. *)

From Stdlib Require Import QArith.
From S2P Require Import Prelude Money Domain.
#[local] Open Scope Z_scope.

Inductive Stage : Type := OnlyCandidate | LeastLoaded | SoonestReset | LeastRecentlyUsed.

Record Selection : Type := { sel_account : AccountId; sel_stage : Stage }.

Section schedule.
Context {D : Type} {HD : Decimal D}.

Definition held_by_reserve (remaining_pct reserve_pct : option D) : bool :=
  match remaining_pct, reserve_pct with
  | Some remaining, Some floor => dle remaining floor
  | _, _ => false
  end.

Record Candidate : Type := {
  account : AccountId;
  provider : Provider;
  priority : Z;
  max_concurrency : Z;
  in_flight : Z;
  waiting : Z;
  schedulable : bool;
  cooldown_until : option Z;
  rate_limited_until : option Z;
  window_resets_at : option Z;
  usage_remaining_pct : option D;
  usage_reserve_pct : option D;
  last_used_at : Z
}.

(** [o.is_none_or(|t| t <= now)]. *)
Definition passed (o : option Z) (now : Z) : bool :=
  match o with Some t => t <=? now | None => true end.

Definition eligible (c : Candidate) (now : Z) : bool :=
  schedulable c && passed (cooldown_until c) now && passed (rate_limited_until c) now &&
  negb (held_by_reserve (usage_remaining_pct c) (usage_reserve_pct c)) &&
  (in_flight c <? max_concurrency c).

Definition load_bp (c : Candidate) : Z :=
  if max_concurrency c =? 0 then U32_MAX
  else
    let busy := sat_add U32_MAX (in_flight c) (waiting c) in
    sat_mul U32_MAX busy 10000 / max_concurrency c.

(** The window of stage 3: a reset still ahead of [now]. *)
Definition live_window (now : Z) (c : Candidate) : option Z :=
  match window_resets_at c with
  | Some t => if now <? t then Some t else None
  | None => None
  end.

(** Stage 4: least recently used, ties broken by [tie_breaker]. *)
Definition least_recent (pool : list Candidate) (tie_breaker : Z) : option Selection :=
  match min_key last_used_at pool with
  | None => None
  | Some oldest =>
      let coldest := keep (fun c => last_used_at c =? oldest) pool in
      let idx := tie_breaker mod Z.of_nat (length coldest) in
      (fun c => {| sel_account := account c; sel_stage := LeastRecentlyUsed |})
        <$> coldest !! Z.to_nat idx
  end.

Definition select (candidates : list Candidate) (now tie_breaker : Z) : option Selection :=
  let el := keep (fun c => eligible c now) candidates in
  match el with
  | [] => None
  | [first] => Some {| sel_account := account first; sel_stage := OnlyCandidate |}
  | _ =>
    match min_key priority el with
    | None => None
    | Some best_priority =>
      let tier := keep (fun c => priority c =? best_priority) el in
      match min_key load_bp tier with
      | None => None
      | Some min_load =>
        let least_loaded := keep (fun c => load_bp c =? min_load) tier in
        match least_loaded with
        | [only] => Some {| sel_account := account only; sel_stage := LeastLoaded |}
        | _ =>
          let soonest := min_key id (filter_map (live_window now) least_loaded) in
          match soonest with
          | Some t =>
              let expiring := keep (fun c => bool_decide (window_resets_at c = Some t)) least_loaded in
              match expiring with
              | [only] => Some {| sel_account := account only; sel_stage := SoonestReset |}
              | _ => least_recent expiring tie_breaker
              end
          | None => least_recent least_loaded tie_breaker
          end
        end
      end
    end
  end.

(** ** What the cascade promises

    One total preference between two credentials, compared field by field:
    priority, then load, then the live window that ends sooner (a credential
    with none comes last), then the least recently used. *)

Definition lex (c d : comparison) : comparison := match c with Eq => d | _ => c end.

Definition cmp_window (x y : option Z) : comparison :=
  match x, y with
  | Some x, Some y => Z.compare x y
  | Some _, None => Lt
  | None, Some _ => Gt
  | None, None => Eq
  end.

Definition prefer (now : Z) (a b : Candidate) : comparison :=
  lex (Z.compare (priority a) (priority b))
    (lex (Z.compare (load_bp a) (load_bp b))
      (lex (cmp_window (live_window now a) (live_window now b))
        (Z.compare (last_used_at a) (last_used_at b)))).

(** [c] is a credential the specification allows: eligible, and no eligible
    credential is preferred to it. *)
Definition best (now : Z) (cs : list Candidate) (c : Candidate) : Prop :=
  In c cs ∧ eligible c now = true ∧
  ∀ c', In c' cs → eligible c' now = true → prefer now c c' ≠ Gt.

(** ** Lemmas *)

Lemma lex_ge (c d : comparison) : lex c d ≠ Gt ↔ c ≠ Gt ∧ (c = Eq → d ≠ Gt).
Proof. destruct c; simpl; naive_solver. Qed.

Lemma cmp_window_eq x y : cmp_window x y = Eq ↔ x = y.
Proof. destruct x, y; simpl; rewrite ?Z.compare_eq_iff; naive_solver. Qed.

Lemma cmp_window_opp x y : cmp_window x y = CompOpp (cmp_window y x).
Proof. destruct x, y; simpl; try done. apply Z.compare_antisym. Qed.

(** Comparing lexicographically is narrowing by the first key and comparing
    what is left by the rest. *)
Lemma lex_argmin {X K} (S : X → Prop) (cmp : K → K → comparison) (f : X → K)
    (rest : X → X → comparison) c :
  (∀ a b, cmp a b = Eq ↔ a = b) → (∀ a b, cmp a b = CompOpp (cmp b a)) →
  let S1 x := S x ∧ ∀ y, S y → cmp (f x) (f y) ≠ Gt in
  (S c ∧ ∀ c', S c' → lex (cmp (f c) (f c')) (rest c c') ≠ Gt)
  ↔ (S1 c ∧ ∀ c', S1 c' → rest c c' ≠ Gt).
Proof.
  intros Heq Hopp S1. subst S1. setoid_rewrite lex_ge. split.
  - intros [Hc H]. split; [split; [done|]; intros; by apply H|].
    intros c' [Hc' Hmin]. apply H; [done|]. destruct (H c' Hc') as [Hle _].
    specialize (Hmin c Hc). rewrite Hopp in Hmin. by destruct (cmp (f c) (f c')).
  - intros [[Hc Hmin] H]. split; [done|]. intros c' Hc'. split; [by apply Hmin|].
    intros He%Heq. apply H. split; [done|]. rewrite <-He. done.
Qed.

Lemma live_window_Some now c t :
  live_window now c = Some t ↔ window_resets_at c = Some t ∧ now < t.
Proof.
  unfold live_window. destruct (window_resets_at c) as [u|]; [|naive_solver].
  destruct (Z.ltb_spec now u); naive_solver lia.
Qed.

(** Stage 3 leaves the credentials whose window is soonest. *)
Definition window_pool (now : Z) (least_loaded : list Candidate) : list Candidate :=
  match min_key id (filter_map (live_window now) least_loaded) with
  | Some t => keep (fun c => bool_decide (window_resets_at c = Some t)) least_loaded
  | None => least_loaded
  end.

Lemma window_pool_spec now l c :
  In c (window_pool now l) ↔
  In c l ∧ ∀ c', In c' l → cmp_window (live_window now c) (live_window now c') ≠ Gt.
Proof.
  unfold window_pool. destruct (min_key id _) as [t|] eqn:Em.
  - destruct (min_key_spec _ _ _ Em) as [(t' & Hin & Ht) Hle]. unfold id in *; subst t'.
    apply filter_map_In in Hin as (w & Hw & Hlw). pose proof Hlw as [Hww Hlt]%live_window_Some.
    rewrite keep_In, bool_decide_eq_true. split; intros [Hc H]; (split; [done|]).
    + intros c' Hc'. rewrite (proj2 (live_window_Some now c t)) by done.
      destruct (live_window now c') as [u|] eqn:Eu; simpl; [|done].
      change (t ≤ u). apply (Hle u). apply filter_map_In. eauto.
    + specialize (H w Hw). rewrite Hlw in H.
      destruct (live_window now c) as [u|] eqn:Eu; simpl in H; [|done].
      assert (t ≤ u) by (apply (Hle u); apply filter_map_In; eauto).
      apply live_window_Some in Eu as [Eu _]. rewrite Eu. f_equal.
      change (u ≤ t) in H. lia.
  - apply min_key_None in Em. split; [|by intros []]. intros Hc. split; [done|].
    intros c' Hc'.
    assert (∀ x, In x l → live_window now x = None) as Hn.
    { intros x Hx. destruct (live_window now x) eqn:E; [|done].
      assert (In z (filter_map (live_window now) l)) as Hz by (apply filter_map_In; eauto).
      by rewrite Em in Hz. }
    by rewrite !Hn.
Qed.

Lemma window_pool_nonempty now l : l ≠ [] → window_pool now l ≠ [].
Proof.
  intros Hl. unfold window_pool. destruct (min_key id _) as [t|] eqn:Em; [|done].
  destruct (min_key_spec _ _ _ Em) as [(t' & Hin & Ht) _]. unfold id in *; subst t'.
  apply filter_map_In in Hin as (w & Hw & [Hww _]%live_window_Some).
  rewrite keep_nil. intros Hn. specialize (Hn w Hw). by rewrite bool_decide_eq_false in Hn.
Qed.

(** The credentials left after all four stages are the ones [best] allows. *)
Definition survivors (now : Z) (cs : list Candidate) : list Candidate :=
  let argmin key l := match min_key key l with
    | Some m => keep (fun c => key c =? m) l | None => [] end in
  argmin last_used_at (window_pool now (argmin load_bp (argmin priority
    (keep (fun c => eligible c now) cs)))).

Lemma argmin_In (key : Candidate → Z) l c :
  In c (match min_key key l with Some m => keep (fun c => key c =? m) l | None => [] end)
  ↔ In c l ∧ ∀ c', In c' l → key c ≤ key c'.
Proof.
  destruct (min_key key l) as [m|] eqn:E; [by apply keep_min_spec|].
  apply min_key_None in E as ->. simpl. naive_solver.
Qed.

Lemma argmin_nonempty (key : Candidate → Z) l :
  l ≠ [] →
  match min_key key l with Some m => keep (fun c => key c =? m) l | None => [] end ≠ [].
Proof.
  intros Hl. destruct (min_key key l) eqn:E; [by eapply keep_min_nonempty|].
  by apply min_key_None in E.
Qed.

Lemma exists_min_In (key : Candidate → Z) l c :
  In c l → ∃ m, In m l ∧ ∀ c', In c' l → key m ≤ key c'.
Proof.
  intros Hc. destruct (min_key key l) as [m|] eqn:E.
  - destruct (min_key_spec _ _ _ E) as [(x & Hx & <-) Hle]. eauto.
  - apply min_key_None in E as ->. done.
Qed.

Lemma survivors_best now cs c : In c (survivors now cs) ↔ best now cs c.
Proof.
  set (E x := In x cs ∧ eligible x now = true).
  set (P x := E x ∧ ∀ y, E y → (priority x ?= priority y) ≠ Gt).
  set (L x := P x ∧ ∀ y, P y → (load_bp x ?= load_bp y) ≠ Gt).
  transitivity (E c ∧ ∀ c', E c' → prefer now c c' ≠ Gt).
  2: { unfold best, E. naive_solver. }
  assert (∀ a b : Z, (a ?= b) = Eq ↔ a = b) as HZ by apply Z.compare_eq_iff.
  symmetry.
  etransitivity; [apply (lex_argmin E Z.compare priority (fun a b => lex _ (lex _ _)));
    auto using Z.compare_antisym|].
  etransitivity; [apply (lex_argmin P Z.compare load_bp (fun a b => lex _ _));
    auto using Z.compare_antisym|].
  etransitivity; [apply (lex_argmin L cmp_window (live_window now) (fun a b => _));
    auto using cmp_window_eq, cmp_window_opp|].
  symmetry.
  unfold survivors. rewrite argmin_In, window_pool_spec, !argmin_In.
  setoid_rewrite window_pool_spec. repeat setoid_rewrite argmin_In. setoid_rewrite keep_In.
  done.
Qed.

Lemma survivors_nonempty now cs c :
  In c cs → eligible c now = true → survivors now cs ≠ [].
Proof.
  intros Hc He. unfold survivors. apply argmin_nonempty, window_pool_nonempty.
  apply argmin_nonempty, argmin_nonempty. rewrite keep_nil. intros H.
  rewrite (H c Hc) in He. done.
Qed.

Lemma least_recent_Some pool tb s :
  least_recent pool tb = Some s →
  ∃ c, In c (match min_key last_used_at pool with
             | Some m => keep (fun c => last_used_at c =? m) pool | None => [] end)
       ∧ sel_account s = account c.
Proof.
  unfold least_recent. destruct (min_key last_used_at pool); [|done].
  intros (c & Hc & ->)%fmap_Some. exists c. split; [|done]. apply In_lookup. eauto.
Qed.

Lemma argmin_one (key : Candidate → Z) c :
  match min_key key [c] with Some m => keep (fun c => key c =? m) [c] | None => [] end = [c].
Proof. simpl. by rewrite Z.eqb_refl. Qed.

Lemma window_pool_one now c : window_pool now [c] = [c].
Proof.
  unfold window_pool. simpl. destruct (live_window now c) as [t|] eqn:E; [|done].
  apply live_window_Some in E as [E _]. simpl. by rewrite bool_decide_eq_true_2.
Qed.

Lemma least_recent_survivors pool tb :
  pool ≠ [] →
  let left := match min_key last_used_at pool with
    | Some m => keep (fun c => last_used_at c =? m) pool | None => [] end in
  ∃ c, left !! Z.to_nat (tb mod Z.of_nat (length left)) = Some c ∧
    least_recent pool tb = Some {| sel_account := account c; sel_stage := LeastRecentlyUsed |}.
Proof.
  intros Hne. unfold least_recent. pose proof (argmin_nonempty last_used_at pool Hne) as Hl.
  destruct (min_key last_used_at pool) as [m|]; [|done]. cbv zeta. set (l := keep _ pool) in *.
  assert (0 < Z.of_nat (length l)) as Hlen by (destruct l; simpl; [done|lia]).
  destruct (lookup_lt_is_Some_2 l (Z.to_nat (tb mod Z.of_nat (length l)))) as [c Hc].
  { pose proof (Z.mod_pos_bound tb _ Hlen). lia. }
  exists c. by rewrite Hc.
Qed.

(** The stages after the second, given what the second leaves. *)
Lemma after_load now ll tb :
  ll ≠ [] →
  let decided :=
    match ll with
    | [only] => Some {| sel_account := account only; sel_stage := LeastLoaded |}
    | _ =>
      match min_key id (filter_map (live_window now) ll) with
      | Some t =>
          let expiring := keep (fun c => bool_decide (window_resets_at c = Some t)) ll in
          match expiring with
          | [only] => Some {| sel_account := account only; sel_stage := SoonestReset |}
          | _ => least_recent expiring tb
          end
      | None => least_recent ll tb
      end
    end in
  let pool := window_pool now ll in
  let left := match min_key last_used_at pool with
    | Some m => keep (fun c => last_used_at c =? m) pool | None => [] end in
  ∃ c, left !! Z.to_nat (tb mod Z.of_nat (length left)) = Some c ∧
    sel_account <$> decided = Some (account c).
Proof.
  intros Hne. cbv zeta.
  assert (∀ p, p ≠ [] → ∃ c,
    (match min_key last_used_at p with
     | Some m => keep (fun c => last_used_at c =? m) p | None => [] end)
      !! Z.to_nat (tb mod Z.of_nat (length (match min_key last_used_at p with
        | Some m => keep (fun c => last_used_at c =? m) p | None => [] end))) = Some c ∧
    sel_account <$> least_recent p tb = Some (account c)) as Hlast.
  { intros p Hp. destruct (least_recent_survivors p tb Hp) as (c & Hc & ->). eauto. }
  assert (∀ x, (match min_key last_used_at [x] with
     | Some m => keep (fun c => last_used_at c =? m) [x] | None => [] end) = [x]) as Hone
    by apply argmin_one.
  destruct ll as [|l1 [|l2 ll]]; [done| |].
  { rewrite window_pool_one, Hone. simpl. rewrite Z.mod_1_r. by exists l1. }
  pose proof (window_pool_nonempty now _ Hne) as Hw. unfold window_pool in *.
  destruct (min_key id _) as [t|]; [|by apply Hlast].
  destruct (keep _ _) as [|p1 [|p2 ps]]; [done| |by apply Hlast].
  rewrite Hone. simpl. rewrite Z.mod_1_r. by exists p1.
Qed.

(** The winner is decided by the list of survivors: the one the tie-break
    points at. *)
Lemma select_survivor cs now tb :
  match survivors now cs !! Z.to_nat (tb mod Z.of_nat (length (survivors now cs))) with
  | Some c => sel_account <$> select cs now tb = Some (account c)
  | None => survivors now cs = [] ∧ select cs now tb = None
  end.
Proof.
  unfold select, survivors. set (el := keep _ cs).
  destruct el as [|e1 [|e2 el']] eqn:Eel; [done| |].
  { rewrite !argmin_one, window_pool_one, argmin_one. simpl. by rewrite Z.mod_1_r. }
  rewrite <-Eel. destruct (min_key priority el) as [p|] eqn:Ep.
  2: { apply min_key_None in Ep. congruence. }
  set (tier := keep _ el). destruct (min_key load_bp tier) as [ld|] eqn:El.
  2: { exfalso. apply min_key_None in El. by eapply keep_min_nonempty. }
  destruct (after_load now (keep (fun c => load_bp c =? ld) tier) tb) as (c & -> & Hc).
  { by eapply keep_min_nonempty. }
  exact Hc.
Qed.

Lemma select_best cs now tb s :
  select cs now tb = Some s → ∃ c, best now cs c ∧ sel_account s = account c.
Proof.
  intros H. pose proof (select_survivor cs now tb) as Hs. rewrite H in Hs. simpl in Hs.
  destruct (survivors now cs !! _) as [c|] eqn:E; [|by destruct Hs].
  exists c. split; [|congruence]. apply survivors_best, In_lookup. eauto.
Qed.

(** The cascade is optimal: whatever the tie-break, the credential it
    returns is eligible, and no eligible credential is preferred to it -- none
    has a lower priority, or at that priority a lower load, or at that load a
    live window that resets sooner, or after all of these was used longer
    ago. *)
Theorem select_optimal cs now tb s :
  select cs now tb = Some s → ∃ c, best now cs c ∧ sel_account s = account c.
Proof. apply select_best. Qed.

(** The cascade finds nothing exactly when nothing is eligible, so a
    request is refused only when every credential is switched off, cooling
    down, rate limited, held by its reserve or full. *)
Theorem select_none cs now tb :
  select cs now tb = None ↔ ∀ c, In c cs → eligible c now = false.
Proof.
  pose proof (select_survivor cs now tb) as Hs. split.
  - intros H c Hc. rewrite H in Hs. destruct (eligible c now) eqn:He; [|done].
    destruct (survivors now cs !! _) eqn:E; [done|]. destruct Hs as [Hnil _].
    by apply (survivors_nonempty now cs c) in Hc.
  - intros H. destruct (survivors now cs !! _) as [c|] eqn:E; [|by destruct Hs].
    assert (In c (survivors now cs)) as [Hc [He _]]%survivors_best by (apply In_lookup; eauto).
    rewrite (H c Hc) in He. done.
Qed.

(** No credential starves: every credential the specification allows is
    chosen by some tie-break, so a fleet of equals is spread over all of
    them. *)
Theorem select_every_best cs now c :
  best now cs c → ∃ tb, 0 ≤ tb < Z.of_nat (length cs) ∧
    sel_account <$> select cs now tb = Some (account c).
Proof.
  intros Hb%survivors_best. pose proof Hb as [i Hi]%In_lookup.
  assert (i < length (survivors now cs))%nat as Hlt by by apply lookup_lt_Some in Hi.
  assert (length (survivors now cs) ≤ length cs)%nat as Hlen.
  { unfold survivors, window_pool, keep. repeat case_match; rewrite ?List.filter_length_le;
      simpl; try lia; repeat (etrans; [apply List.filter_length_le|]); lia. }
  exists (Z.of_nat i). split; [lia|].
  pose proof (select_survivor cs now (Z.of_nat i)) as Hs.
  rewrite Z.mod_small in Hs by lia. rewrite Nat2Z.id, Hi in Hs. exact Hs.
Qed.

End schedule.

(** ** Concrete snapshots *)

Definition seat (a : N) (used : Z) (window : option Z) (left_pct : option Q) : Candidate := {|
  account := a; provider := OpenAI; priority := 1; max_concurrency := 4; in_flight := 1;
  waiting := 0; schedulable := true; cooldown_until := None; rate_limited_until := None;
  window_resets_at := window; usage_remaining_pct := left_pct;
  usage_reserve_pct := Some (dint 20); last_used_at := used
|}.

(** One seat at its reserve, one whose window has already reset, two with a
    live window. *)
Definition snapshot : list Candidate :=
  [seat 1 50 (Some 200) (Some (dint 20)); seat 2 10 (Some 90) None;
   seat 3 70 (Some 300) (Some (dint 21)); seat 4 60 (Some 300) None].

Lemma select_optimal_witness :
  ∃ c, best 100 snapshot c ∧ 4%N = account c.
Proof.
  apply (select_optimal snapshot 100 7 {| sel_account := 4%N; sel_stage := LeastRecentlyUsed |}).
  vm_compute. reflexivity.
Defined.

Lemma select_every_best_witness :
  best 100 [seat 3 60 (Some 300) None; seat 4 60 (Some 300) None] (seat 3 60 (Some 300) None) ∧
  ∃ tb, 0 ≤ tb < 2 ∧
    sel_account <$> select [seat 3 60 (Some 300) None; seat 4 60 (Some 300) None] 100 tb = Some 3%N.
Proof.
  assert (best 100 [seat 3 60 (Some 300) None; seat 4 60 (Some 300) None]
    (seat 3 60 (Some 300) None)) as Hb
    by (apply survivors_best; vm_compute; left; reflexivity).
  split; [exact Hb|].
  exact (select_every_best [seat 3 60 (Some 300) None; seat 4 60 (Some 300) None] 100 _ Hb).
Defined.
