(* ===== verification/Efforts.v ===== *)
(** * Reasoning effort

    [crates/oag-router/src/efforts.rs]: the effort levels a model takes, the
    override table, OpenRouter's snapshot, and the plan that says which levels
    each catalog row stores and where they came from. *)

From Stdlib Require Import Ascii.
From S2P Require Import Prelude Text Domain.
#[local] Open Scope string_scope.
#[local] Open Scope oag_scope.
#[local] Open Scope Z_scope.

Record Level : Type := { value : string; label : string }.

#[export] Instance Level_eq_dec : EqDecision Level.
Proof. solve_decision. Defined.

Definition LEVELS : list Level := [
  {| value := "none"; label := "None Effort" |};
  {| value := "minimal"; label := "Minimal Effort" |};
  {| value := "low"; label := "Low Effort" |};
  {| value := "medium"; label := "Medium Effort" |};
  {| value := "high"; label := "High Effort" |};
  {| value := "xhigh"; label := "Xhigh Effort" |};
  {| value := "max"; label := "Max Effort" |};
  {| value := "ultra"; label := "Ultra Effort" |}
].

(** The fields are private in the source: only [new] makes one. *)
Record ReasoningEfforts : Type := { levels : list Level; default_level : Level }.

#[export] Instance ReasoningEfforts_eq_dec : EqDecision ReasoningEfforts.
Proof. solve_decision. Defined.

Module Efforts.

(** [given.contains(&v)]. *)
Definition contains (given : list string) (v : string) : bool := any (Str.eqb v) given.

Definition new (given : list string) (default : string) : option ReasoningEfforts :=
  if negb (all (fun v => any (fun known => Str.eqb (value known) v) LEVELS) given) then None
  else
    let levels := keep (fun known => contains given (value known)) LEVELS in
    match find (fun l => Str.eqb (value l) default) levels with
    | Some default => Some {| levels := levels; default_level := default |}
    | None => None
    end.

Definition values (e : ReasoningEfforts) : list string := map value (levels e).

(** ** The override table *)

(** One entry as the committed file writes it, read by serde. *)
Record Stated : Type := {
  efforts : list string;
  default : option string;
  source : string
}.

(** [Overrides::parse] past the JSON: the entries in the order the map that
    serde built is walked. *)
Definition check_entry (id : string) (entry : Stated) : result (option ReasoningEfforts) Error :=
  if Str.is_empty (Str.trim (source entry)) then
    Err (Config ("the reasoning-effort override for " +:+ id +:+ " names no source"))
  else
    match efforts entry, default entry with
    | [], None => Ok None
    | (_ :: _) as given, Some default =>
        match new given default with
        | Some e => Ok (Some e)
        | None => Err (Config ("the reasoning-effort override for " +:+ id +:+
            " names a level outside " +:+ Str.join ", " (map value LEVELS) +:+
            ", or a default it does not list"))
        end
    | _, _ => Err (Config ("the reasoning-effort override for " +:+ id +:+
        " names levels and a default among them, or neither"))
    end.

Fixpoint parse_entries (stated : list (string * Stated))
    (table : gmap string (option ReasoningEfforts))
    : result (gmap string (option ReasoningEfforts)) Error :=
  match stated with
  | [] => Ok table
  | (id, entry) :: stated =>
      let? efforts := check_entry id entry in
      parse_entries stated (<[id := efforts]> table)
  end.

(** ** Names at the vendor *)

Definition VENDORS : list (string * string) := [
  ("x-ai", "xai"); ("z-ai", "zai"); ("zhipu", "zai"); ("moonshotai", "moonshot");
  ("kimi", "moonshot"); ("gemini", "google"); ("mistralai", "mistral"); ("meta-llama", "meta")
].

Definition one_name (vendor : string) : string :=
  match find (fun sv : string * string => Str.eqb sv.1 vendor) VENDORS with
  | Some (_, one) => one
  | None => vendor
  end.

Definition canonical (name : string) : option string :=
  match Str.split_once name "/" with
  | Some (vendor, model) => Some (one_name vendor +:+ "/" +:+ model)
  | None => None
  end.

Definition vendor_name (id provider : string) : option string :=
  if any (fun p => Str.eqb (Prov.as_str p) provider) Prov.ALL then canonical id
  else match Str.split_once id "/" with
       | Some (_, rest) => canonical rest
       | None => None
       end.

(** [Snapshot::new]: of two ids spelling one model the first listed stays. *)
Definition snapshot (listed : list (string * ReasoningEfforts)) : gmap string ReasoningEfforts :=
  fold_left (fun s le =>
    match canonical le.1 with
    | Some name => match s !! name with Some _ => s | None => <[name := le.2]> s end
    | None => s
    end) listed ∅.

(** ** The plan *)

Record Tally : Type := { overridden : Z; listed : Z; unknown : Z }.

(** One row: what it stores and the tally after it. *)
Definition plan_row (overrides : gmap string (option ReasoningEfforts))
    (openrouter : gmap string ReasoningEfforts) (row : string * string) (t : Tally)
    : (string * option ReasoningEfforts) * Tally :=
  match overrides !! row.1 with
  | Some stated =>
      ((row.1, stated),
       {| overridden := overridden t + 1; listed := listed t; unknown := unknown t |})
  | None =>
      match (match vendor_name row.1 row.2 with
             | Some name => openrouter !! name | None => None end) with
      | Some e =>
          ((row.1, Some e),
           {| overridden := overridden t; listed := listed t + 1; unknown := unknown t |})
      | None =>
          ((row.1, None),
           {| overridden := overridden t; listed := listed t; unknown := unknown t + 1 |})
      end
  end.

Fixpoint plan_from (overrides : gmap string (option ReasoningEfforts))
    (openrouter : gmap string ReasoningEfforts) (rows : list (string * string)) (t : Tally)
    : list (string * option ReasoningEfforts) * Tally :=
  match rows with
  | [] => ([], t)
  | row :: rows =>
      let '(out, t) := plan_row overrides openrouter row t in
      let '(outs, t) := plan_from overrides openrouter rows t in
      (out :: outs, t)
  end.

Definition plan overrides openrouter rows :=
  plan_from overrides openrouter rows {| overridden := 0; listed := 0; unknown := 0 |}.

(** ** Lemmas *)

Lemma contains_In given v : contains given v = true ↔ In v given.
Proof.
  unfold contains. rewrite any_true. split.
  - by intros (x & Hx & <-%Str.str_eqb_eq).
  - intros H. exists v. split; [done|]. apply Str.str_eqb_refl.
Qed.

(** In the vocabulary a value names one level. *)
Lemma LEVELS_value_inj a b : In a LEVELS → In b LEVELS → value a = value b → a = b.
Proof.
  assert (Forall (fun a => Forall (fun b => value a = value b → a = b) LEVELS) LEVELS) as H.
  { repeat (apply Forall_cons; split); repeat constructor; simpl; intros ?; congruence. }
  intros Ha Hb. rewrite Forall_forall in H. specialize (H a (proj2 (list_elem_of_In _ _) Ha)).
  rewrite Forall_forall in H. by apply H, list_elem_of_In.
Qed.

Lemma new_Some given def e :
  new given def = Some e ↔
  (∀ v, In v given → In v (map value LEVELS)) ∧
  levels e = keep (fun known => contains given (value known)) LEVELS ∧
  value (default_level e) = def ∧ In (default_level e) (levels e).
Proof.
  unfold new. set (ls := keep _ _).
  assert (all (fun v => any (fun known => Str.eqb (value known) v) LEVELS) given = true
    ↔ ∀ v, In v given → In v (map value LEVELS)) as Hall.
  { rewrite all_true. apply forall_proper. intros v.
    rewrite any_true, in_map_iff.
    split; intros H Hv; destruct (H Hv) as (k & ? & ?); exists k;
      split; try done; by apply Str.str_eqb_eq. }
  destruct (all _ _); simpl.
  2: { split; [done|]. intros (H & _). by apply Hall in H. }
  destruct (find _ ls) as [d|] eqn:E.
  - apply find_Some in E as [Hd Hv%Str.str_eqb_eq]. split.
    + intros [= <-]; simpl. split_and!; try done. by apply Hall.
    + intros (_ & Hl & Hv' & Hin). rewrite Hl in Hin. f_equal.
      apply keep_In in Hd as [Hd _]. apply keep_In in Hin as [Hin _].
      rewrite (LEVELS_value_inj _ _ Hd Hin) by congruence.
      destruct e as [l0 d0]. unfold levels in Hl. by rewrite <-Hl.
  - split; [done|]. intros (_ & Hl & Hv' & Hin). rewrite find_None in E.
    rewrite Hl in Hin. specialize (E _ Hin). by apply Str.str_eqb_neq in E.
Qed.

(** What [new] accepts. *)
Lemma new_is_Some given def :
  is_Some (new given def) ↔
  (∀ v, In v given → In v (map value LEVELS)) ∧ In def given.
Proof.
  split.
  - intros [e (Hg & Hl & Hv & Hin)%new_Some]. split; [done|].
    rewrite Hl, keep_In, contains_In, Hv in Hin. naive_solver.
  - intros [Hg Hd]. pose proof (Hg def Hd) as (d & Hv & Hin)%in_map_iff.
    exists {| levels := keep (fun known => contains given (value known)) LEVELS;
              default_level := d |}.
    apply new_Some. split; [done|]. split; [done|]. split; [done|].
    apply (proj2 (keep_In _ LEVELS d)). split; [done|]. apply contains_In. by rewrite Hv.
Qed.

(** Effort levels survive the catalog row: what a row stores of a model's
    levels ([values] and the default's value), in whatever order and with
    whatever repetitions it is read back, makes the same levels again. *)
Theorem efforts_roundtrip given def e stored :
  new given def = Some e →
  (∀ v, In v stored ↔ In v (values e)) →
  new stored (value (default_level e)) = Some e.
Proof.
  intros (Hg & Hl & Hv & Hin)%new_Some Hst. apply new_Some.
  assert (∀ v, In v (values e) ↔ In v given) as Hvals.
  { intros v. unfold values. rewrite in_map_iff, Hl. setoid_rewrite keep_In.
    setoid_rewrite contains_In. split; [naive_solver|]. intros Hin'.
    destruct (proj1 (in_map_iff _ _ _) (Hg v Hin')) as (x & <- & ?). eauto. }
  split_and!; try done.
  - intros v Hs. by apply Hg, Hvals, Hst.
  - rewrite Hl. unfold keep. apply List.filter_ext. intros k. apply eq_true_iff_eq.
    rewrite !contains_In, Hst, Hvals. done.
Qed.

Lemma efforts_roundtrip_witness :
  new ["low"; "high"; "low"] "high" =
    Some {| levels := [{| value := "low"; label := "Low Effort" |};
                       {| value := "high"; label := "High Effort" |}];
            default_level := {| value := "high"; label := "High Effort" |} |} ∧
  new ["low"; "high"] "high" = new ["high"; "low"; "high"] "high".
Proof.
  split; [reflexivity|].
  refine (eq_trans _ (eq_sym (efforts_roundtrip ["low"; "high"] "high"
    {| levels := [{| value := "low"; label := "Low Effort" |};
                  {| value := "high"; label := "High Effort" |}];
       default_level := {| value := "high"; label := "High Effort" |} |}
    ["high"; "low"; "high"] _ _))); [reflexivity|reflexivity|].
  intros v. vm_compute. tauto.
Defined.

(** Renaming the vendor twice is renaming it once. *)
Lemma one_name_idem v : one_name (one_name v) = one_name v.
Proof.
  unfold one_name at 2 3. destruct (find _ VENDORS) as [[s o]|] eqn:E.
  - apply find_Some in E as [Hin _]. simpl in Hin.
    repeat (destruct Hin as [[= <- <-]|Hin]; [reflexivity|]). done.
  - unfold one_name. by rewrite E.
Qed.

Lemma one_name_no_slash v : ¬ In "/"%char (Str.bytes v) → ¬ In "/"%char (Str.bytes (one_name v)).
Proof.
  intros Hv. unfold one_name. destruct (find _ VENDORS) as [[s o]|] eqn:E; [|done].
  apply find_Some in E as [Hin _]. simpl in Hin.
  repeat (destruct Hin as [[= <- <-]|Hin]; [simpl; intuition congruence|]). done.
Qed.

Lemma canonical_idem name c : canonical name = Some c → canonical c = Some c.
Proof.
  unfold canonical. destruct (Str.split_once name "/") as [[v m]|] eqn:E; [|done].
  intros [= <-]. apply Str.split_once_Some in E as [-> Hv].
  rewrite (proj2 (Str.split_once_Some (one_name v +:+ "/" +:+ m) "/" (one_name v) m)).
  - by rewrite one_name_idem.
  - split; [done|]. by apply one_name_no_slash.
Qed.

Lemma plan_from_spec ov orr rows t :
  let '(out, t') := plan_from ov orr rows t in
  map fst out = map fst rows ∧
  overridden t' + listed t' + unknown t'
    = overridden t + listed t + unknown t + Z.of_nat (length rows) ∧
  ∀ i row, rows !! i = Some row → out !! i = Some (plan_row ov orr row t).1.
Proof.
  assert (∀ row t1 t2, (plan_row ov orr row t1).1 = (plan_row ov orr row t2).1) as Hind.
  { intros row t1 t2. unfold plan_row. by repeat case_match. }
  revert t; induction rows as [|row rows IH]; intros t; simpl; [split_and!; [done|lia|done]|].
  destruct (plan_row ov orr row t) as [o t1] eqn:E. specialize (IH t1).
  destruct (plan_from ov orr rows t1) as [os t2]. destruct IH as (H1 & H2 & H3).
  assert (o.1 = row.1 ∧ overridden t1 + listed t1 + unknown t1
    = overridden t + listed t + unknown t + 1) as [Ho Ht].
  { unfold plan_row in E. repeat case_match; simplify_eq/=; split; try done; lia. }
  split_and!; simpl; [by rewrite H1, Ho|lia|].
  intros [|i] row' Hrow; simpl in *; simplify_eq; [by rewrite E|].
  rewrite (Hind row' t t1). auto.
Qed.

(** The plan writes one line per catalog row, in order, every row counted
    once; and each row stores the override's levels when the table has an entry
    for its id -- also when the entry says the model takes none -- else
    OpenRouter's for the model it names, else none. *)
Theorem plan_accounts_every_row ov orr rows :
  let '(out, t) := plan ov orr rows in
  map fst out = map fst rows ∧
  overridden t + listed t + unknown t = Z.of_nat (length rows) ∧
  ∀ i id p, rows !! i = Some (id, p) →
    out !! i = Some (id, match ov !! id with
      | Some stated => stated
      | None => vendor_name id p ≫= (orr !!.) end).
Proof.
  unfold plan. pose proof (plan_from_spec ov orr rows
    {| overridden := 0; listed := 0; unknown := 0 |}) as H.
  destruct (plan_from _ _ _ _) as [out t]. destruct H as (H1 & H2 & H3).
  split_and!; [done|simpl in H2; lia|]. intros i id p Hi. rewrite (H3 i _ Hi).
  unfold plan_row; simpl. destruct (ov !! id); [done|].
  destruct (vendor_name id p) as [n|]; simpl; [|done]. by destruct (orr !! n).
Qed.

End Efforts.
