(* ===== verification/Catalog.v ===== *)
(** * The model catalogue

    [crates/oag-router/src/catalog.rs]: models, prices, capabilities, and the
    two maps of the catalogue.  [models] is the source's [BTreeMap] keyed by
    canonical id; [by_upstream] the index the request path probes.  A
    [HashSet] a caller passes is the list it is walked in; the theorems hold
    for every such order. *)

From Stdlib Require Import Ascii QArith.
From stdpp Require Import sorting.
From S2P Require Import Prelude Text Money Domain Efforts.
#[local] Open Scope string_scope.
#[local] Open Scope list_scope.
#[local] Open Scope oag_scope.
#[local] Open Scope Z_scope.

(** [String]'s ordering: bytewise, lexicographic. *)
Definition str_leb (a b : string) : bool := String.leb a b.

Lemma str_leb_total a b : str_leb a b = true ∨ str_leb b a = true.
Proof. apply String.leb_total. Qed.

Lemma str_leb_antisym a b : str_leb a b = true → str_leb b a = true → a = b.
Proof. apply String.leb_antisym. Qed.

Lemma ascii_compare_N a b : Ascii.compare a b = N.compare (N_of_ascii a) (N_of_ascii b).
Proof. done. Qed.

Lemma str_leb_trans a b c : str_leb a b = true → str_leb b c = true → str_leb a c = true.
Proof.
  unfold str_leb, String.leb. revert b c.
  induction a as [|x a IH]; intros [|y b] [|z c]; simpl; try done.
  rewrite !ascii_compare_N. specialize (IH b c).
  destruct (N.compare_spec (N_of_ascii x) (N_of_ascii y)) as [H1|H1|H1];
    destruct (N.compare_spec (N_of_ascii y) (N_of_ascii z)) as [H2|H2|H2];
    destruct (N.compare_spec (N_of_ascii x) (N_of_ascii z)) as [H3|H3|H3];
    try done; try lia; apply IH.
Qed.

Section catalog.
Context {D : Type} {HD : Decimal D}.

(** ** Data *)

Record Pricing : Type := {
  input_per_mtok : D;
  output_per_mtok : D;
  cache_read_per_mtok : option D;
  cache_write_per_mtok : option D
}.

Record Capabilities : Type := {
  cap_vision : bool;
  cap_tools : bool;
  cap_reasoning : bool;
  prompt_cache : bool
}.

Record ModelSpec : Type := {
  model_id : string;
  model_provider : Provider;
  upstream_name : string;
  pricing : Pricing;
  context_window : Z;
  model_max_output_tokens : Z;
  capabilities : Capabilities;
  display_label : option string;
  reasoning_efforts : option ReasoningEfforts
}.

Record Requirements : Type := {
  prompt_tokens : Z;
  max_output_tokens : Z;
  vision : bool;
  tools : bool;
  reasoning : bool
}.

Definition derive_label (vendor name : string) : string := vendor +:+ ": " +:+ name.

(** [ModelSpec::label]. *)
Definition model_label (m : ModelSpec) : string :=
  match display_label m with
  | Some l => l
  | None => derive_label (Prov.display_name (Prov.support (model_provider m))) (upstream_name m)
  end.

(** [ModelSpec::satisfies]. *)
Definition satisfies (m : ModelSpec) (need : Requirements) : bool :=
  if vision need && negb (cap_vision (capabilities m)) then false
  else if tools need && negb (cap_tools (capabilities m)) then false
  else if reasoning need && negb (cap_reasoning (capabilities m)) then false
  else sat_add U64_MAX (prompt_tokens need) (max_output_tokens need) <=? context_window m.

(** The catalogue. *)
Record Catalog : Type := {
  models : gmap string ModelSpec;
  by_upstream : gmap string (list string)
}.

Definition empty_catalog : Catalog := {| models := ∅; by_upstream := ∅ |}.

(** [Catalog::insert]: drop the old name of a re-inserted id, then list the
    id under its name. *)
Definition drop_stale (c : Catalog) (spec : ModelSpec) : gmap string (list string) :=
  match models c !! model_id spec with
  | Some previous =>
      if negb (Str.eqb (upstream_name previous) (upstream_name spec)) then
        match by_upstream c !! upstream_name previous with
        | Some ids =>
            <[upstream_name previous :=
              keep (fun id => negb (Str.eqb id (model_id spec))) ids]> (by_upstream c)
        | None => by_upstream c
        end
      else by_upstream c
  | None => by_upstream c
  end.

Definition insert_index (c : Catalog) (spec : ModelSpec) : gmap string (list string) :=
  let ids := default [] (drop_stale c spec !! upstream_name spec) in
  let ids := if any (Str.eqb (model_id spec)) ids then ids else ids ++ [model_id spec] in
  <[upstream_name spec := ids]> (drop_stale c spec).

Definition insert (c : Catalog) (spec : ModelSpec) : Catalog := {|
  models := <[model_id spec := spec]> (models c);
  by_upstream := insert_index c spec
|}.

Definition get (c : Catalog) (id : string) : option ModelSpec := models c !! id.

Definition by_id (a b : ModelSpec) : Prop := str_leb (model_id a) (model_id b) = true.

#[export] Instance by_id_dec a b : Decision (by_id a b).
Proof. unfold by_id. apply _. Defined.

(** [Catalog::iter]: the values of the [BTreeMap], in the order of their ids. *)
Definition iter (c : Catalog) : list ModelSpec :=
  merge_sort by_id (map snd (map_to_list (models c))).

(** [Catalog::from_entries]. *)
Definition from_entries (entries : list ModelSpec) : Catalog :=
  fold_left insert entries empty_catalog.

Definition specs_of (c : Catalog) (ids : list string) : list ModelSpec :=
  filter_map (fun id => models c !! id) ids.

(** [Catalog::resolve]. *)
Definition resolve (c : Catalog) (name : string) : option ModelSpec :=
  match models c !! name with
  | Some spec => Some spec
  | None =>
      match by_upstream c !! name with
      | None => None
      | Some ids =>
          match keep (fun spec => negb (Prov.is_custom (model_provider spec))) (specs_of c ids) with
          | [only] => Some only
          | _ => None
          end
      end
  end.

(** The scalar the baseline is ranked by. *)
Definition rate_sum (m : ModelSpec) : D :=
  dadd (input_per_mtok (pricing m)) (output_per_mtok (pricing m)).

Definition priced (m : ModelSpec) : bool :=
  dlt dzero (input_per_mtok (pricing m)) || dlt dzero (output_per_mtok (pricing m)).

(** The comparison of [dearest_served]: not below, ids breaking ties. *)
Definition dearer (a b : ModelSpec) : bool :=
  dlt (rate_sum b) (rate_sum a) ||
  (deq (rate_sum b) (rate_sum a) && str_leb (model_id a) (model_id b)).

(** [Catalog::dearest_served]; [served] is the [HashSet] in the order it is
    walked. *)
Definition dearest_served (c : Catalog) (served : list string) (need : Requirements)
    : option ModelSpec :=
  match served with
  | [] => None
  | _ =>
      max_by dearer
        (keep priced
          (keep (fun spec => satisfies spec need)
            (specs_of c (mjoin (filter_map (fun name => by_upstream c !! name) served)))))
  end.

(** ** Well-formedness of the index *)

Definition indexed (c : Catalog) (name : string) : list string :=
  default [] (by_upstream c !! name).

(** [models] is keyed by the spec's own id, and the index lists, without
    repetition, exactly the ids of the models that carry a name. *)
Record wf (c : Catalog) : Prop := {
  wf_key id s : models c !! id = Some s → model_id s = id;
  wf_index name id :
    In id (indexed c name) ↔ ∃ s, models c !! id = Some s ∧ upstream_name s = name;
  wf_nodup name : NoDup (indexed c name)
}.

Lemma wf_empty : wf empty_catalog.
Proof.
  split; unfold indexed; simpl.
  - intros id s. by rewrite lookup_empty.
  - intros name id. rewrite lookup_empty; simpl. split; [done|].
    intros (s & H & _). by rewrite lookup_empty in H.
  - intros name. rewrite lookup_empty. constructor.
Qed.

(** The index after the old name of a re-inserted id is dropped. *)
Lemma insert_indexed c spec name :
  wf c →
  default [] (insert_index c spec !! name) =
    if Str.eqb name (upstream_name spec) then
      if any (Str.eqb (model_id spec)) (indexed c name)
      then indexed c name else indexed c name ++ [model_id spec]
    else keep (fun id => negb (Str.eqb id (model_id spec))) (indexed c name).
Proof.
  intros Hwf. unfold insert_index.
  assert (∀ n, (∀ s, models c !! model_id spec = Some s → upstream_name s ≠ n) →
    keep (fun id => negb (Str.eqb id (model_id spec))) (indexed c n) = indexed c n) as Hid.
  { intros n Hn. apply forallb_filter_id, forallb_forall. intros id Hin.
    apply (wf_index c Hwf) in Hin as (s & Hs & <-). apply negb_true_iff, Str.str_eqb_neq.
    intros ->. by apply (Hn s). }
  assert (∀ n, n ≠ upstream_name spec → default [] (drop_stale c spec !! n) =
    keep (fun id => negb (Str.eqb id (model_id spec))) (indexed c n)) as Hother.
  { intros n Hn. unfold drop_stale. destruct (models c !! model_id spec) as [p|] eqn:E.
    2: { symmetry. by apply Hid. }
    destruct (Str.eqb (upstream_name p) (upstream_name spec)) eqn:Eu; simpl.
    { apply Str.str_eqb_eq in Eu. symmetry. apply Hid. intros s [= <-]. congruence. }
    unfold indexed. destruct (by_upstream c !! upstream_name p) as [ids|] eqn:Ei.
    - destruct (decide (n = upstream_name p)) as [->|Hne].
      + rewrite lookup_insert_eq, Ei. done.
      + rewrite lookup_insert_ne by done. symmetry. apply Hid. intros s [= <-]. done.
    - symmetry. apply Hid. intros s [= <-] Heq.
      assert (In (model_id spec) (indexed c (upstream_name p))) as Hin.
      { apply (wf_index c Hwf). eauto. }
      unfold indexed in Hin. by rewrite Ei in Hin. }
  assert (default [] (drop_stale c spec !! upstream_name spec) = indexed c (upstream_name spec)) as Hsame.
  { unfold drop_stale, indexed. destruct (models c !! model_id spec) as [p|]; [|done].
    destruct (Str.eqb (upstream_name p) (upstream_name spec)) eqn:Eu; simpl; [done|].
    apply Str.str_eqb_neq in Eu. destruct (by_upstream c !! upstream_name p); [|done].
    by rewrite lookup_insert_ne. }
  destruct (Str.eqb name (upstream_name spec)) eqn:E.
  - apply Str.str_eqb_eq in E as ->. rewrite lookup_insert_eq; simpl. by rewrite Hsame.
  - apply Str.str_eqb_neq in E. rewrite lookup_insert_ne by done. by apply Hother.
Qed.

Lemma insert_wf c spec : wf c → wf (insert c spec).
Proof.
  intros Hwf. split; simpl.
  - intros id s [[<- <-]|[_ H]]%lookup_insert_Some; [done|]. by apply (wf_key c).
  - intros name id. unfold indexed at 1; simpl. rewrite insert_indexed by done.
    destruct (Str.eqb name (upstream_name spec)) eqn:E.
    + apply Str.str_eqb_eq in E as ->.
      assert (In id (if any (Str.eqb (model_id spec)) (indexed c (upstream_name spec))
        then indexed c (upstream_name spec) else indexed c (upstream_name spec) ++ [model_id spec])
        ↔ id = model_id spec ∨ In id (indexed c (upstream_name spec))) as ->.
      { destruct (any _ _) eqn:Ea.
        - apply any_true in Ea as (x & Hx & <-%Str.str_eqb_eq). split; [auto|by intros [->|]].
        - rewrite in_app_iff; simpl. split; intros; intuition eauto. }
      rewrite (wf_index c Hwf). setoid_rewrite lookup_insert_Some. split.
      * intros [->|(s & ? & ?)]; [eauto|].
        destruct (decide (model_id spec = id)); eauto.
      * intros (s & [[<- <-]|[? ?]] & ?); eauto.
    + apply Str.str_eqb_neq in E. rewrite keep_In, negb_true_iff, Str.str_eqb_neq, (wf_index c Hwf).
      setoid_rewrite lookup_insert_Some. split.
      * intros [(s & ? & ?) ?]. exists s. auto.
      * intros (s & [[<- <-]|[? ?]] & ?); [congruence|]. split; [eauto|congruence].
  - intros name. unfold indexed; simpl. rewrite insert_indexed by done.
    pose proof (wf_nodup c Hwf name) as Hn. destruct (Str.eqb name (upstream_name spec)).
    + destruct (any _ _) eqn:Ea; [done|]. apply NoDup_app. split_and!; [done| |repeat constructor].
      * intros x Hx Hx'. apply list_elem_of_singleton in Hx' as ->.
        apply not_true_iff_false in Ea. apply Ea, any_true. exists (model_id spec).
        split; [by apply list_elem_of_In|apply Str.str_eqb_refl].
      * apply not_elem_of_nil.
    + apply NoDup_ListNoDup, List.NoDup_filter. by apply NoDup_ListNoDup.
Qed.

Lemma from_entries_wf entries : wf (from_entries entries).
Proof.
  unfold from_entries.
  assert (∀ c, wf c → wf (fold_left insert entries c)) as H.
  { induction entries as [|e es IH]; intros c Hc; simpl; [done|]. by apply IH, insert_wf. }
  apply H, wf_empty.
Qed.

(** The last entry of an id is what the catalogue holds under it. *)
Lemma from_entries_lookup entries id :
  models (from_entries entries) !! id =
    find (fun s => Str.eqb (model_id s) id) (rev entries).
Proof.
  unfold from_entries. induction entries as [|e es IH] using rev_ind; simpl.
  { apply lookup_empty. }
  rewrite fold_left_app, rev_app_distr; simpl. unfold find in *; simpl. rewrite <-IH.
  destruct (Str.eqb (model_id e) id) eqn:E.
  - apply Str.str_eqb_eq in E as <-. by rewrite lookup_insert_eq.
  - apply Str.str_eqb_neq in E. by rewrite lookup_insert_ne.
Qed.

Lemma specs_of_In c name s :
  wf c →
  In s (specs_of c (indexed c name)) ↔
  models c !! model_id s = Some s ∧ upstream_name s = name.
Proof.
  intros Hwf. unfold specs_of. rewrite filter_map_In. split.
  - intros (id & Hin & Hs). apply (wf_index c Hwf) in Hin as (s' & Hs' & Hn).
    assert (s' = s) as -> by congruence. by rewrite (wf_key c Hwf _ _ Hs).
  - intros [Hs Hn]. exists (model_id s). split; [|done]. apply (wf_index c Hwf). eauto.
Qed.

Lemma specs_of_NoDup c ids : wf c → NoDup ids → NoDup (specs_of c ids).
Proof.
  intros Hwf. unfold specs_of. induction ids as [|id ids IH]; simpl; [constructor|].
  intros [Hnin Hnd]%NoDup_cons. destruct (models c !! id) as [s|] eqn:E; [|by apply IH].
  apply NoDup_cons. split; [|by apply IH].
  rewrite list_elem_of_In, filter_map_In. intros (id' & Hin & E').
  pose proof (wf_key c Hwf _ _ E). pose proof (wf_key c Hwf _ _ E').
  apply Hnin, list_elem_of_In. by replace id with id' by congruence.
Qed.

Lemma iter_In c s : In s (iter c) ↔ ∃ id, models c !! id = Some s.
Proof.
  unfold iter. rewrite <-list_elem_of_In, merge_sort_Permutation, list_elem_of_In, in_map_iff.
  setoid_rewrite <-list_elem_of_In. split.
  - intros ([id s'] & <- & H). exists id. by apply elem_of_map_to_list.
  - intros [id H]. exists (id, s). split; [done|]. by apply elem_of_map_to_list.
Qed.

Lemma resolve_unfold c name :
  resolve c name =
    match models c !! name with
    | Some spec => Some spec
    | None =>
        match keep (fun s => negb (Prov.is_custom (model_provider s)))
                   (specs_of c (indexed c name)) with
        | [only] => Some only
        | _ => None
        end
    end.
Proof. unfold resolve, indexed. destruct (models c !! name); [done|]. by destruct (_ !! name). Qed.

(** A duplicate-free list is a singleton when it has one member. *)
Lemma singleton_spec {A} (l : list A) (x : A) :
  NoDup l → (match l with [y] => Some y | _ => None end = Some x ↔
    In x l ∧ ∀ y, In y l → y = x).
Proof.
  intros Hnd. destruct l as [|a [|b l]].
  - split; [done|]. intros [[] _].
  - split; [intros [= ->]|intros [[->|[]] _]; done]. split; [by left|].
    intros y [->|[]]. done.
  - split; [done|]. intros [_ H]. exfalso.
    assert (a = b) as -> by (transitivity x; [|symmetry]; apply H; simpl; auto).
    apply NoDup_cons in Hnd as [Hn _]. apply Hn. left.
Qed.

Lemma resolve_wf c name s : wf c → resolve c name = Some s → models c !! model_id s = Some s.
Proof.
  intros Hwf. rewrite resolve_unfold. destruct (models c !! name) as [m|] eqn:E.
  { intros [= <-]. by rewrite (wf_key c Hwf _ _ E). }
  rewrite singleton_spec.
  2: { apply NoDup_ListNoDup, List.NoDup_filter, NoDup_ListNoDup.
       by apply specs_of_NoDup, wf_nodup. }
  rewrite keep_In, specs_of_In by done. by intros [[[? _] _] _].
Qed.

(** A name a client sends resolves to the model with that id; failing
    that, to the one built-in provider's model carrying it as its upstream
    name, and to nothing when two carry it.  The row of a registered endpoint
    is never reached by its upstream name and makes no built-in's ambiguous. *)
Theorem resolve_unambiguous entries name s :
  let c := from_entries entries in
  resolve c name = Some s ↔
  models c !! name = Some s ∨
  (models c !! name = None ∧
   (models c !! model_id s = Some s ∧ upstream_name s = name ∧
    Prov.is_custom (model_provider s) = false) ∧
   ∀ id s', models c !! id = Some s' → upstream_name s' = name →
     Prov.is_custom (model_provider s') = false → s' = s).
Proof.
  intros c. pose proof (from_entries_wf entries : wf c) as Hwf. clearbody c.
  rewrite resolve_unfold. destruct (models c !! name) as [m|] eqn:E.
  { split; [by left|]. intros [?|[? _]]; done. }
  rewrite singleton_spec.
  2: { apply NoDup_ListNoDup, List.NoDup_filter, NoDup_ListNoDup.
       by apply specs_of_NoDup, wf_nodup. }
  rewrite keep_In, negb_true_iff, specs_of_In by done. split.
  - intros [[[Hs Hn] Hc] Hu]. right. split_and!; try done. intros id s' Hs' Hn' Hc'.
    apply Hu. rewrite keep_In, negb_true_iff, specs_of_In by done.
    by rewrite (wf_key c Hwf _ _ Hs').
  - intros [?|(_ & (Hs & Hn & Hc) & Hu)]; [done|]. split; [done|]. intros y.
    rewrite keep_In, negb_true_iff, specs_of_In by done. intros [[Hy Hny] Hcy]. by eapply Hu.
Qed.

(** After any sequence of inserts, reprices and renames the index lists
    under every upstream name exactly the ids whose current spec carries it,
    each once, and an id holds the last spec inserted under it. *)
Theorem catalogue_index_exact entries :
  let c := from_entries entries in
  wf c ∧ ∀ id, models c !! id = find (fun s => Str.eqb (model_id s) id) (rev entries).
Proof. split; [apply from_entries_wf|intros; apply from_entries_lookup]. Qed.

(** A model serves a request exactly when it has every capability the
    request needs and its context window holds the prompt and the answer
    together; the saturating addition never lets an overflowing sum through. *)
Theorem satisfies_exact m need :
  is_uint U64_MAX (prompt_tokens need) →
  is_uint U32_MAX (max_output_tokens need) →
  is_uint U32_MAX (context_window m) →
  satisfies m need = true ↔
  (vision need = true → cap_vision (capabilities m) = true) ∧
  (tools need = true → cap_tools (capabilities m) = true) ∧
  (reasoning need = true → cap_reasoning (capabilities m) = true) ∧
  prompt_tokens need + max_output_tokens need ≤ context_window m.
Proof.
  unfold is_uint, satisfies, sat_add, U64_MAX, U32_MAX. intros Hp Ho Hw.
  destruct (vision need), (cap_vision (capabilities m)), (tools need), (cap_tools (capabilities m)),
    (reasoning need), (cap_reasoning (capabilities m)); simpl; rewrite ?Z.leb_le;
    (split; [intros; split_and!; first [done|lia]|intros (H1 & H2 & H3 & ?)]);
    first [lia|by specialize (H1 eq_refl)|by specialize (H2 eq_refl)|by specialize (H3 eq_refl)].
Qed.

(** ** The savings baseline *)

Section dearest.
Context {HL : DecimalLaws D}.

Lemma dearer_total a b : dearer a b = false → dearer b a = true.
Proof.
  unfold dearer, dlt, deq. intros [H1 H2]%orb_false_iff. apply negb_false_iff in H1.
  destruct (dle (rate_sum b) (rate_sum a)) eqn:E; simpl in *.
  - rewrite H1 in *; simpl in *.
    destruct (str_leb_total (model_id a) (model_id b)); congruence.
  - done.
Qed.

Lemma dearer_refl a : dearer a a = true.
Proof.
  unfold dearer, deq. rewrite !dle_refl; simpl. apply orb_true_iff. right.
  by destruct (str_leb_total (model_id a) (model_id a)).
Qed.

Lemma dearer_spec a b :
  dearer a b = true ↔ dlt (rate_sum b) (rate_sum a) = true ∨
    (dle (rate_sum b) (rate_sum a) = true ∧ str_leb (model_id a) (model_id b) = true).
Proof.
  unfold dearer, deq, dlt. rewrite orb_true_iff, !andb_true_iff.
  destruct (dle (rate_sum a) (rate_sum b)) eqn:E; simpl; [naive_solver|].
  apply dle_false in E. naive_solver.
Qed.

Lemma dearer_trans a b c : dearer a b = true → dearer b c = true → dearer a c = true.
Proof.
  rewrite !dearer_spec. intros [H1|[H1 H1']] [H2|[H2 H2']].
  - left. apply dlt_le_trans with (rate_sum b); [done|by apply dlt_le].
  - left. by apply dle_lt_trans with (rate_sum b).
  - left. by apply dlt_le_trans with (rate_sum b).
  - right. split; [by apply dle_trans with (rate_sum b)|by apply str_leb_trans with (model_id b)].
Qed.

Lemma dearer_antisym a b : dearer a b = true → dearer b a = true → model_id a = model_id b.
Proof.
  rewrite !dearer_spec. unfold dlt. rewrite !negb_true_iff.
  intros [H1|[H1 H1']] [H2|[H2 H2']].
  - apply dle_false in H1. congruence.
  - congruence.
  - congruence.
  - by apply str_leb_antisym.
Qed.

(** A model the credential serves and the request fits, with a price. *)
Definition reachable_for (c : Catalog) (served : list string) (need : Requirements)
    (s : ModelSpec) : Prop :=
  models c !! model_id s = Some s ∧ In (upstream_name s) served ∧
  satisfies s need = true ∧ priced s = true.

Lemma candidates_In c served need s :
  wf c →
  In s (keep priced (keep (fun spec => satisfies spec need)
    (specs_of c (mjoin (filter_map (fun name => by_upstream c !! name) served)))))
  ↔ reachable_for c served need s.
Proof.
  intros Hwf. rewrite !keep_In. unfold specs_of, reachable_for. rewrite filter_map_In.
  setoid_rewrite <-list_elem_of_In. setoid_rewrite list_elem_of_join.
  setoid_rewrite list_elem_of_In. setoid_rewrite filter_map_In. split.
  - intros [[(id & (ids & Hin & name & Hname & Hids) & Hs) ?] ?].
    assert (In id (indexed c name)) as Hi by (unfold indexed; by rewrite Hids).
    apply (wf_index c Hwf) in Hi as (s' & Hs' & <-).
    assert (s' = s) as -> by congruence. by rewrite (wf_key c Hwf _ _ Hs).
  - intros (Hs & Hn & ? & ?). split; [|done]. split; [|done]. exists (model_id s). split; [|done].
    assert (In (model_id s) (indexed c (upstream_name s))) as Hi.
    { apply (wf_index c Hwf). eauto. }
    unfold indexed in Hi. destruct (by_upstream c !! upstream_name s) as [ids|] eqn:E; [|done].
    exists ids. split; [done|]. exists (upstream_name s). auto.
Qed.

Lemma dearest_served_unfold c served need :
  dearest_served c served need = max_by dearer (keep priced (keep (fun spec => satisfies spec need)
    (specs_of c (mjoin (filter_map (fun name => by_upstream c !! name) served))))).
Proof. by destruct served. Qed.

Lemma dearest_served_Some c served need s :
  wf c →
  dearest_served c served need = Some s ↔
  reachable_for c served need s ∧ ∀ s', reachable_for c served need s' → dearer s s' = true.
Proof.
  intros Hwf. rewrite dearest_served_unfold. split.
  - intros H%max_by_spec; [|apply dearer_total|apply dearer_trans|apply dearer_refl].
    destruct H as [Hin Hmax]. split; [by apply candidates_In|].
    intros s' Hs'. by apply Hmax, candidates_In.
  - intros [Hs Hmax]. destruct (max_by dearer _) as [r|] eqn:E.
    + apply max_by_spec in E as [Hr Hrmax];
        [|apply dearer_total|apply dearer_trans|apply dearer_refl].
      apply candidates_In in Hr; [|done]. specialize (Hmax _ Hr).
      specialize (Hrmax s (proj2 (candidates_In c served need s Hwf) Hs)).
      pose proof (dearer_antisym _ _ Hmax Hrmax). destruct Hs as [Hs _], Hr as [Hr _]. congruence.
    + apply max_by_None in E. apply candidates_In in Hs; [|done]. by rewrite E in Hs.
Qed.

Lemma dearest_served_None c served need :
  wf c → dearest_served c served need = None ↔ ∀ s, ¬ reachable_for c served need s.
Proof.
  intros Hwf. rewrite dearest_served_unfold, max_by_None. split.
  - intros H s Hs. apply candidates_In in Hs; [|done]. by rewrite H in Hs.
  - intros H. destruct (keep priced _) as [|s l] eqn:E; [done|].
    exfalso. apply (H s). apply candidates_In; [done|]. rewrite E. by left.
Qed.

(** The savings baseline is the dearest priced model that the request fits
    among those the credential serves, by input plus output rate, ties broken
    to the smallest id; there is none exactly when no such model exists.  The
    result does not depend on the order the set of served names is walked in. *)
Theorem dearest_served_optimal entries served need :
  let c := from_entries entries in
  (∀ s, dearest_served c served need = Some s ↔
    reachable_for c served need s ∧
    ∀ s', reachable_for c served need s' → dearer s s' = true) ∧
  (dearest_served c served need = None ↔ ∀ s, ¬ reachable_for c served need s) ∧
  ∀ served', (∀ n, In n served ↔ In n served') →
    dearest_served c served' need = dearest_served c served need.
Proof.
  intros c. pose proof (from_entries_wf entries : wf c) as Hwf. clearbody c.
  split_and!; [intros; by apply dearest_served_Some|by apply dearest_served_None|].
  intros served' Heq.
  assert (∀ s, reachable_for c served' need s ↔ reachable_for c served need s) as Hr.
  { intros s. unfold reachable_for. by rewrite (Heq (upstream_name s)). }
  destruct (dearest_served c served need) as [s|] eqn:E.
  - apply dearest_served_Some in E as [H1 H2]; [|done]. apply dearest_served_Some; [done|].
    split; [by apply Hr|]. intros s' ?. by apply H2, Hr.
  - apply dearest_served_None; [done|]. intros s Hs%Hr.
    rewrite dearest_served_None in E by done. by apply (E s).
Qed.
End dearest.
End catalog.

Arguments Pricing : clear implicits.
Arguments ModelSpec : clear implicits.
Arguments Catalog : clear implicits.

(** A catalogue for the witnesses: two built-ins spelling one name, and an
    operator's endpoint. *)
Definition spec_example (id : string) (p : Provider) (up : string) (i o : Z) : ModelSpec Q := {|
  model_id := id; model_provider := p; upstream_name := up;
  pricing := {| input_per_mtok := dint i; output_per_mtok := dint o;
                cache_read_per_mtok := None; cache_write_per_mtok := None |};
  context_window := 200000; model_max_output_tokens := 8192;
  capabilities := {| cap_vision := true; cap_tools := true; cap_reasoning := false;
                     prompt_cache := true |};
  display_label := None; reasoning_efforts := None
|}.

Definition need_example : Requirements := {|
  prompt_tokens := 150000; max_output_tokens := 50000;
  vision := true; tools := false; reasoning := false
|}.

Definition entries_example : list (ModelSpec Q) := [
  spec_example "anthropic/haiku" Anthropic "haiku" 1 5;
  spec_example "anthropic/opus" Anthropic "opus" 15 75;
  spec_example "bedrock/opus" Bedrock "opus" 15 75
].

Lemma satisfies_exact_witness :
  satisfies (spec_example "anthropic/opus" Anthropic "opus" 15 75) need_example = true.
Proof.
  apply (satisfies_exact (spec_example "anthropic/opus" Anthropic "opus" 15 75) need_example);
    unfold is_uint, U64_MAX, U32_MAX; simpl; first [lia|split_and!; first [done|lia]].
Defined.

Lemma dearest_served_optimal_witness :
  dearest_served (from_entries entries_example) ["opus"; "haiku"] need_example =
    Some (spec_example "anthropic/opus" Anthropic "opus" 15 75) ∧
  dearest_served (from_entries entries_example) ["haiku"; "opus"; "haiku"] need_example =
    dearest_served (from_entries entries_example) ["opus"; "haiku"] need_example.
Proof.
  split; [vm_compute; reflexivity|].
  apply (dearest_served_optimal entries_example ["opus"; "haiku"] need_example).
  intros n. simpl. tauto.
Defined.
