(* ===== verification/Cost.v ===== *)
(** * Token accounting

    [crates/oag-router/src/cost.rs]: the tokens of one request, how partial
    reports are merged, and what they cost. *)

From Stdlib Require Import Ascii QArith.
From S2P Require Import Prelude Text Money Domain Efforts Catalog.
#[local] Open Scope Z_scope.

Record Usage : Type := {
  input_tokens : Z;
  output_tokens : Z;
  cache_read_tokens : Z;
  cache_write_tokens : Z
}.

#[export] Instance Usage_eq_dec : EqDecision Usage.
Proof. solve_decision. Defined.

(** [Usage::default()]. *)
Definition no_usage : Usage := {|
  input_tokens := 0; output_tokens := 0; cache_read_tokens := 0; cache_write_tokens := 0 |}.

(** Every count is a [u64]. *)
Definition usage_ok (u : Usage) : Prop :=
  is_uint U64_MAX (input_tokens u) ∧ is_uint U64_MAX (output_tokens u) ∧
  is_uint U64_MAX (cache_read_tokens u) ∧ is_uint U64_MAX (cache_write_tokens u).

(** Field by field. *)
Definition usage_le (u v : Usage) : Prop :=
  input_tokens u ≤ input_tokens v ∧ output_tokens u ≤ output_tokens v ∧
  cache_read_tokens u ≤ cache_read_tokens v ∧ cache_write_tokens u ≤ cache_write_tokens v.

Module Usages.

Definition total (u : Usage) : Z :=
  sat_add U64_MAX
    (sat_add U64_MAX
      (sat_add U64_MAX (input_tokens u) (output_tokens u))
      (cache_read_tokens u))
    (cache_write_tokens u).

Definition merge (self patch : Usage) : Usage := {|
  input_tokens := Z.max (input_tokens self) (input_tokens patch);
  output_tokens := Z.max (output_tokens self) (output_tokens patch);
  cache_read_tokens := Z.max (cache_read_tokens self) (cache_read_tokens patch);
  cache_write_tokens := Z.max (cache_write_tokens self) (cache_write_tokens patch)
|}.

Section prices.
Context {D : Type} {HD : Decimal D}.

Definition cache_hit_rate (u : Usage) : D :=
  let prompt := sat_add U64_MAX (input_tokens u) (cache_read_tokens u) in
  if prompt =? 0 then dzero else ddiv (dint (cache_read_tokens u)) (dint prompt).

Definition TOKENS_PER_MILLION : D := dint 1000000.

(** [Pricing::cost]. *)
Definition cost (p : Pricing D) (u : Usage) : D :=
  let read_rate := default (input_per_mtok p) (cache_read_per_mtok p) in
  let write_rate := default (input_per_mtok p) (cache_write_per_mtok p) in
  let total :=
    dadd (dadd (dadd (dmul (dint (input_tokens u)) (input_per_mtok p))
                     (dmul (dint (output_tokens u)) (output_per_mtok p)))
               (dmul (dint (cache_read_tokens u)) read_rate))
         (dmul (dint (cache_write_tokens u)) write_rate) in
  ddiv total TOKENS_PER_MILLION.

Definition counterfactual (u : Usage) (alternative : ModelSpec D) : D :=
  cost (pricing alternative) u.

(** The rates [cost] applies. *)
Definition read_rate (p : Pricing D) : D := default (input_per_mtok p) (cache_read_per_mtok p).
Definition write_rate (p : Pricing D) : D := default (input_per_mtok p) (cache_write_per_mtok p).

Definition priced_ok (p : Pricing D) : Prop :=
  dle dzero (input_per_mtok p) = true ∧ dle dzero (output_per_mtok p) = true ∧
  dle dzero (read_rate p) = true ∧ dle dzero (write_rate p) = true.

(** Every rate of [p] is at most the rate of [q]. *)
Definition rates_le (p q : Pricing D) : Prop :=
  dle (input_per_mtok p) (input_per_mtok q) = true ∧
  dle (output_per_mtok p) (output_per_mtok q) = true ∧
  dle (read_rate p) (read_rate q) = true ∧ dle (write_rate p) (write_rate q) = true.
End prices.

Lemma merge_ok u v : usage_ok u → usage_ok v → usage_ok (merge u v).
Proof. unfold usage_ok, is_uint; simpl. lia. Qed.

Lemma usage_ext u v : usage_le u v → usage_le v u → u = v.
Proof. destruct u, v; unfold usage_le; simpl. intros. f_equal; lia. Qed.

Lemma usage_le_refl u : usage_le u u.
Proof. unfold usage_le; lia. Qed.

Lemma usage_le_trans u v w : usage_le u v → usage_le v w → usage_le u w.
Proof. unfold usage_le; lia. Qed.

(** The usage of a stream: reports merged in the order they arrive. *)
Definition merged (reports : list Usage) : Usage := fold_left merge reports no_usage.

Lemma merge_lub u v w : usage_le (merge u v) w ↔ usage_le u w ∧ usage_le v w.
Proof. unfold usage_le; simpl. lia. Qed.

Lemma merged_lub reports w :
  usage_le (merged reports) w ↔ usage_le no_usage w ∧ ∀ r, In r reports → usage_le r w.
Proof.
  unfold merged. generalize no_usage. induction reports as [|r rs IH]; intros u; simpl.
  { naive_solver. }
  rewrite IH, merge_lub. split.
  - intros [[? ?] Hrs]. split; [done|]. intros x [<-|Hx]; auto.
  - intros [? Hrs]. auto.
Qed.

(** Merging the partial usage reports of a stream gives their least upper
    bound: nothing a report says is lost, nothing is counted that no report
    said, and neither the order of the reports nor a report arriving twice
    changes what is billed. *)
Theorem merged_is_least_bound reports reports' :
  (∀ r, In r reports → usage_ok r) →
  (∀ r, In r reports ↔ In r reports') →
  usage_ok (merged reports) ∧
  (∀ r, In r reports → usage_le r (merged reports)) ∧
  (∀ w, usage_ok w → (∀ r, In r reports → usage_le r w) → usage_le (merged reports) w) ∧
  merged reports' = merged reports.
Proof.
  intros Hok Heq.
  assert (∀ r, In r reports' → usage_ok r) as Hok' by (intros r Hr; by apply Hok, Heq).
  assert (usage_le no_usage (merged reports) ∧
    ∀ r, In r reports → usage_le r (merged reports)) as [H0 Hub].
  { apply merged_lub. apply usage_le_refl. }
  assert (usage_le no_usage (merged reports') ∧
    ∀ r, In r reports' → usage_le r (merged reports')) as [H0' Hub'].
  { apply merged_lub. apply usage_le_refl. }
  split_and!.
  - unfold merged. assert (usage_ok no_usage) as Hn.
    { unfold usage_ok, is_uint, U64_MAX; simpl. lia. }
    clear -Hok Hn. revert Hn. generalize no_usage.
    induction reports as [|r rs IH]; intros u Hu; simpl; [done|].
    apply IH; [intros; apply Hok; by right|]. apply merge_ok; [done|]. apply Hok. by left.
  - done.
  - intros w Hw Hrs. apply merged_lub. split; [|done].
    unfold usage_ok, is_uint in Hw. unfold usage_le; simpl. lia.
  - apply usage_ext; apply merged_lub; split; try done; intros r Hr; apply Heq in Hr; auto.
Qed.

Lemma merged_is_least_bound_witness :
  merged [ {| input_tokens := 900; output_tokens := 1; cache_read_tokens := 100;
              cache_write_tokens := 0 |};
           {| input_tokens := 0; output_tokens := 250; cache_read_tokens := 0;
              cache_write_tokens := 0 |} ] =
  merged [ {| input_tokens := 0; output_tokens := 250; cache_read_tokens := 0;
              cache_write_tokens := 0 |};
           {| input_tokens := 900; output_tokens := 1; cache_read_tokens := 100;
              cache_write_tokens := 0 |} ].
Proof.
  apply (merged_is_least_bound
    [ {| input_tokens := 0; output_tokens := 250; cache_read_tokens := 0;
         cache_write_tokens := 0 |};
      {| input_tokens := 900; output_tokens := 1; cache_read_tokens := 100;
         cache_write_tokens := 0 |} ]).
  - intros r [<-|[<-|[]]]; unfold usage_ok, is_uint, U64_MAX; simpl; lia.
  - intros r; simpl; tauto.
Defined.

Section laws.
Context {D : Type} {HD : Decimal D} {HL : DecimalLaws D}.

Lemma million_pos : dlt dzero (TOKENS_PER_MILLION (D:=D)) = true.
Proof. apply dint_lt. lia. Qed.

(** A dearer model never costs less: with no negative rate, more tokens in
    every field at rates at least as high cost at least as much.  So a
    request's counterfactual on a model whose rates dominate is never below
    its cost. *)
Theorem cost_monotone (p q : Pricing D) u v :
  usage_ok u → usage_le u v → priced_ok p → rates_le p q →
  dle (cost p u) (cost q v) = true.
Proof.
  intros (Hi & Ho & Hr & Hw) (Li & Lo & Lr & Lw) (Pi & Po & Pr & Pw) (Ri & Ro & Rr & Rw).
  unfold is_uint in *. unfold cost. apply ddiv_mono; [apply million_pos|].
  assert (∀ x y (a b : D), 0 ≤ x → x ≤ y → dle dzero a = true → dle a b = true →
    dle (dmul (dint x) a) (dmul (dint y) b) = true) as Hmul.
  { intros. apply dmul_mono; try done; by apply dint_mono. }
  repeat apply dadd_mono; apply Hmul; first [lia|done].
Qed.
End laws.

Lemma cost_monotone_witness :
  dle (cost (pricing (spec_example "a" Anthropic "haiku" 1 5))
            {| input_tokens := 1000; output_tokens := 10; cache_read_tokens := 0;
               cache_write_tokens := 7 |})
      (cost (pricing (spec_example "b" Anthropic "opus" 15 75))
            {| input_tokens := 1000; output_tokens := 10; cache_read_tokens := 0;
               cache_write_tokens := 7 |}) = true.
Proof.
  apply (cost_monotone (pricing (spec_example "a" Anthropic "haiku" 1 5))
    (pricing (spec_example "b" Anthropic "opus" 15 75))); try reflexivity.
  - unfold usage_ok, is_uint, U64_MAX; simpl; lia.
  - apply usage_le_refl.
  - repeat split.
  - repeat split.
Defined.

Lemma total_range u : usage_ok u → is_uint U64_MAX (total u).
Proof. unfold usage_ok, is_uint, total, sat_add, U64_MAX. lia. Qed.

End Usages.
