(* ===== verification/Ladder.v ===== *)
(** * Tier ladders

    [crates/oag-router/src/ladder.rs]: the ordered rungs a route serves from.
    The source keeps the rungs in a private field and its constructor refuses
    an empty list, so a ladder is a first rung and the rest. *)

From Stdlib Require Import Ascii.
From S2P Require Import Prelude Text Money Domain Efforts Catalog.
#[local] Open Scope string_scope.
#[local] Open Scope list_scope.
#[local] Open Scope Z_scope.

Record Rung : Type := { rung_name : TierName; rung_models : list string }.

Record TierLadder : Type := { first_rung : Rung; other_rungs : list Rung }.

Module Ladder.

Definition rungs (l : TierLadder) : list Rung := first_rung l :: other_rungs l.

(** [TierLadder::new]. *)
Definition new (rs : list Rung) : option TierLadder :=
  match rs with
  | [] => None
  | r :: rs => Some {| first_rung := r; other_rungs := rs |}
  end.

Definition len (l : TierLadder) : nat := length (rungs l).

(** [usize::from(rank)]. *)
Definition index (t : Tier) : nat := Z.to_nat (tier_rank t).

Definition floor (l : TierLadder) : Tier :=
  {| tier_name := rung_name (first_rung l); tier_rank := 0 |}.

Definition ceiling (l : TierLadder) : Tier :=
  let rank := default U8_MAX (try_u8 (len l - 1)) in
  {| tier_name := rung_name (List.last (rungs l) (first_rung l)); tier_rank := rank |}.

Definition tier (l : TierLadder) (name : TierName) : option Tier :=
  match position (fun r => Str.eqb (rung_name r) name) (rungs l) with
  | Some i =>
      match try_u8 i with
      | Some rank => Some {| tier_name := name; tier_rank := rank |}
      | None => None
      end
  | None => None
  end.

Definition escalate (l : TierLadder) (from : Tier) : option Tier :=
  let next := S (index from) in
  match rungs l !! next with
  | Some rung =>
      match try_u8 next with
      | Some r => Some {| tier_name := rung_name rung; tier_rank := r |}
      | None => None
      end
  | None => None
  end.

Definition downgrade (l : TierLadder) (from : Tier) : option Tier :=
  match index from with
  | O => None
  | S prev =>
      match rungs l !! prev with
      | Some rung =>
          match try_u8 prev with
          | Some r => Some {| tier_name := rung_name rung; tier_rank := r |}
          | None => None
          end
      | None => None
      end
  end.

Definition clamp_to_floor (tier : Tier) (floor : option Tier) : Tier :=
  match floor with
  | Some f => if Tiers.ltb tier f then f else tier
  | None => tier
  end.

Section pick.
Context {D : Type} {HD : Decimal D}.

Definition pick_where (l : TierLadder) (t : Tier) (c : Catalog D) (need : Requirements)
    (also : ModelSpec D → bool) : option (ModelSpec D) :=
  match rungs l !! index t with
  | Some rung =>
      find (fun spec => satisfies spec need && also spec)
        (filter_map (fun id => get c id) (rung_models rung))
  | None => None
  end.

Definition pick l t c need := pick_where l t c need (fun _ => true).

Definition pick_without l t c need (avoid : Provider) :=
  pick_where l t c need (fun spec => negb (Prov.eqb (model_provider spec) avoid)).
End pick.

(** ** Rungs as tiers *)

(** The rung at an index, as the tier the code passes around. *)
Definition at_rank (l : TierLadder) (i : nat) : option Tier :=
  match rungs l !! i, try_u8 i with
  | Some rung, Some r => Some {| tier_name := rung_name rung; tier_rank := r |}
  | _, _ => None
  end.

(** A tier that is a rung of the ladder, carrying that rung's name. *)
Definition on_ladder (l : TierLadder) (t : Tier) : Prop := at_rank l (index t) = Some t.

Lemma at_rank_index l i t : at_rank l i = Some t → index t = i.
Proof.
  unfold at_rank. destruct (rungs l !! i); [|done]. destruct (try_u8 i) as [z|] eqn:E; [|done].
  intros [= <-]. apply try_u8_Some in E as [-> _]. unfold index; simpl. lia.
Qed.

Lemma at_rank_on l i t : at_rank l i = Some t → on_ladder l t.
Proof. intros H. unfold on_ladder. by rewrite (at_rank_index _ _ _ H). Qed.

Lemma at_rank_lt l i t : at_rank l i = Some t → (i < len l)%nat ∧ Z.of_nat i ≤ U8_MAX.
Proof.
  unfold at_rank, len. destruct (rungs l !! i) eqn:E; [|done].
  destruct (try_u8 i) eqn:E'; [|done]. intros _. apply lookup_lt_Some in E.
  by apply try_u8_Some in E' as [_ ?].
Qed.

Lemma at_rank_is_Some l i : (i < len l)%nat → Z.of_nat i ≤ U8_MAX → is_Some (at_rank l i).
Proof.
  unfold at_rank, len. intros Hi Hu. apply lookup_lt_is_Some in Hi as [r ->].
  rewrite (proj2 (try_u8_Some i (Z.of_nat i))) by done. eauto.
Qed.

Lemma rank_of_index l t : on_ladder l t → tier_rank t = Z.of_nat (index t).
Proof.
  unfold on_ladder, at_rank. destruct (rungs l !! index t); [|done].
  destruct (try_u8 (index t)) as [z|] eqn:E; [|done]. intros [= H].
  apply try_u8_Some in E as [Hr _]. by rewrite <-Hr, <-H.
Qed.

Lemma escalate_at_rank l t : escalate l t = at_rank l (S (index t)).
Proof. unfold escalate, at_rank. destruct (rungs l !! S (index t)); [|done]. by destruct (try_u8 _). Qed.

Lemma downgrade_at_rank l t :
  downgrade l t = match index t with O => None | S i => at_rank l i end.
Proof.
  unfold downgrade, at_rank. destruct (index t) as [|i]; [done|].
  destruct (rungs l !! i); [|done]. by destruct (try_u8 _).
Qed.

Lemma floor_at_rank l : at_rank l 0 = Some (floor l).
Proof. done. Qed.

Lemma floor_on l : on_ladder l (floor l).
Proof. done. Qed.

Lemma tier_on l name t : tier l name = Some t → on_ladder l t ∧ tier_name t = name.
Proof.
  unfold tier. destruct (position _ _) as [i|] eqn:E; [|done].
  destruct (try_u8 i) as [r|] eqn:Ei; [|done]. intros [= <-]. split; [|done].
  apply position_Some in E as (rg & Hrg & Hn%Str.str_eqb_eq & _).
  apply try_u8_Some in Ei as Hi. unfold on_ladder, at_rank, index; simpl.
  destruct Hi as [-> ?]. rewrite Nat2Z.id, Hrg, Ei, Hn. done.
Qed.

Lemma escalate_on l t u : escalate l t = Some u → on_ladder l u ∧ index u = S (index t).
Proof.
  rewrite escalate_at_rank. intros H. split; [by eapply at_rank_on|by eapply at_rank_index].
Qed.

Lemma downgrade_on l t u : downgrade l t = Some u → on_ladder l u ∧ index t = S (index u).
Proof.
  rewrite downgrade_at_rank. destruct (index t) as [|i] eqn:E; [done|]. intros H.
  split; [by eapply at_rank_on|]. by rewrite (at_rank_index _ _ _ H).
Qed.

Lemma on_ladder_lt l t : on_ladder l t → (index t < len l)%nat.
Proof. intros H. by apply at_rank_lt in H as [? _]. Qed.

Lemma clamp_on l t f :
  on_ladder l t → (∀ f', f = Some f' → on_ladder l f') → on_ladder l (clamp_to_floor t f).
Proof. intros Ht Hf. unfold clamp_to_floor. destruct f as [f|]; [|done]. case_match; auto. Qed.

Lemma clamp_ge t f : tier_rank t ≤ tier_rank (clamp_to_floor t (Some f)) ∧
  tier_rank f ≤ tier_rank (clamp_to_floor t (Some f)).
Proof. unfold clamp_to_floor, Tiers.ltb. destruct (Z.ltb_spec (tier_rank t) (tier_rank f)); lia. Qed.

(** Climbing and stepping down are inverse and move one rung at a time:
    from a rung of the ladder [escalate] gives exactly the next rung and
    [downgrade] exactly the one below, each undoes the other, and they give
    nothing exactly at the top (of the ladder, or of the 256 ranks a rung can
    have) and at the bottom. *)
Theorem escalate_downgrade l t :
  on_ladder l t →
  (∀ u, escalate l t = Some u ↔ on_ladder l u ∧ index u = S (index t)) ∧
  (∀ u, escalate l t = Some u ↔ on_ladder l u ∧ downgrade l u = Some t) ∧
  (escalate l t = None ↔ S (index t) = len l ∨ tier_rank t = U8_MAX) ∧
  (downgrade l t = None ↔ t = floor l).
Proof.
  intros Ht.
  assert (∀ u, escalate l t = Some u ↔ on_ladder l u ∧ index u = S (index t)) as He.
  { intros u. split; [apply escalate_on|]. intros [Hu Hi].
    rewrite escalate_at_rank, <-Hi. done. }
  split_and!; [done| | |].
  - intros u. rewrite He. split; intros [Hu H]; (split; [done|]).
    + rewrite downgrade_at_rank, H. done.
    + by apply downgrade_on in H as [_ ?].
  - pose proof (at_rank_lt _ _ _ Ht) as [Hlt Hmax]. pose proof (rank_of_index _ _ Ht) as Hr.
    rewrite escalate_at_rank. split.
    + intros H. destruct (decide (S (index t) < len l)%nat) as [Hl|Hl]; [|left; lia].
      destruct (decide (Z.of_nat (S (index t)) ≤ U8_MAX)) as [Hu|Hu]; [|right; lia].
      destruct (at_rank_is_Some _ _ Hl Hu) as [? E]. congruence.
    + intros H. destruct (at_rank l _) as [u|] eqn:E; [|done].
      apply at_rank_lt in E as [? ?]. lia.
  - rewrite downgrade_at_rank. destruct (index t) as [|i] eqn:E.
    + split; [|done]. intros _. unfold on_ladder in Ht. rewrite E, floor_at_rank in Ht. congruence.
    + split; [|intros ->; done]. intros H. pose proof (at_rank_lt _ _ _ Ht) as [Hlt Hmax].
      destruct (at_rank_is_Some l i) as [? E']; [lia|lia|congruence].
Qed.

Definition ladder_example : TierLadder := {|
  first_rung := {| rung_name := "cheap"; rung_models := ["anthropic/haiku"] |};
  other_rungs := [ {| rung_name := "frontier"; rung_models := ["bedrock/opus"; "anthropic/opus"] |} ]
|}.

Lemma escalate_downgrade_witness :
  escalate ladder_example (floor ladder_example) = Some {| tier_name := "frontier"; tier_rank := 1 |}.
Proof.
  apply (escalate_downgrade ladder_example (floor ladder_example)); [reflexivity|].
  split; reflexivity.
Defined.

(** A rung serves a request with the first model of its list that the
    catalogue holds, that can do what the request needs, and -- on a climb
    past a provider -- that another provider serves: a mixed rung is never
    given up on for its first entry. *)
Theorem pick_first_capable {D} {HD : Decimal D} (l : TierLadder) t (c : Catalog D) need avoid s :
  let able s := satisfies s need = true ∧
    ∀ p, avoid = Some p → Prov.eqb (model_provider s) p = false in
  match avoid with Some p => pick_without l t c need p | None => pick l t c need end = Some s ↔
  ∃ rung before id after, rungs l !! index t = Some rung ∧
    rung_models rung = before ++ id :: after ∧
    get c id = Some s ∧ able s ∧
    ∀ id' s', In id' before → get c id' = Some s' → ¬ able s'.
Proof.
  intros able.
  set (p := fun s : ModelSpec D => satisfies s need &&
    match avoid with Some p => negb (Prov.eqb (model_provider s) p) | None => true end).
  assert (∀ x, p x = true ↔ able x) as Hp.
  { intros x. unfold p, able. rewrite andb_true_iff. destruct avoid as [q|].
    - rewrite negb_true_iff. split; [intros [? ?]; split; [done|by intros ? [= <-]]|].
      intros [? H]. auto.
    - split; [by intros [? _]|by intros [? _]]. }
  assert (match avoid with Some p => pick_without l t c need p | None => pick l t c need end =
    match rungs l !! index t with
    | Some rung => find p (filter_map (fun id => get c id) (rung_models rung))
    | None => None end) as ->.
  { unfold pick, pick_without, pick_where, p. by destruct avoid. }
  destruct (rungs l !! index t) as [rung|].
  2: { split; [done|]. intros (? & ? & ? & ? & ? & _). done. }
  transitivity (∃ before id after, rung_models rung = before ++ id :: after ∧
    get c id = Some s ∧ able s ∧ ∀ id' s', In id' before → get c id' = Some s' → ¬ able s').
  2: { split; [intros (b & i & a & ?); by exists rung, b, i, a|].
       intros (r & b & i & a & [= <-] & ?). eauto. }
  setoid_rewrite <-Hp. clearbody p. clear. induction (rung_models rung) as [|id ids IH]; simpl.
  { split; [done|]. intros (b & ? & ? & H & _). by destruct b. }
  destruct (get c id) as [m|] eqn:E.
  - unfold find; simpl. destruct (p m) eqn:Em.
    + split.
      * intros [= <-]. exists [], id, ids. split_and!; try done.
      * intros (b & i & a & Heq & Hg & Hps & Hb). destruct b as [|x b]; simplify_eq/=; try done.
        exfalso. by apply (Hb x m (or_introl eq_refl)).
    + unfold find in IH. rewrite IH. split.
      * intros (b & i & a & -> & Hg & Hps & Hb). exists (id :: b), i, a. split_and!; try done.
        intros x s' [<-|Hx] Hs'; [|by eapply Hb]. congruence.
      * intros (b & i & a & Heq & Hg & Hps & Hb). destruct b as [|x b]; simplify_eq/=; try congruence.
        exists b, i, a. split_and!; try done. intros y s' Hy. apply Hb. by right.
  - rewrite IH. split.
    + intros (b & i & a & -> & Hg & Hps & Hb). exists (id :: b), i, a. split_and!; try done.
      intros x s' [<-|Hx] Hs'; [congruence|by eapply Hb].
    + intros (b & i & a & Heq & Hg & Hps & Hb). destruct b as [|x b]; simplify_eq/=; try congruence.
      exists b, i, a. split_and!; try done. intros y s' Hy. apply Hb. by right.
Qed.

Lemma pick_where_In {D} {HD : Decimal D} (l : TierLadder) t (c : Catalog D) need also s :
  pick_where l t c need also = Some s → satisfies s need = true ∧ also s = true.
Proof.
  unfold pick_where. destruct (rungs l !! index t); [|done].
  intros [_ H]%find_Some. by apply andb_true_iff in H.
Qed.

End Ladder.
