(* ===== verification/Classify.v ===== *)
(** * Request classification

    [crates/oag-router/src/classify.rs]: which rung a request starts on, from
    what can be seen for free. *)

From Stdlib Require Import Ascii.
From S2P Require Import Prelude Text Money Domain Efforts Catalog.
#[local] Open Scope string_scope.
#[local] Open Scope Z_scope.

Record RequestSignal : Type := {
  sig_prompt_tokens : Z;
  tool_count : Z;
  turn_count : Z;
  has_images : bool;
  thinking_requested : bool;
  has_code : bool;
  explicit_tier : option TierName
}.

Record Thresholds : Type := {
  cheap_tier : TierName;
  balanced_tier : TierName;
  frontier_tier : TierName;
  balanced_prompt_tokens : Z;
  frontier_prompt_tokens : Z;
  balanced_tool_count : Z;
  balanced_turn_count : Z
}.

Module Classify.

(** [RequestSignal::requirements]. *)
Definition requirements (s : RequestSignal) (max_output : Z) : Requirements := {|
  prompt_tokens := sig_prompt_tokens s;
  max_output_tokens := max_output;
  vision := has_images s;
  tools := 0 <? tool_count s;
  reasoning := thinking_requested s
|}.

(** [Thresholds::default]. *)
Definition default_thresholds : Thresholds := {|
  cheap_tier := "cheap"; balanced_tier := "balanced"; frontier_tier := "frontier";
  balanced_prompt_tokens := 8000; frontier_prompt_tokens := 100000;
  balanced_tool_count := 3; balanced_turn_count := 8
|}.

(** [HeuristicClassifier::classify]. *)
Definition classify (t : Thresholds) (s : RequestSignal) : TierName :=
  match explicit_tier s with
  | Some explicit => explicit
  | None =>
      if thinking_requested s then frontier_tier t
      else if frontier_prompt_tokens t <=? sig_prompt_tokens s then frontier_tier t
      else
        let agentic := (balanced_tool_count t <=? tool_count s)
          || (balanced_turn_count t <=? turn_count s) in
        let substantial := balanced_prompt_tokens t <=? sig_prompt_tokens s in
        if agentic || substantial || has_images s || has_code s then balanced_tier t
        else cheap_tier t
  end.

(** One request shows at least what another does. *)
Definition no_easier (s s' : RequestSignal) : Prop :=
  sig_prompt_tokens s ≤ sig_prompt_tokens s' ∧ tool_count s ≤ tool_count s' ∧
  turn_count s ≤ turn_count s' ∧ (has_images s = true → has_images s' = true) ∧
  (thinking_requested s = true → thinking_requested s' = true) ∧
  (has_code s = true → has_code s' = true).

(** Classification is monotone in difficulty: of two requests that name no
    tier, the one that shows at least as much of everything never starts on a
    lower rung, whatever the thresholds, when the tiers are ranked cheap,
    balanced, frontier. *)
Theorem classify_monotone (rank : TierName → Z) t s s' :
  rank (cheap_tier t) ≤ rank (balanced_tier t) →
  rank (balanced_tier t) ≤ rank (frontier_tier t) →
  explicit_tier s = None → explicit_tier s' = None →
  no_easier s s' →
  rank (classify t s) ≤ rank (classify t s').
Proof.
  intros H1 H2 E E' (Hp & Htc & Htn & Him & Hth & Hco). unfold classify. rewrite E, E'.
  destruct (thinking_requested s); [by rewrite Hth by done|].
  destruct (thinking_requested s'); [repeat case_match; lia|].
  destruct (Z.leb_spec (frontier_prompt_tokens t) (sig_prompt_tokens s));
    destruct (Z.leb_spec (frontier_prompt_tokens t) (sig_prompt_tokens s')); try lia.
  { repeat case_match; lia. }
  destruct (Z.leb_spec (balanced_tool_count t) (tool_count s));
    destruct (Z.leb_spec (balanced_tool_count t) (tool_count s')); try lia; simpl;
  destruct (Z.leb_spec (balanced_turn_count t) (turn_count s));
    destruct (Z.leb_spec (balanced_turn_count t) (turn_count s')); try lia; simpl;
  destruct (Z.leb_spec (balanced_prompt_tokens t) (sig_prompt_tokens s));
    destruct (Z.leb_spec (balanced_prompt_tokens t) (sig_prompt_tokens s')); try lia; simpl;
  destruct (has_images s); try rewrite Him by done; simpl; try lia;
  destruct (has_code s); try rewrite Hco by done; rewrite ?orb_true_r; try lia;
  repeat case_match; lia.
Qed.

Lemma classify_monotone_witness :
  let rank n := if Str.eqb n "cheap" then 0 else if Str.eqb n "balanced" then 1 else 2 in
  rank (classify default_thresholds
    {| sig_prompt_tokens := 120; tool_count := 0; turn_count := 1; has_images := false;
       thinking_requested := false; has_code := false; explicit_tier := None |}) ≤
  rank (classify default_thresholds
    {| sig_prompt_tokens := 120; tool_count := 5; turn_count := 1; has_images := false;
       thinking_requested := false; has_code := true; explicit_tier := None |}).
Proof.
  intros rank. apply (classify_monotone rank default_thresholds);
    try reflexivity; try (simpl; lia); try (vm_compute; discriminate).
  unfold no_easier; simpl. split_and!; first [lia|done].
Defined.

End Classify.
