(* ===== verification/Budget.v ===== *)
(** * Budgets

    The first half of [crates/oag-router/src/policy.rs]: how close a
    principal is to its caps, and which cap governs. *)

From Stdlib Require Import Ascii QArith.
From S2P Require Import Prelude Text Money Domain.
#[local] Open Scope string_scope.
#[local] Open Scope Z_scope.

Inductive BudgetPressure : Type := Normal | Constrained | Exhausted.

#[export] Instance BudgetPressure_eq_dec : EqDecision BudgetPressure.
Proof. solve_decision. Defined.

Section budget.
Context {D : Type} {HD : Decimal D}.

Record BudgetState : Type := {
  spent_usd : D;
  limit_usd : option D;
  hard_stop_multiple : D
}.

Record Budgets : Type := {
  key : BudgetState;
  route : BudgetState;
  principal : BudgetState
}.
End budget.

Arguments BudgetState : clear implicits.
Arguments Budgets : clear implicits.

Module Budget.

Definition as_str (p : BudgetPressure) : string :=
  match p with
  | Normal => "normal" | Constrained => "constrained" | Exhausted => "exhausted"
  end.

(** The derived order: the variants in the order they are written. *)
Definition ord (p : BudgetPressure) : Z :=
  match p with Normal => 0 | Constrained => 1 | Exhausted => 2 end.

(** [a.max(b)]. *)
Definition pmax (a b : BudgetPressure) : BudgetPressure := if ord a <=? ord b then b else a.

Section budget.
Context {D : Type} {HD : Decimal D}.

Definition unlimited (spent : D) : BudgetState D := {|
  spent_usd := spent; limit_usd := None; hard_stop_multiple := done_ |}.

(** [BudgetState::pressure]. *)
Definition pressure (b : BudgetState D) : BudgetPressure :=
  match limit_usd b with
  | None => Normal
  | Some limit =>
      if dle limit dzero then Exhausted
      else
        let multiple := dmax (hard_stop_multiple b) done_ in
        if dle (dmul limit multiple) (spent_usd b) then Exhausted
        else
          let warn_at := dmul limit (dnew 8 1) in
          if dle warn_at (spent_usd b) then Constrained else Normal
  end.

Definition principal_only (p : BudgetState D) : Budgets D := {|
  key := unlimited dzero; route := unlimited dzero; principal := p |}.

(** [Budgets::pressure]. *)
Definition budgets_pressure (b : Budgets D) : BudgetPressure :=
  pmax (pmax (pressure (key b)) (pressure (route b))) (pressure (principal b)).

(** [Budgets::binding]. *)
Definition binding (b : Budgets D) : BudgetScope :=
  match max_by (fun x y : BudgetScope * BudgetPressure => ord y.2 <=? ord x.2)
    [(ScopePrincipal, pressure (principal b));
     (ScopeRoute, pressure (route b));
     (ScopeApiKey, pressure (key b))]
  with
  | Some (scope, _) => scope
  | None => ScopePrincipal
  end.

(** The pressure of the cap a scope names. *)
Definition scope_pressure (b : Budgets D) (s : BudgetScope) : BudgetPressure :=
  match s with
  | ScopeApiKey => pressure (key b)
  | ScopeRoute => pressure (route b)
  | ScopePrincipal => pressure (principal b)
  end.

(** The narrower a scope, the less it shares. *)
Definition width (s : BudgetScope) : Z :=
  match s with ScopeApiKey => 0 | ScopeRoute => 1 | ScopePrincipal => 2 end.

Lemma ord_inj a b : ord a = ord b → a = b.
Proof. by destruct a, b. Qed.

(** The tightest cap governs: the pressure on a request is at least that
    of each of its three caps and is that of the cap [binding] names, and no
    narrower cap is as tight. *)
Theorem tightest_cap_governs (b : Budgets D) :
  (∀ s, ord (scope_pressure b s) ≤ ord (budgets_pressure b)) ∧
  scope_pressure b (binding b) = budgets_pressure b ∧
  ∀ s, scope_pressure b s = budgets_pressure b → width (binding b) ≤ width s.
Proof.
  unfold binding, budgets_pressure, pmax, scope_pressure; simpl.
  destruct (pressure (key b)) eqn:Ek, (pressure (route b)) eqn:Er,
    (pressure (principal b)) eqn:Ep; simpl; rewrite ?Ek, ?Er, ?Ep;
    (split_and!; [intros []; rewrite ?Ek, ?Er, ?Ep; simpl; lia|done|
      intros []; rewrite ?Ek, ?Er, ?Ep; simpl; first [done|lia]]).
Qed.

Section laws.
Context {HL : DecimalLaws D}.

Lemma eight_tenths_le_one : dle (dnew (D:=D) 8 1) done_ = true.
Proof.
  pose proof (dnew_scale (D:=D) 1 0) as Hs. pose proof (dnew_int (D:=D) 1) as Hi.
  apply dle_trans with (dnew 10 1); [apply dnew_le; lia|].
  apply dle_trans with (dnew 1 0).
  - apply deq_le in Hs; [apply Hs|lia].
  - by apply deq_le in Hi as [? _].
Qed.

Lemma eight_tenths_nonneg : dle dzero (dnew (D:=D) 8 1) = true.
Proof.
  pose proof (dnew_scale (D:=D) 0 0) as Hs. pose proof (dnew_int (D:=D) 0) as Hi.
  apply deq_le in Hs as [_ ?]; [|lia]. apply deq_le in Hi as [_ ?].
  apply dle_trans with (dnew 0 0); [done|]. apply dle_trans with (dnew 0 1); [done|].
  apply dnew_le. lia.
Qed.

Lemma limit_le_hard_stop (limit m : D) :
  dle dzero limit = true → dle limit (dmul limit (dmax m done_)) = true.
Proof.
  intros Hl. apply dle_trans with (dmul limit done_).
  - apply (deq_le _ _ (dmul_one limit)).
  - apply dmul_mono; auto with oag.
Qed.

Lemma warn_le_limit (limit : D) :
  dle dzero limit = true → dle (dmul limit (dnew 8 1)) limit = true.
Proof.
  intros Hl. apply dle_trans with (dmul limit done_).
  - apply dmul_mono; auto using eight_tenths_nonneg, eight_tenths_le_one with oag.
  - apply (deq_le _ _ (dmul_one limit)).
Qed.

(** A cap degrades before it denies.  Whatever the hard-stop multiple, a
    spend short of the limit is never refused; from four fifths of the limit up
    to it the principal is constrained; spending more never relaxes the
    pressure; and a cap of zero or less refuses at once. *)
Theorem cap_degrades_before_it_denies (b b' : BudgetState D) (limit : D) :
  limit_usd b = Some limit →
  limit_usd b' = Some limit → hard_stop_multiple b' = hard_stop_multiple b →
  (dle limit dzero = true → pressure b = Exhausted) ∧
  (dlt dzero limit = true → dlt (spent_usd b) limit = true →
    pressure b = if dle (dmul limit (dnew 8 1)) (spent_usd b) then Constrained else Normal) ∧
  (dlt dzero limit = true → dle limit (spent_usd b) = true →
    pressure b = if dle (dmul limit (dmax (hard_stop_multiple b) done_)) (spent_usd b)
                 then Exhausted else Constrained) ∧
  (dle (spent_usd b) (spent_usd b') = true → ord (pressure b) ≤ ord (pressure b')).
Proof.
  intros Hl Hl' Hm. unfold pressure. rewrite Hl, Hl', Hm. split_and!.
  - by intros ->.
  - intros Hpos Hlt. pose proof (limit_le_hard_stop limit (hard_stop_multiple b) (dlt_le _ _ Hpos)).
    unfold dlt in Hpos. apply negb_true_iff in Hpos as ->.
    assert (dlt (spent_usd b) (dmul limit (dmax (hard_stop_multiple b) done_)) = true) as Hs.
    { by apply dlt_le_trans with limit. }
    unfold dlt in Hs. by apply negb_true_iff in Hs as ->.
  - intros Hpos Hle. pose proof (warn_le_limit limit (dlt_le _ _ Hpos)) as Hw.
    unfold dlt in Hpos. apply negb_true_iff in Hpos as ->.
    rewrite (dle_trans _ _ _ Hw Hle). done.
  - intros Hle. destruct (dle limit dzero); [done|].
    destruct (dle (dmul limit (dmax _ _)) (spent_usd b)) eqn:E1.
    { by rewrite (dle_trans _ _ _ E1 Hle). }
    destruct (dle (dmul limit (dnew 8 1)) (spent_usd b)) eqn:E2.
    { rewrite (dle_trans _ _ _ E2 Hle). case_match; simpl; lia. }
    simpl. repeat case_match; simpl; lia.
Qed.
End laws.
End budget.

Lemma cap_degrades_before_it_denies_witness :
  let b := {| spent_usd := dint 90; limit_usd := Some (dint 100);
              hard_stop_multiple := dnew 5 1 |} in
  pressure b = Constrained.
Proof.
  intros b.
  destruct (cap_degrades_before_it_denies b b (dint 100)) as (_ & H & _);
    [reflexivity..|].
  rewrite H by reflexivity. reflexivity.
Defined.

End Budget.
