(* ===== verification/Policy.v ===== *)
(** * Routing policy

    The rest of [crates/oag-router/src/policy.rs]: mode, ladder, classifier,
    floor and budget make a decision, and the rules for trying again one rung
    up.  The classifier is the trait object of the source: a field of the
    policy, so every theorem holds for any of them. *)

From Stdlib Require Import Ascii QArith.
From S2P Require Import Prelude Text Money Domain Efforts Catalog Ladder Classify Budget.
#[local] Open Scope string_scope.
#[local] Open Scope oag_scope.
#[local] Open Scope list_scope.
#[local] Open Scope Z_scope.

Inductive QualityGate : Type :=
  | Refusal | Truncated | MalformedToolCall | EmptyResponse | ContextOverflow
  | GateNoCredential.

#[export] Instance QualityGate_eq_dec : EqDecision QualityGate.
Proof. solve_decision. Defined.

Inductive SelectionReason : Type :=
  | ByPassthrough
  | Classified
  | FloorPinned
  | BudgetDowngraded
  | Escalated (from : TierName) (gate : QualityGate).

#[export] Instance SelectionReason_eq_dec : EqDecision SelectionReason.
Proof. solve_decision. Defined.

Section records.
Context {D : Type} {HD : Decimal D}.

Record RoutingDecision : Type := {
  dec_model : ModelSpec D;
  dec_tier : option Tier;
  dec_reason : SelectionReason;
  capability_escalated_from : option TierName;
  ceiling_model : option (ModelSpec D)
}.

Record Entitlement : Type := {
  ent_spec : ModelSpec D;
  ent_tier : option TierName;
  honoured : bool
}.
End records.
Arguments RoutingDecision : clear implicits.
Arguments Entitlement : clear implicits.

(** [floor] is the rung the route never serves below. *)
Record RoutingPolicy : Type := {
  ladder : TierLadder;
  classifier : RequestSignal → TierName;
  pol_floor : option Tier
}.

Module Policy.
Import Ladder Classify Budget.

Definition escalation_allowed (p : BudgetPressure) (so_far max : Z) : bool :=
  bool_decide (p = Normal) && (so_far <? max).

Definition climb_allowed (r : SelectionReason) : bool :=
  match r with ByPassthrough => false | _ => true end.

Definition truncated_by_client_cap (requested_max model_max : Z) : bool :=
  requested_max <=? model_max.

(** [RoutingPolicy::new] and [with_floor]. *)
Definition new_policy (l : TierLadder) (c : RequestSignal → TierName) : RoutingPolicy := {|
  ladder := l; classifier := c; pol_floor := None |}.

Definition with_floor (p : RoutingPolicy) (f : option Tier) : RoutingPolicy := {|
  ladder := ladder p; classifier := classifier p; pol_floor := f |}.

Definition floor_rank (p : RoutingPolicy) : Z :=
  match pol_floor p with Some t => tier_rank t | None => 0 end.

Section policy.
Context {D : Type} {HD : Decimal D}.
Implicit Types (p : RoutingPolicy) (c : Catalog D).

(** [RoutingDecision::rung_name]. *)
Definition dec_rung_name (d : RoutingDecision D) : option string := tier_name <$> dec_tier d.

(** [RoutingPolicy::baseline]. *)
Definition baseline p c (served : list string) (need : Requirements) : option (ModelSpec D) :=
  let from_served := dearest_served c served need in
  let from_ladder := pick (ladder p) (ceiling (ladder p)) c need in
  match from_served, from_ladder with
  | Some served_spec, Some ladder_spec =>
      Some (if dlt (rate_sum served_spec) (rate_sum ladder_spec) then ladder_spec else served_spec)
  | Some spec, None => Some spec
  | None, ladder_spec => ladder_spec
  end.

Definition NO_VIABLE : Error := NoViableModel "no model on the ladder satisfies the request".

(** [RoutingPolicy::resolve_from]: one turn of the loop per unit of fuel, [None]
    when it runs out, which [resolve_loop_enough] shows it does not. *)
Fixpoint resolve_loop (fuel : nat) p (started_at : TierName) (current : Tier)
    (reason : SelectionReason) c need (ceil : option (ModelSpec D))
    : option (result (RoutingDecision D) Error) :=
  match fuel with
  | O => None
  | S fuel =>
      match pick (ladder p) current c need with
      | Some spec =>
          Some (Ok {|
            dec_model := spec;
            dec_tier := Some current;
            dec_reason := reason;
            capability_escalated_from :=
              if negb (Str.eqb (tier_name current) started_at) then Some started_at else None;
            ceiling_model := ceil |})
      | None =>
          match escalate (ladder p) current with
          | None => Some (Err NO_VIABLE)
          | Some next => resolve_loop fuel p started_at next reason c need ceil
          end
      end
  end.

Definition resolve_from p (tier : Tier) (reason : SelectionReason) c need ceil
    : result (RoutingDecision D) Error :=
  default (Err NO_VIABLE)
    (resolve_loop (S (len (ladder p))) p (tier_name tier) tier reason c need ceil).

(** [RoutingPolicy::tier_of]. *)
Definition tier_of p (model : string) : option Tier :=
  match position (fun r => any (Str.eqb model) (rung_models r)) (rungs (ladder p)) with
  | Some i =>
      match try_u8 i with
      | Some rank =>
          match rungs (ladder p) !! i with
          | Some rung => Some {| tier_name := rung_name rung; tier_rank := rank |}
          | None => None
          end
      | None => None
      end
  | None => None
  end.

(** [RoutingPolicy::decide], the branch a passthrough request with a model
    name takes. *)
Definition decide_passthrough p (name : string) c need ceil : result (RoutingDecision D) Error :=
  match resolve c name with
  | None => Err NO_VIABLE
  | Some spec =>
      let passthrough tier := Ok {|
        dec_model := spec; dec_tier := tier; dec_reason := ByPassthrough;
        capability_escalated_from := None; ceiling_model := ceil |} in
      match tier_of p (model_id spec) with
      | Some tier =>
          let clamped := clamp_to_floor tier (pol_floor p) in
          if Tiers.eqb clamped tier then passthrough (Some tier)
          else resolve_from p clamped FloorPinned c need ceil
      | None =>
          match pol_floor p with
          | Some f =>
              if 0 <? tier_rank f then resolve_from p f FloorPinned c need ceil
              else passthrough None
          | None => passthrough None
          end
      end
  end.

(** Where a managed request starts, and why: the classified rung, the floor,
    then budget pressure. *)
Definition managed_start p (signal : RequestSignal) (pressure : BudgetPressure)
    : Tier * SelectionReason :=
  let tier := default (floor (ladder p)) (tier (ladder p) (classifier p signal)) in
  let floored := clamp_to_floor tier (pol_floor p) in
  let reason := if Tiers.eqb floored tier then Classified else FloorPinned in
  if bool_decide (pressure = Constrained) then
    let cheapest := clamp_to_floor (floor (ladder p)) (pol_floor p) in
    if Tiers.ltb cheapest floored then (cheapest, BudgetDowngraded) else (floored, reason)
  else (floored, reason).

Definition decide p (mode : RoutingMode) (requested : option string) (signal : RequestSignal)
    (budget : Budgets D) c (max_output : Z) (served : list string)
    : result (RoutingDecision D) Error :=
  let need := requirements signal max_output in
  let ceil := baseline p c served need in
  if bool_decide (budgets_pressure budget = Exhausted) then
    Err (BudgetExhausted (binding budget))
  else
    match mode, requested with
    | Passthrough, Some name => decide_passthrough p name c need ceil
    | _, _ =>
        let '(tier, reason) := managed_start p signal (budgets_pressure budget) in
        resolve_from p tier reason c need ceil
    end.

(** [RoutingPolicy::escalate]. *)
Definition escalate_decision p (from : Tier) (gate : QualityGate) (signal : RequestSignal) c
    (max_output : Z) (served : list string) : option (RoutingDecision D) :=
  match escalate (ladder p) from with
  | None => None
  | Some next =>
      let need := requirements signal max_output in
      result_ok (resolve_from p next (Escalated (tier_name from) gate) c need
        (baseline p c served need))
  end.

(** [RoutingPolicy::escalate_past_provider]: the loop, on fuel; the outer
    [None] is fuel run out. *)
Fixpoint past_provider_loop (fuel : nat) p (origin from : Tier) (avoid : Provider)
    (signal : RequestSignal) c (max_output : Z) (served : list string)
    : option (option (RoutingDecision D)) :=
  match fuel with
  | O => None
  | S fuel =>
      match escalate_decision p from GateNoCredential signal c max_output served with
      | None => Some None
      | Some next =>
          let model :=
            if Prov.eqb (model_provider (dec_model next)) avoid then
              match dec_tier next with
              | Some tier =>
                  default (dec_model next)
                    (pick_without (ladder p) tier c (requirements signal max_output) avoid)
              | None => dec_model next
              end
            else dec_model next in
          if negb (Prov.eqb (model_provider model) avoid) then
            Some (Some {|
              dec_model := model;
              dec_tier := dec_tier next;
              dec_reason := Escalated (tier_name origin) GateNoCredential;
              capability_escalated_from := capability_escalated_from next;
              ceiling_model := ceiling_model next |})
          else
            match dec_tier next with
            | Some tier => past_provider_loop fuel p origin tier avoid signal c max_output served
            | None => Some None
            end
      end
  end.

Definition escalate_past_provider p from avoid signal c max_output served
    : option (RoutingDecision D) :=
  default None
    (past_provider_loop (S (len (ladder p))) p from from avoid signal c max_output served).

(** ** What a caller is told *)

(** [enumerate()] with [u8::try_from(i).ok()?]. *)
Definition ranked_rungs p : list (Z * Rung) :=
  filter_map (fun ir : nat * Rung => (fun r => (r, ir.2)) <$> try_u8 ir.1)
    (imap pair (rungs (ladder p))).

(** [RoutingPolicy::virtual_names]. *)
Definition virtual_names p (pressure : BudgetPressure) : list TierName :=
  if bool_decide (pressure = Exhausted) then []
  else
    let ceiling_rank :=
      if bool_decide (pressure = Constrained)
      then tier_rank (clamp_to_floor (floor (ladder p)) (pol_floor p)) else U8_MAX in
    filter_map (fun ir : Z * Rung =>
      if (floor_rank p <=? ir.1) && (ir.1 <=? ceiling_rank) then Some (rung_name ir.2) else None)
      (ranked_rungs p).

(** [RoutingPolicy::pinned_model]. *)
Definition pinned_model p (rung : option TierName) (pressure : BudgetPressure) : option string :=
  let names := match rung with Some name => [name] | None => virtual_names p pressure end in
  let models := mjoin (map rung_models
    (keep (fun r => any (Str.eqb (rung_name r)) names) (rungs (ladder p)))) in
  match models with
  | [] => None
  | first :: rest => if all (Str.eqb first) rest then Some first else None
  end.

(** The models of one rung in [entitled]'s first loop: what is pushed, and the
    ids seen after it. *)
Fixpoint entitled_rung c (providers : list Provider) (managed : bool) (name : TierName)
    (ids : list string) (seen : gset string) : list (Entitlement D) * gset string :=
  match ids with
  | [] => ([], seen)
  | id :: ids =>
      match get c id with
      | None => entitled_rung c providers managed name ids seen
      | Some spec =>
          if negb (any (Prov.eqb (model_provider spec)) providers) || bool_decide (model_id spec ∈ seen)
          then entitled_rung c providers managed name ids seen
          else
            let '(out, seen) :=
              entitled_rung c providers managed name ids ({[ model_id spec ]} ∪ seen) in
            ({| ent_spec := spec; ent_tier := Some name; honoured := negb managed |} :: out, seen)
      end
  end.

Fixpoint entitled_rungs c providers managed (floor_rank : Z) (rs : list (Z * Rung))
    (seen : gset string) : list (Entitlement D) * gset string :=
  match rs with
  | [] => ([], seen)
  | (rank, rung) :: rs =>
      if rank <? floor_rank then entitled_rungs c providers managed floor_rank rs seen
      else
        let '(out, seen) :=
          entitled_rung c providers managed (rung_name rung) (rung_models rung) seen in
        let '(outs, seen) := entitled_rungs c providers managed floor_rank rs seen in
        (out ++ outs, seen)
  end.

Definition entitled p (mode : RoutingMode) c (providers : list Provider)
    (pressure : BudgetPressure) : list (Entitlement D) :=
  if bool_decide (pressure = Exhausted) then []
  else
    let managed := bool_decide (mode = Managed) in
    let '(out, seen) :=
      entitled_rungs c providers managed (floor_rank p) (ranked_rungs p) ∅ in
    if managed then out
    else
      out ++ filter_map (fun spec =>
        if negb (any (Prov.eqb (model_provider spec)) providers) || bool_decide (model_id spec ∈ seen)
        then None
        else Some {| ent_spec := spec; ent_tier := None; honoured := floor_rank p =? 0 |}) (iter c).

(** ** The walk up the ladder *)

Lemma on_ladder_index_inj l t u : on_ladder l t → on_ladder l u → index t = index u → t = u.
Proof. unfold on_ladder. intros Ht Hu Hi. rewrite Hi in Ht. congruence. Qed.

(** [u] is the lowest rung from index [i] up that [f] can serve from, with [m]. *)
Definition lowest (l : TierLadder) (f : Tier → option (ModelSpec D)) (i : nat)
    (u : Tier) (m : ModelSpec D) : Prop :=
  on_ladder l u ∧ (i ≤ index u)%nat ∧ f u = Some m ∧
  ∀ v, on_ladder l v → (i ≤ index v < index u)%nat → f v = None.

Definition serves_nothing (l : TierLadder) (f : Tier → option (ModelSpec D)) (i : nat) : Prop :=
  ∀ v, on_ladder l v → (i ≤ index v)%nat → f v = None.

Lemma lowest_unique l f i u m u' m' :
  lowest l f i u m → lowest l f i u' m' → u = u' ∧ m = m'.
Proof.
  intros (Hu & Hi & Hm & Hlow) (Hu' & Hi' & Hm' & Hlow').
  destruct (lt_eq_lt_dec (index u) (index u')) as [[Hlt|Heq]|Hgt].
  - rewrite Hlow' in Hm by (done || lia). done.
  - assert (u = u') as -> by by apply (on_ladder_index_inj l). split; congruence.
  - rewrite Hlow in Hm' by (done || lia). done.
Qed.

Lemma lowest_not_nothing l f i u m : lowest l f i u m → ¬ serves_nothing l f i.
Proof. intros (Hu & Hi & Hm & _) Hn. rewrite Hn in Hm; done. Qed.

(** One step up, when the rung at [t] serves nothing. *)
Lemma lowest_step l f t u m :
  on_ladder l t → f t = None → lowest l f (S (index t)) u m → lowest l f (index t) u m.
Proof.
  intros Ht Hf (Hu & Hi & Hm & Hlow). split_and!; try done; [lia|].
  intros v Hv Hr. destruct (base.decide (index v = index t)) as [E|]; [|apply Hlow; [done|lia]].
  by rewrite (on_ladder_index_inj l v t).
Qed.

Lemma nothing_step l f t :
  on_ladder l t → f t = None → serves_nothing l f (S (index t)) → serves_nothing l f (index t).
Proof.
  intros Ht Hf Hn v Hv Hi. destruct (base.decide (index v = index t)) as [E|]; [|apply Hn; [done|lia]].
  by rewrite (on_ladder_index_inj l v t).
Qed.

(** At the top nothing is above. *)
Lemma nothing_above l f t : escalate l t = None → serves_nothing l f (S (index t)).
Proof.
  rewrite escalate_at_rank. intros He v Hv Hi. exfalso. pose proof (at_rank_lt _ _ _ Hv) as [Hl Hm].
  destruct (at_rank_is_Some l (S (index t))) as [? E]; [lia|lia|congruence].
Qed.

Definition resolved p (start : TierName) reason ceil (u : Tier) (m : ModelSpec D)
    : RoutingDecision D := {|
  dec_model := m; dec_tier := Some u; dec_reason := reason;
  capability_escalated_from :=
    if negb (Str.eqb (tier_name u) start) then Some start else None;
  ceiling_model := ceil |}.

(** The loop ends within the ladder's length. *)
Lemma resolve_loop_enough fuel p start t reason c need ceil :
  on_ladder (ladder p) t →
  (len (ladder p) < fuel + index t)%nat →
  (∃ u m, resolve_loop fuel p start t reason c need ceil =
      Some (Ok (resolved p start reason ceil u m)) ∧
    lowest (ladder p) (fun u => pick (ladder p) u c need) (index t) u m) ∨
  (resolve_loop fuel p start t reason c need ceil = Some (Err NO_VIABLE) ∧
    serves_nothing (ladder p) (fun u => pick (ladder p) u c need) (index t)).
Proof.
  revert t; induction fuel as [|fuel IH]; intros t Ht Hf.
  { apply on_ladder_lt in Ht. lia. }
  simpl. destruct (pick (ladder p) t c need) as [m|] eqn:Ep.
  { left. exists t, m. split; [done|]. split_and!; try done. intros; lia. }
  destruct (escalate (ladder p) t) as [next|] eqn:Ee.
  - apply escalate_on in Ee as [Hn Hi].
    destruct (IH next Hn) as [(u & m & Hr & Hlow)|[Hr Hno]]; [lia| |].
    + left. exists u, m. split; [done|]. rewrite Hi in Hlow. by apply lowest_step.
    + right. split; [done|]. rewrite Hi in Hno. by apply nothing_step.
  - right. split; [done|]. apply nothing_step; [done|done|]. by apply nothing_above.
Qed.

Lemma resolve_from_Ok p t reason c need ceil d :
  on_ladder (ladder p) t →
  resolve_from p t reason c need ceil = Ok d ↔
  ∃ u m, d = resolved p (tier_name t) reason ceil u m ∧
    lowest (ladder p) (fun u => pick (ladder p) u c need) (index t) u m.
Proof.
  intros Ht. unfold resolve_from.
  destruct (resolve_loop_enough (S (len (ladder p))) p (tier_name t) t reason c need ceil Ht)
    as [(u & m & -> & Hlow)|[-> Hno]]; [lia| |]; simpl.
  - split; [intros [= <-]; eauto|]. intros (u' & m' & -> & Hlow').
    by destruct (lowest_unique _ _ _ _ _ _ _ Hlow Hlow') as [-> ->].
  - split; [done|]. intros (u' & m' & _ & Hlow). by apply lowest_not_nothing in Hlow.
Qed.

Lemma resolve_from_Err p t reason c need ceil e :
  on_ladder (ladder p) t →
  resolve_from p t reason c need ceil = Err e ↔
  e = NO_VIABLE ∧ serves_nothing (ladder p) (fun u => pick (ladder p) u c need) (index t).
Proof.
  intros Ht. unfold resolve_from.
  destruct (resolve_loop_enough (S (len (ladder p))) p (tier_name t) t reason c need ceil Ht)
    as [(u & m & -> & Hlow)|[-> Hno]]; [lia| |]; simpl.
  - split; [done|]. intros [_ Hno]. by apply lowest_not_nothing in Hlow.
  - split; [intros [= <-]; done|]. by intros [-> _].
Qed.

(** A policy whose floor is a rung of its ladder, as [with_floor] is given. *)
Definition wf_policy p : Prop := ∀ f, pol_floor p = Some f → on_ladder (ladder p) f.

Lemma managed_start_on p signal pressure :
  wf_policy p → on_ladder (ladder p) (managed_start p signal pressure).1.
Proof.
  intros Hwf. unfold managed_start.
  assert (on_ladder (ladder p) (default (floor (ladder p)) (tier (ladder p) (classifier p signal)))).
  { destruct (tier _ _) eqn:E; simpl; [by apply tier_on in E as [? _]|apply floor_on]. }
  repeat case_match; simpl; apply clamp_on; auto using floor_on.
Qed.

Lemma managed_start_floor p signal pressure :
  wf_policy p → floor_rank p ≤ tier_rank (managed_start p signal pressure).1.
Proof.
  intros Hwf. pose proof (rank_of_index _ _ (managed_start_on p signal pressure Hwf)) as Hr.
  unfold floor_rank. destruct (pol_floor p) as [f|] eqn:E; [|lia].
  unfold managed_start. rewrite E.
  repeat case_match; simpl; apply clamp_ge.
Qed.

Lemma floor_rank_nonneg p : wf_policy p → 0 ≤ floor_rank p.
Proof.
  intros Hwf. unfold floor_rank. destruct (pol_floor p) as [f|] eqn:E; [|lia].
  pose proof (rank_of_index _ _ (Hwf f E)). lia.
Qed.

Lemma managed_start_reason p signal pressure :
  (managed_start p signal pressure).2 ≠ ByPassthrough.
Proof. unfold managed_start. by repeat case_match. Qed.

Lemma managed_start_ceiling p signal pressure :
  wf_policy p →
  tier_rank (managed_start p signal pressure).1 ≤
    if bool_decide (pressure = Constrained)
    then tier_rank (clamp_to_floor (floor (ladder p)) (pol_floor p)) else U8_MAX.
Proof.
  intros Hwf. pose proof (managed_start_on p signal pressure Hwf) as Hon.
  pose proof (rank_of_index _ _ Hon). pose proof (at_rank_lt _ _ _ Hon).
  unfold managed_start in *. destruct (bool_decide (pressure = Constrained)); [|lia].
  unfold Tiers.ltb in *. destruct (Z.ltb_spec
    (tier_rank (clamp_to_floor (floor (ladder p)) (pol_floor p)))
    (tier_rank (clamp_to_floor (default (floor (ladder p))
      (tier (ladder p) (classifier p signal))) (pol_floor p)))); simpl; lia.
Qed.

Lemma tier_of_on p m t : tier_of p m = Some t →
  on_ladder (ladder p) t ∧ ∃ rung, rungs (ladder p) !! index t = Some rung ∧ In m (rung_models rung).
Proof.
  unfold tier_of. destruct (position _ _) as [i|] eqn:E; [|done].
  destruct (try_u8 i) as [r|] eqn:Ei; [|done].
  destruct (rungs (ladder p) !! i) as [rung|] eqn:Er; [|done]. intros [= <-].
  apply position_Some in E as (rg & Hrg & Ha & _). assert (rg = rung) as -> by congruence.
  apply try_u8_Some in Ei as Hi. destruct Hi as [-> ?].
  unfold on_ladder, at_rank, index; simpl. rewrite Nat2Z.id, Er, Ei. split; [done|].
  exists rung. split; [done|]. apply any_true in Ha as (x & Hx & Hxm).
  apply Str.str_eqb_eq in Hxm. by subst.
Qed.

Lemma resolve_from_shape p t reason c need ceil :
  match resolve_from p t reason c need ceil with
  | Ok d => dec_reason d = reason ∧ ceiling_model d = ceil
  | Err e => e = NO_VIABLE
  end.
Proof.
  unfold resolve_from. generalize (S (len (ladder p))) as fuel.
  generalize (tier_name t) as start. intros start fuel.
  revert t; induction fuel as [|fuel IH]; intros t; simpl; [done|].
  destruct (pick _ _ _ _); [done|]. destruct (escalate _ _); [apply IH|done].
Qed.

(** ** Theorems *)

(** Spend past the hard stop is the one thing [decide] refuses for money: it
    answers [BudgetExhausted] exactly when the pressure is exhausted, naming the
    binding cap; every other refusal is [NoViableModel]. *)
Lemma decide_refuses p mode requested signal (budget : Budgets D) c max_output served :
  match decide p mode requested signal budget c max_output served with
  | Err e =>
      e = (if bool_decide (budgets_pressure budget = Exhausted)
           then BudgetExhausted (binding budget) else NO_VIABLE)
  | Ok _ => budgets_pressure budget ≠ Exhausted
  end.
Proof.
  unfold decide, decide_passthrough.
  destruct (bool_decide (budgets_pressure budget = Exhausted)) eqn:E; [done|].
  apply bool_decide_eq_false in E.
  assert (∀ t reason need ceil, match resolve_from p t reason c need ceil with
    | Ok _ => budgets_pressure budget ≠ Exhausted | Err e => e = NO_VIABLE end) as Hr.
  { intros. pose proof (resolve_from_shape p t reason c need ceil). by case_match. }
  assert (match (let '(tier, reason) := managed_start p signal (budgets_pressure budget) in
      resolve_from p tier reason c (requirements signal max_output)
        (baseline p c served (requirements signal max_output))) with
    | Ok _ => budgets_pressure budget ≠ Exhausted | Err e => e = NO_VIABLE end) as Hm.
  { destruct (managed_start _ _ _). apply Hr. }
  destruct mode, requested as [name|]; try exact Hm.
  destruct (resolve c name) as [spec|]; [|done].
  destruct (tier_of p (model_id spec)) as [t|].
  - destruct (Tiers.eqb _ _); [done|]. apply Hr.
  - destruct (pol_floor p) as [f|]; [|done]. destruct (0 <? tier_rank f); [|done]. apply Hr.
Qed.

(** A decision serves from the rung it names. *)
Definition sits_on p c (d : RoutingDecision D) (t : Tier) : Prop :=
  on_ladder (ladder p) t ∧ ∃ rung id, rungs (ladder p) !! index t = Some rung ∧
    In id (rung_models rung) ∧ get c id = Some (dec_model d).

Lemma pick_sits_on p c need t m :
  on_ladder (ladder p) t → pick (ladder p) t c need = Some m →
  (∃ rung id, rungs (ladder p) !! index t = Some rung ∧
    In id (rung_models rung) ∧ get c id = Some m) ∧ satisfies m need = true.
Proof.
  unfold pick, pick_where. intros Ht. destruct (rungs (ladder p) !! index t) as [rung|]; [|done].
  intros [(id & ? & ?)%filter_map_In Hs]%find_Some. rewrite andb_true_r in Hs. eauto 6.
Qed.

Lemma resolve_from_sound p t reason c need ceil d :
  on_ladder (ladder p) t → resolve_from p t reason c need ceil = Ok d →
  ∃ u, dec_tier d = Some u ∧ tier_rank t ≤ tier_rank u ∧ sits_on p c d u ∧
    satisfies (dec_model d) need = true.
Proof.
  intros Ht (u & m & -> & Hu & Hi & Hm & _)%resolve_from_Ok; [|done]. exists u.
  split; [done|]. rewrite (rank_of_index _ _ Ht), (rank_of_index _ _ Hu).
  split; [lia|]. destruct (pick_sits_on p c need u m Hu Hm) as [? ?].
  split; [by split|done].
Qed.

(** Nothing is ever served below the floor.  A decision on a rung names a
    rung of the ladder at or above the floor, and a model that rung lists; one
    off the ladder is made only when the floor is the cheapest rung; and unless
    the caller named the model, it can do all the request needs. *)
Lemma decide_sound p mode requested signal (budget : Budgets D) c max_output served d :
  wf_policy p → wf c →
  decide p mode requested signal budget c max_output served = Ok d →
  match dec_tier d with
  | Some t => floor_rank p ≤ tier_rank t ∧ sits_on p c d t
  | None => floor_rank p ≤ 0 ∧ dec_reason d = ByPassthrough
  end ∧
  (dec_reason d ≠ ByPassthrough →
    satisfies (dec_model d) (requirements signal max_output) = true).
Proof.
  intros Hwf Hc. match goal with |- _ → ?G => set (Q := G) end.
  unfold decide. destruct (bool_decide _); [done|].
  assert (∀ t reason ceil, on_ladder (ladder p) t → floor_rank p ≤ tier_rank t →
    resolve_from p t reason c (requirements signal max_output) ceil = Ok d → Q) as Hr.
  { intros t reason ceil Ht Hf (u & Hd & ? & ? & ?)%resolve_from_sound; [|done].
    unfold Q. rewrite Hd. split; [split; [lia|done]|done]. }
  set (ceil := baseline p c served (requirements signal max_output)). clearbody ceil.
  assert ((let '(tier, reason) := managed_start p signal (budgets_pressure budget) in
      resolve_from p tier reason c (requirements signal max_output) ceil) = Ok d → Q) as Hm.
  { pose proof (managed_start_on p signal (budgets_pressure budget) Hwf) as Hon.
    pose proof (managed_start_floor p signal (budgets_pressure budget) Hwf) as Hfl.
    destruct (managed_start _ _ _) as [t r]. apply Hr; [exact Hon|exact Hfl]. }
  destruct mode, requested as [name|]; try exact Hm. clear Hm. unfold decide_passthrough.
  destruct (resolve c name) as [spec|] eqn:Es; [|done].
  destruct (tier_of p (model_id spec)) as [t|] eqn:Et.
  - apply tier_of_on in Et as [Ht (rung & Hrg & Hin)].
    destruct (Tiers.eqb _ t) eqn:Eq.
    + intros [= <-]; unfold Q; simpl. split; [|done]. split.
      * unfold floor_rank. pose proof (rank_of_index _ _ Ht). destruct (pol_floor p) as [f|]; [|lia].
        unfold Tiers.eqb in Eq. apply Z.eqb_eq in Eq. rewrite <-Eq. apply clamp_ge.
      * split; [done|]. exists rung, (model_id spec). split_and!; try done. unfold get; simpl.
        apply resolve_wf in Es; [|done]. done.
    + apply Hr; [by apply clamp_on|]. unfold floor_rank.
      pose proof (rank_of_index _ _ Ht). destruct (pol_floor p) as [f|]; [apply clamp_ge|simpl; lia].
  - unfold floor_rank in *. destruct (pol_floor p) as [f|] eqn:Ef.
    + destruct (Z.ltb_spec 0 (tier_rank f)).
      * apply Hr; [by apply Hwf|lia].
      * intros [= <-]; unfold Q; simpl. split; [by split|done].
    + intros [= <-]; unfold Q; simpl. split; [by split|done].
Qed.

(** A managed request is served by the cheapest rung that can serve it, and
    is refused only when none can: the search starts at the classified rung or
    the floor, whichever is higher -- at the floor alone when the budget is
    constrained -- and the decision sits on the lowest rung from there up that
    has a capable model, with that rung's first capable model. *)
Theorem managed_serves_lowest_capable p mode requested signal (budget : Budgets D) c
    max_output served :
  wf_policy p →
  budgets_pressure budget ≠ Exhausted →
  mode = Managed ∨ requested = None →
  let need := requirements signal max_output in
  let able t := pick (ladder p) t c need in
  let merit := default (floor (ladder p)) (tier (ladder p) (classifier p signal)) in
  let start := if bool_decide (budgets_pressure budget = Constrained) then floor_rank p
               else Z.max (tier_rank merit) (floor_rank p) in
  (∀ d, decide p mode requested signal budget c max_output served = Ok d →
    ∃ t, dec_tier d = Some t ∧ lowest (ladder p) able (Z.to_nat start) t (dec_model d)) ∧
  ((∃ e, decide p mode requested signal budget c max_output served = Err e) ↔
    serves_nothing (ladder p) able (Z.to_nat start)).
Proof.
  intros Hwf Hex Hmode need able merit start.
  assert (decide p mode requested signal budget c max_output served =
    let '(tier, reason) := managed_start p signal (budgets_pressure budget) in
    resolve_from p tier reason c need (baseline p c served need)) as ->.
  { unfold decide. rewrite bool_decide_eq_false_2 by done. fold need.
    destruct Hmode, mode, requested; done. }
  pose proof (managed_start_on p signal (budgets_pressure budget) Hwf) as Hon.
  assert (tier_rank (managed_start p signal (budgets_pressure budget)).1 = start) as Hs.
  { assert (on_ladder (ladder p) merit) as Hmon.
    { unfold merit. destruct (tier _ _) eqn:E; simpl; [by apply tier_on in E as [? _]|apply floor_on]. }
    pose proof (rank_of_index _ _ Hmon). unfold start, managed_start. fold merit. unfold floor_rank.
    unfold clamp_to_floor, Tiers.ltb. destruct (pol_floor p) as [f|] eqn:Ef.
    - pose proof (rank_of_index _ _ (Hwf f Ef)).
      destruct (bool_decide _); repeat case_match; bool_to_prop; simpl in *; lia.
    - destruct (bool_decide _); repeat case_match; bool_to_prop; simpl in *; lia. }
  destruct (managed_start _ _ _) as [t reason]; simpl in *.
  assert (Z.to_nat start = index t) as -> by (unfold index; by rewrite Hs).
  split.
  - intros d (u & m & -> & Hlow)%resolve_from_Ok; [|done]. by exists u.
  - setoid_rewrite resolve_from_Err; [|done]. split; [by intros (? & _ & ?)|]. eauto.
Qed.

Lemma passthrough_decision p name signal (budget : Budgets D) c max_output served d :
  decide p Passthrough (Some name) signal budget c max_output served = Ok d ∧
    dec_reason d = ByPassthrough ↔
  budgets_pressure budget ≠ Exhausted ∧
  ∃ spec, resolve c name = Some spec ∧
    floor_rank p ≤ default 0 (tier_rank <$> tier_of p (model_id spec)) ∧
    d = {| dec_model := spec; dec_tier := tier_of p (model_id spec);
           dec_reason := ByPassthrough; capability_escalated_from := None;
           ceiling_model := baseline p c served (requirements signal max_output) |}.
Proof.
  unfold decide. destruct (bool_decide _) eqn:E.
  { apply bool_decide_eq_true in E. split; [by intros [? _]|by intros [? _]]. }
  apply bool_decide_eq_false in E.
  set (ceil := baseline p c served (requirements signal max_output)). clearbody ceil.
  assert (∀ t need, ¬ (resolve_from p t FloorPinned c need ceil = Ok d ∧
    dec_reason d = ByPassthrough)) as Hno.
  { intros t need [H1 H2]. pose proof (resolve_from_shape p t FloorPinned c need ceil) as H.
    rewrite H1, H2 in H. by destruct H. }
  unfold decide_passthrough. destruct (resolve c name) as [spec|] eqn:Es.
  2: { split; [by intros [? _]|]. by intros (_ & ? & ? & _). }
  transitivity (floor_rank p ≤ default 0 (tier_rank <$> tier_of p (model_id spec)) ∧
    d = {| dec_model := spec; dec_tier := tier_of p (model_id spec);
           dec_reason := ByPassthrough; capability_escalated_from := None;
           ceiling_model := ceil |}).
  2: { split; [intros []; split; [done|]; by exists spec|].
       intros (_ & s & [= <-] & ?). done. }
  unfold floor_rank. destruct (tier_of p (model_id spec)) as [t|] eqn:Et; simpl.
  - apply tier_of_on in Et as [Ht%rank_of_index _].
    unfold clamp_to_floor, Tiers.ltb, Tiers.eqb. destruct (pol_floor p) as [f|].
    + destruct (Z.ltb_spec (tier_rank t) (tier_rank f)).
      * destruct (Z.eqb_spec (tier_rank f) (tier_rank t)); [lia|].
        split; [by intros ?%Hno|]. intros [? _]; lia.
      * rewrite Z.eqb_refl. split; [intros [[= <-] _]; split; [lia|done]|by intros [_ ->]].
    + rewrite Z.eqb_refl. split; [|by intros [_ ->]]. intros [[= <-] _].
      split; [lia|done].
  - destruct (pol_floor p) as [f|].
    + destruct (Z.ltb_spec 0 (tier_rank f)).
      * split; [by intros ?%Hno|]. intros [? _]; lia.
      * split; [intros [[= <-] _]; split; [lia|done]|by intros [_ ->]].
    + split; [intros [[= <-] _]; split; [lia|done]|by intros [_ ->]].
Qed.

(** A caller who names a model gets that model: in passthrough mode, with
    the hard stop not reached, a name the catalogue resolves to a model at or
    above the floor -- off the ladder counts as the bottom -- is decided onto
    exactly that model, whatever its capabilities and whatever the classifier
    or a constrained budget would say; nothing else is labelled passthrough. *)
Theorem passthrough_honoured p name signal (budget : Budgets D) c max_output served d :
  decide p Passthrough (Some name) signal budget c max_output served = Ok d ∧
    dec_reason d = ByPassthrough ↔
  budgets_pressure budget ≠ Exhausted ∧
  ∃ spec, resolve c name = Some spec ∧
    floor_rank p ≤ default 0 (tier_rank <$> tier_of p (model_id spec)) ∧
    d = {| dec_model := spec; dec_tier := tier_of p (model_id spec);
           dec_reason := ByPassthrough; capability_escalated_from := None;
           ceiling_model := baseline p c served (requirements signal max_output) |}.
Proof. apply passthrough_decision. Qed.

(** ** The climb past a provider *)

Lemma pick_without_of_pick l u c need avoid m :
  pick l u c need = Some m → Prov.eqb (model_provider m) avoid = false →
  pick_without l u c need avoid = Some m.
Proof.
  unfold pick, pick_without, pick_where. destruct (rungs l !! index u) as [r|]; [|done].
  induction (filter_map _ (rung_models r)) as [|s ss IH]; simpl; [done|]. unfold find in *; simpl.
  destruct (satisfies s need); simpl; [|apply IH]. intros [= <-] ->. done.
Qed.

Lemma pick_without_None l u c need avoid :
  pick l u c need = None → pick_without l u c need avoid = None.
Proof.
  unfold pick, pick_without, pick_where. destruct (rungs l !! index u) as [r|]; [|done].
  rewrite !find_None. intros H s Hs. specialize (H s Hs). rewrite andb_true_r in H. by rewrite H.
Qed.

Lemma pick_without_avoids l u c need avoid m :
  pick_without l u c need avoid = Some m → Prov.eqb (model_provider m) avoid = false.
Proof. intros [_ H]%pick_where_In. by apply negb_true_iff in H. Qed.

Lemma escalate_decision_Some p from gate signal c max_output served d :
  escalate_decision p from gate signal c max_output served = Some d ↔
  ∃ u m, lowest (ladder p) (fun u => pick (ladder p) u c (requirements signal max_output))
      (S (index from)) u m ∧
    ∃ next, escalate (ladder p) from = Some next ∧
    d = resolved p (tier_name next) (Escalated (tier_name from) gate)
      (baseline p c served (requirements signal max_output)) u m.
Proof.
  unfold escalate_decision. destruct (escalate (ladder p) from) as [next|] eqn:E.
  2: { split; [done|]. intros (u & m & _ & ? & ? & _). done. }
  apply escalate_on in E as [Hn Hi]. destruct (resolve_from _ _ _ _ _ _) as [d'|e] eqn:Er; simpl.
  - apply resolve_from_Ok in Er as (u & m & -> & Hl); [|done]. rewrite Hi in Hl. split.
    + intros [= <-]. eauto 8.
    + intros (u' & m' & Hl' & ? & [= <-] & ->).
      by destruct (lowest_unique _ _ _ _ _ _ _ Hl Hl') as [-> ->].
  - apply resolve_from_Err in Er as [-> Hno]; [|done]. split; [done|].
    intros (u & m & Hl & _). rewrite Hi in Hno. by apply lowest_not_nothing in Hl.
Qed.

Lemma escalate_decision_None p from gate signal c max_output served :
  escalate_decision p from gate signal c max_output served = None →
  serves_nothing (ladder p) (fun u => pick (ladder p) u c (requirements signal max_output))
    (S (index from)).
Proof.
  unfold escalate_decision. destruct (escalate (ladder p) from) as [next|] eqn:E.
  2: { intros _. by apply nothing_above. }
  apply escalate_on in E as [Hn Hi]. destruct (resolve_from _ _ _ _ _ _) eqn:Er; [done|].
  intros _. apply resolve_from_Err in Er as [_ Hno]; [|done]. by rewrite Hi in Hno.
Qed.

(** Rungs that serve nothing, below a point above which the search goes on. *)
Lemma lowest_weaken l f i j u m :
  (i ≤ j)%nat → (∀ v, on_ladder l v → (i ≤ index v < j)%nat → f v = None) →
  lowest l f j u m → lowest l f i u m.
Proof.
  intros Hij Hb (Hu & Hi & Hm & Hlow). split_and!; try done; [lia|]. intros v Hv Hr.
  destruct (base.decide (index v < j)%nat); [apply Hb|apply Hlow]; try done; lia.
Qed.

Lemma nothing_weaken l f i j :
  (∀ v, on_ladder l v → (i ≤ index v < j)%nat → f v = None) →
  serves_nothing l f j → serves_nothing l f i.
Proof.
  intros Hb Hn v Hv Hi.
  destruct (base.decide (index v < j)%nat); [apply Hb|apply Hn]; try done; lia.
Qed.

Definition other_provider p c signal max_output avoid (u : Tier) : option (ModelSpec D) :=
  pick_without (ladder p) u c (requirements signal max_output) avoid.

(** What a climb past [avoid] from [origin] answers. *)
Definition past_ok p (origin : Tier) avoid signal c max_output served (i : nat)
    (r : option (RoutingDecision D)) : Prop :=
  match r with
  | Some d => ∃ u, lowest (ladder p) (other_provider p c signal max_output avoid) i u (dec_model d) ∧
      dec_tier d = Some u ∧
      dec_reason d = Escalated (tier_name origin) GateNoCredential ∧
      ceiling_model d = baseline p c served (requirements signal max_output)
  | None => serves_nothing (ladder p) (other_provider p c signal max_output avoid) i
  end.

Lemma past_ok_weaken p origin avoid signal c max_output served i j r :
  (i ≤ j)%nat →
  (∀ v, on_ladder (ladder p) v → (i ≤ index v < j)%nat →
    other_provider p c signal max_output avoid v = None) →
  past_ok p origin avoid signal c max_output served j r →
  past_ok p origin avoid signal c max_output served i r.
Proof.
  intros Hij Hb. unfold past_ok. destruct r as [d|].
  - intros (u & Hl & ?). exists u. split; [|done]. by eapply lowest_weaken.
  - by apply nothing_weaken.
Qed.

Lemma past_provider_loop_enough fuel p origin from avoid signal c max_output served :
  (len (ladder p) < fuel + index from)%nat → (index from < len (ladder p))%nat →
  ∃ r, past_provider_loop fuel p origin from avoid signal c max_output served = Some r ∧
    past_ok p origin avoid signal c max_output served (S (index from)) r.
Proof.
  revert from; induction fuel as [|fuel IH]; intros from Hf Hlt; [lia|]. simpl.
  destruct (escalate_decision _ _ _ _ _ _ _) as [d|] eqn:E.
  2: { exists None. split; [done|]. apply escalate_decision_None in E.
       intros v Hv Hi. by apply pick_without_None, E. }
  apply escalate_decision_Some in E as (u & m & (Hu & Hi & Hm & Hlow) & next & _ & ->). simpl.
  assert (∀ v, on_ladder (ladder p) v → (S (index from) ≤ index v < index u)%nat →
    other_provider p c signal max_output avoid v = None) as Hbelow.
  { intros v Hv Hr. by apply pick_without_None, Hlow. }
  destruct (Prov.eqb (model_provider m) avoid) eqn:Ea; simpl.
  - destruct (pick_without (ladder p) u c (requirements signal max_output) avoid) as [m'|] eqn:Ew;
      simpl.
    + rewrite (pick_without_avoids _ _ _ _ _ _ Ew). simpl. eexists. split; [done|].
      exists u. split; [|done]. by split_and!.
    + rewrite Ea; simpl.
      destruct (IH u) as (r & Hr & Hok); [lia|by apply on_ladder_lt|].
      exists r. split; [done|]. revert Hok. apply past_ok_weaken; [lia|].
      intros v Hv Hrange. destruct (base.decide (index v = index u)) as [Eq|];
        [|apply Hbelow; [done|lia]].
      by rewrite (on_ladder_index_inj _ _ _ Hv Hu Eq).
  - rewrite Ea; simpl. eexists. split; [done|]. exists u. split; [|done].
    split_and!; try done. by apply pick_without_of_pick.
Qed.

(** The climb past a provider finds the nearest rung above that can serve
    with another: from a rung of the ladder it ends, and answers with the first
    capable model of another provider on the lowest rung above that has one --
    skipping no mixed rung -- labelled as an escalation from the rung the
    request left, or with nothing exactly when no rung above has such a model. *)
Theorem past_provider_nearest p from avoid signal c max_output served :
  on_ladder (ladder p) from →
  let other := other_provider p c signal max_output avoid in
  (∃ r, past_provider_loop (S (len (ladder p))) p from from avoid signal c max_output served = Some r) ∧
  match escalate_past_provider p from avoid signal c max_output served with
  | Some d => ∃ u, lowest (ladder p) other (S (index from)) u (dec_model d) ∧
      dec_tier d = Some u ∧ Prov.eqb (model_provider (dec_model d)) avoid = false ∧
      dec_reason d = Escalated (tier_name from) GateNoCredential
  | None => serves_nothing (ladder p) other (S (index from))
  end.
Proof.
  intros Hon other.
  destruct (past_provider_loop_enough (S (len (ladder p))) p from from avoid signal c max_output
    served) as (r & Hr & Hok); [lia|by apply on_ladder_lt|].
  split; [eauto|]. unfold escalate_past_provider. rewrite Hr. simpl. destruct r as [d|]; [|done].
  destruct Hok as (u & Hl & ? & ? & _). exists u. split_and!; try apply Hl; try done.
  destruct Hl as (_ & _ & Hm & _). by apply pick_without_avoids in Hm.
Qed.

(** ** The savings baseline *)

(** The baseline of a request's saving is the dearer of the dearest model
    the credentials are known to serve and the model the top rung would serve:
    it is one of the two, neither costs more, and there is none exactly when
    there is neither. *)
Theorem baseline_is_dearer {HL : DecimalLaws D} p c served need :
  wf c →
  let top := pick (ladder p) (ceiling (ladder p)) c need in
  match baseline p c served need with
  | Some s =>
      (reachable_for c served need s ∨ top = Some s) ∧
      (∀ m, reachable_for c served need m → dle (rate_sum m) (rate_sum s) = true) ∧
      (∀ m, top = Some m → dle (rate_sum m) (rate_sum s) = true)
  | None => (∀ m, ¬ reachable_for c served need m) ∧ top = None
  end.
Proof.
  intros Hwf top. unfold baseline. fold top.
  assert (∀ a b, dearer a b = true → dle (rate_sum b) (rate_sum a) = true) as Hd.
  { intros a b [H|[H _]]%dearer_spec; [by apply dlt_le|done]. }
  destruct (dearest_served c served need) as [s|] eqn:E.
  - apply dearest_served_Some in E as [Hs Hmax]; [|done]. destruct top as [t|]; simpl.
    + destruct (dlt (rate_sum s) (rate_sum t)) eqn:Elt.
      * split_and!; [by right| |intros m [= <-]; apply dle_refl].
        intros m Hm. apply dle_trans with (rate_sum s); [by apply Hd, Hmax|by apply dlt_le].
      * split_and!; [by left|intros m Hm; by apply Hd, Hmax|].
        intros m [= <-]. unfold dlt in Elt. by apply negb_false_iff in Elt.
    + split_and!; [by left|intros m Hm; by apply Hd, Hmax|done].
  - rewrite dearest_served_None in E by done. destruct top as [t|]; [|done].
    split_and!; [by right|intros m Hm; by apply E in Hm|intros m [= <-]; apply dle_refl].
Qed.

(** ** Entitlement and virtual names *)

Lemma entitled_rung_spec c providers managed name ids seen :
  let '(out, seen') := entitled_rung c providers managed name ids seen in
  (∀ e, In e out → honoured e = negb managed ∧
    ∃ id, In id ids ∧ get c id = Some (ent_spec e)) ∧
  seen ⊆ seen' ∧
  ∀ id s, In id ids → get c id = Some s →
    any (Prov.eqb (model_provider s)) providers = true → model_id s ∈ seen'.
Proof.
  revert seen; induction ids as [|id ids IH]; intros seen; simpl; [done|].
  destruct (get c id) as [s|] eqn:E.
  2: { specialize (IH seen). destruct (entitled_rung _ _ _ _ _ _) as [out seen'].
       destruct IH as (H1 & H2 & H3). split_and!; [|done|].
       - intros e He. destruct (H1 e He) as (? & i & ? & ?). eauto.
       - intros i s' [<-|Hi] Hs'; [congruence|eauto]. }
  destruct (negb _ || _) eqn:Eb.
  - specialize (IH seen). destruct (entitled_rung _ _ _ _ _ _) as [out seen'].
    destruct IH as (H1 & H2 & H3). split_and!; [|done|].
    + intros e He. destruct (H1 e He) as (? & i & ? & ?). eauto.
    + intros i s' [<-|Hi] Hs' Hp; [|eauto]. assert (s' = s) as -> by congruence.
      apply orb_true_iff in Eb as [Eb|Eb]; [by rewrite Hp in Eb|].
      apply bool_decide_eq_true in Eb. set_solver.
  - specialize (IH ({[model_id s]} ∪ seen)). destruct (entitled_rung _ _ _ _ _ _) as [out seen'].
    destruct IH as (H1 & H2 & H3). split_and!; [|set_solver|].
    + intros e [<-|He]; simpl; [eauto|]. destruct (H1 e He) as (? & i & ? & ?). eauto.
    + intros i s' [<-|Hi] Hs' Hp; [|eauto]. assert (s' = s) as -> by congruence. set_solver.
Qed.

Lemma entitled_rungs_spec c providers managed fr rs seen :
  let '(out, seen') := entitled_rungs c providers managed fr rs seen in
  (∀ e, In e out → honoured e = negb managed ∧
    ∃ rank rung id, In (rank, rung) rs ∧ fr ≤ rank ∧ In id (rung_models rung) ∧
      get c id = Some (ent_spec e)) ∧
  seen ⊆ seen' ∧
  ∀ rank rung id s, In (rank, rung) rs → fr ≤ rank → In id (rung_models rung) →
    get c id = Some s → any (Prov.eqb (model_provider s)) providers = true → model_id s ∈ seen'.
Proof.
  revert seen; induction rs as [|[rank rung] rs IH]; intros seen; simpl; [done|].
  destruct (Z.ltb_spec rank fr).
  - specialize (IH seen). destruct (entitled_rungs _ _ _ _ _ _) as [out seen'].
    destruct IH as (H1 & H2 & H3). split_and!; [|done|].
    + intros e He. destruct (H1 e He) as (? & r & g & i & ?). naive_solver.
    + intros r g i s [[= <- <-]|Hin] Hr; [lia|eauto].
  - pose proof (entitled_rung_spec c providers managed (rung_name rung) (rung_models rung) seen) as Hr.
    destruct (entitled_rung _ _ _ _ _ _) as [out seen1]. destruct Hr as (R1 & R2 & R3).
    specialize (IH seen1). destruct (entitled_rungs _ _ _ _ _ _) as [outs seen'].
    destruct IH as (H1 & H2 & H3). split_and!; [|set_solver|].
    + intros e [He|He]%in_app_iff.
      * destruct (R1 e He) as (? & i & ? & ?). split; [done|].
        exists rank, rung, i. auto.
      * destruct (H1 e He) as (? & r & g & i & ? & ?). split; [done|].
        exists r, g, i. naive_solver.
    + intros r g i s [[= <- <-]|Hin] Hr Hi Hs Hp; [|eauto]. apply H2. eauto.
Qed.

Lemma ranked_rungs_In p rank rung :
  In (rank, rung) (ranked_rungs p) ↔
  ∃ i, rungs (ladder p) !! i = Some rung ∧ try_u8 i = Some rank.
Proof.
  unfold ranked_rungs. rewrite filter_map_In. split.
  - intros ([i r] & Hin & H). apply fmap_Some in H as (z & Hz & [= -> ->]).
    apply In_lookup in Hin as [k Hk]. rewrite list_lookup_imap in Hk.
    apply fmap_Some in Hk as (r' & Hr' & [= -> ->]). eauto.
  - intros (i & Hr & Hi). exists (i, rung). split; [|cbn [fst snd]; by rewrite Hi].
    apply In_lookup. exists i. rewrite list_lookup_imap, Hr. done.
Qed.

Lemma tier_of_first p id i rung r :
  rungs (ladder p) !! i = Some rung → In id (rung_models rung) → try_u8 i = Some r →
  ∃ t, tier_of p id = Some t ∧ tier_rank t ≤ r.
Proof.
  intros Hr Hin [-> Hmax]%try_u8_Some. unfold tier_of.
  assert (any (Str.eqb id) (rung_models rung) = true) as Ha.
  { apply any_true. exists id. split; [done|apply Str.str_eqb_refl]. }
  destruct (position _ _) as [j|] eqn:E.
  - apply position_Some in E as (rg & Hrg & _ & Hmin).
    assert (j ≤ i)%nat.
    { destruct (base.decide (i < j)%nat) as [Hlt|]; [|lia].
      specialize (Hmin i rung Hlt Hr). simpl in Hmin. congruence. }
    rewrite (proj2 (try_u8_Some j (Z.of_nat j))) by (split; [done|lia]). rewrite Hrg.
    eexists. split; [done|]. simpl. lia.
  - rewrite position_None in E. rewrite (E rung) in Ha; [done|]. apply In_lookup. eauto.
Qed.

Lemma entitled_In p mode c providers pressure e :
  In e (entitled p mode c providers pressure) →
  pressure ≠ Exhausted ∧
  ((honoured e = bool_decide (mode = Passthrough) ∧ ∃ i rung id r,
      rungs (ladder p) !! i = Some rung ∧ try_u8 i = Some r ∧ floor_rank p ≤ r ∧
      In id (rung_models rung) ∧ get c id = Some (ent_spec e)) ∨
   (mode = Passthrough ∧ honoured e = (floor_rank p =? 0) ∧
    (∃ id, get c id = Some (ent_spec e)) ∧
    ∀ i rung id r, rungs (ladder p) !! i = Some rung → try_u8 i = Some r → floor_rank p ≤ r →
      In id (rung_models rung) → get c id ≠ Some (ent_spec e))) .
Proof.
  unfold entitled. destruct (bool_decide (pressure = Exhausted)) eqn:Ep; [done|].
  apply bool_decide_eq_false in Ep.
  pose proof (entitled_rungs_spec c providers (bool_decide (mode = Managed)) (floor_rank p)
    (ranked_rungs p) ∅) as H.
  destruct (entitled_rungs _ _ _ _ _ _) as [out seen]. destruct H as (H1 & _ & H3).
  assert (∀ e, In e out → honoured e = bool_decide (mode = Passthrough) ∧ ∃ i rung id r,
      rungs (ladder p) !! i = Some rung ∧ try_u8 i = Some r ∧ floor_rank p ≤ r ∧
      In id (rung_models rung) ∧ get c id = Some (ent_spec e)) as Hout.
  { intros e' He'. destruct (H1 e' He') as (-> & rank & rung & id & Hin & ? & ? & ?).
    split; [by destruct mode|]. apply ranked_rungs_In in Hin as (i & ? & ?).
    exists i, rung, id, rank. done. }
  intros He. split; [done|]. destruct mode; simpl in *; [|left; by apply Hout].
  apply in_app_iff in He as [He|He]; [left; by apply Hout|].
  apply filter_map_In in He as (s & Hs & He). apply iter_In in Hs as [id Hs].
  destruct (negb _ || _) eqn:Eb; [done|]. simplify_eq. right. simpl. split_and!; try done.
  { by exists id. }
  apply orb_false_iff in Eb as [Eb Es]. apply negb_false_iff in Eb.
  intros i rung id' r Hi Hr Hf Hin Hg. apply bool_decide_eq_false in Es. apply Es.
  eapply H3; try done. apply ranked_rungs_In. eauto.
Qed.

(** The model sits on no two rungs. *)
Definition on_one_rung p id : Prop :=
  ∀ i j r r', rungs (ladder p) !! i = Some r → rungs (ladder p) !! j = Some r' →
    In id (rung_models r) → In id (rung_models r') → i = j.

(** What an entry of the listing is: the catalogue's own row for its id. *)
Lemma entitled_row p mode c providers pressure e :
  wf c → In e (entitled p mode c providers pressure) →
  get c (model_id (ent_spec e)) = Some (ent_spec e) ∧
  resolve c (model_id (ent_spec e)) = Some (ent_spec e).
Proof.
  intros Hc [_ He]%entitled_In.
  assert (∃ id, get c id = Some (ent_spec e)) as [id Hg].
  { destruct He as [(_ & i & rung & id & r & ? & ? & ? & ? & ?)|(_ & _ & ? & _)]; eauto. }
  rewrite <- (wf_key c Hc _ _ Hg) in Hg. split; [done|].
  unfold resolve. unfold get in Hg. by rewrite Hg.
Qed.

(** What [/v1/models] lists as honoured is decided onto itself when the caller
    names it, provided it sits on no two rungs or the route has no floor
    above the cheapest. *)
Lemma entitled_honoured p mode signal (budget : Budgets D) c max_output served providers e :
  wf_policy p → wf c → In e (entitled p mode c providers (budgets_pressure budget)) →
  honoured e = true → on_one_rung p (model_id (ent_spec e)) ∨ floor_rank p = 0 →
  mode = Passthrough ∧
  ∃ d, decide p mode (Some (model_id (ent_spec e))) signal budget c max_output served = Ok d ∧
    dec_reason d = ByPassthrough ∧ dec_model d = ent_spec e.
Proof.
  intros Hwf Hc Hin Hh Hside. destruct (entitled_row _ _ _ _ _ _ Hc Hin) as [Hg0 Hres].
  pose proof Hin as [Hex He]%entitled_In. pose proof (floor_rank_nonneg p Hwf) as Hf0.
  assert (mode = Passthrough → floor_rank p ≤ default 0 (tier_rank <$> tier_of p (model_id (ent_spec e))) →
    mode = Passthrough ∧
    ∃ d, decide p mode (Some (model_id (ent_spec e))) signal budget c max_output served = Ok d ∧
      dec_reason d = ByPassthrough ∧ dec_model d = ent_spec e) as Hfwd.
  { intros -> Hf. split; [done|]. edestruct (passthrough_decision p (model_id (ent_spec e)) signal
      budget c max_output served) as [_ [H1 H2]]; [by split; [|eauto]|]. by eexists. }
  destruct He as [(Hhe & i & rung & id & r & Hr & Hi & Hfl & Hid & Hg)|(Hm & Hhe & _)];
    rewrite Hh in Hhe; symmetry in Hhe.
  - apply bool_decide_eq_true in Hhe. apply Hfwd; [done|].
    rewrite <- (wf_key c Hc _ _ Hg) in Hid.
    destruct (tier_of_first p _ i rung r Hr Hid Hi) as (t & Ht & Hle). rewrite Ht. simpl.
    apply tier_of_on in Ht as [Hon (rung' & Hr' & Hin')].
    pose proof (rank_of_index _ _ Hon) as Hrk. destruct Hside as [Hdis|]; [|lia].
    rewrite (Hdis i _ _ _ Hr Hr' Hid Hin') in Hi. apply try_u8_Some in Hi as [-> _]. lia.
  - apply Z.eqb_eq in Hhe. apply Hfwd; [done|]. rewrite Hhe.
    destruct (tier_of p _) as [t|] eqn:Et; simpl; [|lia].
    apply tier_of_on in Et as [?%rank_of_index _]. lia.
Qed.

(** What it lists as not honoured is never decided onto as the caller's
    choice. *)
Lemma entitled_unhonoured p mode signal (budget : Budgets D) c max_output served providers e d :
  wf_policy p → wf c → In e (entitled p mode c providers (budgets_pressure budget)) →
  honoured e = false →
  decide p mode (Some (model_id (ent_spec e))) signal budget c max_output served = Ok d →
  dec_reason d ≠ ByPassthrough.
Proof.
  intros Hwf Hc Hin Hh Hd Hreason. destruct (entitled_row _ _ _ _ _ _ Hc Hin) as [Hg0 Hres].
  pose proof Hin as [Hex He]%entitled_In. pose proof (floor_rank_nonneg p Hwf) as Hf0.
  destruct He as [(Hhe & _)|(Hm & Hhe & _ & Hno)]; rewrite Hh in Hhe; symmetry in Hhe.
  - apply bool_decide_eq_false in Hhe. destruct mode; [done|]. revert Hd. unfold decide.
    rewrite bool_decide_eq_false_2 by done.
    pose proof (managed_start_reason p signal (budgets_pressure budget)) as Hms.
    destruct (managed_start _ _ _) as [t reason]. intros Hd.
    pose proof (resolve_from_shape p t reason c (requirements signal max_output)
      (baseline p c served (requirements signal max_output))) as Hsh.
    rewrite Hd in Hsh. simpl in Hms. destruct Hsh; congruence.
  - apply Z.eqb_neq in Hhe. rewrite Hm in Hd.
    pose proof (proj1 (passthrough_decision _ _ _ _ _ _ _ _) (conj Hd Hreason))
      as (_ & s & Hs & Hf & _). rewrite Hres in Hs. injection Hs as <-.
    destruct (tier_of p (model_id (ent_spec e))) as [t|] eqn:Et; simpl in Hf; [|lia].
    apply tier_of_on in Et as [Hon (rung & Hr & Hin')].
    pose proof (rank_of_index _ _ Hon) as Hrk. pose proof (at_rank_lt _ _ _ Hon) as [_ Hmax].
    apply (Hno (index t) rung (model_id (ent_spec e)) (tier_rank t)); try done.
    apply try_u8_Some. split; [done|lia].
Qed.

(** ** Virtual names *)

(** The ceiling under a pressure: the floor rung when constrained. *)
Definition ceiling_rank p (pressure : BudgetPressure) : Z :=
  if bool_decide (pressure = Constrained)
  then tier_rank (clamp_to_floor (floor (ladder p)) (pol_floor p)) else U8_MAX.

Lemma virtual_names_In p pressure name :
  In name (virtual_names p pressure) ↔
  pressure ≠ Exhausted ∧ ∃ t, on_ladder (ladder p) t ∧ tier_name t = name ∧
    floor_rank p ≤ tier_rank t ≤ ceiling_rank p pressure.
Proof.
  unfold virtual_names. fold (ceiling_rank p pressure).
  destruct (bool_decide (pressure = Exhausted)) eqn:Ep.
  { apply bool_decide_eq_true in Ep. split; [done|]. by intros [? _]. }
  apply bool_decide_eq_false in Ep. rewrite filter_map_In. split.
  - intros ([r rung] & (i & Hr & Hi)%ranked_rungs_In & H). simpl in H.
    destruct (_ && _) eqn:Eb; [|done]. simplify_eq. bool_to_prop. split; [done|].
    exists {| tier_name := rung_name rung; tier_rank := r |}. split_and!; try done.
    apply (at_rank_on _ i). unfold at_rank. by rewrite Hr, Hi.
  - intros (_ & t & Ht & <- & Hlo & Hhi). unfold on_ladder, at_rank in Ht.
    destruct (rungs (ladder p) !! index t) as [rung|] eqn:Er; [|done].
    destruct (try_u8 (index t)) as [r|] eqn:Ei; [|done].
    exists (r, rung). split; [apply ranked_rungs_In; eauto|]. simpl. injection Ht as Ht.
    assert (tier_rank t = r) as Hr by by rewrite <-Ht. rewrite Hr in Hlo, Hhi.
    rewrite (proj2 (Z.leb_le _ _) Hlo), (proj2 (Z.leb_le _ _) Hhi). simpl. by rewrite <-Ht.
Qed.

Lemma on_ladder_rung l t :
  on_ladder l t ↔ ∃ rung, rungs l !! index t = Some rung ∧ rung_name rung = tier_name t ∧
    try_u8 (index t) = Some (tier_rank t).
Proof.
  unfold on_ladder, at_rank. split.
  - destruct (rungs l !! index t) as [rung|]; [|done]. destruct (try_u8 (index t)) as [r|] eqn:E; [|done].
    intros [= H]. exists rung. split_and!; [done| |]; by rewrite <-H.
  - intros (rung & -> & Hn & ->). rewrite Hn. by destruct t.
Qed.

Lemma tier_of_name_unique p t :
  NoDup (map rung_name (rungs (ladder p))) → on_ladder (ladder p) t →
  tier (ladder p) (tier_name t) = Some t.
Proof.
  intros Hnd Ht. pose proof Ht as (rung & Er & Hname & Ei)%on_ladder_rung.
  destruct (tier (ladder p) (tier_name t)) as [u|] eqn:Eu.
  - apply tier_on in Eu as [Hu Hn]. f_equal. apply (on_ladder_index_inj (ladder p)); [done..|].
    pose proof Hu as (rung' & Er' & Hname' & _)%on_ladder_rung.
    apply (NoDup_lookup (map rung_name (rungs (ladder p))) _ _ (rung_name rung) Hnd).
    + rewrite list_lookup_fmap, Er'. simpl. f_equal. congruence.
    + by rewrite list_lookup_fmap, Er.
  - exfalso. unfold tier in Eu. destruct (position _ _) as [i|] eqn:Ep.
    + apply position_Some in Ep as (rg & Hrg & Hn%Str.str_eqb_eq & Hmin).
      assert (i ≤ index t)%nat.
      { destruct (base.decide (index t < i)%nat) as [Hlt|]; [|lia].
        specialize (Hmin _ _ Hlt Er). rewrite Hname in Hmin. by rewrite Str.str_eqb_refl in Hmin. }
      apply try_u8_Some in Ei as [_ ?].
      rewrite (proj2 (try_u8_Some i (Z.of_nat i))) in Eu by (split; [done|lia]). done.
    + rewrite position_None in Ep. specialize (Ep rung). rewrite Hname, Str.str_eqb_refl in Ep.
      discriminate Ep. apply In_lookup. eauto.
Qed.

(** A request pinned to an advertised rung starts on it, labelled as
    classified. *)
Lemma asked_rung_starts p signal (pressure : BudgetPressure) :
  wf_policy p → NoDup (map rung_name (rungs (ladder p))) → pressure ≠ Exhausted →
  In (classifier p signal) (virtual_names p pressure) →
  tier_name (managed_start p signal pressure).1 = classifier p signal ∧
  (managed_start p signal pressure).2 = Classified.
Proof.
  intros Hwf Hnd Hex (_ & t & Ht & Hn & Hlo & Hhi)%virtual_names_In.
  pose proof (tier_of_name_unique p t Hnd Ht) as Htier. rewrite Hn in Htier.
  unfold managed_start. rewrite Htier. simpl.
  assert (clamp_to_floor t (pol_floor p) = t) as ->.
  { unfold clamp_to_floor, Tiers.ltb, floor_rank in *. destruct (pol_floor p); [|done].
    by destruct (Z.ltb_spec (tier_rank t) (tier_rank t0)); [lia|]. }
  unfold Tiers.eqb. rewrite Z.eqb_refl. unfold ceiling_rank in Hhi.
  destruct (bool_decide (pressure = Constrained)); [|done]. unfold Tiers.ltb.
  by destruct (Z.ltb_spec (tier_rank (clamp_to_floor (floor (ladder p)) (pol_floor p)))
    (tier_rank t)); [lia|].
Qed.

(** A virtual name means what it says.  Every managed request starts on a
    rung [virtual_names] advertises for the current pressure; and when rung
    names are distinct, a request pinned to an advertised rung starts on that
    rung, labelled as classified -- no floor and no budget moves it. *)
Theorem virtual_names_honoured p signal (pressure : BudgetPressure) :
  wf_policy p → NoDup (map rung_name (rungs (ladder p))) → pressure ≠ Exhausted →
  In (tier_name (managed_start p signal pressure).1) (virtual_names p pressure) ∧
  (In (classifier p signal) (virtual_names p pressure) →
    tier_name (managed_start p signal pressure).1 = classifier p signal ∧
    (managed_start p signal pressure).2 = Classified).
Proof.
  intros Hwf Hnd Hex. split; [|by apply asked_rung_starts].
  apply virtual_names_In. split; [done|]. eexists. split_and!; [|done| |].
  - by apply managed_start_on.
  - by apply managed_start_floor.
  - by apply managed_start_ceiling.
Qed.

End policy.

(** ** A route for the witnesses: two rungs, the upper one mixed. *)

Definition frontier_tier_example : Tier := {| tier_name := "frontier"; tier_rank := 1 |}.

Definition policy_example (f : option Tier) : RoutingPolicy :=
  with_floor (new_policy ladder_example (classify default_thresholds)) f.

Definition signal_example : RequestSignal := {|
  sig_prompt_tokens := 1200; tool_count := 0; turn_count := 1; has_images := false;
  thinking_requested := false; has_code := false; explicit_tier := None |}.

Definition cap_example (spent : Z) : BudgetState Q := {|
  spent_usd := dint spent; limit_usd := Some (dint 100); hard_stop_multiple := dnew 15 1 |}.

Lemma wf_policy_example : wf_policy (policy_example (Some frontier_tier_example)).
Proof. by intros f [= <-]. Qed.

Lemma wf_policy_no_floor l cl : wf_policy (new_policy l cl).
Proof. intros f Hf. done. Qed.

Definition served_on_floor : RoutingDecision Q := {|
  dec_model := spec_example "bedrock/opus" Bedrock "opus" 15 75;
  dec_tier := Some frontier_tier_example;
  dec_reason := FloorPinned;
  capability_escalated_from := None;
  ceiling_model := Some (spec_example "bedrock/opus" Bedrock "opus" 15 75) |}.

Lemma managed_serves_lowest_capable_witness :
  ∃ d t, decide (policy_example (Some frontier_tier_example)) Managed None
    signal_example (principal_only (cap_example 90)) (from_entries entries_example) 100 [] = Ok d ∧
  dec_tier d = Some t ∧ on_ladder ladder_example t ∧ (1 ≤ index t)%nat.
Proof.
  destruct (managed_serves_lowest_capable (policy_example (Some frontier_tier_example)) Managed None
    signal_example (principal_only (cap_example 90)) (from_entries entries_example) 100 [])
    as [H _]; [apply wf_policy_example|vm_compute; discriminate|by left|].
  destruct (decide (policy_example (Some frontier_tier_example)) Managed None signal_example
    (principal_only (cap_example 90)) (from_entries entries_example) 100 []) as [d|e] eqn:E.
  - destruct (H d eq_refl) as (t & Ht & Hon & Hi & _). exists d, t. split_and!; try done.
  - vm_compute in E. discriminate E.
Defined.

Lemma past_provider_nearest_witness :
  ∃ d, escalate_past_provider (policy_example None) (floor ladder_example) Bedrock
    signal_example (from_entries entries_example) 100 [] = Some d ∧
    Prov.eqb (model_provider (dec_model d)) Bedrock = false.
Proof.
  destruct (past_provider_nearest (policy_example None) (floor ladder_example) Bedrock
    signal_example (from_entries entries_example) 100 []) as [_ H]; [reflexivity|].
  revert H. destruct (escalate_past_provider _ _ _ _ _ _ _) as [d|] eqn:E.
  - intros (u & _ & _ & H & _). eauto.
  - vm_compute in E. discriminate E.
Defined.

Lemma baseline_is_dearer_witness :
  match baseline (policy_example None) (from_entries entries_example) ["haiku"]
    (requirements signal_example 100) with
  | Some s => (∀ m, pick ladder_example (ceiling ladder_example) (from_entries entries_example)
      (requirements signal_example 100) = Some m → dle (rate_sum m) (rate_sum s) = true)
  | None => False
  end.
Proof.
  pose proof (baseline_is_dearer (policy_example None) (from_entries entries_example) ["haiku"]
    (requirements signal_example 100) (from_entries_wf entries_example)) as H.
  revert H. destruct (baseline _ _ _ _) eqn:E; [by intros (_ & _ & H)|].
  vm_compute in E. discriminate E.
Defined.

Lemma virtual_names_honoured_witness :
  (managed_start (policy_example (Some frontier_tier_example))
    {| sig_prompt_tokens := 1200; tool_count := 0; turn_count := 1; has_images := false;
       thinking_requested := false; has_code := false; explicit_tier := Some "frontier" |}
    Constrained).2 = Classified.
Proof.
  apply (virtual_names_honoured (policy_example (Some frontier_tier_example))
    {| sig_prompt_tokens := 1200; tool_count := 0; turn_count := 1; has_images := false;
       thinking_requested := false; has_code := false; explicit_tier := Some "frontier" |}
    Constrained wf_policy_example).
  - change (NoDup ["cheap"; "frontier"]). by apply (bool_decide_unpack (NoDup ["cheap"; "frontier"])).
  - discriminate.
  - vm_compute. auto.
Defined.

(** ** Two places where the code does less than it says *)

(** A model on two rungs, the lower one below the floor. *)
Definition ladder_shared : TierLadder := {|
  first_rung := {| rung_name := "cheap"; rung_models := ["anthropic/haiku"] |};
  other_rungs := [ {| rung_name := "frontier"; rung_models := ["anthropic/opus"; "anthropic/haiku"] |} ]
|}.

(** A model listed on a rung above the floor and on one below it is
    advertised as honoured and is not: [tier_of] takes the lowest rung that
    lists it, so [decide] substitutes the floor rung's first model. *)
Theorem entitled_overpromises_shared_model :
  let p := with_floor (new_policy ladder_shared (classify default_thresholds))
    (Some frontier_tier_example) in
  let c := from_entries entries_example in
  let budget := principal_only (cap_example 10) in
  In {| ent_spec := spec_example "anthropic/haiku" Anthropic "haiku" 1 5;
        ent_tier := Some "frontier"; honoured := true |}
    (entitled p Passthrough c [Anthropic] (budgets_pressure budget)) ∧
  (dec_model <$> result_ok (decide p Passthrough (Some "anthropic/haiku") signal_example budget c 100 []))
    = Some (spec_example "anthropic/opus" Anthropic "opus" 15 75).
Proof. split; vm_compute; auto. Qed.

(** A long-context model on the cheap rung and a shorter one on the top rung. *)
Definition long_context (id : string) (up : string) (i o : Z) : ModelSpec Q := {|
  model_id := id; model_provider := OpenAI; upstream_name := up;
  pricing := {| input_per_mtok := dint i; output_per_mtok := dint o;
                cache_read_per_mtok := None; cache_write_per_mtok := None |};
  context_window := 1000000; model_max_output_tokens := 8192;
  capabilities := {| cap_vision := true; cap_tools := true; cap_reasoning := false;
                     prompt_cache := true |};
  display_label := None; reasoning_efforts := None
|}.

(** The baseline can be cheaper than the rung that serves: the top rung is
    asked whether it fits this request, so a prompt too long for it leaves the
    discovered set alone, and the saving recorded for the row is negative. *)
Theorem baseline_below_the_serving_rung :
  let l := {| first_rung := {| rung_name := "cheap"; rung_models := ["openai/long"] |};
              other_rungs := [ {| rung_name := "frontier"; rung_models := ["anthropic/opus"] |} ] |} in
  let c := from_entries [long_context "openai/long" "long" 4 16; long_context "openai/mini" "mini" 1 4;
                         spec_example "anthropic/opus" Anthropic "opus" 15 75] in
  let signal := {| sig_prompt_tokens := 500000; tool_count := 0; turn_count := 1;
    has_images := false; thinking_requested := false; has_code := false;
    explicit_tier := Some "cheap" |} in
  match decide (new_policy l (classify default_thresholds)) Managed None signal
    (principal_only (cap_example 10)) c 1000 ["mini"] with
  | Ok d => match ceiling_model d with
            | Some base => dlt (rate_sum base) (rate_sum (dec_model d)) = true
            | None => False
            end
  | Err _ => False
  end.
Proof. vm_compute. reflexivity. Qed.

End Policy.
