(* ===== verification/Canonical.v ===== *)
(** * The hub representation

    [crates/oag-proto/src/canonical.rs]: the request every dialect is read
    into and rendered from, how hard it asks a model to think, what is
    estimated of it, and the fields of the client's body no codec read, kept
    and put back ([Passthrough]).

    A [serde_json::Value] is the inductive [Json]; an object is the list of
    its fields, whose keys a well-formed value does not repeat.  A number is
    its text.  The length of a value's serialisation, which a third-party
    package computes, is a parameter.  The [f32] temperature, which only the
    codecs copy, is left out. *)

From Stdlib Require Import Ascii.
From S2P Require Import Prelude Text Money Domain Efforts Catalog Classify.
#[local] Open Scope string_scope.
#[local] Open Scope list_scope.
#[local] Open Scope Z_scope.

#[local] Set Warnings "-register-all".

(** ** JSON

    The source's maps keep insertion order ([preserve_order]), and removing a
    key may move the last field into its place; the order of an object's
    fields means nothing here, and every theorem speaks of what a path
    reads. *)

Inductive Json : Type :=
  | JNull
  | JBool (b : bool)
  | JNumber (text : string)
  | JString (s : string)
  | JArray (l : list Json)
  | JObject (fields : list (string * Json)).

Module Js.

Definition Fields : Type := list (string * Json).

(** [map.get(key)]. *)
Fixpoint field (k : string) (fs : Fields) : option Json :=
  match fs with
  | [] => None
  | (k', v) :: fs => if Str.eqb k' k then Some v else field k fs
  end.

(** [*map.get_mut(key) = v] for a key that is there. *)
Fixpoint set_field (k : string) (v : Json) (fs : Fields) : Fields :=
  match fs with
  | [] => []
  | (k', v') :: fs => if Str.eqb k' k then (k', v) :: fs else (k', v') :: set_field k v fs
  end.

(** [map.remove(key)]. *)
Definition remove (k : string) (fs : Fields) : Fields :=
  keep (fun f : string * Json => negb (Str.eqb f.1 k)) fs.

(** [map.insert(key, v)] for a key that is not there. *)
Definition append_field (k : string) (v : Json) (fs : Fields) : Fields := fs ++ [(k, v)].

Definition is_empty_object (v : Json) : bool :=
  match v with JObject [] => true | _ => false end.

Definition is_object (v : Json) : bool := match v with JObject _ => true | _ => false end.

(** No object of the value repeats a key: what [serde_json] builds. *)
Fixpoint wf_json (v : Json) : Prop :=
  match v with
  | JObject fs =>
      NoDup (map fst fs) ∧
      (fix all_wf fs := match fs with [] => True | (_, v) :: fs => wf_json v ∧ all_wf fs end) fs
  | _ => True
  end.

(** The value at a path of keys. *)
Fixpoint lookup_path (p : list string) (v : Json) : option Json :=
  match p with
  | [] => Some v
  | k :: p =>
      match v with
      | JObject fs => match field k fs with Some v => lookup_path p v | None => None end
      | _ => None
      end
  end.
End Js.
Import Js.

(** ** Content *)

Inductive Role : Type := RoleSystem | RoleUser | RoleAssistant | RoleTool.
Inductive CacheControl : Type := Ephemeral.

Inductive ContentBlock : Type :=
  | BText (text : string) (cache_control : option CacheControl)
  | BImage (media_type data : string)
  | BToolUse (id name : string) (input : Json)
  | BToolResult (tool_use_id : string) (content : ToolResultContent) (is_error : bool)
  | BThinking (text : string) (signature : option string)
with ToolResultContent : Type :=
  | ResultText (s : string)
  | ResultBlocks (blocks : list ContentBlock).

Record Message : Type := { role : Role; content : list ContentBlock }.

Record Tool : Type := {
  tool_name : string;
  description : string;
  input_schema : Json;
  tool_cache_control : option CacheControl
}.

Inductive ToolChoice : Type := ChoiceAuto | ChoiceRequired | ChoiceNone | ChoiceTool (name : string).

Inductive ResponseFormat : Type :=
  | FormatText | FormatJsonObject | FormatJsonSchema (name : string) (schema : Json) (strict : bool).

Inductive Effort : Type := Off | Low | Medium | High | XHigh | Max | Ultra.

#[export] Instance Effort_eq_dec : EqDecision Effort.
Proof. solve_decision. Defined.

Record Passthrough : Type := { pt_dialect : Dialect; pt_body : Json }.

Record CanonicalRequest : Type := {
  model : string;
  system : list ContentBlock;
  messages : list Message;
  req_tools : list Tool;
  max_tokens : Z;
  stream : bool;
  thinking_budget : option Z;
  thinking_effort : option Effort;
  client_session : option string;
  tool_choice : option ToolChoice;
  response_format : option ResponseFormat;
  stop : list string;
  previous_response_id : option string;
  passthrough : option Passthrough
}.

Module Canonical.

(** Induction on a block through the blocks of a tool's result. *)
Section induction.
Context (P : ContentBlock → Prop).
Context (Htext : ∀ text c, P (BText text c)) (Himage : ∀ media data, P (BImage media data)).
Context (Huse : ∀ id name input, P (BToolUse id name input)).
Context (Hresult : ∀ id text e, P (BToolResult id (ResultText text) e)).
Context (Hblocks : ∀ id blocks e, Forall P blocks → P (BToolResult id (ResultBlocks blocks) e)).
Context (Hthinking : ∀ text s, P (BThinking text s)).

Fixpoint block_induction (b : ContentBlock) : P b :=
  match b with
  | BText text c => Htext text c
  | BImage media data => Himage media data
  | BToolUse id name input => Huse id name input
  | BToolResult id (ResultText text) e => Hresult id text e
  | BToolResult id (ResultBlocks blocks) e =>
      Hblocks id blocks e ((fix each bs : Forall P bs :=
        match bs with
        | [] => @List.Forall_nil _ P
        | b :: bs => @List.Forall_cons _ P b bs (block_induction b) (each bs)
        end) blocks)
  | BThinking text s => Hthinking text s
  end.
End induction.

(** [ToolResultContent::as_text]. *)
Definition as_text (c : ToolResultContent) : string :=
  match c with
  | ResultText s => s
  | ResultBlocks blocks =>
      Str.join (String "010" EmptyString)
        (filter_map (fun b => match b with BText text _ => Some text | _ => None end) blocks)
  end.

Definition constrains_output (f : ResponseFormat) : bool :=
  match f with FormatText => false | _ => true end.

(** ** Effort *)

Definition effort_as_str (e : Effort) : string :=
  match e with
  | Off => "none" | Low => "low" | Medium => "medium" | High => "high"
  | XHigh => "xhigh" | Max => "max" | Ultra => "ultra"
  end.

Definition effort_parse (s : string) : option Effort :=
  if Str.eqb s "none" || Str.eqb s "minimal" then Some Off
  else if Str.eqb s "low" then Some Low
  else if Str.eqb s "medium" then Some Medium
  else if Str.eqb s "high" then Some High
  else if Str.eqb s "xhigh" then Some XHigh
  else if Str.eqb s "max" then Some Max
  else if Str.eqb s "ultra" then Some Ultra
  else None.

Definition as_budget (e : Effort) : Z :=
  match e with
  | Off => 0 | Low => 4096 | Medium => 8192 | High => 16384 | XHigh => 32768
  | Max | Ultra => 65536
  end.

Definition from_budget (tokens : Z) : Effort :=
  if tokens =? 0 then Off
  else if 65536 <=? tokens then Max
  else if 32768 <=? tokens then XHigh
  else if 16384 <=? tokens then High
  else if 8192 <=? tokens then Medium
  else Low.

(** The derived order. *)
Definition effort_ord (e : Effort) : Z :=
  match e with
  | Off => 0 | Low => 1 | Medium => 2 | High => 3 | XHigh => 4 | Max => 5 | Ultra => 6
  end.

Definition openai_dialect (d : Dialect) : bool :=
  match d with OpenAIChatCompletions | OpenAIResponses => true | _ => false end.

(** [Effort::for_model]. *)
Definition effort_for_model (e : Effort) (known : option ReasoningEfforts) (d : Dialect) : Effort :=
  if bool_decide (e ≠ Ultra) then e
  else
    match known with
    | None => Max
    | Some ls =>
        let listed := filter_map (fun l => effort_parse (value l)) (levels ls) in
        if openai_dialect d && any (fun l => bool_decide (l = Ultra)) listed then Ultra
        else default Max
          (max_by (fun x y => effort_ord y <=? effort_ord x)
            (keep (fun l => bool_decide (l ≠ Ultra)) listed))
    end.

(** ** Estimates *)

Section estimates.
(** [input.to_string().len()] of a JSON value. *)
Context (json_len : Json → Z).

Definition sum (l : list Z) : Z := fold_right Z.add 0 l.

Fixpoint carries_image (b : ContentBlock) : bool :=
  match b with
  | BImage _ _ => true
  | BToolResult _ (ResultBlocks blocks) _ => any carries_image blocks
  | _ => false
  end.

Fixpoint block_len (b : ContentBlock) : Z :=
  match b with
  | BText text _ | BThinking text _ | BToolResult _ (ResultText text) _ => Str.len text
  | BToolResult _ (ResultBlocks blocks) _ => sum (map block_len blocks)
  | BToolUse _ name input => Str.len name + json_len input
  | BImage _ _ => 1000
  end.

Fixpoint count_block (b : ContentBlock) : Z :=
  match b with
  | BText text _ | BThinking text _ | BToolResult _ (ResultText text) _ => Str.len text / 4
  | BToolResult _ (ResultBlocks blocks) _ => sum (map count_block blocks)
  | BToolUse _ name input => (Str.len name + json_len input) / 3
  | BImage _ _ => 1500
  end.

(** [self.system.iter().chain(self.messages...content)]. *)
Definition all_blocks (r : CanonicalRequest) : list ContentBlock :=
  system r ++ mjoin (map content (messages r)).

Definition estimated_prompt_tokens (r : CanonicalRequest) : Z :=
  let text := sum (map block_len (all_blocks r)) in
  let tools := sum (map (fun t =>
    Str.len (tool_name t) + Str.len (description t) + json_len (input_schema t)) (req_tools r)) in
  (text + tools) / 4.

Definition count_input_tokens (r : CanonicalRequest) : Z :=
  let content := sum (map count_block (all_blocks r)) in
  let tools := sum (map (fun t =>
    (Str.len (tool_name t) + Str.len (description t)) / 4 + json_len (input_schema t) / 3)
    (req_tools r)) in
  let framing := 4 * Z.of_nat (length (messages r)) + 8 * Z.of_nat (length (req_tools r)) in
  content + tools + framing.

Definition has_images (r : CanonicalRequest) : bool :=
  any carries_image (mjoin (map content (messages r))).

Definition NEWLINE : ascii := "010".

Definition has_code (r : CanonicalRequest) : bool :=
  any (fun b => match b with
    | BText text _ =>
        Str.contains text "```" || Str.contains text (String NEWLINE "@@ ")
        || Str.contains text (String NEWLINE "--- ")
    | _ => false
    end) (all_blocks r).

Definition signal (r : CanonicalRequest) : RequestSignal := {|
  sig_prompt_tokens := estimated_prompt_tokens r;
  tool_count := Z.of_nat (length (req_tools r));
  turn_count := Z.of_nat (length (messages r));
  Classify.has_images := has_images r;
  thinking_requested :=
    match thinking_budget r with Some b => 0 <? b | None => false end
    || match thinking_effort r with Some e => 0 <? as_budget e | None => false end;
  Classify.has_code := has_code r;
  explicit_tier := None
|}.
End estimates.

(** [CanonicalRequest::thinking_request]. *)
Definition thinking_request (r : CanonicalRequest) : option (Z * Effort) :=
  match thinking_budget r with
  | Some budget =>
      if 0 <? budget then Some (budget, from_budget budget)
      else match thinking_effort r with
           | Some Off | None => None
           | Some effort => Some (as_budget effort, effort)
           end
  | None =>
      match thinking_effort r with
      | Some Off | None => None
      | Some effort => Some (as_budget effort, effort)
      end
  end.

(** [CanonicalRequest::for_model]. *)
Definition for_model (r : CanonicalRequest) (known : option ReasoningEfforts) (d : Dialect)
    : CanonicalRequest :=
  match thinking_effort r with
  | None => r
  | Some asked =>
      let sent := effort_for_model asked known d in
      if bool_decide (sent = asked) then r
      else {|
        model := model r; system := system r; messages := messages r; req_tools := req_tools r;
        max_tokens := max_tokens r; stream := stream r;
        thinking_budget :=
          if bool_decide (thinking_budget r = Some (as_budget asked))
          then Some (as_budget sent) else thinking_budget r;
        thinking_effort := Some sent;
        client_session := client_session r; tool_choice := tool_choice r;
        response_format := response_format r; stop := stop r;
        previous_response_id := previous_response_id r; passthrough := passthrough r |}
  end.

Definition cached_text (b : ContentBlock) : option string :=
  match b with BText text (Some Ephemeral) => Some text | _ => None end.

(** [extract_cache_blocks]. *)
Definition extract_cache_blocks (r : CanonicalRequest) : list string :=
  filter_map cached_text (system r) ++
  map tool_name (keep (fun t => match tool_cache_control t with Some _ => true | None => false end)
    (req_tools r)) ++
  mjoin (map (fun m => filter_map cached_text (content m)) (messages r)).

(** ** Passthrough *)

Fixpoint snake_of (camel : string) : string :=
  match camel with
  | EmptyString => EmptyString
  | String c rest =>
      if Str.is_ascii_uppercase c
      then String "_" (String (Str.to_ascii_lowercase_byte c) (snake_of rest))
      else String c (snake_of rest)
  end.

(** [remove_path] over the path's segments: what its [split_once] leaves at
    each call is the rest of them. *)
Fixpoint remove_segments (segs : list string) (v : Json) : Json :=
  match segs, v with
  | [], _ => v
  | [last], JObject fs => JObject (remove (snake_of last) (remove last fs))
  | head :: rest, JObject fs =>
      let descend key fs :=
        match field key fs with
        | Some child => set_field key (remove_segments rest child) fs
        | None => fs
        end in
      JObject (descend (snake_of head) (descend head fs))
  | _, _ => v
  end.

Definition remove_path (v : Json) (path : string) : Json :=
  remove_segments (Str.split path ".") v.

Fixpoint prune (v : Json) : Json :=
  match v with
  | JObject fs =>
      JObject (keep (fun f : string * Json => negb (is_empty_object f.2))
        (map (fun f : string * Json => (f.1, prune f.2)) fs))
  | _ => v
  end.

Fixpoint merge (target extra : Json) {struct extra} : Json :=
  match extra, target with
  | JObject es, JObject ts =>
      JObject ((fix go (es ts : Fields) : Fields :=
        match es with
        | [] => ts
        | (key, value) :: es =>
            go es (match field key ts with
                   | Some existing => set_field key (merge existing value) ts
                   | None => append_field key value ts
                   end)
        end) es ts)
  | _, _ => target
  end.

(** [Passthrough::capture]. *)
Definition capture (d : Dialect) (body : Json) (subtracted : list string) : option Passthrough :=
  let residue := prune (fold_left remove_path subtracted body) in
  match residue with
  | JObject (_ :: _) => Some {| pt_dialect := d; pt_body := residue |}
  | _ => None
  end.

(** [Passthrough::merge_into]. *)
Definition merge_into (p : Passthrough) (d : Dialect) (target : Json) : Json :=
  if bool_decide (pt_dialect p = d) then merge target (pt_body p) else target.

(** ** Lemmas on objects *)

Lemma field_None k fs : field k fs = None ↔ ¬ In k (map fst fs).
Proof.
  induction fs as [|[k' v] fs IH]; simpl; [naive_solver|].
  destruct (Str.eqb k' k) eqn:E.
  - apply Str.str_eqb_eq in E. naive_solver.
  - apply Str.str_eqb_neq in E. rewrite IH. naive_solver.
Qed.

Lemma field_set k k' v fs :
  field k (set_field k' v fs) =
    if Str.eqb k' k then (fun _ => v) <$> field k fs else field k fs.
Proof.
  induction fs as [|[k2 v2] fs IH]; simpl; [by destruct (Str.eqb k' k)|].
  destruct (Str.eqb k2 k') eqn:E1; simpl.
  - apply Str.str_eqb_eq in E1 as ->. by destruct (Str.eqb k' k).
  - destruct (Str.eqb k2 k) eqn:E3; [|done]. apply Str.str_eqb_eq in E3 as ->.
    apply Str.str_eqb_neq in E1. by rewrite (proj2 (Str.str_eqb_neq k' k)).
Qed.

Lemma field_remove k k' fs :
  field k (remove k' fs) = if Str.eqb k k' then None else field k fs.
Proof.
  unfold remove, keep. induction fs as [|[k2 v2] fs IH]; simpl; [by destruct (Str.eqb k k')|].
  destruct (Str.eqb k2 k') eqn:E1; simpl; rewrite IH;
    destruct (Str.eqb k k') eqn:E2, (Str.eqb k2 k) eqn:E3; simpl;
    rewrite ?Str.str_eqb_eq, ?Str.str_eqb_neq in *; subst; congruence.
Qed.

Lemma field_append k k' v fs :
  field k (append_field k' v fs) =
    match field k fs with
    | Some x => Some x
    | None => if Str.eqb k' k then Some v else None
    end.
Proof.
  unfold append_field. induction fs as [|[k2 v2] fs IH]; simpl; [done|].
  by destruct (Str.eqb k2 k).
Qed.

Lemma field_In k v fs : field k fs = Some v → In (k, v) fs.
Proof.
  induction fs as [|[k' v'] fs IH]; simpl; [done|].
  destruct (Str.eqb k' k) eqn:E; [|auto]. apply Str.str_eqb_eq in E. intros [= <-]. left. congruence.
Qed.

Lemma wf_object fs :
  wf_json (JObject fs) ↔ NoDup (map fst fs) ∧ ∀ k v, In (k, v) fs → wf_json v.
Proof.
  cbn [wf_json]. apply and_iff_compat_l. induction fs as [|[k v] fs IH]; simpl; [naive_solver|].
  rewrite IH. split.
  - intros [Hv Hfs] k' v' [[= <- <-]|H]; [done|eauto].
  - intros H. split; [eapply H; by left|]. intros k' v' Hin. eapply H. by right.
Qed.

Lemma wf_field k v fs : wf_json (JObject fs) → field k fs = Some v → wf_json v.
Proof. intros [_ H]%wf_object Hf%field_In. eauto. Qed.

Lemma map_fst_set k v fs : map fst (set_field k v fs) = map fst fs.
Proof.
  induction fs as [|[k' v'] fs IH]; simpl; [done|].
  destruct (Str.eqb k' k); simpl; congruence.
Qed.

Lemma set_field_In k v fs k' v' : In (k', v') (set_field k v fs) → v' = v ∨ In (k', v') fs.
Proof.
  induction fs as [|[k2 v2] fs IH]; simpl; [done|].
  destruct (Str.eqb k2 k); simpl; intros [[= <- <-]|H]; auto. destruct (IH H); auto.
Qed.

Lemma NoDup_keep_keys (f : string * Json → bool) fs :
  NoDup (map fst fs) → NoDup (map fst (keep f fs)).
Proof.
  unfold keep. induction fs as [|[k v] fs IH]; simpl; [done|]. intros [Hn Hd]%NoDup_cons.
  destruct (f (k, v)); simpl; [|auto]. apply NoDup_cons. split; [|auto].
  rewrite list_elem_of_In in *. intros ([k' v'] & Hk & H)%in_map_iff.
  apply filter_In in H as [H _]. apply Hn, in_map_iff. by exists (k', v').
Qed.

Lemma wf_keep f fs : wf_json (JObject fs) → wf_json (JObject (keep f fs)).
Proof.
  rewrite !wf_object. intros [Hn Hv]. split; [by apply NoDup_keep_keys|].
  intros k v [H _]%keep_In. eauto.
Qed.

Lemma wf_set k v fs : wf_json (JObject fs) → wf_json v → wf_json (JObject (set_field k v fs)).
Proof.
  rewrite !wf_object, map_fst_set. intros [Hn Hv] Hwf. split; [done|].
  intros k' v' [->|H]%set_field_In; eauto.
Qed.

(** One level of [remove_path]'s descent. *)
Definition descend (f : Json → Json) (key : string) (fs : Fields) : Fields :=
  match field key fs with
  | Some child => set_field key (f child) fs
  | None => fs
  end.

Lemma field_descend f k key fs :
  field k (descend f key fs) = if Str.eqb key k then f <$> field k fs else field k fs.
Proof.
  unfold descend. destruct (field key fs) as [c|] eqn:E.
  - rewrite field_set. destruct (Str.eqb key k) eqn:Ek; [|done].
    apply Str.str_eqb_eq in Ek as ->. by rewrite E.
  - destruct (Str.eqb key k) eqn:Ek; [|done]. apply Str.str_eqb_eq in Ek as ->. by rewrite E.
Qed.

Lemma remove_segments_cons head s rest fs :
  remove_segments (head :: s :: rest) (JObject fs) =
    JObject (descend (remove_segments (s :: rest)) (snake_of head)
      (descend (remove_segments (s :: rest)) head fs)).
Proof. done. Qed.

(** The paths a subtracted path takes away. *)
Fixpoint hit (segs p : list string) : bool :=
  match segs, p with
  | [last], k :: _ => Str.eqb last k || Str.eqb (snake_of last) k
  | head :: rest, k :: p => (Str.eqb head k || Str.eqb (snake_of head) k) && hit rest p
  | _, _ => false
  end.

Lemma wf_remove_segments segs v : wf_json v → wf_json (remove_segments segs v).
Proof.
  revert v; induction segs as [|s segs IH]; intros v Hv; [done|].
  destruct v as [| | | | |fs]; try by destruct segs.
  destruct segs as [|s' rest].
  - unfold remove_segments, remove. by apply wf_keep, wf_keep.
  - rewrite remove_segments_cons.
    assert (∀ key fs, wf_json (JObject fs) →
      wf_json (JObject (descend (remove_segments (s' :: rest)) key fs))) as Hd.
    { intros key gs Hg. unfold descend. destruct (field key gs) eqn:E; [|done].
      apply wf_set; [done|]. apply IH. by eapply wf_field. }
    by apply Hd, Hd.
Qed.

Lemma lookup_remove_segments segs v p x :
  segs ≠ [] → is_object x = false →
  lookup_path p (remove_segments segs v) = Some x ↔ hit segs p = false ∧ lookup_path p v = Some x.
Proof.
  intros Hne Hx. revert v p Hne; induction segs as [|s segs IH]; intros v p Hne; [done|]. clear Hne.
  destruct p as [|k p].
  { assert (hit (s :: segs) [] = false) as -> by by destruct segs.
    simpl. destruct v; destruct segs; simpl; try naive_solver.
    all: split; [intros [= <-]; done|intros [_ [= <-]]; done]. }
  destruct (is_object v) eqn:Ev.
  2: { assert (∀ q, lookup_path (k :: q) v = None) as Hno by by destruct v.
       assert (remove_segments (s :: segs) v = v) as -> by by destruct v, segs.
       rewrite Hno. split; [done|by intros [_ ?]]. }
  destruct v as [| | | | |fs]; try done.
  destruct segs as [|s' rest].
  - cbn [remove_segments lookup_path hit]. rewrite !field_remove.
    assert (∀ a b, Str.eqb a b = Str.eqb b a) as Hsym by apply String.eqb_sym.
    rewrite (Hsym k (snake_of s)), (Hsym k s).
    destruct (Str.eqb (snake_of s) k), (Str.eqb s k); simpl.
    1-3: split; [done|by intros [? _]].
    split; [auto|by intros [_ ?]].
  - rewrite remove_segments_cons. cbn [lookup_path].
    change (hit (s :: s' :: rest) (k :: p)) with
      ((Str.eqb s k || Str.eqb (snake_of s) k) && hit (s' :: rest) p).
    rewrite !field_descend. destruct (field k fs) as [c|];
      [|destruct (Str.eqb s k), (Str.eqb (snake_of s) k); simpl; naive_solver].
    destruct (Str.eqb s k), (Str.eqb (snake_of s) k); cbn [fmap option_fmap option_map orb andb];
      rewrite ?IH by done; naive_solver.
Qed.

Lemma prune_object fs :
  prune (JObject fs) = JObject (keep (fun f : string * Json => negb (is_empty_object f.2))
    (map (fun f : string * Json => (f.1, prune f.2)) fs)).
Proof. done. Qed.

Lemma field_prune k fs :
  NoDup (map fst fs) →
  field k (keep (fun f : string * Json => negb (is_empty_object f.2))
    (map (fun f : string * Json => (f.1, prune f.2)) fs)) =
  match field k fs with
  | Some v => if is_empty_object (prune v) then None else Some (prune v)
  | None => None
  end.
Proof.
  unfold keep. induction fs as [|[k' v] fs IH]; simpl; [done|]. intros [Hn Hd]%NoDup_cons.
  specialize (IH Hd). destruct (is_empty_object (prune v)) eqn:Ee; simpl.
  - rewrite IH. destruct (Str.eqb k' k) eqn:E; [|done]. apply Str.str_eqb_eq in E as <-.
    rewrite list_elem_of_In in Hn. apply field_None in Hn. by rewrite Hn, Ee.
  - destruct (Str.eqb k' k); [by rewrite Ee|done].
Qed.

Lemma lookup_prune v p x :
  wf_json v → is_object x = false →
  lookup_path p (prune v) = Some x ↔ lookup_path p v = Some x.
Proof.
  intros Hv Hx. revert v Hv; induction p as [|k p IH]; intros v Hv.
  { destruct v; simpl; try done. split; intros [= <-]; done. }
  destruct v as [| | | | |fs]; try done. rewrite prune_object. cbn [lookup_path].
  pose proof Hv as [Hn _]%wf_object. rewrite field_prune by done.
  destruct (field k fs) as [c|] eqn:E; [|done]. rewrite <-(IH c) by by eapply wf_field.
  destruct (is_empty_object (prune c)) eqn:Ee; [|done]. split; [done|].
  destruct (prune c) as [| | | | |[|]]; try done. destruct p; [by intros [= <-]|done].
Qed.

Fixpoint json_size (v : Json) : nat :=
  match v with
  | JArray l => S (list_sum (map json_size l))
  | JObject fs => S (list_sum (map (fun f : string * Json => json_size f.2) fs))
  | _ => 1
  end.

Lemma json_size_In k v fs : In (k, v) fs → (json_size v < json_size (JObject fs))%nat.
Proof.
  simpl. induction fs as [|[k' v'] fs IH]; simpl; [done|].
  intros [[= <- <-]|H]; simpl; [lia|]. apply IH in H. lia.
Qed.

Lemma wf_prune v : wf_json v → wf_json (prune v).
Proof.
  induction v as [v IH] using (induction_ltof1 _ json_size). intros Hv.
  destruct v as [| | | | |fs]; try done. rewrite prune_object. apply wf_keep.
  apply wf_object in Hv as [Hn Hv]. apply wf_object. rewrite map_map. split; [done|].
  intros k v ([k' v'] & [= <- <-] & Hin)%in_map_iff. apply IH; [|by eapply Hv].
  by apply (json_size_In k').
Qed.

(** ** Merging *)

Fixpoint merge_fields (es ts : Fields) : Fields :=
  match es with
  | [] => ts
  | (key, value) :: es =>
      merge_fields es (match field key ts with
             | Some existing => set_field key (merge existing value) ts
             | None => append_field key value ts
             end)
  end.

Lemma merge_object ts es : merge (JObject ts) (JObject es) = JObject (merge_fields es ts).
Proof. reflexivity. Qed.

Lemma field_merge k es ts :
  NoDup (map fst es) →
  field k (merge_fields es ts) =
    match field k ts, field k es with
    | Some a, Some b => Some (merge a b)
    | Some a, None => Some a
    | None, r => r
    end.
Proof.
  revert ts; induction es as [|[key v] es IH]; intros ts; simpl.
  { intros _. by destruct (field k ts). }
  intros [Hn Hd]%NoDup_cons. rewrite IH by done. rewrite list_elem_of_In in Hn.
  destruct (Str.eqb key k) eqn:E.
  - apply Str.str_eqb_eq in E as <-. apply field_None in Hn. rewrite Hn.
    destruct (field key ts) as [x|] eqn:Ex.
    + by rewrite field_set, Str.str_eqb_refl, Ex.
    + by rewrite field_append, Str.str_eqb_refl, Ex.
  - assert (field k (match field key ts with
      | Some x => set_field key (merge x v) ts
      | None => append_field key v ts end) = field k ts) as ->; [|done].
    destruct (field key ts) as [x|].
    + by rewrite field_set, E.
    + rewrite field_append, E. by destruct (field k ts).
Qed.

(** A path on which a field could still be put. *)
Fixpoint room (p : list string) (v : Json) : bool :=
  match p with
  | [] => true
  | k :: p =>
      match v with
      | JObject fs => match field k fs with Some v => room p v | None => true end
      | _ => false
      end
  end.

(** What every path of a merge reads. *)
Lemma lookup_merge p target extra :
  wf_json extra →
  lookup_path p (merge target extra) =
    match lookup_path p target, lookup_path p extra with
    | Some a, Some b => Some (merge a b)
    | Some a, None => Some a
    | None, r => if room p target then r else None
    end.
Proof.
  revert target extra; induction p as [|k p IH]; intros target extra Hwf; [done|].
  destruct (is_object target) eqn:Et.
  2: { assert (merge target extra = target) as -> by by destruct target, extra.
       by destruct target. }
  destruct (is_object extra) eqn:Ee.
  2: { assert (merge target extra = target) as -> by by destruct target, extra.
       assert (lookup_path (k :: p) extra = None) as -> by by destruct extra.
       destruct (lookup_path (k :: p) target); [done|]. by destruct (room _ _). }
  destruct target as [| | | | |ts], extra as [| | | | |es]; try done.
  rewrite merge_object. cbn [lookup_path room].
  rewrite field_merge by by apply wf_object in Hwf as [? _].
  destruct (field k ts) as [a|], (field k es) as [b|] eqn:Eb; try done.
  - apply IH. by eapply wf_field.
  - destruct (lookup_path p a); [done|]. by destruct (room p a).
Qed.

Lemma merge_leaf a b : is_object a = false → merge a b = a.
Proof. by destruct a, b. Qed.

Lemma wf_subtract subtracted body : wf_json body → wf_json (fold_left remove_path subtracted body).
Proof.
  revert body; induction subtracted as [|s ss IH]; intros body H; [done|].
  apply IH. by apply wf_remove_segments.
Qed.

Lemma split_nonempty s c : Str.split s c ≠ [].
Proof. destruct s as [|a s]; simpl; [done|]. repeat case_match; done. Qed.

Lemma lookup_subtract subtracted body p x :
  is_object x = false →
  lookup_path p (fold_left remove_path subtracted body) = Some x ↔
  (∀ s, In s subtracted → hit (Str.split s ".") p = false) ∧ lookup_path p body = Some x.
Proof.
  intros Hx. revert body; induction subtracted as [|s ss IH]; intros body; [naive_solver|].
  cbn [fold_left]. rewrite IH. unfold remove_path.
  rewrite lookup_remove_segments by (done || apply split_nonempty). split.
  - intros (H & Hs & Hp). split; [|done]. intros s' [<-|Hin]; auto.
  - intros [H Hp]. split; [|split; [|done]]; intros; apply H; simpl; auto.
Qed.

Lemma capture_Some d body subtracted pt :
  capture d body subtracted = Some pt →
  pt = {| pt_dialect := d; pt_body := prune (fold_left remove_path subtracted body) |}.
Proof. unfold capture. by destruct (prune _) as [| | | | |[|]] eqn:E; simpl; intros [= <-]. Qed.

(** A vendor's own fields survive a same-dialect hop and nothing else
    changes.  Of the body a client sent, every value outside the subtracted
    paths -- in either spelling -- comes back where the renderer left room for
    it; a value the renderer wrote is never overwritten; nothing subtracted
    comes back; and rendered to another dialect the request is untouched. *)
Theorem passthrough_survives d body subtracted pt rendered :
  wf_json body →
  capture d body subtracted = Some pt →
  (∀ p x, is_object x = false → lookup_path p rendered = Some x →
    lookup_path p (merge_into pt d rendered) = Some x) ∧
  (∀ p x, is_object x = false → lookup_path p rendered = None → room p rendered = true →
    lookup_path p (merge_into pt d rendered) = Some x ↔
    lookup_path p body = Some x ∧
      ∀ s, In s subtracted → hit (Str.split s ".") p = false) ∧
  (∀ d', d' ≠ d → merge_into pt d' rendered = rendered).
Proof.
  intros Hwf ->%capture_Some. unfold merge_into; cbn [pt_dialect pt_body].
  assert (wf_json (prune (fold_left remove_path subtracted body))) as Hwr
    by by apply wf_prune, wf_subtract.
  rewrite bool_decide_eq_true_2 by done. split_and!.
  - intros p x Hx Hp. rewrite lookup_merge, Hp by done.
    destruct (lookup_path p (prune _)); [|done]. by rewrite merge_leaf.
  - intros p x Hx Hp Hroom. rewrite lookup_merge, Hp, Hroom by done.
    rewrite lookup_prune by (done || by apply wf_subtract).
    rewrite lookup_subtract by done. tauto.
  - intros d' Hd. by rewrite bool_decide_eq_false_2.
Qed.

Definition body_example : Json := JObject [
  ("model", JString "gemini-pro");
  ("generationConfig", JObject [("temperature", JNumber "0.2"); ("audioTimestamp", JBool true)]);
  ("max_output_tokens", JNumber "100")].

Definition rendered_example : Json := JObject [
  ("model", JString "gemini-flash"); ("generationConfig", JObject [("temperature", JNumber "0.2")])].

Lemma passthrough_survives_witness :
  lookup_path ["generationConfig"; "audioTimestamp"]
    (merge_into {| pt_dialect := GeminiGenerateContent; pt_body := JObject [
        ("generationConfig", JObject [("audioTimestamp", JBool true)])] |}
      GeminiGenerateContent rendered_example) = Some (JBool true).
Proof.
  apply (passthrough_survives GeminiGenerateContent body_example
    ["model"; "generationConfig.temperature"; "maxOutputTokens"]
    {| pt_dialect := GeminiGenerateContent; pt_body := JObject [
        ("generationConfig", JObject [("audioTimestamp", JBool true)])] |} rendered_example);
    try reflexivity.
  - unfold body_example. cbn [wf_json]. split_and!; try done;
      match goal with |- NoDup ?l => apply (bool_decide_unpack (NoDup l)); reflexivity end.
  - split; [reflexivity|]. intros s [<-|[<-|[<-|[]]]]; reflexivity.
Defined.

(** ** Effort *)

Lemma effort_parse_as_str e : effort_parse (effort_as_str e) = Some e.
Proof. by destruct e. Qed.

Lemma from_as_budget e : e ≠ Ultra → from_budget (as_budget e) = e.
Proof. by destruct e. Qed.

Lemma effort_ord_inj a b : effort_ord a = effort_ord b → a = b.
Proof. by destruct a, b. Qed.

(** The efforts a model's row lists. *)
Definition listed (ls : ReasoningEfforts) (e : Effort) : Prop :=
  ∃ l, In l (levels ls) ∧ effort_parse (value l) = Some e.

(** [ultra] is sent only where it is taken.  Every other effort is sent as
    asked; [ultra] goes out as itself only on an OpenAI dialect to a model
    whose row lists it, and otherwise as the highest other level the row lists,
    or [max] when the row lists no other or is unknown. *)
Theorem ultra_sent_only_where_taken e known d :
  let sent := effort_for_model e known d in
  (e ≠ Ultra → sent = e) ∧
  (sent = Ultra ↔ e = Ultra ∧ openai_dialect d = true ∧ ∃ ls, known = Some ls ∧ listed ls Ultra) ∧
  (e = Ultra → sent ≠ Ultra →
    match known with
    | None => sent = Max
    | Some ls =>
        (∀ x, listed ls x → x ≠ Ultra → effort_ord x ≤ effort_ord sent) ∧
        (listed ls sent ∨ sent = Max ∧ ∀ x, listed ls x → x = Ultra)
    end).
Proof.
  intros sent. unfold sent, effort_for_model. destruct (bool_decide (e ≠ Ultra)) eqn:E.
  { apply bool_decide_eq_true in E. split_and!; [done| |done]. by split; [|intros (? & _)]. }
  apply bool_decide_eq_false, dec_stable in E as ->.
  destruct known as [ls|].
  2: { split_and!; [done| |done]. split; [done|]. by intros (_ & _ & ? & ? & _). }
  set (es := filter_map _ (levels ls)).
  assert (∀ x, In x es ↔ listed ls x) as Hes by (intros x; unfold es; by rewrite filter_map_In).
  assert (any (fun l => bool_decide (l = Ultra)) es = true ↔ listed ls Ultra) as Hu.
  { rewrite any_true, <-Hes. split; [by intros (x & Hx & ->%bool_decide_eq_true)|].
    intros H. exists Ultra. split; [done|]. by apply bool_decide_eq_true. }
  destruct (openai_dialect d && any (fun l => bool_decide (l = Ultra)) es) eqn:Eo.
  { apply andb_true_iff in Eo as [Ho Ha]. split_and!; [done| |done]. split; [|done].
    intros _. split_and!; [done|done|]. exists ls. split; [done|]. by apply Hu. }
  assert (¬ (openai_dialect d = true ∧ ∃ ls', Some ls = Some ls' ∧ listed ls' Ultra)) as Hno.
  { intros (Ho & ls' & [= <-] & Hl). rewrite Ho in Eo. simpl in Eo. apply Hu in Hl. congruence. }
  destruct (max_by _ _) as [m|] eqn:Em; simpl.
  - apply max_by_spec in Em as [Hm Hmax].
    2-4: intros; rewrite ?Z.leb_le, ?Z.leb_gt in *; lia.
    apply keep_In in Hm as [Hin Hmu]. apply bool_decide_eq_true in Hmu.
    split_and!; [done|by split; [|intros (_ & ?)]|]. intros _ _. split.
    + intros x Hx Hxu. apply Z.leb_le, Hmax, keep_In. split; [by apply Hes|].
      by apply bool_decide_eq_true.
    + left. by apply Hes.
  - apply max_by_None in Em. rewrite keep_nil in Em.
    assert (∀ x, listed ls x → x = Ultra) as Hall.
    { intros x Hx%Hes. specialize (Em x Hx). apply bool_decide_eq_false in Em. by apply dec_stable. }
    split_and!; [done|by split; [|intros (_ & ?)]|]. intros _ _. split; [|auto].
    intros x Hx Hxu. by apply Hall in Hx.
Qed.

Lemma effort_for_model_idem e known d :
  effort_for_model (effort_for_model e known d) known d = effort_for_model e known d.
Proof.
  destruct (decide (effort_for_model e known d = Ultra)) as [Hu|Hn].
  - rewrite Hu. assert (e = Ultra) as ->; [|done]. revert Hu. unfold effort_for_model at 1.
    destruct (bool_decide (e ≠ Ultra)) eqn:E; [done|].
    apply bool_decide_eq_false, dec_stable in E. done.
  - unfold effort_for_model at 1. by rewrite bool_decide_eq_true_2.
Qed.

(** Fitting a request to a model is done once: fitting it again changes
    nothing, the effort sent is the one the model takes, a budget that said the
    same as the asked effort still says the same as the sent one and any other
    budget is kept, and whether the request asks to think in levels stays
    readable from either. *)
Theorem for_model_consistent r known d :
  let r' := for_model r known d in
  for_model r' known d = r' ∧
  thinking_effort r' = (fun e => effort_for_model e known d) <$> thinking_effort r ∧
  (∀ e, thinking_effort r = Some e → thinking_budget r = Some (as_budget e) →
    thinking_budget r' = Some (as_budget (effort_for_model e known d))) ∧
  ((∀ e, thinking_effort r = Some e → thinking_budget r ≠ Some (as_budget e)) →
    thinking_budget r' = thinking_budget r) ∧
  (messages r', system r', req_tools r', max_tokens r', tool_choice r', passthrough r') =
    (messages r, system r, req_tools r, max_tokens r, tool_choice r, passthrough r).
Proof.
  intros r'. unfold r', for_model. destruct (thinking_effort r) as [e|] eqn:Ee.
  2: { rewrite Ee. split_and!; done. }
  destruct (bool_decide (effort_for_model e known d = e)) eqn:Eb.
  { apply bool_decide_eq_true in Eb. rewrite Ee. cbn [fmap option_fmap option_map].
    rewrite bool_decide_eq_true_2 by done. split_and!; [done|congruence| |done|done].
    intros e' [= <-] ->. by rewrite Eb. }
  cbn [thinking_effort]. rewrite effort_for_model_idem, bool_decide_eq_true_2 by done.
  cbn [thinking_budget fmap option_fmap option_map]. split_and!; [done|done| | |done].
  - intros e' [= <-] Hb. by rewrite bool_decide_eq_true_2.
  - intros Hne. rewrite bool_decide_eq_false_2; [done|]. by apply Hne.
Qed.

End Canonical.
