(* ===== verification/Wire.v ===== *)
(** * Reading and building JSON

    What the codecs use of [serde_json::Value]: indexing by key, the [as_*]
    accessors, assignment to a key, and numbers.  Printing a value and parsing a
    text are the package's own, and parameters where they are used. *)

From Stdlib Require Import Ascii.
From S2P Require Import Prelude Text Money Domain Efforts Catalog Classify Canonical.
#[local] Open Scope string_scope.
#[local] Open Scope list_scope.
#[local] Open Scope Z_scope.

Module Wire.
Import Js.

(** [v[key]]: [Null] for a key that is not there and for what is no object. *)
Definition idx (v : Json) (key : string) : Json :=
  match v with JObject fs => default JNull (field key fs) | _ => JNull end.

Definition as_str (v : Json) : option string := match v with JString s => Some s | _ => None end.
Definition as_bool (v : Json) : option bool := match v with JBool b => Some b | _ => None end.
Definition as_array (v : Json) : option (list Json) := match v with JArray l => Some l | _ => None end.
Definition is_null (v : Json) : bool := match v with JNull => true | _ => false end.

(** [str::parse] of an unsigned type whose maximum is [max], less the leading
    [+] it allows: decimal digits, at least one, no overflow. *)
Definition parse_digits (max : Z) (s : string) : option Z :=
  if negb (Str.is_empty s) && all Str.is_ascii_digit (Str.bytes s) && (Str.value s <=? max)
  then Some (Str.value s) else None.

Definition parse_uint (max : Z) (s : string) : option Z :=
  match s with
  | String "+" rest => parse_digits max rest
  | _ => parse_digits max s
  end.

(** [as_u64]: an integer's text; one with a point, an exponent or a sign is
    not. *)
Definition as_u64 (v : Json) : option Z :=
  match v with JNumber text => parse_digits U64_MAX text | _ => None end.

Definition str_or (d : string) (v : Json) : string := default d (as_str v).
Definition array_or_empty (v : Json) : list Json := default [] (as_array v).

(** [json!(n)] of an unsigned integer, [json!(s)] of a list of strings. *)
Definition num (n : Z) : Json := JNumber (Str.decimal n).
Definition strings (l : list string) : Json := JArray (map JString l).

(** [body[key] = v] on an object. *)
Definition put (k : string) (v : Json) (fs : Fields) : Fields :=
  match field k fs with Some _ => set_field k v fs | None => append_field k v fs end.

Definition put_if (c : bool) (k : string) (v : Json) (fs : Fields) : Fields :=
  if c then put k v fs else fs.

Definition put_some {A} (o : option A) (k : string) (f : A → Json) (fs : Fields) : Fields :=
  match o with Some a => put k (f a) fs | None => fs end.

(** [if !l.is_empty() { body[key] = v }]. *)
Definition put_nonempty {A} (l : list A) (k : string) (v : Json) (fs : Fields) : Fields :=
  match l with [] => fs | _ => put k v fs end.

(** ** Lemmas *)

Lemma field_put k k' v fs : field k (put k' v fs) = if Str.eqb k' k then Some v else field k fs.
Proof.
  unfold put. destruct (field k' fs) eqn:E.
  - rewrite Canonical.field_set. destruct (Str.eqb k' k) eqn:Ek; [|done].
    apply Str.str_eqb_eq in Ek as ->. by rewrite E.
  - rewrite Canonical.field_append. destruct (Str.eqb k' k) eqn:Ek; [|by destruct (field k fs)].
    apply Str.str_eqb_eq in Ek as ->. by rewrite E.
Qed.

Lemma field_put_if c k k' v fs :
  field k (put_if c k' v fs) = if c && Str.eqb k' k then Some v else field k fs.
Proof. destruct c; [apply field_put|done]. Qed.

Lemma field_put_some {A} (o : option A) k k' f fs :
  field k (put_some o k' f fs) =
  if Str.eqb k' k then match o with Some a => Some (f a) | None => field k fs end else field k fs.
Proof. destruct o; cbn; [apply field_put|by destruct (Str.eqb k' k)]. Qed.

Lemma field_put_nonempty {A} (l : list A) k k' v fs :
  field k (put_nonempty l k' v fs) =
  if Str.eqb k' k then match l with [] => field k fs | _ => Some v end else field k fs.
Proof. destruct l; cbn; [by destruct (Str.eqb k' k)|apply field_put]. Qed.

Lemma parse_decimal max n : 0 ≤ n ≤ U64_MAX → n ≤ max → parse_digits max (Str.decimal n) = Some n.
Proof.
  intros Hn Hmax. destruct (Str.decimal_fuel_spec 19 n (Str.u64_digits n Hn)) as (Hv & Hd & Hl).
  unfold parse_digits. change (Str.decimal n) with (Str.decimal_fuel 20 n). rewrite Hv.
  rewrite (proj2 (Z.leb_le _ _) Hmax).
  assert (all Str.is_ascii_digit (Str.bytes (Str.decimal_fuel 20 n)) = true) as ->
    by (apply all_true; exact Hd).
  destruct (Str.decimal_fuel 20 n); [cbn in Hl; lia|done].
Qed.

Lemma as_u64_num n : 0 ≤ n ≤ U64_MAX → as_u64 (num n) = Some n.
Proof. intros H. apply parse_decimal; lia. Qed.

Lemma map_filter_map {A B C} (f : A → option B) (g : C → A) l :
  filter_map f (map g l) = filter_map (fun x => f (g x)) l.
Proof. induction l as [|x l IH]; cbn; [done|]. by rewrite IH. Qed.

Lemma filter_map_all {A B} (f : A → option B) (g : B → A) l :
  (∀ x, In x l → f (g x) = Some x) → filter_map f (map g l) = l.
Proof.
  induction l as [|x l IH]; intros H; cbn; [done|].
  rewrite H by by left. f_equal. apply IH. intros y Hy. apply H. by right.
Qed.

(** Induction on a value through its elements and fields. *)
Section induction.
Context (P : Json → Prop).
Context (Hnull : P JNull) (Hbool : ∀ b, P (JBool b)) (Hnumber : ∀ t, P (JNumber t)).
Context (Hstring : ∀ s, P (JString s)) (Harray : ∀ l, Forall P l → P (JArray l)).
Context (Hobject : ∀ fs : Fields, Forall (fun f => P f.2) fs → P (JObject fs)).

Fixpoint json_induction (v : Json) : P v :=
  match v with
  | JNull => Hnull
  | JBool b => Hbool b
  | JNumber t => Hnumber t
  | JString s => Hstring s
  | JArray l =>
      Harray l ((fix each l : Forall P l :=
        match l with
        | [] => @List.Forall_nil _ P
        | v :: l => @List.Forall_cons _ P v l (json_induction v) (each l)
        end) l)
  | JObject fs =>
      Hobject fs ((fix each fs : Forall (fun f : string * Json => P f.2) fs :=
        match fs with
        | [] => @List.Forall_nil _ _
        | f :: fs => @List.Forall_cons _ (fun f : string * Json => P f.2) f fs
            (match f with (k, v) => json_induction v end) (each fs)
        end) fs)
  end.
End induction.

(** A text for every value, which parses back: the witnesses' instance of the
    package's printer and parser.  It is one-to-one and is not JSON. *)
Fixpoint json_tree (v : Json) : gen_tree string :=
  match v with
  | JNull => GenNode 0 []
  | JBool true => GenNode 1 []
  | JBool false => GenNode 2 []
  | JNumber t => GenNode 3 [GenLeaf t]
  | JString s => GenNode 4 [GenLeaf s]
  | JArray l => GenNode 5 (map json_tree l)
  | JObject fs =>
      GenNode 6 ((fix each (fs : Fields) :=
        match fs with [] => [] | (k, v) :: fs => GenLeaf k :: json_tree v :: each fs end) fs)
  end.

Fixpoint tree_json (t : gen_tree string) : Json :=
  match t with
  | GenNode 1 [] => JBool true
  | GenNode 2 [] => JBool false
  | GenNode 3 [GenLeaf t] => JNumber t
  | GenNode 4 [GenLeaf s] => JString s
  | GenNode 5 l => JArray (map tree_json l)
  | GenNode 6 l =>
      JObject ((fix each l : Fields :=
        match l with
        | GenLeaf k :: t :: l => (k, tree_json t) :: each l
        | _ => []
        end) l)
  | _ => JNull
  end.

Lemma tree_back v : tree_json (json_tree v) = v.
Proof.
  induction v as [|[]|t|s|l IH|fs IH] using json_induction; try done; cbn; f_equal.
  - induction IH as [|v l Hv _ IH]; [done|]. cbn. by rewrite Hv, IH.
  - induction IH as [|[k v] fs Hv _ IH]; [done|]. cbn in *. by rewrite Hv, IH.
Qed.

Fixpoint binary (p : positive) : string :=
  match p with
  | xH => "}"
  | xO p => String "0" (binary p)
  | xI p => String "1" (binary p)
  end.

Fixpoint from_binary (s : string) : option positive :=
  match s with
  | "}" => Some xH
  | String "0" s => xO <$> from_binary s
  | String "1" s => xI <$> from_binary s
  | _ => None
  end.

Lemma binary_back p : from_binary (binary p) = Some p.
Proof. induction p; cbn; by rewrite ?IHp. Qed.

Definition a_printer (v : Json) : string := String "{" (binary (encode (json_tree v))).
Definition a_parser (s : string) : option Json :=
  match s with
  | String "{" s => match from_binary s with Some p => tree_json <$> decode p | None => None end
  | _ => None
  end.

Lemma a_printer_parses v : a_parser (a_printer v) = Some v.
Proof. unfold a_parser, a_printer. rewrite binary_back, decode_encode. cbn. by rewrite tree_back. Qed.

Lemma strings_back l : filter_map as_str (map JString l) = l.
Proof. apply filter_map_all. done. Qed.

End Wire.
