(* ===== verification/Names.v ===== *)
(** * Names on the wire

    [crates/oag-proto/src/function_names.rs] and the [ToolUseIds] of
    [crates/oag-proto/src/converse.rs]: function names and tool-call ids an
    upstream would refuse are respelled for one request, and put back on the
    answer.  A [HashSet] or [HashMap] is a finite set or map; where the source
    walks one, the order is that of the model's list of its entries. *)

From Stdlib Require Import Ascii.
From stdpp Require Import sorting.
From S2P Require Import Prelude Text Money Domain Efforts Catalog Classify Canonical.
#[local] Open Scope string_scope.
#[local] Open Scope oag_scope.
#[local] Open Scope list_scope.
#[local] Open Scope Z_scope.

Module Names.

Definition OPENAI_FUNCTION_NAME_MAX : Z := 64.
Definition FALLBACK : string := "tool".

Definition legal_byte (c : ascii) : bool :=
  Str.is_ascii_alphanumeric c || Ascii.eqb c "_" || Ascii.eqb c "-".

Definition is_legal_openai_function_name (name : string) : bool :=
  (1 <=? Str.len name) && (Str.len name <=? OPENAI_FUNCTION_NAME_MAX)
  && all legal_byte (Str.bytes name).

Definition truncate_ascii (s : string) (max : Z) : string :=
  if Str.len s <=? max then s else Str.take (Z.to_nat max) s.

(** One byte of [sanitize_openai_function_name]'s loop. *)
Definition sanitize_byte (out : string) (b : ascii) : string :=
  if legal_byte b then Str.push out b
  else if negb (Str.ends_with_char out "_") then Str.push out "_" else out.

Definition sanitize_openai_function_name (name : string) : string :=
  let out := fold_left sanitize_byte (Str.bytes name) EmptyString in
  let trimmed := Str.trim_matches out "_" in
  let stem := if Str.is_empty trimmed then FALLBACK else trimmed in
  truncate_ascii stem OPENAI_FUNCTION_NAME_MAX.

(** The [n]-th spelling [uniquify] tries. *)
Definition candidate (base : string) (n : Z) : string :=
  let suffix := "_" +:+ Str.decimal n in
  let stem_len := sat_sub OPENAI_FUNCTION_NAME_MAX (Str.len suffix) in
  let stem := if stem_len =? 0 then EmptyString else truncate_ascii base stem_len in
  let candidate := stem +:+ suffix in
  let candidate :=
    if OPENAI_FUNCTION_NAME_MAX <? Str.len candidate
    then Str.take (Z.to_nat OPENAI_FUNCTION_NAME_MAX) candidate else candidate in
  if Str.is_empty candidate then FALLBACK else candidate.

Fixpoint uniquify_loop (fuel : nat) (base : string) (used : gset string) (n : Z) : option string :=
  match fuel with
  | O => None
  | S fuel =>
      let c := candidate base n in
      if negb (bool_decide (c ∈ used)) then Some c
      else if n =? U64_MAX then Some c
      else uniquify_loop fuel base used (sat_add U64_MAX n 1)
  end.

(** [uniquify]; the loop runs at most once more than the names in use. *)
Definition uniquify (base : string) (used : gset string) : string :=
  let stem := truncate_ascii base OPENAI_FUNCTION_NAME_MAX in
  let base := if Str.is_empty stem then FALLBACK else stem in
  if negb (bool_decide (base ∈ used)) then base
  else default base (uniquify_loop (S (size used)) base used 2).

(** ** Tool-call ids *)

Record ToolUseIds : Type := {
  id_to_wire : gmap string string;
  id_from_wire : gmap string string
}.

Definition no_ids : ToolUseIds := {| id_to_wire := ∅; id_from_wire := ∅ |}.

Definition TOOL_USE_ID_MAX : Z := 64.

Definition tool_use_id_byte (c : ascii) : bool :=
  Str.is_ascii_alphanumeric c || any (Ascii.eqb c) ["_"; "."; ":"; "-"]%char.

(** The bytes [ToolUseIds::for_anthropic] keeps. *)
Definition anthropic_id_byte (c : ascii) : bool :=
  Str.is_ascii_alphanumeric c || any (Ascii.eqb c) ["_"; "-"]%char.

Definition FNV_OFFSET : Z := 14695981039346656037.
Definition FNV_PRIME : Z := 1099511628211.

Definition fnv_step (hash b : Z) : Z := (Z.lxor hash b * FNV_PRIME) mod (U64_MAX + 1).

(** [salt.to_le_bytes()]. *)
Definition le_bytes (salt : Z) : list Z :=
  map (fun i => Z.land (Z.shiftr salt (8 * i)) 255) [0; 1; 2; 3; 4; 5; 6; 7].

Definition fnv1a (bytes : list ascii) (salt : Z) : Z :=
  fold_left fnv_step (map Str.code bytes ++ le_bytes salt) FNV_OFFSET.

Definition hex_digit (d : Z) : ascii := ascii_of_N (Z.to_N (if d <? 10 then 48 + d else 87 + d)).

(** [{:0kx}] of a number below 16 to the [k]. *)
Fixpoint hex (k : nat) (h : Z) : string :=
  match k with
  | O => EmptyString
  | S k => Str.push (hex k (h / 16)) (hex_digit (h mod 16))
  end.

Definition spelled (ok : ascii → bool) (s : string) : bool :=
  (1 <=? Str.len s) && (Str.len s <=? TOOL_USE_ID_MAX) && all ok (Str.bytes s).

Definition respell_tool_use_id (id : string) (taken : gset string) (ok : ascii → bool) : string :=
  let plain := Str.of_bytes (map (fun b => if ok b then b else "_"%char) (Str.bytes id)) in
  if (1 <=? Str.len plain) && (Str.len plain <=? TOOL_USE_ID_MAX) && negb (bool_decide (plain ∈ taken))
  then plain
  else
    let stem := Str.take (Z.to_nat (Z.min (Str.len plain) (TOOL_USE_ID_MAX - 17))) plain in
    default id
      (find (fun candidate => negb (bool_decide (candidate ∈ taken)))
        (map (fun salt => stem +:+ "_" +:+ hex 16 (fnv1a (Str.bytes id) salt))
          (seqZ 0 (Z.of_nat (size taken) + 1)))).

(** [seen.insert(x)] deciding whether [x] is pushed. *)
Fixpoint first_seen (l : list string) (seen : gset string) : list string :=
  match l with
  | [] => []
  | x :: l =>
      if bool_decide (x ∈ seen) then first_seen l seen else x :: first_seen l ({[ x ]} ∪ seen)
  end.

(** The loop of [from_request_by] over the ids the wire would refuse. *)
Fixpoint respell_all (ok : ascii → bool) (ids : list string) (taken : gset string) (m : ToolUseIds)
    : ToolUseIds :=
  match ids with
  | [] => m
  | id :: ids =>
      let wire := respell_tool_use_id id taken ok in
      respell_all ok ids ({[ wire ]} ∪ taken)
        {| id_to_wire := <[ id := wire ]> (id_to_wire m);
           id_from_wire := <[ wire := id ]> (id_from_wire m) |}
  end.

Definition block_id (b : ContentBlock) : option string :=
  match b with
  | BToolUse id _ _ => Some id
  | BToolResult id _ _ => Some id
  | _ => None
  end.

(** The ids a request's history uses, each once. *)
Definition history_ids (r : CanonicalRequest) : list string :=
  first_seen (filter_map block_id (mjoin (map content (messages r)))) ∅.

Definition ids_from_request_by (r : CanonicalRequest) (ok : ascii → bool) : ToolUseIds :=
  let ids := history_ids r in
  let taken := list_to_set (keep (spelled ok) ids) in
  respell_all ok (keep (fun id => negb (spelled ok id)) ids) taken no_ids.

Definition ids_from_request (r : CanonicalRequest) := ids_from_request_by r tool_use_id_byte.
Definition ids_for_anthropic (r : CanonicalRequest) := ids_from_request_by r anthropic_id_byte.

Definition id_wire (m : ToolUseIds) (id : string) : string := default id (id_to_wire m !! id).
Definition id_original (m : ToolUseIds) (wire : string) : string :=
  default wire (id_from_wire m !! wire).

(** ** The map of one request's function names *)

Record FunctionNameMap : Type := {
  to_wire : gmap string string;
  from_wire : gmap string string;
  tool_use_ids : ToolUseIds
}.

Definition identity : FunctionNameMap :=
  {| to_wire := ∅; from_wire := ∅; tool_use_ids := no_ids |}.

(** The first loop of [from_originals]: legal names keep their seat. *)
Fixpoint seat_legal (originals : list string) (used : gset string) (tw : gmap string string)
    : gset string * gmap string string :=
  match originals with
  | [] => (used, tw)
  | name :: originals =>
      if is_legal_openai_function_name name && negb (bool_decide (name ∈ used))
      then seat_legal originals ({[ name ]} ∪ used) (<[ name := name ]> tw)
      else seat_legal originals used tw
  end.

(** The second: every other name is sanitised and made unique. *)
Fixpoint seat_rest (originals : list string) (used : gset string) (tw : gmap string string)
    : gset string * gmap string string :=
  match originals with
  | [] => (used, tw)
  | name :: originals =>
      match tw !! name with
      | Some _ => seat_rest originals used tw
      | None =>
          let wire := uniquify (sanitize_openai_function_name name) used in
          seat_rest originals ({[ wire ]} ∪ used) (<[ name := wire ]> tw)
      end
  end.

Definition invert (tw : gmap string string) : gmap string string :=
  fold_left (fun m (ow : string * string) => <[ ow.2 := ow.1 ]> m) (map_to_list tw) ∅.

Definition from_originals (originals : list string) : FunctionNameMap :=
  let '(used, tw) := seat_legal originals ∅ ∅ in
  let '(used, tw) := seat_rest originals used tw in
  {| to_wire := tw; from_wire := invert tw; tool_use_ids := no_ids |}.

Definition block_function (b : ContentBlock) : option string :=
  match b with BToolUse _ name _ => Some name | _ => None end.

(** [FunctionNameMap::from_request]. *)
Definition from_request (r : CanonicalRequest) : FunctionNameMap :=
  from_originals (first_seen
    (map tool_name (req_tools r) ++
     match tool_choice r with Some (ChoiceTool name) => [name] | _ => [] end ++
     filter_map block_function (mjoin (map content (messages r)))) ∅).

Definition wire (m : FunctionNameMap) (original : string) : string :=
  default original (to_wire m !! original).

Definition original (m : FunctionNameMap) (wire : string) : string :=
  default wire (from_wire m !! wire).

Definition with_tool_use_ids (m : FunctionNameMap) (ids : ToolUseIds) : FunctionNameMap :=
  {| to_wire := to_wire m; from_wire := from_wire m; tool_use_ids := ids |}.

Definition original_tool_use_id (m : FunctionNameMap) (wire : string) : string :=
  id_original (tool_use_ids m) wire.

Definition rewrites (m : FunctionNameMap) : bool :=
  any (fun kv : string * string => negb (Str.eqb kv.1 kv.2)) (map_to_list (to_wire m)).

Definition pair_le (a b : string * string) : Prop :=
  (if Str.eqb a.1 b.1 then str_leb a.2 b.2 else str_leb a.1 b.1) = true.

#[export] Instance pair_le_dec a b : Decision (pair_le a b).
Proof. unfold pair_le. apply _. Defined.

Definition rewritten (m : FunctionNameMap) : list (string * string) :=
  merge_sort pair_le
    (keep (fun kv : string * string => negb (Str.eqb kv.1 kv.2)) (map_to_list (to_wire m))).

(** ** Legal spellings *)

Lemma legal_spec s :
  is_legal_openai_function_name s = true ↔
  1 ≤ Str.len s ≤ 64 ∧ ∀ c, In c (Str.bytes s) → legal_byte c = true.
Proof.
  unfold is_legal_openai_function_name, OPENAI_FUNCTION_NAME_MAX.
  rewrite !andb_true_iff, !Z.leb_le, all_true. tauto.
Qed.

Lemma truncate_spec s max :
  0 ≤ max → Str.len (truncate_ascii s max) = Z.min (Str.len s) max ∧
  ∀ c, In c (Str.bytes (truncate_ascii s max)) → In c (Str.bytes s).
Proof.
  intros Hm. unfold truncate_ascii. destruct (Z.leb_spec (Str.len s) max).
  - split; [lia|done].
  - rewrite Str.len_take. split; [lia|]. intros c. apply Str.take_In.
Qed.

Lemma digit_legal c : Str.is_ascii_digit c = true → legal_byte c = true.
Proof.
  intros H. unfold legal_byte, Str.is_ascii_alphanumeric. rewrite H. by rewrite !orb_true_r.
Qed.

Lemma decimal_no_underscore n : 0 ≤ n ≤ U64_MAX → ¬ In "_"%char (Str.bytes (Str.decimal n)).
Proof. intros Hn Hin. by apply Str.decimal_digits in Hin. Qed.

Lemma candidate_eq base n :
  2 ≤ n ≤ U64_MAX →
  ∃ stem, candidate base n = stem +:+ String "_" (Str.decimal n) ∧
    stem = truncate_ascii base (63 - Str.len (Str.decimal n)).
Proof.
  intros Hn. pose proof (Str.decimal_length n ltac:(lia)) as Hd. unfold candidate.
  assert (Str.len ("_" +:+ Str.decimal n) = 1 + Str.len (Str.decimal n)) as ->.
  { by rewrite Str.len_append. }
  unfold sat_sub, OPENAI_FUNCTION_NAME_MAX.
  destruct (Z.eqb_spec (0 `max` (64 - (1 + Str.len (Str.decimal n)))) 0); [lia|].
  replace (0 `max` (64 - (1 + Str.len (Str.decimal n)))) with (63 - Str.len (Str.decimal n)) by lia.
  set (stem := truncate_ascii base (63 - Str.len (Str.decimal n))).
  assert (Str.len stem ≤ 63 - Str.len (Str.decimal n)) as Hstem.
  { unfold stem. rewrite (proj1 (truncate_spec base (63 - Str.len (Str.decimal n)) ltac:(lia))). lia. }
  assert (Str.len (stem +:+ "_" +:+ Str.decimal n) = Str.len stem + (1 + Str.len (Str.decimal n))) as Hl.
  { by rewrite !Str.len_append. }
  destruct (Z.ltb_spec 64 (Str.len (stem +:+ "_" +:+ Str.decimal n))); [lia|].
  exists stem. split; [|done].
  assert (Str.is_empty (stem +:+ "_" +:+ Str.decimal n) = false) as ->; [|done].
  apply not_true_iff_false. intros Hnil%Str.is_empty_true.
  pose proof (Str.len_nonneg stem). rewrite Hnil in Hl. change (Str.len "") with 0 in Hl. lia.
Qed.

Lemma candidate_inj base n m :
  2 ≤ n ≤ U64_MAX → 2 ≤ m ≤ U64_MAX → candidate base n = candidate base m → n = m.
Proof.
  intros Hn Hm. destruct (candidate_eq base n Hn) as (a & -> & _).
  destruct (candidate_eq base m Hm) as (b & -> & _). intros H.
  assert (Str.rsplit_once (a +:+ String "_" (Str.decimal n)) "_" = Some (a, Str.decimal n)) as Ha.
  { apply Str.rsplit_once_Some. split; [done|]. apply decimal_no_underscore. lia. }
  rewrite H in Ha. apply Str.rsplit_once_Some in Ha as [Ha Hno].
  assert (Str.rsplit_once (b +:+ String "_" (Str.decimal m)) "_" = Some (b, Str.decimal m)) as Hb.
  { apply Str.rsplit_once_Some. split; [done|]. apply decimal_no_underscore. lia. }
  rewrite Ha in Hb. rewrite (proj2 (Str.rsplit_once_Some _ _ a (Str.decimal n))) in Hb by done.
  apply Str.decimal_inj; [lia|lia|congruence].
Qed.

Lemma candidate_legal base n :
  2 ≤ n ≤ U64_MAX → (∀ c, In c (Str.bytes base) → legal_byte c = true) →
  is_legal_openai_function_name (candidate base n) = true.
Proof.
  intros Hn Hb. pose proof (Str.decimal_length n ltac:(lia)) as Hd.
  destruct (candidate_eq base n Hn) as (stem & -> & ->).
  destruct (truncate_spec base (63 - Str.len (Str.decimal n)) ltac:(lia)) as [Hl Hin].
  apply legal_spec. split.
  - change (String "_" (Str.decimal n)) with ("_" +:+ Str.decimal n).
    rewrite !Str.len_append, Hl. change (Str.len "_") with 1.
    pose proof (Str.len_nonneg base). lia.
  - intros c. rewrite Str.bytes_app, in_app_iff. intros [Hc|[<-|Hc]]; [by apply Hb, Hin|done|].
    apply digit_legal. apply (Str.decimal_digits n); [lia|done].
Qed.

(** The loop of [uniquify] ends on a free spelling. *)
Lemma uniquify_loop_spec k base used n :
  2 ≤ n → n + Z.of_nat k ≤ U64_MAX →
  (∃ i, (i ≤ k)%nat ∧ candidate base (n + Z.of_nat i) ∉ used) →
  ∃ m, n ≤ m ≤ n + Z.of_nat k ∧ uniquify_loop (S k) base used n = Some (candidate base m) ∧
    candidate base m ∉ used.
Proof.
  revert n; induction k as [|k IH]; intros n Hn Hk (i & Hi & Hfree); cbn [uniquify_loop].
  - exists n. replace i with 0%nat in Hfree by lia. rewrite Z.add_0_r in Hfree.
    rewrite bool_decide_eq_false_2 by done. split_and!; [lia|lia|done|done].
  - destruct (bool_decide (candidate base n ∈ used)) eqn:E; simpl.
    2: { apply bool_decide_eq_false in E. exists n. split_and!; [lia|lia|done|done]. }
    apply bool_decide_eq_true in E. destruct (Z.eqb_spec n U64_MAX); [lia|].
    rewrite sat_add_exact by lia. destruct i as [|i].
    { by rewrite Z.add_0_r in Hfree. }
    destruct (IH (n + 1)) as (m & Hm & Hloop & Hno); [lia|lia| |].
    { exists i. split; [lia|]. by replace (n + 1 + Z.of_nat i) with (n + Z.of_nat (S i)) by lia. }
    exists m. split; [lia|]. by rewrite <-Hloop.
Qed.

Lemma uniquify_spec base used :
  (∀ c, In c (Str.bytes base) → legal_byte c = true) →
  Z.of_nat (size used) + 2 ≤ U64_MAX →
  (uniquify base used ∉ used) ∧ is_legal_openai_function_name (uniquify base used) = true.
Proof.
  intros Hb Hsize. unfold uniquify.
  destruct (truncate_spec base OPENAI_FUNCTION_NAME_MAX ltac:(done)) as [Hl Hin].
  set (stem := if Str.is_empty _ then FALLBACK else _).
  assert (is_legal_openai_function_name stem = true) as Hstem.
  { unfold stem. destruct (Str.is_empty _) eqn:E; [done|]. apply legal_spec. split.
    - assert (Str.len (truncate_ascii base OPENAI_FUNCTION_NAME_MAX) ≠ 0) as Hne.
      { intros H. apply not_true_iff_false in E. apply E, Str.is_empty_true.
        by destruct (truncate_ascii _ _). }
      pose proof (Str.len_nonneg base). unfold OPENAI_FUNCTION_NAME_MAX in *. lia.
    - intros c Hc. auto. }
  destruct (bool_decide (stem ∈ used)) eqn:E; cbn [negb].
  2: { by apply bool_decide_eq_false in E. }
  destruct (free_spelling (fun i => candidate stem (2 + Z.of_nat i)) used) as (i & Hi & Hf).
  { intros i j Hi Hj H. apply candidate_inj in H; lia. }
  destruct (uniquify_loop_spec (size used) stem used 2) as (m & Hm & Hloop & Hno); [lia|lia|eauto|].
  rewrite Hloop. cbn [from_option Datatypes.id]. split; [done|].
  apply candidate_legal; [lia|]. by apply legal_spec in Hstem as [_ ?].
Qed.

(** ** Sanitising *)

Lemma drop_char_In c l x : In x (Str.drop_char c l) → In x l.
Proof.
  induction l as [|d l IH]; simpl; [done|]. destruct (Ascii.eqb d c); [auto|]. done.
Qed.

Lemma trim_matches_In s c x : In x (Str.bytes (Str.trim_matches s c)) → In x (Str.bytes s).
Proof.
  unfold Str.trim_matches. rewrite Str.bytes_of_bytes, <-in_rev.
  intros H%drop_char_In. rewrite <-in_rev in H. by apply drop_char_In in H.
Qed.

Lemma sanitize_fold l out :
  (∀ c, In c (Str.bytes out) → legal_byte c = true) →
  ∀ c, In c (Str.bytes (fold_left sanitize_byte l out)) → legal_byte c = true.
Proof.
  revert out; induction l as [|b l IH]; intros out Hout; [done|]. apply IH.
  unfold sanitize_byte, Str.push. destruct (legal_byte b) eqn:E.
  - intros c. rewrite Str.bytes_app, in_app_iff. intros [Hc|[<-|[]]]; auto.
  - destruct (negb _); [|done]. intros c. rewrite Str.bytes_app, in_app_iff.
    intros [Hc|[<-|[]]]; auto.
Qed.

Lemma sanitize_legal name :
  is_legal_openai_function_name (sanitize_openai_function_name name) = true.
Proof.
  unfold sanitize_openai_function_name.
  set (trimmed := Str.trim_matches _ _).
  assert (∀ c, In c (Str.bytes trimmed) → legal_byte c = true) as Ht.
  { intros c Hc%trim_matches_In. revert Hc. by apply sanitize_fold. }
  destruct (Str.is_empty trimmed) eqn:E; [done|].
  destruct (truncate_spec trimmed OPENAI_FUNCTION_NAME_MAX ltac:(done)) as [Hl Hin].
  apply legal_spec. rewrite Hl. split; [|auto].
  assert (Str.len trimmed ≠ 0).
  { intros H. apply not_true_iff_false in E. apply E, Str.is_empty_true. by destruct trimmed. }
  pose proof (Str.len_nonneg trimmed). unfold OPENAI_FUNCTION_NAME_MAX. lia.
Qed.

(** ** Seats *)

(** What both loops keep: wires are legal, used, and one original's. *)
Record seats_ok (used : gset string) (tw : gmap string string) : Prop := {
  seats_legal o w : tw !! o = Some w → is_legal_openai_function_name w = true ∧ w ∈ used;
  seats_inj o o' w : tw !! o = Some w → tw !! o' = Some w → o = o'
}.

Lemma size_add (x : string) (used : gset string) :
  x ∉ used → size ({[ x ]} ∪ used) = S (size used).
Proof. intros Hx. rewrite size_union, size_singleton by set_solver. done. Qed.

Lemma seats_insert used tw o w :
  seats_ok used tw → tw !! o = None → w ∉ used → is_legal_openai_function_name w = true →
  seats_ok ({[ w ]} ∪ used) (<[ o := w ]> tw).
Proof.
  intros [Hl Hi] Ho Hw Hleg. split.
  - intros o' w' [[<- <-]|[Hne H]]%lookup_insert_Some; [set_solver|].
    apply Hl in H as [? ?]. set_solver.
  - intros o1 o2 w' [[<- <-]|[H1 E1]]%lookup_insert_Some [[<- E]|[H2 E2]]%lookup_insert_Some;
      try done.
    + apply Hl in E2 as [_ ?]. done.
    + subst. apply Hl in E1 as [_ ?]. done.
    + by eapply Hi.
Qed.

Lemma seat_legal_spec l used tw :
  seats_ok used tw → (∀ o, o ∈ used → tw !! o = Some o) →
  (∀ o w, tw !! o = Some w → w = o) →
  let '(used', tw') := seat_legal l used tw in
  seats_ok used' tw' ∧
  (∀ o w, tw' !! o = Some w → w = o) ∧
  (∀ o, In o l → is_legal_openai_function_name o = true → tw' !! o = Some o) ∧
  (∀ o w, tw !! o = Some w → tw' !! o = Some w) ∧
  (size used' ≤ size used + length l)%nat.
Proof.
  revert used tw; induction l as [|n l IH]; intros used tw Hok Hused Hid; simpl.
  { split_and!; [done|done|done|done|lia]. }
  destruct (is_legal_openai_function_name n) eqn:Hn; simpl.
  2: { specialize (IH used tw Hok Hused Hid). destruct (seat_legal l used tw) as [u' t'].
       destruct IH as (H1 & H2 & H3 & H4 & H5). split_and!; [done|done| |done|lia].
       intros o [<-|Ho] Hleg; [congruence|auto]. }
  destruct (bool_decide (n ∈ used)) eqn:E; simpl.
  - apply bool_decide_eq_true in E. specialize (IH used tw Hok Hused Hid).
    destruct (seat_legal l used tw) as [u' t'].
    destruct IH as (H1 & H2 & H3 & H4 & H5). split_and!; [done|done| |done|lia].
    intros o [<-|Ho] Hleg; auto.
  - apply bool_decide_eq_false in E.
    assert (tw !! n = None) as Hnone.
    { destruct (tw !! n) as [w|] eqn:Ew; [|done]. pose proof (Hid n w Ew) as ->.
      by apply (seats_legal used tw Hok) in Ew as [_ ?]. }
    specialize (IH ({[ n ]} ∪ used) (<[ n := n ]> tw)).
    destruct (seat_legal l _ _) as [u' t']. destruct IH as (H1 & H2 & H3 & H4 & H5).
    + by apply seats_insert.
    + intros o [->%elem_of_singleton|Ho]%elem_of_union; [by rewrite lookup_insert_eq|].
      rewrite lookup_insert_ne; [auto|]. intros ->. done.
    + intros o w [[<- <-]|[_ H]]%lookup_insert_Some; [done|by apply Hid].
    + rewrite size_add in H5 by done. split_and!; [done|done| | |lia].
      * intros o [<-|Ho] Hleg; [|auto]. apply H4. by rewrite lookup_insert_eq.
      * intros o w Hw. apply H4. rewrite lookup_insert_ne; [done|]. intros ->. congruence.
Qed.

Lemma seat_rest_spec l used tw :
  seats_ok used tw → Z.of_nat (size used) + Z.of_nat (length l) + 2 ≤ U64_MAX →
  let '(used', tw') := seat_rest l used tw in
  seats_ok used' tw' ∧ (∀ o, In o l → is_Some (tw' !! o)) ∧
  (∀ o w, tw !! o = Some w → tw' !! o = Some w).
Proof.
  revert used tw; induction l as [|n l IH]; intros used tw Hok Hsize.
  { simpl. split_and!; done. }
  cbn [seat_rest]. cbn [length] in Hsize. destruct (tw !! n) as [w|] eqn:E.
  - specialize (IH used tw Hok). destruct (seat_rest l used tw) as [u' t'].
    destruct IH as (H1 & H2 & H3); [lia|]. split_and!; [done| |done].
    intros o [<-|Ho]; eauto.
  - set (wire := uniquify (sanitize_openai_function_name n) used).
    destruct (uniquify_spec (sanitize_openai_function_name n) used) as [Hfree Hleg].
    { by apply legal_spec, sanitize_legal. }
    { lia. }
    fold wire in Hfree, Hleg.
    specialize (IH ({[ wire ]} ∪ used) (<[ n := wire ]> tw)).
    destruct (seat_rest l _ _) as [u' t']. destruct IH as (H1 & H2 & H3).
    + by apply seats_insert.
    + rewrite size_add by done. lia.
    + split_and!; [done| |].
      * intros o [<-|Ho]; [|auto]. exists wire. apply H3. by rewrite lookup_insert_eq.
      * intros o w Hw. apply H3. rewrite lookup_insert_ne; [done|]. intros ->. congruence.
Qed.

Lemma invert_spec (tw : gmap string string) o w :
  (∀ o o' w, tw !! o = Some w → tw !! o' = Some w → o = o') →
  tw !! o = Some w → invert tw !! w = Some o.
Proof.
  intros Hinj Hw. unfold invert.
  assert (∀ l (m : gmap string string), (∀ o', In (o', w) l → o' = o) →
    In (o, w) l ∨ m !! w = Some o →
    fold_left (fun m (ow : string * string) => <[ ow.2 := ow.1 ]> m) l m !! w = Some o) as Hgen.
  { induction l as [|[o1 w1] l IH]; intros m Hl Hor; simpl; [by destruct Hor|].
    apply IH; [intros o' Ho'; apply Hl; by right|].
    destruct (decide (w1 = w)) as [->|Hne].
    - right. rewrite lookup_insert_eq. f_equal. apply Hl. by left.
    - destruct Hor as [[[= -> ->]|Hin]|Hm]; [done|by left|right].
      by rewrite lookup_insert_ne. }
  apply Hgen.
  - intros o' Hin. apply (Hinj o' o w); [|done]. by apply elem_of_map_to_list, list_elem_of_In.
  - left. by apply list_elem_of_In, elem_of_map_to_list.
Qed.

Lemma first_seen_spec l seen :
  NoDup (first_seen l seen) ∧ ∀ x, In x (first_seen l seen) ↔ In x l ∧ x ∉ seen.
Proof.
  revert seen; induction l as [|y l IH]; intros seen; simpl; [split; [constructor|naive_solver]|].
  destruct (bool_decide (y ∈ seen)) eqn:E.
  - apply bool_decide_eq_true in E. destruct (IH seen) as [H1 H2]. split; [done|].
    intros x. rewrite H2. split; [tauto|]. intros [[<-|?] ?]; done.
  - apply bool_decide_eq_false in E. destruct (IH ({[ y ]} ∪ seen)) as [H1 H2]. split.
    + apply NoDup_cons. split; [|done]. rewrite list_elem_of_In, H2. set_solver.
    + intros x. cbn [In]. rewrite H2. destruct (decide (y = x)) as [->|Hne]; [tauto|].
      assert (x ∉ {[ y ]} ∪ seen ↔ x ∉ seen) as -> by set_solver. naive_solver.
Qed.

(** What [from_originals] promises of each of the originals. *)
Lemma seats_back originals :
  Z.of_nat (length originals) < 2 ^ 62 →
  let m := from_originals originals in
  (∀ o, In o originals →
    is_legal_openai_function_name (wire m o) = true ∧
    original m (wire m o) = o ∧
    (is_legal_openai_function_name o = true → wire m o = o)) ∧
  ∀ o o', In o originals → In o' originals → wire m o = wire m o' → o = o'.
Proof.
  intros Hlen m.
  pose proof (seat_legal_spec originals ∅ ∅) as H1. unfold m, from_originals.
  destruct (seat_legal originals ∅ ∅) as [u1 t1].
  destruct H1 as (Hok1 & _ & Hleg1 & _ & Hs1).
  { by split; intros *; rewrite lookup_empty. }
  { intros o Ho. set_solver. }
  { intros o w. by rewrite lookup_empty. }
  pose proof (seat_rest_spec originals u1 t1 Hok1) as H2.
  destruct (seat_rest originals u1 t1) as [u2 t2].
  destruct H2 as (Hok2 & Hall & Hkeep).
  { rewrite size_empty in Hs1. unfold U64_MAX. change (2 ^ 62) with 4611686018427387904 in Hlen. lia. }
  unfold wire, original; cbn [to_wire from_wire]. split.
  - intros o Ho. destruct (Hall o Ho) as [w Hw]. rewrite Hw. cbn [from_option Datatypes.id].
    rewrite (invert_spec t2 o w (seats_inj _ _ Hok2) Hw).
    destruct (seats_legal _ _ Hok2 o w Hw) as [Hl _]. split_and!; [done|done|].
    intros Hleg. pose proof (Hkeep o o (Hleg1 o Ho Hleg)). congruence.
  - intros o o' Ho Ho'. destruct (Hall o Ho) as [w Hw], (Hall o' Ho') as [w' Hw'].
    rewrite Hw, Hw'. cbn. intros ->. by apply (seats_inj _ _ Hok2 o o' w').
Qed.

(** The names a request declares, chooses or calls. *)
Definition declared (r : CanonicalRequest) : list string :=
  map tool_name (req_tools r) ++
  match tool_choice r with Some (ChoiceTool name) => [name] | _ => [] end ++
  filter_map block_function (mjoin (map content (messages r))).

Lemma from_request_back r o :
  Z.of_nat (length (declared r)) < 2 ^ 62 → In o (declared r) →
  let m := from_request r in
  is_legal_openai_function_name (wire m o) = true ∧ original m (wire m o) = o ∧
  (is_legal_openai_function_name o = true → wire m o = o).
Proof.
  intros Hlen Ho. destruct (first_seen_spec (declared r) ∅) as [Hnd Hin].
  assert (length (first_seen (declared r) ∅) ≤ length (declared r))%nat as Hle.
  { apply List.NoDup_incl_length; [by apply NoDup_ListNoDup|]. intros x Hx. by apply (Hin x) in Hx as [? _]. }
  destruct (seats_back (first_seen (declared r) ∅)) as [Hb _]; [lia|].
  apply Hb, Hin. split; [done|set_solver].
Qed.

(** The function names of a request cross an OpenAI wire and come back.
    Whatever names the client declared, each is sent under a spelling the wire
    accepts, no two under one spelling, a legal name under its own, and the
    spelling an answer echoes is restored to the client's name. *)
Theorem function_names_roundtrip originals :
  Z.of_nat (length originals) < 2 ^ 62 →
  let m := from_originals originals in
  (∀ o, In o originals →
    is_legal_openai_function_name (wire m o) = true ∧
    original m (wire m o) = o ∧
    (is_legal_openai_function_name o = true → wire m o = o)) ∧
  ∀ o o', In o originals → In o' originals → wire m o = wire m o' → o = o'.
Proof. apply seats_back. Qed.

Lemma function_names_roundtrip_witness :
  let m := from_originals ["foo.bar"; "foo_bar"; "foo/bar"] in
  (wire m "foo_bar", wire m "foo.bar", wire m "foo/bar") = ("foo_bar", "foo_bar_2", "foo_bar_3") ∧
  original m (wire m "foo/bar") = "foo/bar".
Proof.
  intros m. split; [vm_compute; reflexivity|].
  destruct (function_names_roundtrip ["foo.bar"; "foo_bar"; "foo/bar"]) as [H _]; [reflexivity|].
  destruct (H "foo/bar") as (_ & Ho & _); [simpl; auto|exact Ho].
Defined.

(** The comment promises more than the loop does: only replaced characters
    collapse, and the cut at 64 comes after the trim. *)
Theorem sanitize_keeps_underscores :
  sanitize_openai_function_name "a._b" = "a__b" ∧
  sanitize_openai_function_name
    "aaaaaaaaaaaaaaaaaaaaaaaaaaaaaaaaaaaaaaaaaaaaaaaaaaaaaaaaaaaaaaa_b" =
    "aaaaaaaaaaaaaaaaaaaaaaaaaaaaaaaaaaaaaaaaaaaaaaaaaaaaaaaaaaaaaaa_".
Proof. split; vm_compute; reflexivity. Qed.

(** ** Tool-call ids *)

Lemma lxor_bound a b k : 0 <= k → 0 ≤ a < 2 ^ k → 0 ≤ b < 2 ^ k → 0 ≤ Z.lxor a b < 2 ^ k.
Proof.
  intros Hk Ha Hb. assert (0 ≤ Z.lxor a b) as Hpos by (apply Z.lxor_nonneg; lia).
  split; [done|]. destruct (Z.eq_dec (Z.lxor a b) 0) as [->|Hne]; [apply Z.pow_pos_nonneg; lia|].
  destruct (Z.eq_dec k 0) as [->|Hk0]; [simpl in *; assert (a = 0) as -> by lia; assert (b = 0) as -> by lia; done|].
  apply Z.log2_lt_pow2; [lia|]. pose proof (Z.log2_lxor a b ltac:(lia) ltac:(lia)).
  assert (∀ x, 0 ≤ x < 2 ^ k → Z.log2 x < k) as Hlog.
  { intros x Hx. destruct (Z.eq_dec x 0) as [->|]; [simpl; lia|]. apply Z.log2_lt_pow2; lia. }
  pose proof (Hlog a Ha). pose proof (Hlog b Hb). lia.
Qed.

Lemma lxor_inj_l a b c : Z.lxor a c = Z.lxor b c → a = b.
Proof.
  intros H. apply (f_equal (fun x => Z.lxor x c)) in H.
  by rewrite !Z.lxor_assoc, !Z.lxor_nilpotent, !Z.lxor_0_r in H.
Qed.

(** The inverse of the FNV prime modulo 2 to the 64. *)
Definition FNV_INVERSE : Z := 14886173955864302971.

Lemma fnv_mul_inj x y :
  0 ≤ x < 2 ^ 64 → 0 ≤ y < 2 ^ 64 →
  (x * FNV_PRIME) mod (U64_MAX + 1) = (y * FNV_PRIME) mod (U64_MAX + 1) → x = y.
Proof.
  change (2 ^ 64) with (U64_MAX + 1). intros Hx Hy H.
  assert (∀ z, 0 ≤ z < U64_MAX + 1 →
    ((z * FNV_PRIME) mod (U64_MAX + 1) * FNV_INVERSE) mod (U64_MAX + 1) = z) as Hinv.
  { intros z Hz. rewrite Z.mul_mod_idemp_l by done. rewrite <-Z.mul_assoc.
    rewrite <-Z.mul_mod_idemp_r by done.
    replace ((FNV_PRIME * FNV_INVERSE) mod (U64_MAX + 1)) with 1 by reflexivity.
    rewrite Z.mul_1_r. by apply Z.mod_small. }
  by rewrite <-(Hinv x Hx), <-(Hinv y Hy), H.
Qed.

Lemma fnv_step_range h b : 0 ≤ fnv_step h b < 2 ^ 64.
Proof. apply Z.mod_pos_bound. done. Qed.

Lemma fnv_step_inj_h h h' b :
  0 ≤ h < 2 ^ 64 → 0 ≤ h' < 2 ^ 64 → 0 ≤ b < 2 ^ 64 → fnv_step h b = fnv_step h' b → h = h'.
Proof.
  intros Hh Hh' Hb H. apply fnv_mul_inj in H; [by apply lxor_inj_l in H|..]; by apply lxor_bound.
Qed.

Lemma fnv_step_inj_b h b b' :
  0 ≤ h < 2 ^ 64 → 0 ≤ b < 2 ^ 64 → 0 ≤ b' < 2 ^ 64 → fnv_step h b = fnv_step h b' → b = b'.
Proof.
  intros Hh Hb Hb' H. apply fnv_mul_inj in H; [|by apply lxor_bound..].
  rewrite !(Z.lxor_comm h) in H. by apply lxor_inj_l in H.
Qed.

Lemma fnv_fold_inj l h h' :
  0 ≤ h < 2 ^ 64 → 0 ≤ h' < 2 ^ 64 → (∀ b, In b l → 0 ≤ b < 2 ^ 64) →
  fold_left fnv_step l h = fold_left fnv_step l h' → h = h'.
Proof.
  revert h h'; induction l as [|b l IH]; intros h h' Hh Hh' Hl H; [done|].
  cbn [fold_left] in H. apply IH in H; [|apply fnv_step_range..|intros; apply Hl; by right].
  apply fnv_step_inj_h in H; try done. apply Hl. by left.
Qed.

Lemma fnv_fold_range l h : 0 ≤ h < 2 ^ 64 → 0 ≤ fold_left fnv_step l h < 2 ^ 64.
Proof.
  revert h; induction l as [|b l IH]; intros h Hh; [done|]. apply IH, fnv_step_range.
Qed.

Lemma fnv_fold_cons b l h : fold_left fnv_step (b :: l) h = fold_left fnv_step l (fnv_step h b).
Proof. done. Qed.

Lemma le_bytes_small s : 0 ≤ s < 256 → le_bytes s = [s; 0; 0; 0; 0; 0; 0; 0].
Proof.
  intros Hs. unfold le_bytes. cbn [map].
  assert (∀ k, 8 ≤ k → Z.shiftr s k = 0) as Hhigh.
  { intros k Hk. rewrite Z.shiftr_div_pow2 by lia. apply Z.div_small.
    split; [lia|]. apply Z.lt_le_trans with (2 ^ 8); [lia|]. apply Z.pow_le_mono_r; lia. }
  rewrite (Hhigh (8 * 1)), (Hhigh (8 * 2)), (Hhigh (8 * 3)), (Hhigh (8 * 4)), (Hhigh (8 * 5)),
    (Hhigh (8 * 6)), (Hhigh (8 * 7)) by lia. rewrite Z.mul_0_r, Z.shiftr_0_r.
  change 255 with (Z.ones 8). rewrite Z.land_ones by lia. by rewrite Z.mod_small.
Qed.

(** Two salts below 256 give two hashes. *)
Lemma fnv1a_salt_inj bytes s t :
  0 ≤ s < 256 → 0 ≤ t < 256 → fnv1a bytes s = fnv1a bytes t → s = t.
Proof.
  intros Hs Ht. unfold fnv1a. rewrite !le_bytes_small by done.
  rewrite !fold_left_app. set (h := fold_left fnv_step (map Str.code bytes) FNV_OFFSET).
  assert (0 ≤ h < 2 ^ 64) as Hh by by apply fnv_fold_range.
  clearbody h. rewrite (fnv_fold_cons s), (fnv_fold_cons t).
  intros H. apply fnv_fold_inj in H; [|apply fnv_step_range..|].
  - apply fnv_step_inj_b in H; lia.
  - intros b Hb. simpl in Hb. lia.
Qed.

Lemma hex_digit_cases d : 0 ≤ d < 16 →
  d = 0 ∨ d = 1 ∨ d = 2 ∨ d = 3 ∨ d = 4 ∨ d = 5 ∨ d = 6 ∨ d = 7 ∨ d = 8 ∨ d = 9 ∨
  d = 10 ∨ d = 11 ∨ d = 12 ∨ d = 13 ∨ d = 14 ∨ d = 15.
Proof. lia. Qed.

Lemma hex_digit_code d : 0 ≤ d < 16 → Str.code (hex_digit d) = if d <? 10 then 48 + d else 87 + d.
Proof. intros H. apply Str.code_ascii. destruct (Z.ltb_spec d 10); lia. Qed.

Lemma hex_digit_inj d e : 0 ≤ d < 16 → 0 ≤ e < 16 → hex_digit d = hex_digit e → d = e.
Proof.
  intros Hd He H%(f_equal Str.code). rewrite !hex_digit_code in H by done.
  destruct (Z.ltb_spec d 10), (Z.ltb_spec e 10); lia.
Qed.

Lemma hex_digit_alnum d : 0 ≤ d < 16 → Str.is_ascii_alphanumeric (hex_digit d) = true.
Proof.
  intros H. apply hex_digit_cases in H. by destruct_or!; subst.
Qed.

Lemma hex_inj k h h' :
  0 ≤ h < 16 ^ Z.of_nat k → 0 ≤ h' < 16 ^ Z.of_nat k → hex k h = hex k h' → h = h'.
Proof.
  revert h h'; induction k as [|k IH]; intros h h' Hh Hh' H.
  { change (16 ^ Z.of_nat 0) with 1 in *. lia. }
  cbn [hex] in H. apply Str.append_inj_last in H as [Hq Hr].
  apply hex_digit_inj in Hr; [|apply Z.mod_pos_bound; lia..].
  rewrite Nat2Z.inj_succ, Z.pow_succ_r in Hh, Hh' by lia.
  apply IH in Hq; [|split; [apply Z.div_pos; lia|apply Z.div_lt_upper_bound; lia]..].
  rewrite (Z.div_mod h 16), (Z.div_mod h' 16) by lia. congruence.
Qed.

Lemma hex_spec k h :
  Str.len (hex k h) = Z.of_nat k ∧
  ∀ c, In c (Str.bytes (hex k h)) → Str.is_ascii_alphanumeric c = true.
Proof.
  revert h; induction k as [|k IH]; intros h; [by split; [|intros ? []]|].
  cbn [hex]. unfold Str.push. rewrite Str.len_append. destruct (IH (h / 16)) as [Hl Hc]. split.
  - rewrite Hl. change (Str.len (String (hex_digit (h mod 16)) "")) with 1. lia.
  - intros c. rewrite Str.bytes_app, in_app_iff. intros [H|[<-|[]]]; [auto|].
    apply hex_digit_alnum. apply Z.mod_pos_bound. lia.
Qed.

Section ids.
(** Both wires keep letters, digits and [_]. *)
Context (ok : ascii → bool).
Context (Hok : ∀ c, Str.is_ascii_alphanumeric c = true ∨ c = "_"%char → ok c = true).

Lemma spelled_spec s :
  spelled ok s = true ↔ 1 ≤ Str.len s ≤ 64 ∧ ∀ c, In c (Str.bytes s) → ok c = true.
Proof. unfold spelled, TOOL_USE_ID_MAX. rewrite !andb_true_iff, !Z.leb_le, all_true. tauto. Qed.

Lemma plain_ok id c :
  In c (Str.bytes (Str.of_bytes (map (fun b => if ok b then b else "_"%char) (Str.bytes id)))) →
  ok c = true.
Proof.
  rewrite Str.bytes_of_bytes, in_map_iff. intros (b & <- & _).
  destruct (ok b) eqn:E; [done|]. apply Hok. by right.
Qed.

(** The salted spellings are ones the wire takes, and differ below 256. *)
Lemma salted_spelled plain id salt :
  (∀ c, In c (Str.bytes plain) → ok c = true) →
  spelled ok (Str.take (Z.to_nat (Z.min (Str.len plain) (TOOL_USE_ID_MAX - 17))) plain +:+
    "_" +:+ hex 16 (fnv1a (Str.bytes id) salt)) = true.
Proof.
  intros Hp. apply spelled_spec. destruct (hex_spec 16 (fnv1a (Str.bytes id) salt)) as [Hl Hc]. split.
  - rewrite !Str.len_append, Str.len_take, Hl. change (Str.len "_") with 1.
    pose proof (Str.len_nonneg plain). unfold TOOL_USE_ID_MAX. lia.
  - intros c. rewrite !Str.bytes_app, !in_app_iff. intros [H|[[<-|[]]|H]].
    + by apply Hp, (Str.take_In _ _ _ H).
    + apply Hok. by right.
    + apply Hok. left. auto.
Qed.

Lemma respell_spec id taken :
  let w := respell_tool_use_id id taken ok in
  (spelled ok w = true ∧ w ∉ taken) ∨ (w = id ∧ 256 ≤ Z.of_nat (size taken)).
Proof.
  unfold respell_tool_use_id.
  set (plain := Str.of_bytes _). set (stem := Str.take _ plain).
  set (cand := fun salt => stem +:+ "_" +:+ hex 16 (fnv1a (Str.bytes id) salt)).
  destruct ((1 <=? Str.len plain) && _ && _) eqn:E; cbn zeta.
  { left. bool_to_prop. split; [|done]. apply spelled_spec. split; [done|apply plain_ok]. }
  clear E. destruct (find _ _) as [w|] eqn:E; cbn [from_option Datatypes.id].
  - left. apply find_Some in E as [Hin Hn]. bool_to_prop. split; [|done].
    apply in_map_iff in Hin as (salt & <- & _). apply salted_spelled, plain_ok.
  - right. split; [done|]. rewrite find_None in E.
    destruct (Z.le_gt_cases 256 (Z.of_nat (size taken))) as [|Hlt]; [done|]. exfalso.
    destruct (free_spelling (fun i => cand (Z.of_nat i)) taken) as (i & Hi & Hf).
    { intros i j Hi Hj H. unfold cand in H. apply Str.append_inj_l, Str.append_inj_l in H.
      apply hex_inj in H; [|change (16 ^ Z.of_nat 16) with (2 ^ 64); by apply fnv_fold_range..].
      apply fnv1a_salt_inj in H; lia. }
    specialize (E (cand (Z.of_nat i))). rewrite bool_decide_eq_false_2 in E by done.
    discriminate E. apply in_map_iff. exists (Z.of_nat i). split; [done|].
    apply list_elem_of_In, elem_of_seqZ. lia.
Qed.

(** What the loop leaves of the maps, entry by entry. *)
Lemma respell_all_spec ids taken m :
  NoDup ids → (∀ id, In id ids → spelled ok id = false ∧ id ∉ taken) →
  let m' := respell_all ok ids taken m in
  (∀ id, ¬ In id ids → id_to_wire m' !! id = id_to_wire m !! id) ∧
  (∀ w, w ∈ taken → id_from_wire m' !! w = id_from_wire m !! w) ∧
  (∀ id, In id ids → ∃ w, id_to_wire m' !! id = Some w ∧ (w ∉ taken) ∧
    id_from_wire m' !! w = Some id ∧ (spelled ok w = true ∨ w = id) ∧
    (Z.of_nat (size taken + length ids) ≤ 256 → spelled ok w = true)).
Proof.
  revert taken m; induction ids as [|id ids IH]; intros taken m Hnd Hids.
  { simpl. split_and!; done. }
  cbn [respell_all]. apply NoDup_cons in Hnd as [Hn Hnd]. rewrite list_elem_of_In in Hn.
  set (w := respell_tool_use_id id taken ok).
  destruct (Hids id (or_introl eq_refl)) as [Hns Hnt].
  assert ((w ∉ taken) ∧ (spelled ok w = true ∨ w = id) ∧
    (Z.of_nat (size taken) < 256 → spelled ok w = true)) as (Hw & Hs & Hsmall).
  { pose proof (respell_spec id taken) as Hr. cbv zeta in Hr. fold w in Hr.
    destruct Hr as [[? ?]|[Heq ?]].
    - split_and!; auto.
    - rewrite Heq. split_and!; [done|by right|lia]. }
  destruct (IH ({[ w ]} ∪ taken) {| id_to_wire := <[ id := w ]> (id_to_wire m);
           id_from_wire := <[ w := id ]> (id_from_wire m) |} Hnd) as (H1 & H2 & H3).
  { intros i Hi. destruct (Hids i (or_intror Hi)) as [Hi1 Hi2]. split; [done|].
    intros [->%elem_of_singleton|]%elem_of_union; [|done].
    destruct Hs as [Hs|Hs]; [congruence|]. by rewrite Hs in Hi. }
  split_and!.
  - intros i Hi. rewrite H1 by (intros ?; apply Hi; by right). cbn [id_to_wire].
    rewrite lookup_insert_ne; [done|]. intros ->. apply Hi. by left.
  - intros w' Hw'. rewrite H2 by set_solver. cbn [id_from_wire].
    rewrite lookup_insert_ne; [done|]. intros ->. done.
  - intros i [<-|Hi].
    + exists w. rewrite H1, H2 by set_solver. cbn [id_to_wire id_from_wire].
      rewrite !lookup_insert_eq. split_and!; try done. cbn [length]. intros. apply Hsmall. lia.
    + destruct (H3 i Hi) as (wi & ? & ? & ? & ? & Hsz). exists wi. split_and!; try done; [set_solver|].
      intros Hb. apply Hsz. rewrite size_add by done. cbn [length] in Hb. lia.
Qed.
End ids.

Lemma tool_use_id_byte_keeps c :
  Str.is_ascii_alphanumeric c = true ∨ c = "_"%char → tool_use_id_byte c = true.
Proof. unfold tool_use_id_byte. intros [-> | ->]; done. Qed.

Lemma anthropic_id_byte_keeps c :
  Str.is_ascii_alphanumeric c = true ∨ c = "_"%char → anthropic_id_byte c = true.
Proof. unfold anthropic_id_byte. intros [-> | ->]; done. Qed.

Lemma size_list_to_set_bound (l : list string) :
  (size (list_to_set l : gset string) ≤ length l)%nat.
Proof.
  induction l as [|x l IH]; [done|]. cbn [list_to_set foldr length].
  change (list_to_set (x :: l) : gset string) with ({[ x ]} ∪ list_to_set l : gset string).
  rewrite size_union_alt, size_singleton.
  assert (size (list_to_set l ∖ {[ x ]} : gset string) ≤ size (list_to_set l : gset string))%nat.
  { apply subseteq_size. set_solver. }
  lia.
Qed.

(** Every id of the history, there and back. *)
Lemma respelled r ok :
  ok = tool_use_id_byte ∨ ok = anthropic_id_byte →
  let ids := history_ids r in
  let m := ids_from_request_by r ok in
  (∀ id, In id ids →
    id_original m (id_wire m id) = id ∧
    (spelled ok id = true → id_wire m id = id) ∧
    (Z.of_nat (length ids) ≤ 256 → spelled ok (id_wire m id) = true)) ∧
  ∀ id id', In id ids → In id' ids → id_wire m id = id_wire m id' → id = id'.
Proof.
  intros Hor ids m.
  assert (∀ c, Str.is_ascii_alphanumeric c = true ∨ c = "_"%char → ok c = true) as Hok.
  { destruct Hor as [-> | ->]; [apply tool_use_id_byte_keeps|apply anthropic_id_byte_keeps]. }
  destruct (first_seen_spec (filter_map block_id (mjoin (map content (messages r)))) ∅) as [Hnd _].
  fold (history_ids r) in Hnd. fold ids in Hnd.
  set (bad := keep (fun id => negb (spelled ok id)) ids).
  set (taken := list_to_set (keep (spelled ok) ids) : gset string).
  assert (∀ x, x ∈ taken ↔ In x ids ∧ spelled ok x = true) as Htaken.
  { intros x. unfold taken. rewrite elem_of_list_to_set, list_elem_of_In, keep_In. done. }
  assert (∀ x, In x bad ↔ In x ids ∧ spelled ok x = false) as Hbad.
  { intros x. unfold bad. rewrite keep_In, negb_true_iff. done. }
  destruct (respell_all_spec ok Hok bad taken no_ids) as (H1 & H2 & H3).
  { unfold bad. apply NoDup_ListNoDup, List.NoDup_filter. by apply NoDup_ListNoDup. }
  { intros id [Hid Hs]%Hbad. split; [done|]. rewrite Htaken. intros [_ ?]. congruence. }
  change (respell_all ok bad taken no_ids) with m in H1, H2, H3. clearbody m.
  assert (∀ id, In id ids → (spelled ok id = true ∧ id_wire m id = id ∧ id_from_wire m !! id = None) ∨
    (In id bad ∧ ∃ w, id_wire m id = w ∧ (w ∉ taken) ∧ id_from_wire m !! w = Some id)) as Hcase.
  { intros id Hid. destruct (spelled ok id) eqn:Es.
    - left. unfold id_wire. rewrite H1 by (rewrite Hbad; intros [_ ?]; congruence).
      rewrite H2 by by apply Htaken. unfold no_ids. cbn [id_to_wire id_from_wire].
      by rewrite !lookup_empty.
    - right. assert (In id bad) as Hb by by apply Hbad. split; [done|].
      destruct (H3 id Hb) as (w & Hw & ? & ? & _). exists w. unfold id_wire. by rewrite Hw. }
  split.
  - intros id Hid. split_and!.
    + destruct (Hcase id Hid) as [(_ & -> & Hf)|(_ & w & -> & _ & Hf)]; unfold id_original; by rewrite Hf.
    + intros Hs. destruct (Hcase id Hid) as [(_ & ? & _)|(Hb & _)]; [done|].
      apply Hbad in Hb as [_ ?]. congruence.
    + intros Hsz. destruct (Hcase id Hid) as [(? & -> & _)|(Hb & _)]; [done|].
      destruct (H3 id Hb) as (w & Hw & _ & _ & _ & Hsmall). unfold id_wire. rewrite Hw. apply Hsmall.
      pose proof (size_list_to_set_bound (keep (spelled ok) ids)) as Ht. fold taken in Ht.
      pose proof (List.filter_length (spelled ok) ids). unfold bad, keep in *. lia.
  - intros id id' Hid Hid' Heq.
    destruct (Hcase id Hid) as [(Hs & Hw & Hf)|(_ & w & Hw & Hnt & Hf)],
      (Hcase id' Hid') as [(Hs' & Hw' & Hf')|(_ & w' & Hw' & Hnt' & Hf')]; try congruence.
Qed.

(** Tool-call ids survive an upstream with a narrower alphabet.  Over a
    request's whole history, calls and results, an id the wire takes goes as
    it is, two ids never share a spelling, and the spelling an answer carries is
    put back as the client's id; a history of at most 256 ids is always spelled
    as the wire takes it. *)
Theorem tool_use_ids_roundtrip r ok :
  ok = tool_use_id_byte ∨ ok = anthropic_id_byte →
  let ids := history_ids r in
  let m := ids_from_request_by r ok in
  (∀ id, In id ids →
    id_original m (id_wire m id) = id ∧
    (spelled ok id = true → id_wire m id = id) ∧
    (Z.of_nat (length ids) ≤ 256 → spelled ok (id_wire m id) = true)) ∧
  ∀ id id', In id ids → In id' ids → id_wire m id = id_wire m id' → id = id'.
Proof. apply respelled. Qed.

Definition history_example : CanonicalRequest := {|
  model := "gpt"; system := [];
  messages := [
    {| role := RoleAssistant; content := [BToolUse "read_file#1" "read_file" JNull] |};
    {| role := RoleTool; content := [BToolResult "read_file#1" (ResultText "ok") false] |};
    {| role := RoleAssistant; content := [BToolUse "read_file_1" "read_file" JNull] |} ];
  req_tools := []; max_tokens := 100; stream := false; thinking_budget := None;
  thinking_effort := None; client_session := None; tool_choice := None;
  response_format := None; stop := []; previous_response_id := None; passthrough := None |}.

Lemma tool_use_ids_roundtrip_witness :
  id_original (ids_from_request history_example)
    (id_wire (ids_from_request history_example) "read_file#1") = "read_file#1".
Proof.
  destruct (tool_use_ids_roundtrip history_example tool_use_id_byte) as [H _]; [by left|].
  destruct (H "read_file#1") as (Ho & _ & _); [vm_compute; auto|exact Ho].
Defined.

End Names.
