(* ===== verification/Sticky.v ===== *)
(** * Session affinity

    [crates/oag-pool/src/sticky.rs]: the key a conversation is pinned under.
    SHA-256 is a third-party package and a parameter; the bytes it is given,
    and the way its digest is spelled, are the source's. *)

From Stdlib Require Import Ascii.
From S2P Require Import Prelude Text Money Domain Efforts Catalog Classify Canonical Names.
#[local] Open Scope string_scope.
#[local] Open Scope oag_scope.
#[local] Open Scope list_scope.
#[local] Open Scope Z_scope.

Module Sticky.

(** [block.len().to_le_bytes()]: eight bytes. *)
Definition le_len (block : string) : list ascii :=
  map (fun i => ascii_of_N (Z.to_N (Z.land (Z.shiftr (Str.len block) (8 * i)) 255)))
    [0; 1; 2; 3; 4; 5; 6; 7].

(** ** What is hashed *)

Definition cache_preimage (scope : string) (blocks : list string) : list ascii :=
  Str.bytes "scope:" ++ Str.bytes scope ++ Str.bytes "|" ++
  mjoin (map (fun b => le_len b ++ Str.bytes b) blocks).

Definition client_preimage (scope session : string) : list ascii :=
  Str.bytes "scope:" ++ Str.bytes scope ++ Str.bytes "|client-session:" ++ Str.bytes session.

Definition caller_preimage (api_key_id model : string) : list ascii :=
  Str.bytes "caller:" ++ Str.bytes api_key_id ++ Str.bytes "|" ++ Str.bytes model.

Section sha.
(** [Sha256::digest], thirty-two bytes. *)
Context (sha256 : list ascii → list ascii).

(** The source's [hex]: two digits a byte. *)
Definition hex (bytes : list ascii) : string :=
  fold_left (fun acc b => acc +:+ Names.hex 2 (Str.code b)) bytes EmptyString.

Definition from_cache_blocks (scope : string) (blocks : list string) : option string :=
  match blocks with
  | [] => None
  | _ => Some (hex (sha256 (cache_preimage scope blocks)))
  end.

Definition from_client_session (scope session : string) : option string :=
  if Str.is_empty session then None else Some (hex (sha256 (client_preimage scope session))).

Definition from_caller (api_key_id model : string) : string :=
  hex (sha256 (caller_preimage api_key_id model)).

Definition resolve (principal_id : string) (client_session : option string)
    (cache_blocks : list string) (api_key_id model : string) : string :=
  match (match client_session with
         | Some s => from_client_session principal_id s | None => None end) with
  | Some k => k
  | None =>
      match from_cache_blocks principal_id cache_blocks with
      | Some k => k
      | None => from_caller api_key_id model
      end
  end.

Definition redis_key (key route provider : string) : string :=
  "oag:sticky:" +:+ route +:+ ":" +:+ provider +:+ ":" +:+ key.

(** The form [resolve] takes, and what it hashes. *)
Inductive Form : Type :=
  | ByClient (scope session : string)
  | ByCache (scope : string) (blocks : list string)
  | ByCaller (api_key_id model : string).

Definition form_of (principal_id : string) (client_session : option string)
    (cache_blocks : list string) (api_key_id model : string) : Form :=
  match client_session with
  | Some s => if Str.is_empty s then
      match cache_blocks with [] => ByCaller api_key_id model | _ => ByCache principal_id cache_blocks end
      else ByClient principal_id s
  | None =>
      match cache_blocks with [] => ByCaller api_key_id model | _ => ByCache principal_id cache_blocks end
  end.

Definition preimage (f : Form) : list ascii :=
  match f with
  | ByClient scope s => client_preimage scope s
  | ByCache scope bs => cache_preimage scope bs
  | ByCaller k m => caller_preimage k m
  end.

Lemma resolve_form p cs cb k m :
  resolve p cs cb k m = hex (sha256 (preimage (form_of p cs cb k m))).
Proof.
  unfold resolve, form_of, from_client_session, from_cache_blocks.
  destruct cs as [s|]; [destruct (Str.is_empty s)|]; try done; by destruct cb.
Qed.

(** A scope and an API key id are ids: they hold no separator. *)
Definition id_ok (s : string) : Prop := ¬ In "|"%char (Str.bytes s).

(** A block a machine can hold is shorter than 2 to the 56. *)
Definition form_ok (f : Form) : Prop :=
  match f with
  | ByClient scope _ => id_ok scope
  | ByCache scope bs => id_ok scope ∧ ∀ b, In b bs → Str.len b < 2 ^ 56
  | ByCaller k _ => id_ok k
  end.

Lemma split_at_bar (a b r s : list ascii) :
  ¬ In "|"%char a → ¬ In "|"%char b → a ++ "|"%char :: r = b ++ "|"%char :: s → a = b ∧ r = s.
Proof.
  revert b; induction a as [|x a IH]; intros [|y b] Ha Hb H; simpl in *; simplify_eq; try done.
  - exfalso. apply Hb. by left.
  - exfalso. apply Ha. by left.
  - destruct (IH b) as [-> ->]; naive_solver.
Qed.

Lemma byte_of_len n i : 0 ≤ n → 0 ≤ i →
  Str.code (ascii_of_N (Z.to_N (Z.land (Z.shiftr n (8 * i)) 255))) = (n / 2 ^ (8 * i)) mod 256.
Proof.
  intros Hn Hi. rewrite Str.code_ascii.
  - rewrite Z.shiftr_div_pow2 by lia. change 255 with (Z.ones 8). by rewrite Z.land_ones by lia.
  - change 255 with (Z.ones 8). rewrite Z.land_ones by lia. by apply Z.mod_pos_bound.
Qed.

Lemma le_len_inj a b :
  Str.len a < 2 ^ 64 → Str.len b < 2 ^ 64 → le_len a = le_len b → Str.len a = Str.len b.
Proof.
  unfold le_len. intros Hxb Hyb Heq. pose proof (Str.len_nonneg a) as Px. pose proof (Str.len_nonneg b) as Py.
  set (x := Str.len a) in *. set (y := Str.len b) in *. clearbody x y.
  apply (f_equal (map Str.code)) in Heq. cbn [map] in Heq. rewrite !byte_of_len in Heq by lia.
  injection Heq as E0 E1 E2 E3 E4 E5 E6 E7.
  assert (∀ z, 0 ≤ z < 2 ^ 64 → z =
    (z / 2 ^ (8 * 0)) mod 256 + 256 * ((z / 2 ^ (8 * 1)) mod 256 +
    256 * ((z / 2 ^ (8 * 2)) mod 256 + 256 * ((z / 2 ^ (8 * 3)) mod 256 +
    256 * ((z / 2 ^ (8 * 4)) mod 256 + 256 * ((z / 2 ^ (8 * 5)) mod 256 +
    256 * ((z / 2 ^ (8 * 6)) mod 256 + 256 * ((z / 2 ^ (8 * 7)) mod 256)))))))) as Hdec.
  { clear. intros z Hz.
    assert (∀ i, 0 ≤ i → z / 2 ^ (8 * (i + 1)) = (z / 2 ^ (8 * i)) / 256) as Hs.
    { intros i Hi. rewrite Z.mul_add_distr_l, Z.pow_add_r by lia.
      rewrite Z.div_div by (try apply Z.pow_nonzero; lia). done. }
    assert (z / 2 ^ (8 * 1) = z / 2 ^ (8 * 0) / 256) as S0 by (apply (Hs 0); lia).
    assert (z / 2 ^ (8 * 2) = z / 2 ^ (8 * 1) / 256) as S1 by (apply (Hs 1); lia).
    assert (z / 2 ^ (8 * 3) = z / 2 ^ (8 * 2) / 256) as S2 by (apply (Hs 2); lia).
    assert (z / 2 ^ (8 * 4) = z / 2 ^ (8 * 3) / 256) as S3 by (apply (Hs 3); lia).
    assert (z / 2 ^ (8 * 5) = z / 2 ^ (8 * 4) / 256) as S4 by (apply (Hs 4); lia).
    assert (z / 2 ^ (8 * 6) = z / 2 ^ (8 * 5) / 256) as S5 by (apply (Hs 5); lia).
    assert (z / 2 ^ (8 * 7) = z / 2 ^ (8 * 6) / 256) as S6 by (apply (Hs 6); lia).
    assert (z / 2 ^ (8 * 7) < 256) as Htop.
    { apply Z.div_lt_upper_bound; [done|]. apply Z.lt_le_trans with (2 ^ 64); [lia|done]. }
    assert (0 ≤ z / 2 ^ (8 * 7)) as Hlow by (apply Z.div_pos; [lia|done]).
    change (2 ^ (8 * 0)) with 1 in *. rewrite Z.div_1_r in *.
    rewrite (Z.mod_small (z / 2 ^ (8 * 7))) by lia.
    set (z1 := z / 2 ^ (8 * 1)) in *. set (z2 := z / 2 ^ (8 * 2)) in *.
    set (z3 := z / 2 ^ (8 * 3)) in *. set (z4 := z / 2 ^ (8 * 4)) in *.
    set (z5 := z / 2 ^ (8 * 5)) in *. set (z6 := z / 2 ^ (8 * 6)) in *.
    set (z7 := z / 2 ^ (8 * 7)) in *. clearbody z1 z2 z3 z4 z5 z6 z7. clear Hs.
    pose proof (Z.div_mod z 256). pose proof (Z.div_mod z1 256). pose proof (Z.div_mod z2 256).
    pose proof (Z.div_mod z3 256). pose proof (Z.div_mod z4 256). pose proof (Z.div_mod z5 256).
    pose proof (Z.div_mod z6 256). lia. }
  rewrite (Hdec x), (Hdec y) by done. by rewrite E0, E1, E2, E3, E4, E5, E6, E7.
Qed.

Lemma blocks_inj bs cs :
  (∀ b, In b bs → Str.len b < 2 ^ 56) → (∀ b, In b cs → Str.len b < 2 ^ 56) →
  mjoin (map (fun b => le_len b ++ Str.bytes b) bs) =
    mjoin (map (fun b => le_len b ++ Str.bytes b) cs) → bs = cs.
Proof.
  assert (2 ^ 56 < 2 ^ 64) by done.
  revert cs; induction bs as [|b bs IH]; intros [|c cs] Hb Hc Heq; try done.
  cbn [map mjoin list_join] in Heq. rewrite <-!app_assoc in Heq.
  apply app_inj_1 in Heq as [Hl Heq]; [|done].
  pose proof (Hb b (or_introl eq_refl)). pose proof (Hc c (or_introl eq_refl)).
  apply le_len_inj in Hl; [|lia|lia]. rewrite !Str.len_bytes in Hl.
  apply app_inj_1 in Heq as [Hbc Heq]; [|lia].
  apply Str.bytes_inj in Hbc as ->. f_equal. apply IH; [auto with datatypes..|done].
Qed.

(** A block's length never begins as the word [client-session] does. *)
Lemma client_is_no_length b rest s :
  Str.len b < 2 ^ 56 → le_len b ++ rest ≠ Str.bytes "client-session:" ++ s.
Proof.
  intros Hb Heq. pose proof (Str.len_nonneg b) as Hn.
  apply (f_equal (fun l => List.nth 7 l "000"%char)) in Heq. unfold le_len in Heq. cbn in Heq.
  change (8 * 7) with 56 in Heq. apply (f_equal Str.code) in Heq.
  change 56 with (8 * 7) in Heq. rewrite (byte_of_len (Str.len b) 7) in Heq by lia.
  change (8 * 7) with 56 in Heq. rewrite Z.div_small in Heq by lia. done.
Qed.

Lemma preimage_inj f g : form_ok f → form_ok g →
  (∀ s, f ≠ ByCache s []) → (∀ s, g ≠ ByCache s []) → preimage f = preimage g → f = g.
Proof.
  assert (∀ a b, Str.bytes "scope:" ++ a ≠ Str.bytes "caller:" ++ b) as Hsc by done.
  destruct f as [s x|s bs|k m], g as [s' x'|s' bs'|k' m']; intros Hf Hg Nf Ng H;
    unfold preimage, client_preimage, cache_preimage, caller_preimage in H; try done.
  - apply app_inv_head in H. apply split_at_bar in H as [Hs Hx]; [|done|done].
    apply (app_inv_head (Str.bytes "client-session:")) in Hx.
    apply Str.bytes_inj in Hs as ->, Hx as ->. done.
  - exfalso. apply app_inv_head in H. destruct Hg as [Hg Hbs]. apply split_at_bar in H as [_ Hx]; [|done|done].
    destruct bs' as [|b bs']; [by apply (Ng s')|]. cbn [map mjoin list_join] in Hx.
    rewrite <-app_assoc in Hx. symmetry in Hx.
    refine (client_is_no_length b _ _ (Hbs b (or_introl eq_refl)) Hx).
  - exfalso. apply app_inv_head in H. destruct Hf as [Hf Hbs]. apply split_at_bar in H as [_ Hx]; [|done|done].
    destruct bs as [|b bs]; [by apply (Nf s)|]. cbn [map mjoin list_join] in Hx.
    rewrite <-app_assoc in Hx.
    refine (client_is_no_length b _ _ (Hbs b (or_introl eq_refl)) Hx).
  - apply app_inv_head in H. destruct Hf as [Hf Hbs], Hg as [Hg Hbs'].
    apply split_at_bar in H as [Hs Hx]; [|done|done]. apply Str.bytes_inj in Hs as ->.
    f_equal. by apply blocks_inj.
  - apply app_inv_head in H. apply split_at_bar in H as [Hs Hx]; [|done|done].
    apply Str.bytes_inj in Hs as ->, Hx as ->. done.
Qed.

Lemma hex_acc bytes acc :
  fold_left (fun acc b => acc +:+ Names.hex 2 (Str.code b)) bytes acc = acc +:+ hex bytes.
Proof.
  unfold hex. revert acc; induction bytes as [|b bs IH]; intros acc; cbn [fold_left].
  { by rewrite Str.append_empty_r. }
  rewrite IH, (IH (EmptyString +:+ _)). by rewrite Str.append_assoc.
Qed.

Lemma append_inj_len a b c d :
  Str.len a = Str.len b → a +:+ c = b +:+ d → a = b ∧ c = d.
Proof.
  rewrite !Str.len_bytes. intros Hl H%(f_equal Str.bytes). rewrite !Str.bytes_app in H.
  apply app_inj_1 in H as [H1 H2]; [|lia]. by split; apply Str.bytes_inj.
Qed.

Lemma hex_bytes_inj a b : hex a = hex b → a = b.
Proof.
  assert (∀ x l, hex (x :: l) = Names.hex 2 (Str.code x) +:+ hex l) as Hc.
  { intros x l. unfold hex at 1. cbn [fold_left]. rewrite hex_acc. done. }
  assert (∀ x l, Str.len (hex (x :: l)) ≠ 0) as Hne.
  { intros x l. rewrite Hc, Str.len_append, (proj1 (Names.hex_spec 2 _)).
    pose proof (Str.len_nonneg (hex l)). lia. }
  revert b; induction a as [|x a IH]; intros [|y b] H; [done| | |].
  - exfalso. apply (Hne y b). by rewrite <-H.
  - exfalso. apply (Hne x a). by rewrite H.
  - rewrite !Hc in H. apply append_inj_len in H as [Hx Hab].
    2: { by rewrite !(proj1 (Names.hex_spec 2 _)). }
    apply Names.hex_inj in Hx; [|change (16 ^ Z.of_nat 2) with 256; apply Str.code_range..].
    apply Str.code_inj in Hx as ->. f_equal. by apply IH.
Qed.

(** A pin belongs to one principal's conversation.  Two requests share a
    key only when they agree on everything it stands for -- principal and
    client session, principal and the list of cacheable blocks, or key and
    model -- or else SHA-256 maps two different inputs to one digest. *)
Theorem pins_are_scoped p cs cb k m p' cs' cb' k' m' :
  form_ok (form_of p cs cb k m) → form_ok (form_of p' cs' cb' k' m') →
  resolve p cs cb k m = resolve p' cs' cb' k' m' →
  form_of p cs cb k m = form_of p' cs' cb' k' m' ∨
  ∃ x y, x ≠ y ∧ sha256 x = sha256 y.
Proof.
  assert (∀ p cs cb k m s, form_of p cs cb k m ≠ ByCache s []) as Hne.
  { intros. unfold form_of. destruct cs0 as [c|]; [destruct (Str.is_empty c)|]; try done;
      by destruct cb0. }
  intros H1 H2. rewrite !resolve_form. intros H%hex_bytes_inj.
  destruct (decide (preimage (form_of p cs cb k m) = preimage (form_of p' cs' cb' k' m'))) as [He|He].
  - left. by apply preimage_inj.
  - right. eauto.
Qed.
End sha.

Lemma pins_are_scoped_witness :
  form_of "p1" (Some "default") [] "k1" "m" = form_of "p1" (Some "default") ["x"] "k2" "n" ∨
  ∃ x y : list ascii, x ≠ y ∧ Datatypes.id x = Datatypes.id y.
Proof.
  apply (pins_are_scoped (fun l => Datatypes.id l) "p1" (Some "default") [] "k1" "m"
    "p1" (Some "default") ["x"] "k2" "n"); [..|reflexivity];
    intros Hin; vm_compute in Hin; tauto || (repeat destruct Hin as [Hin|Hin]; discriminate Hin || done).
Defined.

End Sticky.
