(* ===== verification/Stream.v ===== *)
(** * Streamed answers

    [crates/oag-proto/src/stream.rs], and [restore_in_events] of
    [function_names.rs]: what the gateway keeps of an answer while it streams,
    and the verdict on it.  Whether a text is JSON is asked of a third-party
    parser and is a parameter. *)

From Stdlib Require Import Ascii.
From S2P Require Import Prelude Text Money Domain Efforts Catalog.
From S2P Require Import Cost Ladder Classify Budget Policy Canonical Names.
#[local] Open Scope string_scope.
#[local] Open Scope oag_scope.
#[local] Open Scope list_scope.
#[local] Open Scope Z_scope.

Inductive StopReason : Type :=
  | StopEndTurn | StopMaxTokens | StopSequence | StopToolUse | StopRefusal.

#[export] Instance StopReason_eq_dec : EqDecision StopReason.
Proof. solve_decision. Defined.

Inductive StreamEvent : Type :=
  | EvStart (model : string) (usage : Usage)
  | EvTextDelta (text : string)
  | EvThinkingDelta (text : string)
  | EvToolUseStart (id name : string)
  | EvToolUseDelta (id partial_json : string)
  | EvToolUseEnd (id : string)
  | EvUsageUpdate (usage : Usage)
  | EvStop (reason : StopReason) (usage : Usage)
  | EvError (message : string).

Record StreamAccumulator : Type := {
  usage : Usage;
  committed : bool;
  text_len : Z;
  tool_calls : Z;
  stop_reason : option StopReason;
  tool_buffers : list (string * string);
  open_tool : option string;
  unparsed : bool;
  saw_refusal : bool;
  held_stop : option StopReason;
  function_names : Names.FunctionNameMap
}.

Module Stream.

(** [adopt_model]. *)
Definition adopt_model (current announced : string) : string :=
  if negb (Str.is_empty announced) then announced else current.

Definition new : StreamAccumulator := {|
  usage := no_usage; committed := false; text_len := 0; tool_calls := 0; stop_reason := None;
  tool_buffers := []; open_tool := None; unparsed := false; saw_refusal := false;
  held_stop := None; function_names := Names.identity |}.

Definition with_function_names (a : StreamAccumulator) (names : Names.FunctionNameMap)
    : StreamAccumulator := {|
  usage := usage a; committed := committed a; text_len := text_len a; tool_calls := tool_calls a;
  stop_reason := stop_reason a; tool_buffers := tool_buffers a; open_tool := open_tool a;
  unparsed := unparsed a; saw_refusal := saw_refusal a; held_stop := held_stop a;
  function_names := names |}.

Definition restore_function_name (a : StreamAccumulator) (wire : string) : string :=
  Names.original (function_names a) wire.

Definition restore_tool_use_id (a : StreamAccumulator) (wire : string) : string :=
  Names.original_tool_use_id (function_names a) wire.

(** [buf.push_str] on the first buffer kept under an id. *)
Fixpoint push_to (id partial : string) (bufs : list (string * string)) : list (string * string) :=
  match bufs with
  | [] => []
  | (k, buf) :: bufs =>
      if Str.eqb k id then (k, buf +:+ partial) :: bufs else (k, buf) :: push_to id partial bufs
  end.

Definition set_usage (a : StreamAccumulator) (u : Usage) (stop : option StopReason)
    : StreamAccumulator := {|
  usage := u; committed := committed a; text_len := text_len a; tool_calls := tool_calls a;
  stop_reason := stop; tool_buffers := tool_buffers a; open_tool := open_tool a;
  unparsed := unparsed a; saw_refusal := saw_refusal a; held_stop := held_stop a;
  function_names := function_names a |}.

Definition set_text (a : StreamAccumulator) (n : Z) : StreamAccumulator := {|
  usage := usage a; committed := committed a; text_len := n; tool_calls := tool_calls a;
  stop_reason := stop_reason a; tool_buffers := tool_buffers a; open_tool := open_tool a;
  unparsed := unparsed a; saw_refusal := saw_refusal a; held_stop := held_stop a;
  function_names := function_names a |}.

Definition set_tools (a : StreamAccumulator) (calls : Z) (bufs : list (string * string))
    (open : option string) : StreamAccumulator := {|
  usage := usage a; committed := committed a; text_len := text_len a; tool_calls := calls;
  stop_reason := stop_reason a; tool_buffers := bufs; open_tool := open;
  unparsed := unparsed a; saw_refusal := saw_refusal a; held_stop := held_stop a;
  function_names := function_names a |}.

Definition set_flags (a : StreamAccumulator) (co un re : bool) (held : option StopReason)
    : StreamAccumulator := {|
  usage := usage a; committed := co; text_len := text_len a; tool_calls := tool_calls a;
  stop_reason := stop_reason a; tool_buffers := tool_buffers a; open_tool := open_tool a;
  unparsed := un; saw_refusal := re; held_stop := held;
  function_names := function_names a |}.

(** [StreamAccumulator::observe]. *)
Definition observe (a : StreamAccumulator) (e : StreamEvent) : StreamAccumulator :=
  match e with
  | EvStart _ u | EvUsageUpdate u => set_usage a (Usages.merge (usage a) u) (stop_reason a)
  | EvStop reason u => set_usage a (Usages.merge (usage a) u) (Some reason)
  | EvTextDelta text | EvThinkingDelta text =>
      set_text a (sat_add U64_MAX (text_len a) (Str.len text))
  | EvToolUseStart id _ =>
      set_tools a (sat_add U64_MAX (tool_calls a) 1)
        (tool_buffers a ++ [(id, EmptyString)]) (Some id)
  | EvToolUseDelta id partial =>
      set_tools a (tool_calls a) (push_to id partial (tool_buffers a)) (open_tool a)
  | EvToolUseEnd _ => set_tools a (tool_calls a) (tool_buffers a) None
  | EvError _ => a
  end.

Definition mark_committed (a : StreamAccumulator) :=
  set_flags a true (unparsed a) (saw_refusal a) (held_stop a).
Definition mark_unparsed (a : StreamAccumulator) :=
  set_flags a (committed a) true (saw_refusal a) (held_stop a).
Definition can_failover (a : StreamAccumulator) : bool := negb (committed a).
Definition current_tool_id (a : StreamAccumulator) : option string :=
  match rev (tool_buffers a) with (id, _) :: _ => Some id | [] => None end.
Definition tool_id_at (a : StreamAccumulator) (index : nat) : option string :=
  fst <$> tool_buffers a !! index.
Definition open_tool_id (a : StreamAccumulator) : option string := open_tool a.
Definition tool_ids (a : StreamAccumulator) : list string := map fst (tool_buffers a).
Definition note_refusal (a : StreamAccumulator) :=
  set_flags a (committed a) (unparsed a) true (held_stop a).
Definition hold_stop (a : StreamAccumulator) (r : StopReason) :=
  set_flags a (committed a) (unparsed a) (saw_refusal a) (Some r).
Definition take_held_stop (a : StreamAccumulator) : option StopReason * StreamAccumulator :=
  (held_stop a, set_flags a (committed a) (unparsed a) (saw_refusal a) None).
Definition saw_tool_call (a : StreamAccumulator) : bool := 0 <? tool_calls a.

Section json.
(** [serde_json::from_str::<Value>(buf).is_ok()]. *)
Context (json_ok : string → bool).

(** [StreamAccumulator::quality_gate]. *)
Definition quality_gate (a : StreamAccumulator) : option QualityGate :=
  if unparsed a then None
  else if (text_len a =? 0) && (tool_calls a =? 0) then Some EmptyResponse
  else
    match stop_reason a with
    | Some StopRefusal => Some Refusal
    | Some StopMaxTokens => Some Truncated
    | _ =>
        let malformed := any (fun kb : string * string =>
          negb (Str.is_empty (Str.trim kb.2)) && negb (json_ok kb.2)) (tool_buffers a) in
        if malformed then Some MalformedToolCall else None
    end.

(** [FunctionNameMap::restore_in_events]. *)
Definition restore_event (m : Names.FunctionNameMap) (e : StreamEvent) : StreamEvent :=
  match e with
  | EvToolUseStart id name =>
      EvToolUseStart (Names.original_tool_use_id m id) (Names.original m name)
  | EvToolUseDelta id partial => EvToolUseDelta (Names.original_tool_use_id m id) partial
  | EvToolUseEnd id => EvToolUseEnd (Names.original_tool_use_id m id)
  | e => e
  end.

Definition restore_in_events (m : Names.FunctionNameMap) (es : list StreamEvent) : list StreamEvent :=
  map (restore_event m) es.

Definition observe_all (a : StreamAccumulator) (es : list StreamEvent) : StreamAccumulator :=
  fold_left observe es a.

(** ** What a stream said *)

Definition event_text (e : StreamEvent) : option string :=
  match e with EvTextDelta t | EvThinkingDelta t => Some t | _ => None end.
Definition event_start (e : StreamEvent) : option string :=
  match e with EvToolUseStart id _ => Some id | _ => None end.
Definition event_stop (e : StreamEvent) : option StopReason :=
  match e with EvStop r _ => Some r | _ => None end.
Definition event_usage (e : StreamEvent) : option Usage :=
  match e with EvStart _ u | EvUsageUpdate u | EvStop _ u => Some u | _ => None end.

(** The fragments sent for one tool call, in order. *)
Fixpoint deltas (id : string) (es : list StreamEvent) : string :=
  match es with
  | [] => EmptyString
  | EvToolUseDelta k partial :: es => if Str.eqb k id then partial +:+ deltas id es else deltas id es
  | _ :: es => deltas id es
  end.

(** Each call with the fragments that follow its start. *)
Fixpoint calls (es : list StreamEvent) : list (string * string) :=
  match es with
  | [] => []
  | EvToolUseStart id _ :: es => (id, deltas id es) :: calls es
  | _ :: es => calls es
  end.

Definition last_stop (es : list StreamEvent) (before : option StopReason) : option StopReason :=
  fold_left (fun s e => match event_stop e with Some r => Some r | None => s end) es before.

Lemma push_to_map id partial bufs :
  NoDup (map fst bufs) →
  push_to id partial bufs =
    map (fun kb : string * string =>
      (kb.1, if Str.eqb id kb.1 then kb.2 +:+ partial else kb.2)) bufs.
Proof.
  induction bufs as [|[k b] bufs IH]; simpl; [done|]. intros [Hn Hd]%NoDup_cons.
  destruct (Str.eqb k id) eqn:E.
  - apply Str.str_eqb_eq in E as ->. rewrite Str.str_eqb_refl. f_equal.
    rewrite list_elem_of_In in Hn. rewrite <-(map_id bufs) at 1. apply map_ext_in.
    intros [k' b'] Hin. cbn. rewrite (proj2 (Str.str_eqb_neq id k')); [done|]. intros ->.
    apply Hn. apply (in_map fst) in Hin. done.
  - assert (Str.eqb id k = false) as -> by (rewrite Str.str_eqb_neq in *; congruence).
    f_equal. by apply IH.
Qed.

(** The buffers after a stream whose calls have distinct ids. *)
Lemma buffers_spec es a :
  NoDup (map fst (tool_buffers a) ++ filter_map event_start es) →
  tool_buffers (observe_all a es) =
    map (fun kb : string * string => (kb.1, kb.2 +:+ deltas kb.1 es)) (tool_buffers a) ++ calls es.
Proof.
  unfold observe_all. revert a; induction es as [|e es IH]; intros a Hnd; cbn [fold_left].
  { cbn [calls deltas]. rewrite app_nil_r. rewrite <-(map_id (tool_buffers a)) at 1.
    apply map_ext. intros [k b]. cbn. by rewrite Str.append_empty_r. }
  destruct e as [| | |id n|id partial| | | |]; cbn [filter_map event_start calls] in *;
    try (rewrite IH by done; done).
  - rewrite IH.
    + cbn [observe set_tools tool_buffers]. rewrite map_app, <-app_assoc. done.
    + cbn [observe set_tools tool_buffers]. rewrite map_app, <-app_assoc. done.
  - assert (NoDup (map fst (tool_buffers a))) as Hnd' by (by apply NoDup_app in Hnd as [? _]).
    rewrite IH; cbn [observe set_tools tool_buffers]; rewrite push_to_map by done; rewrite map_map.
    + f_equal. apply map_ext. intros [k b]. cbn. f_equal. destruct (Str.eqb id k); [|done].
      by rewrite Str.append_assoc.
    + done.
Qed.

Lemma text_spec es a :
  0 ≤ text_len a →
  0 ≤ text_len (observe_all a es) ∧
  (text_len (observe_all a es) = 0 ↔
    text_len a = 0 ∧ ∀ t, In t (filter_map event_text es) → t = EmptyString).
Proof.
  unfold observe_all. revert a; induction es as [|e es IH]; intros a Ha; cbn [fold_left].
  { naive_solver. }
  assert (text_len (observe a e) = match event_text e with
    | Some t => sat_add U64_MAX (text_len a) (Str.len t) | None => text_len a end) as He by by destruct e.
  assert (0 ≤ text_len (observe a e)) as Hpos.
  { rewrite He. destruct (event_text e) as [t|]; [|done]. pose proof (Str.len_nonneg t).
    unfold sat_add, U64_MAX. lia. }
  destruct (IH _ Hpos) as [? ->]. split; [done|]. rewrite He. cbn [filter_map].
  destruct (event_text e) as [t|]; [|done]. pose proof (Str.len_nonneg t).
  assert (sat_add U64_MAX (text_len a) (Str.len t) = 0 ↔ text_len a = 0 ∧ t = EmptyString) as ->.
  { unfold sat_add, U64_MAX. split.
    - intros Hz. split; [lia|]. assert (Str.len t = 0) by lia. by destruct t.
    - intros [-> ->]. done. }
  cbn [In]. split.
  - intros [[? ->] Hes]. split; [done|]. intros t' [<-|Ht]; auto.
  - intros [? Hes]. split; [|auto]. auto.
Qed.

Lemma calls_zero es a :
  0 ≤ tool_calls a →
  0 ≤ tool_calls (observe_all a es) ∧
  (tool_calls (observe_all a es) = 0 ↔ tool_calls a = 0 ∧ filter_map event_start es = []).
Proof.
  unfold observe_all. revert a; induction es as [|e es IH]; intros a Ha; cbn [fold_left].
  { naive_solver. }
  assert (tool_calls (observe a e) = match event_start e with
    | Some _ => sat_add U64_MAX (tool_calls a) 1 | None => tool_calls a end) as He by by destruct e.
  assert (0 ≤ tool_calls (observe a e)) as Hpos.
  { rewrite He. destruct (event_start e); [|done]. unfold sat_add, U64_MAX. lia. }
  destruct (IH _ Hpos) as [? ->]. split; [done|]. rewrite He. cbn [filter_map].
  destruct (event_start e); [|done]. unfold sat_add, U64_MAX. split; [lia|by intros [_ ?]].
Qed.

Lemma stop_spec es a : stop_reason (observe_all a es) = last_stop es (stop_reason a).
Proof.
  unfold observe_all, last_stop. revert a; induction es as [|e es IH]; intros a; [done|].
  cbn [fold_left]. rewrite IH. by destruct e.
Qed.

Lemma unparsed_spec es a : unparsed (observe_all a es) = unparsed a.
Proof.
  unfold observe_all. revert a; induction es as [|e es IH]; intros a; [done|].
  cbn [fold_left]. rewrite IH. by destruct e.
Qed.

Lemma usage_spec es a :
  usage (observe_all a es) = fold_left Usages.merge (filter_map event_usage es) (usage a).
Proof.
  unfold observe_all. revert a; induction es as [|e es IH]; intros a; [done|].
  cbn [fold_left filter_map]. rewrite IH. by destruct e.
Qed.

(** A call's arguments that say something and are not JSON. *)
Definition bad_arguments (args : string) : Prop :=
  Str.trim args ≠ EmptyString ∧ json_ok args = false.

(** The verdict on an answer is a function of what it said.  For a stream
    whose tool calls have distinct ids: empty when it carried neither text nor
    a call; else refused or truncated as its last stop says; else malformed when
    the fragments of some call, put together, say something that is not JSON --
    blank arguments are a call without any; else fine.  And what is billed is
    the merge of every usage report. *)
Theorem verdict_of_stream names es :
  NoDup (filter_map event_start es) →
  let a := observe_all (with_function_names new names) es in
  let nothing := (∀ t, In t (filter_map event_text es) → t = EmptyString) ∧
    filter_map event_start es = [] in
  (quality_gate a = Some EmptyResponse ↔ nothing) ∧
  (¬ nothing →
    match last_stop es None with
    | Some StopRefusal => quality_gate a = Some Refusal
    | Some StopMaxTokens => quality_gate a = Some Truncated
    | _ => quality_gate a = Some MalformedToolCall ∧ (∃ id args, In (id, args) (calls es) ∧ bad_arguments args)
        ∨ quality_gate a = None ∧ ∀ id args, In (id, args) (calls es) → ¬ bad_arguments args
    end) ∧
  usage a = Usages.merged (filter_map event_usage es).
Proof.
  intros Hnd a nothing.
  set (a0 := with_function_names new names) in *.
  destruct (text_spec es a0) as [_ Ht]; [done|]. destruct (calls_zero es a0) as [_ Hc]; [done|].
  fold a in Ht, Hc.
  assert ((text_len a =? 0) && (tool_calls a =? 0) = true ↔ nothing) as Hn.
  { rewrite andb_true_iff, !Z.eqb_eq, Ht, Hc. unfold nothing, a0; cbn. tauto. }
  pose proof (buffers_spec es a0) as Hb. fold a in Hb. cbn [a0 with_function_names new tool_buffers map app] in Hb.
  specialize (Hb Hnd).
  pose proof (stop_spec es a0) as Hs. fold a in Hs. cbn [a0 with_function_names new stop_reason] in Hs.
  assert (unparsed a = false) as Hu by (unfold a; by rewrite unparsed_spec).
  assert (usage a = Usages.merged (filter_map event_usage es)) as Hus by (unfold a; by rewrite usage_spec).
  clearbody a. unfold quality_gate. rewrite Hu, Hs, Hb. clear a0 Ht Hc Hs Hb Hu.
  assert (any (fun kb : string * string => negb (Str.is_empty (Str.trim kb.2)) && negb (json_ok kb.2))
    (calls es) = true ↔ ∃ id args, In (id, args) (calls es) ∧ bad_arguments args) as Hm.
  { rewrite any_true. unfold bad_arguments. split.
    - intros ([id args] & Hin & [Ha Hj]%andb_true_iff). cbn [fst snd] in *. exists id, args. split; [done|].
      apply negb_true_iff in Ha, Hj. split; [|done]. intros Hz. by rewrite Hz in Ha.
    - intros (id & args & Hin & Ha & Hj). exists (id, args). split; [done|]. cbn [fst snd]. rewrite Hj.
      destruct (Str.trim args) eqn:E; [done|]. done. }
  destruct ((text_len a =? 0) && (tool_calls a =? 0)) eqn:E.
  - split_and!; [split; [|done]; intros _; by apply Hn|intros H; exfalso; by apply H, Hn|done].
  - assert (¬ nothing) as Hnn by (intros H%Hn; congruence).
    split_and!; [|intros _|done].
    + split; [|done]. destruct (last_stop es None) as [[]|]; repeat case_match; done.
    + destruct (any _ (calls es)) eqn:Ea.
      * destruct (last_stop es None) as [[]|]; try done; left; (split; [done|by apply Hm]).
      * assert (∀ id args, In (id, args) (calls es) → ¬ bad_arguments args) as Hno.
        { intros id args Hin Hbad. assert (false = true) by (apply Hm; eauto). done. }
        destruct (last_stop es None) as [[]|]; try done; right; done.
Qed.
End json.

(** How a provider cuts its stream does not matter: splitting a run of
    text, or a call's arguments, in two at any point leaves the accumulator in
    the same state. *)
Theorem fragmentation_irrelevant a s t :
  (∀ id, observe_all a [EvToolUseDelta id s; EvToolUseDelta id t] =
         observe_all a [EvToolUseDelta id (s +:+ t)]) ∧
  observe_all a [EvTextDelta s; EvTextDelta t] = observe_all a [EvTextDelta (s +:+ t)] ∧
  observe_all a [EvThinkingDelta s; EvThinkingDelta t] = observe_all a [EvThinkingDelta (s +:+ t)].
Proof.
  assert (∀ id bufs, push_to id t (push_to id s bufs) = push_to id (s +:+ t) bufs) as Hp.
  { intros id bufs. induction bufs as [|[k b] bufs IH]; cbn [push_to]; [done|].
    destruct (Str.eqb k id) eqn:E; cbn [push_to]; rewrite E.
    - by rewrite Str.append_assoc.
    - by rewrite IH. }
  assert (∀ n, sat_add U64_MAX (sat_add U64_MAX n (Str.len s)) (Str.len t) =
    sat_add U64_MAX n (Str.len (s +:+ t))) as Hs.
  { intros n. rewrite Str.len_append. pose proof (Str.len_nonneg t). unfold sat_add. lia. }
  unfold observe_all; cbn [fold_left observe]. split_and!.
  - intros id. unfold set_tools; cbn. by rewrite Hp.
  - unfold set_text; cbn [text_len usage committed tool_calls stop_reason tool_buffers open_tool
      unparsed saw_refusal held_stop function_names]. by rewrite Hs.
  - unfold set_text; cbn [text_len usage committed tool_calls stop_reason tool_buffers open_tool
      unparsed saw_refusal held_stop function_names]. by rewrite Hs.
Qed.

Lemma verdict_of_stream_witness :
  let es := [EvStart "m" no_usage; EvToolUseStart "t1" "read"; EvToolUseDelta "t1" "{x";
             EvToolUseDelta "t1" "pa"; EvToolUseEnd "t1"; EvStop StopToolUse no_usage] in
  quality_gate (fun s => Str.eqb s "{}") (observe_all (with_function_names new Names.identity) es)
    = Some MalformedToolCall.
Proof.
  intros es. destruct (verdict_of_stream (fun s => Str.eqb s "{}") Names.identity es) as (_ & H & _).
  - unfold es. apply (bool_decide_unpack (NoDup _)). reflexivity.
  - destruct H as [[H _]|[H Hno]].
    + intros [_ Hs]. discriminate Hs.
    + exact H.
    + exfalso. apply (Hno "t1" "{xpa"); [left; reflexivity|]. split; [discriminate|reflexivity].
Defined.

End Stream.
