(* ===== verification/Anthropic.v ===== *)
(** * The Anthropic Messages dialect

    [crates/oag-proto/src/anthropic.rs]: requests out and in, responses and
    stream events in.  Rendering a stream is [AnthropicStream].  Printing and
    parsing JSON texts are parameters; the [f32] temperature is left out. *)

From Stdlib Require Import Ascii.
From S2P Require Import Prelude Text Money Domain Efforts Catalog Cost.
From S2P Require Import Ladder Classify Budget Policy Canonical Wire Names Stream.
#[local] Open Scope string_scope.
#[local] Open Scope oag_scope.
#[local] Open Scope list_scope.
#[local] Open Scope Z_scope.

Inductive ThinkingMode : Type := ModeBudget | ModeAdaptive.

Module Anthropic.
Import Js Wire.

Definition MIN_THINKING_BUDGET : Z := 1024.

(** ** Thinking *)

(** [split(['-', '.', '_', ':'])]. *)
Definition separator (c : ascii) : bool := any (Ascii.eqb c) ["-"; "."; "_"; ":"]%char.

Fixpoint segments (s : string) : list string :=
  match s with
  | EmptyString => [EmptyString]
  | String a s =>
      if separator a then EmptyString :: segments s
      else match segments s with
           | [] => [String a EmptyString]
           | p :: ps => String a p :: ps
           end
  end.

Definition generation (upstream_model : string) : option (Z * Z) :=
  match keep (fun n => n <? 100) (filter_map (parse_uint U32_MAX) (segments upstream_model)) with
  | [] => None
  | major :: rest => Some (major, default 0 (head rest))
  end.

Definition thinking_mode (upstream_model : string) : option ThinkingMode :=
  match generation upstream_model with
  | None => None
  | Some (major, minor) =>
      Some (if (4 <? major) || (major =? 4) && (6 <=? minor) then ModeAdaptive else ModeBudget)
  end.

Definition anthropic_budget (r : CanonicalRequest) : option Z :=
  match Canonical.thinking_request r with
  | None => None
  | Some (asked, _) =>
      if max_tokens r <? 1 then None
      else
        let budget := Z.min asked (max_tokens r - 1) in
        if MIN_THINKING_BUDGET <=? budget then Some budget else None
  end.

(** ** Requests out *)

Definition ephemeral : Json := JObject [("type", JString "ephemeral")].

Fixpoint render_block_with (ids : Names.ToolUseIds) (b : ContentBlock) : Json :=
  match b with
  | BText text cache_control =>
      JObject (put_some cache_control "cache_control" (fun _ => ephemeral)
        [("type", JString "text"); ("text", JString text)])
  | BImage media_type data =>
      JObject [("type", JString "image");
        ("source", JObject [("type", JString "base64"); ("media_type", JString media_type);
                            ("data", JString data)])]
  | BToolUse id name input =>
      JObject [("type", JString "tool_use"); ("id", JString (Names.id_wire ids id));
        ("name", JString name); ("input", input)]
  | BToolResult tool_use_id content is_error =>
      JObject [("type", JString "tool_result");
        ("tool_use_id", JString (Names.id_wire ids tool_use_id));
        ("content", match content with
           | ResultText text => JString text
           | ResultBlocks blocks => JArray (map (render_block_with ids) blocks) end);
        ("is_error", JBool is_error)]
  | BThinking text signature =>
      JObject (put_some signature "signature" JString
        [("type", JString "thinking"); ("thinking", JString text)])
  end.

Definition render_block : ContentBlock → Json := render_block_with Names.no_ids.

Definition render_message (ids : Names.ToolUseIds) (m : Message) : Json :=
  JObject [("role", JString (match role m with RoleAssistant => "assistant" | _ => "user" end));
    ("content", JArray (map (render_block_with ids) (content m)))].

Definition render_tool (t : Tool) : Json :=
  JObject (put_some (tool_cache_control t) "cache_control" (fun _ => ephemeral)
    [("name", JString (tool_name t)); ("description", JString (description t));
     ("input_schema", input_schema t)]).

Definition render_tool_choice (c : ToolChoice) : Json :=
  match c with
  | ChoiceAuto => JObject [("type", JString "auto")]
  | ChoiceRequired => JObject [("type", JString "any")]
  | ChoiceNone => JObject [("type", JString "none")]
  | ChoiceTool name => JObject [("type", JString "tool"); ("name", JString name)]
  end.

(** The thinking fields, for the model's generation. *)
Definition render_thinking (r : CanonicalRequest) (upstream_model : string) (body : Fields) : Fields :=
  match thinking_mode upstream_model with
  | Some ModeBudget =>
      put_some (anthropic_budget r) "thinking"
        (fun budget => JObject [("type", JString "enabled"); ("budget_tokens", num budget)]) body
  | Some ModeAdaptive =>
      match Canonical.thinking_request r with
      | Some (_, effort) =>
          let body := put "thinking" (JObject [("type", JString "adaptive")]) body in
          let effort := if bool_decide (effort = Ultra) then Max else effort in
          put "output_config" (JObject [("effort", JString (Canonical.effort_as_str effort))]) body
      | None => body
      end
  | None => body
  end.

Definition render_request (r : CanonicalRequest) (upstream_model : string) : result Json Error :=
  let ids := Names.ids_for_anthropic r in
  let body := [("model", JString upstream_model); ("max_tokens", num (max_tokens r));
    ("stream", JBool (stream r)); ("messages", JArray (map (render_message ids) (messages r)))] in
  let body := put_nonempty (system r) "system" (JArray (map render_block (system r))) body in
  let body := put_nonempty (req_tools r) "tools" (JArray (map render_tool (req_tools r))) body in
  let body := render_thinking r upstream_model body in
  if match response_format r with Some f => Canonical.constrains_output f | None => false end
  then Err (UnsupportedField "response_format" AnthropicMessages)
  else if bool_decide (is_Some (previous_response_id r))
  then Err (UnsupportedField "previous_response_id" AnthropicMessages)
  else
    let body := put_some (tool_choice r) "tool_choice" render_tool_choice body in
    Ok (JObject (put_nonempty (stop r) "stop_sequences" (strings (stop r)) body)).

(** ** Requests in *)

Section codec.
(** [Value::to_string] and [serde_json::from_str]. *)
Context (to_string : Json → string) (from_json : string → option Json).

Definition cache_of (v : Json) : option CacheControl :=
  (fun _ => Ephemeral) <$> as_str (idx (idx v "cache_control") "type").

(** The content of a tool result is its own list of blocks: the recursion is
    into a field of the value. *)
Fixpoint parse_block (v : Json) : option ContentBlock :=
  let result_content :=
    match v with
    | JObject fs =>
        (fix seek (fs : Fields) : ToolResultContent :=
          match fs with
          | [] => ResultText (to_string JNull)
          | (k, c) :: fs =>
              if Str.eqb k "content" then
                match c with
                | JString s => ResultText s
                | JArray items => ResultBlocks (filter_map (fun o => o) (map parse_block items))
                | other => ResultText (to_string other)
                end
              else seek fs
          end) fs
    | _ => ResultText (to_string JNull)
    end in
  match as_str (idx v "type") with
  | None => None
  | Some kind =>
      if Str.eqb kind "text" then
        (fun text => BText text (cache_of v)) <$> as_str (idx v "text")
      else if Str.eqb kind "image" then
        match as_str (idx (idx v "source") "media_type"), as_str (idx (idx v "source") "data") with
        | Some media_type, Some data => Some (BImage media_type data)
        | _, _ => None
        end
      else if Str.eqb kind "tool_use" then
        match as_str (idx v "id"), as_str (idx v "name") with
        | Some id, Some name => Some (BToolUse id name (idx v "input"))
        | _, _ => None
        end
      else if Str.eqb kind "tool_result" then
        (fun id => BToolResult id result_content (default false (as_bool (idx v "is_error"))))
          <$> as_str (idx v "tool_use_id")
      else if Str.eqb kind "thinking" then
        Some (BThinking (str_or "" (idx v "thinking")) (as_str (idx v "signature")))
      else None
  end.

Definition parse_content (v : Json) : list ContentBlock :=
  match v with
  | JString s => [BText s None]
  | JArray items => filter_map parse_block items
  | _ => []
  end.

Definition parse_message (v : Json) : option Message :=
  match as_str (idx v "role") with
  | None => None
  | Some r =>
      Some {| role := if Str.eqb r "assistant" then RoleAssistant
                      else if Str.eqb r "system" then RoleSystem else RoleUser;
              content := parse_content (idx v "content") |}
  end.

Definition parse_tool (v : Json) : option Tool :=
  match as_str (idx v "name") with
  | None => None
  | Some name => Some {|
      tool_name := name; description := str_or "" (idx v "description");
      input_schema := idx v "input_schema"; tool_cache_control := cache_of v |}
  end.

Definition parse_tool_choice (v : Json) : option ToolChoice :=
  match as_str (idx v "type") with
  | None => None
  | Some t =>
      if Str.eqb t "auto" then Some ChoiceAuto
      else if Str.eqb t "any" then Some ChoiceRequired
      else if Str.eqb t "none" then Some ChoiceNone
      else if Str.eqb t "tool" then ChoiceTool <$> as_str (idx v "name")
      else None
  end.

(** [u32::try_from(n).ok()]. *)
Definition try_u32 (n : Z) : option Z := if n <=? U32_MAX then Some n else None.

Definition parse_budget (body : Json) : option Z :=
  match as_u64 (idx (idx body "thinking") "budget_tokens") with Some b => try_u32 b | None => None end.

Definition parse_effort (body : Json) : option Effort :=
  match parse_budget body with
  | Some b => Some (Canonical.from_budget b)
  | None =>
      if bool_decide (as_str (idx (idx body "thinking") "type") = Some "adaptive") then
        match as_str (idx (idx body "output_config") "effort") with
        | Some s => Some (default Medium (Canonical.effort_parse s))
        | None => Some Medium
        end
      else None
  end.

Definition parse_request (body : Json) : CanonicalRequest := {|
  model := str_or "" (idx body "model");
  system := parse_content (idx body "system");
  messages := filter_map parse_message (array_or_empty (idx body "messages"));
  req_tools := filter_map parse_tool (array_or_empty (idx body "tools"));
  max_tokens := default 4096 (try_u32 (default 4096 (as_u64 (idx body "max_tokens"))));
  stream := default false (as_bool (idx body "stream"));
  thinking_budget := parse_budget body;
  thinking_effort := parse_effort body;
  client_session := as_str (idx (idx body "metadata") "user_id");
  tool_choice := parse_tool_choice (idx body "tool_choice");
  response_format := None;
  stop := filter_map as_str (array_or_empty (idx body "stop_sequences"));
  previous_response_id := None;
  passthrough := None |}.

(** ** Responses in *)

Definition parse_usage (v : Json) : Usage := {|
  input_tokens := default 0 (as_u64 (idx v "input_tokens"));
  output_tokens := default 0 (as_u64 (idx v "output_tokens"));
  cache_read_tokens := default 0 (as_u64 (idx v "cache_read_input_tokens"));
  cache_write_tokens := default 0 (as_u64 (idx v "cache_creation_input_tokens")) |}.

Definition stop_reason_str (r : StopReason) : string :=
  match r with
  | StopMaxTokens => "max_tokens"
  | StopSequence => "stop_sequence"
  | StopToolUse => "tool_use"
  | StopRefusal => "refusal"
  | StopEndTurn => "end_turn"
  end.

Definition parse_stop_reason (raw : string) : StopReason :=
  if Str.eqb raw "max_tokens" then StopMaxTokens
  else if Str.eqb raw "stop_sequence" then StopSequence
  else if Str.eqb raw "tool_use" then StopToolUse
  else if Str.eqb raw "refusal" then StopRefusal
  else StopEndTurn.

(** The events of one payload, the accumulator knowing which call is open. *)
Definition event_of (v : Json) (acc : StreamAccumulator) : list StreamEvent :=
  let t := str_or "" (idx v "type") in
  if Str.eqb t "message_start" then
    [EvStart (str_or "" (idx (idx v "message") "model")) (parse_usage (idx (idx v "message") "usage"))]
  else if Str.eqb t "content_block_start" then
    let block := idx v "content_block" in
    if Str.eqb (str_or "" (idx block "type")) "tool_use"
    then [EvToolUseStart (str_or "" (idx block "id")) (str_or "" (idx block "name"))] else []
  else if Str.eqb t "content_block_delta" then
    let delta := idx v "delta" in
    let d := str_or "" (idx delta "type") in
    if Str.eqb d "text_delta" then [EvTextDelta (str_or "" (idx delta "text"))]
    else if Str.eqb d "thinking_delta" then [EvThinkingDelta (str_or "" (idx delta "thinking"))]
    else if Str.eqb d "input_json_delta" then
      [EvToolUseDelta (default "" (Stream.current_tool_id acc)) (str_or "" (idx delta "partial_json"))]
    else []
  else if Str.eqb t "content_block_stop" then
    match Stream.open_tool_id acc with Some id => [EvToolUseEnd id] | None => [] end
  else if Str.eqb t "message_delta" then
    EvUsageUpdate (parse_usage (idx v "usage"))
    :: match as_str (idx (idx v "delta") "stop_reason") with
       | Some reason => [EvStop (parse_stop_reason reason) (parse_usage (idx v "usage"))]
       | None => []
       end
  else if Str.eqb t "error" then
    [EvError (str_or "upstream error" (idx (idx v "error") "message"))]
  else [].

Definition parse_event (payload : string) (acc : StreamAccumulator) : result (list StreamEvent) Error :=
  let? v := ok_or (from_json payload) (Serde payload) in
  Ok (event_of v acc).

Definition block_events (block : Json) : list StreamEvent :=
  let t := str_or "" (idx block "type") in
  if Str.eqb t "text" then [EvTextDelta (str_or "" (idx block "text"))]
  else if Str.eqb t "thinking" then [EvThinkingDelta (str_or "" (idx block "thinking"))]
  else if Str.eqb t "tool_use" then
    let id := str_or "" (idx block "id") in
    [EvToolUseStart id (str_or "" (idx block "name")); EvToolUseDelta id (to_string (idx block "input"));
     EvToolUseEnd id]
  else [].

Definition parse_response (body : Json) : list StreamEvent :=
  let usage := parse_usage (idx body "usage") in
  EvUsageUpdate usage
  :: List.concat (map block_events (array_or_empty (idx body "content")))
  ++ match as_str (idx body "stop_reason") with
     | Some reason => [EvStop (parse_stop_reason reason) usage]
     | None => []
     end.

(** ** What the dialect keeps of a request *)

Lemma generation_dated : generation "claude-opus-4-5-20251101" = Some (4, 5).
Proof. reflexivity. Qed.

Definition thinking_key (k : string) : bool := Str.eqb "thinking" k || Str.eqb "output_config" k.

Lemma field_thinking k r upstream_model body :
  field k (render_thinking r upstream_model body) =
  match field k (render_thinking r upstream_model []) with Some v => Some v | None => field k body end.
Proof.
  unfold render_thinking. destruct (thinking_mode upstream_model) as [[]|]; [| |done].
  - rewrite !field_put_some. by destruct (Str.eqb "thinking" k), (anthropic_budget r).
  - destruct (Canonical.thinking_request r) as [[asked effort]|]; [|done].
    rewrite !field_put. by destruct (Str.eqb "output_config" k), (Str.eqb "thinking" k).
Qed.

Lemma field_thinking_other k r upstream_model :
  thinking_key k = false → field k (render_thinking r upstream_model []) = None.
Proof.
  intros [H1 H2]%orb_false_iff. unfold render_thinking.
  destruct (thinking_mode upstream_model) as [[]|]; [| |done].
  - by rewrite field_put_some, H1.
  - destruct (Canonical.thinking_request r) as [[asked effort]|]; [|done].
    by rewrite !field_put, H1, H2.
Qed.

Definition or_none {A} (l : list A) (v : Json) : option Json := match l with [] => None | _ => Some v end.

(** What the keys of a rendered body read. *)
Lemma rendered r upstream_model body :
  render_request r upstream_model = Ok body →
  match response_format r with Some f => Canonical.constrains_output f | None => false end = false ∧
  previous_response_id r = None ∧
  ∃ fs, body = JObject fs ∧
    field "model" fs = Some (JString upstream_model) ∧
    field "max_tokens" fs = Some (num (max_tokens r)) ∧
    field "stream" fs = Some (JBool (stream r)) ∧
    field "messages" fs =
      Some (JArray (map (render_message (Names.ids_for_anthropic r)) (messages r))) ∧
    field "system" fs = or_none (system r) (JArray (map render_block (system r))) ∧
    field "tools" fs = or_none (req_tools r) (JArray (map render_tool (req_tools r))) ∧
    field "tool_choice" fs = render_tool_choice <$> tool_choice r ∧
    field "stop_sequences" fs = or_none (stop r) (strings (stop r)) ∧
    field "metadata" fs = None ∧
    field "thinking" fs = field "thinking" (render_thinking r upstream_model []) ∧
    field "output_config" fs = field "output_config" (render_thinking r upstream_model []).
Proof.
  unfold render_request. destruct (match response_format r with Some _ => _ | None => _ end); [by intros|].
  destruct (previous_response_id r);
    [by rewrite bool_decide_true by done|rewrite bool_decide_false by by intros []].
  intros [= <-].
  do 2 (split; [done|]). eexists. split; [done|].
  repeat split;
    rewrite field_put_nonempty, field_put_some, field_thinking, !field_put_nonempty;
    try (rewrite field_thinking_other by done); try (by destruct (tool_choice r)); try done.
  all: cbn; by destruct (field _ _).
Qed.

(** A request never asks this vendor to think in a way it refuses.  The
    body carries a token budget only for a model of a generation before 4.6,
    and it is then at least the vendor's floor, strictly below [max_tokens] and
    no more than was asked; it carries the adaptive form, with one of the
    vendor's own effort words, only for a later one; for a name whose
    generation cannot be read, and for a request that did not ask, neither. *)
Theorem thinking_is_acceptable r upstream_model body :
  0 ≤ max_tokens r →
  render_request r upstream_model = Ok body →
  let thinking := idx body "thinking" in
  match as_str (idx thinking "type") with
  | Some "enabled" => ∃ major minor n asked effort, generation upstream_model = Some (major, minor) ∧
      (major < 4 ∨ major = 4 ∧ minor < 6) ∧ idx thinking "budget_tokens" = num n ∧
      MIN_THINKING_BUDGET ≤ n < max_tokens r ∧
      Canonical.thinking_request r = Some (asked, effort) ∧ n ≤ asked
  | Some "adaptive" => ∃ major minor, generation upstream_model = Some (major, minor) ∧
      (4 < major ∨ major = 4 ∧ 6 ≤ minor) ∧ is_Some (Canonical.thinking_request r) ∧
      ∃ e, as_str (idx (idx body "output_config") "effort") = Some (Canonical.effort_as_str e) ∧
        e ≠ Ultra
  | Some _ => False
  | None => thinking = JNull
  end.
Proof.
  intros Hmax (_ & _ & fs & -> & _ & _ & _ & _ & _ & _ & _ & _ & _ & Ht & Ho)%rendered.
  cbn [idx]. rewrite Ht, Ho. unfold render_thinking, thinking_mode.
  destruct (generation upstream_model) as [[major minor]|] eqn:Eg; [|done].
  destruct ((4 <? major) || (major =? 4) && (6 <=? minor)) eqn:Ev.
  - destruct (Canonical.thinking_request r) as [[asked effort]|]; [|done].
    rewrite !field_put. cbn. exists major, minor. split; [done|]. split; [bool_to_prop; lia|].
    split; [done|]. exists (if bool_decide (effort = Ultra) then Max else effort).
    split; [done|]. by case_bool_decide.
  - unfold anthropic_budget. destruct (Canonical.thinking_request r) as [[asked effort]|]; [|done].
    destruct (max_tokens r <? 1) eqn:Em; [done|].
    destruct (MIN_THINKING_BUDGET <=? Z.min asked (max_tokens r - 1)) eqn:Eb; [|done].
    rewrite field_put_some. cbn. exists major, minor, (Z.min asked (max_tokens r - 1)), asked, effort.
    bool_to_prop. unfold MIN_THINKING_BUDGET in *. repeat split; try done; lia.
Qed.

(** ** The round trip of a request *)

(** A block with its ids in the vendor's spelling. *)
Fixpoint spell_block (ids : Names.ToolUseIds) (b : ContentBlock) : ContentBlock :=
  match b with
  | BToolUse id name input => BToolUse (Names.id_wire ids id) name input
  | BToolResult id (ResultBlocks bs) e =>
      BToolResult (Names.id_wire ids id) (ResultBlocks (map (spell_block ids) bs)) e
  | BToolResult id c e => BToolResult (Names.id_wire ids id) c e
  | b => b
  end.

Lemma block_back ids b : parse_block (render_block_with ids b) = Some (spell_block ids b).
Proof.
  induction b as [text [[]|]|media data|id name input|id text e|id blocks e IH|text [s|]]
    using Canonical.block_induction; try done.
  cbn. do 3 f_equal. induction IH as [|b bs Hb _ IH]; [done|]. cbn. rewrite Hb. by rewrite IH.
Qed.

Lemma spell_none b : spell_block Names.no_ids b = b.
Proof.
  induction b as [| | | |id blocks e IH|] using Canonical.block_induction; try done.
  cbn. f_equal. f_equal. induction IH as [|b bs Hb _ IH]; [done|]. cbn. by rewrite Hb, IH.
Qed.

Definition spell_message (ids : Names.ToolUseIds) (m : Message) : Message := {|
  role := match role m with RoleAssistant => RoleAssistant | _ => RoleUser end;
  content := map (spell_block ids) (content m) |}.

Lemma blocks_back ids bs : filter_map parse_block (map (render_block_with ids) bs) = map (spell_block ids) bs.
Proof. induction bs as [|b bs IH]; [done|]. cbn [map filter_map]. by rewrite block_back, IH. Qed.

Lemma message_back ids m : parse_message (render_message ids m) = Some (spell_message ids m).
Proof.
  unfold parse_message, render_message, spell_message. cbn. rewrite blocks_back. by destruct (role m).
Qed.

Lemma messages_back ids ms :
  filter_map parse_message (map (render_message ids) ms) = map (spell_message ids) ms.
Proof. induction ms as [|m ms IH]; [done|]. cbn [filter_map map]. by rewrite message_back, IH. Qed.

Lemma tool_back t : parse_tool (render_tool t) = Some t.
Proof. by destruct t as [? ? ? [[]|]]. Qed.

Lemma choice_back c : parse_tool_choice (render_tool_choice c) = Some c.
Proof. by destruct c. Qed.

(** A list written only when it holds something reads back as it is. *)
Lemma or_none_back {A} (f : Json → option A) (g : A → Json) l :
  (∀ x, f (g x) = Some x) →
  filter_map f (array_or_empty (default JNull (or_none l (JArray (map g l))))) = l.
Proof. intros H. destruct l; [done|]. apply (filter_map_all f g). auto. Qed.

Lemma thinking_budget_range r n :
  0 ≤ max_tokens r ≤ U32_MAX → anthropic_budget r = Some n → 0 ≤ n ≤ U32_MAX.
Proof.
  unfold anthropic_budget, MIN_THINKING_BUDGET. intros Hm.
  destruct (Canonical.thinking_request r) as [[asked e]|]; [|done].
  destruct (max_tokens r <? 1); [done|]. case_match eqn:E; [|done]. intros [= <-]. bool_to_prop. lia.
Qed.

(** The thinking fields read back. *)
Lemma thinking_back r upstream_model fs :
  0 ≤ max_tokens r ≤ U32_MAX →
  field "thinking" fs = field "thinking" (render_thinking r upstream_model []) →
  field "output_config" fs = field "output_config" (render_thinking r upstream_model []) →
  let budget := match thinking_mode upstream_model with
    | Some ModeBudget => anthropic_budget r | _ => None end in
  parse_budget (JObject fs) = budget ∧
  parse_effort (JObject fs) = match thinking_mode upstream_model with
    | Some ModeAdaptive =>
        (fun x : Z * Effort => if bool_decide (x.2 = Ultra) then Max else x.2)
          <$> Canonical.thinking_request r
    | _ => Canonical.from_budget <$> budget
    end.
Proof.
  intros Hm Ht Ho budget. unfold parse_effort, parse_budget. cbn [idx]. rewrite Ht, Ho.
  unfold budget, render_thinking. destruct (thinking_mode upstream_model) as [[]|]; [| |done].
  - destruct (anthropic_budget r) as [n|] eqn:E; [|done].
    apply thinking_budget_range in E; [|done]. cbn [put_some]. rewrite !field_put.
    change (idx (default JNull _) "budget_tokens") with (num n).
    unfold U32_MAX in E. rewrite as_u64_num by (unfold U64_MAX; lia).
    unfold try_u32. rewrite (proj2 (Z.leb_le n U32_MAX)) by (unfold U32_MAX; lia). done.
  - destruct (Canonical.thinking_request r) as [[asked e]|]; [|done].
    rewrite !field_put. cbn. split; [done|]. by rewrite Canonical.effort_parse_as_str.
Qed.

(** What a client of this dialect is sent is what it reads: a rendered
    request, parsed, is the same request.  System blocks, tools, their choice,
    stop sequences, the ceiling and the stream flag come back as they were; every
    message comes back with its blocks and the images and blocks inside its tool
    results, each call's id in the spelling the vendor takes and each role as one
    of the vendor's two; and the thinking it asks for is the one that was
    rendered for the model. *)
Theorem request_roundtrip r upstream_model body :
  0 ≤ max_tokens r ≤ U32_MAX →
  render_request r upstream_model = Ok body →
  let read := parse_request body in
  model read = upstream_model ∧
  system read = system r ∧
  messages read = map (spell_message (Names.ids_for_anthropic r)) (messages r) ∧
  req_tools read = req_tools r ∧ tool_choice read = tool_choice r ∧
  max_tokens read = max_tokens r ∧ stream read = stream r ∧ stop read = stop r ∧
  response_format read = None ∧ previous_response_id read = previous_response_id r ∧
  match thinking_mode upstream_model with
  | Some ModeBudget => thinking_budget read = anthropic_budget r ∧
      thinking_effort read = Canonical.from_budget <$> anthropic_budget r
  | Some ModeAdaptive => thinking_budget read = None ∧
      thinking_effort read =
        (fun x : Z * Effort => if bool_decide (x.2 = Ultra) then Max else x.2)
          <$> Canonical.thinking_request r
  | None => thinking_budget read = None ∧ thinking_effort read = None
  end.
Proof.
  intros Hm (_ & -> & fs & -> & Hmo & Hmt & Hst & Hme & Hsy & Hto & Htc & Hss & _ & Ht & Ho)%rendered.
  destruct (thinking_back r upstream_model fs Hm Ht Ho) as [Hb He].
  unfold parse_request.
  cbn [model system messages req_tools tool_choice max_tokens stream stop response_format
    previous_response_id thinking_budget thinking_effort].
  rewrite Hb, He. cbn [idx]. rewrite Hmo, Hmt, Hst, Hme, Hsy, Hto, Htc, Hss.
  repeat apply conj; try done.
  - destruct (system r) as [|b bs] eqn:E; [done|]. change (filter_map parse_block (map (render_block_with Names.no_ids) (b :: bs)) = b :: bs).
    rewrite blocks_back. rewrite (map_ext _ (fun b => b) spell_none). apply List.map_id.
  - apply messages_back.
  - apply or_none_back, tool_back.
  - destruct (tool_choice r); [apply choice_back|done].
  - cbn [from_option Datatypes.id]. unfold U32_MAX in Hm. rewrite as_u64_num by (unfold U64_MAX; lia).
    cbn [from_option Datatypes.id]. unfold try_u32. by rewrite (proj2 (Z.leb_le _ _)) by (unfold U32_MAX; lia).
  - by apply (or_none_back as_str JString).
  - by destruct (thinking_mode upstream_model) as [[]|].
Qed.

End codec.

(** ** Witnesses *)

Definition thinking_example : CanonicalRequest := {|
  model := "frontier"; system := [BText "be brief" (Some Ephemeral)];
  messages := [
    {| role := RoleAssistant; content := [BToolUse "call#1" "read" (JObject [("path", JString "a")])] |};
    {| role := RoleTool; content := [BToolResult "call#1"
         (ResultBlocks [BText "ok" None; BImage "image/png" "AAAA"]) false] |} ];
  req_tools := [{| tool_name := "read"; description := "reads"; input_schema := JObject [];
                   tool_cache_control := None |}];
  max_tokens := 4096; stream := true; thinking_budget := None; thinking_effort := Some High;
  client_session := None; tool_choice := Some ChoiceRequired; response_format := None;
  stop := ["END"]; previous_response_id := None; passthrough := None |}.

Definition ok_json (r : result Json Error) : Json := match r with Ok v => v | Err _ => JNull end.

Lemma thinking_is_acceptable_witness :
  let body := ok_json (render_request thinking_example "claude-sonnet-4-5") in
  idx (idx body "thinking") "budget_tokens" = num 4095 ∧ MIN_THINKING_BUDGET ≤ 4095.
Proof.
  pose proof (thinking_is_acceptable thinking_example "claude-sonnet-4-5"
    (ok_json (render_request thinking_example "claude-sonnet-4-5")) ltac:(done) ltac:(reflexivity)) as H.
  cbv zeta in H. split; [reflexivity|].
  assert (as_str (idx (idx (ok_json (render_request thinking_example "claude-sonnet-4-5"))
    "thinking") "type") = Some "enabled") as E by reflexivity.
  rewrite E in H.
  destruct H as (major & minor & n & asked & effort & _ & _ & _ & Hr & _).
  unfold MIN_THINKING_BUDGET in *. lia.
Defined.

Lemma request_roundtrip_witness :
  messages (parse_request (fun _ => EmptyString) (ok_json (render_request thinking_example "claude-opus-5"))) =
    map (spell_message (Names.ids_for_anthropic thinking_example)) (messages thinking_example).
Proof.
  apply (request_roundtrip (fun _ => EmptyString) thinking_example "claude-opus-5"); [done|reflexivity].
Defined.

End Anthropic.
