(* ===== verification/AnthropicStream.v ===== *)
(** * Streaming an answer in the Anthropic dialect

    [RenderState] and [render_event] of [crates/oag-proto/src/anthropic.rs]:
    the hub's events written as typed frames of indexed blocks, and what a
    client that reads those frames back makes of them. *)

From Stdlib Require Import Ascii.
From S2P Require Import Prelude Text Money Domain Efforts Catalog Cost.
From S2P Require Import Ladder Classify Budget Policy Canonical Wire Names Stream Anthropic.
#[local] Open Scope string_scope.
#[local] Open Scope oag_scope.
#[local] Open Scope list_scope.
#[local] Open Scope Z_scope.

Record RenderState : Type := {
  rs_id : string;
  rs_model : string;
  started : bool;
  open_text : option Z;
  open_tools : list (string * Z);
  next_index : Z;
  rs_usage : Usage;
  finished : bool
}.

Module AnthropicStream.
Import Js Wire.

(** An event's name and its body. *)
Definition Frame : Type := string * Json.

Definition new (request_id model : string) : RenderState := {|
  rs_id := "msg_" +:+ request_id; rs_model := model; started := false; open_text := None;
  open_tools := []; next_index := 0; rs_usage := no_usage; finished := false |}.

(** ** The state's updates *)

Definition set_started (st : RenderState) : RenderState := {|
  rs_id := rs_id st; rs_model := rs_model st; started := true; open_text := open_text st;
  open_tools := open_tools st; next_index := next_index st; rs_usage := rs_usage st;
  finished := finished st |}.

Definition set_blocks (st : RenderState) (text : option Z) (tools : list (string * Z)) (next : Z)
    : RenderState := {|
  rs_id := rs_id st; rs_model := rs_model st; started := started st; open_text := text;
  open_tools := tools; next_index := next; rs_usage := rs_usage st; finished := finished st |}.

Definition add_usage (st : RenderState) (u : Usage) : RenderState := {|
  rs_id := rs_id st; rs_model := rs_model st; started := started st; open_text := open_text st;
  open_tools := open_tools st; next_index := next_index st;
  rs_usage := Usages.merge (rs_usage st) u; finished := finished st |}.

Definition set_model (st : RenderState) (m : string) : RenderState := {|
  rs_id := rs_id st; rs_model := m; started := started st; open_text := open_text st;
  open_tools := open_tools st; next_index := next_index st; rs_usage := rs_usage st;
  finished := finished st |}.

Definition set_finished (st : RenderState) : RenderState := {|
  rs_id := rs_id st; rs_model := rs_model st; started := started st; open_text := open_text st;
  open_tools := open_tools st; next_index := next_index st; rs_usage := rs_usage st;
  finished := true |}.

(** ** Frames *)

Definition usage_json (u : Usage) : Json := JObject [
  ("input_tokens", num (input_tokens u)); ("output_tokens", num (output_tokens u));
  ("cache_read_input_tokens", num (cache_read_tokens u));
  ("cache_creation_input_tokens", num (cache_write_tokens u))].

Definition block_stop (index : Z) : Frame :=
  ("content_block_stop", JObject [("type", JString "content_block_stop"); ("index", num index)]).

Definition block_start (index : Z) (block : Json) : Frame :=
  ("content_block_start", JObject [("type", JString "content_block_start"); ("index", num index);
    ("content_block", block)]).

Definition block_delta (index : Z) (delta : Json) : Frame :=
  ("content_block_delta", JObject [("type", JString "content_block_delta"); ("index", num index);
    ("delta", delta)]).

(** ** Steps that write frames

    Each is the frames it appends to [out] and the state it leaves. *)

Definition close_text (st : RenderState) : list Frame * RenderState :=
  match open_text st with
  | Some index => ([block_stop index], set_blocks st None (open_tools st) (next_index st))
  | None => ([], st)
  end.

Fixpoint remove_at {A} (n : nat) (l : list A) : list A :=
  match n, l with
  | _, [] => []
  | O, _ :: l => l
  | S n, x :: l => x :: remove_at n l
  end.

Definition close_tool (st : RenderState) (id : string) : list Frame * RenderState :=
  match position (fun x : string * Z => Str.eqb x.1 id) (open_tools st) with
  | None => ([], st)
  | Some at_ =>
      match open_tools st !! at_ with
      | None => ([], st)
      | Some (_, index) =>
          ([block_stop index], set_blocks st (open_text st) (remove_at at_ (open_tools st)) (next_index st))
      end
  end.

Definition close_tools (st : RenderState) : list Frame * RenderState :=
  (map (fun x : string * Z => block_stop x.2) (open_tools st),
   set_blocks st (open_text st) [] (next_index st)).

Definition tool_block (st : RenderState) (id : string) : option Z :=
  match find (fun x : string * Z => Str.eqb x.1 id) (open_tools st) with
  | Some x => Some x.2
  | None => snd <$> last (open_tools st)
  end.

Definition message_start (st : RenderState) : Frame :=
  ("message_start", JObject [("type", JString "message_start"); ("message", JObject [
    ("id", JString (rs_id st)); ("type", JString "message"); ("role", JString "assistant");
    ("model", JString (rs_model st)); ("content", JArray []); ("stop_reason", JNull);
    ("usage", usage_json (rs_usage st))])]).

Definition ensure_started (st : RenderState) : list Frame * RenderState :=
  if started st then ([], st) else ([message_start st], set_started st).

(** One after the other, the frames in order. *)
Definition and_then (x : list Frame * RenderState) (f : RenderState → list Frame * RenderState)
    : list Frame * RenderState :=
  let '(out, st) := x in let '(more, st) := f st in (out ++ more, st).

Definition emit (frames : list Frame) (st : RenderState) : list Frame * RenderState := (frames, st).

Definition open_block (thinking : bool) (st : RenderState) : list Frame * RenderState :=
  match open_text st with
  | Some _ => ([], st)
  | None =>
      let index := next_index st in
      ([block_start index (if thinking
          then JObject [("type", JString "thinking"); ("thinking", JString "")]
          else JObject [("type", JString "text"); ("text", JString "")])],
       set_blocks st (Some index) (open_tools st) (index + 1))
  end.

Definition text_delta (text : string) (thinking : bool) (st : RenderState) : list Frame * RenderState :=
  ([block_delta (default 0 (open_text st)) (if thinking
      then JObject [("type", JString "thinking_delta"); ("thinking", JString text)]
      else JObject [("type", JString "text_delta"); ("text", JString text)])], st).

Definition render_text (st : RenderState) (text : string) (thinking : bool) : list Frame * RenderState :=
  and_then (and_then (and_then (ensure_started st) close_tools) (open_block thinking))
    (text_delta text thinking).

Definition open_call (id name : string) (st : RenderState) : list Frame * RenderState :=
  let index := next_index st in
  ([block_start index (JObject [("type", JString "tool_use"); ("id", JString id);
      ("name", JString name); ("input", JObject [])])],
   set_blocks st (open_text st) (open_tools st ++ [(id, index)]) (index + 1)).

Definition message_end (reason : StopReason) (st : RenderState) : list Frame * RenderState :=
  ([("message_delta", JObject [("type", JString "message_delta");
      ("delta", JObject [("stop_reason", JString (Anthropic.stop_reason_str reason));
                         ("stop_sequence", JNull)]);
      ("usage", usage_json (rs_usage st))]);
    ("message_stop", JObject [("type", JString "message_stop")])], st).

(** [render_event], to the frames of its text. *)
Definition render_frames (e : StreamEvent) (st : RenderState) : list Frame * RenderState :=
  match e with
  | EvStart model usage =>
      ensure_started (add_usage (set_model st (Stream.adopt_model (rs_model st) model)) usage)
  | EvTextDelta text => render_text st text false
  | EvThinkingDelta text => render_text st text true
  | EvToolUseStart id name =>
      and_then (and_then (ensure_started st) close_text) (open_call id name)
  | EvToolUseDelta id partial_json =>
      match tool_block st id with
      | None => ([], st)
      | Some index =>
          ([block_delta index (JObject [("type", JString "input_json_delta");
             ("partial_json", JString partial_json)])], st)
      end
  | EvToolUseEnd id => close_tool st id
  | EvUsageUpdate usage => ([], add_usage st usage)
  | EvStop reason usage =>
      if finished st then ([], st)
      else and_then (and_then (and_then
             (ensure_started (add_usage (set_finished st) usage)) close_text) close_tools)
             (message_end reason)
  | EvError message =>
      ([("error", JObject [("type", JString "error");
          ("error", JObject [("type", JString "api_error"); ("message", JString message)])])], st)
  end.

Definition join (l : list string) : string := foldr String.append EmptyString l.

(** The text of a frame, and of an event: [None] when there is nothing to
    write. *)
Section text.
Context (to_string : Json → string).

Definition frame (f : Frame) : string :=
  "event: " +:+ f.1 +:+ String "010" ("data: " +:+ to_string f.2 +:+ String "010" (String "010" "")).

Definition render_event (e : StreamEvent) (st : RenderState) : option string * RenderState :=
  let '(frames, st) := render_frames e st in
  let out := join (map frame frames) in
  (if Str.is_empty out then None else Some out, st).
End text.

Fixpoint render_all (es : list StreamEvent) (st : RenderState) : list Frame * RenderState :=
  match es with
  | [] => ([], st)
  | e :: es => and_then (render_frames e st) (render_all es)
  end.

(** ** A client of the dialect

    The protocol of the dialect's streams, as a machine that reads frames: the
    message starts once and first; a block opens under the next index; a delta
    goes to an open block of its own kind; a block closes once; the message
    ends when every block is closed, and nothing follows. *)

Inductive BlockKind : Type := KText | KThinking | KTool (id name : string).

Record Block : Type := { b_kind : BlockKind; b_body : string; b_open : bool }.

Record Reader : Type := {
  r_started : bool;
  r_blocks : list Block;
  r_end : option (string * Json);
  r_over : bool
}.

Definition reader_new : Reader :=
  {| r_started := false; r_blocks := []; r_end := None; r_over := false |}.

Definition with_blocks (r : Reader) (bs : list Block) : Reader :=
  {| r_started := r_started r; r_blocks := bs; r_end := r_end r; r_over := r_over r |}.

Definition read_kind (block : Json) : option BlockKind :=
  let t := str_or "" (idx block "type") in
  if Str.eqb t "text" then Some KText
  else if Str.eqb t "thinking" then Some KThinking
  else if Str.eqb t "tool_use" then
    match as_str (idx block "id"), as_str (idx block "name") with
    | Some id, Some name => Some (KTool id name)
    | _, _ => None
    end
  else None.

Definition fragment (kind : BlockKind) (delta : Json) : option string :=
  let t := str_or "" (idx delta "type") in
  match kind with
  | KText => if Str.eqb t "text_delta" then as_str (idx delta "text") else None
  | KThinking => if Str.eqb t "thinking_delta" then as_str (idx delta "thinking") else None
  | KTool _ _ => if Str.eqb t "input_json_delta" then as_str (idx delta "partial_json") else None
  end.

(** The open block under an index. *)
Definition open_at (r : Reader) (v : Json) : option (nat * Block) :=
  match as_u64 (idx v "index") with
  | None => None
  | Some i =>
      match r_blocks r !! Z.to_nat i with
      | Some b => if b_open b then Some (Z.to_nat i, b) else None
      | None => None
      end
  end.

Definition all_closed (bs : list Block) : bool := all (fun b => negb (b_open b)) bs.

Definition read_frame (r : Reader) (f : Frame) : option Reader :=
  let '(name, v) := f in
  if negb (bool_decide (as_str (idx v "type") = Some name)) then None
  else if Str.eqb name "error" then Some r
  else if Str.eqb name "message_start" then
    if r_started r then None
    else Some {| r_started := true; r_blocks := r_blocks r; r_end := r_end r; r_over := r_over r |}
  else if negb (r_started r) || r_over r then None
  else if Str.eqb name "content_block_start" then
    match as_u64 (idx v "index"), read_kind (idx v "content_block") with
    | Some i, Some k =>
        if i =? Z.of_nat (length (r_blocks r))
        then Some (with_blocks r (r_blocks r ++ [{| b_kind := k; b_body := ""; b_open := true |}]))
        else None
    | _, _ => None
    end
  else if Str.eqb name "content_block_delta" then
    match open_at r v with
    | Some (i, b) =>
        match fragment (b_kind b) (idx v "delta") with
        | Some t => Some (with_blocks r
            (<[i := {| b_kind := b_kind b; b_body := b_body b +:+ t; b_open := true |}]> (r_blocks r)))
        | None => None
        end
    | None => None
    end
  else if Str.eqb name "content_block_stop" then
    match open_at r v with
    | Some (i, b) => Some (with_blocks r
        (<[i := {| b_kind := b_kind b; b_body := b_body b; b_open := false |}]> (r_blocks r)))
    | None => None
    end
  else if Str.eqb name "message_delta" then
    if all_closed (r_blocks r) then
      match as_str (idx (idx v "delta") "stop_reason") with
      | Some s => Some {| r_started := r_started r; r_blocks := r_blocks r;
                          r_end := Some (s, idx v "usage"); r_over := r_over r |}
      | None => None
      end
    else None
  else if Str.eqb name "message_stop" then
    match r_end r with
    | Some e => Some {| r_started := r_started r; r_blocks := r_blocks r; r_end := Some e;
                        r_over := true |}
    | None => None
    end
  else None.

Fixpoint read_all (r : Reader) (fs : list Frame) : option Reader :=
  match fs with
  | [] => Some r
  | f :: fs => match read_frame r f with Some r => read_all r fs | None => None end
  end.

(** What the client read: each block's kind and body, and of those the tool
    calls with their arguments, their names, the text and the thinking. *)
#[local] Abbreviation Said := (list (BlockKind * string)).
Definition r_said (r : Reader) : Said := map (fun b => (b_kind b, b_body b)) (r_blocks r).
Definition read_calls (l : Said) : list (string * string) :=
  filter_map (fun x => match x.1 with KTool id _ => Some (id, x.2) | _ => None end) l.
Definition read_names (l : Said) : list (string * string) :=
  filter_map (fun x => match x.1 with KTool id name => Some (id, name) | _ => None end) l.
Definition text_of (thinking : bool) (x : BlockKind * string) : option string :=
  match x.1, thinking with KText, false | KThinking, true => Some x.2 | _, _ => None end.
Definition bodies (thinking : bool) (l : Said) : string := join (filter_map (text_of thinking) l).

(** ** Streams *)

Definition event_answer (e : StreamEvent) : option string :=
  match e with EvTextDelta t => Some t | _ => None end.
Definition event_thought (e : StreamEvent) : option string :=
  match e with EvThinkingDelta t => Some t | _ => None end.
Definition event_call (e : StreamEvent) : option (string * string) :=
  match e with EvToolUseStart id name => Some (id, name) | _ => None end.

(** The kind of the text block an event leaves open, [Some true] thinking. *)
Definition kind_after (k : option bool) (e : StreamEvent) : option bool :=
  match e with
  | EvTextDelta _ => Some false
  | EvThinkingDelta _ => Some true
  | EvToolUseStart _ _ | EvStop _ _ => None
  | _ => k
  end.

Definition continues (k : option bool) (e : StreamEvent) : bool :=
  match e with
  | EvTextDelta _ => negb (bool_decide (k = Some true))
  | EvThinkingDelta _ => negb (bool_decide (k = Some false))
  | _ => true
  end.

(** Text never directly continues thinking, nor thinking text: a call opens
    between them. *)
Fixpoint unmixed (k : option bool) (es : list StreamEvent) : bool :=
  match es with [] => true | e :: es => continues k e && unmixed (kind_after k e) es end.

(** The calls still open; text closes them all. *)
Definition open_after (open : list string) (e : StreamEvent) : list string :=
  match e with
  | EvTextDelta _ | EvThinkingDelta _ => []
  | EvToolUseStart id _ => id :: open
  | EvToolUseEnd id => keep (fun o => negb (Str.eqb o id)) open
  | _ => open
  end.

Definition to_open_call (open : list string) (e : StreamEvent) : bool :=
  match e with EvToolUseDelta id _ => bool_decide (id ∈ open) | _ => true end.

(** Every fragment is of a call still open. *)
Fixpoint scoped (open : list string) (es : list StreamEvent) : bool :=
  match es with [] => true | e :: es => to_open_call open e && scoped (open_after open e) es end.

(** What may follow the end of a message and write nothing. *)
Definition quiet (e : StreamEvent) : bool :=
  match e with EvTextDelta _ | EvThinkingDelta _ | EvToolUseStart _ _ => false | _ => true end.

(** ** Reading one frame *)

Section frames.
Context (r : Reader) (i : Z).
Context (Hstarted : r_started r = true) (Hover : r_over r = false) (Hi : 0 ≤ i ≤ U64_MAX).

Lemma open_at_index v b :
  idx v "index" = num i → r_blocks r !! Z.to_nat i = Some b → b_open b = true →
  open_at r v = Some (Z.to_nat i, b).
Proof. intros Hv Hb Ho. unfold open_at. by rewrite Hv, as_u64_num, Hb, Ho. Qed.

Lemma read_stop b :
  r_blocks r !! Z.to_nat i = Some b → b_open b = true →
  read_frame r (block_stop i) = Some (with_blocks r
    (<[Z.to_nat i := {| b_kind := b_kind b; b_body := b_body b; b_open := false |}]> (r_blocks r))).
Proof.
  intros Hb Ho. unfold read_frame, block_stop. rewrite (open_at_index _ b) by done.
  cbn. by rewrite Hstarted, Hover.
Qed.

Lemma read_start block k :
  i = Z.of_nat (length (r_blocks r)) → read_kind block = Some k →
  read_frame r (block_start i block) = Some (with_blocks r
    (r_blocks r ++ [{| b_kind := k; b_body := ""; b_open := true |}])).
Proof.
  intros Hl Hk. unfold read_frame, block_start. cbn -[read_kind as_u64 num].
  rewrite Hstarted, Hover. cbn -[read_kind as_u64 num]. rewrite as_u64_num by done.
  rewrite Hk. by rewrite (proj2 (Z.eqb_eq _ _) Hl).
Qed.

Lemma read_delta delta b t :
  r_blocks r !! Z.to_nat i = Some b → b_open b = true → fragment (b_kind b) delta = Some t →
  read_frame r (block_delta i delta) = Some (with_blocks r
    (<[Z.to_nat i := {| b_kind := b_kind b; b_body := b_body b +:+ t; b_open := true |}]> (r_blocks r))).
Proof.
  intros Hb Ho Hf. unfold read_frame, block_delta. rewrite (open_at_index _ b) by done.
  cbn -[fragment]. rewrite Hstarted, Hover. cbn -[fragment]. by rewrite Hf.
Qed.
End frames.

Lemma read_all_app r fs gs :
  read_all r (fs ++ gs) = match read_all r fs with Some r => read_all r gs | None => None end.
Proof. revert r; induction fs as [|f fs IH]; intros r; cbn; [done|]. by destruct (read_frame r f). Qed.

(** ** The simulation

    While no message has ended: the client's blocks are numbered as the
    renderer counts them, and the open ones are those the renderer thinks are
    open, of the kinds it thinks they are. *)
Record sim (k : option bool) (st : RenderState) (r : Reader) : Prop := {
  s_started : r_started r = started st;
  s_live : finished st = false ∧ r_over r = false;
  s_index : next_index st = Z.of_nat (length (r_blocks r)) ∧ next_index st ≤ U64_MAX;
  s_begun : started st = false → r_blocks r = [];
  s_text : match k, open_text st with
    | None, None => True
    | Some th, Some i => open_tools st = [] ∧ ∃ bs body, i = Z.of_nat (length bs) ∧
        r_blocks r = bs ++ [{| b_kind := if th then KThinking else KText; b_body := body;
                               b_open := true |}]
    | _, _ => False
    end;
  s_tools : ∀ id i, In (id, i) (open_tools st) → 0 ≤ i ∧ ∃ name body,
    r_blocks r !! Z.to_nat i = Some {| b_kind := KTool id name; b_body := body; b_open := true |};
  s_open : ∀ n b, r_blocks r !! n = Some b → b_open b = true →
    open_text st = Some (Z.of_nat n) ∨ ∃ id, In (id, Z.of_nat n) (open_tools st);
  s_nodup : NoDup (map snd (open_tools st))
}.

Lemma sim_new id model : sim None (new id model) reader_new.
Proof. split; try done; cbn; constructor. Qed.

Lemma in_bounds r i b :
  0 ≤ i → r_blocks r !! Z.to_nat i = Some b → Z.of_nat (length (r_blocks r)) ≤ U64_MAX → 0 ≤ i ≤ U64_MAX.
Proof. intros Hi H%lookup_lt_Some. lia. Qed.

Lemma sim_ensure k st r :
  sim k st r →
  ∃ r', read_all r (ensure_started st).1 = Some r' ∧ sim k (ensure_started st).2 r' ∧
    r_blocks r' = r_blocks r ∧ started (ensure_started st).2 = true ∧
    open_tools (ensure_started st).2 = open_tools st ∧
    next_index (ensure_started st).2 = next_index st.
Proof.
  intros [Hs Hl Hi Hb Ht Hto Ho Hn]. unfold ensure_started. destruct (started st) eqn:E.
  - exists r. split_and!; try done. by split; cbn; rewrite ?E.
  - eexists. split; [cbn; by rewrite Hs|]. split_and!; try done.
Qed.

(** Closing a call: its block, and no other. *)
Lemma sim_close_call k st r l1 id i l2 :
  sim k st r → open_tools st = l1 ++ (id, i) :: l2 →
  ∃ r', read_frame r (block_stop i) = Some r' ∧
    sim k (set_blocks st (open_text st) (l1 ++ l2) (next_index st)) r' ∧ r_said r' = r_said r.
Proof.
  intros [Hs [Hf Hov] [Hi Hmax] Hb Ht Hto Ho Hn] E.
  assert (In (id, i) (open_tools st)) as Hin by (rewrite E; apply in_app_iff; right; by left).
  destruct (Hto id i Hin) as (Hpos & name & body & Hblk).
  assert (r_started r = true) as Hst.
  { rewrite Hs. destruct (started st); [done|]. by rewrite Hb in Hblk by done. }
  eexists. split; [|split].
  - eapply read_stop; [done..| |exact Hblk|done]. eapply in_bounds; [done|exact Hblk|lia].
  - assert (∀ j, In j (map snd (l1 ++ l2)) → j ≠ i) as Hne.
    { intros j Hj ->. rewrite E, map_app in Hn. cbn in Hn. rewrite map_app in Hj.
      apply NoDup_app in Hn as (_ & H1 & H2). apply NoDup_cons in H2 as [H2 _].
      rewrite list_elem_of_In in H2. apply in_app_iff in Hj as [Hj|Hj]; [|done].
      apply (H1 i); rewrite list_elem_of_In; [done|by left]. }
    split; cbn; rewrite ?length_insert; try done.
    + intros Hfs. by rewrite Hb in Hblk.
    + destruct k, (open_text st); try done. destruct Ht as [Ht _]. by rewrite Ht in Hin.
    + intros id' j Hj. assert (In (id', j) (open_tools st)) as Hj'.
      { rewrite E. apply in_app_iff in Hj as [?|?]; apply in_app_iff; [by left|right; by right]. }
      destruct (Hto id' j Hj') as (? & n' & b' & Hb'). split; [done|]. exists n', b'.
      rewrite list_lookup_insert_ne; [done|]. intros Heq. apply (Hne j); [|lia].
      by apply (in_map snd) in Hj.
    + intros n b Hnb Hop. destruct (decide (n = Z.to_nat i)) as [->|Hni].
      { rewrite list_lookup_insert_eq in Hnb by by eapply lookup_lt_Some. by injection Hnb as <-. }
      rewrite list_lookup_insert_ne in Hnb by done. destruct (Ho n b Hnb Hop) as [|[id' Hid]]; [by left|].
      right. exists id'. rewrite E in Hid. apply in_app_iff in Hid as [?|[[= -> ->]|?]];
        [apply in_app_iff; by left|lia|apply in_app_iff; by right].
    + rewrite E, map_app in Hn. rewrite map_app. cbn in Hn.
      apply NoDup_app in Hn as (H1 & H2 & H3). apply NoDup_cons in H3 as [_ H3].
      apply NoDup_app. split_and!; [done| |done]. intros x Hx Hx'. apply (H2 x); [done|by right].
  - unfold r_said. cbn. rewrite list_fmap_insert. apply list_insert_id. by rewrite list_lookup_fmap, Hblk.
Qed.

Lemma set_blocks_id st : set_blocks st (open_text st) (open_tools st) (next_index st) = st.
Proof. by destruct st. Qed.

Lemma sim_close_calls k st r :
  sim k st r →
  ∃ r', read_all r (close_tools st).1 = Some r' ∧ sim k (close_tools st).2 r' ∧ r_said r' = r_said r.
Proof.
  unfold close_tools. cbn [fst snd]. remember (open_tools st) as l eqn:E. revert st r E.
  induction l as [|[id i] l IH]; intros st r E H.
  { exists r. split; [done|]. split; [|done]. by rewrite E, set_blocks_id. }
  destruct (sim_close_call k st r [] id i l H (eq_sym E)) as (r1 & H1 & Hsim & Hsaid).
  destruct (IH _ r1 (eq_refl : l = open_tools (set_blocks st (open_text st) l (next_index st))) Hsim)
    as (r2 & H2 & Hsim2 & Hsaid2).
  exists r2. cbn [map read_all]. cbn [snd] in H2 |- *. rewrite H1. split; [done|].
  split; [done|congruence].
Qed.

Lemma started_of k st r n b : sim k st r → r_blocks r !! n = Some b → r_started r = true.
Proof.
  intros H Hb. rewrite (s_started _ _ _ H). destruct (started st) eqn:E; [done|].
  by rewrite (s_begun _ _ _ H) in Hb.
Qed.

Lemma last_block {A} (bs : list A) b : (bs ++ [b]) !! Z.to_nat (Z.of_nat (length bs)) = Some b.
Proof. rewrite Nat2Z.id. by apply list_lookup_middle. Qed.

(** What a change of the last block does to the numbering. *)
Lemma insert_last {A} (bs : list A) b b' :
  <[Z.to_nat (Z.of_nat (length bs)) := b']> (bs ++ [b]) = bs ++ [b'].
Proof. rewrite Nat2Z.id. by rewrite insert_app_r_alt, Nat.sub_diag by done. Qed.

Lemma sim_close_text k st r :
  sim k st r →
  ∃ r', read_all r (close_text st).1 = Some r' ∧ sim None (close_text st).2 r' ∧ r_said r' = r_said r.
Proof.
  intros H. unfold close_text. pose proof (s_text _ _ _ H) as Ht.
  destruct (open_text st) as [i|] eqn:E, k as [th|]; try done.
  2: { exists r. done. }
  destruct Ht as (Hnone & bs & body & -> & Hbs).
  pose proof (last_block bs {| b_kind := if th then KThinking else KText; b_body := body; b_open := true |})
    as Hlast. rewrite <-Hbs in Hlast.
  pose proof (started_of _ _ _ _ _ H Hlast) as Hst.
  destruct H as [Hs [Hf Hov] [Hi Hmax] Hb _ _ Ho _].
  eexists. cbn [fst snd read_all]. split; [|split].
  - erewrite read_stop; [reflexivity|done..| |exact Hlast|done]. rewrite Hi, Hbs, length_app in Hmax. cbn in Hmax. lia.
  - split; cbn; rewrite ?length_insert, ?Hnone; try done.
    + intros Hfs. by rewrite Hb in Hlast.
    + rewrite Hbs, insert_last. intros n b Hnb Hop.
      apply lookup_app_Some in Hnb as [Hnb|[_ Hnb]].
      * assert (r_blocks r !! n = Some b) as Hrb by (rewrite Hbs; by apply lookup_app_l_Some).
        destruct (Ho n b Hrb Hop) as [He|[id Hid]]; [|by rewrite Hnone in Hid].
        rewrite E in He. injection He as He. apply lookup_lt_Some in Hnb. lia.
      * destruct (n - length bs)%nat; [|done]. by injection Hnb as <-.
    + constructor.
  - unfold r_said. cbn. by rewrite Hbs, insert_last, !map_app.
Qed.

Lemma sim_open_text k th st r :
  sim k st r → started st = true → open_tools st = [] → next_index st < U64_MAX →
  k ≠ Some (negb th) →
  ∃ r', read_all r (open_block th st).1 = Some r' ∧ sim (Some th) (open_block th st).2 r' ∧
    r_said r' = r_said r ++ match k with Some _ => [] | None => [(if th then KThinking else KText, "")] end.
Proof.
  intros H Hst Hnone Hlt Hk. unfold open_block. pose proof (s_text _ _ _ H) as Ht.
  destruct (open_text st) as [i|] eqn:E, k as [th'|]; try done.
  { exists r. rewrite app_nil_r. assert (th' = th) as -> by by destruct th, th'. done. }
  destruct H as [Hs [Hf Hov] [Hi Hmax] Hb _ _ Ho _].
  eexists. cbn [fst snd read_all]. split; [|split].
  - erewrite read_start with (k := if th then KThinking else KText);
      [reflexivity|congruence|done|lia|done|by destruct th].
  - split; cbn; rewrite ?length_app, ?Hnone; try done.
    + rewrite Hi in *. cbn. lia.
    + congruence.
    + split; [done|]. by eexists _, _.
    + intros n b Hnb Hop. apply lookup_app_Some in Hnb as [Hnb|[Hge Hnb]].
      * destruct (Ho n b Hnb Hop) as [|[id Hid]]; [congruence|by rewrite Hnone in Hid].
      * left. rewrite Hi. destruct (n - length (r_blocks r))%nat eqn:Hz; [|done]. do 2 f_equal. lia.
    + constructor.
  - unfold r_said. cbn. by rewrite map_app.
Qed.

Lemma sim_text_delta th st r text :
  sim (Some th) st r →
  ∃ r', read_all r (text_delta text th st).1 = Some r' ∧ sim (Some th) st r' ∧
    ∃ l body, r_said r = l ++ [(if th then KThinking else KText, body)] ∧
      r_said r' = l ++ [(if th then KThinking else KText, body +:+ text)].
Proof.
  intros H. pose proof (s_text _ _ _ H) as Ht. unfold text_delta.
  destruct (open_text st) as [i|] eqn:E; [|done]. destruct Ht as (Hnone & bs & body & -> & Hbs).
  pose proof (last_block bs {| b_kind := if th then KThinking else KText; b_body := body; b_open := true |})
    as Hlast. rewrite <-Hbs in Hlast.
  pose proof (started_of _ _ _ _ _ H Hlast) as Hst.
  destruct H as [Hs [Hf Hov] [Hi Hmax] Hb _ _ Ho _].
  eexists. cbn [fst snd read_all from_option Datatypes.id]. split; [|split].
  - erewrite read_delta with (t := text); [reflexivity|done..| |exact Hlast|done|by destruct th].
    rewrite Hi, Hbs, length_app in Hmax. cbn in Hmax. lia.
  - split; cbn; rewrite ?length_insert, ?E, ?Hnone; try done.
    + intros Hfs. by rewrite Hb in Hlast.
    + split; [done|]. rewrite Hbs, insert_last. by eexists _, _.
    + rewrite Hbs, insert_last. intros n b Hnb Hop. rewrite <-E, <-Hnone.
      apply lookup_app_Some in Hnb as [Hnb|[Hge Hnb]].
      * apply (Ho n b); [|done]. rewrite Hbs. by apply lookup_app_l_Some.
      * destruct (n - length bs)%nat eqn:Hz; [|done]. left. rewrite E. do 2 f_equal. lia.
    + constructor.
  - exists (map (fun b => (b_kind b, b_body b)) bs), body. unfold r_said. cbn.
    by rewrite Hbs, insert_last, !map_app.
Qed.

Lemma sim_open_call st r id name :
  sim None st r → started st = true → next_index st < U64_MAX →
  ∃ r', read_all r (open_call id name st).1 = Some r' ∧ sim None (open_call id name st).2 r' ∧
    r_said r' = r_said r ++ [(KTool id name, "")].
Proof.
  intros [Hs [Hf Hov] [Hi Hmax] Hb Ht Hto Ho Hn] Hst Hlt. unfold open_call.
  destruct (open_text st) as [i|] eqn:E; [done|].
  eexists. cbn [fst snd read_all]. split; [|split].
  - erewrite read_start with (k := KTool id name); [reflexivity|congruence|done|lia|done|done].
  - split; cbn; rewrite ?length_app; try done.
    + rewrite Hi in *. cbn. lia.
    + congruence.
    + intros id' j [Hj|[[= <- <-]|[]]]%in_app_iff.
      * destruct (Hto id' j Hj) as (? & n & b & Hblk). split; [done|]. exists n, b.
        by apply lookup_app_l_Some.
      * rewrite Hi. split; [lia|]. exists name, "". apply last_block.
    + intros n b Hnb Hop. apply lookup_app_Some in Hnb as [Hnb|[Hge Hnb]].
      * destruct (Ho n b Hnb Hop) as [|[id' Hid]]; [congruence|]. right. exists id'.
        apply in_app_iff. by left.
      * right. destruct (n - length (r_blocks r))%nat eqn:Hz; [|done]. exists id.
        apply in_app_iff. right. left. rewrite Hi. do 2 f_equal. lia.
    + rewrite map_app. apply NoDup_app. split_and!; [done| |repeat constructor; set_solver].
      intros x Hx%list_elem_of_In Hx'. apply list_elem_of_singleton in Hx' as ->. cbn in *.
      apply in_map_iff in Hx as ([id' j] & Hj & Hin). cbn in Hj. subst j.
      destruct (Hto id' _ Hin) as (_ & n & b & Hblk). apply lookup_lt_Some in Hblk. lia.
  - unfold r_said. cbn. by rewrite map_app.
Qed.

(** A fragment reaches the block the renderer names. *)
Lemma sim_call_delta k st r id i partial :
  sim k st r → In (id, i) (open_tools st) →
  ∃ r' name body, read_frame r (block_delta i (JObject [("type", JString "input_json_delta");
      ("partial_json", JString partial)])) = Some r' ∧ sim k st r' ∧
    r_said r !! Z.to_nat i = Some (KTool id name, body) ∧
    r_said r' = <[Z.to_nat i := (KTool id name, body +:+ partial)]> (r_said r).
Proof.
  intros H Hin. pose proof (s_tools _ _ _ H id i Hin) as (Hpos & name & body & Hblk).
  pose proof (started_of _ _ _ _ _ H Hblk) as Hst.
  destruct H as [Hs [Hf Hov] [Hi Hmax] Hb Ht Hto Ho Hn].
  eexists _, name, body. split; [|split; [|split]].
  - erewrite read_delta with (t := partial); [reflexivity|done..| |exact Hblk|done|done].
    eapply in_bounds; [done|exact Hblk|lia].
  - split; cbn; rewrite ?length_insert; try done.
    + intros Hfs. by rewrite Hb in Hblk.
    + destruct k, (open_text st); try done. destruct Ht as [Ht _]. by rewrite Ht in Hin.
    + intros id' j Hj. destruct (Hto id' j Hj) as (? & n' & b' & Hb'). split; [done|].
      destruct (decide (Z.to_nat j = Z.to_nat i)) as [E|E].
      * rewrite E in Hb' |- *. rewrite Hblk in Hb'. injection Hb' as <- <- <-. eexists _, _.
        apply list_lookup_insert_eq. by eapply lookup_lt_Some.
      * exists n', b'. by rewrite list_lookup_insert_ne.
    + intros n b Hnb Hop. destruct (decide (n = Z.to_nat i)) as [->|Hni].
      { apply (Ho _ _ Hblk). done. }
      rewrite list_lookup_insert_ne in Hnb by done. by apply (Ho n b).
  - unfold r_said. etransitivity; [apply list_lookup_fmap|by rewrite Hblk].
  - unfold r_said. cbn. by rewrite list_fmap_insert.
Qed.

(** ** What was said, event by event *)

Lemma join_app l l' : join (l ++ l') = join l +:+ join l'.
Proof. unfold join. induction l as [|x l IH]; cbn; [done|]. by rewrite IH, Str.append_assoc. Qed.

Lemma bodies_app th l l' : bodies th (l ++ l') = bodies th l +:+ bodies th l'.
Proof. unfold bodies. by rewrite filter_map_app, join_app. Qed.

Definition call_step (e : StreamEvent) (l : list (string * string)) : list (string * string) :=
  match e with
  | EvToolUseStart id _ => l ++ [(id, "")]
  | EvToolUseDelta id partial => Stream.push_to id partial l
  | _ => l
  end.

(** The fragment of a call still open goes to it alone. *)
Definition addressed (ids : list string) (e : StreamEvent) : Prop :=
  match e with EvToolUseDelta id _ => In id ids | _ => True end.

Record spoke (e : StreamEvent) (ids : list string) (l l' : Said) : Prop := {
  sp_answer : bodies false l' = bodies false l +:+ default "" (event_answer e);
  sp_thought : bodies true l' = bodies true l +:+ default "" (event_thought e);
  sp_names : read_names l' = read_names l ++ option_list (event_call e);
  sp_calls : NoDup (map fst (read_calls l)) → addressed ids e →
    read_calls l' = call_step e (read_calls l)
}.

Lemma spoke_nothing e ids l :
  event_answer e = None → event_thought e = None → event_call e = None →
  call_step e (read_calls l) = read_calls l → spoke e ids l l.
Proof.
  intros Ha Ht Hc Hs. split; rewrite ?Ha, ?Ht, ?Hc; cbn; rewrite ?Str.append_empty_r, ?app_nil_r; done.
Qed.

Lemma push_to_app id partial l l' :
  ¬ In id (map fst l) → Stream.push_to id partial (l ++ l') = l ++ Stream.push_to id partial l'.
Proof.
  induction l as [|[k b] l IH]; cbn; [done|]. intros H.
  rewrite (proj2 (Str.str_eqb_neq k id)) by naive_solver. rewrite IH by naive_solver. done.
Qed.

Lemma spoke_delta id partial ids l i name body :
  l !! i = Some (KTool id name, body) →
  spoke (EvToolUseDelta id partial) ids l (<[i := (KTool id name, body +:+ partial)]> l).
Proof.
  intros (l1 & l2 & -> & ->)%list_elem_of_split_length.
  rewrite insert_app_r_alt, Nat.sub_diag by done. cbn [insert list_insert].
  split; unfold read_names, read_calls; rewrite ?bodies_app, ?filter_map_app; cbn;
    rewrite ?Str.append_empty_r, ?app_nil_r; try done.
  intros Hnd _. rewrite map_app in Hnd. cbn in Hnd. apply NoDup_app in Hnd as (_ & Hnd & _).
  rewrite push_to_app. { cbn. by rewrite Str.str_eqb_refl. }
  intros Hin. apply (Hnd id); [by apply list_elem_of_In|by left].
Qed.

Lemma and_then_eq x f : and_then x f = (x.1 ++ (f x.2).1, (f x.2).2).
Proof. destruct x as [out st]. cbn. by destruct (f st). Qed.

(** ** One event *)

Lemma sim_usage k st r u m : sim k st r → sim k (add_usage (set_model st m) u) r.
Proof. intros []. by split. Qed.

(** What a text delta leaves. *)
Definition text_event (th : bool) (text : string) : StreamEvent :=
  if th then EvThinkingDelta text else EvTextDelta text.

Lemma spoke_text (th : bool) text ids (l l0 : Said) body :
  l0 ++ [(if th then KThinking else KText, body)] =
    l ++ [(if th then KThinking else KText, "")] ∨
  l0 ++ [(if th then KThinking else KText, body)] = l →
  spoke (text_event th text) ids l (l0 ++ [(if th then KThinking else KText, body +:+ text)]).
Proof.
  intros [[-> [= ->]]%app_inj_tail|<-]; destruct th; split;
    unfold read_names, read_calls, text_event;
    rewrite ?bodies_app, ?filter_map_app; cbn;
    rewrite ?Str.append_empty_r, ?app_nil_r, ?Str.append_assoc; done.
Qed.

Lemma step_text th text k st r ids :
  sim k st r → k ≠ Some (negb th) → next_index st < U64_MAX →
  let x := render_text st text th in
  ∃ r', read_all r x.1 = Some r' ∧ sim (Some th) x.2 r' ∧
    spoke (text_event th text) ids (r_said r) (r_said r').
Proof.
  intros H Hk Hlt x. unfold x, render_text. rewrite !and_then_eq. cbn [fst snd].
  destruct (sim_ensure k st r H) as (r1 & R1 & S1 & B1 & St1 & O1 & N1).
  destruct (sim_close_calls k _ r1 S1) as (r2 & R2 & S2 & B2).
  destruct (sim_open_text k th _ r2 S2 St1 eq_refl) as (r3 & R3 & S3 & B3); [cbn; lia|done|].
  destruct (sim_text_delta th _ r3 text S3) as (r4 & R4 & S4 & l & body & Hl & Hl').
  exists r4. rewrite !read_all_app, R1, R2, R3. split; [done|]. split; [done|].
  rewrite Hl'. apply spoke_text. rewrite <-Hl, B3, B2. unfold r_said. rewrite B1.
  destruct k; [right; by rewrite app_nil_r|by left].
Qed.

Lemma find_open (l : list (string * Z)) id :
  match find (fun x : string * Z => Str.eqb x.1 id) l with
  | Some x => In x l ∧ x.1 = id
  | None => ¬ In id (map fst l)
  end.
Proof.
  destruct (find _ l) as [x|] eqn:E.
  - apply find_Some in E as [? ?%Str.str_eqb_eq]. done.
  - rewrite find_None in E. intros ([k j] & Hk & Hin)%in_map_iff. cbn in Hk. subst k.
    apply E in Hin. cbn in Hin. by rewrite Str.str_eqb_refl in Hin.
Qed.

Lemma step_delta k st r id partial :
  sim k st r →
  let x := render_frames (EvToolUseDelta id partial) st in
  ∃ r', read_all r x.1 = Some r' ∧ sim k x.2 r' ∧
    spoke (EvToolUseDelta id partial) (map fst (open_tools st)) (r_said r) (r_said r').
Proof.
  intros H. cbn [render_frames]. unfold tool_block. pose proof (find_open (open_tools st) id) as Hf.
  destruct (find _ _) as [[id' i]|].
  - destruct Hf as [Hin Hid]. cbn in Hid. subst id'. cbn [snd].
    destruct (sim_call_delta k st r id i partial H Hin) as (r' & name & body & R & S & Hl & Hl').
    exists r'. cbn [fst read_all]. rewrite R. split; [done|]. split; [done|].
    rewrite Hl'. by eapply spoke_delta.
  - destruct (last (open_tools st)) as [[id' i]|] eqn:El; cbn [fmap option_fmap option_map snd fst].
    2: { exists r. split; [done|]. split; [done|]. apply last_None in El. rewrite El in *.
         split; cbn; rewrite ?Str.append_empty_r, ?app_nil_r; done. }
    apply last_Some in El as [l' El].
    destruct (sim_call_delta k st r id' i partial H) as (r' & name & body & R & S & Hl & Hl').
    { rewrite El. apply in_app_iff. right. by left. }
    exists r'. cbn [read_all]. rewrite R. split; [done|]. split; [done|].
    destruct (spoke_delta id' partial (map fst (open_tools st)) _ _ _ _ Hl) as [H1 H2 H3 _].
    rewrite Hl'. by split.
Qed.

Lemma position_split {A} (p : A → bool) l n x :
  position p l = Some n → l !! n = Some x →
  p x = true ∧ ∃ l1 l2, l = l1 ++ x :: l2 ∧ remove_at n l = l1 ++ l2.
Proof.
  revert n; induction l as [|y l IH]; intros n; cbn [position]; [done|].
  destruct (p y) eqn:Ep.
  - intros [= <-] [= <-]. split; [done|]. by exists [], l.
  - destruct (position p l) as [m|] eqn:E; [|done]. cbn. intros [= <-] Hx.
    destruct (IH m eq_refl Hx) as (Hp & l1 & l2 & -> & Hr). split; [done|].
    exists (y :: l1), l2. split; [done|]. cbn. by rewrite Hr.
Qed.

Lemma close_tool_split st id :
  close_tool st id = ([], st) ∨
  ∃ l1 i l2, open_tools st = l1 ++ (id, i) :: l2 ∧
    close_tool st id = ([block_stop i], set_blocks st (open_text st) (l1 ++ l2) (next_index st)).
Proof.
  unfold close_tool. destruct (position _ (open_tools st)) as [n|] eqn:E; [|by left].
  destruct (open_tools st !! n) as [[id' i]|] eqn:En; [|by left]. right.
  destruct (position_split _ _ _ _ E En) as (Hid & l1 & l2 & El & ->).
  apply Str.str_eqb_eq in Hid. cbn in Hid. subst id'. by exists l1, i, l2.
Qed.

Lemma step_end k st r id ids :
  sim k st r →
  let x := close_tool st id in
  ∃ r', read_all r x.1 = Some r' ∧ sim k x.2 r' ∧ spoke (EvToolUseEnd id) ids (r_said r) (r_said r').
Proof.
  intros H. destruct (close_tool_split st id) as [->|(l1 & i & l2 & El & ->)].
  { exists r. split; [done|]. split; [done|]. by apply spoke_nothing. }
  destruct (sim_close_call k st r l1 id i l2 H El) as (r' & R & S & B). exists r'.
  cbn [fst snd read_all]. rewrite R. split; [done|]. split; [done|]. rewrite B. by apply spoke_nothing.
Qed.

Lemma step_call k st r id name ids :
  sim k st r → next_index st < U64_MAX →
  let x := render_frames (EvToolUseStart id name) st in
  ∃ r', read_all r x.1 = Some r' ∧ sim None x.2 r' ∧
    spoke (EvToolUseStart id name) ids (r_said r) (r_said r').
Proof.
  intros H Hlt x. unfold x. cbn [render_frames]. rewrite !and_then_eq. cbn [fst snd].
  destruct (sim_ensure k st r H) as (r1 & R1 & S1 & B1 & St1 & O1 & N1).
  destruct (sim_close_text k _ r1 S1) as (r2 & R2 & S2 & B2).
  destruct (sim_open_call _ r2 id name S2) as (r3 & R3 & S3 & B3).
  { unfold close_text. by destruct (open_text _). }
  { unfold close_text. destruct (open_text _); cbn; lia. }
  exists r3. rewrite !read_all_app, R1, R2, R3. split; [done|]. split; [done|].
  rewrite B3, B2. unfold r_said. rewrite B1.
  split; unfold read_names, read_calls; rewrite ?bodies_app, ?filter_map_app; cbn;
    rewrite ?Str.append_empty_r; done.
Qed.

(** Every event but the end of the message. *)
Lemma step k st r e :
  sim k st r → continues k e = true → Stream.event_stop e = None → next_index st < U64_MAX →
  let x := render_frames e st in
  ∃ r', read_all r x.1 = Some r' ∧ sim (kind_after k e) x.2 r' ∧
    spoke e (map fst (open_tools st)) (r_said r) (r_said r').
Proof.
  intros H Hk Hs Hlt. destruct e as [m u|text|text|id name|id partial|id|u|reason u|message]; try done.
  - cbn [render_frames kind_after].
    destruct (sim_ensure k _ r (sim_usage _ _ _ u (Stream.adopt_model (rs_model st) m) H))
      as (r1 & R1 & S1 & B1 & _). exists r1. split; [done|]. split; [done|].
    unfold r_said. rewrite B1. by apply spoke_nothing.
  - eapply (step_text false); [done| |done]. cbn in Hk |- *. by bool_to_prop.
  - eapply (step_text true); [done| |done]. cbn in Hk |- *. by bool_to_prop.
  - by apply (step_call k).
  - by apply step_delta.
  - by apply step_end.
  - exists r. split; [done|]. split; [|by apply spoke_nothing]. cbn.
    pose proof (sim_usage _ _ _ u (rs_model st) H) as H'. by destruct st.
  - exists r. split; [done|]. split; [done|]. by apply spoke_nothing.
Qed.

(** Text sent into a block of thinking, or thinking into one of text, is a
    delta the client has no reading for. *)
Lemma mixed_unread th text k st r :
  sim k st r → k = Some (negb th) → read_all r (render_text st text th).1 = None.
Proof.
  intros H ->. unfold render_text. rewrite !and_then_eq. cbn [fst snd].
  destruct (sim_ensure _ st r H) as (r1 & R1 & S1 & _).
  destruct (sim_close_calls _ _ r1 S1) as (r2 & R2 & S2 & _). rewrite !read_all_app, R1, R2.
  set (st2 := (close_tools (ensure_started st).2).2) in *. pose proof (s_text _ _ _ S2) as Ht.
  unfold open_block, text_delta. destruct (open_text st2) as [i|] eqn:E; [|done].
  cbn [fst snd read_all]. rewrite E. cbn [default from_option]. destruct Ht as (_ & bs & body & -> & Hbs).
  assert (0 ≤ Z.of_nat (length bs) ≤ U64_MAX) as Hb.
  { destruct (s_index _ _ _ S2) as [Hi Hmax]. rewrite Hi, Hbs, length_app in Hmax. cbn in Hmax. lia. }
  unfold read_frame, block_delta. rewrite (open_at_index r2 (Z.of_nat (length bs)) Hb _
    {| b_kind := if negb th then KThinking else KText; b_body := body; b_open := true |});
    [|done|rewrite Hbs; apply last_block|done].
  cbn. destruct (negb (r_started r2) || r_over r2); [done|]. by destruct th.
Qed.

Lemma event_mixed e k st r :
  sim k st r → continues k e = false → read_all r (render_frames e st).1 = None.
Proof.
  intros H Hc. destruct e; try done; cbn [render_frames continues] in *;
    apply negb_false_iff, bool_decide_eq_true in Hc; by eapply mixed_unread.
Qed.

Lemma mixed_at k es :
  unmixed k es = false →
  ∃ pre e post, es = pre ++ e :: post ∧ unmixed k pre = true ∧ continues (fold_left kind_after pre k) e = false.
Proof.
  revert k; induction es as [|e es IH]; intros k; cbn [unmixed]; [done|].
  destruct (continues k e) eqn:Hc; cbn [andb].
  - intros (pre & e' & post & -> & Hp & He)%IH. exists (e :: pre), e', post. cbn [unmixed fold_left].
    by rewrite Hc.
  - intros _. by exists [], e, es.
Qed.

(** ** A run *)

Lemma next_ensure st : next_index (ensure_started st).2 = next_index st.
Proof. unfold ensure_started. by destruct (started st). Qed.
Lemma tools_ensure st : open_tools (ensure_started st).2 = open_tools st.
Proof. unfold ensure_started. by destruct (started st). Qed.
Lemma usage_ensure st : rs_usage (ensure_started st).2 = rs_usage st.
Proof. unfold ensure_started. by destruct (started st). Qed.
Lemma next_close st : next_index (close_text st).2 = next_index st.
Proof. unfold close_text. by destruct (open_text st). Qed.
Lemma tools_close st : open_tools (close_text st).2 = open_tools st.
Proof. unfold close_text. by destruct (open_text st). Qed.
Lemma usage_close st : rs_usage (close_text st).2 = rs_usage st.
Proof. unfold close_text. by destruct (open_text st). Qed.

(** What an event does to the renderer's own books. *)
Lemma step_books e st :
  Stream.event_stop e = None →
  let st' := (render_frames e st).2 in
  next_index st' ≤ next_index st + 1 ∧
  rs_usage st' = match Stream.event_usage e with
    | Some u => Usages.merge (rs_usage st) u | None => rs_usage st end.
Proof.
  assert (∀ th text, next_index (render_text st text th).2 ≤ next_index st + 1 ∧
    rs_usage (render_text st text th).2 = rs_usage st) as Htext.
  { intros th text. unfold render_text. rewrite !and_then_eq. cbn [fst snd text_delta].
    unfold open_block. cbn [close_tools snd open_text set_blocks].
    destruct (open_text (ensure_started st).2); cbn; rewrite next_ensure, usage_ensure; split; (done || lia). }
  destruct e as [m u|text|text|id name|id partial|id|u|reason u|message]; try done; intros _; cbn [render_frames].
  - by rewrite next_ensure, usage_ensure; cbn; split; [lia|].
  - apply Htext.
  - apply Htext.
  - rewrite !and_then_eq. cbn. by rewrite next_close, next_ensure, usage_close, usage_ensure.
  - destruct (tool_block st id); cbn; split; (done || lia).
  - destruct (close_tool_split st id) as [->|(l1 & i & l2 & _ & ->)]; cbn; split; (done || lia).
  - cbn. split; (done || lia).
  - cbn. split; (done || lia).
Qed.

Lemma step_open e st open :
  Stream.event_stop e = None → (∀ o, In o open → In o (map fst (open_tools st))) →
  ∀ o, In o (open_after open e) → In o (map fst (open_tools (render_frames e st).2)).
Proof.
  intros He H o. destruct e as [m u|text|text|id name|id partial|id|u|reason u|message]; try done;
    cbn [render_frames open_after].
  - rewrite tools_ensure. apply H.
  - rewrite !and_then_eq. cbn. rewrite tools_close, tools_ensure, map_app. cbn.
    intros [<-|Ho]; apply in_app_iff; [right; by left|left; auto].
  - destruct (tool_block st id); apply H.
  - intros [Ho Hne]%keep_In. apply negb_true_iff, Str.str_eqb_neq in Hne.
    apply H in Ho. destruct (close_tool_split st id) as [->|(l1 & i & l2 & El & ->)]; [done|]. cbn.
    rewrite El, map_app in Ho. rewrite map_app. apply in_app_iff.
    apply in_app_iff in Ho as [?|[?|?]]; [by left|done|by right].
  - apply H.
  - apply H.
Qed.

Definition unstopped (es : list StreamEvent) : bool :=
  all (fun e => bool_decide (Stream.event_stop e = None)) es.

Definition usages (es : list StreamEvent) (u : Usage) : Usage :=
  fold_left Usages.merge (filter_map Stream.event_usage es) u.

Lemma call_step_keys e l :
  map fst (call_step e l) = map fst l ++ option_list (Stream.event_start e).
Proof.
  destruct e; cbn; rewrite ?app_nil_r, ?map_app; try done.
  induction l as [|[k b] l IH]; cbn; [done|]. destruct (Str.eqb k id); cbn; congruence.
Qed.

Lemma starts_cons e es :
  filter_map Stream.event_start (e :: es) = option_list (Stream.event_start e) ++ filter_map Stream.event_start es.
Proof. cbn. by destruct (Stream.event_start e). Qed.

Lemma run es k st r open :
  sim k st r → unmixed k es = true → unstopped es = true →
  next_index st + Z.of_nat (length es) ≤ U64_MAX →
  let x := render_all es st in
  ∃ r', read_all r x.1 = Some r' ∧ sim (fold_left kind_after es k) x.2 r' ∧
    bodies false (r_said r') = bodies false (r_said r) +:+ join (filter_map event_answer es) ∧
    bodies true (r_said r') = bodies true (r_said r) +:+ join (filter_map event_thought es) ∧
    read_names (r_said r') = read_names (r_said r) ++ filter_map event_call es ∧
    rs_usage x.2 = usages es (rs_usage st) ∧
    (NoDup (map fst (read_calls (r_said r)) ++ filter_map Stream.event_start es) →
      (∀ o, In o open → In o (map fst (open_tools st))) → scoped open es = true →
      read_calls (r_said r') = fold_left (fun l e => call_step e l) es (read_calls (r_said r))).
Proof.
  revert k st r open; induction es as [|e es IH]; intros k st r open H Hmix Hst Hlen x.
  { exists r. cbn. rewrite !Str.append_empty_r, app_nil_r. done. }
  cbn [unmixed unstopped all List.forallb length] in Hmix, Hst, Hlen. bool_to_prop.
  destruct (step k st r e) as (r1 & R1 & S1 & P1); [done..|lia|].
  destruct (step_books e st) as [Hn Hu]; [done|].
  destruct (IH _ _ r1 (open_after open e) S1) as (r2 & R2 & S2 & A2 & T2 & N2 & U2 & C2); [done..|lia|].
  exists r2. unfold x. cbn [render_all]. rewrite and_then_eq. cbn [fst snd].
  rewrite read_all_app, R1. split; [done|]. split; [done|]. destruct P1 as [PA PT PN PC].
  rewrite A2, PA, T2, PT, N2, PN, U2, Hu, starts_cons. unfold usages. cbn [filter_map fold_left].
  split_and!.
  - destruct (event_answer e); cbn; by rewrite ?Str.append_empty_r, ?Str.append_assoc.
  - destruct (event_thought e); cbn; by rewrite ?Str.append_empty_r, ?Str.append_assoc.
  - destruct (event_call e); cbn; by rewrite ?app_nil_r, <-?app_assoc.
  - by destruct (Stream.event_usage e).
  - rewrite app_assoc. intros Hnd Hopen Hsc. cbn [scoped] in Hsc. bool_to_prop.
    assert (read_calls (r_said r1) = call_step e (read_calls (r_said r))) as Hc.
    { apply PC; [by apply NoDup_app in Hnd as [[? _]%NoDup_app _]|].
      destruct e; try done. cbn in *. bool_to_prop. apply Hopen. by apply list_elem_of_In. }
    rewrite C2, Hc; [done| |by apply step_open|done]. by rewrite Hc, call_step_keys.
Qed.

(** ** The end of the message *)

Definition at_rest (st : RenderState) : Prop :=
  started st = true ∧ finished st = true ∧ open_text st = None ∧ open_tools st = [].

Lemma quiet_step e st r :
  at_rest st → quiet e = true →
  read_all r (render_frames e st).1 = Some r ∧ at_rest (render_frames e st).2.
Proof.
  intros (Hs & Hf & Ht & Ho) Hq.
  destruct e as [m u|text|text|id name|id partial|id|u|reason u|message]; try done; cbn [render_frames].
  - unfold ensure_started. cbn. by rewrite Hs.
  - unfold tool_block. by rewrite Ho.
  - unfold close_tool. by rewrite Ho.
  - by rewrite Hf.
Qed.

Lemma quiet_run es st r :
  at_rest st → all quiet es = true → read_all r (render_all es st).1 = Some r.
Proof.
  revert st; induction es as [|e es IH]; intros st Hst; cbn [all List.forallb render_all]; [done|].
  intros [Hq Hes]%andb_true_iff. destruct (quiet_step e st r Hst Hq) as [Hr Hst'].
  rewrite and_then_eq. cbn [fst]. by rewrite read_all_app, Hr, IH.
Qed.

Lemma finish_ensure st :
  ensure_started (set_finished st) = ((ensure_started st).1, set_finished (ensure_started st).2).
Proof. unfold ensure_started. cbn. by destruct (started st). Qed.

Lemma finish_close st :
  close_text (set_finished st) = ((close_text st).1, set_finished (close_text st).2).
Proof. unfold close_text. cbn. by destruct (open_text st). Qed.

Lemma step_stop k st r reason u :
  sim k st r →
  let x := render_frames (EvStop reason u) st in
  at_rest x.2 ∧ ∃ r', read_all r x.1 = Some r' ∧ r_over r' = true ∧ r_said r' = r_said r ∧
    all_closed (r_blocks r') = true ∧
    r_end r' = Some (Anthropic.stop_reason_str reason, usage_json (Usages.merge (rs_usage st) u)).
Proof.
  intros H x. destruct (sim_ensure k _ r (sim_usage _ _ _ u (rs_model st) H)) as (r1 & R1 & S1 & B1 & St1 & _).
  destruct (sim_close_text k _ r1 S1) as (r2 & R2 & S2 & B2).
  destruct (sim_close_calls None _ r2 S2) as (r3 & R3 & S3 & B3).
  set (st1 := add_usage (set_model st (rs_model st)) u) in *.
  assert (add_usage (set_finished st) u = set_finished st1) as E by (by destruct st).
  unfold x. cbn [render_frames]. rewrite (proj1 (s_live _ _ _ H)), E.
  rewrite !and_then_eq, finish_ensure. cbn [fst snd]. rewrite finish_close. cbn [fst snd].
  assert (open_text (close_text (ensure_started st1).2).2 = None) as Hnone.
  { pose proof (s_text _ _ _ S2) as Ht. by destruct (open_text _). }
  split.
  { split_and!; cbn; try done. unfold close_text. by destruct (open_text (ensure_started st1).2). }
  assert (all_closed (r_blocks r3) = true) as Hclosed.
  { apply all_true. intros b (n & Hb)%In_lookup. destruct (b_open b) eqn:Eo; [|done].
    destruct (s_open _ _ _ S3 n b Hb Eo) as [Hx|[id Hx]]; [|done]. cbn in Hx. congruence. }
  rewrite !read_all_app. cbn [snd fst close_tools set_finished open_tools] in *.
  rewrite R1, R2, R3. cbn [message_end fst read_all].
  assert (r_started r3 = true) as Hst3.
  { rewrite (s_started _ _ _ S3). cbn. unfold close_text.
    by destruct (open_text (ensure_started st1).2). }
  destruct (s_live _ _ _ S3) as [_ Hov].
  eexists. split.
  { unfold read_frame at 1. cbn -[usage_json]. rewrite Hst3, Hov, Hclosed. cbn -[usage_json].
    done. }
  cbn. split; [done|]. split; [|split; [done|]].
  - unfold r_said in *. cbn. rewrite B3, B2. by rewrite B1.
  - rewrite usage_close, usage_ensure. done.
Qed.

Lemma render_app es fs st :
  render_all (es ++ fs) st =
    ((render_all es st).1 ++ (render_all fs (render_all es st).2).1,
     (render_all fs (render_all es st).2).2).
Proof.
  revert st; induction es as [|e es IH]; intros st; cbn [render_all app].
  { cbn. by destruct (render_all fs st). }
  rewrite !and_then_eq, IH. cbn [fst snd]. by rewrite app_assoc.
Qed.

(** The client's account of a whole message. *)
Lemma message_read request_id model before reason u after :
  unmixed None before = true → unstopped before = true → all quiet after = true →
  Z.of_nat (length before) ≤ U64_MAX →
  ∃ r, read_all reader_new (render_all (before ++ EvStop reason u :: after) (new request_id model)).1 = Some r ∧
    r_over r = true ∧ all_closed (r_blocks r) = true ∧
    r_end r = Some (Anthropic.stop_reason_str reason,
      usage_json (Usages.merge (usages before no_usage) u)) ∧
    bodies false (r_said r) = join (filter_map event_answer before) ∧
    bodies true (r_said r) = join (filter_map event_thought before) ∧
    read_names (r_said r) = filter_map event_call before ∧
    (NoDup (filter_map Stream.event_start before) → scoped [] before = true →
      read_calls (r_said r) = fold_left (fun l e => call_step e l) before []).
Proof.
  intros Hmix Hst Hq Hlen.
  destruct (run before None (new request_id model) reader_new [] (sim_new _ _))
    as (r1 & R1 & S1 & A1 & T1 & N1 & U1 & C1); [done..|].
  destruct (step_stop _ _ r1 reason u S1) as (Hrest & r2 & R2 & O2 & B2 & Cl2 & E2).
  exists r2. rewrite render_app. cbn [fst]. rewrite read_all_app, R1.
  cbn [render_all]. rewrite and_then_eq. cbn [fst]. rewrite read_all_app, R2, quiet_run by done.
  rewrite E2, B2, U1, A1, T1, N1. split_and!; try done. intros Hnd Hsc. by apply C1.
Qed.

(** A stream in which they share a block is not read. *)
Lemma mixed_rejected request_id model before rest :
  unmixed None before = false → unstopped before = true → Z.of_nat (length before) ≤ U64_MAX →
  read_all reader_new (render_all (before ++ rest) (new request_id model)).1 = None.
Proof.
  intros (pre & e & post & -> & Hpre & He)%mixed_at Hst Hlen.
  unfold unstopped, all in Hst. rewrite List.forallb_app in Hst. apply andb_true_iff in Hst as [Hst' _].
  rewrite length_app in Hlen. cbn in Hlen.
  destruct (run pre None (new request_id model) reader_new [] (sim_new _ _) Hpre Hst') as (r1 & R1 & S1 & _); [cbn; lia|].
  rewrite <-app_assoc, render_app. cbn [fst]. rewrite read_all_app, R1. cbn [app render_all]. rewrite and_then_eq. cbn [fst].
  by rewrite read_all_app, (event_mixed e _ _ _ S1 He).
Qed.

(** ** What is on the wire, accepted or not *)

(** The text of the deltas of a kind. *)
Definition delta_of (kind member : string) (f : Frame) : option string :=
  if Str.eqb f.1 "content_block_delta" && Str.eqb (str_or "" (idx (idx f.2 "delta") "type")) kind
  then as_str (idx (idx f.2 "delta") member) else None.

Definition sent_text (fs : list Frame) : string := join (filter_map (delta_of "text_delta" "text") fs).
Definition sent_thinking (fs : list Frame) : string :=
  join (filter_map (delta_of "thinking_delta" "thinking") fs).

Lemma fold_calls es a :
  tool_buffers (Stream.observe_all a es) = fold_left (fun l e => call_step e l) es (tool_buffers a).
Proof.
  unfold Stream.observe_all. revert a; induction es as [|e es IH]; intros a; [done|].
  cbn [fold_left]. rewrite IH. by destruct e.
Qed.

Lemma blocks_silent kind member (l : list (string * Z)) :
  filter_map (delta_of kind member) (map (fun x => block_stop x.2) l) = [].
Proof. by induction l. Qed.

Lemma ensure_silent kind member st : filter_map (delta_of kind member) (ensure_started st).1 = [].
Proof. unfold ensure_started. by destruct (started st). Qed.

Lemma close_silent kind member st : filter_map (delta_of kind member) (close_text st).1 = [].
Proof. unfold close_text. by destruct (open_text st). Qed.

Lemma opening_silent kind member th st : filter_map (delta_of kind member) (open_block th st).1 = [].
Proof. unfold open_block. by destruct (open_text st). Qed.

(** An event puts its own text on the wire, and no other. *)
Lemma event_says e st :
  filter_map (delta_of "text_delta" "text") (render_frames e st).1 = option_list (event_answer e) ∧
  filter_map (delta_of "thinking_delta" "thinking") (render_frames e st).1 = option_list (event_thought e).
Proof.
  destruct e as [m u|text|text|id name|id partial|id|u|reason u|message]; cbn [render_frames].
  1: split; apply ensure_silent.
  1-2: unfold render_text; rewrite !and_then_eq; cbn [fst snd]; unfold close_tools; cbn [fst];
    rewrite !filter_map_app, !ensure_silent, !blocks_silent, !opening_silent; by split.
  - rewrite !and_then_eq. cbn [fst snd]. by rewrite !filter_map_app, !ensure_silent, !close_silent.
  - by destruct (tool_block st id).
  - by destruct (close_tool_split st id) as [->|(l1 & i & l2 & _ & ->)].
  - done.
  - destruct (finished st); [done|]. rewrite !and_then_eq. cbn [fst snd]. unfold close_tools. cbn [fst].
    by rewrite !filter_map_app, !ensure_silent, !close_silent, !blocks_silent.
  - done.
Qed.

Lemma wire_says es st :
  sent_text (render_all es st).1 = join (filter_map event_answer es) ∧
  sent_thinking (render_all es st).1 = join (filter_map event_thought es).
Proof.
  unfold sent_text, sent_thinking. revert st; induction es as [|e es IH]; intros st; [done|].
  cbn [render_all]. rewrite and_then_eq. cbn [fst]. rewrite !filter_map_app, !join_app.
  destruct (event_says e st) as [-> ->], (IH (render_frames e st).2) as [-> ->]. cbn [filter_map].
  split; [destruct (event_answer e)|destruct (event_thought e)]; cbn; by rewrite ?Str.append_empty_r.
Qed.

Lemma quiet_says es : all quiet es = true → filter_map event_answer es = [].
Proof.
  induction es as [|e es IH]; [done|]. cbn [all List.forallb filter_map]. intros [He Hes]%andb_true_iff.
  rewrite IH by done. by destruct e.
Qed.

Lemma quiet_thinks es : all quiet es = true → filter_map event_thought es = [].
Proof.
  induction es as [|e es IH]; [done|]. cbn [all List.forallb filter_map]. intros [He Hes]%andb_true_iff.
  rewrite IH by done. by destruct e.
Qed.

(** C35. Which of the renderer's streams the dialect's clients accept, exactly.
    Whatever events an upstream is read as, up to the end of its message and
    with nothing said after it.  Where a call opens wherever the answer goes
    from thinking to text or back, the stream is accepted: the message starts
    once and first, each block opens under the next index, every delta goes to
    an open block of its own kind, every block is closed once and before the
    message ends, and it ends once, with the reason the upstream gave and the
    merge of every usage it reported.  Where text directly follows thinking, or
    thinking text, it is refused: the renderer has one block for both
    ([text_joins_thinking]). *)
Theorem stream_is_accepted request_id model before reason u after :
  unstopped before = true → all quiet after = true → Z.of_nat (length before) ≤ U64_MAX →
  let wire := (render_all (before ++ EvStop reason u :: after) (new request_id model)).1 in
  if unmixed None before then
    ∃ r, read_all reader_new wire = Some r ∧ r_over r = true ∧ all_closed (r_blocks r) = true ∧
      r_end r = Some (Anthropic.stop_reason_str reason, usage_json (Usages.merge (usages before no_usage) u))
  else read_all reader_new wire = None.
Proof.
  intros Hst Hq Hlen. cbv zeta. destruct (unmixed None before) eqn:Hmix; [|by apply mixed_rejected].
  destruct (message_read request_id model before reason u after) as (r & H1 & H2 & H3 & H4 & _); [done..|].
  by exists r.
Qed.

(** C32. What is sent is what the upstream said.  Of any message that stops
    once, with nothing said after, its events in any order, the text deltas are
    all its text and the thinking deltas all its thinking, each in order.  And
    of any message a client of the dialect accepts, its text blocks say all the text, its thinking blocks all the
    thinking, its tool calls are those that were started, in order and under
    their names; and when no two calls share an id and each fragment comes
    while its call is open, every call's arguments are that call's own
    fragments, in order, however calls interleave.  Which messages it accepts
    is [stream_is_accepted]'s: those whose text never directly follows
    thinking, nor thinking text. *)
Theorem stream_says_the_answer request_id model before reason u after :
  unstopped before = true → all quiet after = true → Z.of_nat (length before) ≤ U64_MAX →
  let wire := (render_all (before ++ EvStop reason u :: after) (new request_id model)).1 in
  sent_text wire = join (filter_map event_answer before) ∧
  sent_thinking wire = join (filter_map event_thought before) ∧
  ∀ r, read_all reader_new wire = Some r →
    bodies false (r_said r) = join (filter_map event_answer before) ∧
    bodies true (r_said r) = join (filter_map event_thought before) ∧
    read_names (r_said r) = filter_map event_call before ∧
    (NoDup (filter_map Stream.event_start before) → scoped [] before = true →
      read_calls (r_said r) = Stream.calls before).
Proof.
  intros Hst Hq Hlen wire.
  destruct (wire_says (before ++ EvStop reason u :: after) (new request_id model)) as [Ht Hk].
  rewrite !filter_map_app in Ht, Hk. cbn [filter_map event_answer event_thought] in Ht, Hk.
  rewrite (quiet_says _ Hq) in Ht. rewrite (quiet_thinks _ Hq) in Hk. rewrite app_nil_r in Ht, Hk.
  split; [exact Ht|]. split; [exact Hk|]. intros r Hr.
  destruct (unmixed None before) eqn:Hmix.
  2: { unfold wire in Hr. by rewrite mixed_rejected in Hr. }
  destruct (message_read request_id model before reason u after)
    as (r' & H1 & _ & _ & _ & H5 & H6 & H7 & H8); [done..|].
  fold wire in H1. rewrite Hr in H1. injection H1 as <-. split_and!; try done. intros Hnd Hsc. rewrite H8 by done.
  pose proof (fold_calls before Stream.new) as Hf. cbn in Hf. rewrite <-Hf. by rewrite Stream.buffers_spec.
Qed.

(** Text that directly continues thinking is written into the thinking's
    block: the renderer keeps one open block for both and does not look at its
    kind.  The client is sent a [text_delta] for a block opened as
    [thinking], which the dialect has no reading for. *)
Theorem text_joins_thinking request_id model thought text :
  let out := (render_all [EvThinkingDelta thought; EvTextDelta text] (new request_id model)).1 in
  ∃ start, out = [start;
    block_start 0 (JObject [("type", JString "thinking"); ("thinking", JString "")]);
    block_delta 0 (JObject [("type", JString "thinking_delta"); ("thinking", JString thought)]);
    block_delta 0 (JObject [("type", JString "text_delta"); ("text", JString text)])] ∧
  read_all reader_new out = None.
Proof. eexists. split; reflexivity. Qed.

(** ** Witnesses *)

(** Two calls interleaved after some text, then a late usage report. *)
Definition stream_example : list StreamEvent := [
  EvStart "claude" no_usage; EvTextDelta "Look"; EvTextDelta "ing"; EvToolUseStart "a" "read";
  EvToolUseStart "b" "list"; EvToolUseDelta "a" "{1"; EvToolUseDelta "b" "{2"; EvToolUseDelta "a" "}";
  EvToolUseEnd "a"; EvToolUseDelta "b" "}"].

Lemma stream_is_accepted_witness :
  (∃ r, read_all reader_new (render_all (stream_example ++ [EvStop StopToolUse no_usage;
      EvToolUseEnd "b"; EvUsageUpdate no_usage]) (new "1" "m")).1 = Some r ∧
    r_end r = Some ("tool_use", usage_json no_usage)) ∧
  read_all reader_new (render_all ([EvThinkingDelta "hm"; EvTextDelta "so"] ++ [EvStop StopEndTurn no_usage])
    (new "1" "m")).1 = None.
Proof.
  pose proof (stream_is_accepted "1" "m" stream_example StopToolUse no_usage
    [EvToolUseEnd "b"; EvUsageUpdate no_usage] eq_refl eq_refl ltac:(done)) as H. cbv zeta in H.
  change (unmixed None stream_example) with true in H. destruct H as (r & H & _ & _ & He). split.
  - exists r. split; [exact H|exact He].
  - exact (stream_is_accepted "1" "m" [EvThinkingDelta "hm"; EvTextDelta "so"] StopEndTurn no_usage []
      eq_refl eq_refl ltac:(done)).
Defined.

Lemma stream_says_the_answer_witness :
  ∃ r, read_all reader_new (render_all (stream_example ++ [EvStop StopToolUse no_usage])
      (new "1" "m")).1 = Some r ∧
    bodies false (r_said r) = "Looking" ∧ read_calls (r_said r) = [("a", "{1}"); ("b", "{2}")].
Proof.
  destruct (stream_says_the_answer "1" "m" stream_example StopToolUse no_usage [] eq_refl eq_refl ltac:(done))
    as (_ & _ & H).
  destruct (read_all reader_new (render_all (stream_example ++ [EvStop StopToolUse no_usage]) (new "1" "m")).1)
    as [r|] eqn:E; [|vm_compute in E; discriminate E].
  destruct (H r eq_refl) as (Ht & _ & _ & Hc). exists r. split; [done|]. split; [exact Ht|]. apply Hc; [|reflexivity].
  apply NoDup_ListNoDup. vm_compute. repeat constructor; simpl; intuition discriminate.
Defined.

End AnthropicStream.
