(* ===== verification/Hub.v ===== *)
(** * The hub of non-streamed answers

    [render_from_events] of [crates/oag-proto/src/anthropic.rs]: a whole answer
    put together from the hub's events as one Anthropic body, which every
    converter to a client's dialect starts from. *)

From Stdlib Require Import Ascii.
From S2P Require Import Prelude Text Money Domain Efforts Catalog Cost.
From S2P Require Import Ladder Classify Budget Policy Canonical Wire Names Stream Anthropic AnthropicStream.
#[local] Open Scope string_scope.
#[local] Open Scope oag_scope.
#[local] Open Scope list_scope.
#[local] Open Scope Z_scope.

(** A content block under assembly. *)
Inductive OpenBlock : Type :=
  | OText (text : string)
  | OThinking (text : string)
  | OTool (id name input : string).

Record HubState : Type := {
  h_content : list Json;
  h_open : option OpenBlock;
  h_usage : Usage;
  h_stop : option StopReason;
  h_model : string
}.

Module Hub.
Import Js Wire.

Section hub.
(** [Value::to_string] and [serde_json::from_str]. *)
Context (to_string : Json → string) (from_json : string → option Json).

(** [OpenBlock::into_json]. *)
Definition into_json (b : OpenBlock) : Json :=
  match b with
  | OText text => JObject [("type", JString "text"); ("text", JString text)]
  | OThinking text => JObject [("type", JString "thinking"); ("thinking", JString text)]
  | OTool id name input =>
      JObject [("type", JString "tool_use"); ("id", JString id); ("name", JString name);
               ("input", default (JObject []) (from_json input))]
  end.

Definition close_block (open : option OpenBlock) (content : list Json) : list Json :=
  match open with Some b => content ++ [into_json b] | None => content end.

Definition set_open (h : HubState) (open : option OpenBlock) : HubState := {|
  h_content := h_content h; h_open := open; h_usage := h_usage h; h_stop := h_stop h;
  h_model := h_model h |}.

Definition reopen (h : HubState) (open : option OpenBlock) : HubState := {|
  h_content := close_block (h_open h) (h_content h); h_open := open; h_usage := h_usage h;
  h_stop := h_stop h; h_model := h_model h |}.

Definition report (h : HubState) (u : Usage) (stop : option StopReason) (model : string) : HubState := {|
  h_content := h_content h; h_open := h_open h; h_usage := Usages.merge (h_usage h) u;
  h_stop := stop; h_model := model |}.

(** One turn of the loop. *)
Definition hub_step (h : HubState) (e : StreamEvent) : HubState :=
  match e with
  | EvStart announced u =>
      report h u (h_stop h) (if negb (Str.is_empty announced) then announced else h_model h)
  | EvUsageUpdate u => report h u (h_stop h) (h_model h)
  | EvTextDelta text =>
      match h_open h with
      | Some (OText buf) => set_open h (Some (OText (buf +:+ text)))
      | _ => reopen h (Some (OText text))
      end
  | EvThinkingDelta text =>
      match h_open h with
      | Some (OThinking buf) => set_open h (Some (OThinking (buf +:+ text)))
      | _ => reopen h (Some (OThinking text))
      end
  | EvToolUseStart id name => reopen h (Some (OTool id name ""))
  | EvToolUseDelta id partial_json =>
      match h_open h with
      | Some (OTool open_id name input) =>
          if Str.eqb open_id id then set_open h (Some (OTool open_id name (input +:+ partial_json)))
          else reopen h (Some (OTool id id partial_json))
      | _ => reopen h (Some (OTool id id partial_json))
      end
  | EvToolUseEnd _ => reopen h None
  | EvStop reason u => report h u (Some reason) (h_model h)
  | EvError _ => h
  end.

Definition hub_new (model : string) : HubState :=
  {| h_content := []; h_open := None; h_usage := no_usage; h_stop := None; h_model := model |}.

Definition is_tool_use (b : Json) : bool := bool_decide (as_str (idx b "type") = Some "tool_use").

Definition render_from_events (events : list StreamEvent) (request_id model : string) : Json :=
  let h := fold_left hub_step events (hub_new model) in
  let content := close_block (h_open h) (h_content h) in
  let has_tool_use := any is_tool_use content in
  let stop_reason :=
    match h_stop h with
    | Some StopEndTurn => if has_tool_use then Some StopToolUse else Some StopEndTurn
    | other => other
    end in
  JObject [("id", JString ("msg_" +:+ request_id)); ("type", JString "message");
    ("role", JString "assistant"); ("model", JString (h_model h)); ("content", JArray content);
    ("stop_reason", match stop_reason with
       | Some r => JString (Anthropic.stop_reason_str r) | None => JNull end);
    ("stop_sequence", JNull); ("usage", AnthropicStream.usage_json (h_usage h))].

(** ** What the body holds *)

Import AnthropicStream.

(** A block as its kind and body; what the loop has put together so far. *)
Definition as_said (b : OpenBlock) : BlockKind * string :=
  match b with
  | OText text => (KText, text)
  | OThinking text => (KThinking, text)
  | OTool id name input => (KTool id name, input)
  end.

Definition assembled (h : HubState) (bs : list OpenBlock) : Prop :=
  ∃ done, h_content h = map into_json done ∧ bs = done ++ option_list (h_open h).

(** The call whose fragments may come. *)
Definition turn (cur : option string) (e : StreamEvent) : option string :=
  match e with
  | EvToolUseStart id _ => Some id
  | EvTextDelta _ | EvThinkingDelta _ | EvToolUseEnd _ => None
  | _ => cur
  end.

Definition in_turn (cur : option string) (e : StreamEvent) : bool :=
  match e with EvToolUseDelta id _ => bool_decide (cur = Some id) | _ => true end.

(** Calls come one after the other: what every whole body is read as. *)
Fixpoint one_by_one (cur : option string) (es : list StreamEvent) : bool :=
  match es with [] => true | e :: es => in_turn cur e && one_by_one (turn cur e) es end.

Definition open_call (h : HubState) : option string :=
  match h_open h with Some (OTool id _ _) => Some id | _ => None end.

Lemma assembled_reopen h bs b :
  assembled h bs → assembled (reopen h (Some b)) (bs ++ [b]).
Proof.
  intros (closed & Hc & ->). exists (closed ++ option_list (h_open h)). split; [|done].
  cbn. rewrite Hc. destruct (h_open h); cbn; by rewrite ?map_app, ?app_nil_r.
Qed.

Lemma assembled_none h bs : assembled h bs → assembled (reopen h None) bs.
Proof.
  intros (closed & Hc & ->). exists (closed ++ option_list (h_open h)). split; [|by rewrite app_nil_r].
  cbn. rewrite Hc. destruct (h_open h); cbn; by rewrite ?map_app, ?app_nil_r.
Qed.

Lemma assembled_open h bs b :
  assembled h bs → h_open h = Some b →
  ∃ l, bs = l ++ [b] ∧ ∀ b', assembled (set_open h (Some b')) (l ++ [b']).
Proof.
  intros (closed & Hc & ->) Ho. exists closed. rewrite Ho. split; [done|]. intros b'. by exists closed.
Qed.

Lemma text_turn (th : bool) text ids h bs :
  assembled h bs →
  let h' := hub_step h (text_event th text) in
  open_call h' = None ∧ ∃ bs', assembled h' bs' ∧
    spoke (text_event th text) ids (map as_said bs) (map as_said bs').
Proof.
  intros H h'.
  assert ((∃ buf, h_open h = Some (if th then OThinking buf else OText buf)) ∨
    h' = reopen h (Some (if th then OThinking text else OText text))) as [[buf Ho]|Hr].
  { unfold h', hub_step, text_event. destruct th, (h_open h) as [[]|]; eauto. }
  - destruct (assembled_open _ _ _ H Ho) as (l & -> & Hl).
    unfold h', hub_step, text_event. rewrite Ho. destruct th.
    + split; [done|]. eexists. split; [apply Hl|]. rewrite !map_app.
      apply (spoke_text true). by right.
    + split; [done|]. eexists. split; [apply Hl|]. rewrite !map_app.
      apply (spoke_text false). by right.
  - rewrite Hr. split; [by destruct th|]. eexists. split; [by apply assembled_reopen|].
    rewrite map_app. destruct th; [apply (spoke_text true _ _ _ _ "")|apply (spoke_text false _ _ _ _ "")];
      by left.
Qed.

Lemma one_turn h bs e :
  assembled h bs → in_turn (open_call h) e = true →
  let h' := hub_step h e in
  open_call h' = turn (open_call h) e ∧
  ∃ bs', assembled h' bs' ∧
    spoke e (option_list (open_call h)) (map as_said bs) (map as_said bs').
Proof.
  intros H Ht. destruct e as [m u|text|text|id name|id partial|id|u|reason u|message]; cbn [hub_step turn].
  - split; [done|]. exists bs. split; [done|by apply spoke_nothing].
  - by apply (text_turn false).
  - by apply (text_turn true).
  - split; [done|]. eexists. split; [by apply assembled_reopen|]. rewrite map_app.
    split; unfold read_names, read_calls; rewrite ?bodies_app, ?filter_map_app; cbn;
      rewrite ?Str.append_empty_r; done.
  - cbn [in_turn] in Ht. bool_to_prop. unfold open_call in Ht |- *.
    destruct (h_open h) as [[| |id' name input]|] eqn:Ho; try done. injection Ht as ->.
    rewrite Str.str_eqb_refl. split; [done|].
    destruct (assembled_open _ _ _ H Ho) as (l & -> & Hl). eexists. split; [apply Hl|].
    rewrite !map_app. cbn [map as_said].
    rewrite <-(insert_last (map as_said l) (KTool id name, input) (KTool id name, input +:+ partial)).
    rewrite Nat2Z.id.
    apply spoke_delta. by apply list_lookup_middle.
  - split; [done|]. exists bs. split; [by apply assembled_none|by apply spoke_nothing].
  - split; [done|]. exists bs. split; [done|by apply spoke_nothing].
  - split; [done|]. exists bs. split; [done|by apply spoke_nothing].
  - split; [done|]. exists bs. split; [done|by apply spoke_nothing].
Qed.

Lemma hub_run es h bs :
  assembled h bs → one_by_one (open_call h) es = true →
  let h' := fold_left hub_step es h in
  ∃ bs', assembled h' bs' ∧
    bodies false (map as_said bs') = bodies false (map as_said bs) +:+ join (filter_map event_answer es) ∧
    bodies true (map as_said bs') = bodies true (map as_said bs) +:+ join (filter_map event_thought es) ∧
    read_names (map as_said bs') = read_names (map as_said bs) ++ filter_map event_call es ∧
    (NoDup (map fst (read_calls (map as_said bs)) ++ filter_map Stream.event_start es) →
      read_calls (map as_said bs') = fold_left (fun l e => call_step e l) es (read_calls (map as_said bs))).
Proof.
  revert h bs; induction es as [|e es IH]; intros h bs H Hone.
  { exists bs. cbn. by rewrite !Str.append_empty_r, app_nil_r. }
  cbn [one_by_one] in Hone. bool_to_prop.
  destruct (one_turn h bs e H) as (Ho & bs1 & Has1 & [PA PT PN PC]); [done|].
  destruct (IH _ bs1 Has1) as (bs2 & Has2 & A2 & T2 & N2 & C2); [by rewrite Ho|].
  exists bs2. split; [done|]. rewrite A2, PA, T2, PT, N2, PN, starts_cons. cbn [filter_map fold_left].
  split_and!.
  - destruct (event_answer e); cbn; by rewrite ?Str.append_empty_r, ?Str.append_assoc.
  - destruct (event_thought e); cbn; by rewrite ?Str.append_empty_r, ?Str.append_assoc.
  - destruct (event_call e); cbn; by rewrite ?app_nil_r, <-?app_assoc.
  - rewrite app_assoc. intros Hnd.
    assert (read_calls (map as_said bs1) = call_step e (read_calls (map as_said bs))) as Hc.
    { apply PC; [by apply NoDup_app in Hnd as [[? _]%NoDup_app _]|].
      destruct e; try done. cbn in *. bool_to_prop.
      match goal with E : open_call h = Some _ |- _ => rewrite E end. by left. }
    rewrite C2, Hc; [done|]. by rewrite Hc, call_step_keys.
Qed.

(** The reports of a run, and the stop it ends with. *)
Lemma hub_reports es h :
  h_usage (fold_left hub_step es h) = usages es (h_usage h) ∧
  h_stop (fold_left hub_step es h) = Stream.last_stop es (h_stop h) ∧
  h_model (fold_left hub_step es h) =
    fold_left Stream.adopt_model
      (filter_map (fun e => match e with EvStart m _ => Some m | _ => None end) es) (h_model h).
Proof.
  revert h; induction es as [|e es IH]; intros h; [done|]. cbn [fold_left].
  destruct (IH (hub_step h e)) as (-> & -> & ->).
  unfold usages, Stream.last_stop.
  destruct e as [m u|text|text|id name|id partial|id|u|reason u|message]; cbn; try done;
    destruct (h_open h) as [[]|]; try done. cbn. by destruct (Str.eqb _ _).
Qed.

(** ** Reading the body back *)

(** The arguments a call is read back with. *)
Definition arguments (input : string) : string := to_string (default (JObject []) (from_json input)).

Definition events_of (bs : list OpenBlock) : list StreamEvent :=
  List.concat (map (Anthropic.block_events to_string) (map into_json bs)).

Lemma events_of_cons b bs :
  events_of (b :: bs) = match b with
    | OText text => [EvTextDelta text]
    | OThinking text => [EvThinkingDelta text]
    | OTool id name input =>
        [EvToolUseStart id name; EvToolUseDelta id (arguments input); EvToolUseEnd id]
    end ++ events_of bs.
Proof. by destruct b. Qed.

Lemma events_said bs :
  join (filter_map event_answer (events_of bs)) = bodies false (map as_said bs) ∧
  join (filter_map event_thought (events_of bs)) = bodies true (map as_said bs) ∧
  filter_map event_call (events_of bs) = read_names (map as_said bs) ∧
  filter_map Stream.event_usage (events_of bs) = [] ∧
  ∀ s, Stream.last_stop (events_of bs) s = s.
Proof.
  induction bs as [|b bs IH]; [done|]. destruct IH as (H1 & H2 & H3 & H4 & H5).
  rewrite events_of_cons, !filter_map_app, !join_app, H1, H2, H3, H4.
  unfold Stream.last_stop in *. destruct b; cbn; rewrite ?Str.append_empty_r; done.
Qed.

Lemma deltas_other id bs es :
  ¬ In id (map fst (read_calls (map as_said bs))) →
  Stream.deltas id (events_of bs ++ es) = Stream.deltas id es.
Proof.
  induction bs as [|b bs IH]; [done|]. rewrite events_of_cons, <-app_assoc. intros H.
  destruct b as [| |k name input]; cbn in *; [by apply IH..|].
  rewrite (proj2 (Str.str_eqb_neq k id)) by naive_solver. apply IH. naive_solver.
Qed.

Lemma calls_back bs es :
  NoDup (map fst (read_calls (map as_said bs))) → (∀ id, Stream.deltas id es = EmptyString) →
  Stream.calls (events_of bs ++ es) =
    map (fun x : string * string => (x.1, arguments x.2)) (read_calls (map as_said bs)) ++ Stream.calls es.
Proof.
  intros Hnd He. induction bs as [|b bs IH]; [done|]. rewrite events_of_cons, <-app_assoc.
  destruct b as [| |k name input]; cbn in *; [by apply IH..|].
  apply NoDup_cons in Hnd as [Hn Hnd]. rewrite list_elem_of_In in Hn.
  rewrite Str.str_eqb_refl, deltas_other, He, Str.append_empty_r by done. by rewrite IH.
Qed.

Lemma usage_back u : usage_ok u → Anthropic.parse_usage (usage_json u) = u.
Proof.
  intros (H1 & H2 & H3 & H4). unfold Anthropic.parse_usage.
  change (idx (usage_json u) "input_tokens") with (num (input_tokens u)).
  change (idx (usage_json u) "output_tokens") with (num (output_tokens u)).
  change (idx (usage_json u) "cache_read_input_tokens") with (num (cache_read_tokens u)).
  change (idx (usage_json u) "cache_creation_input_tokens") with (num (cache_write_tokens u)).
  rewrite !as_u64_num by done. by destruct u.
Qed.

Lemma usages_ok es u :
  usage_ok u → Forall usage_ok (filter_map Stream.event_usage es) → usage_ok (usages es u).
Proof.
  unfold usages. intros Hu H. revert u Hu. induction H as [|v l Hv _ IH]; intros u Hu; [done|].
  apply IH. unfold usage_ok, is_uint in *. cbn. lia.
Qed.

Lemma stop_back r : Anthropic.parse_stop_reason (Anthropic.stop_reason_str r) = r.
Proof. by destruct r. Qed.

Lemma tool_in bs : any is_tool_use (map into_json bs) = negb (bool_decide (read_names (map as_said bs) = [])).
Proof. induction bs as [|[] bs IH]; [done|cbn; exact IH..|done]. Qed.

Lemma calls_keys es : map fst (Stream.calls es) = filter_map Stream.event_start es.
Proof. induction es as [|[] es IH]; cbn; congruence. Qed.

(** The dialect says [tool_use] of an answer that carries a call. *)
Definition normal_stop (es : list StreamEvent) : option StopReason :=
  match Stream.last_stop es None with
  | Some StopEndTurn =>
      match filter_map event_call es with [] => Some StopEndTurn | _ => Some StopToolUse end
  | other => other
  end.

(** The body, with the blocks the loop put together. *)
Lemma hub_body es request_id model bs :
  assembled (fold_left hub_step es (hub_new model)) bs →
  read_names (map as_said bs) = filter_map event_call es →
  render_from_events es request_id model =
    JObject [("id", JString ("msg_" +:+ request_id)); ("type", JString "message");
      ("role", JString "assistant"); ("model", JString (h_model (fold_left hub_step es (hub_new model))));
      ("content", JArray (map into_json bs));
      ("stop_reason", match normal_stop es with
         | Some r => JString (Anthropic.stop_reason_str r) | None => JNull end);
      ("stop_sequence", JNull); ("usage", usage_json (usages es no_usage))].
Proof.
  intros (closed & Hc & Hbs) Hn. destruct (hub_reports es (hub_new model)) as (Hru & Hrs & _).
  unfold render_from_events. set (h := fold_left hub_step es (hub_new model)) in *.
  assert (close_block (h_open h) (h_content h) = map into_json bs) as Hcl.
  { rewrite Hbs, map_app, Hc. destruct (h_open h); cbn; by rewrite ?app_nil_r. }
  rewrite Hcl, tool_in, Hru, Hrs, Hn. cbn [h_usage h_stop hub_new].
  unfold normal_stop. destruct (Stream.last_stop es None) as [[]|]; try done.
  by destruct (filter_map event_call es).
Qed.

Lemma hub_events es request_id model bs :
  assembled (fold_left hub_step es (hub_new model)) bs →
  read_names (map as_said bs) = filter_map event_call es →
  usage_ok (usages es no_usage) →
  Anthropic.parse_response to_string (render_from_events es request_id model) =
    EvUsageUpdate (usages es no_usage) :: events_of bs ++
      match normal_stop es with Some r => [EvStop r (usages es no_usage)] | None => [] end.
Proof.
  intros H Hn Hu. rewrite (hub_body es request_id model bs H Hn). unfold Anthropic.parse_response.
  cbn [idx field Str.eqb]. cbn -[Anthropic.parse_usage usage_json Anthropic.parse_stop_reason events_of].
  rewrite usage_back by done. f_equal. f_equal. by destruct (normal_stop es) as [[]|].
Qed.

(** What the blocks are when calls come one after the other. *)
Lemma hub_blocks es model :
  one_by_one None es = true → NoDup (filter_map Stream.event_start es) →
  ∃ bs, assembled (fold_left hub_step es (hub_new model)) bs ∧
    bodies false (map as_said bs) = join (filter_map event_answer es) ∧
    bodies true (map as_said bs) = join (filter_map event_thought es) ∧
    read_names (map as_said bs) = filter_map event_call es ∧
    read_calls (map as_said bs) = Stream.calls es.
Proof.
  intros Hone Hnd.
  destruct (hub_run es (hub_new model) []) as (bs & H & A & T & N & C); [by exists []|done|].
  exists bs. split_and!; try done. rewrite (C Hnd).
  pose proof (fold_calls es Stream.new) as Hf. cbn in Hf |- *. rewrite <-Hf. by rewrite Stream.buffers_spec.
Qed.

(** What any whole body is read as. *)
Lemma whole_body_one_by_one body : one_by_one None (Anthropic.parse_response to_string body) = true.
Proof.
  unfold Anthropic.parse_response. cbn [one_by_one in_turn turn andb].
  set (tail := match as_str _ with Some _ => _ | None => _ end).
  assert (one_by_one None tail = true) as Ht by (unfold tail; by destruct (as_str _)).
  induction (array_or_empty (idx body "content")) as [|b bs IH]; [done|].
  cbn [map List.concat]. rewrite <-app_assoc. unfold Anthropic.block_events at 1.
  destruct (Str.eqb _ "text"); [done|]. destruct (Str.eqb _ "thinking"); [done|].
  destruct (Str.eqb _ "tool_use"); [|done]. cbn [one_by_one in_turn turn app].
  by rewrite bool_decide_eq_true_2.
Qed.

(** C36. Nothing of an answer is lost in the hub.  Whatever the upstream, the
    body put together from its events, read back as any response of the dialect
    is, gives the same text and the same thinking, the same calls under the
    same ids and names -- each with the JSON value of its own fragments, or an
    empty object where they are none -- the merge of every usage reported and
    the reason of the last stop, which is [tool_use] for an answer with a call
    that ended its turn.  Provided calls come one after the other, as those of
    any whole body do, and none share an id. *)
Theorem hub_keeps_the_answer es request_id model :
  one_by_one None es = true → NoDup (filter_map Stream.event_start es) →
  Forall usage_ok (filter_map Stream.event_usage es) →
  let back := Anthropic.parse_response to_string (render_from_events es request_id model) in
  join (filter_map event_answer back) = join (filter_map event_answer es) ∧
  join (filter_map event_thought back) = join (filter_map event_thought es) ∧
  filter_map event_call back = filter_map event_call es ∧
  Stream.calls back = map (fun x : string * string => (x.1, arguments x.2)) (Stream.calls es) ∧
  usages back no_usage = usages es no_usage ∧
  Stream.last_stop back None = normal_stop es.
Proof.
  intros Hone Hnd Huse back. set (u := usages es no_usage).
  assert (usage_ok u) as Hu by (apply usages_ok; [by repeat split|done]).
  destruct (hub_blocks es model Hone Hnd) as (bs & H & A & T & N & Hcalls).
  unfold back. rewrite (hub_events es request_id model bs H N Hu). fold u.
  set (tail := match normal_stop es with Some r => [EvStop r u] | None => [] end).
  destruct (events_said bs) as (E1 & E2 & E3 & E4 & E5).
  assert (∀ id, Stream.deltas id tail = EmptyString) as Htail.
  { intros id. unfold tail. by destruct (normal_stop es). }
  assert (usages tail u = u ∧ usages tail (Usages.merge no_usage u) = u) as [Hu1 Hu2].
  { destruct Hu as (Ha & Hb & Hc & Hd). unfold usages, tail.
    destruct (normal_stop es); cbn; destruct u; unfold is_uint, Usages.merge in *; cbn in *;
      split; f_equal; lia. }
  cbn [filter_map event_answer event_thought event_call Stream.calls].
  rewrite !filter_map_app, !join_app, E1, E2, E3, A, T, N.
  split_and!.
  - unfold tail. destruct (normal_stop es); cbn; by rewrite ?Str.append_empty_r.
  - unfold tail. destruct (normal_stop es); cbn; by rewrite ?Str.append_empty_r.
  - unfold tail. destruct (normal_stop es); cbn; by rewrite ?app_nil_r.
  - rewrite calls_back, Hcalls; [|by rewrite Hcalls, calls_keys|done].
    unfold tail. destruct (normal_stop es); cbn; by rewrite ?app_nil_r.
  - unfold usages. cbn [filter_map Stream.event_usage fold_left]. rewrite filter_map_app, E4. exact Hu2.
  - unfold Stream.last_stop. cbn [fold_left Stream.event_stop]. rewrite fold_left_app.
    unfold Stream.last_stop in E5. rewrite E5. unfold tail. by destruct (normal_stop es).
Qed.

End hub.

(** ** Witness *)

Definition answer_example : list StreamEvent := [
  EvStart "claude" no_usage; EvThinkingDelta "hm"; EvTextDelta "a"; EvTextDelta "b";
  EvToolUseStart "c1" "read"; EvToolUseDelta "c1" "n"; EvToolUseDelta "c1" "ull"; EvToolUseEnd "c1";
  EvStop StopEndTurn {| input_tokens := 7; output_tokens := 3; cache_read_tokens := 0; cache_write_tokens := 0 |}].

Definition null_text (v : Json) : string := match v with JNull => "null" | _ => "{}" end.
Definition null_parse (s : string) : option Json := if Str.eqb s "null" then Some JNull else None.

Lemma hub_keeps_the_answer_witness :
  let back := Anthropic.parse_response null_text
    (render_from_events null_parse answer_example "1" "m") in
  Stream.calls back = [("c1", "null")] ∧ Stream.last_stop back None = Some StopToolUse.
Proof.
  destruct (hub_keeps_the_answer null_text null_parse answer_example "1" "m")
    as (_ & _ & _ & Hc & _ & Hs); [reflexivity|repeat constructor; set_solver| |].
  { repeat constructor; cbn; unfold U64_MAX; lia. }
  split; [exact Hc|exact Hs].
Defined.

End Hub.
