(* ===== verification/Meter.v ===== *)
(** * What a request cost

    [crates/oag-server/src/gateway/meter.rs] with [UsageWrite] of
    [crates/oag-store/src/rows.rs] and [meter_context] of [gateway/climb.rs]:
    the ledger row of one attempt.  Writing it (the database, the counters) is
    outside; what it says is here. *)

From Stdlib Require Import Ascii QArith.
From S2P Require Import Prelude Text Money Domain Efforts Catalog Cost.
From S2P Require Import Ladder Classify Budget Policy Canonical Names Stream.
#[local] Open Scope string_scope.
#[local] Open Scope list_scope.
#[local] Open Scope Z_scope.

(** The part of [select::Lease] and its [AccountRow] read here. *)
Record Lease : Type := { lease_account : AccountId; lease_kind : string }.

(** The identities of [AuthContext] a row carries. *)
Record AuthContext : Type := { api_key_id : N; principal_id : N; route_id : N }.

Inductive Fate : Type := Served | Abandoned | Lost.

#[export] Instance Fate_eq_dec : EqDecision Fate.
Proof. solve_decision. Defined.

(** Instants and durations in milliseconds; the error is kept as a value, the
    row asks only whether there is one. *)
Record StreamOutcome : Type := {
  out_accumulator : StreamAccumulator;
  out_ttft : option Z;
  out_total : Z;
  client_gone : bool;
  out_error : option Error
}.

Section records.
Context {D : Type}.

Record Context_ : Type := {
  ctx_request : N;
  ctx_auth : AuthContext;
  ctx_decision : RoutingDecision D;
  ctx_account : AccountId;
  ctx_started : Z;
  ctx_attempt : Z;
  ctx_flat_rate : bool
}.

Record UsageWrite : Type := {
  uw_request_id : N;
  uw_attempt : Z;
  uw_principal_id : option N;
  uw_api_key_id : option N;
  uw_route_id : option N;
  uw_account_id : option AccountId;
  uw_model_id : string;
  uw_tier : string;
  uw_selection_reason : string;
  uw_escalated_from_tier : option string;
  uw_escalation_gate : option string;
  uw_usage : Usage;
  cost_usd : D;
  counterfactual_usd : D;
  counterfactual_model_id : option string;
  counterfactual_api_usd : D;
  uw_status : Z;
  latency_ms : option Z;
  ttft_ms : option Z;
  uw_streamed : bool
}.

Record AbandonedAttempt : Type := {
  ab_ctx : Context_;
  ab_outcome : StreamOutcome;
  ab_gate : QualityGate
}.

Record LostAttempt : Type := { lost_ctx : Context_; lost_outcome : StreamOutcome }.
End records.
Arguments Context_ : clear implicits.
Arguments UsageWrite : clear implicits.
Arguments AbandonedAttempt : clear implicits.
Arguments LostAttempt : clear implicits.

Module Meter.

(** [format!("{g:?}")]. *)
Definition gate_debug (g : QualityGate) : string :=
  match g with
  | Refusal => "Refusal"
  | Truncated => "Truncated"
  | MalformedToolCall => "MalformedToolCall"
  | EmptyResponse => "EmptyResponse"
  | ContextOverflow => "ContextOverflow"
  | GateNoCredential => "NoCredential"
  end.

Definition reason_label (r : SelectionReason) : string :=
  match r with
  | ByPassthrough => "passthrough"
  | Classified => "classified"
  | FloorPinned => "floor_pinned"
  | BudgetDowngraded => "budget_downgraded"
  | Escalated _ _ => "escalated"
  end.

(** [i32::try_from(ms).ok()]. *)
Definition as_i32 (ms : Z) : option Z := if ms <=? 2147483647 then Some ms else None.

Section meter.
Context {D : Type} {HD : Decimal D}.
Implicit Types ctx : Context_ D.

(** [meter_context]: the account, and whether its price is already paid. *)
Definition meter_context (auth : AuthContext) (decision : RoutingDecision D) (lease : Lease)
    (request_id : N) (started : Z) (attempt : Z) : Context_ D := {|
  ctx_request := request_id;
  ctx_auth := auth;
  ctx_decision := decision;
  ctx_account := lease_account lease;
  ctx_started := started;
  ctx_attempt := attempt;
  ctx_flat_rate :=
    match Credential.from_column (lease_kind lease) with
    | Some k => Credential.flat_rate k
    | None => false
    end
|}.

Definition collected ctx (accumulator : StreamAccumulator) (now : Z) : StreamOutcome := {|
  out_accumulator := accumulator;
  out_ttft := None;
  out_total := now - ctx_started ctx;
  client_gone := false;
  out_error := None
|}.

Definition abandon ctx (accumulator : StreamAccumulator) (gate : QualityGate) (now : Z)
    : AbandonedAttempt D := {|
  ab_ctx := ctx; ab_outcome := collected ctx accumulator now; ab_gate := gate |}.

Definition lose ctx (accumulator : StreamAccumulator) (error : Error) (now : Z) : LostAttempt D := {|
  lost_ctx := ctx;
  lost_outcome := {|
    out_accumulator := accumulator; out_ttft := None; out_total := now - ctx_started ctx;
    client_gone := false; out_error := Some error |}
|}.

Definition usage_write ctx (outcome : StreamOutcome) (gate : option QualityGate) (streamed : bool)
    (fate : Fate) : UsageWrite D :=
  let decision := ctx_decision ctx in
  let u := usage (out_accumulator outcome) in
  let api_equivalent := Usages.cost (pricing (dec_model decision)) u in
  let cost := if ctx_flat_rate ctx then dzero else api_equivalent in
  let '(counterfactual, counterfactual_model) :=
    match fate with
    | Served =>
        (match ceiling_model decision with
         | Some m => Usages.cost (pricing m) u
         | None => cost
         end,
         match ceiling_model decision with Some m => Some (model_id m) | None => None end)
    | Abandoned | Lost => (dzero, None)
    end in
  let counterfactual_api :=
    match fate with Served => api_equivalent | Abandoned | Lost => dzero end in
  {|
    uw_request_id := ctx_request ctx;
    uw_attempt := ctx_attempt ctx;
    uw_principal_id := Some (principal_id (ctx_auth ctx));
    uw_api_key_id := Some (api_key_id (ctx_auth ctx));
    uw_route_id := Some (route_id (ctx_auth ctx));
    uw_account_id := Some (ctx_account ctx);
    uw_model_id := model_id (dec_model decision);
    uw_tier := default "" (Policy.dec_rung_name decision);
    uw_selection_reason :=
      match fate with
      | Served => reason_label (dec_reason decision)
      | Abandoned => "abandoned"
      | Lost => "lost"
      end;
    uw_escalated_from_tier :=
      match dec_reason decision with Escalated from _ => Some from | _ => None end;
    uw_escalation_gate := gate_debug <$> gate;
    uw_usage := u;
    cost_usd := cost;
    counterfactual_usd := counterfactual;
    counterfactual_model_id := counterfactual_model;
    counterfactual_api_usd := counterfactual_api;
    uw_status := if bool_decide (is_Some (out_error outcome)) then 502 else 200;
    latency_ms := as_i32 (out_total outcome);
    ttft_ms := match out_ttft outcome with Some ms => as_i32 ms | None => None end;
    uw_streamed := streamed
  |}.

(** [record_collected], [record_abandoned] and [record_lost]: the row each
    writes. *)
Definition record_collected ctx (accumulator : StreamAccumulator) (gate : option QualityGate)
    (now : Z) : UsageWrite D :=
  usage_write ctx (collected ctx accumulator now) gate false Served.

Definition record_abandoned (a : AbandonedAttempt D) : UsageWrite D :=
  usage_write (ab_ctx a) (ab_outcome a) (Some (ab_gate a)) false Abandoned.

Definition record_lost (l : LostAttempt D) : UsageWrite D :=
  usage_write (lost_ctx l) (lost_outcome l) None false Lost.

(** [recorded_gate] and [record], the streamed path's. *)
Definition recorded_gate (json_ok : string → bool) (triggering_gate : option QualityGate)
    (accumulator : StreamAccumulator) : option QualityGate :=
  match triggering_gate with
  | Some g => Some g
  | None => Stream.quality_gate json_ok accumulator
  end.

Definition record (json_ok : string → bool) ctx (outcome : StreamOutcome)
    (triggering_gate : option QualityGate) : UsageWrite D :=
  usage_write ctx outcome (recorded_gate json_ok triggering_gate (out_accumulator outcome)) true
    Served.

(** [record_answer] of a System One answer. *)
Definition record_answer ctx (u : Usage) (now : Z) : UsageWrite D :=
  record_collected ctx (Stream.observe Stream.new (EvUsageUpdate u)) None now.

(** ** Reading the ledger *)

(** What a generation lists for at its model's own price. *)
Definition list_price ctx (u : Usage) : D := Usages.cost (pricing (dec_model (ctx_decision ctx))) u.

(** The predicate by which the ledger's readers recognise a seat's row. *)
Definition is_seat_row (row : UsageWrite D) : bool :=
  deq (cost_usd row) dzero && dlt dzero (counterfactual_api_usd row).

(** The row says an unserved attempt displaced nothing. *)
Definition books_no_saving (row : UsageWrite D) : Prop :=
  counterfactual_usd row = dzero ∧ counterfactual_api_usd row = dzero ∧
  counterfactual_model_id row = None.

Lemma unserved_books_no_saving ctx outcome gate streamed fate :
  fate ≠ Served → books_no_saving (usage_write ctx outcome gate streamed fate).
Proof. by destruct fate. Qed.

Lemma cost_usd_is ctx outcome gate streamed fate :
  cost_usd (usage_write ctx outcome gate streamed fate) =
  if ctx_flat_rate ctx then dzero else list_price ctx (usage (out_accumulator outcome)).
Proof. by destruct fate. Qed.

Context {HL : DecimalLaws D}.

(** The seat's predicate is exact: a row costs nothing and displaced
    something exactly when it is the served answer of a flat-rate credential
    and its tokens list for more than nothing. *)
Theorem seat_rows_are_seats ctx outcome gate streamed fate :
  is_seat_row (usage_write ctx outcome gate streamed fate) = true ↔
  fate = Served ∧ ctx_flat_rate ctx = true ∧
  dlt dzero (list_price ctx (usage (out_accumulator outcome))) = true.
Proof.
  unfold is_seat_row. rewrite andb_true_iff, cost_usd_is.
  assert (∀ a : D, deq dzero a = true → dlt dzero a = false) as Hz.
  { intros a [_ Ha]%deq_le. unfold dlt. by rewrite Ha. }
  assert (dlt dzero (dzero (D:=D)) = false) as H0 by (unfold dlt; by rewrite dle_refl).
  assert (deq dzero (dzero (D:=D)) = true) as He by (unfold deq; by rewrite dle_refl).
  destruct fate; cbn [usage_write counterfactual_api_usd].
  - fold (list_price ctx (usage (out_accumulator outcome))).
    set (p := list_price ctx _). destruct (ctx_flat_rate ctx); [tauto|].
    split; [|naive_solver]. intros [Hp Hlt]. rewrite Hz in Hlt; [done|].
    apply deq_le in Hp as [? ?]. unfold deq. by apply andb_true_iff.
  - rewrite H0. naive_solver.
  - rewrite H0. naive_solver.
Qed.

End meter.

Definition seat_context_example : Context_ Q :=
  meter_context {| api_key_id := 1; principal_id := 2; route_id := 3 |} Policy.served_on_floor
    {| lease_account := 7%N; lease_kind := "oauth" |} 9 0 0.

Lemma seat_rows_are_seats_witness :
  is_seat_row (record_answer seat_context_example
    {| input_tokens := 10; output_tokens := 5; cache_read_tokens := 0; cache_write_tokens := 0 |} 40)
  = true.
Proof.
  apply (seat_rows_are_seats (D:=Q)). split_and!; [reflexivity|reflexivity|vm_compute; reflexivity].
Defined.

End Meter.
