(* ===== verification/Slots.v ===== *)
(** * Concurrency slots

    The slot scripts of [crates/oag-store/src/cache.rs], which Redis runs one
    at a time, and the guard and heartbeat of
    [crates/oag-server/src/gateway/select.rs] that keep a slot.  A sorted set
    is a map from member to score; a key whose expiry has come is empty.
    Times are seconds, as Redis tells them. *)

From S2P Require Import Prelude Text Money Domain.
#[local] Open Scope string_scope.
#[local] Open Scope Z_scope.

(** What an attempt to take a concurrency slot found. *)
Inductive SlotClaim : Type := Taken | Full (live : Z).

#[export] Instance SlotClaim_eq_dec : EqDecision SlotClaim.
Proof. solve_decision. Defined.

(** A key: its members with their scores, and when Redis drops it. *)
Record SlotKey : Type := { scores : gmap string Z; expires : Z }.

Module Slots.

Definition SLOT_HEARTBEAT : Z := 30.
Definition SLOT_TTL : Z := 120.
Definition SLOT_OP_TIMEOUT : Z := 2.

Section scripts.
(** [ARGV]'s time to live. *)
Context (ttl : Z).

(** The key as a command at [now] finds it. *)
Definition found (now : Z) (k : SlotKey) : gmap string Z :=
  if expires k <=? now then ∅ else scores k.

(** [ZREMRANGEBYSCORE key -inf now-ttl]. *)
Definition trim (now : Z) (s : gmap string Z) : gmap string Z :=
  filter (fun x : string * Z => now - ttl < x.2) s.

Definition zcard (s : gmap string Z) : Z := Z.of_nat (size s).

Definition with_scores (k : SlotKey) (s : gmap string Z) : SlotKey :=
  {| scores := s; expires := expires k |}.

Definition ACQUIRE_SLOT (member : string) (limit now : Z) (k : SlotKey) : SlotClaim * SlotKey :=
  let s := trim now (found now k) in
  let live := zcard s in
  if limit <=? live then (Full live, with_scores k s)
  else (Taken, {| scores := <[member := now]> s; expires := now + ttl * 2 |}).

Definition SLOTS_IN_USE (now : Z) (k : SlotKey) : Z * SlotKey :=
  let s := trim now (found now k) in (zcard s, with_scores k s).

Definition CLEAR_SLOTS (now : Z) (k : SlotKey) : Z * SlotKey :=
  (zcard (found now k), {| scores := ∅; expires := expires k |}).

Definition REFRESH_SLOT (member : string) (now : Z) (k : SlotKey) : bool * SlotKey :=
  let s := found now k in
  match s !! member with
  | None => (false, with_scores k s)
  | Some _ => (true, {| scores := <[member := now]> s; expires := now + ttl * 2 |})
  end.

(** [ZREM]. *)
Definition release_slot (member : string) (now : Z) (k : SlotKey) : SlotKey :=
  with_scores k (delete member (found now k)).

(** ** Interleavings

    Every replica's commands in the order Redis runs them, its clock never
    going back. *)
Inductive SlotOp : Type :=
  | OpAcquire (member : string)
  | OpCount
  | OpClear
  | OpRefresh (member : string)
  | OpRelease (member : string).

Definition run_op (limit now : Z) (op : SlotOp) (k : SlotKey) : SlotKey :=
  match op with
  | OpAcquire m => (ACQUIRE_SLOT m limit now k).2
  | OpCount => (SLOTS_IN_USE now k).2
  | OpClear => (CLEAR_SLOTS now k).2
  | OpRefresh m => (REFRESH_SLOT m now k).2
  | OpRelease m => release_slot m now k
  end.

Definition empty_key : SlotKey := {| scores := ∅; expires := 0 |}.

Inductive reachable (limit : Z) : Z → SlotKey → Prop :=
  | reach_new now : reachable limit now empty_key
  | reach_wait now later k : reachable limit now k → now ≤ later → reachable limit later k
  | reach_op now op k : reachable limit now k → reachable limit now (run_op limit now op k).

(** The slots a count at [now] sees. *)
Definition held (now : Z) (k : SlotKey) : gmap string Z := trim now (found now k).

(** ** The key's invariant *)

Context (Httl : 0 < ttl).

(** Never more members than the limit, stale ones included; every score is
    behind the clock, and the key outlives each by two lives. *)
Record key_ok (limit now : Z) (k : SlotKey) : Prop := {
  k_size : zcard (scores k) ≤ limit;
  k_scores : ∀ m s, scores k !! m = Some s → s ≤ now ∧ s + ttl * 2 ≤ expires k
}.

Lemma found_lookup now k m s : found now k !! m = Some s ↔ scores k !! m = Some s ∧ now < expires k.
Proof.
  unfold found. destruct (expires k <=? now) eqn:E; bool_to_prop.
  - rewrite lookup_empty. naive_solver lia.
  - naive_solver lia.
Qed.

Lemma held_lookup now k m s :
  held now k !! m = Some s ↔ scores k !! m = Some s ∧ now < expires k ∧ now - ttl < s.
Proof. unfold held, trim. rewrite map_lookup_filter_Some, found_lookup. naive_solver. Qed.

Lemma zcard_found now k : zcard (found now k) ≤ zcard (scores k).
Proof. unfold found, zcard. case_match; [rewrite map_size_empty|]; lia. Qed.

Lemma zcard_held now k : zcard (held now k) ≤ zcard (scores k).
Proof.
  transitivity (zcard (found now k)); [|apply zcard_found].
  unfold held, trim, zcard. apply Nat2Z.inj_le, map_size_filter.
Qed.

Lemma zcard_insert m t s : zcard (<[m := t]> s) ≤ zcard s + 1.
Proof. unfold zcard. rewrite map_size_insert. case_match; unfold id; lia. Qed.

Lemma key_ok_found limit now k : key_ok limit now k → ∀ f,
  (∀ m s, f !! m = Some s → scores k !! m = Some s) → zcard f ≤ zcard (scores k) →
  key_ok limit now (with_scores k f).
Proof. intros [Hs Hm] f Hf Hz. split; cbn; [lia|]. intros m s H. by eapply Hm, Hf. Qed.

Lemma key_ok_add limit now f m :
  (∀ m s, f !! m = Some s → s ≤ now) → zcard (<[m := now]> f) ≤ limit →
  key_ok limit now {| scores := <[m := now]> f; expires := now + ttl * 2 |}.
Proof.
  intros Hf Hz. split; cbn; [done|].
  intros m' s [[_ <-]|[_ H]]%lookup_insert_Some; [lia|]. apply Hf in H. lia.
Qed.

Lemma key_ok_op limit now op k : 0 ≤ limit → key_ok limit now k → key_ok limit now (run_op limit now op k).
Proof.
  intros Hl Hk. pose proof (zcard_held now k) as Hh. pose proof (zcard_found now k) as Hf.
  destruct op as [m| | |m|m]; cbn [run_op].
  - unfold ACQUIRE_SLOT. fold (held now k). case_match eqn:E; cbn [snd].
    + apply key_ok_found; [done| |done]. intros ? ? [? _]%held_lookup. done.
    + apply key_ok_add; [|bool_to_prop; pose proof (zcard_insert m now (held now k)); lia].
      intros ? ? [H _]%held_lookup. by apply (k_scores _ _ _ Hk) in H as [? _].
  - cbn. fold (held now k). apply key_ok_found; [done| |done]. intros ? ? [? _]%held_lookup. done.
  - split; cbn; [unfold zcard; by rewrite map_size_empty|]. intros ? ?. by rewrite lookup_empty.
  - unfold REFRESH_SLOT. case_match eqn:E; cbn [snd].
    + apply key_ok_add.
      * intros ? ? [H _]%found_lookup. by apply (k_scores _ _ _ Hk) in H as [? _].
      * pose proof (k_size _ _ _ Hk). unfold zcard in *. rewrite map_size_insert, E. unfold id. lia.
    + apply key_ok_found; [done| |done]. intros ? ? [? _]%found_lookup. done.
  - apply key_ok_found; [done| |].
    + intros ? ? [_ H]%lookup_delete_Some. by apply found_lookup in H as [? _].
    + unfold zcard in *. rewrite map_size_delete. case_match; unfold id; lia.
Qed.

Lemma reachable_ok limit now k : 0 ≤ limit → reachable limit now k → key_ok limit now k.
Proof.
  intros Hl. induction 1 as [now|now later k _ IH Hle|now op k _ IH].
  - split; cbn; [unfold zcard; by rewrite map_size_empty|]. intros ? ?. by rewrite lookup_empty.
  - destruct IH as [H1 H2]. split; [done|]. intros m s H. apply H2 in H. lia.
  - by apply key_ok_op.
Qed.

(** C30. A credential is never oversubscribed.  However the replicas' takes,
    counts, refreshes, releases and clears interleave, the members of its key
    are at most its limit; a take is refused exactly when that many are held,
    and says how many; one that is taken adds its member and nothing else; and
    a member nobody refreshed for a whole life is no longer counted. *)
Theorem slots_never_oversubscribed limit now k member :
  0 ≤ limit → reachable limit now k →
  zcard (scores k) ≤ limit ∧
  (∀ live, (ACQUIRE_SLOT member limit now k).1 = Full live ↔
    live = limit ∧ zcard (held now k) = limit) ∧
  ((ACQUIRE_SLOT member limit now k).1 = Taken →
    held now (ACQUIRE_SLOT member limit now k).2 = <[member := now]> (held now k)) ∧
  (SLOTS_IN_USE now k).1 = zcard (held now k) ∧
  ∀ m s, held now k !! m = Some s → scores k !! m = Some s ∧ s ≤ now < s + ttl.
Proof.
  intros Hl Hr. pose proof (reachable_ok _ _ _ Hl Hr) as [Hs Hm].
  pose proof (zcard_held now k) as Hh. split; [done|]. unfold ACQUIRE_SLOT. fold (held now k).
  split; [|split; [|split; [done|]]].
  - intros live. case_match eqn:E; bool_to_prop; cbn [fst].
    + assert (zcard (held now k) = limit) by lia. naive_solver congruence.
    + split; [done|]. intros [_ ?]. lia.
  - case_match eqn:E; [done|]. cbn [fst snd]. intros _. apply map_eq. intros m.
    apply option_eq. intros s. rewrite held_lookup. cbn [scores expires].
    rewrite !lookup_insert_Some. split.
    + intros (H & _ & _). done.
    + intros [[<- <-]|[Hne H]]; [split_and!; [by left|lia..]|]. split_and!; [by right|lia|].
      apply held_lookup in H. lia.
  - intros m s (H & _ & ?)%held_lookup. split; [done|]. apply Hm in H. lia.
Qed.

End scripts.
(** ** A guard and its heartbeat

    One lease's seat against everyone else's commands.  [beat] is where the
    heartbeat's task stands: waiting for a tick, past its check of [released],
    told that the member is gone, or ended. *)

Inductive Beat : Type := BeatWaiting | BeatChecked | BeatLost | BeatEnded.

Inductive Release : Type := NotReleased | ReleaseSpawned | ReleaseDone.

Record Guard : Type := {
  g_key : SlotKey;
  g_now : Z;
  g_release : Release;
  g_beat : Beat
}.

Definition at_key (g : Guard) (k : SlotKey) : Guard :=
  {| g_key := k; g_now := g_now g; g_release := g_release g; g_beat := g_beat g |}.
Definition at_time (g : Guard) (t : Z) : Guard :=
  {| g_key := g_key g; g_now := t; g_release := g_release g; g_beat := g_beat g |}.
Definition at_release (g : Guard) (r : Release) : Guard :=
  {| g_key := g_key g; g_now := g_now g; g_release := r; g_beat := g_beat g |}.
Definition at_beat (g : Guard) (b : Beat) : Guard :=
  {| g_key := g_key g; g_now := g_now g; g_release := g_release g; g_beat := b |}.

(** [slot.released]. *)
Definition released (g : Guard) : bool :=
  match g_release g with NotReleased => false | _ => true end.

Section guard.
Context (member : string) (limit lifetime began : Z).

(** A command of somebody else's: any of another member's, a count, a clear. *)
Definition foreign (op : SlotOp) : bool :=
  match op with
  | OpAcquire m | OpRefresh m | OpRelease m => negb (Str.eqb m member)
  | OpCount | OpClear => true
  end.

Inductive gstep : Guard → Guard → Prop :=
  | g_wait g t : g_now g ≤ t → gstep g (at_time g t)
  | g_other g op : foreign op = true →
      gstep g (at_key g (run_op SLOT_TTL limit (g_now g) op (g_key g)))
  (** [release] claims the release and spawns the store call.  So does the
      drop, which cannot come between a beat's check and its end: the beat holds
      a clone. *)
  | g_claim_release g : g_release g = NotReleased → gstep g (at_release g ReleaseSpawned)
  | g_do_release g : g_release g = ReleaseSpawned →
      gstep g (at_release (at_key g (release_slot member (g_now g) (g_key g))) ReleaseDone)
  | g_release_fails g : g_release g = ReleaseSpawned → gstep g (at_release g ReleaseDone)
  (** One tick of the heartbeat. *)
  | g_tick g : g_beat g = BeatWaiting →
      gstep g (at_beat g (if released g || (lifetime <=? g_now g - began) then BeatEnded else BeatChecked))
  | g_refresh g kept k : g_beat g = BeatChecked →
      REFRESH_SLOT SLOT_TTL member (g_now g) (g_key g) = (kept, k) →
      gstep g (at_beat (at_key g k) (if kept then BeatWaiting else BeatLost))
  | g_refresh_fails g : g_beat g = BeatChecked → gstep g (at_beat g BeatWaiting)
  | g_reacquire g : g_beat g = BeatLost →
      gstep g (at_beat (at_key g (ACQUIRE_SLOT SLOT_TTL member limit (g_now g) (g_key g)).2) BeatWaiting)
  | g_reacquire_fails g : g_beat g = BeatLost → gstep g (at_beat g BeatWaiting).

Definition gsteps : Guard → Guard → Prop := rtc gstep.

(** Whether the seat's member is in the key. *)
Definition seated (g : Guard) : bool := bool_decide (is_Some (found (g_now g) (g_key g) !! member)).

(** The guard has let go and its heartbeat is not in the middle of a beat. *)
Definition let_go (g : Guard) : Prop :=
  g_release g = ReleaseDone ∧ (g_beat g = BeatWaiting ∨ g_beat g = BeatEnded) ∧
  scores (g_key g) !! member = None.

Lemma other_keeps_out now op k :
  foreign op = true → scores k !! member = None →
  scores (run_op SLOT_TTL limit now op k) !! member = None.
Proof.
  intros Hf Hn.
  assert (found now k !! member = None) as Hfo.
  { destruct (found now k !! member) eqn:E; [|done]. apply found_lookup in E as [E _]. congruence. }
  assert (held SLOT_TTL now k !! member = None) as Hhe.
  { destruct (held SLOT_TTL now k !! member) eqn:E; [|done]. apply held_lookup in E as [E _]. congruence. }
  destruct op as [m| | |m|m]; cbn in Hf |- *;
    try (apply negb_true_iff, Str.str_eqb_neq in Hf).
  - unfold ACQUIRE_SLOT. fold (held SLOT_TTL now k). case_match; cbn; [done|].
    by rewrite lookup_insert_ne.
  - done.
  - by rewrite lookup_empty.
  - unfold REFRESH_SLOT. case_match; cbn; [|done]. by rewrite lookup_insert_ne.
  - by rewrite lookup_delete_ne.
Qed.

(** A seat given back stays free.  Once a lease's release has reached the
    store and its heartbeat is between beats, the lease's member never comes
    back, whatever other requests do: the next tick ends the heartbeat, and a
    second release claims nothing. *)
Theorem given_back_stays_free g g' : let_go g → gsteps g g' → let_go g' ∧ seated g' = false.
Proof.
  intros H Hs. assert (let_go g') as Hl.
  { induction Hs as [g|g g1 g2 Hstep _ IH]; [done|]. apply IH. clear IH.
    destruct H as (Hr & Hb & Hn). inversion Hstep; subst; unfold let_go; cbn; try done;
      try (destruct Hb; congruence); try congruence.
    - split; [done|]. split; [done|]. by apply other_keeps_out.
    - unfold released. rewrite Hr. cbn. split; [done|]. split; [by right|done]. }
  split; [done|]. destruct Hl as (_ & _ & Hn). apply bool_decide_eq_false_2. intros [s Hsome].
  apply found_lookup in Hsome as [Hsome _]. congruence.
Qed.

(** ** Beating in time *)

(** Commands at their times, none of them a clear or a release of the member,
    whose own refreshes come at worst a beat after two missed ones and as late
    as a command may take. *)
Fixpoint beating (last cur : Z) (ops : list (Z * SlotOp)) (until : Z) : Prop :=
  match ops with
  | [] => cur ≤ until ≤ last + SLOT_HEARTBEAT * 3 + SLOT_OP_TIMEOUT
  | (t, op) :: ops =>
      cur ≤ t ≤ last + SLOT_HEARTBEAT * 3 + SLOT_OP_TIMEOUT ∧
      op ≠ OpClear ∧ op ≠ OpRelease member ∧
      beating (match op with OpRefresh m => if Str.eqb m member then t else last | _ => last end) t ops until
  end.

Fixpoint run_ops (ops : list (Z * SlotOp)) (k : SlotKey) : SlotKey :=
  match ops with
  | [] => k
  | (t, op) :: ops => run_ops ops (run_op SLOT_TTL limit t op k)
  end.

Lemma op_keeps t op k s :
  scores k !! member = Some s → s ≤ t < s + SLOT_TTL → s + SLOT_TTL * 2 ≤ expires k →
  op ≠ OpClear → op ≠ OpRelease member →
  ∃ s', scores (run_op SLOT_TTL limit t op k) !! member = Some s' ∧ s ≤ s' ∧
    (op = OpRefresh member → s' = t).
Proof.
  intros Hm Ht He Hc Hr. unfold SLOT_TTL in *.
  assert (found t k !! member = Some s) as Hf by (apply found_lookup; split; [done|lia]).
  assert (held SLOT_TTL t k !! member = Some s) as Hh
    by (apply held_lookup; unfold SLOT_TTL; split_and!; [done|lia..]).
  destruct op as [m| | |m|m]; cbn; try done.
  - unfold ACQUIRE_SLOT. fold (held SLOT_TTL t k). case_match; cbn; [by exists s|].
    destruct (decide (m = member)) as [->|Hne].
    + exists t. rewrite lookup_insert_eq. split_and!; [done|lia|done].
    + exists s. by rewrite lookup_insert_ne.
  - by exists s.
  - unfold REFRESH_SLOT. destruct (decide (m = member)) as [->|Hne].
    + rewrite Hf. exists t. cbn. rewrite lookup_insert_eq. split_and!; [done|lia|done].
    + destruct (found t k !! m); exists s; cbn; [rewrite lookup_insert_ne by done|]; naive_solver.
  - exists s. rewrite lookup_delete_ne by naive_solver. done.
Qed.

(** A seat in use is not lost to a slow store.  A member whose heartbeat
    misses two beats in a row, and whose third takes as long as a command may,
    is still counted, whatever other requests do to the key meanwhile. *)
Theorem missed_beats_keep_the_seat ops now k last until :
  0 ≤ limit → reachable SLOT_TTL limit now k → scores k !! member = Some last → 
  beating last now ops until →
  is_Some (held SLOT_TTL until (run_ops ops k) !! member).
Proof.
  intros Hl Hr Hm.
  assert (0 < SLOT_TTL) as Httl by done.
  assert (last ≤ now) as Hle by (by apply (k_scores _ _ _ _ (reachable_ok _ _ _ _ Hl Hr) _ _ Hm)).
  assert (∃ s, scores k !! member = Some s ∧ last ≤ s) as (s & Hs & Hls) by (by exists last).
  clear Hm Hle. revert now k last s Hr Hs Hls; induction ops as [|[t op] ops IH]; intros now k last s Hr Hs Hls.
  - cbn [beating run_ops]. unfold SLOT_HEARTBEAT, SLOT_OP_TIMEOUT. intros Hb.
    destruct (k_scores _ _ _ _ (reachable_ok _ _ _ _ Hl Hr) _ _ Hs) as [H1 H2].
    exists s. apply held_lookup. unfold SLOT_TTL in *. split_and!; [done|lia..].
  - cbn [beating run_ops]. intros (Ht & Hc & Hrel & Hb).
    destruct (k_scores _ _ _ _ (reachable_ok _ _ _ _ Hl Hr) _ _ Hs) as [H1 H2].
    unfold SLOT_HEARTBEAT, SLOT_OP_TIMEOUT in Ht.
    destruct (op_keeps t op k s) as (s' & Hs' & Hle & Href); [done|unfold SLOT_TTL; lia|done..|].
    eapply (IH t _ _ s'); [|exact Hs'| |exact Hb].
    { apply reach_op. eapply reach_wait; [exact Hr|lia]. }
    destruct op as [m| | |m|m]; try lia. destruct (Str.eqb m member) eqn:E; [|lia].
    apply Str.str_eqb_eq in E as ->. rewrite Href by done. lia.
Qed.

End guard.

(** ** A beat that loses the race *)

(** A heartbeat can take back a seat its own lease has given up.  A beat
    that looked at [released] before the release, and asks the store after it,
    is told that the member is gone -- and takes it again, so that a credential
    with one seat refuses the next request with nothing running on it. *)
Theorem beat_can_undo_release member other began lifetime :
  began + 30 < began + lifetime →
  ∃ g g', g_release g = NotReleased ∧ seated member g = true ∧
    gsteps member 1 lifetime began g g' ∧
    g_release g' = ReleaseDone ∧ g_beat g' = BeatWaiting ∧ seated member g' = true ∧
    (ACQUIRE_SLOT SLOT_TTL other 1 (g_now g') (g_key g')).1 = Full 1.
Proof.
  intros Hlife. set (t := began + 30).
  set (k := {| scores := {[member := began]}; expires := began + 240 |}).
  set (g := {| g_key := k; g_now := t; g_release := NotReleased; g_beat := BeatWaiting |}).
  assert ((expires k <=? t) = false) as He by (apply Z.leb_gt; subst t; cbn; lia).
  set (k1 := {| scores := ∅; expires := began + 240 |}).
  assert (release_slot member t k = k1) as Hrel.
  { unfold release_slot, found, with_scores. rewrite He. cbn. f_equal. apply delete_singleton_eq. }
  assert (found t k1 = ∅) as Hf1 by (unfold found; by case_match).
  set (k2 := {| scores := {[member := t]}; expires := t + 240 |}).
  assert ((ACQUIRE_SLOT SLOT_TTL member 1 t k1).2 = k2) as Hacq.
  { unfold ACQUIRE_SLOT, trim. rewrite Hf1, map_filter_empty. done. }
  assert (found t k2 = {[member := t]}) as Hf2.
  { unfold found. rewrite (proj2 (Z.leb_gt _ _)); [done|cbn; lia]. }
  exists g, {| g_key := k2; g_now := t; g_release := ReleaseDone; g_beat := BeatWaiting |}.
  split_and!; try done.
  - apply bool_decide_eq_true. change (is_Some (found t k !! member)). unfold found. rewrite He.
    cbn [scores k]. by rewrite lookup_singleton_eq.
  - eapply rtc_l; [by apply g_tick|]. cbn. rewrite (proj2 (Z.leb_gt _ _)) by (subst t; lia).
    eapply rtc_l; [by apply g_claim_release|].
    eapply rtc_l; [by apply g_do_release|]. cbn. rewrite Hrel.
    eapply rtc_l; [eapply (g_refresh _ _ _ _ _ false k1); [done|]|].
    { cbn. unfold REFRESH_SLOT. by rewrite Hf1, lookup_empty. }
    cbn. eapply rtc_l; [by apply g_reacquire|]. cbn. rewrite Hacq. apply rtc_refl.
  - apply bool_decide_eq_true. cbn. by rewrite Hf2, lookup_singleton_eq.
  - cbn. unfold ACQUIRE_SLOT. rewrite Hf2. unfold trim.
    rewrite map_filter_singleton_True by (cbn; unfold SLOT_TTL; lia).
    unfold zcard. by rewrite map_size_singleton.
Qed.

(** ** Witnesses *)

(** Two requests on a credential with one seat. *)
Definition one_seat : SlotKey := run_op SLOT_TTL 1 1000 (OpAcquire "a") empty_key.

Lemma one_seat_reachable : reachable SLOT_TTL 1 1000 one_seat.
Proof. apply reach_op, reach_new. Qed.

Lemma slots_never_oversubscribed_witness :
  zcard (scores one_seat) ≤ 1 ∧ (ACQUIRE_SLOT SLOT_TTL "b" 1 1000 one_seat).1 = Full 1.
Proof.
  destruct (slots_never_oversubscribed SLOT_TTL ltac:(done) 1 1000 one_seat "b" ltac:(done)
    one_seat_reachable) as (H & Hf & _).
  split; [exact H|]. apply Hf. split; [reflexivity|vm_compute; reflexivity].
Defined.

Lemma missed_beats_keep_the_seat_witness :
  is_Some (held SLOT_TTL 1180 (run_ops 1 [(1092, OpRefresh "a"); (1100, OpAcquire "b")] one_seat) !! "a").
Proof.
  apply (missed_beats_keep_the_seat "a" 1 [(1092, OpRefresh "a"); (1100, OpAcquire "b")] 1000 one_seat 1000 1180).
  - done.
  - apply one_seat_reachable.
  - vm_compute. reflexivity.
  - cbn. unfold SLOT_HEARTBEAT, SLOT_OP_TIMEOUT. repeat split; try lia; discriminate.
Defined.

Definition given_back : Guard :=
  {| g_key := empty_key; g_now := 0; g_release := ReleaseDone; g_beat := BeatWaiting |}.

Lemma given_back_stays_free_witness :
  let g := at_beat given_back BeatEnded in
  gsteps "a" 1 3600 0 given_back g ∧ seated "a" g = false.
Proof.
  assert (gsteps "a" 1 3600 0 given_back (at_beat given_back BeatEnded)) as H.
  { eapply rtc_l; [by apply g_tick|]. apply rtc_refl. }
  split; [exact H|].
  apply (given_back_stays_free "a" 1 3600 0 given_back _); [|exact H].
  split; [done|]. split; [by left|]. apply lookup_empty.
Defined.

Lemma beat_can_undo_release_witness :
  ∃ g g', gsteps "a" 1 3600 0 g g' ∧ g_release g' = ReleaseDone ∧ seated "a" g' = true.
Proof.
  destruct (beat_can_undo_release "a" "b" 0 3600) as (g & g' & _ & _ & Hs & Hr & _ & Hse & _); [lia|].
  exists g, g'. done.
Defined.

End Slots.
