(* ===== verification/Leasing.v ===== *)
(** * Leasing a credential

    [lease] of [crates/oag-server/src/gateway/select.rs], with the rows of
    [crates/oag-store/src/rows.rs]: the pin first, then the cascade, a slot
    taken before anything is handed out, and one more look when everything was
    full.  The database, Redis, the breakers and the draw are functions of how
    far the call has come. *)

From Stdlib Require Import QArith.
From S2P Require Import Prelude Text Money Domain Schedule Slots.
#[local] Open Scope string_scope.
#[local] Open Scope oag_scope.
#[local] Open Scope list_scope.
#[local] Open Scope Z_scope.

Section rows.
Context {D : Type} {HD : Decimal D}.

(** [AccountRow], less what only sending reads. *)
Record AccountRow : Type := {
  row_id : AccountId;
  row_name : string;
  row_provider : string;
  row_kind : string;
  row_priority : Z;
  row_max_concurrency : Z;
  row_schedulable : bool;
  row_cooldown_until : option Z;
  row_rate_limited_until : option Z;
  row_window_resets_at : option Z;
  row_remaining_pct : option D;
  row_reserve_pct : option Z;
  row_last_used_at : Z
}.
End rows.
Arguments AccountRow : clear implicits.

(** What [lease] asks of the world, in order. *)
Inductive LeaseEvent : Type :=
  | LClaim (a : AccountId) (answer : result SlotClaim Error)
  | LPin (a : AccountId).

(** The world as the call finds it, [nat] counting the questions asked. *)
Record LeaseEnv {D : Type} : Type := {
  candidates_sql : nat → result (list (AccountRow D)) Error;
  now_secs : Z;
  sticky_get : nat → result (option AccountId) Error;
  slots_in_use : nat → AccountId → result Z Error;
  slots_in_use_many : nat → list AccountId → result (list Z) Error;
  claim : nat → AccountId → Z → result SlotClaim Error;
  permits : nat → AccountId → bool;
  fastrand : nat → Z;
  registry : gmap string Endpoint
}.
Arguments LeaseEnv : clear implicits.

Record LeaseWorld : Type := { l_tick : nat; l_trace : list LeaseEvent }.

(** What is handed out. *)
Record Granted {D : Type} : Type := { granted : AccountRow D; via_sticky : bool }.
Arguments Granted : clear implicits.

Module Leasing.

Section lease.
Context {D : Type} {HD : Decimal D} (env : LeaseEnv D).

Definition ask (w : LeaseWorld) : LeaseWorld := {| l_tick := S (l_tick w); l_trace := l_trace w |}.
Definition note (e : LeaseEvent) (w : LeaseWorld) : LeaseWorld :=
  {| l_tick := S (l_tick w); l_trace := l_trace w ++ [e] |}.

(** ** Rows *)

(** [u8::try_from(_).unwrap_or(u8::MAX)], [u32::try_from(_).unwrap_or(0)]. *)
Definition to_u8 (x : Z) : Z := if (0 <=? x) && (x <=? U8_MAX) then x else U8_MAX.
Definition to_u32 (x : Z) : Z := if 0 <=? x then x else 0.

Definition to_candidate (r : AccountRow D) (in_flight waiting : Z) : option (Candidate (D := D)) :=
  match Prov.from_str (registry env) (row_provider r) with
  | None => None
  | Some provider => Some {|
      account := row_id r; Schedule.provider := provider; priority := to_u8 (row_priority r);
      max_concurrency := to_u32 (row_max_concurrency r); Schedule.in_flight := in_flight;
      Schedule.waiting := waiting; schedulable := row_schedulable r;
      cooldown_until := row_cooldown_until r; rate_limited_until := row_rate_limited_until r;
      window_resets_at := row_window_resets_at r; usage_remaining_pct := row_remaining_pct r;
      usage_reserve_pct := dint <$> row_reserve_pct r; last_used_at := row_last_used_at r |}
  end.

(** [AccountRow::held_by_reserve]. *)
Definition row_held (r : AccountRow D) : bool :=
  held_by_reserve (row_remaining_pct r) (dint <$> row_reserve_pct r).

Definition of_kind (rows : list (AccountRow D)) (channel : option CredentialKind) : list (AccountRow D) :=
  match channel with
  | None => rows
  | Some kind => keep (fun r => bool_decide (Credential.from_column (row_kind r) = Some kind)) rows
  end.

(** [usage_reserve_pct] of the roomiest, when every row is held. *)
Definition reserve_holding_back (rows : list (AccountRow D)) : option Z :=
  match rows with
  | [] => None
  | _ => if all row_held rows
         then max_by (fun x y => y <=? x) (filter_map row_reserve_pct rows) else None
  end.

Definition nothing_usable (provider : Provider) (reserved : option Z) (channel : option CredentialKind)
    : Error :=
  match reserved, channel with
  | Some reserve_pct, _ => ReserveHeld provider reserve_pct
  | None, Some kind => NoCredentialOfKind provider kind
  | None, None => NoCredential provider
  end.

(** ** Eligibility *)

Definition is_live (c : Candidate (D := D)) (now : Z) : bool :=
  schedulable c && passed (cooldown_until c) now && passed (rate_limited_until c) now &&
  negb (held_by_reserve (usage_remaining_pct c) (usage_reserve_pct c)).

Definition is_eligible (c : Candidate (D := D)) (now : Z) : bool :=
  is_live c now && (Schedule.in_flight c <? max_concurrency c).

Definition every_candidate_is_full (cs : list (Candidate (D := D))) (now : Z) : option Z :=
  let full := length (keep (fun c => is_live c now && (max_concurrency c <=? Schedule.in_flight c)) cs) in
  if (0 <? Z.of_nat full) && Nat.eqb full (length cs) then Some (Z.of_nat full) else None.

(** ** Redis *)

Definition claim_slot (r : AccountRow D) (w : LeaseWorld) : bool * LeaseWorld :=
  let answer := claim env (l_tick w) (row_id r) (to_u32 (row_max_concurrency r)) in
  let w := note (LClaim (row_id r) answer) w in
  (match answer with Ok Taken => true | Ok (Full _) => false | Err _ => true end, w).

Definition candidate_for (r : AccountRow D) (w : LeaseWorld)
    : option (Candidate (D := D)) * LeaseWorld :=
  let n := match slots_in_use env (l_tick w) (row_id r) with Ok n => n | Err _ => 0 end in
  (to_candidate r n 0, ask w).

(** [x.filter(permits)], one look at a breaker per row. *)
Definition permitted (tick : nat) (rows : list (AccountRow D)) : list (AccountRow D) :=
  keep (fun r => permits env tick (row_id r)) rows.

Definition eligible_at (in_flight : Z) (r : AccountRow D) : bool :=
  match to_candidate r in_flight 0 with Some c => is_eligible c (now_secs env) | None => false end.

Definition candidates_for (remaining : list (AccountRow D)) (w : LeaseWorld)
    : list (Candidate (D := D)) * LeaseWorld :=
  let probe := keep (eligible_at 0) (permitted (l_tick w) remaining) in
  let w := ask w in
  let counts :=
    match slots_in_use_many env (l_tick w) (map row_id probe) with
    | Ok counts => if Nat.eqb (length counts) (length probe) then counts else map (fun _ => 0) probe
    | Err _ => map (fun _ => 0) probe
    end in
  (filter_map (fun x : AccountRow D * Z => to_candidate x.1 x.2 0) (combine probe counts), ask w).

Definition usable_counts (read : result (list Z) Error) (asked : nat) : option (list Z) :=
  match read with
  | Ok counts => if Nat.eqb (length counts) asked then Some counts else None
  | Err _ => None
  end.

(** [rows.iter().enumerate()]'s filter: the count of each row, or none read. *)
Definition open_rows (tick : nat) (rows : list (AccountRow D)) (counts : option (list Z))
    : list (AccountRow D) :=
  map fst (keep (fun x : AccountRow D * Z => eligible_at x.2 x.1 && permits env tick (row_id x.1))
    (combine rows (match counts with
       | None => map (fun _ => 0) rows
       | Some c => map (fun i => default U32_MAX (c !! i)) (seq 0 (length rows)) end))).

Definition pick_with_room (tick : nat) (rows : list (AccountRow D)) (counts : option (list Z)) (draw : Z)
    : option (AccountRow D) :=
  let open := open_rows tick rows counts in
  match open with
  | [] => None
  | _ => open !! Z.to_nat (draw mod Z.of_nat (length open))
  end.

Definition pick_with_redis_room (rows : list (AccountRow D)) (w : LeaseWorld)
    : option (AccountRow D) * LeaseWorld :=
  match rows with
  | [] => (None, w)
  | _ =>
      let counts := usable_counts (slots_in_use_many env (l_tick w) (map row_id rows)) (length rows) in
      let w := ask w in
      (pick_with_room (l_tick w) rows counts (fastrand env (l_tick w)), ask w)
  end.

Definition worth_a_recount (rows : list (AccountRow D)) (already_recounted : bool) (w : LeaseWorld)
    : bool * LeaseWorld :=
  if already_recounted then (false, w)
  else let '(r, w) := pick_with_redis_room rows w in (bool_decide (is_Some r), w).

(** ** The pin *)

Definition try_pinned (rows : list (AccountRow D)) (w : LeaseWorld) : option (AccountRow D) * LeaseWorld :=
  match sticky_get env (l_tick w) with
  | Ok (Some pinned) =>
      let w := ask w in
      match find (fun r => bool_decide (row_id r = pinned)) rows with
      | None => (None, w)
      | Some row =>
          let '(candidate, w) := candidate_for row w in
          match candidate with
          | None => (None, w)
          | Some c =>
              if negb (is_eligible c (now_secs env)) || negb (permits env (l_tick w) pinned)
              then (None, w)
              else let '(taken, w) := claim_slot row (ask w) in
                   (if taken then Some row else None, w)
          end
      end
  | _ => (None, ask w)
  end.

(** ** The cascade *)

Definition grant (row : AccountRow D) (w : LeaseWorld) : result (Granted D) Error * LeaseWorld :=
  (Ok {| granted := row; via_sticky := false |}, note (LPin (row_id row)) w).

(** Out of [while]: everything tried was refused, or there was nothing. *)
Definition after_cascade (provider : Provider) (probe : list (AccountRow D)) (exhausted : Z)
    (none_left : Error) (w : LeaseWorld) : result (Granted D) Error * LeaseWorld :=
  if 0 <? exhausted then
    let '(picked, w) := pick_with_redis_room probe w in
    match picked with
    | None => (Err (AtCapacity provider exhausted), w)
    | Some row =>
        let '(taken, w) := claim_slot row w in
        if taken then grant row w else (Err (AtCapacity provider exhausted), w)
    end
  else (Err none_left, w).

Definition without (a : AccountId) (rows : list (AccountRow D)) : list (AccountRow D) :=
  keep (fun r => negb (bool_decide (row_id r = a))) rows.

(** [None] is out of fuel. *)
Fixpoint cascade (fuel : nat) (provider : Provider) (probe remaining : list (AccountRow D)) (exhausted : Z)
    (ghost_retry : bool) (none_left : Error) (w : LeaseWorld)
    : option (result (Granted D) Error) * LeaseWorld :=
  match remaining with
  | [] => let '(r, w) := after_cascade provider probe exhausted none_left w in (Some r, w)
  | _ =>
    match fuel with
    | O => (None, w)
    | S fuel =>
      let '(candidates, w) := candidates_for remaining w in
      let tie_breaker := fastrand env (l_tick w) in
      let w := ask w in
      match select candidates (now_secs env) tie_breaker with
      | None =>
          match every_candidate_is_full candidates (now_secs env) with
          | Some full =>
              let eligible := keep (fun r => any (fun c => is_live c (now_secs env) &&
                bool_decide (account c = row_id r)) candidates) remaining in
              let '(recount, w) := worth_a_recount eligible ghost_retry w in
              if recount
              then cascade fuel provider probe remaining exhausted true none_left w
              else (Some (Err (AtCapacity provider full)), w)
          | None => (Some (Err none_left), w)
          end
      | Some selection =>
          match find (fun r => bool_decide (row_id r = sel_account selection)) remaining with
          | None => (Some (Err none_left), w)
          | Some row =>
              let '(taken, w) := claim_slot row w in
              if taken then let '(r, w) := grant row w in (Some r, w)
              else cascade fuel provider probe (without (sel_account selection) remaining)
                     (exhausted + 1) ghost_retry none_left w
          end
      end
    end
  end.

(** [lease]; its key and request id name places in Redis alone. *)
Definition lease (provider : Provider) (excluded : list AccountId) (channel : option CredentialKind)
    (w : LeaseWorld) : option (result (Granted D) Error) * LeaseWorld :=
  match candidates_sql env (l_tick w) with
  | Err e => (Some (Err e), ask w)
  | Ok fetched =>
      let w := ask w in
      let rows := of_kind fetched channel in
      let none_left := nothing_usable provider (reserve_holding_back rows) channel in
      match rows with
      | [] => (Some (Err none_left), w)
      | _ =>
          let '(pinned, w) := match excluded with [] => try_pinned rows w | _ => (None, w) end in
          match pinned with
          | Some row => (Some (Ok {| granted := row; via_sticky := true |}), w)
          | None =>
              let remaining := keep (fun r => negb (bool_decide (row_id r ∈ excluded))) rows in
              cascade (S (S (length remaining))) provider remaining remaining 0 false none_left w
          end
      end
  end.

(** ** What a lease rests on *)

(** At some moment of the call the credential could take a request: on, not
    cooling, not rate limited, above its reserve, under its limit by some
    count, its breaker letting requests through. *)
Definition usable (r : AccountRow D) : Prop :=
  ∃ n tick, eligible_at n r = true ∧ permits env tick (row_id r) = true.

(** A claim that left no seat taken. *)
Definition refusal (e : LeaseEvent) : Prop := ∃ a live, e = LClaim a (Ok (Full live)).

(** The seat was taken, or Redis could not be asked. *)
Definition seat (a : AccountId) (e : LeaseEvent) : Prop :=
  e = LClaim a (Ok Taken) ∨ ∃ err, e = LClaim a (Err err).

(** What a call adds to the trace. *)
Definition grows (t : list LeaseEvent) (w w' : LeaseWorld) : Prop := l_trace w' = l_trace w ++ t.

Lemma grows_refl w w' : l_trace w' = l_trace w → grows [] w w'.
Proof. unfold grows. by rewrite app_nil_r. Qed.

Lemma grows_trans t t' w w1 w2 : grows t w w1 → grows t' w1 w2 → grows (t ++ t') w w2.
Proof. unfold grows. intros H1 H2. by rewrite H2, H1, app_assoc. Qed.

Lemma eligible_is c now : is_eligible c now = eligible c now.
Proof. reflexivity. Qed.

Lemma claim_slot_spec r w taken w' :
  claim_slot r w = (taken, w') →
  ∃ e, grows [e] w w' ∧ if taken then seat (row_id r) e else refusal e.
Proof.
  unfold claim_slot. intros [= <- <-]. eexists. split; [done|].
  destruct (claim env _ _ _) as [[|live]|err].
  - by left.
  - by exists (row_id r), live.
  - right. by exists err.
Qed.

Lemma combine_In_l {A B} (x : A) (y : B) l l' : In (x, y) (combine l l') → In x l.
Proof. apply in_combine_l. Qed.

Lemma candidates_for_spec remaining w cs w' :
  candidates_for remaining w = (cs, w') →
  grows [] w w' ∧ ∀ c, In c cs → ∃ r n, In r remaining ∧ to_candidate r n 0 = Some c ∧
    permits env (l_tick w) (row_id r) = true.
Proof.
  unfold candidates_for. intros [= <- <-]. split; [by apply grows_refl|].
  intros c ([r n] & Hin & Hc)%filter_map_In. exists r, n. apply in_combine_l in Hin.
  apply keep_In in Hin as [Hin _]. apply keep_In in Hin as [Hin Hp]. done.
Qed.

Lemma to_candidate_account r n m c : to_candidate r n m = Some c → account c = row_id r.
Proof. unfold to_candidate. case_match; [|done]. by intros [= <-]. Qed.

Lemma pick_with_redis_room_spec rows w r w' :
  pick_with_redis_room rows w = (r, w') →
  grows [] w w' ∧ match r with Some row => In row rows ∧ usable row | None => True end.
Proof.
  unfold pick_with_redis_room. destruct rows as [|r0 rows0] eqn:E.
  { intros [= <- <-]. split; [by apply grows_refl|done]. }
  rewrite <-E. clear E. set (counts := usable_counts _ _). intros [= <- <-].
  split; [by apply grows_refl|]. unfold pick_with_room.
  set (open := open_rows _ rows counts).
  destruct (match open with [] => None | _ => _ end) as [row|] eqn:Er; [|done].
  assert (In row open) as Hin.
  { destruct open; [done|]. apply In_lookup. eauto. }
  unfold open, open_rows in Hin. apply in_map_iff in Hin as ([r n] & <- & Hin).
  apply keep_In in Hin as [Hin Hb]. cbn in Hb. bool_to_prop. split; [by eapply in_combine_l|].
  by exists n, (l_tick (ask w)).
Qed.

Lemma find_row (rows : list (AccountRow D)) a row :
  find (fun r : AccountRow D => bool_decide (row_id r = a)) rows = Some row → In row rows ∧ row_id row = a.
Proof. intros [? ?]%find_Some. by bool_to_prop. Qed.

Lemma same_row (rows : list (AccountRow D)) r r' :
  NoDup (map row_id rows) → In r rows → In r' rows → row_id r = row_id r' → r = r'.
Proof.
  intros Hnd [i Hi]%In_lookup [j Hj]%In_lookup Heq.
  assert (i = j) as ->; [|congruence].
  change (NoDup (row_id <$> rows)) in Hnd.
  apply (NoDup_lookup _ _ _ (row_id r) Hnd); rewrite list_lookup_fmap, ?Hi, ?Hj; cbn; congruence.
Qed.

Lemma filter_shorter {A} (p : A → bool) l x :
  In x l → p x = false → (length (keep p l) < length l)%nat.
Proof.
  unfold keep. induction l as [|y l IH]; [done|]. intros [->|Hin] Hp; cbn.
  - rewrite Hp. pose proof (List.filter_length_le p l). lia.
  - specialize (IH Hin Hp). destruct (p y); cbn; lia.
Qed.

(** ** The cascade's outcomes *)

(** A snapshot of some of [rows], each live and at its limit. *)
Definition saturated (rows : list (AccountRow D)) : Prop :=
  ∃ cs, cs ≠ [] ∧ ∀ c, In c cs → is_live c (now_secs env) = true ∧
    max_concurrency c ≤ Schedule.in_flight c ∧
    ∃ r n, In r rows ∧ to_candidate r n 0 = Some c.

Definition outcome (provider : Provider) (probe : list (AccountRow D)) (none_left : Error)
    (res : result (Granted D) Error) (w w' : LeaseWorld) : Prop :=
  match res with
  | Ok g => ∃ t e, grows (t ++ [e; LPin (row_id (granted g))]) w w' ∧ Forall refusal t ∧
      seat (row_id (granted g)) e ∧ In (granted g) probe ∧ via_sticky g = false ∧
      (NoDup (map row_id probe) → usable (granted g))
  | Err e => ∃ t, grows t w w' ∧ Forall refusal t ∧
      (e = none_left ∨ (∃ n, 1 ≤ n ∧ e = AtCapacity provider n) ∧ (t ≠ [] ∨ saturated probe))
  end.

Lemma outcome_later provider probe none_left res w w1 w' t :
  grows t w w1 → Forall refusal t → outcome provider probe none_left res w1 w' →
  outcome provider probe none_left res w w'.
Proof.
  intros Hg Ht. destruct res as [g|e]; cbn.
  - intros (t' & e & Hg' & Ht' & H). exists (t ++ t'), e. rewrite <-app_assoc.
    split; [by eapply grows_trans|]. split; [by apply Forall_app|done].
  - intros (t' & Hg' & Ht' & H). exists (t ++ t'). split; [by eapply grows_trans|].
    split; [by apply Forall_app|]. destruct H as [?|[? [Hne|?]]]; [by left|right..].
    + split; [done|]. left. by destruct t.
    + split; [done|by right].
Qed.

Lemma grant_outcome provider probe none_left row e w w1 :
  In row probe → grows [e] w w1 → seat (row_id row) e → (NoDup (map row_id probe) → usable row) →
  outcome provider probe none_left (grant row w1).1 w (grant row w1).2.
Proof.
  intros Hin Hg Hs Hu. cbn. exists [], e. split_and!; try done.
  unfold grows in *. cbn. by rewrite Hg, <-app_assoc.
Qed.

Lemma after_cascade_outcome provider probe exhausted none_left w0 t w :
  grows t w0 w → Forall refusal t → (0 < exhausted → t ≠ []) →
  let '(r, w') := after_cascade provider probe exhausted none_left w in
  outcome provider probe none_left r w0 w'.
Proof.
  intros Hg Ht Hex. unfold after_cascade. destruct (0 <? exhausted) eqn:E; bool_to_prop.
  2: { exists t. split_and!; [done..|by left]. }
  destruct (pick_with_redis_room probe w) as [picked w1] eqn:Ep.
  apply pick_with_redis_room_spec in Ep as [Hg1 Hp].
  pose proof (grows_trans _ _ _ _ _ Hg Hg1) as Hg2. rewrite app_nil_r in Hg2.
  destruct picked as [row|].
  2: { exists t. split_and!; [done..|]. right. split; [by exists exhausted; split; [lia|]|by left; apply Hex]. }
  destruct Hp as [Hin Hu]. destruct (claim_slot row w1) as [taken w2] eqn:Ec.
  apply claim_slot_spec in Ec as (e & He & Hs). destruct taken.
  - destruct (grant row w2) as [r w3] eqn:Eg.
    apply (outcome_later _ _ _ _ _ _ _ t Hg2 Ht).
    replace r with (grant row w2).1 by by rewrite Eg. replace w3 with (grant row w2).2 by by rewrite Eg.
    by eapply grant_outcome.
  - exists (t ++ [e]). split; [by eapply grows_trans|]. split; [apply Forall_app; by repeat constructor|].
    right. split; [by exists exhausted; split; [lia|]|left; by destruct t].
Qed.

(** The winner of a snapshot is a row it was made of. *)
Lemma winner remaining w cs w' tb sel row :
  candidates_for remaining w = (cs, w') → select cs (now_secs env) tb = Some sel →
  In row remaining → row_id row = sel_account sel → NoDup (map row_id remaining) → usable row.
Proof.
  intros [_ Hcs]%candidates_for_spec (c & (Hc & He & _) & Ha)%select_best Hin Hid Hnd.
  destruct (Hcs c Hc) as (r & n & Hr & Htc & Hp).
  assert (row = r) as ->.
  { apply (same_row remaining); try done. rewrite Hid, Ha. by eapply to_candidate_account. }
  exists n, (l_tick w). split; [|done]. unfold eligible_at. rewrite Htc. exact He.
Qed.

Lemma full_saturated remaining w cs w' n :
  candidates_for remaining w = (cs, w') → every_candidate_is_full cs (now_secs env) = Some n →
  1 ≤ n ∧ saturated remaining.
Proof.
  intros [_ Hcs]%candidates_for_spec. unfold every_candidate_is_full.
  set (full := keep _ cs). case_match eqn:E; [|done]. bool_to_prop. intros [= <-]. split; [lia|].
  apply Nat.eqb_eq in H0. exists cs. split; [by destruct cs|]. intros c Hc.
  assert (In c full) as Hf.
  { destruct (is_live c (now_secs env) && (max_concurrency c <=? Schedule.in_flight c)) eqn:Ec.
    - apply keep_In. done.
    - exfalso. assert (length full < length cs)%nat; [|lia]. by apply (filter_shorter _ _ c). }
  apply keep_In in Hf as [_ Hf]. bool_to_prop. destruct (Hcs c Hc) as (r & k & Hr & Htc & _).
  split_and!; [done|done|]. by exists r, k.
Qed.

Lemma NoDup_keep_ids (p : AccountRow D → bool) rows :
  NoDup (map row_id rows) → NoDup (map row_id (keep p rows)).
Proof.
  unfold keep. induction rows as [|r rows IH]; [done|]. cbn. intros [Hn Hd]%NoDup_cons.
  destruct (p r); [|auto]. cbn. apply NoDup_cons. split; [|auto].
  rewrite list_elem_of_In in *. intros (x & Hx & Hin)%in_map_iff. apply Hn, in_map_iff.
  apply filter_In in Hin as [Hin _]. by exists x.
Qed.

Lemma without_shorter (rows : list (AccountRow D)) row a :
  In row rows → row_id row = a → (length (without a rows) < length rows)%nat.
Proof.
  intros Hin Hid. apply (filter_shorter _ _ row Hin). by rewrite bool_decide_eq_true_2.
Qed.

(** Enough fuel is one unit a row, and one for the recount. *)
Lemma cascade_spec fuel provider (probe remaining : list (AccountRow D)) exhausted (ghost : bool)
    none_left w0 t w :
  (length remaining + (if ghost then 0 else 1) ≤ fuel)%nat →
  (∀ r, In r remaining → In r probe) →
  (NoDup (map row_id probe) → NoDup (map row_id remaining)) →
  grows t w0 w → Forall refusal t → 0 ≤ exhausted → (0 < exhausted → t ≠ []) →
  ∃ r w', cascade fuel provider probe remaining exhausted ghost none_left w = (Some r, w') ∧
    outcome provider probe none_left r w0 w'.
Proof.
  revert remaining exhausted ghost t w; induction fuel as [|fuel IH];
    intros remaining exhausted ghost t w Hfuel Hsub Hnd Hg Ht Hex0 Hex.
  { destruct remaining; [|cbn in Hfuel; lia]. cbn.
    pose proof (after_cascade_outcome provider probe exhausted none_left w0 t w Hg Ht Hex) as Ho.
    destruct (after_cascade _ _ _ _ _) as [r w']. by exists r, w'. }
  destruct remaining as [|r0 rest] eqn:Er.
  { cbn. pose proof (after_cascade_outcome provider probe exhausted none_left w0 t w Hg Ht Hex) as Ho.
    destruct (after_cascade _ _ _ _ _) as [r w']. by exists r, w'. }
  rewrite <-Er in *. assert (remaining ≠ []) as Hne by by rewrite Er.
  assert (∀ {A} (x y : A), match remaining with [] => x | _ => y end = y) as Hm by by rewrite Er.
  cbn [cascade]. rewrite Hm. clear Er Hm.
  destruct (candidates_for remaining w) as [cs w1] eqn:Ecs.
  pose proof (candidates_for_spec _ _ _ _ Ecs) as [Hg1 _].
  pose proof (grows_trans _ _ _ _ _ Hg Hg1) as Hg1'. rewrite app_nil_r in Hg1'.
  set (w2 := ask w1). assert (grows t w0 w2) as Hg2 by done.
  destruct (select cs (now_secs env) _) as [sel|] eqn:Esel.
  - destruct (find _ remaining) as [row|] eqn:Ef.
    2: { eexists _, _. split; [done|]. exists t. split_and!; [done..|by left]. }
    pose proof (find_row _ _ _ Ef) as [Hin Hid].
    destruct (claim_slot row w2) as [taken w3] eqn:Ec.
    apply claim_slot_spec in Ec as (e & He & Hs). destruct taken.
    + eexists _, _. split; [reflexivity|]. apply (outcome_later _ _ _ _ _ _ _ t Hg2 Ht).
      eapply grant_outcome; [by apply Hsub|exact He|exact Hs|]. intros Hp. eapply winner; eauto.
    + eapply (IH _ _ _ (t ++ [e])).
      * pose proof (without_shorter _ _ _ Hin Hid). lia.
      * intros r [Hr _]%keep_In. by apply Hsub.
      * intros Hp. by apply NoDup_keep_ids, Hnd.
      * by eapply grows_trans.
      * apply Forall_app. by repeat constructor.
      * lia.
      * intros _. by destruct t.
  - destruct (every_candidate_is_full cs (now_secs env)) as [n|] eqn:Efull.
    2: { eexists _, _. split; [done|]. exists t. split_and!; [done..|by left]. }
    pose proof (full_saturated _ _ _ _ _ Ecs Efull) as (Hn & cs' & Hcs' & Hall).
    assert (saturated probe) as Hsat.
    { exists cs'. split; [done|]. intros c Hc. destruct (Hall c Hc) as (? & ? & r & k & Hr & ?).
      split_and!; [done..|]. exists r, k. split; [by apply Hsub|done]. }
    unfold worth_a_recount. destruct ghost.
    + eexists _, _. split; [reflexivity|]. exists t. split_and!; [done..|]. right.
      split; [by exists n|by right].
    + set (el := keep _ remaining). destruct (pick_with_redis_room el w2) as [picked w3] eqn:Ep.
      apply pick_with_redis_room_spec in Ep as [Hg3 _].
      pose proof (grows_trans _ _ _ _ _ Hg2 Hg3) as Hg3'. rewrite app_nil_r in Hg3'.
      destruct (bool_decide (is_Some picked)).
      * eapply (IH _ _ _ t); try done. lia.
      * eexists _, _. split; [reflexivity|]. exists t. split_and!; [done..|]. right.
        split; [by exists n|by right].
Qed.

Lemma try_pinned_spec rows w row w' :
  try_pinned rows w = (row, w') →
  match row with
  | Some r => In r rows ∧ usable r ∧ ∃ e, grows [e] w w' ∧ seat (row_id r) e
  | None => ∃ t, grows t w w' ∧ Forall refusal t
  end.
Proof.
  assert (∀ w1, l_trace w1 = l_trace w → ∃ t, grows t w w1 ∧ Forall refusal t) as Hno.
  { intros w1 H. exists []. split; [by apply grows_refl|constructor]. }
  unfold try_pinned. destruct (sticky_get env (l_tick w)) as [[pinned|]|];
    [|intros [= <- <-]; by apply Hno..].
  destruct (find _ rows) as [r|] eqn:Ef; [|intros [= <- <-]; by apply Hno].
  apply find_row in Ef as [Hin Hid]. cbn -[is_eligible claim_slot].
  destruct (to_candidate r _ 0) as [c|] eqn:Ec; [|intros [= <- <-]; by apply Hno].
  destruct (negb (is_eligible c _) || _) eqn:Eb; [intros [= <- <-]; by apply Hno|].
  match goal with |- context [claim_slot r ?x] => destruct (claim_slot r x) as [taken w1] eqn:Ecl end.
  apply claim_slot_spec in Ecl as (e & He & Hs).
  destruct taken; intros [= <- <-].
  - split; [done|]. split; [|by exists e]. bool_to_prop. eexists _, _. split; [|rewrite Hid; eassumption].
    unfold eligible_at. rewrite Ec. done.
  - exists [e]. split; [done|by repeat constructor].
Qed.

(** A whole call, every way it can end. *)
Lemma lease_spec provider excluded channel w :
  ∃ r w', lease provider excluded channel w = (Some r, w') ∧
  match candidates_sql env (l_tick w) with
  | Err e => r = Err e ∧ grows [] w w'
  | Ok fetched =>
      let rows := of_kind fetched channel in
      let none_left := nothing_usable provider (reserve_holding_back rows) channel in
      (∃ row e, r = Ok {| granted := row; via_sticky := true |} ∧ excluded = [] ∧ In row rows ∧
        usable row ∧ grows [e] w w' ∧ seat (row_id row) e) ∨
      outcome provider (keep (fun x => negb (bool_decide (row_id x ∈ excluded))) rows) none_left r w w'
  end.
Proof.
  unfold lease. destruct (candidates_sql env (l_tick w)) as [fetched|e].
  2: { eexists _, _. split; [done|]. split; [done|by apply grows_refl]. }
  set (rows := of_kind fetched channel). set (none_left := nothing_usable _ _ _). cbn zeta.
  destruct rows as [|r0 rest] eqn:Er.
  { eexists _, _. split; [done|]. right. exists []. split_and!; [by apply grows_refl|constructor|by left]. }
  rewrite <-Er. clear Er.
  destruct (match excluded with [] => try_pinned rows (ask w) | _ => (None, ask w) end)
    as [pinned w1] eqn:Ep.
  assert (match pinned with
    | Some row => excluded = [] ∧ In row rows ∧ usable row ∧ ∃ e, grows [e] w w1 ∧ seat (row_id row) e
    | None => ∃ t, grows t w w1 ∧ Forall refusal t end) as Hp.
  { destruct excluded; [apply try_pinned_spec in Ep; by destruct pinned|].
    injection Ep as <- <-. exists []. split; [by apply grows_refl|constructor]. }
  destruct pinned as [row|].
  { destruct Hp as (-> & Hin & Hu & e & He & Hs). eexists _, _. split; [done|]. left. by exists row, e. }
  destruct Hp as (t & Hg & Ht). set (probe := keep _ rows).
  destruct (cascade_spec (S (S (length probe))) provider probe probe 0 false none_left w1 [] w1)
    as (r & w' & Hc & Ho); [lia|done|done|by apply grows_refl|constructor|lia|lia|].
  exists r, w'. split; [exact Hc|]. right. by eapply outcome_later.
Qed.

Lemma of_kind_In fetched channel (r : AccountRow D) :
  In r (of_kind fetched channel) ↔
  In r fetched ∧ ∀ kind, channel = Some kind → Credential.from_column (row_kind r) = Some kind.
Proof.
  unfold of_kind. destruct channel as [kind|]; [|naive_solver].
  rewrite keep_In, bool_decide_eq_true. naive_solver.
Qed.

Lemma reserve_holding_spec rows p :
  reserve_holding_back rows = Some p →
  rows ≠ [] ∧ (∀ r, In r rows → row_held r = true) ∧ (∃ r, In r rows ∧ row_reserve_pct r = Some p) ∧
  ∀ r q, In r rows → row_reserve_pct r = Some q → q ≤ p.
Proof.
  unfold reserve_holding_back. destruct rows as [|r0 rest] eqn:E; [done|]. rewrite <-E.
  destruct (all row_held rows) eqn:Ea; [|done]. intros Hm.
  destruct (max_by_spec (fun x y => y <=? x) (filter_map row_reserve_pct rows) p) as [Hin Hge].
  { intros x y H. bool_to_prop. apply Z.leb_le. lia. }
  { intros x y z Hx Hy. bool_to_prop. apply Z.leb_le. lia. }
  { intros x. apply Z.leb_refl. }
  { exact Hm. }
  rewrite all_true in Ea. apply filter_map_In in Hin as (r & Hr & Hp).
  split; [by rewrite E|]. split; [done|]. split; [by exists r|].
  intros r' q Hr' Hq. apply Z.leb_le. apply Hge. apply filter_map_In. by exists r'.
Qed.

(** Leasing ends: whatever the database, Redis, the breakers and the draws
    answer, however often they disagree, a call returns a lease or an error. *)
Theorem lease_returns provider excluded channel w :
  ∃ r w', lease provider excluded channel w = (Some r, w').
Proof.
  destruct (lease_spec provider excluded channel w) as (r & w' & H & _). by exists r, w'.
Qed.

(** C31. What a lease rests on.  Where the query names each credential once, a
    lease is one of the rows it gave, of the kind pinned by the model's name,
    not among those that already failed; it could take a request at some moment
    of the call, its breaker permitting; and the last thing asked of the slot
    store is its own seat, which was taken or could not be asked for, every
    claim before it having been refused, so no other seat is left held.  Only
    the cascade writes the pin, after the seat; the pin is read only when
    nothing has failed yet. *)
Theorem lease_is_honest provider excluded channel w g w' fetched :
  candidates_sql env (l_tick w) = Ok fetched → NoDup (map row_id fetched) →
  lease provider excluded channel w = (Some (Ok g), w') →
  In (granted g) fetched ∧
  (∀ kind, channel = Some kind → Credential.from_column (row_kind (granted g)) = Some kind) ∧
  (row_id (granted g) ∉ excluded) ∧ usable (granted g) ∧
  (via_sticky g = true → excluded = []) ∧
  ∃ t e, grows (t ++ e :: if via_sticky g then [] else [LPin (row_id (granted g))]) w w' ∧
    Forall refusal t ∧ seat (row_id (granted g)) e.
Proof.
  intros Hsql Hnd Hl. destruct (lease_spec provider excluded channel w) as (r & w2 & Hl2 & H).
  rewrite Hl in Hl2. injection Hl2 as <- <-. rewrite Hsql in H. destruct H as [H|H].
  - destruct H as (row & e & [= ->] & -> & Hin & Hu & Hg & Hs). cbn [granted via_sticky] in *.
    apply of_kind_In in Hin as [Hin Hk]. split_and!; try done.
    + by intros ?%not_elem_of_nil.
    + exists [], e. split; [done|]. by split; [constructor|].
  - destruct H as (t & e & Hg & Ht & Hs & Hin & Hv & Hu). rewrite Hv.
    apply keep_In in Hin as [Hin Hx]. apply of_kind_In in Hin as [Hin Hk]. bool_to_prop.
    split_and!; try done.
    + apply Hu. apply NoDup_keep_ids. unfold of_kind. destruct channel; [by apply NoDup_keep_ids|done].
    + exists t, e. done.
Qed.

(** A refusal says which nothing it was, and leaves nothing behind: no seat
    taken, no pin written.  [AtCapacity] only when a seat was refused or every
    credential looked at was live and full; that a reserve holds the pool back
    only when it holds every credential back, and the reserve named is the
    largest; and a missing kind only when the name pinned it. *)
Theorem lease_refusals provider excluded channel w e w' fetched :
  candidates_sql env (l_tick w) = Ok fetched →
  lease provider excluded channel w = (Some (Err e), w') →
  let rows := of_kind fetched channel in
  ∃ t, grows t w w' ∧ Forall refusal t ∧
  match e with
  | AtCapacity p n => p = provider ∧ 1 ≤ n ∧
      (t ≠ [] ∨ saturated (keep (fun x => negb (bool_decide (row_id x ∈ excluded))) rows))
  | ReserveHeld p pct => p = provider ∧ rows ≠ [] ∧ (∀ r, In r rows → row_held r = true) ∧
      (∃ r, In r rows ∧ row_reserve_pct r = Some pct) ∧
      ∀ r q, In r rows → row_reserve_pct r = Some q → q ≤ pct
  | NoCredentialOfKind p kind => p = provider ∧ channel = Some kind
  | NoCredential p => p = provider ∧ channel = None
  | _ => False
  end.
Proof.
  intros Hsql Hl rows. destruct (lease_spec provider excluded channel w) as (r & w2 & Hl2 & H).
  rewrite Hl in Hl2. injection Hl2 as <- <-. rewrite Hsql in H. fold rows in H.
  destruct H as [(row & e' & ? & _)|(t & Hg & Ht & H)]; [done|].
  exists t. split; [done|]. split; [done|]. destruct H as [->|[(n & Hn & ->) Hsat]].
  - unfold nothing_usable. destruct (reserve_holding_back rows) as [pct|] eqn:Er.
    + split; [done|]. by apply reserve_holding_spec.
    + by destruct channel.
  - done.
Qed.

End lease.

(** ** Witnesses *)

(** Two API keys, the better one at its limit when its seat is claimed. *)
Definition key_row (a : AccountId) (prio : Z) : AccountRow Q := {|
  row_id := a; row_name := "key"; row_provider := "openai"; row_kind := "api_key";
  row_priority := prio; row_max_concurrency := 4; row_schedulable := true; row_cooldown_until := None;
  row_rate_limited_until := None; row_window_resets_at := None; row_remaining_pct := None;
  row_reserve_pct := None; row_last_used_at := 0 |}.

Definition lease_env (rows : list (AccountRow Q)) : LeaseEnv Q := {|
  candidates_sql := fun _ => Ok rows; now_secs := 1000; sticky_get := fun _ => Ok None;
  slots_in_use := fun _ _ => Ok 0; slots_in_use_many := fun _ ids => Ok (map (fun _ => 0) ids);
  claim := fun _ a _ => if bool_decide (a = 1%N) then Ok (Full 4) else Ok Taken;
  permits := fun _ _ => true; fastrand := fun _ => 7; registry := ∅ |}.

Definition start : LeaseWorld := {| l_tick := 0; l_trace := [] |}.

Lemma lease_is_honest_witness :
  ∃ g w', lease (lease_env [key_row 1%N 1; key_row 2%N 2]) OpenAI [] (Some ApiKey) start = (Some (Ok g), w') ∧
    row_id (granted g) = 2%N ∧ usable (lease_env [key_row 1%N 1; key_row 2%N 2]) (granted g).
Proof.
  eexists _, _. split; [vm_compute; reflexivity|]. split; [reflexivity|].
  match goal with |- usable _ (granted ?g) =>
    refine (proj1 (proj2 (proj2 (proj2 (lease_is_honest (lease_env [key_row 1%N 1; key_row 2%N 2]) OpenAI []
      (Some ApiKey) start g _ [key_row 1%N 1; key_row 2%N 2] _ _ _)))))
  end; [reflexivity|repeat constructor; set_solver|vm_compute; reflexivity].
Defined.

Lemma lease_refusals_witness :
  ∃ w', lease (lease_env [key_row 1%N 1]) OpenAI [] None start = (Some (Err (AtCapacity OpenAI 1)), w') ∧
    1 ≤ 1.
Proof.
  eexists. split; [vm_compute; reflexivity|].
  destruct (lease_refusals (lease_env [key_row 1%N 1]) OpenAI [] None start (AtCapacity OpenAI 1)
    (lease (lease_env [key_row 1%N 1]) OpenAI [] None start).2 [key_row 1%N 1])
    as (t & _ & _ & _ & H & _); [reflexivity|vm_compute; reflexivity|exact H].
Defined.

End Leasing.
