(* ===== verification/Frames.v ===== *)
(** * Frames

    [crates/oag-upstream/src/eventstream.rs], the AWS binary framing, and the
    part of [crates/oag-server/src/gateway/sse.rs] that cuts what a connection
    has delivered so far into event payloads.  A slice out of range is a panic,
    here [None]. *)

From Stdlib Require Import Ascii.
From S2P Require Import Prelude Text Money Domain Efforts Catalog Classify Canonical Wire Sticky.
#[local] Open Scope string_scope.
#[local] Open Scope oag_scope.
#[local] Open Scope list_scope.
#[local] Open Scope Z_scope.

(** [oag_upstream::Framing]. *)
Inductive Framing : Type := Sse | AwsEventStream | AwsConverseStream.

#[export] Instance Framing_eq_dec : EqDecision Framing.
Proof. solve_decision. Defined.

Record Headers : Type := {
  event_type : option string;
  exception_type : option string;
  message_type : option string;
  error_code : option string;
  error_message : option string
}.

(** [eventstream::Message]. *)
Record Frame : Type := { frame_headers : Headers; frame_payload : list ascii }.

(** ** UTF-8, as [std::str::from_utf8] checks it *)
Module Utf8.

Definition continuation := Str.in_span 128 191.

(** The bytes of one character after its first: [None] for a byte that starts
    none; the second byte's range, and how many continuations follow it. *)
Definition after_first (c : ascii) : option (option (Z * Z * nat)) :=
  if Str.in_span 0 127 c then Some None
  else if Str.in_span 194 223 c then Some (Some (128, 191, 0%nat))
  else if Str.in_span 224 224 c then Some (Some (160, 191, 1%nat))
  else if Str.in_span 237 237 c then Some (Some (128, 159, 1%nat))
  else if Str.in_span 225 239 c then Some (Some (128, 191, 1%nat))
  else if Str.in_span 240 240 c then Some (Some (144, 191, 2%nat))
  else if Str.in_span 241 243 c then Some (Some (128, 191, 2%nat))
  else if Str.in_span 244 244 c then Some (Some (128, 143, 2%nat))
  else None.

(** [k] continuation bytes due, the first of them within the span if given. *)
Fixpoint valid_from (due : option (Z * Z * nat)) (l : list ascii) : bool :=
  match l with
  | [] => match due with None => true | Some _ => false end
  | c :: l =>
      match due with
      | None => match after_first c with Some due => valid_from due l | None => false end
      | Some (lo, hi, k) =>
          Str.in_span lo hi c
          && valid_from (match k with O => None | S k => Some (128, 191, k) end) l
      end
  end.

Definition valid : list ascii → bool := valid_from None.

End Utf8.

Module EventStream.

Definition PRELUDE_LEN : Z := 12.
Definition OVERHEAD : Z := PRELUDE_LEN + 4.
Definition MAX_MESSAGE_LEN : Z := 16 * 1024 * 1024.

Definition size (b : list ascii) : Z := Z.of_nat (length b).

(** [b[i..j]], [b[i..]] and [b[i]]. *)
Definition slice (b : list ascii) (i j : Z) : option (list ascii) :=
  if (0 <=? i) && (i <=? j) && (j <=? size b)
  then Some (List.firstn (Z.to_nat (j - i)) (List.skipn (Z.to_nat i) b)) else None.

Definition from (b : list ascii) (i : Z) : option (list ascii) := slice b i (size b).
Definition byte (b : list ascii) (i : Z) : option Z := Str.code <$> b !! Z.to_nat i.

(** [u32::from_be_bytes] and [u16::from_be_bytes] of the bytes at [i]. *)
Definition u16_at (b : list ascii) (i : Z) : option Z :=
  match byte b i, byte b (i + 1) with
  | Some x, Some y => Some (x * 256 + y)
  | _, _ => None
  end.

Definition u32_at (b : list ascii) (i : Z) : option Z :=
  match u16_at b i, u16_at b (i + 2) with
  | Some x, Some y => Some (x * 65536 + y)
  | _, _ => None
  end.

Definition no_headers : Headers := {|
  event_type := None; exception_type := None; message_type := None;
  error_code := None; error_message := None |}.

Definition set_header (name : string) (value : option string) (h : Headers) : Headers :=
  if Str.eqb name ":event-type" then
    {| event_type := value; exception_type := exception_type h; message_type := message_type h;
       error_code := error_code h; error_message := error_message h |}
  else if Str.eqb name ":exception-type" then
    {| event_type := event_type h; exception_type := value; message_type := message_type h;
       error_code := error_code h; error_message := error_message h |}
  else if Str.eqb name ":message-type" then
    {| event_type := event_type h; exception_type := exception_type h; message_type := value;
       error_code := error_code h; error_message := error_message h |}
  else if Str.eqb name ":error-code" then
    {| event_type := event_type h; exception_type := exception_type h;
       message_type := message_type h; error_code := value; error_message := error_message h |}
  else if Str.eqb name ":error-message" then
    {| event_type := event_type h; exception_type := exception_type h;
       message_type := message_type h; error_code := error_code h; error_message := value |}
  else h.

(** The value of one header: the bytes it takes off [b] and its text if it has
    one; [Stop] where the source breaks. *)
Inductive Value : Type := Skip (b : list ascii) (v : option string) | Stop | Panic.

Definition skip (b : list ascii) (n : Z) : Value :=
  if size b <? n then Stop
  else match from b n with Some b => Skip b None | None => Panic end.

Section text.
(** [String::from_utf8_lossy]. *)
Context (from_utf8_lossy : list ascii → string).

Definition header_value (value_type : Z) (b : list ascii) : Value :=
  if value_type <=? 1 then Skip b None
  else if value_type =? 2 then skip b 1
  else if value_type <=? 5 then
    skip b (if value_type =? 3 then 2 else if value_type =? 4 then 4 else 8)
  else if value_type <=? 7 then
    if size b <? 2 then Stop
    else
      match u16_at b 0 with
      | None => Panic
      | Some len =>
          if size b <? 2 + len then Stop
          else
            match slice b 2 (2 + len), from b (2 + len) with
            | Some v, Some rest =>
                Skip rest (if value_type =? 7 then Some (from_utf8_lossy v) else None)
            | _, _ => Panic
            end
      end
  else if value_type =? 8 then skip b 8
  else if value_type =? 9 then skip b 16
  else Stop.

(** [parse_headers]: the loop, on fuel; [None] is a panic. *)
Fixpoint parse_headers_loop (fuel : nat) (b : list ascii) (headers : Headers) : option Headers :=
  match fuel with
  | O => Some headers
  | S fuel =>
      if size b <? 2 then Some headers
      else
        match byte b 0 with
        | None => None
        | Some name_len =>
            if size b <? 1 + name_len + 1 then Some headers
            else
              match slice b 1 (name_len + 1), byte b (1 + name_len), from b (1 + name_len + 1) with
              | Some name, Some value_type, Some rest =>
                  match header_value value_type rest with
                  | Panic => None
                  | Stop => Some headers
                  | Skip rest value =>
                      parse_headers_loop fuel rest (set_header (from_utf8_lossy name) value headers)
                  end
              | _, _, _ => None
              end
        end
  end.

Definition parse_headers (b : list ascii) : option Headers :=
  parse_headers_loop (length b) b no_headers.

(** A prelude no message can have. *)
Definition malformed (total headers_len : Z) : bool :=
  negb ((OVERHEAD <=? total) && (total <=? MAX_MESSAGE_LEN)) || (total - OVERHEAD <? headers_len).

(** What the front of a buffer holds. *)
Inductive Front : Type :=
  | Wait
  | Message (m : Frame) (rest : list ascii)
  | Crash.

Definition front (rest : list ascii) : Front :=
  if size rest <? PRELUDE_LEN then Wait
  else
    match u32_at rest 0, u32_at rest 4 with
    | Some total, Some headers_len =>
        if malformed total headers_len then Wait
        else if size rest <? total then Wait
        else
          match slice rest PRELUDE_LEN (PRELUDE_LEN + headers_len),
                slice rest (PRELUDE_LEN + headers_len) (total - 4), from rest total with
          | Some headers, Some payload, Some rest =>
              match parse_headers headers with
              | Some headers =>
                  Message {| frame_headers := headers; frame_payload := payload |} rest
              | None => Crash
              end
          | _, _, _ => Crash
          end
    | _, _ => Crash
    end.

(** [take_messages]: the messages and the bytes left; [None] is a panic. *)
Fixpoint take_loop (fuel : nat) (rest : list ascii) : option (list Frame * list ascii) :=
  match fuel with
  | O => Some ([], rest)
  | S fuel =>
      match front rest with
      | Wait => Some ([], rest)
      | Crash => None
      | Message m rest =>
          match take_loop fuel rest with
          | Some (ms, left_over) => Some (m :: ms, left_over)
          | None => None
          end
      end
  end.

Definition take_messages (buf : list ascii) : option (list Frame * list ascii) :=
  take_loop (length buf) buf.

(** ** Encoding *)

(** [n.to_be_bytes()], [k] bytes. *)
Definition to_be_bytes (k : nat) (n : Z) : list ascii :=
  map (fun i => ascii_of_N (Z.to_N (Z.land (Z.shiftr n (8 * Z.of_nat i)) 255))) (rev (seq 0 k)).

Definition crc_bit (crc : Z) : Z :=
  if Z.land crc 1 =? 1 then Z.lxor (Z.shiftr crc 1) 0xEDB88320 else Z.shiftr crc 1.

Definition crc32 (bytes : list ascii) : Z :=
  let crc := fold_left (fun crc byte => Nat.iter 8 crc_bit (Z.lxor crc (Str.code byte))) bytes
    0xFFFFFFFF in
  Z.lxor crc 0xFFFFFFFF.

(** One string header; [None] when the name or the value is too long. *)
Definition encode_header (h : string * string) : option (list ascii) :=
  let '(name, value) := h in
  if (255 <? Str.len name) || (65535 <? Str.len value) then None
  else Some (to_be_bytes 1 (Str.len name) ++ Str.bytes name ++ ["007"%char]
             ++ to_be_bytes 2 (Str.len value) ++ Str.bytes value).

Fixpoint encode_headers (hs : list (string * string)) : option (list ascii) :=
  match hs with
  | [] => Some []
  | h :: hs =>
      match encode_header h, encode_headers hs with
      | Some b, Some bs => Some (b ++ bs)
      | _, _ => None
      end
  end.

Definition encode (headers : list (string * string)) (payload : list ascii) : option (list ascii) :=
  match encode_headers headers with
  | None => None
  | Some block =>
      let total := OVERHEAD + size block + size payload in
      if U32_MAX <? total then None
      else
        let out := to_be_bytes 4 total ++ to_be_bytes 4 (size block) in
        let out := out ++ to_be_bytes 4 (crc32 out) in
        let out := out ++ block ++ payload in
        Some (out ++ to_be_bytes 4 (crc32 out))
  end.

(** ** Events *)

(** [stream_error]. *)
Definition nonempty (s : option string) : option string :=
  match s with Some s => if Str.is_empty s then None else Some s | None => None end.

Definition UNNAMED : string := "the upstream's event stream reported an error and named none".

Definition stream_error (msg : Frame) : option string :=
  if bool_decide (message_type (frame_headers msg) = Some "error") then
    let code := nonempty (error_code (frame_headers msg)) in
    let words :=
      match nonempty (error_message (frame_headers msg)) with
      | Some words => Some words
      | None => nonempty (Some (Str.trim (from_utf8_lossy (frame_payload msg))))
      end in
    Some match code, words with
         | Some code, Some words => code +:+ ": " +:+ words
         | Some code, None => code
         | None, Some words => words
         | None, None => UNNAMED
         end
  else None.

(** [serde_json::from_slice], [Value::to_string] and base64. *)
Context (from_json : list ascii → option Json) (base64_decode : string → option (list ascii)).

Definition json_field (key : string) (v : Json) : option Json :=
  match v with JObject fs => Js.field key fs | _ => None end.

Definition error_event (kind message : string) : Json :=
  JObject [("type", JString "error");
           ("error", JObject [("type", JString kind); ("message", JString message)])].

Definition exception_event (kind : string) (payload : list ascii) : Json :=
  let body := from_utf8_lossy payload in
  let message :=
    match from_json (Str.bytes body) with
    | Some v => match json_field "message" v with Some (JString m) => m | _ => body end
    | None => body
    end in
  error_event kind message.

(** What an event is: JSON of our own making, to be printed, or the
    provider's text. *)
Inductive Payload : Type := Printed (v : Json) | Verbatim (text : string).

Definition inner_event (msg : Frame) : option Payload :=
  match exception_type (frame_headers msg) with
  | Some kind => Some (Printed (exception_event kind (frame_payload msg)))
  | None =>
      match stream_error msg with
      | Some error => Some (Printed (error_event "error" error))
      | None =>
          match from_json (frame_payload msg) with
          | None => None
          | Some v =>
              match json_field "bytes" v with
              | Some (JString encoded) =>
                  match base64_decode encoded with
                  | Some decoded =>
                      if Utf8.valid decoded then Some (Verbatim (Str.of_bytes decoded)) else None
                  | None => None
                  end
              | _ => None
              end
          end
      end
  end.

(** [oag_proto::converse::STREAM_ERROR]. *)
Definition STREAM_ERROR : string := ":error".

Definition converse_event (msg : Frame) : option Payload :=
  match stream_error msg with
  | Some error => Some (Printed (JObject [(STREAM_ERROR, JObject [("message", JString error)])]))
  | None =>
      match exception_type (frame_headers msg) with
      | Some kind =>
          let body := from_utf8_lossy (frame_payload msg) in
          let payload :=
            match from_json (Str.bytes body) with
            | Some (JObject fs) => JObject fs
            | _ => JObject [("message", JString body)]
            end in
          Some (Printed (JObject [(kind, payload)]))
      | None =>
          match event_type (frame_headers msg), from_json (frame_payload msg) with
          | Some kind, Some payload => Some (Printed (JObject [(kind, payload)]))
          | _, _ => None
          end
      end
  end.

(** ** No read is out of range *)

Lemma size_nonneg b : 0 ≤ size b.
Proof. unfold size. lia. Qed.

Lemma size_app a b : size (a ++ b) = size a + size b.
Proof. unfold size. rewrite length_app. lia. Qed.

Lemma slice_Some b i j :
  0 ≤ i ≤ j → j ≤ size b →
  slice b i j = Some (List.firstn (Z.to_nat (j - i)) (List.skipn (Z.to_nat i) b)).
Proof.
  intros H Hj. unfold slice. rewrite !(proj2 (Z.leb_le _ _)) by lia. done.
Qed.

Lemma from_Some b i : 0 ≤ i ≤ size b → from b i = Some (List.skipn (Z.to_nat i) b).
Proof.
  intros H. unfold from. rewrite slice_Some by lia. f_equal. apply firstn_all2.
  rewrite length_skipn. unfold size in *. lia.
Qed.

Lemma byte_Some b i : 0 ≤ i < size b → ∃ x, byte b i = Some x ∧ 0 ≤ x < 256.
Proof.
  intros H. unfold byte, size in *. destruct (b !! Z.to_nat i) as [c|] eqn:E.
  - exists (Str.code c). split; [done|apply Str.code_range].
  - apply lookup_ge_None in E. lia.
Qed.

Lemma u16_at_Some b i : 0 ≤ i → i + 2 ≤ size b → ∃ x, u16_at b i = Some x ∧ 0 ≤ x < 65536.
Proof.
  intros Hi H. unfold u16_at. destruct (byte_Some b i) as (x & -> & ?); [lia|].
  destruct (byte_Some b (i + 1)) as (y & -> & ?); [lia|]. eexists. split; [done|lia].
Qed.

Lemma u32_at_Some b i : 0 ≤ i → i + 4 ≤ size b → ∃ x, u32_at b i = Some x ∧ 0 ≤ x ≤ U32_MAX.
Proof.
  intros Hi H. unfold u32_at. destruct (u16_at_Some b i) as (x & -> & ?); [lia|lia|].
  destruct (u16_at_Some b (i + 2)) as (y & -> & ?); [lia|lia|].
  eexists. split; [done|unfold U32_MAX; lia].
Qed.

Lemma skip_total b n : 0 ≤ n → skip b n = Stop ∨ ∃ r, skip b n = Skip r None ∧ (length r ≤ length b)%nat.
Proof.
  intros Hn. unfold skip. destruct (Z.ltb_spec (size b) n); [by left|]. right.
  rewrite from_Some by lia. eexists. split; [done|]. rewrite length_skipn. lia.
Qed.

Lemma header_value_total t b :
  header_value t b = Stop ∨ ∃ r v, header_value t b = Skip r v ∧ (length r ≤ length b)%nat.
Proof.
  assert (∀ n, 0 ≤ n → skip b n = Stop ∨ ∃ r v, skip b n = Skip r v ∧ (length r ≤ length b)%nat)
    as Hs by (intros n Hn; destruct (skip_total b n Hn) as [?|(r & ? & ?)]; eauto).
  unfold header_value. destruct (t <=? 1); [right; eauto|].
  destruct (t =? 2); [apply Hs; lia|].
  destruct (t <=? 5); [apply Hs; repeat case_match; lia|].
  destruct (t <=? 7).
  - destruct (Z.ltb_spec (size b) 2); [by left|].
    destruct (u16_at_Some b 0) as (n & -> & ?); [lia|lia|].
    destruct (Z.ltb_spec (size b) (2 + n)); [by left|]. right.
    rewrite slice_Some, from_Some by lia. eexists _, _. split; [done|]. rewrite length_skipn. lia.
  - destruct (t =? 8); [apply Hs; lia|]. destruct (t =? 9); [apply Hs; lia|by left].
Qed.

Lemma parse_headers_total fuel b h : ∃ h', parse_headers_loop fuel b h = Some h'.
Proof.
  revert b h; induction fuel as [|fuel IH]; intros b h; cbn [parse_headers_loop]; [eauto|].
  destruct (Z.ltb_spec (size b) 2); [eauto|].
  destruct (byte_Some b 0) as (n & -> & ?); [lia|].
  destruct (Z.ltb_spec (size b) (1 + n + 1)); [eauto|].
  rewrite slice_Some, from_Some by lia. destruct (byte_Some b (1 + n)) as (t & -> & _); [lia|].
  match goal with |- context [header_value t ?r] =>
    destruct (header_value_total t r) as [->|(r' & v & -> & _)] end; eauto.
Qed.

(** What a front holds, spelled out. *)
Lemma front_spec b :
  front b = Wait ∨ ∃ m total, front b = Message m (List.skipn (Z.to_nat total) b) ∧
    OVERHEAD ≤ total ≤ MAX_MESSAGE_LEN ∧ total ≤ size b.
Proof.
  unfold front. destruct (Z.ltb_spec (size b) PRELUDE_LEN) as [|Hp]; [by left|].
  unfold PRELUDE_LEN in *.
  destruct (u32_at_Some b 0) as (total & -> & ?); [lia|lia|].
  destruct (u32_at_Some b 4) as (hl & -> & ?); [lia|lia|].
  destruct (malformed total hl) eqn:Hm; [by left|]. unfold malformed in Hm. bool_to_prop.
  destruct (Z.ltb_spec (size b) total); [by left|]. right. unfold OVERHEAD, PRELUDE_LEN in *.
  rewrite !slice_Some, from_Some by lia.
  match goal with |- context [parse_headers ?h] => destruct (parse_headers_total (length h) h no_headers)
    as (h' & Hh) end.
  unfold parse_headers. rewrite Hh. eexists _, total. split_and!; [done|lia..].
Qed.

Lemma front_shorter b m r : front b = Message m r → (length r < length b)%nat.
Proof.
  intros H. destruct (front_spec b) as [?|(m' & total & Hf & Ht & Hs)]; [congruence|].
  rewrite Hf in H. injection H as <- <-. rewrite length_skipn. unfold size, OVERHEAD, PRELUDE_LEN in *. lia.
Qed.

Lemma take_loop_fuel n n' b : (length b ≤ n)%nat → (length b ≤ n')%nat → take_loop n b = take_loop n' b.
Proof.
  revert n' b; induction n as [|n IH]; intros [|n'] b Hn Hn'; cbn [take_loop].
  - done.
  - destruct b; [done|cbn in Hn; lia].
  - destruct b; [done|cbn in Hn'; lia].
  - destruct (front b) as [|m r|] eqn:Hf; try done. apply front_shorter in Hf.
    by rewrite (IH n' r) by lia.
Qed.

Lemma take_messages_front b :
  take_messages b =
  match front b with
  | Wait => Some ([], b)
  | Crash => None
  | Message m r =>
      match take_messages r with Some (ms, l) => Some (m :: ms, l) | None => None end
  end.
Proof.
  unfold take_messages. destruct b as [|c b]; [done|]. cbn [length take_loop].
  destruct (front (c :: b)) as [|m r|] eqn:Hf; try done. apply front_shorter in Hf. cbn in Hf.
  by rewrite (take_loop_fuel (length b) (length r)) by lia.
Qed.

(** ** More bytes change nothing of what is complete *)

Lemma slice_app b c i j : 0 ≤ i ≤ j → j ≤ size b → slice (b ++ c) i j = slice b i j.
Proof.
  intros H Hj. rewrite !slice_Some by (rewrite ?size_app; pose proof (size_nonneg c); lia).
  f_equal. unfold size in *. rewrite skipn_app, firstn_app, length_skipn.
  replace (Z.to_nat (j - i) - (length b - Z.to_nat i))%nat with 0%nat by lia.
  by rewrite firstn_O, app_nil_r.
Qed.

Lemma byte_app b c i : 0 ≤ i < size b → byte (b ++ c) i = byte b i.
Proof. intros H. unfold byte, size in *. by rewrite lookup_app_l by lia. Qed.

Lemma u32_app b c i : 0 ≤ i → i + 4 ≤ size b → u32_at (b ++ c) i = u32_at b i.
Proof. intros Hi H. unfold u32_at, u16_at. by rewrite !byte_app by lia. Qed.

Lemma front_app b c m r : front b = Message m r → front (b ++ c) = Message m (r ++ c).
Proof.
  intros H. destruct (front_spec b) as [?|(m' & total & Hf & Ht & Hs)]; [congruence|].
  revert H. unfold front, OVERHEAD, PRELUDE_LEN in *. rewrite size_app. pose proof (size_nonneg c).
  rewrite (proj2 (Z.ltb_ge (size b) 12)), (proj2 (Z.ltb_ge (size b + size c) 12)) by lia.
  rewrite !u32_app by lia.
  destruct (u32_at_Some b 0) as (t & -> & ?); [lia|lia|].
  destruct (u32_at_Some b 4) as (hl & -> & ?); [lia|lia|].
  destruct (malformed t hl) eqn:Hm; [done|]. unfold malformed, OVERHEAD, PRELUDE_LEN in Hm. bool_to_prop.
  destruct (Z.ltb_spec (size b) t); [done|]. rewrite (proj2 (Z.ltb_ge (size b + size c) t)) by lia.
  rewrite !slice_app by lia. rewrite !from_Some by (rewrite ?size_app; lia).
  rewrite !slice_Some by lia. destruct (parse_headers _); [|done]. intros [= <- <-]. f_equal.
  rewrite skipn_app. f_equal. unfold size in *.
  replace (Z.to_nat t - length b)%nat with 0%nat by lia. done.
Qed.

Lemma take_messages_total b : ∃ ms r, take_messages b = Some (ms, r).
Proof.
  remember (length b) as n eqn:Hn. revert b Hn.
  induction n as [n IH] using lt_wf_ind. intros b ->. rewrite take_messages_front.
  destruct (front_spec b) as [->|(m & total & Hf & _)]; [eauto|]. rewrite Hf.
  apply front_shorter in Hf. destruct (IH _ Hf _ eq_refl) as (ms & r & ->). eauto.
Qed.

Lemma take_messages_app b c ms r :
  take_messages b = Some (ms, r) →
  take_messages (b ++ c) =
  match take_messages (r ++ c) with Some (qs, l) => Some (ms ++ qs, l) | None => None end.
Proof.
  remember (length b) as n eqn:Hn. revert b ms Hn.
  induction n as [n IH] using lt_wf_ind. intros b ms ->. rewrite take_messages_front.
  destruct (front b) as [|m r'|] eqn:Hf.
  - intros [= <- <-]. by destruct (take_messages (b ++ c)) as [[??]|].
  - destruct (take_messages r') as [[ms' l]|] eqn:Hr; [|done]. intros [= <- <-].
    rewrite take_messages_front, (front_app b c m r' Hf).
    apply front_shorter in Hf. rewrite (IH _ Hf r' ms' eq_refl Hr).
    by destruct (take_messages (l ++ c)) as [[??]|].
  - done.
Qed.

Lemma take_messages_waits b ms r : take_messages b = Some (ms, r) → front r = Wait.
Proof.
  remember (length b) as n eqn:Hn. revert b ms Hn.
  induction n as [n IH] using lt_wf_ind. intros b ms ->. rewrite take_messages_front.
  destruct (front b) as [|m r'|] eqn:Hf; [by intros [= <- <-]| |done].
  destruct (take_messages r') as [[ms' l]|] eqn:Hr; [|done]. intros [= <- <-].
  apply front_shorter in Hf. by eapply (IH _ Hf r' ms').
Qed.

(** ** Decoding what is encoded *)

Lemma slice_mid x y z : slice (x ++ y ++ z) (size x) (size x + size y) = Some y.
Proof.
  pose proof (size_nonneg x). pose proof (size_nonneg y). pose proof (size_nonneg z).
  rewrite slice_Some by (rewrite ?size_app; lia). f_equal.
  replace (Z.to_nat (size x)) with (length x) by (unfold size; lia).
  rewrite drop_app_length. apply take_app_length'. unfold size. lia.
Qed.

Lemma from_mid x z : from (x ++ z) (size x) = Some z.
Proof.
  pose proof (size_nonneg x). pose proof (size_nonneg z).
  rewrite from_Some by (rewrite size_app; lia). f_equal.
  replace (Z.to_nat (size x)) with (length x) by (unfold size; lia). apply drop_app_length.
Qed.

Lemma byte_mid x c z : byte (x ++ c :: z) (size x) = Some (Str.code c).
Proof.
  unfold byte. replace (Z.to_nat (size x)) with (length x) by (unfold size; lia).
  by rewrite list_lookup_middle.
Qed.

Lemma be_code n i : 0 ≤ n →
  Str.code (ascii_of_N (Z.to_N (Z.land (Z.shiftr n (8 * Z.of_nat i)) 255))) =
  (n / 2 ^ (8 * Z.of_nat i)) mod 256.
Proof. intros H. apply Sticky.byte_of_len; lia. Qed.

Lemma be_size k n : size (to_be_bytes k n) = Z.of_nat k.
Proof. unfold size, to_be_bytes. by rewrite length_map, length_rev, length_seq. Qed.

Lemma u16_be x n z : 0 ≤ n < 65536 → u16_at (x ++ to_be_bytes 2 n ++ z) (size x) = Some n.
Proof.
  intros H. unfold u16_at, to_be_bytes. cbn [seq rev map app].
  rewrite byte_mid. replace (size x + 1) with (size (x ++ ["000"%char])) by (rewrite size_app; done).
  match goal with |- context [byte (x ++ ?a :: ?b :: z) _] =>
    change (x ++ a :: b :: z) with (x ++ [a] ++ b :: z); rewrite (app_assoc x [a]);
    replace (size (x ++ ["000"%char])) with (size (x ++ [a])) by (rewrite !size_app; done) end.
  rewrite byte_mid, !be_code by lia. f_equal. change (2 ^ (8 * Z.of_nat 1)) with 256.
  change (2 ^ (8 * Z.of_nat 0)) with 1. rewrite Z.div_1_r.
  pose proof (Z.div_mod n 256). rewrite (Z.mod_small (n / 256)); [lia|].
  split; [apply Z.div_pos; lia|apply Z.div_lt_upper_bound; lia].
Qed.

Lemma be4 n : 0 ≤ n → to_be_bytes 4 n = to_be_bytes 2 (n / 65536) ++ to_be_bytes 2 (n mod 65536).
Proof.
  intros H. unfold to_be_bytes. cbn [seq rev map app].
  assert (∀ a b, 0 ≤ a → 0 ≤ b → ∀ i j, (a / 2 ^ (8 * Z.of_nat i)) mod 256 = (b / 2 ^ (8 * Z.of_nat j)) mod 256 →
    ascii_of_N (Z.to_N (Z.land (Z.shiftr a (8 * Z.of_nat i)) 255)) =
    ascii_of_N (Z.to_N (Z.land (Z.shiftr b (8 * Z.of_nat j)) 255))) as Heq.
  { intros a b Ha Hb i j Hc. apply Str.code_inj. by rewrite !be_code. }
  assert (0 ≤ n / 65536) by (apply Z.div_pos; lia). pose proof (Z.mod_pos_bound n 65536 ltac:(lia)).
  change 65536 with (256 * 256) in *.
  apply (f_equal2 (@cons ascii)); [apply Heq; [lia|lia|]|
   apply (f_equal2 (@cons ascii)); [apply Heq; [lia|lia|]|
   apply (f_equal2 (@cons ascii)); [apply Heq; [lia|lia|]|
   apply (f_equal2 (@cons ascii)); [apply Heq; [lia|lia|]|done]]]].
  all: change (2 ^ (8 * Z.of_nat 3)) with (256 * 256 * 256);
    change (2 ^ (8 * Z.of_nat 2)) with (256 * 256); change (2 ^ (8 * Z.of_nat 1)) with 256;
    change (2 ^ (8 * Z.of_nat 0)) with 1; rewrite ?Z.div_1_r.
  - by rewrite <- Z.div_div by lia.
  - done.
  - rewrite Z.rem_mul_r by lia. rewrite Z.mul_comm, Z.div_add by lia.
    rewrite (Z.div_small (n mod 256)) by (apply Z.mod_pos_bound; lia). by rewrite Z.add_0_l, Z.mod_mod by lia.
  - rewrite Z.rem_mul_r by lia. rewrite Z.mul_comm, Z.mod_add by lia. by rewrite Z.mod_mod by lia.
Qed.

Lemma u32_be x n z : 0 ≤ n ≤ U32_MAX → u32_at (x ++ to_be_bytes 4 n ++ z) (size x) = Some n.
Proof.
  intros H. unfold U32_MAX in H. rewrite be4, <- app_assoc by lia. unfold u32_at.
  assert (0 ≤ n / 65536 < 65536) by (split; [apply Z.div_pos|apply Z.div_lt_upper_bound]; lia).
  pose proof (Z.mod_pos_bound n 65536 ltac:(lia)).
  rewrite u16_be by done. rewrite app_assoc.
  replace (size x + 2) with (size (x ++ to_be_bytes 2 (n / 65536))) by (rewrite size_app, be_size; lia).
  rewrite u16_be by done. f_equal. pose proof (Z.div_mod n 65536). lia.
Qed.

(** The headers a list of them comes to: the last of a name counts. *)
Definition headers_of (hs : list (string * string)) (h : Headers) : Headers :=
  fold_left (fun h nv => set_header nv.1 (Some nv.2) h) hs h.

Definition readable (hs : list (string * string)) : Prop :=
  ∀ n v, In (n, v) hs → from_utf8_lossy (Str.bytes n) = n ∧ from_utf8_lossy (Str.bytes v) = v.

Lemma size_bytes s : size (Str.bytes s) = Str.len s.
Proof. by rewrite Str.len_bytes. Qed.

Lemma parse_one n v b rest fuel h :
  encode_header (n, v) = Some b →
  from_utf8_lossy (Str.bytes n) = n → from_utf8_lossy (Str.bytes v) = v →
  parse_headers_loop (S fuel) (b ++ rest) h =
  parse_headers_loop fuel rest (set_header n (Some v) h).
Proof.
  unfold encode_header. destruct (_ || _) eqn:Hlen; [done|]. bool_to_prop.
  set (ln := to_be_bytes 1 (Str.len n)). set (lv := to_be_bytes 2 (Str.len v)).
  intros Henc Hn Hv. assert (b = ln ++ Str.bytes n ++ ["007"%char] ++ lv ++ Str.bytes v) as Hb
    by congruence. clear Henc.
  pose proof (Str.len_nonneg n) as Pn. pose proof (Str.len_nonneg v) as Pv.
  pose proof (size_nonneg rest) as Pr. cbn [parse_headers_loop].
  assert (size ln = 1) as Sn by apply be_size. assert (size lv = 2) as Sv by apply be_size.
  assert (b ++ rest = ln ++ Str.bytes n ++ "007"%char :: lv ++ Str.bytes v ++ rest) as Hall
    by (rewrite Hb; by rewrite <- !app_assoc).
  clear Hb. revert Hall. generalize (b ++ rest). clear b. intros b Hb.
  assert (size b = 1 + Str.len n + 1 + 2 + Str.len v + size rest) as Hsize.
  { rewrite Hb. change ("007"%char :: lv ++ Str.bytes v ++ rest) with (["007"%char] ++ lv ++ Str.bytes v ++ rest).
    rewrite !size_app, !size_bytes, Sn, Sv. change (size ["007"%char]) with 1. lia. }
  rewrite (proj2 (Z.ltb_ge (size b) 2)) by lia.
  assert (byte b 0 = Some (Str.len n)) as ->.
  { rewrite Hb. unfold ln, to_be_bytes. cbn [seq rev map app].
    etransitivity; [apply (byte_mid [])|]. rewrite be_code by lia. f_equal.
    change (2 ^ (8 * Z.of_nat 0)) with 1. rewrite Z.div_1_r. apply Z.mod_small. lia. }
  rewrite (proj2 (Z.ltb_ge (size b) (1 + Str.len n + 1))) by lia.
  assert (slice b 1 (Str.len n + 1) = Some (Str.bytes n)) as ->.
  { rewrite Hb, <- Sn, <- size_bytes, Z.add_comm. apply slice_mid. }
  assert (byte b (1 + Str.len n) = Some 7) as ->.
  { rewrite Hb, app_assoc, <- Sn, <- size_bytes, <- size_app. apply byte_mid. }
  assert (from b (1 + Str.len n + 1) = Some (lv ++ Str.bytes v ++ rest)) as ->.
  { rewrite Hb.
    change ("007"%char :: lv ++ Str.bytes v ++ rest) with (["007"%char] ++ lv ++ Str.bytes v ++ rest).
    rewrite !app_assoc, <- (app_assoc _ lv), <- (app_assoc _ (lv ++ _)).
    replace (1 + Str.len n + 1) with (size ((ln ++ Str.bytes n) ++ ["007"%char]))
      by (rewrite !size_app, size_bytes, Sn; done).
    rewrite from_mid. by rewrite <- !app_assoc. }
  unfold header_value. change (7 <=? 1) with false. change (7 =? 2) with false.
  change (7 <=? 5) with false. change (7 <=? 7) with true. change (7 =? 7) with true. cbv iota.
  rewrite !size_app, size_bytes, Sv. rewrite (proj2 (Z.ltb_ge (2 + (Str.len v + size rest)) 2)) by lia.
  pose proof (u16_be [] (Str.len v) (Str.bytes v ++ rest)) as Hu. cbn [app] in Hu.
  change (size []) with 0 in Hu. fold lv in Hu. rewrite Hu by lia.
  rewrite (proj2 (Z.ltb_ge (2 + (Str.len v + size rest)) (2 + Str.len v))) by lia.
  rewrite <- Sv, <- size_bytes, slice_mid, <- size_app, app_assoc, from_mid.
  by rewrite Hn, Hv.
Qed.

Lemma parse_encoded hs block fuel h :
  encode_headers hs = Some block → readable hs → (length block ≤ fuel)%nat →
  parse_headers_loop fuel block h = Some (headers_of hs h).
Proof.
  revert block fuel h; induction hs as [|[n v] hs IH]; intros block fuel h; cbn [encode_headers].
  - intros [= <-] _ _. by destruct fuel.
  - destruct (encode_header (n, v)) as [b|] eqn:Hb; [|done].
    destruct (encode_headers hs) as [bs|]; [|done]. intros [= <-] Hr Hf.
    assert (1 ≤ length b)%nat as H1.
    { unfold encode_header in Hb. case_match; [done|]. injection Hb as <-. cbn. lia. }
    rewrite length_app in Hf. destruct fuel as [|fuel]; [lia|].
    destruct (Hr n v) as [Hn Hv]; [by left|]. rewrite (parse_one n v b bs) by done.
    apply IH; [done| |lia]. intros n' v' Hin. apply Hr. by right.
Qed.

Lemma front_encoded hs payload out rest :
  encode hs payload = Some out → readable hs → size out ≤ MAX_MESSAGE_LEN →
  front (out ++ rest) =
    Message {| frame_headers := headers_of hs no_headers; frame_payload := payload |} rest.
Proof.
  unfold encode. destruct (encode_headers hs) as [block|] eqn:Hb; [|done].
  set (total := OVERHEAD + size block + size payload).
  set (lt := to_be_bytes 4 total). set (lh := to_be_bytes 4 (size block)).
  set (c1 := to_be_bytes 4 (crc32 _)).
  destruct (Z.ltb_spec U32_MAX total) as [|Htot]; [done|].
  set (c2 := to_be_bytes 4 (crc32 _)). intros Hout Hr Hmax.
  assert (size c1 = 4 ∧ size c2 = 4) as [S1 S2] by (split; apply be_size).
  assert (size lt = 4 ∧ size lh = 4) as [St Sh] by (split; apply be_size).
  apply (inj Some) in Hout. clearbody c1 c2. rewrite <- !app_assoc in Hout.
  pose proof (size_nonneg block). pose proof (size_nonneg payload). pose proof (size_nonneg rest).
  assert (size out = total) as Hsize.
  { rewrite <- Hout, !size_app, St, Sh, S1, S2. unfold total, OVERHEAD, PRELUDE_LEN. lia. }
  assert (out ++ rest = (lt ++ lh ++ c1) ++ block ++ payload ++ c2 ++ rest) as Ho
    by (rewrite <- Hout; by rewrite <- !app_assoc).
  assert (size (lt ++ lh ++ c1) = PRELUDE_LEN) as Hp by (rewrite !size_app, St, Sh, S1; done).
  assert (OVERHEAD ≤ total ∧ size block ≤ total - OVERHEAD) as [Hlow Hblock] by (unfold total; lia).
  unfold OVERHEAD in Hlow. unfold front. rewrite (size_app out), Hsize.
  rewrite (proj2 (Z.ltb_ge _ _)) by lia.
  assert (u32_at (out ++ rest) 0 = Some total) as ->.
  { rewrite Ho, <- !app_assoc. apply (u32_be [] total). unfold PRELUDE_LEN in *. lia. }
  assert (u32_at (out ++ rest) 4 = Some (size block)) as ->.
  { rewrite Ho, <- !app_assoc, <- St. apply u32_be. unfold OVERHEAD, PRELUDE_LEN in *. lia. }
  assert (malformed total (size block) = false) as ->.
  { unfold malformed. rewrite !(proj2 (Z.leb_le _ _)), (proj2 (Z.ltb_ge _ _)); [done|..];
      unfold OVERHEAD in *; lia. }
  rewrite (proj2 (Z.ltb_ge _ _)) by lia.
  assert (slice (out ++ rest) PRELUDE_LEN (PRELUDE_LEN + size block) = Some block) as ->
    by (rewrite Ho, <- Hp; apply slice_mid).
  assert (slice (out ++ rest) (PRELUDE_LEN + size block) (total - 4) = Some payload) as ->.
  { rewrite Ho, app_assoc, <- Hp, <- size_app.
    replace (total - 4) with (size ((lt ++ lh ++ c1) ++ block) + size payload); [apply slice_mid|].
    rewrite size_app, Hp. unfold total, OVERHEAD. lia. }
  rewrite <- Hsize, from_mid. unfold parse_headers.
  by rewrite (parse_encoded hs block _ no_headers Hb Hr) by done.
Qed.

(** Messages as they were sent, and what the reader makes of them. *)
Definition framed (m : list (string * string) * list ascii) (out : list ascii) : Prop :=
  encode m.1 m.2 = Some out ∧ size out ≤ MAX_MESSAGE_LEN ∧
  ∀ n v, In (n, v) m.1 → Utf8.valid (Str.bytes n) = true ∧ Utf8.valid (Str.bytes v) = true.

Definition read_back (m : list (string * string) * list ascii) : Frame :=
  {| frame_headers := headers_of m.1 no_headers; frame_payload := m.2 |}.

(** Messages framed as AWS frames them come back as they were sent,
    however many arrive together and whatever has arrived of the next: each
    payload byte for byte, each header the reader knows with its last value,
    in order, and the bytes after the last whole message left for later. *)
Theorem frames_roundtrip sent outs rest :
  (∀ b, Utf8.valid b = true → from_utf8_lossy b = Str.of_bytes b) → Forall2 framed sent outs →
  take_messages (List.concat outs ++ rest) =
  match take_messages rest with
  | Some (ms, left_over) => Some (map read_back sent ++ ms, left_over)
  | None => None
  end.
Proof.
  intros Hl. induction 1 as [|m out sent outs (He & Hm & Hv) _ IH]; cbn [List.concat map app].
  { by destruct (take_messages rest) as [[??]|]. }
  assert (readable m.1) as Hr.
  { intros n v Hin. destruct (Hv n v Hin). by rewrite !Hl, !Str.of_bytes_bytes. }
  rewrite <- app_assoc, take_messages_front.
  rewrite (front_encoded m.1 m.2 out) by done. cbv beta iota. rewrite IH.
  by destruct (take_messages rest) as [[??]|].
Qed.

(** A prelude no message can have, at the front of a buffer. *)
Definition corrupt (b : list ascii) : Prop :=
  ∃ total hl, u32_at b 0 = Some total ∧ u32_at b 4 = Some hl ∧ malformed total hl = true.

Lemma front_wait b : front b = Wait → size b < MAX_MESSAGE_LEN ∨ corrupt b.
Proof.
  unfold front. destruct (Z.ltb_spec (size b) PRELUDE_LEN) as [|Hp].
  { left. unfold PRELUDE_LEN, MAX_MESSAGE_LEN in *. lia. }
  unfold PRELUDE_LEN in *.
  destruct (u32_at_Some b 0) as (total & Ht & ?); [lia|lia|].
  destruct (u32_at_Some b 4) as (hl & Hh & ?); [lia|lia|]. rewrite Ht, Hh.
  destruct (malformed total hl) eqn:Hm; [right; by exists total, hl|]. unfold malformed in Hm. bool_to_prop.
  destruct (Z.ltb_spec (size b) total); [left; lia|]. by repeat case_match.
Qed.

(** The binary reader is safe on any bytes at all: no read is out of range,
    it comes to an end, every byte is in a message or left over in order, and
    what is left over is less than one message of the format's largest size,
    unless it begins with lengths no message can have -- so a stream cannot
    make it wait for a message that will not come. *)
Theorem reader_is_safe buf :
  ∃ ms left_over, take_messages buf = Some (ms, left_over) ∧
    (∃ taken, buf = taken ++ left_over ∧ OVERHEAD * Z.of_nat (length ms) ≤ size taken) ∧
    front left_over = Wait ∧ (size left_over < MAX_MESSAGE_LEN ∨ corrupt left_over).
Proof.
  remember (length buf) as n eqn:Hn. revert buf Hn.
  induction n as [n IH] using lt_wf_ind. intros buf ->. rewrite take_messages_front.
  destruct (front_spec buf) as [Hf|(m & total & Hf & Ht & Hs)]; rewrite Hf.
  - exists [], buf. split_and!; [done|by exists []|done|by apply front_wait].
  - pose proof (front_shorter _ _ _ Hf) as Hlt.
    destruct (IH _ Hlt _ eq_refl) as (ms & l & -> & (taken & Hb & Hsz) & Hw & Hl).
    exists (m :: ms), l. split_and!; [done| |done|done].
    exists (List.firstn (Z.to_nat total) buf ++ taken).
    rewrite <- app_assoc, <- Hb, firstn_skipn. split; [done|]. rewrite size_app. cbn [length].
    unfold size in *. rewrite length_firstn. unfold OVERHEAD, PRELUDE_LEN in *. lia.
Qed.

End text.
End EventStream.

Module SseFrames.

(** The [\n] at [i] ends a blank line. *)
Definition breaks_at (buf : list ascii) (i : nat) : bool :=
  bool_decide (buf !! i = Some "010"%char) &&
  (bool_decide (buf !! (i - 1)%nat = Some "010"%char)
   || Nat.leb 2 i && bool_decide (buf !! (i - 1)%nat = Some "013"%char)
      && bool_decide (buf !! (i - 2)%nat = Some "010"%char)).

Definition last_blank_line (buf : list ascii) : option nat :=
  find (breaks_at buf) (rev (seq 1 (length buf - 1))).

(** [str::lines]: [\n] and [\r\n] end a line; what follows the last is a line
    of its own if there is any. *)
Definition strip_cr (l : list ascii) : list ascii :=
  match rev l with "013"%char :: r => rev r | _ => l end.

Fixpoint lines_from (line : list ascii) (l : list ascii) : list (list ascii) :=
  match l with
  | [] => match line with [] => [] | _ => [line] end
  | c :: l =>
      if Ascii.eqb c "010"%char then strip_cr line :: lines_from [] l
      else lines_from (line ++ [c]) l
  end.

Definition lines (l : list ascii) : list string := map Str.of_bytes (lines_from [] l).

(** What a line carries. *)
Definition data_of (line : string) : option string :=
  match Str.strip_prefix line "data:" with
  | Some rest =>
      let p := Str.trim rest in
      if Str.is_empty p || Str.eqb p "[DONE]" then None else Some p
  | None => None
  end.

Definition payloads (text : list ascii) : list string := filter_map data_of (lines text).

Definition take_sse_payloads (buf : list ascii) : list string * list ascii :=
  match last_blank_line buf with
  | None => ([], buf)
  | Some idx =>
      let complete := List.firstn (S idx) buf in
      let rest := List.skipn (S idx) buf in
      (if Utf8.valid complete then payloads complete else [], rest)
  end.

(** ** Cutting at a newline *)

Abbreviation LF := ("010"%char).
Abbreviation CR := ("013"%char).

Definition due_ok (due : option (Z * Z * nat)) : Prop :=
  match due with Some (lo, _, _) => 128 ≤ lo | None => True end.

Lemma after_first_ok c due : Utf8.after_first c = Some due → due_ok due.
Proof.
  unfold Utf8.after_first. intros H. repeat (case_match; [injection H as <-; cbn; lia|]). done.
Qed.

Lemma valid_cut due a b : due_ok due →
  Utf8.valid_from due (a ++ LF :: b) = Utf8.valid_from due (a ++ [LF]) && Utf8.valid_from None b.
Proof.
  revert due; induction a as [|c a IH]; intros [[[lo hi] k]|] Hd; cbn [app Utf8.valid_from].
  - unfold Str.in_span. cbn in Hd. rewrite (proj2 (Z.leb_gt lo (Str.code LF))); [done|].
    change (Str.code LF) with 10. lia.
  - done.
  - destruct (Str.in_span lo hi c); [|done]. cbn [andb]. apply IH. destruct k; [done|cbn; lia].
  - destruct (Utf8.after_first c) eqn:H; [|done]. apply IH. by eapply after_first_ok.
Qed.

(** Nothing, or text that ends in a newline. *)
Definition whole_lines (x : list ascii) : Prop := x = [] ∨ ∃ a, x = a ++ [LF].

Lemma valid_app x b : whole_lines x → Utf8.valid (x ++ b) = Utf8.valid x && Utf8.valid b.
Proof.
  intros [->|(a & ->)]; [done|]. rewrite <- app_assoc. by apply (valid_cut None a b).
Qed.

Lemma lines_cut line a b :
  lines_from line (a ++ LF :: b) = lines_from line (a ++ [LF]) ++ lines_from [] b.
Proof.
  revert line; induction a as [|c a IH]; intros line; cbn [app lines_from]; [done|].
  case_match; [cbn [app]; by rewrite IH|apply IH].
Qed.

Lemma payloads_app x b : whole_lines x → payloads (x ++ b) = payloads x ++ payloads b.
Proof.
  assert (∀ (l l' : list string), filter_map data_of (l ++ l') = filter_map data_of l ++ filter_map data_of l')
    as Hf by (induction l as [|y l IH]; intros l'; cbn; [done|]; destruct (data_of y); cbn; by rewrite IH).
  intros [->|(a & ->)]; [done|]. unfold payloads, lines.
  by rewrite <- app_assoc; cbn [app]; rewrite lines_cut, map_app, Hf.
Qed.

Definition only_breaks (l : list ascii) : Prop := Forall (fun c => c = LF ∨ c = CR) l.

Lemma strip_cr_cr l : Forall (fun c => c = CR) l → Forall (fun c => c = CR) (strip_cr l).
Proof.
  intros H. unfold strip_cr. destruct (rev l) as [|c r] eqn:Hr; [done|].
  assert (Forall (fun c => c = CR) (rev r)).
  { apply Forall_rev in H. rewrite Hr in H. inversion H; subst. by apply Forall_rev. }
  repeat case_match; done.
Qed.

Lemma payloads_breaks e : only_breaks e → payloads e = [].
Proof.
  assert (∀ line, Forall (fun c => c = CR) line → data_of (Str.of_bytes line) = None) as Hl.
  { intros [|c line] H; [done|]. by inversion H; subst. }
  assert (∀ line, only_breaks e → Forall (fun c => c = CR) line →
    filter_map data_of (map Str.of_bytes (lines_from line e)) = []) as H.
  { induction e as [|c e IH]; intros line He Hline; cbn [lines_from].
    - destruct line; [done|]. cbn [map filter_map]. by rewrite Hl.
    - inversion He as [|? ? Hc He']; subst. destruct (Ascii.eqb_spec c LF) as [->|Hne].
      + cbn [map filter_map]. rewrite Hl by by apply strip_cr_cr. by apply IH.
      + destruct Hc as [->| ->]; [done|]. apply IH; [done|].
        apply Forall_app. split; [done|]. by repeat constructor. }
  intros He. by apply H.
Qed.

(** ** Where blank lines end *)

Lemma last_blank_line_spec buf :
  match last_blank_line buf with
  | Some i => (1 ≤ i < length buf)%nat ∧ breaks_at buf i = true ∧
      ∀ j, (i < j < length buf)%nat → breaks_at buf j = false
  | None => ∀ j, (1 ≤ j < length buf)%nat → breaks_at buf j = false
  end.
Proof.
  unfold last_blank_line. set (n := (length buf - 1)%nat).
  assert (∀ j, (1 ≤ j < length buf)%nat ↔ (1 ≤ j ≤ n)%nat) as Hn by (unfold n; lia).
  assert (match find (breaks_at buf) (rev (seq 1 n)) with
    | Some i => (1 ≤ i ≤ n)%nat ∧ breaks_at buf i = true ∧
        ∀ j, (i < j ≤ n)%nat → breaks_at buf j = false
    | None => ∀ j, (1 ≤ j ≤ n)%nat → breaks_at buf j = false
    end) as H.
  { clear Hn. clearbody n. induction n as [|n IH]; [cbn; lia|].
    rewrite seq_S, rev_app_distr. cbn [rev app]. change (1 + n)%nat with (S n).
    simpl find.
    destruct (breaks_at buf (S n)) eqn:Hb; cbv iota; [split; [lia|split; [done|intros j ?; lia]]|].
    destruct (find _ _) as [i|].
    - destruct IH as (? & ? & Hj). split; [lia|]. split; [done|]. intros j Hj'.
      destruct (decide (j = S n)) as [->|]; [done|apply Hj; lia].
    - intros j Hj. destruct (decide (j = S n)) as [->|]; [done|apply IH; lia]. }
  destruct (find _ _) as [i|].
  - destruct H as (? & ? & Hj). split; [lia|]. split; [done|]. intros j ?. apply Hj. lia.
  - intros j ?. apply H. lia.
Qed.

Lemma breaks_lf buf i : breaks_at buf i = true → buf !! i = Some LF.
Proof. unfold breaks_at. intros [H _]%andb_true_iff. by apply bool_decide_eq_true in H. Qed.

Lemma breaks_right w c j : (j < length w)%nat → breaks_at (w ++ c) j = breaks_at w j.
Proof. intros H. unfold breaks_at. by rewrite !lookup_app_l by lia. Qed.

Lemma lookup_past (x r : list ascii) i : (x ++ r) !! (length x + i)%nat = r !! i.
Proof. rewrite lookup_app_r by lia. f_equal. lia. Qed.

(** A break of a tail is one of the whole; one of the whole beyond the tail's
    second byte is one of the tail. *)
Lemma breaks_tail x r i :
  (1 ≤ i)%nat → breaks_at r i = true → breaks_at (x ++ r) (length x + i) = true.
Proof.
  intros Hi. unfold breaks_at.
  replace (length x + i - 1)%nat with (length x + (i - 1))%nat by lia.
  rewrite !lookup_past, !andb_true_iff, !orb_true_iff, !andb_true_iff, !bool_decide_eq_true.
  intros [H1 H2]. split; [done|]. destruct H2 as [H2|[[H2 H3] H4]]; [by left|right].
  apply Nat.leb_le in H2.
  replace (length x + i - 2)%nat with (length x + (i - 2))%nat by lia. rewrite lookup_past.
  split_and!; [apply Nat.leb_le; lia|done|done].
Qed.

Lemma breaks_crossing x r i :
  breaks_at (x ++ r) (length x + i) = true →
  r !! i = Some LF ∧
  ((1 ≤ i)%nat ∧ breaks_at r i = true ∨ i = 0%nat ∨ i = 1%nat ∧ r !! 0%nat = Some CR).
Proof.
  intros H. pose proof (breaks_lf _ _ H) as Hlf. rewrite lookup_past in Hlf. split; [done|].
  destruct i as [|i]; [auto|]. revert H. unfold breaks_at.
  replace (length x + S i - 1)%nat with (length x + i)%nat by lia.
  rewrite !lookup_past, Hlf, bool_decide_eq_true_2 by done. cbn [andb].
  replace (S i - 1)%nat with i by lia.
  destruct (bool_decide (r !! i = Some LF)); [auto with lia|]. cbn [orb].
  rewrite !andb_true_iff, !bool_decide_eq_true. intros [[_ Hcr] H2].
  destruct i as [|i]; [auto|]. left. split; [lia|].
  replace (length x + S (S i) - 2)%nat with (length x + i)%nat in H2 by lia.
  rewrite lookup_past in H2. replace (S (S i) - 2)%nat with i by lia. done.
Qed.

(** ** Reading in pieces *)

(** What a text read all at once comes to. *)
Definition emitted (whole : list ascii) : list string :=
  match last_blank_line whole with
  | Some j => payloads (List.firstn (S j) whole)
  | None => []
  end.

(** [x] has been taken of [whole] and [r] is left: nothing after [x] but blank
    lines is complete. *)
Record cut (whole x r : list ascii) : Prop := {
  cut_app : whole = x ++ r;
  cut_lines : whole_lines x;
  cut_break : x = [] ∨ breaks_at whole (length x - 1) = true ∧ (2 ≤ length x)%nat;
  cut_rest : ∀ j, (j < length r)%nat → breaks_at whole (length x + j) = true →
    only_breaks (List.firstn (S j) r)
}.

Lemma cut_nothing : cut [] [] [].
Proof. split; [done|by left|by left|cbn; lia]. Qed.

(** The complete part of a buffer, and what is left of it. *)
Lemma take_sse_cut r :
  ∃ y r2, r = y ++ r2 ∧ whole_lines y ∧
    take_sse_payloads r = (if Utf8.valid y then payloads y else [], r2) ∧
    (y = [] ∨ (2 ≤ length y)%nat ∧ breaks_at r (length y - 1) = true) ∧
    ∀ j, (length y ≤ j)%nat → (1 ≤ j < length r)%nat → breaks_at r j = false.
Proof.
  unfold take_sse_payloads. pose proof (last_blank_line_spec r) as H.
  destruct (last_blank_line r) as [i|].
  2: { exists [], r. split_and!; [done|by left|done|by left|]. intros j _ Hj. by apply H. }
  destruct H as (Hi & Hb & Hlast). exists (List.firstn (S i) r), (List.skipn (S i) r).
  assert (length (List.firstn (S i) r) = S i) as Hlen by (rewrite length_firstn; lia).
  split_and!; [by rewrite firstn_skipn| |done| |].
  - right. exists (List.firstn i r). apply breaks_lf in Hb. by apply take_S_r.
  - right. rewrite Hlen. replace (S i - 1)%nat with i by lia. split; [lia|done].
  - intros j Hj Hr. apply Hlast. lia.
Qed.

Lemma whole_lines_app x y : whole_lines x → whole_lines y → whole_lines (x ++ y).
Proof.
  intros Hx [->|(a & ->)]; [by rewrite app_nil_r|]. right. exists (x ++ a). by rewrite app_assoc.
Qed.

Lemma cut_step whole x r c :
  cut whole x r →
  ∃ y r2, cut (whole ++ c) (x ++ y) r2 ∧ r ++ c = y ++ r2 ∧ whole_lines y ∧
    take_sse_payloads (r ++ c) = (if Utf8.valid y then payloads y else [], r2).
Proof.
  intros [Hw Hx Hb _]. destruct (take_sse_cut (r ++ c)) as (y & r2 & Hr & Hy & Ht & Hyb & Hlast).
  exists y, r2. split; [|done].
  assert (whole ++ c = x ++ r ++ c) as Hwc by (by rewrite Hw, <- app_assoc).
  split.
  - by rewrite Hwc, Hr, app_assoc.
  - by apply whole_lines_app.
  - destruct Hyb as [->|[Hy2 Hyb]].
    + rewrite app_nil_r. destruct Hb as [->|[Hb Hlen]]; [by left|right]. split; [|done].
      rewrite breaks_right; [done|]. rewrite Hw, length_app. lia.
    + right. rewrite length_app. split; [|lia]. rewrite Hwc.
      replace (length x + length y - 1)%nat with (length x + (length y - 1))%nat by lia.
      apply breaks_tail; [lia|done].
  - intros j Hj Hbj. rewrite Hwc, length_app, <- Nat.add_assoc in Hbj.
    apply breaks_crossing in Hbj as [Hlf Hbj].
    assert (length (r ++ c) = length y + length r2)%nat as Hl by (by rewrite Hr, length_app).
    destruct Hbj as [[H1 Hbj]|[H0|[H1 Hcr]]].
    + rewrite Hlast in Hbj by lia. done.
    + assert (y = []) as -> by (destruct y; [done|cbn in H0; lia]). cbn in H0. subst j.
      cbn [app] in Hr. rewrite Hr in Hlf. destruct r2 as [|a r2]; [done|].
      injection Hlf as ->. repeat constructor.
    + destruct Hyb as [->|[Hy2 _]]; [|lia]. cbn in H1. subst j. cbn [app] in Hr.
      rewrite Hr in Hlf, Hcr. destruct r2 as [|a [|b r2]]; [done..|].
      cbn in Hlf, Hcr. simplify_eq. repeat (constructor; [auto|]). constructor.
Qed.

Lemma cut_emitted whole x r : cut whole x r → emitted whole = payloads x.
Proof.
  intros [Hw Hx Hb Hr]. unfold emitted. pose proof (last_blank_line_spec whole) as H.
  assert (length whole = length x + length r)%nat as Hlen by (by rewrite Hw, length_app).
  destruct (last_blank_line whole) as [j|].
  - destruct H as (Hj & Hbj & Hlast).
    assert (length x ≤ S j)%nat as Hle.
    { destruct Hb as [->|[Hb Hl]]; [cbn; lia|].
      destruct (decide (length x ≤ S j)%nat); [done|]. rewrite Hlast in Hb by lia. done. }
    rewrite Hw, firstn_app, firstn_all2 by lia.
    rewrite payloads_app by done. rewrite (payloads_breaks (List.firstn (S j - length x) r)); [by rewrite app_nil_r|].
    destruct (S j - length x)%nat as [|k] eqn:Hk; [constructor|].
    apply Hr; [lia|]. by replace (length x + k)%nat with j by lia.
  - destruct Hb as [->|[Hb Hl]]; [done|]. rewrite H in Hb by lia. done.
Qed.

(** ** What a renderer writes

    A block is what is written for one event: lines, then a blank one. *)
Definition block (b : list ascii) : Prop := ∃ a, b = a ++ [LF; LF].

Lemma block_lines b : block b → whole_lines b.
Proof. intros [a ->]. right. exists (a ++ [LF]). by rewrite <-app_assoc. Qed.

Lemma emitted_block b : block b → emitted b = payloads b.
Proof.
  intros [a ->]. unfold emitted. pose proof (last_blank_line_spec (a ++ [LF; LF])) as H.
  assert (breaks_at (a ++ [LF; LF]) (S (length a)) = true) as Hb.
  { unfold breaks_at. replace (S (length a) - 1)%nat with (length a + 0)%nat by lia.
    assert ((a ++ [LF; LF]) !! S (length a) = Some LF) as ->.
    { replace (S (length a)) with (length a + 1)%nat by lia. by rewrite lookup_past. }
    by rewrite lookup_past. }
  rewrite length_app in H. cbn [length] in H. destruct (last_blank_line _) as [j|].
  - destruct H as (Hj & _ & Hlast). destruct (decide (j = S (length a))) as [->|].
    + rewrite firstn_all2; [done|]. rewrite length_app. cbn. lia.
    + rewrite Hlast in Hb by lia. done.
  - rewrite H in Hb by lia. done.
Qed.

Lemma blocks_block bs b : Forall block bs → block b → block (List.concat bs ++ b).
Proof. intros _ [a ->]. exists (List.concat bs ++ a). by rewrite <-app_assoc. Qed.

Lemma blocks_lines bs : Forall block bs → whole_lines (List.concat bs).
Proof.
  induction 1 as [|b bs Hb _ IH]; [by left|]. cbn [List.concat].
  apply whole_lines_app; [by apply block_lines|done].
Qed.

Lemma payloads_blocks bs b :
  Forall block bs → payloads (List.concat bs ++ b) = List.concat (map payloads bs) ++ payloads b.
Proof.
  induction 1 as [|x bs Hx _ IH]; [done|]. cbn [List.concat map]. rewrite <-!app_assoc.
  rewrite payloads_app by by apply block_lines. by rewrite IH.
Qed.

Lemma valid_blocks bs b :
  Forall block bs → Utf8.valid (List.concat bs ++ b) = all Utf8.valid bs && Utf8.valid b.
Proof.
  induction 1 as [|x bs Hx _ IH]; [done|]. cbn [List.concat]. rewrite <-!app_assoc.
  rewrite valid_app by by apply block_lines. rewrite IH. cbn. by rewrite andb_assoc.
Qed.

(** One line carries its text. *)
Lemma payloads_line t rest :
  ¬ In LF (Str.bytes t) → ¬ In CR (Str.bytes t) →
  payloads (Str.bytes t ++ LF :: rest) = option_list (data_of t) ++ payloads rest.
Proof.
  intros Hlf Hcr. assert (∀ line, lines_from line (Str.bytes t ++ LF :: rest) =
    strip_cr (line ++ Str.bytes t) :: lines_from [] rest) as Hl.
  { revert Hlf. clear. generalize (Str.bytes t) as l. induction l as [|c l IH]; intros H line; cbn [app lines_from].
    - by rewrite app_nil_r.
    - destruct (Ascii.eqb_spec c LF) as [->|]; [cbn in H; naive_solver|].
      rewrite IH by (cbn in H; naive_solver). by rewrite <-app_assoc. }
  unfold payloads, lines. rewrite Hl. cbn [map filter_map app].
  assert (strip_cr (Str.bytes t) = Str.bytes t) as ->.
  { unfold strip_cr. destruct (rev (Str.bytes t)) as [|c r] eqn:E; [done|].
    destruct (Ascii.eqb_spec c CR) as [->|Hc].
    - exfalso. apply Hcr, in_rev. rewrite E. by left.
    - destruct c as [[] [] [] [] [] [] [] []]; solve [reflexivity | by destruct Hc]. }
  rewrite Str.of_bytes_bytes. by destruct (data_of t).
Qed.

(** What is left over holds nothing complete. *)
Lemma left_over_waits r ps r2 : take_sse_payloads r = (ps, r2) → take_sse_payloads r2 = ([], r2).
Proof.
  intros Ht. destruct (take_sse_cut r) as (y & r2' & Hr & _ & Ht' & _ & Hlast).
  rewrite Ht' in Ht. injection Ht as _ ->. unfold take_sse_payloads.
  pose proof (last_blank_line_spec r2) as H. destruct (last_blank_line r2) as [j|]; [|done].
  destruct H as (Hj & Hb & _). exfalso.
  assert (breaks_at r (length y + j) = true) as Hc by (rewrite Hr; apply breaks_tail; [lia|done]).
  rewrite Hlast in Hc; [done|lia|]. rewrite Hr, length_app. lia.
Qed.

End SseFrames.

Module Frames.

Section frames.
Context (from_utf8_lossy : list ascii → string) (from_json : list ascii → option Json)
  (base64_decode : string → option (list ascii)).

Definition events (event : Frame → option EventStream.Payload) (buf : list ascii)
    : option (list EventStream.Payload * list ascii) :=
  match EventStream.take_messages from_utf8_lossy buf with
  | Some (ms, rest) => Some (filter_map event ms, rest)
  | None => None
  end.

(** [take_payloads]. *)
Definition take_payloads (framing : Framing) (buf : list ascii)
    : option (list EventStream.Payload * list ascii) :=
  match framing with
  | Sse =>
      let '(ps, rest) := SseFrames.take_sse_payloads buf in
      Some (map EventStream.Verbatim ps, rest)
  | AwsEventStream =>
      events (EventStream.inner_event from_utf8_lossy from_json base64_decode) buf
  | AwsConverseStream => events (EventStream.converse_event from_utf8_lossy from_json) buf
  end.

(** The reads of a connection, each appended to what the last left over. *)
Fixpoint reads (framing : Framing) (pending : list ascii) (chunks : list (list ascii))
    : option (list EventStream.Payload * list ascii) :=
  match chunks with
  | [] => Some ([], pending)
  | chunk :: chunks =>
      match take_payloads framing (pending ++ chunk) with
      | None => None
      | Some (ps, pending) =>
          match reads framing pending chunks with
          | None => None
          | Some (qs, pending) => Some (ps ++ qs, pending)
          end
      end
  end.

Lemma reads_sse chunks whole x r :
  SseFrames.cut whole x r → Utf8.valid (whole ++ List.concat chunks) = true →
  ∃ qs y pending, reads Sse r chunks = Some (map EventStream.Verbatim qs, pending) ∧
    SseFrames.cut (whole ++ List.concat chunks) y pending ∧
    SseFrames.payloads y = SseFrames.payloads x ++ qs ∧
    (chunks = [] → pending = r) ∧
    (chunks ≠ [] → SseFrames.take_sse_payloads pending = ([], pending)).
Proof.
  revert whole x r; induction chunks as [|c chunks IH]; intros whole x r Hcut Hv;
    cbn [List.concat reads take_payloads] in *.
  { exists [], x, r. rewrite !app_nil_r. done. }
  destruct (SseFrames.cut_step whole x r c Hcut) as (y & r2 & Hcut2 & Hr & Hy & Ht). rewrite Ht.
  rewrite app_assoc in Hv. destruct (IH (whole ++ c) (x ++ y) r2 Hcut2 Hv) as
    (qs & y2 & pending & Hreads & Hcutf & Hp & Hnil & Hcons).
  assert (Utf8.valid y = true) as Hvy.
  { destruct Hcut2 as [Hw _ _ _], Hcut as [_ Hx _ _].
    rewrite Hw, <- !app_assoc, SseFrames.valid_app in Hv by done.
    apply andb_true_iff in Hv as [_ Hv]. rewrite SseFrames.valid_app in Hv by done.
    by apply andb_true_iff in Hv as [? _]. }
  rewrite Hvy, Hreads. exists (SseFrames.payloads y ++ qs), y2, pending.
  rewrite map_app, app_assoc. split_and!; [done|done| |done|].
  - destruct Hcut as [_ Hx _ _]. by rewrite Hp, SseFrames.payloads_app, app_assoc by done.
  - intros _. destruct chunks as [|c' chunks]; [|by apply Hcons].
    rewrite Hnil by done. by apply (SseFrames.left_over_waits _ _ _ Ht).
Qed.

(** A text of blocks, however it is cut. *)
Lemma reads_blocks bs b chunks :
  Forall SseFrames.block bs → SseFrames.block b → all Utf8.valid (bs ++ [b]) = true →
  List.concat chunks = List.concat bs ++ b →
  ∃ pending, reads Sse [] chunks = Some
    (map EventStream.Verbatim (List.concat (map SseFrames.payloads bs) ++ SseFrames.payloads b), pending).
Proof.
  intros Hbs Hb Hv Hc.
  destruct (reads_sse chunks [] [] [] SseFrames.cut_nothing) as (qs & y & pending & Hr & Hcut & Hp & _).
  { cbn [app]. rewrite Hc, SseFrames.valid_blocks by done. unfold all in *.
    rewrite forallb_app in Hv. cbn in Hv. by rewrite andb_true_r in Hv. }
  exists pending. rewrite Hr. do 3 f_equal. cbn [app] in *.
  apply SseFrames.cut_emitted in Hcut. rewrite Hp in Hcut. cbn in Hcut. rewrite <-Hcut, Hc.
  rewrite SseFrames.emitted_block by by apply SseFrames.blocks_block. by apply SseFrames.payloads_blocks.
Qed.

Lemma reads_events framing event r chunks :
  (∀ b, take_payloads framing b = events event b) → EventStream.front from_utf8_lossy r = EventStream.Wait →
  reads framing r chunks = take_payloads framing (r ++ List.concat chunks) ∧
  ∃ ps pending, reads framing r chunks = Some (ps, pending) ∧
    EventStream.front from_utf8_lossy pending = EventStream.Wait.
Proof.
  intros Htake. assert (∀ (f : Frame → option EventStream.Payload) l l',
    filter_map f (l ++ l') = filter_map f l ++ filter_map f l') as Hf.
  { intros f l; induction l as [|y l IH]; intros l'; cbn; [done|]. destruct (f y); cbn; by rewrite IH. }
  revert r; induction chunks as [|c chunks IH]; intros r Hr; cbn [List.concat reads].
  - rewrite app_nil_r, Htake. unfold events. rewrite EventStream.take_messages_front, Hr.
    split; [done|]. by exists [], r.
  - destruct (EventStream.take_messages_total from_utf8_lossy (r ++ c)) as (ms & l & Hm).
    rewrite !Htake. unfold events at 1 3. rewrite Hm. rewrite app_assoc.
    destruct (IH l) as [Heq (ps & pending & Hreads & Hw)].
    { by apply (EventStream.take_messages_waits from_utf8_lossy (r ++ c) ms). }
    rewrite Hreads. split; [|by eexists _, _].
    rewrite Htake in Heq. unfold events in *.
    rewrite (EventStream.take_messages_app from_utf8_lossy (r ++ c) (List.concat chunks) ms l Hm).
    rewrite Hreads in Heq.
    destruct (EventStream.take_messages _ (l ++ List.concat chunks)) as [[qs l']|]; [|done].
    injection Heq as -> ->. by rewrite Hf.
Qed.

(** C40. How a connection cuts its bytes into reads changes nothing: under every
    framing, the payloads taken read by read are those the whole stream would
    give at once, and no read of them panics.  A text stream must be UTF-8 as a
    whole for it; each read of it need not be.  And after the last read nothing
    complete is left: taking once more from what is pending gives nothing. *)
Theorem chunking_irrelevant framing chunks :
  (framing = Sse → Utf8.valid (List.concat chunks) = true) → chunks ≠ [] →
  ∃ ps pending left_over, reads framing [] chunks = Some (ps, pending) ∧
    take_payloads framing (List.concat chunks) = Some (ps, left_over) ∧
    take_payloads framing pending = Some ([], pending).
Proof.
  intros Hv Hne.
  assert (∀ event, (∀ b, take_payloads framing b = events event b) →
    ∃ ps pending left_over, reads framing [] chunks = Some (ps, pending) ∧
      take_payloads framing (List.concat chunks) = Some (ps, left_over) ∧
      take_payloads framing pending = Some ([], pending)) as Hbin.
  { intros event Htake. destruct (reads_events framing event [] chunks Htake eq_refl) as
      [Heq (ps & pending & Hreads & Hw)].
    exists ps, pending, pending. split_and!; [done|exact (eq_trans (eq_sym Heq) Hreads)|].
    rewrite Htake. unfold events. by rewrite EventStream.take_messages_front, Hw. }
  destruct framing; [|by eapply Hbin..]. specialize (Hv eq_refl).
  destruct (reads_sse chunks [] [] [] SseFrames.cut_nothing Hv) as
    (qs & y & pending & Hreads & Hcut & Hp & _ & Hw). cbn [app] in *.
  pose proof (SseFrames.cut_emitted _ _ _ Hcut) as He. rewrite Hp in He.
  exists (map EventStream.Verbatim qs), pending. cbn [take_payloads]. rewrite (Hw Hne).
  destruct (SseFrames.take_sse_payloads (List.concat chunks)) as [ps l] eqn:Ht.
  exists l. split_and!; [done| |done]. do 3 f_equal.
  unfold SseFrames.take_sse_payloads in Ht. unfold SseFrames.emitted in He.
  pose proof (SseFrames.last_blank_line_spec (List.concat chunks)) as Hl.
  destruct (SseFrames.last_blank_line _) as [j|]; [|by injection Ht as <- _].
  injection Ht as <- _. destruct Hl as (_ & Hb & _). apply SseFrames.breaks_lf in Hb.
  rewrite <- (firstn_skipn (S j) (List.concat chunks)) in Hv.
  rewrite SseFrames.valid_app in Hv.
  - apply andb_true_iff in Hv as [-> _]. done.
  - right. exists (List.firstn j (List.concat chunks)). by apply take_S_r.
Qed.

End frames.

(** ** JSON texts on an event stream *)

(** What the renderers rely on of the package that prints and parses JSON: a
    printed value parses back, and is one line of UTF-8; an object's text runs
    from brace to brace. *)
Class JsonText (to_string : Json → string) (parse : string → option Json) : Prop := {
  text_parses v : parse (to_string v) = Some v;
  text_object fs : ∃ inner, to_string (JObject fs) = String "{" (inner +:+ "}");
  text_line v : ¬ In SseFrames.LF (Str.bytes (to_string v)) ∧ ¬ In SseFrames.CR (Str.bytes (to_string v));
  text_utf8 v : Utf8.valid (Str.bytes (to_string v)) = true
}.

Lemma valid_ascii l : Forall (fun c => Str.code c < 128) l → Utf8.valid l = true.
Proof.
  unfold Utf8.valid. induction 1 as [|c l Hc _ IH]; [done|]. cbn [Utf8.valid_from].
  unfold Utf8.after_first, Str.in_span at 1. pose proof (Str.code_range c).
  by rewrite !(proj2 (Z.leb_le _ _)) by lia.
Qed.

Lemma valid_then due a b : Utf8.valid_from due a = true → Utf8.valid_from due (a ++ b) = Utf8.valid b.
Proof.
  revert due; induction a as [|c a IH]; intros [[[lo hi] k]|]; cbn [app Utf8.valid_from]; try done.
  - intros [-> ?]%andb_true_iff. cbn. by apply IH.
  - destruct (Utf8.after_first c); [apply IH|done].
Qed.

Lemma binary_bytes p : Forall (fun c => c = "0"%char ∨ c = "1"%char ∨ c = "}"%char) (Str.bytes (Wire.binary p)).
Proof. induction p; cbn; (constructor; [auto|]); done. Qed.

Lemma binary_braced p : ∃ inner, Wire.binary p = inner +:+ "}".
Proof.
  induction p as [p [i H]|p [i H]|]; cbn; [exists (String "1" i)|exists (String "0" i)|by exists ""];
    by rewrite H.
Qed.

#[global] Instance a_text : JsonText Wire.a_printer Wire.a_parser.
Proof.
  split.
  - apply Wire.a_printer_parses.
  - intros fs. destruct (binary_braced (encode (Wire.json_tree (JObject fs)))) as [inner H].
    exists inner. unfold Wire.a_printer. by rewrite H.
  - intros v. pose proof (binary_bytes (encode (Wire.json_tree v))) as H. rewrite List.Forall_forall in H.
    split; intros [Hc|Hc%H]; try done; by repeat destruct Hc as [Hc|Hc].
  - intros v. apply valid_ascii. constructor; [done|].
    eapply List.Forall_impl; [|apply binary_bytes]. by intros c [-> | [-> | ->]].
Qed.

Section blocks.
Context `{JsonText to_string parse}.

(** A line [data: ...] of an object, and the blank line after it. *)
Definition data_block (fs : list (string * Json)) : string :=
  "data: " +:+ to_string (JObject fs) +:+ String "010" (String "010" "").

Lemma data_read fs : SseFrames.data_of ("data: " +:+ to_string (JObject fs)) = Some (to_string (JObject fs)).
Proof.
  destruct (text_object fs) as [inner ->]. unfold SseFrames.data_of.
  change (Str.strip_prefix _ "data:") with (Some (String " " (String "{" (inner +:+ "}")))).
  cbv iota. rewrite Str.trim_space by done. done.
Qed.

Lemma data_line fs :
  ¬ In SseFrames.LF (Str.bytes ("data: " +:+ to_string (JObject fs))) ∧
  ¬ In SseFrames.CR (Str.bytes ("data: " +:+ to_string (JObject fs))).
Proof.
  rewrite Str.bytes_app. destruct (text_line (JObject fs)) as [H1 H2].
  split; rewrite in_app_iff; intros [Hin|Hin]; try done; cbn in Hin; by repeat destruct Hin as [Hin|Hin].
Qed.

Lemma data_bytes fs :
  Str.bytes (data_block fs) = Str.bytes ("data: " +:+ to_string (JObject fs)) ++ [SseFrames.LF; SseFrames.LF].
Proof. unfold data_block. by rewrite <-Str.append_assoc, (Str.bytes_app (_ +:+ _)). Qed.

Lemma data_block_ok fs :
  SseFrames.block (Str.bytes (data_block fs)) ∧
  SseFrames.payloads (Str.bytes (data_block fs)) = [to_string (JObject fs)] ∧
  Utf8.valid (Str.bytes (data_block fs)) = true.
Proof.
  rewrite data_bytes. destruct (data_line fs) as [H1 H2]. split_and!; [by eexists| |].
  - by rewrite SseFrames.payloads_line, data_read.
  - rewrite Str.bytes_app, <-app_assoc. unfold Utf8.valid.
    rewrite valid_then by done. unfold Utf8.valid. by rewrite valid_then by apply text_utf8.
Qed.

(** The same under a line that names the event. *)
Definition plain_line (t : string) : bool :=
  all (fun c => (Str.code c <? 128) && negb (Ascii.eqb c SseFrames.LF || Ascii.eqb c SseFrames.CR)) (Str.bytes t).

Lemma plain_line_ok t :
  plain_line t = true →
  ¬ In SseFrames.LF (Str.bytes t) ∧ ¬ In SseFrames.CR (Str.bytes t) ∧ Utf8.valid (Str.bytes t) = true.
Proof.
  unfold plain_line. rewrite all_true. intros Ha. split; [|split].
  - intros Hc%Ha. by rewrite Ascii.eqb_refl, andb_false_r in Hc.
  - intros Hc%Ha. by rewrite Ascii.eqb_refl, orb_true_r, andb_false_r in Hc.
  - apply valid_ascii. apply List.Forall_forall. intros c [?%Z.ltb_lt _]%Ha%andb_true_iff. done.
Qed.

Definition event_block (name : string) (fs : list (string * Json)) : string :=
  "event: " +:+ name +:+ String "010" (data_block fs).

Lemma event_block_ok name fs :
  plain_line name = true →
  SseFrames.block (Str.bytes (event_block name fs)) ∧
  SseFrames.payloads (Str.bytes (event_block name fs)) = [to_string (JObject fs)] ∧
  Utf8.valid (Str.bytes (event_block name fs)) = true.
Proof.
  intros (Hl & Hc & Hv)%plain_line_ok. destruct (data_block_ok fs) as ([a Ha] & Hp & Hu).
  assert (Str.bytes (event_block name fs) =
    Str.bytes ("event: " +:+ name) ++ SseFrames.LF :: Str.bytes (data_block fs)) as E.
  { unfold event_block. by rewrite <-Str.append_assoc, (Str.bytes_app (_ +:+ _)). }
  assert (∀ c, In c (Str.bytes ("event: " +:+ name)) → In c (Str.bytes "event: ") ∨ In c (Str.bytes name)) as Hin.
  { intros c. by rewrite Str.bytes_app, in_app_iff. }
  rewrite E. split_and!.
  - exists (Str.bytes ("event: " +:+ name) ++ SseFrames.LF :: a). by rewrite Ha, <-app_assoc.
  - rewrite SseFrames.payloads_line, Hp; [done|..];
      (intros [Hx|Hx]%Hin; [cbn in Hx; by repeat destruct Hx as [Hx|Hx]|done]).
  - rewrite Str.bytes_app, <-app_assoc. unfold Utf8.valid. rewrite valid_then by done.
    unfold Utf8.valid in Hv |- *. rewrite valid_then by done.
    change (SseFrames.LF :: ?l) with ([SseFrames.LF] ++ l). unfold Utf8.valid. by rewrite valid_then.
Qed.
End blocks.
(** ** Streams for the witnesses *)

(** Five reads of one text: a blank line of [\r\n]s cut in two, a two-byte
    character cut in two, and a tail that never completes. *)
Definition chunks_example : list (list ascii) := [
  Str.bytes "data: {1}" ++ ["013"; "010"; "013"]%char;
  ["010"]%char ++ Str.bytes "event: x" ++ ["010"]%char ++ Str.bytes "data: caf" ++ ["195"]%char;
  ["169"; "010"]%char;
  ["010"; "010"]%char ++ Str.bytes "data: [DONE]" ++ ["010"; "010"]%char;
  Str.bytes "data: tail" ++ ["010"]%char ].

Lemma chunking_irrelevant_witness :
  ∃ ps pending,
    reads Str.of_bytes (fun _ => None) (fun _ => None) Sse [] chunks_example = Some (ps, pending) ∧
    length ps = 2%nat ∧ pending = Str.bytes "data: tail" ++ ["010"]%char.
Proof.
  destruct (chunking_irrelevant Str.of_bytes (fun _ => None) (fun _ => None) Sse chunks_example)
    as (ps & pending & left_over & Hr & Ht & _); [vm_compute; reflexivity|discriminate|].
  exists ps, pending. split; [exact Hr|]. vm_compute in Hr. injection Hr as <- <-.
  split; reflexivity.
Defined.

Definition sent_example : list (list (string * string) * list ascii) := [
  ([(":message-type", "event"); (":event-type", "chunk")], Str.bytes "{}");
  ([(":message-type", "exception"); (":exception-type", "throttlingException")], []) ].

Definition outs_example : list (list ascii) :=
  filter_map (fun m => EventStream.encode m.1 m.2) sent_example.

Lemma frames_roundtrip_witness :
  EventStream.take_messages Str.of_bytes (List.concat outs_example ++ ["000"; "000"]%char) =
  Some (map EventStream.read_back sent_example, ["000"; "000"]%char).
Proof.
  transitivity (match EventStream.take_messages Str.of_bytes ["000"; "000"]%char with
    | Some (ms, left_over) => Some (map EventStream.read_back sent_example ++ ms, left_over)
    | None => None end); [|vm_compute; reflexivity].
  apply (EventStream.frames_roundtrip Str.of_bytes sent_example outs_example); [reflexivity|].
  repeat constructor; try (vm_compute; (reflexivity || discriminate));
    intros; cbn in *; intuition; simplify_eq; vm_compute; reflexivity.
Defined.

End Frames.
