(* ===== verification/Converse.v ===== *)
(** * The Bedrock Converse dialect

    [crates/oag-proto/src/converse.rs]: requests out, bodies and stream events
    in.  No client speaks it, so nothing is read from a client or rendered for
    one; the respelling of call ids is [Names.ToolUseIds].  Printing and
    parsing JSON texts are parameters; the [f32] temperature is left out. *)

From Stdlib Require Import Ascii.
From S2P Require Import Prelude Text Money Domain Efforts Catalog Cost.
From S2P Require Import Ladder Classify Budget Policy Canonical Wire Names Stream Frames.
#[local] Open Scope string_scope.
#[local] Open Scope oag_scope.
#[local] Open Scope list_scope.
#[local] Open Scope Z_scope.

Module Converse.
Import Js Wire.

Definition refused (field : string) : Error := UnsupportedField field BedrockConverse.

(** ** Requests out *)

Definition CONTINUED : string := "(continued)".
Definition NO_OUTPUT : string := "(no output)".

Definition is_blank (text : string) : bool := Str.is_empty (Str.trim text).

(** [json!({ "text": text })] of what is not blank. *)
Definition text_block (text : string) : option Json :=
  if negb (is_blank text) then Some (JObject [("text", JString text)]) else None.

Definition image (media_type data : string) : Json :=
  JObject [("image", JObject [
    ("format", JString (default media_type (Str.strip_prefix media_type "image/")));
    ("source", JObject [("bytes", JString data)])])].

Definition result_block (b : ContentBlock) : option Json :=
  match b with
  | BText text _ => text_block text
  | BImage media_type data => Some (image media_type data)
  | _ => None
  end.

Definition result_blocks (c : ToolResultContent) : list Json :=
  match c with
  | ResultText text => option_list (text_block text)
  | ResultBlocks blocks => filter_map result_block blocks
  end.

Definition tool_result_content (c : ToolResultContent) : list Json :=
  match result_blocks c with
  | [] => [JObject [("text", JString NO_OUTPUT)]]
  | blocks => blocks
  end.

Definition render_block (names : Names.FunctionNameMap) (ids : Names.ToolUseIds) (b : ContentBlock)
    : option Json :=
  match b with
  | BText text _ => text_block text
  | BImage media_type data => Some (image media_type data)
  | BToolUse id name input =>
      Some (JObject [("toolUse", JObject [("toolUseId", JString (Names.id_wire ids id));
        ("name", JString (Names.wire names name)); ("input", input)])])
  | BToolResult tool_use_id content is_error =>
      let result := [("toolUseId", JString (Names.id_wire ids tool_use_id));
        ("content", JArray (tool_result_content content))] in
      Some (JObject [("toolResult", JObject (put_if is_error "status" (JString "error") result))])
  | BThinking _ _ => None
  end.

Definition role_of (m : Message) : string :=
  match role m with RoleAssistant => "assistant" | _ => "user" end.

(** [turns.last_mut()], extended when the role is its own. *)
Definition push_turn (turns : list (string * list Json)) (role : string) (blocks : list Json)
    : list (string * list Json) :=
  match last turns with
  | Some (r, content) =>
      if Str.eqb r role then removelast turns ++ [(r, content ++ blocks)] else turns ++ [(role, blocks)]
  | None => turns ++ [(role, blocks)]
  end.

Definition add_turn (names : Names.FunctionNameMap) (ids : Names.ToolUseIds)
    (turns : list (string * list Json)) (m : Message) : list (string * list Json) :=
  match filter_map (render_block names ids) (content m) with
  | [] => turns
  | blocks => push_turn turns (role_of m) blocks
  end.

(** [turns.insert(0, …)] before a conversation that opens with the model. *)
Definition opened (turns : list (string * list Json)) : list (string * list Json) :=
  match turns with
  | (role, _) :: _ =>
      if Str.eqb role "assistant"
      then ("user", [JObject [("text", JString CONTINUED)]]) :: turns else turns
  | [] => turns
  end.

Definition turn_json (t : string * list Json) : Json :=
  JObject [("role", JString t.1); ("content", JArray t.2)].

Definition turns_of (ms : list Message) (names : Names.FunctionNameMap) (ids : Names.ToolUseIds)
    : list (string * list Json) :=
  opened (fold_left (add_turn names ids) ms []).

Definition render_messages (ms : list Message) (names : Names.FunctionNameMap) (ids : Names.ToolUseIds)
    : list Json :=
  map turn_json (turns_of ms names ids).

Definition stand_in (name : string) : Tool :=
  {| tool_name := name; description := ""; input_schema := JObject [("type", JString "object")];
     tool_cache_control := None |}.

Definition called_in_history (ms : list Message) : list Tool :=
  map stand_in (Names.first_seen (filter_map Names.block_function (mjoin (map content ms))) ∅).

Definition render_tool (names : Names.FunctionNameMap) (t : Tool) : Json :=
  let spec := [("name", JString (Names.wire names (tool_name t)));
    ("inputSchema", JObject [("json", input_schema t)])] in
  JObject [("toolSpec",
    JObject (put_if (negb (Str.is_empty (description t))) "description" (JString (description t)) spec))].

Definition render_choice (names : Names.FunctionNameMap) (c : ToolChoice) : result Json Error :=
  match c with
  | ChoiceAuto => Ok (JObject [("auto", JObject [])])
  | ChoiceRequired => Ok (JObject [("any", JObject [])])
  | ChoiceTool name => Ok (JObject [("tool", JObject [("name", JString (Names.wire names name))])])
  | ChoiceNone => Err (refused "tool_choice")
  end.

(** The request's own tools, or what stands in for those its history called. *)
Definition config_tools (r : CanonicalRequest) : list Tool :=
  match req_tools r with [] => called_in_history (messages r) | tools => tools end.

Definition render_tool_config (r : CanonicalRequest) (names : Names.FunctionNameMap)
    : result (option Json) Error :=
  match config_tools r with
  | [] => Ok None
  | tools =>
      let config := [("tools", JArray (map (render_tool names) tools))] in
      match tool_choice r with
      | None => Ok (Some (JObject config))
      | Some choice =>
          let? c := render_choice names choice in Ok (Some (JObject (put "toolChoice" c config)))
      end
  end.

Section codec.
(** [Value::to_string] and [serde_json::from_str]. *)
Context (to_string : Json → string) (from_json : string → option Json).

Definition render_output_config (format : option ResponseFormat) : result (option Json) Error :=
  match format with
  | None | Some FormatText => Ok None
  | Some FormatJsonObject => Err (refused "response_format")
  | Some (FormatJsonSchema name schema _) =>
      Ok (Some (JObject [("textFormat", JObject [("type", JString "json_schema");
        ("structure", JObject [("jsonSchema", JObject [("schema", JString (to_string schema));
                                                       ("name", JString name)])])])]))
  end.

Definition system_block (b : ContentBlock) : option Json :=
  match b with BText text _ => text_block text | _ => None end.

Definition inference_config (r : CanonicalRequest) : Json :=
  let stop := keep (fun s => negb (Str.is_empty s)) (stop r) in
  JObject (put_nonempty stop "stopSequences" (strings stop) [("maxTokens", num (max_tokens r))]).

Definition render_request (r : CanonicalRequest) : result Json Error :=
  match previous_response_id r with
  | Some _ => Err (refused "previous_response_id")
  | None =>
      let names := Names.from_request r in
      let ids := Names.ids_from_request r in
      let body := [("messages", JArray (render_messages (messages r) names ids));
                   ("inferenceConfig", inference_config r)] in
      let system := filter_map system_block (system r) in
      let body := put_nonempty system "system" (JArray system) body in
      let? config := render_tool_config r names in
      let body := put_some config "toolConfig" (fun c => c) body in
      let? config := render_output_config (response_format r) in
      Ok (JObject (put_some config "outputConfig" (fun c => c) body))
  end.

(** ** Responses in *)

Definition parse_usage (v : Json) : Usage := {|
  input_tokens := default 0 (as_u64 (idx v "inputTokens"));
  output_tokens := default 0 (as_u64 (idx v "outputTokens"));
  cache_read_tokens := default 0 (as_u64 (idx v "cacheReadInputTokens"));
  cache_write_tokens := default 0 (as_u64 (idx v "cacheWriteInputTokens")) |}.

Definition parse_stop_reason (raw : string) : StopReason :=
  if Str.eqb raw "tool_use" then StopToolUse
  else if any (Str.eqb raw) ["max_tokens"; "model_context_window_exceeded"] then StopMaxTokens
  else if Str.eqb raw "stop_sequence" then StopSequence
  else if any (Str.eqb raw) ["guardrail_intervened"; "content_filtered"] then StopRefusal
  else StopEndTurn.

(** [v.get(key)]. *)
Definition get (v : Json) (key : string) : option Json :=
  match v with JObject fs => field key fs | _ => None end.

Definition block_events (block : Json) : list StreamEvent :=
  match as_str (idx block "text") with
  | Some text => [EvTextDelta text]
  | None =>
      match as_str (idx (idx (idx block "reasoningContent") "reasoningText") "text") with
      | Some text => [EvThinkingDelta text]
      | None =>
          match get block "toolUse" with
          | Some call =>
              let id := str_or "" (idx call "toolUseId") in
              [EvToolUseStart id (str_or "" (idx call "name"));
               EvToolUseDelta id (to_string (idx call "input")); EvToolUseEnd id]
          | None => []
          end
      end
  end.

Definition parse_response (body : Json) : list StreamEvent :=
  let usage := parse_usage (idx body "usage") in
  EvUsageUpdate usage
  :: List.concat (map block_events (array_or_empty (idx (idx (idx body "output") "message") "content")))
  ++ match as_str (idx body "stopReason") with
     | Some reason => [EvStop (parse_stop_reason reason) usage]
     | None => []
     end.

(** ** A stream's events in *)

(** [s.ends_with(suffix)]. *)
Definition ends_with (s suffix : string) : bool :=
  Nat.leb (String.length suffix) (String.length s) &&
  Str.eqb (Str.drop (String.length s - String.length suffix) s) suffix.

Definition parse_delta (delta : Json) (acc : StreamAccumulator) : list StreamEvent :=
  match as_str (idx delta "text") with
  | Some text => [EvTextDelta text]
  | None =>
      match as_str (idx (idx delta "toolUse") "input") with
      | Some fragment => [EvToolUseDelta (default "" (Stream.current_tool_id acc)) fragment]
      | None =>
          match as_str (idx (idx delta "reasoningContent") "text") with
          | Some text => [EvThinkingDelta text]
          | None => []
          end
      end
  end.

Definition block_start (event : Json) (acc : StreamAccumulator) : list StreamEvent :=
  let call := idx (idx event "start") "toolUse" in
  match as_str (idx call "toolUseId") with
  | Some id => [EvToolUseStart (Stream.restore_tool_use_id acc id)
                  (Stream.restore_function_name acc (str_or "" (idx call "name")))]
  | None => []
  end.

Definition metadata (event : Json) (acc : StreamAccumulator) : list StreamEvent * StreamAccumulator :=
  let usage := parse_usage (idx event "usage") in
  let '(held, acc) := Stream.take_held_stop acc in
  ([match held with Some reason => EvStop reason usage | None => EvUsageUpdate usage end], acc).

Definition parse_stream_event (kind : string) (event : Json) (acc : StreamAccumulator)
    : list StreamEvent * StreamAccumulator :=
  if Str.eqb kind "messageStart" then ([EvStart "" no_usage], acc)
  else if Str.eqb kind "contentBlockStart" then (block_start event acc, acc)
  else if Str.eqb kind "contentBlockDelta" then (parse_delta (idx event "delta") acc, acc)
  else if Str.eqb kind "contentBlockStop" then
    (match Stream.open_tool_id acc with Some id => [EvToolUseEnd id] | None => [] end, acc)
  else if Str.eqb kind "messageStop" then
    ([], Stream.hold_stop acc (parse_stop_reason (str_or "" (idx event "stopReason"))))
  else if Str.eqb kind "metadata" then metadata event acc
  else if Str.eqb kind EventStream.STREAM_ERROR then
    ([EvError (str_or "the upstream's event stream reported an error" (idx event "message"))], acc)
  else if ends_with kind "Exception" then
    ([EvError (match as_str (idx event "message") with
       | Some m => kind +:+ ": " +:+ m | None => kind end)], acc)
  else ([], acc).

Definition member (x : list StreamEvent * StreamAccumulator) (f : string * Json)
    : list StreamEvent * StreamAccumulator :=
  let '(events, acc) := parse_stream_event f.1 f.2 x.2 in (x.1 ++ events, acc).

Definition event_of (v : Json) (acc : StreamAccumulator) : list StreamEvent * StreamAccumulator :=
  match v with JObject fs => fold_left member fs ([], acc) | _ => ([], acc) end.

Definition parse_event (payload : string) (acc : StreamAccumulator)
    : result (list StreamEvent * StreamAccumulator) Error :=
  let? v := ok_or (from_json payload) (Serde payload) in Ok (event_of v acc).

End codec.

(** ** What Converse takes

    The service's documented rules for a request's body, as one reading of it:
    turns alternate from the user's, no turn is empty, every block has one key,
    no text is blank, call ids and function names are in their alphabets, a
    result says something, and calls and results come with a [toolConfig],
    which holds a tool. *)

Definition says (v : Json) : bool := match v with JString s => negb (is_blank s) | _ => false end.
Definition id_ok (v : Json) : bool :=
  match v with JString s => Names.spelled Names.tool_use_id_byte s | _ => false end.
Definition name_ok (v : Json) : bool :=
  match v with JString s => Names.is_legal_openai_function_name s | _ => false end.
Definition empty (l : list Json) : bool := match l with [] => true | _ => false end.

Definition result_item_ok (v : Json) : bool :=
  match v with
  | JObject [(k, x)] => if Str.eqb k "text" then says x else Str.eqb k "image"
  | _ => false
  end.

Definition block_ok (v : Json) : bool :=
  match v with
  | JObject [(k, x)] =>
      if Str.eqb k "text" then says x
      else if Str.eqb k "toolUse" then id_ok (idx x "toolUseId") && name_ok (idx x "name")
      else if Str.eqb k "toolResult" then
        let items := array_or_empty (idx x "content") in
        id_ok (idx x "toolUseId") && negb (empty items) && all result_item_ok items
      else Str.eqb k "image"
  | _ => false
  end.

Definition tool_block (v : Json) : bool :=
  match v with JObject [(k, _)] => any (Str.eqb k) ["toolUse"; "toolResult"] | _ => false end.

Definition turn_ok (v : Json) : bool :=
  let content := array_or_empty (idx v "content") in
  negb (empty content) && all block_ok content.

Fixpoint alternating (roles : list string) : bool :=
  match roles with
  | a :: ((b :: _) as roles') => negb (Str.eqb a b) && alternating roles'
  | _ => true
  end.

Definition begins (roles : list string) : bool :=
  match roles with r :: _ => Str.eqb r "user" | [] => true end.

Definition tool_ok (v : Json) : bool :=
  let spec := idx v "toolSpec" in
  name_ok (idx spec "name") &&
  match get spec "description" with Some (JString d) => negb (Str.is_empty d) | Some _ => false | None => true end.

Definition choice_ok (v : Json) : bool :=
  match get v "tool" with Some tool => name_ok (idx tool "name") | None => true end.

Definition config_ok (c : Json) : bool :=
  let tools := array_or_empty (idx c "tools") in
  negb (empty tools) && all tool_ok tools && choice_ok (idx c "toolChoice").

Definition acceptable (body : Json) : bool :=
  let turns := array_or_empty (idx body "messages") in
  let roles := map (fun t => str_or "" (idx t "role")) turns in
  all (fun r => any (Str.eqb r) ["user"; "assistant"]) roles && alternating roles && begins roles
  && all turn_ok turns
  && all (fun b => says (idx b "text")) (array_or_empty (idx body "system"))
  && all (fun s => negb (Str.is_empty (str_or "" s)))
       (array_or_empty (idx (idx body "inferenceConfig") "stopSequences"))
  && match get body "toolConfig" with
     | Some c => config_ok c
     | None => negb (any (fun t => any tool_block (array_or_empty (idx t "content"))) turns)
     end.

(** ** The turns *)

Lemma text_block_Some text j : text_block text = Some j → j = JObject [("text", JString text)] ∧ is_blank text = false.
Proof. unfold text_block. destruct (is_blank text); [done|]. by intros [= <-]. Qed.

(** A turn's blocks, each with its role. *)
Definition spread (turns : list (string * list Json)) : list (string * Json) :=
  List.concat (map (fun t : string * list Json => map (pair t.1) t.2) turns).

Lemma spread_snoc turns role blocks :
  spread (turns ++ [(role, blocks)]) = spread turns ++ map (pair role) blocks.
Proof. unfold spread. rewrite map_app, concat_app. cbn. by rewrite app_nil_r. Qed.

Lemma push_turn_spread turns role blocks :
  spread (push_turn turns role blocks) = spread turns ++ map (pair role) blocks.
Proof.
  unfold push_turn. destruct turns as [|[r content] turns _] using rev_ind; [apply spread_snoc|].
  rewrite last_snoc. destruct (Str.eqb r role) eqn:E; [|apply spread_snoc].
  apply Str.str_eqb_eq in E as ->. rewrite removelast_last, !spread_snoc, map_app. by rewrite app_assoc.
Qed.

Lemma alternating_snoc roles r :
  alternating (roles ++ [r]) =
  alternating roles && match last roles with Some u => negb (Str.eqb u r) | None => true end.
Proof.
  induction roles as [|a [|b roles] IH]; [done|cbn; by rewrite andb_true_r|].
  change (negb (Str.eqb a b) && alternating ((b :: roles) ++ [r]) =
    negb (Str.eqb a b) && alternating (b :: roles) &&
    match last (b :: roles) with Some u => negb (Str.eqb u r) | None => true end).
  by rewrite IH, andb_assoc.
Qed.

(** What holds of the turns as they grow. *)
Record sound_turns (turns : list (string * list Json)) : Prop := {
  st_alternating : alternating (map fst turns) = true;
  st_said : Forall (fun t : string * list Json => t.2 ≠ []) turns;
  st_roles : Forall (fun t : string * list Json => t.1 = "user" ∨ t.1 = "assistant") turns
}.

Lemma push_turn_sound turns role blocks :
  sound_turns turns → blocks ≠ [] → role = "user" ∨ role = "assistant" → sound_turns (push_turn turns role blocks).
Proof.
  intros [Ha Hs Hr] Hb Hrole. unfold push_turn.
  destruct turns as [|[r content] turns _] using rev_ind.
  { split; [done|by apply Forall_singleton..]. }
  rewrite last_snoc. rewrite Forall_app, Forall_singleton in Hs, Hr.
  destruct Hs as [Hs Hc], Hr as [Hr Hr1]. destruct (Str.eqb r role) eqn:E.
  - rewrite removelast_last. split; rewrite ?map_app in *; [done|..].
    + rewrite Forall_app, Forall_singleton. split; [done|]. by destruct content.
    + by rewrite Forall_app, Forall_singleton.
  - rewrite map_app in Ha. split; rewrite ?map_app.
    + change (map fst [(role, blocks)]) with [role]. rewrite alternating_snoc, Ha.
      cbn [map fst]. rewrite last_snoc. by rewrite E.
    + by rewrite !Forall_app, !Forall_singleton.
    + by rewrite !Forall_app, !Forall_singleton.
Qed.

Lemma role_of_known m : role_of m = "user" ∨ role_of m = "assistant".
Proof. unfold role_of. destruct (role m); auto. Qed.

(** Every block a conversation holds, with its turn's role. *)
Definition blocks_of (ms : list Message) : list (string * ContentBlock) :=
  List.concat (map (fun m => map (pair (role_of m)) (content m)) ms).

Lemma turns_spec names ids ms turns :
  sound_turns turns →
  let turns' := fold_left (add_turn names ids) ms turns in
  sound_turns turns' ∧
  spread turns' = spread turns ++
    filter_map (fun rb : string * ContentBlock => pair rb.1 <$> render_block names ids rb.2) (blocks_of ms).
Proof.
  revert turns; induction ms as [|m ms IH]; intros turns Ht turns'.
  { split; [done|]. by rewrite app_nil_r. }
  assert (∀ bs, filter_map (fun rb : string * ContentBlock => pair rb.1 <$> render_block names ids rb.2)
    (map (pair (role_of m)) bs) = map (pair (role_of m)) (filter_map (render_block names ids) bs)) as Hone.
  { induction bs as [|b bs IHb]; [done|]. cbn. rewrite IHb. by destruct (render_block names ids b). }
  unfold turns'. cbn [fold_left]. unfold add_turn at 2 4.
  unfold blocks_of. cbn [map List.concat]. rewrite filter_map_app, Hone.
  destruct (filter_map (render_block names ids) (content m)) as [|b bs] eqn:E; [by apply IH|].
  destruct (IH (push_turn turns (role_of m) (b :: bs))) as [H1 H2].
  { by apply push_turn_sound, role_of_known. }
  split; [done|]. by rewrite H2, push_turn_spread, app_assoc.
Qed.

Lemma opened_sound turns : sound_turns turns → sound_turns (opened turns).
Proof.
  intros H. destruct turns as [|[r content] turns]; [done|]. cbn [opened].
  destruct (Str.eqb r "assistant") eqn:E; [|done]. apply Str.str_eqb_eq in E as ->.
  destruct H as [Ha Hs Hr]. split; [done|by constructor|]. constructor; [by left|done].
Qed.

Lemma opened_begins turns : sound_turns turns → begins (map fst (opened turns)) = true.
Proof.
  intros [_ _ Hr]. destruct turns as [|[r content] turns]; [done|]. cbn [opened].
  apply Forall_cons in Hr as [Hr _]. cbn [fst] in Hr. by destruct Hr as [-> | ->].
Qed.

(** The turn put in front, where one is. *)
Definition opening (turns : list (string * list Json)) : list (string * Json) :=
  match turns with
  | (role, _) :: _ =>
      if Str.eqb role "assistant" then [("user", JObject [("text", JString CONTINUED)])] else []
  | [] => []
  end.

Lemma opened_spread turns : spread (opened turns) = opening turns ++ spread turns.
Proof. destruct turns as [|[r content] turns]; [done|]. cbn. by destruct (Str.eqb r "assistant"). Qed.

Lemma blocks_of_In ms role b :
  In (role, b) (blocks_of ms) ↔ ∃ m, In m ms ∧ In b (content m) ∧ role = role_of m.
Proof.
  unfold blocks_of. rewrite in_concat. split.
  - intros (l & (m & <- & Hm)%in_map_iff & (b' & [= <- <-] & Hb)%in_map_iff). by exists m.
  - intros (m & Hm & Hb & ->). exists (map (pair (role_of m)) (content m)).
    split; apply in_map_iff; eauto.
Qed.

Lemma join_In ms b : In b (mjoin (map content ms)) ↔ ∃ role, In (role, b) (blocks_of ms).
Proof.
  rewrite <-list_elem_of_In, list_elem_of_join. setoid_rewrite blocks_of_In. split.
  - intros (l & Hb & Hl). rewrite list_elem_of_In in Hb. rewrite list_elem_of_In in Hl.
    apply in_map_iff in Hl as (m & <- & Hm). eauto.
  - intros (role & m & Hm & Hb & _). exists (content m). rewrite !list_elem_of_In. split; [done|].
    by apply in_map.
Qed.

(** ** Names and ids as they are sent *)

Section request.
Context (r : CanonicalRequest).
Context (Hnames : Z.of_nat (length (Names.declared r)) < 2 ^ 62).
Context (Hids : Z.of_nat (length (Names.history_ids r)) ≤ 256).

#[local] Abbreviation names := (Names.from_request r).
#[local] Abbreviation ids := (Names.ids_from_request r).

Lemma name_sent o : In o (Names.declared r) → name_ok (JString (Names.wire names o)) = true.
Proof using Hnames. intros Ho. by apply (Names.from_request_back r o). Qed.

Lemma id_sent id : In id (Names.history_ids r) → id_ok (JString (Names.id_wire ids id)) = true.
Proof using Hids.
  intros Hid. destruct (Names.respelled r Names.tool_use_id_byte) as [H _]; [by left|].
  by apply (H id Hid).
Qed.

Lemma block_named role b :
  In (role, b) (blocks_of (messages r)) →
  (∀ id, Names.block_id b = Some id → In id (Names.history_ids r)) ∧
  (∀ name, Names.block_function b = Some name → In name (Names.declared r)).
Proof using Type.
  clear Hnames Hids. intros Hb. assert (In b (mjoin (map content (messages r)))) as Hj by (apply join_In; eauto). split.
  - intros id Hid. unfold Names.history_ids.
    apply Names.first_seen_spec. split; [|set_solver]. apply filter_map_In. eauto.
  - intros name Hname. unfold Names.declared. rewrite !in_app_iff. right. right.
    apply filter_map_In. eauto.
Qed.

Lemma result_items_ok c :
  negb (empty (tool_result_content c)) && all result_item_ok (tool_result_content c) = true.
Proof using Type.
  assert (∀ text j, text_block text = Some j → result_item_ok j = true) as Htext.
  { intros text j [-> Hb]%text_block_Some. cbn. by rewrite Hb. }
  assert (all result_item_ok (result_blocks c) = true) as Hall.
  { destruct c as [text|blocks]; apply all_true; cbn [result_blocks].
    - destruct (text_block text) as [j|] eqn:E; [|done]. intros x [<-|[]]. by eapply Htext.
    - intros x (b & Hb & Hx)%filter_map_In. destruct b; try done; [by eapply Htext|].
      by injection Hx as <-. }
  unfold tool_result_content. destruct (result_blocks c) as [|j l]; [done|exact Hall].
Qed.

Definition is_tool_block (b : ContentBlock) : bool :=
  match b with BToolUse _ _ _ | BToolResult _ _ _ => true | _ => false end.

Lemma block_sent role b j :
  In (role, b) (blocks_of (messages r)) → render_block names ids b = Some j →
  block_ok j = true ∧ tool_block j = is_tool_block b.
Proof using Hnames Hids.
  intros [Hid Hname]%block_named. destruct b as [text c|media data|id name input|id content e|]; intros Hj.
  - apply text_block_Some in Hj as [-> Hb]. cbn. by rewrite Hb.
  - by injection Hj as <-.
  - injection Hj as <-. split; [|done].
    change (id_ok (JString (Names.id_wire ids id)) && name_ok (JString (Names.wire names name)) = true).
    by rewrite id_sent, name_sent by auto.
  - injection Hj as <-. split; [|by destruct e].
    pose proof (result_items_ok content) as Hc.
    destruct e;
      change (id_ok (JString (Names.id_wire ids id)) && negb (empty (tool_result_content content)) &&
        all result_item_ok (tool_result_content content) = true);
      by rewrite id_sent, <-andb_assoc by auto.
  - done.
Qed.

Lemma tool_declared t : In t (config_tools r) → In (tool_name t) (Names.declared r).
Proof using Type.
  clear Hnames Hids. unfold config_tools, Names.declared. rewrite !in_app_iff.
  destruct (req_tools r) as [|t0 ts]; [|left; by apply in_map].
  unfold called_in_history. intros (name & <- & Hn)%in_map_iff. right. right.
  by apply Names.first_seen_spec in Hn as [Hn _].
Qed.

Lemma tools_sent :
  all tool_ok (map (render_tool names) (config_tools r)) = true.
Proof using Hnames.
  apply all_true. intros v (t & <- & Ht)%in_map_iff. apply tool_declared, name_sent in Ht.
  assert (tool_ok (render_tool names t) = name_ok (JString (Names.wire names (tool_name t)))) as ->; [|done].
  unfold tool_ok, render_tool. destruct (Str.is_empty (description t)) eqn:E; cbn [negb put_if].
  - apply andb_true_r.
  - change (name_ok (JString (Names.wire names (tool_name t))) && negb (Str.is_empty (description t)) =
      name_ok (JString (Names.wire names (tool_name t)))). by rewrite E, andb_true_r.
Qed.

End request.

(** Each result of the history answers a call that is in it. *)
Definition answered (r : CanonicalRequest) : Prop := ∀ role id c e,
  In (role, BToolResult id c e) (blocks_of (messages r)) →
  ∃ role' name input, In (role', BToolUse id name input) (blocks_of (messages r)).

Lemma nothing_called r role b :
  answered r → config_tools r = [] → In (role, b) (blocks_of (messages r)) → is_tool_block b = false.
Proof.
  intros Ha Hc Hb.
  assert (∀ role' id name input, ¬ In (role', BToolUse id name input) (blocks_of (messages r))) as Hno.
  { intros role' id name input Hu. unfold config_tools, called_in_history in Hc.
    destruct (req_tools r); [|done]. apply map_eq_nil in Hc.
    assert (In name []) as []. rewrite <-Hc. apply Names.first_seen_spec. split; [|set_solver].
    apply filter_map_In. exists (BToolUse id name input). split; [|done]. apply join_In. eauto. }
  destruct b; try done; [by apply Hno in Hb|]. apply Ha in Hb as (role' & name & input & Hu). by apply Hno in Hu.
Qed.

Section codec.
Context (to_string : Json → string).

#[local] Abbreviation render_request := (render_request to_string).

Lemma converse_rendered r body :
  render_request r = Ok body →
  let names := Names.from_request r in
  let ids := Names.ids_from_request r in
  previous_response_id r = None ∧
  ∃ fs config output, body = JObject fs ∧
    render_tool_config r names = Ok config ∧
    render_output_config to_string (response_format r) = Ok output ∧
    field "messages" fs = Some (JArray (render_messages (messages r) names ids)) ∧
    field "inferenceConfig" fs = Some (inference_config r) ∧
    field "system" fs = (match filter_map system_block (system r) with [] => None
      | blocks => Some (JArray blocks) end) ∧
    field "toolConfig" fs = config ∧ field "outputConfig" fs = output.
Proof.
  intros H names ids. unfold Converse.render_request in H. destruct (previous_response_id r); [done|].
  split; [done|]. fold names ids in H.
  destruct (render_tool_config r names) as [config|] eqn:Ec; [|done]. cbn [result_bind] in H.
  destruct (render_output_config to_string (response_format r)) as [output|] eqn:Eo; [|done].
  injection H as <-. eexists _, config, output. split; [done|]. split; [done|]. split; [done|].
  rewrite !field_put_some, !field_put_nonempty.
  destruct config, output, (filter_map system_block (system r)); done.
Qed.

Lemma refusals r e :
  render_request r = Err e → ∃ field, e = refused field ∧
    (field = "previous_response_id" ∧ is_Some (previous_response_id r) ∨
     field = "tool_choice" ∧ tool_choice r = Some ChoiceNone ∧ config_tools r ≠ [] ∨
     field = "response_format" ∧ response_format r = Some FormatJsonObject).
Proof.
  unfold Converse.render_request. destruct (previous_response_id r) as [x|]; [intros [= <-]; eauto 6|].
  unfold render_tool_config. destruct (config_tools r) as [|t ts] eqn:Et.
  - cbn [result_bind]. destruct (response_format r) as [[]|]; try done. intros [= <-]; eauto 7.
  - destruct (tool_choice r) as [[]|] eqn:Ec; cbn [result_bind render_choice].
    3: { intros [= <-]. eexists. split; [done|]. by right; left. }
    all: destruct (response_format r) as [[]|]; try done; intros [= <-]; eauto 7.
Qed.

(** What one turn of the body holds, by its role and block. *)
Lemma turn_holds r t j :
  let names := Names.from_request r in
  let ids := Names.ids_from_request r in
  In t (turns_of (messages r) names ids) → In j t.2 →
  j = JObject [("text", JString CONTINUED)] ∨
  ∃ b, In (t.1, b) (blocks_of (messages r)) ∧ render_block names ids b = Some j.
Proof.
  intros names ids Ht Hj.
  assert (In (t.1, j) (spread (turns_of (messages r) names ids))) as Hs.
  { unfold spread. apply in_concat. exists (map (pair t.1) t.2). split; [|by apply in_map].
    by apply (in_map (fun t : string * list Json => map (pair t.1) t.2)). }
  unfold turns_of in Hs. rewrite opened_spread in Hs.
  destruct (turns_spec names ids (messages r) []) as [_ Hspread]; [by split|].
  rewrite Hspread in Hs. apply in_app_iff in Hs as [Ho|Hin].
  - left. unfold opening in Ho. destruct (fold_left _ _ _) as [|[role c] turns]; [done|].
    destruct (Str.eqb role "assistant"); [|done]. destruct Ho as [[= _ <-]|[]]. done.
  - right. cbn [spread map List.concat app] in Hin. apply filter_map_In in Hin as ([role b] & Hb & Hr).
    cbn [fst snd] in Hr. destruct (render_block names ids b) as [j'|] eqn:E; [|done].
    injection Hr as -> ->. by exists b.
Qed.

Lemma turns_acceptable r :
  Z.of_nat (length (Names.declared r)) < 2 ^ 62 → Z.of_nat (length (Names.history_ids r)) ≤ 256 →
  let turns := render_messages (messages r) (Names.from_request r) (Names.ids_from_request r) in
  let roles := map (fun t => str_or "" (idx t "role")) turns in
  all (fun r => any (Str.eqb r) ["user"; "assistant"]) roles = true ∧ alternating roles = true ∧
  begins roles = true ∧ all turn_ok turns = true.
Proof.
  intros Hn Hi turns roles.
  destruct (turns_spec (Names.from_request r) (Names.ids_from_request r) (messages r) []) as [Hs _]; [by split|].
  assert (roles = map fst (turns_of (messages r) (Names.from_request r) (Names.ids_from_request r))) as ->.
  { unfold roles, turns, render_messages. by rewrite map_map. }
  pose proof (opened_begins _ Hs) as Hb. pose proof (opened_sound _ Hs) as [Ha Hsaid Hr].
  split_and!; [|done|done|].
  - apply all_true. intros x (t & <- & Ht)%in_map_iff. rewrite List.Forall_forall in Hr.
    by destruct (Hr t Ht) as [-> | ->].
  - apply all_true. intros x (t & <- & Ht)%in_map_iff. rewrite List.Forall_forall in Hsaid.
    change (negb (empty t.2) && all block_ok t.2 = true). apply andb_true_iff. split.
    + specialize (Hsaid t Ht). by destruct (t.2).
    + apply all_true. intros j Hj. destruct (turn_holds r t j Ht Hj) as [-> |(b & Hin & Hj')]; [done|].
      by apply (block_sent r Hn Hi t.1 b).
Qed.

Lemma no_tool_blocks r :
  Z.of_nat (length (Names.declared r)) < 2 ^ 62 → Z.of_nat (length (Names.history_ids r)) ≤ 256 →
  answered r → config_tools r = [] →
  any (fun t => any tool_block (array_or_empty (idx t "content")))
    (render_messages (messages r) (Names.from_request r) (Names.ids_from_request r)) = false.
Proof.
  intros Hn Hi Ha Hc. apply not_true_is_false. intros (x & (t & <- & Ht)%in_map_iff & Hx)%any_true.
  apply any_true in Hx as (j & Hj & Htool). change (In j t.2) in Hj.
  destruct (turn_holds r t j Ht Hj) as [-> |(b & Hin & Hj')]; [done|].
  apply (block_sent r Hn Hi t.1 b j Hin) in Hj' as [_ E]. rewrite E in Htool.
  by rewrite (nothing_called r t.1 b Ha Hc Hin) in Htool.
Qed.

Lemma config_acceptable r config :
  Z.of_nat (length (Names.declared r)) < 2 ^ 62 →
  render_tool_config r (Names.from_request r) = Ok config →
  match config with Some c => config_ok c = true | None => config_tools r = [] end.
Proof.
  intros Hn H. pose proof (tools_sent r Hn) as Ht. unfold render_tool_config in H.
  destruct (config_tools r) as [|t ts] eqn:Et; [by injection H as <-|].
  assert (∀ fs, field "tools" fs = Some (JArray (map (render_tool (Names.from_request r)) (t :: ts))) →
    config_ok (JObject fs) = choice_ok (default JNull (field "toolChoice" fs))) as Hok.
  { intros fs Hf. unfold config_ok. cbn [idx]. rewrite Hf. cbn [from_option Datatypes.id array_or_empty as_array].
    rewrite Ht. by cbn [map empty negb andb]. }
  destruct (tool_choice r) as [c|] eqn:Ec; [|by injection H as <-; rewrite Hok].
  destruct (render_choice (Names.from_request r) c) as [j|] eqn:Ej; [|done]. injection H as <-.
  rewrite Hok; [|done]. rewrite field_put. change (Str.eqb "toolChoice" "toolChoice") with true. cbv iota.
  destruct c as [| | |name]; try (injection Ej as <-; reflexivity); [done|].
  injection Ej as <-. apply (name_sent r Hn). unfold Names.declared. rewrite Ec, !in_app_iff. right. left. by left.
Qed.

(** Converse takes the body the gateway sends it, or the client is told
    which field it could not honour.  Turns alternate from the user's whatever
    the client's order was, no turn, text or result is empty, every call id and
    function name is in its alphabet, and calls and results come with the tools
    they need; a request is refused for a stored response, for a free-form
    object, and for tools it may not call, and for nothing else. *)
Theorem converse_request_is_accepted r :
  Z.of_nat (length (Names.declared r)) < 2 ^ 62 → Z.of_nat (length (Names.history_ids r)) ≤ 256 →
  answered r →
  match render_request r with
  | Ok body => acceptable body = true
  | Err e => ∃ field, e = refused field ∧
      (field = "previous_response_id" ∧ is_Some (previous_response_id r) ∨
       field = "tool_choice" ∧ tool_choice r = Some ChoiceNone ∧ config_tools r ≠ [] ∨
       field = "response_format" ∧ response_format r = Some FormatJsonObject)
  end.
Proof.
  intros Hn Hi Ha. destruct (render_request r) as [body|e] eqn:E; [|by apply refusals].
  apply converse_rendered in E as (_ & fs & config & output & -> & Hc & _ & Hm & Hinf & Hs & Hcf & _).
  destruct (turns_acceptable r Hn Hi) as (H1 & H2 & H3 & H4).
  unfold acceptable. cbn [idx get]. rewrite Hm, Hinf, Hs, Hcf.
  cbn [from_option Datatypes.id array_or_empty as_array]. rewrite H1, H2, H3, H4. cbn [andb].
  repeat (apply andb_true_iff; split).
  - apply all_true. intros b. destruct (filter_map system_block (system r)) as [|j js] eqn:Ej; [done|].
    cbn [from_option Datatypes.id as_array]. rewrite <-Ej. intros (x & Hx & Hb)%filter_map_In.
    destruct x; try done. apply text_block_Some in Hb as [-> Hb]. cbn. by rewrite Hb.
  - apply all_true. intros v. unfold inference_config. cbn [idx]. rewrite field_put_nonempty.
    change (Str.eqb "stopSequences" "stopSequences") with true. cbv iota.
    destruct (keep _ (stop r)) as [|x xs] eqn:Ek; [done|].
    cbn [from_option Datatypes.id as_array strings]. rewrite <-Ek.
    intros (w & <- & Hw)%in_map_iff. by apply keep_In in Hw as [_ Hw].
  - apply (config_acceptable r config Hn) in Hc. destruct config as [c|]; [done|].
    apply negb_true_iff. by apply no_tool_blocks.
Qed.

(** ** Reading a request back

    What a server that keeps to Converse's documents reads in a body, under the
    names and ids the gateway will restore in the answer. *)

Definition read_item (v : Json) : option ContentBlock :=
  match v with
  | JObject [(k, x)] =>
      if Str.eqb k "text" then Some (BText (str_or "" x) None)
      else if Str.eqb k "image" then
        Some (BImage ("image/" +:+ str_or "" (idx x "format")) (str_or "" (idx (idx x "source") "bytes")))
      else None
  | _ => None
  end.

Definition read_block (names : Names.FunctionNameMap) (v : Json) : option ContentBlock :=
  match v with
  | JObject [(k, x)] =>
      if Str.eqb k "toolUse" then
        Some (BToolUse (Names.original_tool_use_id names (str_or "" (idx x "toolUseId")))
          (Names.original names (str_or "" (idx x "name"))) (idx x "input"))
      else if Str.eqb k "toolResult" then
        Some (BToolResult (Names.original_tool_use_id names (str_or "" (idx x "toolUseId")))
          (ResultBlocks (filter_map read_item (array_or_empty (idx x "content"))))
          (bool_decide (as_str (idx x "status") = Some "error")))
      else read_item v
  | _ => None
  end.

Definition read_turn (names : Names.FunctionNameMap) (v : Json) : list (string * ContentBlock) :=
  map (pair (str_or "" (idx v "role"))) (filter_map (read_block names) (array_or_empty (idx v "content"))).

Definition read_turns (names : Names.FunctionNameMap) (body : Json) : list (string * ContentBlock) :=
  List.concat (map (read_turn names) (array_or_empty (idx body "messages"))).

(** What is said of a block: all of it but blank text, thinking and breakpoints. *)
Definition image_kind (media_type : string) : string :=
  "image/" +:+ default media_type (Str.strip_prefix media_type "image/").

Definition item_said (b : ContentBlock) : option ContentBlock :=
  match b with
  | BText text _ => if is_blank text then None else Some (BText text None)
  | BImage media_type data => Some (BImage (image_kind media_type) data)
  | _ => None
  end.

Definition result_said (c : ToolResultContent) : list ContentBlock :=
  let items := match c with ResultText text => [BText text None] | ResultBlocks blocks => blocks end in
  match filter_map item_said items with [] => [BText NO_OUTPUT None] | said => said end.

Definition block_said (b : ContentBlock) : option ContentBlock :=
  match b with
  | BToolUse id name input => Some (BToolUse id name input)
  | BToolResult id content e => Some (BToolResult id (ResultBlocks (result_said content)) e)
  | _ => item_said b
  end.

Lemma item_read b :
  match result_block b with Some j => read_item j | None => None end = item_said b.
Proof. destruct b as [text c| | | |]; try done. cbn. unfold text_block. by destruct (is_blank text). Qed.

Lemma converse_items_read bs : filter_map read_item (filter_map result_block bs) = filter_map item_said bs.
Proof.
  induction bs as [|b bs IH]; [done|]. cbn [filter_map]. rewrite <-(item_read b).
  destruct (result_block b) as [j|] eqn:E; [|done]. cbn [filter_map]. by rewrite IH.
Qed.

Lemma result_block_reads b j : result_block b = Some j → is_Some (read_item j).
Proof.
  destruct b as [text c| | | |]; try done; cbn [result_block].
  - intros [-> _]%text_block_Some. by eexists.
  - intros [= <-]. by eexists.
Qed.

Lemma result_read c : filter_map read_item (tool_result_content c) = result_said c.
Proof.
  unfold tool_result_content, result_said.
  assert (∃ bs, result_blocks c = filter_map result_block bs ∧
    bs = match c with ResultText text => [BText text None] | ResultBlocks blocks => blocks end) as (bs & -> & <-).
  { destruct c as [text|bs]; [|by exists bs]. exists [BText text None]. split; [|done].
    cbn. by destruct (text_block text). }
  rewrite <-converse_items_read. destruct (filter_map result_block bs) as [|j js] eqn:E; [done|].
  assert (is_Some (read_item j)) as [x Hx].
  { assert (In j (filter_map result_block bs)) as (b & _ & Hb)%filter_map_In by (rewrite E; by left).
    by apply (result_block_reads b). }
  cbn [filter_map]. by rewrite Hx.
Qed.

(** The map the answer's names and ids are restored by. *)
Definition restoring (r : CanonicalRequest) : Names.FunctionNameMap :=
  Names.with_tool_use_ids (Names.from_request r) (Names.ids_from_request r).

Lemma block_read r role b :
  Z.of_nat (length (Names.declared r)) < 2 ^ 62 → In (role, b) (blocks_of (messages r)) →
  match render_block (Names.from_request r) (Names.ids_from_request r) b with
  | Some j => read_block (restoring r) j | None => None end = block_said b.
Proof.
  intros Hn [Hid Hname]%block_named.
  assert (∀ id, In id (Names.history_ids r) →
    Names.original_tool_use_id (restoring r) (Names.id_wire (Names.ids_from_request r) id) = id) as Hids.
  { intros id H. destruct (Names.respelled r Names.tool_use_id_byte) as [Hr _]; [by left|]. by apply (Hr id). }
  destruct b as [text c|media data|id name input|id content e|]; [|done|..|done]; cbn [render_block].
  - unfold text_block, block_said, item_said. by destruct (is_blank text).
  - destruct (Names.from_request_back r name Hn) as (_ & Ho & _); [by apply Hname|].
    change (Some (BToolUse (Names.original_tool_use_id (restoring r) (Names.id_wire (Names.ids_from_request r) id))
      (Names.original (Names.from_request r) (Names.wire (Names.from_request r) name)) input) =
      Some (BToolUse id name input)). rewrite Ho, Hids; [done|by apply Hid].
  - assert (∀ st, Some (BToolResult (Names.original_tool_use_id (restoring r)
      (Names.id_wire (Names.ids_from_request r) id))
      (ResultBlocks (filter_map read_item (tool_result_content content))) st) =
      Some (BToolResult id (ResultBlocks (result_said content)) st)) as Hst.
    { intros st. rewrite Hids, result_read; [done|by apply Hid]. }
    destruct e; [exact (Hst true)|exact (Hst false)].
Qed.

Lemma spread_read names turns :
  List.concat (map (read_turn names) (map turn_json turns)) =
  filter_map (fun rj : string * Json => pair rj.1 <$> read_block names rj.2) (spread turns).
Proof.
  unfold spread. induction turns as [|[role js] turns IH]; [done|].
  cbn [map List.concat]. rewrite IH, filter_map_app. f_equal. cbn [fst snd].
  change (map (pair role) (filter_map (read_block names) js) =
    filter_map (fun rj : string * Json => pair rj.1 <$> read_block names rj.2) (map (pair role) js)).
  clear IH. induction js as [|j js IH]; [done|]. cbn [map filter_map fst snd].
  destruct (read_block names j); cbn; by rewrite IH.
Qed.

Lemma blocks_read r bs :
  Z.of_nat (length (Names.declared r)) < 2 ^ 62 → (∀ rb, In rb bs → In rb (blocks_of (messages r))) →
  filter_map (fun rj : string * Json => pair rj.1 <$> read_block (restoring r) rj.2)
    (filter_map (fun rb : string * ContentBlock =>
       pair rb.1 <$> render_block (Names.from_request r) (Names.ids_from_request r) rb.2) bs) =
  filter_map (fun rb : string * ContentBlock => pair rb.1 <$> block_said rb.2) bs.
Proof.
  intros Hn. induction bs as [|[role b] bs IH]; intros Hin; [done|].
  pose proof (block_read r role b Hn (Hin _ (or_introl eq_refl))) as Hb.
  cbn [filter_map fst snd]. rewrite <-Hb, <-IH by (intros rb Hrb; apply Hin; by right).
  by destruct (render_block _ _ b).
Qed.

Lemma opening_In names ids ms :
  opening (fold_left (add_turn names ids) ms []) = [] ∨
  opening (fold_left (add_turn names ids) ms []) = [("user", JObject [("text", JString CONTINUED)])] ∧
  ∃ j rest, spread (fold_left (add_turn names ids) ms []) = ("assistant", j) :: rest.
Proof.
  destruct (turns_spec names ids ms []) as [[_ Hs _] _]; [by split|].
  destruct (fold_left (add_turn names ids) ms []) as [|[role [|j js]] turns]; [by left|..].
  - by apply Forall_cons in Hs as [? _].
  - cbn [opening]. destruct (Str.eqb role "assistant") eqn:E; [|by left]. apply Str.str_eqb_eq in E as ->.
    right. split; [done|]. by eexists _, _.
Qed.

Lemma turns_read r body :
  Z.of_nat (length (Names.declared r)) < 2 ^ 62 → render_request r = Ok body →
  let said := filter_map (fun rb : string * ContentBlock => pair rb.1 <$> block_said rb.2)
    (blocks_of (messages r)) in
  read_turns (restoring r) body = said ∨
  (∃ b rest, said = ("assistant", b) :: rest) ∧
    read_turns (restoring r) body = ("user", BText CONTINUED None) :: said.
Proof.
  intros Hn (_ & fs & _ & _ & -> & _ & _ & Hm & _)%converse_rendered said.
  unfold read_turns. cbn [idx]. rewrite Hm. cbn [from_option Datatypes.id array_or_empty as_array].
  unfold render_messages, turns_of. rewrite spread_read, opened_spread.
  set (names := Names.from_request r). set (ids := Names.ids_from_request r).
  destruct (turns_spec names ids (messages r) []) as [_ Hs]; [by split|].
  pose proof (blocks_read r (blocks_of (messages r)) Hn (fun _ H => H)) as Hread.
  rewrite filter_map_app, Hs. change (spread [] ++ ?l) with l.
  unfold names, ids in *. rewrite Hread. change (filter_map _ (blocks_of (messages r))) with said.
  destruct (opening_In (Names.from_request r) (Names.ids_from_request r) (messages r)) as
    [-> |[-> (j & rest & Hfirst)]]; [by left|right]. split; [|done].
  rewrite Hs in Hfirst. change (spread [] ++ ?l) with l in Hfirst. rewrite Hfirst in Hread.
  assert (In ("assistant", j) (("assistant", j) :: rest)) as Hj by by left. rewrite <-Hfirst in Hj.
  apply filter_map_In in Hj as ([role b] & Hb & Hr). cbn [fst snd] in Hr.
  pose proof (block_read r role b Hn Hb) as Hbr.
  destruct (render_block _ _ b) as [j'|] eqn:E; [|done]. injection Hr as -> ->.
  cbn [filter_map fst snd] in Hread. unfold said. rewrite <-Hread, Hbr.
  destruct b as [text c| | | |]; try discriminate E; try by eexists _, _.
  apply text_block_Some in E as [_ E]. unfold block_said, item_said. rewrite E. by eexists _, _.
Qed.

Definition read_tool (names : Names.FunctionNameMap) (v : Json) : Tool :=
  let spec := idx v "toolSpec" in {|
  tool_name := Names.original names (str_or "" (idx spec "name"));
  description := str_or "" (idx spec "description");
  input_schema := idx (idx spec "inputSchema") "json"; tool_cache_control := None |}.

Definition bare (t : Tool) : Tool := {|
  tool_name := tool_name t; description := description t; input_schema := input_schema t;
  tool_cache_control := None |}.

Definition read_choice (names : Names.FunctionNameMap) (v : Json) : option ToolChoice :=
  match get v "auto", get v "any", get v "tool" with
  | Some _, _, _ => Some ChoiceAuto
  | _, Some _, _ => Some ChoiceRequired
  | _, _, Some tool => Some (ChoiceTool (Names.original names (str_or "" (idx tool "name"))))
  | _, _, _ => None
  end.

(** The tools a body declares, its choice among them, and its schema. *)
Definition tools_of (body : Json) : list Json := array_or_empty (idx (idx body "toolConfig") "tools").
Definition choice_of (body : Json) : Json := idx (idx body "toolConfig") "toolChoice".
Definition schema_of (body : Json) : option (string * string) :=
  let schema := idx (idx (idx (idx body "outputConfig") "textFormat") "structure") "jsonSchema" in
  match as_str (idx schema "name"), as_str (idx schema "schema") with
  | Some name, Some text => Some (name, text)
  | _, _ => None
  end.

Lemma tools_read r :
  Z.of_nat (length (Names.declared r)) < 2 ^ 62 →
  map (read_tool (restoring r)) (map (render_tool (Names.from_request r)) (config_tools r)) =
  map bare (config_tools r).
Proof.
  intros Hn. rewrite map_map. apply map_ext_in. intros t Ht%tool_declared.
  destruct (Names.from_request_back r _ Hn Ht) as (_ & Ho & _).
  unfold render_tool. destruct (Str.is_empty (description t)) eqn:E; cbn [negb put_if].
  - unfold bare, read_tool. change (Names.original (restoring r) ?x) with (Names.original (Names.from_request r) x).
    cbn [idx field from_option]. cbn. rewrite Ho. by destruct (description t).
  - change (read_tool (restoring r) _) with {|
      tool_name := Names.original (Names.from_request r) (Names.wire (Names.from_request r) (tool_name t));
      description := description t; input_schema := input_schema t; tool_cache_control := None |}.
    by rewrite Ho.
Qed.

Lemma config_read r config :
  Z.of_nat (length (Names.declared r)) < 2 ^ 62 →
  render_tool_config r (Names.from_request r) = Ok config →
  let c := default JNull config in
  map (read_tool (restoring r)) (array_or_empty (idx c "tools")) = map bare (config_tools r) ∧
  read_choice (restoring r) (idx c "toolChoice") =
    match config_tools r with [] => None | _ => tool_choice r end.
Proof.
  intros Hn H c. pose proof (tools_read r Hn) as Ht. unfold render_tool_config in H.
  destruct (config_tools r) as [|t ts] eqn:Et; [by injection H as <-|].
  destruct (tool_choice r) as [choice|] eqn:Ec; [|by injection H as <-].
  destruct (render_choice (Names.from_request r) choice) as [j|] eqn:Ej; [|done]. injection H as <-.
  split; [exact Ht|]. change (read_choice (restoring r) j = Some choice).
  destruct choice as [| | |name]; try (injection Ej as <-; reflexivity); [done|]. injection Ej as <-.
  change (Some (ChoiceTool (Names.original (Names.from_request r) (Names.wire (Names.from_request r) name))) =
    Some (ChoiceTool name)).
  destruct (Names.from_request_back r name Hn) as (_ & -> & _); [|done].
  unfold Names.declared. rewrite Ec, !in_app_iff. right. left. by left.
Qed.

(** A Converse request says what was asked.  Read as Converse's documents
    have it, and its names and ids restored as the answer's will be, the body
    holds the conversation block by block in its order -- less blank text,
    thinking and cache breakpoints, merged into turns, with a word of the
    gateway's in front where the model spoke first --, the tools or what stands
    in for those the history called, the choice among them, the system prompt,
    the ceiling, the stop sequences and the schema. *)
Theorem converse_request_roundtrip r body :
  Z.of_nat (length (Names.declared r)) < 2 ^ 62 → is_uint U32_MAX (max_tokens r) →
  render_request r = Ok body →
  let said := filter_map (fun rb : string * ContentBlock => pair rb.1 <$> block_said rb.2)
    (blocks_of (messages r)) in
  (read_turns (restoring r) body = said ∨
   (∃ b rest, said = ("assistant", b) :: rest) ∧
     read_turns (restoring r) body = ("user", BText CONTINUED None) :: said) ∧
  map (read_tool (restoring r)) (tools_of body) = map bare (config_tools r) ∧
  read_choice (restoring r) (choice_of body) =
    match config_tools r with [] => None | _ => tool_choice r end ∧
  map (fun b => str_or "" (idx b "text")) (array_or_empty (idx body "system")) =
    filter_map (fun b => match b with BText text _ => if is_blank text then None else Some text | _ => None end)
      (system r) ∧
  as_u64 (idx (idx body "inferenceConfig") "maxTokens") = Some (max_tokens r) ∧
  map (str_or "") (array_or_empty (idx (idx body "inferenceConfig") "stopSequences")) =
    keep (fun s => negb (Str.is_empty s)) (stop r) ∧
  schema_of body = match response_format r with
    | Some (FormatJsonSchema name schema _) => Some (name, to_string schema) | _ => None end.
Proof.
  intros Hn Hmax H said. split; [by apply turns_read|].
  apply converse_rendered in H as (_ & fs & config & output & -> & Hc & Ho & _ & Hinf & Hs & Hcf & Hof).
  destruct (config_read r config Hn Hc) as [H1 H2]. unfold tools_of, choice_of, schema_of.
  cbn [idx]. rewrite Hinf, Hs, Hcf, Hof. split; [done|]. split; [done|]. split_and!.
  - assert (filter_map (fun b => match b with BText text _ => if is_blank text then None else Some text
        | _ => None end) (system r) =
      map (fun b => str_or "" (idx b "text")) (filter_map system_block (system r))) as ->.
    { clear. induction (system r) as [|b bs IH]; [done|]. cbn [filter_map]. rewrite IH.
      destruct b; try done. cbn [system_block]. unfold text_block. by destruct (is_blank text). }
    by destruct (filter_map system_block (system r)).
  - unfold inference_config. cbn [from_option Datatypes.id idx]. rewrite field_put_nonempty.
    change (Str.eqb "stopSequences" "maxTokens") with false. cbn [field].
    change (Str.eqb "maxTokens" "maxTokens") with true. cbv iota. cbn [from_option Datatypes.id].
    apply as_u64_num. unfold is_uint, U32_MAX in Hmax. unfold U64_MAX. lia.
  - unfold inference_config. cbn [from_option Datatypes.id idx]. rewrite field_put_nonempty.
    change (Str.eqb "stopSequences" "stopSequences") with true. cbv iota.
    destruct (keep _ (stop r)) as [|x xs]; [done|]. cbn [from_option Datatypes.id array_or_empty as_array strings].
    rewrite map_map. cbn. by rewrite map_id.
  - destruct (response_format r) as [[]|]; try done; by injection Ho as <-.
Qed.

End codec.

(** A history that opens with the model, calls a tool under another provider's
    id, gets nothing back, and declares no tools. *)
Definition converse_example : CanonicalRequest := {|
  model := "m"; system := [BText "be brief" None; BText " " None];
  messages := [
    {| role := RoleAssistant; content := [BText "" None; BToolUse "read_file#1" "fs.read" (JObject [])] |};
    {| role := RoleTool; content := [BToolResult "read_file#1" (ResultText "") false] |};
    {| role := RoleUser; content := [BText "go on" None] |}];
  req_tools := []; max_tokens := 100; stream := true; thinking_budget := None;
  thinking_effort := None; client_session := None; tool_choice := Some ChoiceAuto;
  response_format := None; stop := ["END"; ""]; previous_response_id := None; passthrough := None |}.

Lemma converse_request_is_accepted_witness :
  match render_request a_printer converse_example with
  | Ok body => acceptable body = true ∧ length (array_or_empty (idx body "messages")) = 3%nat
  | Err _ => False
  end.
Proof.
  pose proof (converse_request_is_accepted a_printer converse_example) as H.
  assert (match render_request a_printer converse_example with
    | Ok body => length (array_or_empty (idx body "messages")) = 3%nat | Err _ => False end) as Hl
    by (vm_compute; reflexivity).
  destruct (render_request a_printer converse_example) as [body|]; [|done]. split; [|exact Hl].
  apply H; [done|by vm_compute|].
  intros role id c e Hin. cbn in Hin. destruct Hin as [Hx|[Hx|[Hx|[Hx|[]]]]]; try discriminate Hx.
  exists "assistant", "fs.read", (JObject []). right. left. by injection Hx as _ <- _ _.
Defined.

Lemma converse_request_roundtrip_witness :
  match render_request a_printer converse_example with
  | Ok body => read_turns (restoring converse_example) body =
      [("user", BText CONTINUED None); ("assistant", BToolUse "read_file#1" "fs.read" (JObject []));
       ("user", BToolResult "read_file#1" (ResultBlocks [BText NO_OUTPUT None]) false);
       ("user", BText "go on" None)]
  | Err _ => False
  end.
Proof.
  destruct (render_request a_printer converse_example) as [body|] eqn:E; [|vm_compute in E; discriminate E].
  pose proof (converse_request_roundtrip a_printer converse_example body) as [[H|[_ H]] _]; [done|done|done|..|exact H].
  exfalso. injection E as <-. vm_compute in H. discriminate H.
Defined.

End Converse.
