(* ===== verification/ConverseStream.v ===== *)
(** * A Converse answer, whole and streamed

    Bedrock gives one answer in two shapes, and [converse.rs] reads each into
    events: [parse_response] a body, [parse_event] the stream's messages one by
    one.  Here an answer is written both ways, as the service documents them,
    and the two readings compared. *)

From Stdlib Require Import Ascii.
From S2P Require Import Prelude Text Money Domain Efforts Catalog Cost.
From S2P Require Import Ladder Classify Budget Policy Canonical Wire Names Stream.
From S2P Require Import Anthropic AnthropicStream Hub Frames Converse.
#[local] Open Scope string_scope.
#[local] Open Scope oag_scope.
#[local] Open Scope list_scope.
#[local] Open Scope Z_scope.

(** A part of an answer, in the fragments a stream gives it in. *)
Inductive Part : Type :=
  | PText (fragments : list string)
  | PThought (fragments : list string)
  | PCall (id name : string) (input : Json) (fragments : list string).

Record Answer : Type := { a_parts : list Part; a_reason : string; a_usage : Usage }.

Module ConverseStream.
Import Js Wire.

Definition usage_json (u : Usage) : Json := JObject [
  ("inputTokens", num (input_tokens u)); ("outputTokens", num (output_tokens u));
  ("totalTokens", num (Usages.total u));
  ("cacheReadInputTokens", num (cache_read_tokens u));
  ("cacheWriteInputTokens", num (cache_write_tokens u))].

(** ** Whole *)

Definition part_json (p : Part) : Json :=
  match p with
  | PText fs => JObject [("text", JString (AnthropicStream.join fs))]
  | PThought fs =>
      JObject [("reasoningContent", JObject [("reasoningText",
        JObject [("text", JString (AnthropicStream.join fs))])])]
  | PCall id name input _ =>
      JObject [("toolUse", JObject [("toolUseId", JString id); ("name", JString name); ("input", input)])]
  end.

Definition body_of (a : Answer) : Json := JObject [
  ("output", JObject [("message", JObject [("role", JString "assistant");
    ("content", JArray (map part_json (a_parts a)))])]);
  ("stopReason", JString (a_reason a)); ("usage", usage_json (a_usage a))].

(** ** Streamed: each message's type and payload *)

Definition indexed (i : Z) (fs : Fields) : Json := JObject (fs ++ [("contentBlockIndex", num i)]).

Definition delta (i : Z) (d : string * Json) : string * Json :=
  ("contentBlockDelta", indexed i [("delta", JObject [d])]).

Definition part_stream (i : Z) (p : Part) : list (string * Json) :=
  match p with
  | PText fs => map (fun f => delta i ("text", JString f)) fs
  | PThought fs => map (fun f => delta i ("reasoningContent", JObject [("text", JString f)])) fs
  | PCall id name _ fs =>
      ("contentBlockStart", indexed i [("start", JObject [("toolUse",
         JObject [("toolUseId", JString id); ("name", JString name)])])])
      :: map (fun f => delta i ("toolUse", JObject [("input", JString f)])) fs
  end ++ [("contentBlockStop", indexed i [])].

Fixpoint parts_stream (i : Z) (ps : list Part) : list (string * Json) :=
  match ps with [] => [] | p :: ps => part_stream i p ++ parts_stream (i + 1) ps end.

Definition stream_of (a : Answer) : list (string * Json) :=
  ("messageStart", JObject [("role", JString "assistant")])
  :: parts_stream 0 (a_parts a)
  ++ [("messageStop", JObject [("stopReason", JString (a_reason a))]);
      ("metadata", JObject [("usage", usage_json (a_usage a))])].

Section codec.
Context (to_string : Json → string) (from_json : string → option Json).

(** A text has a fragment, and a call's fragments are its arguments' text. *)
Definition whole (p : Part) : Prop :=
  match p with
  | PText fs | PThought fs => fs ≠ []
  | PCall _ _ input fs => fs ≠ [] ∧ AnthropicStream.join fs = to_string input
  end.

(** ** Reading a stream *)

Definition read_one (x : StreamAccumulator * list StreamEvent) (kv : string * Json)
    : StreamAccumulator * list StreamEvent :=
  let '(es, a) := Converse.parse_stream_event kv.1 kv.2 x.1 in (Stream.observe_all a es, x.2 ++ es).

Definition read_all (l : list (string * Json)) (x : StreamAccumulator * list StreamEvent) :=
  fold_left read_one l x.

(** The account of an answer, and what a client's body is put together from. *)
Record Account : Type := { ac_acc : StreamAccumulator; ac_hub : HubState }.

Definition tell (x : Account) (es : list StreamEvent) : Account := {|
  ac_acc := Stream.observe_all (ac_acc x) es;
  ac_hub := fold_left (Hub.hub_step from_json) es (ac_hub x) |}.

Definition heard (start : HubState) (x : StreamAccumulator * list StreamEvent) : Account :=
  {| ac_acc := x.1; ac_hub := fold_left (Hub.hub_step from_json) x.2 start |}.

Lemma tell_app x es fs : tell x (es ++ fs) = tell (tell x es) fs.
Proof. unfold tell, Stream.observe_all. cbn. by rewrite !fold_left_app. Qed.

Lemma sat_add_add n a b : 0 ≤ a → 0 ≤ b →
  sat_add U64_MAX (sat_add U64_MAX n a) b = sat_add U64_MAX n (a + b).
Proof. unfold sat_add. lia. Qed.

(** One text, in however many fragments. *)
Lemma text_tell (th : bool) f g x :
  let ev t := if th then EvThinkingDelta t else EvTextDelta t in
  tell x [ev f; ev g] = tell x [ev (f +:+ g)].
Proof.
  intros ev. unfold tell. f_equal.
  - unfold ev. destruct th; cbn; unfold Stream.set_text; cbn;
      by rewrite Str.len_append, sat_add_add by apply Str.len_nonneg.
  - unfold ev. destruct x as [a h]. cbn [ac_hub]. destruct th; cbn [fold_left Hub.hub_step];
      destruct (h_open h) as [[]|]; cbn; unfold Hub.set_open, Hub.reopen; cbn; by rewrite ?Str.append_assoc.
Qed.

Lemma texts_tell (th : bool) fs f x :
  let ev t := if th then EvThinkingDelta t else EvTextDelta t in
  tell x (map ev (f :: fs)) = tell x [ev (AnthropicStream.join (f :: fs))].
Proof.
  intros ev. revert f. induction fs as [|g fs IH]; intros f.
  - cbn. by rewrite Str.append_empty_r.
  - change (map ev (f :: g :: fs)) with ([ev f; ev g] ++ map ev fs).
    rewrite tell_app. unfold ev at 1 2. rewrite (text_tell th f g x), <-tell_app.
    change ([?e] ++ map ev fs) with (map ev ((f +:+ g) :: fs)). rewrite IH. unfold AnthropicStream.join.
    cbn. by rewrite Str.append_assoc.
Qed.

Lemma push_to_twice id f g bufs :
  Stream.push_to id g (Stream.push_to id f bufs) = Stream.push_to id (f +:+ g) bufs.
Proof.
  induction bufs as [|[k buf] bufs IH]; [done|]. cbn [Stream.push_to].
  destruct (Str.eqb k id) eqn:E; cbn [Stream.push_to]; rewrite E; [by rewrite Str.append_assoc|by rewrite IH].
Qed.

Lemma argument_tell id f g x :
  tell x [EvToolUseDelta id f; EvToolUseDelta id g] = tell x [EvToolUseDelta id (f +:+ g)].
Proof.
  unfold tell. f_equal.
  - cbn. unfold Stream.set_tools. cbn. by rewrite push_to_twice.
  - destruct x as [a h]. cbn [ac_hub fold_left Hub.hub_step].
    destruct (h_open h) as [[| |open name input]|]; cbn; rewrite ?Str.str_eqb_refl; try done.
    destruct (Str.eqb open id) eqn:E; cbn; rewrite ?E, ?Str.str_eqb_refl; [|done].
    unfold Hub.set_open. cbn. by rewrite Str.append_assoc.
Qed.

Lemma arguments_tell id fs f x :
  tell x (map (EvToolUseDelta id) (f :: fs)) = tell x [EvToolUseDelta id (AnthropicStream.join (f :: fs))].
Proof.
  revert f. induction fs as [|g fs IH]; intros f.
  - cbn. by rewrite Str.append_empty_r.
  - change (map (EvToolUseDelta id) (f :: g :: fs)) with
      ([EvToolUseDelta id f; EvToolUseDelta id g] ++ map (EvToolUseDelta id) fs).
    rewrite tell_app, argument_tell, <-tell_app.
    change ([?e] ++ map (EvToolUseDelta id) fs) with (map (EvToolUseDelta id) ((f +:+ g) :: fs)).
    rewrite IH. unfold AnthropicStream.join. cbn. by rewrite Str.append_assoc.
Qed.

(** ** A part of the stream *)

Lemma read_each (Q : StreamAccumulator → Prop) (mk : string → string * Json) (ev : string → StreamEvent) :
  (∀ f a, Q a → Converse.parse_stream_event (mk f).1 (mk f).2 a = ([ev f], a)) →
  (∀ f a, Q a → Q (Stream.observe a (ev f))) →
  ∀ fs x, Q x.1 → Q (Stream.observe_all x.1 (map ev fs)) ∧
    read_all (map mk fs) x = (Stream.observe_all x.1 (map ev fs), x.2 ++ map ev fs).
Proof.
  intros Hmk HQ fs. induction fs as [|f fs IH]; intros [a es] Ha; cbn [fst snd] in *.
  { split; [done|]. cbn. by rewrite app_nil_r. }
  unfold read_all. cbn [map fold_left]. unfold read_one at 2. cbn [fst snd]. rewrite Hmk by done.
  destruct (IH (Stream.observe_all a [ev f], es ++ [ev f])) as [H1 H2]; [by apply HQ|].
  cbn [fst snd] in *. split; [exact H1|]. unfold read_all in H2. rewrite H2, <-app_assoc. done.
Qed.

(** Between parts. *)
Record at_rest (names : Names.FunctionNameMap) (a : StreamAccumulator) : Prop := {
  ar_open : open_tool a = None;
  ar_held : held_stop a = None;
  ar_names : function_names a = names
}.

(** The events a part is read as. *)
Definition part_events (names : Names.FunctionNameMap) (p : Part) : list StreamEvent :=
  match p with
  | PText fs => map EvTextDelta fs
  | PThought fs => map EvThinkingDelta fs
  | PCall id name _ fs =>
      let id := Names.original_tool_use_id names id in
      EvToolUseStart id (Names.original names name) :: map (EvToolUseDelta id) fs ++ [EvToolUseEnd id]
  end.

Lemma fragments_read (th : bool) names mk fs x :
  let ev t := if th then EvThinkingDelta t else EvTextDelta t in
  (∀ f a, Converse.parse_stream_event (mk f).1 (mk f).2 a = ([ev f], a)) →
  at_rest names x.1 →
  at_rest names (Stream.observe_all x.1 (map ev fs)) ∧
  read_all (map mk fs) x = (Stream.observe_all x.1 (map ev fs), x.2 ++ map ev fs).
Proof.
  intros ev Hmk. apply (read_each (at_rest names) mk ev); [done|].
  intros f a [H1 H2 H3]. unfold ev. by destruct th.
Qed.

Lemma stop_read i x names :
  at_rest names x.1 → read_one x ("contentBlockStop", indexed i []) = x.
Proof.
  intros [H _ _]. unfold read_one. cbn [fst snd].
  change (Converse.parse_stream_event "contentBlockStop" (indexed i []) x.1) with
    (match Stream.open_tool_id x.1 with Some id => [EvToolUseEnd id] | None => [] end, x.1).
  unfold Stream.open_tool_id. rewrite H, app_nil_r. by destruct x.
Qed.

(** While a call is open. *)
Record in_call (names : Names.FunctionNameMap) (id : string) (a : StreamAccumulator) : Prop := {
  ic_current : Stream.current_tool_id a = Some id;
  ic_open : open_tool a = Some id;
  ic_held : held_stop a = None;
  ic_names : function_names a = names
}.

Lemma push_to_ids id partial bufs : map fst (Stream.push_to id partial bufs) = map fst bufs.
Proof.
  induction bufs as [|[k b] bufs IH]; [done|]. cbn. destruct (Str.eqb k id); cbn; [done|by rewrite IH].
Qed.

Lemma current_of a : Stream.current_tool_id a = last (map fst (tool_buffers a)).
Proof.
  unfold Stream.current_tool_id.
  destruct (tool_buffers a) as [|[k b] l _] using rev_ind; [done|].
  rewrite rev_unit, map_app. cbn [map fst]. by rewrite last_snoc.
Qed.

Lemma in_call_delta names id a f : in_call names id a → in_call names id (Stream.observe a (EvToolUseDelta id f)).
Proof.
  intros [H1 H2 H3 H4]. split; [|done..]. rewrite current_of in *. cbn. by rewrite push_to_ids.
Qed.

Lemma in_call_start names id name a :
  at_rest names a → in_call names id (Stream.observe a (EvToolUseStart id name)).
Proof. intros [_ H2 H3]. split; [|done..]. rewrite current_of.
  change (last (map fst (tool_buffers a ++ [(id, EmptyString)])) = Some id).
  rewrite map_app. cbn [map fst]. by rewrite last_snoc.
Qed.

Lemma call_read i id name input fs x names :
  at_rest names x.1 →
  let evs := part_events names (PCall id name input fs) in
  at_rest names (Stream.observe_all x.1 evs) ∧
  read_all (part_stream i (PCall id name input fs)) x = (Stream.observe_all x.1 evs, x.2 ++ evs).
Proof.
  intros Hx evs. set (oid := Names.original_tool_use_id names id).
  set (start := EvToolUseStart oid (Names.original names name)).
  assert (read_one x ("contentBlockStart", indexed i [("start", JObject [("toolUse",
    JObject [("toolUseId", JString id); ("name", JString name)])])]) =
    (Stream.observe x.1 start, x.2 ++ [start])) as Hstart.
  { unfold start, oid. destruct Hx as [_ _ <-]. done. }
  destruct (read_each (in_call names oid) (fun f => delta i ("toolUse", JObject [("input", JString f)]))
    (EvToolUseDelta oid)) with (fs := fs) (x := (Stream.observe x.1 start, x.2 ++ [start])) as [Hc Hr].
  - intros f a Ha. change (Converse.parse_stream_event _ _ a) with
      ([EvToolUseDelta (default "" (Stream.current_tool_id a)) f], a). by rewrite (ic_current _ _ _ Ha).
  - intros f a. apply in_call_delta.
  - by apply in_call_start.
  - cbn [fst snd] in Hc, Hr.
    assert (Stream.observe_all x.1 evs =
      Stream.observe (Stream.observe_all (Stream.observe x.1 start) (map (EvToolUseDelta oid) fs))
        (EvToolUseEnd oid)) as He.
    { unfold evs, Stream.observe_all. cbn [part_events fold_left]. by rewrite fold_left_app. }
    rewrite He. split; [destruct Hc; by split|].
    unfold part_stream, read_all in *. cbn [app fold_left]. rewrite fold_left_app, Hstart, Hr.
    cbn [fold_left]. unfold read_one. cbn [fst snd].
    change (Converse.parse_stream_event "contentBlockStop" (indexed i []) ?a) with
      (match Stream.open_tool_id a with Some id => [EvToolUseEnd id] | None => [] end, a).
    unfold Stream.open_tool_id. rewrite (ic_open _ _ _ Hc). cbn. rewrite <-!app_assoc. done.
Qed.

Lemma part_streamed i p x names :
  at_rest names x.1 →
  at_rest names (Stream.observe_all x.1 (part_events names p)) ∧
  read_all (part_stream i p) x =
    (Stream.observe_all x.1 (part_events names p), x.2 ++ part_events names p).
Proof.
  intros Hx. destruct p as [fs|fs|id name input fs]; [..|by apply (call_read i id name input fs)].
  - destruct (fragments_read false names (fun f => delta i ("text", JString f)) fs x) as [H1 H2]; [done..|].
    split; [done|]. unfold part_stream, read_all in *. rewrite fold_left_app, H2. by apply (stop_read i (_, _) names).
  - destruct (fragments_read true names
      (fun f => delta i ("reasoningContent", JObject [("text", JString f)])) fs x) as [H1 H2]; [done..|].
    split; [done|]. unfold part_stream, read_all in *. rewrite fold_left_app, H2. by apply (stop_read i (_, _) names).
Qed.

Lemma parts_streamed ps i x names :
  at_rest names x.1 →
  let evs := List.concat (map (part_events names) ps) in
  at_rest names (Stream.observe_all x.1 evs) ∧
  read_all (parts_stream i ps) x = (Stream.observe_all x.1 evs, x.2 ++ evs).
Proof.
  revert i x; induction ps as [|p ps IH]; intros i x Hx evs.
  { split; [done|]. cbn. rewrite app_nil_r. by destruct x. }
  destruct (part_streamed i p x names Hx) as [H1 H2].
  destruct (IH (i + 1) (Stream.observe_all x.1 (part_events names p), x.2 ++ part_events names p) H1) as [H3 H4].
  cbn [fst snd] in H3, H4. unfold evs. cbn [map List.concat parts_stream].
  unfold Stream.observe_all, read_all in *. rewrite !fold_left_app, H2. split; [done|].
  by rewrite H4, app_assoc.
Qed.

(** A part, whole or in fragments, leaves the same account. *)
Lemma part_tell names p x :
  whole p →
  tell x (part_events names p) =
  tell x (Stream.restore_in_events names (Converse.block_events to_string (part_json p))).
Proof.
  intros Hp. destruct p as [[|f fs]|[|f fs]|id name input [|f fs]]; try done.
  - apply (texts_tell false).
  - apply (texts_tell true).
  - by destruct Hp.
  - destruct Hp as [_ Hj]. cbn [part_events].
    change (?e :: map ?g ?l ++ ?r) with ([e] ++ map g l ++ r). rewrite !tell_app, arguments_tell, Hj.
    by rewrite <-!tell_app.
Qed.

Lemma parts_tell names ps x :
  Forall whole ps →
  tell x (List.concat (map (part_events names) ps)) =
  tell x (Stream.restore_in_events names
    (List.concat (map (Converse.block_events to_string) (map part_json ps)))).
Proof.
  intros H. revert x; induction H as [|p ps Hp _ IH]; intros x; [done|].
  cbn [map List.concat]. unfold Stream.restore_in_events in *. rewrite map_app, !tell_app.
  by rewrite IH, (part_tell names p x Hp).
Qed.

(** ** The reports *)

(** A report before the answer or with its stop. *)
Definition report (u : Usage) (x : Account) : Account := tell x [EvUsageUpdate u].

Definition plain (e : StreamEvent) : bool :=
  match e with EvStart _ _ | EvUsageUpdate _ | EvStop _ _ => false | _ => true end.

Lemma report_later u x es : all plain es = true → tell (report u x) es = report u (tell x es).
Proof.
  revert x; induction es as [|e es IH]; intros x H; [done|]. cbn [all List.forallb] in H.
  apply andb_true_iff in H as [He H]. change (e :: es) with ([e] ++ es). rewrite !tell_app.
  rewrite <-IH by done. f_equal. destruct x as [a [c o us st m]].
  destruct e as [| | | |id partial| | | |]; try done; unfold report, tell; cbn;
    destruct o as [[]|]; try done; cbn; by destruct (Str.eqb _ _).
Qed.

Lemma report_stop reason u x : tell (report u x) [EvStop reason u] = tell x [EvStop reason u].
Proof.
  assert (∀ v, Usages.merge (Usages.merge v u) u = Usages.merge v u) as Hm.
  { intros v. unfold Usages.merge. cbn. f_equal; lia. }
  unfold tell, report, tell. cbn. f_equal.
  - unfold Stream.set_usage. cbn. by rewrite Hm.
  - unfold Hub.report. cbn. by rewrite Hm.
Qed.

Lemma parts_plain names ps :
  all plain (Stream.restore_in_events names
    (List.concat (map (Converse.block_events to_string) (map part_json ps)))) = true.
Proof.
  apply all_true. intros e (e0 & <- & He)%in_map_iff. apply in_concat in He as (l & Hl & He).
  apply in_map_iff in Hl as (j & <- & Hj). apply in_map_iff in Hj as (p & <- & _).
  destruct p as [fs|fs|id name input fs]; cbn in He; [destruct He as [<-|[]]..|]; [done..|].
  by destruct He as [<-|[<-|[<-|[]]]].
Qed.

Lemma usage_read u : usage_ok u → Converse.parse_usage (usage_json u) = u.
Proof.
  intros (H1 & H2 & H3 & H4). unfold Converse.parse_usage.
  change (idx (usage_json u) "inputTokens") with (num (input_tokens u)).
  change (idx (usage_json u) "outputTokens") with (num (output_tokens u)).
  change (idx (usage_json u) "cacheReadInputTokens") with (num (cache_read_tokens u)).
  change (idx (usage_json u) "cacheWriteInputTokens") with (num (cache_write_tokens u)).
  rewrite !as_u64_num by done. by destruct u.
Qed.

(** The account before anything is said. *)
Definition unsaid (names : Names.FunctionNameMap) (model : string) : Account :=
  {| ac_acc := Stream.with_function_names Stream.new names; ac_hub := Hub.hub_new model |}.

Lemma body_told names model a :
  usage_ok (a_usage a) →
  tell (unsaid names model) (Stream.restore_in_events names (Converse.parse_response to_string (body_of a))) =
  tell (tell (unsaid names model) (Stream.restore_in_events names
    (List.concat (map (Converse.block_events to_string) (map part_json (a_parts a))))))
    [EvStop (Converse.parse_stop_reason (a_reason a)) (a_usage a)].
Proof.
  intros Hu. unfold Converse.parse_response.
  change (idx (body_of a) "usage") with (usage_json (a_usage a)). rewrite usage_read by done.
  change (array_or_empty _) with (map part_json (a_parts a)).
  change (as_str (idx (body_of a) "stopReason")) with (Some (a_reason a)). cbv iota.
  set (evs := List.concat _). unfold Stream.restore_in_events.
  change (map (Stream.restore_event names) (EvUsageUpdate (a_usage a) :: evs ++ [?e])) with
    ([EvUsageUpdate (a_usage a)] ++ map (Stream.restore_event names) (evs ++ [e])).
  rewrite tell_app, map_app, tell_app.
  change (tell (unsaid names model) [EvUsageUpdate (a_usage a)]) with (report (a_usage a) (unsaid names model)).
  rewrite report_later by apply parts_plain. apply report_stop.
Qed.

Lemma ending_read acc es a :
  usage_ok (a_usage a) → held_stop acc = None →
  fold_left read_one [("messageStop", JObject [("stopReason", JString (a_reason a))]);
    ("metadata", JObject [("usage", usage_json (a_usage a))])] (acc, es) =
  let stop := EvStop (Converse.parse_stop_reason (a_reason a)) (a_usage a) in
  (Stream.observe acc stop, es ++ [stop]).
Proof.
  intros Hu Hheld. cbn [fold_left].
  change (read_one (acc, es) ("messageStop", _)) with
    (Stream.hold_stop acc (Converse.parse_stop_reason (a_reason a)), es ++ []).
  unfold read_one. cbn [fst snd]. rewrite app_nil_r.
  change (Converse.parse_stream_event "metadata" ?e ?x) with (Converse.metadata e x).
  unfold Converse.metadata. change (idx (JObject _) "usage") with (usage_json (a_usage a)).
  rewrite usage_read by done. destruct acc. cbn in Hheld. by subst.
Qed.

(** What a stream is read as. *)
Definition stream_events (names : Names.FunctionNameMap) (a : Answer) : list StreamEvent :=
  [EvStart "" no_usage] ++ List.concat (map (part_events names) (a_parts a))
  ++ [EvStop (Converse.parse_stop_reason (a_reason a)) (a_usage a)].

Lemma stream_read names a :
  usage_ok (a_usage a) →
  read_all (stream_of a) (Stream.with_function_names Stream.new names, []) =
  (Stream.observe_all (Stream.with_function_names Stream.new names) (stream_events names a),
   stream_events names a).
Proof.
  intros Hu. unfold stream_events. set (evs := List.concat (map (part_events names) (a_parts a))).
  destruct (parts_streamed (a_parts a) 0 (Stream.with_function_names Stream.new names, [EvStart "" no_usage]) names)
    as [Hrest Hread]; [done|]. cbn [fst snd] in Hrest, Hread. fold evs in Hrest, Hread.
  unfold stream_of, read_all in *. cbn [fold_left]. rewrite fold_left_app.
  change (read_one (Stream.with_function_names Stream.new names, []) ("messageStart", _)) with
    (Stream.with_function_names Stream.new names, [EvStart "" no_usage]).
  rewrite Hread. destruct Hrest as [_ Hheld _]. rewrite ending_read by done. cbv zeta. f_equal.
  unfold Stream.observe_all. by rewrite !fold_left_app.
Qed.

(** The stream's events, read one message at a time, say what the body's do. *)
Lemma stream_told names model a :
  usage_ok (a_usage a) → Forall whole (a_parts a) →
  heard (Hub.hub_new model) (read_all (stream_of a) (Stream.with_function_names Stream.new names, [])) =
  tell (unsaid names model) (Stream.restore_in_events names (Converse.parse_response to_string (body_of a))).
Proof.
  intros Hu Hw. rewrite body_told, <-parts_tell, stream_read by done.
  unfold heard, stream_events. cbn [fst snd]. rewrite <-tell_app. done.
Qed.

Lemma stream_ends names a :
  let es := stream_events names a in
  filter_map (fun e => match e with EvError m => Some m | _ => None end) es = [] ∧
  is_Some (stop_reason (Stream.observe_all (Stream.with_function_names Stream.new names) es)).
Proof.
  intros es. unfold es, stream_events. rewrite !filter_map_app. split.
  - assert (∀ ps, filter_map (fun e => match e with EvError m => Some m | _ => None end)
      (List.concat (map (part_events names) ps)) = []) as ->; [|done].
    assert (∀ (ev : string → StreamEvent) (fs : list string), (∀ f, match ev f with EvError _ => False | _ => True end) →
      filter_map (fun e => match e with EvError m => Some m | _ => None end) (map ev fs) = []) as Hmap.
    { intros ev fs Hev. induction fs as [|f fs IH]; [done|]. cbn. specialize (Hev f). by destruct (ev f). }
    induction ps as [|p ps IH]; [done|]. cbn [map List.concat]. rewrite filter_map_app, IH, app_nil_r.
    destruct p as [fs|fs|id name input fs]; cbn [part_events]; [by apply Hmap..|].
    cbn [filter_map]. rewrite filter_map_app. by rewrite Hmap.
  - unfold Stream.observe_all. rewrite !fold_left_app. by eexists.
Qed.

End codec.
End ConverseStream.
