(* ===== verification/OpenAI.v ===== *)
(** * The OpenAI Chat Completions dialect

    [crates/oag-proto/src/openai.rs]: requests out and in, responses and
    stream events in.  Rendering a stream and a completion is [OpenAIStream].
    Printing and parsing JSON texts are parameters; the [f32] temperature is
    left out. *)

From Stdlib Require Import Ascii.
From S2P Require Import Prelude Text Money Domain Efforts Catalog Cost.
From S2P Require Import Ladder Classify Budget Policy Canonical Wire Names Stream Anthropic.
#[local] Open Scope string_scope.
#[local] Open Scope oag_scope.
#[local] Open Scope list_scope.
#[local] Open Scope Z_scope.

Module OpenAI.
Import Js Wire.

(** ** Which models refuse [max_tokens] *)

(** [rsplit('/').next().unwrap_or(..)]. *)
Definition bare_name (upstream_model : string) : string :=
  match Str.rsplit_once upstream_model "/"%char with Some (_, name) => name | None => upstream_model end.

(** [split(['.', '-']).next()]. *)
Fixpoint until_separator (s : string) : string :=
  match s with
  | EmptyString => EmptyString
  | String c s => if any (Ascii.eqb c) ["."; "-"]%char then EmptyString else String c (until_separator s)
  end.

Definition o_series (name : string) : bool :=
  match Str.strip_prefix name "o" with
  | Some (String c _) => Str.is_ascii_digit c
  | _ => false
  end.

Definition reasoning_model (upstream_model : string) : bool :=
  let name := bare_name upstream_model in
  if o_series name then true
  else match Str.strip_prefix name "gpt-" with
       | Some rest => match parse_uint U32_MAX (until_separator rest) with
                      | Some major => 5 <=? major | None => false end
       | None => false
       end.

(** ** Requests out *)

Definition text_of_block (b : ContentBlock) : option string :=
  match b with BText text _ => Some text | _ => None end.

Definition render_tool (names : Names.FunctionNameMap) (t : Tool) : Json :=
  JObject [("type", JString "function"); ("function", JObject [
    ("name", JString (Names.wire names (tool_name t))); ("description", JString (description t));
    ("parameters", input_schema t)])].

Definition render_tool_choice (c : ToolChoice) (names : Names.FunctionNameMap) : Json :=
  match c with
  | ChoiceAuto => JString "auto"
  | ChoiceRequired => JString "required"
  | ChoiceNone => JString "none"
  | ChoiceTool name =>
      JObject [("type", JString "function");
        ("function", JObject [("name", JString (Names.wire names name))])]
  end.

Definition render_response_format (f : ResponseFormat) : Json :=
  match f with
  | FormatText => JObject [("type", JString "text")]
  | FormatJsonObject => JObject [("type", JString "json_object")]
  | FormatJsonSchema name schema strict =>
      JObject [("type", JString "json_schema"); ("json_schema", JObject [
        ("name", JString name); ("schema", schema); ("strict", JBool strict)])]
  end.

Definition data_url (media_type data : string) : string :=
  "data:" +:+ media_type +:+ ";base64," +:+ data.

Section codec.
(** [Value::to_string] and [serde_json::from_str]. *)
Context (to_string : Json → string) (from_json : string → option Json).

Definition render_result (b : ContentBlock) : option Json :=
  match b with
  | BToolResult tool_use_id content _ =>
      Some (JObject [("role", JString "tool"); ("tool_call_id", JString tool_use_id);
        ("content", JString (Canonical.as_text content))])
  | _ => None
  end.

Definition render_call (names : Names.FunctionNameMap) (b : ContentBlock) : option Json :=
  match b with
  | BToolUse id name input =>
      Some (JObject [("id", JString id); ("type", JString "function"); ("function", JObject [
        ("name", JString (Names.wire names name)); ("arguments", JString (to_string input))])])
  | _ => None
  end.

Definition render_image (b : ContentBlock) : option Json :=
  match b with
  | BImage media_type data =>
      Some (JObject [("type", JString "image_url");
        ("image_url", JObject [("url", JString (data_url media_type data))])])
  | _ => None
  end.

Definition render_message (m : Message) (names : Names.FunctionNameMap) : list Json :=
  let out := filter_map render_result (content m) in
  let text := Str.join "" (filter_map text_of_block (content m)) in
  let tool_calls := filter_map (render_call names) (content m) in
  let images := filter_map render_image (content m) in
  match Str.is_empty text, tool_calls, images with
  | true, [], [] => out
  | _, _, _ =>
      let msg := [("role", JString (match role m with
        | RoleAssistant => "assistant" | RoleSystem => "system" | _ => "user" end))] in
      let msg := match images with
        | [] => put "content" (JString text) msg
        | _ => put "content" (JArray (JObject [("type", JString "text"); ("text", JString text)] :: images)) msg
        end in
      out ++ [JObject (put_nonempty tool_calls "tool_calls" (JArray tool_calls) msg)]
  end.

Definition PARAGRAPH : string := String "010" (String "010" "").

Definition render_system (blocks : list ContentBlock) : list Json :=
  match blocks with
  | [] => []
  | _ =>
      let text := Str.join PARAGRAPH (filter_map text_of_block blocks) in
      if Str.is_empty text then []
      else [JObject [("role", JString "system"); ("content", JString text)]]
  end.

Definition asked_effort (r : CanonicalRequest) : option Effort :=
  match thinking_effort r with Some e => Some e | None => Canonical.from_budget <$> thinking_budget r end.

Definition render_request (r : CanonicalRequest) (upstream_model : string) : result Json Error :=
  let names := Names.from_request r in
  let messages := render_system (system r)
    ++ List.concat (map (fun m => render_message m names) (messages r)) in
  let body := [("model", JString upstream_model); ("messages", JArray messages);
    ("stream", JBool (stream r))] in
  let body := if reasoning_model upstream_model
    then put "max_completion_tokens" (num (max_tokens r)) body
    else put "max_tokens" (num (max_tokens r)) body in
  let body := put_some (asked_effort r) "reasoning_effort"
    (fun e => JString (Canonical.effort_as_str e)) body in
  let body := put_if (stream r) "stream_options" (JObject [("include_usage", JBool true)]) body in
  let body := put_nonempty (req_tools r) "tools" (JArray (map (render_tool names) (req_tools r))) body in
  if bool_decide (is_Some (previous_response_id r))
  then Err (UnsupportedField "previous_response_id" OpenAIChatCompletions)
  else
    let body := put_some (tool_choice r) "tool_choice" (fun c => render_tool_choice c names) body in
    let body := put_some (response_format r) "response_format" render_response_format body in
    Ok (JObject (put_nonempty (stop r) "stop" (strings (stop r)) body)).

(** ** Requests in *)

Definition parse_tool_choice (v : Json) : option ToolChoice :=
  match as_str v with
  | Some s =>
      if Str.eqb s "auto" then Some ChoiceAuto
      else if Str.eqb s "required" || Str.eqb s "any" then Some ChoiceRequired
      else if Str.eqb s "none" then Some ChoiceNone
      else None
  | None =>
      match as_str (idx (idx v "function") "name") with
      | Some name => Some (ChoiceTool name)
      | None => ChoiceTool <$> as_str (idx v "name")
      end
  end.

Definition parse_response_format (v : Json) : option ResponseFormat :=
  match as_str (idx v "type") with
  | None => None
  | Some t =>
      if Str.eqb t "text" then Some FormatText
      else if Str.eqb t "json_object" then Some FormatJsonObject
      else if Str.eqb t "json_schema" then
        let s := idx v "json_schema" in
        Some (FormatJsonSchema (str_or "response" (idx s "name")) (idx s "schema")
          (default false (as_bool (idx s "strict"))))
      else None
  end.

Definition parse_stop (v : Json) : list string :=
  match v with
  | JString s => [s]
  | JArray items => filter_map as_str items
  | _ => []
  end.

(** [split_once(sep)] at the first occurrence of a separator that is a
    string. *)
Fixpoint split_once_str (s sep : string) : option (string * string) :=
  match Str.strip_prefix s sep with
  | Some rest => Some (EmptyString, rest)
  | None =>
      match s with
      | EmptyString => None
      | String c s => (fun x : string * string => (String c x.1, x.2)) <$> split_once_str s sep
      end
  end.

Definition split_data_url (url : string) : option (string * string) :=
  match Str.strip_prefix url "data:" with
  | Some rest => split_once_str rest ";base64,"
  | None => None
  end.

Definition push_part (p : Json) : option ContentBlock :=
  let t := str_or "" (idx p "type") in
  if Str.eqb t "text" then Some (BText (str_or "" (idx p "text")) None)
  else if Str.eqb t "image_url" then
    (fun x : string * string => BImage x.1 x.2)
      <$> split_data_url (str_or "" (idx (idx p "image_url") "url"))
  else None.

Definition parse_call (call : Json) : ContentBlock :=
  let f := idx call "function" in
  BToolUse (str_or "" (idx call "id")) (str_or "" (idx f "name"))
    (default (JObject []) (match as_str (idx f "arguments") with Some a => from_json a | None => None end)).

Definition system_text (text : string) : ContentBlock := BText text None.
Definition part_text (p : Json) : option string := as_str (idx p "text").

Definition parse_result (m : Json) : ContentBlock :=
  BToolResult (str_or "" (idx m "tool_call_id"))
    (ResultText (match idx m "content" with
       | JString s => s
       | JArray parts => Str.join (String "010" "") (filter_map part_text parts)
       | other => to_string other
       end)) false.

(** A block pushed onto the last message, when that is the user's. *)
Definition join_user_turn (block : ContentBlock) (messages : list Message) : list Message :=
  match last messages with
  | Some {| role := RoleUser; content := blocks |} =>
      removelast messages ++ [{| role := RoleUser; content := blocks ++ [block] |}]
  | _ => messages ++ [{| role := RoleUser; content := [block] |}]
  end.

Definition message_content (m : Json) : list ContentBlock :=
  match idx m "content" with
  | JString s => if negb (Str.is_empty s) then [BText s None] else []
  | JArray parts => filter_map push_part parts
  | _ => []
  end ++ map parse_call (array_or_empty (idx m "tool_calls")).

(** [system] and [messages], which the function is given to grow. *)
#[local] Abbreviation Conversation := (list ContentBlock * list Message)%type.

Definition parse_one_message (c : Conversation) (m : Json) : Conversation :=
  let '(system, messages) := c in
  let role := str_or "user" (idx m "role") in
  if Str.eqb role "system" || Str.eqb role "developer" then
    (system ++ match idx m "content" with
       | JString text => [system_text text]
       | JArray parts => map system_text (filter_map part_text parts)
       | _ => []
       end, messages)
  else if Str.eqb role "tool" then (system, join_user_turn (parse_result m) messages)
  else
    match message_content m with
    | [] => c
    | content =>
        (system, messages ++ [{| role := if bool_decide (as_str (idx m "role") = Some "assistant")
                                         then RoleAssistant else RoleUser;
                                 content := content |}])
    end.

Definition parse_tool (v : Json) : option Tool :=
  let f := idx v "function" in
  match as_str (idx f "name") with
  | None => None
  | Some name => Some {|
      tool_name := name; description := str_or "" (idx f "description");
      input_schema := idx f "parameters"; tool_cache_control := None |}
  end.

Definition parse_max_tokens (body : Json) : Z :=
  let asked := match as_u64 (idx body "max_completion_tokens") with
    | Some n => Some n | None => as_u64 (idx body "max_tokens") end in
  default 4096 (Anthropic.try_u32 (default 4096 asked)).

Definition parse_request (body : Json) : CanonicalRequest :=
  let '(sys, msgs) := fold_left parse_one_message (array_or_empty (idx body "messages")) ([], []) in {|
  model := str_or "" (idx body "model");
  system := sys;
  messages := msgs;
  req_tools := filter_map parse_tool (array_or_empty (idx body "tools"));
  max_tokens := parse_max_tokens body;
  stream := default false (as_bool (idx body "stream"));
  thinking_budget := None;
  thinking_effort := match as_str (idx body "reasoning_effort") with
    | Some s => Canonical.effort_parse s | None => None end;
  client_session := as_str (idx body "user");
  tool_choice := parse_tool_choice (idx body "tool_choice");
  response_format := parse_response_format (idx body "response_format");
  stop := parse_stop (idx body "stop");
  previous_response_id := None;
  passthrough := None |}.

(** ** Responses in *)

Definition parse_usage (v : Json) : Usage :=
  let cached := default 0 (as_u64 (idx (idx v "prompt_tokens_details") "cached_tokens")) in {|
  input_tokens := sat_sub (default 0 (as_u64 (idx v "prompt_tokens"))) cached;
  output_tokens := default 0 (as_u64 (idx v "completion_tokens"));
  cache_read_tokens := cached;
  cache_write_tokens := 0 |}.

Definition finish_reason (raw : string) (called_a_tool refused : bool) : StopReason :=
  if Str.eqb raw "length" then StopMaxTokens
  else if Str.eqb raw "tool_calls" || Str.eqb raw "function_call" then StopToolUse
  else if Str.eqb raw "content_filter" then StopRefusal
  else if refused then StopRefusal
  else if called_a_tool then StopToolUse
  else StopEndTurn.

(** [as_str().filter(|t| !t.is_empty())]. *)
Definition said (v : Json) : option string :=
  match as_str v with Some t => if Str.is_empty t then None else Some t | None => None end.

(** [a.as_str().or_else(|| b.as_str()).filter(|t| !t.is_empty())]. *)
Definition said_either (a b : Json) : option string :=
  match as_str a with Some _ => said a | None => said b end.

Definition resolve_opened (opened : list string) (acc : StreamAccumulator) (index : nat) : option string :=
  match Stream.tool_id_at acc index with
  | Some id => Some id
  | None =>
      let already := length (Stream.tool_ids acc) in
      if (already <=? index)%nat then opened !! (index - already)%nat else None
  end.

(** One fragment of [tool_calls]: the calls this payload opened, grown, and the
    events. *)
Definition call_fragment (acc : StreamAccumulator) (st : list string * list StreamEvent) (call : Json)
    : list string * list StreamEvent :=
  let '(opened, events) := st in
  let announced := said (idx call "id") in
  let f := idx call "function" in
  let '(opened, events) :=
    match announced with
    | Some id => (opened ++ [id], events ++
        [EvToolUseStart id (Stream.restore_function_name acc (str_or "" (idx f "name")))])
    | None => (opened, events)
    end in
  match said (idx f "arguments") with
  | None => (opened, events)
  | Some args =>
      let at_index := match as_u64 (idx call "index") with
        | Some i => resolve_opened opened acc (Z.to_nat i) | None => None end in
      let id := match announced, at_index, last opened, Stream.current_tool_id acc with
        | Some id, _, _, _ | None, Some id, _, _ | None, None, Some id, _
        | None, None, None, Some id => id
        | None, None, None, None => ""
        end in
      (opened, events ++ [EvToolUseDelta id args])
  end.

Definition finish_events (acc : StreamAccumulator) (opened : list string) (choice : Json) : list StreamEvent :=
  match said (idx choice "finish_reason") with
  | None => []
  | Some reason =>
      let ended := Stream.tool_ids acc
        ++ keep (fun id => negb (any (Str.eqb id) (Stream.tool_ids acc))) opened in
      map EvToolUseEnd ended
      ++ [EvStop (finish_reason reason
            (Stream.saw_tool_call acc || negb (bool_decide (opened = []))) (saw_refusal acc)) no_usage]
  end.

(** What a payload says, and the accumulator with what it is told directly. *)
Definition event_of (v : Json) (acc : StreamAccumulator) : list StreamEvent * StreamAccumulator :=
  let usage := match v with
    | JObject fs => match field "usage" fs with
        | Some u => if is_null u then [] else [EvUsageUpdate (parse_usage u)] | None => [] end
    | _ => []
    end in
  match as_array (idx v "choices") with
  | Some (choice :: _) =>
      let delta := idx choice "delta" in
      let text := EvTextDelta <$> said (idx delta "content") in
      let refusal := EvTextDelta <$> said (idx delta "refusal") in
      let acc := match refusal with Some _ => Stream.note_refusal acc | None => acc end in
      let thinking := EvThinkingDelta <$> said_either (idx delta "reasoning_content") (idx delta "reasoning") in
      let '(opened, calls) :=
        fold_left (call_fragment acc) (array_or_empty (idx delta "tool_calls")) ([], []) in
      (usage ++ option_list text ++ option_list refusal ++ option_list thinking ++ calls
         ++ finish_events acc opened choice, acc)
  | _ => (usage, acc)
  end.

Definition parse_event (payload : string) (acc : StreamAccumulator)
    : result (list StreamEvent * StreamAccumulator) Error :=
  if Str.eqb payload "[DONE]" then Ok ([], acc)
  else let? v := ok_or (from_json payload) (Serde payload) in Ok (event_of v acc).

(** [choices[0]]. *)
Definition first_of (v : Json) : Json := default JNull (head (array_or_empty v)).

Definition whole_call (call : Json) : list StreamEvent :=
  let id := str_or "" (idx call "id") in
  let f := idx call "function" in
  [EvToolUseStart id (str_or "" (idx f "name")); EvToolUseDelta id (str_or "" (idx f "arguments"));
   EvToolUseEnd id].

Definition parse_response (body : Json) : list StreamEvent :=
  let usage := parse_usage (idx body "usage") in
  let choice := first_of (idx body "choices") in
  let message := idx choice "message" in
  let refused := said (idx message "refusal") in
  let tool_calls := array_or_empty (idx message "tool_calls") in
  EvUsageUpdate usage
  :: option_list (EvTextDelta <$> said (idx message "content"))
  ++ option_list (EvTextDelta <$> refused)
  ++ option_list (EvThinkingDelta <$>
       said_either (idx message "reasoning_content") (idx message "reasoning"))
  ++ List.concat (map whole_call tool_calls)
  ++ match said (idx choice "finish_reason") with
     | Some reason =>
         [EvStop (finish_reason reason (negb (bool_decide (tool_calls = [])))
            (bool_decide (is_Some refused))) usage]
     | None => []
     end.

(** ** What a request is read back as *)

(** A conversation as this dialect can say it: each turn's results first, as
    text on the user's turn; then its text joined, its images and its calls
    under their wire names; a system turn's text with the system prompt. *)
Definition result_back (b : ContentBlock) : option ContentBlock :=
  match b with
  | BToolResult id content _ => Some (BToolResult id (ResultText (Canonical.as_text content)) false)
  | _ => None
  end.

Definition call_back (names : Names.FunctionNameMap) (b : ContentBlock) : option ContentBlock :=
  match b with BToolUse id name input => Some (BToolUse id (Names.wire names name) input) | _ => None end.

Definition image_back (b : ContentBlock) : option ContentBlock :=
  match b with BImage media_type data => Some (BImage media_type data) | _ => None end.

Definition turn_text (m : Message) : string := Str.join "" (filter_map text_of_block (content m)).

Definition turn_blocks (names : Names.FunctionNameMap) (m : Message) : list ContentBlock :=
  match filter_map image_back (content m) with
  | [] => if Str.is_empty (turn_text m) then [] else [BText (turn_text m) None]
  | images => BText (turn_text m) None :: images
  end ++ filter_map (call_back names) (content m).

Definition chat_turn (names : Names.FunctionNameMap) (c : Conversation) (m : Message) : Conversation :=
  let '(system, messages) := c in
  let messages := fold_left (fun ms b => join_user_turn b ms) (filter_map result_back (content m)) messages in
  match turn_blocks names m with
  | [] => (system, messages)
  | blocks =>
      match role m with
      | RoleSystem => (system ++ [BText (turn_text m) None], messages)
      | RoleAssistant => (system, messages ++ [{| role := RoleAssistant; content := blocks |}])
      | _ => (system, messages ++ [{| role := RoleUser; content := blocks |}])
      end
  end.

Definition chat_system (blocks : list ContentBlock) : list ContentBlock :=
  let text := Str.join PARAGRAPH (filter_map text_of_block blocks) in
  if Str.is_empty text then [] else [BText text None].

Definition chat_tool (names : Names.FunctionNameMap) (t : Tool) : Tool := {|
  tool_name := Names.wire names (tool_name t); description := description t;
  input_schema := input_schema t; tool_cache_control := None |}.

Definition chat_choice (names : Names.FunctionNameMap) (c : ToolChoice) : ToolChoice :=
  match c with ChoiceTool name => ChoiceTool (Names.wire names name) | c => c end.

Section requests.
(** Printing a value and parsing the text gives the value. *)
Context (print_parse : ∀ v, from_json (to_string v) = Some v).

(** A media type, as [image/png], holds no semicolon. *)
Definition plain_image (b : ContentBlock) : Prop :=
  match b with BImage media_type _ => ¬ In ";"%char (Str.bytes media_type) | _ => True end.

Lemma strip_app p s : Str.strip_prefix (p +:+ s) p = Some s.
Proof. by apply Str.strip_prefix_Some. Qed.

Lemma split_once_eq s sep :
  split_once_str s sep =
  match Str.strip_prefix s sep with
  | Some rest => Some (EmptyString, rest)
  | None =>
      match s with
      | EmptyString => None
      | String c s => (fun x : string * string => (String c x.1, x.2)) <$> split_once_str s sep
      end
  end.
Proof. by destruct s. Qed.

Lemma split_once_first a sep c t s :
  ¬ In c (Str.bytes a) → Str.strip_prefix t (String c sep) = Some s →
  split_once_str (a +:+ t) (String c sep) = Some (a, s).
Proof.
  intros H Ht. induction a as [|x a IH].
  - change ("" +:+ t) with t. by rewrite split_once_eq, Ht.
  - cbn in H. change (String x a +:+ t) with (String x (a +:+ t)). rewrite split_once_eq. cbn [Str.strip_prefix].
    destruct (Ascii.eqb_spec c x) as [->|]; [naive_solver|]. by rewrite IH by naive_solver.
Qed.

Lemma data_url_back media_type data :
  ¬ In ";"%char (Str.bytes media_type) →
  split_data_url (data_url media_type data) = Some (media_type, data).
Proof.
  intros H. unfold split_data_url, data_url. rewrite strip_app.
  apply split_once_first; [done|]. apply (strip_app ";base64,").
Qed.

Lemma image_part b :
  plain_image b → match render_image b with Some p => push_part p = image_back b | None => image_back b = None end.
Proof.
  intros Hb. destruct b; try done. cbn -[data_url split_data_url]. by rewrite data_url_back.
Qed.

Lemma images_back bs :
  Forall plain_image bs → filter_map push_part (filter_map render_image bs) = filter_map image_back bs.
Proof.
  induction 1 as [|b bs Hb _ IH]; [done|]. cbn [filter_map]. apply image_part in Hb.
  destruct (render_image b) as [p|]; rewrite ?Hb; [|done]. cbn [filter_map]. rewrite Hb, IH.
  by destruct (image_back b).
Qed.

Lemma chat_calls_back names bs :
  map parse_call (filter_map (render_call names) bs) = filter_map (call_back names) bs.
Proof.
  induction bs as [|b bs IH]; [done|]. cbn [filter_map].
  destruct b as [| |id name input| |]; cbn [render_call call_back map]; rewrite IH; try done.
  unfold parse_call. cbn. by rewrite print_parse.
Qed.

Lemma results_back bs c :
  fold_left parse_one_message (filter_map render_result bs) c =
  (c.1, fold_left (fun ms b => join_user_turn b ms) (filter_map result_back bs) c.2).
Proof.
  revert c; induction bs as [|b bs IH]; intros [sys msgs]; [done|]. cbn [filter_map].
  destruct b; cbn [render_result result_back fold_left]; rewrite IH; done.
Qed.

Lemma no_images bs : filter_map render_image bs = [] ↔ filter_map image_back bs = [].
Proof. induction bs as [|[] bs IH]; cbn; by rewrite ?IH. Qed.

Lemma no_calls names bs : filter_map (render_call names) bs = [] ↔ filter_map (call_back names) bs = [].
Proof. induction bs as [|[] bs IH]; cbn; by rewrite ?IH. Qed.

(** The message a turn is rendered to, besides its results. *)
Definition turn_fields (names : Names.FunctionNameMap) (m : Message) : Fields :=
  let images := filter_map render_image (content m) in
  let tool_calls := filter_map (render_call names) (content m) in
  put_nonempty tool_calls "tool_calls" (JArray tool_calls)
    [("role", JString (match role m with
        | RoleAssistant => "assistant" | RoleSystem => "system" | _ => "user" end));
     ("content", match images with
        | [] => JString (turn_text m)
        | _ => JArray (JObject [("type", JString "text"); ("text", JString (turn_text m))] :: images)
        end)].

Lemma message_fields names m :
  render_message m names = filter_map render_result (content m) ++
  match turn_blocks names m with [] => [] | _ => [JObject (turn_fields names m)] end.
Proof.
  unfold render_message, turn_fields, turn_blocks. fold (turn_text m).
  pose proof (no_images (content m)) as Hi. pose proof (no_calls names (content m)) as Hc.
  destruct (filter_map render_image (content m)) as [|i ims] eqn:Ei;
    [rewrite (proj1 Hi eq_refl)|
     destruct (filter_map image_back (content m)); [by pose proof (proj2 Hi eq_refl)|]];
    (destruct (filter_map (render_call names) (content m)) as [|k ks] eqn:Ek;
      [rewrite (proj1 Hc eq_refl)|
       destruct (filter_map (call_back names) (content m)); [by pose proof (proj2 Hc eq_refl)|]]);
    destruct (Str.is_empty (turn_text m)); cbn; by rewrite ?app_nil_r.
Qed.

Lemma turn_content names m :
  Forall plain_image (content m) → role m ≠ RoleSystem →
  message_content (JObject (turn_fields names m)) = turn_blocks names m.
Proof.
  intros Hp _. unfold message_content, turn_blocks, turn_fields, array_or_empty, as_array. cbn [idx].
  rewrite !field_put_nonempty. change (Str.eqb "tool_calls" "content") with false.
  change (Str.eqb "tool_calls" "tool_calls") with true. cbn -[filter_map push_part].
  pose proof (no_images (content m)) as Hi. pose proof (images_back _ Hp) as Hb.
  f_equal.
  - destruct (filter_map render_image (content m)) as [|i ims] eqn:Ei.
    + rewrite (proj1 Hi eq_refl). by destruct (Str.is_empty (turn_text m)).
    + destruct (filter_map image_back (content m)) as [|b bs] eqn:Eb; [by pose proof (proj2 Hi eq_refl)|].
      rewrite <-Hb. reflexivity.
  - rewrite <-chat_calls_back. by destruct (filter_map (render_call names) (content m)).
Qed.

Lemma image_no_text bs : filter_map part_text (filter_map render_image bs) = [].
Proof. by induction bs as [|[] bs IH]. Qed.

Lemma turn_system names m :
  idx (JObject (turn_fields names m)) "content" =
  match filter_map render_image (content m) with
  | [] => JString (turn_text m)
  | images => JArray (JObject [("type", JString "text"); ("text", JString (turn_text m))] :: images)
  end.
Proof. unfold turn_fields. cbn [idx]. rewrite field_put_nonempty. by destruct (filter_map render_image (content m)). Qed.

Lemma turn_role names m :
  idx (JObject (turn_fields names m)) "role" = JString (match role m with
    | RoleAssistant => "assistant" | RoleSystem => "system" | _ => "user" end).
Proof. unfold turn_fields. cbn [idx]. rewrite field_put_nonempty. reflexivity. Qed.

Lemma turn_back names m c :
  Forall plain_image (content m) →
  fold_left parse_one_message (render_message m names) c = chat_turn names c m.
Proof.
  intros Hp. rewrite message_fields, fold_left_app, results_back. destruct c as [sys msgs].
  cbn [fst snd]. unfold chat_turn. set (ms := fold_left _ _ msgs).
  destruct (turn_blocks names m) as [|b bs] eqn:Eb; [done|]. cbn [fold_left]. unfold parse_one_message.
  rewrite turn_role. destruct (role m) eqn:Er; cbn [str_or as_str default from_option Datatypes.id].
  - rewrite turn_system. pose proof (image_no_text (content m)) as Hi.
    destruct (filter_map render_image (content m)) as [|i ims]; [done|].
    change (filter_map part_text (JObject _ :: i :: ims))
      with (turn_text m :: filter_map part_text (i :: ims)). by rewrite Hi.
  - rewrite turn_content, Eb by congruence. done.
  - rewrite turn_content, Eb by congruence. done.
  - rewrite turn_content, Eb by congruence. done.
Qed.

Lemma system_back bs :
  fold_left parse_one_message (render_system bs) ([], []) = (chat_system bs, []).
Proof.
  unfold render_system, chat_system. destruct bs as [|b bs]; [done|].
  by destruct (Str.is_empty (Str.join _ _)).
Qed.

Lemma conversation_back names ms c :
  Forall (fun m => Forall plain_image (content m)) ms →
  fold_left parse_one_message (List.concat (map (fun m => render_message m names) ms)) c =
  fold_left (chat_turn names) ms c.
Proof.
  intros H. revert c; induction H as [|m ms Hm _ IH]; intros c; [done|].
  cbn [map List.concat fold_left]. by rewrite fold_left_app, turn_back.
Qed.

Lemma chat_tools_back names ts :
  filter_map parse_tool (array_or_empty (default JNull
    (Anthropic.or_none ts (JArray (map (render_tool names) ts))))) = map (chat_tool names) ts.
Proof.
  destruct ts as [|t ts]; [done|].
  change (filter_map parse_tool (map (render_tool names) (t :: ts)) = map (chat_tool names) (t :: ts)).
  induction (t :: ts) as [|x l IH]; [done|]. cbn [map filter_map]. by rewrite IH.
Qed.

Lemma chat_choice_back names c : parse_tool_choice (render_tool_choice c names) = Some (chat_choice names c).
Proof. by destruct c. Qed.

Lemma format_back f : parse_response_format (render_response_format f) = Some f.
Proof. by destruct f as [| |? ? []]. Qed.

(** What the keys of a rendered body read. *)
Lemma chat_rendered r upstream_model body :
  render_request r upstream_model = Ok body →
  let names := Names.from_request r in
  previous_response_id r = None ∧
  ∃ fs, body = JObject fs ∧
    field "model" fs = Some (JString upstream_model) ∧
    field "messages" fs = Some (JArray (render_system (system r)
      ++ List.concat (map (fun m => render_message m names) (messages r)))) ∧
    field "stream" fs = Some (JBool (stream r)) ∧
    field "max_tokens" fs = (if reasoning_model upstream_model then None else Some (num (max_tokens r))) ∧
    field "max_completion_tokens" fs =
      (if reasoning_model upstream_model then Some (num (max_tokens r)) else None) ∧
    field "reasoning_effort" fs = (fun e => JString (Canonical.effort_as_str e)) <$> asked_effort r ∧
    field "stream_options" fs =
      (if stream r then Some (JObject [("include_usage", JBool true)]) else None) ∧
    field "tools" fs = Anthropic.or_none (req_tools r) (JArray (map (render_tool names) (req_tools r))) ∧
    field "tool_choice" fs = (fun c => render_tool_choice c names) <$> tool_choice r ∧
    field "response_format" fs = render_response_format <$> response_format r ∧
    field "stop" fs = Anthropic.or_none (stop r) (strings (stop r)) ∧
    field "user" fs = None.
Proof.
  unfold render_request. cbv zeta.
  destruct (previous_response_id r);
    [by rewrite bool_decide_true by done|rewrite bool_decide_false by by intros []].
  intros [= <-]. split; [done|]. eexists. split; [done|].
  destruct (reasoning_model upstream_model);
    repeat split; rewrite field_put_nonempty, !field_put_some, field_put_nonempty, field_put_if,
      field_put_some, field_put; cbn; try done;
    by destruct (stream r), (asked_effort r), (req_tools r), (tool_choice r), (response_format r), (stop r).
Qed.

(** What a server of this dialect is sent says what was asked.  Read back,
    a rendered request has the model, the ceiling, the stream flag, the stop
    sequences, the answer's format and the effort it had, a budget read as the
    nearest level; its tools and the tool it insists on under their wire names;
    and its conversation turn for turn, each turn's text, images, calls with
    their arguments and results in the places this dialect has for them, the
    system prompt never turned into a user's turn.  The ceiling is written once,
    under the name the model knows, and a streamed request asks for the usage
    it is billed by.  A request that continues a stored response is refused. *)
Theorem chat_request_roundtrip r upstream_model :
  0 ≤ max_tokens r ≤ U32_MAX →
  Forall (fun m => Forall plain_image (content m)) (messages r) →
  match render_request r upstream_model with
  | Err e => e = UnsupportedField "previous_response_id" OpenAIChatCompletions ∧
      is_Some (previous_response_id r)
  | Ok body =>
      let names := Names.from_request r in
      let read := parse_request body in
      previous_response_id r = None ∧
      model read = upstream_model ∧ max_tokens read = max_tokens r ∧ stream read = stream r ∧
      stop read = stop r ∧ response_format read = response_format r ∧
      thinking_effort read = asked_effort r ∧
      req_tools read = map (chat_tool names) (req_tools r) ∧
      tool_choice read = chat_choice names <$> tool_choice r ∧
      (system read, messages read) =
        fold_left (chat_turn names) (messages r) (chat_system (system r), []) ∧
      (idx body "max_tokens" = JNull ↔ reasoning_model upstream_model = true) ∧
      (idx body "max_completion_tokens" = JNull ↔ reasoning_model upstream_model = false) ∧
      (as_bool (idx (idx body "stream_options") "include_usage") = Some true ↔ stream r = true)
  end.
Proof.
  intros Hm Hp. destruct (render_request r upstream_model) as [body|e] eqn:E.
  2: { unfold render_request in E. cbv zeta in E. destruct (previous_response_id r).
       - rewrite bool_decide_true in E by done. by injection E as <-.
       - by rewrite bool_decide_false in E by by intros []. }
  apply chat_rendered in E as (Hpr & fs & -> & Hmo & Hme & Hst & Hmt & Hmc & Hre & Hso & Hto & Htc & Hrf & Hss & Hu).
  intros names read. unfold read, parse_request, parse_max_tokens. cbn [idx].
  rewrite Hmo, Hme, Hst, Hmt, Hmc, Hre, Hso, Hto, Htc, Hrf, Hss, Hu.
  change (array_or_empty (default JNull (Some (JArray ?l)))) with l.
  rewrite fold_left_app, system_back, conversation_back by done.
  destruct (fold_left _ _ _) as [sys msgs].
  cbn [model system messages req_tools max_tokens stream thinking_effort tool_choice response_format stop].
  split_and!; try done.
  - unfold U32_MAX in Hm.
    destruct (reasoning_model upstream_model); cbn [from_option Datatypes.id as_u64];
      rewrite as_u64_num by (unfold U64_MAX; lia); cbn [from_option Datatypes.id]; unfold Anthropic.try_u32;
      by rewrite (proj2 (Z.leb_le _ _)) by (unfold U32_MAX; lia).
  - destruct (stop r) as [|x l]; [done|]. apply (strings_back (x :: l)).
  - destruct (response_format r); [apply format_back|done].
  - destruct (asked_effort r); [apply Canonical.effort_parse_as_str|done].
  - apply chat_tools_back.
  - destruct (tool_choice r); [apply chat_choice_back|done].
  - by destruct (reasoning_model upstream_model).
  - by destruct (reasoning_model upstream_model).
  - by destruct (stream r).
Qed.

End requests.

End codec.

(** ** Witnesses *)

Definition chat_example : CanonicalRequest := {|
  model := "fast"; system := [BText "Be brief." None; BText "Be kind." (Some Ephemeral)];
  messages := [
    {| role := RoleUser; content := [BText "hi" None; BImage "image/png" "AAAA"] |};
    {| role := RoleAssistant; content := [BToolUse "c1" "read file" (JObject [("n", JNumber "1")])] |};
    {| role := RoleUser; content := [BToolResult "c1" (ResultBlocks [BText "a" None; BText "b" None]) false;
                                     BText "go on" None] |}];
  req_tools := [{| tool_name := "read file"; description := "reads"; input_schema := JObject [];
                   tool_cache_control := None |}];
  max_tokens := 100; stream := true; thinking_budget := Some 9000; thinking_effort := None;
  client_session := None; tool_choice := Some (ChoiceTool "read file"); response_format := Some FormatJsonObject;
  stop := ["END"]; previous_response_id := None; passthrough := None |}.

Lemma chat_request_roundtrip_witness :
  match render_request a_printer chat_example "openai/gpt-5.1" with
  | Ok body =>
      messages (parse_request a_printer a_parser body) = [
        {| role := RoleUser; content := [BText "hi" None; BImage "image/png" "AAAA"] |};
        {| role := RoleAssistant; content := [BToolUse "c1" "read_file" (JObject [("n", JNumber "1")])] |};
        {| role := RoleUser; content := [BToolResult "c1" (ResultText (String "a" (String "010" "b"))) false] |};
        {| role := RoleUser; content := [BText "go on" None] |}] ∧
      thinking_effort (parse_request a_printer a_parser body) = Some Medium ∧
      idx body "max_tokens" = JNull
  | Err _ => False
  end.
Proof.
  pose proof (chat_request_roundtrip a_printer a_parser a_printer_parses chat_example "openai/gpt-5.1") as H.
  destruct (render_request a_printer chat_example "openai/gpt-5.1") as [body|e].
  - destruct H as (_ & _ & _ & _ & _ & _ & He & _ & _ & Hm & Ht & _).
    + split; cbn; unfold U32_MAX; lia.
    + repeat (first [apply List.Forall_cons | apply List.Forall_nil]); cbn; try done.
      intros H. repeat destruct H as [H|H]; done.
    + split; [|split; [exact He|by apply Ht]].
      assert (messages (parse_request a_printer a_parser body) =
        (fold_left (chat_turn (Names.from_request chat_example)) (messages chat_example)
          (chat_system (system chat_example), [])).2) as -> by by rewrite <-Hm.
      vm_compute. reflexivity.
  - destruct H as [_ [x Hx]]; [split; cbn; unfold U32_MAX; lia| |discriminate Hx].
    repeat (first [apply List.Forall_cons | apply List.Forall_nil]); cbn; try done.
    intros H. repeat destruct H as [H|H]; done.
Defined.

End OpenAI.
