(* ===== verification/OpenAIStream.v ===== *)
(** * Answering in the Chat Completions dialect

    [RenderState], [render_event] and [render_completion] of
    [crates/oag-proto/src/openai.rs]: the hub's events written as chunks that
    address calls by position, a whole answer as one completion, and what a
    reader of the dialect makes of both. *)

From Stdlib Require Import Ascii.
From S2P Require Import Prelude Text Money Domain Efforts Catalog Cost.
From S2P Require Import Ladder Classify Budget Policy Canonical Wire Names Stream.
From S2P Require Import Anthropic AnthropicStream Hub Frames OpenAI.
#[local] Open Scope string_scope.
#[local] Open Scope oag_scope.
#[local] Open Scope list_scope.
#[local] Open Scope Z_scope.

(** [RenderState] of this dialect. *)
Record ChunkState : Type := {
  cs_id : string;
  cs_model : string;
  role_sent : bool;
  cs_tool_ids : list string;
  cs_finished : bool;
  cs_usage : Usage
}.

Module OpenAIStream.
Import Js Wire.

Definition new (request_id model : string) : ChunkState := {|
  cs_id := "chatcmpl-" +:+ request_id; cs_model := model; role_sent := false; cs_tool_ids := [];
  cs_finished := false; cs_usage := no_usage |}.

Definition set_role_sent (st : ChunkState) : ChunkState := {|
  cs_id := cs_id st; cs_model := cs_model st; role_sent := true; cs_tool_ids := cs_tool_ids st;
  cs_finished := cs_finished st; cs_usage := cs_usage st |}.

Definition set_tool_ids (st : ChunkState) (ids : list string) : ChunkState := {|
  cs_id := cs_id st; cs_model := cs_model st; role_sent := role_sent st; cs_tool_ids := ids;
  cs_finished := cs_finished st; cs_usage := cs_usage st |}.

Definition merge_usage (st : ChunkState) (u : Usage) : ChunkState := {|
  cs_id := cs_id st; cs_model := cs_model st; role_sent := role_sent st; cs_tool_ids := cs_tool_ids st;
  cs_finished := cs_finished st; cs_usage := Usages.merge (cs_usage st) u |}.

Definition announce (st : ChunkState) (model : string) : ChunkState := {|
  cs_id := cs_id st; cs_model := Stream.adopt_model (cs_model st) model; role_sent := role_sent st;
  cs_tool_ids := cs_tool_ids st; cs_finished := cs_finished st; cs_usage := cs_usage st |}.

Definition finish (st : ChunkState) : ChunkState := {|
  cs_id := cs_id st; cs_model := cs_model st; role_sent := role_sent st; cs_tool_ids := cs_tool_ids st;
  cs_finished := true; cs_usage := cs_usage st |}.

Definition tool_index (st : ChunkState) (id : string) : nat * ChunkState :=
  match position (fun t => Str.eqb t id) (cs_tool_ids st) with
  | Some i => (i, st)
  | None => (length (cs_tool_ids st), set_tool_ids st (cs_tool_ids st ++ [id]))
  end.

(** [u64] sums of a release build. *)
Definition wrapping_u64 (n : Z) : Z := n mod (U64_MAX + 1).

Definition prompt_tokens (u : Usage) : Z :=
  wrapping_u64 (input_tokens u + cache_read_tokens u + cache_write_tokens u).

Definition usage_json (u : Usage) : Json := JObject [
  ("prompt_tokens", num (prompt_tokens u)); ("completion_tokens", num (output_tokens u));
  ("total_tokens", num (wrapping_u64 (prompt_tokens u + output_tokens u)));
  ("prompt_tokens_details", JObject [("cached_tokens", num (cache_read_tokens u))])].

Definition chunk_fields (st : ChunkState) (delta : Json) (finish : option string) : Fields := [
  ("id", JString (cs_id st)); ("object", JString "chat.completion.chunk"); ("created", num 0);
  ("model", JString (cs_model st));
  ("choices", JArray [JObject [("index", num 0); ("delta", delta);
    ("finish_reason", match finish with Some f => JString f | None => JNull end)]])].

Definition chunk (st : ChunkState) (delta : Json) (finish : option string) : Json :=
  JObject (chunk_fields st delta finish).

Definition finish_word (reason : StopReason) : string :=
  match reason with
  | StopMaxTokens => "length"
  | StopToolUse => "tool_calls"
  | StopRefusal => "content_filter"
  | StopEndTurn | StopSequence => "stop"
  end.

(** [render_event], to the body of its frame. *)
Definition render_chunk (e : StreamEvent) (st : ChunkState) : option Json * ChunkState :=
  match e with
  | EvStart model usage =>
      let st := set_role_sent (merge_usage (announce st model) usage) in
      (Some (chunk st (JObject [("role", JString "assistant"); ("content", JString "")]) None), st)
  | EvTextDelta text =>
      let delta := if role_sent st then JObject [("content", JString text)]
        else JObject [("role", JString "assistant"); ("content", JString text)] in
      let st := set_role_sent st in
      (Some (chunk st delta None), st)
  | EvThinkingDelta text =>
      (Some (chunk st (JObject [("reasoning_content", JString text)]) None), st)
  | EvToolUseStart id name =>
      let '(index, st) := tool_index st id in
      (Some (chunk st (JObject [("tool_calls", JArray [JObject [("index", num (Z.of_nat index));
         ("id", JString id); ("type", JString "function");
         ("function", JObject [("name", JString name); ("arguments", JString "")])]])]) None), st)
  | EvToolUseDelta id partial_json =>
      let '(index, st) := tool_index st id in
      (Some (chunk st (JObject [("tool_calls", JArray [JObject [("index", num (Z.of_nat index));
         ("function", JObject [("arguments", JString partial_json)])]])]) None), st)
  | EvStop reason usage =>
      if cs_finished st then (None, st)
      else
        let st := finish (merge_usage st usage) in
        (Some (JObject (put "usage" (usage_json (cs_usage st))
           (chunk_fields st (JObject []) (Some (finish_word reason))))), st)
  | EvUsageUpdate usage => (None, merge_usage st usage)
  | EvToolUseEnd _ => (None, st)
  | EvError message =>
      (Some (JObject [("error", JObject [("message", JString message); ("type", JString "upstream_error")])]), st)
  end.

Section text.
Context (to_string : Json → string).

Definition frame (v : Json) : string := "data: " +:+ to_string v +:+ String "010" (String "010" "").

Definition render_event (e : StreamEvent) (st : ChunkState) : option string * ChunkState :=
  let '(v, st) := render_chunk e st in (frame <$> v, st).
End text.

Definition done_frame : string := "data: [DONE]" +:+ String "010" (String "010" "").

Fixpoint render_all (es : list StreamEvent) (st : ChunkState) : list Json * ChunkState :=
  match es with
  | [] => ([], st)
  | e :: es =>
      let '(v, st) := render_chunk e st in
      let '(vs, st) := render_all es st in (option_list v ++ vs, st)
  end.

(** ** Completions *)

Section codec.
Context (to_string : Json → string).

Record Collected : Type := { c_text : string; c_thinking : string; c_tool_calls : list Json }.

Definition collect_block (c : Collected) (block : Json) : Collected :=
  let t := str_or "" (idx block "type") in
  if Str.eqb t "text" then
    {| c_text := c_text c +:+ str_or "" (idx block "text"); c_thinking := c_thinking c;
       c_tool_calls := c_tool_calls c |}
  else if Str.eqb t "thinking" then
    {| c_text := c_text c; c_thinking := c_thinking c +:+ str_or "" (idx block "thinking");
       c_tool_calls := c_tool_calls c |}
  else if Str.eqb t "tool_use" then
    {| c_text := c_text c; c_thinking := c_thinking c;
       c_tool_calls := c_tool_calls c ++ [JObject [("id", idx block "id"); ("type", JString "function");
         ("function", JObject [("name", idx block "name");
           ("arguments", JString (to_string (idx block "input")))])]] |}
  else c.

Definition finish_of (stop_reason : string) : string :=
  if Str.eqb stop_reason "max_tokens" then "length"
  else if Str.eqb stop_reason "tool_use" then "tool_calls"
  else if Str.eqb stop_reason "refusal" then "content_filter"
  else "stop".

Definition completion_message (c : Collected) : Fields :=
  let message := [("role", JString "assistant"); ("content", JString (c_text c))] in
  let message := put_if (negb (Str.is_empty (c_thinking c))) "reasoning_content"
    (JString (c_thinking c)) message in
  match c_tool_calls c with
  | [] => message
  | tool_calls => put_if (Str.is_empty (c_text c)) "content" JNull
      (put "tool_calls" (JArray tool_calls) message)
  end.

Definition render_completion (anthropic : Json) (request_id : string) : Json :=
  let c := fold_left collect_block (array_or_empty (idx anthropic "content"))
    {| c_text := ""; c_thinking := ""; c_tool_calls := [] |} in
  let finish := finish_of (str_or "end_turn" (idx anthropic "stop_reason")) in
  let u := idx anthropic "usage" in
  let count key := default 0 (as_u64 (idx u key)) in
  let used := {| input_tokens := count "input_tokens"; output_tokens := count "output_tokens";
    cache_read_tokens := count "cache_read_input_tokens";
    cache_write_tokens := count "cache_creation_input_tokens" |} in
  JObject [("id", JString ("chatcmpl-" +:+ request_id)); ("object", JString "chat.completion");
    ("created", num 0); ("model", idx anthropic "model");
    ("choices", JArray [JObject [("index", num 0); ("message", JObject (completion_message c));
      ("finish_reason", JString finish)]]);
    ("usage", usage_json used)].

End codec.

(** ** A reader of the dialect *)

(** Payloads read one after the other, the accumulator told of each one's
    events before the next. *)
Fixpoint read_chunks (acc : StreamAccumulator) (vs : list Json) : list StreamEvent :=
  match vs with
  | [] => []
  | v :: vs =>
      let '(es, acc) := OpenAI.event_of v acc in es ++ read_chunks (Stream.observe_all acc es) vs
  end.

(** What of an event its chunk says. *)
Definition echo (e : StreamEvent) : option StreamEvent :=
  match e with
  | EvTextDelta text | EvThinkingDelta text | EvToolUseDelta _ text =>
      if Str.is_empty text then None else Some e
  | EvToolUseStart _ _ => Some e
  | _ => None
  end.

(** Every fragment is of a call that was started. *)
Fixpoint follow (ids : list string) (es : list StreamEvent) : bool :=
  match es with
  | [] => true
  | EvToolUseStart id _ :: es => follow (ids ++ [id]) es
  | EvToolUseDelta id _ :: es => bool_decide (id ∈ ids) && follow ids es
  | _ :: es => follow ids es
  end.

Definition after (ids : list string) (e : StreamEvent) : list string :=
  match e with EvToolUseStart id _ => ids ++ [id] | _ => ids end.

(** The reader knows the calls the renderer has numbered. *)
Record knows (st : ChunkState) (acc : StreamAccumulator) : Prop := {
  k_ids : map fst (tool_buffers acc) = cs_tool_ids st;
  k_names : function_names acc = Names.identity;
  k_refusal : saw_refusal acc = false;
  k_calls : tool_calls acc = Z.min U64_MAX (Z.of_nat (length (cs_tool_ids st)));
  k_open : cs_finished st = false
}.

Lemma knows_new request_id model : knows (new request_id model) Stream.new.
Proof. by split. Qed.

Lemma event_of_chunk st delta acc :
  idx delta "refusal" = JNull →
  OpenAI.event_of (chunk st delta None) acc =
  (option_list (EvTextDelta <$> OpenAI.said (idx delta "content"))
   ++ option_list (EvThinkingDelta <$>
        OpenAI.said_either (idx delta "reasoning_content") (idx delta "reasoning"))
   ++ (fold_left (OpenAI.call_fragment acc) (array_or_empty (idx delta "tool_calls")) ([], [])).2, acc).
Proof.
  intros Hr. unfold OpenAI.event_of.
  change (as_array (idx (chunk st delta None) "choices")) with
    (Some [JObject [("index", num 0); ("delta", delta); ("finish_reason", JNull)]]). cbv iota.
  change (idx (JObject [("index", num 0); ("delta", delta); ("finish_reason", JNull)]) "delta") with delta.
  rewrite Hr. change (EvTextDelta <$> OpenAI.said JNull) with (@None StreamEvent). cbv iota.
  destruct (fold_left _ _ _) as [opened calls].
  change (OpenAI.finish_events acc opened _) with (@nil StreamEvent). cbn [option_list app snd].
  by rewrite app_nil_r.
Qed.

Lemma original_identity name : Names.original Names.identity name = name.
Proof. reflexivity. Qed.

Lemma push_to_keys id partial l : map fst (Stream.push_to id partial l) = map fst l.
Proof. induction l as [|[k b] l IH]; cbn; [done|]. destruct (Str.eqb k id); cbn; by rewrite ?IH. Qed.

Lemma position_at id ids :
  id ∈ ids → ∃ i, position (fun t => Str.eqb t id) ids = Some i ∧ ids !! i = Some id.
Proof.
  intros Hin. destruct (position (fun t => Str.eqb t id) ids) as [i|] eqn:E.
  - exists i. split; [done|]. apply position_Some in E as (x & Hx & Hp & _).
    apply Str.str_eqb_eq in Hp as ->. done.
  - apply list_elem_of_In in Hin. apply (proj1 (position_None _ _) E) in Hin. by rewrite Str.str_eqb_refl in Hin.
Qed.

(** One event, not the last: its chunk reads as what it says, and the reader
    stays with the renderer. *)
Definition speaks (st : ChunkState) (e : StreamEvent) : Prop :=
  match e with
  | EvToolUseStart id _ => (id ∉ cs_tool_ids st) ∧ id ≠ ""
  | EvToolUseDelta id _ => id ∈ cs_tool_ids st
  | EvStop _ _ => False
  | _ => True
  end.

Lemma knows_same st st' acc acc' :
  knows st acc → cs_tool_ids st' = cs_tool_ids st → cs_finished st' = cs_finished st →
  map fst (tool_buffers acc') = map fst (tool_buffers acc) → function_names acc' = function_names acc →
  saw_refusal acc' = saw_refusal acc → tool_calls acc' = tool_calls acc → knows st' acc'.
Proof. intros [] H1 H2 H3 H4 H5 H6. split; congruence. Qed.

Lemma said_text (f : string → StreamEvent) text :
  option_list (f <$> OpenAI.said (JString text)) = if Str.is_empty text then [] else [f text].
Proof. unfold OpenAI.said. cbn. by destruct (Str.is_empty text). Qed.

Lemma start_read st acc id name (index : nat) :
  function_names acc = Names.identity → id ≠ "" →
  OpenAI.event_of (chunk st (JObject [("tool_calls", JArray [JObject [("index", num (Z.of_nat index));
    ("id", JString id); ("type", JString "function");
    ("function", JObject [("name", JString name); ("arguments", JString "")])]])]) None) acc =
  ([EvToolUseStart id name], acc).
Proof.
  intros Hn Hid. rewrite event_of_chunk by done. f_equal. cbn [array_or_empty as_array idx].
  change (fold_left ?f (default [] _) ?x) with (f x (JObject [("index", num (Z.of_nat index));
    ("id", JString id); ("type", JString "function");
    ("function", JObject [("name", JString name); ("arguments", JString "")])])).
  unfold OpenAI.call_fragment, OpenAI.said, Stream.restore_function_name.
  rewrite Hn. destruct id; done.
Qed.

Lemma delta_read st acc id partial i :
  map fst (tool_buffers acc) !! i = Some id → Z.of_nat i ≤ U64_MAX →
  OpenAI.event_of (chunk st (JObject [("tool_calls", JArray [JObject [("index", num (Z.of_nat i));
    ("function", JObject [("arguments", JString partial)])]])]) None) acc =
  (if Str.is_empty partial then [] else [EvToolUseDelta id partial], acc).
Proof.
  intros Hi Hb. rewrite event_of_chunk by done. f_equal.
  change (fold_left ?f (array_or_empty _) ?x) with (f x (JObject [("index", num (Z.of_nat i));
    ("function", JObject [("arguments", JString partial)])])).
  unfold OpenAI.call_fragment. change (OpenAI.said (idx (JObject _) "id")) with (@None string).
  cbv iota. change (idx (idx (JObject _) "function") "arguments") with (JString partial).
  unfold OpenAI.said. cbn [as_str]. destruct (Str.is_empty partial); [done|].
  change (idx (JObject _) "index") with (num (Z.of_nat i)). rewrite as_u64_num by lia.
  unfold OpenAI.resolve_opened, Stream.tool_id_at. rewrite Nat2Z.id, <-list_lookup_fmap.
  change (fst <$> tool_buffers acc) with (map fst (tool_buffers acc)). by rewrite Hi.
Qed.

Lemma chunk_read st acc e :
  knows st acc → speaks st e → Z.of_nat (length (cs_tool_ids st)) ≤ U64_MAX →
  let '(v, st') := render_chunk e st in
  match v with
  | Some v => OpenAI.event_of v acc = (option_list (echo e), acc)
  | None => echo e = None
  end ∧
  knows st' (Stream.observe_all acc (option_list (echo e))) ∧
  cs_tool_ids st' = after (cs_tool_ids st) e.
Proof.
  intros K Hs Hb. pose proof K as [Ki Kn Kr Kc Ko].
  destruct e as [m u|text|text|id name|id partial|id|u|reason u|message]; cbn [render_chunk speaks after] in *.
  - split; [by rewrite event_of_chunk|]. split; [by eapply knows_same|done].
  - split.
    + rewrite event_of_chunk by by destruct (role_sent st). cbn [echo].
      destruct (role_sent st), text; reflexivity.
    + split; [|done]. cbn [echo]. destruct (Str.is_empty text); by eapply knows_same.
  - split; [rewrite event_of_chunk by done; cbn [echo]; by destruct text|].
    split; [|done]. cbn [echo]. destruct (Str.is_empty text); by eapply knows_same.
  - destruct Hs as [Hid Hne]. unfold tool_index.
    assert (position (fun t => Str.eqb t id) (cs_tool_ids st) = None) as ->.
    { apply position_None. intros t Ht. apply Str.str_eqb_neq. intros ->.
      by apply Hid, list_elem_of_In. }
    split; [by apply start_read|]. split; [|done]. split; cbn; try done.
    + by rewrite map_app, Ki.
    + rewrite Kc, length_app. unfold sat_add. cbn. lia.
  - unfold tool_index. destruct (position_at _ _ Hs) as (i & -> & Hi).
    split.
    + rewrite (delta_read st acc id partial i).
      * cbn [echo]. by destruct (Str.is_empty partial).
      * by rewrite Ki.
      * apply lookup_lt_Some in Hi. lia.
    + split; [|done]. cbn [echo]. destruct (Str.is_empty partial); [done|].
      eapply knows_same; try done. cbn. apply push_to_keys.
  - done.
  - done.
  - done.
  - done.
Qed.

Lemma read_chunks_app acc vs v es :
  OpenAI.event_of v acc = (es, acc) →
  read_chunks acc (v :: vs) = es ++ read_chunks (Stream.observe_all acc es) vs.
Proof. intros H. cbn [read_chunks]. by rewrite H. Qed.

Lemma render_all_app es fs st :
  render_all (es ++ fs) st =
  let '(vs, st) := render_all es st in let '(ws, st) := render_all fs st in (vs ++ ws, st).
Proof.
  revert st; induction es as [|e es IH]; intros st; cbn [render_all app].
  - by destruct (render_all fs st).
  - destruct (render_chunk e st) as [v st1]. rewrite IH. destruct (render_all es st1) as [vs st2].
    destruct (render_all fs st2) as [ws st3]. by rewrite app_assoc.
Qed.

Lemma render_usage es st :
  AnthropicStream.unstopped es = true →
  cs_usage (render_all es st).2 = AnthropicStream.usages es (cs_usage st).
Proof.
  revert st; induction es as [|e es IH]; intros st H; [done|]. cbn in H. bool_to_prop.
  cbn [render_all]. destruct (render_chunk e st) as [v st1] eqn:E.
  specialize (IH st1). destruct (render_all es st1) as [vs st2]. cbn [snd] in *.
  rewrite IH by done. unfold AnthropicStream.usages.
  destruct e; cbn in E; unfold tool_index in E; repeat case_match; by simplify_eq/=.
Qed.

Lemma observe_all_app acc es fs :
  Stream.observe_all acc (es ++ fs) = Stream.observe_all (Stream.observe_all acc es) fs.
Proof. apply fold_left_app. Qed.

(** A run of events that are not the last. *)
Lemma run_read es st acc ws :
  knows st acc → AnthropicStream.unstopped es = true →
  NoDup (cs_tool_ids st ++ filter_map Stream.event_start es) →
  Forall (λ id, id ≠ "") (filter_map Stream.event_start es) → follow (cs_tool_ids st) es = true →
  Z.of_nat (length (cs_tool_ids st) + length es) ≤ U64_MAX →
  let echoed := filter_map echo es in
  read_chunks acc ((render_all es st).1 ++ ws) =
    echoed ++ read_chunks (Stream.observe_all acc echoed) ws ∧
  knows (render_all es st).2 (Stream.observe_all acc echoed) ∧
  cs_tool_ids (render_all es st).2 = cs_tool_ids st ++ filter_map Stream.event_start es.
Proof.
  revert st acc; induction es as [|e es IH]; intros st acc K Hst Hnd Hne Hf Hb.
  { cbn in *. by rewrite app_nil_r. }
  cbn in Hst. bool_to_prop.
  assert (speaks st e) as Hs.
  { destruct e; cbn in *; try done.
    - apply NoDup_app in Hnd as (_ & Hd & _).
      apply List.Forall_cons_iff in Hne as [? _].
      split; [|done]. intros Hin. apply (Hd _ Hin). by left.
    - by bool_to_prop. }
  cbn [length] in Hb. pose proof (chunk_read st acc e K Hs) as Hc.
  rewrite AnthropicStream.starts_cons.
  cbn [render_all filter_map]. destruct (render_chunk e st) as [v st1].
  destruct Hc as (Hv & K1 & Hids); [lia|].
  destruct (IH st1 (Stream.observe_all acc (option_list (echo e)))) as (R & K2 & I2); try done.
  - rewrite Hids. rewrite AnthropicStream.starts_cons in Hnd.
    by destruct e; cbn in *; rewrite <-?app_assoc.
  - rewrite AnthropicStream.starts_cons in Hne. by apply Forall_app in Hne as [_ ?].
  - rewrite Hids. destruct e; cbn in *; bool_to_prop; done.
  - rewrite Hids. destruct e; cbn in *; rewrite ?length_app; cbn; lia.
  - destruct (render_all es st1) as [vs st2]. cbn [fst snd] in *.
    rewrite I2, Hids.
    assert (match echo e with Some y => y :: filter_map echo es | None => filter_map echo es end =
      option_list (echo e) ++ filter_map echo es) as -> by by destruct (echo e).
    rewrite <-!app_assoc, observe_all_app. split_and!.
    + destruct v as [v|]; cbn [option_list app].
      * change (read_chunks acc (v :: (vs ++ ws)) = option_list (echo e) ++ (filter_map echo es ++
          read_chunks (Stream.observe_all (Stream.observe_all acc (option_list (echo e))) (filter_map echo es)) ws)).
        by rewrite (read_chunks_app _ _ _ _ Hv), R.
      * rewrite Hv in R |- *. apply R.
    + done.
    + by destruct e; cbn; rewrite <-?app_assoc.
Qed.

(** What is read of a usage: what was written to the cache is of the prompt. *)
Definition chat_usage (u : Usage) : Usage := {|
  input_tokens := input_tokens u + cache_write_tokens u; output_tokens := output_tokens u;
  cache_read_tokens := cache_read_tokens u; cache_write_tokens := 0 |}.

Definition prompt_fits (u : Usage) : Prop :=
  usage_ok u ∧ input_tokens u + cache_read_tokens u + cache_write_tokens u ≤ U64_MAX.

Lemma chat_usage_back u : prompt_fits u → OpenAI.parse_usage (usage_json u) = chat_usage u.
Proof.
  intros [(Hi & Ho & Hr & Hw) Hs]. unfold is_uint in *. unfold OpenAI.parse_usage, usage_json, chat_usage.
  cbv zeta.
  change (idx _ "prompt_tokens") with (num (prompt_tokens u)).
  change (idx _ "completion_tokens") with (num (output_tokens u)).
  change (idx (idx _ "prompt_tokens_details") "cached_tokens") with (num (cache_read_tokens u)).
  unfold prompt_tokens, wrapping_u64. rewrite Z.mod_small by lia.
  rewrite !as_u64_num by lia. cbn [from_option Datatypes.id]. unfold sat_sub. f_equal. lia.
Qed.

(** The stop a reader makes of a reason. *)
Definition chat_stop (reason : StopReason) (called : bool) : StopReason :=
  match reason with
  | StopEndTurn | StopSequence => if called then StopToolUse else StopEndTurn
  | reason => reason
  end.

Lemma chat_stop_back reason called : OpenAI.finish_reason (finish_word reason) called false = chat_stop reason called.
Proof. by destruct reason, called. Qed.

Definition ending (ids : list string) (reason : StopReason) (total : Usage) : list StreamEvent :=
  EvUsageUpdate (chat_usage total) :: map EvToolUseEnd ids
  ++ [EvStop (chat_stop reason (negb (bool_decide (ids = [])))) no_usage].

Lemma last_read st acc reason u :
  knows st acc → prompt_fits (Usages.merge (cs_usage st) u) →
  ∃ v, render_chunk (EvStop reason u) st = (Some v, finish (merge_usage st u)) ∧
    OpenAI.event_of v acc = (ending (cs_tool_ids st) reason (Usages.merge (cs_usage st) u), acc).
Proof.
  intros [Ki Kn Kr Kc Ko] Hf. eexists. cbn [render_chunk]. rewrite Ko. split; [reflexivity|].
  unfold OpenAI.event_of, OpenAI.finish_events.
  set (v := JObject _). change (as_array (idx v "choices")) with
    (Some [JObject [("index", num 0); ("delta", JObject []); ("finish_reason", JString (finish_word reason))]]).
  unfold v. clear v. cbv iota. change (field "usage" _) with (Some (usage_json (Usages.merge (cs_usage st) u))).
  cbv iota. unfold ending. rewrite <-chat_usage_back by done.
  change (idx (JObject _) "delta") with (JObject []). cbn [idx field default from_option Datatypes.id].
  change (EvTextDelta <$> OpenAI.said JNull) with (@None StreamEvent).
  change (EvThinkingDelta <$> OpenAI.said_either JNull JNull) with (@None StreamEvent).
  cbn [array_or_empty as_array fold_left option_list app is_null].
  change (OpenAI.said (default JNull _)) with (OpenAI.said (JString (finish_word reason))).
  f_equal. f_equal. change (option_list (@None StreamEvent)) with (@nil StreamEvent). cbn [app].
  assert (OpenAI.said (JString (finish_word reason)) = Some (finish_word reason)) as -> by by destruct reason.
  unfold Stream.tool_ids. rewrite Ki. change (keep _ []) with (@nil string). rewrite app_nil_r.
  rewrite Kr, <-chat_stop_back. f_equal. do 3 f_equal.
  unfold Stream.saw_tool_call. rewrite Kc, orb_false_r.
  destruct (cs_tool_ids st); [done|]. cbn [length bool_decide]. apply Z.ltb_lt. unfold U64_MAX. lia.
Qed.

(** ** The whole connection *)

Definition object (v : Json) : Prop := ∃ fs, v = JObject fs.

Lemma chunk_objects es st : Forall object (render_all es st).1.
Proof.
  revert st; induction es as [|e es IH]; intros st; [constructor|]. cbn [render_all].
  destruct (render_chunk e st) as [v st1] eqn:E. specialize (IH st1).
  destruct (render_all es st1) as [vs st2]. apply Forall_app. split; [|done].
  destruct v as [v|]; [|constructor]. apply List.Forall_cons; [|constructor].
  destruct e; cbn in E; unfold tool_index in E; repeat case_match; simplify_eq; by eexists.
Qed.

Section connection.
Context (to_string : Json → string) (parse : string → option Json) {HT : Frames.JsonText to_string parse}.

(** What is written for a stream: each event's text, then the sentinel. *)
Fixpoint written (es : list StreamEvent) (st : ChunkState) : string :=
  match es with
  | [] => done_frame
  | e :: es =>
      let '(text, st) := render_event to_string e st in
      default EmptyString text +:+ written es st
  end.

(** Payloads parsed one after the other. *)
Fixpoint read_payloads (acc : StreamAccumulator) (ps : list string) : result (list StreamEvent) Error :=
  match ps with
  | [] => Ok []
  | p :: ps =>
      let? (es, acc) := OpenAI.parse_event parse p acc in
      let? rest := read_payloads (Stream.observe_all acc es) ps in
      Ok (es ++ rest)
  end.

Lemma payloads_parsed acc vs :
  Forall object vs → read_payloads acc (map to_string vs) = Ok (read_chunks acc vs).
Proof.
  intros H. revert acc; induction H as [|v vs [fs ->] _ IH]; intros acc; [done|].
  cbn [map read_payloads read_chunks]. unfold OpenAI.parse_event.
  destruct (Frames.text_object fs) as [inner Hi]. rewrite (proj2 (Str.str_eqb_neq _ "[DONE]")) by by rewrite Hi.
  rewrite Frames.text_parses. cbn [ok_or result_bind].
  destruct (OpenAI.event_of (JObject fs) acc) as [es acc1]. cbn [result_bind]. by rewrite IH.
Qed.

Lemma written_bytes es st :
  Str.bytes (written es st) =
  List.concat (map (fun v => Str.bytes (frame to_string v)) (render_all es st).1) ++ Str.bytes done_frame.
Proof.
  revert st; induction es as [|e es IH]; intros st; [done|]. cbn [written render_all].
  unfold render_event. destruct (render_chunk e st) as [v st1]. specialize (IH st1).
  destruct (render_all es st1) as [vs st2]. cbn [fst] in *. rewrite Str.bytes_app, IH.
  destruct v; cbn; by rewrite ?app_assoc.
Qed.

Lemma written_read es st chunks :
  List.concat chunks = Str.bytes (written es st) →
  ∃ pending, Frames.reads (λ _, "") (λ _, None) (λ _, None) Sse [] chunks =
    Some (map EventStream.Verbatim (map to_string (render_all es st).1), pending).
Proof.
  intros Hc. rewrite written_bytes in Hc.
  pose proof (chunk_objects es st) as Ho. set (vs := (render_all es st).1) in *.
  set (f := fun v => Str.bytes (frame to_string v)) in *.
  assert (∀ v, object v → SseFrames.block (f v) ∧ SseFrames.payloads (f v) = [to_string v] ∧
    Utf8.valid (f v) = true) as Hf by (intros v [fs ->]; apply Frames.data_block_ok).
  assert (List.concat (map SseFrames.payloads (map f vs)) = map to_string vs) as Hp.
  { clear Hc. induction Ho as [|v vs Hv _ IH]; [done|]. cbn [map List.concat].
    destruct (Hf v Hv) as (_ & -> & _). cbn [app]. f_equal. exact IH. }
  destruct (Frames.reads_blocks (λ _, "") (λ _, None) (λ _, None) (map f vs) (Str.bytes done_frame) chunks)
    as [pending Hr]; [| | |done|].
  - clear Hc Hp. induction Ho as [|v vs Hv _ IH]; [constructor|]. constructor; [|done].
    by destruct (Hf v Hv).
  - exists (Str.bytes "data: [DONE]"). reflexivity.
  - clear Hc Hp. induction Ho as [|v vs Hv _ IH]; [done|]. cbn.
    destruct (Hf v Hv) as (_ & _ & ->). exact IH.
  - exists pending. rewrite Hr, Hp. by rewrite app_nil_r.
Qed.

(** A streamed answer survives the wire.  The hub's events are written as
    chunks and the sentinel; however the connection cuts those bytes, the reads
    give the chunks' texts, each parses, and what they are read as is what was
    said: every text, thinking and argument fragment that is not empty and
    every call under its id and name, in order, each fragment on its own call
    however calls interleave; then the merge of all usage reported -- what was
    written to the cache counted with the prompt --, an end for every call and
    the stop, which is a tool's for an answer that ended its turn with calls.
    Provided calls have distinct ids and their fragments come after them. *)
Theorem chat_stream_roundtrip request_id model before reason u chunks :
  AnthropicStream.unstopped before = true → NoDup (filter_map Stream.event_start before) →
  Forall (λ id, id ≠ "") (filter_map Stream.event_start before) → follow [] before = true →
  Z.of_nat (length before) ≤ U64_MAX →
  let total := Usages.merge (AnthropicStream.usages before no_usage) u in
  prompt_fits total →
  List.concat chunks = Str.bytes (written (before ++ [EvStop reason u]) (new request_id model)) →
  ∃ ps pending,
    Frames.reads (λ _, "") (λ _, None) (λ _, None) Sse [] chunks =
      Some (map EventStream.Verbatim ps, pending) ∧
    read_payloads Stream.new ps =
      Ok (filter_map echo before ++ ending (filter_map Stream.event_start before) reason total).
Proof.
  intros Hst Hnd Hne Hf Hb total Hfit Hc. destruct (written_read _ _ _ Hc) as [pending Hr].
  eexists _, pending. split; [exact Hr|]. rewrite payloads_parsed by apply chunk_objects. f_equal.
  set (st := new request_id model) in *.
  pose proof (render_usage before st Hst) as Hu.
  destruct (run_read before st Stream.new [] (knows_new request_id model)) as (_ & K & Hids); try done.
  pose proof (λ ws, proj1 (run_read before st Stream.new ws (knows_new request_id model)
    Hst Hnd Hne Hf Hb)) as Hread. cbn [app cs_tool_ids new st] in Hids.
  rewrite render_all_app. destruct (render_all before st) as [vs st1]. cbn [fst snd] in *.
  destruct (last_read st1 (Stream.observe_all Stream.new (filter_map echo before)) reason u)
    as (v & Hv & Hl); [done|by rewrite Hu|].
  cbn [render_all]. rewrite Hv. cbn [fst option_list app]. rewrite Hread. f_equal.
  rewrite (read_chunks_app _ [] v _ Hl : read_chunks _ (option_list (Some v) ++ []) = _).
  rewrite Hids, Hu. by rewrite app_nil_r.
Qed.

End connection.

(** ** A whole answer *)

Section completion.
Context (to_string : Json → string) (from_json : string → option Json).

Definition collected (bs : list OpenBlock) : Collected :=
  let calls := filter_map (fun b => match b with OTool id name input => Some (id, name, input) | _ => None end) bs in {|
  c_text := AnthropicStream.bodies false (map Hub.as_said bs);
  c_thinking := AnthropicStream.bodies true (map Hub.as_said bs);
  c_tool_calls := map (fun x : string * string * string => JObject [("id", JString x.1.1);
    ("type", JString "function"); ("function", JObject [("name", JString x.1.2);
      ("arguments", JString (Hub.arguments to_string from_json x.2))])]) calls |}.

Definition join_collected (c d : Collected) : Collected := {|
  c_text := c_text c +:+ c_text d; c_thinking := c_thinking c +:+ c_thinking d;
  c_tool_calls := c_tool_calls c ++ c_tool_calls d |}.

Lemma collect_all bs c :
  fold_left (collect_block to_string) (map (Hub.into_json from_json) bs) c = join_collected c (collected bs).
Proof.
  revert c; induction bs as [|b bs IH]; intros c.
  - destruct c. unfold join_collected. cbn. by rewrite !Str.append_empty_r, app_nil_r.
  - cbn [map fold_left]. rewrite IH. unfold join_collected, collected, AnthropicStream.bodies.
    destruct b; cbn; f_equal; by rewrite <-?Str.append_assoc, <-?app_assoc.
Qed.

(** The calls of an answer, each with the arguments it is printed with. *)
Definition calls_of (es : list StreamEvent) : list (string * string * string) :=
  zip_with (fun c a => (c.1, c.2, Hub.arguments to_string from_json a.2))
    (filter_map AnthropicStream.event_call es) (Stream.calls es).

Definition nonempty (s : string) : option string := if Str.is_empty s then None else Some s.

Definition whole_answer (es : list StreamEvent) : list StreamEvent :=
  let total := AnthropicStream.usages es no_usage in
  EvUsageUpdate (chat_usage total)
  :: option_list (EvTextDelta <$> nonempty (AnthropicStream.join (filter_map AnthropicStream.event_answer es)))
  ++ option_list (EvThinkingDelta <$> nonempty (AnthropicStream.join (filter_map AnthropicStream.event_thought es)))
  ++ List.concat (map (fun c : string * string * string =>
       [EvToolUseStart c.1.1 c.1.2; EvToolUseDelta c.1.1 c.2; EvToolUseEnd c.1.1]) (calls_of es))
  ++ [EvStop (chat_stop (default StopEndTurn (Stream.last_stop es None))
        (negb (bool_decide (filter_map AnthropicStream.event_call es = [])))) (chat_usage total)].

Definition call_json (c : string * string * string) : Json :=
  JObject [("id", JString c.1.1); ("type", JString "function");
    ("function", JObject [("name", JString c.1.2); ("arguments", JString c.2)])].

Lemma collected_calls bs es :
  AnthropicStream.read_names (map Hub.as_said bs) = filter_map AnthropicStream.event_call es →
  AnthropicStream.read_calls (map Hub.as_said bs) = Stream.calls es →
  c_tool_calls (collected bs) = map call_json (calls_of es).
Proof.
  unfold calls_of. intros <- <-. unfold collected. cbn [c_tool_calls].
  induction bs as [|[] bs IH]; [done|exact IH..|]. cbn. by f_equal.
Qed.

Lemma chat_message_read c :
  let m := JObject (completion_message c) in
  OpenAI.said (idx m "content") = nonempty (c_text c) ∧ idx m "refusal" = JNull ∧
  OpenAI.said_either (idx m "reasoning_content") (idx m "reasoning") = nonempty (c_thinking c) ∧
  array_or_empty (idx m "tool_calls") = c_tool_calls c.
Proof.
  destruct c as [text thinking calls]. unfold completion_message. cbn [c_text c_thinking c_tool_calls].
  destruct text, thinking, calls; repeat split.
Qed.

Lemma whole_call_read c :
  OpenAI.whole_call (call_json c) = [EvToolUseStart c.1.1 c.1.2; EvToolUseDelta c.1.1 c.2; EvToolUseEnd c.1.1].
Proof. reflexivity. Qed.

(** The wire word of the body's stop, and what it is read as. *)
Lemma stop_word es :
  let word := finish_of (str_or "end_turn" (match Hub.normal_stop es with
    | Some r => JString (Anthropic.stop_reason_str r) | None => JNull end)) in
  OpenAI.said (JString word) = Some word ∧
  OpenAI.finish_reason word (negb (bool_decide (filter_map AnthropicStream.event_call es = []))) false =
    chat_stop (default StopEndTurn (Stream.last_stop es None))
      (negb (bool_decide (filter_map AnthropicStream.event_call es = []))).
Proof.
  unfold Hub.normal_stop. destruct (filter_map AnthropicStream.event_call es) as [|c cs];
    by destruct (Stream.last_stop es None) as [[]|].
Qed.

(** An answer asked for whole is the answer.  Whatever dialect the upstream
    spoke, a chat client that did not ask for a stream is given a completion
    that says what the events said: all the text, all the thinking, every call
    under its id and name with its arguments, the merged usage with the cache's
    share where this dialect counts it, and why it stopped.  Provided calls come
    one after the other, as those of any whole body do, with distinct ids. *)
Theorem completion_keeps_the_answer es request_id model id :
  Hub.one_by_one None es = true → NoDup (filter_map Stream.event_start es) →
  prompt_fits (AnthropicStream.usages es no_usage) →
  OpenAI.parse_response
    (render_completion to_string (Hub.render_from_events from_json es request_id model) id) =
  whole_answer es.
Proof.
  intros Hone Hnd Hfit. destruct (Hub.hub_blocks from_json es model Hone Hnd) as (bs & H & A & T & N & C).
  rewrite (Hub.hub_body from_json es request_id model bs H N). unfold render_completion.
  change (array_or_empty (idx (JObject _) "content")) with (map (Hub.into_json from_json) bs).
  change (idx (JObject _) "stop_reason") with (match Hub.normal_stop es with
    | Some r => JString (Anthropic.stop_reason_str r) | None => JNull end).
  change (idx (JObject _) "usage") with (AnthropicStream.usage_json (AnthropicStream.usages es no_usage)).
  destruct (stop_word es) as [Hsaid Hstop]. set (word := finish_of _) in *.
  pose proof (Hub.usage_back _ (proj1 Hfit)) as Hu. unfold Anthropic.parse_usage in Hu.
  cbv zeta. rewrite Hu, collect_all. clear Hu.
  set (c := join_collected _ _). unfold OpenAI.parse_response.
  change (idx (JObject _) "usage") with (usage_json (AnthropicStream.usages es no_usage)).
  change (OpenAI.first_of _) with (JObject [("index", num 0); ("message", JObject (completion_message c));
    ("finish_reason", JString word)]).
  change (idx (JObject [("index", num 0); _; _]) "message") with (JObject (completion_message c)).
  change (idx (JObject [("index", num 0); _; _]) "finish_reason") with (JString word).
  rewrite chat_usage_back by done. destruct (chat_message_read c) as (-> & -> & -> & ->). rewrite Hsaid.
  assert (c_text c = AnthropicStream.join (filter_map AnthropicStream.event_answer es)) as -> by exact A.
  assert (c_thinking c = AnthropicStream.join (filter_map AnthropicStream.event_thought es)) as -> by exact T.
  assert (c_tool_calls c = map call_json (calls_of es)) as -> by exact (collected_calls bs es N C).
  assert (bool_decide (map call_json (calls_of es) = []) =
    bool_decide (filter_map AnthropicStream.event_call es = [])) as ->.
  { apply bool_decide_ext. unfold calls_of. rewrite <-N, <-C. clear.
    by induction bs as [|[] bs IH]; [|exact IH..|]. }
  unfold whole_answer. rewrite <-Hstop, map_map, (map_ext _ _ whole_call_read). reflexivity.
Qed.

End completion.

(** ** Witnesses *)

Definition used : Usage :=
  {| input_tokens := 7; output_tokens := 3; cache_read_tokens := 2; cache_write_tokens := 1 |}.

(** Two calls whose arguments interleave, after some thinking and text. *)
Definition chunks_example : list StreamEvent := [
  EvStart "claude" no_usage; EvThinkingDelta "hm"; EvTextDelta "Look"; EvToolUseStart "a" "read";
  EvToolUseStart "b" "list"; EvToolUseDelta "a" "{1"; EvToolUseDelta "b" ""; EvToolUseDelta "b" "{2";
  EvToolUseDelta "a" "}"; EvToolUseEnd "a"; EvUsageUpdate used].

Lemma chat_stream_roundtrip_witness :
  let text := Str.bytes (written a_printer (chunks_example ++ [EvStop StopEndTurn no_usage]) (new "1" "m")) in
  ∃ ps pending,
    Frames.reads (λ _, "") (λ _, None) (λ _, None) Sse [] [List.firstn 100 text; List.skipn 100 text] =
      Some (map EventStream.Verbatim ps, pending) ∧
    read_payloads a_parser Stream.new ps = Ok [
      EvThinkingDelta "hm"; EvTextDelta "Look"; EvToolUseStart "a" "read"; EvToolUseStart "b" "list";
      EvToolUseDelta "a" "{1"; EvToolUseDelta "b" "{2"; EvToolUseDelta "a" "}";
      EvUsageUpdate {| input_tokens := 8; output_tokens := 3; cache_read_tokens := 2; cache_write_tokens := 0 |};
      EvToolUseEnd "a"; EvToolUseEnd "b"; EvStop StopToolUse no_usage].
Proof.
  apply (chat_stream_roundtrip a_printer a_parser "1" "m" chunks_example StopEndTurn no_usage).
  - reflexivity.
  - repeat constructor; set_solver.
  - repeat constructor; discriminate.
  - reflexivity.
  - cbn. unfold U64_MAX. lia.
  - repeat split; cbn; unfold U64_MAX; lia.
  - cbn [List.concat]. by rewrite app_nil_r, firstn_skipn.
Defined.

Lemma completion_keeps_the_answer_witness :
  OpenAI.parse_response (render_completion Hub.null_text
    (Hub.render_from_events Hub.null_parse Hub.answer_example "1" "m") "2") = [
    EvUsageUpdate {| input_tokens := 7; output_tokens := 3; cache_read_tokens := 0; cache_write_tokens := 0 |};
    EvTextDelta "ab"; EvThinkingDelta "hm"; EvToolUseStart "c1" "read"; EvToolUseDelta "c1" "null";
    EvToolUseEnd "c1";
    EvStop StopToolUse
      {| input_tokens := 7; output_tokens := 3; cache_read_tokens := 0; cache_write_tokens := 0 |}].
Proof.
  apply (completion_keeps_the_answer Hub.null_text Hub.null_parse Hub.answer_example "1" "m" "2").
  - reflexivity.
  - repeat constructor; set_solver.
  - repeat split; cbn; unfold U64_MAX; lia.
Defined.

End OpenAIStream.
