(* ===== verification/Gemini.v ===== *)
(** * The Gemini [generateContent] dialect

    [crates/oag-proto/src/gemini.rs]: requests both ways, bodies and stream
    chunks in, the stream and whole answers out.  A call has no id on this
    wire, only its function's name.  Printing and parsing JSON texts are
    parameters; the [f32] temperature is left out. *)

From Stdlib Require Import Ascii.
From S2P Require Import Prelude Text Money Domain Efforts Catalog Cost.
From S2P Require Import Ladder Classify Budget Policy Canonical Wire Names Stream.
From S2P Require Import Anthropic AnthropicStream Hub Frames OpenAI OpenAIStream.
#[local] Open Scope string_scope.
#[local] Open Scope oag_scope.
#[local] Open Scope list_scope.
#[local] Open Scope Z_scope.

(** A tool call under assembly, and [RenderState] of this dialect. *)
Record PendingCall : Type := { pc_id : string; pc_name : string; pc_args : string }.

Record GeminiState : Type := {
  gs_usage : Usage;
  gs_finished : bool;
  gs_pending : list PendingCall
}.

Module Gemini.
Import Wire.

(** ** Calls and their names *)

Definition call_id (name : string) (ordinal : Z) : string :=
  if ordinal =? 0 then name else name +:+ "#" +:+ Str.decimal ordinal.

Definition function_name (tool_use_id : string) : string :=
  match Str.split_once tool_use_id "#"%char with Some (name, _) => name | None => tool_use_id end.

(** ** Requests out *)

(** [collect] into a map: the last name kept under an id. *)
Definition tool_names (r : CanonicalRequest) : gmap string string :=
  fold_left (fun m b => match b with BToolUse id name _ => <[id := name]> m | _ => m end)
    (mjoin (map content (messages r))) ∅.

Definition result_name (names : gmap string string) (tool_use_id : string) : string :=
  default (function_name tool_use_id) (names !! tool_use_id).

Definition render_part (names : gmap string string) (b : ContentBlock) : option Json :=
  match b with
  | BText text _ => Some (JObject [("text", JString text)])
  | BImage media_type data =>
      Some (JObject [("inlineData", JObject [("mimeType", JString media_type); ("data", JString data)])])
  | BToolUse _ name input =>
      Some (JObject [("functionCall", JObject [("name", JString name); ("args", input)])])
  | BToolResult tool_use_id content _ =>
      Some (JObject [("functionResponse", JObject [
        ("name", JString (result_name names tool_use_id));
        ("response", JObject [("result", JString (Canonical.as_text content))])])])
  | BThinking _ _ => None
  end.

Definition render_message (names : gmap string string) (m : Message) : Json :=
  JObject [("role", JString (match role m with RoleAssistant => "model" | _ => "user" end));
    ("parts", JArray (filter_map (render_part names) (content m)))].

Definition render_tool (t : Tool) : Json :=
  JObject [("name", JString (tool_name t)); ("description", JString (description t));
    ("parameters", input_schema t)].

Definition render_tool_choice (c : ToolChoice) : Json :=
  JObject [("functionCallingConfig", match c with
    | ChoiceAuto => JObject [("mode", JString "AUTO")]
    | ChoiceRequired => JObject [("mode", JString "ANY")]
    | ChoiceNone => JObject [("mode", JString "NONE")]
    | ChoiceTool name =>
        JObject [("mode", JString "ANY"); ("allowedFunctionNames", JArray [JString name])]
    end)].

Definition put_format (f : option ResponseFormat) (cfg : Js.Fields) : Js.Fields :=
  match f with
  | None => cfg
  | Some FormatText => put "responseMimeType" (JString "text/plain") cfg
  | Some FormatJsonObject => put "responseMimeType" (JString "application/json") cfg
  | Some (FormatJsonSchema _ schema _) =>
      put "responseSchema" schema (put "responseMimeType" (JString "application/json") cfg)
  end.

Definition asked_budget (r : CanonicalRequest) : option Z :=
  match thinking_budget r with
  | Some b => Some b
  | None => Canonical.as_budget <$> thinking_effort r
  end.

Definition generation_config (r : CanonicalRequest) : Js.Fields :=
  let cfg := [("maxOutputTokens", num (max_tokens r))] in
  let cfg := put_some (asked_budget r) "thinkingConfig"
    (fun budget => JObject [("thinkingBudget", num budget)]) cfg in
  put_nonempty (stop r) "stopSequences" (strings (stop r)) (put_format (response_format r) cfg).

Definition render_request (r : CanonicalRequest) : result Json Error :=
  let body := [("contents", JArray (map (render_message (tool_names r)) (messages r)));
    ("generationConfig", JObject (generation_config r))] in
  let body := put_nonempty (system r) "systemInstruction" (JObject [("parts", JArray [JObject
    [("text", JString (Str.join OpenAI.PARAGRAPH (filter_map OpenAI.text_of_block (system r))))]])]) body in
  let body := put_nonempty (req_tools r) "tools"
    (JArray [JObject [("functionDeclarations", JArray (map render_tool (req_tools r)))]]) body in
  if bool_decide (is_Some (previous_response_id r))
  then Err (UnsupportedField "previous_response_id" GeminiGenerateContent)
  else
    let body := JObject (put_some (tool_choice r) "toolConfig" render_tool_choice body) in
    Ok (match passthrough r with
        | Some extra => Canonical.merge_into extra GeminiGenerateContent body
        | None => body
        end).

(** ** Requests in *)

(** A field, in either spelling. *)
Definition field (v : Json) (camel : string) : Json :=
  match v with
  | JObject fs =>
      match Js.field camel fs with
      | Some x => x
      | None => default JNull (Js.field (Canonical.snake_of camel) fs)
      end
  | _ => JNull
  end.

Definition SUBTRACTED : list string := [
  "contents"; "systemInstruction"; "tools"; "toolConfig"; "generationConfig.maxOutputTokens";
  "generationConfig.temperature"; "generationConfig.thinkingConfig.thinkingBudget";
  "generationConfig.responseMimeType"; "generationConfig.responseSchema";
  "generationConfig.stopSequences"; "model"; "generationConfig.candidateCount"].

Definition THINKING_LEVELS : list string := ["minimal"; "low"; "medium"; "high"].
Definition THINKING_LEVEL : string := "generationConfig.thinkingConfig.thinkingLevel".

Definition parse_budget (cfg : Json) : option Z :=
  match as_u64 (field (field cfg "thinkingConfig") "thinkingBudget") with
  | Some b => Anthropic.try_u32 b
  | None => None
  end.

Definition parse_tool_choice (cfg : Json) : option ToolChoice :=
  match as_str (field cfg "mode") with
  | None => None
  | Some mode =>
      let named := match as_array (field cfg "allowedFunctionNames") with
        | Some [name] => as_str name | _ => None end in
      match named, Str.eqb mode "NONE" with
      | Some name, false => Some (ChoiceTool name)
      | _, _ =>
          if Str.eqb mode "AUTO" then Some ChoiceAuto
          else if Str.eqb mode "ANY" then Some ChoiceRequired
          else if Str.eqb mode "NONE" then Some ChoiceNone
          else None
      end
  end.

Definition parse_response_format (cfg : Json) : option ResponseFormat :=
  let mime := as_str (field cfg "responseMimeType") in
  match field cfg "responseSchema" with
  | JNull =>
      match mime with
      | Some m => if Str.eqb m "application/json" then Some FormatJsonObject else Some FormatText
      | None => None
      end
  | schema => Some (FormatJsonSchema "response" schema true)
  end.

Definition parse_declaration (d : Json) : option Tool :=
  match as_str (field d "name") with
  | None => None
  | Some name => Some {|
      tool_name := name; description := str_or "" (field d "description");
      input_schema := field d "parameters"; tool_cache_control := None |}
  end.

Section codec.
(** [Value::to_string] and [serde_json::from_str]. *)
Context (to_string : Json → string) (from_json : string → option Json).

Definition parse_result_text (resp : Json) : string :=
  match field (field resp "response") "result" with
  | JNull => to_string (field resp "response")
  | JString s => s
  | other => to_string other
  end.

Definition parse_part (p : Json) : option ContentBlock :=
  match as_str (field p "text") with
  | Some text => Some (BText text None)
  | None =>
      let call := field p "functionCall" in
      if negb (is_null call) then
        let name := str_or "" (field call "name") in
        Some (BToolUse name name (field call "args"))
      else
        let resp := field p "functionResponse" in
        if negb (is_null resp) then
          Some (BToolResult (str_or "" (field resp "name")) (ResultText (parse_result_text resp)) false)
        else
          let inline := field p "inlineData" in
          if negb (is_null inline) then
            match as_str (field inline "mimeType"), as_str (field inline "data") with
            | Some media_type, Some data => Some (BImage media_type data)
            | _, _ => None
            end
          else None
  end.

Definition parse_content (v : Json) : option Message :=
  match as_array (field v "parts") with
  | None => None
  | Some parts =>
      match filter_map parse_part parts with
      | [] => None
      | content => Some {|
          role := if bool_decide (as_str (field v "role") = Some "model") then RoleAssistant else RoleUser;
          content := content |}
      end
  end.

Definition foreign_level (cfg : Json) : option Effort :=
  match as_str (field (field cfg "thinkingConfig") "thinkingLevel") with
  | None => None
  | Some level =>
      let level := Str.to_ascii_lowercase level in
      if any (Str.eqb level) THINKING_LEVELS then None else Canonical.effort_parse level
  end.

Definition parse_request (body : Json) : CanonicalRequest :=
  let cfg := field body "generationConfig" in
  let level := foreign_level cfg in {|
  model := "";
  system := map (fun t => BText t None) (filter_map (fun p => as_str (field p "text"))
    (array_or_empty (field (field body "systemInstruction") "parts")));
  messages := filter_map parse_content (array_or_empty (field body "contents"));
  req_tools := filter_map parse_declaration (List.concat (filter_map
    (fun e => as_array (field e "functionDeclarations")) (array_or_empty (field body "tools"))));
  max_tokens := default 4096 (match as_u64 (field cfg "maxOutputTokens") with
    | Some n => Anthropic.try_u32 n | None => None end);
  stream := false;
  thinking_budget := parse_budget cfg;
  thinking_effort := match parse_budget cfg with
    | Some b => Some (Canonical.from_budget b) | None => level end;
  client_session := None;
  tool_choice := parse_tool_choice (field (field body "toolConfig") "functionCallingConfig");
  response_format := parse_response_format cfg;
  stop := filter_map as_str (array_or_empty (field cfg "stopSequences"));
  previous_response_id := None;
  passthrough := Canonical.capture GeminiGenerateContent body
    (SUBTRACTED ++ match level with Some _ => [THINKING_LEVEL] | None => [] end) |}.

(** ** Responses in *)

Definition parse_usage (v : Json) : Usage :=
  let cached := default 0 (as_u64 (idx v "cachedContentTokenCount")) in {|
  input_tokens := sat_sub (default 0 (as_u64 (idx v "promptTokenCount"))) cached;
  output_tokens := default 0 (as_u64 (idx v "candidatesTokenCount"));
  cache_read_tokens := cached;
  cache_write_tokens := 0 |}.

(** [v.get(key)]. *)
Definition get (v : Json) (key : string) : option Json :=
  match v with JObject fs => Js.field key fs | _ => None end.

(** One part: the events so far and the calls counted so far. *)
Definition part_events (st : list StreamEvent * Z) (part : Json) : list StreamEvent * Z :=
  let '(events, calls) := st in
  let events := match OpenAI.said (idx part "text") with
    | Some text =>
        events ++ [if default false (as_bool (idx part "thought"))
                   then EvThinkingDelta text else EvTextDelta text]
    | None => events
    end in
  match get part "functionCall" with
  | Some call =>
      let name := str_or "" (idx call "name") in
      let id := call_id name calls in
      (events ++ [EvToolUseStart id name; EvToolUseDelta id (to_string (idx call "args")); EvToolUseEnd id],
       calls + 1)
  | None => (events, calls)
  end.

Definition finish_reason (reason : string) (calls : Z) : StopReason :=
  if Str.eqb reason "MAX_TOKENS" then StopMaxTokens
  else if any (Str.eqb reason) ["SAFETY"; "PROHIBITED_CONTENT"; "BLOCKLIST"] then StopRefusal
  else if 0 <? calls then StopToolUse
  else StopEndTurn.

Definition parse_chunk (v : Json) (prior_calls : Z) : list StreamEvent :=
  let usage := parse_usage <$> get v "usageMetadata" in
  let reported := option_list (EvUsageUpdate <$> usage) in
  match as_array (idx v "candidates") with
  | Some (candidate :: _) =>
      let '(events, calls) := fold_left part_events
        (array_or_empty (idx (idx candidate "content") "parts")) (reported, prior_calls) in
      match OpenAI.said (idx candidate "finishReason") with
      | Some reason => events ++ [EvStop (finish_reason reason calls) (default no_usage usage)]
      | None => events
      end
  | _ => reported
  end.

Definition parse_event (payload : string) (acc : StreamAccumulator) : result (list StreamEvent) Error :=
  let? v := ok_or (from_json payload) (Serde payload) in Ok (parse_chunk v (tool_calls acc)).

Definition parse_response (v : Json) : list StreamEvent := parse_chunk v 0.

(** ** Answers out *)

Definition new : GeminiState := {| gs_usage := no_usage; gs_finished := false; gs_pending := [] |}.

(** [PendingCall::part]. *)
Definition part (c : PendingCall) : Json :=
  JObject [("functionCall", JObject [("name", JString (pc_name c));
    ("args", default (JObject []) (from_json (pc_args c)))])].

Definition set_pending (st : GeminiState) (pending : list PendingCall) : GeminiState :=
  {| gs_usage := gs_usage st; gs_finished := gs_finished st; gs_pending := pending |}.

Definition merge_usage (st : GeminiState) (u : Usage) : GeminiState :=
  {| gs_usage := Usages.merge (gs_usage st) u; gs_finished := gs_finished st; gs_pending := gs_pending st |}.

Definition finish (st : GeminiState) : GeminiState :=
  {| gs_usage := gs_usage st; gs_finished := true; gs_pending := gs_pending st |}.

Definition take_pending (st : GeminiState) (id : string) : option (PendingCall * GeminiState) :=
  match position (fun c => Str.eqb (pc_id c) id) (gs_pending st) with
  | None => None
  | Some at_ =>
      (fun c => (c, set_pending st (AnthropicStream.remove_at at_ (gs_pending st)))) <$> (gs_pending st !! at_)
  end.

(** [total()] and the sum beside it, of a release build. *)
Definition usage_json (u : Usage) : Json := JObject [
  ("promptTokenCount", num (OpenAIStream.prompt_tokens u));
  ("cachedContentTokenCount", num (cache_read_tokens u));
  ("candidatesTokenCount", num (output_tokens u));
  ("totalTokenCount", num (Usages.total u))].

Definition chunk (st : GeminiState) (parts : list Json) (finish : option string) : Json :=
  JObject [("candidates", JArray [JObject (put_some finish "finishReason" JString
      [("content", JObject [("role", JString "model"); ("parts", JArray parts)]); ("index", num 0)])]);
    ("usageMetadata", usage_json (gs_usage st))].

Definition text_part (text : string) : Json := JObject [("text", JString text)].
Definition thought_part (text : string) : Json := JObject [("text", JString text); ("thought", JBool true)].

Definition finish_word (reason : StopReason) : string :=
  match reason with StopMaxTokens => "MAX_TOKENS" | StopRefusal => "SAFETY" | _ => "STOP" end.

Definition add_fragment (pending : list PendingCall) (id partial_json : string) : list PendingCall :=
  match position (fun c => Str.eqb (pc_id c) id) pending with
  | Some at_ => alter (fun c => {| pc_id := pc_id c; pc_name := pc_name c;
                                   pc_args := pc_args c +:+ partial_json |}) at_ pending
  | None => pending ++ [{| pc_id := id; pc_name := id; pc_args := partial_json |}]
  end.

(** [render_event], to the body of its frame. *)
Definition render_chunk (e : StreamEvent) (st : GeminiState) : option Json * GeminiState :=
  match e with
  | EvStart _ usage | EvUsageUpdate usage => (None, merge_usage st usage)
  | EvTextDelta text => (Some (chunk st [text_part text] None), st)
  | EvThinkingDelta text => (Some (chunk st [thought_part text] None), st)
  | EvToolUseStart id name =>
      (None, set_pending st (gs_pending st ++ [{| pc_id := id; pc_name := name; pc_args := "" |}]))
  | EvToolUseDelta id partial_json => (None, set_pending st (add_fragment (gs_pending st) id partial_json))
  | EvToolUseEnd id =>
      match take_pending st id with
      | Some (call, st) => (Some (chunk st [part call] None), st)
      | None => (None, st)
      end
  | EvStop reason usage =>
      if gs_finished st then (None, st)
      else
        let st := merge_usage (finish st) usage in
        let parts := map part (gs_pending st) in
        let st := set_pending st [] in
        (Some (chunk st parts (Some (finish_word reason))), st)
  | EvError message =>
      (Some (JObject [("error", JObject [("code", num 500); ("message", JString message);
         ("status", JString "INTERNAL")])]), st)
  end.

Definition render_event (e : StreamEvent) (st : GeminiState) : option string * GeminiState :=
  let '(v, st) := render_chunk e st in (OpenAIStream.frame to_string <$> v, st).

Definition message_part (block : Json) : option Json :=
  let t := str_or "" (idx block "type") in
  if Str.eqb t "text" then Some (JObject [("text", idx block "text")])
  else if Str.eqb t "thinking" then Some (JObject [("text", idx block "thinking"); ("thought", JBool true)])
  else if Str.eqb t "tool_use" then
    Some (JObject [("functionCall", JObject [("name", idx block "name"); ("args", idx block "input")])])
  else None.

Definition finish_of (stop_reason : string) : string :=
  if Str.eqb stop_reason "max_tokens" then "MAX_TOKENS"
  else if Str.eqb stop_reason "refusal" then "SAFETY" else "STOP".

Definition render_message_response (anthropic : Json) : Json :=
  let parts := filter_map message_part (array_or_empty (idx anthropic "content")) in
  let u := Anthropic.parse_usage (idx anthropic "usage") in
  JObject [("candidates", JArray [JObject [
      ("content", JObject [("role", JString "model"); ("parts", JArray parts)]);
      ("finishReason", JString (finish_of (str_or "end_turn" (idx anthropic "stop_reason"))));
      ("index", num 0)]]);
    ("usageMetadata", JObject [
      ("promptTokenCount", num (OpenAIStream.prompt_tokens u));
      ("cachedContentTokenCount", num (cache_read_tokens u));
      ("candidatesTokenCount", num (output_tokens u));
      ("totalTokenCount", num (OpenAIStream.wrapping_u64 (OpenAIStream.prompt_tokens u + output_tokens u)))])].

(** ** What a request is read back as *)

Definition part_back (names : gmap string string) (b : ContentBlock) : option ContentBlock :=
  match b with
  | BText text _ => Some (BText text None)
  | BImage media_type data => Some (BImage media_type data)
  | BToolUse _ name input => Some (BToolUse name name input)
  | BToolResult id content _ =>
      Some (BToolResult (result_name names id) (ResultText (Canonical.as_text content)) false)
  | BThinking _ _ => None
  end.

Definition message_back (names : gmap string string) (m : Message) : option Message :=
  match filter_map (part_back names) (content m) with
  | [] => None
  | blocks => Some {| role := match role m with RoleAssistant => RoleAssistant | _ => RoleUser end;
                      content := blocks |}
  end.

Definition format_back (f : ResponseFormat) : ResponseFormat :=
  match f with
  | FormatJsonSchema _ JNull _ => FormatJsonObject
  | FormatJsonSchema _ schema _ => FormatJsonSchema "response" schema true
  | f => f
  end.

Definition tool_back (t : Tool) : Tool := {|
  tool_name := tool_name t; description := description t; input_schema := input_schema t;
  tool_cache_control := None |}.

Definition system_back (blocks : list ContentBlock) : list ContentBlock :=
  match blocks with
  | [] => []
  | _ => [BText (Str.join OpenAI.PARAGRAPH (filter_map OpenAI.text_of_block blocks)) None]
  end.

Lemma parts_back names bs :
  filter_map parse_part (filter_map (render_part names) bs) = filter_map (part_back names) bs.
Proof. induction bs as [|[] bs IH]; cbn; by rewrite ?IH. Qed.

Lemma gemini_messages_back names ms :
  filter_map parse_content (map (render_message names) ms) = filter_map (message_back names) ms.
Proof.
  induction ms as [|m ms IH]; [done|]. cbn [map filter_map]. rewrite IH.
  assert (parse_content (render_message names m) = message_back names m) as ->; [|done].
  unfold parse_content, message_back.
  change (as_array (field (render_message names m) "parts")) with
    (Some (filter_map (render_part names) (content m))).
  cbv iota. rewrite parts_back. destruct (filter_map (part_back names) (content m)); [done|].
  unfold render_message. by destruct (role m).
Qed.

Lemma gemini_tools_back ts : filter_map parse_declaration (map render_tool ts) = map tool_back ts.
Proof. induction ts as [|t ts IH]; [done|]. cbn [map filter_map]. by rewrite IH. Qed.

Lemma config_fields r :
  let cfg := JObject (generation_config r) in
  field cfg "maxOutputTokens" = num (max_tokens r) ∧
  field (field cfg "thinkingConfig") "thinkingBudget" = default JNull (num <$> asked_budget r) ∧
  field (field cfg "thinkingConfig") "thinkingLevel" = JNull ∧
  field cfg "responseMimeType" = default JNull ((fun f => JString (match f with
    | FormatText => "text/plain" | _ => "application/json" end)) <$> response_format r) ∧
  field cfg "responseSchema" = match response_format r with
    | Some (FormatJsonSchema _ schema _) => schema | _ => JNull end ∧
  field cfg "stopSequences" = default JNull (Anthropic.or_none (stop r) (strings (stop r))).
Proof.
  unfold generation_config. destruct (asked_budget r), (stop r), (response_format r) as [[]|];
    repeat split.
Qed.

Lemma residue_of_another p body :
  match p with Some p => pt_dialect p ≠ GeminiGenerateContent | None => True end →
  match p with Some extra => Canonical.merge_into extra GeminiGenerateContent body | None => body end = body.
Proof.
  destruct p as [p|]; [|done]. intros H. unfold Canonical.merge_into. by rewrite bool_decide_false by done.
Qed.

Lemma body_fields r body :
  match passthrough r with Some p => pt_dialect p ≠ GeminiGenerateContent | None => True end →
  render_request r = Ok body →
  previous_response_id r = None ∧
  field body "contents" = JArray (map (render_message (tool_names r)) (messages r)) ∧
  field body "generationConfig" = JObject (generation_config r) ∧
  array_or_empty (field (field body "systemInstruction") "parts") =
    map (fun b => match b with BText text _ => text_part text | _ => JNull end) (system_back (system r)) ∧
  List.concat (filter_map (fun e => as_array (field e "functionDeclarations"))
    (array_or_empty (field body "tools"))) = map render_tool (req_tools r) ∧
  field (field body "toolConfig") "functionCallingConfig" =
    default JNull ((fun c => field (render_tool_choice c) "functionCallingConfig") <$> tool_choice r).
Proof.
  intros Hp. unfold render_request. cbv zeta.
  destruct (previous_response_id r);
    [by rewrite bool_decide_true by done|rewrite bool_decide_false by by intros []].
  intros [= <-]. split; [done|].
  rewrite residue_of_another by done.
  destruct (system r), (req_tools r) as [|t ts], (tool_choice r) as [choice|]; repeat split;
    cbn; by rewrite ?app_nil_r.
Qed.

(** What a Gemini upstream is sent says what was asked.  Read back, a
    rendered request has the ceiling, the stop sequences, the tools and the tool
    it insists on exactly; the thinking asked for as a budget, of which the
    nearest level is read, whether the client spoke budgets or levels; the
    answer's format, a schema always strictly; the system prompt as one; and
    every message with its text, images and calls in order, thinking left out.
    A result is addressed by the name of the function that was called under
    its id, whatever the dialect the id came from. *)
Theorem gemini_request_roundtrip r :
  0 ≤ max_tokens r ≤ U32_MAX →
  match thinking_budget r with Some b => 0 ≤ b ≤ U32_MAX | None => True end →
  match passthrough r with Some p => pt_dialect p ≠ GeminiGenerateContent | None => True end →
  match render_request r with
  | Err e => e = UnsupportedField "previous_response_id" GeminiGenerateContent ∧
      is_Some (previous_response_id r)
  | Ok body =>
      let read := parse_request body in
      previous_response_id r = None ∧
      max_tokens read = max_tokens r ∧ stop read = stop r ∧ tool_choice read = tool_choice r ∧
      req_tools read = map tool_back (req_tools r) ∧
      response_format read = format_back <$> response_format r ∧
      thinking_budget read = asked_budget r ∧
      thinking_effort read = Canonical.from_budget <$> asked_budget r ∧
      system read = system_back (system r) ∧
      messages read = filter_map (message_back (tool_names r)) (messages r)
  end.
Proof.
  intros Hm Hb Hp. destruct (render_request r) as [body|e] eqn:E.
  2: { unfold render_request in E. cbv zeta in E. destruct (previous_response_id r).
       - rewrite bool_decide_true in E by done. by injection E as <-.
       - by rewrite bool_decide_false in E by by intros []. }
  apply body_fields in E as (Hpr & Hc & Hg & Hs & Ht & Htc); [|done].
  destruct (config_fields r) as (C1 & C2 & C3 & C4 & C5 & C6).
  intros read. unfold read, parse_request, parse_budget, foreign_level, parse_response_format.
  rewrite Hg, Hc, Hs, Ht, Htc, C1, C2, C3, C4, C5, C6.
  cbn [max_tokens stop tool_choice req_tools response_format thinking_budget thinking_effort system messages].
  assert (match as_u64 (default JNull (num <$> asked_budget r)) with
    | Some b => Anthropic.try_u32 b | None => None end = asked_budget r) as ->.
  { assert (∀ b, asked_budget r = Some b → 0 ≤ b ≤ U32_MAX) as Hr.
    { unfold asked_budget. intros b. destruct (thinking_budget r); [by intros [= <-]|].
      destruct (thinking_effort r) as [[]|]; cbn; intros [= <-]; unfold U32_MAX; lia. }
    destruct (asked_budget r) as [b|]; [|done]. specialize (Hr b eq_refl).
    change (default JNull (num <$> Some b)) with (num b).
    unfold U32_MAX in Hr. rewrite as_u64_num by (unfold U64_MAX; lia). unfold Anthropic.try_u32.
    by rewrite (proj2 (Z.leb_le _ _)) by (unfold U32_MAX; lia). }
  split_and!; try done.
  - unfold U32_MAX in Hm. rewrite as_u64_num by (unfold U64_MAX; lia). unfold Anthropic.try_u32.
    by rewrite (proj2 (Z.leb_le _ _)) by (unfold U32_MAX; lia).
  - destruct (stop r) as [|x l]; [done|]. apply (strings_back (x :: l)).
  - by destruct (tool_choice r) as [[]|].
  - apply gemini_tools_back.
  - by destruct (response_format r) as [[| |? [] ?]|].
  - by destruct (system r).
  - apply gemini_messages_back.
Qed.

End codec.
(** ** Witnesses *)

(** A conversation begun in another dialect: the id is not the name. *)
Definition gemini_example : CanonicalRequest := {|
  model := "pro"; system := [BText "Be brief." None];
  messages := [
    {| role := RoleAssistant; content := [BThinking "hm" None; BToolUse "call_1" "read" (JObject [])] |};
    {| role := RoleUser; content := [BToolResult "call_1" (ResultText "ok") false; BToolResult "list#2" (ResultText "no") true] |}];
  req_tools := []; max_tokens := 100; stream := true; thinking_budget := None; thinking_effort := Some High;
  client_session := None; tool_choice := Some (ChoiceTool "read"); response_format := Some FormatText;
  stop := []; previous_response_id := None; passthrough := None |}.

Lemma gemini_request_roundtrip_witness :
  match render_request gemini_example with
  | Ok body =>
      messages (parse_request a_printer body) = [
        {| role := RoleAssistant; content := [BToolUse "read" "read" (JObject [])] |};
        {| role := RoleUser; content := [BToolResult "read" (ResultText "ok") false;
                                         BToolResult "list" (ResultText "no") false] |}] ∧
      thinking_effort (parse_request a_printer body) = Some High
  | Err _ => False
  end.
Proof.
  pose proof (gemini_request_roundtrip a_printer gemini_example) as H.
  destruct (render_request gemini_example) as [body|e].
  - destruct H as (_ & _ & _ & _ & _ & _ & _ & He & _ & Hm); [split; cbn; unfold U32_MAX; lia|done..|].
    split; [rewrite Hm; vm_compute; reflexivity|exact He].
  - destruct H as [_ [x Hx]]; [split; cbn; unfold U32_MAX; lia|done..|discriminate Hx].
Defined.

End Gemini.
