(* ===== verification/Responses.v ===== *)
(** * The OpenAI Responses dialect

    [crates/oag-proto/src/responses.rs]: requests both ways, bodies and stream
    events in, and a whole answer out.  Rendering a stream is
    [ResponsesStream].  Printing and parsing JSON texts are parameters; the
    [f32] temperature is left out. *)

From Stdlib Require Import Ascii.
From S2P Require Import Prelude Text Money Domain Efforts Catalog Cost.
From S2P Require Import Ladder Classify Budget Policy Canonical Wire Names Stream.
From S2P Require Import Anthropic AnthropicStream Hub Frames OpenAI OpenAIStream.
#[local] Open Scope string_scope.
#[local] Open Scope oag_scope.
#[local] Open Scope list_scope.
#[local] Open Scope Z_scope.

Module Responses.
Import Js Wire.

(** ** Requests out *)

Definition render_tool (names : Names.FunctionNameMap) (t : Tool) : Json :=
  JObject [("type", JString "function"); ("name", JString (Names.wire names (tool_name t)));
    ("description", JString (description t)); ("parameters", input_schema t)].

Definition render_tool_choice (names : Names.FunctionNameMap) (c : ToolChoice) : Json :=
  match c with
  | ChoiceAuto => JString "auto"
  | ChoiceRequired => JString "required"
  | ChoiceNone => JString "none"
  | ChoiceTool name => JObject [("type", JString "function"); ("name", JString (Names.wire names name))]
  end.

Definition render_format (f : ResponseFormat) : Json :=
  JObject [("format", match f with
    | FormatText => JObject [("type", JString "text")]
    | FormatJsonObject => JObject [("type", JString "json_object")]
    | FormatJsonSchema name schema strict =>
        JObject [("type", JString "json_schema"); ("name", JString name); ("schema", schema);
                 ("strict", JBool strict)]
    end)].

Section codec.
(** [Value::to_string] and [serde_json::from_str]. *)
Context (to_string : Json → string) (from_json : string → option Json).

Definition render_output (b : ContentBlock) : option Json :=
  match b with
  | BToolResult tool_use_id content _ =>
      Some (JObject [("type", JString "function_call_output"); ("call_id", JString tool_use_id);
        ("output", JString (Canonical.as_text content))])
  | _ => None
  end.

Definition render_part (assistant : bool) (b : ContentBlock) : option Json :=
  match b with
  | BText text _ =>
      Some (JObject [("type", JString (if assistant then "output_text" else "input_text"));
        ("text", JString text)])
  | BImage media_type data =>
      Some (JObject [("type", JString "input_image");
        ("image_url", JString (OpenAI.data_url media_type data))])
  | _ => None
  end.

Definition render_call (names : Names.FunctionNameMap) (b : ContentBlock) : option Json :=
  match b with
  | BToolUse id name input =>
      Some (JObject [("type", JString "function_call"); ("call_id", JString id);
        ("name", JString (Names.wire names name)); ("arguments", JString (to_string input))])
  | _ => None
  end.

Definition is_assistant (m : Message) : bool := match role m with RoleAssistant => true | _ => false end.

(** [render_message_into]: the items it adds. *)
Definition render_message_into (m : Message) (names : Names.FunctionNameMap) : list Json :=
  let assistant := is_assistant m in
  let parts := filter_map (render_part assistant) (content m) in
  filter_map render_output (content m)
  ++ match parts with
     | [] => []
     | _ => [JObject [("type", JString "message");
         ("role", JString (if assistant then "assistant" else "user")); ("content", JArray parts)]]
     end
  ++ filter_map (render_call names) (content m).

Definition render_request (r : CanonicalRequest) (upstream_model : string) : result Json Error :=
  let names := Names.from_request r in
  let input := List.concat (map (fun m => render_message_into m names) (messages r)) in
  let body := [("model", JString upstream_model); ("input", JArray input);
    ("max_output_tokens", num (max_tokens r)); ("stream", JBool (stream r))] in
  let body := put_nonempty (system r) "instructions"
    (JString (Str.join OpenAI.PARAGRAPH (filter_map OpenAI.text_of_block (system r)))) body in
  let body := put_nonempty (req_tools r) "tools" (JArray (map (render_tool names) (req_tools r))) body in
  let body := put_some (OpenAI.asked_effort r) "reasoning"
    (fun e => JObject [("effort", JString (Canonical.effort_as_str e))]) body in
  match stop r with
  | _ :: _ => Err (UnsupportedField "stop" OpenAIResponses)
  | [] =>
      let body := put_some (tool_choice r) "tool_choice" (render_tool_choice names) body in
      let body := put_some (response_format r) "text" render_format body in
      Ok (JObject (put_some (previous_response_id r) "previous_response_id" JString body))
  end.

(** ** Requests in *)

Definition parse_tool (t : Json) : option Tool :=
  match as_str (idx t "name") with
  | None => None
  | Some name => Some {|
      tool_name := name; description := str_or "" (idx t "description");
      input_schema := idx t "parameters"; tool_cache_control := None |}
  end.

Definition parse_tool_choice (v : Json) : option ToolChoice :=
  match as_str v with
  | Some s =>
      if Str.eqb s "auto" then Some ChoiceAuto
      else if Str.eqb s "required" then Some ChoiceRequired
      else if Str.eqb s "none" then Some ChoiceNone
      else None
  | None => ChoiceTool <$> as_str (idx v "name")
  end.

Definition parse_response_format (v : Json) : option ResponseFormat :=
  match as_str (idx v "type") with
  | None => None
  | Some t =>
      if Str.eqb t "text" then Some FormatText
      else if Str.eqb t "json_object" then Some FormatJsonObject
      else if Str.eqb t "json_schema" then
        Some (FormatJsonSchema (str_or "response" (idx v "name")) (idx v "schema")
          (default false (as_bool (idx v "strict"))))
      else None
  end.

(** A block pushed onto the last message, when that is the assistant's. *)
Definition join_assistant_turn (block : ContentBlock) (messages : list Message) : list Message :=
  match last messages with
  | Some {| role := RoleAssistant; content := blocks |} =>
      removelast messages ++ [{| role := RoleAssistant; content := blocks ++ [block] |}]
  | _ => messages ++ [{| role := RoleAssistant; content := [block] |}]
  end.

Definition parse_call (item : Json) : ContentBlock :=
  BToolUse (str_or "" (idx item "call_id")) (str_or "" (idx item "name"))
    (default (JObject []) (match as_str (idx item "arguments") with
       | Some a => from_json a | None => None end)).

Definition parse_output (item : Json) : ContentBlock :=
  BToolResult (str_or "" (idx item "call_id"))
    (ResultText (match idx item "output" with JString s => s | other => to_string other end)) false.

Definition parse_part (p : Json) : option ContentBlock :=
  let t := str_or "" (idx p "type") in
  if any (Str.eqb t) ["input_text"; "output_text"; "text"] then
    Some (BText (str_or "" (idx p "text")) None)
  else if Str.eqb t "input_image" then
    (fun x : string * string => BImage x.1 x.2) <$> OpenAI.split_data_url (str_or "" (idx p "image_url"))
  else None.

Definition parse_content (item : Json) : list ContentBlock :=
  match idx item "content" with
  | JString s => if negb (Str.is_empty s) then [BText s None] else []
  | JArray parts => filter_map parse_part parts
  | _ => []
  end.

Definition parse_input_item (messages : list Message) (item : Json) : list Message :=
  let t := str_or "message" (idx item "type") in
  if Str.eqb t "function_call" then join_assistant_turn (parse_call item) messages
  else if Str.eqb t "function_call_output" then OpenAI.join_user_turn (parse_output item) messages
  else if Str.eqb t "reasoning" then messages
  else
    match parse_content item with
    | [] => messages
    | content =>
        messages ++ [{| role := if bool_decide (as_str (idx item "role") = Some "assistant")
                                then RoleAssistant else RoleUser;
                        content := content |}]
    end.

Definition parse_input (v : Json) : list Message :=
  match v with
  | JString s => [{| role := RoleUser; content := [BText s None] |}]
  | JArray items => fold_left parse_input_item items []
  | _ => []
  end.

Definition parse_effort (body : Json) : option Effort :=
  match as_str (idx (idx body "reasoning") "effort") with
  | Some s => Canonical.effort_parse s
  | None => None
  end.

Definition parse_request (body : Json) : CanonicalRequest := {|
  model := str_or "" (idx body "model");
  system := option_list (OpenAI.system_text <$> OpenAI.said (idx body "instructions"));
  messages := parse_input (idx body "input");
  req_tools := filter_map parse_tool (array_or_empty (idx body "tools"));
  max_tokens := default 4096 (match as_u64 (idx body "max_output_tokens") with
    | Some n => Anthropic.try_u32 n | None => None end);
  stream := default false (as_bool (idx body "stream"));
  thinking_budget := Canonical.as_budget <$> parse_effort body;
  thinking_effort := parse_effort body;
  client_session := as_str (idx body "user");
  tool_choice := parse_tool_choice (idx body "tool_choice");
  response_format := parse_response_format (idx (idx body "text") "format");
  stop := [];
  previous_response_id := as_str (idx body "previous_response_id");
  passthrough := None |}.

(** ** Responses in *)

Definition parse_usage (v : Json) : Usage :=
  let cached := default 0 (as_u64 (idx (idx v "input_tokens_details") "cached_tokens")) in {|
  input_tokens := sat_sub (default 0 (as_u64 (idx v "input_tokens"))) cached;
  output_tokens := default 0 (as_u64 (idx v "output_tokens"));
  cache_read_tokens := cached;
  cache_write_tokens := 0 |}.

Definition is_type (v : Json) (t : string) : bool := bool_decide (as_str (idx v "type") = Some t).

Definition has_refusal (item : Json) : bool :=
  any (fun p => is_type p "refusal") (array_or_empty (idx item "content")).

(** Why a response ended. *)
Definition finish_reason (incomplete : Json) (refused called_a_tool : bool) : StopReason :=
  let inferred := if refused then StopRefusal else if called_a_tool then StopToolUse else StopEndTurn in
  match as_str incomplete with
  | Some s =>
      if Str.eqb s "max_output_tokens" then StopMaxTokens
      else if Str.eqb s "content_filter" then StopRefusal
      else inferred
  | None => inferred
  end.

Definition completed_events (response : Json) (acc : StreamAccumulator) : list StreamEvent :=
  let usage := parse_usage (idx response "usage") in
  let output := array_or_empty (idx response "output") in
  let called_a_tool := Stream.saw_tool_call acc || any (fun item => is_type item "function_call") output in
  [EvUsageUpdate usage;
   EvStop (finish_reason (idx (idx response "incomplete_details") "reason")
             (any has_refusal output) called_a_tool) usage].

(** What a payload says. *)
Definition event_of (v : Json) (acc : StreamAccumulator) : list StreamEvent :=
  let kind := str_or "" (idx v "type") in
  if Str.eqb kind "response.created" then
    [EvStart (str_or "" (idx (idx v "response") "model")) (parse_usage (idx (idx v "response") "usage"))]
  else if Str.eqb kind "response.output_text.delta" then [EvTextDelta (str_or "" (idx v "delta"))]
  else if Str.eqb kind "response.reasoning_summary_text.delta"
       || Str.eqb kind "response.reasoning_text.delta" then [EvThinkingDelta (str_or "" (idx v "delta"))]
  else if Str.eqb kind "response.output_item.added" then
    let item := idx v "item" in
    if is_type item "function_call"
    then [EvToolUseStart (str_or "" (idx item "call_id"))
            (Stream.restore_function_name acc (str_or "" (idx item "name")))]
    else []
  else if Str.eqb kind "response.function_call_arguments.delta" then
    [EvToolUseDelta (default "" (Stream.current_tool_id acc)) (str_or "" (idx v "delta"))]
  else if Str.eqb kind "response.output_item.done" then
    let item := idx v "item" in
    if is_type item "function_call"
    then [EvToolUseEnd (match as_str (idx item "call_id") with
            | Some id => id | None => default "" (Stream.current_tool_id acc) end)]
    else []
  else if Str.eqb kind "response.completed" || Str.eqb kind "response.incomplete" then
    completed_events (idx v "response") acc
  else if Str.eqb kind "response.failed" || Str.eqb kind "error" then
    [EvError (match as_str (idx (idx (idx v "response") "error") "message") with
       | Some message => message
       | None => str_or "upstream error" (idx v "message") end)]
  else [].

Definition parse_event (payload : string) (acc : StreamAccumulator) : result (list StreamEvent) Error :=
  let? v := ok_or (from_json payload) (Serde payload) in Ok (event_of v acc).

Definition part_event (part : Json) : option StreamEvent :=
  let t := str_or "" (idx part "type") in
  if Str.eqb t "output_text" then Some (EvTextDelta (str_or "" (idx part "text")))
  else if Str.eqb t "refusal" then Some (EvTextDelta (str_or "" (idx part "refusal")))
  else None.

Definition item_events (item : Json) : list StreamEvent :=
  let t := str_or "" (idx item "type") in
  if Str.eqb t "message" then filter_map part_event (array_or_empty (idx item "content"))
  else if Str.eqb t "reasoning" then
    filter_map (fun part => EvThinkingDelta <$> OpenAI.said (idx part "text"))
      (array_or_empty (idx item "summary"))
  else if Str.eqb t "function_call" then
    let id := str_or "" (idx item "call_id") in
    [EvToolUseStart id (str_or "" (idx item "name")); EvToolUseDelta id (str_or "" (idx item "arguments"));
     EvToolUseEnd id]
  else [].

Definition parse_response (body : Json) : list StreamEvent :=
  let usage := parse_usage (idx body "usage") in
  let output := array_or_empty (idx body "output") in
  let tool_calls := any (fun item => Str.eqb (str_or "" (idx item "type")) "function_call") output in
  let refused := any (fun item => Str.eqb (str_or "" (idx item "type")) "message"
    && any (fun part => Str.eqb (str_or "" (idx part "type")) "refusal")
         (array_or_empty (idx item "content"))) output in
  EvUsageUpdate usage :: List.concat (map item_events output)
  ++ [EvStop (finish_reason (idx (idx body "incomplete_details") "reason") refused tool_calls) usage].

(** ** A whole answer out *)

Definition usage_json (u : Usage) : Json := JObject [
  ("input_tokens", num (OpenAIStream.prompt_tokens u));
  ("input_tokens_details", JObject [("cached_tokens", num (cache_read_tokens u))]);
  ("output_tokens", num (output_tokens u));
  ("output_tokens_details", JObject [("reasoning_tokens", num 0)]);
  ("total_tokens", num (OpenAIStream.wrapping_u64 (OpenAIStream.prompt_tokens u + output_tokens u)))].

(** [output], [text] and [thinking] of the loop. *)
Record Gathered : Type := { g_output : list Json; g_text : string; g_thinking : string }.

Definition gather_block (request_id : string) (g : Gathered) (block : Json) : Gathered :=
  let t := str_or "" (idx block "type") in
  if Str.eqb t "text" then
    {| g_output := g_output g; g_text := g_text g +:+ str_or "" (idx block "text"); g_thinking := g_thinking g |}
  else if Str.eqb t "thinking" then
    {| g_output := g_output g; g_text := g_text g;
       g_thinking := g_thinking g +:+ str_or "" (idx block "thinking") |}
  else if Str.eqb t "tool_use" then
    {| g_output := g_output g ++ [JObject [
         ("id", JString ("fc_" +:+ request_id +:+ "_" +:+ Str.decimal (Z.of_nat (length (g_output g)))));
         ("type", JString "function_call"); ("status", JString "completed"); ("call_id", idx block "id");
         ("name", idx block "name"); ("arguments", JString (to_string (idx block "input")))]];
       g_text := g_text g; g_thinking := g_thinking g |}
  else g.

Definition output_text (text : string) : Json :=
  JObject [("type", JString "output_text"); ("text", JString text); ("annotations", JArray [])].

Definition output_items (request_id : string) (g : Gathered) : list Json :=
  let output := g_output g in
  let output := if Str.is_empty (g_text g) then output
    else JObject [("id", JString ("msg_" +:+ request_id +:+ "_0")); ("type", JString "message");
           ("status", JString "completed"); ("role", JString "assistant");
           ("content", JArray [output_text (g_text g)])] :: output in
  if Str.is_empty (g_thinking g) then output
  else JObject [("id", JString ("rs_" +:+ request_id +:+ "_0")); ("type", JString "reasoning");
         ("status", JString "completed");
         ("summary", JArray [JObject [("type", JString "summary_text"); ("text", JString (g_thinking g))]])]
       :: output.

Definition render_response (anthropic : Json) (request_id : string) : Json :=
  let g := fold_left (gather_block request_id) (array_or_empty (idx anthropic "content"))
    {| g_output := []; g_text := ""; g_thinking := "" |} in
  let used := Anthropic.parse_usage (idx anthropic "usage") in
  let stop := str_or "end_turn" (idx anthropic "stop_reason") in
  let incomplete := Str.eqb stop "max_tokens" || Str.eqb stop "refusal" in
  JObject (put_if incomplete "incomplete_details"
    (JObject [("reason", JString (if Str.eqb stop "max_tokens" then "max_output_tokens" else "content_filter"))])
    [("id", JString ("resp_" +:+ request_id)); ("object", JString "response"); ("created_at", num 0);
     ("status", JString (if incomplete then "incomplete" else "completed"));
     ("model", idx anthropic "model"); ("output", JArray (output_items request_id g));
     ("usage", usage_json used)]).

(** ** What a request is read back as *)

Definition part_back (b : ContentBlock) : option ContentBlock :=
  match b with
  | BText text _ => Some (BText text None)
  | BImage media_type data => Some (BImage media_type data)
  | _ => None
  end.

(** One turn: its results on the user's turn, then its text and images, then
    its calls on the assistant's. *)
Definition turn_back (names : Names.FunctionNameMap) (messages : list Message) (m : Message) : list Message :=
  let messages := fold_left (fun ms b => OpenAI.join_user_turn b ms)
    (filter_map OpenAI.result_back (content m)) messages in
  let messages := match filter_map part_back (content m) with
    | [] => messages
    | parts => messages ++ [{| role := if is_assistant m then RoleAssistant else RoleUser; content := parts |}]
    end in
  fold_left (fun ms b => join_assistant_turn b ms) (filter_map (OpenAI.call_back names) (content m)) messages.

Section requests.
Context (print_parse : ∀ v, from_json (to_string v) = Some v).

Lemma outputs_read bs ms :
  fold_left parse_input_item (filter_map render_output bs) ms =
  fold_left (fun ms b => OpenAI.join_user_turn b ms) (filter_map OpenAI.result_back bs) ms.
Proof. revert ms; induction bs as [|[] bs IH]; intros ms; cbn; by rewrite ?IH. Qed.

Lemma calls_read names bs ms :
  fold_left parse_input_item (filter_map (render_call names) bs) ms =
  fold_left (fun ms b => join_assistant_turn b ms) (filter_map (OpenAI.call_back names) bs) ms.
Proof.
  revert ms; induction bs as [|b bs IH]; intros ms; [done|]. destruct b as [| |id name input| |]; try apply IH.
  cbn [filter_map render_call OpenAI.call_back fold_left]. rewrite <-IH. f_equal.
  unfold parse_input_item, parse_call. cbn. by rewrite print_parse.
Qed.

Lemma part_read assistant b :
  OpenAI.plain_image b →
  match render_part assistant b with Some p => parse_part p = part_back b | None => part_back b = None end.
Proof.
  intros Hb. destruct b; try done; cbn -[OpenAI.data_url OpenAI.split_data_url].
  - by destruct assistant.
  - by rewrite OpenAI.data_url_back.
Qed.

Lemma parts_read assistant bs :
  Forall OpenAI.plain_image bs →
  filter_map parse_part (filter_map (render_part assistant) bs) = filter_map part_back bs ∧
  (filter_map (render_part assistant) bs = [] ↔ filter_map part_back bs = []).
Proof.
  induction 1 as [|b bs Hb _ [IH1 IH2]]; [done|]. cbn [filter_map]. apply (part_read assistant) in Hb.
  destruct (render_part assistant b) as [p|] eqn:E; [|by rewrite Hb].
  cbn [filter_map]. rewrite Hb, IH1. split; [done|].
  destruct b; try done; by destruct assistant.
Qed.

Lemma message_item_read names m ms :
  Forall OpenAI.plain_image (content m) →
  fold_left parse_input_item (render_message_into m names) ms = turn_back names ms m.
Proof.
  intros Hp. unfold render_message_into, turn_back. rewrite !fold_left_app, outputs_read, calls_read.
  f_equal. destruct (parts_read (is_assistant m) (content m) Hp) as [H1 H2].
  destruct (filter_map (render_part _) (content m)) as [|p ps] eqn:E; [by rewrite (proj1 H2 eq_refl)|].
  destruct (filter_map part_back (content m)) as [|b bs]; [by pose proof (proj2 H2 eq_refl)|].
  cbn [fold_left]. unfold parse_input_item, parse_content.
  change (idx (JObject _) "content") with (JArray (p :: ps)).
  change (str_or "message" (idx (JObject _) "type")) with "message". cbv iota.
  change (Str.eqb "message" "function_call") with false. change (Str.eqb "message" "function_call_output") with false.
  change (Str.eqb "message" "reasoning") with false. cbv iota. rewrite H1.
  by destruct (is_assistant m).
Qed.

Lemma input_read names ms acc :
  Forall (fun m => Forall OpenAI.plain_image (content m)) ms →
  fold_left parse_input_item (List.concat (map (fun m => render_message_into m names) ms)) acc =
  fold_left (turn_back names) ms acc.
Proof.
  intros H. revert acc; induction H as [|m ms Hm _ IH]; intros acc; [done|].
  cbn [map List.concat fold_left]. by rewrite fold_left_app, message_item_read.
Qed.

Lemma responses_tools_back names ts :
  filter_map parse_tool (array_or_empty (default JNull
    (Anthropic.or_none ts (JArray (map (render_tool names) ts))))) = map (OpenAI.chat_tool names) ts.
Proof.
  destruct ts as [|t ts]; [done|].
  change (filter_map parse_tool (map (render_tool names) (t :: ts)) = map (OpenAI.chat_tool names) (t :: ts)).
  induction (t :: ts) as [|x l IH]; [done|]. cbn [map filter_map]. by rewrite IH.
Qed.

Lemma responses_rendered r upstream_model body :
  render_request r upstream_model = Ok body →
  let names := Names.from_request r in
  stop r = [] ∧
  ∃ fs, body = JObject fs ∧
    field "model" fs = Some (JString upstream_model) ∧
    field "input" fs = Some (JArray (List.concat (map (fun m => render_message_into m names) (messages r)))) ∧
    field "max_output_tokens" fs = Some (num (max_tokens r)) ∧
    field "stream" fs = Some (JBool (stream r)) ∧
    field "instructions" fs = Anthropic.or_none (system r)
      (JString (Str.join OpenAI.PARAGRAPH (filter_map OpenAI.text_of_block (system r)))) ∧
    field "tools" fs = Anthropic.or_none (req_tools r) (JArray (map (render_tool names) (req_tools r))) ∧
    field "reasoning" fs =
      (fun e => JObject [("effort", JString (Canonical.effort_as_str e))]) <$> OpenAI.asked_effort r ∧
    field "tool_choice" fs = render_tool_choice names <$> tool_choice r ∧
    field "text" fs = render_format <$> response_format r ∧
    field "previous_response_id" fs = JString <$> previous_response_id r ∧
    field "user" fs = None.
Proof.
  unfold render_request. cbv zeta. destruct (stop r); [|done]. intros [= <-].
  split; [done|]. eexists. split; [done|].
  repeat split; rewrite !field_put_some, !field_put_nonempty; cbn; try done;
    by destruct (OpenAI.asked_effort r), (req_tools r), (tool_choice r), (response_format r), (system r),
      (previous_response_id r).
Qed.

(** What a Responses server is sent says what was asked.  Read back, a
    rendered request has the model, the ceiling, the stream flag, the answer's
    format, the stored response it continues and the effort it had, a budget
    read as the nearest level; its tools and the tool it insists on under their
    wire names; its system prompt as the instructions; and its conversation turn
    for turn, text and images in order, calls with their arguments on the
    assistant's turn and results on the user's.  A request with stop sequences,
    which this dialect has no place for, is refused and never sent without
    them. *)
Theorem responses_request_roundtrip r upstream_model :
  0 ≤ max_tokens r ≤ U32_MAX →
  Forall (fun m => Forall OpenAI.plain_image (content m)) (messages r) →
  match render_request r upstream_model with
  | Err e => e = UnsupportedField "stop" OpenAIResponses ∧ stop r ≠ []
  | Ok body =>
      let names := Names.from_request r in
      let read := parse_request body in
      stop r = [] ∧ stop read = [] ∧
      model read = upstream_model ∧ max_tokens read = max_tokens r ∧ stream read = stream r ∧
      response_format read = response_format r ∧
      previous_response_id read = previous_response_id r ∧
      thinking_effort read = OpenAI.asked_effort r ∧
      thinking_budget read = Canonical.as_budget <$> OpenAI.asked_effort r ∧
      req_tools read = map (OpenAI.chat_tool names) (req_tools r) ∧
      tool_choice read = OpenAI.chat_choice names <$> tool_choice r ∧
      system read = OpenAI.chat_system (system r) ∧
      messages read = fold_left (turn_back names) (messages r) []
  end.
Proof.
  intros Hm Hp. destruct (render_request r upstream_model) as [body|e] eqn:E.
  2: { unfold render_request in E. cbv zeta in E. destruct (stop r); [done|]. by injection E as <-. }
  apply responses_rendered in E as (Hs & fs & -> & Hmo & Hin & Hmt & Hst & Hsy & Hto & Hre & Htc & Hrf & Hpr & Hu).
  intros names read. unfold read, parse_request, parse_effort. cbn [idx].
  rewrite Hmo, Hin, Hmt, Hst, Hsy, Hto, Hre, Htc, Hrf, Hpr, Hu.
  cbn [model system messages req_tools max_tokens stream thinking_effort thinking_budget tool_choice
    response_format stop previous_response_id].
  assert (match as_str (idx (default JNull ((λ e, JObject [("effort", JString (Canonical.effort_as_str e))])
      <$> OpenAI.asked_effort r)) "effort") with Some s => Canonical.effort_parse s | None => None end =
    OpenAI.asked_effort r) as ->.
  { destruct (OpenAI.asked_effort r) as [e|]; [|done]. apply Canonical.effort_parse_as_str. }
  split_and!; try done.
  - unfold U32_MAX in Hm. cbn [from_option Datatypes.id]. rewrite as_u64_num by (unfold U64_MAX; lia).
    unfold Anthropic.try_u32. by rewrite (proj2 (Z.leb_le _ _)) by (unfold U32_MAX; lia).
  - by destruct (response_format r) as [[| |? ? []]|].
  - by destruct (previous_response_id r).
  - apply responses_tools_back.
  - by destruct (tool_choice r) as [[]|].
  - unfold OpenAI.chat_system. destruct (system r); [done|]. cbn [Anthropic.or_none].
    unfold OpenAI.said. cbn [from_option Datatypes.id as_str]. by destruct (Str.is_empty (Str.join _ _)).
  - by apply input_read.
Qed.

End requests.

(** ** What a whole answer is read back as *)

Definition responses_stop (reason : StopReason) (called : bool) : StopReason :=
  match reason with
  | StopMaxTokens | StopRefusal => reason
  | _ => if called then StopToolUse else StopEndTurn
  end.

Definition call_events (c : string * string * string) : list StreamEvent :=
  [EvToolUseStart c.1.1 c.1.2; EvToolUseDelta c.1.1 c.2; EvToolUseEnd c.1.1].

Definition whole_answer (es : list StreamEvent) : list StreamEvent :=
  let total := OpenAIStream.chat_usage (AnthropicStream.usages es no_usage) in
  EvUsageUpdate total
  :: option_list (EvThinkingDelta <$> OpenAIStream.nonempty
       (AnthropicStream.join (filter_map AnthropicStream.event_thought es)))
  ++ option_list (EvTextDelta <$> OpenAIStream.nonempty
       (AnthropicStream.join (filter_map AnthropicStream.event_answer es)))
  ++ List.concat (map call_events (OpenAIStream.calls_of to_string from_json es))
  ++ [EvStop (responses_stop (default StopEndTurn (Stream.last_stop es None))
        (negb (bool_decide (filter_map AnthropicStream.event_call es = [])))) total].

Definition block_call (b : OpenBlock) : option (string * string * string) :=
  match b with
  | OTool id name input => Some (id, name, Hub.arguments to_string from_json input)
  | _ => None
  end.

Definition call_item (v : Json) (c : string * string * string) : Prop :=
  is_type v "function_call" = true ∧ has_refusal v = false ∧ item_events v = call_events c.

Lemma gather_all request_id bs g cs :
  Forall2 call_item (g_output g) cs →
  let g' := fold_left (gather_block request_id) (map (Hub.into_json from_json) bs) g in
  g_text g' = g_text g +:+ AnthropicStream.bodies false (map Hub.as_said bs) ∧
  g_thinking g' = g_thinking g +:+ AnthropicStream.bodies true (map Hub.as_said bs) ∧
  Forall2 call_item (g_output g') (cs ++ filter_map block_call bs).
Proof.
  revert g cs; induction bs as [|b bs IH]; intros g cs H.
  { cbn. by rewrite !Str.append_empty_r, app_nil_r. }
  cbn [map fold_left]. unfold AnthropicStream.bodies in *. destruct b as [text|text|id name input].
  - destruct (IH (gather_block request_id g (Hub.into_json from_json (OText text))) cs H) as (-> & -> & H3).
    cbn. by rewrite Str.append_assoc.
  - destruct (IH (gather_block request_id g (Hub.into_json from_json (OThinking text))) cs H) as (-> & -> & H3).
    cbn. by rewrite Str.append_assoc.
  - destruct (IH (gather_block request_id g (Hub.into_json from_json (OTool id name input)))
      (cs ++ [(id, name, Hub.arguments to_string from_json input)])) as (-> & -> & H3).
    { cbn. apply Forall2_app; [done|]. by repeat constructor. }
    cbn. by rewrite <-app_assoc in H3.
Qed.

Lemma items_read os cs :
  Forall2 call_item os cs →
  List.concat (map item_events os) = List.concat (map call_events cs) ∧
  any has_refusal os = false ∧
  any (fun item => is_type item "function_call") os = negb (bool_decide (cs = [])).
Proof.
  induction 1 as [|v c os cs (H1 & H2 & H3) _ (IH1 & IH2 & IH3)]; [done|].
  unfold any in *. cbn -[call_events item_events is_type has_refusal]. by rewrite H1, H2, H3, IH1, IH2.
Qed.

Lemma is_type_default v t : t ≠ "" → is_type v t = Str.eqb (str_or "" (idx v "type")) t.
Proof.
  intros Ht. unfold is_type, str_or. destruct (as_str (idx v "type")) as [s|];
    cbn [from_option Datatypes.id]; case_bool_decide as H.
  - injection H as ->. by rewrite Str.str_eqb_refl.
  - symmetry. apply Str.str_eqb_neq. congruence.
  - done.
  - symmetry. by apply Str.str_eqb_neq.
Qed.

(** Refusals are looked for in messages alone; the items here have none. *)
Lemma no_message_refusal os :
  any has_refusal os = false →
  any (fun item => Str.eqb (str_or "" (idx item "type")) "message"
    && any (fun part => Str.eqb (str_or "" (idx part "type")) "refusal")
         (array_or_empty (idx item "content"))) os = false.
Proof.
  unfold any. induction os as [|v os IH]; [done|]. cbn [List.existsb]. intros [H1 H2]%orb_false_iff.
  rewrite IH by done. rewrite orb_false_r. apply andb_false_iff. right.
  unfold has_refusal, any in H1. refine (eq_trans _ H1). clear.
  induction (array_or_empty _) as [|p ps IH]; [done|].
  cbn [List.existsb]. by rewrite IH, is_type_default.
Qed.

Lemma output_read request_id g cs :
  Forall2 call_item (g_output g) cs →
  List.concat (map item_events (output_items request_id g)) =
    option_list (EvThinkingDelta <$> OpenAIStream.nonempty (g_thinking g))
    ++ option_list (EvTextDelta <$> OpenAIStream.nonempty (g_text g)) ++ List.concat (map call_events cs) ∧
  any has_refusal (output_items request_id g) = false ∧
  any (fun item => is_type item "function_call") (output_items request_id g) = negb (bool_decide (cs = [])).
Proof.
  intros (H1 & H2 & H3)%items_read. rewrite <-H1, <-H3. unfold output_items, OpenAIStream.nonempty.
  destruct (g_thinking g) as [|c s], (g_text g) as [|c' s']; repeat split; exact H2.
Qed.

Lemma responses_usage_back u :
  OpenAIStream.prompt_fits u → parse_usage (usage_json u) = OpenAIStream.chat_usage u.
Proof.
  intros [(Hi & Ho & Hr & Hw) Hs]. unfold is_uint in *. unfold parse_usage, usage_json, OpenAIStream.chat_usage.
  cbv zeta.
  change (idx (JObject _) "input_tokens") with (num (OpenAIStream.prompt_tokens u)).
  change (idx (JObject _) "output_tokens") with (num (output_tokens u)).
  change (idx (idx (JObject _) "input_tokens_details") "cached_tokens") with (num (cache_read_tokens u)).
  unfold OpenAIStream.prompt_tokens, OpenAIStream.wrapping_u64. rewrite Z.mod_small by lia.
  rewrite !as_u64_num by lia. cbn [from_option Datatypes.id]. unfold sat_sub. f_equal. lia.
Qed.

(** How the body's stop is written, and what it is read as. *)
Lemma responses_stop_word es :
  let stop := str_or "end_turn" (match Hub.normal_stop es with
    | Some r => JString (Anthropic.stop_reason_str r) | None => JNull end) in
  let incomplete := Str.eqb stop "max_tokens" || Str.eqb stop "refusal" in
  ∀ called, called = negb (bool_decide (filter_map AnthropicStream.event_call es = [])) →
  finish_reason (if incomplete
      then JString (if Str.eqb stop "max_tokens" then "max_output_tokens" else "content_filter")
      else JNull) false called =
    responses_stop (default StopEndTurn (Stream.last_stop es None)) called.
Proof.
  intros stop incomplete called Hc. unfold incomplete, stop, Hub.normal_stop.
  destruct (filter_map AnthropicStream.event_call es) as [|c cs]; subst called;
    by destruct (Stream.last_stop es None) as [[]|].
Qed.

(** An answer asked for whole is the answer, for a Responses client.  The
    response rendered from the hub says what the events said: all the thinking,
    then all the text, then every call under its id and name with its
    arguments; the merged usage, the cache's share where this dialect counts it;
    and that it is incomplete exactly when it was cut short or refused.  Provided
    calls come one after the other, as those of any whole body do, with distinct
    ids. *)
Theorem responses_keeps_the_answer es request_id model id :
  Hub.one_by_one None es = true → NoDup (filter_map Stream.event_start es) →
  OpenAIStream.prompt_fits (AnthropicStream.usages es no_usage) →
  parse_response (render_response (Hub.render_from_events from_json es request_id model) id) =
  whole_answer es.
Proof.
  intros Hone Hnd Hfit. destruct (Hub.hub_blocks from_json es model Hone Hnd) as (bs & H & A & T & N & C).
  rewrite (Hub.hub_body from_json es request_id model bs H N). unfold render_response.
  change (array_or_empty (idx (JObject _) "content")) with (map (Hub.into_json from_json) bs).
  change (idx (JObject _) "stop_reason") with (match Hub.normal_stop es with
    | Some r => JString (Anthropic.stop_reason_str r) | None => JNull end).
  change (idx (JObject _) "usage") with (AnthropicStream.usage_json (AnthropicStream.usages es no_usage)).
  rewrite (Hub.usage_back _ (proj1 Hfit)).
  destruct (gather_all id bs {| g_output := []; g_text := ""; g_thinking := "" |} []) as (Ht & Hk & Hcs);
    [constructor|].
  set (g := fold_left (gather_block id) _ _) in *. cbn [g_text g_thinking app] in Ht, Hk, Hcs.
  assert (filter_map block_call bs = OpenAIStream.calls_of to_string from_json es) as Hcalls.
  { unfold OpenAIStream.calls_of. rewrite <-N, <-C. clear.
    induction bs as [|[] bs IH]; [done|exact IH..|]. cbn. by f_equal. }
  rewrite Hcalls in Hcs. destruct (output_read id g _ Hcs) as (Ho & Hr & Hf).
  assert (negb (bool_decide (OpenAIStream.calls_of to_string from_json es = [])) =
    negb (bool_decide (filter_map AnthropicStream.event_call es = []))) as Hcalled.
  { f_equal. apply bool_decide_ext. rewrite <-Hcalls, <-N. clear.
    by induction bs as [|[] bs IH]; [|exact IH..|]. }
  rewrite Hcalled in Hf. pose proof (responses_stop_word es _ Hf) as Hstop. cbv zeta in Hstop.
  set (stop := str_or "end_turn" _) in *. set (incomplete := _ || _) in *. unfold parse_response.
  set (body := JObject (put_if _ _ _ _)).
  assert (idx body "usage" = usage_json (AnthropicStream.usages es no_usage)) as -> by by destruct incomplete.
  assert (array_or_empty (idx body "output") = output_items id g) as -> by by destruct incomplete.
  assert (idx (idx body "incomplete_details") "reason" = if incomplete
    then JString (if Str.eqb stop "max_tokens" then "max_output_tokens" else "content_filter") else JNull) as ->
    by by destruct incomplete.
  rewrite responses_usage_back by done. rewrite no_message_refusal by done.
  assert (any (fun item => Str.eqb (str_or "" (idx item "type")) "function_call") (output_items id g) =
    any (fun item => is_type item "function_call") (output_items id g)) as ->.
  { unfold any. clear. induction (output_items id g) as [|v l IH]; [done|]. cbn. by rewrite IH, is_type_default. }
  rewrite Hstop, Hf, Ho, Ht, Hk. unfold whole_answer. rewrite A, T, <-!app_assoc. reflexivity.
Qed.

End codec.

(** ** Witnesses *)

Definition responses_example : CanonicalRequest := {|
  model := "fast"; system := [BText "Be brief." None];
  messages := [
    {| role := RoleUser; content := [BText "hi" None; BImage "image/png" "AAAA"] |};
    {| role := RoleAssistant; content := [BText "ok" None; BToolUse "c1" "read file" (JObject [])] |};
    {| role := RoleUser; content := [BToolResult "c1" (ResultText "done") false; BText "go on" None] |}];
  req_tools := []; max_tokens := 100; stream := true; thinking_budget := Some 9000; thinking_effort := None;
  client_session := None; tool_choice := None; response_format := Some FormatJsonObject;
  stop := []; previous_response_id := Some "resp_1"; passthrough := None |}.

Lemma responses_request_roundtrip_witness :
  match render_request a_printer responses_example "m" with
  | Ok body =>
      messages (parse_request a_printer a_parser body) = [
        {| role := RoleUser; content := [BText "hi" None; BImage "image/png" "AAAA"] |};
        {| role := RoleAssistant; content := [BText "ok" None; BToolUse "c1" "read_file" (JObject [])] |};
        {| role := RoleUser; content := [BToolResult "c1" (ResultText "done") false] |};
        {| role := RoleUser; content := [BText "go on" None] |}] ∧
      previous_response_id (parse_request a_printer a_parser body) = Some "resp_1"
  | Err _ => False
  end.
Proof.
  pose proof (responses_request_roundtrip a_printer a_parser a_printer_parses responses_example "m") as H.
  assert (Forall (fun m => Forall OpenAI.plain_image (content m)) (messages responses_example)) as Hp.
  { repeat (first [apply List.Forall_cons | apply List.Forall_nil]); cbn; try done.
    intros Hi. repeat destruct Hi as [Hi|Hi]; done. }
  destruct (render_request a_printer responses_example "m") as [body|e].
  - destruct H as (_ & _ & _ & _ & _ & _ & Hi & _ & _ & _ & _ & _ & Hm);
      [split; cbn; unfold U32_MAX; lia|done|].
    split; [rewrite Hm; vm_compute; reflexivity|exact Hi].
  - destruct H as [_ Hx]; [split; cbn; unfold U32_MAX; lia|done|by apply Hx].
Defined.

Lemma responses_keeps_the_answer_witness :
  parse_response (render_response Hub.null_text
    (Hub.render_from_events Hub.null_parse Hub.answer_example "1" "m") "2") = [
    EvUsageUpdate {| input_tokens := 7; output_tokens := 3; cache_read_tokens := 0; cache_write_tokens := 0 |};
    EvThinkingDelta "hm"; EvTextDelta "ab"; EvToolUseStart "c1" "read"; EvToolUseDelta "c1" "null";
    EvToolUseEnd "c1";
    EvStop StopToolUse
      {| input_tokens := 7; output_tokens := 3; cache_read_tokens := 0; cache_write_tokens := 0 |}].
Proof.
  apply (responses_keeps_the_answer Hub.null_text Hub.null_parse Hub.answer_example "1" "m" "2").
  - reflexivity.
  - repeat constructor; set_solver.
  - repeat split; cbn; unfold U64_MAX; lia.
Defined.

End Responses.
