(* ===== verification/ResponsesStream.v ===== *)
(** * Streaming an answer in the Responses dialect

    [RenderState] and [render_event] of [crates/oag-proto/src/responses.rs]:
    the hub's events written as named events about output items, each opened,
    added to and closed, and a client that keeps to the protocol. *)

From Stdlib Require Import Ascii.
From S2P Require Import Prelude Text Money Domain Efforts Catalog Cost.
From S2P Require Import Ladder Classify Budget Policy Canonical Wire Names Stream.
From S2P Require Import Anthropic AnthropicStream Hub Frames OpenAI OpenAIStream Responses.
#[local] Open Scope string_scope.
#[local] Open Scope oag_scope.
#[local] Open Scope list_scope.
#[local] Open Scope Z_scope.

(** [ToolCall], and [RenderState] of this dialect. *)
Record ToolCall : Type := {
  tc_call_id : string;
  tc_index : Z;
  tc_item_id : string;
  tc_name : string;
  tc_args : string
}.

Record ItemState : Type := {
  is_id : string;
  is_model : string;
  is_created : bool;
  is_next : Z;
  is_message : option (Z * string);
  is_text : string;
  is_reasoning : option (Z * string);
  is_reasoning_text : string;
  is_tools : list ToolCall;
  is_usage : Usage;
  is_finished : bool
}.

Module ResponsesStream.
Import Js Wire.

Definition new (request_id model : string) : ItemState := {|
  is_id := "resp_" +:+ request_id; is_model := model; is_created := false; is_next := 0;
  is_message := None; is_text := ""; is_reasoning := None; is_reasoning_text := ""; is_tools := [];
  is_usage := no_usage; is_finished := false |}.

(** ** The state's updates *)

Definition set_created (st : ItemState) : ItemState := {|
  is_id := is_id st; is_model := is_model st; is_created := true; is_next := is_next st;
  is_message := is_message st; is_text := is_text st; is_reasoning := is_reasoning st;
  is_reasoning_text := is_reasoning_text st; is_tools := is_tools st; is_usage := is_usage st;
  is_finished := is_finished st |}.

Definition set_message (st : ItemState) (next : Z) (message : option (Z * string)) (text : string) : ItemState := {|
  is_id := is_id st; is_model := is_model st; is_created := is_created st; is_next := next;
  is_message := message; is_text := text; is_reasoning := is_reasoning st;
  is_reasoning_text := is_reasoning_text st; is_tools := is_tools st; is_usage := is_usage st;
  is_finished := is_finished st |}.

Definition set_reasoning (st : ItemState) (next : Z) (reasoning : option (Z * string)) (text : string)
    : ItemState := {|
  is_id := is_id st; is_model := is_model st; is_created := is_created st; is_next := next;
  is_message := is_message st; is_text := is_text st; is_reasoning := reasoning;
  is_reasoning_text := text; is_tools := is_tools st; is_usage := is_usage st;
  is_finished := is_finished st |}.

Definition set_tools (st : ItemState) (next : Z) (tools : list ToolCall) : ItemState := {|
  is_id := is_id st; is_model := is_model st; is_created := is_created st; is_next := next;
  is_message := is_message st; is_text := is_text st; is_reasoning := is_reasoning st;
  is_reasoning_text := is_reasoning_text st; is_tools := tools; is_usage := is_usage st;
  is_finished := is_finished st |}.

Definition report (st : ItemState) (usage : Usage) (model : string) (finished : bool) : ItemState := {|
  is_id := is_id st; is_model := model; is_created := is_created st; is_next := is_next st;
  is_message := is_message st; is_text := is_text st; is_reasoning := is_reasoning st;
  is_reasoning_text := is_reasoning_text st; is_tools := is_tools st;
  is_usage := Usages.merge (is_usage st) usage; is_finished := finished |}.

(** ** Frames *)

Definition Frame : Type := string * Json.

(** A frame whose body repeats its name. *)
Definition named (name : string) (fields : Fields) : Frame :=
  (name, JObject (("type", JString name) :: fields)).

Definition item_id (st : ItemState) (kind : string) (index : Z) : string :=
  let rest := default (is_id st) (Str.strip_prefix (is_id st) "resp_") in
  kind +:+ "_" +:+ rest +:+ "_" +:+ Str.decimal index.

(** [item_id], [output_index] and the index of the part, which head most
    bodies. *)
Definition about (id : string) (index : Z) (part : string) (fields : Fields) : Fields :=
  ("item_id", JString id) :: ("output_index", num index) :: (part, num 0) :: fields.

Definition item_frame (name : string) (index : Z) (item : Fields) : Frame :=
  named name [("output_index", num index); ("item", JObject item)].

Definition summary_text (text : string) : Json :=
  JObject [("type", JString "summary_text"); ("text", JString text)].

(** ** Steps that write frames *)

Definition Step : Type := ItemState → list Frame * ItemState.

Definition and_then (x : list Frame * ItemState) (f : Step) : list Frame * ItemState :=
  let '(out, st) := x in let '(more, st) := f st in (out ++ more, st).

Definition created_frame (st : ItemState) : Frame :=
  named "response.created" [("response", JObject [("id", JString (is_id st)); ("object", JString "response");
    ("created_at", num 0); ("status", JString "in_progress"); ("model", JString (is_model st));
    ("output", JArray [])])].

Definition ensure_created : Step := fun st =>
  if is_created st then ([], st)
  else let st := set_created st in ([created_frame st], st).

Definition close_message : Step := fun st =>
  match is_message st with
  | None => ([], st)
  | Some (index, id) =>
      let text := is_text st in
      ([named "response.output_text.done" (about id index "content_index" [("text", JString text)]);
        named "response.content_part.done" (about id index "content_index" [("part", Responses.output_text text)]);
        item_frame "response.output_item.done" index [("id", JString id); ("type", JString "message");
          ("status", JString "completed"); ("role", JString "assistant");
          ("content", JArray [Responses.output_text text])]],
       set_message st (is_next st) None "")
  end.

Definition close_reasoning : Step := fun st =>
  match is_reasoning st with
  | None => ([], st)
  | Some (index, id) =>
      let text := is_reasoning_text st in
      ([named "response.reasoning_summary_text.done" (about id index "summary_index" [("text", JString text)]);
        named "response.reasoning_summary_part.done"
          (about id index "summary_index" [("part", summary_text text)]);
        item_frame "response.output_item.done" index [("id", JString id); ("type", JString "reasoning");
          ("summary", JArray [summary_text text])]],
       set_reasoning st (is_next st) None "")
  end.

Definition open_reasoning : Step := fun st =>
  match is_reasoning st with
  | Some _ => ([], st)
  | None =>
      and_then (close_message st) (fun st =>
        let index := is_next st in
        let id := item_id st "rs" index in
        ([item_frame "response.output_item.added" index [("id", JString id); ("type", JString "reasoning");
            ("summary", JArray [])];
          named "response.reasoning_summary_part.added"
            (about id index "summary_index" [("part", summary_text "")])],
         set_reasoning st (index + 1) (Some (index, id)) (is_reasoning_text st)))
  end.

Definition open_message : Step := fun st =>
  match is_message st with
  | Some _ => ([], st)
  | None =>
      and_then (close_reasoning st) (fun st =>
        let index := is_next st in
        let id := item_id st "msg" index in
        ([item_frame "response.output_item.added" index [("id", JString id); ("type", JString "message");
            ("status", JString "in_progress"); ("role", JString "assistant"); ("content", JArray [])];
          named "response.content_part.added"
            (about id index "content_index" [("part", Responses.output_text "")])],
         set_message st (index + 1) (Some (index, id)) (is_text st)))
  end.

(** The delta goes to the item the step before it opened. *)
Definition text_delta (text : string) : Step := fun st =>
  let '(index, id) := default (0, "") (is_message st) in
  ([named "response.output_text.delta" (about id index "content_index" [("delta", JString text)])],
   set_message st (is_next st) (is_message st) (is_text st +:+ text)).

Definition reasoning_delta (text : string) : Step := fun st =>
  let '(index, id) := default (0, "") (is_reasoning st) in
  ([named "response.reasoning_summary_text.delta" (about id index "summary_index" [("delta", JString text)])],
   set_reasoning st (is_next st) (is_reasoning st) (is_reasoning_text st +:+ text)).

Definition call_fields (c : ToolCall) (status : string) : Fields := [
  ("id", JString (tc_item_id c)); ("type", JString "function_call"); ("status", JString status);
  ("call_id", JString (tc_call_id c)); ("name", JString (tc_name c)); ("arguments", JString (tc_args c))].

Definition open_call (id name : string) : Step := fun st =>
  let index := is_next st in
  let call := {| tc_call_id := id; tc_index := index; tc_item_id := item_id st "fc" index; tc_name := name;
                 tc_args := "" |} in
  ([item_frame "response.output_item.added" index (call_fields call "in_progress")],
   set_tools st (index + 1) (is_tools st ++ [call])).

Definition render_tool_start (id name : string) : Step := fun st =>
  and_then (and_then (and_then (ensure_created st) close_reasoning) close_message) (open_call id name).

Definition push_args (partial_json : string) (c : ToolCall) : ToolCall := {|
  tc_call_id := tc_call_id c; tc_index := tc_index c; tc_item_id := tc_item_id c; tc_name := tc_name c;
  tc_args := tc_args c +:+ partial_json |}.

Definition open_at (st : ItemState) (id : string) : option (nat * ToolCall) :=
  match position (fun t => Str.eqb (tc_call_id t) id) (is_tools st) with
  | Some at_ => (fun c => (at_, c)) <$> (is_tools st !! at_)
  | None => None
  end.

Definition render_tool_delta (id partial_json : string) : Step := fun st =>
  match open_at st id with
  | None => ([], st)
  | Some (at_, c) =>
      ([named "response.function_call_arguments.delta" [("item_id", JString (tc_item_id c));
         ("output_index", num (tc_index c)); ("delta", JString partial_json)]],
       set_tools st (is_next st) (alter (push_args partial_json) at_ (is_tools st)))
  end.

Definition render_tool_end (id : string) : Step := fun st =>
  match open_at st id with
  | None => ([], st)
  | Some (at_, c) =>
      ([named "response.function_call_arguments.done" [("item_id", JString (tc_item_id c));
         ("output_index", num (tc_index c)); ("arguments", JString (tc_args c))];
        item_frame "response.output_item.done" (tc_index c) (call_fields c "completed")],
       set_tools st (is_next st) (AnthropicStream.remove_at at_ (is_tools st)))
  end.

Definition is_incomplete (reason : StopReason) : bool :=
  match reason with StopMaxTokens | StopRefusal => true | _ => false end.

Definition end_frame (reason : StopReason) (st : ItemState) : Frame :=
  let incomplete := is_incomplete reason in
  let name := if incomplete then "response.incomplete" else "response.completed" in
  named name [("response", JObject (put_if incomplete "incomplete_details"
    (JObject [("reason", JString (match reason with
       | StopMaxTokens => "max_output_tokens" | _ => "content_filter" end))])
    [("id", JString (is_id st)); ("object", JString "response"); ("created_at", num 0);
     ("status", JString (if incomplete then "incomplete" else "completed")); ("model", JString (is_model st));
     ("usage", Responses.usage_json (is_usage st))]))].

Definition failed_frame (message : string) (st : ItemState) : Frame :=
  named "response.failed" [("response", JObject [("id", JString (is_id st)); ("object", JString "response");
    ("created_at", num 0); ("status", JString "failed"); ("model", JString (is_model st));
    ("error", JObject [("code", JString "server_error"); ("message", JString message)]);
    ("usage", Responses.usage_json (is_usage st))])].

(** Everything but the calls is closed, and the last frame written. *)
Definition terminate (last_frame : ItemState → Frame) : Step := fun st =>
  and_then (and_then (and_then (ensure_created st) close_reasoning) close_message)
    (fun st => ([last_frame st], st)).

Definition render_failure (message : string) : Step := fun st =>
  if is_finished st then ([], st)
  else terminate (failed_frame message) (report st no_usage (is_model st) true).

(** [render_event], to the frames of its text. *)
Definition render_frames (e : StreamEvent) : Step := fun st =>
  match e with
  | EvStart model usage =>
      ensure_created (report st usage (Stream.adopt_model (is_model st) model) (is_finished st))
  | EvTextDelta text => and_then (and_then (ensure_created st) open_message) (text_delta text)
  | EvThinkingDelta text => and_then (and_then (ensure_created st) open_reasoning) (reasoning_delta text)
  | EvToolUseStart id name => render_tool_start id name st
  | EvToolUseDelta id partial_json => render_tool_delta id partial_json st
  | EvToolUseEnd id => render_tool_end id st
  | EvUsageUpdate usage => ([], report st usage (is_model st) (is_finished st))
  | EvStop reason usage =>
      if is_finished st then ([], st)
      else terminate (end_frame reason) (report st usage (is_model st) true)
  | EvError message => render_failure message st
  end.

Section text.
Context (to_string : Json → string).

Definition render_event (e : StreamEvent) (st : ItemState) : option string * ItemState :=
  let '(frames, st) := render_frames e st in
  let out := AnthropicStream.join (map (AnthropicStream.frame to_string) frames) in
  (if Str.is_empty out then None else Some out, st).
End text.

Fixpoint render_all (es : list StreamEvent) (st : ItemState) : list Frame * ItemState :=
  match es with
  | [] => ([], st)
  | e :: es => and_then (render_frames e st) (render_all es)
  end.

(** ** A client of the dialect

    The protocol, as a machine that reads frames: the response is created once
    and first; an item is added under the next index; its parts, fragments and
    ends name it by index and id both; what an end repeats is what was sent; an
    item is done once; and one terminal frame ends the response, with no
    message or reasoning open and nothing after it. *)

#[local] Abbreviation BlockKind := AnthropicStream.BlockKind.
#[local] Abbreviation KText := AnthropicStream.KText.
#[local] Abbreviation KThinking := AnthropicStream.KThinking.
#[local] Abbreviation KTool := AnthropicStream.KTool.

#[global] Instance BlockKind_eq_dec : EqDecision BlockKind.
Proof. solve_decision. Defined.

Record Item : Type := { it_id : string; it_kind : BlockKind; it_body : string; it_open : bool }.

Record Client : Type := {
  c_created : bool;
  c_items : list Item;
  c_end : option (string * Json)
}.

Definition client_new : Client := {| c_created := false; c_items := []; c_end := None |}.

Definition with_items (c : Client) (items : list Item) : Client :=
  {| c_created := c_created c; c_items := items; c_end := c_end c |}.

Definition says (it : Item) (body : string) (open : bool) : Item :=
  {| it_id := it_id it; it_kind := it_kind it; it_body := body; it_open := open |}.

Definition read_kind (item : Json) : option BlockKind :=
  let t := str_or "" (idx item "type") in
  if Str.eqb t "message" then Some KText
  else if Str.eqb t "reasoning" then Some KThinking
  else if Str.eqb t "function_call" then
    match as_str (idx item "call_id"), as_str (idx item "name") with
    | Some id, Some name => Some (KTool id name)
    | _, _ => None
    end
  else None.

Definition first_text (v : Json) : option string :=
  match v with JArray (part :: _) => as_str (idx part "text") | _ => None end.

(** What a finished item says. *)
Definition stated (kind : BlockKind) (item : Json) : option string :=
  match kind with
  | AnthropicStream.KText => first_text (idx item "content")
  | AnthropicStream.KThinking => first_text (idx item "summary")
  | AnthropicStream.KTool _ _ => as_str (idx item "arguments")
  end.

Definition stem (kind : BlockKind) : string :=
  match kind with
  | AnthropicStream.KText => "response.output_text"
  | AnthropicStream.KThinking => "response.reasoning_summary_text"
  | AnthropicStream.KTool _ _ => "response.function_call_arguments"
  end.

Definition part_stem (kind : BlockKind) : string :=
  match kind with
  | AnthropicStream.KText => "response.content_part"
  | AnthropicStream.KThinking => "response.reasoning_summary_part"
  | AnthropicStream.KTool _ _ => ""
  end.

Definition body_key (kind : BlockKind) : string :=
  match kind with AnthropicStream.KTool _ _ => "arguments" | _ => "text" end.

Definition agrees (it : Item) (said : option string) : option Item :=
  if bool_decide (said = Some (it_body it)) then Some it else None.

(** A frame about an open item. *)
Definition read_part (it : Item) (name : string) (v : Json) : option Item :=
  let kind := it_kind it in
  if Str.eqb name (stem kind +:+ ".delta") then
    (fun t => says it (it_body it +:+ t) true) <$> as_str (idx v "delta")
  else if Str.eqb name (stem kind +:+ ".done") then agrees it (as_str (idx v (body_key kind)))
  else if Str.eqb name (part_stem kind +:+ ".added") || Str.eqb name (part_stem kind +:+ ".done")
  then agrees it (as_str (idx (idx v "part") "text"))
  else None.

(** The open item a frame names. *)
Definition named_item (c : Client) (v id : Json) : option (nat * Item) :=
  match as_u64 (idx v "output_index") with
  | None => None
  | Some i =>
      match c_items c !! Z.to_nat i with
      | Some it => if it_open it && bool_decide (as_str id = Some (it_id it))
                   then Some (Z.to_nat i, it) else None
      | None => None
      end
  end.

Definition is_call (k : BlockKind) : bool := match k with AnthropicStream.KTool _ _ => true | _ => false end.

(** Nothing but calls is open. *)
Definition settled (items : list Item) : bool := all (fun it => negb (it_open it) || is_call (it_kind it)) items.

Definition is_terminal (name : string) : bool :=
  Str.eqb name "response.completed" || Str.eqb name "response.incomplete" || Str.eqb name "response.failed".

Definition read_frame (c : Client) (f : Frame) : option Client :=
  let '(name, v) := f in
  if negb (bool_decide (as_str (idx v "type") = Some name)) || bool_decide (is_Some (c_end c)) then None
  else if Str.eqb name "response.created" then
    if c_created c then None
    else Some {| c_created := true; c_items := c_items c; c_end := c_end c |}
  else if negb (c_created c) then None
  else if Str.eqb name "response.output_item.added" then
    match as_u64 (idx v "output_index"), as_str (idx (idx v "item") "id"), read_kind (idx v "item") with
    | Some i, Some id, Some k =>
        if i =? Z.of_nat (length (c_items c))
        then Some (with_items c (c_items c ++ [{| it_id := id; it_kind := k; it_body := ""; it_open := true |}]))
        else None
    | _, _, _ => None
    end
  else if Str.eqb name "response.output_item.done" then
    match named_item c v (idx (idx v "item") "id") with
    | Some (n, it) =>
        if bool_decide (read_kind (idx v "item") = Some (it_kind it)) &&
           bool_decide (stated (it_kind it) (idx v "item") = Some (it_body it))
        then Some (with_items c (<[n := says it (it_body it) false]> (c_items c)))
        else None
    | None => None
    end
  else if is_terminal name then
    if settled (c_items c)
    then Some {| c_created := c_created c; c_items := c_items c; c_end := Some (name, idx v "response") |}
    else None
  else
    match named_item c v (idx v "item_id") with
    | Some (n, it) => (fun it => with_items c (<[n := it]> (c_items c))) <$> read_part it name v
    | None => None
    end.

Fixpoint read_all (c : Client) (fs : list Frame) : option Client :=
  match fs with
  | [] => Some c
  | f :: fs => match read_frame c f with Some c => read_all c fs | None => None end
  end.

(** What the client read, in the other client's terms. *)
Definition c_said (c : Client) : list (BlockKind * string) := map (fun it => (it_kind it, it_body it)) (c_items c).

(** ** Streams *)

(** What ends a response, and the frame that does. *)
Definition ends (e : StreamEvent) : bool := match e with EvStop _ _ | EvError _ => true | _ => false end.

Definition last_frame (e : StreamEvent) (st : ItemState) : Frame :=
  match e with EvStop reason _ => end_frame reason st | EvError message => failed_frame message st
  | _ => ("", JNull) end.

(** What may follow the end and writes nothing: a late report, a second end. *)
Definition mute (e : StreamEvent) : bool :=
  match e with EvStart _ _ | EvUsageUpdate _ | EvStop _ _ | EvError _ => true | _ => false end.

Definition calls_after (open : list string) (e : StreamEvent) : list string :=
  match e with
  | EvToolUseStart id _ => id :: open
  | EvToolUseEnd id => keep (fun o => negb (Str.eqb o id)) open
  | _ => open
  end.

(** Every fragment is of a call not yet ended. *)
Fixpoint in_calls (open : list string) (es : list StreamEvent) : bool :=
  match es with
  | [] => true
  | e :: es => AnthropicStream.to_open_call open e && in_calls (calls_after open e) es
  end.

(** ** The simulation

    The renderer's books are the items it holds open, each under its index with
    what was sent of it so far. *)

Definition open_item (id : string) (kind : BlockKind) (body : string) : Item :=
  {| it_id := id; it_kind := kind; it_body := body; it_open := true |}.

Definition text_entry (kind : BlockKind) (body : string) (p : Z * string) : Z * Item :=
  (p.1, open_item p.2 kind body).

Definition call_entry (t : ToolCall) : Z * Item :=
  (tc_index t, open_item (tc_item_id t) (KTool (tc_call_id t) (tc_name t)) (tc_args t)).

Definition books (st : ItemState) : list (Z * Item) :=
  option_list (text_entry KText (is_text st) <$> is_message st) ++
  option_list (text_entry KThinking (is_reasoning_text st) <$> is_reasoning st) ++
  map call_entry (is_tools st).

Definition writing (st : ItemState) (p : Z * string) : Prop :=
  is_message st = Some p ∨ is_reasoning st = Some p.

Definition blank (st : ItemState) : Prop :=
  (is_message st = None → is_text st = "") ∧ (is_reasoning st = None → is_reasoning_text st = "").

Definition holds (c : Client) (x : Z * Item) : Prop :=
  0 ≤ x.1 ∧ c_items c !! Z.to_nat x.1 = Some x.2.

Record sim (st : ItemState) (c : Client) : Prop := {
  m_created : c_created c = is_created st;
  m_live : c_end c = None;
  m_next : is_next st = Z.of_nat (length (c_items c)) ∧ is_next st ≤ U64_MAX;
  m_begun : is_created st = false → c_items c = [];
  m_held : ∀ x, In x (books st) → holds c x;
  m_open : ∀ n it, c_items c !! n = Some it → it_open it = true → In (Z.of_nat n, it) (books st);
  m_nodup : NoDup (map fst (books st));
  m_last : ∀ p, writing st p → p.1 = is_next st - 1;
  m_blank : blank st
}.

Lemma sim_client_new id model : sim (new id model) client_new.
Proof. split; try done; cbn; [constructor|by intros p [?|?]]. Qed.

Lemma held_started st c x : sim st c → In x (books st) → c_created c = true.
Proof.
  intros H Hx. rewrite (m_created _ _ H). destruct (is_created st) eqn:E; [done|].
  destruct (m_held _ _ H x Hx) as [_ Hl]. by rewrite (m_begun _ _ H E) in Hl.
Qed.

Lemma held_bound st c x : sim st c → In x (books st) → 0 ≤ x.1 ≤ U64_MAX.
Proof.
  intros H Hx. destruct (m_held _ _ H x Hx) as [? Hl%lookup_lt_Some]. pose proof (m_next _ _ H). lia.
Qed.

Lemma nodup_split (l : list (Z * Item)) x rest :
  NoDup (map fst l) → l ≡ₚ x :: rest → ∀ y, In y rest → y.1 ≠ x.1.
Proof.
  intros Hn Hp y Hy E. rewrite Hp in Hn. cbn in Hn. apply NoDup_cons in Hn as [Hn _].
  apply Hn. rewrite <-E. apply list_elem_of_In. by apply in_map.
Qed.

(** An open item changes, or is done. *)
Lemma sim_edit st st' c i it it' rest :
  sim st c → books st ≡ₚ (i, it) :: rest →
  books st' ≡ₚ (if it_open it' then [(i, it')] else []) ++ rest →
  is_created st' = is_created st → is_next st' = is_next st →
  (∀ p, writing st' p → writing st p) → blank st' →
  sim st' (with_items c (<[Z.to_nat i := it']> (c_items c))).
Proof.
  intros H Hb Hb' Hc Hn Hw Hbl.
  assert (∀ x, In x (books st) ↔ x = (i, it) ∨ In x rest) as Hin.
  { intros x. rewrite <-!list_elem_of_In, Hb, elem_of_cons. done. }
  assert (∀ x, In x (books st') ↔ (it_open it' = true ∧ x = (i, it')) ∨ In x rest) as Hin'.
  { intros x. rewrite <-!list_elem_of_In, Hb'. destruct (it_open it'); cbn; rewrite ?elem_of_cons; naive_solver. }
  pose proof (nodup_split _ _ _ (m_nodup _ _ H) Hb) as Hne.
  destruct (m_held _ _ H (i, it)) as [Hi Hl]; [apply Hin; by left|]. cbn in Hi, Hl.
  pose proof (lookup_lt_Some _ _ _ Hl) as Hlt.
  split; cbn; rewrite ?length_insert, ?Hc, ?Hn; try apply H; try done.
  - intros E. by rewrite (m_begun _ _ H E) in Hl.
  - intros x [[_ ->]|Hx]%Hin'.
    + split; [done|]. by apply list_lookup_insert_eq.
    + destruct (m_held _ _ H x) as [Hx0 Hxl]; [apply Hin; by right|]. split; [done|]. cbn.
      rewrite list_lookup_insert_ne; [done|]. pose proof (Hne x Hx). cbn in *. lia.
  - intros n it1 Hl1 Ho. apply Hin'. destruct (decide (n = Z.to_nat i)) as [->|Hn'].
    + rewrite list_lookup_insert_eq in Hl1 by done. injection Hl1 as ->. left.
      by rewrite Z2Nat.id.
    + rewrite list_lookup_insert_ne in Hl1 by done. pose proof (m_open _ _ H n it1 Hl1 Ho) as Hx.
      apply Hin in Hx as [[= <- <-]|Hx]; [lia|by right].
  - pose proof (m_nodup _ _ H) as Hnd. rewrite Hb in Hnd. rewrite Hb'. cbn in Hnd.
    destruct (it_open it'); [done|]. by apply NoDup_cons in Hnd as [_ ?].
  - intros p Hp. apply (m_last _ _ H). auto.
Qed.

(** An item is added. *)
Lemma sim_add st st' c id kind :
  sim st c → is_created st = true → is_next st < U64_MAX →
  books st' ≡ₚ (is_next st, open_item id kind "") :: books st →
  is_created st' = true → is_next st' = is_next st + 1 →
  (∀ p, writing st' p → p.1 = is_next st) → blank st' →
  sim st' (with_items c (c_items c ++ [open_item id kind ""])).
Proof.
  intros H Hs Hlt Hb Hc Hn Hw Hbl. destruct (m_next _ _ H) as [Hnext _].
  assert (∀ x, In x (books st') ↔ x = (is_next st, open_item id kind "") ∨ In x (books st)) as Hin.
  { intros x. rewrite <-!list_elem_of_In, Hb, elem_of_cons. done. }
  split; cbn; rewrite ?length_app, ?Hc, ?Hn; cbn; try done.
  - rewrite (m_created _ _ H). done.
  - apply H.
  - lia.
  - intros x [->|Hx]%Hin.
    + rewrite Hnext. split; cbn; [lia|]. by rewrite Nat2Z.id, list_lookup_middle.
    + destruct (m_held _ _ H x Hx) as [Hx0 Hxl]. split; [done|]. by apply lookup_app_l_Some.
  - intros n it Hl Ho. apply Hin. apply lookup_app_Some in Hl as [Hl|[Hge Hl]].
    + right. by apply (m_open _ _ H).
    + left. destruct (n - length (c_items c))%nat eqn:E; [|done]. injection Hl as <-. f_equal. lia.
  - rewrite Hb. cbn. apply NoDup_cons. split; [|apply H]. intros Hx%list_elem_of_In.
    apply in_map_iff in Hx as (x & E & Hx). destruct (m_held _ _ H x Hx) as [? Hxl%lookup_lt_Some]. lia.
  - intros p Hp. rewrite (Hw p Hp). lia.
Qed.

(** ** Reading one frame *)

Lemma named_held st c i it v :
  sim st c → In (i, it) (books st) → it_open it = true → idx v "output_index" = num i →
  named_item c v (JString (it_id it)) = Some (Z.to_nat i, it).
Proof.
  intros H Hx Ho Hv. unfold named_item. rewrite Hv, as_u64_num by by apply (held_bound st c (i, it)).
  destruct (m_held _ _ H _ Hx) as [_ Hl]. cbn in Hl. rewrite Hl, Ho. cbn. by rewrite bool_decide_true.
Qed.

Lemma books_open st i it : In (i, it) (books st) → it_open it = true.
Proof.
  unfold books. rewrite !in_app_iff.
  destruct (is_message st), (is_reasoning st); cbn; intros Hx;
    destruct_or?; try done; try (by injection Hx as <- <-); apply in_map_iff in Hx as (t & [= <- <-] & _); done.
Qed.

(** A name that is about an item's parts and fragments. *)
Definition about_part (name : string) : bool :=
  negb (Str.eqb name "response.created" || Str.eqb name "response.output_item.added" ||
        Str.eqb name "response.output_item.done" || is_terminal name).

Lemma live_frame st c name v :
  sim st c → as_str (idx v "type") = Some name →
  negb (bool_decide (as_str (idx v "type") = Some name)) || bool_decide (is_Some (c_end c)) = false.
Proof.
  intros H Ht. rewrite (bool_decide_true _ Ht), (m_live _ _ H). cbn [negb orb].
  rewrite bool_decide_false; [done|]. by intros [? ?].
Qed.

Lemma read_about st c i it name v it' :
  sim st c → In (i, it) (books st) → as_str (idx v "type") = Some name → about_part name = true →
  idx v "output_index" = num i → idx v "item_id" = JString (it_id it) →
  read_part it name v = Some it' →
  read_frame c (name, v) = Some (with_items c (<[Z.to_nat i := it']> (c_items c))).
Proof.
  intros H Hx Ht Hp Hi Hid Hr. unfold read_frame. rewrite (live_frame st c name v H Ht).
  unfold about_part in Hp. apply negb_true_iff in Hp.
  apply orb_false_iff in Hp as [[[Hp1 Hp2]%orb_false_iff Hp3]%orb_false_iff Hp4].
  rewrite Hp1, Hp2, Hp3, Hp4, (held_started st c _ H Hx). cbn [negb]. rewrite Hid, (named_held st c i it v) by (done || by eapply books_open).
  by rewrite Hr.
Qed.

Lemma read_added st c item id kind :
  sim st c → is_created st = true → as_str (idx (JObject item) "id") = Some id →
  read_kind (JObject item) = Some kind →
  read_frame c (item_frame "response.output_item.added" (is_next st) item) =
    Some (with_items c (c_items c ++ [open_item id kind ""])).
Proof.
  intros H Hs Hid Hk. unfold item_frame, named, read_frame. rewrite (live_frame st) by done.
  destruct (m_next _ _ H) as [Hn Hmax].
  rewrite (eq_refl : Str.eqb "response.output_item.added" "response.created" = false).
  rewrite (m_created _ _ H), Hs. cbn [negb].
  match goal with |- context [as_u64 (idx ?v "output_index")] =>
    change (idx v "output_index") with (num (is_next st)); change (idx v "item") with (JObject item) end.
  rewrite as_u64_num by lia. rewrite Hid, Hk. by rewrite (proj2 (Z.eqb_eq _ _) Hn).
Qed.

Lemma read_done st c i it item :
  sim st c → In (i, it) (books st) → idx (JObject item) "id" = JString (it_id it) →
  read_kind (JObject item) = Some (it_kind it) → stated (it_kind it) (JObject item) = Some (it_body it) →
  read_frame c (item_frame "response.output_item.done" i item) =
    Some (with_items c (<[Z.to_nat i := says it (it_body it) false]> (c_items c))).
Proof.
  intros H Hx Hid Hk Hb. unfold item_frame, named, read_frame. rewrite (live_frame st) by done.
  rewrite (eq_refl : Str.eqb "response.output_item.done" "response.created" = false).
  rewrite (held_started st c _ H Hx). cbn [negb].
  match goal with |- context [idx ?v "item"] => change (idx v "item") with (JObject item) end.
  rewrite Hid, (named_held st c i it) by (done || by eapply books_open).
  rewrite Hk, Hb, !bool_decide_true by done. done.
Qed.

Lemma same_item st c i it :
  sim st c → In (i, it) (books st) → with_items c (<[Z.to_nat i := it]> (c_items c)) = c.
Proof.
  intros H Hx. destruct (m_held _ _ H _ Hx) as [_ Hl]. cbn in Hl.
  rewrite list_insert_id by done. by destruct c.
Qed.

(** A frame that repeats what an item has said so far. *)
Lemma read_repeat st c i it name fields :
  sim st c → In (i, it) (books st) → about_part name = true →
  idx (JObject (("type", JString name) :: fields)) "output_index" = num i →
  idx (JObject (("type", JString name) :: fields)) "item_id" = JString (it_id it) →
  read_part it name (JObject (("type", JString name) :: fields)) = Some it →
  read_frame c (named name fields) = Some c.
Proof.
  intros H Hx Hp Hi Hid Hr. unfold named. rewrite (read_about st c i it _ _ it) by done.
  by rewrite (same_item st).
Qed.

Lemma said_done c i it :
  c_items c !! Z.to_nat i = Some it →
  c_said (with_items c (<[Z.to_nat i := says it (it_body it) false]> (c_items c))) = c_said c.
Proof.
  intros Hl. unfold c_said. cbn. rewrite list_fmap_insert. apply list_insert_id. by rewrite list_lookup_fmap, Hl.
Qed.

Lemma read_all_more c fs gs :
  read_all c (fs ++ gs) = match read_all c fs with Some c => read_all c gs | None => None end.
Proof. revert c; induction fs as [|f fs IH]; intros c; cbn; [done|]. by destruct (read_frame c f). Qed.

Lemma read_still c fs : Forall (λ f, read_frame c f = Some c) fs → read_all c fs = Some c.
Proof. induction 1 as [|f fs Hf _ IH]; cbn [read_all]; [done|by rewrite Hf]. Qed.

Lemma agrees_refl it : agrees it (Some (it_body it)) = Some it.
Proof. unfold agrees. by rewrite bool_decide_true. Qed.

(** ** The renderer's steps *)

Lemma sim_created st c :
  sim st c → ∃ c', read_all c (ensure_created st).1 = Some c' ∧ sim (ensure_created st).2 c' ∧
    c_said c' = c_said c ∧ is_created (ensure_created st).2 = true.
Proof.
  intros H. unfold ensure_created. destruct (is_created st) eqn:E; [by exists c|].
  cbn [fst snd read_all]. unfold created_frame, named, read_frame.
  rewrite (live_frame st) by done. cbn [Str.eqb]. rewrite (m_created _ _ H), E. eexists. split; [reflexivity|].
  split; [|done]. destruct H. by split.
Qed.

Lemma close_item_read st st' c i it frames item :
  sim st c → In (i, it) (books st) →
  Forall (λ f, read_frame c f = Some c) frames →
  idx (JObject item) "id" = JString (it_id it) → read_kind (JObject item) = Some (it_kind it) →
  stated (it_kind it) (JObject item) = Some (it_body it) →
  sim st' (with_items c (<[Z.to_nat i := says it (it_body it) false]> (c_items c))) →
  ∃ c', read_all c (frames ++ [item_frame "response.output_item.done" i item]) = Some c' ∧ sim st' c' ∧
    c_said c' = c_said c.
Proof.
  intros H Hx Hfs Hid Hk Hb Hs. eexists. split; [|split; [exact Hs|]].
  - rewrite read_all_more, read_still by done. cbn [read_all]. by rewrite (read_done st c i it).
  - apply said_done. by destruct (m_held _ _ H _ Hx).
Qed.

Lemma sim_close_message st c :
  sim st c → ∃ c', read_all c (close_message st).1 = Some c' ∧ sim (close_message st).2 c' ∧ c_said c' = c_said c.
Proof.
  intros H. unfold close_message. destruct (is_message st) as [[i id]|] eqn:E; [|by exists c].
  pose (it := open_item id KText (is_text st)).
  assert (books st = (i, it) :: books (set_message st (is_next st) None "")) as Hb.
  { unfold books. cbn. by rewrite E. }
  assert (In (i, it) (books st)) as Hx by (rewrite Hb; by left).
  apply (close_item_read st _ c i it [_; _]); try done.
  - repeat constructor; apply (read_repeat st c i it); try done; apply (agrees_refl it).
  - eapply (sim_edit st _ c i it _ _ H); [by rewrite Hb|reflexivity|done|done| |].
    + intros p [?|?]; [done|by right].
    + split; [done|apply H].
Qed.

Lemma sim_close_reasoning st c :
  sim st c → ∃ c', read_all c (close_reasoning st).1 = Some c' ∧ sim (close_reasoning st).2 c' ∧ c_said c' = c_said c.
Proof.
  intros H. unfold close_reasoning. destruct (is_reasoning st) as [[i id]|] eqn:E; [|by exists c].
  pose (it := open_item id KThinking (is_reasoning_text st)).
  assert (books st ≡ₚ (i, it) :: books (set_reasoning st (is_next st) None "")) as Hb.
  { unfold books. cbn. rewrite E. cbn. by rewrite Permutation_middle. }
  assert (In (i, it) (books st)) as Hx by (apply list_elem_of_In; rewrite Hb; by left).
  apply (close_item_read st _ c i it [_; _]); try done.
  - repeat constructor; apply (read_repeat st c i it); try done; apply (agrees_refl it).
  - eapply (sim_edit st _ c i it _ _ H Hb); [reflexivity|done|done| |].
    + intros p [?|?]; [by left|done].
    + split; [apply H|done].
Qed.

(** A new item, announced and -- for text -- with its empty part. *)
Lemma add_item_read st st' c id kind item part :
  sim st c → is_created st = true → as_str (idx (JObject item) "id") = Some id →
  read_kind (JObject item) = Some kind →
  sim st' (with_items c (c_items c ++ [open_item id kind ""])) →
  (∀ c', sim st' c' → Forall (λ f, read_frame c' f = Some c') part) →
  ∃ c', read_all c (item_frame "response.output_item.added" (is_next st) item :: part) = Some c' ∧
    sim st' c' ∧ c_said c' = c_said c ++ [(kind, "")].
Proof.
  intros H Hs Hid Hk Hs' Hp. eexists. split; [|split; [exact Hs'|]].
  - cbn [read_all]. rewrite (read_added st c item id kind) by done.
    by apply read_still, Hp.
  - unfold c_said. cbn. by rewrite map_app.
Qed.

Lemma closed_reasoning st : is_reasoning (close_reasoning st).2 = None.
Proof. unfold close_reasoning. destruct (is_reasoning st) as [[]|] eqn:E; [done|exact E]. Qed.

Lemma closed_message st : is_message (close_message st).2 = None.
Proof. unfold close_message. destruct (is_message st) as [[]|] eqn:E; [done|exact E]. Qed.

(** What closing leaves alone. *)
Lemma close_reasoning_keeps st :
  let st' := (close_reasoning st).2 in
  is_created st' = is_created st ∧ is_next st' = is_next st ∧ is_message st' = is_message st ∧
  is_text st' = is_text st ∧ is_tools st' = is_tools st ∧ is_usage st' = is_usage st ∧
  is_finished st' = is_finished st ∧ is_id st' = is_id st ∧ is_model st' = is_model st.
Proof. unfold close_reasoning. by destruct (is_reasoning st) as [[]|]. Qed.

Lemma close_message_keeps st :
  let st' := (close_message st).2 in
  is_created st' = is_created st ∧ is_next st' = is_next st ∧ is_reasoning st' = is_reasoning st ∧
  is_reasoning_text st' = is_reasoning_text st ∧ is_tools st' = is_tools st ∧ is_usage st' = is_usage st ∧
  is_finished st' = is_finished st ∧ is_id st' = is_id st ∧ is_model st' = is_model st.
Proof. unfold close_message. by destruct (is_message st) as [[]|]. Qed.

(** Text opens its item after the other text's is closed. *)
Lemma sim_open_after st1 st' c c1 out item part (kind : BlockKind) id :
  read_all c out = Some c1 → sim st1 c1 → c_said c1 = c_said c →
  is_created st1 = true → as_str (idx (JObject item) "id") = Some id → read_kind (JObject item) = Some kind →
  is_next st1 < U64_MAX → books st' ≡ₚ (is_next st1, open_item id kind "") :: books st1 →
  is_created st' = true → is_next st' = is_next st1 + 1 →
  (∀ p, writing st' p → p.1 = is_next st1) → blank st' →
  (∀ c', sim st' c' → Forall (λ f, read_frame c' f = Some c') part) →
  ∃ c', read_all c (out ++ item_frame "response.output_item.added" (is_next st1) item :: part) = Some c' ∧
    sim st' c' ∧ c_said c' = c_said c ++ [(kind, "")].
Proof.
  intros R1 S1 A1 Hs Hid Hk Hlt Hb Hc Hn Hw Hbl Hp. rewrite read_all_more, R1, <-A1.
  apply (add_item_read st1 st' c1 id kind item part); try done. by apply (sim_add st1).
Qed.

Lemma sim_open_message st c :
  sim st c → is_created st = true → is_next st < U64_MAX →
  let x := open_message st in
  is_Some (is_message x.2) ∧
  ∃ c', read_all c x.1 = Some c' ∧ sim x.2 c' ∧
    c_said c' = c_said c ++ match is_message st with Some _ => [] | None => [(KText, "")] end.
Proof.
  intros H Hs Hlt x. unfold x, open_message. destruct (is_message st) as [p|] eqn:E.
  { split; [by exists p|]. exists c. by rewrite app_nil_r. }
  unfold and_then. destruct (sim_close_reasoning st c H) as (c1 & R1 & S1 & A1).
  destruct (close_reasoning_keeps st) as (Kc & Kn & Km & Kt & _).
  pose proof (closed_reasoning st) as Kr. destruct (close_reasoning st) as [out st1]. cbn [fst snd] in *.
  rewrite E in Km. pose proof (proj1 (m_blank _ _ S1) Km) as Hb. split; [by eexists|].
  eapply (sim_open_after st1 _ c c1 out _ _ KText _ R1 S1 A1); try reflexivity; try congruence.
  - unfold books. cbn. by rewrite Kr, Km, Hb.
  - cbn. congruence.
  - intros p [[= <-]|Hp]; [done|]. cbn in Hp. congruence.
  - split; [done|apply S1].
  - intros c' S'. repeat constructor. eapply read_repeat; [exact S'|by left|done..|].
    cbn. rewrite Hb. apply (agrees_refl (open_item _ KText "")).
Qed.

Lemma sim_open_reasoning st c :
  sim st c → is_created st = true → is_next st < U64_MAX →
  let x := open_reasoning st in
  is_Some (is_reasoning x.2) ∧
  ∃ c', read_all c x.1 = Some c' ∧ sim x.2 c' ∧
    c_said c' = c_said c ++ match is_reasoning st with Some _ => [] | None => [(KThinking, "")] end.
Proof.
  intros H Hs Hlt x. unfold x, open_reasoning. destruct (is_reasoning st) as [p|] eqn:E.
  { split; [by exists p|]. exists c. by rewrite app_nil_r. }
  unfold and_then. destruct (sim_close_message st c H) as (c1 & R1 & S1 & A1).
  destruct (close_message_keeps st) as (Kc & Kn & Km & Kt & _).
  pose proof (closed_message st) as Kr. destruct (close_message st) as [out st1]. cbn [fst snd] in *.
  rewrite E in Km. pose proof (proj2 (m_blank _ _ S1) Km) as Hb. split; [by eexists|].
  eapply (sim_open_after st1 _ c c1 out _ _ KThinking _ R1 S1 A1); try reflexivity; try congruence.
  - unfold books. cbn. by rewrite Kr, Km, Hb.
  - cbn. congruence.
  - intros p [Hp|[= <-]]; [|done]. cbn in Hp. congruence.
  - split; [apply S1|done].
  - intros c' S'. repeat constructor.
    eapply (read_repeat _ _ (is_next st1) (open_item _ KThinking (is_reasoning_text st1)) _ _ S');
      [|done..|].
    + unfold books. cbn. rewrite Kr. by left.
    + cbn. rewrite Hb. apply (agrees_refl (open_item _ KThinking "")).
Qed.

(** A fragment reaches its item. *)
Lemma sim_delta st st' c i it rest t fields :
  sim st c → books st ≡ₚ (i, it) :: rest → books st' ≡ₚ (i, says it (it_body it +:+ t) true) :: rest →
  is_created st' = is_created st → is_next st' = is_next st →
  (∀ p, writing st' p → writing st p) → blank st' →
  idx (JObject fields) "output_index" = num i → idx (JObject fields) "item_id" = JString (it_id it) →
  idx (JObject fields) "delta" = JString t →
  ∃ c', read_all c [named (stem (it_kind it) +:+ ".delta") fields] = Some c' ∧ sim st' c' ∧
    c_said c !! Z.to_nat i = Some (it_kind it, it_body it) ∧
    c_said c' = <[Z.to_nat i := (it_kind it, it_body it +:+ t)]> (c_said c).
Proof.
  intros H Hb Hb' Hc Hn Hw Hbl Hi Hid Ht.
  assert (In (i, it) (books st)) as Hx by (apply list_elem_of_In; rewrite Hb; by left).
  destruct (m_held _ _ H _ Hx) as [_ Hl]. cbn in Hl.
  assert (∀ k, Str.eqb "type" k = false →
    idx (JObject (("type", JString (stem (it_kind it) +:+ ".delta")) :: fields)) k = idx (JObject fields) k) as Hk.
  { intros k Hk. cbn [idx]. unfold field. cbn [find fst]. by rewrite Hk. }
  eexists. cbn [read_all]. split; [|split; [|split]].
  - unfold named. rewrite (read_about st c i it _ _ (says it (it_body it +:+ t) true));
      [reflexivity|done|done|done|by destruct (it_kind it)|by rewrite Hk..|].
    unfold read_part. rewrite Str.str_eqb_refl, Hk, Ht by done. done.
  - by apply (sim_edit st st' c i it _ rest).
  - unfold c_said. by rewrite list_lookup_fmap, Hl.
  - unfold c_said. cbn. by rewrite list_fmap_insert.
Qed.

(** The item text goes to is the last. *)
Lemma said_last st c i id kind body body' :
  sim st c → writing st (i, id) → c_said c !! Z.to_nat i = Some (kind, body) →
  ∃ l, c_said c = l ++ [(kind, body)] ∧ <[Z.to_nat i := (kind, body')]> (c_said c) = l ++ [(kind, body')].
Proof.
  intros H Hw (l & l' & E & Hl)%list_elem_of_split_length. exists l.
  pose proof (m_last _ _ H _ Hw) as Hi. destruct (m_next _ _ H) as [Hn _]. cbn in Hi.
  assert (length (c_said c) = length (c_items c)) as Hlen by apply length_map.
  rewrite E, length_app in Hlen. cbn in Hlen. destruct l' as [|y l'].
  - split; [done|]. rewrite E, Hl. by rewrite insert_app_r_alt, Nat.sub_diag.
  - cbn in Hlen. lia.
Qed.

Lemma sim_text_fragment st c text :
  sim st c → is_Some (is_message st) →
  let x := text_delta text st in
  ∃ c', read_all c x.1 = Some c' ∧ sim x.2 c' ∧
    ∃ l body, c_said c = l ++ [(KText, body)] ∧ c_said c' = l ++ [(KText, body +:+ text)].
Proof.
  intros H [[i id] E] x. unfold x, text_delta. rewrite E. cbn [from_option Datatypes.id fst snd].
  destruct (sim_delta st (set_message st (is_next st) (Some (i, id)) (is_text st +:+ text)) c i
    (open_item id KText (is_text st)) (books (set_message st 0 None "")) text (about id i "content_index" [("delta", JString text)]) H)
    as (c' & R & S & Hl & A).
  - unfold books. rewrite E. reflexivity.
  - reflexivity.
  - done.
  - done.
  - intros p [[= <-]|?]; [by left|by right].
  - split; [done|apply H].
  - done.
  - done.
  - done.
  - exists c'. split; [exact R|]. split; [exact S|]. rewrite A.
    destruct (said_last st c i id KText (is_text st) (is_text st +:+ text) H) as (l & Hl1 & Hl2); [by left|exact Hl|].
    by exists l, (is_text st).
Qed.

Lemma sim_reasoning_fragment st c text :
  sim st c → is_Some (is_reasoning st) →
  let x := reasoning_delta text st in
  ∃ c', read_all c x.1 = Some c' ∧ sim x.2 c' ∧
    ∃ l body, c_said c = l ++ [(KThinking, body)] ∧ c_said c' = l ++ [(KThinking, body +:+ text)].
Proof.
  intros H [[i id] E] x. unfold x, reasoning_delta. rewrite E. cbn [from_option Datatypes.id fst snd].
  destruct (sim_delta st (set_reasoning st (is_next st) (Some (i, id)) (is_reasoning_text st +:+ text)) c i
    (open_item id KThinking (is_reasoning_text st)) (books (set_reasoning st 0 None "")) text
    (about id i "summary_index" [("delta", JString text)]) H) as (c' & R & S & Hl & A).
  - unfold books. rewrite E. cbn. by rewrite <-Permutation_middle.
  - unfold books. cbn. by rewrite <-Permutation_middle.
  - done.
  - done.
  - intros p [?|[= <-]]; [by left|by right].
  - split; [apply H|done].
  - done.
  - done.
  - done.
  - exists c'. split; [exact R|]. split; [exact S|]. rewrite A.
    destruct (said_last st c i id KThinking (is_reasoning_text st) (is_reasoning_text st +:+ text) H)
      as (l & Hl1 & Hl2); [by right|exact Hl|].
    by exists l, (is_reasoning_text st).
Qed.

(** ** Calls *)

Lemma remove_middle {A} (l1 : list A) x l2 : AnthropicStream.remove_at (length l1) (l1 ++ x :: l2) = l1 ++ l2.
Proof. induction l1 as [|y l1 IH]; cbn; [done|by rewrite IH]. Qed.

Lemma alter_middle {A} f (l1 : list A) x l2 : alter f (length l1) (l1 ++ x :: l2) = l1 ++ f x :: l2.
Proof. induction l1 as [|y l1 IH]; cbn; [done|]. f_equal. exact IH. Qed.

Lemma open_at_split st id :
  (open_at st id = None ∧ ¬ In id (map tc_call_id (is_tools st))) ∨
  ∃ n l1 t l2, open_at st id = Some (n, t) ∧ tc_call_id t = id ∧ is_tools st = l1 ++ t :: l2 ∧
    AnthropicStream.remove_at n (is_tools st) = l1 ++ l2 ∧
    ∀ f, alter f n (is_tools st) = l1 ++ f t :: l2.
Proof.
  unfold open_at. destruct (position _ (is_tools st)) as [n|] eqn:E.
  - destruct (position_Some _ _ _ E) as (t & Hn & Hid%Str.str_eqb_eq & _). right. rewrite Hn.
    destruct (list_elem_of_split_length _ _ _ Hn) as (l1 & l2 & -> & ->).
    exists (length l1), l1, t, l2. split_and!; try done; [apply remove_middle|]. intros f.
    apply alter_middle.
  - left. split; [done|]. rewrite position_None in E. intros (t & Ht & Hin)%in_map_iff.
    apply E in Hin. by rewrite Ht, Str.str_eqb_refl in Hin.
Qed.

Lemma books_tools st next l1 t l2 :
  books (set_tools st next (l1 ++ t :: l2)) ≡ₚ call_entry t :: books (set_tools st next (l1 ++ l2)).
Proof. unfold books. cbn. rewrite !map_app. cbn. by rewrite <-!Permutation_middle, !app_assoc. Qed.

Lemma set_tools_id st : set_tools st (is_next st) (is_tools st) = st.
Proof. by destruct st. Qed.

Lemma speaks c fs st e ids l :
  AnthropicStream.spoke e ids (c_said c) l →
  (∃ c', read_all c fs = Some c' ∧ sim st c' ∧ c_said c' = l) →
  ∃ c', read_all c fs = Some c' ∧ sim st c' ∧ AnthropicStream.spoke e ids (c_said c) (c_said c').
Proof. intros Hs (c' & R & S & A). exists c'. by rewrite A. Qed.

Lemma spoke_call id name ids l :
  AnthropicStream.spoke (EvToolUseStart id name) ids l (l ++ [(KTool id name, "")]).
Proof.
  split; unfold AnthropicStream.read_names, AnthropicStream.read_calls;
    rewrite ?AnthropicStream.bodies_app, ?filter_map_app; cbn; by rewrite ?Str.append_empty_r.
Qed.

Lemma step_call_start st c id name ids :
  sim st c → is_next st < U64_MAX →
  let x := render_tool_start id name st in
  ∃ c', read_all c x.1 = Some c' ∧ sim x.2 c' ∧
    AnthropicStream.spoke (EvToolUseStart id name) ids (c_said c) (c_said c').
Proof.
  intros H Hlt x. unfold x, render_tool_start.
  destruct (sim_created st c H) as (c1 & R1 & S1 & A1 & Hs).
  assert (is_next (ensure_created st).2 = is_next st) as Hn by (unfold ensure_created; by destruct (is_created st)).
  destruct (ensure_created st) as [o1 st1]. cbn [fst snd] in *. unfold and_then.
  destruct (sim_close_reasoning st1 c1 S1) as (c2 & R2 & S2 & A2).
  destruct (close_reasoning_keeps st1) as (Kc & Kn & Km & Kt & _). pose proof (closed_reasoning st1) as Kr.
  destruct (close_reasoning st1) as [o2 st2]. cbn [fst snd] in *.
  destruct (sim_close_message st2 c2 S2) as (c3 & R3 & S3 & A3).
  destruct (close_message_keeps st2) as (Lc & Ln & Lr & Lt & _). pose proof (closed_message st2) as Lm.
  destruct (close_message st2) as [o3 st3]. cbn [fst snd] in *.
  eapply speaks; [apply spoke_call|]. cbn [open_call fst snd].
  apply (sim_open_after st3 _ c c3 ((o1 ++ o2) ++ o3) _ [] (KTool id name) (item_id st3 "fc" (is_next st3)));
    try done; cbn; try congruence.
  - by rewrite !read_all_more, R1, R2.
  - rewrite (books_tools st3 _ (is_tools st3) _ []), app_nil_r. by unfold books.
  - intros p [Hp|Hp]; cbn in Hp; congruence.
  - apply S3.
Qed.

Lemma step_call_delta st c id partial :
  sim st c →
  let x := render_tool_delta id partial st in
  ∃ c', read_all c x.1 = Some c' ∧ sim x.2 c' ∧
    AnthropicStream.spoke (EvToolUseDelta id partial) (map tc_call_id (is_tools st)) (c_said c) (c_said c').
Proof.
  intros H x. unfold x, render_tool_delta.
  destruct (open_at_split st id) as [[-> Hnone]|(n & l1 & t & l2 & -> & Hid & El & _ & Ha)].
  { exists c. split; [done|]. split; [done|].
    split; cbn; rewrite ?Str.append_empty_r, ?app_nil_r; done. }
  rewrite Ha. cbn [fst snd].
  destruct (sim_delta st (set_tools st (is_next st) (l1 ++ push_args partial t :: l2)) c (tc_index t)
    (call_entry t).2 (books (set_tools st (is_next st) (l1 ++ l2))) partial
    [("item_id", JString (tc_item_id t)); ("output_index", num (tc_index t)); ("delta", JString partial)] H)
    as (c' & R & S & Hl & A); try done.
  - rewrite <-(set_tools_id st), El at 1. apply books_tools.
  - apply books_tools.
  - apply H.
  - exists c'. split; [exact R|]. split; [exact S|]. rewrite A, <-Hid.
    by eapply AnthropicStream.spoke_delta.
Qed.

Lemma step_call_end st c id ids :
  sim st c →
  let x := render_tool_end id st in
  ∃ c', read_all c x.1 = Some c' ∧ sim x.2 c' ∧
    AnthropicStream.spoke (EvToolUseEnd id) ids (c_said c) (c_said c').
Proof.
  intros H x. unfold x, render_tool_end.
  apply (speaks c _ _ _ _ (c_said c)); [by apply AnthropicStream.spoke_nothing|].
  destruct (open_at_split st id) as [[-> _]|(n & l1 & t & l2 & -> & Hid & El & Hr & _)]; [by exists c|].
  rewrite Hr. cbn [fst snd].
  assert (books st ≡ₚ call_entry t :: books (set_tools st (is_next st) (l1 ++ l2))) as Hb.
  { rewrite <-(set_tools_id st), El at 1. apply books_tools. }
  assert (In (call_entry t) (books st)) as Hx by (apply list_elem_of_In; rewrite Hb; by left).
  apply (close_item_read st _ c (tc_index t) (call_entry t).2 [_] _ H Hx); try done.
  - repeat constructor. apply (read_repeat st c (tc_index t) (call_entry t).2); try done.
    apply (agrees_refl (call_entry t).2).
  - apply (sim_edit st _ c (tc_index t) (call_entry t).2 _ _ H Hb); try done; apply H.
Qed.

(** ** One event *)

Lemma step_text_event (th : bool) st c text ids :
  sim st c → is_next st < U64_MAX →
  let x := render_frames (AnthropicStream.text_event th text) st in
  ∃ c', read_all c x.1 = Some c' ∧ sim x.2 c' ∧
    AnthropicStream.spoke (AnthropicStream.text_event th text) ids (c_said c) (c_said c').
Proof.
  intros H Hlt x. unfold x.
  destruct (sim_created st c H) as (c1 & R1 & S1 & A1 & Hs).
  assert (is_next (ensure_created st).2 = is_next st) as Hn by (unfold ensure_created; by destruct (is_created st)).
  destruct th; cbn [AnthropicStream.text_event render_frames]; destruct (ensure_created st) as [o1 st1];
    cbn [fst snd] in *; unfold and_then.
  - destruct (sim_open_reasoning st1 c1 S1 Hs) as (Hm & c2 & R2 & S2 & A2); [lia|].
    destruct (open_reasoning st1) as [o2 st2]. cbn [fst snd] in *.
    destruct (sim_reasoning_fragment st2 c2 text S2 Hm) as (c3 & R3 & S3 & l & body & El & El').
    destruct (reasoning_delta text st2) as [o3 st3]. cbn [fst snd] in *.
    exists c3. rewrite !read_all_more, R1, R2. split; [exact R3|]. split; [exact S3|]. rewrite El'.
    apply (AnthropicStream.spoke_text true). rewrite <-El, A2, A1.
    destruct (is_reasoning st1); [right; by rewrite app_nil_r|by left].
  - destruct (sim_open_message st1 c1 S1 Hs) as (Hm & c2 & R2 & S2 & A2); [lia|].
    destruct (open_message st1) as [o2 st2]. cbn [fst snd] in *.
    destruct (sim_text_fragment st2 c2 text S2 Hm) as (c3 & R3 & S3 & l & body & El & El').
    destruct (text_delta text st2) as [o3 st3]. cbn [fst snd] in *.
    exists c3. rewrite !read_all_more, R1, R2. split; [exact R3|]. split; [exact S3|]. rewrite El'.
    apply (AnthropicStream.spoke_text false). rewrite <-El, A2, A1.
    destruct (is_message st1); [right; by rewrite app_nil_r|by left].
Qed.

Lemma sim_report st c u m finished :
  sim st c → sim (report st u m finished) c.
Proof. intros []. by split. Qed.

(** Every event but one that ends the response. *)
Lemma step_event st c e :
  sim st c → ends e = false → is_next st < U64_MAX →
  let x := render_frames e st in
  ∃ c', read_all c x.1 = Some c' ∧ sim x.2 c' ∧
    AnthropicStream.spoke e (map tc_call_id (is_tools st)) (c_said c) (c_said c').
Proof.
  intros H He Hlt. destruct e as [m u|text|text|id name|id partial|id|u|reason u|message]; try done.
  - cbn [render_frames].
    destruct (sim_created _ c (sim_report st c u (Stream.adopt_model (is_model st) m) (is_finished st) H))
      as (c1 & R1 & S1 & A1 & _). exists c1. split; [exact R1|]. split; [exact S1|].
    rewrite A1. by apply AnthropicStream.spoke_nothing.
  - by apply (step_text_event false).
  - by apply (step_text_event true).
  - by apply step_call_start.
  - by apply step_call_delta.
  - by apply step_call_end.
  - exists c. split; [done|]. split; [by apply sim_report|]. by apply AnthropicStream.spoke_nothing.
Qed.

(** *** What an event does to the counters, the usage and the calls *)

Lemma created_keeps st :
  let st' := (ensure_created st).2 in
  is_next st' = is_next st ∧ is_usage st' = is_usage st ∧ is_tools st' = is_tools st ∧
  is_finished st' = is_finished st ∧ is_id st' = is_id st ∧ is_model st' = is_model st ∧
  is_message st' = is_message st ∧ is_reasoning st' = is_reasoning st.
Proof. unfold ensure_created. by destruct (is_created st). Qed.

Lemma text_keeps (th : bool) text st :
  let st' := (render_frames (AnthropicStream.text_event th text) st).2 in
  is_next st' ≤ is_next st + 1 ∧ is_usage st' = is_usage st ∧ is_tools st' = is_tools st ∧
  is_finished st' = is_finished st.
Proof.
  destruct (created_keeps st) as (Hn & Hu & Ht & Hf & _).
  destruct th; cbn [AnthropicStream.text_event render_frames]; destruct (ensure_created st) as [o1 st1];
    cbn [fst snd] in *; unfold and_then, open_reasoning, open_message.
  - destruct (is_reasoning st1) as [[]|] eqn:E; unfold reasoning_delta.
    { rewrite E. cbn. split; [lia|done]. }
    unfold and_then. destruct (close_message_keeps st1) as (_ & Kn & _ & _ & Kt & Ku & Kf & _).
    destruct (close_message st1). cbn in *. split_and!; [lia|congruence..].
  - destruct (is_message st1) as [[]|] eqn:E; unfold text_delta.
    { rewrite E. cbn. split; [lia|done]. }
    unfold and_then. destruct (close_reasoning_keeps st1) as (_ & Kn & _ & _ & Kt & Ku & Kf & _).
    destruct (close_reasoning st1). cbn in *. split_and!; [lia|congruence..].
Qed.

Lemma call_start_keeps id name st :
  let st' := (render_tool_start id name st).2 in
  is_next st' = is_next st + 1 ∧ is_usage st' = is_usage st ∧ is_finished st' = is_finished st ∧
  map tc_call_id (is_tools st') = map tc_call_id (is_tools st) ++ [id].
Proof.
  unfold render_tool_start, and_then. destruct (created_keeps st) as (Hn & Hu & Ht & Hf & _).
  destruct (ensure_created st) as [o1 st1]. cbn [fst snd] in *.
  destruct (close_reasoning_keeps st1) as (_ & Kn & _ & _ & Kt & Ku & Kf & _).
  destruct (close_reasoning st1) as [o2 st2]. cbn [fst snd] in *.
  destruct (close_message_keeps st2) as (_ & Ln & _ & _ & Lt & Lu & Lf & _).
  destruct (close_message st2) as [o3 st3]. cbn in *. rewrite map_app. split_and!; [lia|congruence..|].
  by rewrite Lt, Kt, Ht.
Qed.

Lemma event_keeps e st :
  ends e = false →
  let st' := (render_frames e st).2 in
  is_next st' ≤ is_next st + 1 ∧ is_finished st' = is_finished st ∧
  is_usage st' = match Stream.event_usage e with
    | Some u => Usages.merge (is_usage st) u | None => is_usage st end ∧
  ∀ open, (∀ o, In o open → In o (map tc_call_id (is_tools st))) →
    ∀ o, In o (calls_after open e) → In o (map tc_call_id (is_tools st')).
Proof.
  destruct e as [m u|text|text|id name|id partial|id|u|reason u|message]; try done; intros _;
    cbn [render_frames Stream.event_usage calls_after].
  - destruct (created_keeps (report st u (Stream.adopt_model (is_model st) m) (is_finished st)))
      as (-> & -> & -> & -> & _). cbn. split_and!; [lia|done..|auto].
  - destruct (text_keeps false text st) as (H1 & H2 & H3 & H4).
    cbn [AnthropicStream.text_event render_frames] in *. rewrite H2, H3. split_and!; auto.
  - destruct (text_keeps true text st) as (H1 & H2 & H3 & H4).
    cbn [AnthropicStream.text_event render_frames] in *. rewrite H2, H3. split_and!; auto.
  - destruct (call_start_keeps id name st) as (H1 & H2 & H3 & H4). rewrite H1, H2, H4. split_and!; [lia|done..|].
    intros open Hop o [<-|Ho]; apply in_app_iff; [right; by left|left; auto].
  - unfold render_tool_delta. destruct (open_at_split st id) as [[-> _]|(n & l1 & t & l2 & -> & Hid & El & _ & Ha)].
    { cbn. split_and!; [lia|done..|auto]. }
    cbn. rewrite Ha, El, !map_app. split_and!; [lia|done..|auto].
  - unfold render_tool_end. destruct (open_at_split st id) as [[-> Hno]|(n & l1 & t & l2 & -> & Hid & El & Hr & _)].
    { cbn. split_and!; [lia|done..|]. intros open Hop o [Ho _]%keep_In. auto. }
    cbn. rewrite Hr, El, !map_app. split_and!; [lia|done..|]. intros open Hop o [Ho Hne]%keep_In.
    apply negb_true_iff, Str.str_eqb_neq in Hne. apply Hop in Ho. cbn in Ho. rewrite in_app_iff in Ho |- *.
    cbn in Ho. destruct Ho as [?|[?|?]]; [by left|congruence|by right].
  - cbn. split_and!; [lia|done..|auto].
Qed.

(** ** A run *)

Definition unended (es : list StreamEvent) : bool := all (fun e => negb (ends e)) es.

Lemma items_run es st c open :
  sim st c → unended es = true → is_next st + Z.of_nat (length es) ≤ U64_MAX →
  let x := render_all es st in
  ∃ c', read_all c x.1 = Some c' ∧ sim x.2 c' ∧
    AnthropicStream.bodies false (c_said c') =
      AnthropicStream.bodies false (c_said c) +:+ AnthropicStream.join (filter_map AnthropicStream.event_answer es) ∧
    AnthropicStream.bodies true (c_said c') =
      AnthropicStream.bodies true (c_said c) +:+ AnthropicStream.join (filter_map AnthropicStream.event_thought es) ∧
    AnthropicStream.read_names (c_said c') =
      AnthropicStream.read_names (c_said c) ++ filter_map AnthropicStream.event_call es ∧
    is_usage x.2 = AnthropicStream.usages es (is_usage st) ∧ is_finished x.2 = is_finished st ∧
    (NoDup (map fst (AnthropicStream.read_calls (c_said c)) ++ filter_map Stream.event_start es) →
      (∀ o, In o open → In o (map tc_call_id (is_tools st))) → in_calls open es = true →
      AnthropicStream.read_calls (c_said c') =
        fold_left (fun l e => AnthropicStream.call_step e l) es (AnthropicStream.read_calls (c_said c))).
Proof.
  revert st c open; induction es as [|e es IH]; intros st c open H Hst Hlen x.
  { exists c. cbn. rewrite !Str.append_empty_r, app_nil_r. done. }
  cbn [unended all List.forallb length] in Hst, Hlen. apply andb_true_iff in Hst as [He%negb_true_iff Hst].
  destruct (step_event st c e) as (c1 & R1 & S1 & P1); [done..|lia|].
  destruct (event_keeps e st He) as (Hn & Hf & Hu & Hop).
  destruct (IH _ c1 (calls_after open e) S1) as (c2 & R2 & S2 & A2 & T2 & N2 & U2 & F2 & C2); [done|lia|].
  exists c2. unfold x. cbn [render_all]. destruct (render_frames e st) as [o1 st1]. cbn [fst snd] in *.
  unfold and_then. destruct (render_all es st1) as [o2 st2]. cbn [fst snd] in *.
  rewrite read_all_more, R1. split; [done|]. split; [done|]. destruct P1 as [PA PT PN PC].
  rewrite A2, PA, T2, PT, N2, PN, U2, Hu, AnthropicStream.starts_cons.
  unfold AnthropicStream.usages. cbn [filter_map fold_left].
  split_and!.
  - destruct (AnthropicStream.event_answer e); cbn; by rewrite ?Str.append_empty_r, ?Str.append_assoc.
  - destruct (AnthropicStream.event_thought e); cbn; by rewrite ?Str.append_empty_r, ?Str.append_assoc.
  - destruct (AnthropicStream.event_call e); cbn; by rewrite ?app_nil_r, <-?app_assoc.
  - by destruct (Stream.event_usage e).
  - congruence.
  - rewrite app_assoc. intros Hnd Hopen Hsc. cbn [in_calls] in Hsc. apply andb_true_iff in Hsc as [Hto Hsc].
    assert (AnthropicStream.read_calls (c_said c1) = AnthropicStream.call_step e (AnthropicStream.read_calls (c_said c)))
      as Hc.
    { apply PC; [by apply NoDup_app in Hnd as [[? _]%NoDup_app _]|].
      destruct e; try done. cbn in *. bool_to_prop. apply Hopen. by apply list_elem_of_In. }
    rewrite C2, Hc; [done| |by apply Hop|done]. by rewrite Hc, AnthropicStream.call_step_keys.
Qed.

(** ** The end of the response *)

Definition at_rest (st : ItemState) : Prop := is_created st = true ∧ is_finished st = true.

Lemma settled_books st c :
  sim st c → is_message st = None → is_reasoning st = None → settled (c_items c) = true.
Proof.
  intros H Hm Hr. apply all_true. intros it (n & Hn)%In_lookup. destruct (it_open it) eqn:Eo; [|done].
  pose proof (m_open _ _ H n it Hn Eo) as Hx. unfold books in Hx. rewrite Hm, Hr in Hx. cbn in Hx.
  apply in_map_iff in Hx as (t & [= _ <-] & _). done.
Qed.

Lemma read_terminal st c name fields :
  sim st c → is_created st = true → is_message st = None → is_reasoning st = None →
  is_terminal name = true →
  ∃ c', read_all c [named name fields] = Some c' ∧ c_said c' = c_said c ∧
    c_end c' = Some (name, idx (JObject (("type", JString name) :: fields)) "response").
Proof.
  intros H Hs Hm Hr Ht. cbn [read_all]. unfold named, read_frame. rewrite (live_frame st) by done.
  assert (∀ n, is_terminal n = false → Str.eqb name n = false) as Hne.
  { intros n Hn. apply Str.str_eqb_neq. intros ->. congruence. }
  rewrite !Hne, Ht, (m_created _ _ H), Hs, (settled_books st c) by done. cbn [negb].
  eexists. split; [reflexivity|]. done.
Qed.

(** The status and the usage a terminal frame carries. *)
Definition end_status (e : StreamEvent) : string :=
  match e with
  | EvStop reason _ => if is_incomplete reason then "incomplete" else "completed"
  | _ => "failed"
  end.

Lemma terminate_read st c e :
  sim st c → ends e = true →
  let x := terminate (last_frame e) st in
  is_created x.2 = true ∧ is_finished x.2 = is_finished st ∧
  ∃ c' response, read_all c x.1 = Some c' ∧ c_said c' = c_said c ∧
    c_end c' = Some ("response." +:+ end_status e, response) ∧
    idx response "status" = JString (end_status e) ∧ idx response "usage" = Responses.usage_json (is_usage st).
Proof.
  intros H He x. unfold x, terminate, and_then.
  destruct (sim_created st c H) as (c1 & R1 & S1 & A1 & Hs). destruct (created_keeps st) as (_ & Hu & _ & Hf & _).
  destruct (ensure_created st) as [o1 st1]. cbn [fst snd] in *.
  destruct (sim_close_reasoning st1 c1 S1) as (c2 & R2 & S2 & A2).
  destruct (close_reasoning_keeps st1) as (Kc & _ & _ & _ & _ & Ku & Kf & _). pose proof (closed_reasoning st1) as Kr.
  destruct (close_reasoning st1) as [o2 st2]. cbn [fst snd] in *.
  destruct (sim_close_message st2 c2 S2) as (c3 & R3 & S3 & A3).
  destruct (close_message_keeps st2) as (Lc & _ & Lr & _ & _ & Lu & Lf & _). pose proof (closed_message st2) as Lm.
  destruct (close_message st2) as [o3 st3]. cbn [fst snd] in *.
  split; [congruence|]. split; [congruence|].
  assert (∃ fields, last_frame e st3 = named ("response." +:+ end_status e) fields ∧
    let r := idx (JObject (("type", JNull) :: fields)) "response" in
    idx r "status" = JString (end_status e) ∧ idx r "usage" = Responses.usage_json (is_usage st3))
    as (fields & -> & Hst & Hus).
  { destruct e as [| | | | | | |[] u|message]; try done; (eexists; split; [reflexivity|done]). }
  destruct (read_terminal st3 c3 ("response." +:+ end_status e) fields S3) as (c4 & R4 & A4 & E4);
    [congruence|done|congruence|by destruct e as [| | | | | | |[]|]|].
  exists c4. eexists. rewrite !read_all_more, R1, R2, R3. split; [exact R4|]. split; [congruence|].
  split; [exact E4|]. split; [exact Hst|]. rewrite <-Hu, <-Ku, <-Lu. exact Hus.
Qed.

Lemma terminate_rest st e :
  is_finished st = true → at_rest (terminate (last_frame e) st).2.
Proof.
  intros Hf. unfold terminate, and_then, at_rest. destruct (created_keeps st) as (_ & _ & _ & Kf & _).
  assert (is_created (ensure_created st).2 = true) as Kc.
  { unfold ensure_created. by destruct (is_created st) eqn:E. }
  destruct (ensure_created st) as [o1 st1]. cbn [fst snd] in *.
  destruct (close_reasoning_keeps st1) as (Lc & _ & _ & _ & _ & _ & Lf & _).
  destruct (close_reasoning st1) as [o2 st2]. cbn [fst snd] in *.
  destruct (close_message_keeps st2) as (Mc & _ & _ & _ & _ & _ & Mf & _).
  destruct (close_message st2) as [o3 st3]. cbn [fst snd] in *. split; congruence.
Qed.

Lemma last_rest st e : ends e = true → is_finished st = false → at_rest (render_frames e st).2.
Proof.
  intros He Hf. destruct e; try done; cbn [render_frames]; unfold render_failure; rewrite Hf.
  - by apply (terminate_rest _ (EvStop reason usage)).
  - by apply (terminate_rest _ (EvError message)).
Qed.

Lemma mute_step e st : at_rest st → mute e = true → ∃ st', render_frames e st = ([], st') ∧ at_rest st'.
Proof.
  intros [Hc Hf] Hq. destruct e as [m u| | | | | |u|reason u|message]; try done; cbn [render_frames];
    unfold render_failure, ensure_created; cbn; rewrite ?Hf, ?Hc; by eexists.
Qed.

Lemma mute_run es st c :
  at_rest st → all mute es = true → read_all c (render_all es st).1 = Some c.
Proof.
  revert st; induction es as [|e es IH]; intros st Hst; cbn [all List.forallb render_all]; [done|].
  intros [Hq Hes]%andb_true_iff. destruct (mute_step e st Hst Hq) as (st1 & -> & Hr).
  unfold and_then. specialize (IH st1 Hr Hes). destruct (render_all es st1). exact IH.
Qed.

Lemma render_all_more es fs st :
  render_all (es ++ fs) st =
    ((render_all es st).1 ++ (render_all fs (render_all es st).2).1,
     (render_all fs (render_all es st).2).2).
Proof.
  revert st; induction es as [|e es IH]; intros st; cbn [render_all app].
  { cbn. by destruct (render_all fs st). }
  destruct (render_frames e st) as [o1 st1]. unfold and_then. rewrite IH.
  destruct (render_all es st1) as [o2 st2]. cbn [fst snd].
  destruct (render_all fs st2) as [o3 st3]. cbn [fst snd]. by rewrite app_assoc.
Qed.

Lemma last_event_read st c e :
  sim st c → ends e = true → is_finished st = false →
  let x := render_frames e st in
  at_rest x.2 ∧
  ∃ c' response, read_all c x.1 = Some c' ∧ c_said c' = c_said c ∧
    c_end c' = Some ("response." +:+ end_status e, response) ∧
    idx response "status" = JString (end_status e) ∧
    idx response "usage" = Responses.usage_json
      (Usages.merge (is_usage st) (default no_usage (Stream.event_usage e))).
Proof.
  intros H He Hf x. unfold x.
  assert (render_frames e st = terminate (last_frame e)
    (report st (default no_usage (Stream.event_usage e)) (is_model st) true)) as ->.
  { destruct e; try done; cbn [render_frames]; unfold render_failure; by rewrite Hf. }
  destruct (terminate_read _ c e (sim_report st c (default no_usage (Stream.event_usage e)) (is_model st) true H) He)
    as (Hc & Hfin & c' & r & R & A & E & Hs & Hu).
  split; [by split|]. exists c', r. done.
Qed.

(** A Responses client is given a stream its protocol allows, and it says
    what the upstream said.  Whatever events are read, up to the stop or the
    failure that ends them: the response is created once and first; each item
    is added under the next index and named by its own id; fragments, parts and
    ends are of items still open, and the whole text or arguments an end
    repeats are the fragments' own; one terminal event ends it, with the status
    and the merged usage, and nothing follows but what writes nothing.  The
    messages' text is all the text in order, the reasoning all the thinking,
    the calls those started under their names; and when no two calls share an
    id and each fragment comes before its call's end, every call's arguments
    are that call's own, however calls interleave. *)
Theorem responses_stream_is_accepted request_id model before last after :
  unended before = true → ends last = true → all mute after = true →
  Z.of_nat (length before) ≤ U64_MAX →
  ∃ c response,
    read_all client_new (render_all (before ++ last :: after) (new request_id model)).1 = Some c ∧
    c_end c = Some ("response." +:+ end_status last, response) ∧
    idx response "status" = JString (end_status last) ∧
    idx response "usage" = Responses.usage_json
      (Usages.merge (AnthropicStream.usages before no_usage) (default no_usage (Stream.event_usage last))) ∧
    AnthropicStream.bodies false (c_said c) = AnthropicStream.join (filter_map AnthropicStream.event_answer before) ∧
    AnthropicStream.bodies true (c_said c) = AnthropicStream.join (filter_map AnthropicStream.event_thought before) ∧
    AnthropicStream.read_names (c_said c) = filter_map AnthropicStream.event_call before ∧
    (NoDup (filter_map Stream.event_start before) → in_calls [] before = true →
      AnthropicStream.read_calls (c_said c) = Stream.calls before).
Proof.
  intros Hst He Hq Hlen.
  destruct (items_run before (new request_id model) client_new [] (sim_client_new _ _))
    as (c1 & R1 & S1 & A1 & T1 & N1 & U1 & F1 & C1); [done..|].
  destruct (last_event_read _ c1 last S1 He F1) as (Hrest & c2 & r & R2 & A2 & E2 & St2 & U2).
  change (is_usage (new request_id model)) with no_usage in U1. rewrite U1 in U2.
  exists c2, r. rewrite render_all_more. cbn [fst]. rewrite read_all_more, R1. cbn [render_all].
  destruct (render_frames last _) as [o2 st2]. cbn [fst snd] in *. unfold and_then.
  pose proof (mute_run after st2 c2 Hrest Hq) as Hm. destruct (render_all after st2) as [o3 st3].
  cbn [fst] in *. rewrite read_all_more, R2, Hm, E2, A2, A1, T1, N1. split_and!; try done.
  intros Hnd Hsc. rewrite C1 by done. pose proof (AnthropicStream.fold_calls before Stream.new) as Hf. cbn in Hf.
  change (AnthropicStream.read_calls (c_said client_new)) with (@nil (string * string)). rewrite <-Hf.
  by rewrite Stream.buffers_spec.
Qed.

(** ** Witnesses *)

(** Thinking, an answer, two calls interleaved and one of them ended, then a
    late report. *)
Definition items_example : list StreamEvent := [
  EvStart "gpt" no_usage; EvThinkingDelta "Hm"; EvTextDelta "Look"; EvTextDelta "ing"; EvToolUseStart "a" "read";
  EvToolUseStart "b" "list"; EvToolUseDelta "a" "{1"; EvToolUseDelta "b" "{2"; EvToolUseDelta "a" "}";
  EvToolUseEnd "a"; EvTextDelta "!"; EvToolUseDelta "b" "}"].

Lemma responses_stream_is_accepted_witness :
  ∃ c response, read_all client_new (render_all (items_example ++ [EvStop StopMaxTokens no_usage;
      EvUsageUpdate no_usage]) (new "1" "m")).1 = Some c ∧
    c_end c = Some ("response.incomplete", response) ∧
    AnthropicStream.bodies false (c_said c) = "Looking!" ∧
    AnthropicStream.read_calls (c_said c) = [("a", "{1}"); ("b", "{2}")].
Proof.
  destruct (responses_stream_is_accepted "1" "m" items_example (EvStop StopMaxTokens no_usage)
    [EvUsageUpdate no_usage]) as (c & r & R & E & _ & _ & A & _ & _ & C); [reflexivity..|done|].
  exists c, r. split; [exact R|]. split; [exact E|]. split; [exact A|]. apply C; [|reflexivity].
  apply NoDup_ListNoDup. vm_compute. repeat constructor; simpl; intuition discriminate.
Defined.

End ResponsesStream.
