(* ===== verification/ResponsesEcho.v ===== *)
(** * A streamed Responses answer, read again

    What [parse_event] of [crates/oag-proto/src/responses.rs] makes of the
    stream [render_event] writes: the two halves of the dialect composed over
    the wire, as when one gateway stands behind another. *)

From Stdlib Require Import Ascii.
From S2P Require Import Prelude Text Money Domain Efforts Catalog Cost.
From S2P Require Import Ladder Classify Budget Policy Canonical Wire Names Stream.
From S2P Require Import Anthropic AnthropicStream Hub Frames OpenAI OpenAIStream Responses ResponsesStream.
#[local] Open Scope string_scope.
#[local] Open Scope oag_scope.
#[local] Open Scope list_scope.
#[local] Open Scope Z_scope.

Module ResponsesEcho.
Import Js Wire ResponsesStream.

(** Frames read one after the other. *)
Fixpoint read_frames (acc : StreamAccumulator) (fs : list Frame) : list StreamEvent :=
  match fs with
  | [] => []
  | f :: fs =>
      let es := Responses.event_of f.2 acc in es ++ read_frames (Stream.observe_all acc es) fs
  end.

(** What of an event its frames say. *)
Definition echo (e : StreamEvent) : option StreamEvent :=
  match e with
  | EvTextDelta _ | EvThinkingDelta _ | EvToolUseStart _ _ | EvToolUseDelta _ _ | EvToolUseEnd _ => Some e
  | _ => None
  end.

(** The model the response is created under: the first event that writes
    anything creates it. *)
Fixpoint announced (model : string) (es : list StreamEvent) : string :=
  match es with
  | EvStart m _ :: _ => Stream.adopt_model model m
  | EvUsageUpdate _ :: es => announced model es
  | _ => model
  end.

Definition opening (created : bool) (model : string) (es : list StreamEvent) : list StreamEvent :=
  if created then [] else [EvStart (announced model es) no_usage].

Definition latest_after (latest : option string) (e : StreamEvent) : option string :=
  match e with EvToolUseStart id _ => Some id | _ => latest end.

(** What is heard of an event: a fragment is heard as one of the call opened
    last, whichever it is of. *)
Definition heard_as (latest : option string) (e : StreamEvent) : option StreamEvent :=
  match e with
  | EvToolUseDelta _ partial_json => Some (EvToolUseDelta (default "" latest) partial_json)
  | _ => echo e
  end.

Fixpoint credited (latest : option string) (es : list StreamEvent) : list StreamEvent :=
  match es with
  | [] => []
  | e :: es => option_list (heard_as latest e) ++ credited (latest_after latest e) es
  end.

(** Fragments and ends are of open calls. *)
Definition in_turn (open : list string) (e : StreamEvent) : bool :=
  match e with EvToolUseDelta id _ | EvToolUseEnd id => bool_decide (id ∈ open) | _ => true end.

Fixpoint in_turns (open : list string) (es : list StreamEvent) : bool :=
  match es with [] => true | e :: es => in_turn open e && in_turns (calls_after open e) es end.

(** Fragments are of the call opened last. *)
Definition of_latest (latest : option string) (e : StreamEvent) : bool :=
  match e with EvToolUseDelta id _ => bool_decide (latest = Some id) | _ => true end.

Fixpoint one_by_one (latest : option string) (es : list StreamEvent) : bool :=
  match es with [] => true | e :: es => of_latest latest e && one_by_one (latest_after latest e) es end.

Lemma credited_one_by_one latest es : one_by_one latest es = true → credited latest es = filter_map echo es.
Proof.
  revert latest; induction es as [|e es IH]; intros latest; [done|]. cbn [one_by_one credited filter_map].
  intros [He Hes]%andb_true_iff. rewrite IH by done.
  destruct e; try done. cbn in *. apply bool_decide_eq_true in He. by subst latest.
Qed.

(** What the terminal event is read as. *)
Definition ending (called : bool) (e : StreamEvent) (total : Usage) : list StreamEvent :=
  match e with
  | EvStop reason _ =>
      [EvUsageUpdate (OpenAIStream.chat_usage total);
       EvStop (Responses.responses_stop reason called) (OpenAIStream.chat_usage total)]
  | EvError message => [EvError message]
  | _ => []
  end.

(** ** Frames that say nothing *)

Definition hushed (f : Frame) : Prop := ∀ acc, Responses.event_of f.2 acc = [].

Lemma read_hushed acc fs gs : Forall hushed fs → read_frames acc (fs ++ gs) = read_frames acc gs.
Proof. induction 1 as [|f fs Hf _ IH]; [done|]. cbn [app read_frames]. by rewrite Hf. Qed.

Lemma close_message_hushed st : Forall hushed (close_message st).1.
Proof. unfold close_message. destruct (is_message st) as [[]|]; repeat constructor. Qed.

Lemma close_reasoning_hushed st : Forall hushed (close_reasoning st).1.
Proof. unfold close_reasoning. destruct (is_reasoning st) as [[]|]; repeat constructor. Qed.

Lemma open_message_hushed st : Forall hushed (open_message st).1.
Proof.
  unfold open_message. destruct (is_message st); [constructor|]. pose proof (close_reasoning_hushed st).
  unfold and_then. destruct (close_reasoning st). apply Forall_app. split; [done|]. repeat constructor.
Qed.

Lemma open_reasoning_hushed st : Forall hushed (open_reasoning st).1.
Proof.
  unfold open_reasoning. destruct (is_reasoning st); [constructor|]. pose proof (close_message_hushed st).
  unfold and_then. destruct (close_message st). apply Forall_app. split; [done|]. repeat constructor.
Qed.

(** ** What the reader knows *)

Record heard (open : list string) (latest : option string) (st : ItemState) (acc : StreamAccumulator) : Prop := {
  h_names : function_names acc = Names.identity;
  h_open : ∀ o, In o open → In o (map tc_call_id (is_tools st));
  h_latest : last (map fst (tool_buffers acc)) = latest;
  h_calls : tool_calls acc = Z.min U64_MAX (Z.of_nat (length (tool_buffers acc)));
  h_created : is_created st = false → open = []
}.

Lemma current_latest acc : Stream.current_tool_id acc = last (map fst (tool_buffers acc)).
Proof.
  unfold Stream.current_tool_id. destruct (tool_buffers acc) as [|b bs _] using rev_ind; [done|].
  rewrite rev_app_distr, map_app, last_app. cbn. by destruct b.
Qed.

Definition announce (st : ItemState) : list StreamEvent :=
  if is_created st then [] else [EvStart (is_model st) no_usage].

Lemma created_read st acc gs :
  read_frames acc ((ensure_created st).1 ++ gs) =
    announce st ++ read_frames (Stream.observe_all acc (announce st)) gs.
Proof. unfold ensure_created, announce. by destruct (is_created st). Qed.

Definition silent (e : StreamEvent) : bool := match e with EvUsageUpdate _ => true | _ => false end.

Definition said (st : ItemState) (latest : option string) (e : StreamEvent) : list StreamEvent :=
  (if silent e then [] else opening (is_created st) (is_model st) [e]) ++ option_list (heard_as latest e).

Lemma said_announce st latest e :
  silent e = false → (∀ m u, e ≠ EvStart m u) → said st latest e = announce st ++ option_list (heard_as latest e).
Proof. intros Hs He. unfold said, opening, announce. rewrite Hs. destruct e; try done. by destruct (He model usage). Qed.

(** What is said of a delta. *)
Lemma fragment_read st acc (fs : list Frame) f gs e :
  Forall hushed fs → Responses.event_of f.2 (Stream.observe_all acc (announce st)) = [e] →
  read_frames acc (((ensure_created st).1 ++ fs ++ [f]) ++ gs) =
    (announce st ++ [e]) ++ read_frames (Stream.observe_all acc (announce st ++ [e])) gs.
Proof.
  intros Hf He. rewrite <-!app_assoc, created_read, read_hushed by done. cbn [app read_frames].
  rewrite He. unfold Stream.observe_all. by rewrite fold_left_app.
Qed.

Lemma event_read e st acc open latest gs :
  heard open latest st acc → ends e = false → in_turn open e = true →
  read_frames acc ((render_frames e st).1 ++ gs) =
    said st latest e ++ read_frames (Stream.observe_all acc (said st latest e)) gs.
Proof.
  intros H He Ht.
  destruct e as [m u|text|text|id name|id partial|id|u|reason u|message]; try done; cbn [render_frames].
  - rewrite created_read. unfold said, announce, opening. cbn. by rewrite app_nil_r.
  - rewrite said_announce by done. unfold and_then.
    destruct (ensure_created st) as [o1 st1] eqn:E1. pose proof (open_message_hushed st1) as Ho.
    destruct (open_message st1) as [o2 st2]. unfold text_delta. destruct (default _ _) as [i id]. cbn [fst].
    rewrite <-(app_assoc o1). change o1 with (o1, st1).1. rewrite <-E1. by apply fragment_read.
  - rewrite said_announce by done. unfold and_then.
    destruct (ensure_created st) as [o1 st1] eqn:E1. pose proof (open_reasoning_hushed st1) as Ho.
    destruct (open_reasoning st1) as [o2 st2]. unfold reasoning_delta. destruct (default _ _) as [i id]. cbn [fst].
    rewrite <-(app_assoc o1). change o1 with (o1, st1).1. rewrite <-E1. by apply fragment_read.
  - rewrite said_announce by done. unfold render_tool_start, and_then.
    destruct (ensure_created st) as [o1 st1] eqn:E1. pose proof (close_reasoning_hushed st1) as Hr.
    destruct (close_reasoning st1) as [o2 st2]. pose proof (close_message_hushed st2) as Hm.
    destruct (close_message st2) as [o3 st3]. unfold open_call. cbn [fst].
    rewrite <-(app_assoc o1 o2), <-(app_assoc o1). change o1 with (o1, st1).1. rewrite <-E1.
    apply fragment_read; [by apply Forall_app|]. cbn. unfold Stream.restore_function_name.
    assert (function_names (Stream.observe_all acc (announce st)) = Names.identity) as Hn.
    { unfold announce. destruct (is_created st); apply H. }
    by rewrite Hn.
  - cbn in Ht. apply bool_decide_eq_true in Ht as Ho.
    unfold said, opening. destruct (is_created st) eqn:Hc.
    2: { rewrite (h_created _ _ _ _ H Hc) in Ho. by apply not_elem_of_nil in Ho. }
    unfold render_tool_delta. destruct (open_at_split st id) as [[_ Hno]|(n & l1 & t & l2 & -> & Hid & _)].
    { destruct Hno. apply (h_open _ _ _ _ H). by apply list_elem_of_In. }
    cbn -[Stream.current_tool_id]. by rewrite current_latest, (h_latest _ _ _ _ H).
  - cbn in Ht. apply bool_decide_eq_true in Ht as Ho.
    unfold said, opening. destruct (is_created st) eqn:Hc.
    2: { rewrite (h_created _ _ _ _ H Hc) in Ho. by apply not_elem_of_nil in Ho. }
    unfold render_tool_end. destruct (open_at_split st id) as [[_ Hno]|(n & l1 & t & l2 & -> & Hid & _)].
    { destruct Hno. apply (h_open _ _ _ _ H). by apply list_elem_of_In. }
    cbn. by rewrite Hid.
Qed.

Lemma heard_start open latest st acc m : heard open latest st acc → heard open latest st (Stream.observe acc (EvStart m no_usage)).
Proof. intros []. by split. Qed.

(** What creates the response. *)
Lemma closing_created st :
  is_created (close_reasoning st).2 = is_created st ∧ is_created (close_message st).2 = is_created st.
Proof. split; [apply close_reasoning_keeps|apply close_message_keeps]. Qed.

Lemma opening_created st :
  is_created (open_reasoning st).2 = is_created st ∧ is_created (open_message st).2 = is_created st.
Proof.
  unfold open_reasoning, open_message, and_then. destruct (closing_created st) as [Hr Hm].
  split; [destruct (is_reasoning st); [done|]; by destruct (close_message st)|
          destruct (is_message st); [done|]; by destruct (close_reasoning st)].
Qed.

Lemma writes_created e st :
  ends e = false →
  is_created (render_frames e st).2 = match e with
    | EvUsageUpdate _ | EvToolUseDelta _ _ | EvToolUseEnd _ => is_created st | _ => true end.
Proof.
  assert (∀ st, is_created (ensure_created st).2 = true) as He.
  { intros s. unfold ensure_created. by destruct (is_created s) eqn:E. }
  destruct e as [m u|text|text|id name|id partial|id|u|reason u|message]; try done; intros _;
    cbn [render_frames].
  - apply He.
  - unfold and_then. pose proof (He st). destruct (ensure_created st) as [o1 st1].
    pose proof (proj2 (opening_created st1)). destruct (open_message st1) as [o2 st2].
    unfold text_delta. destruct (default _ _). cbn in *. congruence.
  - unfold and_then. pose proof (He st). destruct (ensure_created st) as [o1 st1].
    pose proof (proj1 (opening_created st1)). destruct (open_reasoning st1) as [o2 st2].
    unfold reasoning_delta. destruct (default _ _). cbn in *. congruence.
  - unfold render_tool_start, and_then. pose proof (He st). destruct (ensure_created st) as [o1 st1].
    pose proof (proj1 (closing_created st1)). destruct (close_reasoning st1) as [o2 st2].
    pose proof (proj2 (closing_created st2)). destruct (close_message st2). cbn in *. congruence.
  - unfold render_tool_delta. by destruct (open_at st id) as [[]|].
  - unfold render_tool_end. by destruct (open_at st id) as [[]|].
Qed.

Lemma heard_said open latest st acc e :
  heard open latest st acc → ends e = false →
  heard (calls_after open e) (latest_after latest e) (render_frames e st).2 (Stream.observe_all acc (said st latest e)).
Proof.
  intros H He. destruct (event_keeps e st He) as (_ & _ & _ & Hop).
  assert (heard open latest st (Stream.observe_all acc
    (if silent e then [] else opening (is_created st) (is_model st) [e]))) as H1.
  { unfold opening. destruct (silent e), (is_created st); try done. by apply heard_start. }
  unfold said. unfold Stream.observe_all in *. rewrite fold_left_app.
  set (acc1 := fold_left _ (if silent e then _ else _) acc) in *. clearbody acc1.
  destruct H1 as [Hn Ho Hl Hk Hz]. split.
  - by destruct e.
  - by apply Hop.
  - destruct e; cbn; try done.
    + rewrite map_app. apply last_snoc.
    + by rewrite OpenAIStream.push_to_keys.
  - destruct e; cbn; try done.
    + rewrite length_app, Hk. cbn. unfold sat_add. lia.
    + rewrite <-(length_map fst), OpenAIStream.push_to_keys, length_map. done.
  - rewrite writes_created by done. intros E. destruct e; try done; by rewrite (Hz E).
Qed.


Lemma opening_next st latest e es :
  ends e = false → (is_created st = false → ∀ id p, e ≠ EvToolUseDelta id p ∧ e ≠ EvToolUseEnd id) →
  (if silent e then [] else opening (is_created st) (is_model st) [e]) ++ option_list (heard_as latest e) ++
    opening (is_created (render_frames e st).2) (is_model (render_frames e st).2) es =
  opening (is_created st) (is_model st) (e :: es) ++ option_list (heard_as latest e).
Proof.
  intros He Hn. rewrite writes_created by done. unfold opening. destruct (is_created st) eqn:Hc.
  - destruct e; cbn; rewrite ?Hc; done.
  - specialize (Hn eq_refl). destruct e as [| | | |id p|id| | |]; cbn; rewrite ?Hc; try done.
    + by destruct (Hn id p).
    + by destruct (Hn id "").
Qed.

Lemma observe_more acc es fs : Stream.observe_all acc (es ++ fs) = Stream.observe_all (Stream.observe_all acc es) fs.
Proof. unfold Stream.observe_all. apply fold_left_app. Qed.

Definition called (acc : StreamAccumulator) (es : list StreamEvent) : bool :=
  negb (bool_decide (map fst (tool_buffers acc) ++ filter_map Stream.event_start es = [])).

Lemma saw_called acc :
  tool_calls acc = Z.min U64_MAX (Z.of_nat (length (tool_buffers acc))) →
  Stream.saw_tool_call acc = called acc [].
Proof.
  intros H. unfold Stream.saw_tool_call, called. rewrite H.
  destruct (tool_buffers acc) as [|b bs]; [done|]. cbn [length].
  rewrite (proj2 (Z.ltb_lt _ _)) by (unfold U64_MAX; lia). done.
Qed.

Lemma terminal_read st acc e :
  ends e = true → OpenAIStream.prompt_fits (is_usage st) →
  tool_calls acc = Z.min U64_MAX (Z.of_nat (length (tool_buffers acc))) →
  Responses.event_of (last_frame e st).2 acc = ending (called acc []) e (is_usage st).
Proof.
  intros He Hu Hc. destruct e as [| | | | | | |reason u|message]; try done.
  cbn [last_frame ending]. rewrite <-saw_called by done.
  rewrite <-(Responses.responses_usage_back (is_usage st)) by done.
  destruct reason; cbn -[Responses.parse_usage Responses.usage_json];
    unfold Responses.completed_events; by destruct (Stream.saw_tool_call acc).
Qed.

Lemma last_echoed st acc e gs :
  ends e = true → is_finished st = false →
  OpenAIStream.prompt_fits (Usages.merge (is_usage st) (default no_usage (Stream.event_usage e))) →
  tool_calls acc = Z.min U64_MAX (Z.of_nat (length (tool_buffers acc))) →
  Forall hushed gs →
  read_frames acc ((render_frames e st).1 ++ gs) =
    announce st ++ ending (called acc []) e
      (Usages.merge (is_usage st) (default no_usage (Stream.event_usage e))).
Proof.
  intros He Hf Hu Hc Hg.
  set (st0 := report st (default no_usage (Stream.event_usage e)) (is_model st) true) in *.
  assert (render_frames e st = terminate (last_frame e) st0) as ->.
  { destruct e; try done; cbn [render_frames]; unfold render_failure; by rewrite Hf. }
  unfold terminate, and_then. destruct (created_keeps st0) as (_ & Ku & _).
  destruct (ensure_created st0) as [o1 st1] eqn:E1. pose proof (close_reasoning_hushed st1) as Hr.
  destruct (close_reasoning_keeps st1) as (_ & _ & _ & _ & _ & Kr & _).
  destruct (close_reasoning st1) as [o2 st2]. pose proof (close_message_hushed st2) as Hm.
  destruct (close_message_keeps st2) as (_ & _ & _ & _ & _ & Km & _).
  destruct (close_message st2) as [o3 st3]. cbn [fst snd] in *.
  assert (is_usage st3 = is_usage st0) as Hu3 by congruence.
  rewrite <-(app_assoc o1 o2), <-!(app_assoc o1). change o1 with (o1, st1).1. rewrite <-E1, created_read.
  rewrite <-!(app_assoc (o2 ++ o3)), read_hushed by by apply Forall_app.
  cbn [app read_frames]. rewrite <-(app_nil_r gs), read_hushed by done. cbn [read_frames].
  assert (called (Stream.observe_all acc (announce st)) [] = called acc [] ∧
    tool_calls (Stream.observe_all acc (announce st)) =
      Z.min U64_MAX (Z.of_nat (length (tool_buffers (Stream.observe_all acc (announce st)))))) as [Hc1 Hc2].
  { unfold announce. by destruct (is_created st). }
  change (announce st0) with (announce st).
  rewrite terminal_read; [|done|by rewrite Hu3|done]. by rewrite Hc1, Hu3, app_nil_r.
Qed.

(** What follows the end says nothing, since nothing is written. *)
Lemma mute_hushed es st : at_rest st → all mute es = true → (render_all es st).1 = [].
Proof.
  revert st; induction es as [|e es IH]; intros st Hst; cbn [all List.forallb render_all]; [done|].
  intros [Hq Hes]%andb_true_iff. destruct (mute_step e st Hst Hq) as (st1 & -> & Hr).
  unfold and_then. specialize (IH st1 Hr Hes). by destruct (render_all es st1).
Qed.

Lemma called_cons st latest acc x es :
  called (Stream.observe_all acc (said st latest x)) es = called acc (x :: es).
Proof.
  unfold called. rewrite AnthropicStream.starts_cons, app_assoc. do 2 f_equal.
  rewrite AnthropicStream.fold_calls.
  unfold said, opening. destruct (is_created st), x; cbn; by rewrite ?map_app, ?OpenAIStream.push_to_keys, ?app_nil_r.
Qed.

(** A run, to its end. *)
Lemma run_echoed es st acc open latest e after :
  heard open latest st acc → unended es = true → in_turns open es = true →
  ends e = true → is_finished st = false → all mute after = true →
  let total := Usages.merge (AnthropicStream.usages es (is_usage st)) (default no_usage (Stream.event_usage e)) in
  OpenAIStream.prompt_fits total →
  read_frames acc (render_all (es ++ e :: after) st).1 =
    opening (is_created st) (is_model st) es ++ credited latest es ++ ending (called acc es) e total.
Proof.
  intros H Hes Ht He Hf Hq. revert st acc open latest H Hf Hes Ht;
    induction es as [|x es IH]; intros st acc open latest H Hf Hes Ht total Hfit.
  { cbn [app credited render_all]. destruct (render_frames e st) as [o1 st1] eqn:E. unfold and_then.
    assert (at_rest st1) as Hr by (change st1 with (o1, st1).2; rewrite <-E; by apply last_rest).
    pose proof (mute_hushed after st1 Hr Hq) as Hm. destruct (render_all after st1). cbn in Hm. subst.
    cbn [fst]. change o1 with (o1, st1).1. rewrite <-E. rewrite last_echoed by (done || apply H || constructor). done. }
  cbn [unended all List.forallb in_turns] in Hes, Ht. apply andb_true_iff in Hes as [Hx%negb_true_iff Hes].
  apply andb_true_iff in Ht as [Ht Hts]. cbn [app render_all].
  pose proof (λ gs, event_read x st acc open latest gs H Hx Ht) as Hread.
  pose proof (heard_said open latest st acc x H Hx) as Hh. destruct (event_keeps x st Hx) as (_ & Kf & Ku & _).
  pose proof (opening_next st latest x es Hx) as Hop.
  destruct (render_frames x st) as [o1 st1]. cbn [fst snd] in *. unfold and_then.
  specialize (IH st1 _ _ _ Hh). destruct (render_all (es ++ e :: after) st1) as [o2 st2]. cbn [fst] in *.
  rewrite Hread, IH; try done; [|congruence|].
  - assert (is_created st = false → ∀ id p, x ≠ EvToolUseDelta id p ∧ x ≠ EvToolUseEnd id) as Hn.
    { intros Hc id p. rewrite (h_created _ _ _ _ H Hc) in Ht. split; intros ->; cbn in Ht; bool_to_prop; set_solver. }
    specialize (Hop Hn). rewrite called_cons. unfold said. rewrite <-app_assoc, (app_assoc (option_list _)).
    rewrite (app_assoc (if silent x then _ else _)), Hop, <-!app_assoc.
    f_equal. unfold total, AnthropicStream.usages. rewrite Ku. cbn [filter_map credited].
    rewrite <-app_assoc. by destruct (Stream.event_usage x).
  - unfold total, AnthropicStream.usages in Hfit. cbn [filter_map] in Hfit.
    unfold AnthropicStream.usages. rewrite Ku. by destruct (Stream.event_usage x).
Qed.

(** ** Over the wire *)

(** A frame whose name fits a line and whose body is an object. *)
Definition wired (f : Frame) : Prop := Frames.plain_line f.1 = true ∧ ∃ fields, f.2 = JObject fields.

Lemma and_then_wired x (f : Step) :
  Forall wired x.1 → (∀ st, Forall wired (f st).1) → Forall wired (and_then x f).1.
Proof.
  intros Hx Hf. destruct x as [out st]. unfold and_then. specialize (Hf st). destruct (f st).
  by apply Forall_app.
Qed.

Ltac frames := repeat (first [apply List.Forall_cons | apply List.Forall_nil]);
  (split; [reflexivity|eexists; reflexivity]).

Lemma created_wired st : Forall wired (ensure_created st).1.
Proof. unfold ensure_created. destruct (is_created st); [constructor|frames]. Qed.

Lemma close_message_wired st : Forall wired (close_message st).1.
Proof. unfold close_message. destruct (is_message st) as [[]|]; [frames|constructor]. Qed.

Lemma close_reasoning_wired st : Forall wired (close_reasoning st).1.
Proof. unfold close_reasoning. destruct (is_reasoning st) as [[]|]; [frames|constructor]. Qed.

Lemma open_message_wired st : Forall wired (open_message st).1.
Proof.
  unfold open_message. destruct (is_message st); [constructor|].
  apply and_then_wired; [apply close_reasoning_wired|]. intros s. frames.
Qed.

Lemma open_reasoning_wired st : Forall wired (open_reasoning st).1.
Proof.
  unfold open_reasoning. destruct (is_reasoning st); [constructor|].
  apply and_then_wired; [apply close_message_wired|]. intros s. frames.
Qed.

Lemma terminate_wired last st : (∀ st, wired (last st)) → Forall wired (terminate last st).1.
Proof.
  intros Hl. unfold terminate. repeat apply and_then_wired; intros;
    auto using created_wired, close_message_wired, close_reasoning_wired.
  cbn. by apply List.Forall_cons.
Qed.

Lemma event_wired e st : Forall wired (render_frames e st).1.
Proof.
  destruct e as [m u|text|text|id name|id partial|id|u|reason u|message]; cbn [render_frames].
  - apply created_wired.
  - repeat apply and_then_wired; intros; auto using created_wired, open_message_wired.
    unfold text_delta. destruct (default _ _). frames.
  - repeat apply and_then_wired; intros; auto using created_wired, open_reasoning_wired.
    unfold reasoning_delta. destruct (default _ _). frames.
  - unfold render_tool_start. repeat apply and_then_wired; intros;
      auto using created_wired, close_message_wired, close_reasoning_wired. frames.
  - unfold render_tool_delta. destruct (open_at st id) as [[]|]; [frames|constructor].
  - unfold render_tool_end. destruct (open_at st id) as [[]|]; [frames|constructor].
  - constructor.
  - destruct (is_finished st); [constructor|]. apply terminate_wired. intros s. by destruct reason; frames.
  - unfold render_failure. destruct (is_finished st); [constructor|]. apply terminate_wired. intros s. frames.
Qed.

Lemma all_wired es st : Forall wired (render_all es st).1.
Proof.
  revert st; induction es as [|e es IH]; intros st; cbn [render_all]; [constructor|].
  apply and_then_wired; [apply event_wired|exact IH].
Qed.

Section connection.
Context (to_string : Json → string) (parse : string → option Json) {HT : Frames.JsonText to_string parse}.

(** What is written for a stream. *)
Fixpoint written (es : list StreamEvent) (st : ItemState) : string :=
  match es with
  | [] => ""
  | e :: es => let '(text, st) := render_event to_string e st in default "" text +:+ written es st
  end.

(** Payloads parsed one after the other. *)
Fixpoint read_payloads (acc : StreamAccumulator) (ps : list string) : result (list StreamEvent) Error :=
  match ps with
  | [] => Ok []
  | p :: ps =>
      let? es := Responses.parse_event parse p acc in
      let? rest := read_payloads (Stream.observe_all acc es) ps in
      Ok (es ++ rest)
  end.

Lemma frames_parsed acc fs :
  read_payloads acc (map (fun f => to_string f.2) fs) = Ok (read_frames acc fs).
Proof.
  revert acc; induction fs as [|f fs IH]; intros acc; [done|]. cbn [map read_payloads read_frames].
  unfold Responses.parse_event. rewrite Frames.text_parses. cbn [ok_or result_bind]. by rewrite IH.
Qed.

Lemma written_frames es st :
  Str.bytes (written es st) =
  List.concat (map (fun f => Str.bytes (AnthropicStream.frame to_string f)) (render_all es st).1).
Proof.
  revert st; induction es as [|e es IH]; intros st; [done|]. cbn [written render_all].
  unfold render_event, and_then. destruct (render_frames e st) as [fs st1]. specialize (IH st1).
  destruct (render_all es st1) as [gs st2]. cbn [fst] in *. rewrite Str.bytes_app, IH, map_app, List.concat_app.
  f_equal. set (out := AnthropicStream.join _).
  assert (default "" (if Str.is_empty out then None else Some out) = out) as -> by by destruct out.
  unfold out, AnthropicStream.join. clear. induction fs as [|f fs IH]; [done|]. cbn [map foldr List.concat].
  by rewrite Str.bytes_app, IH.
Qed.

Lemma written_frames_read es st chunks :
  (render_all es st).1 ≠ [] → List.concat chunks = Str.bytes (written es st) →
  ∃ pending, Frames.reads (λ _, "") (λ _, None) (λ _, None) Sse [] chunks =
    Some (map EventStream.Verbatim (map (fun f => to_string f.2) (render_all es st).1), pending).
Proof.
  intros Hne Hc. rewrite written_frames in Hc. pose proof (all_wired es st) as Hw.
  set (g := fun f => Str.bytes (AnthropicStream.frame to_string f)) in *.
  destruct (render_all es st).1 as [|f0 fs0] eqn:E using rev_ind; [done|]. clear IHfs0 Hne E. rename fs0 into fs.
  apply Forall_app in Hw as [Hw Hf0]. apply List.Forall_inv in Hf0.
  assert (∀ f, wired f → SseFrames.block (g f) ∧ SseFrames.payloads (g f) = [to_string f.2] ∧
    Utf8.valid (g f) = true) as Hg.
  { intros [name v] [Hn [fields Hv]]. cbn in Hn, Hv. subst v. by apply Frames.event_block_ok. }
  assert (Forall SseFrames.block (map g fs) ∧ all Utf8.valid (map g fs) = true ∧
    List.concat (map SseFrames.payloads (map g fs)) = map (fun f => to_string f.2) fs) as (H1 & H2 & H3).
  { clear Hc. induction Hw as [|f fs Hf _ IH]; [done|]. destruct IH as (I1 & I2 & I3).
    destruct (Hg f Hf) as (G1 & G2 & G3). cbn. rewrite G2, G3, I3. split; [by apply List.Forall_cons|done]. }
  destruct (Hg f0 Hf0) as (G1 & G2 & G3).
  rewrite map_app, List.concat_app in Hc. cbn in Hc. rewrite app_nil_r in Hc.
  destruct (Frames.reads_blocks (λ _, "") (λ _, None) (λ _, None) (map g fs) (g f0) chunks H1 G1) as [pending Hr];
    [|exact Hc|].
  - unfold all in *. rewrite forallb_app, H2. cbn. by rewrite G3.
  - exists pending. rewrite Hr, H3, G2. do 3 f_equal. symmetry. apply map_app.
Qed.


End connection.

(** ** Witness *)

(** Some thinking, text, and two calls one after the other. *)
Definition echo_example : list StreamEvent := [
  EvUsageUpdate OpenAIStream.used; EvThinkingDelta "hm"; EvTextDelta "Look"; EvToolUseStart "a" "read";
  EvToolUseDelta "a" "{1"; EvToolUseDelta "a" "}"; EvToolUseEnd "a"; EvToolUseStart "b" "list";
  EvToolUseDelta "b" "{2"; EvToolUseEnd "b"].


(** Two calls open at once: the fragment of the first is heard as the
    second's. *)
Example fragments_run_together :
  credited None [EvToolUseStart "a" "read"; EvToolUseStart "b" "list"; EvToolUseDelta "a" "{1"; EvToolUseDelta "b" "{2"] =
    [EvToolUseStart "a" "read"; EvToolUseStart "b" "list"; EvToolUseDelta "b" "{1"; EvToolUseDelta "b" "{2"].
Proof. reflexivity. Qed.

End ResponsesEcho.
