(* ===== verification/Pump.v ===== *)
(** * Pumping a streamed answer from an upstream to a client

    [crates/oag-server/src/gateway/sse.rs]: the task that reads the upstream,
    accounts for what it says and writes the client's bytes ([pump_with]), and
    the readers for a client that wants one body: of a stream
    ([collect_stream_with]) and of a body ([collect_with]).

    The clocks, the socket and the client's channel are the run's environment:
    a list of passes, each what the loop found when it next looked.  An adapter
    is a class: its framing and its reading of one payload. *)

From Stdlib Require Import Ascii.
From S2P Require Import Prelude Text Money Domain Efforts Catalog Cost.
From S2P Require Import Ladder Classify Budget Policy Canonical Wire Names Stream.
From S2P Require Import Anthropic AnthropicStream Frames Converse OpenAI OpenAIStream Gemini Responses ResponsesStream.
#[local] Open Scope string_scope.
#[local] Open Scope oag_scope.
#[local] Open Scope list_scope.
#[local] Open Scope Z_scope.

(** What the pump asks of a [ProviderAdapter].  [parse_event] may leave the
    accumulator changed whether or not the payload parses. *)
Class ProviderAdapter : Type := {
  framing : Framing;
  parse_event : string → StreamAccumulator → result (list StreamEvent) Error * StreamAccumulator
}.

Inductive Renderer : Type :=
  | RenderNone
  | RenderChatCompletions (st : ChunkState)
  | RenderAnthropic (st : RenderState)
  | RenderGemini (st : GeminiState)
  | RenderResponses (st : ItemState).

Inductive Egress : Type :=
  | Passthrough (dialect : Dialect) (request_id model : string)
  | ToChatCompletions (request_id model : string)
  | ToAnthropicMessages (request_id model : string)
  | ToGemini
  | ToResponses (request_id model : string).

(** In nanoseconds, as [Duration]s are. *)
Record Deadlines : Type := { dl_idle : Z; dl_max : Z; dl_client_write : Z; dl_keepalive : Z }.

(** Why a stream failed; its text is [Pump.failure_text]. *)
Inductive Failure : Type :=
  | TooLong
  | IdleFor
  | ReadFailed (error : string)
  | Oversized (bytes : Z)
  | InBand (message : string)
  | ClosedEarly.

(** What a send to the client's channel comes to, under its deadline. *)
Inductive Sent : Type := Accepted | Refused | Stalled.

(** What the wait for the upstream comes to. *)
Inductive Read : Type :=
  | ReadIdle
  | ReadEnd
  | ReadError (error : string)
  | ReadBytes (chunk : list ascii).

(** What the wait for a whole body comes to. *)
Inductive Body : Type :=
  | BodyLate
  | BodyFailed (error : string)
  | BodyBytes (bytes : list ascii).

(** Whose models an endpoint on Vertex serves. *)
Inductive Publisher : Type := Google | OfAnthropic.

(** What one turn of the loop finds: the clock at its top, the keepalive ticks
    that came due while it waited and how a send of each would go, what it
    read and when, how a send of what it has for the client would go, and the
    clock after. *)
Record Pass : Type := {
  at_top : Z;
  ticks : list Sent;
  next : Read;
  read_at : Z;
  sent : Sent;
  sent_at : Z
}.

(** How the sends after the loop go, and the clock at the end. *)
Record Farewell : Type := { fw_error : Sent; fw_done : Sent; fw_total : Z }.

(** What the client's channel took. *)
Inductive Write : Type :=
  | WKeepalive
  | WData (bytes : list ascii)
  | WError (frame : string)
  | WDone (frame : string).

(** The pump's variables. *)
Record Pumping : Type := {
  pu_acc : StreamAccumulator;
  pu_ttft : option Z;
  pu_gone : bool;
  pu_signals : nat;
  pu_error : option Failure;
  pu_in_band : option string;
  pu_pending : list ascii;
  pu_render : Renderer;
  pu_writes : list Write
}.

Record PumpOutcome : Type := {
  po_accumulator : StreamAccumulator;
  po_ttft : option Z;
  po_total : Z;
  po_client_gone : bool;
  po_error : option Failure
}.

(** A run that has used up its environment is still waiting. *)
Inductive Run (A : Type) : Type := Waiting | Panicked | Finished (a : A).
Arguments Waiting {A}.
Arguments Panicked {A}.
Arguments Finished {A} a.

Module Pump.
Import Js Wire.

Definition MAX_PENDING : Z := 8 * 1024 * 1024.

(** [Duration::as_secs]. *)
Definition as_secs (d : Z) : Z := d / 1000000000.

Definition failure_text (d : Deadlines) (f : Failure) : string :=
  match f with
  | TooLong => "stream exceeded " +:+ Str.decimal (as_secs (dl_max d)) +:+ "s"
  | IdleFor => "upstream idle for " +:+ Str.decimal (as_secs (dl_idle d)) +:+ "s"
  | ReadFailed e => "upstream read failed: " +:+ e
  | Oversized n => "upstream sent " +:+ Str.decimal n +:+ " bytes without completing an event"
  | InBand message => "upstream stream error: " +:+ message
  | ClosedEarly => "upstream closed before the response was complete"
  end.

Section pump.
Context `{ProviderAdapter}.
(** Printing and parsing JSON, and the lossy decoding and base64 the binary
    framings use, are the packages' own. *)
Context (to_string : Json → string) (from_str : string → option Json) (from_utf8_lossy : list ascii → string)
  (from_json : list ascii → option Json) (base64_decode : string → option (list ascii)).

(** ** Rendering *)

Definition renderer (egress : Egress) : Renderer :=
  match egress with
  | Passthrough _ _ _ => RenderNone
  | ToChatCompletions request_id model => RenderChatCompletions (OpenAIStream.new request_id model)
  | ToAnthropicMessages request_id model => RenderAnthropic (AnthropicStream.new request_id model)
  | ToGemini => RenderGemini Gemini.new
  | ToResponses request_id model => RenderResponses (ResponsesStream.new request_id model)
  end.

Definition for_dialect (dialect : Dialect) (request_id model : string) : option Renderer :=
  match dialect with
  | OpenAIChatCompletions => Some (RenderChatCompletions (OpenAIStream.new request_id model))
  | AnthropicMessages => Some (RenderAnthropic (AnthropicStream.new request_id model))
  | GeminiGenerateContent => Some (RenderGemini Gemini.new)
  | OpenAIResponses => Some (RenderResponses (ResponsesStream.new request_id model))
  | _ => None
  end.

Definition render (r : Renderer) (e : StreamEvent) : option string * Renderer :=
  match r with
  | RenderNone => (None, r)
  | RenderChatCompletions st =>
      let '(out, st) := OpenAIStream.render_event to_string e st in (out, RenderChatCompletions st)
  | RenderAnthropic st =>
      let '(out, st) := AnthropicStream.render_event to_string e st in (out, RenderAnthropic st)
  | RenderGemini st => let '(out, st) := Gemini.render_event to_string from_str e st in (out, RenderGemini st)
  | RenderResponses st =>
      let '(out, st) := ResponsesStream.render_event to_string e st in (out, RenderResponses st)
  end.

(** The frame that reports a failure, through the live renderer -- or, where
    bytes are passed through, one of the client's dialect made for it. *)
Definition error_frame (egress : Egress) (r : Renderer) (message : string) : option string :=
  let event := EvError message in
  match egress with
  | Passthrough dialect request_id model =>
      match for_dialect dialect request_id model with
      | Some r => (render r event).1
      | None => None
      end
  | _ => (render r event).1
  end.

(** ** Folding payloads *)

Definition is_content (e : StreamEvent) : bool :=
  match e with EvTextDelta _ | EvThinkingDelta _ | EvToolUseStart _ _ => true | _ => false end.

Record Folded : Type := {
  fo_acc : StreamAccumulator;
  fo_render : Renderer;
  fo_in_band : option string;
  fo_content : bool;
  fo_out : list ascii
}.

Definition fold_event (x : Folded) (e : StreamEvent) : Folded :=
  let '(frame, render) := render (fo_render x) e in {|
  fo_acc := Stream.observe (fo_acc x) e;
  fo_render := render;
  fo_in_band := match fo_in_band x, e with None, EvError message => Some message | b, _ => b end;
  fo_content := fo_content x || is_content e;
  fo_out := fo_out x ++ Str.bytes (default "" frame) |}.

Definition with_acc (x : Folded) (acc : StreamAccumulator) : Folded := {|
  fo_acc := acc; fo_render := fo_render x; fo_in_band := fo_in_band x; fo_content := fo_content x;
  fo_out := fo_out x |}.

Definition fold_payload (x : Folded) (payload : string) : Folded :=
  let '(parsed, acc) := parse_event payload (fo_acc x) in
  match parsed with
  | Ok events => fold_left fold_event events (with_acc x acc)
  | Err _ => with_acc x acc
  end.

Definition fold_payloads (payloads : list string) (acc : StreamAccumulator) (render : Renderer)
    (in_band : option string) : Folded :=
  fold_left fold_payload payloads {| fo_acc := acc; fo_render := render; fo_in_band := in_band;
    fo_content := false; fo_out := [] |}.

Definition payload_text (p : EventStream.Payload) : string :=
  match p with EventStream.Printed v => to_string v | EventStream.Verbatim text => text end.

(** [take_payloads] of what is pending; [None] is a panic of the binary
    decoder. *)
Definition take (pending : list ascii) : option (list string * list ascii) :=
  match Frames.take_payloads from_utf8_lossy from_json base64_decode framing pending with
  | Some (ps, rest) => Some (map payload_text ps, rest)
  | None => None
  end.

(** ** The loop *)

Definition is_empty (l : list ascii) : bool := match l with [] => true | _ => false end.

Definition mark_gone (p : Pumping) : Pumping := {|
  pu_acc := pu_acc p; pu_ttft := pu_ttft p; pu_gone := true;
  pu_signals := if pu_gone p then pu_signals p else S (pu_signals p);
  pu_error := pu_error p; pu_in_band := pu_in_band p; pu_pending := pu_pending p;
  pu_render := pu_render p; pu_writes := pu_writes p |}.

Definition wrote (p : Pumping) (acc : StreamAccumulator) (w : Write) : Pumping := {|
  pu_acc := acc; pu_ttft := pu_ttft p; pu_gone := pu_gone p; pu_signals := pu_signals p;
  pu_error := pu_error p; pu_in_band := pu_in_band p; pu_pending := pu_pending p;
  pu_render := pu_render p; pu_writes := pu_writes p ++ [w] |}.

Definition fail (p : Pumping) (f : Failure) : Pumping := {|
  pu_acc := pu_acc p; pu_ttft := pu_ttft p; pu_gone := pu_gone p; pu_signals := pu_signals p;
  pu_error := Some f; pu_in_band := pu_in_band p; pu_pending := pu_pending p;
  pu_render := pu_render p; pu_writes := pu_writes p |}.

(** A send of something of the answer, and of something else. *)
Definition send_data (p : Pumping) (s : Sent) (bytes : list ascii) : Pumping :=
  match s with
  | Accepted => wrote p (Stream.mark_committed (pu_acc p)) (WData bytes)
  | _ => mark_gone p
  end.

Definition send_keepalive (p : Pumping) (s : Sent) : Pumping :=
  match s with
  | Accepted => wrote p (pu_acc p) WKeepalive
  | _ => mark_gone p
  end.

(** A tick is taken only between frames and with a client to take it. *)
Definition tick (p : Pumping) (s : Sent) : Pumping :=
  if negb (pu_gone p) && is_empty (pu_pending p) then send_keepalive p s else p.

Definition absorb (p : Pumping) (x : Folded) (pending : list ascii) (now : Z) : Pumping := {|
  pu_acc := fo_acc x;
  pu_ttft := match pu_ttft p with None => if fo_content x then Some now else None | t => t end;
  pu_gone := pu_gone p; pu_signals := pu_signals p; pu_error := pu_error p;
  pu_in_band := fo_in_band x; pu_pending := pending; pu_render := fo_render x;
  pu_writes := pu_writes p |}.

Definition clear_pending (p : Pumping) : Pumping := {|
  pu_acc := pu_acc p; pu_ttft := pu_ttft p; pu_gone := pu_gone p; pu_signals := pu_signals p;
  pu_error := pu_error p; pu_in_band := pu_in_band p; pu_pending := [];
  pu_render := pu_render p; pu_writes := pu_writes p |}.

(** Whether the loop goes round again. *)
Inductive Turn : Type := Again (p : Pumping) | Break (p : Pumping) | Crash.

Definition bounded (p : Pumping) : Turn :=
  if MAX_PENDING <? Z.of_nat (length (pu_pending p))
  then Break (clear_pending (fail p (Oversized (Z.of_nat (length (pu_pending p))))))
  else Again p.

Definition outbound (egress : Egress) (chunk : list ascii) (x : Folded) : list ascii :=
  match egress with Passthrough _ _ _ => chunk | _ => fo_out x end.

Definition take_chunk (d : Deadlines) (egress : Egress) (p : Pumping) (s : Pass) (chunk : list ascii) : Turn :=
  match take (pu_pending p ++ chunk) with
  | None => Crash
  | Some (payloads, pending) =>
      let x := fold_payloads payloads (pu_acc p) (pu_render p) (pu_in_band p) in
      let p := absorb p x pending (read_at s) in
      let out := outbound egress chunk x in
      if negb (is_empty out) && negb (pu_gone p) then
        let p := send_data p (sent s) out in
        if dl_max d <=? sent_at s then Break (fail p TooLong) else bounded p
      else bounded p
  end.

Definition turn (d : Deadlines) (egress : Egress) (p : Pumping) (s : Pass) : Turn :=
  if dl_max d <=? at_top s then Break (fail p TooLong)
  else
    let p := fold_left tick (ticks s) p in
    match next s with
    | ReadIdle => Break (fail p IdleFor)
    | ReadEnd => Break p
    | ReadError e => Break (fail p (ReadFailed e))
    | ReadBytes chunk => take_chunk d egress p s chunk
    end.

Fixpoint loop (d : Deadlines) (egress : Egress) (p : Pumping) (env : list Pass) : Run Pumping :=
  match env with
  | [] => Waiting
  | s :: env =>
      match turn d egress p s with
      | Again p => loop d egress p env
      | Break p => Finished p
      | Crash => Panicked
      end
  end.

(** ** After the loop *)

(** What is left is tried once more. *)
Definition fold_tail (p : Pumping) : Run Pumping :=
  match pu_pending p with
  | [] => Finished p
  | pending =>
      match take pending with
      | None => Panicked
      | Some (payloads, rest) =>
          let x := fold_payloads payloads (pu_acc p) (pu_render p) (pu_in_band p) in
          Finished {| pu_acc := fo_acc x; pu_ttft := pu_ttft p; pu_gone := pu_gone p;
            pu_signals := pu_signals p; pu_error := pu_error p; pu_in_band := fo_in_band x;
            pu_pending := rest; pu_render := fo_render x; pu_writes := pu_writes p |}
      end
  end.

Definition complete (p : Pumping) : bool := bool_decide (is_Some (stop_reason (pu_acc p))).

Definition final_error (p : Pumping) : option Failure :=
  match pu_in_band p with
  | Some message => Some (InBand message)
  | None =>
      match pu_error p with
      | Some f => Some f
      | None => if complete p then None else Some ClosedEarly
      end
  end.

(** What the client is told: the failure, or that the answer is whole. *)
Definition farewell_error (d : Deadlines) (egress : Egress) (p : Pumping) : option string :=
  if negb (complete p) && negb (pu_gone p) && bool_decide (pu_in_band p = None) then
    match final_error p with
    | Some f => error_frame egress (pu_render p) (failure_text d f)
    | None => None
    end
  else None.

Definition farewell_done (egress : Egress) (p : Pumping) : option string :=
  match egress with
  | ToChatCompletions _ _ =>
      if negb (pu_gone p) && complete p then Some OpenAIStream.done_frame else None
  | _ => None
  end.

Definition taken (s : Sent) (w : option Write) : list Write :=
  match s with Accepted => option_list w | _ => [] end.

Definition conclude (d : Deadlines) (egress : Egress) (fw : Farewell) (p : Pumping)
    : PumpOutcome * list Write :=
  ({| po_accumulator := pu_acc p; po_ttft := pu_ttft p; po_total := fw_total fw;
      po_client_gone := pu_gone p; po_error := final_error p |},
   pu_writes p ++ taken (fw_error fw) (WError <$> farewell_error d egress p)
     ++ taken (fw_done fw) (WDone <$> farewell_done egress p)).

Definition start (egress : Egress) (names : Names.FunctionNameMap) : Pumping := {|
  pu_acc := Stream.with_function_names Stream.new names; pu_ttft := None; pu_gone := false;
  pu_signals := 0; pu_error := None; pu_in_band := None; pu_pending := [];
  pu_render := renderer egress; pu_writes := [] |}.

(** [pump_with]: the outcome, and what the client was sent. *)
Definition pump_with (d : Deadlines) (egress : Egress) (names : Names.FunctionNameMap)
    (env : list Pass) (fw : Farewell) : Run (PumpOutcome * list Write) :=
  match loop d egress (start egress names) env with
  | Waiting => Waiting
  | Panicked => Panicked
  | Finished p =>
      match fold_tail p with
      | Waiting => Waiting
      | Panicked => Panicked
      | Finished p => Finished (conclude d egress fw p)
      end
  end.

(** ** Reading a stream for a client that wants one body *)

Definition error_of (e : StreamEvent) : option string :=
  match e with EvError message => Some message | _ => None end.

(** The reader's variables: the accumulator, the events, what is pending. *)
Record Collecting : Type := {
  co_acc : StreamAccumulator;
  co_events : list StreamEvent;
  co_pending : list ascii
}.

Definition collect_payload (x : StreamAccumulator * list StreamEvent) (payload : string)
    : StreamAccumulator * list StreamEvent :=
  let '(parsed, acc) := parse_event payload x.1 in
  match parsed with
  | Ok parsed => (Stream.observe_all acc parsed, x.2 ++ parsed)
  | Err _ => (acc, x.2)
  end.

Definition collect_payloads (payloads : list string) (acc : StreamAccumulator) (events : list StreamEvent)
    : StreamAccumulator * list StreamEvent :=
  fold_left collect_payload payloads (acc, events).

Inductive CollectTurn : Type :=
  | CollectAgain (c : Collecting)
  | CollectEnd (c : Collecting)
  | CollectFail (f : Failure) (acc : StreamAccumulator)
  | CollectCrash.

Definition collect_turn (d : Deadlines) (c : Collecting) (s : Pass) : CollectTurn :=
  if dl_max d <=? at_top s then CollectFail TooLong (co_acc c)
  else
    match next s with
    | ReadIdle => CollectFail IdleFor (co_acc c)
    | ReadEnd => CollectEnd c
    | ReadError e => CollectFail (ReadFailed e) (co_acc c)
    | ReadBytes chunk =>
        match take (co_pending c ++ chunk) with
        | None => CollectCrash
        | Some (payloads, pending) =>
            let '(acc, events) := collect_payloads payloads (co_acc c) (co_events c) in
            if MAX_PENDING <? Z.of_nat (length pending)
            then CollectFail (Oversized (Z.of_nat (length pending))) acc
            else CollectAgain {| co_acc := acc; co_events := events; co_pending := pending |}
        end
    end.

(** Whether what was read is an answer. *)
Definition judged (x : StreamAccumulator * list StreamEvent)
    : result (list StreamEvent * StreamAccumulator) (Failure * StreamAccumulator) :=
  let '(acc, events) := x in
  match filter_map error_of events with
  | message :: _ => Err (InBand message, acc)
  | [] => match stop_reason acc with
          | None => Err (ClosedEarly, acc)
          | Some _ => Ok (events, acc)
          end
  end.

(** What is left is tried once more, and the answer judged. *)
Definition collect_finish (c : Collecting)
    : Run (result (list StreamEvent * StreamAccumulator) (Failure * StreamAccumulator)) :=
  match co_pending c with
  | [] => Finished (judged (co_acc c, co_events c))
  | pending =>
      match take pending with
      | None => Panicked
      | Some (payloads, _) => Finished (judged (collect_payloads payloads (co_acc c) (co_events c)))
      end
  end.

Fixpoint collect_loop (d : Deadlines) (c : Collecting) (env : list Pass)
    : Run (result (list StreamEvent * StreamAccumulator) (Failure * StreamAccumulator)) :=
  match env with
  | [] => Waiting
  | s :: env =>
      match collect_turn d c s with
      | CollectAgain c => collect_loop d c env
      | CollectEnd c => collect_finish c
      | CollectFail f acc => Finished (Err (f, acc))
      | CollectCrash => Panicked
      end
  end.

Definition collect_stream_with (d : Deadlines) (names : Names.FunctionNameMap) (env : list Pass)
    : Run (result (list StreamEvent * StreamAccumulator) (Failure * StreamAccumulator)) :=
  collect_loop d {| co_acc := Stream.with_function_names Stream.new names; co_events := [];
    co_pending := [] |} env.

(** ** Taking payloads *)

Lemma take_total b : ∃ ps r, take b = Some (ps, r) ∧ take r = Some ([], r).
Proof.
  unfold take, Frames.take_payloads. destruct framing.
  - destruct (SseFrames.take_sse_payloads b) as [ps r] eqn:E.
    eexists _, _. split; [done|]. by rewrite (SseFrames.left_over_waits _ _ _ E).
  - unfold Frames.events. destruct (EventStream.take_messages_total from_utf8_lossy b) as (ms & l & E).
    rewrite E. eexists _, _. split; [done|].
    by rewrite EventStream.take_messages_front, (EventStream.take_messages_waits from_utf8_lossy _ _ _ E).
  - unfold Frames.events. destruct (EventStream.take_messages_total from_utf8_lossy b) as (ms & l & E).
    rewrite E. eexists _, _. split; [done|].
    by rewrite EventStream.take_messages_front, (EventStream.take_messages_waits from_utf8_lossy _ _ _ E).
Qed.

Lemma take_rest b ps r : take b = Some (ps, r) → take r = Some ([], r).
Proof. intros E. destruct (take_total b) as (ps' & r' & E' & Hr). rewrite E in E'. by injection E' as -> ->. Qed.

Lemma take_nil : take [] = Some ([], []).
Proof. unfold take, Frames.take_payloads. by destruct framing. Qed.

End pump.

(** ** The adapters

    Each reads a payload in its provider's dialect; Bedrock's binary envelope is
    off by then. *)

Section adapters.
Context (parse : string → option Json).

(** Of the readers that leave the accumulator alone. *)
Definition unchanged (f : string → StreamAccumulator → result (list StreamEvent) Error)
    (raw : string) (acc : StreamAccumulator) : result (list StreamEvent) Error * StreamAccumulator :=
  (f raw acc, acc).

Definition anthropic_adapter : ProviderAdapter :=
  {| framing := Sse; parse_event := unchanged (Anthropic.parse_event parse) |}.

Definition bedrock_adapter : ProviderAdapter :=
  {| framing := AwsEventStream; parse_event := unchanged (Anthropic.parse_event parse) |}.

Definition codex_adapter : ProviderAdapter :=
  {| framing := Sse; parse_event := unchanged (Responses.parse_event parse) |}.

(** Of those that may change it. *)
Definition changing
    (f : string → StreamAccumulator → result (list StreamEvent * StreamAccumulator) Error)
    (raw : string) (acc : StreamAccumulator) : result (list StreamEvent) Error * StreamAccumulator :=
  match f raw acc with
  | Ok (events, acc) => (Ok events, acc)
  | Err e => (Err e, acc)
  end.

Definition openai_adapter : ProviderAdapter :=
  {| framing := Sse; parse_event := changing (OpenAI.parse_event parse) |}.

Definition azure_adapter : ProviderAdapter :=
  {| framing := Sse; parse_event := changing (OpenAI.parse_event parse) |}.

Definition converse_adapter : ProviderAdapter :=
  {| framing := AwsConverseStream; parse_event := changing (Converse.parse_event parse) |}.

Context (to_string : Json → string).

Definition gemini_adapter : ProviderAdapter :=
  {| framing := Sse; parse_event := unchanged (Gemini.parse_event to_string parse) |}.

Definition vertex_adapter (publisher : Publisher) : ProviderAdapter := {|
  framing := Sse;
  parse_event := match publisher with
    | Google => unchanged (Gemini.parse_event to_string parse)
    | OfAnthropic => unchanged (Anthropic.parse_event parse)
    end |}.

(** ** Reading a whole body *)

(** [serde_json::from_slice], and the text of the error where it fails. *)
Context (from_slice : list ascii → option Json) (slice_error : list ascii → string).

Definition read_body (dialect : Dialect) (v : Json) : option (list StreamEvent) :=
  match dialect with
  | AnthropicMessages => Some (Anthropic.parse_response to_string v)
  | OpenAIChatCompletions => Some (OpenAI.parse_response v)
  | GeminiGenerateContent => Some (Gemini.parse_response to_string v)
  | OpenAIResponses => Some (Responses.parse_response v)
  | BedrockConverse => Some (Converse.parse_response to_string v)
  | SystemOne => None
  end.

Definition collect_with (body : Body) (dialect : Dialect) (names : Names.FunctionNameMap) (max_duration : Z)
    : result (list ascii * list StreamEvent * StreamAccumulator) Error :=
  match body with
  | BodyLate => Err (Internal ("upstream response body not complete after "
      +:+ Str.decimal (as_secs max_duration) +:+ "s"))
  | BodyFailed e => Err (Internal ("reading upstream response: " +:+ e))
  | BodyBytes bytes =>
      let? v := ok_or (from_slice bytes)
        (Internal ("a successful upstream response was not JSON: " +:+ slice_error bytes)) in
      let? events := ok_or (read_body dialect v) (Internal "no non-streaming reader for the SystemOne dialect") in
      let events := Stream.restore_in_events names events in
      Ok (bytes, events,
        Stream.observe_all (Stream.with_function_names Stream.new names) events)
  end.
End adapters.

End Pump.
