(* ===== verification/Pumped.v ===== *)
(** * What the pump promises

    Theorems of [Pump]: the accounting does not depend on the client, the
    reader without a client agrees with it, a run ends, a client is told how it
    ended exactly once, and what is written between -- bytes passed through and
    keepalives -- reads as what the upstream sent. *)

From Stdlib Require Import Ascii.
From S2P Require Import Prelude Text Money Domain Efforts Catalog Cost.
From S2P Require Import Ladder Classify Budget Policy Canonical Wire Names Stream.
From S2P Require Import Anthropic AnthropicStream Frames Converse OpenAI OpenAIStream Gemini Responses ResponsesStream Pump.
#[local] Open Scope string_scope.
#[local] Open Scope oag_scope.
#[local] Open Scope list_scope.
#[local] Open Scope Z_scope.

Module Pumped.
Import Js Wire Pump.

(** An accumulator but for whether anything of the answer went out. *)
Definition forget (a : StreamAccumulator) : StreamAccumulator :=
  Stream.set_flags a false (unparsed a) (saw_refusal a) (held_stop a).

(** What an adapter owes the pump: its reading of a payload takes no notice of
    whether the client has been sent anything, and leaves the stop to the
    events it returns. *)
Class Lawful `{ProviderAdapter} : Prop := {
  parse_forgets payload a :
    parse_event payload (forget a) =
      (let '(parsed, a') := parse_event payload a in (parsed, forget a'));
  parse_keeps_stop payload a : stop_reason (parse_event payload a).2 = stop_reason a
}.

Lemma forget_observe a e : forget (Stream.observe a e) = Stream.observe (forget a) e.
Proof. by destruct e. Qed.

Lemma forget_observe_all a es : forget (Stream.observe_all a es) = Stream.observe_all (forget a) es.
Proof.
  unfold Stream.observe_all. revert a; induction es as [|e es IH]; intros a; [done|]. cbn.
  by rewrite IH, forget_observe.
Qed.

Lemma forget_stop a b : forget a = forget b → stop_reason a = stop_reason b.
Proof. intros E. by apply (f_equal stop_reason) in E. Qed.

(** Two accounts that differ in [committed] alone. *)
Definition alike (a b : StreamAccumulator) : Prop := forget a = forget b.

#[local] Instance alike_equivalence : Equivalence alike.
Proof.
  unfold alike. split; [by intros a|by intros a b|]. intros a b c -> . done.
Qed.

Lemma alike_committed a : alike (Stream.mark_committed a) a.
Proof. done. Qed.

Section pumped.
Context `{Lawful}.
Context (to_string : Json → string) (from_str : string → option Json) (from_utf8_lossy : list ascii → string)
  (from_json : list ascii → option Json) (base64_decode : string → option (list ascii)).
#[local] Abbreviation take := (Pump.take to_string from_utf8_lossy from_json base64_decode).
#[local] Abbreviation fold_payloads := (Pump.fold_payloads to_string from_str).
#[local] Abbreviation fold_payload := (Pump.fold_payload to_string from_str).
#[local] Abbreviation fold_event := (Pump.fold_event to_string from_str).
#[local] Abbreviation turn := (Pump.turn to_string from_str from_utf8_lossy from_json base64_decode).
#[local] Abbreviation take_chunk := (Pump.take_chunk to_string from_str from_utf8_lossy from_json base64_decode).
#[local] Abbreviation loop := (Pump.loop to_string from_str from_utf8_lossy from_json base64_decode).
#[local] Abbreviation fold_tail := (Pump.fold_tail to_string from_str from_utf8_lossy from_json base64_decode).
#[local] Abbreviation pump_with := (Pump.pump_with to_string from_str from_utf8_lossy from_json base64_decode).
#[local] Abbreviation conclude := (Pump.conclude to_string from_str).
#[local] Abbreviation collect_turn := (Pump.collect_turn to_string from_utf8_lossy from_json base64_decode).
#[local] Abbreviation collect_loop := (Pump.collect_loop to_string from_utf8_lossy from_json base64_decode).
#[local] Abbreviation collect_stream_with :=
  (Pump.collect_stream_with to_string from_utf8_lossy from_json base64_decode).

(** ** Folding *)

Lemma parse_alike payload a b :
  alike a b → (parse_event payload a).1 = (parse_event payload b).1 ∧
    alike (parse_event payload a).2 (parse_event payload b).2.
Proof.
  unfold alike. intros E. pose proof (parse_forgets payload a) as Ha. pose proof (parse_forgets payload b) as Hb.
  rewrite E in Ha. rewrite Ha in Hb. destruct (parse_event payload a), (parse_event payload b). cbn in *.
  split; [exact (f_equal fst Hb)|exact (f_equal snd Hb)].
Qed.

(** The first error among events, after what was found before. *)
Definition first_error (b : option string) (es : list StreamEvent) : option string :=
  match b with Some m => Some m | None => head (filter_map error_of es) end.

Lemma first_error_app b es fs : first_error b (es ++ fs) = first_error (first_error b es) fs.
Proof.
  unfold first_error. destruct b; [done|]. rewrite filter_map_app. by destruct (filter_map error_of es).
Qed.

Lemma fold_events es x :
  let y := fold_left fold_event es x in
  fo_acc y = Stream.observe_all (fo_acc x) es ∧ fo_in_band y = first_error (fo_in_band x) es ∧
  fo_content y = fo_content x || any is_content es.
Proof.
  revert x; induction es as [|e es IH]; intros x; cbn [fold_left].
  { cbn. unfold first_error. rewrite orb_false_r. by destruct (fo_in_band x). }
  destruct (IH (fold_event x e)) as (-> & -> & ->). unfold Pump.fold_event.
  destruct (Pump.render _ _ _ _) as [frame r]. cbn [fo_acc fo_in_band fo_content]. split_and!; [done| |].
  - unfold first_error. cbn [filter_map]. destruct (fo_in_band x), e; done.
  - unfold any. cbn. by rewrite orb_assoc.
Qed.

(** The pump's fold and the reader's, from the same account but for the
    client. *)
Lemma fold_one x payload a es :
  alike (fo_acc x) a →
  let y := fold_payload x payload in
  let '(b, fs) := collect_payload (a, es) payload in
  ∃ new, fs = es ++ new ∧ alike (fo_acc y) b ∧ fo_in_band y = first_error (fo_in_band x) new ∧
    fo_content y = fo_content x || any is_content new.
Proof.
  intros Ha y. unfold y, Pump.fold_payload, collect_payload. cbn [fst snd].
  destruct (parse_alike payload _ _ Ha) as [E Hp].
  destruct (parse_event payload (fo_acc x)) as [r a1], (parse_event payload a) as [r' a2].
  cbn [fst snd] in *. subst r'. destruct r as [new|e].
  - exists new. destruct (fold_events new (with_acc x a1)) as (Hf & Hb & Hc). split_and!; try done.
    rewrite Hf. unfold alike in *. cbn [fo_acc with_acc]. by rewrite !forget_observe_all, Hp.
  - exists []. rewrite app_nil_r. cbn. rewrite orb_false_r. split_and!; try done.
    unfold first_error. by destruct (fo_in_band x).
Qed.

Lemma fold_all ps x a es :
  alike (fo_acc x) a →
  let y := fold_left fold_payload ps x in
  let '(b, fs) := fold_left collect_payload ps (a, es) in
  ∃ new, fs = es ++ new ∧ alike (fo_acc y) b ∧ fo_in_band y = first_error (fo_in_band x) new ∧
    fo_content y = fo_content x || any is_content new.
Proof.
  revert x a es; induction ps as [|p ps IH]; intros x a es Ha; cbn [fold_left].
  { exists []. rewrite app_nil_r. cbn. rewrite orb_false_r. split_and!; try done.
    unfold first_error. by destruct (fo_in_band x). }
  pose proof (fold_one x p a es Ha) as H1. destruct (collect_payload (a, es) p) as [b fs].
  destruct H1 as (new & -> & Hb & Hi & Hc). specialize (IH _ b (es ++ new) Hb).
  destruct (fold_left collect_payload ps (b, es ++ new)) as [b' fs'].
  destruct IH as (new' & -> & Hb' & Hi' & Hc'). exists (new ++ new').
  rewrite app_assoc, Hi', Hi, first_error_app, Hc', Hc, <-orb_assoc. split_and!; try done.
  f_equal. unfold any. by rewrite existsb_app.
Qed.

(** ** The pump and the reader, turn by turn *)

Record tracks (p : Pumping) (c : Collecting) : Prop := {
  t_acc : alike (pu_acc p) (co_acc c);
  t_in_band : pu_in_band p = first_error None (co_events c);
  t_pending : pu_pending p = co_pending c;
  t_error : pu_error p = None;
  t_rest : take (pu_pending p) = Some ([], pu_pending p)
}.

Lemma tracks_tick p c s : tracks p c → tracks (tick p s) c.
Proof.
  intros [Ha Hi Hp He Hr]. unfold tick. destruct (negb (pu_gone p) && is_empty (pu_pending p)); [|done].
  unfold send_keepalive. by destruct s.
Qed.

Lemma tracks_ticks l p c : tracks p c → tracks (fold_left tick l p) c.
Proof. revert p; induction l as [|s l IH]; intros p H1; [done|]. apply IH. by apply tracks_tick. Qed.

Lemma ticks_keep l p :
  let q := fold_left tick l p in
  pu_acc q = pu_acc p ∧ pu_ttft q = pu_ttft p ∧ pu_error q = pu_error p ∧ pu_in_band q = pu_in_band p ∧
  pu_pending q = pu_pending p ∧ pu_render q = pu_render p.
Proof.
  revert p; induction l as [|s l IH]; intros p; [done|]. cbn.
  destruct (IH (tick p s)) as (-> & -> & -> & -> & -> & ->). unfold tick.
  destruct (negb (pu_gone p) && is_empty (pu_pending p)); [|done]. unfold send_keepalive. by destruct s.
Qed.

Definition ttft_after (t : option Z) (content : bool) (now : Z) : option Z :=
  match t with None => if content then Some now else None | t => t end.

(** What a chunk that was read does to both, and the one way a client ends the
    loop: by holding a send past the ceiling. *)
Lemma chunk_tracks d egress p c s chunk :
  tracks p c →
  ∃ payloads pending, take (co_pending c ++ chunk) = Some (payloads, pending) ∧
  let '(acc, events) := collect_payloads payloads (co_acc c) (co_events c) in
  ∃ p', (take_chunk d egress p s chunk = bounded p' ∨
      dl_max d ≤ sent_at s ∧ take_chunk d egress p s chunk = Break (fail p' TooLong)) ∧
    tracks p' {| co_acc := acc; co_events := events; co_pending := pending |} ∧
    ∃ new, events = co_events c ++ new ∧ pu_ttft p' = ttft_after (pu_ttft p) (any is_content new) (read_at s).
Proof.
  intros [Ha Hi Hp He Hr].
  destruct (take_total to_string from_utf8_lossy from_json base64_decode (co_pending c ++ chunk))
    as (payloads & pending & Ht & Hrest).
  exists payloads, pending. split; [done|]. unfold collect_payloads.
  set (x0 := {| fo_acc := pu_acc p; fo_render := pu_render p; fo_in_band := pu_in_band p;
    fo_content := false; fo_out := [] |}).
  pose proof (fold_all payloads x0 (co_acc c) (co_events c) Ha) as Hf.
  destruct (fold_left collect_payload payloads (co_acc c, co_events c)) as [acc events].
  destruct Hf as (new & -> & Hb & Hin & Hc).
  set (x := fold_payloads payloads (pu_acc p) (pu_render p) (pu_in_band p)).
  change (fold_left fold_payload payloads x0) with x in *.
  set (q := absorb p x pending (read_at s)).
  assert (tracks q {| co_acc := acc; co_events := co_events c ++ new; co_pending := pending |}) as Hq.
  { split; cbn; try done. rewrite Hin. cbn [fo_in_band x0]. rewrite Hi. by rewrite <-first_error_app. }
  assert (pu_ttft q = ttft_after (pu_ttft p) (any is_content new) (read_at s)) as Htt.
  { unfold q, absorb, ttft_after. cbn [pu_ttft]. rewrite Hc. by destruct (pu_ttft p). }
  unfold Pump.take_chunk. rewrite Hp, Ht. fold x. fold q.
  destruct (negb (is_empty (outbound egress chunk x)) && negb (pu_gone q));
    [|exists q; split; [by left|]; split; [done|by exists new]].
  exists (send_data q (sent s) (outbound egress chunk x)). split.
  { destruct (Z.leb_spec (dl_max d) (sent_at s)); [by right|by left]. }
  destruct Hq as [Qa Qi Qp Qe Qr].
  unfold send_data. destruct (sent s); (split; [split; first [exact Qa|exact Qi|exact Qp|exact Qe|exact Qr]|by exists new]).
Qed.

(** The tail is tried again in vain. *)
Lemma tail_idle p : take (pu_pending p) = Some ([], pu_pending p) → fold_tail p = Finished p.
Proof.
  intros Hr. unfold Pump.fold_tail. destruct (pu_pending p) eqn:E; [done|]. rewrite Hr. cbn.
  destruct p; cbn in *; by subst.
Qed.

(** What the outcome of a run is, beside what the reader makes of it. *)
Definition agrees (p : Pumping)
    (r : result (list StreamEvent * StreamAccumulator) (Failure * StreamAccumulator)) : Prop :=
  match r with
  | Ok (events, acc) =>
      alike (pu_acc p) acc ∧ final_error p = None ∧ pu_in_band p = None
  | Err (f, acc) =>
      alike (pu_acc p) acc ∧ (final_error p = Some f ∨ ∃ message, final_error p = Some (InBand message))
  end.

Lemma failed_agrees p f acc :
  alike (pu_acc p) acc → agrees (fail p f) (Err (f, acc)).
Proof.
  intros Ha. split; [done|]. unfold final_error. cbn. destruct (pu_in_band p) as [m|]; [right; by exists m|by left].
Qed.

Lemma ended_agrees p c :
  tracks p c → ∃ r, Pump.collect_finish to_string from_utf8_lossy from_json base64_decode c = Finished r ∧ agrees p r.
Proof.
  intros [Ha Hi Hp He Hr]. unfold Pump.collect_finish. rewrite Hp in Hr.
  assert (agrees p (judged (co_acc c, co_events c))) as Hj.
  { unfold judged, agrees, final_error, first_error in *. rewrite Hi.
    destruct (filter_map error_of (co_events c)) as [|m ms].
    - cbn [head]. rewrite He. unfold complete. rewrite (forget_stop _ _ Ha).
      destruct (stop_reason (co_acc c)) as [st|]; cbn; [done|]. split; [done|by left].
    - split; [done|by left]. }
  destruct (co_pending c) eqn:E; [by eexists|]. rewrite Hr. eexists. split; [reflexivity|]. exact Hj.
Qed.

(** ** The pump and the reader, run by run *)

(** No send outlasts the ceiling on the whole stream. *)
Definition punctual (d : Deadlines) (s : Pass) : Prop := sent_at s < dl_max d.

Lemma bounded_agrees p c acc events pending :
  tracks p c → c = {| co_acc := acc; co_events := events; co_pending := pending |} →
  match bounded p with
  | Again p' => p' = p ∧ (MAX_PENDING <? Z.of_nat (length pending)) = false
  | Break p' => (MAX_PENDING <? Z.of_nat (length pending)) = true ∧ fold_tail p' = Finished p' ∧
      agrees p' (Err (Oversized (Z.of_nat (length pending)), acc))
  | Crash => False
  end.
Proof.
  intros [Ha Hi Hp He Hr] ->. cbn in *. unfold bounded. rewrite Hp.
  destruct (MAX_PENDING <? Z.of_nat (length pending)) eqn:E; [|done]. split; [done|]. split; [done|].
  apply (failed_agrees p). exact Ha.
Qed.

Lemma turn_agrees d egress p c s :
  tracks p c → punctual d s →
  match turn d egress p s, collect_turn d c s with
  | Again p', CollectAgain c' => tracks p' c' ∧
      ∃ new, co_events c' = co_events c ++ new ∧ pu_ttft p' = ttft_after (pu_ttft p) (any is_content new) (read_at s)
  | Break p', CollectEnd c' => c' = c ∧ tracks p' c ∧ pu_ttft p' = pu_ttft p
  | Break p', CollectFail f acc => fold_tail p' = Finished p' ∧ agrees p' (Err (f, acc))
  | _, _ => False
  end.
Proof.
  intros Ht Hs. unfold Pump.turn, Pump.collect_turn. destruct (dl_max d <=? at_top s).
  { split; [|apply failed_agrees, Ht]. apply tail_idle, Ht. }
  destruct (ticks_keep (ticks s) p) as (_ & Kt & _).
  apply (tracks_ticks (ticks s)) in Ht. set (q := fold_left tick (ticks s) p) in *.
  assert (∀ f, fold_tail (fail q f) = Finished (fail q f) ∧ agrees (fail q f) (Err (f, co_acc c))) as Hf.
  { intros f. split; [apply tail_idle, Ht|apply failed_agrees, Ht]. }
  destruct (next s) as [| |e|chunk]; [apply Hf|done|apply Hf|].
  destruct (chunk_tracks d egress q c s chunk Ht) as (payloads & pending & -> & Hc).
  destruct (collect_payloads payloads (co_acc c) (co_events c)) as [acc events].
  destruct Hc as (p' & [->|[Hlate _]] & Hp' & new & Hnew & Htt); [|unfold punctual in Hs; lia].
  pose proof (bounded_agrees p' _ acc events pending Hp' eq_refl) as Hb.
  destruct (bounded p') as [p2|p2|]; [|by destruct Hb as (-> & ? & ?)|done]. destruct Hb as [-> ->].
  split; [done|]. exists new. split; [done|]. by rewrite Htt, Kt.
Qed.

Lemma loop_agrees d egress env p c :
  tracks p c → Forall (punctual d) env →
  match loop d egress p env, collect_loop d c env with
  | Finished p', Finished r => fold_tail p' = Finished p' ∧ agrees p' r
  | Waiting, Waiting => True
  | _, _ => False
  end.
Proof.
  intros Ht Henv. revert p c Ht; induction Henv as [|s env Hs _ IH]; intros p c Ht; [done|].
  cbn [Pump.loop Pump.collect_loop]. pose proof (turn_agrees d egress p c s Ht Hs) as Hturn.
  destruct (turn d egress p s) as [p'|p'|], (collect_turn d c s) as [c'|c'|f acc|]; try done.
  - apply IH, Hturn.
  - destruct Hturn as (-> & Hp & _). destruct (ended_agrees p' c Hp) as (r & -> & Hr).
    split; [apply tail_idle, Hp|done].
Qed.

Lemma start_tracks egress names :
  tracks (start egress names) {| co_acc := Stream.with_function_names Stream.new names; co_events := [];
    co_pending := [] |}.
Proof. split; try done. apply take_nil. Qed.

(** The pump and the collector are one reader.  Over the same upstream and
    clock, provided no send to the client outlasts the stream's ceiling, the
    pump ends when the collector does, and: the collector returns an answer
    exactly when the pump's outcome has no error; either way both have the same
    account of it -- usage, text, calls, stop -- and when both fail it is with
    the same failure, but that the pump prefers the provider's own words where
    those came first and the connection failed after. *)
Theorem collector_agrees_with_pump d egress names env fw :
  Forall (punctual d) env →
  match pump_with d egress names env fw, collect_stream_with d names env with
  | Finished (o, _), Finished (Ok (_, acc)) => alike (po_accumulator o) acc ∧ po_error o = None
  | Finished (o, _), Finished (Err (f, acc)) => alike (po_accumulator o) acc ∧
      (po_error o = Some f ∨ ∃ message, po_error o = Some (InBand message))
  | Waiting, Waiting => True
  | _, _ => False
  end.
Proof.
  intros Henv. pose proof (loop_agrees d egress env _ _ (start_tracks egress names) Henv) as Hl.
  unfold Pump.pump_with, Pump.collect_stream_with. destruct (loop d egress (start egress names) env) as [| |p]; try done;
    match type of Hl with context [Pump.collect_loop _ _ _ _ d ?c env] =>
      destruct (collect_loop d c env) as [| |r] end; try done.
  destruct Hl as [-> Ha]. unfold Pump.conclude, agrees in *.
  destruct r as [[events acc]|[f acc]]; cbn [po_accumulator po_error]; [|exact Ha].
  destruct Ha as (Ha & -> & _). done.
Qed.

(** ** The upstream without a client *)

(** What has been heard of the upstream, and when the answer's first word was. *)
Record Heard : Type := { he_of : Collecting; he_ttft : option Z }.

Definition fresh (names : Names.FunctionNameMap) : Heard := {|
  he_of := {| co_acc := Stream.with_function_names Stream.new names; co_events := []; co_pending := [] |};
  he_ttft := None |}.

(** A read is accounted for in full, whoever is listening. *)
Definition hear (h : Heard) (s : Pass) : Heard :=
  match next s with
  | ReadBytes chunk =>
      match take (co_pending (he_of h) ++ chunk) with
      | Some (payloads, pending) =>
          let '(acc, events) := collect_payloads payloads (co_acc (he_of h)) (co_events (he_of h)) in
          {| he_of := {| co_acc := acc; co_events := events; co_pending := pending |};
             he_ttft := ttft_after (he_ttft h) (any is_content (List.skipn (length (co_events (he_of h))) events))
               (read_at s) |}
      | None => h
      end
  | _ => h
  end.

(** The upstream and the clock followed to where they end the stream, with
    nobody to send to: what was heard, and what broke it off, if anything
    did.  [None] is a stream still going. *)
Fixpoint drain (d : Deadlines) (h : Heard) (env : list Pass) : option (Heard * option Failure) :=
  match env with
  | [] => None
  | s :: env =>
      if dl_max d <=? at_top s then Some (h, Some TooLong)
      else match next s with
        | ReadIdle => Some (h, Some IdleFor)
        | ReadEnd => Some (h, None)
        | ReadError e => Some (h, Some (ReadFailed e))
        | ReadBytes _ =>
            let h := hear h s in
            let held := Z.of_nat (length (co_pending (he_of h))) in
            if MAX_PENDING <? held then Some (h, Some (Oversized held)) else drain d h env
        end
  end.

(** What is reported of a stream that was heard so far and broke off so: the
    provider's own words first, then what broke it off; and nothing only of an
    answer that reached its stop. *)
Definition verdict (h : Heard) (broke : option Failure) : option Failure :=
  match filter_map error_of (co_events (he_of h)) with
  | m :: _ => Some (InBand m)
  | [] =>
      match broke with
      | Some f => Some f
      | None => match stop_reason (co_acc (he_of h)) with Some _ => None | None => Some ClosedEarly end
      end
  end.

(** The outcome is that of what was heard. *)
Definition accounts (o : PumpOutcome) (h : Heard) (broke : option Failure) : Prop :=
  alike (po_accumulator o) (co_acc (he_of h)) ∧ po_ttft o = he_ttft h ∧ po_error o = verdict h broke.

(** [accounts], of the pump's variables when the loop is left. *)
Definition settled (p : Pumping) (h : Heard) (broke : option Failure) : Prop :=
  alike (pu_acc p) (co_acc (he_of h)) ∧ pu_ttft p = he_ttft h ∧ fold_tail p = Finished p ∧
  final_error p = verdict h broke.

Record follows (p : Pumping) (h : Heard) : Prop := {
  fl_tracks : tracks p (he_of h);
  fl_ttft : pu_ttft p = he_ttft h
}.

Lemma settled_fail p h f :
  follows p h → settled (fail p f) h (Some f).
Proof.
  intros [[Ha Hi Hp He Hr] Ht]. split_and!; [done|done|by apply tail_idle|].
  unfold final_error, verdict. cbn. rewrite Hi. unfold first_error.
  by destruct (filter_map error_of _).
Qed.

Lemma settled_end p h : follows p h → settled p h None.
Proof.
  intros [[Ha Hi Hp He Hr] Ht]. split_and!; [done|done|by apply tail_idle|].
  unfold final_error, verdict. rewrite Hi, He. unfold first_error, complete. rewrite (forget_stop _ _ Ha).
  destruct (filter_map error_of _); [|done]. by destruct (stop_reason (co_acc _)).
Qed.

Lemma settled_oversized p h :
  follows p h →
  match bounded p with
  | Again q => q = p ∧ (MAX_PENDING <? Z.of_nat (length (co_pending (he_of h)))) = false
  | Break q => (MAX_PENDING <? Z.of_nat (length (co_pending (he_of h)))) = true ∧
      settled q h (Some (Oversized (Z.of_nat (length (co_pending (he_of h))))))
  | Crash => False
  end.
Proof.
  intros Hf. unfold bounded. rewrite (t_pending _ _ (fl_tracks _ _ Hf)).
  destruct (MAX_PENDING <? _); [|done]. split; [done|].
  destruct (settled_fail p h (Oversized (Z.of_nat (length (co_pending (he_of h))))) Hf) as (A & T & _ & E).
  split_and!; [exact A|exact T|done|exact E].
Qed.

Lemma chunk_heard d egress p h s chunk :
  follows p h → next s = ReadBytes chunk →
  ∃ p', follows p' (hear h s) ∧
    (take_chunk d egress p s chunk = bounded p' ∨
     dl_max d ≤ sent_at s ∧ take_chunk d egress p s chunk = Break (fail p' TooLong)).
Proof.
  intros [Ht Htt] Hn. unfold hear. rewrite Hn.
  destruct (chunk_tracks d egress p (he_of h) s chunk Ht) as (payloads & pending & -> & Hc).
  destruct (collect_payloads payloads _ _) as [acc events].
  destruct Hc as (p' & Hor & Hp' & new & -> & Hnew). exists p'. split; [|done]. split; [done|].
  cbn [he_ttft]. by rewrite Hnew, Htt, skipn_app, skipn_all, Nat.sub_diag.
Qed.

Definition chunk_of (s : Pass) : option (list ascii) :=
  match next s with ReadBytes chunk => Some chunk | _ => None end.

(** A send that ends past the ceiling, of what a read brought. *)
Definition overheld (d : Deadlines) (s : Pass) : Prop := is_Some (chunk_of s) ∧ dl_max d ≤ sent_at s.

Lemma follows_ticks l p h : follows p h → follows (fold_left tick l p) h.
Proof.
  intros [Ht Htt]. split; [by apply tracks_ticks|]. destruct (ticks_keep l p) as (_ & -> & _). done.
Qed.

Lemma loop_settles d egress env p h :
  follows p h →
  match loop d egress p env with
  | Finished q =>
      (∃ g broke, drain d h env = Some (g, broke) ∧ settled q g broke) ∨
      (∃ before s after, env = before ++ s :: after ∧ overheld d s ∧ drain d h before = None ∧
        settled q (fold_left hear (before ++ [s]) h) (Some TooLong))
  | Waiting => drain d h env = None
  | Panicked => False
  end.
Proof.
  revert p h; induction env as [|s env IH]; intros p h Hf; [done|]. cbn [Pump.loop drain]. unfold Pump.turn.
  destruct (dl_max d <=? at_top s) eqn:Etop; [left; do 2 eexists; split; [done|by apply settled_fail]|].
  apply (follows_ticks (ticks s)) in Hf. set (q := fold_left tick (ticks s) p) in *. clearbody q.
  destruct (next s) as [| |e|chunk] eqn:En; try (left; do 2 eexists; split; [done|]).
  - by apply settled_fail.
  - by apply settled_end.
  - by apply settled_fail.
  - destruct (chunk_heard d egress q h s chunk Hf En) as (p' & Hp' & [->|[Hlate ->]]).
    + pose proof (settled_oversized p' _ Hp') as Hb. destruct (bounded p') as [r|r|]; [|by destruct Hb as [-> Hb]; left; do 2 eexists|done].
      destruct Hb as [-> Hsmall]. rewrite Hsmall. specialize (IH p' _ Hp').
      destruct (loop d egress p' env) as [| |r]; [done..|].
      destruct IH as [IH|(before & t & after & -> & Ht & Hd & Hs)]; [by left|right].
      exists (s :: before), t, after. split; [done|]. split; [done|]. split; [|done].
      cbn [drain]. by rewrite Etop, En, Hsmall.
    + right. exists [], s, env. split; [done|]. split; [split; [unfold chunk_of; by rewrite En|done]|].
      split; [done|]. by apply settled_fail.
Qed.

Lemma start_follows egress names : follows (start egress names) (fresh names).
Proof. split; [apply start_tracks|done]. Qed.

Definition same_upstream (s t : Pass) : Prop :=
  at_top s = at_top t ∧ next s = next t ∧ read_at s = read_at t.

Lemma drain_same d h env env' : Forall2 same_upstream env env' → drain d h env = drain d h env'.
Proof.
  intros Hs. revert h; induction Hs as [|s t env env' (E1 & E2 & E3) _ IH]; intros h; [done|]. cbn [drain].
  assert (hear h s = hear h t) as <- by (unfold hear; by rewrite E2, E3).
  rewrite E1, E2. by rewrite IH.
Qed.

(** C25. A client that disappears does not stop the accounting.  What a run
    comes to is what the upstream and the clock alone come to, followed with
    nobody to send to: the same account -- every field of the accumulator but
    whether anything was sent --, the same time to the first token, the same
    failure.  That reference is one for every client and every dialect: to
    read everything, stall, hang up at any point or never read a byte, to take
    keepalives or not makes no difference.  One thing a client can do, and the
    deadline of its sends lets it: hold a send past the stream's ceiling.  The
    run then ends there, and says so, with everything read till then accounted
    for, the read being sent included. *)
Theorem accounting_ignores_the_client d egress names env fw :
  let reference := drain d (fresh names) env in
  match pump_with d egress names env fw with
  | Finished (o, _) =>
      (∃ h broke, reference = Some (h, broke) ∧ accounts o h broke) ∨
      (∃ before s after, env = before ++ s :: after ∧ overheld d s ∧ drain d (fresh names) before = None ∧
        accounts o (fold_left hear (before ++ [s]) (fresh names)) (Some TooLong))
  | Waiting => reference = None
  | Panicked => False
  end ∧
  ∀ env', Forall2 same_upstream env env' → drain d (fresh names) env' = reference.
Proof.
  intros reference. split; [|intros env' Hs; symmetry; by apply drain_same].
  pose proof (loop_settles d egress env _ _ (start_follows egress names)) as Hl. unfold Pump.pump_with.
  destruct (loop d egress (start egress names) env) as [| |p]; [done..|].
  assert (∀ h broke, settled p h broke → accounts (conclude d egress fw p).1 h broke) as Ha.
  { by intros h broke (A & T & _ & E). }
  assert (fold_tail p = Finished p) as -> by (destruct Hl as [(? & ? & _ & _ & _ & E & _)|(? & ? & ? & _ & _ & _ & _ & _ & E & _)]; exact E).
  unfold Pump.conclude in *. cbn [fst] in Ha. destruct Hl as [(h & broke & E & Hs)|(before & s & after & E & Ho & Hd & Hs)].
  - left. exists h, broke. split; [done|]. by apply Ha.
  - right. exists before, s, after. split_and!; try done; by apply Ha.
Qed.

(** ** What the loop keeps *)

Section invariant.
Context (d : Deadlines) (egress : Egress) (I : Pumping → Prop).
Context (I_tick : ∀ p s, I p → I (tick p s)) (I_fail : ∀ p f, (∀ m, f ≠ InBand m) → I p → I (fail p f))
  (I_clear : ∀ p, I p → I (clear_pending p))
  (I_fold : ∀ p payloads pending now, I p →
    I (absorb p (fold_payloads payloads (pu_acc p) (pu_render p) (pu_in_band p)) pending now))
  (I_send : ∀ p s bytes, I p → I (send_data p s bytes)).

Lemma bounded_keeps p : I p → match bounded p with Again q | Break q => I q | Crash => False end.
Proof. intros Hp. unfold bounded. destruct (MAX_PENDING <? _); [|done]. by apply I_clear, I_fail. Qed.

Lemma turn_keeps p s : I p → match turn d egress p s with Again q | Break q => I q | Crash => False end.
Proof.
  intros Hp. unfold Pump.turn. destruct (dl_max d <=? at_top s); [by apply I_fail|].
  assert (I (fold_left tick (ticks s) p)) as Hq.
  { revert p Hp; induction (ticks s) as [|t l IH]; intros p Hp; cbn; auto. }
  set (q := fold_left tick (ticks s) p) in *. destruct (next s) as [| |e|chunk]; [by apply I_fail|done|by apply I_fail|].
  unfold Pump.take_chunk.
  destruct (take_total to_string from_utf8_lossy from_json base64_decode (pu_pending q ++ chunk))
    as (payloads & pending & -> & _).
  pose proof (I_fold q payloads pending (read_at s) Hq) as Hf.
  set (r := absorb q _ pending (read_at s)) in *.
  destruct (negb (is_empty _) && negb (pu_gone r)); [|by apply bounded_keeps].
  destruct (dl_max d <=? sent_at s); [by apply I_fail, I_send|]. by apply bounded_keeps, I_send.
Qed.

Lemma loop_keeps env p p' : I p → loop d egress p env = Finished p' → I p'.
Proof.
  revert p; induction env as [|s env IH]; intros p Hp; [done|]. cbn [Pump.loop].
  pose proof (turn_keeps p s Hp) as Hturn. destruct (turn d egress p s) as [q|q|]; [|by intros [= <-]|done].
  by apply IH.
Qed.
End invariant.

(** Every pending tail is one that was tried. *)
Lemma loop_rests d egress env p p' :
  take (pu_pending p) = Some ([], pu_pending p) → loop d egress p env = Finished p' →
  take (pu_pending p') = Some ([], pu_pending p').
Proof.
  revert p; induction env as [|s env IH]; intros p Hp; [done|]. cbn [Pump.loop].
  assert (match turn d egress p s with Again q | Break q => take (pu_pending q) = Some ([], pu_pending q)
    | Crash => False end) as Hturn.
  { unfold Pump.turn. destruct (dl_max d <=? at_top s); [done|].
    destruct (ticks_keep (ticks s) p) as (_ & _ & _ & _ & Kp & _). rewrite <-Kp in Hp.
    set (q := fold_left tick (ticks s) p) in *. destruct (next s) as [| |e|chunk]; [done..|].
    unfold Pump.take_chunk.
    destruct (take_total to_string from_utf8_lossy from_json base64_decode (pu_pending q ++ chunk))
      as (payloads & pending & -> & Hr).
    set (r := absorb q _ pending (read_at s)).
    assert (∀ t, pu_pending t = pending → match bounded t with
      | Again q | Break q => take (pu_pending q) = Some ([], pu_pending q) | Crash => False end) as Hb.
    { intros t Ht. unfold bounded. destruct (MAX_PENDING <? _); cbn; [apply take_nil|by rewrite Ht]. }
    destruct (negb (is_empty _) && negb (pu_gone r)); [|by apply Hb].
    destruct (dl_max d <=? sent_at s); [|apply Hb]; unfold send_data; by destruct (sent s). }
  destruct (turn d egress p s) as [q|q|]; [by apply IH|by intros [= <-]|done].
Qed.

Lemma pump_concludes d egress names env fw o ws :
  pump_with d egress names env fw = Finished (o, ws) ↔
  ∃ p, loop d egress (start egress names) env = Finished p ∧ conclude d egress fw p = (o, ws).
Proof.
  unfold Pump.pump_with. destruct (loop d egress (start egress names) env) as [| |p] eqn:E.
  - split; [done|by intros (p & ? & _)].
  - split; [done|by intros (p & ? & _)].
  - rewrite tail_idle by (eapply loop_rests; [|exact E]; apply take_nil). split.
    + intros Hc. exists p. split; [done|]. congruence.
    + by intros (q & [= <-] & ->).
Qed.

(** ** A run ends *)

Lemma loop_ends d egress env p :
  loop d egress p env ≠ Panicked ∧
  (Exists (λ s, dl_max d ≤ at_top s ∨ ∀ chunk, next s ≠ ReadBytes chunk) env →
    ∃ q, loop d egress p env = Finished q).
Proof.
  revert p; induction env as [|s env IH]; intros p.
  { split; [done|]. by intros ?%Exists_nil. }
  cbn [Pump.loop]. pose proof (turn_keeps d egress (λ _, True) ltac:(done) ltac:(done) ltac:(done) ltac:(done)
    ltac:(done) p s Logic.I) as Hturn.
  destruct (turn d egress p s) as [q|q|] eqn:E; [|by split; [|by eexists]|done].
  destruct (IH q) as [Hp Hx]. split; [done|]. intros [[Hs|Hs]|Hs]%Exists_cons; [..|by apply Hx].
  - unfold Pump.turn in E. by rewrite (proj2 (Z.leb_le _ _) Hs) in E.
  - unfold Pump.turn in E. destruct (dl_max d <=? at_top s); [done|].
    destruct (next s) as [| |e|chunk]; try done. by destruct (Hs chunk).
Qed.

(** A stream does not outlive its ceiling, and never crashes the task that
    pumps it.  Whatever bytes the upstream sends and however the client
    behaves, the pump ends by the first turn that finds the clock at the
    ceiling, the upstream silent for its allowance, ended or broken; no turn,
    and no last look at what is left, panics. *)
Theorem pump_ends d egress names env fw :
  pump_with d egress names env fw ≠ Panicked ∧
  (Exists (λ s, dl_max d ≤ at_top s ∨ ∀ chunk, next s ≠ ReadBytes chunk) env →
    ∃ o ws, pump_with d egress names env fw = Finished (o, ws)).
Proof.
  destruct (loop_ends d egress env (start egress names)) as [Hp Hx]. split.
  - unfold Pump.pump_with. destruct (loop d egress (start egress names) env) as [| |p] eqn:E; try done.
    by rewrite tail_idle by (eapply loop_rests; [|exact E]; apply take_nil).
  - intros [p Hl]%Hx. destruct (conclude d egress fw p) as [o ws] eqn:E.
    exists o, ws. apply pump_concludes. by exists p.
Qed.

(** ** How a client is told *)

(** The renderer is the egress's, and one that has ended its stream has been
    given what ends it. *)
Definition fits (egress : Egress) (acc : StreamAccumulator) (in_band : option string) (r : Renderer) : Prop :=
  match egress, r with
  | Passthrough _ _ _, RenderNone
  | ToChatCompletions _ _, RenderChatCompletions _
  | ToAnthropicMessages _ _, RenderAnthropic _
  | ToGemini, RenderGemini _ => True
  | ToResponses _ _, RenderResponses st => is_finished st = true → is_Some (stop_reason acc) ∨ is_Some in_band
  | _, _ => False
  end.

Lemma observe_keeps_stop acc e : is_Some (stop_reason acc) → is_Some (stop_reason (Stream.observe acc e)).
Proof. by destruct e. Qed.

Lemma rendered_finished e st st' text :
  ResponsesStream.render_event to_string e st = (text, st') → is_finished st' = true →
  is_finished st = true ∨ ResponsesStream.ends e = true.
Proof.
  unfold ResponsesStream.render_event. destruct (ResponsesStream.render_frames e st) as [fs st1] eqn:E.
  intros [= _ <-] Hf. destruct (ResponsesStream.ends e) eqn:He; [by right|]. left.
  destruct (ResponsesStream.event_keeps e st He) as (_ & Hk & _). rewrite E in Hk. cbn in Hk. congruence.
Qed.

Lemma fold_fits egress x e :
  fits egress (fo_acc x) (fo_in_band x) (fo_render x) →
  let y := fold_event x e in fits egress (fo_acc y) (fo_in_band y) (fo_render y).
Proof.
  unfold Pump.fold_event, Pump.render, fits. intros Hx.
  destruct egress, (fo_render x) as [|st|st|st|st]; try done.
  - by destruct (OpenAIStream.render_event _ _ _).
  - by destruct (AnthropicStream.render_event _ _ _).
  - by destruct (Gemini.render_event _ _ _ _).
  - destruct (ResponsesStream.render_event to_string e st) as [text st'] eqn:Hr.
    cbn [fo_acc fo_in_band fo_render].
    intros Hf. destruct (rendered_finished _ _ _ _ Hr Hf) as [Hs|He].
    + destruct (Hx Hs) as [Hst|[m Hm]]; [left; by apply observe_keeps_stop|right]. rewrite Hm. by eexists.
    + destruct e; try done; [left; by eexists|right]. destruct (fo_in_band x); by eexists.
Qed.

Lemma payloads_fit egress ps x :
  fits egress (fo_acc x) (fo_in_band x) (fo_render x) →
  let y := fold_left fold_payload ps x in fits egress (fo_acc y) (fo_in_band y) (fo_render y).
Proof.
  revert x; induction ps as [|p ps IH]; intros x Hx; [done|]. cbn [fold_left]. apply IH.
  unfold Pump.fold_payload. pose proof (parse_keeps_stop p (fo_acc x)) as Hk.
  destruct (parse_event p (fo_acc x)) as [parsed acc]. cbn in Hk.
  assert (fits egress acc (fo_in_band x) (fo_render x)) as Hx'.
  { unfold fits in *. destruct egress, (fo_render x); try done. by rewrite Hk. }
  destruct parsed as [es|e]; [|done].
  assert (∀ y, fits egress (fo_acc y) (fo_in_band y) (fo_render y) →
    let z := fold_left fold_event es y in fits egress (fo_acc z) (fo_in_band z) (fo_render z)) as Hes.
  { induction es as [|e es IHes]; intros y Hy; [done|]. cbn [fold_left]. by apply IHes, fold_fits. }
  by apply Hes.
Qed.

Definition in_flight (w : Write) : Prop := match w with WKeepalive | WData _ => True | _ => False end.

(** What holds of the pump at any turn. *)
Record sound (egress : Egress) (p : Pumping) : Prop := {
  so_fits : fits egress (pu_acc p) (pu_in_band p) (pu_render p);
  so_flight : Forall in_flight (pu_writes p);
  so_signals : pu_signals p = (if pu_gone p then 1 else 0)%nat;
  so_error : ∀ m, pu_error p ≠ Some (InBand m)
}.

Lemma sound_gone egress p : sound egress p → sound egress (mark_gone p).
Proof. intros [F W S E]. split; try done. cbn. rewrite S. by destruct (pu_gone p). Qed.

Lemma sound_wrote egress p acc w :
  sound egress p → stop_reason acc = stop_reason (pu_acc p) → in_flight w → sound egress (wrote p acc w).
Proof.
  intros [F W S E] Hs Hw. split; try done; cbn.
  - unfold fits in *. destruct egress, (pu_render p); try done. by rewrite Hs.
  - apply Forall_app. split; [done|]. by apply List.Forall_cons.
Qed.

Lemma start_sound egress names : sound egress (start egress names).
Proof. split; try done. by destruct egress. Qed.

Lemma loop_sound d egress names env p :
  loop d egress (start egress names) env = Finished p → sound egress p.
Proof.
  apply (loop_keeps d egress (sound egress)); [..|apply start_sound]; clear p.
  - intros p s Hp. unfold tick. destruct (_ && _); [|done]. unfold send_keepalive.
    destruct s; [by apply sound_wrote|by apply sound_gone..].
  - intros p f Hf [F W S E]. split; try done. intros m [= Em]. by apply (Hf m).
  - intros p [F W S E]. by split.
  - intros p ps pending now [F W S E]. split; try done. by apply payloads_fit.
  - intros p s bytes Hp. unfold send_data. destruct s; [by apply sound_wrote|by apply sound_gone..].
Qed.

Definition renderable (egress : Egress) : Prop :=
  match egress with
  | Passthrough dialect request_id model => is_Some (for_dialect dialect request_id model)
  | _ => True
  end.

(** *** What a client of each dialect reads

    Written from the dialects' own error events, not from the renderers. *)

Definition spoken (egress : Egress) : Dialect :=
  match egress with
  | Passthrough dialect _ _ => dialect
  | ToChatCompletions _ _ => OpenAIChatCompletions
  | ToAnthropicMessages _ _ => AnthropicMessages
  | ToGemini => GeminiGenerateContent
  | ToResponses _ _ => OpenAIResponses
  end.

(** The event is the dialect's error event, with this message. *)
Definition says_error (dialect : Dialect) (v : Json) (message : string) : Prop :=
  match dialect with
  | OpenAIChatCompletions | GeminiGenerateContent => as_str (idx (idx v "error") "message") = Some message
  | AnthropicMessages =>
      as_str (idx v "type") = Some "error" ∧ as_str (idx (idx v "error") "message") = Some message
  | OpenAIResponses =>
      as_str (idx v "type") = Some "response.failed" ∧
      as_str (idx (idx v "response") "status") = Some "failed" ∧
      as_str (idx (idx (idx v "response") "error") "message") = Some message
  | _ => False
  end.

(** How the dialect writes an event: named or not. *)
Definition written (dialect : Dialect) (v : Json) : string :=
  let data := "data: " +:+ to_string v +:+ String "010" (String "010" "") in
  match dialect with
  | AnthropicMessages | OpenAIResponses =>
      "event: " +:+ default "" (as_str (idx v "type")) +:+ String "010" data
  | _ => data
  end.

(** The frame is that event and nothing else; a Responses stream closes what is
    open before it. *)
Definition tells (egress : Egress) (message frame : string) : Prop :=
  ∃ closing v, frame = closing +:+ written (spoken egress) v ∧ says_error (spoken egress) v message ∧
    (spoken egress = OpenAIResponses ∨ closing = "").

(** What a failure is said to be. *)
Definition worded (d : Deadlines) (f : Failure) (message : string) : Prop :=
  match f with
  | TooLong => message = "stream exceeded " +:+ Str.decimal (dl_max d / 1000000000) +:+ "s"
  | IdleFor => message = "upstream idle for " +:+ Str.decimal (dl_idle d / 1000000000) +:+ "s"
  | ReadFailed e => message = "upstream read failed: " +:+ e
  | Oversized n => message = "upstream sent " +:+ Str.decimal n +:+ " bytes without completing an event"
  | InBand m => message = "upstream stream error: " +:+ m
  | ClosedEarly => message = "upstream closed before the response was complete"
  end.

Lemma failure_worded d f : worded d f (failure_text d f).
Proof. by destruct f. Qed.

Lemma join_snoc l f : AnthropicStream.join (l ++ [f]) = AnthropicStream.join l +:+ f.
Proof.
  unfold AnthropicStream.join. induction l as [|x l IH]; cbn; [by rewrite Str.append_empty_r|].
  by rewrite IH, Str.append_assoc.
Qed.

Lemma failure_told st message request_id model :
  is_finished st = false →
  ∃ text, (ResponsesStream.render_event to_string (EvError message) st).1 = Some text ∧
    tells (ToResponses request_id model) message text.
Proof.
  intros Hf. unfold ResponsesStream.render_event. cbn [ResponsesStream.render_frames].
  unfold ResponsesStream.render_failure. rewrite Hf. unfold ResponsesStream.terminate.
  set (x := ResponsesStream.and_then _ ResponsesStream.close_message). destruct x as [fs st1].
  cbn [ResponsesStream.and_then]. rewrite map_app. cbn [map]. rewrite join_snoc.
  set (closing := AnthropicStream.join _). set (v := (ResponsesStream.failed_frame message st1).2).
  assert (AnthropicStream.frame to_string (ResponsesStream.failed_frame message st1) = written OpenAIResponses v)
    as -> by done.
  destruct (Str.is_empty (closing +:+ written OpenAIResponses v)) eqn:E.
  { exfalso. destruct closing; cbn in E; discriminate E. }
  exists (closing +:+ written OpenAIResponses v). split; [done|]. exists closing, v. split; [done|].
  split; [by split_and!|by left].
Qed.

Lemma one_event_told egress v message :
  spoken egress ≠ OpenAIResponses → says_error (spoken egress) v message →
  tells egress message (written (spoken egress) v).
Proof. intros Hn Hs. exists "", v. split; [done|]. split; [done|by right]. Qed.

Definition anthropic_error (message : string) : Json :=
  JObject [("type", JString "error"); ("error", JObject [("type", JString "api_error"); ("message", JString message)])].

Lemma anthropic_told egress message :
  spoken egress = AnthropicMessages →
  tells egress message (AnthropicStream.join
    (map (AnthropicStream.frame to_string) [("error", anthropic_error message)])).
Proof.
  intros E. cbn [map AnthropicStream.join foldr]. rewrite Str.append_empty_r.
  pose proof (one_event_told egress (anthropic_error message) message) as Ht. rewrite E in Ht. by apply Ht.
Qed.

(** A stream that has not ended can be told of its failure. *)
Lemma error_frame_speaks egress acc r message :
  fits egress acc None r → stop_reason acc = None → renderable egress →
  ∃ frame, error_frame to_string from_str egress r message = Some frame ∧ tells egress message frame.
Proof.
  intros Hf Hs Hd. unfold error_frame. destruct egress as [dialect request_id model|request_id model|request_id model| |request_id model], r as [|st|st|st|st]; try done.
  - destruct dialect; try (by apply is_Some_None in Hd); cbn [for_dialect].
    + eexists. split; [reflexivity|]. by apply anthropic_told.
    + eexists. split; [reflexivity|]. by apply (one_event_told (Passthrough OpenAIChatCompletions request_id model) _).
    + destruct (failure_told (ResponsesStream.new request_id model) message request_id model eq_refl) as (text & Ht & Hx).
      exists text. unfold Pump.render. destruct (ResponsesStream.render_event _ _ _). split; [exact Ht|exact Hx].
    + eexists. split; [reflexivity|]. by apply (one_event_told (Passthrough GeminiGenerateContent request_id model) _).
  - eexists. split; [reflexivity|]. by apply (one_event_told (ToChatCompletions request_id model)).
  - eexists. split; [reflexivity|]. by apply anthropic_told.
  - eexists. split; [reflexivity|]. by apply (one_event_told ToGemini).
  - cbn in Hf. destruct (is_finished st) eqn:E.
    { destruct (Hf eq_refl) as [Hx|Hx]; [rewrite Hs in Hx|]; by apply is_Some_None in Hx. }
    destruct (failure_told st message request_id model E) as (text & Ht & Hx). exists text. unfold Pump.render.
    destruct (ResponsesStream.render_event _ _ _). split; [exact Ht|exact Hx].
Qed.

(** What a client is sent, write by write. *)
Definition keepalive_bytes : list ascii := Str.bytes (": keepalive" +:+ String "010" (String "010" "")).

Definition write_bytes (w : Write) : list ascii :=
  match w with
  | WKeepalive => keepalive_bytes
  | WData bytes => bytes
  | WError frame | WDone frame => Str.bytes frame
  end.

(** C26. A client that is still there is told how its stream ended, once, and
    truthfully.  What it is sent is keepalives and the answer, and then: the
    dialect's sentinel only, for a chat client whose answer reached its own
    end; one error frame only, for an answer that did not and of whose failure
    the provider said nothing itself; or nothing.  The error frame is the
    client's dialect's own error event, worded for the failure the outcome
    records, in every dialect there is a renderer for.  An outcome without an error is of an answer that reached its end,
    and a client that is gone is sent nothing more.  Where the bytes before it
    end a line, a client reads the frame as one of its own; where an upstream
    passed through broke off inside a line it does not: [error_frame_is_glued]. *)
Theorem ending_is_told_once d egress names env fw o ws :
  pump_with d egress names env fw = Finished (o, ws) →
  let ended := is_Some (stop_reason (po_accumulator o)) in
  let inferred f := stop_reason (po_accumulator o) = None ∧ po_error o = Some f ∧ ∀ m, f ≠ InBand m in
  (po_error o = None → ended) ∧
  ∃ flight farewell, ws = flight ++ farewell ∧ Forall in_flight flight ∧
    (po_client_gone o = true → farewell = []) ∧
    (po_client_gone o = false →
      (ended → farewell = match egress, fw_done fw with
        | ToChatCompletions _ _, Accepted => [WDone OpenAIStream.done_frame] | _, _ => [] end) ∧
      (∀ f, inferred f → renderable egress → ∃ message frame, worded d f message ∧ tells egress message frame ∧
        farewell = taken (fw_error fw) (Some (WError frame))) ∧
      (¬ ended → (∀ f, ¬ inferred f) → farewell = [])) ∧
    (SseFrames.whole_lines (List.concat (map write_bytes flight)) →
      SseFrames.payloads (List.concat (map write_bytes ws)) =
        SseFrames.payloads (List.concat (map write_bytes flight)) ++
        SseFrames.payloads (List.concat (map write_bytes farewell))).
Proof.
  intros (p & Hl & Hc)%pump_concludes ended inferred. destruct (loop_sound _ _ _ _ _ Hl) as [F W S E].
  unfold Pump.conclude in Hc. injection Hc as Ho Hw. subst o. cbn in ended, inferred |- *.
  assert (complete p = false ↔ stop_reason (pu_acc p) = None) as Hcomp.
  { unfold complete. destruct (stop_reason (pu_acc p)); cbn; by split. }
  split.
  { unfold final_error, ended. destruct (pu_in_band p), (pu_error p); try done.
    unfold complete. by destruct (stop_reason (pu_acc p)). }
  eexists (pu_writes p), _. split; [by rewrite Hw|]. split; [done|].
  unfold farewell_error, farewell_done. split.
  { intros ->. rewrite andb_false_r. cbn. destruct (fw_error fw), egress, (fw_done fw); done. }
  split.
  2: { intros Hwhole. by rewrite <-Hw, map_app, List.concat_app, SseFrames.payloads_app. }
  intros ->. rewrite andb_true_r. cbn [negb andb]. split; [|split].
  - intros He. assert (complete p = true) as ->.
    { destruct (complete p) eqn:Ec; [done|]. destruct He as [x Hx]. by rewrite (proj1 Hcomp eq_refl) in Hx. }
    destruct (fw_error fw), egress, (fw_done fw); done.
  - intros f (Hs & Hi & Hnb) Hr. rewrite (proj2 Hcomp Hs). rewrite Hi.
    assert (pu_in_band p = None) as Eb.
    { unfold final_error in Hi. destruct (pu_in_band p) as [m|]; [|done]. injection Hi as <-. by destruct (Hnb m). }
    rewrite Eb. cbn [negb andb bool_decide].
    destruct (error_frame_speaks egress (pu_acc p) (pu_render p) (failure_text d f)) as (frame & Hf & Ht);
      [by rewrite <-Eb|done|done|].
    exists (failure_text d f), frame. split; [apply failure_worded|]. split; [done|].
    rewrite Hf. destruct (fw_error fw), egress, (fw_done fw); done.
  - intros Hne Hni. assert (complete p = false) as Ec.
    { apply Hcomp. destruct (stop_reason (pu_acc p)); [|done]. destruct Hne. by eexists. }
    rewrite Ec. destruct (pu_in_band p) as [m|] eqn:Eb.
    { destruct (fw_error fw), egress, (fw_done fw); done. }
    assert (∃ f, final_error p = Some f ∧ ∀ m, f ≠ InBand m) as (f & Hf & Hm).
    { unfold final_error. rewrite Eb, Ec. destruct (pu_error p) as [f|]; [|by exists ClosedEarly].
      exists f. split; [done|]. intros m ->. by apply (E m). }
    destruct (Hni f). split; [by apply Hcomp|]. by split.
Qed.

(** ** What a client reads between *)

Definition data_bytes (w : Write) : list ascii := match w with WData bytes => bytes | _ => [] end.

(** The bytes a client was sent, but for the part of a frame they may end in,
    are whole lines, and say what the answer's bytes alone say. *)
Definition unheard (ws : list Write) (tail : list ascii) : Prop :=
  ∃ all data, List.concat (map write_bytes ws) = all ++ tail ∧ List.concat (map data_bytes ws) = data ++ tail ∧
    SseFrames.whole_lines all ∧ SseFrames.whole_lines data ∧ SseFrames.payloads all = SseFrames.payloads data.

(** The end of a frame: nothing yet, or a blank line just ended. *)
Definition at_boundary (bytes : list ascii) : Prop :=
  bytes = [] ∨ (∃ a, bytes = a ++ ["010"; "010"]%char) ∨ ∃ a, bytes = a ++ ["010"; "013"; "010"]%char.

Lemma cut_boundary whole x : SseFrames.cut whole x [] → at_boundary whole.
Proof.
  intros [Hw _ Hb _]. rewrite app_nil_r in Hw. subst x. destruct Hb as [->|[Hb Hl]]; [by left|right].
  unfold SseFrames.breaks_at in Hb. set (n := length whole) in *.
  assert (∀ i c, whole !! i = Some c → ∃ l, List.firstn (S i) whole = l ++ [c] ∧ l = List.firstn i whole) as Hsnoc.
  { intros i c Hc. exists (List.firstn i whole). split; [|done]. by apply take_S_r. }
  apply andb_true_iff in Hb as [H1%bool_decide_eq_true Hb].
  destruct (Hsnoc _ _ H1) as (l1 & E1 & ->). replace (S (n - 1)) with n in E1 by lia.
  unfold n in E1 at 1. rewrite firstn_all in E1.
  apply orb_true_iff in Hb as [H2%bool_decide_eq_true|[[Hle0%Nat.leb_le H2%bool_decide_eq_true]%andb_true_iff H3%bool_decide_eq_true]%andb_true_iff].
  - left. destruct (Hsnoc _ _ H2) as (l2 & E2 & _). replace (S (n - 1 - 1)) with (n - 1)%nat in E2 by lia.
    exists l2. by rewrite E1, E2, <-app_assoc.
  - right. destruct (Hsnoc _ _ H2) as (l2 & E2 & ->). replace (S (n - 1 - 1)) with (n - 1)%nat in E2 by lia.
    destruct (Hsnoc _ _ H3) as (l3 & E3 & _). replace (S (n - 1 - 2)) with (n - 1 - 1)%nat in E3 by lia.
    exists l3. by rewrite E1, E2, E3, <-!app_assoc.
Qed.

(** No keepalive inside a frame. *)
Definition spaced (ws : list Write) : Prop :=
  ∀ l r, ws = l ++ WKeepalive :: r → at_boundary (List.concat (map data_bytes l)).

Lemma spaced_snoc ws w :
  spaced ws → (w = WKeepalive → at_boundary (List.concat (map data_bytes ws))) → spaced (ws ++ [w]).
Proof.
  intros Hs Hw l r E. destruct (rev r) as [|x r'] eqn:Er; apply (f_equal (@rev _)) in Er; rewrite rev_involutive in Er; cbn in Er; subst r.
  - apply app_inj_tail in E as [<- ->]. by apply Hw.
  - rewrite app_comm_cons, app_assoc in E. apply app_inj_tail in E as [E _]. by apply (Hs l (rev r')).
Qed.

Definition reads (l : list Pass) : list ascii := List.concat (filter_map chunk_of l).

Lemma reads_app l r : reads (l ++ r) = reads l ++ reads r.
Proof. unfold reads. by rewrite filter_map_app, List.concat_app. Qed.

Lemma reads_one s chunk : next s = ReadBytes chunk → reads [s] = chunk.
Proof. unfold reads, filter_map, chunk_of. intros ->. apply app_nil_r. Qed.

(** A pass whose read the client took, if there was anything to take, and one
    in which it would not take what it was sent. *)
Definition took (d : Deadlines) (s : Pass) : Prop :=
  at_top s < dl_max d ∧ ∃ chunk, next s = ReadBytes chunk ∧ (chunk = [] ∨ sent s = Accepted).

Definition gave_up (d : Deadlines) (s : Pass) : Prop :=
  at_top s < dl_max d ∧ (Exists (λ t, t ≠ Accepted) (ticks s) ∨
    ∃ chunk, next s = ReadBytes chunk ∧ chunk ≠ [] ∧ sent s ≠ Accepted).

(** The writes are the bytes of the passes [heard] and keepalives between
    frames. *)
Record delivered (d : Deadlines) (heard : list Pass) (ws : list Write) : Prop := {
  de_data : List.concat (map data_bytes ws) = reads heard;
  de_took : Forall (took d) heard;
  de_spaced : spaced ws;
  de_unheard : ∃ tail, unheard ws tail
}.

(** What holds in the course of the passes [upto], of which [seen] have been
    read. *)
Record carried (d : Deadlines) (seen upto : list Pass) (p : Pumping) : Prop := {
  ca_cut : ∃ x, SseFrames.cut (reads seen) x (pu_pending p);
  ca_gone : pu_gone p = true → ∃ heard t rest, upto = heard ++ t :: rest ∧ gave_up d t ∧ delivered d heard (pu_writes p);
  ca_here : pu_gone p = false → delivered d seen (pu_writes p) ∧ unheard (pu_writes p) (pu_pending p)
}.

Lemma whole_app x y : SseFrames.whole_lines x → SseFrames.whole_lines y → SseFrames.whole_lines (x ++ y).
Proof.
  intros Hx [->|[a ->]]; [by rewrite app_nil_r|]. right. exists (x ++ a). by rewrite app_assoc.
Qed.

Lemma carried_more d seen upto s p : carried d seen upto p → carried d seen (upto ++ [s]) p.
Proof.
  intros [Hc Hg Hh]. split; [done| |done]. intros (heard & t & rest & -> & Hx)%Hg.
  exists heard, t, (rest ++ [s]). by rewrite <-app_assoc.
Qed.

Lemma carried_tick d seen s p t :
  at_top s < dl_max d → t ∈ ticks s → carried d seen (seen ++ [s]) p → carried d seen (seen ++ [s]) (tick p t).
Proof.
  intros Htop Ht H1. unfold tick. destruct (pu_gone p) eqn:Eg; [done|].
  destruct (pu_pending p) as [|c l] eqn:Ep; [|done]. cbn [negb andb is_empty].
  destruct H1 as [[x Hc] _ Hh]. destruct (Hh Eg) as [Hd Hu].
  assert (t ≠ Accepted → carried d seen (seen ++ [s]) (mark_gone p)) as Hgone.
  { intros Hn. split; [by exists x| |done]. intros _. exists seen, s, []. split; [done|]. split; [|done].
    split; [done|]. left. apply List.Exists_exists. exists t. split; [by apply list_elem_of_In|done]. }
  unfold send_keepalive. destruct t; [|by apply Hgone..]. rewrite Ep in *.
  assert (unheard (pu_writes p ++ [WKeepalive]) []) as Hu'.
  { destruct Hu as (all & data & Ha & Hb & Hwa & Hwd & Hp). rewrite !app_nil_r in *.
    exists (all ++ keepalive_bytes), data. rewrite !map_app, !List.concat_app, Ha, Hb. cbn. rewrite !app_nil_r.
    split_and!; try done.
    - apply whole_app; [done|]. right. by exists (Str.bytes (": keepalive" +:+ String "010" "")).
    - rewrite SseFrames.payloads_app, Hp by done. by rewrite app_nil_r. }
  destruct Hd as [D1 D2 D3 D4]. split; cbn; [rewrite Ep; by exists x|by rewrite Eg|]. intros _. rewrite Ep.
  split; [|exact Hu'].
  split; [rewrite map_app, List.concat_app; cbn; by rewrite app_nil_r|done| |by eexists].
  apply spaced_snoc; [done|]. intros _. rewrite D1. by apply (cut_boundary _ x).
Qed.

Lemma carried_ticks d seen s l p :
  at_top s < dl_max d → l ⊆ ticks s → carried d seen (seen ++ [s]) p →
  carried d seen (seen ++ [s]) (fold_left tick l p).
Proof.
  intros Htop. revert p; induction l as [|t l IH]; intros p Hl H1; [done|]. cbn [fold_left].
  apply IH; [set_solver|]. apply carried_tick; [done|set_solver|done].
Qed.

Lemma start_carried d egress names : carried d [] [] (start egress names).
Proof.
  split; [exists []; apply SseFrames.cut_nothing|done|]. intros _.
  assert (unheard (pu_writes (start egress names)) []) as Hu.
  { exists [], []. split_and!; try done; by left. }
  split; [|exact Hu]. split; try done; [|by eexists]. intros l r E. by destruct l.
Qed.

Section verbatim.
Context (d : Deadlines) (dialect : Dialect) (request_id model : string) (Hsse : framing = Sse).
#[local] Abbreviation egress := (Passthrough dialect request_id model).

(** Why a run whose client is still there read no further than [before]: the
    clock or the upstream ended it, a send was held past the ceiling, or a
    frame grew past what is held for one. *)
Definition stopped (before after : list Pass) : Prop :=
  (∃ s rest, after = s :: rest ∧ (dl_max d ≤ at_top s ∨ ∀ chunk, next s ≠ ReadBytes chunk)) ∨
  ∃ init s, before = init ++ [s] ∧
    (dl_max d ≤ sent_at s ∨ ∃ x r, SseFrames.cut (reads before) x r ∧ MAX_PENDING < Z.of_nat (length r)).

(** How the loop is left: with a client that has all that was read, or one that
    gave up. *)
Definition left_at (env : list Pass) (p : Pumping) : Prop :=
  if pu_gone p then ∃ heard t rest, env = heard ++ t :: rest ∧ gave_up d t ∧ delivered d heard (pu_writes p)
  else ∃ before after, env = before ++ after ∧ delivered d before (pu_writes p) ∧ stopped before after.

Lemma left_now seen p q rest :
  carried d seen seen p → pu_gone q = pu_gone p → pu_writes q = pu_writes p → stopped seen rest →
  left_at (seen ++ rest) q.
Proof.
  intros [_ Hg Hh] Eg Ew Hs. unfold left_at. rewrite Eg, Ew. destruct (pu_gone p).
  - destruct (Hg eq_refl) as (heard & t & r & -> & Hx). exists heard, t, (r ++ rest). by rewrite <-app_assoc.
  - destruct (Hh eq_refl) as [Hd _]. by exists seen, rest.
Qed.

Lemma delivered_read seen ws s chunk out rest y pending :
  delivered d seen ws → unheard ws rest → rest ++ chunk = y ++ pending → SseFrames.whole_lines y →
  at_top s < dl_max d → next s = ReadBytes chunk →
  (out = [WData chunk] ∧ sent s = Accepted ∨ out = [] ∧ chunk = []) →
  delivered d (seen ++ [s]) (ws ++ out) ∧ unheard (ws ++ out) pending.
Proof.
  intros [D1 D2 D3 _] (all & data & Ha & Hb & Hwa & Hwd & Hp) Hsplit Hy Htop En Hout.
  assert (List.concat (map write_bytes out) = chunk ∧ List.concat (map data_bytes out) = chunk ∧
    (chunk = [] ∨ sent s = Accepted)) as (O1 & O2 & O3).
  { destruct Hout as [[-> Hs]|[-> ->]]; [|by split_and!; try left]. cbn. rewrite app_nil_r. by split_and!; try right. }
  assert (unheard (ws ++ out) pending) as Hu.
  { exists (all ++ y), (data ++ y). rewrite !map_app, !List.concat_app, Ha, Hb, O1, O2.
    rewrite <-!app_assoc, Hsplit. split_and!; try done; [by apply whole_app..|].
    by rewrite !SseFrames.payloads_app, Hp. }
  split; [|exact Hu]. split.
  - by rewrite map_app, List.concat_app, D1, O2, reads_app, (reads_one s chunk).
  - apply Forall_app. split; [done|]. apply List.Forall_cons; [|done]. split; [done|]. by exists chunk.
  - destruct Hout as [[-> _]|[-> _]]; [by apply spaced_snoc|by rewrite app_nil_r].
  - by eexists.
Qed.

Lemma chunk_carried seen p s chunk :
  at_top s < dl_max d → next s = ReadBytes chunk → carried d seen (seen ++ [s]) p →
  ∃ q, carried d (seen ++ [s]) (seen ++ [s]) q ∧
    (take_chunk d egress p s chunk = bounded q ∨
     dl_max d ≤ sent_at s ∧ take_chunk d egress p s chunk = Break (fail q TooLong)).
Proof.
  intros Htop En H1. destruct (ca_cut _ _ _ _ H1) as [x Hcut].
  destruct (SseFrames.cut_step (reads seen) x _ chunk Hcut) as (y & pending & Hcut' & Hsplit & Hy & Ht).
  rewrite <-(reads_one s chunk En), <-reads_app in Hcut'.
  unfold Pump.take_chunk, Pump.take, Frames.take_payloads. rewrite Hsse, Ht.
  set (payloads := map _ _). set (q := absorb p _ pending (read_at s)). cbn [outbound].
  destruct H1 as [_ Hg Hh].
  assert (∀ r out, pu_pending r = pending → pu_writes r = pu_writes p ++ out → pu_gone r = pu_gone p →
    (pu_gone p = true → out = []) →
    (pu_gone p = false → out = [WData chunk] ∧ sent s = Accepted ∨ out = [] ∧ chunk = []) →
    carried d (seen ++ [s]) (seen ++ [s]) r) as Hsend.
  { intros r out Ep Ew Eg Hno Hout. split; [rewrite Ep; by eexists| |]; intros E; rewrite Eg in E; rewrite Ew.
    - rewrite (Hno E), app_nil_r. by apply Hg.
    - rewrite Ep. destruct (Hh E) as [Hd Hu]. apply (delivered_read _ _ s chunk _ (pu_pending p) y); try done. by apply Hout. }
  destruct chunk as [|b chunk]; cbn [is_empty negb andb].
  { exists q. split; [|by left]. apply (Hsend q []); try done; [by rewrite app_nil_r|by right]. }
  destruct (pu_gone q) eqn:Eg; cbn [negb]; change (pu_gone q) with (pu_gone p) in Eg.
  { exists q. split; [|by left]. apply (Hsend q []); try done; [by rewrite app_nil_r|congruence]. }
  exists (send_data q (sent s) (b :: chunk)). split.
  2: { destruct (Z.leb_spec (dl_max d) (sent_at s)); [by right|by left]. }
  assert (sent s ≠ Accepted → carried d (seen ++ [s]) (seen ++ [s]) (mark_gone q)) as Hgone.
  { intros Hn. split; [by eexists| |done]. intros _. exists seen, s, []. destruct (Hh Eg) as [Hd _].
    split; [done|]. split; [|done]. split; [done|]. right. by exists (b :: chunk). }
  unfold send_data. destruct (sent s) eqn:Es; [|by apply Hgone..].
  apply (Hsend _ [WData (b :: chunk)]); try done; [congruence|by left].
Qed.

Lemma loop_carried seen env p p' :
  carried d seen seen p → loop d egress p env = Finished p' → left_at (seen ++ env) p'.
Proof.
  revert seen p; induction env as [|s env IH]; intros seen p H1; [done|]. cbn [Pump.loop]. unfold Pump.turn.
  destruct (Z.leb_spec (dl_max d) (at_top s)) as [Hl|Htop].
  { intros [= <-]. apply (left_now _ p); try done. left. exists s, env. split; [done|by left]. }
  assert (carried d seen (seen ++ [s]) (fold_left tick (ticks s) p)) as Hq.
  { apply carried_ticks; [done..|]. by apply carried_more. }
  set (q := fold_left tick (ticks s) p) in *. clearbody q.
  assert ((∀ chunk, next s ≠ ReadBytes chunk) → ∀ r, pu_gone r = pu_gone q → pu_writes r = pu_writes q →
    left_at (seen ++ s :: env) r) as Hend.
  { intros Hn r Eg Ew. unfold left_at. rewrite Eg, Ew. destruct Hq as [_ Hg Hh]. destruct (pu_gone q).
    - destruct (Hg eq_refl) as (heard & t & rest & E & Hx). exists heard, t, (rest ++ env).
      split; [|done]. rewrite (app_comm_cons rest), (app_assoc heard), <-E. by rewrite <-app_assoc.
    - destruct (Hh eq_refl) as [Hd _]. exists seen, (s :: env). split; [done|]. split; [done|].
      left. exists s, env. split; [done|by right]. }
  destruct (next s) as [| |e|chunk] eqn:En; try (intros [= <-]; by apply Hend).
  destruct (chunk_carried seen q s chunk Htop En Hq) as (r & Hr & Hor).
  change (seen ++ s :: env) with (seen ++ [s] ++ env). rewrite app_assoc.
  destruct Hor as [->|[Hlate ->]].
  2: { intros [= <-]. apply (left_now _ r); try done. right. exists seen, s. split; [done|by left]. }
  unfold bounded. destruct (Z.ltb_spec MAX_PENDING (Z.of_nat (length (pu_pending r)))).
  - intros [= <-]. apply (left_now _ r); try done. right. exists seen, s. split; [done|]. right.
    destruct (ca_cut _ _ _ _ Hr) as [x Hc]. by exists x, (pu_pending r).
  - by apply IH.
Qed.

(** C27. Where client and upstream speak one dialect the client is sent the
    upstream's own bytes, and keepalives only between frames.  What is
    forwarded is, byte for byte, what was read, from the start and without a
    gap: of a client that is there to the end, everything read till the clock,
    the upstream, a send held past the ceiling or an overgrown frame ended the
    run; of one that gave up, everything before the pass whose bytes or
    keepalive it would not take.  A keepalive follows the end of a frame or
    nothing at all, and the stream with its keepalives carries the payloads of
    the bytes forwarded alone. *)
Theorem passthrough_is_verbatim names env fw o ws :
  pump_with d egress names env fw = Finished (o, ws) →
  ∃ heard rest flight farewell, env = heard ++ rest ∧ ws = flight ++ farewell ∧
    (farewell = [] ∨ ∃ frame, farewell = [WError frame]) ∧
    List.concat (map data_bytes ws) = reads heard ∧ Forall (took d) heard ∧
    (if po_client_gone o then ∃ t later, rest = t :: later ∧ gave_up d t else stopped heard rest) ∧
    spaced flight ∧
    SseFrames.payloads (List.concat (map write_bytes flight)) = SseFrames.payloads (List.concat (map data_bytes ws)).
Proof.
  intros (p & Hl & Hc)%pump_concludes.
  pose proof (loop_carried [] env (start egress names) p) as Hleft. unfold left_at in Hleft. cbn [app] in Hleft.
  unfold Pump.conclude in Hc. injection Hc as Ho Hw. subst o.
  cbn [farewell_done fmap option_fmap option_map po_client_gone] in *.
  assert (taken (fw_done fw) None = []) as Hn by (by destruct (fw_done fw)). rewrite Hn, app_nil_r in Hw.
  set (farewell := taken (fw_error fw) _) in Hw.
  assert (farewell = [] ∨ ∃ frame, farewell = [WError frame]) as Hfare.
  { unfold farewell. destruct (fw_error fw), (farewell_error _ _ d egress p) as [f|]; cbn; try (by left). right. by exists f. }
  assert (List.concat (map data_bytes ws) = List.concat (map data_bytes (pu_writes p))) as Hdata.
  { rewrite <-Hw, map_app, List.concat_app. destruct Hfare as [->|[f ->]]; cbn; by rewrite app_nil_r. }
  assert (∀ heard rest, env = heard ++ rest → delivered d heard (pu_writes p) →
    (if pu_gone p then ∃ t later, rest = t :: later ∧ gave_up d t else stopped heard rest) →
    ∃ heard rest flight farewell, env = heard ++ rest ∧ ws = flight ++ farewell ∧
    (farewell = [] ∨ ∃ frame, farewell = [WError frame]) ∧
    List.concat (map data_bytes ws) = reads heard ∧ Forall (took d) heard ∧
    (if pu_gone p then ∃ t later, rest = t :: later ∧ gave_up d t else stopped heard rest) ∧ spaced flight ∧
    SseFrames.payloads (List.concat (map write_bytes flight)) = SseFrames.payloads (List.concat (map data_bytes ws))) as Hfin.
  { intros heard rest E [D1 D2 D3 (tail & all & data & Ha & Hb & Hwa & Hwd & Hp)] Hr.
    exists heard, rest, (pu_writes p), farewell. rewrite Hdata. split_and!; try done.
    rewrite Ha, Hb. by rewrite !SseFrames.payloads_app, Hp. }
  destruct (pu_gone p) eqn:Eg.
  - destruct Hleft as (heard & t & rest & E & Hgu & Hd); [|done|apply (Hfin heard (t :: rest) E Hd); by exists t, rest].
    apply start_carried.
  - destruct Hleft as (before & after & E & Hd & Hs); [|done|by apply (Hfin before after)].
    apply start_carried.
Qed.

End verbatim.

(** ** What the pump holds *)

Inductive reached (d : Deadlines) (egress : Egress) (names : Names.FunctionNameMap) : Pumping → Prop :=
  | reached_start : reached d egress names (start egress names)
  | reached_turn p s q : reached d egress names p → turn d egress p s = Again q → reached d egress names q.

(** What the pump holds is bounded, whatever the upstream sends and however
    it is cut.  At the top of every turn at most eight megabytes are waiting
    for the rest of their frame; no failure has been noted, so none is ever
    overwritten by a later one; and the client was reported gone once if it is
    gone and otherwise never. *)
Theorem pump_is_bounded d egress names p :
  reached d egress names p →
  Z.of_nat (length (pu_pending p)) ≤ MAX_PENDING ∧ pu_error p = None ∧
  pu_signals p = (if pu_gone p then 1 else 0)%nat.
Proof.
  induction 1 as [|p s q _ (Hp & He & Hs) Ht]; [done|].
  assert (∀ t, pu_error t = None → pu_signals t = (if pu_gone t then 1 else 0)%nat → bounded t = Again q →
    Z.of_nat (length (pu_pending q)) ≤ MAX_PENDING ∧ pu_error q = None ∧
    pu_signals q = (if pu_gone q then 1 else 0)%nat) as Hb.
  { intros t Et St. unfold bounded. destruct (MAX_PENDING <? _) eqn:E; [done|]. intros [= <-].
    by apply Z.ltb_ge in E. }
  assert (∀ t, pu_signals t = (if pu_gone t then 1 else 0)%nat →
    pu_signals (mark_gone t) = (if pu_gone (mark_gone t) then 1 else 0)%nat) as Hgone.
  { intros t St. cbn. rewrite St. by destruct (pu_gone t). }
  unfold Pump.turn in Ht. destruct (dl_max d <=? at_top s); [done|].
  assert (pu_error (fold_left tick (ticks s) p) = None ∧
    pu_signals (fold_left tick (ticks s) p) = (if pu_gone (fold_left tick (ticks s) p) then 1 else 0)%nat) as [Eq Sq].
  { clear Ht Hp. revert p He Hs; induction (ticks s) as [|t l IH]; intros p He Hs; [done|]. cbn [fold_left].
    apply IH; unfold tick; (destruct (_ && _); [|done]); unfold send_keepalive; destruct t; try done; by apply Hgone. }
  set (r := fold_left tick (ticks s) p) in *. destruct (next s) as [| |e|chunk]; try done.
  unfold Pump.take_chunk in Ht. destruct (take (pu_pending r ++ chunk)) as [[ps pending]|]; [|done].
  set (x := absorb r _ pending (read_at s)) in *. destruct (negb (is_empty _) && negb (pu_gone x)).
  - destruct (dl_max d <=? sent_at s); [done|]. unfold send_data in Ht.
    destruct (sent s); apply Hb in Ht; try done; by apply Hgone.
  - by apply Hb in Ht.
Qed.

End pumped.

(** ** The adapters are lawful *)

Lemma unchanged_lawful framing f :
  (∀ raw acc, f raw (forget acc) = f raw acc) →
  @Lawful {| framing := framing; parse_event := unchanged f |}.
Proof. intros Hf. split; [|done]. intros raw a. cbn [parse_event]. unfold unchanged. by rewrite Hf. Qed.

#[global] Instance anthropic_lawful parse : @Lawful (anthropic_adapter parse).
Proof. by apply unchanged_lawful. Qed.

#[global] Instance bedrock_lawful parse : @Lawful (bedrock_adapter parse).
Proof. by apply unchanged_lawful. Qed.

#[global] Instance codex_lawful parse : @Lawful (codex_adapter parse).
Proof. by apply unchanged_lawful. Qed.

#[global] Instance gemini_lawful to_string parse : @Lawful (gemini_adapter parse to_string).
Proof. by apply unchanged_lawful. Qed.

Lemma chat_event_forgets v a :
  OpenAI.event_of v (forget a) = (let '(es, a') := OpenAI.event_of v a in (es, forget a')) ∧
  stop_reason (OpenAI.event_of v a).2 = stop_reason a.
Proof.
  unfold OpenAI.event_of. destruct (as_array (idx v "choices")) as [[|choice choices]|]; try done.
  destruct (OpenAI.said (idx (idx choice "delta") "refusal")) as [refusal|].
  - change (OpenAI.call_fragment (Stream.note_refusal (forget a))) with (OpenAI.call_fragment (Stream.note_refusal a)).
    by destruct (fold_left _ _ _).
  - change (OpenAI.call_fragment (forget a)) with (OpenAI.call_fragment a).
    by destruct (fold_left _ _ _).
Qed.

Lemma changing_lawful framing (read : Json → StreamAccumulator → list StreamEvent * StreamAccumulator) f parse
    (skipped : string → bool) :
  (∀ raw a, f raw a = if skipped raw then Ok ([], a) else
    result_bind (ok_or (parse raw) (Serde raw)) (fun v => Ok (read v a))) →
  (∀ v a, read v (forget a) = (let '(es, a') := read v a in (es, forget a')) ∧
    stop_reason (read v a).2 = stop_reason a) →
  @Lawful {| framing := framing; parse_event := changing f |}.
Proof.
  intros Hf Hread. split; intros raw a; cbn; unfold changing; rewrite !Hf;
    (destruct (skipped raw); [done|]); (destruct (parse raw) as [v|]; [|done]);
    cbn [ok_or result_bind]; destruct (Hread v a) as [H Hs].
  - rewrite H. by destruct (read v a).
  - rewrite <-Hs. by destruct (read v a).
Qed.

#[global] Instance openai_lawful parse : @Lawful (openai_adapter parse).
Proof. apply (changing_lawful Sse OpenAI.event_of _ parse (fun raw => Str.eqb raw "[DONE]")); [done|apply chat_event_forgets]. Qed.

#[global] Instance azure_lawful parse : @Lawful (azure_adapter parse).
Proof. apply openai_lawful. Qed.

#[global] Instance vertex_lawful parse to_string publisher : @Lawful (vertex_adapter parse to_string publisher).
Proof. destruct publisher; by apply unchanged_lawful. Qed.

Lemma stream_event_forgets kind event a :
  Converse.parse_stream_event kind event (forget a) =
    (let '(es, a') := Converse.parse_stream_event kind event a in (es, forget a')) ∧
  stop_reason (Converse.parse_stream_event kind event a).2 = stop_reason a.
Proof.
  unfold Converse.parse_stream_event.
  by repeat match goal with |- context [if ?b then _ else _] => destruct b; [done|] end.
Qed.

Lemma members_forget fs es a :
  fold_left Converse.member fs (es, forget a) =
    (let '(es, a') := fold_left Converse.member fs (es, a) in (es, forget a')) ∧
  stop_reason (fold_left Converse.member fs (es, a)).2 = stop_reason a.
Proof.
  revert es a; induction fs as [|[kind event] fs IH]; intros es a; [done|]. cbn [fold_left].
  destruct (stream_event_forgets kind event a) as [Hf Hs]. unfold Converse.member at 2 4 6.
  cbn [fst snd]. rewrite Hf. destruct (Converse.parse_stream_event kind event a) as [evs a'].
  cbn [fst snd] in *. destruct (IH (es ++ evs) a') as [-> ->]. done.
Qed.

#[global] Instance converse_lawful parse : @Lawful (converse_adapter parse).
Proof.
  apply (changing_lawful AwsConverseStream Converse.event_of _ parse (fun _ => false)); [done|].
  intros v a. destruct v; try done. apply members_forget.
Qed.

(** ** Runs for the witnesses *)

Definition an_adapter : ProviderAdapter := anthropic_adapter a_parser.
#[local] Existing Instance an_adapter.
#[local] Instance an_lawful : Lawful := anthropic_lawful a_parser.

Definition clocks : Deadlines := {|
  dl_idle := 60000000000; dl_max := 600000000000; dl_client_write := 30000000000; dl_keepalive := 15000000000 |}.

Definition a_pass (ticks : list Sent) (next : Read) (sent : Sent) : Pass :=
  {| at_top := 0; ticks := ticks; next := next; read_at := 1; sent := sent; sent_at := 2 |}.

Definition an_answer : list ascii := Str.bytes (AnthropicStream.join (map (AnthropicStream.frame a_printer)
  (AnthropicStream.render_all [EvStart "m" no_usage; EvTextDelta "hi"; EvStop StopEndTurn OpenAIStream.used]
     (AnthropicStream.new "1" "m")).1)).

(** Three reads of one answer, the first ending inside a frame; one client takes
    everything, the other hangs up at the second write. *)
Definition run_of (ticks : list Sent) (second : Sent) : list Pass := [
  a_pass ticks (ReadBytes (List.firstn 40 an_answer)) Accepted;
  a_pass ticks (ReadBytes (List.skipn 40 an_answer)) second;
  a_pass ticks ReadEnd Accepted].

Definition no_text (l : list ascii) : string := "".
Definition no_json (l : list ascii) : option Json := None.
Definition no_base64 (s : string) : option (list ascii) := None.

#[local] Abbreviation an_egress := (Passthrough AnthropicMessages "1" "m").
#[local] Abbreviation pumped :=
  (Pump.pump_with a_printer a_parser no_text no_json no_base64 clocks an_egress Names.identity).
#[local] Abbreviation waved := {| fw_error := Accepted; fw_done := Accepted; fw_total := 9 |}.

Lemma run_punctual ticks second : Forall (punctual clocks) (run_of ticks second).
Proof. repeat constructor. Qed.

(** A question asked of a finished run. *)
Definition of_run (r : Run (PumpOutcome * list Write)) (ask : PumpOutcome → list Write → bool) : bool :=
  match r with Finished (o, ws) => ask o ws | _ => false end.

#[local] Abbreviation full_run := (pumped (run_of [Accepted] Accepted) waved).
#[local] Abbreviation cut_run := (pumped (run_of [Stalled] Refused) waved).
#[local] Abbreviation broken_env := [a_pass [] (ReadBytes (List.firstn 40 an_answer)) Accepted; a_pass [] ReadEnd Accepted].
#[local] Abbreviation silent_env := [a_pass [] (ReadBytes an_answer) Accepted; a_pass [] ReadIdle Accepted].

Lemma collector_agrees_with_pump_witness :
  match cut_run,
    Pump.collect_stream_with a_printer no_text no_json no_base64 clocks Names.identity (run_of [Stalled] Refused) with
  | Finished (o, _), Finished (Ok (_, acc)) => alike (po_accumulator o) acc ∧ text_len (po_accumulator o) = 2
  | _, _ => False
  end.
Proof.
  pose proof (collector_agrees_with_pump a_printer a_parser no_text no_json no_base64 clocks an_egress
    Names.identity (run_of [Stalled] Refused) waved (run_punctual _ _)) as H.
  assert (of_run cut_run (fun o _ => bool_decide (po_error o = None) && (text_len (po_accumulator o) =? 2)) = true)
    as Hf by (vm_compute; reflexivity).
  destruct cut_run as [| |[o ws]]; [discriminate Hf..|]. cbn [of_run] in Hf.
  apply andb_true_iff in Hf as [He%bool_decide_eq_true Ht%Z.eqb_eq].
  destruct (Pump.collect_stream_with _ _ _ _ _ _ _) as [| |[[es acc]|[f acc]]]; [done..| |].
  - destruct H as [Ha _]. by split.
  - destruct H as (_ & [Hx|[m Hx]]); rewrite He in Hx; discriminate Hx.
Defined.

Lemma accounting_ignores_the_client_witness :
  match full_run, cut_run with
  | Finished (o, _), Finished (o', _) => po_client_gone o = false ∧ po_client_gone o' = true ∧
      ∃ h broke, accounts o h broke ∧ accounts o' h broke
  | _, _ => False
  end.
Proof.
  pose proof (accounting_ignores_the_client a_printer a_parser no_text no_json no_base64 clocks an_egress
    Names.identity (run_of [Accepted] Accepted) waved) as [H Hsame].
  pose proof (accounting_ignores_the_client a_printer a_parser no_text no_json no_base64 clocks an_egress
    Names.identity (run_of [Stalled] Refused) waved) as [H' _].
  specialize (Hsame (run_of [Stalled] Refused) ltac:(repeat constructor)).
  assert (of_run full_run (fun o _ => negb (po_client_gone o)) = true) as Hf by (vm_compute; reflexivity).
  assert (of_run cut_run (fun o _ => po_client_gone o) = true) as Hc by (vm_compute; reflexivity).
  destruct full_run as [| |[o ws]]; [discriminate Hf..|]. destruct cut_run as [| |[o' ws']]; [discriminate Hc..|].
  cbn [of_run] in Hf, Hc. split; [by apply negb_true_iff in Hf|]. split; [exact Hc|].
  assert (∀ ticks second before s after, run_of ticks second = before ++ s :: after → ¬ overheld clocks s) as Hn.
  { intros ticks second before s after E [_ Hs]. pose proof (run_punctual ticks second) as Hp. rewrite E in Hp.
    apply Forall_app in Hp as [_ Hp]. inversion Hp; subst. unfold punctual in *. lia. }
  destruct H as [(h & broke & E & Ha)|(before & s & after & E & Ho & _)]; [|by destruct (Hn _ _ _ _ _ E)].
  destruct H' as [(h' & broke' & E' & Ha')|(before & s & after & E' & Ho & _)]; [|by destruct (Hn _ _ _ _ _ E')].
  exists h, broke. split; [exact Ha|]. rewrite Hsame, E in E'. injection E' as <- <-. exact Ha'.
Defined.

(** A client that holds the second of three reads for as long as a stream may
    last: the run ends there, the words it was being sent accounted for. *)
Example held_past_the_ceiling :
  of_run (pumped [
    a_pass [] (ReadBytes (List.firstn 40 an_answer)) Accepted;
    {| at_top := 0; ticks := []; next := ReadBytes (List.skipn 40 an_answer); read_at := 1; sent := Stalled;
       sent_at := 600000000000 |};
    a_pass [] ReadEnd Accepted] waved)
    (fun o _ => po_client_gone o && (text_len (po_accumulator o) =? 2) &&
      match po_error o with Some TooLong => true | _ => false end) = true.
Proof. vm_compute. reflexivity. Qed.

Lemma pump_ends_witness :
  ∃ o ws, pumped silent_env waved = Finished (o, ws).
Proof.
  destruct (pump_ends a_printer a_parser no_text no_json no_base64 clocks an_egress Names.identity silent_env waved)
    as [_ H].
  apply H. right. left. right. intros chunk. discriminate.
Defined.

Lemma ending_is_told_once_witness :
  match pumped broken_env waved with
  | Finished (o, ws) => ∃ flight frame, ws = flight ++ [WError frame] ∧
      tells a_printer an_egress "upstream closed before the response was complete" frame
  | _ => False
  end.
Proof.
  pose proof (ending_is_told_once a_printer a_parser no_text no_json no_base64 clocks an_egress Names.identity
    broken_env waved) as H.
  assert (of_run (pumped broken_env waved) (fun o _ => negb (po_client_gone o) &&
    bool_decide (stop_reason (po_accumulator o) = None) &&
    match po_error o with Some ClosedEarly => true | _ => false end) = true) as Hf by (vm_compute; reflexivity).
  destruct (pumped broken_env waved) as [| |[o ws]]; [discriminate Hf..|]. cbn [of_run] in Hf.
  destruct (H o ws eq_refl) as (_ & flight & farewell & Hws & _ & _ & Hh & _).
  apply andb_true_iff in Hf as [[Hg%negb_true_iff Hs%bool_decide_eq_true]%andb_true_iff He].
  destruct (Hh Hg) as (_ & Hi & _). destruct (Hi ClosedEarly) as (message & frame & Hm & Ht & Hfr).
  - split; [exact Hs|]. split; [|discriminate]. by destruct (po_error o) as [[]|].
  - by eexists.
  - exists flight, frame. split; [by rewrite Hws, Hfr|]. cbn in Hm. by rewrite <-Hm.
Defined.

Lemma passthrough_is_verbatim_witness :
  match full_run with
  | Finished (o, ws) => ∃ heard, List.concat (map data_bytes ws) = reads heard ∧ length heard = 2%nat
  | _ => False
  end.
Proof.
  pose proof (passthrough_is_verbatim a_printer a_parser no_text no_json no_base64 clocks AnthropicMessages "1" "m"
    eq_refl Names.identity (run_of [Accepted] Accepted) waved) as H.
  assert (of_run full_run (fun o ws => negb (po_client_gone o) &&
    bool_decide (List.concat (map data_bytes ws) = an_answer)) = true) as Hf by (vm_compute; reflexivity).
  destruct full_run as [| |[o ws]]; [discriminate Hf..|]. cbn [of_run] in Hf.
  apply andb_true_iff in Hf as [_ Hd%bool_decide_eq_true].
  destruct (H o ws eq_refl) as (heard & rest & flight & farewell & E & _ & _ & Hh & Ht & _).
  exists heard. split; [exact Hh|]. rewrite Hd in Hh. clear - E Ht Hh.
  destruct heard as [|s0 [|s1 [|s2 l]]]; [vm_compute in Hh; discriminate|
    injection E as <- _; vm_compute in Hh; discriminate|done|].
  injection E as _ _ <- _. inversion Ht as [|? ? _ Ht1]; subst. inversion Ht1 as [|? ? _ Ht2]; subst.
  inversion Ht2 as [|? ? [_ (chunk & Hc & _)] _]; subst. discriminate Hc.
Defined.

Lemma pump_is_bounded_witness :
  match Pump.turn a_printer a_parser no_text no_json no_base64 clocks an_egress (start an_egress Names.identity)
    (a_pass [] (ReadBytes (List.firstn 40 an_answer)) Refused) with
  | Again p => pu_signals p = (if pu_gone p then 1 else 0)%nat
  | _ => False
  end.
Proof.
  destruct (Pump.turn a_printer a_parser no_text no_json no_base64 clocks an_egress (start an_egress Names.identity)
    (a_pass [] (ReadBytes (List.firstn 40 an_answer)) Refused)) as [p| |] eqn:E.
  - assert (reached a_printer a_parser no_text no_json no_base64 clocks an_egress Names.identity p) as H.
    { eapply reached_turn; [apply reached_start|exact E]. }
    apply (pump_is_bounded a_printer a_parser no_text no_json no_base64) in H. apply H.
  - vm_compute in E. discriminate E.
  - vm_compute in E. discriminate E.
Defined.

(** ** A failure told inside a frame *)

(** What a chat client is sent when its upstream breaks off inside a [data:] line. *)
#[local] Abbreviation glued_run :=
  (@Pump.pump_with (openai_adapter a_parser) a_printer a_parser no_text no_json no_base64 clocks
    (Passthrough OpenAIChatCompletions "1" "m") Names.identity
    [a_pass [] (ReadBytes (Str.bytes "data: {1")) Accepted; a_pass [] ReadEnd Accepted] waved).

Definition glued (o : PumpOutcome) (ws : list Write) : bool :=
  match po_error o, ws with
  | Some ClosedEarly, [WData bytes; WError frame] =>
      negb (po_client_gone o) && bool_decide (bytes = Str.bytes "data: {1") &&
      bool_decide (SseFrames.payloads (List.concat (map write_bytes ws)) = [Str.trim ("{1" +:+ frame)]) &&
      match a_parser (Str.trim ("{1" +:+ frame)) with None => true | Some _ => false end
  | _, _ => false
  end.

Lemma glued_iff o ws : glued o ws = true ↔
  po_error o = Some ClosedEarly ∧ po_client_gone o = false ∧
  ∃ frame, ws = [WData (Str.bytes "data: {1"); WError frame] ∧
    SseFrames.payloads (List.concat (map write_bytes ws)) = [Str.trim ("{1" +:+ frame)] ∧
    a_parser (Str.trim ("{1" +:+ frame)) = None.
Proof.
  unfold glued. split.
  - destruct (po_error o) as [[]|]; try done.
    destruct ws as [|[|bytes|frame|frame] [|[|bytes'|frame'|frame'] [|? ?]]]; try done.
    rewrite !andb_true_iff, negb_true_iff, !bool_decide_eq_true.
    intros [[[Hg ->] Hp] Ha]. split; [done|]. split; [done|]. exists frame'. split; [done|]. split; [exact Hp|].
    by destruct (a_parser _).
  - intros (-> & -> & frame & -> & Hp & Ha).
    by rewrite Ha, !bool_decide_eq_true_2 by done.
Qed.

(** Where bytes are passed through, the error frame is written wherever the
    bytes stopped.  A chat client whose upstream breaks off inside a [data:]
    line is sent the error on the end of that line: all it reads is one
    payload, the broken line with the error's own frame in it, which is no JSON
    -- and nothing tells it that its stream failed. *)
Theorem error_frame_is_glued :
  match glued_run with
  | Finished (o, ws) => po_error o = Some ClosedEarly ∧ po_client_gone o = false ∧
      ∃ frame, ws = [WData (Str.bytes "data: {1"); WError frame] ∧
        SseFrames.payloads (List.concat (map write_bytes ws)) = [Str.trim ("{1" +:+ frame)] ∧
        a_parser (Str.trim ("{1" +:+ frame)) = None
  | _ => False
  end.
Proof.
  assert (of_run glued_run glued = true) as H by (vm_compute; reflexivity).
  destruct glued_run as [| |[o ws]]; [discriminate H..|]. by apply glued_iff.
Qed.

End Pumped.
