(* ===== verification/Collected.v ===== *)
(** * An answer collected whole, and one collected from its stream

    [collect_with] and [collect_stream_with] of
    [crates/oag-server/src/gateway/sse.rs] over one Converse answer: the bytes
    of its event stream, cut as the connection cuts them, and the bytes of its
    body come to one account and one body for the client. *)

From Stdlib Require Import Ascii.
From S2P Require Import Prelude Text Money Domain Efforts Catalog Cost.
From S2P Require Import Ladder Classify Budget Policy Canonical Wire Names Stream.
From S2P Require Import Anthropic AnthropicStream Hub Frames Converse ConverseStream OpenAI OpenAIStream.
From S2P Require Import Gemini Responses ResponsesStream Pump.
#[local] Open Scope string_scope.
#[local] Open Scope oag_scope.
#[local] Open Scope list_scope.
#[local] Open Scope Z_scope.

Module Collected.
Import Js Wire Pump.

(** What is relied on of the packages that read bytes: JSON from bytes is JSON
    from their text, and valid UTF-8 decodes to itself. *)
Class ByteText (to_string : Json → string) (from_json : list ascii → option Json)
    (from_utf8_lossy : list ascii → string) : Prop := {
  bytes_parse v : from_json (Str.bytes (to_string v)) = Some v;
  utf8_decodes b : Utf8.valid b = true → from_utf8_lossy b = Str.of_bytes b
}.

Section collected.
Context (to_string : Json → string) (from_str : string → option Json) (from_utf8_lossy : list ascii → string)
  (from_json : list ascii → option Json) (base64_decode : string → option (list ascii))
  (json_error : list ascii → string).
Context {Htext : Frames.JsonText to_string from_str} {Hbytes : ByteText to_string from_json from_utf8_lossy}.

#[local] Instance adapter : ProviderAdapter := converse_adapter from_str.

(** ** What of a stream of messages has arrived *)

Definition partial (r : list ascii) (outs : list (list ascii)) : Prop :=
  match outs with [] => r = [] | out :: _ => (length r < length out)%nat end.

#[local] Abbreviation take_messages := (EventStream.take_messages from_utf8_lossy).

Lemma frames_cut sent outs x y :
  Forall2 (EventStream.framed) sent outs → List.concat outs = x ++ y →
  ∃ k r, take_messages x = Some (map EventStream.read_back (List.firstn k sent), r) ∧
    r ++ y = List.concat (List.skipn k outs) ∧ partial r (List.skipn k outs).
Proof using Hbytes.
  intros H. revert x y; induction H as [|m out sent outs (He & Hm & Hv) Hall IH]; intros x y Hxy.
  { symmetry in Hxy. apply app_eq_nil in Hxy as [-> ->]. by exists 0%nat, []. }
  assert (EventStream.readable from_utf8_lossy m.1) as Hr.
  { intros n v Hin. destruct (Hv n v Hin).
    by split; rewrite (utf8_decodes (to_string:=to_string) (from_json:=from_json)), Str.of_bytes_bytes. }
  cbn [List.concat] in Hxy. destruct (Nat.le_gt_cases (length out) (length x)) as [Hle|Hgt].
  - assert (x = out ++ List.skipn (length out) x) as Hx.
    { rewrite <-(firstn_skipn (length out) x) at 1. f_equal.
      apply (f_equal (List.firstn (length out))) in Hxy.
      rewrite firstn_app, Nat.sub_diag, firstn_all, firstn_O, app_nil_r in Hxy.
      rewrite firstn_app in Hxy. replace (length out - length x)%nat with 0%nat in Hxy by lia.
      by rewrite firstn_O, app_nil_r in Hxy. }
    set (x' := List.skipn (length out) x) in *. clearbody x'. subst x.
    rewrite <-app_assoc in Hxy. apply app_inv_head in Hxy.
    destruct (IH x' y Hxy) as (k & r & Ht & Hcat & Hp). exists (S k), r.
    rewrite EventStream.take_messages_front,
      (EventStream.front_encoded from_utf8_lossy m.1 m.2 out x' He Hr Hm), Ht. done.
  - exists 0%nat, x. cbn [List.firstn List.skipn map partial]. split; [|done].
    rewrite EventStream.take_messages_front.
    destruct (EventStream.front_spec from_utf8_lossy x) as [->|(f & total & Hf & _)]; [done|exfalso].
    pose proof (EventStream.front_app from_utf8_lossy x y _ _ Hf) as Happ. rewrite <-Hxy in Happ.
    rewrite (EventStream.front_encoded from_utf8_lossy m.1 m.2 out _ He Hr Hm) in Happ.
    assert (List.concat outs = List.skipn (Z.to_nat total) x ++ y) as Hlen by congruence.
    apply (f_equal length) in Hlen, Hxy. rewrite !length_app in Hlen. rewrite !length_app in Hxy. lia.
Qed.

Lemma encoded_nonempty hs payload out : EventStream.encode hs payload = Some out → (0 < length out)%nat.
Proof using Type.
  clear Htext Hbytes.
  assert (∀ l n, (0 < length (l ++ EventStream.to_be_bytes 4 n))%nat) as Hne.
  { intros l n. rewrite length_app. pose proof (EventStream.be_size 4 n) as H. unfold EventStream.size in H. lia. }
  unfold EventStream.encode. destruct (EventStream.encode_headers hs) as [block|]; [|done].
  case_match; [intros ?; congruence|]. intros Hout. apply (inj Some) in Hout. rewrite <-Hout. apply Hne.
Qed.

(** ** The messages of an answer *)

Definition message (kv : string * Json) : list (string * string) * list ascii :=
  ([(":message-type", "event"); (":event-type", kv.1); (":content-type", "application/json")],
   Str.bytes (to_string kv.2)).

Lemma message_event kv :
  EventStream.converse_event from_utf8_lossy from_json (EventStream.read_back (message kv)) =
  Some (EventStream.Printed (JObject [kv])).
Proof using Hbytes.
  destruct kv as [kind v]. unfold EventStream.converse_event.
  change (frame_payload (EventStream.read_back (message (kind, v)))) with (Str.bytes (to_string v)).
  rewrite bytes_parse. done.
Qed.

Lemma messages_taken l :
  filter_map (EventStream.converse_event from_utf8_lossy from_json)
    (map EventStream.read_back (map message l)) = map (fun kv => EventStream.Printed (JObject [kv])) l.
Proof using Hbytes. induction l as [|kv l IH]; [done|]. cbn [map filter_map]. by rewrite message_event, IH. Qed.

Lemma payload_read kv x : collect_payload x (to_string (JObject [kv])) = ConverseStream.read_one x kv.
Proof using Htext.
  destruct x as [a es], kv as [kind v]. unfold collect_payload, ConverseStream.read_one.
  cbn [parse_event adapter converse_adapter fst snd]. unfold changing, Converse.parse_event.
  rewrite Frames.text_parses. cbn [ok_or result_bind Converse.event_of fold_left]. unfold Converse.member.
  cbn [fst snd app]. by destruct (Converse.parse_stream_event kind v a).
Qed.

Lemma payloads_read l x :
  fold_left collect_payload (map (payload_text to_string)
    (map (fun kv => EventStream.Printed (JObject [kv])) l)) x = ConverseStream.read_all l x.
Proof using Htext.
  unfold ConverseStream.read_all. revert x; induction l as [|kv l IH]; intros x; [done|].
  cbn [map fold_left payload_text]. by rewrite payload_read, IH.
Qed.

#[local] Abbreviation take := (Pump.take to_string from_utf8_lossy from_json base64_decode).

(** What one read of the stream takes. *)
Lemma take_cut l outs x y :
  Forall2 EventStream.framed (map message l) outs → List.concat outs = x ++ y →
  ∃ k r, take x = Some (map (payload_text to_string)
      (map (fun kv => EventStream.Printed (JObject [kv])) (List.firstn k l)), r) ∧
    r ++ y = List.concat (List.skipn k outs) ∧ partial r (List.skipn k outs).
Proof using Hbytes.
  intros H Hxy. destruct (frames_cut (map message l) outs x y H Hxy) as (k & r & Ht & Hr & Hp).
  exists k, r. split; [|done]. unfold Pump.take, Frames.take_payloads. cbn [framing adapter converse_adapter].
  unfold Frames.events. rewrite Ht, firstn_map, messages_taken. done.
Qed.

(** ** A whole read *)

(** A pass that brings bytes before the ceiling. *)
Definition timely (d : Deadlines) (s : Pass) (chunk : list ascii) : Prop :=
  at_top s < dl_max d ∧ next s = ReadBytes chunk.

#[local] Abbreviation collect_loop := (Pump.collect_loop to_string from_utf8_lossy from_json base64_decode).

Lemma collect_cut d fin reads chunks : at_top fin < dl_max d → next fin = ReadEnd →
  Forall2 (timely d) reads chunks → ∀ l outs r x,
  Forall2 EventStream.framed (map message l) outs →
  Forall (fun out => Z.of_nat (length out) ≤ MAX_PENDING) outs →
  r ++ List.concat chunks = List.concat outs → partial r outs →
  collect_loop d {| co_acc := x.1; co_events := x.2; co_pending := r |} (reads ++ [fin]) =
  Finished (judged (ConverseStream.read_all l x)).
Proof using Htext Hbytes.
  intros Hfin Hend. induction 1 as [|s chunk reads chunks [Hs Hn] _ IH]; intros l outs r x Hf Hsmall Hcat Hp.
  - cbn [List.concat] in Hcat. rewrite app_nil_r in Hcat. subst r.
    assert (outs = []) as ->.
    { destruct outs as [|out outs]; [done|]. cbn [partial List.concat] in Hp. rewrite length_app in Hp. lia. }
    apply Forall2_nil_inv_r, map_eq_nil in Hf as ->. cbn [app Pump.collect_loop]. unfold collect_turn.
    rewrite (proj2 (Z.leb_gt _ _) Hfin), Hend. cbn. by destruct x.
  - cbn [List.concat] in Hcat. rewrite app_assoc in Hcat. symmetry in Hcat.
    destruct (take_cut l outs (r ++ chunk) (List.concat chunks) Hf Hcat) as (k & r' & Ht & Hr & Hp').
    cbn [app Pump.collect_loop]. unfold collect_turn at 1. rewrite (proj2 (Z.leb_gt _ _) Hs), Hn.
    cbn [co_pending co_acc co_events]. rewrite Ht. unfold collect_payloads.
    replace (x.1, x.2) with x by by destruct x. rewrite payloads_read.
    destruct (ConverseStream.read_all (List.firstn k l) x) as [acc events] eqn:Ex.
    assert (Z.of_nat (length r') ≤ MAX_PENDING) as Hle.
    { destruct (List.skipn k outs) as [|out outs'] eqn:Eo; cbn [partial] in Hp'.
      - subst r'. done.
      - rewrite List.Forall_forall in Hsmall.
        assert (In out outs) as Hin; [|specialize (Hsmall out Hin); lia].
        rewrite <-(firstn_skipn k outs), Eo. apply in_app_iff. right. by left. }
    rewrite (proj2 (Z.ltb_ge _ _) Hle).
    pose proof (IH (List.skipn k l) (List.skipn k outs) r' (acc, events)) as Hi. cbn [fst snd] in Hi.
    rewrite Hi; [..|done|done].
    + f_equal. f_equal. rewrite <-Ex. unfold ConverseStream.read_all. by rewrite <-fold_left_app, firstn_skipn.
    + rewrite <-skipn_map. by apply Forall2_drop.
    + by apply Forall_drop.
Qed.

(** One Converse answer, however it comes.  A client that wants one body is
    given the same one, and the same account of it is kept -- usage, text,
    every call with its arguments, stop, and so the verdict on it --, whether
    Bedrock gives the answer whole or streams it, in whatever fragments and
    however the connection cuts the stream's bytes: names and ids restored in
    both, and the stop that a stream announces before its usage held until the
    usage is there. *)
Theorem converse_collected_alike d names a outs reads chunks fin max_duration request_id model :
  usage_ok (a_usage a) → Forall (ConverseStream.whole to_string) (a_parts a) →
  Forall2 EventStream.framed (map message (ConverseStream.stream_of a)) outs →
  Forall (fun out => Z.of_nat (length out) ≤ MAX_PENDING) outs →
  Forall2 (timely d) reads chunks → List.concat chunks = List.concat outs →
  at_top fin < dl_max d → next fin = ReadEnd →
  let body := Str.bytes (to_string (ConverseStream.body_of a)) in
  ∃ events events' acc,
    collect_stream_with to_string from_utf8_lossy from_json base64_decode d names (reads ++ [fin]) =
      Finished (Ok (events, acc)) ∧
    collect_with to_string from_json json_error (BodyBytes body) BedrockConverse names max_duration =
      Ok (body, events', acc) ∧
    Hub.render_from_events from_str events request_id model =
      Hub.render_from_events from_str events' request_id model.
Proof using Htext Hbytes.
  intros Hu Hw Hf Hsmall Hreads Hcat Hfin Hend body.
  pose proof (ConverseStream.stream_told to_string from_str names model a Hu Hw) as Htold.
  pose proof (ConverseStream.stream_ends names a) as [Herr [stop Hstop]].
  pose proof (ConverseStream.stream_read names a Hu) as Hread.
  set (es := ConverseStream.stream_events names a) in *.
  set (es' := Stream.restore_in_events names (Converse.parse_response to_string (ConverseStream.body_of a))) in *.
  exists es, es', (Stream.observe_all (Stream.with_function_names Stream.new names) es).
  rewrite Hread in Htold. split; [|split].
  - unfold collect_stream_with.
    etransitivity; [apply (collect_cut d fin reads chunks Hfin Hend Hreads (ConverseStream.stream_of a) outs []
      (Stream.with_function_names Stream.new names, []) Hf Hsmall)|].
    + done.
    + destruct outs as [|out outs]; [done|]. cbn [partial].
      inversion Hf as [|m ? ? ? [He _]]; subst. by apply encoded_nonempty in He.
    + unfold judged. rewrite Hread. unfold error_of in *. rewrite Herr, Hstop. done.
  - unfold collect_with, body. rewrite bytes_parse. cbn [ok_or result_bind read_body].
    fold es'. by rewrite <-(f_equal ConverseStream.ac_acc Htold : 
      Stream.observe_all (Stream.with_function_names Stream.new names) es =
      Stream.observe_all (Stream.with_function_names Stream.new names) es').
  - unfold Hub.render_from_events.
    by rewrite (f_equal ConverseStream.ac_hub Htold :
      fold_left (Hub.hub_step from_str) es (Hub.hub_new model) =
      fold_left (Hub.hub_step from_str) es' (Hub.hub_new model)).
Qed.

End collected.

(** ** An answer, for the witness *)

Definition slice_parser (b : list ascii) : option Json := a_parser (Str.of_bytes b).
Definition no_base64 (s : string) : option (list ascii) := None.
Definition no_error (b : list ascii) : string := "".

#[local] Instance a_bytes : ByteText a_printer slice_parser Str.of_bytes.
Proof.
  split; [|done]. intros v. unfold slice_parser. by rewrite Str.of_bytes_bytes, a_printer_parses.
Qed.

(** The request of [converse_example] is answered by the call it made before,
    under the spellings it was sent. *)
Definition an_answer : Answer := {|
  a_parts := [PText ["o"; "k"]; PCall "read_file_1" "fs_read" JNull [a_printer JNull]];
  a_reason := "tool_use"; a_usage := {| input_tokens := 3; output_tokens := 2; cache_read_tokens := 0;
    cache_write_tokens := 0 |} |}.

Definition answer_outs : list (list ascii) :=
  filter_map (fun m => EventStream.encode m.1 m.2) (map (message a_printer) (ConverseStream.stream_of an_answer)).

Definition answer_pass (next : Read) : Pass :=
  {| at_top := 0; ticks := []; next := next; read_at := 1; sent := Accepted; sent_at := 2 |}.

Definition answer_chunks : list (list ascii) :=
  [List.firstn 700 (List.concat answer_outs); List.skipn 700 (List.concat answer_outs)].

Definition answer_clocks : Deadlines :=
  {| dl_idle := 60; dl_max := 600; dl_client_write := 30; dl_keepalive := 15 |}.

Definition framedb (m : list (string * string) * list ascii) (out : list ascii) : bool :=
  bool_decide (EventStream.encode m.1 m.2 = Some out) && (Z.of_nat (length out) <=? MAX_PENDING) &&
  all (fun nv : string * string => Utf8.valid (Str.bytes nv.1) && Utf8.valid (Str.bytes nv.2)) m.1.

Lemma framedb_framed m out :
  framedb m out = true → EventStream.framed m out ∧ Z.of_nat (length out) ≤ MAX_PENDING.
Proof.
  unfold framedb. rewrite !andb_true_iff, bool_decide_eq_true, Z.leb_le, all_true. intros [[He Hl] Hv].
  split; [|done]. split; [done|]. split.
  - unfold EventStream.size, EventStream.MAX_MESSAGE_LEN, MAX_PENDING in *. lia.
  - intros n v Hin. specialize (Hv (n, v) Hin). by apply andb_true_iff in Hv.
Qed.

Lemma all_framed ms outs :
  length ms = length outs → all (fun mo => framedb mo.1 mo.2) (zip ms outs) = true →
  Forall2 EventStream.framed ms outs ∧ Forall (fun out => Z.of_nat (length out) ≤ MAX_PENDING) outs.
Proof.
  revert outs; induction ms as [|m ms IH]; intros [|out outs] Hl H; try done. cbn in H.
  apply andb_true_iff in H as [H1 H2]. apply framedb_framed in H1 as [H1 H3].
  destruct (IH outs) as [H4 H5]; [by injection Hl|done|]. split; by constructor.
Qed.

Lemma converse_collected_alike_witness :
  ∃ events acc,
    @collect_stream_with (converse_adapter a_parser) a_printer Str.of_bytes slice_parser no_base64 answer_clocks
      (Converse.restoring Converse.converse_example)
      (map (fun c => answer_pass (ReadBytes c)) answer_chunks ++ [answer_pass ReadEnd]) =
      Finished (Ok (events, acc)) ∧ Stream.tool_ids acc = ["read_file#1"].
Proof.
  destruct (all_framed (map (message a_printer) (ConverseStream.stream_of an_answer)) answer_outs) as [Hf Hs];
    [by vm_compute|by vm_compute|].
  assert (usage_ok (a_usage an_answer)) as Hu by (repeat constructor; discriminate).
  assert (Forall (ConverseStream.whole a_printer) (a_parts an_answer)) as Hw by (repeat constructor; discriminate).
  assert (Forall2 (timely answer_clocks) (map (fun c => answer_pass (ReadBytes c)) answer_chunks) answer_chunks)
    as Ht by (unfold answer_chunks; cbn [map]; repeat constructor).
  assert (List.concat answer_chunks = List.concat answer_outs) as Hc.
  { unfold answer_chunks. cbn [List.concat]. by rewrite app_nil_r, firstn_skipn. }
  destruct (converse_collected_alike a_printer a_parser Str.of_bytes slice_parser no_base64 no_error answer_clocks
    (Converse.restoring Converse.converse_example) an_answer answer_outs _ answer_chunks (answer_pass ReadEnd)
    600 "1" "m" Hu Hw Hf Hs Ht Hc eq_refl eq_refl) as (events & events' & acc & H1 & H2 & _).
  exists events, acc. split; [exact H1|].
  assert (match collect_with a_printer slice_parser no_error
    (BodyBytes (Str.bytes (a_printer (ConverseStream.body_of an_answer)))) BedrockConverse
    (Converse.restoring Converse.converse_example) 600 with
    | Ok (_, _, acc) => bool_decide (Stream.tool_ids acc = ["read_file#1"]) | Err _ => false end = true) as H3
    by (vm_compute; reflexivity).
  rewrite H2 in H3. by apply bool_decide_eq_true in H3.
Defined.

End Collected.
