(* ===== verification/Failover.v ===== *)
(** * One attempt at one rung

    [crates/oag-server/src/gateway/failover.rs]: leases, same-credential
    retries, backoff, breakers and failover.

    What lies outside -- the pool's lease, the token refresh, the adapter, the
    transport and the upstream, the clock -- is an environment [Env]: a
    function of how far the run has come ([tick]), so two calls may answer
    differently, about which nothing is assumed unless a theorem says so.  What
    the code does to the world is its state: the breakers of the replica, and a
    trace of the leases, releases, requests, parkings and waits in order. *)

From Stdlib Require Import Ascii Sorted QArith.
From S2P Require Import Prelude Text Money Domain Breaker Efforts Catalog Cost.
From S2P Require Import Ladder Classify Budget Policy Canonical Names Stream Meter Frames.
#[local] Open Scope string_scope.
#[local] Open Scope list_scope.
#[local] Open Scope Z_scope.

(** ** Data *)

Record Adapter : Type := {
  adapter_dialect : Dialect;
  adapter_framing : Framing;
  always_streams : bool
}.

Inductive Attempt : Type :=
  | Streaming (lease : Lease) (attempt : Z) (names : Names.FunctionNameMap)
  | Collected (accumulator : StreamAccumulator) (lease : Lease) (attempt : Z)
  | RejectedAttempt (e : Error).

Inductive Outcome : Type :=
  | OutOk (a : Attempt)
  | OutSwitch (e : Error)
  | OutLost (e : Error) (accumulator : StreamAccumulator)
  | OutRaced
  | OutEscalate (e : Error)
  | OutFatal (e : Error).

Inductive Step : Type := StepRetry | StepEscalate | StepSwitch | StepFatal.

(** What the upstream answers a request with. *)
Inductive Reply : Type :=
  | ReplySuccess
  | ReplyStatus (status : Z) (body : string) (retry_after : option string)
  | ReplyError (e : Error).

Inductive Event : Type :=
  | EvLease (a : AccountId)
  | EvRelease (a : AccountId)
  | EvSend (a : AccountId)
  (** what came of reading the answer to dispatch [n]: a stream read through,
      which may break off, or a whole body *)
  | EvStream (a : AccountId) (n : Z) (came : result StreamAccumulator (Error * StreamAccumulator))
  | EvBody (a : AccountId) (n : Z) (came : result StreamAccumulator Error)
  | EvRefused (a : AccountId)
  | EvCoolDown (a : AccountId) (cooldown : Z)
  | EvRateLimit (a : AccountId) (wait : Z)
  | EvSleep (ms : Z).

Record Env {D : Type} : Type := {
  max_account_switches : nat;
  same_account_retries : nat;
  failover_budget : Z;
  clock : nat → Z;
  pool_lease : nat → Provider → list AccountId → option CredentialKind → result Lease Error;
  adapter_of : nat → Provider → Lease → result Adapter Error;
  ensure_fresh : nat → Lease → result () Error;
  prepare_credential : nat → Lease → result () Error;
  build : nat → ModelSpec D → CanonicalRequest → result () Error;
  transport : nat → Lease → result () Error;
  execute : nat → Lease → Reply;
  collect_stream : nat → Lease → Names.FunctionNameMap → result StreamAccumulator (Error * StreamAccumulator);
  collect_body : nat → Lease → Names.FunctionNameMap → result StreamAccumulator Error
}.

Arguments Env : clear implicits.

Record World : Type := {
  tick : nat;
  breakers : Fleet.Breakers;
  trace : list Event
}.

Module Failover.

(** ** Pure parts *)

Definition SECS := Errors.SECS.
Definition MAX_RETRY_AFTER : Z := 3600.
Definition MAX_BACKOFF : Z := 3 * SECS.
Definition TRANSPORT_COOLDOWN : Z := 30 * SECS.

Definition may_try_another (switch : nat) (elapsed budget : Z) : bool :=
  (Nat.eqb switch 0) || (elapsed <? budget).

Definition step_for (d : Disposition) (retries_left : bool) : Step :=
  match d, retries_left with
  | RetrySameAccount, true => StepRetry
  | EscalateTier, _ => StepEscalate
  | Fatal, _ => StepFatal
  | _, _ => StepSwitch
  end.

(** [str::parse::<u64>]. *)
Definition parse_u64 (s : string) : option Z :=
  let digits := match s with String "+" r => r | _ => s end in
  if Str.is_empty digits || negb (all Str.is_ascii_digit (Str.bytes digits)) then None
  else if Str.value digits <=? U64_MAX then Some (Str.value digits) else None.

(** [upstream_retry_after] of the header's text, as [to_str] gives it. *)
Definition upstream_retry_after (header : option string) : option Z :=
  match header with
  | None => None
  | Some text =>
      match parse_u64 (Str.trim text) with
      | Some secs => if (1 <=? secs) && (secs <=? MAX_RETRY_AFTER) then Some (secs * SECS) else None
      | None => None
      end
  end.

(** [truncate] of [respond.rs]: at most [max] bytes, a character not split. *)
Definition is_char_boundary (s : string) (n : nat) : bool :=
  match Str.bytes s !! n with
  | Some c => negb (Str.in_span 128 191 c)
  | None => true
  end.

Fixpoint boundary_below (s : string) (n : nat) : nat :=
  match n with
  | O => O
  | S n' => if is_char_boundary s n then n else boundary_below s n'
  end.

Definition ELLIPSIS : string := Str.of_bytes ["226"; "128"; "166"]%char.

Definition truncate (s : string) (max : nat) : string :=
  if Nat.leb (String.length s) max then s
  else String.append (Str.take (boundary_below s max) s) ELLIPSIS.

Definition backoff (attempt : Z) : Z :=
  Z.min (sat_mul U64_MAX 300 (Z.shiftl 1 (Z.min attempt 4))) MAX_BACKOFF.

Definition collect_failed (failure : Error * StreamAccumulator) : Outcome :=
  let '(e, accumulator) := failure in
  if 0 <? output_tokens (usage accumulator) then OutLost e accumulator else OutSwitch e.

(** [adapter_for]'s choice: a Codex seat is an OAuth credential of OpenAI. *)
Definition is_codex_seat (p : Provider) (kind : string) : bool :=
  match p with
  | OpenAI => match Credential.from_column kind with Some OAuth => true | _ => false end
  | _ => false
  end.

Definition openai_function_names (r : CanonicalRequest) (upstream : Dialect) : Names.FunctionNameMap :=
  match upstream with
  | OpenAIChatCompletions | OpenAIResponses => Names.from_request r
  | BedrockConverse => Names.with_tool_use_ids (Names.from_request r) (Names.ids_from_request r)
  | _ => Names.identity
  end.

(** [egress_for]: which renderer answers the client, the request id and model
    it carries aside. *)
Inductive Egress : Type :=
  | EgressPassthrough (d : Dialect) | EgressChatCompletions | EgressAnthropicMessages
  | EgressGemini | EgressResponses.

Definition egress_for (ingress : Dialect) (framing : Framing) (upstream : Dialect)
    (rewrite_tool_names : bool) : result Egress Error :=
  if bool_decide (ingress = upstream) && bool_decide (framing = Sse) && negb rewrite_tool_names
  then Ok (EgressPassthrough ingress)
  else
    match ingress with
    | OpenAIChatCompletions => Ok EgressChatCompletions
    | AnthropicMessages => Ok EgressAnthropicMessages
    | GeminiGenerateContent => Ok EgressGemini
    | OpenAIResponses => Ok EgressResponses
    | _ => Err (Internal "no renderer")
    end.

Section failover.
Context {D : Type} (env : Env D).

(** ** The world *)

Definition log (e : Event) (w : World) : World :=
  {| tick := tick w; breakers := breakers w; trace := trace w ++ [e] |}.
Definition set_breakers (bs : Fleet.Breakers) (w : World) : World :=
  {| tick := tick w; breakers := bs; trace := trace w |}.
Definition next (w : World) : World :=
  {| tick := S (tick w); breakers := breakers w; trace := trace w |}.

Definition record_failure (a : AccountId) (w : World) : World :=
  next (set_breakers (Fleet.record_failure (breakers w) a (clock env (tick w))) w).

Definition apply_disposition (a : AccountId) (d : Disposition) (w : World) : World :=
  match d with
  | FailoverAccount cooldown => log (EvCoolDown a cooldown) w
  | DRateLimited retry_after => log (EvRateLimit a (default (60 * SECS) retry_after)) w
  | _ => w
  end.

Definition transport_failure (a : AccountId) (retrying : bool) (w : World)
    : option Disposition * World :=
  let w := record_failure a w in
  if retrying then (None, w) else (Some (FailoverAccount TRANSPORT_COOLDOWN), w).

(** [try_credential] returning: the dispatch guard is dropped. *)
Definition finish (d : Fleet.Dispatch) (o : Outcome) (w : World) : Outcome * World :=
  (o, set_breakers (Fleet.drop (breakers w) d) w).

(** [succeeded]. *)
Definition succeeded (lease : Lease) (adapter : Adapter) (stream : bool) (ordinal : Z)
    (names : Names.FunctionNameMap) (w : World) : Outcome * World :=
  let account := lease_account lease in
  let w := set_breakers (Fleet.record_success (breakers w) account) w in
  if stream then (OutOk (Streaming lease ordinal names), w)
  else if always_streams adapter then
    let came := collect_stream env (tick w) lease names in
    let w := log (EvStream account ordinal came) (next w) in
    match came with
    | Ok accumulator => (OutOk (Collected accumulator lease ordinal), w)
    | Err failure => (collect_failed failure, w)
    end
  else
    let came := collect_body env (tick w) lease names in
    let w := log (EvBody account ordinal came) (next w) in
    match came with
    | Ok accumulator => (OutOk (Collected accumulator lease ordinal), w)
    | Err e => (OutSwitch e, w)
    end.

(** What one pass of the retry loop decides: the credential's outcome, or one
    more request to it after a wait. *)
Inductive Turn : Type :=
  | Done (o : Outcome)
  | Again (e : Error).

(** Before a same-credential retry the breaker is asked again: it may have
    opened on the failure just recorded. *)
Definition recheck (account : AccountId) (e : Error) (d : Fleet.Dispatch) (w : World)
    : Turn * Fleet.Dispatch * World :=
  ((if Fleet.permits (breakers w) account (clock env (tick w)) then Again e else Done (OutSwitch e)),
   d, next w).

(** An answer that is not a success, and no answer. *)
Definition on_status (retrying : bool) (provider : Provider) (lease : Lease)
    (status : Z) (body : string) (retry_after : option string) (d : Fleet.Dispatch) (w : World)
    : Turn * Fleet.Dispatch * World :=
  let account := lease_account lease in
  let w := if status =? 401 then log (EvRefused account) w else w in
  let err := Upstream provider account status (truncate body 512) (upstream_retry_after retry_after) in
  let disposition := Errors.disposition err in
  let w := apply_disposition account disposition (record_failure account w) in
  match step_for disposition retrying with
  | StepRetry => recheck account err d w
  | StepEscalate => (Done (OutEscalate err), d, w)
  | StepSwitch => (Done (OutSwitch err), d, w)
  | StepFatal => (Done (OutFatal err), d, w)
  end.

Definition on_error (retrying : bool) (lease : Lease) (e : Error)
    (d : Fleet.Dispatch) (w : World) : Turn * Fleet.Dispatch * World :=
  let account := lease_account lease in
  match e with
  | UpstreamTimeout _ =>
      (Done (OutSwitch e), d,
       apply_disposition account (Errors.disposition e) (record_failure account w))
  | _ =>
      let '(disposition, w) := transport_failure account retrying w in
      let w := match disposition with Some dn => apply_disposition account dn w | None => w end in
      if negb retrying then (Done (OutSwitch e), d, w) else recheck account e d w
  end.

(** One pass of the retry loop of [try_credential]. *)
Definition turn (retrying : bool) (model : ModelSpec D) (canonical : CanonicalRequest)
    (lease : Lease) (adapter : Adapter) (ordinal : Z) (names : Names.FunctionNameMap)
    (d : Fleet.Dispatch) (w : World)
    : Turn * Fleet.Dispatch * World :=
  match build env (tick w) model canonical with
  | Err e => (Done (OutFatal e), d, next w)
  | Ok _ =>
      let w := next w in
      match transport env (tick w) lease with
      | Err e => (Done (OutSwitch e), d, next w)
      | Ok _ =>
          let d := Fleet.sent d in
          let reply := execute env (tick w) lease in
          let w := log (EvSend (lease_account lease)) (next w) in
          match reply with
          | ReplySuccess =>
              let '(o, w) := succeeded lease adapter (stream canonical) ordinal names w in (Done o, d, w)
          | ReplyStatus status body retry_after =>
              on_status retrying (model_provider model) lease status body retry_after d w
          | ReplyError e => on_error retrying lease e d w
          end
      end
  end.

(** The retry loop; [remaining] attempts remain after this. *)
Fixpoint attempts (remaining : nat) (attempt : Z) (model : ModelSpec D)
    (canonical : CanonicalRequest) (lease : Lease) (adapter : Adapter) (ordinal : Z)
    (names : Names.FunctionNameMap) (d : Fleet.Dispatch) (w : World) : Outcome * World :=
  let '(t, d, w) :=
    turn (negb (Nat.eqb remaining 0)) model canonical lease adapter ordinal names d w in
  match t, remaining with
  | Done o, _ => finish d o w
  | Again e, S remaining =>
      attempts remaining (attempt + 1) model canonical lease adapter ordinal names d
        (log (EvSleep (backoff attempt)) w)
  | Again e, O => finish d (OutSwitch e) w
  end.

Definition try_credential (decision : RoutingDecision D) (canonical : CanonicalRequest)
    (lease : Lease) (ordinal : Z) (w : World) : Outcome * World :=
  let model := dec_model decision in
  match adapter_of env (tick w) (model_provider model) lease with
  | Err e => (OutFatal e, next w)
  | Ok adapter =>
      let canonical :=
        Canonical.for_model canonical (reasoning_efforts model) (adapter_dialect adapter) in
      let names := openai_function_names canonical (adapter_dialect adapter) in
      let w := next w in
      match ensure_fresh env (tick w) lease with
      | Err e => (OutSwitch e, next w)
      | Ok _ =>
          let w := next w in
          match prepare_credential env (tick w) lease with
          | Err e => (OutSwitch e, apply_disposition (lease_account lease) (Errors.disposition e) (next w))
          | Ok _ =>
              let w := next w in
              let now := clock env (tick w) in
              let '(claimed, bs) := Fleet.claim (breakers w) (lease_account lease) now in
              let w := next (set_breakers bs w) in
              match claimed with
              | None => (OutRaced, w)
              | Some d => 
                  attempts (same_account_retries env) 0 model canonical lease adapter ordinal names
                    d w
              end
          end
      end
  end.

(** ** Failover *)

(** What [forward_with_failover] knows of the request: its caller, and the
    constant fields of [Dispatches]. *)
Record Request : Type := { req_auth : AuthContext; request_id : N; req_started : Z }.

(** [Dispatches]: the ordinal the next attempt takes. *)
Definition take (next : Z) : Z * Z := (next, sat_add U8_MAX next 1).

Definition is_no_credential (e : Error) : bool := match e with NoCredential _ => true | _ => false end.

(** The loop of [forward_with_failover]: [remaining] switches remain after this. *)
Fixpoint switches (remaining switch : nat) (began : Z) (decision : RoutingDecision D)
    (canonical : CanonicalRequest) (req : Request) (channel : option CredentialKind) (excluded : list AccountId)
    (last_error : Error) (ordinal : Z) (lost : list (LostAttempt D)) (w : World)
    : result Attempt Error * Z * list (LostAttempt D) * World :=
  let elapsed := clock env (tick w) - began in
  let w := next w in
  if negb (may_try_another switch elapsed (failover_budget env)) then
    (Err last_error, ordinal, lost, w)
  else
    match pool_lease env (tick w) (model_provider (dec_model decision)) excluded channel with
    | Err e =>
        (Err (if is_no_credential last_error then e else last_error), ordinal, lost, next w)
    | Ok lease =>
        let account := lease_account lease in
        let w := log (EvLease account) (next w) in
        let '(attempt, ordinal) := take ordinal in
        let '(outcome, w) := try_credential decision canonical lease attempt w in
        let again last_error lost w :=
          match remaining with
          | O => (Err last_error, ordinal, lost, w)
          | S remaining => switches remaining (S switch) began decision canonical req channel
                        (account :: excluded) last_error ordinal lost w
          end in
        match outcome with
        | OutOk a => (Ok a, ordinal, lost, w)
        | OutFatal e => (Err e, ordinal, lost, log (EvRelease account) w)
        | OutEscalate e => (Ok (RejectedAttempt e), ordinal, lost, log (EvRelease account) w)
        | OutSwitch e => again e lost (log (EvRelease account) w)
        | OutLost e accumulator =>
            let ctx :=
              Meter.meter_context (req_auth req) decision lease (request_id req) (req_started req)
                attempt in
            again e (lost ++ [Meter.lose ctx accumulator e (clock env (tick w))])
              (log (EvRelease account) w)
        | OutRaced => again last_error lost (log (EvRelease account) w)
        end
    end.

Definition forward_with_failover (decision : RoutingDecision D) (canonical : CanonicalRequest)
    (req : Request) (channel : option CredentialKind) (ordinal : Z) (lost : list (LostAttempt D)) (w : World)
    : result Attempt Error * Z * list (LostAttempt D) * World :=
  let began := clock env (tick w) in
  switches (max_account_switches env) 0 began decision canonical req channel []
    (NoCredential (model_provider (dec_model decision))) ordinal lost (next w).

(** ** What a run leaves on the trace *)

Definition is_send (e : Event) : bool := match e with EvSend _ => true | _ => false end.
Definition sends (t : list Event) : nat := length (keep is_send t).
Definition leased (t : list Event) : list AccountId :=
  filter_map (fun e => match e with EvLease a => Some a | _ => None end) t.
Definition released (t : list Event) : list AccountId :=
  filter_map (fun e => match e with EvRelease a => Some a | _ => None end) t.

(** An event of work on one credential, its lease aside. *)
Definition about (a : AccountId) (e : Event) : bool :=
  match e with
  | EvSend b | EvStream b _ _ | EvBody b _ _ | EvRefused b | EvCoolDown b _ | EvRateLimit b _ =>
      bool_decide (a = b)
  | EvSleep _ => true
  | EvLease _ | EvRelease _ => false
  end.

(** The discipline of leases, as an automaton over the trace: one lease at a
    time, released by name, and nothing done to a credential not held.  [None]
    is a breach; otherwise the credential still held at the end. *)
Fixpoint holding (h : option AccountId) (t : list Event) : option (option AccountId) :=
  match t with
  | [] => Some h
  | e :: t =>
      match e, h with
      | EvLease a, None => holding (Some a) t
      | EvLease _, Some _ => None
      | EvRelease a, Some b => if bool_decide (a = b) then holding None t else None
      | _, Some a => if about a e then holding h t else None
      | _, None => None
      end
  end.

(** The answers a provider generated, each with its credential and dispatch
    number, told from what came off the wire alone: every answer that arrived
    whole, and every stream that broke off after the provider had reported
    tokens of output. *)
Definition Answer : Type := AccountId * Z * Usage.
Definition generated (e : Event) : option Answer :=
  match e with
  | EvStream a n (Ok acc) | EvBody a n (Ok acc) => Some (a, n, usage acc)
  | EvStream a n (Err (_, acc)) =>
      if bool_decide (output_tokens (usage acc) ≤ 0) then None else Some (a, n, usage acc)
  | _ => None
  end.
Definition answers (t : list Event) : list Answer := filter_map generated t.

Definition answers_of (a : AccountId) (ordinal : Z) (o : Outcome) : list Answer :=
  match o with
  | OutOk (Collected acc _ n) => [(a, n, usage acc)]
  | OutLost _ acc => [(a, ordinal, usage acc)]
  | _ => []
  end.

(** From [w] to [w'] only work on [a] happened, with at most [k] requests and
    the answers [l]. *)
Definition works (a : AccountId) (k : nat) (l : list Answer) (w w' : World) : Prop :=
  ∃ t, trace w' = trace w ++ t ∧ all (about a) t = true ∧ (sends t ≤ k)%nat ∧ answers t = l.

Lemma sends_app t u : sends (t ++ u) = (sends t + sends u)%nat.
Proof. unfold sends, keep. by rewrite List.filter_app, length_app. Qed.

Lemma works_same a k w w' : trace w' = trace w → works a k [] w w'.
Proof. intros H. exists []. rewrite H, app_nil_r. split_and!; [done|done|cbn; lia|done]. Qed.

Lemma works_trans a j k n l w w' w'' :
  works a j [] w w' → works a k l w' w'' → (j + k ≤ n)%nat → works a n l w w''.
Proof.
  intros (t & Ht & Ha & Hs & Hl) (u & Hu & Hb & Hv & Hm) Hn. exists (t ++ u).
  rewrite Hu, Ht, app_assoc. split_and!; [done| |rewrite sends_app; lia|].
  - unfold all in *. rewrite forallb_app. by rewrite Ha, Hb.
  - unfold answers in *. by rewrite filter_map_app, Hl, Hm.
Qed.

Lemma works_log a e w :
  about a e = true → is_send e = false → works a 0 (answers [e]) w (log e w).
Proof.
  intros He Hs. exists [e]. unfold sends; cbn. rewrite He, Hs. split_and!; [done|done|cbn; lia|done].
Qed.

(** What came off the wire for a credential held. *)
Lemma works_came a e l w w' :
  about a e = true → is_send e = false → l = answers [e] → trace w' = trace w ++ [e] →
  works a 0 l w w'.
Proof. intros He Hs -> Ht. pose proof (works_log a e w He Hs) as H. unfold works in *. by rewrite Ht. Qed.

Lemma works_disposition a d w : works a 0 [] w (apply_disposition a d w).
Proof.
  destruct d; cbn; try by apply works_same.
  - apply (works_log a (EvCoolDown a _)); [|done]. cbn. by apply bool_decide_eq_true.
  - apply (works_log a (EvRateLimit a _)); [|done]. cbn. by apply bool_decide_eq_true.
Qed.

Lemma works_succeeded lease adapter stream ordinal names w :
  let '(o, w') := succeeded lease adapter stream ordinal names w in
  works (lease_account lease) 0 (answers_of (lease_account lease) ordinal o) w w'.
Proof.
  unfold succeeded. destruct stream; [by apply works_same|]. destruct (always_streams adapter).
  - set (came := collect_stream _ _ _ _).
    destruct came as [acc|[e acc]] eqn:E; cbn [collect_failed];
      [|destruct (0 <? output_tokens (usage acc)) eqn:Hout];
      (eapply works_came; cycle 3; [done|by apply bool_decide_eq_true_2|done|]); cbn; [done| |];
      by rewrite ?bool_decide_eq_true_2, ?bool_decide_eq_false_2 by lia.
  - destruct (collect_body _ _ _ _) as [acc|e];
      (eapply works_came; cycle 3; [done|by apply bool_decide_eq_true_2|done|done]).
Qed.

(** One request on the wire. *)
Lemma works_send a w w' :
  trace w' = trace w ++ [EvSend a] → works a 1 [] w w'.
Proof.
  intros H. exists [EvSend a]. unfold sends; cbn. rewrite bool_decide_eq_true_2 by done.
  split_and!; [done|done|cbn; lia|done].
Qed.

Lemma works_failed a d w : works a 0 [] w (apply_disposition a d (record_failure a w)).
Proof.
  apply (works_trans a 0 0 0 [] w (record_failure a w));
    [by apply works_same|apply works_disposition|lia].
Qed.

Definition turn_answers (a : AccountId) (ordinal : Z) (t : Turn) : list Answer :=
  match t with Done o => answers_of a ordinal o | Again _ => [] end.

Lemma works_on_status r p lease status body ra ordinal d w :
  let '(t, _, w') := on_status r p lease status body ra d w in
  works (lease_account lease) 0 (turn_answers (lease_account lease) ordinal t) w w'.
Proof.
  unfold on_status, recheck. set (w1 := if status =? 401 then _ else _).
  assert (works (lease_account lease) 0 [] w w1) as H1.
  { unfold w1. destruct (status =? 401); [|by apply works_same].
    apply (works_log _ (EvRefused _)); [by apply bool_decide_eq_true|done]. }
  set (w2 := apply_disposition _ _ _).
  assert (works (lease_account lease) 0 [] w w2) as H2
    by (apply (works_trans _ 0 0 0 _ _ _ _ H1); [apply works_failed|lia]).
  clearbody w2. destruct (step_for _ _); try done. by destruct (Fleet.permits _ _ _).
Qed.

Lemma works_on_error r lease e ordinal d w :
  let '(t, _, w') := on_error r lease e d w in
  works (lease_account lease) 0 (turn_answers (lease_account lease) ordinal t) w w'.
Proof.
  unfold on_error, transport_failure, recheck.
  destruct r, e; cbn [negb]; try apply works_failed;
    destruct (Fleet.permits _ _ _); by apply works_same.
Qed.

Lemma works_turn r m c lease adapter ordinal names d w :
  let '(t, _, w') := turn r m c lease adapter ordinal names d w in
  works (lease_account lease) 1 (turn_answers (lease_account lease) ordinal t) w w'.
Proof.
  unfold turn. destruct (build _ _ _ _); [|by apply works_same].
  destruct (transport _ _ _); [|by apply works_same]. set (w1 := log _ _).
  assert (works (lease_account lease) 1 [] w w1) as H1 by by apply works_send.
  destruct (execute _ _ _) as [|st body ra|e].
  - pose proof (works_succeeded lease adapter (stream c) ordinal names w1) as H2.
    destruct (succeeded _ _ _ _ _ _) as [o w2]. by apply (works_trans _ 1 0 1 _ _ _ _ H1 H2).
  - pose proof (works_on_status r (model_provider m) lease st body ra ordinal (Fleet.sent d) w1) as H2.
    destruct (on_status _ _ _ _ _ _ _ _) as [[t d'] w2]. by apply (works_trans _ 1 0 1 _ _ _ _ H1 H2).
  - pose proof (works_on_error r lease e ordinal (Fleet.sent d) w1) as H2.
    destruct (on_error _ _ _ _ _) as [[t d'] w2]. by apply (works_trans _ 1 0 1 _ _ _ _ H1 H2).
Qed.

Lemma attempts_works remaining attempt m c lease adapter ordinal names d w :
  let '(o, w') := attempts remaining attempt m c lease adapter ordinal names d w in
  works (lease_account lease) (S remaining) (answers_of (lease_account lease) ordinal o) w w'.
Proof.
  revert attempt d w; induction remaining as [|r IH]; intros attempt d w; cbn [attempts].
  all: match goal with |- context [turn ?b] =>
    pose proof (works_turn b m c lease adapter ordinal names d w) as Ht;
    destruct (turn b m c lease adapter ordinal names d w) as [[[o|e] d'] w'] end.
  all: unfold finish; cbn [turn_answers] in Ht.
  - exact Ht.
  - exact Ht.
  - destruct Ht as (t & ? & ? & ? & ?). exists t. split_and!; [done|done|lia|done].
  - set (w1 := log _ _). assert (works (lease_account lease) 1 [] w w1) as H1.
    { apply (works_trans _ 1 0 1 _ _ _ _ Ht); [|lia].
      by apply (works_log _ (EvSleep (backoff attempt))). }
    specialize (IH (attempt + 1) d' w1). destruct (attempts _ _ _ _ _ _ _ _ _ _) as [o w2].
    apply (works_trans _ 1 (S r) _ _ _ _ _ H1 IH). lia.
Qed.

Lemma try_credential_works dec c lease ordinal w :
  let '(o, w') := try_credential dec c lease ordinal w in
  works (lease_account lease) (S (same_account_retries env))
    (answers_of (lease_account lease) ordinal o) w w'.
Proof.
  unfold try_credential. destruct (adapter_of _ _ _ _); [|by apply works_same].
  destruct (ensure_fresh _ _ _); [|by apply works_same].
  destruct (prepare_credential _ _ _).
  2: { apply (works_trans _ 0 0 _ [] w (next (next (next w)))); [|apply works_disposition|lia].
       by apply works_same. }
  destruct (Fleet.claim _ _ _) as [[d|] bs]; [|by apply works_same].
  match goal with |- context [attempts ?r ?at_ ?m ?c ?l ?a ?o ?n ?d ?w1] =>
    pose proof (attempts_works r at_ m c l a o n d w1) as Hw;
    destruct (attempts r at_ m c l a o n d w1) as [o' w'] end.
  by apply (works_trans _ 0 (S (same_account_retries env)) _ _ w _ _ (works_same _ _ _ _ eq_refl) Hw).
Qed.

(** A served outcome carries the lease and the ordinal it was tried under. *)
Definition outcome_of (lease : Lease) (ordinal : Z) (o : Outcome) : Prop :=
  match o with
  | OutOk a => (∃ names, a = Streaming lease ordinal names) ∨ ∃ acc, a = Collected acc lease ordinal
  | _ => True
  end.

Lemma succeeded_outcome lease adapter stream ordinal names w :
  outcome_of lease ordinal (succeeded lease adapter stream ordinal names w).1.
Proof. unfold succeeded, collect_failed. repeat case_match; cbn; eauto. Qed.

Lemma turn_outcome r m c lease adapter ordinal names d w :
  match (turn r m c lease adapter ordinal names d w).1.1 with
  | Done o => outcome_of lease ordinal o
  | Again _ => True
  end.
Proof.
  unfold turn. destruct (build _ _ _ _); [|done]. destruct (transport _ _ _); [|done].
  set (w1 := log _ _). destruct (execute _ _ _) as [|st body ra|e].
  - pose proof (succeeded_outcome lease adapter (stream c) ordinal names w1) as Hs.
    by destruct (succeeded _ _ _ _ _ _).
  - unfold on_status, recheck. destruct (step_for _ _); cbn [fst]; by repeat (case_match; simplify_eq).
  - unfold on_error, transport_failure, recheck. destruct e, r; cbn [fst negb]; by repeat (case_match; simplify_eq).
Qed.

Lemma attempts_outcome remaining attempt m c lease adapter ordinal names d w :
  outcome_of lease ordinal (attempts remaining attempt m c lease adapter ordinal names d w).1.
Proof.
  revert attempt d w; induction remaining as [|r IH]; intros attempt d w; cbn [attempts].
  all: match goal with |- context [turn ?b] =>
    pose proof (turn_outcome b m c lease adapter ordinal names d w) as Ht;
    destruct (turn b m c lease adapter ordinal names d w) as [[[o|e] d'] w'] end.
  all: done || apply IH.
Qed.

Lemma try_credential_outcome dec c lease ordinal w :
  outcome_of lease ordinal (try_credential dec c lease ordinal w).1.
Proof.
  unfold try_credential. destruct (adapter_of _ _ _ _); [|done].
  destruct (ensure_fresh _ _ _); [|done]. destruct (prepare_credential _ _ _); [|done].
  destruct (Fleet.claim _ _ _) as [[d|] bs]; [|done]. apply attempts_outcome.
Qed.

(** ** A whole run *)

(** The credential an attempt still holds, and the number it was sent under. *)
Definition held (r : result Attempt Error) : option AccountId :=
  match r with
  | Ok (Streaming l _ _) | Ok (Collected _ l _) => Some (lease_account l)
  | _ => None
  end.

Definition served_number (r : result Attempt Error) : list Z :=
  match r with
  | Ok (Streaming _ n _) | Ok (Collected _ _ n) => [n]
  | _ => []
  end.

Definition lost_attempt (l : LostAttempt D) : Z := ctx_attempt (lost_ctx l).

(** The numbers of the answers a run paid for, in the order they were sent. *)
Definition paid (r : result Attempt Error) (lost : list (LostAttempt D)) : list Z :=
  map lost_attempt lost ++ served_number r.

(** What the ledger rows of the lost answers, and the answer returned, say was
    generated. *)
Definition lost_answer (l : LostAttempt D) : Answer :=
  (ctx_account (lost_ctx l), ctx_attempt (lost_ctx l), usage (out_accumulator (lost_outcome l))).

Definition served_answer (r : result Attempt Error) : list Answer :=
  match r with
  | Ok (Collected acc l n) => [(lease_account l, n, usage acc)]
  | _ => []
  end.

(** [select::lease] is handed the credentials already tried, and answers with
    none of them. *)
Definition never_excluded : Prop :=
  ∀ i p excluded channel l,
    pool_lease env i p excluded channel = Ok l → (lease_account l ∉ excluded).

(** What [n + 1] tries may leave behind. *)
Record run_spec (n : nat) (excluded : list AccountId) (ordinal : Z) (r : result Attempt Error)
    (ordinal' : Z) (lost : list (LostAttempt D)) (t : list Event) : Prop := {
  run_held : holding None t = Some (held r);
  run_leases : (length (leased t) ≤ n)%nat;
  run_sends : (sends t ≤ length (leased t) * S (same_account_retries env))%nat;
  run_answers : answers t = map lost_answer lost ++ served_answer r;
  run_fresh : never_excluded → NoDup (leased t) ∧ ∀ a, a ∈ excluded → (a ∉ leased t);
  run_ordinal : 0 ≤ ordinal ≤ U8_MAX → ordinal' = Z.min U8_MAX (ordinal + Z.of_nat (length (leased t)));
  run_paid : 0 ≤ ordinal → ordinal + Z.of_nat n ≤ U8_MAX →
    StronglySorted Z.lt (paid r lost) ∧ Forall (fun k => ordinal ≤ k < ordinal') (paid r lost)
}.

Lemma holding_app h t u :
  holding h (t ++ u) = match holding h t with Some h' => holding h' u | None => None end.
Proof.
  revert h; induction t as [|e t IH]; intros h; [done|]. cbn.
  destruct e, h; try done; try case_match; by rewrite ?IH.
Qed.

Lemma holding_about a t : all (about a) t = true → holding (Some a) t = Some (Some a).
Proof.
  induction t as [|e t IH]; [done|]. cbn. intros [He Ht]%andb_true_iff.
  rewrite He, IH by done. by destruct e.
Qed.

Lemma leased_about a t : all (about a) t = true → leased t = [].
Proof.
  unfold leased. induction t as [|e t IH]; [done|]. cbn. intros [He Ht]%andb_true_iff.
  rewrite IH by done. by destruct e.
Qed.

Lemma run_nothing n excluded ordinal e : run_spec n excluded ordinal (Err e) ordinal [] [].
Proof.
  split; [done|cbn; lia|cbn; lia|done| | |].
  - intros _. split; [constructor|]. intros a _. apply not_elem_of_nil.
  - intros H. change (length (leased [])) with 0%nat. lia.
  - intros _ _. split; constructor.
Qed.

(** One try that ends the run. *)
Lemma run_last n excluded ordinal a t r rel :
  all (about a) t = true → (sends t ≤ S (same_account_retries env))%nat →
  (never_excluded → (a ∉ excluded)) → answers t = served_answer r →
  (rel = [] ∧ held r = Some a ∧ served_number r = [ordinal] ∨
   rel = [EvRelease a] ∧ held r = None ∧ served_number r = []) →
  run_spec (S n) excluded ordinal r (sat_add U8_MAX ordinal 1) [] (EvLease a :: t ++ rel).
Proof.
  intros Ha Hs Hx Hg Hr.
  assert (leased (EvLease a :: t ++ rel) = [a]) as Hl.
  { unfold leased; cbn. fold leased. rewrite filter_map_app. fold (leased t).
    rewrite (leased_about a t) by done. by destruct Hr as [(-> & _)|(-> & _)]. }
  split.
  - cbn. rewrite holding_app, holding_about by done.
    destruct Hr as [(-> & -> & _)|(-> & -> & _)]; [done|]. cbn.
    by rewrite bool_decide_eq_true_2.
  - rewrite Hl; cbn; lia.
  - rewrite Hl. change (EvLease a :: t ++ rel) with ([EvLease a] ++ t ++ rel).
    rewrite !sends_app. destruct Hr as [(-> & _)|(-> & _)]; cbn; lia.
  - change (EvLease a :: t ++ rel) with ([EvLease a] ++ t ++ rel). unfold answers in *.
    rewrite !filter_map_app, Hg. destruct Hr as [(-> & _)|(-> & _)]; cbn; by rewrite app_nil_r.
  - rewrite Hl. intros He. split; [apply NoDup_singleton|].
    intros b Hb Hin. apply list_elem_of_singleton in Hin. subst b. by apply Hx.
  - rewrite Hl. unfold sat_add; cbn. lia.
  - intros H0 Hn. unfold paid, sat_add; cbn [map app].
    destruct Hr as [(_ & _ & ->)|(_ & _ & ->)]; repeat constructor; unfold U8_MAX in *; lia.
Qed.

(** One try that came to nothing, or to a lost answer, before the rest. *)
Lemma run_again n excluded ordinal a t r ordinal' row rows u :
  all (about a) t = true → (sends t ≤ S (same_account_retries env))%nat →
  (never_excluded → (a ∉ excluded)) → (row = [] ∨ map lost_attempt row = [ordinal]) →
  answers t = map lost_answer row →
  run_spec n (a :: excluded) (sat_add U8_MAX ordinal 1) r ordinal' rows u →
  run_spec (S n) excluded ordinal r ordinal' (row ++ rows) (EvLease a :: t ++ EvRelease a :: u).
Proof.
  intros Ha Hs Hx Hrow Hg [Hh Hl Hsend Hans Hf Ho Hp].
  assert (leased (EvLease a :: t ++ EvRelease a :: u) = a :: leased u) as Hlease.
  { unfold leased; cbn. rewrite filter_map_app. fold (leased t).
    by rewrite (leased_about a t). }
  split.
  - cbn. rewrite holding_app, holding_about by done. cbn. by rewrite bool_decide_eq_true_2.
  - rewrite Hlease; cbn; lia.
  - rewrite Hlease. change (EvLease a :: t ++ EvRelease a :: u) with
      ([EvLease a] ++ t ++ [EvRelease a] ++ u). rewrite !sends_app. cbn in *. lia.
  - change (EvLease a :: t ++ EvRelease a :: u) with ([EvLease a] ++ t ++ [EvRelease a] ++ u).
    unfold answers in *. rewrite !filter_map_app, Hg, Hans, map_app, <- app_assoc. done.
  - rewrite Hlease. intros He. destruct (Hf He) as [Hnd Hdis]. split.
    + constructor; [|done]. apply Hdis. left.
    + intros b Hb Hin. apply elem_of_cons in Hin as [->|Hin]; [by apply Hx|].
      apply (Hdis b); [by right|done].
  - rewrite Hlease. intros H. rewrite Ho by (unfold sat_add; lia).
    unfold sat_add; cbn [length]. lia.
  - intros H0 Hn. unfold sat_add in *. rewrite Z.min_r in * by lia.
    destruct Hp as [Hsort Hall]; [lia|lia|]. rewrite Ho in * by lia.
    unfold paid in *. rewrite map_app, <- app_assoc.
    destruct Hrow as [->| ->]; cbn [map app].
    + split; [done|]. eapply Forall_impl; [exact Hall|]. cbv beta; lia.
    + split; constructor; try done; try lia.
      * eapply Forall_impl; [exact Hall|]. cbv beta; lia.
      * eapply Forall_impl; [exact Hall|]. cbv beta; lia.
Qed.

(** What a run from [w] leaves: the rows it adds, what it did, its answer. *)
Definition leaves (n : nat) (excluded : list AccountId) (ordinal : Z) (lost : list (LostAttempt D))
    (w : World) (out : result Attempt Error * Z * list (LostAttempt D) * World) : Prop :=
  ∃ rows t, out.1.2 = lost ++ rows ∧ trace out.2 = trace w ++ t ∧
    run_spec n excluded ordinal out.1.1.1 out.1.1.2 rows t.

Lemma leaves_stop n excluded ordinal lost w w' e :
  trace w' = trace w → leaves n excluded ordinal lost w (Err e, ordinal, lost, w').
Proof.
  intros H. exists [], []. cbn [fst snd]. rewrite !app_nil_r.
  split_and!; [done|done|apply run_nothing].
Qed.

(** One try, whose outcome ends the run or leaves the rest of it to [K]. *)
Lemma leaves_try n excluded ordinal lease dec c req lost w w1 last
    (K : Error → list (LostAttempt D) → World → result Attempt Error * Z * list (LostAttempt D) * World) :
  let a := lease_account lease in
  let '(outcome, w2) := try_credential dec c lease ordinal w1 in
  trace w1 = trace w ++ [EvLease a] →
  (never_excluded → (a ∉ excluded)) →
  (∀ e lost w, leaves n (a :: excluded) (sat_add U8_MAX ordinal 1) lost w (K e lost w)) →
  leaves (S n) excluded ordinal lost w
    match outcome with
    | OutOk r => (Ok r, sat_add U8_MAX ordinal 1, lost, w2)
    | OutFatal e => (Err e, sat_add U8_MAX ordinal 1, lost, log (EvRelease a) w2)
    | OutEscalate e => (Ok (RejectedAttempt e), sat_add U8_MAX ordinal 1, lost, log (EvRelease a) w2)
    | OutSwitch e => K e lost (log (EvRelease a) w2)
    | OutLost e acc =>
        K e (lost ++ [Meter.lose (Meter.meter_context (req_auth req) dec lease (request_id req)
            (req_started req) ordinal) acc e (clock env (tick w2))])
          (log (EvRelease a) w2)
    | OutRaced => K last lost (log (EvRelease a) w2)
    end.
Proof.
  intros a. pose proof (try_credential_works dec c lease ordinal w1) as Hw.
  pose proof (try_credential_outcome dec c lease ordinal w1) as Ho.
  destruct (try_credential dec c lease ordinal w1) as [o w2]. cbn [fst snd] in *.
  destruct Hw as (t & Ht & Ha & Hs & Hg). fold a in Ha, Hg.
  intros Hw1 Hx HK. rewrite Hw1, <- app_assoc in Ht.
  assert (∀ r, held r = None → served_number r = [] → answers t = served_answer r →
    leaves (S n) excluded ordinal lost w (r, sat_add U8_MAX ordinal 1, lost, log (EvRelease a) w2))
    as Hend.
  { intros r Hr Hn Hr'. exists [], (EvLease a :: t ++ [EvRelease a]).
    cbn [fst snd log trace]. rewrite Ht, app_nil_r, <- !app_assoc.
    split_and!; [done..|]. by apply run_last; auto. }
  assert (∀ e row, row = [] ∨ map lost_attempt row = [ordinal] → answers t = map lost_answer row →
    leaves (S n) excluded ordinal lost w (K e (lost ++ row) (log (EvRelease a) w2))) as Hagain.
  { intros e row Hrow Hr'. destruct (HK e (lost ++ row) (log (EvRelease a) w2)) as (rows & u & Hr & Hu & Hrun).
    exists (row ++ rows), (EvLease a :: t ++ EvRelease a :: u).
    rewrite Hr, Hu. cbn [log trace]. rewrite Ht, <- !app_assoc.
    split_and!; [done..|]. by apply run_again. }
  destruct o as [r|e|e acc| |e|e]; try by apply Hend.
  - exists [], (EvLease a :: t ++ []). cbn [fst snd]. rewrite Ht, !app_nil_r.
    split_and!; [done..|]. rewrite <- (app_nil_r t). 
    destruct Ho as [[names ->]|[acc ->]]; (apply run_last; auto).
  - pose proof (Hagain e []) as H. rewrite app_nil_r in H. apply H; [by left|done].
  - apply Hagain; [by right|done].
  - pose proof (Hagain last []) as H. rewrite app_nil_r in H. apply H; [by left|done].
Qed.

Lemma switches_spec n switch began dec c req channel excluded last ordinal lost w :
  leaves (S n) excluded ordinal lost w
    (switches n switch began dec c req channel excluded last ordinal lost w).
Proof.
  revert switch excluded last ordinal lost w.
  induction n as [|n IH]; intros switch excluded last ordinal lost w; cbn [switches take].
  all: destruct (negb _); [by apply leaves_stop|].
  all: destruct (pool_lease _ _ _ _ _) as [lease|e] eqn:Hlease; [|by apply leaves_stop].
  - set (w1 := log _ _).
    pose proof (leaves_try 0 excluded ordinal lease dec c req lost w w1 last
      (fun e lost w => (Err e, sat_add U8_MAX ordinal 1, lost, w))) as Hstep.
    destruct (try_credential dec c lease ordinal w1) as [o w2].
    apply Hstep; [done|by intros Hne; apply (Hne _ _ _ _ _ Hlease)|].
    intros. by apply leaves_stop.
  - set (w1 := log _ _).
    pose proof (leaves_try (S n) excluded ordinal lease dec c req lost w w1 last
      (fun e => switches n (S switch) began dec c req channel (lease_account lease :: excluded) e
        (sat_add U8_MAX ordinal 1))) as Hstep.
    destruct (try_credential dec c lease ordinal w1) as [o w2].
    apply Hstep; [done|by intros Hne; apply (Hne _ _ _ _ _ Hlease)|].
    intros. apply IH.
Qed.

(** ** Probes *)

Definition flag (m : gmap AccountId Breaker.Breaker) (a : AccountId) : bool :=
  Breaker.half_open_probe_sent (Fleet.entry m a).

(** Breakers the code can hold. *)
Definition sound (m : gmap AccountId Breaker.Breaker) : Prop := ∀ a, Breaker.inv (Fleet.entry m a).

Lemma sound_insert m a b : sound m → Breaker.inv b → sound (<[a := b]> m).
Proof.
  intros Hm Hb a'. destruct (decide (a = a')) as [->|].
  - by rewrite Fleet.entry_insert_eq.
  - by rewrite Fleet.entry_insert_ne.
Qed.

Lemma flag_insert m a b a' :
  flag (<[a := b]> m) a' =
  if bool_decide (a = a') then Breaker.half_open_probe_sent b else flag m a'.
Proof.
  unfold flag. case_bool_decide; [subst; by rewrite Fleet.entry_insert_eq|].
  by rewrite Fleet.entry_insert_ne.
Qed.

(** A failure of a probe puts the breaker back to open, its probe unspent. *)
Lemma failure_clears b now :
  Breaker.inv b → Breaker.half_open_probe_sent (Breaker.record_failure b now) = false.
Proof.
  intros (Hr & Ht & Ho & Hp). unfold Breaker.record_failure.
  destruct (Z.leb_spec (Breaker.trip_threshold b)
    (sat_add U32_MAX (Breaker.consecutive_failures b) 1)); [done|].
  cbn. destruct (Breaker.half_open_probe_sent b); [|done].
  specialize (Hp eq_refl). apply Ho in Hp. unfold sat_add in *. lia.
Qed.

(** The breakers of a request under way on [a]: those it found, but for [a],
    whose probe is out only while the guard still answers for it. *)
Definition under_way (m : gmap AccountId Breaker.Breaker) (a : AccountId) (d : Fleet.Dispatch)
    (w : World) : Prop :=
  ∃ m', breakers w = Some m' ∧ sound m' ∧ Fleet.account d = a ∧
    (Fleet.probe d = false → flag m' a = false) ∧ ∀ a', a ≠ a' → flag m' a' = flag m a'.

Lemma under_way_outcome m a d w w' b :
  under_way m a d w → Breaker.half_open_probe_sent b = false → Breaker.inv b →
  (∀ m', breakers w = Some m' → breakers w' = Some (<[a := b]> m')) →
  under_way m a (Fleet.sent d) w'.
Proof.
  intros (m' & Hw & Hs & Hd & _ & Ho) Hb Hi Hw'. exists (<[a := b]> m').
  split_and!; [by apply Hw'|by apply sound_insert|done| |].
  - intros _. rewrite flag_insert. by rewrite bool_decide_eq_true_2.
  - intros a' Ha. rewrite flag_insert, bool_decide_eq_false_2 by done. by apply Ho.
Qed.

Lemma under_way_same m a d w w' :
  under_way m a d w → breakers w' = breakers w → under_way m a d w'.
Proof. intros H Hw. unfold under_way. by rewrite Hw. Qed.

Lemma disposition_breakers a d w : breakers (apply_disposition a d w) = breakers w.
Proof. by destruct d. Qed.

Lemma under_way_failure m a d w w' now :
  under_way m a d w → breakers w' = Fleet.record_failure (breakers w) a now →
  under_way m a (Fleet.sent d) w'.
Proof.
  intros H Hw. pose proof H as (m' & Hm & Hs & _).
  apply (under_way_outcome m a d w w' (Breaker.record_failure (Fleet.entry m' a) now)); [done| | |].
  - apply failure_clears, Hs.
  - apply Breaker.failure_inv, Hs.
  - intros m2. rewrite Hw, Hm. by intros [= ->].
Qed.

Lemma under_way_success m a d w w' :
  under_way m a d w → breakers w' = Fleet.record_success (breakers w) a →
  under_way m a (Fleet.sent d) w'.
Proof.
  intros H Hw. pose proof H as (m' & Hm & Hs & _).
  apply (under_way_outcome m a d w w' (Breaker.record_success (Fleet.entry m' a))); [done|done| |].
  - apply Breaker.success_inv, Hs.
  - intros m2. rewrite Hw, Hm. by intros [= ->].
Qed.

Lemma turn_under_way m r model c lease adapter ordinal names d w :
  under_way m (lease_account lease) d w →
  let '(t, d', w') := turn r model c lease adapter ordinal names d w in
  under_way m (lease_account lease) d' w'.
Proof.
  intros H. unfold turn. destruct (build _ _ _ _); [|by eapply under_way_same].
  destruct (transport _ _ _); [|by eapply under_way_same]. set (w1 := log _ _).
  assert (under_way m (lease_account lease) d w1) as H1 by by eapply under_way_same.
  destruct (execute _ _ _) as [|st body ra|e].
  - destruct (succeeded _ _ _ _ _ w1) as [o w2] eqn:Hs. eapply under_way_success; [exact H1|].
    unfold succeeded in Hs. by repeat case_match; simplify_eq.
  - unfold on_status, recheck. set (w2 := if st =? 401 then _ else w1).
    assert (breakers w2 = breakers w1) as H2 by by (unfold w2; destruct (st =? 401)).
    destruct (step_for _ _); (eapply under_way_failure; [exact H1|]);
      cbn [next breakers]; rewrite disposition_breakers; cbn; by rewrite H2.
  - unfold on_error, transport_failure, recheck.
    destruct e, r; cbn [negb]; (eapply under_way_failure; [exact H1|]);
      cbn [next breakers]; rewrite ?disposition_breakers; done.
Qed.

Lemma finish_settles m a d o w :
  under_way m a d w → flag m a = false →
  ∃ m', breakers (finish d o w).2 = Some m' ∧ sound m' ∧ ∀ a', flag m' a' = flag m a'.
Proof.
  intros (m' & Hw & Hs & Hd & Hf & Ho) Ha. unfold finish, Fleet.drop. cbn. rewrite Hd.
  assert (∀ m2, flag m2 a = false → (∀ a', a ≠ a' → flag m2 a' = flag m a') →
    ∀ a', flag m2 a' = flag m a') as Hall.
  { intros m2 H1 H2 a'. destruct (decide (a = a')) as [<-|]; [by rewrite H1|by apply H2]. }
  destruct (Fleet.probe d); [|exists m'; split_and!; [done|done|apply Hall; auto]].
  rewrite Hw. cbn. destruct (m' !! a) as [b|] eqn:Hb.
  - exists (<[a := Breaker.release_probe b]> m'). split_and!; [done| |].
    + apply sound_insert; [done|]. apply Breaker.release_inv.
      specialize (Hs a). unfold Fleet.entry in Hs. by rewrite Hb in Hs.
    + apply Hall; [by rewrite flag_insert, bool_decide_eq_true_2|].
      intros a' Hne. rewrite flag_insert, bool_decide_eq_false_2 by done. by apply Ho.
  - exists m'. split_and!; [done|done|]. apply Hall; [|done]. unfold flag, Fleet.entry. by rewrite Hb.
Qed.

Lemma attempts_settle m remaining attempt model c lease adapter ordinal names d w :
  under_way m (lease_account lease) d w → flag m (lease_account lease) = false →
  ∃ m', breakers (attempts remaining attempt model c lease adapter ordinal names d w).2 = Some m' ∧
    sound m' ∧ ∀ a', flag m' a' = flag m a'.
Proof.
  intros H Hf. revert attempt d w H; induction remaining as [|r IH]; intros attempt d w H;
    cbn [attempts].
  all: match goal with |- context [turn ?b] =>
    pose proof (turn_under_way m b model c lease adapter ordinal names d w H) as Ht;
    destruct (turn b model c lease adapter ordinal names d w) as [[[o|e] d'] w'] end.
  1-3: by apply (finish_settles m (lease_account lease)).
  by apply IH.
Qed.

(** A claim refused, or granted on a shut breaker, leaves the flags alone. *)
Lemma claim_under_way m a now od bs w :
  sound m → Fleet.claim (Some m) a now = (od, bs) → breakers w = bs →
  match od with
  | Some d => under_way m a d w ∧ flag m a = false
  | None => ∃ m', bs = Some m' ∧ sound m' ∧ ∀ a', flag m' a' = flag m a'
  end.
Proof.
  intros Hs Hc Hw. destruct (Fleet.claim_inv _ _ _ _ _ Hc) as [Hb Hod].
  rewrite Fleet.begin_request_Some in Hb, Hod. cbn [fst snd] in *. subst bs.
  pose proof (Breaker.begin_inv (Fleet.entry m a) now (Hs a)) as Hi.
  set (b := (Breaker.begin_request (Fleet.entry m a) now).2) in *.
  assert (b = Fleet.entry m a → ∀ a', flag (<[a := b]> m) a' = flag m a') as Hsame.
  { intros -> a'. rewrite flag_insert. case_bool_decide; [by subst|done]. }
  destruct od as [d|].
  - destruct Hod as [Hd Hadm].
    assert (flag m a = false ∧ (Fleet.probe d = false → b = Fleet.entry m a)) as [Hf Hg].
    { destruct (Fleet.probe d).
      - destruct (Breaker.probe_taken (Fleet.entry m a) now b) as (_ & Hf & _); [|done].
        unfold b. by rewrite <- Hadm; destruct (Breaker.begin_request _ _).
      - destruct (Breaker.begin_admitted _ _ Hadm) as [Hsm Hop]. split; [|done].
        destruct (Hs a) as (_ & _ & _ & Hp). unfold flag.
        destruct (Breaker.half_open_probe_sent _); [|done].
        destruct (Hp eq_refl) as [? Hx]. by rewrite Hop in Hx. }
    split; [|done]. exists (<[a := b]> m). split_and!; [done|by apply sound_insert|done| |].
    + intros Hp. by rewrite (Hsame (Hg Hp)).
    + intros a' Hne. by rewrite flag_insert, bool_decide_eq_false_2.
  - exists (<[a := b]> m). split_and!; [done|by apply sound_insert|].
    apply Hsame. by apply Breaker.begin_denied_same.
Qed.

Lemma try_credential_settles m dec c lease ordinal w :
  breakers w = Some m → sound m →
  ∃ m', breakers (try_credential dec c lease ordinal w).2 = Some m' ∧ sound m' ∧
    ∀ a', flag m' a' = flag m a'.
Proof.
  intros Hw Hs. unfold try_credential.
  destruct (adapter_of _ _ _ _); [|by exists m]. destruct (ensure_fresh _ _ _); [|by exists m].
  destruct (prepare_credential _ _ _); [|exists m; cbn [snd]; by rewrite disposition_breakers].
  cbn [next breakers tick]. rewrite Hw.
  destruct (Fleet.claim _ _ _) as [od bs] eqn:Hc.
  match goal with |- context [set_breakers bs ?w0] =>
    pose proof (claim_under_way m _ _ od bs (next (set_breakers bs w0)) Hs Hc eq_refl) as Hu end.
  destruct od as [d|]; [|done]. destruct Hu as [Hu Hf]. by apply attempts_settle.
Qed.

(** ** Waits *)

(** A wait the gateway imposes on itself or writes against a credential. *)
Definition tame_wait (ms : Z) : Prop := SECS ≤ ms ≤ MAX_RETRY_AFTER * SECS.

Definition tame (e : Event) : Prop :=
  match e with
  | EvSleep ms => 300 ≤ ms ≤ MAX_BACKOFF
  | EvRateLimit _ wait | EvCoolDown _ wait => tame_wait wait
  | _ => True
  end.

Definition tamely (w w' : World) : Prop := ∃ t, trace w' = trace w ++ t ∧ Forall tame t.

Lemma tamely_refl w w' : trace w' = trace w → tamely w w'.
Proof. intros H. exists []. by rewrite H, app_nil_r. Qed.

#[global] Instance tamely_trans : Transitive tamely.
Proof.
  intros w1 w2 w3 (t & Ht & Hf) (u & Hu & Hg). exists (t ++ u). rewrite Hu, Ht, app_assoc.
  split; [done|by apply Forall_app].
Qed.

Lemma tamely_log e w w' : tame e → tamely w w' → tamely w (log e w').
Proof. intros He Hw. etransitivity; [exact Hw|]. exists [e]. auto. Qed.

Lemma tamely_next w w' : tamely w w' → tamely w (next w').
Proof. done. Qed.

Lemma tamely_set bs w w' : tamely w w' → tamely w (set_breakers bs w').
Proof. done. Qed.

Lemma backoff_range attempt : 0 ≤ attempt → 300 ≤ backoff attempt ≤ MAX_BACKOFF.
Proof.
  intros H. unfold backoff, sat_mul, MAX_BACKOFF, SECS, Errors.SECS, U64_MAX.
  rewrite Z.shiftl_mul_pow2, Z.mul_1_l by lia.
  pose proof (Z.pow_le_mono_r 2 0 (Z.min attempt 4)). lia.
Qed.

Lemma upstream_retry_after_range h d :
  upstream_retry_after h = Some d → tame_wait d.
Proof.
  unfold upstream_retry_after. destruct h as [text|]; [|done].
  destruct (parse_u64 _) as [secs|]; [|done]. case_match; [|done].
  intros [= <-]. bool_to_prop. unfold tame_wait, SECS, Errors.SECS. lia.
Qed.

(** A disposition that asks for a wait in range, or for none. *)
Definition tame_disposition (d : Disposition) : Prop :=
  match d with
  | FailoverAccount cooldown => tame_wait cooldown
  | DRateLimited (Some wait) => tame_wait wait
  | _ => True
  end.

Lemma tamely_disposition a d w w' :
  tame_disposition d → tamely w w' → tamely w (apply_disposition a d w').
Proof.
  intros Hd Hw. destruct d as [|cooldown|[wait|]| |]; try done; apply tamely_log; try done.
Qed.

Lemma status_disposition_tame status body h :
  tame_disposition (Errors.disposition_of_status status body (upstream_retry_after h)).
Proof.
  unfold Errors.disposition_of_status. cbv zeta.
  repeat (case_match; [try done|]); try done. cbn.
  destruct (upstream_retry_after h) eqn:Hh; [|done]. by apply upstream_retry_after_range in Hh.
Qed.

Lemma tamely_on_status r p lease st body ra d w :
  tamely w (on_status r p lease st body ra d w).2.
Proof.
  unfold on_status, recheck, record_failure. cbn [Errors.disposition].
  set (w1 := if st =? 401 then _ else w).
  assert (tamely w w1) as H1.
  { unfold w1. destruct (st =? 401); [apply tamely_log; [done|]|]; by apply tamely_refl. }
  set (w2 := apply_disposition _ _ _).
  assert (tamely w w2) by (apply tamely_disposition; [apply status_disposition_tame|done]).
  by destruct (step_for _ _).
Qed.

Lemma tamely_on_error r lease e d w : tamely w (on_error r lease e d w).2.
Proof.
  unfold on_error, recheck, transport_failure.
  destruct e, r; cbn [negb snd];
    try (apply tamely_next); try (apply tamely_disposition; [done|]); by apply tamely_refl.
Qed.

Lemma tamely_turn r m c lease adapter ordinal names d w :
  tamely w (turn r m c lease adapter ordinal names d w).2.
Proof.
  unfold turn. destruct (build _ _ _ _); [|by apply tamely_refl].
  destruct (transport _ _ _); [|by apply tamely_refl]. set (w1 := log _ _).
  assert (tamely w w1) as H1 by by apply tamely_log, tamely_refl.
  destruct (execute _ _ _).
  - destruct (succeeded _ _ _ _ _ w1) as [o w2] eqn:Hs. etransitivity; [exact H1|].
    unfold succeeded in Hs. clearbody w1.
    repeat case_match; simplify_eq; try (apply tamely_log; [done|]); by apply tamely_refl.
  - etransitivity; [exact H1|apply tamely_on_status].
  - etransitivity; [exact H1|apply tamely_on_error].
Qed.

Lemma tamely_attempts remaining attempt m c lease adapter ordinal names d w :
  0 ≤ attempt → tamely w (attempts remaining attempt m c lease adapter ordinal names d w).2.
Proof.
  revert attempt d w; induction remaining as [|r IH]; intros attempt d w H; cbn [attempts].
  all: match goal with |- context [turn ?b] =>
    pose proof (tamely_turn b m c lease adapter ordinal names d w) as Ht;
    destruct (turn b m c lease adapter ordinal names d w) as [[[o|e] d'] w'] end.
  all: try done. etransitivity; [|apply IH; lia].
  apply tamely_log; [by apply backoff_range|done].
Qed.

Lemma tamely_try dec c lease ordinal w :
  (∀ i l e, prepare_credential env i l = Err e → tame_disposition (Errors.disposition e)) →
  tamely w (try_credential dec c lease ordinal w).2.
Proof.
  intros Hp. unfold try_credential. destruct (adapter_of _ _ _ _); [|by apply tamely_refl].
  destruct (ensure_fresh _ _ _); [|by apply tamely_refl].
  destruct (prepare_credential _ _ _) eqn:He.
  2: { apply tamely_disposition; [by eapply Hp|by apply tamely_refl]. }
  destruct (Fleet.claim _ _ _) as [[d|] bs]; [|by apply tamely_refl].
  etransitivity; [|by apply tamely_attempts]. by apply tamely_refl.
Qed.

Lemma tamely_switches n switch began dec c req channel excluded last ordinal lost w :
  (∀ i l e, prepare_credential env i l = Err e → tame_disposition (Errors.disposition e)) →
  tamely w (switches n switch began dec c req channel excluded last ordinal lost w).2.
Proof.
  intros Hp. revert switch excluded last ordinal lost w.
  induction n as [|n IH]; intros switch excluded last ordinal lost w; cbn [switches take].
  all: destruct (negb _); [by apply tamely_refl|].
  all: destruct (pool_lease _ _ _ _ _) as [lease|e]; [|by apply tamely_refl].
  all: set (w1 := log _ _).
  all: assert (tamely w w1) as H1 by by apply tamely_log, tamely_refl.
  all: pose proof (tamely_try dec c lease ordinal w1 Hp) as H2.
  all: destruct (try_credential dec c lease ordinal w1) as [o w2]; cbn [snd] in H2.
  all: assert (tamely w w2) by (by etransitivity).
  all: assert (tamely w (log (EvRelease (lease_account lease)) w2)) by by apply tamely_log.
  all: destruct o; try done.
  all: etransitivity; [|apply IH]; done.
Qed.

(** No wait gets out of hand: a same-credential retry waits between 0.3
    and 3 seconds; a credential is parked for at least a second and at most an
    hour, whatever number, zero or date the upstream puts in its
    [Retry-After], and at whatever attempt. *)
Theorem waits_are_bounded decision canonical req channel ordinal lost w :
  (∀ i l e, prepare_credential env i l = Err e →
    (∃ p refused, e = UpstreamUnavailable p refused) ∨ Errors.disposition e = Fatal) →
  let '(_, w') := forward_with_failover decision canonical req channel ordinal lost w in
  ∃ t, trace w' = trace w ++ t ∧ Forall tame t.
Proof.
  intros Hp. unfold forward_with_failover.
  pose proof (tamely_switches (max_account_switches env) 0 (clock env (tick w)) decision canonical
    req channel [] (NoCredential (model_provider (dec_model decision))) ordinal lost (next w)) as H.
  destruct (switches _ _ _ _ _ _ _ _ _ _ _ _) as [[[r o] rows] w']. apply H.
  intros i l e He. by destruct (Hp _ _ _ He) as [(p & [] & ->)| ->].
Qed.

Lemma switches_settle m n switch began dec c req channel excluded last ordinal lost w :
  breakers w = Some m → sound m →
  ∃ m', breakers (switches n switch began dec c req channel excluded last ordinal lost w).2 = Some m' ∧
    sound m' ∧ ∀ a', flag m' a' = flag m a'.
Proof.
  revert m switch excluded last ordinal lost w.
  induction n as [|n IH]; intros m switch excluded last ordinal lost w Hw Hs; cbn [switches take].
  all: destruct (negb _); [by exists m|].
  all: destruct (pool_lease _ _ _ _ _) as [lease|e]; [|by exists m].
  all: set (w1 := log _ _).
  all: destruct (try_credential_settles m dec c lease ordinal w1 Hw Hs) as (m1 & Hw1 & Hs1 & Hf1).
  all: destruct (try_credential dec c lease ordinal w1) as [o w2]; cbn [snd] in Hw1.
  all: destruct o; try by exists m1.
  all: match goal with |- context [switches _ ?s _ _ _ _ _ ?ex ?l ?o ?lo ?w3] =>
    destruct (IH m1 s ex l o lo w3 Hw1 Hs1) as (m2 & ? & ? & Hf2) end.
  all: exists m2; split_and!; [done|done|]; intros; by rewrite Hf2.
Qed.

(** A request leaves every half-open probe as it found it: whatever comes
    of its tries -- refused by the breaker, built wrong, no transport, an
    answer, an error, a retry -- no probe is left out on a credential it tried,
    so no credential is shut out by a request that is over, and none that
    another request has out is handed in. *)
Theorem probes_left_as_found decision canonical req channel ordinal lost w m :
  breakers w = Some m → sound m →
  let '(_, w') := forward_with_failover decision canonical req channel ordinal lost w in
  ∃ m', breakers w' = Some m' ∧ sound m' ∧ ∀ a, flag m' a = flag m a.
Proof.
  intros Hw Hs. unfold forward_with_failover.
  pose proof (switches_settle m (max_account_switches env) 0 (clock env (tick w)) decision canonical
    req channel [] (NoCredential (model_provider (dec_model decision))) ordinal lost (next w) Hw Hs) as H.
  by destruct (switches _ _ _ _ _ _ _ _ _ _ _ _).
Qed.

Lemma run_books decision canonical req channel ordinal lost w :
  0 ≤ ordinal → ordinal + Z.of_nat (S (max_account_switches env)) ≤ U8_MAX → never_excluded →
  let '(r, ordinal', lost', w') :=
    forward_with_failover decision canonical req channel ordinal lost w in
  ∃ rows t, lost' = lost ++ rows ∧ trace w' = trace w ++ t ∧
    holding None t = Some (held r) ∧
    NoDup (leased t) ∧ (length (leased t) ≤ S (max_account_switches env))%nat ∧
    (sends t ≤ length (leased t) * S (same_account_retries env))%nat ∧
    ordinal' = ordinal + Z.of_nat (length (leased t)) ∧
    StronglySorted Z.lt (paid r rows) ∧ Forall (fun k => ordinal ≤ k < ordinal') (paid r rows) ∧
    answers t = map lost_answer rows ++ served_answer r.
Proof.
  intros H0 Hmax Hne.
  pose proof (switches_spec (max_account_switches env) 0 (clock env (tick w)) decision canonical
    req channel [] (NoCredential (model_provider (dec_model decision))) ordinal lost (next w)) as Hrun.
  unfold forward_with_failover. destruct (switches _ _ _ _ _ _ _ _ _ _ _ _) as [[[r o'] lost'] w'].
  destruct Hrun as (rows & t & Hrows & Ht & [Hh Hl Hs Hans Hf Ho Hp]). cbn [fst snd next trace] in *.
  exists rows, t. destruct (Hf Hne) as [Hnd _]. destruct (Hp H0 Hmax) as [Hsort Hall].
  split_and!; try done. rewrite Ho by lia. lia.
Qed.

(** C28. Failing over keeps its bounds and its books: whatever the pool, the
    adapters and the upstreams do, a run holds one credential at a time, works
    on no credential it does not hold, and ends holding exactly the one its
    answer came through; it leases at most [max_account_switches + 1]
    credentials, never one twice, and sends each at most
    [same_account_retries + 1] requests; and the answers it paid for, the lost
    ones and the served one, carry strictly increasing dispatch numbers of the
    range the run used up, so no two share a ledger key; and what came off the
    wire is accounted for: every answer that arrived whole, and every stream
    that broke off after the provider had reported output tokens, is the one
    returned or is captured as a lost row with its account, number and tokens,
    and nothing else is.  A body that could not be read, and a stream that
    broke off before any output, leave no row. *)
Theorem failover_is_bounded_and_accounted decision canonical req channel ordinal lost w :
  0 ≤ ordinal → ordinal + Z.of_nat (S (max_account_switches env)) ≤ U8_MAX → never_excluded →
  let '(r, ordinal', lost', w') :=
    forward_with_failover decision canonical req channel ordinal lost w in
  ∃ rows t, lost' = lost ++ rows ∧ trace w' = trace w ++ t ∧
    holding None t = Some (held r) ∧
    NoDup (leased t) ∧ (length (leased t) ≤ S (max_account_switches env))%nat ∧
    (sends t ≤ length (leased t) * S (same_account_retries env))%nat ∧
    ordinal' = ordinal + Z.of_nat (length (leased t)) ∧
    StronglySorted Z.lt (paid r rows) ∧ Forall (fun k => ordinal ≤ k < ordinal') (paid r rows) ∧
    answers t = map lost_answer rows ++ served_answer r.
Proof. apply run_books. Qed.

End failover.
(** ** A pool for the witnesses: one credential that loses its answer, one
    that is throttled, one that serves. *)

Definition generated_example (n : Z) : StreamAccumulator :=
  Stream.observe Stream.new (EvUsageUpdate
    {| input_tokens := 3; output_tokens := n; cache_read_tokens := 0; cache_write_tokens := 0 |}).

Definition env_example : Env Q := {|
  max_account_switches := 2; same_account_retries := 1; failover_budget := 60000;
  clock := fun i => Z.of_nat i;
  pool_lease := fun _ p excluded _ =>
    match keep (fun a => negb (bool_decide (a ∈ excluded))) [1; 2; 3]%N with
    | a :: _ => Ok {| lease_account := a; lease_kind := "api_key" |}
    | [] => Err (NoCredential p)
    end;
  adapter_of := fun _ _ _ => Ok {| adapter_dialect := OpenAIResponses; adapter_framing := Sse;
                                   always_streams := true |};
  ensure_fresh := fun _ _ => Ok (); prepare_credential := fun _ _ => Ok ();
  build := fun _ _ _ => Ok (); transport := fun _ _ => Ok ();
  execute := fun _ l =>
    if bool_decide (lease_account l = 2%N) then ReplyStatus 429 "slow down" (Some " 17 ")
    else ReplySuccess;
  collect_stream := fun _ l _ =>
    if bool_decide (lease_account l = 1%N) then Err (StreamIdle 30, generated_example 7)
    else Ok (generated_example 9);
  collect_body := fun _ _ _ => Err (Internal "unused")
|}.

Definition request_example : Request := {|
  req_auth := {| api_key_id := 1; principal_id := 2; route_id := 3 |};
  request_id := 9; req_started := 0 |}%N.

Definition world_example : World := {| tick := 0; breakers := Some ∅; trace := [] |}.

Definition run_example :=
  forward_with_failover env_example Policy.served_on_floor Names.history_example request_example None 0 []
    world_example.

Example run_example_is :
  map lost_attempt run_example.1.2 = [0] ∧
  served_number run_example.1.1.1 = [2] ∧
  trace run_example.2 =
    [EvLease 1; EvSend 1; EvStream 1 0 (Err (StreamIdle 30, generated_example 7)); EvRelease 1; EvLease 2;
     EvSend 2; EvRateLimit 2 17000; EvRelease 2; EvLease 3; EvSend 3;
     EvStream 3 2 (Ok (generated_example 9))]%N.
Proof. vm_compute. done. Qed.

Lemma never_excluded_example : never_excluded env_example.
Proof.
  intros i p excluded ch l. cbn [pool_lease env_example]. unfold keep.
  destruct (List.filter _ _) as [|a rest] eqn:Hf; [done|]. intros [= <-]. cbn.
  assert (In a (a :: rest)) as Ha by (by left). rewrite <- Hf in Ha.
  apply filter_In in Ha as [_ Ha]. bool_to_prop. done.
Qed.

Lemma failover_is_bounded_and_accounted_witness :
  ∃ rows t, run_example.1.2 = rows ∧ trace run_example.2 = t ∧ NoDup (leased t) ∧
    (sends t ≤ 6)%nat.
Proof.
  destruct (failover_is_bounded_and_accounted env_example Policy.served_on_floor
    Names.history_example request_example None 0 [] world_example) as (rows & t & Hr & Ht & _ & Hnd & Hl & Hs & _);
    [lia|vm_compute; discriminate|exact never_excluded_example|].
  exists rows, t. split_and!; [exact Hr|exact Ht|exact Hnd|].
  change (S (max_account_switches env_example)) with 3%nat in Hl.
  change (S (same_account_retries env_example)) with 2%nat in Hs. lia.
Defined.

Lemma waits_are_bounded_witness : ∃ t, trace run_example.2 = t ∧ Forall tame t.
Proof.
  apply (waits_are_bounded env_example Policy.served_on_floor Names.history_example request_example None 0 []
    world_example). intros i l e H. discriminate H.
Defined.

Lemma probes_left_as_found_witness :
  ∃ m', breakers run_example.2 = Some m' ∧ sound m' ∧ ∀ a, flag m' a = false.
Proof.
  destruct (probes_left_as_found env_example Policy.served_on_floor Names.history_example request_example None 0 []
    world_example ∅) as (m' & Hm & Hs & Hf); [reflexivity| |].
  - intros a. apply Breaker.new_inv.
  - exists m'. split_and!; [exact Hm|exact Hs|]. intros a. rewrite Hf. reflexivity.
Defined.

End Failover.
