(* ===== verification/Pool.v ===== *)
(** * Failing over across the pool

    [Failover] takes its pool as a function and may assume that it does not hand
    back a credential it was told is excluded; [Leasing] is that pool.  Here
    the two are put together: [forward_with_failover] calling [select::lease]. *)

From Stdlib Require Import QArith.
From stdpp Require Import sorting.
From S2P Require Import Prelude Text Money Domain Efforts Catalog Cost.
From S2P Require Import Breaker Schedule Ladder Classify Budget Policy Canonical Names Stream Meter Failover.
From S2P Require Import Slots Leasing.
#[local] Open Scope string_scope.
#[local] Open Scope oag_scope.
#[local] Open Scope list_scope.
#[local] Open Scope Z_scope.

Module Pool.
Import Failover.

(** ** Where a run's credentials come from *)

Section grants.
Context {D : Type} {HD : Decimal D} (env : Env D) (Q : AccountId → Prop).

(** What a run leased satisfies [Q]. *)
Definition granting (w w' : World) : Prop :=
  ∃ t, trace w' = trace w ++ t ∧ Forall Q (leased t).

Lemma granting_none w w' t :
  trace w' = trace w ++ t → leased t = [] → granting w w'.
Proof. intros Ht Hl. exists t. split; [done|]. rewrite Hl. constructor. Qed.

Lemma granting_trans w w1 w2 : granting w w1 → granting w1 w2 → granting w w2.
Proof.
  intros (t & Ht & Hq) (u & Hu & Hq'). exists (t ++ u). rewrite Hu, Ht, app_assoc. split; [done|].
  unfold leased in *. rewrite filter_map_app. by apply Forall_app.
Qed.

Lemma granting_try dec c lease ordinal w :
  granting w (try_credential env dec c lease ordinal w).2.
Proof.
  pose proof (try_credential_works env dec c lease ordinal w) as H.
  destruct (try_credential _ _ _ _ _ _) as [o w']. destruct H as (t & Ht & Ha & _).
  apply (granting_none _ _ t Ht). by eapply leased_about.
Qed.

Lemma granting_switches n switch began dec c req channel excluded last ordinal lost w :
  (∀ i ex l, pool_lease env i (model_provider (dec_model dec)) ex channel = Ok l → Q (lease_account l)) →
  granting w (switches env n switch began dec c req channel excluded last ordinal lost w).2.
Proof.
  intros HQ. revert switch excluded last ordinal lost w.
  induction n as [|n IH]; intros switch excluded last ordinal lost w; cbn [switches take].
  all: destruct (negb _); [by apply (granting_none _ _ []); cbn; rewrite ?app_nil_r|].
  all: destruct (pool_lease _ _ _ _ _) as [lease|e] eqn:El;
    [|by apply (granting_none _ _ []); cbn; rewrite ?app_nil_r].
  all: set (w1 := log _ _).
  all: assert (granting w w1) as H1
    by (exists [EvLease (lease_account lease)]; split; [done|]; repeat constructor; by eapply HQ).
  all: pose proof (granting_try dec c lease ordinal w1) as H2.
  all: destruct (try_credential _ _ _ _ _ _) as [o w2]; cbn [snd] in H2.
  all: pose proof (granting_trans _ _ _ H1 H2) as H12.
  all: assert (granting w (log (EvRelease (lease_account lease)) w2)) as H3
    by (eapply granting_trans; [exact H12|]; by apply (granting_none _ _ [EvRelease (lease_account lease)])).
  all: destruct o; cbn [snd]; try done.
  all: eapply granting_trans; [exact H3|]; apply IH.
Qed.
End grants.

Section pool.
Context {D : Type} {HD : Decimal D} (env : Env D).

(** The world a lease finds at each point of a run, for each provider. *)
Context (world : nat → Provider → LeaseEnv D).

(** [select::lease(..).await], a lease as [Failover] reads it. *)
Definition lease_from (i : nat) (provider : Provider) (excluded : list AccountId)
    (channel : option CredentialKind) : result Lease Error :=
  match (Leasing.lease (world i provider) provider excluded channel Leasing.start).1 with
  | Some (Ok g) =>
      Ok {| lease_account := row_id (granted g); lease_kind := row_kind (granted g) |}
  | Some (Err e) => Err e
  | None => Err (Internal "out of fuel")
  end.

(** [Failover]'s environment with this pool. *)
Definition pooled : Env D := {|
  max_account_switches := max_account_switches env; same_account_retries := same_account_retries env;
  failover_budget := failover_budget env; clock := clock env; pool_lease := lease_from;
  adapter_of := adapter_of env; ensure_fresh := ensure_fresh env;
  prepare_credential := prepare_credential env; build := build env; transport := transport env;
  execute := execute env; collect_stream := collect_stream env; collect_body := collect_body env |}.

(** A credential that selection could hand out for this provider and pin. *)
Definition offered (provider : Provider) (channel : option CredentialKind) (a : AccountId) : Prop :=
  ∃ i row fetched, candidates_sql (world i provider) 0 = Ok fetched ∧ In row fetched ∧ row_id row = a ∧
    (∀ kind, channel = Some kind → Credential.from_column (row_kind row) = Some kind) ∧
    (NoDup (map row_id fetched) → Leasing.usable (world i provider) row).

Lemma lease_from_spec i p excluded channel l :
  lease_from i p excluded channel = Ok l →
  (lease_account l ∉ excluded) ∧ offered p channel (lease_account l).
Proof.
  unfold lease_from.
  destruct (Leasing.lease_spec (world i p) p excluded channel Leasing.start) as (r & w' & -> & H).
  cbn [fst]. destruct r as [g|e]; [|done]. intros [= <-]. cbn [lease_account].
  cbn [l_tick Leasing.start] in H. destruct (candidates_sql (world i p) 0) as [fetched|e] eqn:Es; [|by destruct H].
  destruct H as [(row & e & [= ->] & -> & Hin & Hu & _)|(t & e & _ & _ & _ & Hin & _ & Hu)].
  - apply Leasing.of_kind_In in Hin as [Hin Hk]. split; [by intros ?%not_elem_of_nil|].
    by exists i, row, fetched.
  - apply keep_In in Hin as [Hin Hx]. apply Leasing.of_kind_In in Hin as [Hin Hk]. bool_to_prop.
    split; [done|]. exists i, (granted g), fetched. split_and!; try done. intros Hnd. apply Hu.
    apply Leasing.NoDup_keep_ids. unfold Leasing.of_kind. destruct channel; [by apply Leasing.NoDup_keep_ids|done].
Qed.

Lemma pool_is_fresh : never_excluded pooled.
Proof. intros i p excluded channel l H. by apply lease_from_spec in H as [? _]. Qed.

(** C29. Failing over across the real pool.  With [select::lease] as its pool,
    and with nothing assumed of the database, Redis, the adapters or the
    upstreams, a run leases at most [max_account_switches + 1] credentials,
    never one twice, holds one at a time and ends holding exactly the one its
    answer came through; and each was a row the query gave for the model's
    provider, of the kind the name pinned, that could take a request when it was
    leased, where the query names each credential once. *)
Theorem failover_over_the_pool decision canonical req channel ordinal lost w :
  0 ≤ ordinal → ordinal + Z.of_nat (S (max_account_switches env)) ≤ U8_MAX →
  let '(r, _, _, w') :=
    forward_with_failover pooled decision canonical req channel ordinal lost w in
  ∃ t, trace w' = trace w ++ t ∧
    holding None t = Some (held r) ∧
    NoDup (leased t) ∧ (length (leased t) ≤ S (max_account_switches env))%nat ∧
    Forall (offered (model_provider (dec_model decision)) channel) (leased t).
Proof.
  intros H0 Hmax.
  pose proof (run_books pooled decision canonical req channel ordinal lost w H0 Hmax pool_is_fresh) as H.
  assert (granting (offered (model_provider (dec_model decision)) channel) w
    (forward_with_failover pooled decision canonical req channel ordinal lost w).2) as Hg.
  { unfold forward_with_failover. apply (granting_trans _ w (next w)).
    { apply (granting_none _ _ _ []); [by rewrite app_nil_r|done]. }
    apply granting_switches. intros i ex l Hl. by apply lease_from_spec in Hl as [_ ?]. }
  destruct (forward_with_failover _ _ _ _ _ _ _ _) as [[[r o] l] w']. cbn [snd] in Hg.
  destruct H as (rows & t & _ & Ht & Hh & Hnd & Hlen & _).
  destruct Hg as (t' & Ht' & Hq). rewrite Ht in Ht'. apply app_inv_head in Ht' as <-.
  by exists t.
Qed.

End pool.

(** ** Witness *)

Definition pool_world (i : nat) (p : Provider) : LeaseEnv Q :=
  Leasing.lease_env [Leasing.key_row 1%N 1; Leasing.key_row 2%N 2; Leasing.key_row 3%N 3].

Definition pool_run :=
  forward_with_failover (pooled env_example pool_world) Policy.served_on_floor Names.history_example
    request_example None 0 [] world_example.

Lemma failover_over_the_pool_witness :
  leased (trace pool_run.2) = [2; 3]%N ∧
  ∃ t, trace pool_run.2 = t ∧ NoDup (leased t) ∧
    Forall (offered pool_world (model_provider (dec_model Policy.served_on_floor)) None) (leased t).
Proof.
  split; [vm_compute; reflexivity|].
  destruct (failover_over_the_pool env_example pool_world Policy.served_on_floor Names.history_example
    request_example None 0 [] world_example) as (t & Ht & _ & Hnd & _ & Hq);
    [lia|vm_compute; discriminate|].
  exists t. split_and!; [exact Ht|exact Hnd|exact Hq].
Defined.

End Pool.
