(* ===== verification/Climb.v ===== *)
(** * Climbing the ladder, and metering each attempt

    [crates/oag-server/src/gateway/climb.rs]: the loop outside failover, which
    tries a better model when no credential of this rung can be had, when the
    model refuses the request or when its answer is unusable, and which owes
    the ledger a row for every answer generated on the way. *)

From Stdlib Require Import Ascii Sorted QArith.
From S2P Require Import Prelude Text Money Domain Breaker Efforts Catalog Cost.
From S2P Require Import Ladder Classify Budget Policy Canonical Names Stream Meter Failover.
#[local] Open Scope string_scope.
#[local] Open Scope list_scope.
#[local] Open Scope Z_scope.

Section records.
Context {D : Type}.

(** [Plan] of [gateway/plan.rs]. *)
Record Plan : Type := {
  plan_policy : RoutingPolicy;
  plan_decision : RoutingDecision D;
  plan_signal : RequestSignal;
  plan_catalog : Catalog D;
  plan_pressure : BudgetPressure;
  plan_channel : option CredentialKind;
  plan_served : list string
}.

(** What the client is answered with: a stream, metered when it ends, or a
    body; each from the decision that served it and the gate it is labelled
    with. *)
Inductive Response : Type :=
  | RespStream (lease : Lease) (attempt : Z) (names : Names.FunctionNameMap)
      (decision : RoutingDecision D) (triggering_gate : option QualityGate)
  | RespJson (accumulator : StreamAccumulator) (gate : option QualityGate)
      (decision : RoutingDecision D).
End records.
Arguments Plan : clear implicits.
Arguments Response : clear implicits.

Module Climb.

Definition MAX_ESCALATIONS : Z := 1.

Definition should_climb (reason : SelectionReason) (gate : QualityGate) (pressure : BudgetPressure)
    (escalations requested_max model_max : Z) : bool :=
  Policy.climb_allowed reason
  && negb (bool_decide (gate = Truncated) && Policy.truncated_by_client_cap requested_max model_max)
  && Policy.escalation_allowed pressure escalations MAX_ESCALATIONS.

(** [canonical.model.clone_from(name)]. *)
Definition with_model (r : CanonicalRequest) (name : string) : CanonicalRequest := {|
  model := name; system := system r; messages := messages r; req_tools := req_tools r;
  max_tokens := max_tokens r; stream := stream r; thinking_budget := thinking_budget r;
  thinking_effort := thinking_effort r; client_session := client_session r;
  tool_choice := tool_choice r; response_format := response_format r; stop := stop r;
  previous_response_id := previous_response_id r; passthrough := passthrough r |}.

Section climb.
Context {D : Type} {HD : Decimal D}.
Context (env : Env D) (json_ok : string → bool) (req : Failover.Request).
Implicit Types (decision : RoutingDecision D) (w : World).

Section plan.
Context (plan : Plan D).

Definition budget_alone_prevented_the_climb (gate : option QualityGate) (pressure : BudgetPressure)
    decision (escalations max_tokens : Z) : bool :=
  match gate with
  | None => false
  | Some gate =>
      if bool_decide (pressure = Normal) then false
      else if negb (should_climb (dec_reason decision) gate Normal escalations max_tokens
        (model_max_output_tokens (dec_model decision))) then false
      else
        match dec_tier decision with
        | None => false
        | Some from =>
            bool_decide (is_Some (Policy.escalate_decision (plan_policy plan) from gate
              (plan_signal plan) (plan_catalog plan) max_tokens (plan_served plan)))
        end
  end.

(** The rung a gate sends the request to, under a pressure. *)
Definition next_rung (gate : option QualityGate) (pressure : BudgetPressure)
    decision (escalations max_tokens : Z) : option (QualityGate * RoutingDecision D) :=
  match gate with
  | None => None
  | Some gate =>
      if should_climb (dec_reason decision) gate pressure escalations max_tokens
        (model_max_output_tokens (dec_model decision)) then
        match dec_tier decision with
        | None => None
        | Some from =>
            match Policy.escalate_decision (plan_policy plan) from gate (plan_signal plan)
              (plan_catalog plan) max_tokens (plan_served plan) with
            | Some next => Some (gate, next)
            | None => None
            end
        end
      else None
  end.

(** The rung past the provider a failure sends the request to. *)
Definition next_provider (e : Error) decision (escalations max_tokens : Z)
    : option (RoutingDecision D) :=
  match Errors.disposition e with
  | EscalateTier =>
      if Policy.climb_allowed (dec_reason decision)
         && Policy.escalation_allowed (plan_pressure plan) escalations MAX_ESCALATIONS then
        match dec_tier decision with
        | None => None
        | Some from =>
            Policy.escalate_past_provider (plan_policy plan) from
              (model_provider (dec_model decision)) (plan_signal plan) (plan_catalog plan)
              max_tokens (plan_served plan)
        end
      else None
  | _ => None
  end.

(** The rows of the attempts paid for and not served: [spawn_unserved], and
    the tail of the served path. *)
Definition unserved_rows (abandoned : option (AbandonedAttempt D)) (lost : list (LostAttempt D))
    : list (UsageWrite D) :=
  match abandoned with Some a => [Meter.record_abandoned a] | None => [] end
  ++ map Meter.record_lost lost.

(** The answer of a pass, or the refusal of the request. *)
Definition Answered : Type := result (StreamAccumulator * Lease * Z) Error.

Definition gate_of (answer : Answered) : option QualityGate :=
  match answer with
  | Err _ => Some ContextOverflow
  | Ok (accumulator, _, _) => Stream.quality_gate json_ok accumulator
  end.

(** What one pass of the loop decides: to end, with the rows to write, or to
    go round again. *)
Record State : Type := {
  st_decision : RoutingDecision D;
  st_canonical : CanonicalRequest;
  escalations : Z;
  triggering_gate : option QualityGate;
  abandoned : option (AbandonedAttempt D);
  lost : list (LostAttempt D);
  dispatch : Z
}.

Inductive Pass : Type :=
  | Return (r : result (Response D) Error) (rows : list (UsageWrite D))
  | Continue (s : State).

Definition climb_to (next : RoutingDecision D) (gate : QualityGate)
    (ab : option (AbandonedAttempt D)) (s : State) : State := {|
  st_decision := next;
  st_canonical := with_model (st_canonical s) (upstream_name (dec_model next));
  escalations := escalations s + 1;
  triggering_gate := Some gate;
  abandoned := ab; lost := lost s; dispatch := dispatch s |}.

Definition failed (s : State) (e : Error) : Pass :=
  match next_provider e (st_decision s) (escalations s) (max_tokens (st_canonical s)) with
  | Some next => Continue (climb_to next GateNoCredential (abandoned s) s)
  | None => Return (Err e) (unserved_rows (abandoned s) (lost s))
  end.

Definition context (s : State) (lease : Lease) (attempt : Z) : Context_ D :=
  Meter.meter_context (Failover.req_auth req) (st_decision s) lease (Failover.request_id req)
    (Failover.req_started req) attempt.

Definition judged (s : State) (answer : Answered) w : Pass * World :=
  let gate := gate_of answer in
  let now := clock env (tick w) in
  match next_rung gate (plan_pressure plan) (st_decision s) (escalations s)
    (max_tokens (st_canonical s)) with
  | Some (g, next) =>
      match answer with
      | Ok (accumulator, lease, attempt) =>
          (Continue (climb_to next g
            (Some (Meter.abandon (context s lease attempt) accumulator g now)) s),
           Failover.log (EvRelease (lease_account lease)) w)
      | Err _ => (Continue (climb_to next g (abandoned s) s), w)
      end
  | None =>
      match answer with
      | Err e => (Return (Err e) (unserved_rows (abandoned s) (lost s)), w)
      | Ok (accumulator, lease, attempt) =>
          let recorded := match triggering_gate s with Some g => Some g | None => gate end in
          (Return (Ok (RespJson accumulator gate (st_decision s)))
            (Meter.record_collected (context s lease attempt) accumulator recorded now
             :: unserved_rows (abandoned s) (lost s)),
           Failover.log (EvRelease (lease_account lease)) w)
      end
  end.

(** One pass of the loop of [run_with_escalation]. *)
Definition pass (s : State) w : Pass * World :=
  let '(r, ordinal, rows, w) :=
    Failover.forward_with_failover env (st_decision s) (st_canonical s) req (plan_channel plan)
      (dispatch s) (lost s) w in
  let s := {|
    st_decision := st_decision s; st_canonical := st_canonical s; escalations := escalations s;
    triggering_gate := triggering_gate s; abandoned := abandoned s; lost := rows;
    dispatch := ordinal |} in
  match r with
  | Err e => (failed s e, w)
  | Ok (Streaming lease attempt names) =>
      (Return (Ok (RespStream lease attempt names (st_decision s) (triggering_gate s)))
         (unserved_rows (abandoned s) (lost s)), w)
  | Ok (RejectedAttempt e) => judged s (Err e) w
  | Ok (Collected accumulator lease attempt) => judged s (Ok (accumulator, lease, attempt)) w
  end.

Fixpoint loop (fuel : nat) (s : State) w
    : option (result (Response D) Error * list (UsageWrite D) * World) :=
  match fuel with
  | O => None
  | S fuel =>
      match pass s w with
      | (Return r rows, w) => Some (r, rows, w)
      | (Continue s, w) => loop fuel s w
      end
  end.

Definition start (canonical : CanonicalRequest) : State := {|
  st_decision := plan_decision plan; st_canonical := canonical; escalations := 0;
  triggering_gate := None; abandoned := None; lost := []; dispatch := 0 |}.

(** Two passes: [MAX_ESCALATIONS + 1]. *)
Definition FUEL : nat := 2.

Definition run_with_escalation (canonical : CanonicalRequest) w
    : option (result (Response D) Error * list (UsageWrite D) * World) :=
  loop FUEL (start canonical) w.

(** ** What a pass leaves *)

Definition abandoned_answer (a : AbandonedAttempt D) : Failover.Answer :=
  (ctx_account (ab_ctx a), ctx_attempt (ab_ctx a), usage (out_accumulator (ab_outcome a))).

(** The answers a state still owes the ledger. *)
Definition owed (s : State) : list Failover.Answer :=
  match abandoned s with Some a => [abandoned_answer a] | None => [] end
  ++ map Failover.lost_answer (lost s).

Definition number (a : Failover.Answer) : Z := a.1.2.

(** What a row says was generated. *)
Definition row_answer (row : UsageWrite D) : option AccountId * Z * Usage :=
  (uw_account_id row, uw_attempt row, uw_usage row).
Definition as_row (a : Failover.Answer) : option AccountId * Z * Usage := (Some a.1.1, a.1.2, a.2).

Lemma unserved_rows_answer s :
  map row_answer (unserved_rows (abandoned s) (lost s)) = map as_row (owed s).
Proof.
  unfold unserved_rows, owed. rewrite !map_app, !map_map. f_equal. by destruct (abandoned s).
Qed.

Lemma unserved_rows_save_nothing ab ls : Forall Meter.books_no_saving (unserved_rows ab ls).
Proof.
  unfold unserved_rows. apply Forall_app. split.
  - destruct ab; [|constructor]. repeat constructor.
  - apply List.Forall_map, List.Forall_forall. intros l _. repeat constructor.
Qed.

Abbreviation max_leases := (S (max_account_switches env)).

(** The books of a run so far: one lease at a time and [h] held, the bounds,
    every answer owed a row or in [mine], the numbers apart. *)
Record books (s : State) (t : list Event) (h : option AccountId) (passes : Z)
    (mine : list Failover.Answer) (numbers : list Z) : Prop := {
  bk_held : Failover.holding None t = Some h;
  bk_leases : Z.of_nat (length (Failover.leased t)) ≤ passes * Z.of_nat max_leases;
  bk_sends : (Failover.sends t ≤ length (Failover.leased t) * S (same_account_retries env))%nat;
  bk_answers : Permutation (Failover.answers t) (owed s ++ mine);
  bk_dispatch : dispatch s = Z.of_nat (length (Failover.leased t));
  bk_fresh : NoDup (map number (owed s) ++ numbers) ∧
    Forall (fun k => k < dispatch s) (map number (owed s) ++ numbers)
}.

Lemma sorted_NoDup (l : list Z) : StronglySorted Z.lt l → NoDup l.
Proof.
  induction 1 as [|a l _ IH Ha]; constructor; [|done].
  intros Hin. rewrite List.Forall_forall in Ha. apply list_elem_of_In, Ha in Hin. lia.
Qed.

Lemma owed_lost s rows ordinal :
  owed {| st_decision := st_decision s; st_canonical := st_canonical s;
          escalations := escalations s; triggering_gate := triggering_gate s;
          abandoned := abandoned s; lost := lost s ++ rows; dispatch := ordinal |}
  = owed s ++ map Failover.lost_answer rows.
Proof. unfold owed. cbn [abandoned lost]. by rewrite map_app, app_assoc. Qed.

(** Failing over on one rung keeps the books. *)
Lemma books_failover s t passes w :
  Failover.never_excluded env → books s t None passes [] [] →
  (passes + 1) * Z.of_nat max_leases ≤ U8_MAX →
  let '(r, ordinal, rows, w') :=
    Failover.forward_with_failover env (st_decision s) (st_canonical s) req (plan_channel plan)
      (dispatch s) (lost s) w in
  ∃ u, trace w' = trace w ++ u ∧
    books {| st_decision := st_decision s; st_canonical := st_canonical s;
             escalations := escalations s; triggering_gate := triggering_gate s;
             abandoned := abandoned s; lost := rows; dispatch := ordinal |}
      (t ++ u) (Failover.held r) (passes + 1) (Failover.served_answer r) (Failover.served_number r).
Proof.
  intros Hne [Hh Hl Hs Ha Hd [Hn Hf]] Hmax. unfold Failover.forward_with_failover.
  pose proof (Failover.switches_spec env (max_account_switches env) 0 (clock env (tick w))
    (st_decision s) (st_canonical s) req (plan_channel plan) []
    (NoCredential (model_provider (dec_model (st_decision s)))) (dispatch s) (lost s)
    (Failover.next w)) as Hrun.
  destruct (Failover.switches _ _ _ _ _ _ _ _ _ _ _ _ _) as [[[r o] rows'] w'].
  destruct Hrun as (rows & u & Hrows & Hu & [Rh Rl Rs Ra Rf Ro Rp]). cbn [fst snd] in *. subst rows'.
  exists u. split; [exact Hu|]. rewrite app_nil_r in *.
  assert (0 ≤ dispatch s) as H0 by lia.
  assert (dispatch s + Z.of_nat max_leases ≤ U8_MAX) as H1 by nia.
  destruct (Rp H0 H1) as [Hsort Hrange]. specialize (Ro ltac:(lia)).
  assert (o = dispatch s + Z.of_nat (length (Failover.leased u))) as Ho by lia. clear Ro Rp.
  assert (Failover.leased (t ++ u) = Failover.leased t ++ Failover.leased u) as Hlease
    by apply filter_map_app.
  split; rewrite ?Hlease, ?length_app, ?owed_lost; cbn [dispatch].
  - by rewrite Failover.holding_app, Hh.
  - lia.
  - rewrite Failover.sends_app. lia.
  - unfold Failover.answers in *. rewrite filter_map_app, Ra, app_assoc.
    by do 2 apply Permutation_app_tail.
  - lia.
  - rewrite map_app, map_map, <- app_assoc.
    change (map (fun x => number (Failover.lost_answer x)) rows) with (map Failover.lost_attempt rows).
    change (map Failover.lost_attempt rows ++ Failover.served_number r) with (Failover.paid r rows).
    split.
    + apply NoDup_app. split_and!; [done| |by apply sorted_NoDup].
      intros k Hk Hk'. rewrite List.Forall_forall in Hf, Hrange.
      apply list_elem_of_In in Hk, Hk'. specialize (Hf _ Hk). specialize (Hrange _ Hk'). lia.
    + apply Forall_app. split; eapply Forall_impl; try done; cbv beta; lia.
Qed.

Definition response_holds (r : result (Response D) Error) : option AccountId :=
  match r with Ok (RespStream lease _ _ _ _) => Some (lease_account lease) | _ => None end.

Definition stream_number (r : result (Response D) Error) : list Z :=
  match r with Ok (RespStream _ n _ _ _) => [n] | _ => [] end.

(** The rows say a saving only for the answer the client got. *)
Definition rows_of (r : result (Response D) Error) (rows : list (UsageWrite D)) : Prop :=
  match r with
  | Ok (RespJson accumulator _ decision) =>
      ∃ row rest, rows = row :: rest ∧ Forall Meter.books_no_saving rest ∧
        uw_usage row = usage accumulator ∧
        uw_selection_reason row = Meter.reason_label (dec_reason decision)
  | _ => Forall Meter.books_no_saving rows
  end.

(** The books of a request that is over. *)
Record settled (r : result (Response D) Error) (rows : list (UsageWrite D)) (t : list Event)
    (passes : Z) : Prop := {
  se_held : Failover.holding None t = Some (response_holds r);
  se_leases : Z.of_nat (length (Failover.leased t)) ≤ passes * Z.of_nat max_leases;
  se_sends : (Failover.sends t ≤ length (Failover.leased t) * S (same_account_retries env))%nat;
  se_answers : Permutation (map as_row (Failover.answers t)) (map row_answer rows);
  se_numbers : NoDup (map uw_attempt rows ++ stream_number r);
  se_rows : rows_of r rows
}.

Lemma unserved_rows_number s :
  map uw_attempt (unserved_rows (abandoned s) (lost s)) = map number (owed s).
Proof.
  unfold unserved_rows, owed. rewrite !map_app, !map_map. f_equal. by destruct (abandoned s).
Qed.

Lemma next_rung_allowed gate pressure decision esc mt g next :
  next_rung gate pressure decision esc mt = Some (g, next) →
  gate = Some g ∧ pressure = Normal ∧ esc < MAX_ESCALATIONS ∧
  Policy.climb_allowed (dec_reason decision) = true ∧
  ∃ from, dec_tier decision = Some from ∧
    Policy.escalate_decision (plan_policy plan) from g (plan_signal plan) (plan_catalog plan) mt
      (plan_served plan) = Some next.
Proof.
  unfold next_rung, should_climb, Policy.escalation_allowed. destruct gate as [g'|]; [|done].
  case_match eqn:Hc; [|done]. destruct (dec_tier decision) as [from|]; [|done].
  destruct (Policy.escalate_decision _ _ _ _ _ _ _) eqn:He; [|done]. intros [= -> ->].
  rewrite !andb_true_iff, bool_decide_eq_true, Z.ltb_lt in Hc.
  destruct Hc as [[? _] [? ?]]. eauto 8.
Qed.

Lemma next_provider_allowed e decision esc mt next :
  next_provider e decision esc mt = Some next →
  plan_pressure plan = Normal ∧ esc < MAX_ESCALATIONS ∧
  Policy.climb_allowed (dec_reason decision) = true ∧
  ∃ from, dec_tier decision = Some from ∧
    Policy.escalate_past_provider (plan_policy plan) from (model_provider (dec_model decision))
      (plan_signal plan) (plan_catalog plan) mt (plan_served plan) = Some next.
Proof.
  unfold next_provider, Policy.escalation_allowed. destruct (Errors.disposition e); try done.
  case_match eqn:Hc; [|done]. destruct (dec_tier decision) as [from|]; [|done]. intros He.
  rewrite !andb_true_iff, bool_decide_eq_true, Z.ltb_lt in Hc. destruct Hc as [? [? ?]]. eauto 8.
Qed.

(** A release of the one lease held. *)
Lemma books_release s t a passes mine numbers :
  books s t (Some a) passes mine numbers →
  books s (t ++ [EvRelease a]) None passes mine numbers.
Proof.
  intros [Hh Hl Hs Ha Hd Hf].
  assert (Failover.leased (t ++ [EvRelease a]) = Failover.leased t) as Hlease.
  { unfold Failover.leased. by rewrite filter_map_app, app_nil_r. }
  split; rewrite ?Hlease; try done.
  - rewrite Failover.holding_app, Hh. cbn. by rewrite bool_decide_eq_true_2.
  - rewrite Failover.sends_app. cbn. lia.
  - unfold Failover.answers in *. by rewrite filter_map_app, app_nil_r.
Qed.

(** A run that ends with no answer to write settles its books as they are. *)
Lemma books_settle s t passes r :
  books s t (response_holds r) passes [] (stream_number r) →
  (∀ a g d, r ≠ Ok (RespJson a g d)) →
  settled r (unserved_rows (abandoned s) (lost s)) t passes.
Proof.
  intros [Hh Hl Hs Ha Hd [Hn Hf]] Hr. rewrite app_nil_r in Ha. split; try done.
  - rewrite unserved_rows_answer. by apply Permutation_map.
  - by rewrite unserved_rows_number.
  - pose proof (unserved_rows_save_nothing (abandoned s) (lost s)).
    destruct r as [[|a g d]|]; try done. by destruct (Hr a g d).
Qed.

(** A climb that abandons nothing, and one that abandons an answer. *)
Lemma books_climb s t next gate :
  books s t None (escalations s + 1) [] [] →
  books (climb_to next gate (abandoned s) s) t None (escalations s + 1) [] [].
Proof. intros [Hh Hl Hs Ha Hd Hf]. by split. Qed.

Lemma books_abandon s t next gate lease n acc now :
  abandoned s = None →
  books s t None (escalations s + 1) [(lease_account lease, n, usage acc)] [n] →
  books (climb_to next gate (Some (Meter.abandon (context s lease n) acc gate now)) s) t None
    (escalations s + 1) [] [].
Proof.
  intros Hab [Hh Hl Hs Ha Hd [Hn Hf]]. unfold owed in Ha, Hn, Hf. rewrite Hab in Ha, Hn, Hf.
  cbn [app] in *.
  assert (owed (climb_to next gate (Some (Meter.abandon (context s lease n) acc gate now)) s) =
    (lease_account lease, n, usage acc) :: map Failover.lost_answer (lost s)) as Ho by done.
  split; rewrite ?Ho; try done.
  - rewrite app_nil_r, Ha. symmetry. apply Permutation_cons_append.
  - rewrite app_nil_r. cbn [map]. change (number (_, n, _)) with n. split.
    + apply (NoDup_Permutation_proper _ (map number (map Failover.lost_answer (lost s)) ++ [n]));
        [apply Permutation_cons_append|done].
    + apply Forall_app in Hf as [? Hf]. inversion Hf; subst. by constructor.
Qed.

(** What a pass leaves of the books: settled, or ready for one more. *)
Definition passed (s : State) (t : list Event) (p : Pass) : Prop :=
  match p with
  | Return r rows => settled r rows t (escalations s + 1)
  | Continue s' =>
      escalations s < MAX_ESCALATIONS ∧ escalations s' = escalations s + 1 ∧
      books s' t None (escalations s') [] []
  end.

Lemma failed_passed s t e :
  books s t None (escalations s + 1) [] [] → passed s t (failed s e).
Proof.
  intros Hb. unfold failed. destruct (next_provider _ _ _ _) as [next|] eqn:Hn.
  - apply next_provider_allowed in Hn as (_ & Hesc & _). split_and!; [done|done|].
    by apply books_climb.
  - by apply books_settle.
Qed.

(** The row of the answer served stands in front of those still owed. *)
Lemma books_serve s t lease n acc g g' now d :
  books s t None (escalations s + 1) [(lease_account lease, n, usage acc)] [n] →
  d = st_decision s →
  settled (Ok (RespJson acc g d))
    (Meter.record_collected (context s lease n) acc g' now
     :: unserved_rows (abandoned s) (lost s)) t (escalations s + 1).
Proof.
  intros [Hh Hl Hs Ha Hd [Hn Hf]] ->. split; try done.
  - cbn [map]. rewrite unserved_rows_answer, Ha, map_app. symmetry. apply Permutation_cons_append.
  - cbn [map stream_number]. rewrite app_nil_r, unserved_rows_number.
    apply (NoDup_Permutation_proper _ (map number (owed s) ++ [n]));
      [apply Permutation_cons_append|done].
  - exists (Meter.record_collected (context s lease n) acc g' now),
      (unserved_rows (abandoned s) (lost s)).
    split_and!; [done|apply unserved_rows_save_nothing|done|done].
Qed.

Lemma judged_collected s t w acc lease n :
  (escalations s < MAX_ESCALATIONS → abandoned s = None) →
  books s t (Some (lease_account lease)) (escalations s + 1)
    [(lease_account lease, n, usage acc)] [n] →
  let '(p, w') := judged s (Ok (acc, lease, n)) w in
  trace w' = trace w ++ [EvRelease (lease_account lease)] ∧
  passed s (t ++ [EvRelease (lease_account lease)]) p.
Proof.
  intros Hab Hb. apply books_release in Hb. unfold judged.
  destruct (next_rung _ _ _ _ _) as [[g next]|] eqn:Hn.
  - apply next_rung_allowed in Hn as (_ & _ & Hesc & _). split; [done|].
    split_and!; [done|done|]. apply books_abandon; [by apply Hab|done].
  - split; [done|]. by apply books_serve.
Qed.

Lemma judged_refused s t w e :
  books s t None (escalations s + 1) [] [] →
  let '(p, w') := judged s (Err e) w in trace w' = trace w ∧ passed s t p.
Proof.
  intros Hb. unfold judged. destruct (next_rung _ _ _ _ _) as [[g next]|] eqn:Hn.
  - apply next_rung_allowed in Hn as (_ & _ & Hesc & _). split; [done|]. split_and!; [done|done|].
    by apply books_climb.
  - split; [done|]. by apply books_settle.
Qed.

Lemma pass_passed s t w :
  Failover.never_excluded env → (escalations s < MAX_ESCALATIONS → abandoned s = None) →
  (escalations s + 1) * Z.of_nat max_leases ≤ U8_MAX →
  books s t None (escalations s) [] [] →
  let '(p, w') := pass s w in ∃ u, trace w' = trace w ++ u ∧ passed s (t ++ u) p.
Proof.
  intros Hne Hab Hmax Hb. pose proof (books_failover s t (escalations s) w Hne Hb Hmax) as H.
  unfold pass. destruct (Failover.forward_with_failover _ _ _ _ _ _ _ _) as [[[r o] rows] w1].
  destruct H as (u & Hu & Hk). set (s1 := {| st_decision := _ |}) in *.
  destruct r as [[lease n names|acc lease n|e]|e]; cbn [Failover.held Failover.served_answer
    Failover.served_number] in Hk.
  - exists u. split; [done|]. by apply (books_settle s1).
  - pose proof (judged_collected s1 (t ++ u) w1 acc lease n Hab Hk) as Hj.
    destruct (judged _ _ _) as [p w2]. destruct Hj as [Hw Hp].
    exists (u ++ [EvRelease (lease_account lease)]). rewrite Hw, Hu, !app_assoc. done.
  - pose proof (judged_refused s1 (t ++ u) w1 e Hk) as Hj.
    destruct (judged _ _ _) as [p w2]. destruct Hj as [Hw Hp].
    exists u. rewrite Hw. done.
  - exists u. split; [done|]. by apply (failed_passed s1).
Qed.

(** C1. Every request comes to an end, and its books balance: whatever the
    pool, the adapters and the upstreams do, the loop returns within its two
    passes, at most one climb; no lease is left held but the one a stream is
    still being read through; at most [2 * (max_account_switches + 1)] leases
    are taken, each sent at most [same_account_retries + 1] requests; every
    answer that arrived whole, and every stream that broke off after the
    provider had reported output tokens, has exactly one row of the ledger,
    with its account, its dispatch number and its tokens, and there are no
    other rows (a body that could not be read and a stream that broke off
    before any output have none, and a stream handed to the client gets its row
    when it ends); the numbers are distinct, the stream's too, so no row's key
    is taken; and only the row of the answer the client got claims any
    saving. *)
Theorem request_is_metered canonical w :
  Failover.never_excluded env → 2 * Z.of_nat max_leases ≤ U8_MAX →
  ∃ r rows w' t,
    run_with_escalation canonical w = Some (r, rows, w') ∧ trace w' = trace w ++ t ∧
    Failover.holding None t = Some (response_holds r) ∧
    (length (Failover.leased t) ≤ 2 * max_leases)%nat ∧
    (Failover.sends t ≤ length (Failover.leased t) * S (same_account_retries env))%nat ∧
    Permutation (map as_row (Failover.answers t)) (map row_answer rows) ∧
    NoDup (map uw_attempt rows ++ stream_number r) ∧
    rows_of r rows.
Proof.
  intros Hne Hmax. unfold run_with_escalation, FUEL. cbn [loop].
  assert (books (start canonical) [] None 0 [] []) as H0.
  { split; cbn; try done; try lia. split; constructor. }
  pose proof (pass_passed (start canonical) [] w Hne (fun _ => eq_refl)) as H1.
  specialize (H1 ltac:(cbn [escalations start]; lia) H0).
  assert (∀ r rows t n, settled r rows t n → n ≤ 2 →
    (length (Failover.leased t) ≤ 2 * max_leases)%nat) as Hle.
  { intros r rows t n [_ Hl _ _ _ _] Hn. nia. }
  destruct (pass (start canonical) w) as [[r rows|s1] w1].
  - destruct H1 as (u & Hu & Hp). exists r, rows, w1, u. cbn [app] in Hp.
    pose proof (Hle _ _ _ _ Hp ltac:(cbn; lia)). destruct Hp. by split_and!.
  - destruct H1 as (u & Hu & (_ & Hs1 & Hb)). cbn [app start escalations] in *.
    pose proof (pass_passed s1 u w1 Hne) as H2. rewrite Hs1 in *.
    specialize (H2 ltac:(unfold MAX_ESCALATIONS; lia) ltac:(lia) Hb).
    destruct (pass s1 w1) as [[r rows|s2] w2]; destruct H2 as (u2 & Hu2 & Hp).
    + exists r, rows, w2, (u ++ u2).
      pose proof (Hle _ _ _ _ Hp ltac:(lia)). rewrite Hu2, Hu, <- app_assoc.
      destruct Hp. by split_and!.
    + destruct Hp as (Hlt & _). unfold MAX_ESCALATIONS in Hlt. lia.
Qed.

(** ** Which model answers *)

Definition response_decision (r : result (Response D) Error) : option (RoutingDecision D) :=
  match r with
  | Ok (RespStream _ _ _ d _) | Ok (RespJson _ _ d) => Some d
  | Err _ => None
  end.

(** A returned answer is the state's decision's, and its label is the gate that
    sent the request there. *)
Definition labelled (s : State) (r : result (Response D) Error) (rows : list (UsageWrite D)) : Prop :=
  match r with
  | Ok (RespStream _ _ _ d g) => d = st_decision s ∧ g = triggering_gate s
  | Ok (RespJson acc g d) => d = st_decision s ∧
      ∃ lease n now rest, rows =
        Meter.record_collected (context s lease n) acc
          (match triggering_gate s with Some g' => Some g' | None => g end) now :: rest
  | Err _ => True
  end.

(** Where a pass may send the request on to. *)
Definition climbs (s s' : State) : Prop :=
  ∃ from gate, dec_tier (st_decision s) = Some from ∧ plan_pressure plan = Normal ∧
    Policy.climb_allowed (dec_reason (st_decision s)) = true ∧
    triggering_gate s' = Some gate ∧ dec_reason (st_decision s') = Escalated (tier_name from) gate.

Lemma escalate_decision_reason p from gate signal (c : Catalog D) mt served d :
  Policy.escalate_decision p from gate signal c mt served = Some d →
  dec_reason d = Escalated (tier_name from) gate.
Proof.
  unfold Policy.escalate_decision. destruct (Ladder.escalate _ _) as [next|]; [|done].
  set (need := Classify.requirements signal mt).
  pose proof (Policy.resolve_from_shape p next (Escalated (tier_name from) gate) c need
    (Policy.baseline p c served need)) as H.
  destruct (Policy.resolve_from _ _ _ _ _ _); [|done]. intros [= ->]. apply H.
Qed.

Lemma past_provider_reason fuel p origin from avoid signal (c : Catalog D) mt served d :
  Policy.past_provider_loop fuel p origin from avoid signal c mt served = Some (Some d) →
  dec_reason d = Escalated (tier_name origin) GateNoCredential.
Proof.
  revert from; induction fuel as [|fuel IH]; intros from; [done|]. cbn [Policy.past_provider_loop].
  destruct (Policy.escalate_decision _ _ _ _ _ _ _) as [next|]; [|done].
  case_match; [by intros [= <-]|]. destruct (dec_tier next); [apply IH|done].
Qed.

Lemma escalate_past_provider_reason p from avoid signal (c : Catalog D) mt served d :
  Policy.escalate_past_provider p from avoid signal c mt served = Some d →
  dec_reason d = Escalated (tier_name from) GateNoCredential.
Proof.
  unfold Policy.escalate_past_provider.
  destruct (Policy.past_provider_loop _ _ _ _ _ _ _ _ _) as [o|] eqn:Hl; [|done].
  cbn [from_option Datatypes.id]. intros ->. by eapply past_provider_reason.
Qed.

Definition goes (s : State) (p : Pass) : Prop :=
  match p with Return r rows => labelled s r rows | Continue s' => climbs s s' end.

Lemma failed_goes s e : goes s (failed s e).
Proof.
  unfold failed. destruct (next_provider _ _ _ _) as [next|] eqn:Hn; [|done].
  apply next_provider_allowed in Hn as (? & _ & ? & from & ? & He).
  exists from, GateNoCredential. split_and!; try done. by eapply escalate_past_provider_reason.
Qed.

Lemma judged_goes s answer w : goes s (judged s answer w).1.
Proof.
  unfold judged. destruct (next_rung _ _ _ _ _) as [[g next]|] eqn:Hn.
  - apply next_rung_allowed in Hn as (_ & ? & _ & ? & from & ? & He).
    apply escalate_decision_reason in He.
    destruct answer as [[[acc lease] n]|e]; cbn [fst goes]; exists from, g; by split_and!.
  - destruct answer as [[[acc lease] n]|e]; cbn [fst goes labelled]; [|done].
    split; [done|]. by eexists _, _, _, _.
Qed.

Lemma pass_goes s w : goes s (pass s w).1.
Proof.
  unfold pass. destruct (Failover.forward_with_failover _ _ _ _ _ _ _ _) as [[[r o] rows] w1].
  destruct r as [[lease n names|acc lease n|e]|e]; cbn [fst]; try done.
  - apply (judged_goes {| st_decision := st_decision s; lost := rows; |}).
  - apply (judged_goes {| st_decision := st_decision s; lost := rows; |}).
  - apply (failed_goes {| st_decision := st_decision s; lost := rows; |}).
Qed.

(** A caller who named a model, or who is near a budget, is never moved to
    another: the request is over in one pass, and what answers it is the
    decision that was planned. *)
Theorem held_to_the_plan canonical w :
  plan_pressure plan ≠ Normal ∨ dec_reason (plan_decision plan) = ByPassthrough →
  ∃ r rows w', run_with_escalation canonical w = Some (r, rows, w') ∧
    pass (start canonical) w = (Return r rows, w') ∧
    ∀ d, response_decision r = Some d → d = plan_decision plan.
Proof.
  intros Hno. pose proof (pass_goes (start canonical) w) as Hg.
  unfold run_with_escalation, FUEL. cbn [loop].
  destruct (pass (start canonical) w) as [[r rows|s'] w'].
  - exists r, rows, w'. split_and!; [done|done|]. cbn [fst goes] in Hg.
    destruct r as [[]|]; cbn in *; try done; intros d [= <-]; by destruct Hg.
  - destruct Hg as (from & g & _ & Hp & Hc & _). cbn [start st_decision] in Hc.
    destruct Hno as [?|Hr]; [done|]. by rewrite Hr in Hc.
Qed.

(** A climb is one rung's worth and says so: an answer from any decision but
    the planned one was reached from the planned rung, with headroom and for a
    managed request, under a reason that names that rung and the gate that
    sent it; and the label a stream carries and the served row's columns name
    the same rung and the same gate. *)
Theorem climb_is_labelled canonical w r rows w' d :
  run_with_escalation canonical w = Some (r, rows, w') → response_decision r = Some d →
  d = plan_decision plan ∨
  ∃ from gate, dec_tier (plan_decision plan) = Some from ∧ plan_pressure plan = Normal ∧
    dec_reason (plan_decision plan) ≠ ByPassthrough ∧
    dec_reason d = Escalated (tier_name from) gate ∧
    match r with
    | Ok (RespStream _ _ _ _ g) => g = Some gate
    | _ => ∃ row rest, rows = row :: rest ∧
        uw_escalated_from_tier row = Some (tier_name from) ∧
        uw_escalation_gate row = Some (Meter.gate_debug gate)
    end.
Proof.
  unfold run_with_escalation, FUEL. cbn [loop]. intros Hrun Hd.
  pose proof (pass_goes (start canonical) w) as H1.
  destruct (pass (start canonical) w) as [[r1 rows1|s1] w1]; cbn [fst goes] in H1.
  { injection Hrun as -> -> ->. left.
    destruct r as [[]|]; cbn in *; try done; injection Hd as <-; by destruct H1. }
  destruct H1 as (from & gate & Ht & Hp & Hc & Hg & Hreason).
  pose proof (pass_goes s1 w1) as H2.
  destruct (pass s1 w1) as [[r2 rows2|s2] w2]; cbn [fst goes] in H2; [|done].
  injection Hrun as -> -> ->. right. exists from, gate.
  assert (d = st_decision s1) as ->.
  { destruct r as [[]|]; cbn in *; try done; injection Hd as <-; by destruct H2. }
  split_and!; try done.
  - intros Hb. cbn [start st_decision] in Hc. by rewrite Hb in Hc.
  - destruct r as [[]|]; cbn [labelled] in H2; [destruct H2; congruence| |done].
    destruct H2 as (-> & lease & n & now & rest & ->). rewrite Hg. eexists _, rest.
    split_and!; [done| |done]. cbn. by rewrite Hreason.
Qed.

(** The suppression counter counts what a raised cap would change: a pass is
    counted exactly when the caller is near a budget and, all else equal, the
    same gate would send the request up a rung under no pressure. *)
Theorem suppression_is_counterfactual gate pressure decision esc mt :
  budget_alone_prevented_the_climb gate pressure decision esc mt = true ↔
  next_rung gate pressure decision esc mt = None ∧
  is_Some (next_rung gate Normal decision esc mt) ∧ pressure ≠ Normal.
Proof.
  unfold budget_alone_prevented_the_climb. destruct gate as [g|].
  2: { split; [done|]. by intros (_ & [? ?] & _). }
  case_bool_decide as Hp; [naive_solver|].
  assert (next_rung (Some g) pressure decision esc mt = None) as Hnone.
  { destruct (next_rung _ _ _ _ _) as [[g' next]|] eqn:Hn; [|done].
    apply next_rung_allowed in Hn. by destruct Hn as (_ & ? & _). }
  unfold next_rung at 2. destruct (should_climb _ g Normal _ _ _); cbn [negb].
  2: { split; [done|]. by intros (_ & [? ?] & _). }
  destruct (dec_tier decision) as [from|]; [|split; [done|by intros (_ & [? ?] & _)]].
  rewrite bool_decide_eq_true.
  destruct (Policy.escalate_decision _ _ _ _ _ _ _); [naive_solver|].
  split; [by intros [? ?]|by intros (_ & [? ?] & _)].
Qed.

End plan.
End climb.
(** ** A request for the witnesses: its cheap rung answers nothing usable. *)

Definition cheap_decision_example : RoutingDecision Q := {|
  dec_model := spec_example "anthropic/haiku" Anthropic "haiku" 1 5;
  dec_tier := Some {| tier_name := "cheap"; tier_rank := 0 |};
  dec_reason := Classified; capability_escalated_from := None; ceiling_model := None |}.

Definition plan_example (pressure : BudgetPressure) : Plan Q := {|
  plan_policy := Policy.policy_example None; plan_decision := cheap_decision_example;
  plan_signal := Policy.signal_example; plan_catalog := Catalog.from_entries entries_example;
  plan_pressure := pressure; plan_channel := None; plan_served := [] |}.

Definition request_run (pressure : BudgetPressure) :=
  run_with_escalation Failover.env_example (fun _ => true) Failover.request_example
    (plan_example pressure) Names.history_example Failover.world_example.

(** Two lost answers, one abandoned to a gate, and the one served. *)
Example request_run_is :
  match request_run Normal with
  | Some (r, rows, _) =>
      response_decision r <> None ∧ map uw_attempt rows = [5; 2; 0; 3] ∧
      map uw_selection_reason rows = ["escalated"; "abandoned"; "lost"; "lost"] ∧
      map uw_model_id rows = ["bedrock/opus"; "anthropic/haiku"; "anthropic/haiku"; "bedrock/opus"]
  | None => False
  end.
Proof. vm_compute. split_and!; done. Qed.

Lemma request_is_metered_witness :
  ∃ r rows w' t, request_run Normal = Some (r, rows, w') ∧ trace w' = t ∧
    Failover.holding None t = Some (response_holds r) ∧ rows_of r rows.
Proof.
  destruct (request_is_metered Failover.env_example (fun _ => true) Failover.request_example
    (plan_example Normal) Names.history_example Failover.world_example)
    as (r & rows & w' & t & Hrun & Ht & Hh & _ & _ & _ & _ & Hr);
    [exact Failover.never_excluded_example|vm_compute; discriminate|].
  exists r, rows, w', t. split_and!; assumption.
Defined.

Lemma held_to_the_plan_witness :
  ∃ r rows w', request_run Constrained = Some (r, rows, w') ∧
    ∀ d, response_decision r = Some d → d = cheap_decision_example.
Proof.
  destruct (held_to_the_plan Failover.env_example (fun _ => true) Failover.request_example
    (plan_example Constrained) Names.history_example Failover.world_example)
    as (r & rows & w' & Hrun & _ & Hd); [left; discriminate|].
  exists r, rows, w'. split; assumption.
Defined.

Lemma climb_is_labelled_witness :
  match request_run Normal with
  | Some (r, rows, w') =>
      ∀ d, response_decision r = Some d → d = cheap_decision_example ∨
        ∃ from gate, dec_reason d = Escalated from gate
  | None => False
  end.
Proof.
  destruct (request_run Normal) as [[[r rows] w']|] eqn:Hrun.
  - intros d Hd.
    destruct (climb_is_labelled Failover.env_example (fun _ => true) Failover.request_example
      (plan_example Normal) Names.history_example Failover.world_example r rows w' d Hrun Hd)
      as [->|(from & gate & _ & _ & _ & H & _)]; [left; reflexivity|right; eauto].
  - vm_compute in Hrun. discriminate Hrun.
Defined.

End Climb.
