(* ===== verification/Alias.v ===== *)
(** * Model names as clients spell them

    [crates/oag-server/src/gateway/alias.rs]: the discovery prefix, the
    credential qualifier, and the one place both are read back.  The codebase's
    [Catalog::resolve] is [Catalog.resolve]. *)

From Stdlib Require Import Ascii QArith.
From S2P Require Import Prelude Text Money Domain Efforts Catalog.
#[local] Open Scope string_scope.
#[local] Open Scope oag_scope.
#[local] Open Scope list_scope.
#[local] Open Scope Z_scope.

(** [Normalised]: [norm_model] is [None] when the name was already canonical. *)
Record Normalised : Type := {
  norm_model : option string;
  norm_channel : option CredentialKind
}.

Module Alias.

Definition DISCOVERY_PREFIX : string := "anthropic/".
Definition CHANNEL_SEPARATOR : ascii := "@".
Definition VIRTUAL_PREFIX : string := "oag/".

(** [eq_ignore_ascii_case] on the bytes a [get(..len)] gives. *)
Definition starts_with_ci (s prefix : string) : bool :=
  (Str.len prefix <=? Str.len s)
  && Str.eqb (Str.to_ascii_lowercase (Str.take (String.length prefix) s))
       (Str.to_ascii_lowercase prefix).

Definition survives_discovery_filter (id : string) : bool :=
  starts_with_ci id "claude" || starts_with_ci id "anthropic".

Definition discovery_alias (id : string) : option string :=
  if survives_discovery_filter id then None else Some (DISCOVERY_PREFIX +:+ id).

Definition qualified_id (id : string) (kind : CredentialKind) : option string :=
  match Credential.qualifier kind with
  | Some q => Some (id +:+ String CHANNEL_SEPARATOR q)
  | None => None
  end.

Section alias.
Context {D : Type} {HD : Decimal D}.
Implicit Types (c : Catalog D) (model : string).

Definition known model c : bool :=
  Str.starts_with model VIRTUAL_PREFIX || bool_decide (is_Some (resolve c model)).

Definition canonicalise model c : option string :=
  if known model c then None
  else
    match Str.strip_prefix model DISCOVERY_PREFIX with
    | None => None
    | Some rest => if known rest c then Some rest else None
    end.

Definition split_channel model c : result (string * option CredentialKind) Error :=
  match Str.rsplit_once model CHANNEL_SEPARATOR with
  | None => Ok (model, None)
  | Some (base, qualifier) =>
      match resolve c model with
      | Some _ => Ok (model, None)
      | None =>
          let? kind := ok_or (Credential.from_qualifier qualifier) (UnknownModelChannel qualifier) in
          Ok (base, Some kind)
      end
  end.

Definition normalise model c : result Normalised Error :=
  let? (base, channel) := split_channel model c in
  let canonical := default base (canonicalise base c) in
  let answer := Ok {|
    norm_model := if Str.eqb canonical model then None else Some canonical;
    norm_channel := channel |} in
  match channel, resolve c canonical with
  | Some kind, Some spec =>
      if negb (Prov.accepts (Prov.support (model_provider spec)) kind)
      then Err (ChannelNotOffered (model_provider spec) kind) else answer
  | _, _ => answer
  end.

(** What the gateway takes a name to be: the canonical name and the pin. *)
Definition read_as model c : result (string * option CredentialKind) Error :=
  let? n := normalise model c in
  Ok (default model (norm_model n), norm_channel n).

(** ** Reading names back *)

Lemma known_virtual rung c : known (VIRTUAL_PREFIX +:+ rung) c = true.
Proof. unfold known. rewrite (proj2 (Str.starts_with_app _ _)); [done|by eexists]. Qed.

Lemma known_resolved model c : is_Some (resolve c model) → known model c = true.
Proof. intros H. unfold known. rewrite bool_decide_eq_true_2 by done. apply orb_true_r. Qed.

(** [read_as] without the change marker. *)
Lemma read_as_unfold model c :
  read_as model c =
  let? (base, channel) := split_channel model c in
  let canonical := default base (canonicalise base c) in
  match channel, resolve c canonical with
  | Some kind, Some spec =>
      if negb (Prov.accepts (Prov.support (model_provider spec)) kind)
      then Err (ChannelNotOffered (model_provider spec) kind) else Ok (canonical, channel)
  | _, _ => Ok (canonical, channel)
  end.
Proof.
  unfold read_as, normalise. destruct (split_channel model c) as [[base channel]|e]; [|done].
  cbn [result_bind]. set (canonical := default base (canonicalise base c)).
  assert (default model (if Str.eqb canonical model then None else Some canonical) = canonical) as Hd.
  { destruct (Str.eqb canonical model) eqn:E; [|done]. by apply Str.str_eqb_eq in E. }
  destruct channel as [kind|]; [|cbn; by rewrite Hd].
  destruct (resolve c canonical) as [spec|]; [|cbn; by rewrite Hd].
  destruct (negb _); [done|]. cbn. by rewrite Hd.
Qed.

(** A prefix nobody's name begins with, taken off again. *)
Lemma canonicalise_alias id c :
  known (DISCOVERY_PREFIX +:+ id) c = false → known id c = true →
  canonicalise (DISCOVERY_PREFIX +:+ id) c = Some id.
Proof.
  intros Ha Hk. unfold canonicalise. rewrite Ha.
  rewrite (proj2 (Str.strip_prefix_Some _ _ _) eq_refl). by rewrite Hk.
Qed.

Lemma qualifier_plain kind q : Credential.qualifier kind = Some q → ¬ In CHANNEL_SEPARATOR (Str.bytes q).
Proof. destruct kind; intros [= <-]; cbn; unfold CHANNEL_SEPARATOR; naive_solver. Qed.

Lemma split_qualified id kind name c :
  qualified_id id kind = Some name → resolve c name = None → split_channel name c = Ok (id, Some kind).
Proof.
  unfold qualified_id. destruct (Credential.qualifier kind) as [q|] eqn:Hq; [|done].
  intros [= <-] Hr. unfold split_channel.
  rewrite (proj2 (Str.rsplit_once_Some _ _ _ _) (conj eq_refl (qualifier_plain _ _ Hq))).
  rewrite Hr. by rewrite (proj2 (Credential.from_qualifier_qualifier _ _) Hq).
Qed.

Lemma split_plain model c :
  is_Some (resolve c model) ∨ ¬ In CHANNEL_SEPARATOR (Str.bytes model) →
  split_channel model c = Ok (model, None).
Proof.
  unfold split_channel. destruct (Str.rsplit_once model CHANNEL_SEPARATOR) as [[l r]|] eqn:E; [|done].
  intros [[s ->]|Hn]; [done|]. exfalso. apply Hn. apply Str.rsplit_once_Some in E as [-> _].
  rewrite Str.bytes_app. apply in_or_app. right. by left.
Qed.

(** The kinds a name may be pinned to: [None], or a kind the provider's
    credentials come in if the name is a model's. *)
Definition pinnable c (id : string) (channel : option CredentialKind) : Prop :=
  ∀ kind spec, channel = Some kind → resolve c id = Some spec →
    Prov.accepts (Prov.support (model_provider spec)) kind = true.

(** How the gateway itself spells a name: qualified or not, prefixed or not. *)
Inductive spelled (id : string) : option CredentialKind → string → Prop :=
  | spelled_id : spelled id None id
  | spelled_qualified kind name : qualified_id id kind = Some name → spelled id (Some kind) name
  | spelled_alias channel name alias :
      spelled id channel name → discovery_alias name = Some alias → spelled id channel alias.

(** What the gateway adds to [id] does not make it a model's name. *)
Definition undecorated c (id : string) : Prop :=
  resolve c (DISCOVERY_PREFIX +:+ id) = None ∧
  ∀ kind name, qualified_id id kind = Some name →
    resolve c name = None ∧ resolve c (DISCOVERY_PREFIX +:+ name) = None.

Lemma discovery_not_virtual s : Str.starts_with (DISCOVERY_PREFIX +:+ s) VIRTUAL_PREFIX = false.
Proof. destruct s; reflexivity. Qed.

Lemma known_alias id c : resolve c (DISCOVERY_PREFIX +:+ id) = None → known (DISCOVERY_PREFIX +:+ id) c = false.
Proof. intros H. unfold known. rewrite discovery_not_virtual, H. done. Qed.

(** Names with a prefix are not prefixed again. *)
Lemma alias_survives s : survives_discovery_filter (DISCOVERY_PREFIX +:+ s) = true.
Proof.
  unfold survives_discovery_filter. apply orb_true_intro. right. unfold starts_with_ci.
  apply andb_true_intro. split; [|reflexivity].
  unfold DISCOVERY_PREFIX. rewrite Str.len_append. pose proof (Str.len_nonneg s).
  apply Z.leb_le. change (Str.len "anthropic") with 9. change (Str.len "anthropic/") with 10. lia.
Qed.

Lemma survives_prefix id t : survives_discovery_filter id = true → survives_discovery_filter (id +:+ t) = true.
Proof.
  assert (∀ p, starts_with_ci id p = true → starts_with_ci (id +:+ t) p = true) as H.
  { intros p. unfold starts_with_ci. intros [Hl%Z.leb_le Ht]%andb_true_iff.
    apply andb_true_iff. split; [apply Z.leb_le; rewrite Str.len_append; pose proof (Str.len_nonneg t); lia|].
    assert (Str.take (String.length p) (id +:+ t) = Str.take (String.length p) id) as ->; [|done].
    apply Str.bytes_inj. rewrite !Str.bytes_take, Str.bytes_app, firstn_app.
    rewrite Str.bytes_length. unfold Str.len in Hl.
    replace (String.length p - String.length id)%nat with 0%nat by lia.
    by rewrite firstn_O, app_nil_r. }
  unfold survives_discovery_filter. rewrite !orb_true_iff. intros [?|?]; auto.
Qed.

(** The spellings of a name, one by one. *)
Lemma spelled_cases id channel name :
  spelled id channel name →
  ∃ base, (base = name ∨ name = DISCOVERY_PREFIX +:+ base) ∧
    match channel with
    | None => base = id
    | Some kind => qualified_id id kind = Some base
    end.
Proof.
  induction 1 as [|kind name Hq|channel name alias Hs IH Ha].
  - exists id. auto.
  - exists name. auto.
  - destruct IH as (base & [->| ->] & Hb).
    + unfold discovery_alias in Ha. destruct (survives_discovery_filter _); [done|].
      injection Ha as <-. exists name. auto.
    + unfold discovery_alias in Ha. by rewrite alias_survives in Ha.
Qed.

Lemma read_plain id c : known id c = true → is_Some (resolve c id) ∨ ¬ In CHANNEL_SEPARATOR (Str.bytes id) →
  read_as id c = Ok (id, None).
Proof.
  intros Hk Hs. rewrite read_as_unfold, split_plain by done. cbn [result_bind].
  unfold canonicalise. by rewrite Hk.
Qed.

Lemma read_split id base kind name c :
  split_channel name c = Ok (base, Some kind) → default base (canonicalise base c) = id →
  pinnable c id (Some kind) → read_as name c = Ok (id, Some kind).
Proof.
  intros Hs Hc Hp. rewrite read_as_unfold, Hs. cbn [result_bind]. rewrite Hc.
  destruct (resolve c id) as [spec|] eqn:Hr; [|done]. by rewrite (Hp kind spec) by done.
Qed.

Lemma prefix_assoc id kind base :
  qualified_id id kind = Some base →
  qualified_id (DISCOVERY_PREFIX +:+ id) kind = Some (DISCOVERY_PREFIX +:+ base).
Proof.
  unfold qualified_id. destruct (Credential.qualifier kind); [|done]. intros [= <-].
  by rewrite Str.append_assoc.
Qed.

(** Every spelling of a known name is read back, but for one: a bare [@] in
    the name is read as a qualifier behind the prefix. *)
Lemma read_spelled id channel name c :
  known id c = true → undecorated c id → pinnable c id channel →
  (In CHANNEL_SEPARATOR (Str.bytes id) → is_Some (resolve c id) ∧ discovery_alias id ≠ Some name) →
  spelled id channel name → read_as name c = Ok (id, channel).
Proof.
  intros Hk (Hp & Hq) Hpin Hat Hs.
  assert (is_Some (resolve c id) ∨ ¬ In CHANNEL_SEPARATOR (Str.bytes id)) as Hplain.
  { destruct (in_dec ascii_dec CHANNEL_SEPARATOR (Str.bytes id)); [left; by apply Hat|by right]. }
  assert (known (DISCOVERY_PREFIX +:+ id) c = false) as Hka by by apply known_alias.
  pose proof (canonicalise_alias id c Hka Hk) as Hcan.
  assert (canonicalise id c = None) as Hid by (unfold canonicalise; by rewrite Hk).
  inversion Hs as [|kind ? Hqual|? base ? Hbase Halias]; subst.
  - by apply read_plain.
  - apply (read_split id id); [apply split_qualified; [done|by eapply Hq]|by rewrite Hid|done].
  - unfold discovery_alias in Halias.
    destruct (survives_discovery_filter base) eqn:Hsv; [done|]. injection Halias as <-.
    destruct (spelled_cases _ _ _ Hbase) as (b & [<-| ->] & Hb);
      [|by rewrite alias_survives in Hsv].
    destruct channel as [kind|].
    + apply (read_split id (DISCOVERY_PREFIX +:+ id)); [|by rewrite Hcan|done].
      apply split_qualified; [by apply prefix_assoc|by eapply (Hq kind)].
    + subst b. rewrite read_as_unfold, split_plain.
      * cbn [result_bind]. by rewrite Hcan.
      * right. rewrite Str.bytes_app, in_app_iff. intros [Hin|Hin].
        { revert Hin. cbn. unfold CHANNEL_SEPARATOR. naive_solver. }
        destruct (Hat Hin) as [_ Hne]. apply Hne. unfold discovery_alias. by rewrite Hsv.
Qed.

Lemma normalise_read model c :
  normalise model c =
  let? (id, channel) := read_as model c in
  Ok {| norm_model := if Str.eqb id model then None else Some id; norm_channel := channel |}.
Proof.
  rewrite read_as_unfold. unfold normalise. destruct (split_channel model c) as [[base channel]|e]; [|done].
  cbn [result_bind]. set (canonical := default base (canonicalise base c)).
  destruct channel as [kind|]; [|done]. destruct (resolve c canonical) as [spec|]; [|done].
  by destruct (negb _).
Qed.

(** Every spelling the gateway gives a name is read back as that name and
    that pin: the bare name, the name qualified by a credential kind, and the
    discovery alias of either; and a name that is not decorated is left alone.
    The name must be one the router knows -- a virtual one or a model's -- and
    the spelling not itself a model's name; a name with an [@] of its own must
    be a model's, and its unqualified alias is the one spelling excluded. *)
Theorem spellings_read_back id channel name c :
  known id c = true → undecorated c id → pinnable c id channel →
  (In CHANNEL_SEPARATOR (Str.bytes id) → is_Some (resolve c id) ∧ discovery_alias id ≠ Some name) →
  spelled id channel name →
  normalise name c =
    Ok {| norm_model := if Str.eqb id name then None else Some id; norm_channel := channel |}.
Proof. intros. rewrite normalise_read, (read_spelled id channel) by done. done. Qed.

(** A pin is never dropped.  A name whose last [@] does not belong to a
    model's name either pins the kind written after it, to a model whose
    provider has credentials of that kind, or is refused by name; and what a
    name is read as is a name the router knows, or the name as it came, less a
    qualifier. *)
Theorem pins_are_kept model c base qualifier :
  Str.rsplit_once model CHANNEL_SEPARATOR = Some (base, qualifier) → resolve c model = None →
  match read_as model c with
  | Ok (id, channel) =>
      channel = Credential.from_qualifier qualifier ∧ is_Some channel ∧ pinnable c id channel ∧
      (id = base ∨ known id c = true ∧ base = DISCOVERY_PREFIX +:+ id)
  | Err e =>
      e = UnknownModelChannel qualifier ∧ Credential.from_qualifier qualifier = None ∨
      ∃ id spec kind, e = ChannelNotOffered (model_provider spec) kind ∧
        Credential.from_qualifier qualifier = Some kind ∧
        resolve c id = Some spec ∧ (id = base ∨ base = DISCOVERY_PREFIX +:+ id) ∧
        Prov.accepts (Prov.support (model_provider spec)) kind = false
  end.
Proof.
  intros Hsplit Hres. rewrite read_as_unfold. unfold split_channel. rewrite Hsplit, Hres.
  destruct (Credential.from_qualifier qualifier) as [kind|] eqn:Hk; cbn [ok_or result_bind]; [|by left].
  set (id := default base (canonicalise base c)).
  assert (id = base ∨ known id c = true ∧ base = DISCOVERY_PREFIX +:+ id) as Hid.
  { unfold id, canonicalise. destruct (known base c); [by left|].
    destruct (Str.strip_prefix base DISCOVERY_PREFIX) as [rest|] eqn:E; [|by left].
    apply Str.strip_prefix_Some in E as ->. destruct (known rest c) eqn:Hr; [by right|by left]. }
  destruct (resolve c id) as [spec|] eqn:Hs.
  - destruct (Prov.accepts _ kind) eqn:Hacc; cbn [negb].
    + split_and!; [done|by eexists| |done]. intros k s [= <-] Hs'. by rewrite Hs in Hs'; injection Hs' as <-.
    + right. exists id, spec, kind. naive_solver.
  - split_and!; [done|by eexists| |done]. intros k s [= <-] Hs'. by rewrite Hs in Hs'.
Qed.

End alias.

(** ** An id with an [@] of its own *)

Definition spec_at_example : ModelSpec Q :=
  spec_example "vertex-claude/claude-sonnet-4-5@20250929" XAI "claude-sonnet-4-5@20250929" 3 15.

Definition catalog_alias_example : Catalog Q :=
  from_entries [spec_at_example; spec_example "xai/grok-4.6" XAI "grok-4.6" 3 15].

(** The catalogue wins over the split for the id itself, but not behind the
    prefix the listing puts before it: the alias offered for a model whose id
    holds an [@] is refused. *)
Lemma alias_of_at_id_refused :
  let id := model_id spec_at_example in
  read_as id catalog_alias_example = Ok (id, None) ∧
  ∃ alias, discovery_alias id = Some alias ∧
    read_as alias catalog_alias_example = Err (UnknownModelChannel "20250929").
Proof. split; [vm_compute; reflexivity|]. eexists. split; vm_compute; reflexivity. Qed.

Lemma spellings_read_back_witness :
  normalise "anthropic/xai/grok-4.6@sub" catalog_alias_example =
    Ok {| norm_model := Some "xai/grok-4.6"; norm_channel := Some OAuth |} ∧
  normalise "anthropic/oag/auto" catalog_alias_example =
    Ok {| norm_model := Some "oag/auto"; norm_channel := None |}.
Proof.
  split.
  - apply (spellings_read_back "xai/grok-4.6" (Some OAuth)).
    + reflexivity.
    + split; [vm_compute; reflexivity|]. intros [] name; intros [= <-]; split; vm_compute; reflexivity.
    + intros kind spec [= <-]. vm_compute. intros [= <-]. reflexivity.
    + vm_compute. intros H. exfalso. intuition discriminate.
    + eapply spelled_alias; [apply (spelled_qualified _ OAuth); reflexivity|reflexivity].
  - apply (spellings_read_back "oag/auto" None).
    + reflexivity.
    + split; [vm_compute; reflexivity|]. intros [] name; intros [= <-]; split; vm_compute; reflexivity.
    + intros kind spec [=].
    + vm_compute. intros H. exfalso. intuition discriminate.
    + eapply spelled_alias; [apply spelled_id|reflexivity].
Defined.

Lemma pins_are_kept_witness :
  read_as "xai/grok-4.6@fast" catalog_alias_example = Err (UnknownModelChannel "fast").
Proof.
  destruct (read_as "xai/grok-4.6@fast" catalog_alias_example) as [[id ch]|e] eqn:E;
    pose proof (pins_are_kept "xai/grok-4.6@fast" catalog_alias_example "xai/grok-4.6" "fast"
      eq_refl ltac:(vm_compute; reflexivity)) as H; rewrite E in H.
  - destruct H as (-> & [k Hk] & _). vm_compute in Hk. discriminate.
  - destruct H as [[-> _]|(? & ? & ? & _ & Hk & _)]; [reflexivity|vm_compute in Hk; discriminate].
Defined.

End Alias.
