(* ===== verification/Respond.v ===== *)
(** * What a caller is told when a request fails

    The error half of [crates/oag-server/src/gateway/respond.rs] -- the status,
    the kind, the message and the [Retry-After] of each error, and the
    explanation of a route with no model for a request -- over the error
    messages of [crates/oag-core/src/error.rs].  Formatting a [Duration] or an
    instant, and parsing the provider's body, are the standard library's and
    third parties': parameters. *)

From Stdlib Require Import Ascii.
From S2P Require Import Prelude Text Money Domain Efforts Catalog Ladder Canonical.
#[local] Open Scope string_scope.
#[local] Open Scope oag_scope.
#[local] Open Scope list_scope.
#[local] Open Scope Z_scope.

(** [oag_store::ProviderStanding]; an instant is its nanoseconds. *)
Record ProviderStanding : Type := {
  total : Z;
  usable : Z;
  ownerless_seats : Z;
  live : Z;
  back_at : option Z
}.

Inductive Blocked : Type :=
  | BlockedNoCredential
  | NotTheirs (ownerless : bool)
  | NoneLive (back : option Z).

Inductive Laddered : Type :=
  | Unserved (provider : string)
  | Catalogued
  | Uncatalogued (provider : string) (blocked : option Blocked).

(** What is sent: the status line, the body and the one header that depends
    on the error. *)
Record ErrorResponse : Type := {
  er_status : Z;
  er_body : Json;
  er_retry_after : option Z
}.

Module Respond.

(** [i16]'s and [usize]'s [Display]. *)
Definition signed (n : Z) : string :=
  if n <? 0 then "-" +:+ Str.decimal (- n) else Str.decimal n.

(** [BudgetScope]'s [Display]. *)
Definition scope_words (s : BudgetScope) : string :=
  match s with
  | ScopeApiKey => "the quota on this API key"
  | ScopeRoute => "the monthly budget for this route"
  | ScopePrincipal => "the monthly budget for this principal"
  end.

Section respond.
(** [{:?}] of a [Duration]; [serde_json::from_str]; [utc_second]'s calendar. *)
Context (debug_duration : Z → string) (from_json : string → option Json)
  (utc_second : Z → string).

(** [Error]'s [Display]. *)
Definition to_string (e : Error) : string :=
  match e with
  | UnknownProvider name => "unknown provider: " +:+ name
  | Config what => "configuration: " +:+ what
  | NoCredential p => "no credential available for provider " +:+ Prov.as_str p +:+ " on this route"
  | UnknownModelChannel q =>
      "unknown model qualifier `@" +:+ q +:+ "`; use one of " +:+ Errors.model_channel_qualifiers
  | ChannelNotOffered p k =>
      Prov.as_str p +:+ " cannot be reached through a " +:+ Credential.channel_label k +:+ " credential"
  | NoCredentialOfKind p k =>
      "no " +:+ Credential.channel_label k +:+ " credential for " +:+ Prov.as_str p +:+ " on this route"
  | ReserveHeld p pct =>
      "every " +:+ Prov.as_str p +:+ " credential is at or below its " +:+ signed pct
        +:+ "% quota reserve; lower it with `oag admin account set-reserve`, wait for the usage window to reset, or add another credential"
  | AtCapacity p n =>
      "all " +:+ signed n +:+ " credentials for " +:+ Prov.as_str p +:+ " are at their concurrency limit"
  | NoViableModel what => what
  | Unauthenticated => "authentication failed"
  | BudgetExhausted s => scope_words s +:+ " exhausted"
  | RateLimited _ => "route rate limit exceeded"
  | Overloaded => "this replica is at capacity; retry"
  | UnsupportedAction a => "unsupported action: " +:+ a
  | UnsupportedField f d =>
      dialect_as_str d +:+ " cannot express `" +:+ f +:+ "`, which this request set"
  | Upstream p _ status _ _ => "upstream " +:+ Prov.as_str p +:+ " returned " +:+ signed status
  | StreamIdle after => "upstream stream stalled after " +:+ debug_duration after +:+ " with no data"
  | UpstreamTimeout after => "upstream sent no response within " +:+ debug_duration after
  | UpstreamUnavailable reason _ => "the upstream is unavailable: " +:+ reason
  | SystemOneNotConfigured route p =>
      "System One is not configured on this route: route '" +:+ route +:+ "' holds no "
        +:+ Errors.holder p
        +:+ " credential. Add one with `oag admin account add --name <name> --provider "
        +:+ Prov.as_str p +:+ " --secret <key> --route " +:+ route +:+ "`"
  | Serde what => "serialisation: " +:+ what
  | Internal what => what
  end.

(** [StatusCode::from_u16] takes [100..=999]. *)
Definition client_status_for (upstream : Z) : Z :=
  if (300 <=? upstream) && (upstream <=? 399) || (401 <=? upstream) && (upstream <=? 403)
     || (upstream =? 407) then 502
  else if (100 <=? upstream) && (upstream <=? 999) then upstream else 502.

(** The table of [error_response]. *)
Definition classified (e : Error) : Z * string * string :=
  match e with
  | Unauthenticated => (401, "authentication_error", to_string e)
  | BudgetExhausted scope => (402, "budget_exhausted", scope_words scope +:+ " is exhausted")
  | RateLimited _ => (429, "rate_limit_error", to_string e)
  | Overloaded => (503, "overloaded", to_string e)
  | UnsupportedAction _ => (404, "not_found", to_string e)
  | NoCredential _ => (503, "no_credential", to_string e)
  | UnknownModelChannel _ | ChannelNotOffered _ _ => (400, "invalid_model_qualifier", to_string e)
  | NoCredentialOfKind _ _ => (503, "no_credential_of_kind", to_string e)
  | ReserveHeld _ _ => (503, "quota_reserve_held", to_string e)
  | AtCapacity _ _ => (503, "at_capacity", to_string e)
  | NoViableModel _ => (400, "no_viable_model", to_string e)
  | UnsupportedField _ _ => (400, "unsupported_field", to_string e)
  | Upstream _ _ status _ _ => (client_status_for status, "upstream_error", to_string e)
  | Serde _ => (400, "invalid_request", to_string e)
  | StreamIdle _ => (504, "stream_idle", to_string e)
  | UpstreamTimeout _ => (504, "upstream_timeout", to_string e)
  | UpstreamUnavailable _ _ => (503, "upstream_unavailable", to_string e)
  | SystemOneNotConfigured _ _ => (503, "system_one_not_configured", to_string e)
  | UnknownProvider _ | Config _ | Internal _ => (500, "internal_error", "internal error")
  end.

(** The provider's error, beside ours. *)
Definition upstream_fields (e : Error) : Js.Fields :=
  match e with
  | Upstream _ _ status body _ =>
      ("upstream_status", JNumber (signed status))
        :: (if Str.is_empty body then []
            else [("upstream", default (JString body) (from_json body))])
  | _ => []
  end.

Definition wait_for (e : Error) : option Z :=
  match e with
  | RateLimited retry_after => Some retry_after
  | Upstream _ _ status _ retry_after =>
      if status =? 429 then Some (default 1000 retry_after) else None
  | Overloaded => Some 1000
  | _ => None
  end.

Definition error_response (e : Error) : ErrorResponse :=
  let '(status, kind, message) := classified e in
  {| er_status := status;
     er_body := JObject [("type", JString "error");
       ("error", JObject ([("type", JString kind); ("message", JString message)]
                          ++ upstream_fields e))];
     er_retry_after := (fun wait => Z.max 1 ((wait + 999) / 1000)) <$> wait_for e |}.

(** [Blocked::of]. *)
Definition blocked_of (s : ProviderStanding) : option Blocked :=
  if total s =? 0 then Some BlockedNoCredential
  else if usable s =? 0 then Some (NotTheirs (0 <? ownerless_seats s))
  else if live s =? 0 then Some (NoneLive (back_at s))
  else None.

Definition laddered_message (route model : string) (found : Laddered) : string :=
  let head := "'" +:+ model +:+ "' is on the ladder of route '" +:+ route +:+ "'" in
  match found with
  | Unserved provider =>
      head +:+ ", but this gateway serves no provider named '" +:+ provider
        +:+ "', so nothing can serve it; `oag admin doctor` says why"
  | Catalogued =>
      head +:+ ", but no rung this request may use holds a catalogued model that can take it, by context window, vision, tools or reasoning; see the ladder with: oag admin route show --route " +:+ route
  | Uncatalogued provider blocked =>
      let add_key := "oag admin account add --name <name> --provider " +:+ provider
        +:+ " --secret <key> --route " +:+ route in
      match blocked with
      | Some BlockedNoCredential =>
          head +:+ ", but the route holds no " +:+ provider +:+ " credential; add one with: " +:+ add_key
      | Some (NotTheirs true) =>
          head +:+ ", but no " +:+ provider +:+ " credential there may serve you: a subscription seat with no owner serves no one. Bind the seat to the one person it belongs to with: oag admin account set-owner <seat> --owner-email <owner>; or add a pay-per-use API key the whole route shares with: " +:+ add_key
      | Some (NotTheirs false) =>
          head +:+ ", but no " +:+ provider +:+ " credential there may serve you: each belongs to someone else, and a personal credential serves only its owner. Add a pay-per-use API key the whole route shares with: " +:+ add_key +:+ "; or, if one of them is yours, bind it to you with: oag admin account set-owner <name> --owner-email <your email>"
      | Some (NoneLive (Some at_)) =>
          head +:+ ", but every " +:+ provider +:+ " credential there that may serve you is cooling down or disabled; the first is back at " +:+ utc_second at_
      | Some (NoneLive None) =>
          head +:+ ", but every " +:+ provider +:+ " credential there that may serve you is disabled; put one back with: oag admin account enable <name>"
      | None =>
          head +:+ ", but the catalog has no such model, so it cannot be priced or routed; add it with: oag admin catalog add --id " +:+ model +:+ " --upstream <model> --input-per-mtok <usd> --output-per-mtok <usd> --context <tokens> --max-output <tokens>"
      end
  end.

Definition vendor_of (id : string) : option string := fst <$> Str.split_once id "/".

Definition no_viable_message (registry : gmap string Endpoint) (route requested : string)
    (l : TierLadder) (found : option Laddered) : string :=
  let requested := Str.trim requested in
  let on_ladder := List.concat (map rung_models (Ladder.rungs l)) in
  let ladder_providers := filter_map vendor_of on_ladder in
  let provider :=
    match vendor_of requested with
    | Some p => if Str.eqb p "oag" then None else Some p
    | None => None
    end in
  let system_one :=
    match provider with
    | Some name =>
        match Prov.from_str registry name with
        | Some p => negb (dialect_is_chat (Prov.native_dialect p))
        | None => false
        end
    | None => false
    end in
  if system_one then
    "'" +:+ requested +:+ "' is a System One model: it answers questions rather than continuing a conversation, so no chat route serves it. Send it to POST /jev/v1/systemone"
  else
    match found with
    | Some found => laddered_message route requested found
    | None =>
        match provider with
        | Some provider =>
            if negb (any (Str.eqb provider) ladder_providers) then
              "route '" +:+ route +:+ "' has no " +:+ provider
                +:+ " models on its ladder; add one with: oag admin route tiers --route " +:+ route
                +:+ " cheap=" +:+ requested
            else
              "route '" +:+ route +:+ "' has no model on its ladder that can serve '" +:+ requested
                +:+ "'; set one with: oag admin route tiers --route " +:+ route +:+ " cheap="
                +:+ requested
        | None =>
            let example := default "provider/model" (head on_ladder) in
            "route '" +:+ route
              +:+ "' has no model on its ladder that can serve this request; add one with: oag admin route tiers --route "
              +:+ route +:+ " cheap=" +:+ example
        end
    end.

(** ** What the statuses promise *)

Lemma client_status_range s : 0 ≤ s → 100 ≤ client_status_for s ≤ 999.
Proof. intros _. unfold client_status_for. repeat case_match; bool_to_prop; lia. Qed.

Lemma client_status_foreign s :
  (client_status_for s ∉ [401; 402; 403; 407]) ∧ ¬ (300 ≤ client_status_for s ≤ 399).
Proof.
  unfold client_status_for. rewrite !not_elem_of_cons.
  destruct (((300 <=? s) && (s <=? 399)) || ((401 <=? s) && (s <=? 403)) || (s =? 407)) eqn:E.
  - split_and!; try lia. apply not_elem_of_nil.
  - rewrite !orb_false_iff, !andb_false_iff in E. destruct E as [[E1 E2] E3]. bool_to_prop.
    rewrite ?Z.leb_gt in *. destruct (_ && _); [|split_and!; try lia; apply not_elem_of_nil].
    assert (s ≤ 299 ∨ 400 ≤ s) by (destruct E1 as [E1|E1]; bool_to_prop; lia).
    assert (s ≤ 400 ∨ 404 ≤ s) by (destruct E2 as [E2|E2]; bool_to_prop; lia).
    split_and!; try lia. apply not_elem_of_nil.
Qed.

(** What a client may conclude from a status alone. *)
Definition speaks_of_caller (e : Error) (status : Z) : Prop :=
  (status = 401 ↔ e = Unauthenticated) ∧
  (status = 402 ↔ ∃ scope, e = BudgetExhausted scope) ∧
  status ≠ 403 ∧ status ≠ 407 ∧ ¬ (300 ≤ status ≤ 399).

(** Two errors the caller must not be able to tell apart. *)
Definition hidden (e : Error) : Prop :=
  match e with UnknownProvider _ | Config _ | Internal _ => True | _ => False end.

(** What a failure tells a caller about themselves is true, and what it
    tells them about the gateway is nothing.  A 401 is their own key and a 402
    their own budget, never a credential of the gateway's or its account with a
    provider; no answer redirects them or asks them for a proxy's password; a
    429 or a shed request always says how long to wait, at least a second and
    at least as long as the wait asked for; and every internal failure gets
    the same answer, so nothing of its text -- a path, a connection string --
    reaches them. *)
Theorem error_response_honest e :
  let r := error_response e in
  speaks_of_caller e (er_status r) ∧
  (er_status r = 429 → ∃ secs, er_retry_after r = Some secs) ∧
  (∀ wait secs, wait_for e = Some wait → er_retry_after r = Some secs → 1 ≤ secs ∧ wait ≤ secs * 1000) ∧
  ∀ e', hidden e → hidden e' → error_response e' = r.
Proof.
  cbv zeta. split_and!.
  - destruct e as [| | | | | | | | | | | | | | |p a s t r| | | | | |];
      cbn [error_response classified er_status].
    16: { pose proof (client_status_foreign s) as [Hn H3]. rewrite !not_elem_of_cons in Hn.
          unfold speaks_of_caller. naive_solver. }
    all: unfold speaks_of_caller; split_and!; [split..|lia|lia|lia]; try lia; try done; eauto.
    all: try by intros [].
  - intros Hs. unfold error_response in *. destruct (classified e) as [[s k] m] eqn:E.
    cbn [er_status er_retry_after] in *. subst s.
    destruct e; cbn [classified] in E; try discriminate; cbn [wait_for fmap option_fmap option_map];
      [by eexists|].
    injection E as Hc _ _. unfold client_status_for in Hc. repeat case_match; try discriminate;
      [by eexists|bool_to_prop; lia].
  - intros wait secs Hw. unfold error_response. destruct (classified e) as [[??]?].
    cbn [er_retry_after]. rewrite Hw. intros [= <-].
    pose proof (Z.div_mod (wait + 999) 1000). pose proof (Z.mod_pos_bound (wait + 999) 1000). lia.
  - intros e' He He'. by destruct e, e'.
Qed.

End respond.

End Respond.
