(* ===== verification/Endpoints.v ===== *)
(** * Endpoints: the upstreams an operator registers

    What an endpoint row may say ([oag-core/src/endpoint.rs]), which URLs and
    addresses may be named at all ([oag-core/src/service.rs],
    [oag-server/src/egress.rs]), the headers an endpoint may add and the
    adapter each platform and dialect gets ([oag-upstream/src/custom.rs]), and
    the reload that serves the rows that pass ([oag-server/src/state.rs]).

    The [url] and [http] packages are the classes [UrlCrate] and [HeaderCrate];
    what is relied on of the first is [UrlLaws].  The stand-ins a test puts in
    Azure's place do not exist in a release build, so the list of them is
    empty here. *)

From Stdlib Require Import Ascii.
From S2P Require Import Prelude Text.
From S2P Require Import Domain.
From S2P Require Import Canonical.
From S2P Require Import Respond.
#[local] Open Scope string_scope.
#[local] Open Scope oag_scope.
#[local] Open Scope list_scope.
#[local] Open Scope Z_scope.

#[export] Instance AuthStyle_eq_dec : EqDecision AuthStyle.
Proof. solve_decision. Defined.

(** ** The packages *)

(** [url::Host]: an address is its bits, 32 or 128 of them. *)
Inductive Host : Type :=
  | HDomain (name : string)
  | HIpv4 (ip : Z)
  | HIpv6 (ip : Z).

Inductive IpAddr : Type := V4 (ip : Z) | V6 (ip : Z).

(** [url::Url] and what the code asks of one. *)
Class UrlCrate := {
  Url : Type;
  url_parse : string → result Url string;
  url_scheme : Url → string;
  url_username : Url → string;
  url_password : Url → option string;
  url_host : Url → option Host;
  url_host_str : Url → option string;
  url_port : Url → option Z;
  url_port_or_known_default : Url → option Z;
  url_path : Url → string;
  url_as_str : Url → string;
  url_set_path : Url → string → Url;
  url_clear_query : Url → Url;
  url_clear_fragment : Url → Url
}.

(** [HeaderName::from_bytes], lowercase, and [HeaderValue::from_str]. *)
Class HeaderCrate := {
  header_name : string → option string;
  header_value : string → option string
}.

(** [{:?}] of a [str]. *)
Class DebugStr := debug_str : string → string.

(** ** [oag-core/src/provider.rs]: the columns' spellings *)

Definition platform_as_str (p : Platform) : string :=
  match p with Plain => "plain" | Aws => "aws" | Gcp => "gcp" | Azure => "azure" end.

Definition platform_from_str (s : string) : result Platform string :=
  if Str.eqb s "plain" then Ok Plain
  else if Str.eqb s "aws" then Ok Aws
  else if Str.eqb s "gcp" then Ok Gcp
  else if Str.eqb s "azure" then Ok Azure
  else Err ("unknown platform `" +:+ s +:+ "`: use plain, aws, gcp or azure").

Definition auth_as_str (a : AuthStyle) : string :=
  match a with
  | Bearer => "bearer"
  | XApiKey => "x_api_key"
  | XGoogApiKey => "x_goog_api_key"
  | ApiKeyHeader => "api_key_header"
  | NoAuth => "none"
  end.

Definition auth_from_str (s : string) : result AuthStyle string :=
  if Str.eqb s "bearer" then Ok Bearer
  else if Str.eqb s "x_api_key" then Ok XApiKey
  else if Str.eqb s "x_goog_api_key" then Ok XGoogApiKey
  else if Str.eqb s "api_key_header" then Ok ApiKeyHeader
  else if Str.eqb s "none" then Ok NoAuth
  else Err ("unknown auth style `" +:+ s +:+
            "`: use bearer, x_api_key, x_goog_api_key, api_key_header or none").

(** ** [oag-core/src/service.rs] *)

Module Service.

Inductive ServiceKind : Type := Sandbox | Tool | Guard | Reduce | Harness | Browser | Other.

Definition kind_as_str (k : ServiceKind) : string :=
  match k with
  | Sandbox => "sandbox" | Tool => "tool" | Guard => "guard" | Reduce => "reduce"
  | Harness => "harness" | Browser => "browser" | Other => "other"
  end.

Definition kind_from_str (s : string) : result ServiceKind Error :=
  if Str.eqb s "sandbox" then Ok Sandbox
  else if Str.eqb s "tool" then Ok Tool
  else if Str.eqb s "guard" then Ok Guard
  else if Str.eqb s "reduce" then Ok Reduce
  else if Str.eqb s "harness" then Ok Harness
  else if Str.eqb s "browser" then Ok Browser
  else if Str.eqb s "other" then Ok Other
  else Err (Config ("kind must be sandbox, tool, guard, reduce, harness, browser, or other, not '"
                    +:+ s +:+ "'")).

(** [Ipv4Addr::new] and [Ipv6Addr::new]. *)
Definition ipv4 (a b c d : Z) : Z := ((a * 256 + b) * 256 + c) * 256 + d.
Definition ipv6 (segments : list Z) : Z := fold_left (fun ip s => ip * 65536 + s) segments 0.

Definition METADATA_V4 : list Z := [ipv4 100 100 100 200].

(** fd00:ec2::254 and fd20:ce::254. *)
Definition METADATA_V6 : list Z :=
  [ipv6 [64768; 3778; 0; 0; 0; 0; 0; 596]; ipv6 [64800; 206; 0; 0; 0; 0; 0; 596]].

(** 169.254.0.0/16, 0.0.0.0, 255.255.255.255 and 224.0.0.0/4. *)
Definition v4_is_denied (ip : Z) : bool :=
  (Z.shiftr ip 16 =? 43518) || (ip =? 0) || (ip =? U32_MAX) || (Z.shiftr ip 28 =? 14)
  || any (Z.eqb ip) METADATA_V4.

(** [Ipv6Addr::to_ipv4_mapped]: ::ffff:0:0/96. *)
Definition to_ipv4_mapped (ip : Z) : option Z :=
  if Z.shiftr ip 32 =? 65535 then Some (Z.land ip U32_MAX) else None.

(** fe80::/10, :: and ff00::/8. *)
Definition v6_is_denied (ip : Z) : bool :=
  (Z.shiftr ip 118 =? 1018) || (ip =? 0) || (Z.shiftr ip 120 =? 255)
  || any (Z.eqb ip) METADATA_V6
  || match to_ipv4_mapped ip with Some v4 => v4_is_denied v4 | None => false end.

Definition ip_is_denied (ip : IpAddr) : bool :=
  match ip with V4 v4 => v4_is_denied v4 | V6 v6 => v6_is_denied v6 end.

Definition is_metadata_host (name : string) : bool :=
  let name := Str.to_ascii_lowercase (Str.trim_end_matches name ".") in
  any (Str.eqb name)
    ["metadata"; "metadata.google.internal"; "metadata.google.com"; "metadata.azure.com"].

Definition denied_target : Error := Config "refusing a link-local or cloud-metadata URL".

Section service.
Context `{UrlCrate}.

Definition catalog_url (raw : string) : result Url Error :=
  let trimmed := Str.trim raw in
  if Str.is_empty trimmed then Err (Config "URL is empty")
  else if 2048 <? Str.len trimmed then Err (Config "URL is too long")
  else
    let? url :=
      match url_parse trimmed with
      | Ok url => Ok url
      | Err e => Err (Config ("not a URL: " +:+ e))
      end in
    let scheme := url_scheme url in
    if negb (Str.eqb scheme "http" || Str.eqb scheme "https") then
      Err (Config ("URL must be http or https, not '" +:+ scheme +:+ "'"))
    else if negb (Str.is_empty (url_username url))
            || match url_password url with Some _ => true | None => false end then
      Err (Config "URL must not contain credentials")
    else
      match url_host url with
      | Some (HIpv4 ip) => if ip_is_denied (V4 ip) then Err denied_target else Ok url
      | Some (HIpv6 ip) => if ip_is_denied (V6 ip) then Err denied_target else Ok url
      | Some (HDomain name) => if is_metadata_host name then Err denied_target else Ok url
      | None => Err (Config "URL is missing a host")
      end.

Definition health_url (base path : string) : result Url Error :=
  let path := Str.trim path in
  if Str.is_empty path || (256 <? Str.len path) then
    Err (Config "health_path must be a non-empty path of at most 256 characters")
  else if negb (Str.starts_with path "/") || Str.starts_with path "//" then
    Err (Config "health_path must start with a single '/'")
  else if any (fun c => any (Ascii.eqb c)
                 ["?"; "#"; "\"; Ascii.ascii_of_nat 13; Ascii.ascii_of_nat 10; Ascii.zero]%char)
              (Str.bytes path) then
    Err (Config "health_path must be a path, not a URL")
  else
    let? url := catalog_url base in
    let url := url_clear_fragment (url_clear_query (url_set_path url path)) in
    let? _ := catalog_url (url_as_str url) in
    Ok url.

End service.
End Service.

(** ** [oag-core/src/endpoint.rs] *)

Module Rules.

Inductive Reason : Type :=
  | Name | RDialect | RPlatform | RAuth | BaseUrl | Compliance | Region | Project | Path
  | ApiVersion | Headers | Unsupported.

Definition reason_as_str (r : Reason) : string :=
  match r with
  | Name => "name" | RDialect => "dialect" | RPlatform => "platform" | RAuth => "auth"
  | BaseUrl => "base_url" | Compliance => "compliance" | Region => "region"
  | Project => "project" | Path => "path" | ApiVersion => "api_version"
  | Headers => "headers" | Unsupported => "unsupported"
  end.

Record Refusal : Type := { reason : Reason; message : string }.

Definition refuse {A} (r : Reason) (m : string) : result A Refusal :=
  Err {| reason := r; message := m |}.

(** [Result::map_err] into a [Refusal]. *)
Definition or_refuse {A E} (r : Reason) (words : E → string) (x : result A E) : result A Refusal :=
  match x with Ok a => Ok a | Err e => refuse r (words e) end.

Definition normalise_base_url (provider raw : string) : result string Error :=
  let trimmed := Str.trim raw in
  if Str.is_empty trimmed then
    Err (Config ("the base URL for " +:+ provider +:+ " is empty"))
  else
    match find (fun c => any (Ascii.eqb c) (Str.bytes trimmed)) ["?"; "#"]%char with
    | Some bad =>
        Err (Config ("the base URL for " +:+ provider +:+ " contains '" +:+ String bad "': "
          +:+ trimmed +:+ ". Every request path is appended to it, so a query or fragment here would silently change what the resulting URL means."))
    | None =>
        if negb (Str.contains trimmed "://") then
          Err (Config ("the base URL for " +:+ provider +:+ " has no scheme: " +:+ trimmed))
        else Ok (Str.trim_end_matches trimmed "/")
    end.

Definition PLAIN_REFUSED_HOSTS : list string :=
  ["anthropic.com"; "claude.ai"; "claude.com"; "chatgpt.com"; "openai.com"; "x.ai"; "grok.com";
   "googleapis.com"; "amazonaws.com"; "azure.com"].

(** Whether [host] is [refused] or a name under it. *)
Definition is_or_under (host refused : string) : bool :=
  Str.eqb host refused
  || match Str.strip_suffix host refused with
     | Some under => Str.ends_with_char under "."
     | None => false
     end.

Definition AZURE_HOSTS : list string := ["openai.azure.com"; "services.ai.azure.com"].

Definition location_byte (b : ascii) : bool :=
  Str.is_ascii_lowercase b || Str.is_ascii_digit b || Ascii.eqb b "-".

Definition is_azure_resource (label : string) : bool :=
  (2 <=? Str.len label) && (Str.len label <=? 63)
  && match Str.bytes label with
     | b :: rest => (Str.is_ascii_lowercase b || Str.is_ascii_digit b) && all location_byte rest
     | [] => false
     end.

Definition is_location (value : string) : bool :=
  (1 <=? Str.len value) && (Str.len value <=? 63) && all location_byte (Str.bytes value).

Definition is_aws_region (value : string) : bool :=
  let lower part := negb (Str.is_empty part) && all Str.is_ascii_lowercase (Str.bytes part) in
  match Str.split value "-" with
  | area :: (_ :: _) as rest =>
      let number := List.last rest "" in
      let words := List.removelast rest in
      (Str.len area =? 2) && lower area && negb (Nat.eqb (length words) 0) && all lower words
      && (Str.len number =? 1) && all Str.is_ascii_digit (Str.bytes number)
  | _ => false
  end.

Definition path_byte (b : ascii) : bool :=
  Str.is_ascii_alphanumeric b || any (Ascii.eqb b) ["/"; "."; "_"; "-"]%char.

Definition is_path (value : string) : bool :=
  match Str.strip_prefix value "/" with
  | None => false
  | Some rest =>
      (Str.len rest <=? 127) && all path_byte (Str.bytes rest)
      && all (fun segment => negb (any (Str.eqb segment) [""; "."; ".."])) (Str.split rest "/")
  end.

Definition is_api_version (value : string) : bool :=
  let date := default value (Str.strip_suffix value "-preview") in
  (Str.len date =? 10)
  && all (fun ib : nat * ascii =>
       if Nat.eqb ib.1 4 || Nat.eqb ib.1 7 then Ascii.eqb ib.2 "-" else Str.is_ascii_digit ib.2)
       (combine (seq 0 (String.length date)) (Str.bytes date)).

Definition VERTEX_MULTI_REGIONS : list string := ["us"; "eu"].

Record Columns : Type := {
  c_name : string;
  c_dialect : string;
  c_platform : string;
  c_base_url : option string;
  c_auth : string;
  c_region : option string;
  c_project : option string;
  c_api_version : option string;
  c_path : option string;
  c_extra_headers : Json
}.

Record CheckedColumns : Type := {
  k_dialect : Dialect;
  k_platform : Platform;
  k_base_url : option string;
  k_auth : AuthStyle;
  k_region : option string;
  k_project : option string;
  k_api_version : option string;
  k_path : option string;
  k_extra_headers : list (string * string)
}.

Record EndpointConfig : Type := {
  e_endpoint : Endpoint;
  e_base_url : option string;
  e_auth : AuthStyle;
  e_region : option string;
  e_project : option string;
  e_api_version : option string;
  e_path : option string;
  e_extra_headers : list (string * string)
}.

Section rules.
Context `{U : UrlCrate} `{DebugStr}.
(** [{:?}] of a [Duration], in the words of errors no rule here makes. *)
Context (debug_duration : Z → string).

Definition words (e : Error) : string :=
  match e with Config message => message | other => Respond.to_string debug_duration other end.

Definition plain_refused_host (url : Url) (platform : Platform) : option string :=
  if negb (bool_decide (platform = Plain)) then None
  else
    match url_host url with
    | Some (HDomain host) =>
        find (is_or_under (Str.trim_end_matches host ".")) PLAIN_REFUSED_HOSTS
    | _ => None
    end.

Definition is_https_or_loopback (url : Url) : bool :=
  if Str.eqb (url_scheme url) "https" then true
  else if Str.eqb (url_scheme url) "http" then
    match url_host url with
    | Some (HIpv4 ip) => Z.shiftr ip 24 =? 127
    | Some (HIpv6 ip) => ip =? 1
    | Some (HDomain name) => Str.eqb name "localhost"
    | None => false
    end
  else false.

(** The resource's name in front of the first of [AZURE_HOSTS] the host is
    under. *)
Definition azure_resource (host : option Host) : option string :=
  match host with
  | Some (HDomain domain) =>
      head (filter_map (fun azure =>
        match Str.strip_suffix domain azure with
        | Some front => Str.strip_suffix front "."
        | None => None
        end) AZURE_HOSTS)
  | _ => None
  end.

Definition azure_base_url (url : Url) : result string Refusal :=
  let refused problem : result string Refusal :=
    refuse BaseUrl (problem +:+ ": an azure endpoint's base URL is its resource's, https://{resource}.openai.azure.com or https://{resource}.services.ai.azure.com, and nothing more; the gateway adds each request's path itself") in
  if negb (all (fun b => Ascii.eqb b "/") (Str.bytes (url_path url))) then
    refused ("the base URL has a path, " +:+ url_path url)
  else if negb (Str.eqb (url_scheme url) "https") then
    refused ("the base URL is " +:+ url_scheme url +:+ ", not https")
  else
    let host := default "" (url_host_str url) in
    if negb (match azure_resource (url_host url) with
             | Some resource => is_azure_resource resource
             | None => false
             end) then
      refused (host +:+ " is not an Azure resource's host")
    else
      match url_port url with
      | Some port => refused ("the base URL names port " +:+ Str.decimal port)
      | None => Ok ("https://" +:+ host)
      end.

Definition endpoint_base_url (raw : string) (platform : Platform) : result string Refusal :=
  if Str.has_control (Str.trim raw) then
    refuse BaseUrl "the base URL holds a control character, such as a tab, a newline or an escape: a URL parser would drop or escape it, so the URL checked would not be the one stored. Type it again without one"
  else
    let? url := or_refuse BaseUrl words (Service.catalog_url raw) in
    match plain_refused_host url platform with
    | Some refused =>
        refuse Compliance ("the base URL's host is " +:+ refused +:+ " or under it, where a plain endpoint may not point: that provider is served by its built-in adapter or by the aws, gcp or azure platform. See docs/compliance.md")
    | None =>
        let? _ := or_refuse BaseUrl words (normalise_base_url "this endpoint" raw) in
        if bool_decide (platform = Azure) then azure_base_url url
        else if bool_decide (platform = Gcp) && negb (is_https_or_loopback url) then
          refuse BaseUrl ("the base URL is " +:+ url_scheme url +:+ ", not https: a gcp endpoint's requests carry a bearer token minted from a service account, which plain http would show to every hop on the way; http is allowed only to this machine's loopback (127.0.0.0/8, [::1] or localhost), for a stand-in or a local proxy")
        else Ok (Str.trim_end_matches (url_as_str url) "/")
    end.

Definition path (value : option string) (dialect : Dialect) (column : string)
  : result (option string) Refusal :=
  match value with
  | None => Ok None
  | Some value =>
      if negb (bool_decide (dialect = SystemOne)) then
        refuse Path ("only a system_one endpoint takes a path; the " +:+ column +:+ " dialect builds its own from each request")
      else if negb (is_path value) then
        refuse Path ("path " +:+ debug_str value +:+ " must be `/` and then at most 127 of letters, digits, `/`, `.`, `_` and `-`, in segments that are neither empty, `.` nor `..`")
      else Ok (Some value)
  end.

Definition api_version (value : option string) (platform : Platform)
  : result (option string) Refusal :=
  match value with
  | Some v =>
      if bool_decide (platform = Azure) && negb (is_api_version v) then
        refuse ApiVersion ("api_version " +:+ debug_str v +:+ " must be a date, YYYY-MM-DD, with -preview after it or not, as Azure names its API versions; leave it unset for Azure's v1 API")
      else Ok value
  | None => Ok value
  end.

Definition location (r : Reason) (value : option string) (required : bool) (platform : Platform)
  : result (option string) Refusal :=
  let what := reason_as_str r in
  match value with
  | Some v =>
      if is_location v then Ok (Some v)
      else refuse r (what +:+ " " +:+ debug_str v +:+ " must be 1 to 63 characters from a-z, 0-9 and `-`")
  | None =>
      if required then
        refuse r ("an endpoint on the " +:+ platform_as_str platform +:+ " platform needs a " +:+ what)
      else Ok None
  end.

Fixpoint string_pairs (object : list (string * Json)) : result (list (string * string)) Refusal :=
  match object with
  | [] => Ok []
  | (name, JString value) :: object =>
      let? rest := string_pairs object in Ok ((name, value) :: rest)
  | (name, _) :: _ => refuse Headers ("extra header `" +:+ name +:+ "` is not a string")
  end.

Definition header_pairs (value : Json) : result (list (string * string)) Refusal :=
  match value with
  | JObject object => string_pairs object
  | _ => refuse Headers "extra_headers is not a JSON object"
  end.

(** The platforms that build their host from the region. *)
Definition regional (p : Platform) : bool := match p with Aws | Gcp => true | _ => false end.

(** [base_url] of [CheckedColumns::from_columns]. *)
Definition checked_base_url (base_url : option string) (platform : Platform)
  : result (option string) Refusal :=
  match base_url with
  | Some raw => let? url := endpoint_base_url raw platform in Ok (Some url)
  | None =>
      if regional platform then Ok None
      else refuse BaseUrl ("an endpoint on the " +:+ platform_as_str platform +:+ " platform needs a base URL")
  end.

Definition from_columns (c : Columns) : result CheckedColumns Refusal :=
  let? dialect := or_refuse RDialect Datatypes.id (from_endpoint_column (c_dialect c)) in
  let? platform := or_refuse RPlatform Datatypes.id (platform_from_str (c_platform c)) in
  if negb (platform_speaks platform dialect) then
    refuse RPlatform ("the " +:+ platform_as_str platform +:+ " platform does not serve the "
                      +:+ c_dialect c +:+ " dialect")
  else
    let? _ := or_refuse Name Datatypes.id (Prov.validate_name (c_name c)) in
    let? auth := or_refuse RAuth Datatypes.id (auth_from_str (c_auth c)) in
    if negb (auth_suits auth platform) then
      refuse RAuth ("auth `" +:+ auth_as_str auth +:+ "` is not how the "
                    +:+ platform_as_str platform +:+ " platform takes a key")
    else
      let? base_url := checked_base_url (c_base_url c) platform in
      let? region := location Region (c_region c) (regional platform) platform in
      if bool_decide (platform = Aws)
         && match region with Some region => negb (is_aws_region region) | None => false end then
        refuse Region ("region " +:+ debug_str (default "" region) +:+ " is not an AWS region: one is shaped like us-east-1, two letters, then words, then one digit, each after a `-`")
      else if bool_decide (platform = Gcp)
              && match base_url with None => true | Some _ => false end
              && match region with
                 | Some region => any (Str.eqb region) VERTEX_MULTI_REGIONS
                 | None => false
                 end then
        let location := default "" region in
        refuse Region ("region " +:+ debug_str location +:+ " is a Vertex multi-region, served at https://aiplatform."
          +:+ location +:+ ".rep.googleapis.com rather than at a host built from the region: set that as the endpoint's base URL")
      else
        let? project := location Project (c_project c) (bool_decide (platform = Gcp)) platform in
        let? path := path (c_path c) dialect (c_dialect c) in
        let? api_version := api_version (c_api_version c) platform in
        let? extra_headers := header_pairs (c_extra_headers c) in
        Ok {| k_dialect := dialect; k_platform := platform; k_base_url := base_url;
              k_auth := auth; k_region := region; k_project := project;
              k_api_version := api_version; k_path := path; k_extra_headers := extra_headers |}.

(** [EndpointConfig::from_columns]. *)
Definition config_of_columns (c : Columns) : result EndpointConfig Refusal :=
  let? checked := from_columns c in
  let? endpoint := or_refuse Name Datatypes.id
    (Prov.endpoint_new (c_name c) (k_dialect checked) (k_platform checked)) in
  Ok {| e_endpoint := endpoint; e_base_url := k_base_url checked; e_auth := k_auth checked;
        e_region := k_region checked; e_project := k_project checked;
        e_api_version := k_api_version checked; e_path := k_path checked;
        e_extra_headers := k_extra_headers checked |}.

End rules.
End Rules.

(** ** [oag-server/src/egress.rs] *)

Module Egress.

(** What resolving a name on a blocking thread answers: the thread failed, the
    lookup failed, or these addresses. *)
Inductive Lookup : Type :=
  | JoinFailed (e : string)
  | LookupFailed (e : string)
  | Resolved (addrs : list IpAddr).

Section egress.
Context `{UrlCrate} `{DebugStr} (debug_duration : Z → string).

Definition judged (ip : IpAddr) (url : Url) : result () string :=
  if Service.ip_is_denied ip then
    Err ("refusing to probe " +:+ default "" (url_host_str url)
         +:+ ": it is a link-local or metadata address")
  else Ok ().

(** What [deny_resolved_target] asks of DNS: a name and a port, or nothing. *)
Definition question (url : Url) : result (string * Z) (result () string) :=
  match url_host url with
  | Some (HDomain name) => Ok (name, default 80 (url_port_or_known_default url))
  | Some (HIpv4 ip) => Err (judged (V4 ip) url)
  | Some (HIpv6 ip) => Err (judged (V6 ip) url)
  | None => Err (Err "URL is missing a host")
  end.

(** What it makes of the answer. *)
Definition answered (host : string) (lookup : Lookup) : result () string :=
  match lookup with
  | JoinFailed e => Err ("resolving host: " +:+ e)
  | LookupFailed e => Err ("resolving " +:+ host +:+ ": " +:+ e)
  | Resolved addrs =>
      if any Service.ip_is_denied addrs then
        Err ("refusing to probe " +:+ host +:+ ": it resolves to a link-local or metadata address")
      else if Nat.eqb (length addrs) 0 then Err ("resolving " +:+ host +:+ ": no addresses")
      else Ok ()
  end.

(** The URL [validate_endpoint_base_url] has resolved: it checks the rules
    again, and reads the URL they stored. *)
Definition validated (raw : string) (platform : Platform) : result Url string :=
  match Rules.endpoint_base_url debug_duration raw platform with
  | Err refusal => Err (Rules.message refusal)
  | Ok normalised =>
      match url_parse normalised with
      | Ok url => Ok url
      | Err e => Err ("not a URL: " +:+ e)
      end
  end.

End egress.
End Egress.

(** ** [oag-upstream/src/custom.rs]: the headers and the adapter *)

Module Custom.

(** [HeaderMap], as the pairs appended to it. *)
Definition ExtraHeaders : Type := list (string * string).

Definition REFUSED : list string :=
  ["authorization"; "x-api-key"; "x-goog-api-key"; "api-key"; "host"; "cookie"; "content-length";
   "transfer-encoding"; "connection"; "te"; "upgrade"; "expect"; "metadata-flavor"].

Definition refused (name : string) : bool :=
  any (Str.eqb name) REFUSED || Str.starts_with name "proxy-".

Record EndpointSpec : Type := {
  sp_endpoint : Endpoint;
  sp_base_url : string;
  sp_auth : AuthStyle;
  sp_api_version : option string;
  sp_extra_headers : ExtraHeaders;
  sp_discover : bool;
  sp_region : option string;
  sp_project : option string;
  sp_gcp_tokens : bool          (* whether it was given the token cache *)
}.

(** The adapters an endpoint gets, with the settings each is built from
    ([OpenAICompatAdapter], [AnthropicAdapter], [GeminiAdapter],
    [BedrockAdapter], [ConverseAdapter], [AzureOpenAIAdapter],
    [VertexAdapter]), and the upstream of System One ([JevUpstream]). *)
Record BedrockRuntime : Type := {
  br_endpoint : Endpoint;
  br_region : string;
  br_override : option string;
  br_headers : ExtraHeaders
}.

Inductive Publisher : Type := Google | AnthropicPublisher.

Inductive Adapter : Type :=
  | OpenAICompat (ep : Endpoint) (base_url : string) (auth : AuthStyle) (headers : ExtraHeaders)
      (discover : bool)
  | AnthropicMsgs (ep : Endpoint) (base_url : string) (auth : AuthStyle) (headers : ExtraHeaders)
      (discover : bool)
  | GeminiGen (ep : Endpoint) (base_url : string) (auth : AuthStyle) (headers : ExtraHeaders)
      (discover : bool)
  | BedrockInvoke (runtime : BedrockRuntime)
  | BedrockConv (runtime : BedrockRuntime)
  | AzureOpenAI (ep : Endpoint) (base_url : string) (api_version : option string)
      (headers : ExtraHeaders)
  | Vertex (ep : Endpoint) (publisher : Publisher) (host project region : string)
      (headers : ExtraHeaders).

Record JevUpstream : Type := {
  jv_base_url : string;
  jv_path : string;
  jv_auth : AuthStyle;
  jv_extra_headers : ExtraHeaders
}.

Section custom.
Context `{HeaderCrate} `{DebugStr}.
(** [typesafe_sdk]'s [SYSTEM_ONE_PATH]. *)
Context (SYSTEM_ONE_PATH : string).

Fixpoint parse (pairs : list (string * string)) (platform : Platform)
  : result ExtraHeaders string :=
  match pairs with
  | [] => Ok []
  | (raw, value) :: pairs =>
      match header_name raw with
      | None => Err ("extra header " +:+ debug_str raw +:+ " is not a valid header name")
      | Some name =>
          if refused name then
            Err ("extra header `" +:+ name +:+ "` is not allowed: a key or a session goes in the endpoint's account, never in a header; host, content-length, transfer-encoding, connection, te, upgrade, expect and proxy-* are the transport's to set; and metadata-flavor is for a cloud's metadata server")
          else if bool_decide (platform = Aws) && Str.starts_with name "x-amz-" then
            Err ("extra header `" +:+ name +:+ "` is not allowed on an aws endpoint: SigV4 sets and signs the x-amz-* headers itself")
          else
            match header_value value with
            | None => Err ("extra header `" +:+ name +:+ "` has a value no header can carry")
            | Some value => let? rest := parse pairs platform in Ok ((name, value) :: rest)
            end
      end
  end.

(** [map_err(|e| format!(..))]. *)
Definition named {A} (name : string) (r : result A string) : result A string :=
  match r with Ok a => Ok a | Err e => Err ("endpoint `" +:+ name +:+ "`: " +:+ e) end.

Definition check_extra_headers (name : string) (platform : Platform)
    (pairs : list (string * string)) : result () string :=
  let? _ := named name (parse pairs platform) in Ok ().

(** [EndpointSpec::new]. *)
Definition spec_new (endpoint : Endpoint) (base_url : string) (auth : AuthStyle)
    (extra_headers : list (string * string)) : result EndpointSpec string :=
  let? extra_headers := named (ep_name endpoint) (parse extra_headers (ep_platform endpoint)) in
  Ok {| sp_endpoint := endpoint; sp_base_url := base_url; sp_auth := auth;
        sp_api_version := None; sp_extra_headers := extra_headers; sp_discover := false;
        sp_region := None; sp_project := None; sp_gcp_tokens := false |}.

Definition with_discovery (b : bool) (s : EndpointSpec) : EndpointSpec :=
  {| sp_endpoint := sp_endpoint s; sp_base_url := sp_base_url s; sp_auth := sp_auth s;
     sp_api_version := sp_api_version s; sp_extra_headers := sp_extra_headers s;
     sp_discover := b; sp_region := sp_region s; sp_project := sp_project s;
     sp_gcp_tokens := sp_gcp_tokens s |}.
Definition with_region (r : option string) (s : EndpointSpec) : EndpointSpec :=
  {| sp_endpoint := sp_endpoint s; sp_base_url := sp_base_url s; sp_auth := sp_auth s;
     sp_api_version := sp_api_version s; sp_extra_headers := sp_extra_headers s;
     sp_discover := sp_discover s; sp_region := r; sp_project := sp_project s;
     sp_gcp_tokens := sp_gcp_tokens s |}.
Definition with_project (p : option string) (s : EndpointSpec) : EndpointSpec :=
  {| sp_endpoint := sp_endpoint s; sp_base_url := sp_base_url s; sp_auth := sp_auth s;
     sp_api_version := sp_api_version s; sp_extra_headers := sp_extra_headers s;
     sp_discover := sp_discover s; sp_region := sp_region s; sp_project := p;
     sp_gcp_tokens := sp_gcp_tokens s |}.
Definition with_api_version (v : option string) (s : EndpointSpec) : EndpointSpec :=
  {| sp_endpoint := sp_endpoint s; sp_base_url := sp_base_url s; sp_auth := sp_auth s;
     sp_api_version := v; sp_extra_headers := sp_extra_headers s;
     sp_discover := sp_discover s; sp_region := sp_region s; sp_project := sp_project s;
     sp_gcp_tokens := sp_gcp_tokens s |}.
Definition with_gcp_tokens (s : EndpointSpec) : EndpointSpec :=
  {| sp_endpoint := sp_endpoint s; sp_base_url := sp_base_url s; sp_auth := sp_auth s;
     sp_api_version := sp_api_version s; sp_extra_headers := sp_extra_headers s;
     sp_discover := sp_discover s; sp_region := sp_region s; sp_project := sp_project s;
     sp_gcp_tokens := true |}.

Definition plain (endpoint : Endpoint) : result () Error :=
  match ep_platform endpoint with
  | Plain => Ok ()
  | platform =>
      Err (Config ("endpoint `" +:+ ep_name endpoint +:+ "` is on the "
        +:+ platform_as_str platform +:+ " platform, which is not supported yet"))
  end.

(** [BedrockAdapter::with_endpoint]: an empty override is none. *)
Definition non_empty (s : string) : option string := if Str.is_empty s then None else Some s.

Definition filtered (p : string → bool) (o : option string) : option string :=
  match o with Some s => if p s then Some s else None | None => None end.

Definition aws (spec : EndpointSpec) : result Adapter Error :=
  let endpoint := sp_endpoint spec in
  let name := ep_name endpoint in
  let? region := ok_or (filtered Rules.is_aws_region (sp_region spec))
    (Config ("endpoint `" +:+ name +:+ "` is on the aws platform, and names no AWS region")) in
  let runtime := {| br_endpoint := endpoint; br_region := region;
                    br_override := non_empty (sp_base_url spec);
                    br_headers := sp_extra_headers spec |} in
  match ep_dialect endpoint with
  | AnthropicMessages => Ok (BedrockInvoke runtime)
  | BedrockConverse => Ok (BedrockConv runtime)
  | other =>
      Err (Config ("endpoint `" +:+ name +:+ "` speaks " +:+ dialect_as_str other
                   +:+ ", which the aws platform does not serve"))
  end.

(** [vertex.rs]: [host]. *)
Definition vertex_host (base_url : option string) (region : string) : string :=
  match base_url with
  | Some base_url => base_url
  | None =>
      if Str.eqb region "global" then "https://aiplatform.googleapis.com"
      else "https://" +:+ region +:+ "-aiplatform.googleapis.com"
  end.

(** [VertexAdapter::for_endpoint]. *)
Definition vertex (endpoint : Endpoint) (base_url : option string) (region project : string)
    (headers : ExtraHeaders) : result Adapter Error :=
  let? publisher :=
    match ep_dialect endpoint with
    | GeminiGenerateContent => Ok Google
    | AnthropicMessages => Ok AnthropicPublisher
    | other =>
        Err (Config ("endpoint `" +:+ ep_name endpoint +:+ "` speaks " +:+ dialect_as_str other
                     +:+ ", which the gcp platform does not serve"))
    end in
  Ok (Vertex endpoint publisher (vertex_host base_url region) project region headers).

Definition gcp (spec : EndpointSpec) : result Adapter Error :=
  let endpoint := sp_endpoint spec in
  let name := ep_name endpoint in
  match filtered Rules.is_location (sp_region spec), filtered Rules.is_location (sp_project spec) with
  | Some region, Some project =>
      if negb (sp_gcp_tokens spec) then
        Err (Config ("endpoint `" +:+ name +:+ "` is on the gcp platform, and was given no token cache to mint its credentials' tokens with"))
      else
        vertex endpoint (non_empty (sp_base_url spec)) region project (sp_extra_headers spec)
  | _, _ =>
      Err (Config ("endpoint `" +:+ name +:+ "` is on the gcp platform, and names no region and project"))
  end.

Definition azure (spec : EndpointSpec) : result Adapter Error :=
  let endpoint := sp_endpoint spec in
  let name := ep_name endpoint in
  if negb (bool_decide (ep_dialect endpoint = OpenAIChatCompletions)) then
    Err (Config ("endpoint `" +:+ name +:+ "` speaks " +:+ dialect_as_str (ep_dialect endpoint)
                 +:+ ", which the azure platform does not serve"))
  else if negb (auth_suits (sp_auth spec) Azure) then
    Err (Config ("endpoint `" +:+ name +:+ "` is on the azure platform, which takes its key in `api-key` (auth api_key_header), not "
                 +:+ auth_as_str (sp_auth spec)))
  else Ok (AzureOpenAI endpoint (sp_base_url spec) (sp_api_version spec) (sp_extra_headers spec)).

Definition adapter (spec : EndpointSpec) : result Adapter Error :=
  let endpoint := sp_endpoint spec in
  let name := ep_name endpoint in
  match ep_platform endpoint with
  | Aws => aws spec
  | Azure => azure spec
  | Gcp => gcp spec
  | Plain =>
      let? _ := plain endpoint in
      let base := sp_base_url spec in
      let auth := sp_auth spec in
      let headers := sp_extra_headers spec in
      let discover := sp_discover spec in
      match ep_dialect endpoint with
      | OpenAIChatCompletions => Ok (OpenAICompat endpoint base auth headers discover)
      | AnthropicMessages => Ok (AnthropicMsgs endpoint base auth headers discover)
      | GeminiGenerateContent => Ok (GeminiGen endpoint base auth headers discover)
      | SystemOne =>
          Err (Config ("endpoint `" +:+ name +:+ "`: System One endpoints are served by the System One route, not by a chat adapter"))
      | other =>
          Err (Config ("endpoint `" +:+ name +:+ "` speaks " +:+ dialect_as_str other
                       +:+ ", which no adapter serves"))
      end
  end.

Definition system_one (spec : EndpointSpec) (path : option string) : result JevUpstream Error :=
  let endpoint := sp_endpoint spec in
  if negb (bool_decide (ep_dialect endpoint = SystemOne)) then
    Err (Config ("endpoint `" +:+ ep_name endpoint +:+ "` speaks "
                 +:+ dialect_as_str (ep_dialect endpoint) +:+ ", not System One"))
  else
    let? _ := plain endpoint in
    Ok {| jv_base_url := sp_base_url spec; jv_path := default SYSTEM_ONE_PATH path;
          jv_auth := sp_auth spec; jv_extra_headers := sp_extra_headers spec |}.

(** The one header [authenticate] puts a secret in. *)
Definition authenticate (auth : AuthStyle) (secret : string) : option (string * string) :=
  match auth with
  | Bearer => Some ("authorization", "Bearer " +:+ secret)
  | XApiKey => Some ("x-api-key", secret)
  | XGoogApiKey => Some ("x-goog-api-key", secret)
  | ApiKeyHeader => Some ("api-key", secret)
  | NoAuth => None
  end.

End custom.
End Custom.

(** ** [oag-server/src/state.rs]: the reload *)

Module Reload.

(** [EndpointRow] of [oag-store/src/rows.rs]; instants are microseconds. *)
Record EndpointRow : Type := {
  r_name : string;
  r_dialect : string;
  r_platform : string;
  r_base_url : option string;
  r_auth : string;
  r_region : option string;
  r_project : option string;
  r_api_version : option string;
  r_path : option string;
  r_extra_headers : Json;
  r_display_name : option string;
  r_discover_models : bool;
  r_created_at : Z;
  r_updated_at : Z
}.

Definition columns (row : EndpointRow) : Rules.Columns := {|
  Rules.c_name := r_name row;
  Rules.c_dialect := r_dialect row;
  Rules.c_platform := r_platform row;
  Rules.c_base_url := r_base_url row;
  Rules.c_auth := r_auth row;
  Rules.c_region := r_region row;
  Rules.c_project := r_project row;
  Rules.c_api_version := r_api_version row;
  Rules.c_path := r_path row;
  Rules.c_extra_headers := r_extra_headers row
|}.

Inductive Served : Type :=
  | Chat (a : Custom.Adapter)
  | SystemOneUpstream (u : Custom.JevUpstream).

Section reload.
Context `{UrlCrate} `{HeaderCrate} `{DebugStr}.
Context (debug_duration : Z → string) (SYSTEM_ONE_PATH : string).

(** [EndpointRow::to_endpoint]. *)
Definition to_endpoint (row : EndpointRow) : result Rules.EndpointConfig Rules.Refusal :=
  Rules.config_of_columns debug_duration (columns row).

Definition unsupported (e : Error) : string :=
  match e with Config message => message | other => Respond.to_string debug_duration other end.

(** The spec a served row's adapter is built from. *)
Definition spec_of (row : EndpointRow) (config : Rules.EndpointConfig)
  : result Custom.EndpointSpec Rules.Refusal :=
  let? spec := Rules.or_refuse Rules.Headers Datatypes.id
    (Custom.spec_new (Rules.e_endpoint config) (default "" (Rules.e_base_url config))
       (Rules.e_auth config) (Rules.e_extra_headers config)) in
  Ok (Custom.with_gcp_tokens (Custom.with_api_version (Rules.e_api_version config)
        (Custom.with_project (Rules.e_project config) (Custom.with_region (Rules.e_region config)
          (Custom.with_discovery (r_discover_models row) spec))))).

Definition endpoint_upstream (row : EndpointRow) : result (Endpoint * Served) Rules.Refusal :=
  let? config := to_endpoint row in
  let? spec := spec_of row config in
  let? served :=
    if bool_decide (ep_dialect (Rules.e_endpoint config) = SystemOne) then
      let? u := Rules.or_refuse Rules.Unsupported unsupported
        (Custom.system_one SYSTEM_ONE_PATH spec (Rules.e_path config)) in
      Ok (SystemOneUpstream u)
    else
      let? a := Rules.or_refuse Rules.Unsupported unsupported (Custom.adapter spec) in
      Ok (Chat a) in
  Ok (Rules.e_endpoint config, served).

Definition load_endpoints (rows : list EndpointRow) : list (Endpoint * Served) :=
  filter_map (fun row => result_ok (endpoint_upstream row)) rows.

End reload.

(** The registry and the two maps a request reads.  A [Provider] key is its
    variant and its name, which is how it compares. *)
Definition Key : Type := bool * string.
Definition key (p : Provider) : Key := (Prov.is_custom p, Prov.as_str p).

Section apply.
(** What a map holds for a provider: an adapter, a System One upstream. *)
Context {A J : Type}.
(** The built-in adapters, and the built-in Jev. *)
Context (builtins : gmap Key A) (jev : J).

Record State : Type := {
  adapters : gmap Key A;
  system_one_upstreams : gmap Key J;
  registry : gmap string Endpoint
}.

Definition set_adapters (m : gmap Key A) (s : State) : State :=
  {| adapters := m; system_one_upstreams := system_one_upstreams s; registry := registry s |}.
Definition set_system_one (m : gmap Key J) (s : State) : State :=
  {| adapters := adapters s; system_one_upstreams := m; registry := registry s |}.
Definition install (endpoints : list Endpoint) (s : State) : State :=
  {| adapters := adapters s; system_one_upstreams := system_one_upstreams s;
     registry := Prov.install endpoints |}.

Definition only_jev : gmap Key J := {[ key Jev := jev ]}.

(** [bridge]: what the next map holds, and what only the current one does. *)
Definition bridge {V} (next current : gmap Key V) : gmap Key V := next ∪ current.

(** The next maps and the endpoints, one served entry after another. *)
Definition place (m : gmap Key A * gmap Key J * list Endpoint) (e : Endpoint * (A + J))
  : gmap Key A * gmap Key J * list Endpoint :=
  let '(next, system_one, endpoints) := m in
  let provider := key (Custom e.1) in
  match e.2 with
  | inl adapter => (<[provider := adapter]> next, system_one, endpoints ++ [e.1])
  | inr upstream => (next, <[provider := upstream]> system_one, endpoints ++ [e.1])
  end.

Definition placed (served : list (Endpoint * (A + J))) : gmap Key A * gmap Key J * list Endpoint :=
  fold_left place served (builtins, only_jev, []).

(** [apply_endpoints]: each swap in turn, and so every state a reader may see
    on the way. *)
Definition apply_endpoints (served : list (Endpoint * (A + J))) (s : State) : list State :=
  let '(next, system_one, endpoints) := placed served in
  let s1 := set_adapters (bridge next (adapters s)) s in
  let s2 := set_system_one (bridge system_one (system_one_upstreams s1)) s1 in
  let s3 := install endpoints s2 in
  let s4 := set_adapters next s3 in
  let s5 := set_system_one system_one s4 in
  [s1; s2; s3; s4; s5].

(** Several reloads, one at a time ([RELOADS]). *)
Fixpoint reloads (sets : list (list (Endpoint * (A + J)))) (s : State) : list State :=
  match sets with
  | [] => []
  | served :: sets =>
      let states := apply_endpoints served s in
      states ++ reloads sets (List.last states s)
  end.

End apply.
End Reload.

(** ** What is relied on of the [url] package

    For an http or https URL with no credentials, read from a text with no
    query and no fragment: how it is written, and that the text it is written
    as reads as itself, with or without the slashes at its end. *)

Definition port_text (port : option Z) : string :=
  match port with Some n => ":" +:+ Str.decimal n | None => "" end.

(** A path's spelling without the slashes at its end; no path is [/]. *)
Definition path_without_slashes (path : string) : string :=
  let p := Str.trim_end_matches path "/" in if Str.is_empty p then "/" else p.

Definition no_query (s : string) : bool :=
  negb (any (fun c => any (Ascii.eqb c) ["?"; "#"]%char) (Str.bytes s)).

Section laws.
Context `{UrlCrate}.

Definition bare (u : Url) : bool :=
  (Str.eqb (url_scheme u) "http" || Str.eqb (url_scheme u) "https")
  && Str.is_empty (url_username u)
  && match url_password u with None => true | Some _ => false end.

Record written (u : Url) (hs : string) : Prop := {
  written_host : url_host_str u = Some hs;
  written_host_ne : hs ≠ "";
  written_host_slash : ¬ In "/"%char (Str.bytes hs);
  written_port : ∀ n, url_port u = Some n → 0 ≤ n ≤ U16_MAX;
  written_text :
    url_as_str u = url_scheme u +:+ "://" +:+ hs +:+ port_text (url_port u) +:+ url_path u;
  written_graphic : all Str.graphic (Str.bytes (url_as_str u)) = true;
  written_query : no_query (url_as_str u) = true
}.

Record rereads (u u' : Url) : Prop := {
  rereads_scheme : url_scheme u' = url_scheme u;
  rereads_username : url_username u' = url_username u;
  rereads_password : url_password u' = url_password u;
  rereads_host : url_host u' = url_host u;
  rereads_host_str : url_host_str u' = url_host_str u;
  rereads_port : url_port u' = url_port u;
  rereads_path : url_path u' = path_without_slashes (url_path u)
}.

End laws.

Class UrlLaws `{UrlCrate} : Prop := {
  url_written raw u :
    url_parse raw = Ok u → no_query raw = true → bare u = true → is_Some (url_host u) →
    ∃ hs, written u hs;
  url_reread raw u :
    url_parse raw = Ok u → no_query raw = true → bare u = true → is_Some (url_host u) →
    ∃ u', url_parse (Str.trim_end_matches (url_as_str u) "/") = Ok u' ∧ rereads u u'
}.

(** ** Base URLs *)

Module Urls.
Section urls.
Context `{U : UrlCrate} `{D : DebugStr}.
Context (debug_duration : Z → string).

(** What every rule asks of a URL on [platform]. *)
Definition target_allowed (u : Url) : bool :=
  match url_host u with
  | Some (HIpv4 ip) => negb (Service.ip_is_denied (V4 ip))
  | Some (HIpv6 ip) => negb (Service.ip_is_denied (V6 ip))
  | Some (HDomain name) => negb (Service.is_metadata_host name)
  | None => false
  end.

Definition azure_shaped (u : Url) : bool :=
  all (fun b => Ascii.eqb b "/") (Str.bytes (url_path u)) && Str.eqb (url_scheme u) "https"
  && match Rules.azure_resource (url_host u) with
     | Some resource => Rules.is_azure_resource resource
     | None => false
     end
  && match url_port u with None => true | Some _ => false end.

Definition acceptable (u : Url) (p : Platform) : bool :=
  bare u && target_allowed u
  && match Rules.plain_refused_host u p with None => true | Some _ => false end
  && (negb (bool_decide (p = Azure)) || azure_shaped u)
  && (negb (bool_decide (p = Gcp)) || Rules.is_https_or_loopback u).

(** The text the rules store for a URL. *)
Definition stored_text (u : Url) (p : Platform) : string :=
  if bool_decide (p = Azure) then "https://" +:+ default "" (url_host_str u)
  else Str.trim_end_matches (url_as_str u) "/".

Lemma catalog_url_Ok raw u :
  Service.catalog_url raw = Ok u ↔
  Str.trim raw ≠ "" ∧ Str.len (Str.trim raw) ≤ 2048 ∧ url_parse (Str.trim raw) = Ok u
  ∧ bare u = true ∧ target_allowed u = true.
Proof.
  unfold Service.catalog_url, bare, target_allowed.
  destruct (Str.is_empty (Str.trim raw)) eqn:He.
  { apply Str.is_empty_true in He. rewrite He. split; [done|by intros [? _]]. }
  assert (Str.trim raw ≠ "") as Hne by (intros Hn; by rewrite Hn in He).
  destruct (Z.ltb_spec 2048 (Str.len (Str.trim raw))); [split; [done|intros (_ & ? & _); lia]|].
  destruct (url_parse (Str.trim raw)) as [v|e]; cbn [result_bind];
    [|split; [done|by intros (_ & _ & ? & _)]].
  destruct (Str.eqb (url_scheme v) "http" || Str.eqb (url_scheme v) "https") eqn:Hs;
    cbn [negb]; [|split; [done|intros (_ & _ & [= <-] & Hb & _); by rewrite Hs in Hb]].
  destruct (Str.is_empty (url_username v)) eqn:Hu; cbn [negb orb];
    [|split; [done|intros (_ & _ & [= <-] & Hb & _); rewrite Hs, Hu in Hb; done]].
  destruct (url_password v) eqn:Hp;
    [split; [done|intros (_ & _ & [= <-] & Hb & _); rewrite Hs, Hu, Hp in Hb; done]|].
  assert (∀ b : bool, (if b then Err Service.denied_target else Ok v) = @Ok Url Error u
                      ↔ v = u ∧ negb b = true) as Hif by (intros []; naive_solver).
  destruct (url_host v) as [[]|] eqn:Hh; rewrite ?Hif; split;
    try (intros [-> Hb]; by rewrite Hs, Hu, Hp, Hh);
    try (intros (_ & _ & [= <-] & _ & Hb); rewrite Hh in Hb; done); done.
Qed.

Lemma no_query_find s :
  find (fun c => any (Ascii.eqb c) (Str.bytes s)) ["?"; "#"]%char = None ↔ no_query s = true.
Proof.
  unfold no_query. rewrite find_None, negb_true_iff, <-not_true_iff_false, any_true. split.
  - intros Hf (c & Hc & (x & Hx & ->%Ascii.eqb_eq)%any_true).
    enough (any (Ascii.eqb x) (Str.bytes s) = true) by (rewrite (Hf x Hx) in *; done).
    apply any_true. exists x. split; [done|by apply Ascii.eqb_eq].
  - intros Hn x Hx. apply not_true_iff_false. intros (c & Hc & ->%Ascii.eqb_eq)%any_true.
    apply Hn. exists c. split; [done|]. destruct Hx as [<-|[<-|[]]]; done.
Qed.

Lemma normalise_Ok provider raw s :
  Rules.normalise_base_url provider raw = Ok s ↔
  Str.trim raw ≠ "" ∧ no_query (Str.trim raw) = true ∧ Str.contains (Str.trim raw) "://" = true
  ∧ s = Str.trim_end_matches (Str.trim raw) "/".
Proof.
  unfold Rules.normalise_base_url. rewrite <-no_query_find.
  destruct (Str.is_empty (Str.trim raw)) eqn:He.
  { apply Str.is_empty_true in He. rewrite He. split; [done|by intros [? _]]. }
  assert (Str.trim raw ≠ "") as Hne by (intros Hn; by rewrite Hn in He).
  destruct (find _ _); [split; [done|by intros (_ & ? & _)]|].
  destruct (Str.contains (Str.trim raw) "://"); cbn [negb].
  - split; [by intros [= <-]|]. by intros (_ & _ & _ & ->).
  - split; [done|by intros (_ & _ & ? & _)].
Qed.

Lemma azure_Ok u s :
  Rules.azure_base_url u = Ok s ↔
  azure_shaped u = true ∧ s = "https://" +:+ default "" (url_host_str u).
Proof.
  unfold Rules.azure_base_url, azure_shaped, Rules.refuse.
  destruct (all _ _); cbn [negb andb]; [|naive_solver].
  destruct (Str.eqb _ _); cbn [negb andb]; [|naive_solver].
  destruct (Rules.azure_resource _) as [r|]; [destruct (Rules.is_azure_resource r)|];
    cbn [negb andb]; try naive_solver.
  destruct (url_port u); naive_solver.
Qed.

(** [endpoint_base_url], condition by condition. *)
Lemma endpoint_base_url_Ok raw p s :
  Rules.endpoint_base_url debug_duration raw p = Ok s ↔
  Str.has_control (Str.trim raw) = false ∧ Str.len (Str.trim raw) ≤ 2048
  ∧ no_query (Str.trim raw) = true ∧ Str.contains (Str.trim raw) "://" = true
  ∧ ∃ u, url_parse (Str.trim raw) = Ok u ∧ acceptable u p = true ∧ s = stored_text u p.
Proof.
  unfold Rules.endpoint_base_url, acceptable, stored_text.
  destruct (Str.has_control (Str.trim raw)); [split; [done|naive_solver]|].
  destruct (Service.catalog_url raw) as [u|e] eqn:Hc; cbn [Rules.or_refuse result_bind].
  - pose proof Hc as (Hne & Hlen & Hu & Hb & Ht)%catalog_url_Ok.
    destruct (Rules.plain_refused_host u p) eqn:Hp.
    { split; [done|]. intros (_ & _ & _ & _ & v & Hv & Ha & _).
      rewrite Hu in Hv. injection Hv as <-. rewrite Hp, andb_false_r in Ha. done. }
    destruct (Rules.normalise_base_url "this endpoint" raw) as [t|e] eqn:Hn;
      cbn [Rules.or_refuse result_bind].
    + pose proof Hn as (_ & Hq & Hs & _)%normalise_Ok. rewrite Hq, Hs, Hu.
      transitivity (((negb (bool_decide (p = Azure)) || azure_shaped u)
        && (negb (bool_decide (p = Gcp)) || Rules.is_https_or_loopback u) = true
        ∧ s = if bool_decide (p = Azure) then "https://" +:+ default "" (url_host_str u)
              else Str.trim_end_matches (url_as_str u) "/")).
      * destruct p; cbn [bool_decide decide_rel negb orb andb]; rewrite ?azure_Ok;
          rewrite ?(bool_decide_eq_true_2 (Azure = Azure)), ?(bool_decide_eq_true_2 (Gcp = Gcp)) by done;
          rewrite ?bool_decide_eq_false_2 by done; cbn [negb orb andb]; rewrite ?azure_Ok;
          rewrite ?andb_true_r; try naive_solver.
        destruct (Rules.is_https_or_loopback u); cbn [negb]; naive_solver.
      * split.
        { intros [Hok ->]. split_and!; [done..|]. exists u. rewrite Hb, Ht, Hp. done. }
        { intros (_ & _ & _ & _ & v & [= <-] & Ha & ->). rewrite Hb, Ht, Hp in Ha. done. }
    + split; [done|]. intros (_ & _ & Hq & Hs & _).
      enough (Rules.normalise_base_url "this endpoint" raw =
              Ok (Str.trim_end_matches (Str.trim raw) "/")) by congruence.
      by apply normalise_Ok.
  - split; [done|]. intros (_ & Hlen & Hq & Hs & u & Hu & Ha & _).
    enough (Service.catalog_url raw = Ok u) by congruence. apply catalog_url_Ok.
    apply andb_true_iff in Ha as [Ha _]. apply andb_true_iff in Ha as [Ha _].
    apply andb_true_iff in Ha as [Ha _]. apply andb_true_iff in Ha as [Hb Ht].
    split_and!; try done. intros Hn. by rewrite Hn in Hs.
Qed.

Lemma trim_end_id s c : head (rev (Str.bytes s)) ≠ Some c → Str.trim_end_matches s c = s.
Proof.
  intros Hh. unfold Str.trim_end_matches. rewrite Str.drop_char_id by done.
  by rewrite rev_involutive, Str.of_bytes_bytes.
Qed.

Lemma head_rev_app (a b : list ascii) : b ≠ [] → head (rev (a ++ b)) = head (rev b).
Proof.
  intros Hb. rewrite rev_app_distr. destruct (rev b) as [|x l] eqn:Hr; [|done].
  exfalso. apply Hb. rewrite <-(rev_involutive b), Hr. done.
Qed.

(** Slashes are dropped from the path, and from nothing in front of it. *)
Lemma trim_end_keep a b q c :
  b ≠ "" → ¬ In c (Str.bytes b) →
  Str.trim_end_matches (a +:+ b +:+ q) c = a +:+ b +:+ Str.trim_end_matches q c.
Proof.
  intros Hb Hc. destruct (Str.trim_end_matches_prefix q c) as [n Hn].
  rewrite Hn at 1. rewrite <-!Str.append_assoc, Str.trim_end_matches_app.
  rewrite Str.append_assoc. apply trim_end_id. rewrite !Str.bytes_app.
  assert (Str.bytes b ≠ []) as Hb' by (by destruct b).
  set (t := Str.trim_end_matches q c). destruct (Str.bytes t) as [|x l] eqn:Ht.
  - rewrite app_nil_r, head_rev_app by done. intros Hh. apply Hc.
    apply in_rev. destruct (rev (Str.bytes b)); [done|]. injection Hh as ->. by left.
  - rewrite app_assoc, head_rev_app by done. rewrite <-Ht. unfold t, Str.trim_end_matches.
    rewrite Str.bytes_of_bytes, rev_involutive. apply Str.drop_char_spec.
Qed.

Lemma port_text_slash port :
  (∀ n, port = Some n → 0 ≤ n ≤ U16_MAX) → ¬ In "/"%char (Str.bytes (port_text port)).
Proof.
  destruct port as [n|]; [|intros _ []]. intros Hn [?|Hd]; [done|].
  apply Str.decimal_digits in Hd; [done|]. specialize (Hn n eq_refl).
  unfold U16_MAX, U64_MAX in *. lia.
Qed.

Lemma no_query_In s t : (∀ c, In c (Str.bytes s) → In c (Str.bytes t)) → no_query t = true → no_query s = true.
Proof.
  unfold no_query. rewrite !negb_true_iff, <-!not_true_iff_false, !any_true.
  intros Hin Hn (c & Hc & Hq). apply Hn. eauto.
Qed.

Lemma graphic_In s t :
  (∀ c, In c (Str.bytes s) → In c (Str.bytes t)) →
  all Str.graphic (Str.bytes t) = true → all Str.graphic (Str.bytes s) = true.
Proof. rewrite !all_true. auto. Qed.

Lemma acceptable_bare u p :
  acceptable u p = true → bare u = true ∧ is_Some (url_host u).
Proof.
  unfold acceptable, target_allowed. intros Ha. bool_to_prop. split; [done|].
  by destruct (url_host u).
Qed.

Lemma path_slashes q :
  all (fun b => Ascii.eqb b "/") (Str.bytes q) = true →
  all (fun b => Ascii.eqb b "/") (Str.bytes (path_without_slashes q)) = true.
Proof.
  unfold path_without_slashes. destruct (Str.is_empty _); [done|].
  rewrite !all_true. intros Hq c Hc%Str.trim_end_matches_In. auto.
Qed.

Lemma slashes_trim q :
  all (fun b => Ascii.eqb b "/") (Str.bytes q) = true → Str.trim_end_matches q "/" = "".
Proof.
  rewrite all_true. intros Hq. unfold Str.trim_end_matches.
  assert (∀ l, (∀ x, In x l → Ascii.eqb x "/" = true) → Str.drop_char "/" l = []) as Hd.
  { induction l as [|x l IH]; [done|]. intros Hl. cbn. rewrite Hl by (by left).
    apply IH. intros y Hy. apply Hl. by right. }
  rewrite Hd; [done|]. intros x Hx%in_rev. auto.
Qed.

Lemma acceptable_rereads u u' p : rereads u u' → acceptable u p = true → acceptable u' p = true.
Proof.
  intros [Hsc Hus Hpw Hh Hhs Hpo Hpa]. unfold acceptable, bare, target_allowed, azure_shaped,
    Rules.plain_refused_host, Rules.is_https_or_loopback. rewrite Hsc, Hus, Hpw, Hh, Hpo, Hpa.
  intros H. repeat (apply andb_true_iff in H as [H ?]). rewrite H. cbn [andb].
  repeat (apply andb_true_iff; split); try done.
  destruct (bool_decide (p = Azure)); cbn [negb orb] in *; [|done].
  repeat match goal with H : _ && _ = true |- _ => apply andb_true_iff in H as [H ?] end.
  repeat (apply andb_true_iff; split); try done.
  by apply path_slashes.
Qed.

Lemma stored_text_spec u p hs :
  written u hs → acceptable u p = true →
  stored_text u p = Str.trim_end_matches (url_as_str u) "/"
  ∧ stored_text u p = (url_scheme u +:+ "://") +:+ (hs +:+ port_text (url_port u))
                      +:+ Str.trim_end_matches (url_path u) "/".
Proof.
  intros [Hhs Hne Hsl Hpo Ht _ _] Ha.
  assert (Str.trim_end_matches (url_as_str u) "/" =
    (url_scheme u +:+ "://") +:+ (hs +:+ port_text (url_port u)) +:+ Str.trim_end_matches (url_path u) "/") as Htrim.
  { rewrite Ht, <-trim_end_keep.
    - by rewrite !Str.append_assoc.
    - by destruct hs.
    - rewrite Str.bytes_app. intros [?|H']%in_app_or; [done|]. by apply port_text_slash in H'. }
  enough (stored_text u p = Str.trim_end_matches (url_as_str u) "/") by (split; congruence).
  unfold stored_text. destruct (bool_decide (p = Azure)) eqn:Hp; [|done].
  unfold acceptable in Ha. rewrite Hp in Ha. cbn [negb orb] in Ha.
  apply andb_true_iff in Ha as [[_ Ha]%andb_true_iff _].
  unfold azure_shaped in Ha. apply andb_true_iff in Ha as [[[Hpa Hs]%andb_true_iff _]%andb_true_iff Hpt].
  apply Str.str_eqb_eq in Hs. rewrite Htrim, Hhs, Hs, slashes_trim by done.
  destruct (url_port u); [done|]. cbn. by rewrite !Str.append_empty_r.
Qed.

Lemma written_sound u hs p :
  written u hs → acceptable u p = true →
  let s := stored_text u p in
  Str.trim s = s ∧ Str.has_control s = false ∧ no_query s = true
  ∧ Str.contains s "://" = true ∧ s ≠ "".
Proof.
  intros Hw Ha. destruct (stored_text_spec u p hs Hw Ha) as [Hs Hshape]. cbn zeta.
  assert (all Str.graphic (Str.bytes (stored_text u p)) = true) as Hg.
  { rewrite Hs. eapply graphic_In; [|apply (written_graphic _ _ Hw)].
    intros c. apply Str.trim_end_matches_In. }
  assert (Str.contains (stored_text u p) "://" = true) as Hc.
  { apply Str.contains_spec. rewrite Hshape. eexists _, _. by rewrite Str.append_assoc. }
  split_and!; try done.
  - by apply Str.trim_graphic.
  - by apply Str.graphic_no_control.
  - rewrite Hs. eapply no_query_In; [|apply (written_query _ _ Hw)].
    intros c. apply Str.trim_end_matches_In.
  - intros He. by rewrite He in Hc.
Qed.

(** What the rules store is what they make of it the next time, but for its
    length: escaping makes a URL longer, and 2048 bytes is the most they read. *)
Lemma stored_again `{!UrlLaws} raw p s :
  Rules.endpoint_base_url debug_duration raw p = Ok s →
  Rules.endpoint_base_url debug_duration s p =
  if 2048 <? Str.len s then Rules.refuse Rules.BaseUrl "URL is too long" else Ok s.
Proof.
  intros (_ & _ & Hq & _ & u & Hu & Ha & ->)%endpoint_base_url_Ok.
  destruct (acceptable_bare u p Ha) as [Hb Hh].
  destruct (url_written _ u Hu Hq Hb Hh) as [hs Hw].
  destruct (written_sound u hs p Hw Ha) as (Ht & Hc & Hq' & Hs & Hne).
  destruct (stored_text_spec u p hs Hw Ha) as [Hst Hshape].
  destruct (Z.ltb_spec 2048 (Str.len (stored_text u p))) as [Hl|Hl].
  - unfold Rules.endpoint_base_url, Service.catalog_url. rewrite Ht, Hc.
    destruct (Str.is_empty (stored_text u p)) eqn:He.
    { by apply Str.is_empty_true in He. }
    by rewrite (proj2 (Z.ltb_lt _ _) Hl).
  - apply endpoint_base_url_Ok. rewrite Ht. split_and!; [done..|].
    destruct (url_reread _ u Hu Hq Hb Hh) as (u' & Hu' & Hr). exists u'.
    rewrite <-Hst in Hu'. split; [done|].
    pose proof (acceptable_rereads u u' p Hr Ha) as Ha'. split; [done|].
    destruct (acceptable_bare u' p Ha') as [Hb' Hh'].
    destruct (url_written _ u' Hu' Hq' Hb' Hh') as [hs' Hw'].
    rewrite (proj2 (stored_text_spec u' p hs' Hw' Ha')), Hshape.
    destruct Hr as [Hsc _ _ _ Hhs Hpo Hpa]. rewrite Hsc, Hpo, Hpa.
    assert (hs' = hs) as ->.
    { apply (inj Some). rewrite <-(written_host _ _ Hw'), <-(written_host _ _ Hw). done. }
    do 2 f_equal. unfold path_without_slashes. destruct (Str.is_empty _) eqn:He.
    + by apply Str.is_empty_true in He.
    + by rewrite Str.trim_end_matches_idem.
Qed.

End urls.
End Urls.

(** ** Rows *)

Module Rows.
Section rows.
Context `{U : UrlCrate} `{D : DebugStr} `{HC : HeaderCrate}.
Context (debug_duration : Z → string) (SYSTEM_ONE_PATH : string).

(** [CheckedColumns::from_columns], rule by rule. *)
Record passes (c : Rules.Columns) (k : Rules.CheckedColumns) : Prop := {
  passes_dialect : from_endpoint_column (Rules.c_dialect c) = Ok (Rules.k_dialect k);
  passes_platform : platform_from_str (Rules.c_platform c) = Ok (Rules.k_platform k);
  passes_speaks : platform_speaks (Rules.k_platform k) (Rules.k_dialect k) = true;
  passes_name : Prov.validate_name (Rules.c_name c) = Ok ();
  passes_auth : auth_from_str (Rules.c_auth c) = Ok (Rules.k_auth k);
  passes_suits : auth_suits (Rules.k_auth k) (Rules.k_platform k) = true;
  passes_base_url :
    Rules.checked_base_url debug_duration (Rules.c_base_url c) (Rules.k_platform k)
    = Ok (Rules.k_base_url k);
  passes_region :
    Rules.location Rules.Region (Rules.c_region c) (Rules.regional (Rules.k_platform k))
      (Rules.k_platform k) = Ok (Rules.k_region k);
  passes_aws :
    bool_decide (Rules.k_platform k = Aws)
    && match Rules.k_region k with Some r => negb (Rules.is_aws_region r) | None => false end = false;
  passes_gcp :
    bool_decide (Rules.k_platform k = Gcp)
    && match Rules.k_base_url k with None => true | Some _ => false end
    && match Rules.k_region k with
       | Some r => any (Str.eqb r) Rules.VERTEX_MULTI_REGIONS
       | None => false
       end = false;
  passes_project :
    Rules.location Rules.Project (Rules.c_project c) (bool_decide (Rules.k_platform k = Gcp))
      (Rules.k_platform k) = Ok (Rules.k_project k);
  passes_path :
    Rules.path (Rules.c_path c) (Rules.k_dialect k) (Rules.c_dialect c) = Ok (Rules.k_path k);
  passes_api_version :
    Rules.api_version (Rules.c_api_version c) (Rules.k_platform k) = Ok (Rules.k_api_version k);
  passes_headers : Rules.header_pairs (Rules.c_extra_headers c) = Ok (Rules.k_extra_headers k)
}.

Lemma or_refuse_Ok {A E} r (w : E → string) (x : result A E) a :
  Rules.or_refuse r w x = Ok a ↔ x = Ok a.
Proof. destruct x; unfold Rules.or_refuse, Rules.refuse; split; congruence. Qed.

Lemma from_columns_Ok c k : Rules.from_columns debug_duration c = Ok k ↔ passes c k.
Proof.
  unfold Rules.from_columns. split.
  - intros (d & Hd%or_refuse_Ok & H1)%result_bind_Ok.
    apply result_bind_Ok in H1 as (p & Hp%or_refuse_Ok & H1).
    destruct (platform_speaks p d) eqn:Hs; cbn [negb] in H1; [|done].
    apply result_bind_Ok in H1 as ([] & Hn%or_refuse_Ok & H1).
    apply result_bind_Ok in H1 as (a & Ha%or_refuse_Ok & H1).
    destruct (auth_suits a p) eqn:Hsu; cbn [negb] in H1; [|done].
    apply result_bind_Ok in H1 as (b & Hb & H1).
    apply result_bind_Ok in H1 as (r & Hr & H1).
    case_match eqn:Haws; [done|]. case_match eqn:Hgcp; [done|].
    apply result_bind_Ok in H1 as (pr & Hpr & H1).
    apply result_bind_Ok in H1 as (pa & Hpa & H1).
    apply result_bind_Ok in H1 as (v & Hv & H1).
    apply result_bind_Ok in H1 as (h & Hh & H1). injection H1 as <-. by constructor.
  - intros [Hd Hp Hs Hn Ha Hsu Hb Hr Haws Hgcp Hpr Hpa Hv Hh].
    rewrite Hd, Hp. cbn [Rules.or_refuse result_bind]. rewrite Hs. cbn [negb]. rewrite Hn, Ha.
    cbn [Rules.or_refuse result_bind]. rewrite Hsu. cbn [negb]. rewrite Hb. cbn [result_bind].
    rewrite Hr. cbn [result_bind]. rewrite Haws, Hgcp, Hpr. cbn [result_bind].
    rewrite Hpa. cbn [result_bind]. rewrite Hv. cbn [result_bind]. rewrite Hh. by destruct k.
Qed.

(** *** What a served row is *)

Definition good_url (p : Platform) (s : string) : Prop :=
  ∃ u, Urls.acceptable u p = true ∧ s = Urls.stored_text u p.

Definition good_header (p : Platform) (h : string * string) : Prop :=
  Custom.refused h.1 = false ∧ (p = Aws → Str.starts_with h.1 "x-amz-" = false).

Definition good_headers (p : Platform) (hs : Custom.ExtraHeaders) : Prop :=
  Forall (good_header p) hs.

Inductive good_runtime (e : Endpoint) : Custom.BedrockRuntime → Prop :=
  | good_runtime_intro region over hs :
      Rules.is_location region = true → Rules.is_aws_region region = true →
      (∀ s, over = Some s → good_url Aws s) → good_headers Aws hs →
      good_runtime e {| Custom.br_endpoint := e; Custom.br_region := region;
                        Custom.br_override := over; Custom.br_headers := hs |}.

Definition publisher_of (d : Dialect) : option Custom.Publisher :=
  match d with
  | GeminiGenerateContent => Some Custom.Google
  | AnthropicMessages => Some Custom.AnthropicPublisher
  | _ => None
  end.

(** Where a Vertex request goes: the row's own URL, or the region's host when
    the region has one. *)
Definition good_vertex_host (host region : string) : Prop :=
  good_url Gcp host
  ∨ any (Str.eqb region) Rules.VERTEX_MULTI_REGIONS = false ∧ host = Custom.vertex_host None region.

(** What serves an endpoint, by platform and dialect. *)
Inductive serves (e : Endpoint) : Reload.Served → Prop :=
  | serves_openai base auth hs discover :
      ep_platform e = Plain → ep_dialect e = OpenAIChatCompletions →
      good_url Plain base → good_headers Plain hs →
      serves e (Reload.Chat (Custom.OpenAICompat e base auth hs discover))
  | serves_anthropic base auth hs discover :
      ep_platform e = Plain → ep_dialect e = AnthropicMessages →
      good_url Plain base → good_headers Plain hs →
      serves e (Reload.Chat (Custom.AnthropicMsgs e base auth hs discover))
  | serves_gemini base auth hs discover :
      ep_platform e = Plain → ep_dialect e = GeminiGenerateContent →
      good_url Plain base → good_headers Plain hs →
      serves e (Reload.Chat (Custom.GeminiGen e base auth hs discover))
  | serves_system_one base path auth hs :
      ep_platform e = Plain → ep_dialect e = SystemOne →
      good_url Plain base → path = SYSTEM_ONE_PATH ∨ Rules.is_path path = true →
      good_headers Plain hs →
      serves e (Reload.SystemOneUpstream
        {| Custom.jv_base_url := base; Custom.jv_path := path; Custom.jv_auth := auth;
           Custom.jv_extra_headers := hs |})
  | serves_azure base version hs :
      ep_platform e = Azure → ep_dialect e = OpenAIChatCompletions →
      good_url Azure base → (∀ v, version = Some v → Rules.is_api_version v = true) →
      good_headers Azure hs →
      serves e (Reload.Chat (Custom.AzureOpenAI e base version hs))
  | serves_invoke runtime :
      ep_platform e = Aws → ep_dialect e = AnthropicMessages → good_runtime e runtime →
      serves e (Reload.Chat (Custom.BedrockInvoke runtime))
  | serves_converse runtime :
      ep_platform e = Aws → ep_dialect e = BedrockConverse → good_runtime e runtime →
      serves e (Reload.Chat (Custom.BedrockConv runtime))
  | serves_vertex publisher host project region hs :
      ep_platform e = Gcp → publisher_of (ep_dialect e) = Some publisher →
      good_vertex_host host region →
      Rules.is_location project = true → Rules.is_location region = true →
      good_headers Gcp hs →
      serves e (Reload.Chat (Custom.Vertex e publisher host project region hs)).

Lemma parsed_headers_good p pairs hs : Custom.parse pairs p = Ok hs → good_headers p hs.
Proof.
  revert hs; induction pairs as [|[raw value] pairs IH]; intros hs; cbn [Custom.parse].
  { intros [= <-]. constructor. }
  destruct (header_name raw) as [name|]; [|done].
  destruct (Custom.refused name) eqn:Hr; [done|].
  destruct (bool_decide (p = Aws) && _) eqn:Ha; [done|].
  destruct (header_value value); [|done].
  intros (rest & Hrest & [= <-])%result_bind_Ok. constructor; [|by apply IH].
  split; [done|]. cbn. intros ->. by rewrite bool_decide_eq_true_2 in Ha.
Qed.

Lemma checked_base_url_Ok b p k :
  Rules.checked_base_url debug_duration b p = Ok k →
  match k with
  | Some s => good_url p s ∧ ∃ raw, b = Some raw ∧ Rules.endpoint_base_url debug_duration raw p = Ok s
  | None => b = None ∧ Rules.regional p = true
  end.
Proof.
  unfold Rules.checked_base_url. destruct b as [raw|].
  - intros (s & Hs & [= <-])%result_bind_Ok. split; [|by eauto].
    apply Urls.endpoint_base_url_Ok in Hs as (_ & _ & _ & _ & u & _ & ? & ?). by exists u.
  - destruct (Rules.regional p) eqn:Hp; [|done]. by intros [= <-].
Qed.

Lemma location_Ok r v required p k :
  Rules.location r v required p = Ok k →
  k = v ∧ match k with
          | Some s => Rules.is_location s = true
          | None => required = false
          end.
Proof.
  unfold Rules.location. destruct v as [v|].
  - destruct (Rules.is_location v) eqn:Hl; [|done]. by intros [= <-].
  - destruct required; [done|]. by intros [= <-].
Qed.

Lemma path_Ok v d column k :
  Rules.path v d column = Ok k →
  k = v ∧ ∀ s, k = Some s → d = SystemOne ∧ Rules.is_path s = true.
Proof.
  unfold Rules.path. destruct v as [v|]; [|by intros [= <-]].
  destruct (bool_decide (d = SystemOne)) eqn:Hd; cbn [negb]; [|done].
  destruct (Rules.is_path v) eqn:Hp; cbn [negb]; [|done]. apply bool_decide_eq_true in Hd.
  intros [= <-]. split; [done|]. by intros s [= <-].
Qed.

Lemma api_version_Ok v p k :
  Rules.api_version v p = Ok k →
  k = v ∧ ∀ s, k = Some s → p = Azure → Rules.is_api_version s = true.
Proof.
  unfold Rules.api_version. destruct v as [v|]; [|by intros [= <-]].
  destruct (Rules.is_api_version v) eqn:Hv.
  - rewrite andb_false_r. intros [= <-]. split; [done|]. by intros s [= <-].
  - rewrite andb_true_r. case_bool_decide; [done|]. intros [= <-]. split; [done|].
    by intros s [= <-].
Qed.

Lemma location_nonempty s : Rules.is_location s = true → s ≠ "".
Proof. by intros H ->. Qed.

Lemma endpoint_new_Ok name d p :
  Prov.validate_name name = Ok () →
  Prov.endpoint_new name d p = Ok {| ep_name := name; ep_dialect := d; ep_platform := p |}.
Proof. unfold Prov.endpoint_new. by intros ->. Qed.

(** The reload's reading of a row, as the rules and the headers. *)
Lemma endpoint_upstream_Ok row e s :
  Reload.endpoint_upstream debug_duration SYSTEM_ONE_PATH row = Ok (e, s) →
  ∃ k hs, passes (Reload.columns row) k
  ∧ Custom.parse (Rules.k_extra_headers k) (Rules.k_platform k) = Ok hs.
Proof.
  unfold Reload.endpoint_upstream, Reload.to_endpoint, Rules.config_of_columns.
  intros (cfg & (k & Hk & Hc)%result_bind_Ok & H1)%result_bind_Ok.
  apply from_columns_Ok in Hk. exists k.
  apply result_bind_Ok in Hc as (e' & He%or_refuse_Ok & [= <-]).
  rewrite endpoint_new_Ok in He by apply Hk. injection He as <-.
  apply result_bind_Ok in H1 as (spec & Hsp & _). unfold Reload.spec_of in Hsp.
  apply result_bind_Ok in Hsp as (sp & Hsp%or_refuse_Ok & _).
  unfold Custom.spec_new in Hsp. apply result_bind_Ok in Hsp as (hs & Hh & _).
  exists hs. split; [done|]. cbn in Hh. unfold Custom.named in Hh. by destruct (Custom.parse _ _).
Qed.

(** The spec of a row that passes. *)
Definition row_spec (row : Reload.EndpointRow) (k : Rules.CheckedColumns)
    (hs : Custom.ExtraHeaders) : Custom.EndpointSpec := {|
  Custom.sp_endpoint := {| ep_name := Reload.r_name row; ep_dialect := Rules.k_dialect k;
                           ep_platform := Rules.k_platform k |};
  Custom.sp_base_url := default "" (Rules.k_base_url k);
  Custom.sp_auth := Rules.k_auth k;
  Custom.sp_api_version := Rules.k_api_version k;
  Custom.sp_extra_headers := hs;
  Custom.sp_discover := Reload.r_discover_models row;
  Custom.sp_region := Rules.k_region k;
  Custom.sp_project := Rules.k_project k;
  Custom.sp_gcp_tokens := true
|}.

Lemma endpoint_upstream_passes row k hs :
  passes (Reload.columns row) k →
  Custom.parse (Rules.k_extra_headers k) (Rules.k_platform k) = Ok hs →
  Reload.endpoint_upstream debug_duration SYSTEM_ONE_PATH row =
  let spec := row_spec row k hs in
  let? served :=
    if bool_decide (Rules.k_dialect k = SystemOne) then
      let? u := Rules.or_refuse Rules.Unsupported (Reload.unsupported debug_duration)
        (Custom.system_one SYSTEM_ONE_PATH spec (Rules.k_path k)) in
      Ok (Reload.SystemOneUpstream u)
    else
      let? a := Rules.or_refuse Rules.Unsupported (Reload.unsupported debug_duration)
        (Custom.adapter spec) in
      Ok (Reload.Chat a) in
  Ok (Custom.sp_endpoint spec, served).
Proof.
  intros Hp Hh. unfold Reload.endpoint_upstream, Reload.to_endpoint, Rules.config_of_columns.
  rewrite (proj2 (from_columns_Ok _ _) Hp). cbn [result_bind].
  rewrite endpoint_new_Ok by apply Hp. cbn [result_bind Rules.or_refuse].
  unfold Reload.spec_of, Custom.spec_new.
  cbn [Rules.e_endpoint Rules.e_extra_headers Rules.e_base_url Rules.e_auth Rules.e_region
       Rules.e_project Rules.e_api_version ep_platform].
  rewrite Hh. reflexivity.
Qed.

Lemma stored_nonempty `{!UrlLaws} raw p s :
  Rules.endpoint_base_url debug_duration raw p = Ok s → s ≠ "".
Proof.
  intros (_ & _ & Hq & _ & u & Hu & Ha & ->)%Urls.endpoint_base_url_Ok.
  destruct (Urls.acceptable_bare u p Ha) as [Hb Hh].
  destruct (url_written _ u Hu Hq Hb Hh) as [hs Hw].
  by apply (Urls.written_sound u hs p Hw Ha).
Qed.

Lemma aws_served row k hs :
  passes (Reload.columns row) k → Rules.k_platform k = Aws →
  good_headers Aws hs →
  ∃ a, Custom.adapter (row_spec row k hs) = Ok a
  ∧ serves (Custom.sp_endpoint (row_spec row k hs)) (Reload.Chat a).
Proof.
  intros Hp Haws Hh. unfold Custom.adapter, Custom.aws.
  cbn [row_spec Custom.sp_endpoint ep_platform]. rewrite Haws.
  destruct (location_Ok _ _ _ _ _ (passes_region _ _ Hp)) as [_ Hr].
  pose proof (passes_aws _ _ Hp) as Ha. rewrite Haws, bool_decide_eq_true_2 in Ha by done.
  pose proof (checked_base_url_Ok _ _ _ (passes_base_url _ _ Hp)) as Hb.
  rewrite Haws in Hr, Hb. unfold row_spec.
  cbn [Custom.sp_region Custom.sp_base_url Custom.sp_extra_headers ep_name ep_dialect].
  destruct (Rules.k_region k) as [r|]; [|done]. cbn [andb] in Ha. apply negb_false_iff in Ha.
  cbn [Custom.filtered ok_or]. rewrite Ha. cbn [ok_or result_bind].
  set (e := {| ep_name := _; ep_dialect := _; ep_platform := _ |}).
  set (rt := {| Custom.br_endpoint := _; Custom.br_region := _; Custom.br_override := _;
                Custom.br_headers := _ |}).
  assert (good_runtime e rt) as Hrt.
  { constructor; try done. intros s. unfold Custom.non_empty.
    destruct (Rules.k_base_url k) as [b|]; cbn; [|done].
    destruct (Str.is_empty b); [done|]. intros [= <-]. apply Hb. }
  pose proof (passes_speaks _ _ Hp) as Hs. rewrite Haws in Hs.
  destruct (Rules.k_dialect k) eqn:Hd; try done; eexists; (split; [reflexivity|]).
  - by apply serves_invoke.
  - by apply serves_converse.
Qed.

Lemma gcp_served `{!UrlLaws} row k hs :
  passes (Reload.columns row) k → Rules.k_platform k = Gcp →
  good_headers Gcp hs →
  ∃ a, Custom.adapter (row_spec row k hs) = Ok a
  ∧ serves (Custom.sp_endpoint (row_spec row k hs)) (Reload.Chat a).
Proof.
  intros Hp Hgcp Hh. unfold Custom.adapter, Custom.gcp.
  cbn [row_spec Custom.sp_endpoint ep_platform]. rewrite Hgcp.
  destruct (location_Ok _ _ _ _ _ (passes_region _ _ Hp)) as [_ Hr].
  destruct (location_Ok _ _ _ _ _ (passes_project _ _ Hp)) as [_ Hpr].
  pose proof (passes_gcp _ _ Hp) as Hg. rewrite Hgcp, bool_decide_eq_true_2 in Hg by done.
  pose proof (checked_base_url_Ok _ _ _ (passes_base_url _ _ Hp)) as Hb.
  rewrite Hgcp in Hr, Hpr, Hb. rewrite bool_decide_eq_true_2 in Hpr by done. unfold row_spec.
  cbn [Custom.sp_region Custom.sp_project Custom.sp_base_url Custom.sp_extra_headers ep_name
       ep_dialect Custom.sp_gcp_tokens].
  destruct (Rules.k_region k) as [r|]; [|done]. destruct (Rules.k_project k) as [pr|]; [|done].
  cbn [Custom.filtered]. rewrite Hr, Hpr. cbn [negb].
  set (e := {| ep_name := _; ep_dialect := _; ep_platform := _ |}).
  assert (good_vertex_host (Custom.vertex_host
    (Custom.non_empty (default "" (Rules.k_base_url k))) r) r) as Hhost.
  { destruct (Rules.k_base_url k) as [b|].
    - destruct Hb as (Hb & raw & _ & Hne%stored_nonempty). cbn [default from_option Datatypes.id].
      unfold Custom.non_empty. destruct (Str.is_empty b) eqn:He; [by apply Str.is_empty_true in He|].
      by left.
    - right. split; [|done]. cbn [andb] in Hg. done. }
  pose proof (passes_speaks _ _ Hp) as Hs. rewrite Hgcp in Hs.
  unfold Custom.vertex. cbn [e ep_dialect].
  destruct (Rules.k_dialect k) eqn:Hd; try done; cbn [result_bind]; eexists; (split; [reflexivity|]).
  - by apply serves_vertex.
  - by apply serves_vertex.
Qed.

Lemma base_url_required row k :
  passes (Reload.columns row) k → Rules.regional (Rules.k_platform k) = false →
  ∃ b, Rules.k_base_url k = Some b ∧ good_url (Rules.k_platform k) b.
Proof.
  intros Hp Hr. pose proof (checked_base_url_Ok _ _ _ (passes_base_url _ _ Hp)) as Hb.
  destruct (Rules.k_base_url k) as [b|]; [|destruct Hb; congruence].
  exists b. split; [done|]. apply Hb.
Qed.

Lemma azure_served row k hs :
  passes (Reload.columns row) k → Rules.k_platform k = Azure →
  good_headers Azure hs →
  ∃ a, Custom.adapter (row_spec row k hs) = Ok a
  ∧ serves (Custom.sp_endpoint (row_spec row k hs)) (Reload.Chat a).
Proof.
  intros Hp Haz Hh. unfold Custom.adapter, Custom.azure.
  destruct (base_url_required row k Hp) as (b & Hb & Hgood); [by rewrite Haz|].
  pose proof (passes_speaks _ _ Hp) as Hs. pose proof (passes_suits _ _ Hp) as Hsu.
  destruct (api_version_Ok _ _ _ (passes_api_version _ _ Hp)) as [_ Hv].
  unfold row_spec. cbn [Custom.sp_endpoint Custom.sp_auth Custom.sp_base_url
    Custom.sp_api_version Custom.sp_extra_headers ep_platform ep_dialect ep_name].
  rewrite Haz in Hs, Hsu, Hgood |- *. rewrite Hsu, Hb. cbn [negb].
  destruct (Rules.k_dialect k) eqn:Hd; try done.
  rewrite bool_decide_eq_true_2 by done. cbn [negb].
  eexists. split; [reflexivity|]. apply serves_azure; try done. intros v Hkv. by apply Hv.
Qed.

Lemma plain_served row k hs :
  passes (Reload.columns row) k → Rules.k_platform k = Plain →
  Rules.k_dialect k ≠ SystemOne → good_headers Plain hs →
  ∃ a, Custom.adapter (row_spec row k hs) = Ok a
  ∧ serves (Custom.sp_endpoint (row_spec row k hs)) (Reload.Chat a).
Proof.
  intros Hp Hpl Hd Hh. unfold Custom.adapter, Custom.plain.
  destruct (base_url_required row k Hp) as (b & Hb & Hgood); [by rewrite Hpl|].
  pose proof (passes_speaks _ _ Hp) as Hs. unfold row_spec.
  cbn [Custom.sp_endpoint Custom.sp_auth Custom.sp_base_url Custom.sp_discover
    Custom.sp_extra_headers ep_platform ep_dialect ep_name].
  rewrite Hpl in Hs, Hgood |- *. rewrite Hb. cbn [result_bind].
  destruct (Rules.k_dialect k) eqn:Hk; try done; eexists; (split; [reflexivity|]).
  - by apply serves_anthropic.
  - by apply serves_openai.
  - by apply serves_gemini.
Qed.

Lemma system_one_served row k hs :
  passes (Reload.columns row) k → Rules.k_dialect k = SystemOne →
  good_headers (Rules.k_platform k) hs →
  ∃ u, Custom.system_one SYSTEM_ONE_PATH (row_spec row k hs) (Rules.k_path k) = Ok u
  ∧ serves (Custom.sp_endpoint (row_spec row k hs)) (Reload.SystemOneUpstream u).
Proof.
  intros Hp Hd Hh. unfold Custom.system_one, Custom.plain.
  pose proof (passes_speaks _ _ Hp) as Hs. rewrite Hd in Hs.
  destruct (base_url_required row k Hp) as (b & Hb & Hgood); [by destruct (Rules.k_platform k)|].
  destruct (path_Ok _ _ _ _ (passes_path _ _ Hp)) as [_ Hpath].
  destruct (Rules.k_platform k) eqn:Hpl; try done. unfold row_spec.
  cbn [Custom.sp_endpoint Custom.sp_auth Custom.sp_base_url
    Custom.sp_extra_headers ep_platform ep_dialect ep_name].
  rewrite Hpl, Hd, Hb, bool_decide_eq_true_2 by done. cbn [negb result_bind].
  eexists. split; [reflexivity|]. apply serves_system_one; try done.
  destruct (Rules.k_path k) as [pa|]; [right|by left]. by apply (Hpath pa).
Qed.

(** A row that passes, headers and all, is served, and well. *)
Lemma passes_served `{!UrlLaws} row k hs :
  passes (Reload.columns row) k →
  Custom.parse (Rules.k_extra_headers k) (Rules.k_platform k) = Ok hs →
  ∃ e s, Reload.endpoint_upstream debug_duration SYSTEM_ONE_PATH row = Ok (e, s)
  ∧ serves e s ∧ ep_name e = Reload.r_name row
  ∧ ep_dialect e = Rules.k_dialect k ∧ ep_platform e = Rules.k_platform k.
Proof.
  intros Hp Hh. rewrite (endpoint_upstream_passes row k hs) by done. cbn zeta.
  pose proof (parsed_headers_good _ _ _ Hh) as Hg.
  exists (Custom.sp_endpoint (row_spec row k hs)).
  destruct (bool_decide (Rules.k_dialect k = SystemOne)) eqn:Hd.
  { apply bool_decide_eq_true in Hd.
    destruct (system_one_served row k hs) as (u & -> & Hs); try done. by eexists. }
  apply bool_decide_eq_false in Hd.
  assert (∃ a, Custom.adapter (row_spec row k hs) = Ok a
    ∧ serves (Custom.sp_endpoint (row_spec row k hs)) (Reload.Chat a)) as (a & -> & Hs).
  { destruct (Rules.k_platform k) eqn:Hk.
    - by apply plain_served.
    - by apply aws_served.
    - by apply gcp_served.
    - by apply azure_served. }
  by eexists.
Qed.

(** *** What a row asks for

    Which columns make which adapter, and where each of its settings comes
    from, spelled out column by column. *)

(** The URL a row's base URL is stored as. *)
Definition own_url (row : Reload.EndpointRow) (p : Platform) (s : string) : Prop :=
  ∃ raw u, Reload.r_base_url row = Some raw ∧ url_parse (Str.trim raw) = Ok u
  ∧ Urls.acceptable u p = true ∧ s = Urls.stored_text u p.

(** The row's headers, each as the [http] package reads its name and value. *)
Definition own_headers (row : Reload.EndpointRow) (hs : Custom.ExtraHeaders) : Prop :=
  ∃ fields, Reload.r_extra_headers row = JObject fields
  ∧ Forall2 (fun (f : string * Json) (h : string * string) =>
      ∃ v, f.2 = JString v ∧ header_name f.1 = Some h.1 ∧ header_value v = Some h.2) fields hs.

Definition own_auth (row : Reload.EndpointRow) (auth : AuthStyle) : Prop :=
  Reload.r_auth row =
  match auth with
  | Bearer => "bearer" | XApiKey => "x_api_key" | XGoogApiKey => "x_goog_api_key"
  | ApiKeyHeader => "api_key_header" | NoAuth => "none"
  end.

Definition own_runtime (row : Reload.EndpointRow) (e : Endpoint) (rt : Custom.BedrockRuntime) : Prop :=
  Custom.br_endpoint rt = e ∧ Reload.r_region row = Some (Custom.br_region rt)
  ∧ own_headers row (Custom.br_headers rt)
  ∧ match Reload.r_base_url row, Custom.br_override rt with
    | None, None => True
    | Some _, Some s => own_url row Aws s
    | _, _ => False
    end.

(** A Vertex endpoint's own host, or its region's. *)
Definition own_vertex_host (row : Reload.EndpointRow) (region host : string) : Prop :=
  match Reload.r_base_url row with
  | Some _ => own_url row Gcp host
  | None => host = if Str.eqb region "global" then "https://aiplatform.googleapis.com"
                   else "https://" +:+ region +:+ "-aiplatform.googleapis.com"
  end.

Definition named_by (row : Reload.EndpointRow) (d : Dialect) (p : Platform) : Endpoint :=
  {| ep_name := Reload.r_name row; ep_dialect := d; ep_platform := p |}.

Inductive built (row : Reload.EndpointRow) : Endpoint → Reload.Served → Prop :=
  | built_openai base auth hs :
      Reload.r_platform row = "plain" → Reload.r_dialect row = "openai" →
      own_url row Plain base → own_auth row auth → own_headers row hs →
      let e := named_by row OpenAIChatCompletions Plain in
      built row e (Reload.Chat (Custom.OpenAICompat e base auth hs (Reload.r_discover_models row)))
  | built_anthropic base auth hs :
      Reload.r_platform row = "plain" → Reload.r_dialect row = "anthropic" →
      own_url row Plain base → own_auth row auth → own_headers row hs →
      let e := named_by row AnthropicMessages Plain in
      built row e (Reload.Chat (Custom.AnthropicMsgs e base auth hs (Reload.r_discover_models row)))
  | built_gemini base auth hs :
      Reload.r_platform row = "plain" → Reload.r_dialect row = "gemini" →
      own_url row Plain base → own_auth row auth → own_headers row hs →
      let e := named_by row GeminiGenerateContent Plain in
      built row e (Reload.Chat (Custom.GeminiGen e base auth hs (Reload.r_discover_models row)))
  | built_system_one base auth hs :
      Reload.r_platform row = "plain" → Reload.r_dialect row = "system_one" →
      own_url row Plain base → own_auth row auth → own_headers row hs →
      built row (named_by row SystemOne Plain) (Reload.SystemOneUpstream
        {| Custom.jv_base_url := base; Custom.jv_path := default SYSTEM_ONE_PATH (Reload.r_path row);
           Custom.jv_auth := auth; Custom.jv_extra_headers := hs |})
  | built_azure base hs :
      Reload.r_platform row = "azure" → Reload.r_dialect row = "openai" →
      own_url row Azure base → own_headers row hs →
      let e := named_by row OpenAIChatCompletions Azure in
      built row e (Reload.Chat (Custom.AzureOpenAI e base (Reload.r_api_version row) hs))
  | built_invoke rt :
      Reload.r_platform row = "aws" → Reload.r_dialect row = "anthropic" →
      let e := named_by row AnthropicMessages Aws in
      own_runtime row e rt → built row e (Reload.Chat (Custom.BedrockInvoke rt))
  | built_converse rt :
      Reload.r_platform row = "aws" → Reload.r_dialect row = "bedrock_converse" →
      let e := named_by row BedrockConverse Aws in
      own_runtime row e rt → built row e (Reload.Chat (Custom.BedrockConv rt))
  | built_vertex_google host project region hs :
      Reload.r_platform row = "gcp" → Reload.r_dialect row = "gemini" →
      own_vertex_host row region host → Reload.r_project row = Some project →
      Reload.r_region row = Some region → own_headers row hs →
      let e := named_by row GeminiGenerateContent Gcp in
      built row e (Reload.Chat (Custom.Vertex e Custom.Google host project region hs))
  | built_vertex_anthropic host project region hs :
      Reload.r_platform row = "gcp" → Reload.r_dialect row = "anthropic" →
      own_vertex_host row region host → Reload.r_project row = Some project →
      Reload.r_region row = Some region → own_headers row hs →
      let e := named_by row AnthropicMessages Gcp in
      built row e (Reload.Chat (Custom.Vertex e Custom.AnthropicPublisher host project region hs)).

(** The columns' words. *)
Lemma dialect_column s d : from_endpoint_column s = Ok d → endpoint_column d = Some s.
Proof.
  unfold from_endpoint_column.
  repeat (match goal with |- context [Str.eqb s ?w] => destruct (Str.eqb s w) eqn:E end;
    [apply Str.str_eqb_eq in E as ->; by intros [= <-]|clear E]). done.
Qed.

Lemma platform_column s p : platform_from_str s = Ok p → s = platform_as_str p.
Proof.
  unfold platform_from_str.
  repeat (match goal with |- context [Str.eqb s ?w] => destruct (Str.eqb s w) eqn:E end;
    [apply Str.str_eqb_eq in E as ->; by intros [= <-]|clear E]). done.
Qed.

Lemma auth_column row auth : auth_from_str (Reload.r_auth row) = Ok auth → own_auth row auth.
Proof.
  unfold auth_from_str, own_auth. generalize (Reload.r_auth row) as s. intros s.
  repeat (match goal with |- context [Str.eqb s ?w] => destruct (Str.eqb s w) eqn:E end;
    [apply Str.str_eqb_eq in E as ->; by intros [= <-]|clear E]). done.
Qed.

Lemma headers_column row pairs p hs :
  Rules.header_pairs (Reload.r_extra_headers row) = Ok pairs → Custom.parse pairs p = Ok hs → own_headers row hs.
Proof.
  unfold Rules.header_pairs, own_headers. destruct (Reload.r_extra_headers row) as [| | | | |fields]; try done.
  intros Hpairs Hparse. exists fields. split; [done|]. revert pairs hs Hpairs Hparse.
  induction fields as [|[n v] fields IH]; intros pairs hs; cbn [Rules.string_pairs].
  { intros [= <-] [= <-]. constructor. }
  destruct v as [| | |v| |]; try done. intros (rest & Hrest & [= <-])%result_bind_Ok. cbn [Custom.parse].
  destruct (header_name n) as [name|] eqn:Hn; [|done]. destruct (Custom.refused name); [done|].
  destruct (bool_decide (p = Aws) && _); [done|]. destruct (header_value v) as [value|] eqn:Hv; [|done].
  intros (hs' & Hhs & [= <-])%result_bind_Ok. constructor; [by exists v|by eapply IH].
Qed.

Lemma url_column `{!UrlLaws} row k :
  passes (Reload.columns row) k →
  match Rules.k_base_url k with
  | Some s => own_url row (Rules.k_platform k) s ∧ Custom.non_empty s = Some s
  | None => Reload.r_base_url row = None
  end.
Proof.
  intros Hp. pose proof (checked_base_url_Ok _ _ _ (passes_base_url _ _ Hp)) as Hb.
  destruct (Rules.k_base_url k) as [s|]; [|by destruct Hb].
  destruct Hb as (_ & raw & Hr & Hs). split.
  - apply Urls.endpoint_base_url_Ok in Hs as (_ & _ & _ & _ & u & Hu & Ha & ->). by exists raw, u.
  - apply stored_nonempty in Hs. unfold Custom.non_empty. destruct (Str.is_empty s) eqn:E; [|done].
    by apply Str.is_empty_true in E.
Qed.

(** Both platforms that name a region: it is the row's. *)
Lemma region_column row k :
  passes (Reload.columns row) k → Rules.k_region k = Reload.r_region row ∧ Rules.k_project k = Reload.r_project row
  ∧ Rules.k_path k = Reload.r_path row ∧ Rules.k_api_version k = Reload.r_api_version row.
Proof.
  intros Hp. split_and!.
  - apply (location_Ok _ _ _ _ _ (passes_region _ _ Hp)).
  - apply (location_Ok _ _ _ _ _ (passes_project _ _ Hp)).
  - apply (path_Ok _ _ _ _ (passes_path _ _ Hp)).
  - apply (api_version_Ok _ _ _ (passes_api_version _ _ Hp)).
Qed.

Lemma plain_built `{!UrlLaws} row k hs a :
  passes (Reload.columns row) k → own_headers row hs → Rules.k_platform k = Plain →
  Custom.adapter (row_spec row k hs) = Ok a → built row (named_by row (Rules.k_dialect k) Plain) (Reload.Chat a).
Proof.
  intros Hp Hh Hpl. pose proof (platform_column _ _ (passes_platform _ _ Hp)) as Hw.
  pose proof (dialect_column _ _ (passes_dialect _ _ Hp)) as Hd. pose proof (auth_column _ _ (passes_auth _ _ Hp)) as Ha.
  pose proof (url_column row k Hp) as Hu. destruct (base_url_required row k Hp) as (b & Hb & _); [by rewrite Hpl|].
  rewrite Hb, Hpl in Hu. destruct Hu as [Hu _]. rewrite Hpl in Hw. unfold Custom.adapter, Custom.plain, row_spec.
  cbn [Custom.sp_endpoint Custom.sp_auth Custom.sp_base_url Custom.sp_discover
    Custom.sp_extra_headers ep_platform ep_dialect ep_name]. rewrite Hpl, Hb. cbn [result_bind default from_option Datatypes.id].
  destruct (Rules.k_dialect k); try done; intros [= <-]; injection Hd as Hd;
    [by apply built_anthropic|by apply built_openai|by apply built_gemini].
Qed.

Lemma azure_built `{!UrlLaws} row k hs a :
  passes (Reload.columns row) k → own_headers row hs → Rules.k_platform k = Azure →
  Custom.adapter (row_spec row k hs) = Ok a → built row (named_by row (Rules.k_dialect k) Azure) (Reload.Chat a).
Proof.
  intros Hp Hh Hpl. pose proof (platform_column _ _ (passes_platform _ _ Hp)) as Hw.
  pose proof (dialect_column _ _ (passes_dialect _ _ Hp)) as Hd. destruct (region_column row k Hp) as (_ & _ & _ & Hv).
  pose proof (url_column row k Hp) as Hu. destruct (base_url_required row k Hp) as (b & Hb & _); [by rewrite Hpl|].
  rewrite Hb, Hpl in Hu. destruct Hu as [Hu _]. rewrite Hpl in Hw. unfold Custom.adapter, Custom.azure, row_spec.
  cbn [Custom.sp_endpoint Custom.sp_auth Custom.sp_base_url Custom.sp_api_version
    Custom.sp_extra_headers ep_platform ep_dialect ep_name]. rewrite Hpl, Hb, Hv.
  destruct (bool_decide (Rules.k_dialect k = OpenAIChatCompletions)) eqn:Ho; cbn [negb]; [|done].
  apply bool_decide_eq_true in Ho. rewrite Ho in *. destruct (auth_suits _ _); cbn [negb]; [|done].
  intros [= <-]. injection Hd as Hd. by apply built_azure.
Qed.

Lemma aws_built `{!UrlLaws} row k hs a :
  passes (Reload.columns row) k → own_headers row hs → Rules.k_platform k = Aws →
  Custom.adapter (row_spec row k hs) = Ok a → built row (named_by row (Rules.k_dialect k) Aws) (Reload.Chat a).
Proof.
  intros Hp Hh Hpl. pose proof (platform_column _ _ (passes_platform _ _ Hp)) as Hw.
  pose proof (dialect_column _ _ (passes_dialect _ _ Hp)) as Hd. destruct (region_column row k Hp) as (Hr & _).
  pose proof (url_column row k Hp) as Hu. rewrite Hpl in Hu, Hw. unfold Custom.adapter, Custom.aws, row_spec.
  cbn [Custom.sp_endpoint Custom.sp_base_url Custom.sp_region Custom.sp_extra_headers ep_platform ep_dialect ep_name].
  rewrite Hpl, Hr. destruct (Reload.r_region row) as [region|] eqn:Hreg; cbn [Custom.filtered ok_or result_bind]; [|done].
  destruct (Rules.is_aws_region region); cbn [ok_or result_bind]; [|done].
  assert (∀ e, own_runtime row e {| Custom.br_endpoint := e; Custom.br_region := region;
    Custom.br_override := Custom.non_empty (default "" (Rules.k_base_url k)); Custom.br_headers := hs |}) as Hrt.
  { intros e. split_and!; cbn; try done. destruct (Rules.k_base_url k) as [s|]; cbn.
    - destruct Hu as [Hu ->]. by destruct Hu as (raw & u & Hraw & Hu); rewrite Hraw; exists raw, u.
    - by rewrite Hu. }
  destruct (Rules.k_dialect k); try done; intros [= <-]; injection Hd as Hd;
    [by apply built_invoke|by apply built_converse].
Qed.

Lemma gcp_built `{!UrlLaws} row k hs a :
  passes (Reload.columns row) k → own_headers row hs → Rules.k_platform k = Gcp →
  Custom.adapter (row_spec row k hs) = Ok a → built row (named_by row (Rules.k_dialect k) Gcp) (Reload.Chat a).
Proof.
  intros Hp Hh Hpl. pose proof (platform_column _ _ (passes_platform _ _ Hp)) as Hw.
  pose proof (dialect_column _ _ (passes_dialect _ _ Hp)) as Hd. destruct (region_column row k Hp) as (Hr & Hpr & _).
  pose proof (url_column row k Hp) as Hu. rewrite Hpl in Hu, Hw. unfold Custom.adapter, Custom.gcp, row_spec.
  cbn [Custom.sp_endpoint Custom.sp_base_url Custom.sp_region Custom.sp_project Custom.sp_gcp_tokens
    Custom.sp_extra_headers ep_platform ep_dialect ep_name].
  rewrite Hpl, Hr, Hpr. destruct (Reload.r_region row) as [region|] eqn:Hreg; cbn [Custom.filtered]; [|done].
  destruct (Rules.is_location region); [|done].
  destruct (Reload.r_project row) as [project|] eqn:Hproj; cbn [Custom.filtered]; [|done].
  destruct (Rules.is_location project); [|done]. cbn [negb].
  assert (own_vertex_host row region (Custom.vertex_host (Custom.non_empty (default "" (Rules.k_base_url k))) region)) as Hhost.
  { unfold own_vertex_host. destruct (Rules.k_base_url k) as [s|]; cbn [default from_option Datatypes.id].
    - destruct Hu as [Hu ->]. by destruct Hu as (raw & u & Hraw & Hu); rewrite Hraw; exists raw, u.
    - by rewrite Hu. }
  unfold Custom.vertex. cbn [ep_dialect].
  destruct (Rules.k_dialect k); try done; intros [= <-]; injection Hd as Hd;
    [by apply built_vertex_anthropic|by apply built_vertex_google].
Qed.

Lemma row_built `{!UrlLaws} row e s :
  Reload.endpoint_upstream debug_duration SYSTEM_ONE_PATH row = Ok (e, s) → built row e s.
Proof.
  intros He. destruct (endpoint_upstream_Ok row e s He) as (k & hs & Hp & Hparse).
  pose proof (headers_column _ _ _ _ (passes_headers _ _ Hp) Hparse) as Hh.
  rewrite (endpoint_upstream_passes row k hs Hp Hparse) in He. cbv zeta in He.
  destruct (bool_decide (Rules.k_dialect k = SystemOne)) eqn:Hd; apply result_bind_Ok in He as (served & Hs & [= <- <-]).
  - apply bool_decide_eq_true in Hd. apply result_bind_Ok in Hs as (u & Hu%or_refuse_Ok & [= <-]).
    pose proof (dialect_column _ _ (passes_dialect _ _ Hp)) as Hw. pose proof (platform_column _ _ (passes_platform _ _ Hp)) as Hpw.
    pose proof (passes_speaks _ _ Hp) as Hsp. destruct (region_column row k Hp) as (_ & _ & Hpath & _).
    pose proof (url_column row k Hp) as Hurl. rewrite Hd in Hsp, Hw. injection Hw as Hw.
    destruct (Rules.k_platform k) eqn:Hpl; try done.
    destruct (base_url_required row k Hp) as (b & Hb & _); [by rewrite Hpl|]. rewrite Hb in Hurl. destruct Hurl as [Hurl _].
    unfold Custom.system_one, Custom.plain, row_spec in Hu.
    cbn [Custom.sp_endpoint Custom.sp_auth Custom.sp_base_url Custom.sp_extra_headers ep_platform ep_dialect ep_name] in Hu.
    rewrite Hd, Hpl, Hb, Hpath, bool_decide_eq_true_2 in Hu by done. cbn [negb result_bind default from_option Datatypes.id] in Hu.
    injection Hu as <-. cbn [row_spec Custom.sp_endpoint]. rewrite Hd.
    apply built_system_one; try done. exact (auth_column _ _ (passes_auth _ _ Hp)).
  - apply result_bind_Ok in Hs as (a & Ha%or_refuse_Ok & [= <-]). cbn [row_spec Custom.sp_endpoint].
    destruct (Rules.k_platform k) eqn:Hpl;
      [by eapply plain_built|by eapply aws_built|by eapply gcp_built|by eapply azure_built].
Qed.

(** The headers an adapter or upstream sends besides its own, and how it takes
    its key. *)
Definition extra_headers_of (s : Reload.Served) : Custom.ExtraHeaders :=
  match s with
  | Reload.SystemOneUpstream u => Custom.jv_extra_headers u
  | Reload.Chat (Custom.OpenAICompat _ _ _ hs _) | Reload.Chat (Custom.AnthropicMsgs _ _ _ hs _)
  | Reload.Chat (Custom.GeminiGen _ _ _ hs _) | Reload.Chat (Custom.AzureOpenAI _ _ _ hs)
  | Reload.Chat (Custom.Vertex _ _ _ _ _ hs) => hs
  | Reload.Chat (Custom.BedrockInvoke r) | Reload.Chat (Custom.BedrockConv r) =>
      Custom.br_headers r
  end.

Lemma serves_headers e s : serves e s → good_headers (ep_platform e) (extra_headers_of s).
Proof.
  assert (∀ r, good_runtime e r → good_headers Aws (Custom.br_headers r)) as Hr by by destruct 1.
  destruct 1 as [? ? ? ? Hp|? ? ? ? Hp|? ? ? ? Hp|? ? ? ? Hp|? ? ? Hp|? Hp|? Hp|? ? ? ? ? Hp];
    rewrite Hp; cbn; auto.
Qed.

(** The header a key goes in is none of the operator's. *)
Lemma key_header_alone p hs auth secret h v :
  good_headers p hs → Custom.authenticate auth secret = Some (h, v) → ¬ In h hs.*1.
Proof.
  intros Hg Ha Hin. apply list_elem_of_In, list_elem_of_fmap in Hin as (x & -> & Hx).
  unfold good_headers in Hg. rewrite Forall_forall in Hg. destruct (Hg x Hx) as [Hr _].
  destruct auth; cbn in Ha; simplify_eq; unfold Custom.refused in Hr;
    match goal with H : _ = x.1 |- _ => rewrite <-H in Hr | H : x.1 = _ |- _ => rewrite H in Hr | _ => idtac end;
    vm_compute in Hr; done.
Qed.

(** A System One row has an upstream, every other row an adapter. *)
Lemma endpoint_upstream_kind row e s :
  Reload.endpoint_upstream debug_duration SYSTEM_ONE_PATH row = Ok (e, s) →
  match s with
  | Reload.Chat _ => ep_dialect e ≠ SystemOne
  | Reload.SystemOneUpstream _ => ep_dialect e = SystemOne
  end.
Proof.
  unfold Reload.endpoint_upstream.
  intros (cfg & _ & (spec & _ & (served & Hs & [= <- <-])%result_bind_Ok)%result_bind_Ok)%result_bind_Ok.
  case_bool_decide as Hd; apply result_bind_Ok in Hs as (x & _ & [= <-]); done.
Qed.

Lemma endpoint_upstream_name row e s :
  Reload.endpoint_upstream debug_duration SYSTEM_ONE_PATH row = Ok (e, s) → ep_name e = Reload.r_name row.
Proof.
  intros He. destruct (endpoint_upstream_Ok row e s He) as (k & hs & Hp & Hh).
  rewrite (endpoint_upstream_passes row k hs Hp Hh) in He. cbv zeta in He.
  by apply result_bind_Ok in He as (served & _ & [= <- _]).
Qed.

End rows.
End Rows.

(** ** Reloads *)

Module Reloads.
Section reloads.
Context {A J : Type} (builtins : gmap Reload.Key A) (jev : J).
(** No built-in is an endpoint. *)
Context (builtins_apart : ∀ name, builtins !! (true, name) = None).
Implicit Types (s : @Reload.State A J) (old new served : list (Endpoint * (A + J))).

(** What a table of endpoints gives one of them, by name. *)
Definition entry_of served (name : string) : option (A + J) :=
  match find (fun x : Endpoint * (A + J) => Str.eqb (ep_name x.1) name) served with
  | Some x => Some x.2
  | None => None
  end.
Definition chat_of served (name : string) : option A :=
  match entry_of served name with Some (inl a) => Some a | _ => None end.
Definition system_one_of served (name : string) : option J :=
  match entry_of served name with Some (inr u) => Some u | _ => None end.

(** The maps of a table: an endpoint's key holds its own, and every other key
    what is built in. *)
Definition adapter_at served (k : Reload.Key) : option A := if k.1 then chat_of served k.2 else builtins !! k.
Definition upstream_at served (k : Reload.Key) : option J :=
  if k.1 then system_one_of served k.2 else if bool_decide (k = Reload.key Jev) then Some jev else None.

(** The registry names the endpoints of a table, and no others. *)
Definition resolves served s : Prop :=
  ∀ name e, Reload.registry s !! name = Some e ↔ In e served.*1 ∧ ep_name e = name.

(** A state that is one table's through and through. *)
Record settled served s : Prop := {
  settled_registry : resolves served s;
  settled_adapters : ∀ k, Reload.adapters s !! k = adapter_at served k;
  settled_upstreams : ∀ k, Reload.system_one_upstreams s !! k = upstream_at served k
}.

(** Each endpoint that resolves has what its dialect needs, [mine] for a chat
    one and [mine'] for a System One one. *)
Definition each_has (mine : string → A → Prop) (mine' : string → J → Prop) s : Prop :=
  ∀ name e, Reload.registry s !! name = Some e →
  if dialect_is_chat (ep_dialect e)
  then ∃ a, Reload.adapters s !! Reload.key (Custom e) = Some a ∧ mine name a
  else ∃ u, Reload.system_one_upstreams s !! Reload.key (Custom e) = Some u ∧ mine' name u.

(** On the way from one table to the next: while the old one's endpoints
    resolve, each has its own of either table, and once the new one's do, its
    own of that; and the built-ins have theirs. *)
Record between old new s : Prop := {
  between_endpoints :
    resolves old s ∧ each_has (fun n a => chat_of old n = Some a ∨ chat_of new n = Some a)
                       (fun n u => system_one_of old n = Some u ∨ system_one_of new n = Some u) s
    ∨ resolves new s ∧ each_has (fun n a => chat_of new n = Some a) (fun n u => system_one_of new n = Some u) s;
  between_builtins : ∀ k, k.1 = false → Reload.adapters s !! k = builtins !! k;
  between_jev : Reload.system_one_upstreams s !! Reload.key Jev = Some jev
}.

Definition kinded (x : Endpoint * (A + J)) : Prop :=
  dialect_is_chat (ep_dialect x.1) = match x.2 with inl _ => true | inr _ => false end.

(** What a table is: its names are each once, as its primary key has them. *)
Definition table served : Prop := NoDup (ep_name <$> served.*1) ∧ Forall kinded served.

Lemma entry_of_In served x : NoDup (ep_name <$> served.*1) → In x served → entry_of served (ep_name x.1) = Some x.2.
Proof.
  unfold entry_of. induction served as [|y served IH]; [done|]. cbn. intros [Hn Hnd]%NoDup_cons [->|Hin].
  - by rewrite Str.str_eqb_refl.
  - destruct (Str.eqb (ep_name y.1) (ep_name x.1)) eqn:E; [|by apply IH]. apply Str.str_eqb_eq in E.
    exfalso. apply Hn. rewrite E. by apply list_elem_of_fmap_2, list_elem_of_fmap_2, list_elem_of_In.
Qed.

Lemma entry_of_None served name : ¬ name ∈ ep_name <$> served.*1 → entry_of served name = None.
Proof.
  unfold entry_of. intros Hn. destruct (find _ served) as [x|] eqn:E; [|done]. apply find_some in E as [Hx E].
  apply Str.str_eqb_eq in E as <-. exfalso. apply Hn. by apply list_elem_of_fmap_2, list_elem_of_fmap_2, list_elem_of_In.
Qed.

Lemma entry_of_snoc served x name :
  ¬ ep_name x.1 ∈ ep_name <$> served.*1 →
  entry_of (served ++ [x]) name = if Str.eqb (ep_name x.1) name then Some x.2 else entry_of served name.
Proof.
  intros Hn. unfold entry_of. destruct (Str.eqb (ep_name x.1) name) eqn:E.
  - apply Str.str_eqb_eq in E as <-. apply entry_of_None in Hn. unfold entry_of in Hn.
    induction served as [|y served IH]; cbn in *; [by rewrite Str.str_eqb_refl|].
    by destruct (Str.eqb (ep_name y.1) (ep_name x.1)); [|apply IH].
  - induction served as [|y served IH]; cbn in *; [by rewrite E|].
    destruct (Str.eqb (ep_name y.1) name); [done|]. apply IH. intros H. apply Hn. by right.
Qed.

Lemma insert_key {V} (m : gmap Reload.Key V) e v k :
  <[Reload.key (Custom e) := v]> m !! k = if k.1 && Str.eqb (ep_name e) k.2 then Some v else m !! k.
Proof.
  destruct (k.1 && Str.eqb (ep_name e) k.2) eqn:E.
  - apply andb_true_iff in E as [Hk Hn%Str.str_eqb_eq]. destruct k as [b n]. cbn in *. subst. apply lookup_insert_eq.
  - rewrite lookup_insert_ne; [done|]. intros <-. cbn in E. by rewrite Str.str_eqb_refl in E.
Qed.

(** What [placed] builds of a table. *)
Lemma placed_is served :
  NoDup (ep_name <$> served.*1) →
  let '(next, so, es) := Reload.placed builtins jev served in
  (∀ k, next !! k = adapter_at served k) ∧ (∀ k, so !! k = upstream_at served k) ∧ es = served.*1.
Proof.
  unfold Reload.placed. induction served as [|x served IH] using rev_ind; intros Hnd; cbn [fold_left].
  { split_and!; [intros [[] n]; [apply builtins_apart|done]| |done]. intros k. unfold Reload.only_jev, upstream_at. case_bool_decide as Hk.
    - rewrite Hk. by rewrite lookup_singleton_eq.
    - rewrite lookup_singleton_ne by done. by destruct (k.1). }
  rewrite !fmap_app in Hnd. apply NoDup_app in Hnd as (Hnd & Hx & _). specialize (IH Hnd).
  assert (¬ ep_name x.1 ∈ ep_name <$> served.*1) as Hn by (intros H; apply (Hx _ H); by left).
  rewrite fold_left_app. cbn [fold_left]. destruct (fold_left _ _ _) as [[next so] es]. destruct IH as (Ha & Hu & ->).
  pose proof (λ name, entry_of_snoc served x name Hn) as He. destruct x as [e [a|u]]; cbn [Reload.place fst snd] in *.
  all: pose proof (entry_of_None _ _ Hn) as Hnone.
  all: split_and!; [intros k|intros k|by rewrite fmap_app]; rewrite ?insert_key, ?Ha, ?Hu; destruct k as [[] n];
    unfold adapter_at, upstream_at, chat_of, system_one_of; cbn [fst snd andb]; rewrite ?He; try done.
  all: destruct (Str.eqb (ep_name e) n) eqn:E; [apply Str.str_eqb_eq in E as <-; by rewrite ?Hnone|done].
Qed.

Lemma install_has es e : In e es → is_Some (Prov.install es !! ep_name e).
Proof.
  unfold Prov.install. generalize (∅ : gmap string Endpoint) as m.
  assert (∀ es m n, is_Some (m !! n) → is_Some ((fold_left (fun m e => <[ep_name e := e]> m) es m : gmap string Endpoint) !! n)) as Hkeep.
  { induction es0 as [|x es0 IH]; intros m n H; cbn; [done|]. apply IH.
    destruct (decide (ep_name x = n)) as [->|Hne]; [by rewrite lookup_insert_eq|by rewrite lookup_insert_ne]. }
  induction es as [|x es IH]; intros m; cbn; [done|]. intros [->|Hin]; [|by apply IH].
  apply Hkeep. by rewrite lookup_insert_eq.
Qed.

Lemma names_apart (es : list Endpoint) a b : NoDup (ep_name <$> es) → a ∈ es → b ∈ es → ep_name a = ep_name b → a = b.
Proof.
  induction es as [|x es IH]; [by intros _ ?%not_elem_of_nil|]. cbn. intros [Hn Hnd]%NoDup_cons.
  intros [->|Ha]%elem_of_cons [->|Hb]%elem_of_cons Hab; [done| | |by apply IH].
  - exfalso. apply Hn. rewrite Hab. by apply list_elem_of_fmap_2.
  - exfalso. apply Hn. rewrite <- Hab. by apply list_elem_of_fmap_2.
Qed.

Lemma install_resolves served s :
  NoDup (ep_name <$> served.*1) → resolves served (Reload.install served.*1 s).
Proof.
  intros Hnd name e. cbn. split; [apply Prov.install_lookup|]. intros [Hin <-].
  assert (is_Some (Prov.install served.*1 !! ep_name e)) as [e' He'] by by apply install_has.
  pose proof He' as [Hin' Hn]%Prov.install_lookup. rewrite He'. f_equal.
  apply (names_apart served.*1); [done|by apply list_elem_of_In..|done].
Qed.

(** A table's own endpoints, in maps that hold its own or better. *)
Lemma own_entries served s (mine : string → A → Prop) (mine' : string → J → Prop) :
  table served → resolves served s →
  (∀ name a, chat_of served name = Some a → ∃ a', Reload.adapters s !! (true, name) = Some a' ∧ mine name a') →
  (∀ name u, system_one_of served name = Some u → ∃ u', Reload.system_one_upstreams s !! (true, name) = Some u' ∧ mine' name u') →
  each_has mine mine' s.
Proof.
  intros [Hnd Hk] Hr Ha Hu name e He. apply Hr in He as [Hin <-].
  apply list_elem_of_In, list_elem_of_fmap in Hin as ([e' x] & -> & Hx). rewrite Forall_forall in Hk. pose proof (Hk _ Hx) as Hkind.
  apply list_elem_of_In in Hx. pose proof (entry_of_In served _ Hnd Hx) as Hentry. unfold kinded in Hkind. cbn in *.
  rewrite Hkind. destruct x as [a|u]; [apply (Ha (ep_name e') a)|apply (Hu (ep_name e') u)];
    unfold chat_of, system_one_of; by rewrite Hentry.
Qed.

Lemma bridge_lookup {V} (next current : gmap Reload.Key V) k :
  Reload.bridge next current !! k = match next !! k with Some v => Some v | None => current !! k end.
Proof. unfold Reload.bridge. rewrite lookup_union. by destruct (next !! k), (current !! k). Qed.

(** Every state on the way from one table to the next. *)
Lemma apply_between old new s :
  table old → table new → settled old s →
  Forall (between old new) (Reload.apply_endpoints builtins jev new s)
  ∧ length (Reload.apply_endpoints builtins jev new s) = 5%nat
  ∧ settled new (List.last (Reload.apply_endpoints builtins jev new s) s).
Proof.
  intros Hold Hnew [Hr Ha Hu]. unfold Reload.apply_endpoints. pose proof (placed_is new (proj1 Hnew)) as Hp.
  destruct (Reload.placed builtins jev new) as [[next so] es]. destruct Hp as (Hn & Hso & ->).
  pose proof (λ s, install_resolves new s (proj1 Hnew)) as Hi.
  assert (∀ k, k.1 = false → Reload.bridge next (Reload.adapters s) !! k = builtins !! k) as Hb.
  { intros [[] n] Hk; [done|]. rewrite bridge_lookup, Hn, Ha. unfold adapter_at. cbn. by destruct (builtins !! _). }
  assert (∀ k, k.1 = false → next !! k = builtins !! k) as Hb' by (intros [[] n] Hk; [done|by rewrite Hn]).
  assert (Reload.bridge so (Reload.system_one_upstreams s) !! Reload.key Jev = Some jev) as Hj by by rewrite bridge_lookup, Hso.
  assert (∀ n, Reload.bridge next (Reload.adapters s) !! (true, n) = match chat_of new n with Some a => Some a | None => chat_of old n end) as Hba
    by (intros n; by rewrite bridge_lookup, Hn, Ha).
  assert (∀ n, Reload.bridge so (Reload.system_one_upstreams s) !! (true, n) = match system_one_of new n with Some u => Some u | None => system_one_of old n end) as Hbu
    by (intros n; by rewrite bridge_lookup, Hso, Hu).
  split_and!; [|done|split; [apply Hi|exact Hn|exact Hso]].
  repeat apply Forall_cons_2; [..|apply Forall_nil_2]; (split; [|done|done || by rewrite Hu || by rewrite Hso]).
  - left. split; [done|]. apply (own_entries old); [done..| |]; intros n v Hv; cbn.
    + rewrite Hba, Hv. destruct (chat_of new n); eauto.
    + rewrite Hu. eauto.
  - left. split; [done|]. apply (own_entries old); [done..| |]; intros n v Hv; cbn.
    + rewrite Hba, Hv. destruct (chat_of new n); eauto.
    + rewrite Hbu, Hv. destruct (system_one_of new n); eauto.
  - right. split; [apply Hi|]. apply (own_entries new); [done|apply Hi|..]; intros n v Hv; cbn; rewrite ?Hba, ?Hbu, Hv; eauto.
  - right. split; [apply Hi|]. apply (own_entries new); [done|apply Hi|..]; intros n v Hv; cbn; rewrite ?Hn, ?Hbu; unfold adapter_at; cbn; rewrite Hv; eauto.
  - right. split; [apply Hi|]. apply (own_entries new); [done|apply Hi|..]; intros n v Hv; cbn; rewrite ?Hn, ?Hso; unfold adapter_at, upstream_at; cbn; rewrite Hv; eauto.
Qed.

(** What is to be seen of several reloads, state by state: each table is
    reached in five swaps, the last of which leaves nothing of the one before. *)
Fixpoint told old (tables : list (list (Endpoint * (A + J)))) : list (Reload.State → Prop) :=
  match tables with
  | [] => []
  | new :: tables =>
      repeat (between old new) 4 ++ [fun s => between old new s ∧ settled new s] ++ told new tables
  end.

Lemma reloads_told tables old s :
  table old → Forall table tables → settled old s →
  Forall2 (fun (P : Reload.State → Prop) s => P s) (told old tables) (Reload.reloads builtins jev tables s).
Proof.
  intros Ht Hts. revert old s Ht. induction Hts as [|new tables Hnew Hts IH]; intros old s Hold Hs; [constructor|].
  destruct (apply_between old new s Hold Hnew Hs) as (Hb & Hl & Hlast). cbn [Reload.reloads told].
  set (states := Reload.apply_endpoints _ _ _ _) in *. clearbody states.
  destruct states as [|s1 [|s2 [|s3 [|s4 [|s5 [|]]]]]]; try done. cbn in Hlast.
  rewrite !Forall_cons in Hb. destruct Hb as (H1 & H2 & H3 & H4 & H5 & _). cbn [repeat app List.last].
  repeat (constructor; [done|]). by apply IH.
Qed.

End reloads.
End Reloads.

(** ** A small [url] and [http], to compute with

    Lower-case names and plain paths only; everything else is no URL. *)

Module Small.

Record SUrl : Type := { s_scheme : string; s_host : string; s_path : string }.

Fixpoint cut (l : list ascii) : list ascii * list ascii :=
  match l with
  | [] => ([], [])
  | c :: l => if Ascii.eqb c "/" then ([], c :: l) else let '(a, b) := cut l in (c :: a, b)
  end.

Definition host_byte (c : ascii) : bool :=
  Rules.location_byte c || Ascii.eqb c ".".

Definition path_char (c : ascii) : bool := Str.graphic c && negb (any (Ascii.eqb c) ["?"; "#"]%char).

Definition rest (scheme s : string) : result SUrl string :=
  let '(host, path) := cut (Str.bytes s) in
  if negb (Nat.eqb (length host) 0) && all host_byte host && all path_char path then
    Ok {| s_scheme := scheme; s_host := Str.of_bytes host;
          s_path := match path with [] => "/" | _ => Str.of_bytes path end |}
  else Err "invalid".

Definition parse (s : string) : result SUrl string :=
  match Str.strip_prefix s "https://" with
  | Some s => rest "https" s
  | None =>
      match Str.strip_prefix s "http://" with
      | Some s => rest "http" s
      | None => Err "relative URL without a base"
      end
  end.

Definition text (u : SUrl) : string := s_scheme u +:+ "://" +:+ s_host u +:+ s_path u.

#[global] Instance small_url : UrlCrate := {|
  Url := SUrl;
  url_parse := parse;
  url_scheme := s_scheme;
  url_username _ := "";
  url_password _ := None;
  url_host u := Some (HDomain (s_host u));
  url_host_str u := Some (s_host u);
  url_port _ := None;
  url_port_or_known_default u := Some (if Str.eqb (s_scheme u) "https" then 443 else 80);
  url_path := s_path;
  url_as_str := text;
  url_set_path u p := {| s_scheme := s_scheme u; s_host := s_host u; s_path := p |};
  url_clear_query u := u;
  url_clear_fragment u := u
|}.

#[global] Instance small_headers : HeaderCrate := {|
  header_name s :=
    if negb (Str.is_empty s) && all Rules.path_byte (Str.bytes s)
    then Some (Str.to_ascii_lowercase s) else None;
  header_value s := if all (fun c => Str.graphic c || Ascii.eqb c " ") (Str.bytes s) then Some s else None
|}.

#[global] Instance small_debug : DebugStr := fun s => s.

Lemma cut_spec l a b :
  cut l = (a, b) → l = a ++ b ∧ ¬ In "/"%char a ∧ (b = [] ∨ ∃ t, b = "/"%char :: t).
Proof.
  revert a b; induction l as [|c l IH]; intros a b; cbn.
  { intros [= <- <-]. split_and!; [done|intros []|by left]. }
  destruct (Ascii.eqb_spec c "/") as [->|Hc].
  - intros [= <- <-]. split_and!; [done|intros []|right; by eexists].
  - destruct (cut l) as [a' b'] eqn:E. intros [= <- <-].
    destruct (IH _ _ eq_refl) as (-> & Hn & Hb). split_and!; [done| |done]. intros [?|?]; auto.
Qed.

Lemma cut_app a t : ¬ In "/"%char a → (t = [] ∨ ∃ t', t = "/"%char :: t') → cut (a ++ t) = (a, t).
Proof.
  intros Ha Ht. induction a as [|c a IH]; cbn.
  - by destruct Ht as [->|[t' ->]].
  - destruct (Ascii.eqb_spec c "/") as [->|Hc]; [exfalso; apply Ha; by left|].
    rewrite IH; [done|]. intros H. apply Ha. by right.
Qed.

(** What [parse] accepts. *)
Record good (u : SUrl) : Prop := {
  good_scheme : s_scheme u = "https" ∨ s_scheme u = "http";
  good_host_ne : s_host u ≠ "";
  good_host : all host_byte (Str.bytes (s_host u)) = true;
  good_slash : ¬ In "/"%char (Str.bytes (s_host u));
  good_path : all path_char (Str.bytes (s_path u)) = true;
  good_root : ∃ t, Str.bytes (s_path u) = "/"%char :: t
}.

Lemma parse_rest s u :
  parse s = Ok u → ∃ r, (s_scheme u = "https" ∨ s_scheme u = "http") ∧ rest (s_scheme u) r = Ok u.
Proof.
  unfold parse. destruct (Str.strip_prefix s "https://") as [r|].
  - intros Hr. exists r. assert (s_scheme u = "https") as ->; [|by auto].
    unfold rest in Hr. destruct (cut _). case_match; [|done]. by injection Hr as <-.
  - destruct (Str.strip_prefix s "http://") as [r|]; [|done].
    intros Hr. exists r. assert (s_scheme u = "http") as ->; [|by auto].
    unfold rest in Hr. destruct (cut _). case_match; [|done]. by injection Hr as <-.
Qed.

Lemma parse_good s u : parse s = Ok u → good u.
Proof.
  intros (r & Hs & Hr)%parse_rest. unfold rest in Hr.
  destruct (cut (Str.bytes r)) as [h p] eqn:Hc. apply cut_spec in Hc as (_ & Hh & Hp).
  destruct (_ && all path_char p) eqn:E; [|done].
  apply andb_true_iff in E as [[Hne Hhb]%andb_true_iff Hpc].
  assert (s_host u = Str.of_bytes h) as Hhost by (by injection Hr as <-).
  assert (s_path u = match p with [] => "/" | _ => Str.of_bytes p end) as Hpath
    by (by injection Hr as <-).
  constructor; rewrite ?Hhost, ?Hpath, ?Str.bytes_of_bytes; try done.
  - by destruct h.
  - destruct p; [done|]. by rewrite Str.bytes_of_bytes.
  - destruct Hp as [->|[t ->]]; eexists; [done|]. by rewrite Str.bytes_of_bytes.
Qed.

Lemma parse_text scheme h p :
  scheme = "https" ∨ scheme = "http" →
  h ≠ "" → all host_byte (Str.bytes h) = true → ¬ In "/"%char (Str.bytes h) →
  all path_char (Str.bytes p) = true → (p = "" ∨ ∃ t, Str.bytes p = "/"%char :: t) →
  parse (scheme +:+ "://" +:+ h +:+ p)
  = Ok {| s_scheme := scheme; s_host := h; s_path := if Str.is_empty p then "/" else p |}.
Proof.
  intros Hs Hne Hhb Hsl Hpc Hp.
  assert (parse (scheme +:+ "://" +:+ h +:+ p) = rest scheme (h +:+ p)) as ->.
  { destruct Hs as [-> | ->]; unfold parse; reflexivity. }
  unfold rest. rewrite Str.bytes_app, cut_app; [|done|].
  2: { destruct Hp as [->|[t ->]]; [by left|right; by eexists]. }
  rewrite Hhb, Hpc, Str.of_bytes_bytes. destruct h as [|c h]; [done|]. cbn [Str.bytes length
    String.list_ascii_of_string Nat.eqb negb andb].
  destruct p as [|d p]; cbn; [done|]. do 2 f_equal. f_equal. apply Str.of_bytes_bytes.
Qed.

#[global] Instance small_laws : UrlLaws.
Proof.
  assert (∀ c, host_byte c = true → Str.graphic c = true ∧ any (Ascii.eqb c) ["?"; "#"]%char = false) as Hhost.
  { intros [[] [] [] [] [] [] [] []]; vm_compute; intros; split; congruence. }
  constructor.
  - intros raw u Hu%parse_good Hq Hb _. destruct Hu as [Hs Hne Hh Hsl Hp [t Ht]].
    exists (s_host u).
    assert (∀ c, In c (Str.bytes (text u)) →
      Str.graphic c = true ∧ any (Ascii.eqb c) ["?"; "#"]%char = false) as Hc.
    { unfold text. intros c. rewrite !Str.bytes_app. rewrite all_true in Hh, Hp.
      intros [Hc|[Hc|[Hc|Hc]%in_app_or]%in_app_or]%in_app_or.
      - destruct Hs as [Hs|Hs]; rewrite Hs in Hc; cbn in Hc;
          repeat (destruct Hc as [<-|Hc]; [by vm_compute|]); done.
      - cbn in Hc. repeat (destruct Hc as [<-|Hc]; [by vm_compute|]). done.
      - auto.
      - apply Hp in Hc. unfold path_char in Hc. apply andb_true_iff in Hc as [? Hc].
        split; [done|]. by apply negb_true_iff in Hc. }
    constructor; try done.
    + rewrite all_true. intros c Hin. by apply Hc.
    + unfold no_query. rewrite negb_true_iff, <-not_true_iff_false, any_true.
      intros (c & Hin & Hx). destruct (Hc c Hin). congruence.
  - intros raw u Hu%parse_good Hq Hb _. destruct Hu as [Hs Hne Hh Hsl Hp [t Ht]].
    assert (Str.trim_end_matches (text u) "/" =
            s_scheme u +:+ "://" +:+ s_host u +:+ Str.trim_end_matches (s_path u) "/") as Htr.
    { unfold text. rewrite <-!(Str.append_assoc (s_scheme u)). by apply Urls.trim_end_keep. }
    cbn [url_parse url_as_str small_url]. rewrite Htr, parse_text; try done.
    + eexists. split; [reflexivity|]. by constructor.
    + rewrite all_true in *. intros c Hc%Str.trim_end_matches_In. auto.
    + destruct (Str.trim_end_matches_prefix (s_path u) "/") as [n Hn].
      destruct (Str.trim_end_matches (s_path u) "/") as [|d p]; [by left|right].
      rewrite Hn, Str.bytes_app in Ht. cbn in Ht. injection Ht as -> _. by eexists.
Qed.

End Small.

(** ** What the rules promise *)

Module Endpoints.
Section endpoints.
Context `{U : UrlCrate} `{D : DebugStr} `{HC : HeaderCrate}.
Context (debug_duration : Z → string) (SYSTEM_ONE_PATH : string).
#[local] Abbreviation upstream := (Reload.endpoint_upstream debug_duration SYSTEM_ONE_PATH).

(** C23. Every row a reload serves is served by the adapter its platform and
    dialect columns name, and each setting of it is the row's own: the base URL
    as it is stored, the region, project, API version and path of those
    columns, the auth style its column spells, and its extra headers.  Each
    setting passed every rule: a URL that names no metadata service and no
    provider a plain endpoint may not reach, a region of the platform's shape,
    a path or API version of the right form, and headers none of which is one a
    key goes in.  Its name is no built-in's, so it resolves to the endpoint. *)
Theorem served_rows_are_typed `{!UrlLaws} row e s :
  upstream row = Ok (e, s) →
  Rows.built SYSTEM_ONE_PATH row e s ∧ Rows.serves SYSTEM_ONE_PATH e s
  ∧ ep_name e = Reload.r_name row
  ∧ Prov.from_str (Prov.install [e]) (Reload.r_name row) = Some (Custom e)
  ∧ ∀ auth secret h v,
      Custom.authenticate auth secret = Some (h, v) → ¬ In h (Rows.extra_headers_of s).*1.
Proof.
  intros He. destruct (Rows.endpoint_upstream_Ok _ _ _ _ _ He) as (k & hs & Hp & Hh).
  destruct (Rows.passes_served debug_duration SYSTEM_ONE_PATH row k hs Hp Hh)
    as (e' & s' & He' & Hs & Hn & _).
  assert ((e', s') = (e, s)) as [= -> ->] by congruence.
  split_and!; [by apply (Rows.row_built debug_duration)|done|done| |].
  - unfold Prov.from_str, Prov.install. cbn [fold_left]. rewrite Hn.
    rewrite (Prov.validate_name_not_builtin (Reload.r_name row)) by apply Hp.
    by rewrite lookup_insert_eq.
  - intros auth secret h v. apply (Rows.key_header_alone (ep_platform e)).
    by apply (Rows.serves_headers SYSTEM_ONE_PATH).
Qed.

(** What the rules store for a base URL they accept is what they make of
    it when the row is read again, on any platform, unless escaping has made
    it longer than the 2048 bytes they read. *)
Theorem base_url_is_canonical `{!UrlLaws} raw p s :
  Rules.endpoint_base_url debug_duration raw p = Ok s →
  Rules.endpoint_base_url debug_duration s p =
  if 2048 <? Str.len s then Rules.refuse Rules.BaseUrl "URL is too long" else Ok s.
Proof. exact (Urls.stored_again debug_duration raw p s). Qed.

(** A served endpoint as [apply_endpoints] places it. *)
Definition entry (x : Endpoint * Reload.Served) : Endpoint * (Custom.Adapter + Custom.JevUpstream) :=
  match x.2 with
  | Reload.Chat a => (x.1, inl a)
  | Reload.SystemOneUpstream u => (x.1, inr u)
  end.

Definition loaded (rows : list Reload.EndpointRow) : list (Endpoint * (Custom.Adapter + Custom.JevUpstream)) :=
  entry <$> Reload.load_endpoints debug_duration SYSTEM_ONE_PATH rows.

Lemma loaded_kinded rows : Forall Reloads.kinded (loaded rows).
Proof.
  unfold loaded, Reload.load_endpoints. rewrite Forall_fmap, Forall_forall.
  intros x (row & _ & Hx)%list_elem_of_In%filter_map_In.
  destruct (upstream row) as [[e s]|] eqn:He; [|done]. injection Hx as <-.
  apply Rows.endpoint_upstream_kind in He. unfold Reloads.kinded, entry.
  destruct s; cbn; [|by rewrite He]. by destruct (ep_dialect e).
Qed.

Lemma entry_endpoint e s : (entry (e, s)).1 = e.
Proof. by destruct s. Qed.

Lemma loaded_cons row rows :
  loaded (row :: rows) = match upstream row with Ok (e, s) => entry (e, s) :: loaded rows | Err _ => loaded rows end.
Proof. unfold loaded, Reload.load_endpoints. cbn. by destruct (upstream row) as [[e s]|]. Qed.

(** Rows whose names are each once load as a table. *)
Lemma loaded_table rows : NoDup (Reload.r_name <$> rows) → Reloads.table (loaded rows).
Proof.
  intros Hnd. split; [|apply loaded_kinded].
  assert (∀ rows n, n ∈ ep_name <$> (loaded rows).*1 → n ∈ Reload.r_name <$> rows) as Hin.
  { clear. induction rows as [|row rows IH]; intros n; [done|]. rewrite loaded_cons.
    destruct (upstream row) as [[e s]|] eqn:He; cbn [fmap list_fmap]; [|intros H; right; auto].
    rewrite entry_endpoint, (Rows.endpoint_upstream_name _ _ _ _ _ He).
    intros [->|H]%elem_of_cons; [left|right; auto]. }
  induction rows as [|row rows IH]; [constructor|]. cbn [fmap list_fmap] in Hnd. apply NoDup_cons in Hnd as [Hn Hnd].
  rewrite loaded_cons. destruct (upstream row) as [[e s]|] eqn:He; [|by apply IH]. cbn [fmap list_fmap].
  rewrite entry_endpoint, (Rows.endpoint_upstream_name _ _ _ _ _ He). constructor; [|by apply IH]. by intros H%Hin.
Qed.

(** C24. Reloading has no gap.  Between the table a gateway serves and the one
    a reload read, and so through any number of reloads, it is at every instant
    in one of two positions: the old table's endpoints are those that resolve,
    each with its own adapter or upstream, as its row or the row of that name
    in the new table makes it; or the new one's are, each with its own of the
    new table.  Every built-in and Jev's own upstream keep theirs throughout,
    and each reload ends in a state that is the new table's through and
    through: what an endpoint's key holds is its own, and no key holds what
    only an earlier table put there. *)
Theorem reload_has_no_gap builtins jev (old : list Reload.EndpointRow) tables s :
  (∀ name, builtins !! (true, name) = None) → NoDup (Reload.r_name <$> old) →
  Forall (fun rows => NoDup (Reload.r_name <$> rows)) tables → Reloads.settled builtins jev (loaded old) s →
  Forall2 (fun (P : Reload.State → Prop) s => P s) (Reloads.told builtins jev (loaded old) (loaded <$> tables))
    (Reload.reloads builtins jev (loaded <$> tables) s).
Proof.
  intros Hb Ho Ht Hs. apply Reloads.reloads_told; [done|by apply loaded_table| |done].
  rewrite Forall_fmap. eapply Forall_impl; [exact Ht|]. intros rows. apply loaded_table.
Qed.

End endpoints.

(** *** Witnesses *)

Definition no_debug (_ : Z) : string := "".

Definition groq : Reload.EndpointRow := {|
  Reload.r_name := "groq"; Reload.r_dialect := "openai"; Reload.r_platform := "plain";
  Reload.r_base_url := Some " https://api.groq.com/openai/v1/ "; Reload.r_auth := "bearer";
  Reload.r_region := None; Reload.r_project := None; Reload.r_api_version := None;
  Reload.r_path := None; Reload.r_extra_headers := JObject [("HTTP-Referer", JString "me")];
  Reload.r_display_name := None; Reload.r_discover_models := true;
  Reload.r_created_at := 0; Reload.r_updated_at := 0
|}.

Definition groq_endpoint : Endpoint :=
  {| ep_name := "groq"; ep_dialect := OpenAIChatCompletions; ep_platform := Plain |}.

Definition groq_served : Reload.Served :=
  Reload.Chat (Custom.OpenAICompat groq_endpoint "https://api.groq.com/openai/v1" Bearer
    [("http-referer", "me")] true).

Example groq_row :
  Reload.endpoint_upstream no_debug "/v1/systemone" groq = Ok (groq_endpoint, groq_served).
Proof. vm_compute. reflexivity. Qed.

Example claude_on_plain_refused :
  Rules.endpoint_base_url no_debug "https://api.anthropic.com/v1" Plain
  = Rules.refuse Rules.Compliance "the base URL's host is anthropic.com or under it, where a plain endpoint may not point: that provider is served by its built-in adapter or by the aws, gcp or azure platform. See docs/compliance.md".
Proof. vm_compute. reflexivity. Qed.

Lemma served_rows_are_typed_witness :
  Rows.built "/v1/systemone" groq groq_endpoint groq_served
  ∧ Rows.serves "/v1/systemone" groq_endpoint groq_served
  ∧ ep_name groq_endpoint = "groq"
  ∧ Prov.from_str (Prov.install [groq_endpoint]) "groq" = Some (Custom groq_endpoint)
  ∧ ∀ auth secret h v,
      Custom.authenticate auth secret = Some (h, v) → ¬ In h (Rows.extra_headers_of groq_served).*1.
Proof. apply (served_rows_are_typed no_debug "/v1/systemone" groq). vm_compute. reflexivity. Defined.

Lemma base_url_is_canonical_witness :
  Rules.endpoint_base_url no_debug "https://acme.openai.azure.com" Azure
  = Ok "https://acme.openai.azure.com".
Proof.
  apply (base_url_is_canonical no_debug "  https://acme.openai.azure.com// " Azure).
  vm_compute. reflexivity.
Defined.

Definition jev_upstream : Custom.JevUpstream :=
  {| Custom.jv_base_url := "https://api.typesafe.ai"; Custom.jv_path := "/v1/systemone";
     Custom.jv_auth := Bearer; Custom.jv_extra_headers := [] |}.

(** From a state of no endpoints, two reloads: the endpoint comes, then goes. *)
Definition empty_state : @Reload.State Custom.Adapter Custom.JevUpstream := {|
  Reload.adapters := ∅;
  Reload.system_one_upstreams := {[ Reload.key Jev := jev_upstream ]};
  Reload.registry := ∅
|}.

Lemma reload_has_no_gap_witness :
  Forall2 (fun (P : Reload.State → Prop) s => P s)
    (Reloads.told ∅ jev_upstream (loaded no_debug "/v1/systemone" []) (loaded no_debug "/v1/systemone" <$> [[groq]; []]))
    (Reload.reloads ∅ jev_upstream (loaded no_debug "/v1/systemone" <$> [[groq]; []]) empty_state).
Proof.
  apply (reload_has_no_gap no_debug "/v1/systemone" ∅ jev_upstream [] [[groq]; []] empty_state).
  - intros name. apply lookup_empty.
  - constructor.
  - repeat constructor; apply not_elem_of_nil.
  - constructor.
    + intros name e. cbn. rewrite lookup_empty. split; [done|]. by intros [[] _].
    + intros [[] n]; cbn; by rewrite lookup_empty.
    + intros k. unfold Reloads.upstream_at. cbn [empty_state Reload.system_one_upstreams]. case_bool_decide as Hk.
      * rewrite Hk. apply lookup_singleton_eq.
      * rewrite lookup_singleton_ne by done. by destruct (k.1).
Defined.

End Endpoints.
