(* ===== verification/EndpointTable.v ===== *)
(** * The endpoint table and its writers

    Registering, changing and removing an endpoint
    ([oag-server/src/endpoints.rs]) over the [endpoint] table
    ([oag-store/src/repo/endpoints.rs], [migrations/0020_endpoint.sql],
    [migrations/0021_endpoint_path.sql]).

    A handler is a program ([Prog]) over database statements and DNS lookups;
    [run] interleaves its steps with other requests' statements.  A statement
    is atomic, and so is [delete_endpoint]'s transaction, whose row lock makes
    it so. *)

From Stdlib Require Import Ascii.
From S2P Require Import Prelude Text.
From S2P Require Import Domain.
From S2P Require Import Canonical.
From S2P Require Import Respond.
From S2P Require Import Endpoints.
#[local] Open Scope string_scope.
#[local] Open Scope oag_scope.
#[local] Open Scope list_scope.
#[local] Open Scope Z_scope.

Module Table.

Import Reload.

(** ** Drafts *)

Definition FIXED : string := "an endpoint's name, dialect and platform are what it is, and never change: its credentials and models were registered for them. Remove the endpoint and register it again".

Definition REDACTED : string := "<redacted>".

Definition default_auth (platform : Platform) : AuthStyle :=
  match platform with Plain | Gcp => Bearer | Azure => ApiKeyHeader | Aws => NoAuth end.

Record Draft : Type := {
  d_name : string;
  d_dialect : string;
  d_platform : string;
  d_base_url : option string;
  d_auth : string;
  d_region : option string;
  d_project : option string;
  d_api_version : option string;
  d_path : option string;
  d_extra_headers : Json;
  d_display_name : option string;
  d_discover_models : bool
}.

Definition from_row (row : EndpointRow) : Draft := {|
  d_name := r_name row; d_dialect := r_dialect row; d_platform := r_platform row;
  d_base_url := r_base_url row; d_auth := r_auth row; d_region := r_region row;
  d_project := r_project row; d_api_version := r_api_version row; d_path := r_path row;
  d_extra_headers := r_extra_headers row; d_display_name := r_display_name row;
  d_discover_models := r_discover_models row
|}.

Definition draft_columns (d : Draft) : Rules.Columns := {|
  Rules.c_name := d_name d; Rules.c_dialect := d_dialect d; Rules.c_platform := d_platform d;
  Rules.c_base_url := d_base_url d; Rules.c_auth := d_auth d; Rules.c_region := d_region d;
  Rules.c_project := d_project d; Rules.c_api_version := d_api_version d;
  Rules.c_path := d_path d; Rules.c_extra_headers := d_extra_headers d
|}.

Inductive KeysMove : Type := KRefused | KAllowed.

#[export] Instance KeysMove_eq_dec : EqDecision KeysMove.
Proof. solve_decision. Defined.

Inductive WriteError : Type :=
  | Invalid (message : string)
  | Taken (message : string)
  | NotFound
  | Changed
  | KeysWouldMove (accounts : Z)
  | Failed (e : Error).

Definition into_error (e : WriteError) (name : string) : Error :=
  match e with
  | Invalid message | Taken message => Config message
  | NotFound =>
      Config ("no endpoint named '" +:+ name +:+ "'; see `oag admin endpoint list`")
  | Changed =>
      Config ("endpoint '" +:+ name +:+ "' was changed by someone else while this changed it, so nothing was written; see `oag admin endpoint show "
        +:+ name +:+ "` and run the command again")
  | KeysWouldMove accounts =>
      Config ("endpoint '" +:+ name +:+ "' has " +:+ Respond.signed accounts
        +:+ " credential(s), and every one of their keys would be sent to the new base URL, so nothing was written; run it again with --yes-move-keys if that host is meant to have them")
  | Failed e => e
  end.

(** ** The table *)

Record Db : Type := {
  endpoints : gmap string EndpointRow;
  accounts : list string;      (* each account row's provider *)
  models : list string         (* each catalogue row's provider *)
}.

Definition set_endpoints (m : gmap string EndpointRow) (db : Db) : Db :=
  {| endpoints := m; accounts := accounts db; models := models db |}.

Definition count (name : string) (rows : list string) : Z :=
  Z.of_nat (length (keep (Str.eqb name) rows)).

(** The CHECKs of the table, in the order of their names. *)
Definition sql_name (s : string) : bool :=
  (Str.len s <=? 32)
  && match Str.bytes s with
     | b :: rest =>
         (Str.is_ascii_lowercase b || Str.is_ascii_digit b)
         && all (fun c => Str.is_ascii_lowercase c || Str.is_ascii_digit c
                          || Ascii.eqb c "_" || Ascii.eqb c "-") rest
     | [] => false
     end.

Definition sql_path (s : string) : bool :=
  match Str.strip_prefix s "/" with
  | Some rest => (Str.len rest <=? 127) && all Rules.path_byte (Str.bytes rest)
  | None => false
  end.

Definition sql_base_url (s : string) : bool :=
  (Str.starts_with s "http://" || Str.starts_with s "https://") && no_query s.

Definition one_of (l : list string) (s : string) : bool := any (Str.eqb s) l.

Definition is_null {A} (o : option A) : bool := match o with None => true | Some _ => false end.

Definition sql_matrix (platform dialect : string) : bool :=
  Str.eqb platform "plain" && one_of ["openai"; "anthropic"; "gemini"; "system_one"] dialect
  || Str.eqb platform "azure" && Str.eqb dialect "openai"
  || Str.eqb platform "aws" && one_of ["anthropic"; "bedrock_converse"] dialect
  || Str.eqb platform "gcp" && one_of ["gemini"; "anthropic"] dialect.

Definition sql_checks (r : EndpointRow) : list (string * bool) :=
  [("endpoint_auth_check",
      one_of ["bearer"; "x_api_key"; "x_goog_api_key"; "api_key_header"; "none"] (r_auth r));
   ("endpoint_base_url_check",
      match r_base_url r with
      | None => one_of ["aws"; "gcp"] (r_platform r)
      | Some url => sql_base_url url
      end);
   ("endpoint_dialect_check",
      one_of ["openai"; "anthropic"; "gemini"; "system_one"; "bedrock_converse"] (r_dialect r));
   ("endpoint_extra_headers_check",
      match r_extra_headers r with JObject _ => true | _ => false end);
   ("endpoint_name_check", sql_name (r_name r));
   ("endpoint_path_check", match r_path r with Some p => sql_path p | None => true end);
   ("endpoint_path_dialect_check", is_null (r_path r) || Str.eqb (r_dialect r) "system_one");
   ("endpoint_platform_check", one_of ["plain"; "aws"; "gcp"; "azure"] (r_platform r));
   ("endpoint_platform_dialect_check", sql_matrix (r_platform r) (r_dialect r));
   ("endpoint_project_check", negb (Str.eqb (r_platform r) "gcp") || negb (is_null (r_project r)));
   ("endpoint_region_check",
      negb (one_of ["aws"; "gcp"] (r_platform r)) || negb (is_null (r_region r)))].

(** The first CHECK the row fails. *)
Definition violated (r : EndpointRow) : option string :=
  fst <$> find (fun c : string * bool => negb c.2) (sql_checks r).

Inductive EndpointDeletion : Type := Deleted | NoSuch | InUse (accounts models : Z).

(** *** Statements

    What each answers is what [sqlx] hands its caller, past
    [endpoint_write_error].  [FileAccount] and [FileModel] are the writes of
    other parts of the gateway that name an endpoint. *)
Inductive Op : Type → Type :=
  | InsertEndpoint (d : Draft) : Op (result EndpointRow Error)
  | UpdateEndpoint (name : string) (d : Draft) (seen : Z) : Op (result (option EndpointRow) Error)
  | EndpointExists (name : string) : Op (result bool Error)
  | AccountCount (name : string) : Op (result Z Error)
  | DeleteEndpoint (name : string) : Op (result EndpointDeletion Error)
  | FileAccount (provider : string) : Op (result () Error)
  | FileModel (provider : string) : Op (result () Error)
  | LookUp (host : string) (port : Z) : Op Egress.Lookup.

(** The world a statement meets: [now()], whether the database fails it, and
    what DNS answers. *)
Record Env : Type := { now : Z; fault : option string; dns : Egress.Lookup }.

Section table.
(** How [jsonb] stores a value, [None] when it cannot. *)
Context (jsonb : Json → option Json).

Definition inserted (d : Draft) (headers : Json) (now : Z) : EndpointRow := {|
  r_name := d_name d; r_dialect := d_dialect d; r_platform := d_platform d;
  r_base_url := d_base_url d; r_auth := d_auth d; r_region := d_region d;
  r_project := d_project d; r_api_version := d_api_version d; r_path := d_path d;
  r_extra_headers := headers; r_display_name := d_display_name d;
  r_discover_models := d_discover_models d; r_created_at := now; r_updated_at := now
|}.

(** [UPDATE_ENDPOINT_SQL]'s row: the settings, over what the row is. *)
Definition updated (row : EndpointRow) (d : Draft) (headers : Json) (now : Z) : EndpointRow := {|
  r_name := r_name row; r_dialect := r_dialect row; r_platform := r_platform row;
  r_base_url := d_base_url d; r_auth := d_auth d; r_region := d_region d;
  r_project := d_project d; r_api_version := d_api_version d; r_path := d_path d;
  r_extra_headers := headers; r_display_name := d_display_name d;
  r_discover_models := d_discover_models d; r_created_at := r_created_at row;
  r_updated_at := Z.max now (r_updated_at row + 1)
|}.

Definition internal {A} (what e : string) : result A Error := Err (Internal (what +:+ ": " +:+ e)).

Definition check_failed (name constraint : string) : Error :=
  Config ("endpoint '" +:+ name +:+ "' fails the database check " +:+ constraint).

Definition already_exists (name : string) : Error :=
  Config ("an endpoint named '" +:+ name +:+ "' already exists").

Definition insert_endpoint (d : Draft) (db : Db) (env : Env) : result EndpointRow Error * Db :=
  match fault env with
  | Some e => (internal "registering endpoint" e, db)
  | None =>
      match jsonb (d_extra_headers d) with
      | None => (internal "registering endpoint" "unsupported Unicode escape sequence", db)
      | Some headers =>
          let row := inserted d headers (now env) in
          match violated row with
          | Some constraint => (Err (check_failed (d_name d) constraint), db)
          | None =>
              match endpoints db !! d_name d with
              | Some _ => (Err (already_exists (d_name d)), db)
              | None => (Ok row, set_endpoints (<[d_name d := row]> (endpoints db)) db)
              end
          end
      end
  end.

(** The [UPDATE] alone; [None] when no row matched. *)
Definition update_statement (name : string) (d : Draft) (seen : Z) (db : Db) (env : Env)
  : result (option EndpointRow) Error * Db :=
  match fault env with
  | Some e => (internal "updating endpoint" e, db)
  | None =>
      match jsonb (d_extra_headers d) with
      | None => (internal "updating endpoint" "unsupported Unicode escape sequence", db)
      | Some headers =>
          match endpoints db !! name with
          | Some row =>
              if r_updated_at row =? seen then
                let row := updated row d headers (now env) in
                match violated row with
                | Some constraint => (Err (check_failed name constraint), db)
                | None => (Ok (Some row), set_endpoints (<[name := row]> (endpoints db)) db)
                end
              else (Ok None, db)
          | None => (Ok None, db)
          end
      end
  end.

Definition delete_endpoint (name : string) (db : Db) (env : Env)
  : result EndpointDeletion Error * Db :=
  match fault env with
  | Some e => (internal "deleting endpoint" e, db)
  | None =>
      match endpoints db !! name with
      | None => (Ok NoSuch, db)
      | Some _ =>
          let a := count name (accounts db) in
          let m := count name (models db) in
          if (0 <? a) || (0 <? m) then (Ok (InUse a m), db)
          else (Ok Deleted, set_endpoints (base.delete name (endpoints db)) db)
      end
  end.

Definition file_account (provider : string) (db : Db) (env : Env) : result () Error * Db :=
  match fault env with
  | Some e => (internal "filing a credential" e, db)
  | None => (Ok (), {| endpoints := endpoints db; accounts := provider :: accounts db;
                       models := models db |})
  end.

Definition file_model (provider : string) (db : Db) (env : Env) : result () Error * Db :=
  match fault env with
  | Some e => (internal "writing a model" e, db)
  | None => (Ok (), {| endpoints := endpoints db; accounts := accounts db;
                       models := provider :: models db |})
  end.

Definition exec {R} (op : Op R) (db : Db) (env : Env) : R * Db :=
  match op in Op R return R * Db with
  | InsertEndpoint d => insert_endpoint d db env
  | UpdateEndpoint name d seen => update_statement name d seen db env
  | EndpointExists name =>
      (match fault env with
       | Some e => internal "reading endpoint after an update" e
       | None => Ok (match endpoints db !! name with Some _ => true | None => false end)
       end, db)
  | AccountCount name =>
      (match fault env with
       | Some e => internal ("counting " +:+ name +:+ "'s credentials") e
       | None => Ok (count name (accounts db))
       end, db)
  | DeleteEndpoint name => delete_endpoint name db env
  | FileAccount provider => file_account provider db env
  | FileModel provider => file_model provider db env
  | LookUp _ _ => (dns env, db)
  end.

End table.

(** ** Programs *)

Inductive Prog (A : Type) : Type :=
  | Ret (a : A)
  | Do {R : Type} (op : Op R) (k : R → Prog A).
Arguments Ret {A} _.
Arguments Do {A R} _ _.

(** [?] on what a statement or a check answers. *)
Definition try {A B E} (r : result A E) (k : A → Prog (result B E)) : Prog (result B E) :=
  match r with Ok a => k a | Err e => Ret (Err e) end.

Section writers.
Context `{UrlCrate} `{DebugStr} `{HeaderCrate} (debug_duration : Z → string).

(** [present]: what a text says once trimmed, if anything. *)
Definition present (value : option string) : option string :=
  match value with
  | Some v => let v := Str.trim v in if Str.is_empty v then None else Some v
  | None => None
  end.

Definition display_name (raw : option string) : result (option string) string :=
  match present raw with
  | None => Ok None
  | Some name =>
      if 128 <? Str.chars_count name then Err "display_name must be 128 characters or fewer"
      else if Str.has_control name then Err "display_name must not contain control characters"
      else Ok (Some name)
  end.

(** The draft once its blanks are gone. *)
Definition blanked (d : Draft) (shown : option string) (base_url : option string) : Draft := {|
  d_name := d_name d; d_dialect := d_dialect d; d_platform := d_platform d;
  d_base_url := base_url; d_auth := d_auth d; d_region := present (d_region d);
  d_project := present (d_project d); d_api_version := present (d_api_version d);
  d_path := present (d_path d); d_extra_headers := d_extra_headers d;
  d_display_name := shown; d_discover_models := d_discover_models d
|}.

Definition checked (d : Draft) : result (Draft * Platform) string :=
  let? shown := display_name (d_display_name d) in
  let draft := blanked d shown (present (d_base_url d)) in
  match Rules.from_columns debug_duration (draft_columns draft) with
  | Err refusal => Err (Rules.message refusal)
  | Ok k =>
      let? _ := Custom.check_extra_headers (d_name draft) (Rules.k_platform k)
                  (Rules.k_extra_headers k) in
      Ok (blanked d shown (Rules.k_base_url k), Rules.k_platform k)
  end.

(** [resolves], and [validate_endpoint_base_url] in it. *)
Definition resolves (d : Draft) (platform : Platform)
    (k : Prog (result EndpointRow WriteError)) : Prog (result EndpointRow WriteError) :=
  match d_base_url d with
  | None => k
  | Some url =>
      match Egress.validated debug_duration url platform with
      | Err m => Ret (Err (Invalid m))
      | Ok url =>
          match Egress.question url with
          | Err (Err m) => Ret (Err (Invalid m))
          | Err (Ok _) => k
          | Ok (host, port) =>
              Do (LookUp host port) (fun answer =>
                match Egress.answered host answer with
                | Err m => Ret (Err (Invalid m))
                | Ok _ => k
                end)
          end
      end
  end.

Definition write_error (e : Error) : WriteError :=
  match e with
  | Config message => if Str.contains message "already exists" then Taken message else Invalid message
  | other => Failed other
  end.

Definition register (d : Draft) : Prog (result EndpointRow WriteError) :=
  match checked d with
  | Err m => Ret (Err (Invalid m))
  | Ok (d, platform) =>
      resolves d platform
        (Do (InsertEndpoint d) (fun answer =>
          Ret (match answer with Ok row => Ok row | Err e => Err (write_error e) end)))
  end.

Definition moves_base_url (stored : EndpointRow) (to : option string) : bool :=
  let from :=
    match r_base_url stored with
    | None => None
    | Some url =>
        match platform_from_str (r_platform stored) with
        | Ok platform =>
            match Rules.endpoint_base_url debug_duration url platform with
            | Ok s => Some s
            | Err _ => Some url
            end
        | Err _ => Some url
        end
    end in
  negb (bool_decide (from = to)).

(** [update_endpoint], and what [change] makes of it. *)
Definition update_endpoint (name : string) (d : Draft) (seen : Z)
  : Prog (result EndpointRow WriteError) :=
  Do (UpdateEndpoint name d seen) (fun answer =>
    match answer with
    | Err e => Ret (Err (write_error e))
    | Ok (Some row) => Ret (Ok row)
    | Ok None =>
        Do (EndpointExists name) (fun answer =>
          Ret (match answer with
               | Err e => Err (write_error e)
               | Ok true => Err Changed
               | Ok false => Err NotFound
               end))
    end).

Definition same_endpoint (d : Draft) (stored : EndpointRow) : bool :=
  Str.eqb (d_name d) (r_name stored) && Str.eqb (d_dialect d) (r_dialect stored)
  && Str.eqb (d_platform d) (r_platform stored).

Definition change (stored : EndpointRow) (d : Draft) (keys : KeysMove)
  : Prog (result EndpointRow WriteError) :=
  if negb (same_endpoint d stored) then Ret (Err (Invalid FIXED))
  else
    match checked d with
    | Err m => Ret (Err (Invalid m))
    | Ok (d, platform) =>
        let write := update_endpoint (r_name stored) d (r_updated_at stored) in
        if moves_base_url stored (d_base_url d) then
          if bool_decide (keys = KRefused) then
            Do (AccountCount (r_name stored)) (fun answer =>
              match answer with
              | Err e => Ret (Err (Failed e))
              | Ok accounts =>
                  if 0 <? accounts then Ret (Err (KeysWouldMove accounts))
                  else resolves d platform write
              end)
          else resolves d platform write
        else write
    end.

End writers.

(** The extra headers as a person may see them.  [to_string] prints a value
    that is no string. *)
Definition shown_headers (to_string : Json → string) (headers : Json) : list (string * string) :=
  match headers with
  | JObject object =>
      map (fun f : string * Json =>
        let lower := Str.to_ascii_lowercase f.1 in
        (f.1,
         if any (Str.contains lower) ["key"; "token"; "secret"; "auth"] then REDACTED
         else match f.2 with JString s => s | v => to_string v end)) object
  | _ => []
  end.

(** ** Interleaved runs

    One statement at a time, this handler's or another request's; [others]
    says which the others make. *)
Section run.
Context (jsonb : Json → option Json) (others : ∀ R, Op R → Prop).

Inductive step : Db → Db → Prop :=
  | step_other R (op : Op R) env r db db' :
      others R op → exec jsonb op db env = (r, db') → step db db'.

Inductive run {A} : Prog A → Db → A → Db → Prop :=
  | run_ret a db : run (Ret a) db a db
  | run_other p db db1 a db' : step db db1 → run p db1 a db' → run p db a db'
  | run_do R (op : Op R) k env r db db1 a db' :
      exec jsonb op db env = (r, db1) → run (k r) db1 a db' → run (Do op k) db a db'.

End run.

End Table.

(** ** Runs, taken apart *)

Module Writers.

Import Reload Table.

Section writers.
Context `{U : UrlCrate} `{D : DebugStr} `{HC : HeaderCrate} (debug_duration : Z → string).
Context (jsonb : Json → option Json) (others : ∀ R, Op R → Prop).
#[local] Abbreviation step := (Table.step jsonb others).
#[local] Abbreviation run := (Table.run jsonb others).
#[local] Abbreviation exec := (Table.exec jsonb).

(** A run of [Ret] is others' steps; a run of [Do] is others' steps, the
    statement, and the rest. *)
Lemma run_inv {A} (p : Prog A) db a db' :
  run p db a db' →
  match p with
  | Ret a' => a = a' ∧ rtc step db db'
  | Do op k => ∃ db1 env db2, rtc step db db1 ∧ (exec op db1 env).2 = db2
                              ∧ run (k (exec op db1 env).1) db2 a db'
  end.
Proof.
  induction 1 as [|p db db1 a db' Hs Hr IH|R op k env r db db1 a db' He Hr IH].
  - done.
  - destruct p as [a'|R op k].
    + destruct IH as [-> IH]. split; [done|]. by eapply rtc_l.
    + destruct IH as (db2 & env & db3 & Hsteps & He & Hk). exists db2, env, db3.
      split; [by eapply rtc_l|done].
  - exists db, env, db1. rewrite He. done.
Qed.

Lemma resolves_inv d p k db row db' :
  run (resolves debug_duration d p k) db (Ok row) db' →
  ∃ db1, rtc step db db1 ∧ run k db1 (Ok row) db'
  ∧ ∀ url, d_base_url d = Some url → ∃ u, Egress.validated debug_duration url p = Ok u.
Proof.
  unfold resolves. destruct (d_base_url d) as [url|].
  2: { intros Hr. by exists db. }
  destruct (Egress.validated debug_duration url p) as [u|] eqn:Hv.
  2: { intros [? _]%run_inv. done. }
  assert (∀ url', Some url = Some url' → ∃ u, Egress.validated debug_duration url' p = Ok u) as Hok.
  { intros ? [= <-]. by exists u. }
  destruct (Egress.question u) as [[host port]|[[]|]].
  - intros (db1 & env & db2 & Hs & <- & Hr)%run_inv. cbn in Hr.
    destruct (Egress.answered host (dns env)); [|by apply run_inv in Hr as [? _]].
    by exists db1.
  - intros Hr. by exists db.
  - intros [? _]%run_inv. done.
Qed.

Lemma update_inv n d seen db row db' :
  run (update_endpoint n d seen) db (Ok row) db' →
  ∃ dbw env, rtc step db dbw ∧ (exec (UpdateEndpoint n d seen) dbw env).1 = Ok (Some row)
  ∧ rtc step (exec (UpdateEndpoint n d seen) dbw env).2 db'.
Proof.
  unfold update_endpoint. intros (dbw & env & dbw' & Hs & <- & Hr)%run_inv. exists dbw, env.
  destruct (exec (UpdateEndpoint n d seen) dbw env).1 as [[row'|]|e] eqn:He.
  - apply run_inv in Hr as [[= <-] ?]. done.
  - apply run_inv in Hr as (? & env' & ? & _ & _ & [Hc _]%run_inv). cbn in Hc.
    repeat case_match; done.
  - apply run_inv in Hr as [? _]. done.
Qed.

(** What the [UPDATE] writes, when it writes. *)
Lemma update_statement_Ok n d seen db env row :
  (exec (UpdateEndpoint n d seen) db env).1 = Ok (Some row) →
  ∃ old headers, endpoints db !! n = Some old ∧ r_updated_at old = seen
  ∧ jsonb (d_extra_headers d) = Some headers ∧ row = updated old d headers (now env)
  ∧ (exec (UpdateEndpoint n d seen) db env).2 = set_endpoints (<[n := row]> (endpoints db)) db.
Proof.
  cbn [Table.exec]. unfold update_statement. destruct (fault env); [done|].
  destruct (jsonb (d_extra_headers d)) as [h|]; [|done].
  destruct (endpoints db !! n) as [old|]; [|done].
  destruct (Z.eqb_spec (r_updated_at old) seen); [|done].
  destruct (violated _); [done|]. cbn [fst snd]. intros [= <-]. by exists old, h.
Qed.

(** *** Stamps only grow *)

(** The row of [n] is [stored], or one written since. *)
Definition stamped (n : string) (stored : EndpointRow) (db : Db) : Prop :=
  ∃ row, endpoints db !! n = Some row ∧ (row = stored ∨ r_updated_at stored < r_updated_at row).

Definition spares (n : string) {R} (op : Op R) : Prop :=
  match op with DeleteEndpoint m => m ≠ n | _ => True end.

Lemma stamped_endpoints n stored db db' :
  endpoints db' = endpoints db → stamped n stored db → stamped n stored db'.
Proof. unfold stamped. by intros ->. Qed.

Lemma stamped_insert n m stored row db :
  (m = n → ∃ old, endpoints db !! n = Some old ∧ r_updated_at old < r_updated_at row) →
  stamped n stored db → stamped n stored (set_endpoints (<[m := row]> (endpoints db)) db).
Proof.
  intros Hm (old & Hold & Hst). unfold stamped. cbn [set_endpoints endpoints].
  destruct (decide (m = n)) as [->|Hne].
  - destruct (Hm eq_refl) as (old' & Hold' & Hlt). simplify_eq.
    exists row. split; [by apply lookup_insert_eq|]. right. destruct Hst as [->|]; lia.
  - exists old. split; [|done]. by rewrite lookup_insert_ne.
Qed.

Lemma exec_stamped n stored {R} (op : Op R) db env :
  spares n op → stamped n stored db → stamped n stored (exec op db env).2.
Proof.
  intros Hsp Hst. destruct op as [d|m d seen|m|m|m|m|m|h p]; cbn [Table.exec]; try exact Hst.
  - unfold insert_endpoint. destruct (fault env); [done|].
    destruct (jsonb _); [|done]. destruct (violated _); [done|].
    destruct (endpoints db !! d_name d) eqn:Hd; [done|]. cbn [snd].
    apply stamped_insert; [|done]. intros <-. destruct Hst as (? & ? & _). congruence.
  - unfold update_statement. destruct (fault env); [done|].
    destruct (jsonb _) as [h|]; [|done]. destruct (endpoints db !! m) as [old|] eqn:Hm; [|done].
    destruct (r_updated_at old =? seen); [|done]. destruct (violated _); [done|]. cbn [snd].
    apply stamped_insert; [|done]. intros <-. exists old. split; [done|]. cbn. lia.
  - unfold delete_endpoint. destruct (fault env); [done|].
    destruct (endpoints db !! m) eqn:Hm; [|done]. destruct (_ || _); [done|].
    destruct Hst as (row & Hrow & Hst). exists row. cbn [snd set_endpoints endpoints].
    by rewrite lookup_delete_ne.
  - unfold file_account. destruct (fault env); [done|]. by apply (stamped_endpoints _ _ db).
  - unfold file_model. destruct (fault env); [done|]. by apply (stamped_endpoints _ _ db).
Qed.

Lemma steps_stamped n stored db db' :
  (∀ R (op : Op R), others R op → spares n op) →
  rtc step db db' → stamped n stored db → stamped n stored db'.
Proof.
  intros Hsp. induction 1 as [|x y z [R op env r x' y' Ho He] _ IH]; [done|].
  intros Hst. apply IH. pose proof (exec_stamped n stored op x' env (Hsp _ _ Ho) Hst) as H.
  by rewrite He in H.
Qed.

(** A stamp read is the row read. *)
Lemma stamped_same n stored db row :
  stamped n stored db → endpoints db !! n = Some row → r_updated_at row = r_updated_at stored →
  row = stored.
Proof. intros (row' & Hr & [->|Hlt]) Hrow He; simplify_eq; [done|lia]. Qed.

(** What a change that succeeds went through. *)
Lemma change_inv stored d keys db row db' :
  run (change debug_duration stored d keys) db (Ok row) db' →
  ∃ d' p dbw env, checked debug_duration d = Ok (d', p)
  ∧ same_endpoint d stored = true
  ∧ rtc step db dbw
  ∧ (exec (UpdateEndpoint (r_name stored) d' (r_updated_at stored)) dbw env).1 = Ok (Some row)
  ∧ rtc step (exec (UpdateEndpoint (r_name stored) d' (r_updated_at stored)) dbw env).2 db'
  ∧ (moves_base_url debug_duration stored (d_base_url d') = true →
     (∀ url, d_base_url d' = Some url → ∃ u, Egress.validated debug_duration url p = Ok u)
     ∧ (keys = KRefused →
        ∃ dbc, rtc step db dbc ∧ count (r_name stored) (accounts dbc) ≤ 0 ∧ rtc step dbc dbw)).
Proof.
  unfold change. destruct (same_endpoint d stored); cbn [negb]; [|by intros [? _]%run_inv].
  destruct (checked debug_duration d) as [[d' p]|]; [|by intros [? _]%run_inv].
  destruct (moves_base_url debug_duration stored (d_base_url d')) eqn:Hm.
  2: { intros (dbw & env & ? & ? & ?)%update_inv. exists d', p, dbw, env.
       split_and!; [done..|]. congruence. }
  case_bool_decide as Hk.
  - intros (dbc & env & dbc' & Hs & <- & Hr)%run_inv. cbn [Table.exec fst snd] in Hr.
    destruct (fault env); [by apply run_inv in Hr as [? _]|].
    destruct (Z.ltb_spec 0 (count (r_name stored) (accounts dbc))) as [|Hc];
      [by apply run_inv in Hr as [? _]|].
    apply resolves_inv in Hr as (db1 & Hs1 & (dbw & envw & Hs2 & Hw & Hend)%update_inv & Hv).
    exists d', p, dbw, envw. split_and!; [done..| |done|done|].
    + etrans; [exact Hs|]. by etrans.
    + intros _. split; [done|]. intros _. exists dbc. split_and!; [done..|]. by etrans.
  - intros (db1 & Hs1 & (dbw & envw & Hs2 & Hw & Hend)%update_inv & Hv)%resolves_inv.
    exists d', p, dbw, envw. split_and!; [done..| |done|done|]; [by etrans|].
    intros _. by split.
Qed.

(** *** Refused, nothing is written *)

Lemma resolves_any d p k db a db' :
  run (resolves debug_duration d p k) db a db' →
  (∃ db1, rtc step db db1 ∧ run k db1 a db')
  ∨ (∃ m, a = Err (Invalid m)) ∧ rtc step db db'.
Proof.
  unfold resolves. destruct (d_base_url d) as [url|]; [|by left; exists db].
  destruct (Egress.validated debug_duration url p) as [u|m].
  2: { intros [-> ?]%run_inv. right. eauto. }
  destruct (Egress.question u) as [[host port]|[[]|m]].
  - intros (db1 & env & db2 & Hs & <- & Hr)%run_inv. cbn in Hr.
    destruct (Egress.answered host (dns env)) as [|m]; [by left; exists db1|].
    apply run_inv in Hr as [-> Hr]. right. split; [eauto|]. by etrans.
  - by left; exists db.
  - intros [-> ?]%run_inv. right. eauto.
Qed.

Lemma update_statement_same n d seen db env :
  (∀ row, (exec (UpdateEndpoint n d seen) db env).1 ≠ Ok (Some row)) →
  (exec (UpdateEndpoint n d seen) db env).2 = db.
Proof.
  cbn [Table.exec]. unfold update_statement. intros Hn. repeat case_match; try done.
  exfalso. by eapply Hn.
Qed.

(** The [UPDATE] matches no row only when the row is gone or has another
    stamp. *)
Lemma update_statement_None n d seen db env :
  (exec (UpdateEndpoint n d seen) db env).1 = Ok None →
  ∀ row, endpoints db !! n = Some row → r_updated_at row ≠ seen.
Proof.
  cbn [Table.exec]. unfold update_statement. intros Hn row Hr Hs.
  destruct (fault env); [done|]. destruct (jsonb _); [|done]. rewrite Hr in Hn.
  rewrite Hs, Z.eqb_refl in Hn. by destruct (violated _).
Qed.

Lemma update_err n d seen db e db' :
  run (update_endpoint n d seen) db (Err e) db' →
  rtc step db db'
  ∧ (e = Changed → ∃ dbw env, rtc step db dbw
       ∧ (exec (UpdateEndpoint n d seen) dbw env).1 = Ok None).
Proof.
  unfold update_endpoint. intros (dbw & env & dbw' & Hs & <- & Hr)%run_inv.
  pose proof (update_statement_same n d seen dbw env) as Hsame.
  destruct (exec (UpdateEndpoint n d seen) dbw env).1 as [[row'|]|e'] eqn:He.
  - apply run_inv in Hr as [? _]. done.
  - rewrite Hsame in Hr by done. apply run_inv in Hr as (db2 & env' & db3 & Hs2 & <- & Hr).
    apply run_inv in Hr as [_ Hr]. cbn in Hr. split; [etrans; [done|by etrans]|].
    intros _. by exists dbw, env.
  - rewrite Hsame in Hr by done. apply run_inv in Hr as [[= ->] Hr]. split; [by etrans|].
    unfold write_error. intros Hc. repeat case_match; done.
Qed.

Lemma change_err stored d keys db e db' :
  run (change debug_duration stored d keys) db (Err e) db' →
  rtc step db db'
  ∧ (e = Changed → ∃ d' dbw env, rtc step db dbw
       ∧ (exec (UpdateEndpoint (r_name stored) d' (r_updated_at stored)) dbw env).1 = Ok None).
Proof.
  assert (∀ m db1 db2, rtc step db1 db2 → Err e = @Err EndpointRow _ (Invalid m) →
    rtc step db1 db2 ∧ (e = Changed → ∃ d' dbw env, rtc step db1 dbw
      ∧ (exec (UpdateEndpoint (r_name stored) d' (r_updated_at stored)) dbw env).1 = Ok None)) as Hinv.
  { intros m db1 db2 Hr [= ->]. by split. }
  assert (∀ d' p db1, rtc step db db1 →
    run (resolves debug_duration d' p (update_endpoint (r_name stored) d' (r_updated_at stored))) db1
      (Err e) db' → rtc step db db' ∧ (e = Changed → ∃ d' dbw env, rtc step db dbw
      ∧ (exec (UpdateEndpoint (r_name stored) d' (r_updated_at stored)) dbw env).1 = Ok None)) as Hres.
  { intros d' p db1 Hs [(db2 & Hs2 & [Hr Hc]%update_err)|[[m [= ->]] Hr]]%resolves_any.
    - split; [etrans; [done|by etrans]|]. intros Hch. destruct (Hc Hch) as (dbw & env & Hw & ?).
      exists d', dbw, env. split; [etrans; [done|by etrans]|done].
    - split; [by etrans|done]. }
  unfold change. destruct (same_endpoint d stored); cbn [negb]; [|intros [? ?]%run_inv; eauto].
  destruct (checked debug_duration d) as [[d' p]|]; [|intros [? ?]%run_inv; eauto].
  destruct (moves_base_url _ _ _).
  - case_bool_decide; [|by apply Hres].
    intros (dbc & env & dbc' & Hs & <- & Hr)%run_inv. cbn [Table.exec fst snd] in Hr.
    destruct (fault env); [apply run_inv in Hr as [[= ->] ?]; split; [by etrans|done]|].
    destruct (0 <? _); [apply run_inv in Hr as [[= ->] ?]; split; [by etrans|done]|].
    by eapply Hres.
  - intros [Hr Hc]%update_err. split; [done|]. intros Hch.
    destruct (Hc Hch) as (dbw & env & ? & ?). by exists d', dbw, env.
Qed.

End writers.
End Writers.

(** ** What a writer stores *)

Module Stored.

Import Reload Table.

(** How [jsonb] keeps an object of strings: its fields in an order of its own,
    and no value but the one that was there. *)
Definition keeps_strings (jsonb : Json → option Json) : Prop :=
  ∀ fs j, jsonb (JObject fs) = Some j →
    (∀ f, In f fs → ∃ s, f.2 = JString s) →
    ∃ fs', j = JObject fs' ∧ ∀ f, In f fs' → In f fs.

Section stored.
Context `{U : UrlCrate} `{D : DebugStr} `{HC : HeaderCrate} (debug_duration : Z → string).
Context (SYSTEM_ONE_PATH : string) (jsonb : Json → option Json).

(** *** Headers *)

Lemma string_pairs_Ok fs ps :
  Rules.string_pairs fs = Ok ps ↔ fs = map (fun x : string * string => (x.1, JString x.2)) ps.
Proof.
  revert ps; induction fs as [|[n v] fs IH]; intros ps; cbn [Rules.string_pairs].
  { split; [by intros [= <-]|]. by destruct ps. }
  destruct v as [| | |s| |].
  4: { split.
    - intros (rest & Hr%IH & [= <-])%result_bind_Ok. by rewrite Hr.
    - destruct ps as [|[n' s'] ps]; [done|]. cbn. intros [= -> -> Hfs].
      apply IH in Hfs. by rewrite Hfs. }
  all: split; [done|]; destruct ps as [|[n' s'] ps]; [done|]; by intros [=].
Qed.

Definition header_ok (p : Platform) (x : string * string) : Prop :=
  ∃ name v, header_name x.1 = Some name ∧ Custom.refused name = false
  ∧ bool_decide (p = Aws) && Str.starts_with name "x-amz-" = false ∧ header_value x.2 = Some v.

Lemma parse_Ok ps p : (∃ hs, Custom.parse ps p = Ok hs) ↔ ∀ x, In x ps → header_ok p x.
Proof.
  induction ps as [|[n v] ps IH]; cbn [Custom.parse].
  { split; [done|by eexists]. }
  split.
  - intros (hs & H). destruct (header_name n) as [name|] eqn:Hn; [|done].
    destruct (Custom.refused name) eqn:Hr; [done|]. destruct (_ && _) eqn:Ha; [done|].
    destruct (header_value v) as [v'|] eqn:Hv; [|done].
    apply result_bind_Ok in H as (rest & Hrest & _).
    intros x [<-|Hx]; [by exists name, v'|]. apply IH; eauto.
  - intros Hall. destruct (Hall (n, v)) as (name & v' & Hn & Hr & Ha & Hv); [by left|].
    cbn in Hn, Hv. rewrite Hn, Hr, Ha, Hv.
    destruct (proj2 IH) as [rest ->]; [intros x Hx; apply Hall; by right|]. by eexists.
Qed.

(** Headers that pass still pass as [jsonb] gives them back. *)
Lemma headers_stored h j ps p :
  keeps_strings jsonb → jsonb h = Some j → Rules.header_pairs h = Ok ps →
  (∃ hs, Custom.parse ps p = Ok hs) →
  ∃ ps' hs, Rules.header_pairs j = Ok ps' ∧ Custom.parse ps' p = Ok hs.
Proof.
  intros Hj Hh Hps Hparse. destruct h as [| | | | |fs]; try done. cbn in Hps.
  apply string_pairs_Ok in Hps as ->.
  destruct (Hj _ _ Hh) as (fs' & -> & Hsub).
  { intros f (x & <- & _)%in_map_iff. by eexists. }
  assert (∃ ps', fs' = map (fun x : string * string => (x.1, JString x.2)) ps'
          ∧ ∀ x, In x ps' → In x ps) as (ps' & -> & Hin).
  { clear Hh. induction fs' as [|f fs' IH]; [by exists []|].
    destruct IH as (ps' & -> & Hin); [intros g Hg; apply Hsub; by right|].
    destruct (proj1 (in_map_iff _ _ _) (Hsub f (or_introl eq_refl))) as (x & <- & Hx).
    exists (x :: ps'). split; [done|]. intros y [<-|Hy]; auto. }
  rewrite parse_Ok in Hparse.
  destruct (proj2 (parse_Ok ps' p)) as [hs Hhs]; [auto|].
  exists ps', hs. split; [|done]. by apply string_pairs_Ok.
Qed.

(** *** Columns *)

Lemma checked_Ok d d' p :
  checked debug_duration d = Ok (d', p) →
  ∃ shown k hs, d' = blanked d shown (Rules.k_base_url k) ∧ p = Rules.k_platform k
  ∧ Rows.passes debug_duration (draft_columns (blanked d shown (present (d_base_url d)))) k
  ∧ Custom.parse (Rules.k_extra_headers k) p = Ok hs.
Proof.
  unfold checked. intros (shown & _ & H)%result_bind_Ok.
  destruct (Rules.from_columns _ _) as [k|] eqn:Hk; [|done].
  apply result_bind_Ok in H as ([] & Hc & [= <- <-]).
  unfold Custom.check_extra_headers in Hc. apply result_bind_Ok in Hc as (hs & Hhs & _).
  exists shown, k, hs. split_and!; try done. { by apply Rows.from_columns_Ok. }
  unfold Custom.named in Hhs. destruct (Custom.parse _ _); [|done]. by injection Hhs as ->.
Qed.

(** A row with a checked draft's columns passes again, when its base URL
    reads as itself. *)
Lemma stored_passes `{!UrlLaws} d d' p row :
  checked debug_duration d = Ok (d', p) →
  keeps_strings jsonb → jsonb (d_extra_headers d') = Some (r_extra_headers row) →
  (∀ s, d_base_url d' = Some s → Rules.endpoint_base_url debug_duration s p = Ok s) →
  r_name row = d_name d' → r_dialect row = d_dialect d' → r_platform row = d_platform d' →
  r_base_url row = d_base_url d' → r_auth row = d_auth d' → r_region row = d_region d' →
  r_project row = d_project d' → r_api_version row = d_api_version d' →
  r_path row = d_path d' →
  ∃ e s, Reload.endpoint_upstream debug_duration SYSTEM_ONE_PATH row = Ok (e, s)
         ∧ ep_name e = d_name d' ∧ ep_platform e = p.
Proof.
  intros (shown & k & hs & -> & -> & Hp & Hhs)%checked_Ok Hj Hjh Hb En Ed Ep Eb Ea Er Epr Ev Epa.
  destruct (headers_stored _ _ (Rules.k_extra_headers k) (Rules.k_platform k) Hj Hjh)
    as (ps' & hs' & Hps' & Hhs'); [apply Hp|by eexists|].
  set (k' := {| Rules.k_dialect := Rules.k_dialect k; Rules.k_platform := Rules.k_platform k;
    Rules.k_base_url := Rules.k_base_url k; Rules.k_auth := Rules.k_auth k;
    Rules.k_region := Rules.k_region k; Rules.k_project := Rules.k_project k;
    Rules.k_api_version := Rules.k_api_version k; Rules.k_path := Rules.k_path k;
    Rules.k_extra_headers := ps' |}).
  assert (Rows.passes debug_duration (Reload.columns row) k') as Hk'.
  { destruct Hp. cbn in *. constructor; cbn; rewrite ?En, ?Ed, ?Ep, ?Ea, ?Er, ?Epr, ?Ev, ?Epa; try done.
    rewrite Eb. unfold Rules.checked_base_url in *. destruct (Rules.k_base_url k) as [s|].
    - by rewrite (Hb s eq_refl).
    - destruct (present (d_base_url d)); [|by destruct (Rules.regional _)].
      by apply result_bind_Ok in passes_base_url as (? & _ & ?). }
  destruct (Rows.passes_served debug_duration SYSTEM_ONE_PATH row k' hs' Hk' Hhs')
    as (e & s & He & _ & Hn & _ & Hpl).
  exists e, s. by rewrite Hn, En, Hpl.
Qed.

(** What [validate_endpoint_base_url] accepts is stored as it is read. *)
Lemma validated_same `{!UrlLaws} raw s p u :
  Rules.endpoint_base_url debug_duration raw p = Ok s →
  Egress.validated debug_duration s p = Ok u →
  Rules.endpoint_base_url debug_duration s p = Ok s.
Proof.
  intros Hs. pose proof (Urls.stored_again debug_duration raw p s Hs) as Ha.
  unfold Egress.validated. rewrite Ha. by destruct (2048 <? Str.len s).
Qed.

Lemma short_same `{!UrlLaws} raw s p :
  Rules.endpoint_base_url debug_duration raw p = Ok s → Str.len s ≤ 2048 →
  Rules.endpoint_base_url debug_duration s p = Ok s.
Proof.
  intros Hs Hl. rewrite (Urls.stored_again debug_duration raw p s Hs).
  by rewrite (proj2 (Z.ltb_ge _ _)).
Qed.

(** A checked draft's base URL is the rules' spelling of some text. *)
Lemma checked_base d d' p s :
  checked debug_duration d = Ok (d', p) → d_base_url d' = Some s →
  ∃ raw, Rules.endpoint_base_url debug_duration raw p = Ok s.
Proof.
  intros (shown & k & hs & -> & -> & Hp & _)%checked_Ok Hs. cbn in Hs.
  pose proof (Rows.checked_base_url_Ok debug_duration _ _ _ (Rows.passes_base_url _ _ _ Hp)) as Hb.
  rewrite Hs in Hb. destruct Hb as (_ & raw & _ & ?). by exists raw.
Qed.

End stored.
End Stored.

(** ** The schema's CHECKs behind the rules *)

Module Checks.

Import Reload Table.

Lemma platform_from_str_Ok s p : platform_from_str s = Ok p → s = platform_as_str p.
Proof.
  unfold platform_from_str. intros H.
  repeat (case_match; [simplify_eq; by apply Str.str_eqb_eq|]). done.
Qed.

Lemma auth_from_str_Ok s a : auth_from_str s = Ok a → s = auth_as_str a.
Proof.
  unfold auth_from_str. intros H.
  repeat (case_match; [simplify_eq; by apply Str.str_eqb_eq|]). done.
Qed.

Lemma from_endpoint_column_Ok s d : from_endpoint_column s = Ok d → endpoint_column d = Some s.
Proof.
  unfold from_endpoint_column. intros H.
  repeat (case_match; [simplify_eq; cbn; f_equal; symmetry; by apply Str.str_eqb_eq|]). done.
Qed.

Lemma validate_name_sql n : Prov.validate_name n = Ok () → sql_name n = true.
Proof.
  unfold Prov.validate_name, sql_name. case_match eqn:E; [done|]. intros _.
  apply negb_false_iff, andb_true_iff in E as [Hl Hb]. unfold Prov.MAX_NAME in Hl.
  rewrite Hl. destruct (Str.bytes n) as [|b rest]; [done|]. cbn [andb] in *.
  apply andb_true_iff in Hb as [-> Hb]. cbn [andb]. rewrite all_true in *.
  intros c Hc. specialize (Hb c Hc). cbn in Hb. by rewrite <-!orb_assoc in *.
Qed.

Lemma is_path_sql s : Rules.is_path s = true → sql_path s = true.
Proof.
  unfold Rules.is_path, sql_path. destruct (Str.strip_prefix s "/"); [|done].
  by intros [H _]%andb_true_iff.
Qed.

Lemma base_url_sql `{U : UrlCrate} `{!UrlLaws} debug_duration raw p s :
  Rules.endpoint_base_url debug_duration raw p = Ok s → sql_base_url s = true.
Proof.
  intros (_ & _ & Hq & _ & u & Hu & Ha & ->)%Urls.endpoint_base_url_Ok.
  destruct (Urls.acceptable_bare u p Ha) as [Hb Hh].
  destruct (url_written _ u Hu Hq Hb Hh) as [hs Hw].
  destruct (Urls.written_sound u hs p Hw Ha) as (_ & _ & Hq' & _).
  unfold sql_base_url. rewrite Hq', andb_true_r, (proj2 (Urls.stored_text_spec u p hs Hw Ha)).
  unfold bare in Hb. apply andb_true_iff in Hb as [[Hs _]%andb_true_iff _].
  apply orb_true_iff in Hs as [Hs|Hs]; apply Str.str_eqb_eq in Hs; rewrite Hs;
    rewrite Str.append_assoc; apply orb_true_iff.
  - left. apply Str.starts_with_app. by eexists.
  - right. apply Str.starts_with_app. by eexists.
Qed.

Lemma violated_None r : violated r = None ↔ ∀ c, In c (sql_checks r) → c.2 = true.
Proof.
  unfold violated. rewrite fmap_None, find_None. split.
  - intros H c Hc. by apply negb_false_iff, H.
  - intros H c Hc. by rewrite (H c Hc).
Qed.

Section checks.
Context `{U : UrlCrate} `{D : DebugStr} `{HC : HeaderCrate} (debug_duration : Z → string).
Context (jsonb : Json → option Json).

(** No row of a checked draft fails a CHECK. *)
Lemma checked_not_violated `{!UrlLaws} d d' p row :
  checked debug_duration d = Ok (d', p) →
  Stored.keeps_strings jsonb → jsonb (d_extra_headers d') = Some (r_extra_headers row) →
  r_name row = d_name d' → r_dialect row = d_dialect d' → r_platform row = d_platform d' →
  r_base_url row = d_base_url d' → r_auth row = d_auth d' → r_region row = d_region d' →
  r_project row = d_project d' → r_path row = d_path d' →
  violated row = None.
Proof.
  intros Hc Hj Hjh En Ed Ep Eb Ea Er Epr Epa.
  pose proof (Stored.checked_base debug_duration d d' p) as Hbase.
  destruct (Stored.checked_Ok _ _ _ _ Hc) as (shown & k & hs & -> & -> & Hp & Hhs).
  destruct (Stored.headers_stored jsonb _ _ _ (Rules.k_platform k) Hj Hjh (Rows.passes_headers _ _ _ Hp)
    (ex_intro _ hs Hhs)) as (ps' & _ & Hps' & _).
  pose proof (Rows.checked_base_url_Ok debug_duration _ _ _ (Rows.passes_base_url _ _ _ Hp)) as Hb.
  destruct (Rows.location_Ok _ _ _ _ _ (Rows.passes_region _ _ _ Hp)) as [Hr Hr'].
  destruct (Rows.location_Ok _ _ _ _ _ (Rows.passes_project _ _ _ Hp)) as [Hpr Hpr'].
  destruct (Rows.path_Ok _ _ _ _ (Rows.passes_path _ _ _ Hp)) as [Hpa Hpa'].
  cbn in Ed, Ep, Eb, Ea, Er, Epr, Epa, En, Hr, Hpr, Hpa.
  pose proof (platform_from_str_Ok _ _ (Rows.passes_platform _ _ _ Hp)) as Hpl. cbn in Hpl.
  pose proof (auth_from_str_Ok _ _ (Rows.passes_auth _ _ _ Hp)) as Hau. cbn in Hau.
  pose proof (from_endpoint_column_Ok _ _ (Rows.passes_dialect _ _ _ Hp)) as Hdi. cbn in Hdi.
  pose proof (validate_name_sql _ (Rows.passes_name _ _ _ Hp)) as Hn. cbn in Hn.
  pose proof (Rows.passes_speaks _ _ _ Hp) as Hsp.
  assert (∀ s, Rules.k_path k = Some s → d_dialect d = "system_one" ∧ sql_path s = true) as Hpath.
  { intros s Hs. destruct (Hpa' s Hs) as [Hso Hip]. rewrite Hso in Hdi. cbn in Hdi.
    split; [congruence|]. by apply is_path_sql. }
  apply violated_None. unfold sql_checks.
  rewrite En, Ed, Ep, Eb, Ea, Er, Epr, Epa, Hpl, Hau, <-Hr, <-Hpr, <-Hpa.
  intros c Hin. cbn [In] in Hin.
  destruct Hin as [<-|[<-|[<-|[<-|[<-|[<-|[<-|[<-|[<-|[<-|[<-|[]]]]]]]]]]]]; cbn [snd].
  - by destruct (Rules.k_auth k).
  - destruct (Rules.k_base_url k) as [s|] eqn:Hs.
    + destruct (Hbase s Hc eq_refl) as [raw Hraw]. by eapply base_url_sql.
    + destruct Hb as [_ Hb]. by destruct (Rules.k_platform k).
  - destruct (Rules.k_dialect k); cbn in Hdi; try done; by injection Hdi as <-.
  - by destruct (r_extra_headers row).
  - done.
  - destruct (Rules.k_path k) as [s|]; [|done]. by apply Hpath.
  - destruct (Rules.k_path k) as [s|]; [|done]. destruct (Hpath s eq_refl) as [-> _]. done.
  - by destruct (Rules.k_platform k).
  - destruct (Rules.k_dialect k); cbn in Hdi; try done; injection Hdi as <-;
      by destruct (Rules.k_platform k).
  - destruct (Rules.k_platform k); try done. by destruct (Rules.k_project k).
  - destruct (Rules.k_platform k); try done; by destruct (Rules.k_region k).
Qed.

End checks.
End Checks.

(** ** What the writers promise *)

Module EndpointTable.

Import Reload Table Writers Stored.

Section theorems.
Context `{U : UrlCrate} `{D : DebugStr} `{HC : HeaderCrate} (debug_duration : Z → string).
Context (SYSTEM_ONE_PATH : string) (jsonb : Json → option Json) (others : ∀ R, Op R → Prop).
#[local] Abbreviation step := (Table.step jsonb others).
#[local] Abbreviation run := (Table.run jsonb others).

Lemma register_inv d db row db' :
  run (register debug_duration d) db (Ok row) db' →
  ∃ d' p headers at_, checked debug_duration d = Ok (d', p)
  ∧ (∀ url, d_base_url d' = Some url → ∃ u, Egress.validated debug_duration url p = Ok u)
  ∧ jsonb (d_extra_headers d') = Some headers ∧ row = inserted d' headers at_.
Proof.
  unfold register. destruct (checked debug_duration d) as [[d' p]|]; [|by intros [? _]%run_inv].
  intros (db1 & Hs & (db2 & env & db3 & Hs2 & <- & [Hr _]%run_inv)%run_inv & Hv)%resolves_inv.
  cbn [exec] in Hr. unfold insert_endpoint in Hr. destruct (fault env); [done|].
  destruct (jsonb (d_extra_headers d')) as [h|] eqn:Hj; [|done].
  destruct (violated _); [done|]. destruct (endpoints db2 !! d_name d'); [done|].
  cbn [fst] in Hr. injection Hr as ->. by exists d', p, h, (now env).
Qed.

(** The row an [UPDATE] writes over the one read has the draft's columns. *)
Lemma same_endpoint_checked d d' p stored :
  same_endpoint d stored = true → checked debug_duration d = Ok (d', p) →
  d_name d' = r_name stored ∧ d_dialect d' = r_dialect stored ∧ d_platform d' = r_platform stored.
Proof.
  unfold same_endpoint. intros Hs (shown & k & hs & -> & _)%checked_Ok. cbn.
  repeat (apply andb_true_iff in Hs as [Hs ?]).
  repeat match goal with H : Str.eqb _ _ = true |- _ => apply Str.str_eqb_eq in H end. done.
Qed.

(** A change that returns its row wrote it over the row read, whoever else
    was writing. *)
Lemma change_written stored d keys db row db' :
  (∀ R (op : Op R), others R op → spares (r_name stored) op) →
  endpoints db !! r_name stored = Some stored →
  run (change debug_duration stored d keys) db (Ok row) db' →
  ∃ d' p dbw headers at_, checked debug_duration d = Ok (d', p) ∧ rtc step db dbw
  ∧ endpoints dbw !! r_name stored = Some stored
  ∧ jsonb (d_extra_headers d') = Some headers ∧ row = updated stored d' headers at_
  ∧ same_endpoint d stored = true
  ∧ rtc step (set_endpoints (<[r_name stored := row]> (endpoints dbw)) dbw) db'.
Proof.
  intros Hsp Hdb (d' & p & dbw & env & Hc & Hsame & Hs & Hw & Hend & _)%change_inv.
  apply update_statement_Ok in Hw as (old & h & Hold & Hst & Hj & -> & Hw).
  assert (old = stored) as ->.
  { eapply stamped_same; [|exact Hold|exact Hst]. eapply steps_stamped; [exact Hsp|exact Hs|].
    exists stored. by split; [|left]. }
  rewrite Hw in Hend. by exists d', p, dbw, h, (now env).
Qed.

(** A change is written over the row it was made from or not at all, in
    every interleaving with other requests that do not remove the endpoint.
    If it returns a row, the table held [stored] at that instant, so no other
    write is undone, and the row is the draft's settings under a later stamp.
    If it answers that the row changed, another write did come between; and
    whatever it answers but a row, it wrote nothing. *)
Theorem change_is_all_or_nothing stored d keys db outcome db' :
  (∀ R (op : Op R), others R op → spares (r_name stored) op) →
  endpoints db !! r_name stored = Some stored →
  run (change debug_duration stored d keys) db outcome db' →
  match outcome with
  | Ok row =>
      ∃ d' p dbw headers at_, checked debug_duration d = Ok (d', p)
      ∧ rtc step db dbw ∧ endpoints dbw !! r_name stored = Some stored
      ∧ row = updated stored d' headers at_ ∧ r_updated_at stored < r_updated_at row
      ∧ rtc step (set_endpoints (<[r_name stored := row]> (endpoints dbw)) dbw) db'
  | Err Changed =>
      rtc step db db' ∧ ∃ dbw row', rtc step db dbw ∧ endpoints dbw !! r_name stored = Some row'
                                   ∧ r_updated_at stored < r_updated_at row'
  | Err _ => rtc step db db'
  end.
Proof.
  intros Hsp Hdb. destruct outcome as [row|e].
  - intros (d' & p & dbw & h & at_ & Hc & Hs & Hold & _ & -> & _ & Hend)%change_written; try done.
    exists d', p, dbw, h, at_. split_and!; try done. cbn. lia.
  - intros [Hr Hch]%change_err. destruct e; try done. split; [done|].
    destruct (Hch eq_refl) as (d' & dbw & env & Hs & Hn).
    assert (stamped (r_name stored) stored dbw) as (row' & Hrow & Hst).
    { eapply steps_stamped; [exact Hsp|exact Hs|]. exists stored. by split; [|left]. }
    exists dbw, row'. split_and!; [done..|].
    pose proof (update_statement_None jsonb _ _ _ _ _ Hn row' Hrow). destruct Hst as [->|]; done.
Qed.

(** How an endpoint row comes to be written. *)
Inductive writes : EndpointRow → Prop :=
  | writes_register d db row db' :
      run (register debug_duration d) db (Ok row) db' → writes row
  | writes_change stored d keys db row db' :
      (∀ R (op : Op R), others R op → spares (r_name stored) op) →
      endpoints db !! r_name stored = Some stored →
      run (change debug_duration stored d keys) db (Ok row) db' →
      (∀ s, r_base_url row = Some s → Str.len s ≤ 2048) →
      writes row.

(** C22. A row either writer stores is one the next reload serves, under its
    own name, whatever order [jsonb] keeps its headers in: registered, always;
    changed, when its base URL is no longer than the rules read. *)
Theorem written_rows_are_served `{!UrlLaws} row :
  keeps_strings jsonb → writes row →
  ∃ e s, Reload.endpoint_upstream debug_duration SYSTEM_ONE_PATH row = Ok (e, s)
         ∧ ep_name e = r_name row.
Proof.
  intros Hj [d db row' db' Hr|stored d keys db row' db' Hsp Hdb Hr Hlen].
  - apply register_inv in Hr as (d' & p & h & at_ & Hc & Hv & Hh & ->).
    destruct (stored_passes debug_duration SYSTEM_ONE_PATH jsonb d d' p (inserted d' h at_))
      as (e & s & He & Hn & _); try done; [|by exists e, s].
    intros s Hs. destruct (checked_base debug_duration _ _ _ _ Hc Hs) as [raw Hraw].
    destruct (Hv s Hs) as [u Hu]. by eapply validated_same.
  - destruct (change_written _ _ _ _ _ _ Hsp Hdb Hr)
      as (d' & p & dbw & h & at_ & Hc & _ & _ & Hh & -> & Hsame & _).
    destruct (same_endpoint_checked _ _ _ _ Hsame Hc) as (En & Ed & Ep).
    destruct (stored_passes debug_duration SYSTEM_ONE_PATH jsonb d d' p (updated stored d' h at_))
      as (e & s & He & Hn & _); try done; [|exists e, s; by rewrite Hn, En].
    intros s Hs. destruct (checked_base debug_duration _ _ _ _ Hc Hs) as [raw Hraw].
    apply (short_same debug_duration raw); [exact Hraw|]. by apply Hlen.
Qed.

(** The schema refuses nothing the rules accept: a row of a draft that
    passes them fails no CHECK of the table, inserted or changed. *)
Theorem schema_agrees_with_rules `{!UrlLaws} d d' p headers at_ :
  keeps_strings jsonb →
  checked debug_duration d = Ok (d', p) → jsonb (d_extra_headers d') = Some headers →
  violated (inserted d' headers at_) = None
  ∧ ∀ stored, same_endpoint d stored = true → violated (updated stored d' headers at_) = None.
Proof.
  intros Hj Hc Hh. split; [|intros stored Hs].
  - by apply (Checks.checked_not_violated debug_duration jsonb d d' p).
  - destruct (same_endpoint_checked _ _ _ _ Hs Hc) as (En & Ed & Ep).
    apply (Checks.checked_not_violated debug_duration jsonb d d' p); by cbn.
Qed.

(** *** Keys *)

(** No credential is filed under [n]. *)
Definition files_elsewhere (n : string) {R} (op : Op R) : Prop :=
  match op with FileAccount m => m ≠ n | _ => True end.

Lemma exec_count n {R} (op : Op R) db env :
  files_elsewhere n op → count n (accounts (exec jsonb op db env).2) = count n (accounts db).
Proof.
  intros Hf. destruct op as [d|m d seen|m|m|m|m|m|h p]; cbn [exec]; try reflexivity.
  - unfold insert_endpoint. repeat case_match; reflexivity.
  - unfold update_statement. repeat case_match; reflexivity.
  - unfold delete_endpoint. repeat case_match; reflexivity.
  - unfold file_account. destruct (fault env); [reflexivity|]. unfold count. cbn.
    destruct (Str.eqb n m) eqn:E; [|reflexivity]. apply Str.str_eqb_eq in E as ->. done.
  - unfold file_model. by destruct (fault env).
Qed.

Lemma steps_count n db db' :
  (∀ R (op : Op R), others R op → files_elsewhere n op) →
  rtc step db db' → count n (accounts db') = count n (accounts db).
Proof.
  intros Hf. induction 1 as [|x y z [R op env r x' y' Ho He] _ IH]; [done|].
  rewrite IH. pose proof (exec_count n op x' env (Hf _ _ Ho)) as Hx. by rewrite He in Hx.
Qed.

(** Asked not to move keys, a change moves an endpoint's base URL only
    when no credential is filed under it -- so long as none is filed while it
    runs. *)
Theorem no_key_moves stored d db row db' :
  (∀ R (op : Op R), others R op → files_elsewhere (r_name stored) op) →
  run (change debug_duration stored d KRefused) db (Ok row) db' →
  moves_base_url debug_duration stored (r_base_url row) = true →
  count (r_name stored) (accounts db) = 0 ∧ count (r_name stored) (accounts db') = 0.
Proof.
  intros Hf (d' & p & dbw & env & Hc & Hsame & Hs & Hw & Hend & Hk)%change_inv Hm.
  apply update_statement_Ok in Hw as (old & h & Hold & Hst & Hj & -> & Hw).
  destruct (Hk Hm) as [_ Hkc]. destruct (Hkc eq_refl) as (dbc & Hs1 & Hcount & Hs2).
  rewrite Hw in Hend. apply (steps_count _ _ _ Hf) in Hs1, Hs2, Hend. cbn in Hend.
  assert (0 ≤ count (r_name stored) (accounts dbc)) by (unfold count; lia). lia.
Qed.

End theorems.

(** *** Witnesses *)

Definition as_is (j : Json) : option Json := Some j.

Lemma as_is_keeps : keeps_strings as_is.
Proof. intros fs j [= <-] _. by exists fs. Qed.

Definition nobody (R : Type) (_ : Op R) : Prop := False.

(** Others may file credentials. *)
Definition filing (R : Type) (op : Op R) : Prop :=
  match op with FileAccount _ => True | _ => False end.

Definition groq_draft : Draft := from_row Endpoints.groq.

Definition groq_row (at_ : Z) : EndpointRow := {|
  r_name := "groq"; r_dialect := "openai"; r_platform := "plain";
  r_base_url := Some "https://api.groq.com/openai/v1"; r_auth := "bearer";
  r_region := None; r_project := None; r_api_version := None; r_path := None;
  r_extra_headers := JObject [("HTTP-Referer", JString "me")]; r_display_name := None;
  r_discover_models := true; r_created_at := at_; r_updated_at := at_
|}.

Definition no_rows : Db := {| endpoints := ∅; accounts := []; models := [] |}.
Definition one_row : Db := {| endpoints := {[ "groq" := groq_row 7 ]}; accounts := []; models := [] |}.

Definition at_time (t : Z) : Env :=
  {| now := t; fault := None; dns := Egress.Resolved [V4 (Service.ipv4 104 18 0 1)] |}.

Lemma groq_registers :
  run as_is nobody (register Endpoints.no_debug groq_draft) no_rows (Ok (groq_row 7))
    {| endpoints := <["groq" := groq_row 7]> ∅; accounts := []; models := [] |}.
Proof.
  eapply (run_do _ _ _ _ _ (at_time 6)); [reflexivity|].
  eapply (run_do _ _ _ _ _ (at_time 7)); [vm_compute; reflexivity|]. apply run_ret.
Qed.

Lemma written_rows_are_served_witness :
  ∃ e s, Reload.endpoint_upstream Endpoints.no_debug "/v1/systemone" (groq_row 7) = Ok (e, s)
         ∧ ep_name e = "groq".
Proof.
  apply (written_rows_are_served Endpoints.no_debug "/v1/systemone" as_is nobody (groq_row 7)).
  - exact as_is_keeps.
  - eapply writes_register. exact groq_registers.
Defined.

(** The row under another base URL. *)
Definition moved_draft : Draft := {|
  d_name := "groq"; d_dialect := "openai"; d_platform := "plain";
  d_base_url := Some "https://elsewhere.example/v1"; d_auth := "bearer";
  d_region := None; d_project := None; d_api_version := None; d_path := None;
  d_extra_headers := JObject []; d_display_name := None; d_discover_models := true
|}.

Definition moved_row : EndpointRow := {|
  r_name := "groq"; r_dialect := "openai"; r_platform := "plain";
  r_base_url := Some "https://elsewhere.example/v1"; r_auth := "bearer";
  r_region := None; r_project := None; r_api_version := None; r_path := None;
  r_extra_headers := JObject []; r_display_name := None; r_discover_models := true;
  r_created_at := 7; r_updated_at := 9
|}.

Definition moved_db (accounts : list string) : Db :=
  {| endpoints := <["groq" := moved_row]> {[ "groq" := groq_row 7 ]}; accounts := accounts;
     models := [] |}.

Lemma groq_moves :
  run as_is nobody (change Endpoints.no_debug (groq_row 7) moved_draft KRefused) one_row
    (Ok moved_row) (moved_db []).
Proof.
  eapply (run_do _ _ _ _ _ (at_time 8)); [reflexivity|].
  eapply (run_do _ _ _ _ _ (at_time 8)); [reflexivity|].
  eapply (run_do _ _ _ _ _ (at_time 9)); [vm_compute; reflexivity|]. apply run_ret.
Qed.

Lemma change_is_all_or_nothing_witness :
  ∃ d' p dbw headers at_, checked Endpoints.no_debug moved_draft = Ok (d', p)
  ∧ rtc (step as_is nobody) one_row dbw ∧ endpoints dbw !! "groq" = Some (groq_row 7)
  ∧ moved_row = updated (groq_row 7) d' headers at_ ∧ 7 < 9
  ∧ rtc (step as_is nobody) (set_endpoints (<["groq" := moved_row]> (endpoints dbw)) dbw)
      (moved_db []).
Proof.
  apply (change_is_all_or_nothing Endpoints.no_debug as_is nobody (groq_row 7) moved_draft KRefused
           one_row (Ok moved_row) (moved_db [])).
  - done.
  - reflexivity.
  - exact groq_moves.
Defined.

Lemma no_key_moves_witness :
  count "groq" (accounts one_row) = 0 ∧ count "groq" (accounts (moved_db [])) = 0.
Proof.
  apply (no_key_moves Endpoints.no_debug as_is nobody (groq_row 7) moved_draft one_row moved_row).
  - done.
  - exact groq_moves.
  - vm_compute. reflexivity.
Defined.

Lemma schema_agrees_with_rules_witness :
  violated (inserted (from_row moved_row) (JObject []) 9) = None
  ∧ ∀ stored, same_endpoint moved_draft stored = true →
      violated (updated stored (from_row moved_row) (JObject []) 9) = None.
Proof.
  apply (schema_agrees_with_rules Endpoints.no_debug as_is moved_draft (from_row moved_row) Plain).
  - exact as_is_keeps.
  - vm_compute. reflexivity.
  - reflexivity.
Defined.

(** A credential filed between the count and the [UPDATE] moves with the URL:
    the count and the write are two statements, and nothing holds the answer
    of the first until the second. *)
Lemma keys_can_move :
  run as_is filing (change Endpoints.no_debug (groq_row 7) moved_draft KRefused) one_row
    (Ok moved_row) (moved_db ["groq"])
  ∧ moves_base_url Endpoints.no_debug (groq_row 7) (r_base_url moved_row) = true.
Proof.
  split; [|vm_compute; reflexivity].
  eapply (run_do _ _ _ _ _ (at_time 8)); [reflexivity|].
  eapply run_other; [by apply (step_other _ _ _ (FileAccount "groq") (at_time 8) (Ok ()) _
    {| endpoints := endpoints one_row; accounts := ["groq"]; models := [] |})|].
  eapply (run_do _ _ _ _ _ (at_time 8)); [reflexivity|].
  eapply (run_do _ _ _ _ _ (at_time 9)); [vm_compute; reflexivity|]. apply run_ret.
Qed.

End EndpointTable.
