(* ===== verification/Upstream.v ===== *)
(** * The requests an adapter sends

    Where each adapter of [oag-upstream] posts, with which headers and which
    body ([anthropic.rs], [openai.rs], [gemini.rs], [azure.rs], [bedrock.rs],
    [converse.rs], [vertex.rs], [jev.rs], [codex.rs]), and AWS's signature
    ([sigv4.rs]).  The bodies are the codecs'.

    The [url] and [http] packages are those of [Endpoints]; SHA-256 and HMAC
    are parameters, as is the printing of JSON. *)

From Stdlib Require Import Ascii.
From S2P Require Import Prelude Text.
From S2P Require Import Domain.
From S2P Require Import Canonical.
From S2P Require Import Wire.
From S2P Require Import Names.
From S2P Require Import Sticky.
From S2P Require Import Anthropic.
From S2P Require Import OpenAI.
From S2P Require Import Gemini.
From S2P Require Import Converse.
From S2P Require Import Responses.
From S2P Require Import Endpoints.
#[local] Open Scope string_scope.
#[local] Open Scope oag_scope.
#[local] Open Scope list_scope.
#[local] Open Scope Z_scope.

(** ** Path segments *)

Module Segment.

(** [{byte:02X}]. *)
Definition hex_upper (d : Z) : ascii := ascii_of_N (Z.to_N (if d <? 10 then 48 + d else 55 + d)).

Definition escape (b : ascii) : list ascii :=
  ["%"%char; hex_upper (Str.code b / 16); hex_upper (Str.code b mod 16)].

(** RFC 3986's unreserved bytes. *)
Definition unreserved (b : ascii) : bool :=
  Str.is_ascii_alphanumeric b || any (Ascii.eqb b) ["-"; "."; "_"; "~"]%char.

(** Every byte [keep] does not keep, escaped. *)
Definition encoded (keep : ascii → bool) (s : string) : string :=
  Str.of_bytes (mjoin (map (fun b => if keep b then [b] else escape b) (Str.bytes s))).

(** [azure.rs]: [path_segment]; [vertex.rs]: [segment]. *)
Definition path_segment (name : string) : string := encoded unreserved name.
Definition segment (value : string) : string := encoded unreserved value.

(** [bedrock.rs]: [model_segment]. *)
Definition model_segment (model_id : string) : string :=
  encoded (fun b => unreserved b || Ascii.eqb b ":") model_id.

(** [sigv4.rs]: [uri_encode_path]. *)
Definition uri_encode_path (path : string) : string :=
  encoded (fun b => unreserved b || Ascii.eqb b "/") path.

(** What a server makes of a segment (RFC 3986, 2.1). *)
Definition hex_value (c : ascii) : option Z :=
  if Str.is_ascii_digit c then Some (Str.code c - 48)
  else if Str.in_span 65 70 c then Some (Str.code c - 55)
  else if Str.in_span 97 102 c then Some (Str.code c - 87)
  else None.

Fixpoint decoded (l : list ascii) : list ascii :=
  match l with
  | [] => []
  | c :: l1 =>
      if Ascii.eqb c "%" then
        match l1 with
        | h :: l2 =>
            match l2 with
            | g :: l3 =>
                match hex_value h, hex_value g with
                | Some a, Some b => ascii_of_N (Z.to_N (a * 16 + b)) :: decoded l3
                | _, _ => c :: decoded l1
                end
            | [] => c :: decoded l1
            end
        | [] => [c]
        end
      else c :: decoded l1
  end.

Definition percent_decode (s : string) : string := Str.of_bytes (decoded (Str.bytes s)).

End Segment.

(** ** [sigv4.rs] *)

Module SigV4.

Record Credentials : Type := {
  access_key_id : string;
  secret_access_key : string;
  session_token : option string
}.

Record SignedHeaders : Type := {
  authorization : string;
  amz_date : string;
  content_sha256 : string;
  signed_token : option string
}.

Record SigningRequest : Type := {
  sr_method : string;
  sr_path : string;
  sr_host : string;
  sr_body : string
}.

(** [time::OffsetDateTime], in UTC, as far as the date goes on the wire. *)
Record Timestamp : Type := {
  year : Z; month : Z; day : Z; hour : Z; minute : Z; second : Z
}.

Definition NL : string := String (Ascii.ascii_of_nat 10) "".

(** [{:0width$}]. *)
Fixpoint zeros (n : nat) : string := match n with O => "" | S n => String "0" (zeros n) end.
Definition padded (width : nat) (n : Z) : string :=
  let s := Str.decimal n in zeros (width - String.length s) +:+ s.

Definition format_amz_date (t : Timestamp) : string :=
  padded 4 (year t) +:+ padded 2 (month t) +:+ padded 2 (day t) +:+ "T"
  +:+ padded 2 (hour t) +:+ padded 2 (minute t) +:+ padded 2 (second t) +:+ "Z".

(** [sort_by] of the names: stable insertion. *)
Fixpoint insert_header (h : string * string) (l : list (string * string)) : list (string * string) :=
  match l with
  | [] => [h]
  | x :: l => if String.ltb h.1 x.1 then h :: x :: l else x :: insert_header h l
  end.

Definition sort_headers (l : list (string * string)) : list (string * string) :=
  fold_left (fun acc h => insert_header h acc) l [].

Definition canonical_headers (headers : list (string * string)) : string :=
  fold_left (fun acc (h : string * string) => acc +:+ h.1 +:+ ":" +:+ Str.trim h.2 +:+ NL) headers "".

Definition canonical_request (method path : string) (headers : list (string * string))
    (payload_hash : string) : string :=
  method +:+ NL +:+ Segment.uri_encode_path path +:+ NL +:+ NL +:+ canonical_headers headers
  +:+ NL +:+ Str.join ";" (map fst headers) +:+ NL +:+ payload_hash.

Section sign.
Context (sha256 : list ascii → list ascii) (hmac : list ascii → list ascii → list ascii).

Definition digest (s : string) : string := Sticky.hex (sha256 (Str.bytes s)).

Definition scope (date_stamp region service : string) : string :=
  date_stamp +:+ "/" +:+ region +:+ "/" +:+ service +:+ "/aws4_request".

Definition string_to_sign (amz_date scope canonical : string) : string :=
  "AWS4-HMAC-SHA256" +:+ NL +:+ amz_date +:+ NL +:+ scope +:+ NL +:+ digest canonical.

Definition signing_key (secret date_stamp region service : string) : list ascii :=
  let k_date := hmac (Str.bytes ("AWS4" +:+ secret)) (Str.bytes date_stamp) in
  let k_region := hmac k_date (Str.bytes region) in
  let k_service := hmac k_region (Str.bytes service) in
  hmac k_service (Str.bytes "aws4_request").

Definition signature (secret date_stamp region service to_sign : string) : string :=
  Sticky.hex (hmac (signing_key secret date_stamp region service) (Str.bytes to_sign)).

(** The headers that are signed, sorted. *)
Definition signed_list (creds : Credentials) (host payload_hash amz_date : string)
  : list (string * string) :=
  sort_headers ([("host", host); ("x-amz-content-sha256", payload_hash); ("x-amz-date", amz_date)]
    ++ match session_token creds with Some token => [("x-amz-security-token", token)] | None => [] end).

Definition sign (creds : Credentials) (region service : string) (req : SigningRequest)
    (timestamp : Timestamp) : SignedHeaders :=
  let amz_date := format_amz_date timestamp in
  let date_stamp := Str.take 8 amz_date in
  let payload_hash := digest (sr_body req) in
  let headers := signed_list creds (sr_host req) payload_hash amz_date in
  let signed_headers := Str.join ";" (map fst headers) in
  let canonical := canonical_request (sr_method req) (sr_path req) headers payload_hash in
  let scope := scope date_stamp region service in
  let signature := signature (secret_access_key creds) date_stamp region service
    (string_to_sign amz_date scope canonical) in
  {| authorization := "AWS4-HMAC-SHA256 Credential=" +:+ access_key_id creds +:+ "/" +:+ scope
       +:+ ", SignedHeaders=" +:+ signed_headers +:+ ", Signature=" +:+ signature;
     amz_date := amz_date;
     content_sha256 := payload_hash;
     signed_token := session_token creds |}.

End sign.
End SigV4.

(** ** Requests *)

Inductive ReqBody : Type :=
  | BodyJson (body : Json)
  | BodyBytes (bytes : string).

(** [reqwest::Request]: the query is what [query] adds to the URL. *)
Record Request `{UrlCrate} : Type := {
  rq_method : string;
  rq_url : Url;
  rq_query : list (string * string);
  rq_headers : list (string * string);
  rq_body : ReqBody
}.

(** [UpstreamRequest]. *)
Record UpstreamRequest : Type := {
  up_canonical : CanonicalRequest;
  up_upstream_name : string;
  up_access_token : string
}.

Module Upstream.
Import Js Wire Custom.

Definition ANTHROPIC_API_VERSION : string := "2023-06-01".
Definition BEDROCK_ANTHROPIC_VERSION : string := "bedrock-2023-05-31".
Definition VERTEX_ANTHROPIC_VERSION : string := "vertex-2023-10-16".
Definition MAX_COMPLETION_TOKENS_SINCE : string := "2024-09-01".
Definition STREAM_OPTIONS_SINCE : string := "2024-09-01".

Section build.
Context `{U : UrlCrate} `{HC : HeaderCrate} `{D : DebugStr}.
Context (sha256 : list ascii → list ascii) (hmac : list ascii → list ascii → list ascii).
Context (to_string : Json → string).
(** [{}] of a [reqwest::Error], and [OffsetDateTime::now_utc]. *)
Context (reqwest_error : string) (now_utc : SigV4.Timestamp).

(** *** What [RequestBuilder] does *)

(** The values [.header(..)] was given, if every one can be a header's. *)
Fixpoint values (headers : list (string * string)) : option (list (string * string)) :=
  match headers with
  | [] => Some []
  | (name, value) :: headers =>
      match header_value value, values headers with
      | Some value, Some rest => Some ((name, value) :: rest)
      | _, _ => None
      end
  end.

(** [ExtraHeaders::apply]: each replaces every header of its name. *)
Definition apply (extra : ExtraHeaders) (headers : list (string * string)) : list (string * string) :=
  keep (fun h : string * string => negb (any (fun e : string * string => Str.eqb e.1 h.1) extra)) headers
  ++ extra.

Definition finish (what : string) (url : result Url string) (query headers : list (string * string))
    (extra : ExtraHeaders) (body : ReqBody) : result Request Error :=
  let failed := Err (Internal (what +:+ ": " +:+ reqwest_error)) in
  match url, values headers with
  | Ok url, Some headers =>
      Ok {| rq_method := "POST"; rq_url := url; rq_query := query;
            rq_headers := apply extra headers; rq_body := body |}
  | _, _ => failed
  end.

Definition content_type : string * string := ("content-type", "application/json").

Definition keyed (auth : AuthStyle) (secret : string) : list (string * string) :=
  match authenticate auth secret with Some h => [h] | None => [] end.

(** [body.as_object_mut()], then [f]. *)
Definition on_object (f : Fields → Fields) (body : Json) : Json :=
  match body with JObject fields => JObject (f fields) | other => other end.

(** *** [anthropic.rs], [openai.rs], [gemini.rs] *)

Definition anthropic_build (base_url : string) (auth : AuthStyle) (headers : ExtraHeaders)
    (req : UpstreamRequest) : result Request Error :=
  let? body := Anthropic.render_request (up_canonical req) (up_upstream_name req) in
  finish "building anthropic request" (url_parse (base_url +:+ "/v1/messages")) []
    ([content_type; ("anthropic-version", ANTHROPIC_API_VERSION)] ++ keyed auth (up_access_token req))
    headers (BodyJson body).

Definition openai_build (provider : Provider) (base_url : string) (auth : AuthStyle)
    (headers : ExtraHeaders) (req : UpstreamRequest) : result Request Error :=
  if Str.is_empty base_url then
    Err (Internal (Prov.as_str provider +:+ " does not speak Chat Completions; it needs its own adapter"))
  else
    let? body := OpenAI.render_request to_string (up_canonical req) (up_upstream_name req) in
    finish "building request" (url_parse (base_url +:+ "/chat/completions")) []
      (content_type :: keyed auth (up_access_token req)) headers (BodyJson body).

Definition gemini_build (base_url : string) (auth : AuthStyle) (headers : ExtraHeaders)
    (req : UpstreamRequest) : result Request Error :=
  let? body := Gemini.render_request (up_canonical req) in
  let method := if stream (up_canonical req) then "streamGenerateContent?alt=sse" else "generateContent" in
  finish "building gemini request"
    (url_parse (base_url +:+ "/models/" +:+ up_upstream_name req +:+ ":" +:+ method)) []
    (content_type :: keyed auth (up_access_token req)) headers (BodyJson body).

(** *** [azure.rs] *)

(** [version.get(..10)]: no part of a character. *)
Definition dated_on_or_after (version since : string) : bool :=
  (10 <=? Str.len version)
  && match String.get 10 version with Some c => negb (Str.in_span 128 191 c) | None => true end
  && negb (String.ltb (Str.take 10 version) since).

Definition takes_max_completion_tokens (version : option string) : bool :=
  match version with Some v => dated_on_or_after v MAX_COMPLETION_TOKENS_SINCE | None => true end.

Definition takes_stream_options (version : option string) : bool :=
  match version with Some v => dated_on_or_after v STREAM_OPTIONS_SINCE | None => true end.

Definition azure_url (ep : Endpoint) (base_url : string) (version : option string)
    (deployment : string) : result string Error :=
  match version with
  | None => Ok (base_url +:+ "/openai/v1/chat/completions")
  | Some _ =>
      if any (Str.eqb deployment) [""; "."; ".."] then
        Err (Config ("endpoint `" +:+ ep_name ep +:+ "`: a model whose upstream name is "
          +:+ debug_str deployment +:+ " cannot be sent to Azure, whose deployments API puts the name in the URL as one path segment; name the deployment in the catalog row"))
      else
        Ok (base_url +:+ "/openai/deployments/" +:+ Segment.path_segment deployment
            +:+ "/chat/completions")
  end.

(** The ceiling's value, and the object without it. *)
Definition taken_ceiling (fields : Fields) : option Json * Fields :=
  match field "max_tokens" fields with
  | Some v => (Some v, remove "max_tokens" fields)
  | None =>
      match field "max_completion_tokens" fields with
      | Some v => (Some v, remove "max_completion_tokens" fields)
      | None => (None, fields)
      end
  end.

Definition name_the_ceiling (version : option string) (body : Json) : Json :=
  on_object (fun fields =>
    match taken_ceiling fields with
    | (Some ceiling, fields) =>
        put (if takes_max_completion_tokens version then "max_completion_tokens" else "max_tokens")
          ceiling fields
    | (None, fields) => fields
    end) body.

Definition azure_build (ep : Endpoint) (base_url : string) (version : option string)
    (headers : ExtraHeaders) (req : UpstreamRequest) : result Request Error :=
  let? url := azure_url ep base_url version (up_upstream_name req) in
  let? body := OpenAI.render_request to_string (up_canonical req) (up_upstream_name req) in
  let body := name_the_ceiling version body in
  let body := if takes_stream_options version then body
              else on_object (remove "stream_options") body in
  finish "building request" (url_parse url)
    match version with Some v => [("api-version", v)] | None => [] end
    (content_type :: keyed ApiKeyHeader (up_access_token req)) headers (BodyJson body).

(** *** [bedrock.rs], [converse.rs] *)

Definition origin (rt : BedrockRuntime) : string :=
  default ("https://bedrock-runtime." +:+ br_region rt +:+ ".amazonaws.com") (br_override rt).

(** [s.split_once(sep)], the part after. *)
Fixpoint after (s sep : string) : option string :=
  match Str.strip_prefix s sep with
  | Some rest => Some rest
  | None => match s with EmptyString => None | String _ s => after s sep end
  end.

(** [BedrockAdapter::host]: the authority of [origin]. *)
Definition bedrock_host (rt : BedrockRuntime) : string :=
  default "" (head (Str.split (default "" (after (origin rt) "://")) "/")).

(** [splitn(3, ':')]. *)
Definition credentials (raw : string) : result SigV4.Credentials Error :=
  let malformed := Err (Config "a bedrock credential is 'access_key:secret[:session_token]'") in
  match Str.split_once raw ":" with
  | None => malformed
  | Some (access_key_id, rest) =>
      let '(secret, token) :=
        match Str.split_once rest ":" with
        | Some (secret, token) => (secret, Some token)
        | None => (rest, None)
        end in
      if Str.is_empty access_key_id || Str.is_empty secret then malformed
      else Ok {| SigV4.access_key_id := access_key_id; SigV4.secret_access_key := secret;
                 SigV4.session_token := token |}
  end.

Definition bedrock_url (rt : BedrockRuntime) (model_id action : string) : string :=
  origin rt +:+ "/model/" +:+ Segment.model_segment model_id +:+ "/" +:+ action.

Definition signed_post (rt : BedrockRuntime) (creds : SigV4.Credentials) (model_id action bytes : string)
  : result Request Error :=
  match url_parse (bedrock_url rt model_id action) with
  | Err e => Err (Internal ("bedrock url: " +:+ e))
  | Ok url =>
      let host := bedrock_host rt in
      let signed := SigV4.sign sha256 hmac creds (br_region rt) "bedrock"
        {| SigV4.sr_method := "POST"; SigV4.sr_path := url_path url; SigV4.sr_host := host;
           SigV4.sr_body := bytes |} now_utc in
      finish "building bedrock request" (Ok url) []
        ([content_type; ("host", host); ("x-amz-date", SigV4.amz_date signed);
          ("x-amz-content-sha256", SigV4.content_sha256 signed);
          ("authorization", SigV4.authorization signed)]
         ++ match SigV4.signed_token signed with
            | Some token => [("x-amz-security-token", token)] | None => [] end)
        (br_headers rt) (BodyBytes bytes)
  end.

Definition bedrock_build (rt : BedrockRuntime) (req : UpstreamRequest) : result Request Error :=
  let? creds := credentials (up_access_token req) in
  let? body := Anthropic.render_request (up_canonical req) (up_upstream_name req) in
  let body := on_object (fun fields =>
    put "anthropic_version" (JString BEDROCK_ANTHROPIC_VERSION)
      (remove "stream" (remove "model" fields))) body in
  let action := if stream (up_canonical req) then "invoke-with-response-stream" else "invoke" in
  signed_post rt creds (up_upstream_name req) action (to_string body).

Definition converse_build (rt : BedrockRuntime) (req : UpstreamRequest) : result Request Error :=
  let? creds := credentials (up_access_token req) in
  let? body := Converse.render_request to_string (up_canonical req) in
  let action := if stream (up_canonical req) then "converse-stream" else "converse" in
  signed_post rt creds (up_upstream_name req) action (to_string body).

(** *** [vertex.rs] *)

Definition vertex_url (publisher : Publisher) (host project region model : string) (streamed : bool)
  : string :=
  let '(publisher, method) :=
    match publisher, streamed with
    | Google, false => ("google", "generateContent")
    | Google, true => ("google", "streamGenerateContent?alt=sse")
    | AnthropicPublisher, false => ("anthropic", "rawPredict")
    | AnthropicPublisher, true => ("anthropic", "streamRawPredict")
    end in
  host +:+ "/v1/projects/" +:+ Segment.segment project +:+ "/locations/" +:+ Segment.segment region
  +:+ "/publishers/" +:+ publisher +:+ "/models/" +:+ Segment.segment model +:+ ":" +:+ method.

Definition vertex_body (publisher : Publisher) (req : UpstreamRequest) : result Json Error :=
  match publisher with
  | Google => Gemini.render_request (up_canonical req)
  | AnthropicPublisher =>
      let model := up_upstream_name req in
      let name := match Str.split_once model "@" with Some (name, _) => name | None => model end in
      let? body := Anthropic.render_request (up_canonical req) name in
      Ok (on_object (fun fields =>
        put "anthropic_version" (JString VERTEX_ANTHROPIC_VERSION) (remove "model" fields)) body)
  end.

Definition vertex_build (ep : Endpoint) (publisher : Publisher) (host project region : string)
    (headers : ExtraHeaders) (req : UpstreamRequest) : result Request Error :=
  let token := up_access_token req in
  if Str.starts_with (Str.trim_start_fuel (String.length token) token) "{" then
    Err (Internal ("endpoint `" +:+ ep_name ep +:+ "`: a request was built with a service account's key instead of a token minted from it, and was not sent"))
  else
    let? body := vertex_body publisher req in
    finish "building vertex request"
      (url_parse (vertex_url publisher host project region (up_upstream_name req)
                    (stream (up_canonical req)))) []
      (content_type :: keyed Bearer token) headers (BodyJson body).

(** *** Any adapter of an endpoint *)

Definition build (a : Adapter) (req : UpstreamRequest) : result Request Error :=
  match a with
  | OpenAICompat ep base auth headers _ => openai_build (Custom ep) base auth headers req
  | AnthropicMsgs _ base auth headers _ => anthropic_build base auth headers req
  | GeminiGen _ base auth headers _ => gemini_build base auth headers req
  | BedrockInvoke rt => bedrock_build rt req
  | BedrockConv rt => converse_build rt req
  | AzureOpenAI ep base version headers => azure_build ep base version headers req
  | Vertex ep publisher host project region headers =>
      vertex_build ep publisher host project region headers req
  end.

(** [JevUpstream::system_one]: the caller's bytes, as they arrived. *)
Definition system_one_build (u : JevUpstream) (secret body : string) : result Request Error :=
  finish "building a System One request" (url_parse (jv_base_url u +:+ jv_path u)) []
    (keyed (jv_auth u) secret ++ [content_type; ("accept", "application/json")])
    (jv_extra_headers u) (BodyBytes body).

(** *** [codex.rs] *)

Record CodexAdapter : Type := {
  cx_base_url : string;
  cx_instructions : option string;
  cx_beta : option string;
  cx_originator : string;
  cx_user_agent : string
}.

(** [with_instructions], [with_beta]: blank is none. *)
Definition not_blank (s : option string) : option string :=
  match s with Some s => if Str.is_empty (Str.trim s) then None else Some s | None => None end.

(** [session] is the conversation's id, or the fresh one drawn when there is
    none; [account_id] the seat's. *)
Definition codex_build (a : CodexAdapter) (session : string) (account_id : option string)
    (req : UpstreamRequest) : result Request Error :=
  let? body := Responses.render_request to_string (up_canonical req) (up_upstream_name req) in
  let body := on_object (fun fields =>
    let fields := put "stream" (JBool true) fields in
    let fields := put "store" (JBool false) fields in
    let fields := put "include" (JArray [JString "reasoning.encrypted_content"]) fields in
    let fields := remove "max_output_tokens" fields in
    match cx_instructions a with
    | Some instructions => put "instructions" (JString instructions) fields
    | None => fields
    end) body in
  finish "building codex request" (url_parse (cx_base_url a +:+ "/responses")) []
    ([("accept", "text/event-stream"); ("authorization", "Bearer " +:+ up_access_token req);
      ("originator", cx_originator a); ("user-agent", cx_user_agent a); ("session_id", session)]
     ++ match account_id with Some id => [("chatgpt-account-id", id)] | None => [] end
     ++ match cx_beta a with Some beta => [("openai-beta", beta)] | None => [] end
     ++ [content_type]) [] (BodyJson body).

End build.
End Upstream.

(** ** Lemmas on texts *)

Module Segments.
Import Segment.

Lemma hex_value_upper d : 0 ≤ d < 16 → hex_value (hex_upper d) = Some d.
Proof.
  intros Hd. assert (d = 0 ∨ d = 1 ∨ d = 2 ∨ d = 3 ∨ d = 4 ∨ d = 5 ∨ d = 6 ∨ d = 7 ∨ d = 8 ∨ d = 9
    ∨ d = 10 ∨ d = 11 ∨ d = 12 ∨ d = 13 ∨ d = 14 ∨ d = 15) as H by lia.
  repeat (destruct H as [->|H]; [reflexivity|]). by subst.
Qed.

Lemma code_split b :
  0 ≤ Str.code b / 16 < 16 ∧ 0 ≤ Str.code b mod 16 < 16
  ∧ Str.code b / 16 * 16 + Str.code b mod 16 = Str.code b.
Proof.
  pose proof (Str.code_range b). pose proof (Z.mod_pos_bound (Str.code b) 16 ltac:(lia)).
  pose proof (Z.div_mod (Str.code b) 16 ltac:(lia)).
  split_and!; [apply Z.div_pos; lia|apply Z.div_lt_upper_bound; lia|lia|lia|lia].
Qed.

Lemma ascii_code b : ascii_of_N (Z.to_N (Str.code b)) = b.
Proof. unfold Str.code. rewrite N2Z.id. apply ascii_N_embedding. Qed.

Lemma decoded_escape b l : decoded (escape b ++ l) = b :: decoded l.
Proof.
  destruct (code_split b) as (Ha & Hb & Hc). cbn [escape app decoded].
  rewrite (proj2 (Ascii.eqb_eq "%" "%") eq_refl), !hex_value_upper by done.
  by rewrite Hc, ascii_code.
Qed.

Lemma decoded_keep b l : b ≠ "%"%char → decoded (b :: l) = b :: decoded l.
Proof. intros Hb. cbn [decoded]. by rewrite (proj2 (Ascii.eqb_neq b "%") Hb). Qed.

(** What is encoded is what is decoded. *)
Lemma decode_encoded keep s : keep "%"%char = false → percent_decode (encoded keep s) = s.
Proof.
  intros Hk. unfold percent_decode, encoded. rewrite Str.bytes_of_bytes.
  rewrite <-(Str.of_bytes_bytes s) at 2. f_equal.
  induction (Str.bytes s) as [|b l IH]; [done|]. cbn [map mjoin list_join].
  destruct (keep b) eqn:Hb.
  - cbn [app]. rewrite decoded_keep by (intros ->; congruence). f_equal. exact IH.
  - rewrite decoded_escape. f_equal. exact IH.
Qed.

Lemma hex_upper_unreserved d : 0 ≤ d < 16 → unreserved (hex_upper d) = true.
Proof.
  intros Hd. assert (d = 0 ∨ d = 1 ∨ d = 2 ∨ d = 3 ∨ d = 4 ∨ d = 5 ∨ d = 6 ∨ d = 7 ∨ d = 8 ∨ d = 9
    ∨ d = 10 ∨ d = 11 ∨ d = 12 ∨ d = 13 ∨ d = 14 ∨ d = 15) as H by lia.
  repeat (destruct H as [->|H]; [reflexivity|]). by subst.
Qed.

Lemma encoded_bytes keep s c :
  In c (Str.bytes (encoded keep s)) → keep c = true ∨ c = "%"%char ∨ unreserved c = true.
Proof.
  unfold encoded. rewrite Str.bytes_of_bytes.
  induction (Str.bytes s) as [|b l IH]; [done|]. cbn [map mjoin list_join].
  intros [Hc|Hc]%in_app_or; [|by apply IH]. destruct (keep b) eqn:Hb.
  - destruct Hc as [<-|[]]. by left.
  - destruct (code_split b) as (H1 & H2 & _).
    destruct Hc as [<-|[<-|[<-|[]]]]; right; [by left|right|right]; by apply hex_upper_unreserved.
Qed.

(** A text whose every byte is kept is left as it is. *)
Lemma encoded_id keep s : all keep (Str.bytes s) = true → encoded keep s = s.
Proof.
  rewrite all_true. unfold encoded. intros Hk. rewrite <-(Str.of_bytes_bytes s) at 2. f_equal.
  revert Hk. induction (Str.bytes s) as [|b l IH]; intros Hk; [done|]. cbn [map mjoin list_join].
  rewrite Hk by (by left). cbn [app]. f_equal. apply IH. intros c Hc. apply Hk. by right.
Qed.

(** A path segment: nothing in it ends the segment, the path, or the URL's
    path part, and a server reads the name from it. *)
Definition one_segment (name seg : string) : Prop :=
  percent_decode seg = name
  ∧ (∀ c, In c (Str.bytes seg) → c ≠ "/"%char ∧ c ≠ "?"%char ∧ c ≠ "#"%char)
  ∧ (Str.eqb seg "." || Str.eqb seg ".." = true → Str.eqb name "." || Str.eqb name ".." = true).

Lemma encoded_segment keep s :
  keep "%"%char = false → keep "/"%char = false → keep "?"%char = false → keep "#"%char = false →
  one_segment s (encoded keep s).
Proof.
  intros Hp Hs Hq Hh. pose proof (decode_encoded keep s Hp) as Hd. split_and!; [done| |].
  - intros c Hc%encoded_bytes.
    split_and!; intros ->; destruct Hc as [Hc|[Hc|Hc]]; (congruence || done).
  - intros [Hseg|Hseg]%orb_true_iff; apply Str.str_eqb_eq in Hseg; rewrite Hseg in Hd; by rewrite <-Hd.
Qed.

Lemma location_segment s : Rules.is_location s = true → segment s = s.
Proof.
  unfold Rules.is_location. intros [_ Hs]%andb_true_iff. apply encoded_id.
  rewrite all_true in *. intros c Hc. specialize (Hs c Hc). unfold Rules.location_byte in Hs.
  unfold unreserved, Str.is_ascii_alphanumeric.
  apply orb_true_iff in Hs as [[->| ->]%orb_true_iff|Hs]; [done|by rewrite !orb_true_r|].
  apply Ascii.eqb_eq in Hs as ->. reflexivity.
Qed.

Lemma split_once_app a b c :
  ¬ In c (Str.bytes a) → Str.split_once (a +:+ String c b) c = Some (a, b).
Proof.
  intros Hc. apply Str.split_once_Some. done.
Qed.

Lemma split_app a b c :
  ¬ In c (Str.bytes a) → Str.split (a +:+ String c b) c = a :: Str.split b c.
Proof.
  induction a as [|x a IH]; intros Hc.
  { change ("" +:+ String c b) with (String c b). cbn [Str.split].
    by rewrite (proj2 (Ascii.eqb_eq c c) eq_refl). }
  change (String x a +:+ String c b) with (String x (a +:+ String c b)). cbn [Str.split].
  rewrite (proj2 (Ascii.eqb_neq x c)) by (intros ->; apply Hc; by left).
  rewrite IH; [done|]. intros H. apply Hc. by right.
Qed.

Lemma split_none a c : ¬ In c (Str.bytes a) → Str.split a c = [a].
Proof.
  induction a as [|x a IH]; intros Hc; cbn [Str.split]; [done|].
  rewrite (proj2 (Ascii.eqb_neq x c)) by (intros ->; apply Hc; by left).
  rewrite IH; [done|]. intros H. apply Hc. by right.
Qed.

End Segments.

(** [HeaderValue::from_str] keeps the text it takes. *)
Class HeaderLaws `{HeaderCrate} : Prop := {
  header_value_same s v : header_value s = Some v → v = s
}.

(** ** What AWS does with a signed request

    The verifier of Signature Version 4, written from AWS's description of it
    and sharing nothing with the signer: it reads the credential, the signed
    headers' names and the signature from [authorization], builds the canonical
    request from the request that arrived, derives the key of the day, the
    region and the service from the secret it holds, and signs. *)

Module Verifier.

(** The values a header has in a request. *)
Definition sent (name : string) (headers : list (string * string)) : list string :=
  filter_map (fun h : string * string => if Str.eqb h.1 name then Some h.2 else None) headers.

Definition value_of (name : string) (headers : list (string * string)) : option string :=
  match sent name headers with [v] => Some v | _ => None end.

Fixpoint signed_values (names : list string) (headers : list (string * string))
  : option (list (string * string)) :=
  match names with
  | [] => Some []
  | n :: names =>
      match value_of n headers, signed_values names headers with
      | Some v, Some rest => Some ((n, v) :: rest)
      | _, _ => None
      end
  end.

Record Claim : Type := {
  cl_access_key : string; cl_date : string; cl_region : string; cl_service : string;
  cl_names : list string; cl_signature : string
}.

Definition read_authorization (s : string) : option Claim :=
  match Str.strip_prefix s "AWS4-HMAC-SHA256 Credential=" with
  | None => None
  | Some s =>
      match Str.split_once s "," with
      | None => None
      | Some (credential, s) =>
          match Str.strip_prefix s " SignedHeaders=" with
          | None => None
          | Some s =>
              match Str.split_once s ",", Str.split credential "/" with
              | Some (names, s), [key; date; region; service; "aws4_request"] =>
                  match Str.strip_prefix s " Signature=" with
                  | None => None
                  | Some signature =>
                      Some {| cl_access_key := key; cl_date := date; cl_region := region;
                              cl_service := service; cl_names := Str.split names ";";
                              cl_signature := signature |}
                  end
              | _, _ => None
              end
          end
      end
  end.

(** A hexadecimal digit, and a byte's two. *)
Definition nibble (digits : string) (n : N) : string :=
  match String.get (N.to_nat n) digits with Some c => String c "" | None => "" end.
Definition hex_byte (digits : string) (c : ascii) : string :=
  nibble digits (N_of_ascii c / 16) +:+ nibble digits (N_of_ascii c mod 16).

Fixpoint lowercase_hex (bytes : list ascii) : string :=
  match bytes with [] => "" | b :: bytes => hex_byte "0123456789abcdef" b +:+ lowercase_hex bytes end.

(** UriEncode: every byte but the unreserved, the slashes of a path left. *)
Definition UNRESERVED : list ascii :=
  Str.bytes "ABCDEFGHIJKLMNOPQRSTUVWXYZabcdefghijklmnopqrstuvwxyz0123456789-._~".
Fixpoint uri_encode (path : string) : string :=
  match path with
  | EmptyString => ""
  | String c path =>
      (if any (Ascii.eqb c) UNRESERVED || Ascii.eqb c "/" then String c ""
       else "%" +:+ hex_byte "0123456789ABCDEF" c) +:+ uri_encode path
  end.

(** A header's value, without the spaces around it, and one for each run of
    them inside it. *)
Definition canonical_value (v : string) : string :=
  Str.join " " (keep (fun w => negb (Str.is_empty w)) (Str.split v " ")).

Definition lines (l : list string) : string := Str.join (String (ascii_of_nat 10) "") l.

Definition canonical (method path : string) (signed : list (string * string)) (hash : string) : string :=
  lines ([method; uri_encode path; ""]
    ++ map (fun h : string * string => h.1 +:+ ":" +:+ canonical_value h.2) signed
    ++ [""; Str.join ";" (map fst signed); hash]).

(** Names in order, none twice. *)
Fixpoint in_order (names : list string) : bool :=
  match names with
  | [] => true
  | n :: names => match names with m :: _ => String.ltb n m | [] => true end && in_order names
  end.

Section verify.
Context (sha256 : list ascii → list ascii) (hmac : list ascii → list ascii → list ascii).
(** The secret of an access key, and the region that verifies. *)
Context (secrets : string → option string) (region : string).

Definition key (secret day service : string) : list ascii :=
  fold_left (fun k part => hmac k (Str.bytes part)) [day; region; service; "aws4_request"]
    (Str.bytes ("AWS4" +:+ secret)).

Definition to_sign (date day service canonical : string) : string :=
  lines ["AWS4-HMAC-SHA256"; date; Str.join "/" [day; region; service; "aws4_request"];
         lowercase_hex (sha256 (Str.bytes canonical))].

Definition verify (method path : string) (headers : list (string * string)) (body : string) : bool :=
  match value_of "authorization" headers, value_of "x-amz-date" headers with
  | Some auth, Some date =>
      match read_authorization auth with
      | None => false
      | Some claim =>
          match secrets (cl_access_key claim), signed_values (cl_names claim) headers with
          | Some secret, Some signed =>
              let day := Str.take 8 date in
              let hash := lowercase_hex (sha256 (Str.bytes body)) in
              let text := to_sign date day "bedrock" (canonical method path signed hash) in
              Str.eqb (cl_date claim) day && Str.eqb (cl_region claim) region
              && Str.eqb (cl_service claim) "bedrock"
              && bool_decide (value_of "x-amz-content-sha256" headers = Some hash)
              && in_order (cl_names claim) && any (Str.eqb "host") (cl_names claim)
              && all (fun h : string * string => negb (Str.starts_with h.1 "x-amz-") || any (Str.eqb h.1) (cl_names claim)) headers
              && Str.eqb (cl_signature claim)
                   (lowercase_hex (hmac (key secret day "bedrock") (Str.bytes text)))
          | _, _ => false
          end
      end
  | _, _ => false
  end.

End verify.

(** *** The signer against it *)

Lemma uri_encode_is path : Segment.uri_encode_path path = uri_encode path.
Proof.
  unfold Segment.uri_encode_path, Segment.encoded. induction path as [|c path IH]; [done|].
  cbn [uri_encode]. rewrite <- IH. apply Str.bytes_inj. rewrite Str.bytes_app, !Str.bytes_of_bytes.
  cbn [Str.bytes String.list_ascii_of_string map mjoin list_join]. f_equal.
  destruct c as [[] [] [] [] [] [] [] []]; vm_compute; reflexivity.
Qed.

Lemma lowercase_hex_is l : Sticky.hex l = lowercase_hex l.
Proof.
  unfold Sticky.hex. assert (∀ acc, fold_left (fun acc b => acc +:+ Names.hex 2 (Str.code b)) l acc = acc +:+ lowercase_hex l) as H;
    [|by rewrite H].
  induction l as [|b l IH]; intros acc; cbn [fold_left lowercase_hex]; [by rewrite Str.append_empty_r|].
  rewrite IH, Str.append_assoc. do 2 f_equal. destruct b as [[] [] [] [] [] [] [] []]; vm_compute; reflexivity.
Qed.

Lemma lowercase_hex_graphic l : all Str.graphic (Str.bytes (lowercase_hex l)) = true.
Proof.
  induction l as [|b l IH]; [done|]. cbn [lowercase_hex]. rewrite Str.bytes_app. unfold all in *. rewrite forallb_app, IH, andb_true_r.
  destruct b as [[] [] [] [] [] [] [] []]; vm_compute; reflexivity.
Qed.

Lemma canonical_value_graphic v : all Str.graphic (Str.bytes v) = true → canonical_value v = Str.trim v.
Proof.
  intros Hv. rewrite Str.trim_graphic by done. unfold canonical_value. rewrite all_true in Hv.
  assert (Str.split v " " = [v]) as -> by (apply Segments.split_none; intros Hc%Hv; done).
  destruct v; done.
Qed.

End Verifier.

(** ** Requests, taken apart *)

Module Requests.
Import Custom Upstream Verifier.

Section requests.
Context `{U : UrlCrate} `{HC : HeaderCrate} `{D : DebugStr} `{HL : !HeaderLaws}.
Context (sha256 : list ascii → list ascii) (hmac : list ascii → list ascii → list ascii).
Context (to_string : Json → string) (reqwest_error : string) (now_utc : SigV4.Timestamp).

Lemma values_same headers hs : values headers = Some hs → hs = headers.
Proof using HL.
  revert hs; induction headers as [|[n v] headers IH]; intros hs; cbn; [by intros [= <-]|].
  destruct (header_value v) as [v'|] eqn:Hv; [|done]. apply header_value_same in Hv as ->.
  destruct (values headers); [|done]. intros [= <-]. by rewrite (IH l).
Qed.

Lemma finish_Ok what url query headers extra body r :
  finish reqwest_error what url query headers extra body = Ok r →
  url = Ok (rq_url r) ∧ rq_method r = "POST" ∧ rq_query r = query
  ∧ rq_headers r = apply extra headers ∧ rq_body r = body.
Proof using HL.
  unfold finish. destruct url; [|done]. destruct (values headers) as [hs|] eqn:Hv; [|done].
  apply values_same in Hv as ->. by intros [= <-].
Qed.

(** An operator's header never shadows one of another name. *)
Lemma sent_apply name extra hs :
  ¬ In name extra.*1 → sent name (apply extra hs) = sent name hs.
Proof.
  intros Hn. unfold apply, sent. rewrite filter_map_app.
  assert (filter_map (λ h : string * string, if Str.eqb h.1 name then Some h.2 else None) extra = [])
    as ->.
  { clear -Hn. induction extra as [|e extra IH]; [done|]. cbn in *.
    destruct (Str.eqb e.1 name) eqn:He; [apply Str.str_eqb_eq in He; exfalso; auto|].
    apply IH. intros H. apply Hn. by right. }
  rewrite app_nil_r. unfold keep. induction hs as [|h hs IH]; [done|]. cbn [List.filter filter_map].
  destruct (any (λ e : string * string, Str.eqb e.1 h.1) extra) eqn:Ha; cbn [negb filter_map];
    rewrite IH; [|done].
  destruct (Str.eqb h.1 name) eqn:Hh; [|done]. apply Str.str_eqb_eq in Hh.
  apply any_true in Ha as (e & He & Heq). apply Str.str_eqb_eq in Heq.
  exfalso. apply Hn. rewrite <-Hh, <-Heq. apply in_map_iff. by exists e.
Qed.

(** The names no operator's header has. *)
Lemma good_not_in p hs name :
  Rows.good_headers p hs →
  Custom.refused name = true ∨ p = Aws ∧ Str.starts_with name "x-amz-" = true →
  ¬ In name hs.*1.
Proof.
  intros Hg Hn Hin. apply list_elem_of_In, list_elem_of_fmap in Hin as (x & -> & Hx).
  unfold Rows.good_headers in Hg. rewrite Forall_forall in Hg. destruct (Hg x Hx) as [Hr Ha].
  destruct Hn as [Hn|[-> Hn]]; [congruence|]. rewrite Ha in Hn by done. done.
Qed.

(** *** What is signed is what is sent *)

(** Stamps and regions are made of bytes that end nothing. *)
Definition plain_text (s : string) : Prop := ¬ In "/"%char (Str.bytes s) ∧ ¬ In ","%char (Str.bytes s).

Lemma plain_digits n : 0 ≤ n ≤ U64_MAX → ∀ w, plain_text (SigV4.padded w n).
Proof.
  intros Hn w. unfold SigV4.padded, plain_text. rewrite !Str.bytes_app.
  assert (∀ k c, In c (Str.bytes (SigV4.zeros k)) → c = "0"%char) as Hz.
  { induction k as [|k IH]; intros c; cbn; [done|]. intros [<-|Hc]; [done|]. by apply IH. }
  split; intros [Hc%Hz|Hc%Str.decimal_digits]%in_app_or; done.
Qed.

Lemma plain_app a b : plain_text a → plain_text b → plain_text (a +:+ b).
Proof. intros [? ?] [? ?]. split; rewrite Str.bytes_app; intros [?|?]%in_app_or; done. Qed.

Definition stamp_ok (t : SigV4.Timestamp) : Prop :=
  Forall (fun n => 0 ≤ n ≤ U64_MAX)
    [SigV4.year t; SigV4.month t; SigV4.day t; SigV4.hour t; SigV4.minute t; SigV4.second t].

Lemma plain_stamp t : stamp_ok t → plain_text (SigV4.format_amz_date t).
Proof.
  unfold stamp_ok. rewrite !Forall_cons. intros (? & ? & ? & ? & ? & ? & _).
  unfold SigV4.format_amz_date.
  assert (plain_text "T" ∧ plain_text "Z") as [HT HZ].
  { repeat split; intros [?|[]]; done. }
  repeat (apply plain_app; [by (apply plain_digits || exact HT)|]). exact HZ.
Qed.

Lemma plain_take n s : plain_text s → plain_text (Str.take n s).
Proof. intros [? ?]. split; intros ?%Str.take_In; done. Qed.

Lemma plain_location s : Rules.is_location s = true → plain_text s.
Proof.
  unfold Rules.is_location. intros [_ Hs]%andb_true_iff. rewrite all_true in Hs.
  split; intros Hc%Hs; done.
Qed.

(** The claim an [authorization] makes. *)
Lemma read_written ak date region names signature :
  plain_text ak → plain_text date → plain_text region → ¬ In ","%char (Str.bytes names) →
  read_authorization ("AWS4-HMAC-SHA256 Credential=" +:+ ak +:+ "/"
    +:+ SigV4.scope date region "bedrock"
    +:+ ", SignedHeaders=" +:+ names +:+ ", Signature=" +:+ signature)
  = Some {| cl_access_key := ak; cl_date := date; cl_region := region; cl_service := "bedrock";
            cl_names := Str.split names ";"; cl_signature := signature |}.
Proof.
  intros [Ha Ha'] [Hd Hd'] [Hr Hr'] Hn. unfold read_authorization.
  rewrite (proj2 (Str.strip_prefix_Some _ _ _)) by reflexivity.
  set (credential := ak +:+ "/" +:+ SigV4.scope date region "bedrock").
  replace (ak +:+ "/" +:+ SigV4.scope date region "bedrock" +:+ ", SignedHeaders=" +:+ names
           +:+ ", Signature=" +:+ signature)
    with (credential +:+ String "," (" SignedHeaders=" +:+ names +:+ ", Signature=" +:+ signature))
    by (unfold credential; by rewrite !Str.append_assoc).
  rewrite Segments.split_once_app.
  2: { unfold credential, SigV4.scope. rewrite !Str.bytes_app.
       intros H. repeat (apply in_app_or in H as [H|H]; try done).
       all: cbn in H; repeat (destruct H as [H|H]; try done). }
  rewrite (proj2 (Str.strip_prefix_Some _ _ _)) by reflexivity.
  change (names +:+ ", Signature=" +:+ signature) with (names +:+ String "," (" Signature=" +:+ signature)).
  rewrite Segments.split_once_app by done.
  assert (Str.split credential "/" = [ak; date; region; "bedrock"; "aws4_request"]) as ->.
  { unfold credential, SigV4.scope.
    change (Str.split (ak +:+ String "/" (date +:+ String "/" (region +:+ String "/"
      "bedrock/aws4_request"))) "/" = [ak; date; region; "bedrock"; "aws4_request"]).
    by rewrite !Segments.split_app. }
  rewrite (proj2 (Str.strip_prefix_Some _ _ _)) by reflexivity. reflexivity.
Qed.

(** The headers [signed_post] sets. *)
Definition wire_headers (host date hash auth : string) (token : option string)
  : list (string * string) :=
  [content_type; ("host", host); ("x-amz-date", date); ("x-amz-content-sha256", hash);
   ("authorization", auth)]
  ++ match token with Some token => [("x-amz-security-token", token)] | None => [] end.

Lemma wire_values host date hash auth token :
  value_of "authorization" (wire_headers host date hash auth token) = Some auth
  ∧ value_of "x-amz-date" (wire_headers host date hash auth token) = Some date
  ∧ value_of "x-amz-content-sha256" (wire_headers host date hash auth token) = Some hash
  ∧ value_of "host" (wire_headers host date hash auth token) = Some host
  ∧ ∀ t, token = Some t →
      value_of "x-amz-security-token" (wire_headers host date hash auth token) = Some t.
Proof. destruct token; split_and!; try reflexivity; [by intros ? [= <-]|done]. Qed.

(** The signed headers, in the order a signature lists them. *)
Lemma signed_list_sorted creds host hash date :
  SigV4.signed_list creds host hash date =
  [("host", host); ("x-amz-content-sha256", hash); ("x-amz-date", date)]
  ++ match SigV4.session_token creds with Some t => [("x-amz-security-token", t)] | None => [] end.
Proof. unfold SigV4.signed_list. by destruct (SigV4.session_token creds). Qed.

Lemma signed_names creds host hash date :
  let names := Str.join ";" (map fst (SigV4.signed_list creds host hash date)) in
  Str.split names ";" = map fst (SigV4.signed_list creds host hash date)
  ∧ ¬ In ","%char (Str.bytes names) ∧ any (Str.eqb "host") (Str.split names ";") = true.
Proof.
  rewrite signed_list_sorted. destruct (SigV4.session_token creds); cbn zeta;
    (split_and!; [reflexivity| |reflexivity]).
  all: intros H; apply Bool.diff_false_true; rewrite <-(proj2 (any_true _ _) (ex_intro _ ","%char (conj H eq_refl)) : any (Ascii.eqb ",") _ = true); vm_compute; reflexivity.
Qed.

(** Every signed header is read back from the request as it was signed. *)
Lemma signed_values_sent creds host date hash headers :
  (∀ n v, In (n, v) (SigV4.signed_list creds host hash date) → value_of n headers = Some v) →
  signed_values (map fst (SigV4.signed_list creds host hash date)) headers
  = Some (SigV4.signed_list creds host hash date).
Proof.
  induction (SigV4.signed_list creds host hash date) as [|[n v] l IH]; [done|].
  intros H. cbn. rewrite (H n v) by (by left). rewrite IH; [done|]. intros n' v' Hin. apply H. by right.
Qed.

Lemma aws_header_kept e rt hs name :
  Rows.good_runtime e rt →
  any (Str.eqb name) ["authorization"; "host"] || Str.starts_with name "x-amz-" = true →
  value_of name (apply (br_headers rt) hs) = value_of name hs.
Proof.
  intros Hg Hn. unfold value_of. rewrite sent_apply; [done|].
  destruct Hg as [region over extra _ _ _ Hg]. cbn. apply (good_not_in Aws); [done|].
  apply orb_true_iff in Hn as [Hn|Hn]; [left|by right].
  apply any_true in Hn as (x & Hx & ->%Str.str_eqb_eq). by destruct Hx as [<-|[<-|[]]].
Qed.

Lemma graphic_app a b : all Str.graphic (Str.bytes (a +:+ b)) = all Str.graphic (Str.bytes a) && all Str.graphic (Str.bytes b).
Proof. rewrite Str.bytes_app. apply forallb_app. Qed.

Lemma graphic_stamp t : stamp_ok t → all Str.graphic (Str.bytes (SigV4.format_amz_date t)) = true.
Proof.
  unfold stamp_ok. rewrite !Forall_cons. intros (? & ? & ? & ? & ? & ? & _).
  assert (∀ w n, 0 ≤ n ≤ U64_MAX → all Str.graphic (Str.bytes (SigV4.padded w n)) = true) as Hp.
  { intros w n Hn. unfold SigV4.padded. rewrite graphic_app. apply andb_true_iff. split; apply all_true; intros c Hc.
    - revert Hc. induction (w - _)%nat as [|k IH]; cbn; [done|]. by intros [<-|Hc]; [|apply IH].
    - apply Str.decimal_digits in Hc; [|done]. unfold Str.is_ascii_digit, Str.graphic, Str.in_span in *. bool_to_prop. lia. }
  unfold SigV4.format_amz_date. by rewrite !graphic_app, !Hp by done.
Qed.

(** What the signer writes of headers of visible characters. *)
Lemma canonical_is method path creds host hash date :
  all Str.graphic (Str.bytes host) = true → all Str.graphic (Str.bytes hash) = true →
  all Str.graphic (Str.bytes date) = true →
  (∀ t, SigV4.session_token creds = Some t → all Str.graphic (Str.bytes t) = true) →
  let l := SigV4.signed_list creds host hash date in
  SigV4.canonical_request method path l hash = canonical method path l hash.
Proof.
  intros Hh Hp Hd Ht. cbv zeta. rewrite signed_list_sorted. unfold SigV4.canonical_request, canonical.
  rewrite uri_encode_is. destruct (SigV4.session_token creds) as [t|].
  1: specialize (Ht t eq_refl).
  all: cbn [app map fst snd SigV4.canonical_headers fold_left]; unfold SigV4.canonical_headers; cbn [fold_left fst snd];
    rewrite !canonical_value_graphic by done; unfold lines, SigV4.NL; cbn [Str.join];
    rewrite !Str.append_assoc; reflexivity.
Qed.

Lemma signature_is creds region date hash method path headers :
  let day := Str.take 8 date in
  SigV4.canonical_request method path headers hash = canonical method path headers hash →
  SigV4.signature hmac (SigV4.secret_access_key creds) day region "bedrock"
    (SigV4.string_to_sign sha256 date (SigV4.scope day region "bedrock")
      (SigV4.canonical_request method path headers hash))
  = lowercase_hex (hmac (key hmac region (SigV4.secret_access_key creds) day "bedrock")
      (Str.bytes (to_sign sha256 region date day "bedrock" (canonical method path headers hash)))).
Proof.
  cbv zeta. intros ->. unfold SigV4.signature, SigV4.signing_key, SigV4.string_to_sign, SigV4.scope, SigV4.digest, to_sign, lines, SigV4.NL.
  rewrite !lowercase_hex_is. cbn [fold_left key Str.join]. done.
Qed.

(** Every header AWS reads is among the signed. *)
Lemma aws_headers_signed e rt creds host hash date auth :
  Rows.good_runtime e rt →
  all (fun h : string * string => negb (Str.starts_with h.1 "x-amz-")
    || any (Str.eqb h.1) (map fst (SigV4.signed_list creds host hash date)))
    (apply (br_headers rt) (wire_headers host date hash auth (SigV4.session_token creds))) = true.
Proof.
  intros Hg. rewrite signed_list_sorted. apply all_true. intros h Hin. unfold apply in Hin.
  apply in_app_or in Hin as [Hin|Hin].
  - apply keep_In in Hin as [Hin _]. destruct (SigV4.session_token creds);
      repeat (destruct Hin as [<-|Hin]; [reflexivity|]); destruct Hin.
  - apply orb_true_iff. left. apply negb_true_iff, not_true_iff_false. intros Hx.
    destruct Hg as [region over extra _ _ _ Hg]. apply (good_not_in Aws _ h.1 Hg); [by right|].
    by apply list_elem_of_In, list_elem_of_fmap_2, list_elem_of_In.
Qed.

Lemma signed_post_verifies e rt creds model action bytes r :
  Rows.good_runtime e rt → stamp_ok now_utc → plain_text (SigV4.access_key_id creds) →
  all Str.graphic (Str.bytes (bedrock_host rt)) = true →
  (∀ t, SigV4.session_token creds = Some t → all Str.graphic (Str.bytes t) = true) →
  signed_post sha256 hmac reqwest_error now_utc rt creds model action bytes = Ok r →
  verify sha256 hmac
      (fun k => if Str.eqb k (SigV4.access_key_id creds)
                then Some (SigV4.secret_access_key creds) else None) (br_region rt)
      (rq_method r) (url_path (rq_url r)) (rq_headers r) bytes = true.
Proof using HL.
  intros Hg Ht Hak Hhg Htg. unfold signed_post. destruct (url_parse _) as [url|]; [|done].
  intros ([= Hu] & Hm & _ & Hh & Hb)%finish_Ok.
  rewrite Hm, Hh, <-Hu. unfold SigV4.sign.
  cbn [SigV4.sr_method SigV4.sr_path SigV4.sr_host SigV4.sr_body SigV4.amz_date
       SigV4.content_sha256 SigV4.authorization SigV4.signed_token].
  set (date := SigV4.format_amz_date now_utc). set (hash := SigV4.digest sha256 bytes).
  set (l := SigV4.signed_list creds (bedrock_host rt) hash date).
  set (auth := "AWS4-HMAC-SHA256 Credential=" +:+ _).
  change ([content_type; ("host", bedrock_host rt); ("x-amz-date", date);
    ("x-amz-content-sha256", hash); ("authorization", auth)] ++ ?t)
    with (wire_headers (bedrock_host rt) date hash auth (SigV4.session_token creds)).
  destruct (wire_values (bedrock_host rt) date hash auth (SigV4.session_token creds))
    as (Hauth & Hdate & Hhash & Hhost & Htoken).
  destruct (signed_names creds (bedrock_host rt) hash date) as (Hnames & Hcomma & Hin).
  pose proof (aws_headers_signed e rt creds (bedrock_host rt) hash date auth Hg) as Hall. cbv zeta in Hnames, Hcomma, Hin.
  fold l in Hnames, Hcomma, Hin, Hall.
  assert (plain_text (br_region rt)) as Hregion.
  { destruct Hg. by apply plain_location. }
  assert (hash = lowercase_hex (sha256 (Str.bytes bytes))) as Hlow by apply lowercase_hex_is.
  unfold verify. rewrite !(aws_header_kept e) by done. rewrite Hauth, Hdate, Hhash.
  unfold auth at 1. rewrite read_written; try done; [|by apply plain_take, plain_stamp].
  cbn [cl_access_key cl_names cl_date cl_region cl_service cl_signature].
  rewrite Str.str_eqb_refl, Hnames. unfold l at 1. rewrite signed_values_sent.
  2: { intros n v Hv. rewrite signed_list_sorted in Hv.
       apply in_app_or in Hv as [[[= <- <-]|[[= <- <-]|[[= <- <-]|[]]]]|Hv];
         try (rewrite (aws_header_kept e) by done; done).
       destruct (SigV4.session_token creds) as [t|]; [|done]. destruct Hv as [[= <- <-]|[]].
       rewrite (aws_header_kept e) by done. by apply Htoken. }
  fold l. rewrite <- Hlow, Hall, bool_decide_eq_true_2, !Str.str_eqb_refl by done. rewrite <-Hnames, Hin.
  rewrite signature_is by (apply canonical_is; [done|rewrite Hlow; apply lowercase_hex_graphic|by apply graphic_stamp|done]).
  fold l. rewrite Hnames, Str.str_eqb_refl, andb_true_r. cbn [andb].
  unfold l. rewrite signed_list_sorted. by destruct (SigV4.session_token creds).
Qed.

End requests.
End Requests.

(** ** What the requests promise *)

Module Requested.
Import Custom Upstream Verifier Requests.

Definition KEY_HEADERS : list string := ["authorization"; "x-api-key"; "x-goog-api-key"; "api-key"].

Section theorems.
Context `{U : UrlCrate} `{HC : HeaderCrate} `{D : DebugStr} `{HL : !HeaderLaws}.
Context (sha256 : list ascii → list ascii) (hmac : list ascii → list ascii → list ascii).
Context (to_string : Json → string) (reqwest_error : string) (now_utc : SigV4.Timestamp).
Context (SYSTEM_ONE_PATH : string).
#[local] Abbreviation build := (Upstream.build sha256 hmac to_string reqwest_error now_utc).
#[local] Abbreviation serves := (Rows.serves SYSTEM_ONE_PATH).

(** How an adapter takes its key; Bedrock's is a signature. *)
Definition key_style (a : Adapter) : AuthStyle :=
  match a with
  | OpenAICompat _ _ auth _ _ | AnthropicMsgs _ _ auth _ _ | GeminiGen _ _ auth _ _ => auth
  | AzureOpenAI _ _ _ _ => ApiKeyHeader
  | Vertex _ _ _ _ _ _ => Bearer
  | BedrockInvoke _ | BedrockConv _ => NoAuth
  end.

Definition runtime_of (a : Adapter) : option BedrockRuntime :=
  match a with BedrockInvoke rt | BedrockConv rt => Some rt | _ => None end.

Lemma key_header_refused h : In h KEY_HEADERS → Custom.refused h = true.
Proof. intros H. repeat (destruct H as [<-|H]; [reflexivity|]). done. Qed.

Lemma keyed_sent auth secret h hs :
  (∀ x, In x hs → Str.eqb x.1 h = false) →
  sent h (hs ++ keyed auth secret) = sent h (keyed auth secret).
Proof.
  intros Hhs. unfold sent. rewrite filter_map_app.
  assert (filter_map (λ x : string * string, if Str.eqb x.1 h then Some x.2 else None) hs = []) as ->;
    [|done].
  induction hs as [|x hs IH]; [done|]. cbn. rewrite Hhs by (by left). apply IH. intros y Hy.
  apply Hhs. by right.
Qed.

Lemma signed_post_keys e rt creds model action bytes r h :
  Rows.good_runtime e rt → In h KEY_HEADERS →
  signed_post sha256 hmac reqwest_error now_utc rt creds model action bytes = Ok r →
  ∃ auth, Str.starts_with auth "AWS4-HMAC-SHA256 Credential=" = true
          ∧ sent h (rq_headers r) = if Str.eqb h "authorization" then [auth] else [].
Proof using HL.
  intros Hg Hh. unfold signed_post. destruct (url_parse _) as [url|]; [|done].
  intros (_ & _ & _ & Hr & _)%finish_Ok. rewrite Hr.
  assert (¬ In h (br_headers rt).*1) as Hn.
  { destruct Hg as [region over hs _ _ _ Hg]. apply (good_not_in Aws); [done|left].
    by apply key_header_refused. }
  rewrite sent_apply by done. eexists. split.
  2: { repeat (destruct Hh as [<-|Hh]; [by destruct (SigV4.signed_token _)|]). done. }
  unfold SigV4.sign. cbn [SigV4.authorization]. by apply Str.starts_with_app; eexists.
Qed.

(** What a build of another adapter makes of a request that does not depend on
    its key, and the headers it hands [finish]. *)
Lemma build_headers a :
  runtime_of a = None →
  ∃ (rest : CanonicalRequest → string → option (Url * list (string * string) * ReqBody)) hs,
  (∀ x, In x hs → x.1 = "content-type" ∨ x.1 = "anthropic-version")
  ∧ ∀ req r, build a req = Ok r →
    rq_method r = "POST" ∧ rest (up_canonical req) (up_upstream_name req) = Some (rq_url r, rq_query r, rq_body r)
    ∧ rq_headers r = apply (Rows.extra_headers_of (Reload.Chat a))
                       (hs ++ keyed (key_style a) (up_access_token req)).
Proof using HL.
  intros Ha. destruct a as [ep base auth hs d|ep base auth hs d|ep base auth hs d|rt|rt|ep base v hs
                           |ep p host pr rg hs]; try done; cbn [Upstream.build].
  - exists (λ c n, match OpenAI.render_request to_string c n, url_parse (base +:+ "/chat/completions") with
      | Ok body, Ok url => Some (url, [], BodyJson body) | _, _ => None end), [content_type].
    split; [intros x [<-|[]]; by left|]. intros req r. unfold openai_build. destruct (Str.is_empty base); [done|].
    intros (body & -> & (-> & -> & -> & -> & ->)%finish_Ok)%result_bind_Ok. done.
  - exists (λ c n, match Anthropic.render_request c n, url_parse (base +:+ "/v1/messages") with
      | Ok body, Ok url => Some (url, [], BodyJson body) | _, _ => None end),
      [content_type; ("anthropic-version", ANTHROPIC_API_VERSION)].
    split; [intros x [<-|[<-|[]]]; [by left|by right]|]. intros req r. unfold anthropic_build.
    intros (body & -> & (-> & -> & -> & -> & ->)%finish_Ok)%result_bind_Ok. done.
  - exists (λ c n, match Gemini.render_request c, url_parse (base +:+ "/models/" +:+ n +:+ ":"
          +:+ (if stream c then "streamGenerateContent?alt=sse" else "generateContent")) with
      | Ok body, Ok url => Some (url, [], BodyJson body) | _, _ => None end), [content_type].
    split; [intros x [<-|[]]; by left|]. intros req r. unfold gemini_build.
    intros (body & -> & (-> & -> & -> & -> & ->)%finish_Ok)%result_bind_Ok. done.
  - eexists (λ c n, match azure_url ep base v n, OpenAI.render_request to_string c n with
      | Ok u, Ok body => match url_parse u with
          | Ok url => Some (url, match v with Some v => [("api-version", v)] | None => [] end, BodyJson _)
          | Err _ => None end
      | _, _ => None end), [content_type].
    split; [intros x [<-|[]]; by left|]. intros req r. unfold azure_build.
    intros (url & -> & (body & -> & Hf)%result_bind_Ok)%result_bind_Ok.
    apply finish_Ok in Hf as (-> & -> & -> & -> & ->). done.
  - exists (λ c n, match vertex_body p {| up_canonical := c; up_upstream_name := n; up_access_token := "" |},
        url_parse (vertex_url p host pr rg n (stream c)) with
      | Ok body, Ok url => Some (url, [], BodyJson body) | _, _ => None end), [content_type].
    split; [intros x [<-|[]]; by left|]. intros req r. unfold vertex_build. case_match; [done|].
    intros (body & Hbody & (-> & -> & -> & -> & ->)%finish_Ok)%result_bind_Ok.
    assert (vertex_body p {| up_canonical := up_canonical req; up_upstream_name := up_upstream_name req;
      up_access_token := "" |} = Ok body) as -> by by destruct p. done.
Qed.

(** The header a key is written in, adapter by adapter, and how. *)
Definition key_line (a : Adapter) (secret : string) : option (string * string) :=
  match a with
  | OpenAICompat _ _ auth _ _ | AnthropicMsgs _ _ auth _ _ | GeminiGen _ _ auth _ _ =>
      match auth with
      | Bearer => Some ("authorization", "Bearer " +:+ secret)
      | XApiKey => Some ("x-api-key", secret)
      | XGoogApiKey => Some ("x-goog-api-key", secret)
      | ApiKeyHeader => Some ("api-key", secret)
      | NoAuth => None
      end
  | AzureOpenAI _ _ _ _ => Some ("api-key", secret)
  | Vertex _ _ _ _ _ _ => Some ("authorization", "Bearer " +:+ secret)
  | BedrockInvoke _ | BedrockConv _ => None
  end.

(** The values the key's header has, under a name. *)
Definition key_values (a : Adapter) (secret name : string) : list string :=
  match key_line a secret with
  | Some (n, v) => if Str.eqb n name then [v] else []
  | None => []
  end.

Lemma keyed_is a secret h :
  runtime_of a = None → sent h (keyed (key_style a) secret) = key_values a secret h.
Proof.
  intros Ha. destruct a as [? ? []|? ? []|? ? []| | | |]; try done; unfold key_values, sent, keyed;
    cbn [key_style key_line authenticate filter_map fst snd]; done || by destruct (Str.eqb _ h).
Qed.

Lemma sent_split h a b : sent h (a ++ b) = sent h a ++ sent h b.
Proof. apply filter_map_app. Qed.

(** A header no key is written in is the same whatever the key. *)
Lemma apply_keyless extra hs k k' h :
  sent h k = [] → sent h k' = [] → sent h (apply extra (hs ++ k)) = sent h (apply extra (hs ++ k')).
Proof.
  intros Hk Hk'. unfold apply, keep. rewrite !List.filter_app, !sent_split. f_equal. f_equal.
  assert (∀ l p, sent h l = [] → sent h (List.filter p l) = []) as Hf; [|by rewrite !Hf].
  clear. intros l p. unfold sent. induction l as [|x l IH]; [done|]. cbn. destruct (Str.eqb x.1 h) eqn:E; [done|].
  intros Hl. destruct (p x); cbn; rewrite ?E; auto.
Qed.

Lemma aws_posted e a req r rt :
  serves e (Reload.Chat a) → runtime_of a = Some rt → build a req = Ok r →
  Rows.good_runtime e rt ∧ ∃ creds model action bytes, credentials (up_access_token req) = Ok creds ∧
    signed_post sha256 hmac reqwest_error now_utc rt creds model action bytes = Ok r.
Proof using HL.
  intros Hs Ha Hb. split; [destruct a; try done; injection Ha as ->; by inversion Hs|].
  destruct a as [| | |rt'|rt'| |]; try done; injection Ha as ->; cbn [Upstream.build] in Hb;
    unfold bedrock_build, converse_build in Hb;
    apply result_bind_Ok in Hb as (creds & Hc & (body & _ & Hb)%result_bind_Ok); by eexists creds, _, _, _.
Qed.



(** Where each request goes: the endpoint's own URL and a path of the
    platform's.  Where a cloud's path names the model, the name is one segment, whatever the catalogue row says: it ends neither the
    segment, the path nor the URL's path part, and the server reads it back
    as it is.  The rest of the URL is the endpoint's own. *)
Theorem model_is_one_segment e a req r :
  serves e (Reload.Chat a) → build a req = Ok r →
  match a with
  | OpenAICompat _ base _ _ _ => url_parse (base +:+ "/chat/completions") = Ok (rq_url r)
  | AnthropicMsgs _ base _ _ _ => url_parse (base +:+ "/v1/messages") = Ok (rq_url r)
  | GeminiGen _ base _ _ _ =>
      ∃ method, In method ["generateContent"; "streamGenerateContent?alt=sse"]
      ∧ url_parse (base +:+ "/models/" +:+ up_upstream_name req +:+ ":" +:+ method) = Ok (rq_url r)
  | AzureOpenAI _ base None _ =>
      url_parse (base +:+ "/openai/v1/chat/completions") = Ok (rq_url r) ∧ rq_query r = []
  | AzureOpenAI _ base (Some version) _ =>
      ∃ seg, Segments.one_segment (up_upstream_name req) seg
      ∧ url_parse (base +:+ "/openai/deployments/" +:+ seg +:+ "/chat/completions") = Ok (rq_url r)
      ∧ rq_query r = [("api-version", version)] ∧ Str.eqb seg "" || Str.eqb seg "." || Str.eqb seg ".." = false
  | BedrockInvoke rt | BedrockConv rt =>
      ∃ seg action, Segments.one_segment (up_upstream_name req) seg
      ∧ In action ["invoke"; "invoke-with-response-stream"; "converse"; "converse-stream"]
      ∧ url_parse (origin rt +:+ "/model/" +:+ seg +:+ "/" +:+ action) = Ok (rq_url r)
  | Vertex _ publisher host project region _ =>
      ∃ seg publisher method, Segments.one_segment (up_upstream_name req) seg
      ∧ In publisher ["google"; "anthropic"]
      ∧ In method ["generateContent"; "streamGenerateContent?alt=sse"; "rawPredict"; "streamRawPredict"]
      ∧ url_parse (host +:+ "/v1/projects/" +:+ project +:+ "/locations/" +:+ region
          +:+ "/publishers/" +:+ publisher +:+ "/models/" +:+ seg +:+ ":" +:+ method) = Ok (rq_url r)
  end.
Proof using HL.
  intros Hs Hb. destruct a as [ep base au hs d|ep base au hs d|ep base au hs d|rt|rt|ep base [v|] hs
                              |ep p host pr rg hs]; cbn [Upstream.build] in Hb.
  - unfold openai_build in Hb. destruct (Str.is_empty base); [done|].
    by apply result_bind_Ok in Hb as (body & _ & (? & _)%finish_Ok).
  - unfold anthropic_build in Hb. by apply result_bind_Ok in Hb as (body & _ & (? & _)%finish_Ok).
  - unfold gemini_build in Hb. apply result_bind_Ok in Hb as (body & _ & (? & _)%finish_Ok).
    eexists. split; [|eassumption]. destruct (stream _); [by right; left|by left].
  - unfold bedrock_build in Hb. apply result_bind_Ok in Hb as (creds & _ & (body & _ & Hb)%result_bind_Ok).
    unfold signed_post in Hb. destruct (url_parse _) as [url|] eqn:Hu; [|done].
    apply finish_Ok in Hb as ([= ->] & _). eexists _, _. split_and!; [| |exact Hu].
    + by apply Segments.encoded_segment.
    + destruct (stream _); [by right; left|by left].
  - unfold converse_build in Hb. apply result_bind_Ok in Hb as (creds & _ & (body & _ & Hb)%result_bind_Ok).
    unfold signed_post in Hb. destruct (url_parse _) as [url|] eqn:Hu; [|done].
    apply finish_Ok in Hb as ([= ->] & _). eexists _, _. split_and!; [| |exact Hu].
    + by apply Segments.encoded_segment.
    + destruct (stream _); [by do 3 right; left|by right; right; left].
  - unfold azure_build in Hb. apply result_bind_Ok in Hb as (url & Hurl & (body & _ & Hb)%result_bind_Ok).
    apply finish_Ok in Hb as (Hu & _ & Hq & _). unfold azure_url in Hurl.
    destruct (any (Str.eqb (up_upstream_name req)) _) eqn:Hd; [done|].
    assert (Segments.one_segment (up_upstream_name req) (Segment.path_segment (up_upstream_name req))) as Hseg
      by by apply Segments.encoded_segment.
    exists (Segment.path_segment (up_upstream_name req)). split_and!; [done| |done|].
    + injection Hurl as <-. done.
    + destruct Hseg as [Hdec _]. apply not_true_iff_false. intros Hx.
      apply not_true_iff_false in Hd. apply Hd. rewrite <-Hdec.
      apply orb_true_iff in Hx as [[Hx|Hx]%orb_true_iff|Hx]; apply Str.str_eqb_eq in Hx; by rewrite Hx.
  - unfold azure_build in Hb. apply result_bind_Ok in Hb as (url & [= <-] & (body & _ & Hb)%result_bind_Ok).
    by apply finish_Ok in Hb as (? & _ & ? & _).
  - unfold vertex_build in Hb. case_match; [done|].
    apply result_bind_Ok in Hb as (body & _ & (Hu & _)%finish_Ok).
    inversion Hs as [| | | | | | |? ? ? ? ? _ _ _ Hpr Hrg _]; subst.
    unfold vertex_url in Hu. rewrite !Segments.location_segment in Hu by done.
    exists (Segment.segment (up_upstream_name req)).
    destruct p, (stream (up_canonical req)); eexists _, _; (split_and!; [| | |exact Hu]);
      try (by apply Segments.encoded_segment); cbn; tauto.
Qed.

End theorems.
End Requested.

(** ** Requests that are sent *)

Module SentRequests.
Import Custom Upstream Verifier Requests Requested Small.

#[global] Instance small_header_laws : @HeaderLaws small_headers.
Proof. constructor. intros s v. cbn. case_match; [|done]. by intros [= <-]. Qed.

(** Stand-ins for SHA-256 and HMAC: the first bytes of what they are given. *)
Definition toy_sha256 (bytes : list ascii) : list ascii := firstn 8 bytes.
Definition toy_hmac (key data : list ascii) : list ascii := firstn 8 data ++ firstn 8 key.

Definition now : SigV4.Timestamp :=
  {| SigV4.year := 2026; SigV4.month := 3; SigV4.day := 1;
     SigV4.hour := 12; SigV4.minute := 30; SigV4.second := 5 |}.

Definition endpoint (name : string) (p : Platform) (d : Dialect) : Endpoint :=
  {| ep_name := name; ep_dialect := d; ep_platform := p |}.

Definition groq_chat : Adapter :=
  OpenAICompat (endpoint "groq" Plain OpenAIChatCompletions) "https://api.groq.com/openai/v1"
    XApiKey [("x-team", "blue")] false.

Definition ireland : BedrockRuntime :=
  {| br_endpoint := endpoint "ireland" Aws BedrockConverse; br_region := "eu-west-1";
     br_override := None; br_headers := [("x-team", "blue")] |}.

Definition chat_request (secret : string) : UpstreamRequest :=
  {| up_canonical := OpenAI.chat_example; up_upstream_name := "a/b"; up_access_token := secret |}.

Definition converse_request : UpstreamRequest :=
  {| up_canonical := Converse.converse_example; up_upstream_name := "arn:aws:m/one?x";
     up_access_token := "AKIA:secret:token" |}.

Definition sent_by (a : Adapter) (req : UpstreamRequest) : result Request Error :=
  Upstream.build toy_sha256 toy_hmac Wire.a_printer "" now a req.

(** The request, or one no adapter builds. *)
Definition the_request (r : result Request Error) : Request :=
  match r with
  | Ok r => r
  | Err _ => {| rq_method := ""; rq_url := {| s_scheme := ""; s_host := ""; s_path := "" |};
                rq_query := []; rq_headers := []; rq_body := BodyBytes "" |}
  end.

Lemma the_request_Ok r : (if r is Ok _ then true else false) = true → r = Ok (the_request r).
Proof. by destruct r. Qed.

Lemma groq_is_served : Rows.serves "/v1/systemone" (endpoint "groq" Plain OpenAIChatCompletions) (Reload.Chat groq_chat).
Proof.
  apply Rows.serves_openai; [done|done| |by repeat constructor].
  exists {| s_scheme := "https"; s_host := "api.groq.com"; s_path := "/openai/v1" |}.
  split; vm_compute; reflexivity.
Defined.

Lemma ireland_is_served :
  Rows.serves "/v1/systemone" (br_endpoint ireland) (Reload.Chat (BedrockConv ireland)).
Proof. apply Rows.serves_converse; [done|done|]. by repeat constructor. Defined.

Definition groq_sent : Request := the_request (sent_by groq_chat (chat_request "gsk")).

Definition groq_again : Request := the_request (sent_by groq_chat (chat_request "other")).


Definition ireland_sent : Request := the_request (sent_by (BedrockConv ireland) converse_request).


Lemma model_is_one_segment_witness :
  ∃ seg action, Segments.one_segment "arn:aws:m/one?x" seg
  ∧ In action ["invoke"; "invoke-with-response-stream"; "converse"; "converse-stream"]
  ∧ parse (origin ireland +:+ "/model/" +:+ seg +:+ "/" +:+ action) = Ok (rq_url ireland_sent).
Proof.
  apply (model_is_one_segment toy_sha256 toy_hmac Wire.a_printer "" now "/v1/systemone"
    (br_endpoint ireland) (BedrockConv ireland) converse_request ireland_sent ireland_is_served).
  apply the_request_Ok. vm_compute. reflexivity.
Defined.

Definition aws_reads (body : string) : bool :=
  verify toy_sha256 toy_hmac (fun k => if Str.eqb k "AKIA" then Some "secret" else None) "eu-west-1"
    (rq_method ireland_sent) (url_path (rq_url ireland_sent)) (rq_headers ireland_sent) body.

(** The body that was sent verifies; another does not. *)
Example ireland_verifies :
  (match rq_body ireland_sent with BodyBytes b => aws_reads b | BodyJson _ => false end, aws_reads "x")
  = (true, false).
Proof. vm_compute. reflexivity. Qed.

Example ireland_path : url_path (rq_url ireland_sent) = "/model/arn:aws:m%2Fone%3Fx/converse-stream".
Proof. vm_compute. reflexivity. Qed.

End SentRequests.
