(* ===== verification/Offers.v ===== *)
(** * What a model list says

    [oag-upstream/src/listing.rs]: reading an endpoint's model list, across its
    pages, for the models a key may use and for what each one costs; the lists
    of a System One host ([jev.rs]), of a Codex seat ([codex.rs]) and of
    OpenRouter ([openrouter.rs]).

    Reading is a program that sends requests ([Reading]); what answers them is
    an environment, which may answer each request as it likes and differently
    each time. *)

From Stdlib Require Import Ascii QArith.
From S2P Require Import Prelude Text Money.
From S2P Require Import Domain.
From S2P Require Import Efforts.
From S2P Require Import Canonical.
From S2P Require Import Wire.
From S2P Require Import Respond.
From S2P Require Import Endpoints.
From S2P Require Import Upstream.
#[local] Open Scope string_scope.
#[local] Open Scope oag_scope.
#[local] Open Scope list_scope.
#[local] Open Scope Z_scope.

(** ** Parameters *)

(** [url]'s query pairs and origins. *)
Class UrlQuery `{U : UrlCrate} := {
  query_pairs : Url → list (string * string);
  (** [query_pairs_mut().clear().extend_pairs(pairs)] *)
  set_pairs : Url → list (string * string) → Url;
  append_pair : Url → string → string → Url;
  url_fragment : Url → option string;
  url_eqb : Url → Url → bool;
  (** [a.origin() == b.origin()], and [ascii_serialization] of an origin *)
  same_origin : Url → Url → bool;
  origin_text : Url → string
}.

(** [Decimal]'s readers of text, and rounding half away from zero to six
    places. *)
Class DecimalText (D : Type) := {
  dec_from_str : string → option D;
  dec_from_scientific : string → option D;
  dec_round6 : D → D
}.

(** ** Small readers *)

Module Entry.
Import Js Wire.

(** [value.get(key)]. *)
Definition get (v : Json) (key : string) : option Json :=
  match v with JObject fs => field key fs | _ => None end.

Definition text (v : Json) (key : string) : option string :=
  match get v key with Some v => as_str v | None => None end.

Definition flag (v : Json) (key : string) : bool := default false (as_bool (idx v key)).

Definition or_else {A} (a b : option A) : option A := match a with Some _ => a | None => b end.

Definition some {A} (o : option A) : bool := match o with Some _ => true | None => false end.

Definition filtered {A} (p : A → bool) (o : option A) : option A :=
  match o with Some a => if p a then Some a else None | None => None end.

(** [c.is_whitespace()] of any character: none of their encodings begins
    inside another character. *)
Fixpoint has_white_space (s : string) : bool :=
  match s with
  | EmptyString => false
  | String _ t => negb (Nat.eqb (Str.white_space_at s) 0) || has_white_space t
  end.

Definition is_wire_name (name : string) : bool :=
  negb (Str.is_empty name) && negb (has_white_space name || Str.has_control name).

(** [s.chars().take(n)], in bytes: the rest of a character goes with it. *)
Fixpoint take_chars (n : nat) (s : string) : string :=
  match s with
  | EmptyString => ""
  | String c s =>
      if Str.in_span 128 191 c then String c (take_chars n s)
      else match n with O => "" | S n => String c (take_chars n s) end
  end.

Definition ELLIPSIS : string :=
  Str.of_bytes (map (fun n => ascii_of_N n) [226%N; 128%N; 166%N]).

Definition snippet (body : string) : string :=
  let head := take_chars 300 body in
  if Str.eqb head body then body else head +:+ ELLIPSIS.

End Entry.

(** ** [listing.rs] *)

Definition MAX_PAGES : nat := 20.
Definition MAX_PAGE_BYTES : Z := 8388608.
Definition I32_MAX : Z := 2147483647.

Record Price (D : Type) : Type := {
  pr_input : D; pr_output : D; pr_cache_read : option D; pr_cache_write : option D
}.
Arguments pr_input {D} _. Arguments pr_output {D} _.
Arguments pr_cache_read {D} _. Arguments pr_cache_write {D} _.

Record Vendor (D : Type) : Type := {
  vn_name : string;
  vn_status : option string;
  vn_access_required : bool;
  vn_context_window : option Z;
  vn_max_output_tokens : option Z;
  vn_input : list string;
  vn_output : list string;
  vn_tools : bool;
  vn_reasoning : bool;
  vn_price : option (Price D)
}.
Arguments vn_name {D} _. Arguments vn_status {D} _. Arguments vn_access_required {D} _.
Arguments vn_context_window {D} _. Arguments vn_max_output_tokens {D} _.
Arguments vn_input {D} _. Arguments vn_output {D} _. Arguments vn_tools {D} _.
Arguments vn_reasoning {D} _. Arguments vn_price {D} _.

Record ListedModel (D : Type) : Type := {
  lm_upstream : option string;
  lm_display_name : option string;
  lm_status : option string;
  lm_access_required : bool;
  lm_vendors : list (Vendor D)
}.
Arguments lm_upstream {D} _. Arguments lm_display_name {D} _. Arguments lm_status {D} _.
Arguments lm_access_required {D} _. Arguments lm_vendors {D} _.

Inductive PriceChoice : Type := Cheapest | First.

Record Offer (D : Type) : Type := {
  of_upstream : string;
  of_display_name : option string;
  of_vendor : string;
  of_price : Price D;
  of_context_window : Z;
  of_max_output_tokens : Z;
  of_vision : bool;
  of_tools : bool;
  of_reasoning : bool
}.
Arguments of_upstream {D} _. Arguments of_display_name {D} _. Arguments of_vendor {D} _.
Arguments of_price {D} _. Arguments of_context_window {D} _.
Arguments of_max_output_tokens {D} _. Arguments of_vision {D} _. Arguments of_tools {D} _.
Arguments of_reasoning {D} _.

Inductive Skip : Type :=
  | Unnamed | AccessRequired | Unavailable (status : string) | NoVendor | NotChat (output : string)
  | NoCallableVendor | NoPrice | Free.

(** *** Choosing a vendor *)

Module Offers.
Import Js Wire Entry.

Definition ASSUMED_CONTEXT_WINDOW : Z := 131072.
Definition ASSUMED_MAX_OUTPUT_TOKENS : Z := 8192.
Definition UNAVAILABLE : list string :=
  ["deprecated"; "unavailable"; "retired"; "disabled"; "discontinued"; "sunset"].

Definition unavailable (status : option string) : bool :=
  match status with
  | Some s => any (fun u => Str.eqb (Str.to_ascii_lowercase s) u) UNAVAILABLE
  | None => false
  end.

Section choose.
Context {D : Type} `{Decimal D}.

Definition is_chat (v : Vendor D) : bool :=
  any (fun m => Str.eqb m "text") (vn_input v) && any (fun m => Str.eqb m "text") (vn_output v).

Definition vendor_callable (v : Vendor D) : bool :=
  negb (vn_access_required v) && negb (unavailable (vn_status v)).

Definition is_free (p : Price D) : bool := deq (pr_input p) dzero && deq (pr_output p) dzero.

Definition total (vp : Vendor D * Price D) : D := dadd (pr_input vp.2) (pr_output vp.2).

(** [min_by_key]: the first of equal minimums. *)
Fixpoint min_by (l : list (Vendor D * Price D)) : option (Vendor D * Price D) :=
  match l with
  | [] => None
  | x :: l =>
      match min_by l with
      | Some y => if dle (total x) (total y) then Some x else Some y
      | None => Some x
      end
  end.

Definition priced_vendors (l : list (Vendor D)) : list (Vendor D * Price D) :=
  filter_map (fun v => match vn_price v with Some p => Some (v, p) | None => None end) l.

Definition offer_of (upstream : string) (model : ListedModel D) (vp : Vendor D * Price D) : Offer D := {|
  of_upstream := upstream;
  of_display_name := lm_display_name model;
  of_vendor := vn_name vp.1;
  of_price := vp.2;
  of_context_window := default ASSUMED_CONTEXT_WINDOW (vn_context_window vp.1);
  of_max_output_tokens := default ASSUMED_MAX_OUTPUT_TOKENS (vn_max_output_tokens vp.1);
  of_vision := any (fun m => Str.eqb m "image") (vn_input vp.1);
  of_tools := vn_tools vp.1;
  of_reasoning := vn_reasoning vp.1
|}.

Definition choose (model : ListedModel D) (choice : PriceChoice) : result (Offer D) Skip :=
  match filtered is_wire_name (lm_upstream model) with
  | None => Err Unnamed
  | Some upstream =>
      if lm_access_required model then Err AccessRequired
      else match filtered (fun s => unavailable (Some s)) (lm_status model) with
      | Some status => Err (Unavailable status)
      | None =>
          match lm_vendors model with
          | [] => Err NoVendor
          | first :: _ =>
              match keep is_chat (lm_vendors model) with
              | [] =>
                  Err (NotChat match vn_output first with
                               | [] => "no stated output"
                               | output => Str.join " and " output
                               end)
              | chat =>
                  match keep vendor_callable chat with
                  | [] => Err NoCallableVendor
                  | callable =>
                      match priced_vendors callable with
                      | [] => Err NoPrice
                      | priced =>
                          let paid := keep (fun vp => negb (is_free vp.2)) priced in
                          match match choice with Cheapest => min_by paid | First => head paid end with
                          | Some vp => Ok (offer_of upstream model vp)
                          | None => Err Free
                          end
                      end
                  end
              end
          end
      end
  end.

(** *** Reading an entry *)

Context `{DT : DecimalText D}.

Definition modalities (v : Json) : list string :=
  map Str.to_ascii_lowercase (filter_map as_str (array_or_empty v)).

Definition positive (v : Json) : option Z :=
  match match v with
        | JNumber _ => as_u64 v
        | JString s => parse_uint U64_MAX (Str.trim s)
        | _ => None
        end with
  | Some n => if (n <=? I32_MAX) && (0 <? n) then Some n else None
  | None => None
  end.

Definition money (v : Json) : option D :=
  match match v with JNumber n => Some n | JString s => Some (Str.trim s) | _ => None end with
  | None => None
  | Some written =>
      match or_else (dec_from_str written) (dec_from_scientific written) with
      | None => None
      | Some exact =>
          let stored := dec_round6 exact in
          if dle dzero stored && dlt stored (dint 1000000) then Some stored else None
      end
  end.

Definition price (pricing : Json) : option (Price D) :=
  match money (idx pricing "input_per_million"), money (idx pricing "output_per_million") with
  | Some input, Some output =>
      Some {| pr_input := input; pr_output := output;
              pr_cache_read := money (idx pricing "cache_read_per_million");
              pr_cache_write := money (idx pricing "cache_write_per_million") |}
  | _, _ => None
  end.

Definition vendor (nv : string * Json) : Vendor D :=
  let v := nv.2 in
  let capabilities := idx v "capabilities" in {|
    vn_name := nv.1;
    vn_status := text v "availability_status";
    vn_access_required := flag v "access_required";
    vn_context_window := positive (idx v "context_window");
    vn_max_output_tokens := positive (idx v "max_output_tokens");
    vn_input := modalities (idx capabilities "input");
    vn_output := modalities (idx capabilities "output");
    vn_tools := flag capabilities "supports_tool_calling";
    vn_reasoning := flag capabilities "supports_reasoning";
    vn_price := price (idx v "pricing")
  |}.

Definition listed_model (item : Json) : ListedModel D := {|
  lm_upstream := or_else (text item "model") (text item "id");
  lm_display_name :=
    filtered (fun n => negb (Str.is_empty (Str.trim n))) (text item "display_name");
  lm_status := text item "availability_status";
  lm_access_required := flag item "access_required";
  lm_vendors := match get item "vendors" with
                | Some (JObject vendors) => map vendor vendors
                | _ => []
                end
|}.

(** A page's entries. *)
Definition items (page : Json) : option (list Json) :=
  match page with
  | JArray items => Some items
  | JObject o =>
      match or_else (field "data" o) (field "models" o) with Some v => as_array v | None => None end
  | _ => None
  end.

Definition priced_entries (page : Json) : list (ListedModel D) :=
  map listed_model (default [] (items page)).

End choose.

Inductive Shape : Type := Priced | Unpriced | Empty | NotAList.

Definition shape (page : Json) : Shape :=
  match items page with
  | None => NotAList
  | Some [] => Empty
  | Some items =>
      if any (fun i => match get i "vendors" with Some (JObject _) => true | _ => false end) items
      then Priced else Unpriced
  end.

Definition model_id (item : Json) : option string :=
  match item with
  | JString id => filtered is_wire_name (Some id)
  | _ =>
      let named :=
        match get item "vendors" with
        | Some _ => or_else (text item "model") (text item "id")
        | None => or_else (text item "id") (text item "model")
        end in
      filtered is_wire_name
        (or_else named
           match text item "name" with
           | Some name => Some (default name (Str.strip_prefix name "models/"))
           | None => None
           end)
  end.

Definition callable (item : Json) : bool :=
  negb match get item "access_required" with Some v => default false (as_bool v) | None => false end
  && negb (unavailable (text item "availability_status")).

Section page_ids.
Context (to_string : Json → string).

Definition named_items (items : list Json) : list (Json * string) :=
  filter_map (fun item => match model_id item with Some id => Some (item, id) | None => None end) items.

Definition page_ids (page : Json) : result (list string) Error :=
  match items page with
  | None => Err (Internal ("not a model list: " +:+ snippet (to_string page)))
  | Some items =>
      match named_items items, items with
      | [], _ :: _ =>
          Err (Internal ("the model list names no model: " +:+ snippet (to_string page)))
      | named, _ => Ok (map snd (keep (fun x : Json * string => callable x.1) named))
      end
  end.

End page_ids.
End Offers.

(** ** Reading the pages *)

(** What a request brings back: an error before the response's head, or a
    status and the body's chunks, any of which may be an error instead. *)
Inductive Exchange : Type :=
  | SendFailed (what : string)
  | Answered (status : Z) (chunks : list (result string string)).

(** A program that sends requests. *)
Inductive Reading `{U : UrlCrate} (A : Type) : Type :=
  | Done (r : result A Error)
  | OutOfFuel
  | Send (req : Request) (k : Exchange → Reading A).
Arguments Done {U A} _. Arguments OutOfFuel {U A}. Arguments Send {U A} _ _.

Module Reading.
Section reading.
Context `{U : UrlCrate}.

Fixpoint and_then {A B} (p : Reading A) (f : result A Error → Reading B) : Reading B :=
  match p with
  | Done r => f r
  | OutOfFuel => OutOfFuel
  | Send req k => Send req (fun x => and_then (k x) f)
  end.

(** [?]. *)
Definition bind {A B} (p : Reading A) (f : A → Reading B) : Reading B :=
  and_then p (fun r => match r with Ok a => f a | Err e => Done (Err e) end).

(** Against an environment that knows what was asked before: what was sent,
    and what came of it. *)
Fixpoint run {A} (env : list Request → Request → Exchange) (sent : list Request) (p : Reading A)
  : list Request * option (result A Error) :=
  match p with
  | Done r => (sent, Some r)
  | OutOfFuel => (sent, None)
  | Send req k => run env (sent ++ [req]) (k (env sent req))
  end.

End reading.
End Reading.

Record ModelSource : Type := {
  ms_dialect : Dialect;
  ms_base_url : string;
  ms_auth : AuthStyle;
  ms_headers : Custom.ExtraHeaders
}.

Record Served : Type := { sv_url : string; sv_pages : nat; sv_models : list string }.

Record Listing `{U : UrlCrate} (D : Type) : Type := {
  ls_url : Url; ls_pages : nat; ls_models : list (ListedModel D)
}.
Arguments ls_url {U D} _. Arguments ls_pages {U D} _. Arguments ls_models {U D} _.

Module Pages.
Import Js Wire Entry Offers Reading.

Section pages.
Context `{U : UrlCrate} `{Q : !UrlQuery} `{HC : HeaderCrate}.
(** Printing and parsing JSON, [from_utf8_lossy], [StatusCode]'s [Display], and
    [{}] of a [reqwest::Error] of a request that cannot be built. *)
Context (to_string : Json → string) (from_slice : string → result Json string)
  (lossy : string → string) (status_text : Z → string) (reqwest_error : string).
Context (display : Error → string).

(** What [side_channel_client] gives: a client, or why the proxy cannot be used. *)
Context (client : result () Error).

Definition parse_url (raw : string) : result Url Error :=
  match url_parse raw with
  | Ok u => Ok u
  | Err e => Err (Config (raw +:+ " is not a URL: " +:+ e))
  end.

Definition list_path (d : Dialect) : result string Error :=
  match d with
  | OpenAIChatCompletions | GeminiGenerateContent => Ok "/models"
  | AnthropicMessages => Ok "/v1/models"
  | other =>
      Err (Config ("an endpoint speaking " +:+ dialect_as_str other +:+ " has no model list to read"))
  end.

Definition list_url (source : ModelSource) : result Url Error :=
  let? path := list_path (ms_dialect source) in
  let? url := parse_url (ms_base_url source +:+ path) in
  Ok match ms_dialect source with
     | AnthropicMessages => append_pair url "limit" "1000"
     | GeminiGenerateContent => append_pair url "pageSize" "1000"
     | _ => url
     end.

Definition has_pair (url : Url) (name : string) : bool :=
  any (fun kv : string * string => Str.eqb kv.1 name) (query_pairs url).

Definition with_default (url : Url) (name value : string) : Url :=
  if has_pair url name then url else append_pair url name value.

Definition with_param (url : Url) (name value : string) : Url :=
  append_pair
    (set_pairs url (keep (fun kv : string * string => negb (Str.eqb kv.1 name)) (query_pairs url)))
    name value.

Definition derived (source : ModelSource) : result (list Url) Error :=
  let? path := list_path (ms_dialect source) in
  let? own := parse_url (ms_base_url source +:+ path) in
  let origin := url_clear_query (url_set_path own "/v1/models") in
  Ok (if url_eqb origin own then [own] else [own; origin]).

Definition on_origin (source : ModelSource) (raw : string) : result Url Error :=
  let? url := parse_url (Str.trim raw) in
  let? base := parse_url (ms_base_url source) in
  if negb (same_origin url base) then
    Err (Config ("the listing URL " +:+ url_as_str url +:+ " is not on the endpoint's origin ("
      +:+ origin_text base
      +:+ "): the endpoint's key is sent with the request, so it only goes where the endpoint answers"))
  else if negb (Str.is_empty (url_username url)) || some (url_password url)
          || some (url_fragment url) then
    Err (Config "the listing URL may not carry credentials or a fragment")
  else Ok url.

(** *** One page *)

Definition page_request (source : ModelSource) (url : Url) (key : string) : option Request :=
  match Upstream.values
    ([("accept", "application/json")]
     ++ (if bool_decide (ms_dialect source = AnthropicMessages)
         then [("anthropic-version", Upstream.ANTHROPIC_API_VERSION)] else [])
     ++ Upstream.keyed (ms_auth source) key) with
  | Some headers =>
      Some {| rq_method := "GET"; rq_url := url; rq_query := [];
              rq_headers := Upstream.apply (ms_headers source) headers; rq_body := BodyBytes "" |}
  | None => None
  end.

Fixpoint bounded_body (url : Url) (body : string) (chunks : list (result string string))
  : result string Error :=
  match chunks with
  | [] => Ok body
  | Err e :: _ => Err (Internal ("reading model list " +:+ url_as_str url +:+ ": " +:+ e))
  | Ok chunk :: chunks =>
      if MAX_PAGE_BYTES <? Str.len body + Str.len chunk then
        Err (Internal ("model list " +:+ url_as_str url +:+ " sent a page over 8 MiB; not read"))
      else bounded_body url (body +:+ chunk) chunks
  end.

(** [status.is_success()] *)
Definition is_success (status : Z) : bool := (200 <=? status) && (status <? 300).

Definition received (url : Url) (x : Exchange) : result Json Error :=
  match x with
  | SendFailed e => Err (Internal ("model list " +:+ url_as_str url +:+ ": " +:+ e))
  | Answered status chunks =>
      let? body := bounded_body url "" chunks in
      if negb (is_success status) then
        Err (Internal ("model list " +:+ url_as_str url +:+ " returned " +:+ status_text status
          +:+ ": " +:+ snippet (lossy body)))
      else
        match from_slice body with
        | Ok v => Ok v
        | Err e => Err (Internal ("model list " +:+ url_as_str url +:+ " is not JSON: " +:+ e))
        end
  end.

Definition get_json (source : ModelSource) (url : Url) (key : string) : Reading Json :=
  match page_request source url key with
  | None => Done (Err (Internal ("model list " +:+ url_as_str url +:+ ": " +:+ reqwest_error)))
  | Some req => Send req (fun x => Done (received url x))
  end.

(** *** Every page *)

Definition nonempty_text (page : Json) (key : string) : option string :=
  filtered (fun s => negb (Str.is_empty s)) (text page key).

Definition asked (param : string) (o : option string) : option (string * string) :=
  match o with Some v => Some (param, v) | None => None end.

Definition next_page (page : Json) (url : Url) : result (option (string * string)) Error :=
  match match get page "has_more" with Some v => as_bool v | None => None end with
  | Some false => Ok None
  | Some true =>
      match or_else (asked "cursor" (nonempty_text page "next_cursor"))
                    (asked "after_id" (nonempty_text page "last_id")) with
      | Some next => Ok (Some next)
      | None =>
          Err (Internal ("the model list at " +:+ url_as_str url
            +:+ " says it has more pages and names no cursor for the next one"))
      end
  | None =>
      Ok (or_else (asked "pageToken" (nonempty_text page "nextPageToken"))
                  (asked "cursor" (nonempty_text page "next_cursor")))
  end.

(** The loop of [read_pages]; every turn takes a page, and there are at most
    [MAX_PAGES]. *)
Fixpoint page_loop (fuel : nat) (source : ModelSource) (first : Url) (key : string)
    (page : Json) (pages : list Json) (cursors : list string) : Reading (list Json) :=
  match fuel with
  | O => OutOfFuel
  | S fuel =>
      match next_page page first with
      | Err e => Done (Err e)
      | Ok next =>
          let pages := pages ++ [page] in
          match next with
          | None => Done (Ok pages)
          | Some (param, cursor) =>
              if (MAX_PAGES <=? length pages)%nat then
                Done (Err (Internal ("the model list at " +:+ url_as_str first
                  +:+ " runs past 20 pages; a list read only in part is not used")))
              else if any (Str.eqb cursor) cursors then
                Done (Err (Internal ("the model list at " +:+ url_as_str first
                  +:+ " named the same next page twice")))
              else
                bind (get_json source (with_param first param cursor) key)
                  (fun page => page_loop fuel source first key page pages (cursor :: cursors))
          end
      end
  end.

Definition read_pages (source : ModelSource) (first : Url) (key : string) (fetched : option Json)
  : Reading (list Json) :=
  bind match fetched with Some page => Done (Ok page) | None => get_json source first key end
    (fun page => page_loop MAX_PAGES source first key page [] []).

(** *** [served] *)

(** A page's ids, those not seen before. *)
Definition fresh (models : list string) (ids : list string) : list string :=
  fold_left (fun models id => if any (Str.eqb id) models then models else models ++ [id]) ids models.

Fixpoint all_ids (models : list string) (pages : list Json) : result (list string) Error :=
  match pages with
  | [] => Ok models
  | page :: pages =>
      let? ids := page_ids to_string page in
      all_ids (fresh models ids) pages
  end.

Definition served (source : ModelSource) (key : string) : Reading Served :=
  match let? url := list_url source in let? _ := client in Ok url with
  | Err e => Done (Err e)
  | Ok url =>
      bind (read_pages source url key None) (fun pages =>
        match all_ids [] pages with
        | Err e => Done (Err e)
        | Ok models =>
            Done (Ok {| sv_url := url_as_str url; sv_pages := length pages; sv_models := models |})
        end)
  end.

(** *** [priced] *)

Section priced.
Context {D : Type} `{Decimal D} `{DT : !DecimalText D}.

(** What stands when no candidate priced its models. *)
Definition nothing_priced (unpriced empty : option Url) (failures : list string) : Error :=
  match unpriced, empty with
  | Some url, _ =>
      Config ("the model list at " +:+ url_as_str url
        +:+ " names models without prices, and a catalog row needs one, so nothing was written. Add its models one at a time with `oag admin catalog add --id <endpoint>/<model> --upstream <model> --input-per-mtok <usd> --output-per-mtok <usd> --context <tokens> --max-output <tokens>`, or point --listing-url at a list that prices them (per vendor, as Merge Gateway's does)")
  | None, Some url =>
      Config ("the model list at " +:+ url_as_str url +:+ " is empty, so nothing was written")
  | None, None =>
      Internal ("no priced model list could be read: " +:+ Str.join "; " failures)
  end.

Fixpoint tried (source : ModelSource) (key : string) (candidates : list Url)
    (unpriced empty : option Url) (failures : list string) : Reading (Listing D) :=
  match candidates with
  | [] => Done (Err (nothing_priced unpriced empty failures))
  | url :: candidates =>
      let url := with_default url "limit" "500" in
      and_then (get_json source url key) (fun first =>
        match first with
        | Err e => tried source key candidates unpriced empty (failures ++ [display e])
        | Ok first =>
            match shape first with
            | Priced =>
                bind (read_pages source url key (Some first)) (fun pages =>
                  Done (Ok {| ls_url := url; ls_pages := length pages;
                              ls_models := mjoin (map priced_entries pages) |}))
            | Unpriced => tried source key candidates (or_else unpriced (Some url)) empty failures
            | Empty => tried source key candidates unpriced (or_else empty (Some url)) failures
            | NotAList =>
                tried source key candidates unpriced empty
                  (failures ++ [url_as_str url +:+ " did not answer with a model list"])
            end
        end)
  end.

Definition priced (source : ModelSource) (listing_url : option string) (key : string)
  : Reading (Listing D) :=
  match let? candidates :=
          match listing_url with
          | Some raw => let? url := on_origin source raw in Ok [url]
          | None => derived source
          end in
        let? _ := client in Ok candidates with
  | Err e => Done (Err e)
  | Ok candidates => tried source key candidates None None []
  end.

End priced.
End pages.
End Pages.

(** ** Other lists *)

(** The SDK's [ModelMetadata]. *)
Record ModelMetadata : Type := { mm_name : string; mm_description : string; mm_release_date : string }.

Record ListingPage : Type := { lp_models : list ModelMetadata; lp_next : option string }.

Module OtherLists.
Import Js Wire Entry.

(** *** [jev.rs] *)

(** [keys.find_map(|key| entry.get(key).and_then(as_str))]. *)
Fixpoint first_text (entry : Json) (keys : list string) : option string :=
  match keys with [] => None | k :: keys => or_else (text entry k) (first_text entry keys) end.

(** [entry.get("vendors")]'s values. *)
Definition vendor_values (entry : Json) : list Json :=
  match get entry "vendors" with Some (JObject vendors) => map snd vendors | _ => [] end.

Definition outputs (entry : Json) : list (list Json) :=
  filter_map (fun v => match get v "capabilities" with
                       | Some c => match get c "output" with Some o => as_array o | None => None end
                       | None => None
                       end)
    (entry :: vendor_values entry).

Definition decides (entry : Json) : bool :=
  match outputs entry with
  | [] => true
  | outputs => any (fun output => any (fun kind => match kind with JString s => Str.eqb s "decision" | _ => false end) output) outputs
  end.

Definition listed (entry : Json) : option ModelMetadata :=
  match first_text entry ["name"; "model"] with
  | None => None
  | Some name =>
      let released :=
        or_else (first_text entry ["release_date"; "launch_date"])
          (head (filter_map (fun v => text v "launch_date") (vendor_values entry))) in
      Some {| mm_name := name;
              mm_description := default "" (first_text entry ["description"; "display_name"]);
              mm_release_date := default "" released |}
  end.

Definition array_at (page : Json) (key : string) : option (list Json) :=
  match get page key with Some v => as_array v | None => None end.

Definition is_object (v : Json) : bool := match v with JObject _ => true | _ => false end.

Definition listing_page (from_slice : string → result Json string) (body : string)
  : result ListingPage Error :=
  match from_slice body with
  | Err e => Err (Internal ("a System One listing that is not JSON: " +:+ e))
  | Ok page =>
      match or_else (array_at page "models") (array_at page "data") with
      | None => Err (Internal "a System One listing with neither a `models` nor a `data` list")
      | Some entries =>
          Ok {| lp_models := filter_map listed (keep decides (keep is_object entries));
                lp_next :=
                  match get page "has_more" with
                  | Some (JBool true) => text page "next_cursor"
                  | _ => None
                  end |}
      end
  end.

(** *** [codex.rs] *)

(** The longest prefix of at most [max] bytes that ends no character early. *)
Fixpoint boundary (fuel : nat) (cut : nat) (s : string) : nat :=
  match fuel with
  | O => cut
  | S fuel =>
      match String.get cut s with
      | Some c => if Str.in_span 128 191 c then boundary fuel (cut - 1) s else cut
      | None => cut
      end
  end.

Definition truncate (body : string) : string :=
  if Str.len body <=? 300 then body
  else Str.take (boundary 4 300 body) body +:+ ELLIPSIS.

Definition seat_id (row : Json) : option string :=
  match row with
  | JString s => Some s
  | other => or_else (as_str (idx other "slug")) (as_str (idx other "id"))
  end.

Definition parse_served (from_str : string → result Json string) (body : string)
  : result (list string) Error :=
  match from_str body with
  | Err e => Err (Internal ("codex models is not JSON: " +:+ e))
  | Ok json =>
      let rows :=
        match json with
        | JObject o =>
            match or_else (field "models" o) (field "data" o) with Some d => as_array d | None => None end
        | JArray rows => Some rows
        | _ => None
        end in
      match filter_map seat_id (default [] rows) with
      | [] => Err (Internal ("codex models: no ids in a payload shaped " +:+ truncate body))
      | ids => Ok ids
      end
  end.

Definition DEFAULT_CLIENT_VERSION : string := "0.152.1".

Definition client_version (user_agent : string) : string :=
  let candidate := match Str.rsplit_once user_agent "/" with Some (_, v) => v | None => user_agent end in
  match candidate with
  | String c _ => if Str.is_ascii_digit c then candidate else DEFAULT_CLIENT_VERSION
  | EmptyString => DEFAULT_CLIENT_VERSION
  end.

(** *** [openrouter.rs] *)

(** [.map(as_str).collect::<Option<_>>()]. *)
Fixpoint all_text (l : list Json) : option (list string) :=
  match l with
  | [] => Some []
  | JString s :: l => match all_text l with Some l => Some (s :: l) | None => None end
  | _ :: _ => None
  end.

Definition stated (entry : Json) : option (string * ReasoningEfforts) :=
  match text entry "id", get entry "reasoning" with
  | Some id, Some reasoning =>
      match array_at reasoning "supported_efforts" with
      | Some l =>
          match all_text l, text reasoning "default_effort" with
          | Some levels, Some default =>
              match Efforts.new levels default with Some e => Some (id, e) | None => None end
          | _, _ => None
          end
      | None => None
      end
  | _, _ => None
  end.

Definition parse (body : Json) (url : string) : result (gmap string ReasoningEfforts) Error :=
  match array_at body "data" with
  | None => Err (Internal (url +:+ " did not answer with a model list"))
  | Some entries =>
      let snapshot := Efforts.snapshot (filter_map stated entries) in
      if bool_decide (snapshot = ∅) then
        Err (Internal ("OpenRouter's model list at " +:+ url +:+ " states reasoning-effort levels for no model, so it is not in a shape this release reads, and nothing was written"))
      else Ok snapshot
  end.

(** *** [custom.rs] *)

Definition model_source (spec : Custom.EndpointSpec) : ModelSource := {|
  ms_dialect := ep_dialect (Custom.sp_endpoint spec);
  ms_base_url := Custom.sp_base_url spec;
  ms_auth := Custom.sp_auth spec;
  ms_headers := Custom.sp_extra_headers spec
|}.

Section models_request.
Context `{U : UrlCrate} `{HC : HeaderCrate}.
(** The SDK's path, [{}] of a [reqwest::Error]. *)
Context (MODELS_PATH reqwest_error : string).

Definition models_request (spec : Custom.EndpointSpec) (secret : option string) : result Request Error :=
  let ep := Custom.sp_endpoint spec in
  if negb (bool_decide (ep_platform ep = Plain)) then
    Err (Config ("endpoint `" +:+ ep_name ep +:+ "` is on the " +:+ platform_as_str (ep_platform ep)
      +:+ " platform, whose model list is not asked yet; only plain endpoints are"))
  else
    let? path :=
      match ep_dialect ep with
      | OpenAIChatCompletions | GeminiGenerateContent => Ok "/models"
      | AnthropicMessages => Ok "/v1/models"
      | SystemOne => Ok MODELS_PATH
      | other =>
          Err (Config ("endpoint `" +:+ ep_name ep +:+ "` speaks " +:+ dialect_as_str other
            +:+ ", which lists no models"))
      end in
    let failed := Err (Internal ("building the model list request for `" +:+ ep_name ep +:+ "`: "
      +:+ reqwest_error)) in
    match url_parse (Custom.sp_base_url spec +:+ path),
          Upstream.values
            ([("accept", "application/json")]
             ++ (if bool_decide (ep_dialect ep = AnthropicMessages)
                 then [("anthropic-version", Upstream.ANTHROPIC_API_VERSION)] else [])
             ++ match secret with Some key => Upstream.keyed (Custom.sp_auth spec) key | None => [] end) with
    | Ok url, Some headers =>
        Ok {| rq_method := "GET"; rq_url := url; rq_query := [];
              rq_headers := Upstream.apply (Custom.sp_extra_headers spec) headers; rq_body := BodyBytes "" |}
    | _, _ => failed
    end.

(** [JevUpstream::listing], for [models] and [models_page]. *)
Definition jev_listing (u : Custom.JevUpstream) (secret : string) (query : list (string * string))
  : result Request Error :=
  match url_parse (Custom.jv_base_url u +:+ MODELS_PATH),
        Upstream.values (Upstream.keyed (Custom.jv_auth u) secret ++ [("accept", "application/json")]) with
  | Ok url, Some headers =>
      Ok {| rq_method := "GET"; rq_url := url; rq_query := query;
            rq_headers := Upstream.apply (Custom.jv_extra_headers u) headers; rq_body := BodyBytes "" |}
  | _, _ => Err (Internal ("building a System One models request: " +:+ reqwest_error))
  end.

Definition PAGE_LIMIT : string := "500".

Definition models (u : Custom.JevUpstream) (secret : string) : result Request Error := jev_listing u secret [].

Definition models_page (u : Custom.JevUpstream) (secret : string) (cursor : option string)
  : result Request Error :=
  match cursor with
  | Some cursor => jev_listing u secret [("limit", PAGE_LIMIT); ("cursor", cursor)]
  | None => jev_listing u secret [("limit", PAGE_LIMIT)]
  end.

End models_request.
End OtherLists.

(** ** Lemmas *)

Module PagesRead.
Import Js Wire Entry Offers Reading Pages.

Section runs.
Context `{U : UrlCrate}.

Lemma run_and_then {A B} env sent (p : Reading A) (f : result A Error → Reading B) :
  run env sent (and_then p f) =
  match run env sent p with (sent', Some r) => run env sent' (f r) | (sent', None) => (sent', None) end.
Proof. revert sent; induction p as [r| |req k IH]; intros sent; cbn; [done..|]. apply IH. Qed.

Lemma run_bind {A B} env sent (p : Reading A) (f : A → Reading B) :
  run env sent (bind p f) =
  match run env sent p with
  | (sent', Some (Ok a)) => run env sent' (f a)
  | (sent', Some (Err e)) => (sent', Some (Err e))
  | (sent', None) => (sent', None)
  end.
Proof. unfold bind. rewrite run_and_then. by destruct (run env sent p) as [sent' [[a|e]|]]. Qed.

End runs.

Section pages.
Context `{U : UrlCrate} `{Q : !UrlQuery} `{HC : HeaderCrate}.
Context (to_string : Json → string) (from_slice : string → result Json string)
  (lossy : string → string) (status_text : Z → string) (reqwest_error : string).
Context (env : list Request → Request → Exchange).
#[local] Abbreviation get_json := (Pages.get_json from_slice lossy status_text reqwest_error).
#[local] Abbreviation received := (Pages.received from_slice lossy status_text).
#[local] Abbreviation page_loop := (Pages.page_loop from_slice lossy status_text reqwest_error).
#[local] Abbreviation read_pages := (Pages.read_pages from_slice lossy status_text reqwest_error).

(** What was sent and what came back, once [sent] has been sent. *)
Definition answers (source : ModelSource) (url : Url) (key : string) (sent : list Request)
    (page : Json) (sent' : list Request) : Prop :=
  ∃ req, page_request source url key = Some req ∧ received url (env sent req) = Ok page
  ∧ sent' = sent ++ [req].

Lemma run_get_json source url key sent :
  (∃ page sent', answers source url key sent page sent'
     ∧ run env sent (get_json source url key) = (sent', Some (Ok page)))
  ∨ ∃ e sent', (∀ page sent', ¬ answers source url key sent page sent')
     ∧ (sent' = sent ∨ ∃ req, page_request source url key = Some req ∧ sent' = sent ++ [req])
     ∧ run env sent (get_json source url key) = (sent', Some (Err e)).
Proof.
  unfold Pages.get_json, answers. destruct (page_request source url key) as [req|] eqn:Hr; cbn [run].
  - destruct (received url (env sent req)) as [page|e] eqn:Hx; [left|right].
    + exists page, (sent ++ [req]). split; [|done]. by exists req.
    + exists e, (sent ++ [req]). split_and!; [|by right; exists req|done].
      intros p s (req' & [= <-] & Hp & _). congruence.
  - right. eexists _, sent. split_and!; [|by left|done]. by intros p s (req' & ? & _).
Qed.

Lemma answers_run source url key sent page sent' :
  answers source url key sent page sent' →
  run env sent (get_json source url key) = (sent', Some (Ok page)).
Proof. intros (req & Hr & Hx & ->). unfold Pages.get_json. rewrite Hr. cbn [run]. by rewrite Hx. Qed.

(** What a page says of the next one, in each vendor's way.  [has_more] is said
    or it is not; a cursor is named by a text that is not empty. *)
Definition says_more (page : Json) (b : bool) : Prop := get page "has_more" = Some (JBool b).
Definition unsaid (page : Json) : Prop := ∀ b, ¬ says_more page b.
Definition names (page : Json) (key cursor : string) : Prop :=
  get page key = Some (JString cursor) ∧ cursor ≠ "".
Definition silent (page : Json) (key : string) : Prop := ∀ cursor, ¬ names page key cursor.

(** The last page of a list. *)
Inductive last_page (page : Json) : Prop :=
  | last_said : says_more page false → last_page page
  | last_silent : unsaid page → silent page "nextPageToken" → silent page "next_cursor" → last_page page.

(** A page that another follows: the parameter that asks for it, and its
    cursor. *)
Inductive goes_on (page : Json) : string → string → Prop :=
  | on_cursor c : says_more page true → names page "next_cursor" c → goes_on page "cursor" c
  | on_last_id c : says_more page true → silent page "next_cursor" → names page "last_id" c →
      goes_on page "after_id" c
  | on_token c : unsaid page → names page "nextPageToken" c → goes_on page "pageToken" c
  | on_unsaid c : unsaid page → silent page "nextPageToken" → names page "next_cursor" c →
      goes_on page "cursor" c.

Lemma named_or_silent page key :
  match nonempty_text page key with Some c => names page key c | None => silent page key end.
Proof.
  unfold nonempty_text, text, silent, names. destruct (get page key) as [[]|]; cbn [filtered as_str]; try (intros c [H _]; done).
  destruct (Str.is_empty s) eqn:E; cbn [negb].
  - intros c [[= ->] Hc]. by destruct c.
  - split; [done|]. by intros ->.
Qed.

Lemma next_page_says page url :
  match next_page page url with
  | Ok None => last_page page
  | Ok (Some (param, cursor)) => goes_on page param cursor
  | Err _ => says_more page true ∧ silent page "next_cursor" ∧ silent page "last_id"
  end.
Proof.
  unfold next_page. pose proof (named_or_silent page "next_cursor") as Hc.
  pose proof (named_or_silent page "last_id") as Hl. pose proof (named_or_silent page "nextPageToken") as Ht.
  destruct (match get page "has_more" with Some v => as_bool v | None => None end) as [[]|] eqn:E.
  - assert (says_more page true) as Hm by (unfold says_more; destruct (get page "has_more") as [[]|]; cbn in E; congruence).
    destruct (nonempty_text page "next_cursor"); [by constructor|].
    destruct (nonempty_text page "last_id"); [by constructor|done].
  - constructor. unfold says_more. destruct (get page "has_more") as [[]|]; cbn in E; congruence.
  - assert (unsaid page) as Hu by (intros b Hb; unfold says_more in Hb; by rewrite Hb in E).
    destruct (nonempty_text page "nextPageToken"); [by constructor|].
    destruct (nonempty_text page "next_cursor"); [by apply on_unsaid|by apply last_silent].
Qed.

Lemma names_one page key c c' : names page key c → names page key c' → c = c'.
Proof. intros [H _] [H' _]. congruence. Qed.

Lemma says_one page b b' : says_more page b → says_more page b' → b = b'.
Proof. unfold says_more. congruence. Qed.

(** A page says one thing. *)
Lemma last_goes page param cursor : last_page page → ¬ goes_on page param cursor.
Proof.
  intros Hl Hg. destruct Hl as [Hf|Hu Ht Hc], Hg as [c Hm _|c Hm _ _|c Hu' Hn|c Hu' _ Hn];
    try (by pose proof (says_one _ _ _ Hf Hm)); first [by eapply Hu'|by eapply Hu|by eapply Ht|by eapply Hc].
Qed.

Lemma goes_one page p c p' c' : goes_on page p c → goes_on page p' c' → p = p' ∧ c = c'.
Proof.
  intros [x Hm Hn|x Hm Hs Hn|x Hu Hn|x Hu Hs Hn] [y Hm' Hn'|y Hm' Hs' Hn'|y Hu' Hn'|y Hu' Hs' Hn'];
    try (exfalso; first [by eapply Hu|by eapply Hu'|by eapply Hs|by eapply Hs']);
    (split; [done|by eapply names_one]).
Qed.

Lemma next_page_last page url : next_page page url = Ok None ↔ last_page page.
Proof.
  pose proof (next_page_says page url) as H. split; [intros Heq; by rewrite Heq in H|]. intros Hl.
  destruct (next_page page url) as [[[param c]|]|e]; [by apply last_goes in H|done|].
  destruct H as (Hm & Hs & _). destruct Hl as [Hf|Hu _ _]; [by pose proof (says_one _ _ _ Hm Hf)|by apply Hu in Hm].
Qed.

Lemma next_page_on page url param c : next_page page url = Ok (Some (param, c)) ↔ goes_on page param c.
Proof.
  pose proof (next_page_says page url) as H. split; [intros Heq; by rewrite Heq in H|]. intros Hg.
  destruct (next_page page url) as [[[param' c']|]|e].
  - by destruct (goes_one _ _ _ _ _ H Hg) as [-> ->].
  - by apply last_goes in Hg.
  - destruct H as (Hm & Hs & Hl). destruct Hg as [x _ Hn|x _ _ Hn|x Hu _|x Hu _ _];
      [by apply Hs in Hn|by apply Hl in Hn|by apply Hu in Hm|by apply Hu in Hm].
Qed.

(** A list, from the page in hand: its pages and the cursors between them. *)
Inductive reads (source : ModelSource) (first : Url) (key : string)
  : list Request → Json → list Json → list string → list Request → Prop :=
  | reads_last sent page :
      last_page page → reads source first key sent page [page] [] sent
  | reads_more sent page param cursor sent1 page' pages cursors sent' :
      goes_on page param cursor →
      answers source (with_param first param cursor) key sent page' sent1 →
      reads source first key sent1 page' pages cursors sent' →
      reads source first key sent page (page :: pages) (cursor :: cursors) sent'.

Lemma reads_length source first key sent page pages cursors sent' :
  reads source first key sent page pages cursors sent' →
  length pages = S (length cursors) ∧ length sent' = (length sent + length cursors)%nat.
Proof.
  induction 1 as [|sent page param cursor sent1 page' pages cursors sent' _ (req & _ & _ & ->) _ [IH1 IH2]];
    cbn; [lia|]. rewrite length_app in IH2. cbn in IH2. lia.
Qed.

Lemma page_loop_complete source first key fuel page pages cursors sent rest cs sent' :
  (length pages + fuel = MAX_PAGES)%nat →
  reads source first key sent page rest cs sent' → (length pages + length rest ≤ MAX_PAGES)%nat →
  NoDup cs → (∀ c, In c cs → ¬ In c cursors) →
  run env sent (page_loop fuel source first key page pages cursors) = (sent', Some (Ok (pages ++ rest))).
Proof.
  intros Hf Hr. revert fuel pages cursors Hf.
  induction Hr as [sent page Hn|sent page param cursor sent1 page' rest cs sent' Hn Ha Hr IH];
    intros fuel pages cursors Hf Hl Hc Hd; cbn [length] in Hl;
    (destruct fuel as [|fuel]; [lia|]); cbn [Pages.page_loop];
    [by rewrite (proj2 (next_page_last page first) Hn)|rewrite (proj2 (next_page_on page first _ _) Hn)].
  pose proof (proj1 (reads_length _ _ _ _ _ _ _ _ Hr)).
  assert ((MAX_PAGES <=? length (pages ++ [page]))%nat = false) as ->.
  { apply Nat.leb_gt. rewrite length_app. cbn [length]. lia. }
  assert (any (Str.eqb cursor) cursors = false) as ->.
  { apply not_true_iff_false. intros (x & Hx & ->%Str.str_eqb_eq)%any_true. by apply (Hd x); [left|]. }
  rewrite run_bind, (answers_run _ _ _ _ _ _ Ha). apply NoDup_cons in Hc as [Hn1 Hc].
  rewrite IH; [by rewrite <-app_assoc|rewrite length_app; cbn [length]; lia..|done|].
  intros c Hin [->|Hin']; [by apply Hn1, list_elem_of_In|]. by apply (Hd c); [right|].
Qed.

Lemma page_loop_sound source first key fuel page pages cursors sent sent' out :
  (length pages + fuel = MAX_PAGES)%nat →
  run env sent (page_loop fuel source first key page pages cursors) = (sent', Some (Ok out)) →
  ∃ rest cs, reads source first key sent page rest cs sent' ∧ out = pages ++ rest
  ∧ (length out ≤ MAX_PAGES)%nat ∧ NoDup cs ∧ ∀ c, In c cs → ¬ In c cursors.
Proof.
  revert page pages cursors sent; induction fuel as [|fuel IH]; intros page pages cursors sent Hf;
    cbn [Pages.page_loop]; [done|].
  destruct (next_page page first) as [[[param cursor]|]|e] eqn:Hn; cbn [run]; [|intros Heq|done].
  2: { injection Heq as <- <-. exists [page], []. split_and!; [by constructor; eapply next_page_last|done| |constructor|done].
       rewrite length_app. cbn [length]. lia. }
  destruct (MAX_PAGES <=? length (pages ++ [page]))%nat; [done|].
  destruct (any (Str.eqb cursor) cursors) eqn:Hc; [done|].
  rewrite run_bind. destruct (run_get_json source (with_param first param cursor) key sent)
    as [(page' & sent1 & Ha & ->)|(e & sent1 & _ & _ & ->)]; [|done].
  intros (rest & cs & Hr & -> & Hl & Hnd & Hd)%IH; [|rewrite length_app; cbn [length]; lia].
  exists (page :: rest), (cursor :: cs). split_and!.
  - econstructor; [by eapply next_page_on|done..].
  - by rewrite <-app_assoc.
  - done.
  - apply NoDup_cons. split; [|done]. intros Hin%list_elem_of_In. apply (Hd cursor); [done|by left].
  - intros c [<-|Hin] Hin'; [|apply (Hd c); [done|by right]].
    apply not_true_iff_false in Hc. apply Hc, any_true. exists cursor. split; [done|apply Str.str_eqb_refl].
Qed.

Lemma stop_here {A} (P : Request → Prop) (sent : list Request) (r : A) fuel :
  (0 < fuel)%nat →
  ∃ reqs r', (sent, Some r) = (sent ++ reqs, Some r') ∧ (length reqs < fuel)%nat ∧ Forall P reqs.
Proof. intros H. exists [], r. by rewrite app_nil_r. Qed.

(** However it is answered, the loop ends, and sends no more than it has
    pages left. *)
Lemma page_loop_ends source first key fuel page pages cursors sent :
  (length pages + fuel = MAX_PAGES)%nat → (0 < fuel)%nat →
  ∃ reqs r, run env sent (page_loop fuel source first key page pages cursors) = (sent ++ reqs, Some r)
  ∧ (length reqs < fuel)%nat
  ∧ Forall (fun q => ∃ param cursor, page_request source (with_param first param cursor) key = Some q) reqs.
Proof.
  revert page pages cursors sent; induction fuel as [|fuel IH]; intros page pages cursors sent Hf H0; [lia|].
  cbn [Pages.page_loop]. destruct (next_page page first) as [[[param cursor]|]|e]; cbn [run].
  2, 3: by eapply stop_here.
  destruct (MAX_PAGES <=? length (pages ++ [page]))%nat eqn:Hm.
  { by eapply stop_here. }
  apply Nat.leb_gt in Hm. rewrite length_app in Hm. cbn [length] in Hm.
  destruct (any (Str.eqb cursor) cursors).
  { by eapply stop_here. }
  rewrite run_bind. destruct (run_get_json source (with_param first param cursor) key sent)
    as [(page' & sent1 & (req & Hq & _ & ->) & ->)|(e & sent1 & _ & Hs & ->)].
  - destruct (IH page' (pages ++ [page]) (cursor :: cursors) (sent ++ [req])) as (reqs & r & -> & Hl & Hall);
      [rewrite length_app; cbn [length]; lia|lia|].
    exists (req :: reqs), r. rewrite <-app_assoc. split_and!; [done|cbn; lia|].
    constructor; [by eexists _, _|done].
  - destruct Hs as [->|(req & Hq & ->)].
    + by eapply stop_here.
    + eexists [req], _. split_and!; [done|cbn; lia|]. constructor; [by eexists _, _|constructor].
Qed.

End pages.
End PagesRead.

(** ** Ids and offers *)

Module OfferLemmas.
Import Js Wire Entry Offers Pages.

Lemma fresh_spec ids : ∀ models, NoDup models →
  NoDup (fresh models ids) ∧ ∀ id, In id (fresh models ids) ↔ In id models ∨ In id ids.
Proof.
  unfold fresh. induction ids as [|x ids IH]; intros models Hn; cbn [fold_left].
  { split; [done|]. intros id. cbn. tauto. }
  destruct (any (Str.eqb x) models) eqn:Hx.
  - destruct (IH models Hn) as [IH1 IH2]. split; [done|]. intros id. rewrite IH2. cbn.
    apply any_true in Hx as (y & Hy & ->%Str.str_eqb_eq). naive_solver.
  - assert (¬ In x models) as Hx'.
    { intros Hin. apply not_true_iff_false in Hx. apply Hx, any_true. exists x. split; [done|apply Str.str_eqb_refl]. }
    destruct (IH (models ++ [x])) as [IH1 IH2].
    + apply NoDup_app. split_and!; [done| |apply NoDup_singleton].
      intros y Hy%list_elem_of_In ->%list_elem_of_singleton. done.
    + split; [done|]. intros id. rewrite IH2, in_app_iff. cbn. tauto.
Qed.

Section ids.
Context (to_string : Json → string).

(** What a page lists as callable. *)
Definition lists (page : Json) (id : string) : Prop :=
  ∃ l item, items page = Some l ∧ In item l ∧ model_id item = Some id ∧ callable item = true.

(** A list, and one whose entries name something. *)
Definition is_listing (page : Json) : Prop :=
  ∃ l, items page = Some l ∧ (l = [] ∨ ∃ item id, In item l ∧ model_id item = Some id).

Lemma named_items_In l item id : In (item, id) (named_items l) ↔ In item l ∧ model_id item = Some id.
Proof.
  unfold named_items. rewrite filter_map_In. split.
  - intros (x & Hx & H). destruct (model_id x) as [i|] eqn:E; [|done]. by injection H as -> ->.
  - intros [Hin Hm]. exists item. by rewrite Hm.
Qed.

Lemma page_ids_spec page ids :
  page_ids to_string page = Ok ids → is_listing page ∧ ∀ id, In id ids ↔ lists page id.
Proof.
  unfold page_ids, is_listing, lists. destruct (items page) as [l|] eqn:Hl; [|done].
  assert (∀ id, In id (map snd (keep (λ x : Json * string, callable x.1) (named_items l)))
    ↔ ∃ l' item, Some l = Some l' ∧ In item l' ∧ model_id item = Some id ∧ callable item = true) as Hids.
  { intros id. rewrite in_map_iff. split.
    - intros ([item i] & <- & [Hin Hc]%keep_In). apply named_items_In in Hin as [Hin Hm]. by exists l, item.
    - intros (l' & item & [= <-] & Hin & Hm & Hc). exists (item, id). split; [done|].
      apply keep_In. split; [by apply named_items_In|done]. }
  destruct (named_items l) as [|[item id] named] eqn:Hn; (destruct l as [|x l]; [try done|]).
  - intros Heq. injection Heq as <-. split; [by exists []; split; [|left]|exact Hids].
  - done.
  - intros Heq. injection Heq as <-. split; [|exact Hids]. eexists. split; [done|right].
    exists item, id. apply named_items_In. rewrite Hn. by left.
Qed.

Lemma all_ids_spec pages : ∀ models out, NoDup models → all_ids to_string models pages = Ok out →
  NoDup out ∧ Forall is_listing pages
  ∧ ∀ id, In id out ↔ In id models ∨ ∃ page, In page pages ∧ lists page id.
Proof.
  induction pages as [|page pages IH]; intros models out Hm; cbn [all_ids].
  { intros Heq. injection Heq as <-. split_and!; [done|constructor|]. intros id. split; [by left|].
    by intros [?|(? & [] & _)]. }
  intros (ids & [Hl Hids]%page_ids_spec & Hall)%result_bind_Ok.
  destruct (fresh_spec ids models Hm) as [Hn Hin]. destruct (IH _ _ Hn Hall) as (H1 & H2 & H3).
  split_and!; [done|by constructor|]. intros id. rewrite H3, Hin, Hids. split.
  - intros [[?|?]|(p & ? & ?)]; [by left|right; exists page; split; [by left|done]|right; exists p; split; [by right|done]].
  - intros [?|(p & [->|?] & ?)]; [by left; left|by left; right|right; by exists p].
Qed.

End ids.

Section offers.
Context {D : Type} `{DL : DecimalLaws D}.
Implicit Types l : list (Vendor D * Price D).

(** A vendor that may price the model. *)
Definition candidates (model : ListedModel D) : list (Vendor D * Price D) :=
  keep (fun vp => negb (is_free vp.2))
    (priced_vendors (keep vendor_callable (keep is_chat (lm_vendors model)))).

Lemma priced_candidates_In model v p :
  In (v, p) (candidates model) ↔
  In v (lm_vendors model) ∧ is_chat v = true ∧ vendor_callable v = true ∧ vn_price v = Some p
  ∧ is_free p = false.
Proof.
  unfold candidates, priced_vendors. rewrite keep_In, filter_map_In, negb_true_iff. split.
  - intros [(x & [[Hx Hc]%keep_In Hv]%keep_In & HH) Hf]. destruct (vn_price x) as [q|] eqn:Hp; [|done].
    injection HH as -> ->. done.
  - intros (Hin & Hc & Hv & Hp & Hf). split; [|done]. exists v. rewrite Hp. split; [|done].
    apply keep_In. split; [|done]. by apply keep_In.
Qed.

(** The first of the least. *)
Definition first_least l (vp : Vendor D * Price D) : Prop :=
  ∃ l1 l2, l = l1 ++ vp :: l2
  ∧ Forall (fun y => dlt (total vp) (total y) = true) l1 ∧ Forall (fun y => dle (total vp) (total y) = true) l2.

Lemma first_least_unique l x y : first_least l x → first_least l y → x = y.
Proof.
  intros (l1 & l2 & -> & H1 & H2) (k1 & k2 & Heq & K1 & K2). revert k1 Heq K1.
  induction l1 as [|a l1 IH]; intros [|b k1] Heq K1; cbn in Heq.
  - by injection Heq.
  - injection Heq as -> Heq. apply Forall_cons in K1 as [K1 _]. rewrite Heq, Forall_app in H2.
    destruct H2 as [_ [H2 _]%Forall_cons]. unfold dlt in K1. by rewrite H2 in K1.
  - injection Heq as -> Heq. apply Forall_cons in H1 as [H1 _]. rewrite <-Heq, Forall_app in K2.
    destruct K2 as [_ [K2 _]%Forall_cons]. unfold dlt in H1. by rewrite K2 in H1.
  - injection Heq as -> Heq. apply Forall_cons in H1 as [_ H1], K1 as [_ K1]. by eapply IH.
Qed.

Lemma min_by_spec l : match min_by l with Some vp => first_least l vp | None => l = [] end.
Proof using DL.
  induction l as [|x l IH]; [done|]. cbn [min_by]. destruct (min_by l) as [y|].
  2: { subst. exists [], []. by repeat constructor. }
  destruct IH as (l1 & l2 & -> & H1 & H2). destruct (dle (total x) (total y)) eqn:Hxy.
  - exists [], (l1 ++ y :: l2). split_and!; [done|constructor|]. apply Forall_app. split.
    + eapply Forall_impl; [exact H1|]. intros z Hz%dlt_le. by eapply dle_trans.
    + constructor; [done|]. eapply Forall_impl; [exact H2|]. intros z Hz. by eapply dle_trans.
  - exists (x :: l1), l2. split_and!; [done| |done]. constructor; [by apply dle_dlt|done].
Qed.

(** An entry that may be offered at all. *)
Definition offerable (model : ListedModel D) (upstream : string) : Prop :=
  lm_upstream model = Some upstream ∧ is_wire_name upstream = true
  ∧ lm_access_required model = false ∧ unavailable (lm_status model) = false.

Lemma choose_unfold model choice :
  (∃ upstream, offerable model upstream
   ∧ choose model choice =
     match match choice with Cheapest => min_by (candidates model) | First => head (candidates model) end with
     | Some vp => Ok (offer_of upstream model vp)
     | None => match choose model choice with Ok _ => Err Free | Err e => Err e end
     end)
  ∨ (¬ ∃ upstream, offerable model upstream) ∧ ∃ e, choose model choice = Err e.
Proof.
  unfold choose, offerable, filtered. destruct (lm_upstream model) as [u|]; cbv beta iota.
  2: { right. split; [by intros (? & ? & _)|by eexists]. }
  destruct (is_wire_name u) eqn:Hw.
  2: { right. split; [intros (? & [= <-] & ? & _); congruence|by eexists]. }
  destruct (lm_access_required model).
  { right. split; [by intros (? & _ & _ & ? & _)|by eexists]. }
  destruct (lm_status model) as [st|]; cbv beta iota.
  1: destruct (unavailable (Some st)) eqn:Hu.
  1: { right. split; [by intros (? & _ & _ & _ & ?)|by eexists]. }
  all: left; exists u; split; [done|]; unfold candidates.
  all: destruct (lm_vendors model) as [|first vs]; [by destruct choice|].
  all: destruct (keep is_chat (first :: vs)) as [|c cs]; [by destruct choice|].
  all: destruct (keep vendor_callable (c :: cs)) as [|d ds]; [by destruct choice|].
  all: destruct (priced_vendors (d :: ds)) as [|e es]; [by destruct choice|].
  all: by destruct (match choice with Cheapest => _ | First => _ end).
Qed.

End offers.
End OfferLemmas.

(** ** What the readers promise *)

Class UrlQueryLaws `{Q : UrlQuery} : Prop := {
  origin_append u n v b : same_origin (append_pair u n v) b = same_origin u b;
  origin_set u l b : same_origin (set_pairs u l) b = same_origin u b;
  origin_path u p b : same_origin (url_set_path u p) b = same_origin u b;
  origin_clear u b : same_origin (url_clear_query u) b = same_origin u b;
  (** A path after a base is in no part of its origin. *)
  origin_joined base path b u :
    In path ["/models"; "/v1/models"] → url_parse base = Ok b → same_origin b b = true →
    url_parse (base +:+ path) = Ok u → same_origin u b = true
}.

Module ModelLists.
Import Js Wire Entry Offers Reading Pages PagesRead OfferLemmas Upstream Verifier Requests Requested.

Section lists.
Context `{U : UrlCrate} `{Q : !UrlQuery} `{QL : !UrlQueryLaws} `{HC : HeaderCrate} `{HL : !HeaderLaws}.
Context (to_string : Json → string) (from_slice : string → result Json string)
  (lossy : string → string) (status_text : Z → string) (reqwest_error : string)
  (display : Error → string) (client : result () Error).
Context {D : Type} `{Decimal D} `{DT : !DecimalText D}.
Context (env : list Request → Request → Exchange).
#[local] Abbreviation served := (Pages.served to_string from_slice lossy status_text reqwest_error client).
#[local] Abbreviation priced :=
  (Pages.priced (D := D) from_slice lossy status_text reqwest_error display client).
#[local] Abbreviation answers := (PagesRead.answers from_slice lossy status_text env).
#[local] Abbreviation reads := (PagesRead.reads from_slice lossy status_text env).

(** A request that goes where the endpoint answers, with its key where its
    auth style puts it and nowhere else. *)
Definition at_home (source : ModelSource) (key : string) (base : Url) (q : Request) : Prop :=
  same_origin (rq_url q) base = true
  ∧ ∀ h, In h KEY_HEADERS → sent h (rq_headers q) = sent h (keyed (ms_auth source) key).

Lemma page_request_home source url key base q :
  Rows.good_headers Plain (ms_headers source) → same_origin url base = true →
  page_request source url key = Some q → at_home source key base q.
Proof using HL.
  intros Hg Ho. unfold page_request. destruct (values _) as [hs|] eqn:Hv; [|done].
  apply values_same in Hv as ->. intros Hq. injection Hq as <-. split; [done|]. intros h Hh. cbn [rq_headers].
  rewrite sent_apply.
  2: { apply (good_not_in Plain); [done|left]. by apply key_header_refused. }
  rewrite app_comm_cons. apply keyed_sent. intros x Hx.
  assert (x.1 = "accept" ∨ x.1 = "anthropic-version") as [-> | ->].
  { destruct Hx as [<-|Hx]; [by left|right].
    destruct (bool_decide _); [by destruct Hx as [<-|[]]|done]. }
  all: by repeat (destruct Hh as [<-|Hh]; [done|]).
Qed.

Lemma with_param_home url name value base :
  same_origin url base = true → same_origin (with_param url name value) base = true.
Proof using QL. intros Ho. unfold with_param. by rewrite origin_append, origin_set. Qed.

Lemma list_url_home source url base :
  url_parse (ms_base_url source) = Ok base → same_origin base base = true →
  list_url source = Ok url → same_origin url base = true.
Proof using QL.
  intros Hb Ho. unfold list_url, parse_url.
  intros (path & Hp & (u & Hu & Heq)%result_bind_Ok)%result_bind_Ok.
  destruct (url_parse (ms_base_url source +:+ path)) as [u'|] eqn:E; [|done]. injection Hu as <-.
  assert (same_origin u' base = true) as Hu'.
  { eapply (origin_joined _ path); [|done..]. destruct (ms_dialect source); try done; injection Hp as <-; first [by left|by right; left]. }
  injection Heq as <-. destruct (ms_dialect source); by rewrite ?origin_append.
Qed.

Lemma read_pages_home source first key base fetched before :
  Rows.good_headers Plain (ms_headers source) → same_origin first base = true →
  ∃ reqs r, run env before (read_pages from_slice lossy status_text reqwest_error source first key fetched)
            = (before ++ reqs, Some r)
  ∧ (length reqs ≤ MAX_PAGES - match fetched with Some _ => 1 | None => 0 end)%nat
  ∧ Forall (at_home source key base) reqs.
Proof using QL HL.
  intros Hg Ho. unfold read_pages. rewrite run_bind.
  assert (∀ page before, ∃ reqs r, run env before (page_loop from_slice lossy status_text reqwest_error
      MAX_PAGES source first key page [] []) = (before ++ reqs, Some r)
    ∧ (length reqs ≤ MAX_PAGES - 1)%nat ∧ Forall (at_home source key base) reqs) as Hloop.
  { intros page b. destruct (page_loop_ends from_slice lossy status_text reqwest_error env source first key
      MAX_PAGES page [] [] b) as (reqs & r & Hr & Hl & Hq); [done|unfold MAX_PAGES; lia|].
    exists reqs, r. split_and!; [done|unfold MAX_PAGES in *; lia|]. eapply Forall_impl; [exact Hq|].
    intros q (param & cursor & Hreq). eapply page_request_home; [done| |done]. by apply with_param_home. }
  destruct fetched as [page|]; [apply Hloop|].
  destruct (run_get_json from_slice lossy status_text reqwest_error env source first key before)
    as [(page & sent1 & (req & Hq & _ & ->) & ->)|(e & sent1 & _ & Hs & ->)].
  - destruct (Hloop page (before ++ [req])) as (reqs & r & -> & Hl & Hall). exists (req :: reqs), r.
    rewrite <-app_assoc. split_and!; [done|unfold MAX_PAGES in *; cbn [length]; lia|].
    constructor; [by eapply page_request_home|done].
  - destruct Hs as [->|(req & Hq & ->)]; [exists []|exists [req]]; eexists; rewrite ?app_nil_r;
      split_and!; try done; [unfold MAX_PAGES; cbn; lia..|].
    constructor; [by eapply page_request_home|done].
Qed.

Lemma tried_home source key base candidates : ∀ unpriced empty failures before,
  Rows.good_headers Plain (ms_headers source) →
  Forall (fun u => same_origin u base = true) candidates →
  ∃ reqs r, run env before (tried (D := D) from_slice lossy status_text reqwest_error display source key
              candidates unpriced empty failures) = (before ++ reqs, Some r)
  ∧ (length reqs ≤ length candidates + (MAX_PAGES - 1))%nat ∧ Forall (at_home source key base) reqs.
Proof using QL HL.
  induction candidates as [|url candidates IH]; intros unpriced empty failures before Hg Hc.
  { eexists [], _. rewrite app_nil_r. split_and!; [done|cbn; lia|constructor]. }
  apply Forall_cons in Hc as [Ho Hc]. cbn [tried]. rewrite run_and_then.
  assert (same_origin (Pages.with_default url "limit" "500") base = true) as Ho'.
  { unfold Pages.with_default. destruct (has_pair url "limit"); [done|]. by rewrite origin_append. }
  set (u := Pages.with_default url "limit" "500") in *. clearbody u.
  assert (∀ q, page_request source u key = Some q → at_home source key base q) as Hq
    by (intros q; by apply page_request_home).
  assert (∀ req unpriced empty failures, at_home source key base req →
    ∃ reqs r, run env (before ++ [req]) (tried (D := D) from_slice lossy status_text reqwest_error display
        source key candidates unpriced empty failures) = (before ++ reqs, Some r)
    ∧ (length reqs ≤ S (length candidates) + (MAX_PAGES - 1))%nat ∧ Forall (at_home source key base) reqs) as Hon.
  { intros req un em fa Hreq. destruct (IH un em fa (before ++ [req]) Hg Hc) as (reqs & r & -> & Hl & Hall).
    exists (req :: reqs), r. rewrite <-app_assoc. split_and!; [done|cbn [length]; lia|by constructor]. }
  destruct (run_get_json from_slice lossy status_text reqwest_error env source u key before)
    as [(page & sent1 & (req & Hr & _ & ->) & ->)|(e & sent1 & _ & [->|(req & Hr & ->)] & ->)].
  - specialize (Hq req Hr). destruct (shape page); [|by apply Hon..].
    rewrite run_bind. destruct (read_pages_home source u key base (Some page) (before ++ [req]) Hg Ho')
      as (reqs & r & -> & Hl & Hall).
    exists (req :: reqs). rewrite <-app_assoc.
    destruct r as [pages|e]; eexists; (split_and!; [done|cbn [length]; lia|by constructor]).
  - destruct (IH unpriced empty (failures ++ [display e]) before Hg Hc) as (reqs & r & -> & Hl & Hall).
    exists reqs, r. split_and!; [done|cbn [length]; lia|done].
  - by apply Hon, Hq.
Qed.

Lemma candidates_home source listing_url base urls :
  url_parse (ms_base_url source) = Ok base → same_origin base base = true →
  match listing_url with
  | Some raw => let? url := on_origin source raw in Ok [url] | None => derived source end = Ok urls →
  Forall (fun u => same_origin u base = true) urls ∧ (length urls ≤ 2)%nat.
Proof using QL.
  intros Hb Ho. destruct listing_url as [raw|].
  - intros (u & Hu & Heq)%result_bind_Ok. injection Heq as <-. split; [|cbn; lia]. apply Forall_singleton.
    unfold on_origin, parse_url in Hu. apply result_bind_Ok in Hu as (u' & _ & (b & Hb' & Hu)%result_bind_Ok).
    rewrite Hb in Hb'. injection Hb' as <-. destruct (same_origin u' base) eqn:E; [|done]. cbn [negb] in Hu.
    destruct (_ || _) in Hu; [done|]. by injection Hu as <-.
  - unfold derived, parse_url. intros (path & Hp & (own & Hown & Heq)%result_bind_Ok)%result_bind_Ok.
    destruct (url_parse (ms_base_url source +:+ path)) as [u'|] eqn:E; [|done]. injection Hown as <-.
    assert (same_origin u' base = true) as Hu'.
    { eapply (origin_joined _ path); [|done..]. destruct (ms_dialect source); try done; injection Hp as <-; first [by left|by right; left]. }
    injection Heq as <-. destruct (url_eqb _ _); (split; [|cbn; lia]);
      repeat constructor; try done. by rewrite origin_clear, origin_path.
Qed.

(** However it is answered, reading a model list ends, after at most
    [MAX_PAGES] requests (one more for a priced list, which may be looked for in two
    places), every one of them to the endpoint's own origin, with its key in
    the header its auth style names and in no other a key could go in. *)
Theorem lists_are_read_at_home source listing_url key base :
  url_parse (ms_base_url source) = Ok base → same_origin base base = true →
  Rows.good_headers Plain (ms_headers source) →
  (∃ reqs r, run env [] (served source key) = (reqs, Some r)
     ∧ (length reqs ≤ MAX_PAGES)%nat ∧ Forall (at_home source key base) reqs)
  ∧ ∃ reqs r, run env [] (priced source listing_url key) = (reqs, Some r)
     ∧ (length reqs ≤ S MAX_PAGES)%nat ∧ Forall (at_home source key base) reqs.
Proof using QL HL.
  intros Hb Ho Hg. split.
  - unfold Pages.served. destruct (let? url := list_url source in let? _ := client in Ok url) as [url|e] eqn:E;
      [|exists [], (Err e); split_and!; [done|cbn; lia|constructor]].
    apply result_bind_Ok in E as (u & Hu & (_ & _ & Heq)%result_bind_Ok). injection Heq as ->.
    rewrite run_bind. destruct (read_pages_home source url key base None [] Hg) as (reqs & r & -> & Hl & Hall).
    { by eapply list_url_home. }
    exists reqs. unfold MAX_PAGES in *.
    destruct r as [pages|e]; [destruct (all_ids to_string [] pages)|]; eexists;
      (split_and!; [done|cbn in Hl; lia|done]).
  - unfold Pages.priced. match goal with |- context [run env [] match ?x with _ => _ end] =>
      destruct x as [urls|e] eqn:E end; [|exists [], (Err e); split_and!; [done|cbn; lia|constructor]].
    apply result_bind_Ok in E as (us & Hu & (_ & _ & Heq)%result_bind_Ok). injection Heq as ->.
    destruct (candidates_home source listing_url base urls Hb Ho Hu) as [Hc Hl2].
    destruct (tried_home source key base urls None None [] [] Hg Hc) as (reqs & r & -> & Hl & Hall).
    exists reqs, r. split_and!; [done|unfold MAX_PAGES in *; lia|done].
Qed.


(** The ids a list is read as naming are those some page lists as callable, each once;
    and every page is a list, one that is empty or names something: no id is
    read from a page that says nothing. *)
Theorem served_ids_are_listed pages models :
  all_ids to_string [] pages = Ok models →
  NoDup models ∧ Forall is_listing pages
  ∧ ∀ id, In id models ↔ ∃ page, In page pages ∧ lists page id.
Proof.
  intros Ha. destruct (all_ids_spec to_string pages [] models) as (H1 & H2 & H3); [constructor|done|].
  split_and!; [done..|]. intros id. rewrite H3. split; [by intros [[]|?]|by right].
Qed.

End lists.

Section offers.
Context {D : Type} `{DL : DecimalLaws D}.

(** An entry of a priced list is offered exactly when it has a name a
    request can carry, is not marked unavailable or as needing access, and
    some vendor takes and gives text, can be called, and states a price that
    is not zero; the offer is on the terms of the first of the cheapest of those
    vendors, or of the first listed when that is what was asked. *)
Theorem offer_is_the_cheapest (model : ListedModel D) choice o :
  choose model choice = Ok o ↔
  ∃ upstream vp, offerable model upstream ∧ o = offer_of upstream model vp
  ∧ match choice with
    | Cheapest => first_least (candidates model) vp
    | First => ∃ rest, candidates model = vp :: rest
    end.
Proof using DL.
  destruct (choose_unfold model choice) as [(u & Hu & Heq)|(Hn & e & He)].
  2: { rewrite He. split; [done|]. intros (u & _ & Hu & _). exfalso. apply Hn. by exists u. }
  rewrite Heq. split.
  - destruct choice.
    + pose proof (min_by_spec (candidates model)) as Hm.
      destruct (min_by (candidates model)) as [vp|]; [|by destruct (choose model Cheapest)].
      intros Ho. injection Ho as <-. by exists u, vp.
    + destruct (candidates model) as [|vp rest]; cbn [head]; [by destruct (choose model First)|].
      intros Ho. injection Ho as <-. exists u, vp. split_and!; [done..|by eexists].
  - intros (u' & vp & (Hu' & _) & -> & Hvp). destruct Hu as (Hu & _). rewrite Hu in Hu'. injection Hu' as <-.
    destruct choice.
    + pose proof (min_by_spec (candidates model)) as Hm. destruct (min_by (candidates model)) as [vp'|].
      * by rewrite (first_least_unique _ _ _ Hm Hvp).
      * destruct Hvp as (l1 & l2 & Hl & _). rewrite Hm in Hl. by destruct l1.
    + by destruct Hvp as [rest ->].
Qed.

End offers.
End ModelLists.

(** ** Lists that are read *)

Module SmallLists.
Import Js Wire Entry Offers Reading Pages PagesRead OfferLemmas ModelLists Small SentRequests.

(** [Small]'s URLs, with query pairs. *)
Definition QUrl : Type := (SUrl * list (string * string))%type.

#[local] Instance query_url : UrlCrate := {|
  Url := QUrl;
  url_parse s := match parse s with Ok u => Ok (u, []) | Err e => Err e end;
  url_scheme u := s_scheme u.1;
  url_username _ := "";
  url_password _ := None;
  url_host u := Some (HDomain (s_host u.1));
  url_host_str u := Some (s_host u.1);
  url_port _ := None;
  url_port_or_known_default _ := None;
  url_path u := s_path u.1;
  url_as_str u := text u.1;
  url_set_path u p := ({| s_scheme := s_scheme u.1; s_host := s_host u.1; s_path := p |}, u.2);
  url_clear_query u := (u.1, []);
  url_clear_fragment u := u
|}.

#[local] Instance query_pairs_of_url : UrlQuery := {|
  query_pairs u := u.2;
  set_pairs u l := (u.1, l);
  append_pair u n v := (u.1, u.2 ++ [(n, v)]);
  url_fragment _ := None;
  url_eqb a b := Str.eqb (text a.1) (text b.1);
  same_origin a b := Str.eqb (s_scheme a.1) (s_scheme b.1) && Str.eqb (s_host a.1) (s_host b.1);
  origin_text u := s_scheme u.1 +:+ "://" +:+ s_host u.1
|}.

Lemma rest_joined scheme s path u b :
  Str.starts_with path "/" = true → rest scheme s = Ok b → rest scheme (s +:+ path) = Ok u →
  s_scheme u = s_scheme b ∧ s_host u = s_host b.
Proof.
  intros Hp. unfold rest. rewrite Str.bytes_app.
  destruct (cut (Str.bytes s)) as [host p] eqn:E. apply cut_spec in E as (Hs & Hn & Hsl).
  rewrite Hs, <-app_assoc, cut_app; [|done|].
  2: { right. destruct Hsl as [->|[t ->]]; [|by eexists]. apply Str.starts_with_app in Hp as [r ->].
       by eexists. }
  intros Hb Hu. destruct (_ && _) in Hb; [|done]. destruct (_ && _) in Hu; [|done].
  by injection Hb as <-; injection Hu as <-.
Qed.

Lemma strip_prefix_joined s p rest path :
  Str.strip_prefix s p = Some rest → Str.strip_prefix (s +:+ path) p = Some (rest +:+ path).
Proof. rewrite !Str.strip_prefix_Some. intros ->. by rewrite Str.append_assoc. Qed.

#[local] Instance small_query_laws : UrlQueryLaws.
Proof.
  constructor; try done. intros base path b u Hp Hb _ Hu. cbn [url_parse query_url] in *.
  destruct (parse base) as [b'|] eqn:Eb; [|done]. destruct (parse (base +:+ path)) as [u'|] eqn:Eu; [|done].
  injection Hb as <-. injection Hu as <-. cbn [same_origin query_pairs_of_url fst].
  assert (Str.starts_with path "/" = true) as Hsl by by destruct Hp as [<-|[<-|[]]].
  assert (s_scheme u' = s_scheme b' ∧ s_host u' = s_host b') as [-> ->]; [|by rewrite !Str.str_eqb_refl].
  unfold parse in Eb, Eu. destruct (Str.strip_prefix base "https://") as [r|] eqn:E1.
  - rewrite (strip_prefix_joined _ _ _ _ E1) in Eu. by eapply rest_joined.
  - destruct (Str.strip_prefix base "http://") as [r|] eqn:E2; [|done].
    rewrite (strip_prefix_joined _ _ _ _ E2) in Eu.
    destruct (Str.strip_prefix (base +:+ path) "https://") as [r'|] eqn:E3; [|by eapply rest_joined].
    apply Str.strip_prefix_Some in E2 as ->. apply Str.strip_prefix_Some in E3. done.
Qed.

#[local] Instance whole_numbers : DecimalText Q := {|
  dec_from_str s := match parse_uint U64_MAX s with Some n => Some (inject_Z n) | None => None end;
  dec_from_scientific _ := None;
  dec_round6 q := q
|}.

Definition merge : ModelSource :=
  {| ms_dialect := OpenAIChatCompletions; ms_base_url := "https://gateway.merge.dev/v1/openai";
     ms_auth := XApiKey; ms_headers := [("x-team", "blue")] |}.

Definition merge_base : Url :=
  ({| s_scheme := "https"; s_host := "gateway.merge.dev"; s_path := "/v1/openai" |}, []).

Definition named (id : string) : Json := JObject [("id", JString id)].

Definition first_page : Json :=
  JObject [("data", JArray [named "a"; JObject [("id", JString "b"); ("access_required", JBool true)]]);
           ("has_more", JBool true); ("next_cursor", JString "2")].
Definition last_page : Json := JObject [("data", JArray [named "c"; named "a"]); ("has_more", JBool false)].

(** A server of two pages. *)
Definition two_pages (sent : list Request) (_ : Request) : Exchange :=
  Answered 200 [Ok (a_printer match sent with [] => first_page | _ => last_page end)].

Definition parsed (s : string) : result Json string :=
  match a_parser s with Some v => Ok v | None => Err "not JSON" end.

Definition merge_run : list Request * option (result Served Error) :=
  run two_pages []
    (Pages.served a_printer parsed (fun s => s) Str.decimal "" (Ok tt) merge "key").

Example merge_serves :
  merge_run.2
  = Some (Ok {| sv_url := "https://gateway.merge.dev/v1/openai/models"; sv_pages := 2; sv_models := ["a"; "c"] |}).
Proof. vm_compute. reflexivity. Qed.

Lemma lists_are_read_at_home_witness :
  ∃ reqs r, merge_run = (reqs, Some r) ∧ (length reqs ≤ MAX_PAGES)%nat
  ∧ Forall (at_home merge "key" merge_base) reqs.
Proof.
  apply (lists_are_read_at_home (D := Q) a_printer parsed (fun s => s) Str.decimal "" (fun _ => "") (Ok tt)
    two_pages merge None "key" merge_base).
  - vm_compute. reflexivity.
  - vm_compute. reflexivity.
  - by repeat constructor.
Defined.

Definition merge_list : Url :=
  ({| s_scheme := "https"; s_host := "gateway.merge.dev"; s_path := "/v1/openai/models" |}, []).


Lemma served_ids_are_listed_witness :
  NoDup ["a"; "c"] ∧ Forall is_listing [first_page; last_page]
  ∧ ∀ id, In id ["a"; "c"] ↔ ∃ page, In page [first_page; last_page] ∧ lists page id.
Proof. apply (served_ids_are_listed a_printer). vm_compute. reflexivity. Defined.

Definition a_vendor (name : string) (output : list string) (input_price : Z) : Vendor Q := {|
  vn_name := name; vn_status := None; vn_access_required := false; vn_context_window := None;
  vn_max_output_tokens := Some 4096; vn_input := ["text"]; vn_output := output; vn_tools := true;
  vn_reasoning := false;
  vn_price := Some {| pr_input := inject_Z input_price; pr_output := inject_Z 5;
                      pr_cache_read := None; pr_cache_write := None |} |}.

Definition glm : ListedModel Q := {|
  lm_upstream := Some "zai/glm"; lm_display_name := None; lm_status := None; lm_access_required := false;
  lm_vendors := [a_vendor "zai" ["text"] 9; a_vendor "art" ["image"] 1; a_vendor "particle" ["text"] 3;
                 a_vendor "late" ["text"] 3] |}.

Lemma offer_is_the_cheapest_witness :
  choose glm Cheapest = Ok (offer_of "zai/glm" glm (a_vendor "particle" ["text"] 3,
    {| pr_input := inject_Z 3; pr_output := inject_Z 5; pr_cache_read := None; pr_cache_write := None |})).
Proof.
  apply (offer_is_the_cheapest glm Cheapest). eexists _, _. split_and!; [|reflexivity|].
  - by repeat constructor.
  - eexists [_], [_]. split_and!; [reflexivity|by repeat constructor..].
Defined.

(** Codex's own listing, and a user agent with no version in it. *)
Example codex_lists :
  OtherLists.parse_served parsed
    (a_printer (JObject [("models", JArray [JObject [("slug", JString "gpt-5")]; JString "luna"])]))
  = Ok ["gpt-5"; "luna"]
  ∧ OtherLists.client_version "codex_cli_rs/0.104.0" = "0.104.0"
  ∧ OtherLists.client_version "codex_cli_rs/unknown" = OtherLists.DEFAULT_CLIENT_VERSION.
Proof. vm_compute. done. Qed.

(** An entry of Merge's that gives decisions, and one that does not. *)
Example merge_decides :
  let gives kind := JObject [("model", JString "m"); ("vendors", JObject [("v", JObject [("capabilities",
    JObject [("output", JArray [JString kind])])])])] in
  OtherLists.decides (gives "decision") = true ∧ OtherLists.decides (gives "text") = false
  ∧ OtherLists.decides (JObject []) = true.
Proof. vm_compute. done. Qed.

End SmallLists.
