(* ===== verification/CatalogSync.v ===== *)
(** * The catalogue's sync with an endpoint's list

    [oag-server/src/endpoint_sync.rs] and the statements it runs
    ([oag-store/src/repo/catalog.rs]): which rows of the catalogue an
    endpoint's priced list writes and which it removes, decided against the
    rows as they were read and again, in the statements themselves, against the
    rows as they are.

    The table is a map by id, its primary key.  A statement that fails rolls
    the transaction back and the sync returns its error, having done nothing;
    the definitions are of the transaction that commits. *)

From Stdlib Require Import Ascii QArith.
From S2P Require Import Prelude Text Money.
From S2P Require Import Domain.
From S2P Require Import Efforts.
From S2P Require Import Canonical.
From S2P Require Import Wire.
From S2P Require Import Endpoints.
From S2P Require Import Upstream.
From S2P Require Import Offers.
#[local] Open Scope string_scope.
#[local] Open Scope oag_scope.
#[local] Open Scope list_scope.
#[local] Open Scope Z_scope.

(** ** Globs *)

Module Globs.

Definition is_continuation (c : ascii) : bool := Str.in_span 128 191 c.

(** [s.chars()], a character being its bytes. *)
Fixpoint chars (l : list ascii) : list (list ascii) :=
  match l with
  | [] => []
  | c :: l =>
      match chars l with
      | (d :: g) :: gs => if is_continuation d then (c :: d :: g) :: gs else [c] :: (d :: g) :: gs
      | gs => [c] :: gs
      end
  end.

Definition STAR : list ascii := ["*"%char].
Definition ONE : list ascii := ["?"%char].

(** For [*]: whether any prefix so far matched. *)
Fixpoint any_so_far (before : bool) (matched : list bool) : list bool :=
  match matched with
  | [] => []
  | m :: matched => let before := before || m in before :: any_so_far before matched
  end.

(** One pattern character. *)
Definition next_matched (p : list ascii) (text : list (list ascii)) (matched : list bool) : list bool :=
  if bool_decide (p = STAR) then any_so_far false matched
  else false :: zip_with (fun m c => m && (bool_decide (p = ONE) || bool_decide (p = c))) matched text.

Definition glob (pattern text : string) : bool :=
  let text := chars (Str.bytes text) in
  default false
    (last (fold_left (fun matched p => next_matched p text matched) (chars (Str.bytes pattern))
             (true :: replicate (length text) false))).

End Globs.

(** ** Rows *)

Record ModelRow (D : Type) : Type := {
  mr_id : string;
  mr_provider : string;
  mr_upstream_name : string;
  mr_input_per_mtok : D;
  mr_output_per_mtok : D;
  mr_cache_read_per_mtok : option D;
  mr_cache_write_per_mtok : option D;
  mr_context_window : Z;
  mr_max_output_tokens : Z;
  mr_supports_vision : bool;
  mr_supports_tools : bool;
  mr_supports_reasoning : bool;
  mr_supports_prompt_cache : bool;
  mr_display_label : option string;
  mr_reasoning_efforts : option (list string);
  mr_reasoning_effort : option string
}.
Arguments mr_id {D} _. Arguments mr_provider {D} _. Arguments mr_upstream_name {D} _.
Arguments mr_input_per_mtok {D} _. Arguments mr_output_per_mtok {D} _.
Arguments mr_cache_read_per_mtok {D} _. Arguments mr_cache_write_per_mtok {D} _.
Arguments mr_context_window {D} _. Arguments mr_max_output_tokens {D} _.
Arguments mr_supports_vision {D} _. Arguments mr_supports_tools {D} _.
Arguments mr_supports_reasoning {D} _. Arguments mr_supports_prompt_cache {D} _.
Arguments mr_display_label {D} _. Arguments mr_reasoning_efforts {D} _. Arguments mr_reasoning_effort {D} _.

Record StoredModelRow (D : Type) : Type := {
  sm_model : ModelRow D;
  sm_is_override : bool;
  sm_synced_by : option string
}.
Arguments sm_model {D} _. Arguments sm_is_override {D} _. Arguments sm_synced_by {D} _.

(** The tables a sync reads and writes: the catalogue by id, and each route's
    ladder. *)
Record Db (D : Type) : Type := {
  db_catalog : gmap string (StoredModelRow D);
  db_tiers : list Json
}.
Arguments db_catalog {D} _. Arguments db_tiers {D} _.

(** ** The plan *)

Record SyncOptions : Type := {
  so_listing_url : option string;
  so_include : list string;
  so_exclude : list string;
  so_price : PriceChoice;
  so_dry_run : bool;
  so_allow_shrink : bool
}.

Record SyncReport : Type := {
  rp_endpoint : string;
  rp_price : PriceChoice;
  rp_dry_run : bool;
  rp_added : list string;
  rp_updated : list string;
  rp_unchanged : list string;
  rp_removed : list string;
  rp_kept_on_ladder : list string;
  rp_held : list string;
  rp_skipped : list (string * Skip);
  rp_filtered : list string
}.

Inductive Refused : Type :=
  | Nothing (skipped filtered : nat)
  | Shrinks (removing synced : nat).

Record EndpointSync : Type := {
  es_written : list string;
  es_held : list string;
  es_removed : list string;
  es_efforts : list string
}.

Module Sync.
Import Offers.

(** [HashSet::contains]. *)
Definition among (l : list string) (x : string) : bool := any (Str.eqb x) l.

Section sync.
Context {D : Type} `{Decimal D}.

(** What the plan's loop has so far. *)
Record Acc : Type := {
  ac_added : list string;
  ac_updated : list string;
  ac_unchanged : list string;
  ac_held : list string;
  ac_skipped : list (string * Skip);
  ac_filtered : list string;
  ac_writes : list (ModelRow D);
  ac_offered : list string;
  ac_named : list string
}.

Definition empty_acc : Acc := {|
  ac_added := []; ac_updated := []; ac_unchanged := []; ac_held := []; ac_skipped := [];
  ac_filtered := []; ac_writes := []; ac_offered := []; ac_named := []
|}.

Definition admits (include exclude : list string) (upstream id : string) : bool :=
  let hit pattern := Globs.glob pattern upstream || Globs.glob pattern id in
  (match include with [] => true | _ => any hit include end) && negb (any hit exclude).

Definition catalog_row (endpoint label : string) (offer : Offer D) : ModelRow D :=
  let shown := default (of_upstream offer) (of_display_name offer) in {|
  mr_id := endpoint +:+ "/" +:+ of_upstream offer;
  mr_provider := endpoint;
  mr_upstream_name := of_upstream offer;
  mr_input_per_mtok := pr_input (of_price offer);
  mr_output_per_mtok := pr_output (of_price offer);
  mr_cache_read_per_mtok := pr_cache_read (of_price offer);
  mr_cache_write_per_mtok := pr_cache_write (of_price offer);
  mr_context_window := of_context_window offer;
  mr_max_output_tokens := of_max_output_tokens offer;
  mr_supports_vision := of_vision offer;
  mr_supports_tools := of_tools offer;
  mr_supports_reasoning := of_reasoning offer;
  mr_supports_prompt_cache := Entry.some (pr_cache_read (of_price offer));
  mr_display_label := Some (shown +:+ " (" +:+ label +:+ ")");
  mr_reasoning_efforts := None;
  mr_reasoning_effort := None
|}.

Definition same_price (a b : option D) : bool :=
  match a, b with Some a, Some b => deq a b | None, None => true | _, _ => false end.

Definition unchanged (stored : StoredModelRow D) (row : ModelRow D) : bool :=
  let m := sm_model stored in
  sm_is_override stored
  && Str.eqb (mr_upstream_name m) (mr_upstream_name row)
  && deq (mr_input_per_mtok m) (mr_input_per_mtok row)
  && deq (mr_output_per_mtok m) (mr_output_per_mtok row)
  && same_price (mr_cache_read_per_mtok m) (mr_cache_read_per_mtok row)
  && same_price (mr_cache_write_per_mtok m) (mr_cache_write_per_mtok row)
  && (mr_context_window m =? mr_context_window row)
  && (mr_max_output_tokens m =? mr_max_output_tokens row)
  && Bool.eqb (mr_supports_vision m) (mr_supports_vision row)
  && Bool.eqb (mr_supports_tools m) (mr_supports_tools row)
  && Bool.eqb (mr_supports_reasoning m) (mr_supports_reasoning row)
  && Bool.eqb (mr_supports_prompt_cache m) (mr_supports_prompt_cache row)
  && (Entry.some (mr_display_label m) || negb (Entry.some (mr_display_label row))).

(** [by_id.get(id)]. *)
Definition by_id (existing : list (StoredModelRow D)) (id : string) : option (StoredModelRow D) :=
  find (fun r => Str.eqb (mr_id (sm_model r)) id) existing.

(** An offered model's row, once. *)
Definition place (endpoint : string) (existing : list (StoredModelRow D)) (row : ModelRow D) (a : Acc)
  : Acc :=
  if among (ac_offered a) (mr_id row) then a
  else
    let with_ added updated unchanged held writes := {|
      ac_added := ac_added a ++ added; ac_updated := ac_updated a ++ updated;
      ac_unchanged := ac_unchanged a ++ unchanged; ac_held := ac_held a ++ held;
      ac_skipped := ac_skipped a; ac_filtered := ac_filtered a;
      ac_writes := ac_writes a ++ writes; ac_offered := mr_id row :: ac_offered a;
      ac_named := ac_named a |} in
    match by_id existing (mr_id row) with
    | None => with_ [mr_id row] [] [] [] [row]
    | Some stored =>
        if negb (Str.eqb (mr_provider (sm_model stored)) endpoint) then with_ [] [] [] [mr_id row] []
        else if unchanged stored row then with_ [] [] [mr_id row] [] []
        else with_ [] [mr_id row] [] [] [row]
    end.

Definition filtered_out (name : string) (a : Acc) : Acc := {|
  ac_added := ac_added a; ac_updated := ac_updated a; ac_unchanged := ac_unchanged a;
  ac_held := ac_held a; ac_skipped := ac_skipped a; ac_filtered := ac_filtered a ++ [name];
  ac_writes := ac_writes a; ac_offered := ac_offered a; ac_named := ac_named a
|}.

Definition name_it (id : string) (a : Acc) : Acc := {|
  ac_added := ac_added a; ac_updated := ac_updated a; ac_unchanged := ac_unchanged a;
  ac_held := ac_held a; ac_skipped := ac_skipped a; ac_filtered := ac_filtered a;
  ac_writes := ac_writes a; ac_offered := ac_offered a; ac_named := id :: ac_named a
|}.

Definition skip_it (name : string) (skip : Skip) (a : Acc) : Acc := {|
  ac_added := ac_added a; ac_updated := ac_updated a; ac_unchanged := ac_unchanged a;
  ac_held := ac_held a; ac_skipped := ac_skipped a ++ [(name, skip)]; ac_filtered := ac_filtered a;
  ac_writes := ac_writes a; ac_offered := ac_offered a; ac_named := ac_named a
|}.

Definition choose_row (endpoint label : string) (existing : list (StoredModelRow D)) (options : SyncOptions)
    (model : ListedModel D) (a : Acc) : Acc :=
  match choose model (so_price options) with
  | Err skip => skip_it (default "(unnamed)" (lm_upstream model)) skip a
  | Ok offer => place endpoint existing (catalog_row endpoint label offer) a
  end.

(** One turn of the loop. *)
Definition take_model (endpoint label : string) (existing : list (StoredModelRow D)) (options : SyncOptions)
    (a : Acc) (model : ListedModel D) : Acc :=
  match lm_upstream model with
  | None => choose_row endpoint label existing options model a
  | Some name =>
      let id := endpoint +:+ "/" +:+ name in
      if admits (so_include options) (so_exclude options) name id
      then choose_row endpoint label existing options model (name_it id a)
      else filtered_out name a
  end.

(** The rows earlier syncs of the endpoint wrote, of those this run manages. *)
Definition synced (endpoint : string) (existing : list (StoredModelRow D)) (options : SyncOptions)
  : list (ModelRow D) :=
  keep (fun m => Str.eqb (mr_provider m) endpoint
                 && admits (so_include options) (so_exclude options) (mr_upstream_name m) (mr_id m))
    (map sm_model
      (keep (fun r => bool_decide (sm_synced_by r = Some endpoint)) existing)).

Record Plan : Type := {
  pl_report : SyncReport;
  pl_writes : list (ModelRow D);
  pl_remove : list string
}.

Definition plan (endpoint label : string) (models : list (ListedModel D))
    (existing : list (StoredModelRow D)) (laddered : list string) (options : SyncOptions)
  : result Plan Refused :=
  let a := fold_left (take_model endpoint label existing options) models empty_acc in
  match ac_offered a with
  | [] => Err (Nothing (length (ac_skipped a)) (length (ac_filtered a)))
  | _ =>
      let synced := synced endpoint existing options in
      let stale := map mr_id (keep (fun m => negb (among (ac_named a) (mr_id m))) synced) in
      let kept := keep (among laddered) stale in
      let remove := keep (fun id => negb (among laddered id)) stale in
      if (length synced <? length remove * 2)%nat && negb (so_allow_shrink options)
      then Err (Shrinks (length remove) (length synced))
      else Ok {|
        pl_report := {|
          rp_endpoint := endpoint; rp_price := so_price options; rp_dry_run := so_dry_run options;
          rp_added := ac_added a; rp_updated := ac_updated a; rp_unchanged := ac_unchanged a;
          rp_removed := remove; rp_kept_on_ladder := kept; rp_held := ac_held a;
          rp_skipped := ac_skipped a; rp_filtered := ac_filtered a |};
        pl_writes := ac_writes a;
        pl_remove := remove |}
  end.

Definition settle (report : SyncReport) (done : EndpointSync) (remove : list string) : SyncReport :=
  let kept l := keep (fun x => negb (among (es_held done) x)) l in {|
  rp_endpoint := rp_endpoint report; rp_price := rp_price report; rp_dry_run := rp_dry_run report;
  rp_added := kept (rp_added report);
  rp_updated := kept (rp_updated report);
  rp_unchanged := rp_unchanged report;
  rp_removed := keep (among (es_removed done)) remove;
  rp_kept_on_ladder := rp_kept_on_ladder report ++ keep (fun id => negb (among (es_removed done) id)) remove;
  rp_held := rp_held report ++ es_held done;
  rp_skipped := rp_skipped report;
  rp_filtered := rp_filtered report
|}.

Definition levels_for (report : SyncReport) (overrides : gmap string (option ReasoningEfforts))
    (snapshot : gmap string ReasoningEfforts) : list (string * option ReasoningEfforts) * Efforts.Tally :=
  Efforts.plan overrides snapshot
    (map (fun id => (id, rp_endpoint report)) (rp_added report ++ rp_updated report ++ rp_unchanged report)).

(** *** The statements *)

(** [text] of an element of a rung's [models]: [jsonb_array_elements_text]. *)
Context (jsonb_text : Json → string).

Definition element_text (v : Json) : option string :=
  match v with JNull => None | JString s => Some s | other => Some (jsonb_text other) end.

Definition rung_models (rung : Json) : list string :=
  match Entry.get rung "models" with
  | Some (JArray models) => filter_map element_text models
  | _ => []
  end.

Definition laddered_models (db : Db D) : list string :=
  mjoin (map (fun tiers => match tiers with JArray rungs => mjoin (map rung_models rungs) | _ => [] end)
           (db_tiers db)).

(** [ORDER BY id], which nothing here depends on, is the map's own order. *)
Definition provider_models (provider : string) (db : Db D) : list (StoredModelRow D) :=
  keep (fun r => Str.eqb (mr_provider (sm_model r)) provider
                 || Str.starts_with (mr_id (sm_model r)) (provider +:+ "/"))
    (map snd (map_to_list (db_catalog db))).

Definition with_catalog (f : gmap string (StoredModelRow D)) (db : Db D) : Db D :=
  {| db_catalog := f; db_tiers := db_tiers db |}.

(** [SYNC_MODEL_SQL]: the row as it is written, over what is there. *)
Definition synced_row (m : ModelRow D) (old : option (ModelRow D)) : StoredModelRow D := {|
  sm_model := {|
    mr_id := mr_id m; mr_provider := mr_provider m; mr_upstream_name := mr_upstream_name m;
    mr_input_per_mtok := mr_input_per_mtok m; mr_output_per_mtok := mr_output_per_mtok m;
    mr_cache_read_per_mtok := mr_cache_read_per_mtok m;
    mr_cache_write_per_mtok := mr_cache_write_per_mtok m;
    mr_context_window := mr_context_window m; mr_max_output_tokens := mr_max_output_tokens m;
    mr_supports_vision := mr_supports_vision m; mr_supports_tools := mr_supports_tools m;
    mr_supports_reasoning := mr_supports_reasoning m;
    mr_supports_prompt_cache := mr_supports_prompt_cache m;
    mr_display_label := match old with
                        | Some o => Entry.or_else (mr_display_label o) (mr_display_label m)
                        | None => mr_display_label m
                        end;
    mr_reasoning_efforts := match old with Some o => mr_reasoning_efforts o | None => None end;
    mr_reasoning_effort := match old with Some o => mr_reasoning_effort o | None => None end |};
  sm_is_override := true;
  sm_synced_by := Some (mr_provider m)
|}.

Definition sync_model (db : Db D) (m : ModelRow D) : Db D * option string :=
  match db_catalog db !! mr_id m with
  | None => (with_catalog (<[mr_id m := synced_row m None]> (db_catalog db)) db, Some (mr_id m))
  | Some old =>
      if Str.eqb (mr_provider (sm_model old)) (mr_provider m)
      then (with_catalog (<[mr_id m := synced_row m (Some (sm_model old))]> (db_catalog db)) db,
            Some (mr_id m))
      else (db, None)
  end.

Fixpoint sync_rows (db : Db D) (rows : list (ModelRow D)) : Db D * list string * list string :=
  match rows with
  | [] => (db, [], [])
  | m :: rows =>
      let '(db, written) := sync_model db m in
      let '(db, ids, held) := sync_rows db rows in
      match written with
      | Some id => (db, id :: ids, held)
      | None => (db, ids, mr_id m :: held)
      end
  end.

(** [SET_EFFORTS_SQL]. *)
Definition set_efforts (provider : option string) (db : Db D) (e : string * option ReasoningEfforts)
  : Db D * option string :=
  match db_catalog db !! e.1 with
  | None => (db, None)
  | Some old =>
      let m := sm_model old in
      let values := match e.2 with Some l => Some (Efforts.values l) | None => None end in
      let default := match e.2 with Some l => Some (value (default_level l)) | None => None end in
      if match provider with Some p => Str.eqb (mr_provider m) p | None => true end
         && negb (bool_decide (mr_reasoning_efforts m = values)
                  && bool_decide (mr_reasoning_effort m = default))
      then
        (with_catalog (<[e.1 := {|
           sm_model := {|
             mr_id := mr_id m; mr_provider := mr_provider m; mr_upstream_name := mr_upstream_name m;
             mr_input_per_mtok := mr_input_per_mtok m; mr_output_per_mtok := mr_output_per_mtok m;
             mr_cache_read_per_mtok := mr_cache_read_per_mtok m;
             mr_cache_write_per_mtok := mr_cache_write_per_mtok m;
             mr_context_window := mr_context_window m; mr_max_output_tokens := mr_max_output_tokens m;
             mr_supports_vision := mr_supports_vision m; mr_supports_tools := mr_supports_tools m;
             mr_supports_reasoning := mr_supports_reasoning m;
             mr_supports_prompt_cache := mr_supports_prompt_cache m;
             mr_display_label := mr_display_label m;
             mr_reasoning_efforts := values; mr_reasoning_effort := default |};
           sm_is_override := sm_is_override old; sm_synced_by := sm_synced_by old |}]>
           (db_catalog db)) db, Some e.1)
      else (db, None)
  end.

Fixpoint write_efforts (provider : option string) (db : Db D)
    (efforts : list (string * option ReasoningEfforts)) : Db D * list string :=
  match efforts with
  | [] => (db, [])
  | e :: efforts =>
      let '(db, changed) := set_efforts provider db e in
      let '(db, rest) := write_efforts provider db efforts in
      (db, match changed with Some id => id :: rest | None => rest end)
  end.

(** [DELETE_STALE_SQL]: whether it removes a row. *)
Definition is_stale (provider : string) (stale laddered : list string) (r : StoredModelRow D) : bool :=
  Str.eqb (mr_provider (sm_model r)) provider && bool_decide (sm_synced_by r = Some provider)
  && among stale (mr_id (sm_model r)) && negb (among laddered (mr_id (sm_model r))).

Definition delete_stale (provider : string) (stale : list string) (db : Db D) : Db D * list string :=
  let laddered := laddered_models db in
  (with_catalog (filter (fun kv => is_stale provider stale laddered kv.2 = false) (db_catalog db)) db,
   map (fun r => mr_id (sm_model r))
     (keep (is_stale provider stale laddered) (map snd (map_to_list (db_catalog db))))).

Definition sync_endpoint_models (provider : string) (rows : list (ModelRow D)) (stale : list string)
    (efforts : list (string * option ReasoningEfforts)) (db : Db D) : result (Db D * EndpointSync) Error :=
  match find (fun m => negb (Str.eqb (mr_provider m) provider)) rows with
  | Some stray =>
      Err (Internal ("syncing " +:+ provider +:+ "'s catalog rows was handed " +:+ mr_id stray
        +:+ ", which is " +:+ mr_provider stray +:+ "'s"))
  | None =>
      let '(db, written, held) := sync_rows db rows in
      let '(db, changed) := write_efforts (Some provider) db efforts in
      let '(db, removed) := delete_stale provider stale db in
      Ok (db, {| es_written := written; es_held := held; es_removed := removed; es_efforts := changed |})
  end.

(** *** The sync *)

(** [sync], from the list it read: what it read of the tables ([read]) and what
    it then found them to be ([db]).  [effort_sources], when levels were asked
    for. *)
Definition sync (endpoint label url : string) (models : list (ListedModel D)) (options : SyncOptions)
    (sources : option (gmap string (option ReasoningEfforts) * gmap string ReasoningEfforts))
    (read db : Db D) : result (Db D * SyncReport) Error :=
  match plan endpoint label models (provider_models endpoint read) (laddered_models read) options with
  | Err (Nothing skipped filtered) =>
      Err (Config ("the model list at " +:+ url +:+ " offers no chat model this sync can price ("
        +:+ Str.decimal (Z.of_nat skipped) +:+ " skipped, " +:+ Str.decimal (Z.of_nat filtered)
        +:+ " filtered out), so nothing was written or removed"))
  | Err (Shrinks removing synced) =>
      Err (Config ("the model list at " +:+ url +:+ " no longer names "
        +:+ Str.decimal (Z.of_nat removing) +:+ " of the " +:+ Str.decimal (Z.of_nat synced)
        +:+ " models earlier syncs of " +:+ endpoint
        +:+ " wrote, more than half, so nothing was written or removed: a list that shrinks that far is more often one read in part, or changed in shape, than an endpoint withdrawing its models. See what it names with `oag admin endpoint models " +:+ endpoint
        +:+ "`, and run the sync again with --allow-shrink to remove them"))
  | Ok p =>
      let levels :=
        match sources with
        | Some (overrides, snapshot) => (levels_for (pl_report p) overrides snapshot).1
        | None => []
        end in
      if so_dry_run options then Ok (db, pl_report p)
      else
        match sync_endpoint_models endpoint (pl_writes p) (pl_remove p) levels db with
        | Err e => Err e
        | Ok (db, done) => Ok (db, settle (pl_report p) done (pl_remove p))
        end
  end.

End sync.
End Sync.

(** ** Globs *)

Module GlobLemmas.
Import Globs.

Inductive matches : list (list ascii) → list (list ascii) → Prop :=
  | matches_nil : matches [] []
  | matches_star ps t1 t2 : matches ps t2 → matches (STAR :: ps) (t1 ++ t2)
  | matches_one p ps c t : p ≠ STAR → p = ONE ∨ p = c → matches ps t → matches (p :: ps) (c :: t).

Lemma matches_app ps qs t :
  matches (ps ++ qs) t ↔ ∃ t1 t2, t = t1 ++ t2 ∧ matches ps t1 ∧ matches qs t2.
Proof.
  revert t; induction ps as [|p ps IH]; intros t; cbn [app].
  { split; [intros Hm; exists [], t; by repeat constructor|]. intros (t1 & t2 & -> & H1 & H2). by inversion H1. }
  split.
  - intros Hm. inversion Hm as [|? t0 t' Hm'|? ? c t' Hp Hc Hm']; subst;
      apply IH in Hm' as (t1 & t2 & -> & H1 & H2).
    + exists (t0 ++ t1), t2. split_and!; [by rewrite <-app_assoc|by constructor|done].
    + exists (c :: t1), t2. split_and!; [done|by constructor|done].
  - intros (t1 & t2 & -> & H1 & H2). inversion H1 as [|? s1 s2 Hm'|? ? c t' Hp Hc Hm']; subst.
    + rewrite <-app_assoc. constructor. apply IH. by exists s2, t2.
    + cbn [app]. constructor; [done..|]. apply IH. by exists t', t2.
Qed.

Lemma matches_snoc_star ps t : matches (ps ++ [STAR]) t ↔ ∃ t1 t2, t = t1 ++ t2 ∧ matches ps t1.
Proof.
  rewrite matches_app. split.
  - intros (t1 & t2 & -> & Hm & _). by exists t1, t2.
  - intros (t1 & t2 & -> & Hm). exists t1, t2. split_and!; [done..|].
    rewrite <-(app_nil_r t2). constructor. constructor.
Qed.

Lemma matches_snoc_one ps p t :
  p ≠ STAR → matches (ps ++ [p]) t ↔ ∃ t1 c, t = t1 ++ [c] ∧ (p = ONE ∨ p = c) ∧ matches ps t1.
Proof.
  intros Hp. rewrite matches_app. split.
  - intros (t1 & t2 & -> & Hm & H2). inversion H2 as [| |? ? c t' _ Hc Hn]; subst; [done|].
    inversion Hn; subst. by exists t1, c.
  - intros (t1 & c & -> & Hc & Hm). exists t1, [c]. split_and!; [done..|]. constructor; [done..|constructor].
Qed.

Lemma any_so_far_lookup l : ∀ before j,
  any_so_far before l !! j = Some true ↔
  (j < length l)%nat ∧ (before = true ∨ ∃ i, (i ≤ j)%nat ∧ l !! i = Some true).
Proof.
  induction l as [|m l IH]; intros before j; cbn [any_so_far length].
  { rewrite lookup_nil. split; [done|lia]. }
  destruct j as [|j]; cbn [lookup list_lookup].
  - split.
    + intros Heq. injection Heq as Heq. apply orb_true_iff in Heq as [->| ->]; (split; [lia|]);
        [by left|right; exists 0%nat]. done.
    + intros [_ [->|(i & Hi & Hl)]]; [done|]. assert (i = 0%nat) as -> by lia. injection Hl as ->.
      by rewrite orb_true_r.
  - rewrite IH, orb_true_iff. split.
    + intros [Hj [[->| ->]|(i & Hi & Hl)]]; (split; [lia|]).
      * by left. * right. exists 0%nat. split; [lia|done]. * right. exists (S i). split; [lia|done].
    + intros [Hj [->|(i & Hi & Hl)]]; (split; [lia|]).
      * by left; left.
      * destruct i as [|i]; [left; right; by injection Hl|right]. exists i. split; [lia|done].
Qed.

Lemma any_so_far_length l before : length (any_so_far before l) = length l.
Proof. revert before; induction l as [|m l IH]; intros before; [done|]. cbn. by rewrite IH. Qed.

(** The prefixes of [text] that a pattern matches. *)
Definition reached (text : list (list ascii)) (ps : list (list ascii)) (matched : list bool) : Prop :=
  length matched = S (length text)
  ∧ ∀ j, (j ≤ length text)%nat → matched !! j = Some true ↔ matches ps (firstn j text).

Lemma take_split (text t1 t2 : list (list ascii)) j :
  firstn j text = t1 ++ t2 → t1 = firstn (length t1) text ∧ (length t1 ≤ j)%nat.
Proof.
  intros Heq. pose proof (f_equal length Heq) as Hl. rewrite length_firstn, length_app in Hl.
  split; [|lia]. pose proof (f_equal (firstn (length t1)) Heq) as Hf.
  rewrite firstn_firstn, firstn_app, Nat.sub_diag, firstn_O, app_nil_r, firstn_all in Hf.
  rewrite Nat.min_l in Hf by lia. done.
Qed.

Lemma reached_star text ps matched :
  reached text ps matched → reached text (ps ++ [STAR]) (any_so_far false matched).
Proof.
  intros [Hl Hm]. split; [by rewrite any_so_far_length|]. intros j Hj.
  rewrite any_so_far_lookup, matches_snoc_star. split.
  - intros [_ [Hf|(i & Hi & Hmi)]]; [done|]. apply Hm in Hmi; [|lia].
    exists (firstn i text), (skipn i (firstn j text)). split; [|done].
    rewrite <-(firstn_skipn i (firstn j text)) at 1. by rewrite firstn_firstn, Nat.min_l by lia.
  - intros (t1 & t2 & Heq & Hm1). destruct (take_split _ _ _ _ Heq) as [Ht Hle].
    split; [lia|right]. exists (length t1). split; [done|]. apply Hm; [lia|]. by rewrite <-Ht.
Qed.

Lemma reached_one text ps p matched :
  p ≠ STAR → reached text ps matched →
  reached text (ps ++ [p])
    (false :: zip_with (fun m c => m && (bool_decide (p = ONE) || bool_decide (p = c))) matched text).
Proof.
  intros Hp [Hl Hm]. split; [cbn [length]; rewrite length_zip_with; lia|]. intros j Hj.
  rewrite matches_snoc_one by done. destruct j as [|j].
  { cbn. split; [done|]. intros ([|] & c & Heq & _); done. }
  rewrite lookup_cons, lookup_zip_with.
  destruct (lookup_lt_is_Some_2 matched j) as [m Hmj]; [lia|].
  destruct (lookup_lt_is_Some_2 text j) as [c Hc]; [lia|]. rewrite Hmj, Hc. cbn.
  rewrite (take_S_r _ _ _ Hc). split.
  - intros Heq. injection Heq as [-> Hor%orb_true_iff]%andb_true_iff. exists (firstn j text), c.
    rewrite !bool_decide_eq_true in Hor. split_and!; [done..|]. apply Hm; [lia|done].
  - intros (t1 & c' & [<- Hc']%app_inj_tail & Hor & Hm1). subst c'. f_equal.
    apply Hm in Hm1; [|lia]. rewrite Hmj in Hm1. injection Hm1 as ->. cbn.
    apply orb_true_iff. rewrite !bool_decide_eq_true. done.
Qed.

Lemma reached_fold text ps : ∀ qs matched, reached text qs matched →
  reached text (qs ++ ps) (fold_left (fun matched p => next_matched p text matched) ps matched).
Proof.
  induction ps as [|p ps IH]; intros qs matched Hr; cbn [fold_left]; [by rewrite app_nil_r|].
  rewrite cons_middle, app_assoc. apply IH. unfold next_matched. case_bool_decide as Hp.
  - subst p. by apply reached_star.
  - by apply reached_one.
Qed.

Lemma reached_start text : reached text [] (true :: replicate (length text) false).
Proof.
  split; [cbn; by rewrite length_replicate|]. intros [|j] Hj.
  - cbn. split; [constructor|done].
  - rewrite lookup_cons, lookup_replicate_2 by lia. split; [done|].
    intros Hm. inversion Hm as [Heq| |]. destruct text; [cbn in Hj; lia|done].
Qed.

(** [glob] is matching: [*] any run of characters, [?] any one, and any
    other character itself, over the whole of the text. *)
Theorem glob_is_matching pattern text :
  glob pattern text = true ↔ matches (chars (Str.bytes pattern)) (chars (Str.bytes text)).
Proof.
  unfold glob. set (t := chars (Str.bytes text)). set (ps := chars (Str.bytes pattern)).
  destruct (reached_fold t ps [] _ (reached_start t)) as [Hl Hm]. cbn [app] in Hm.
  specialize (Hm (length t) (le_n _)). rewrite firstn_all in Hm. rewrite <-Hm, last_lookup, Hl.
  cbn [pred]. by destruct (_ !! _) as [[]|].
Qed.

(** The characters are the text's bytes, in order. *)
Lemma chars_join l : mjoin (chars l) = l.
Proof.
  induction l as [|c l IH]; [done|]. cbn [chars].
  destruct (chars l) as [|[|d g] gs] eqn:E; cbn in IH |- *; [by rewrite <-IH..|].
  destruct (is_continuation d); cbn; by rewrite <-IH.
Qed.

End GlobLemmas.

(** ** The plan, as one pass *)

Inductive Verdict : Type := IsNew | IsHeld | IsSame | IsChanged.

#[export] Instance Verdict_eq_dec : EqDecision Verdict.
Proof. solve_decision. Defined.

Module PlanLemmas.
Import Sync Offers Entry.

Lemma among_true l x : among l x = true ↔ In x l.
Proof.
  unfold among. rewrite any_true. split; [by intros (y & Hy & ->%Str.str_eqb_eq)|].
  intros Hin. exists x. split; [done|apply Str.str_eqb_refl].
Qed.

Lemma among_false l x : among l x = false ↔ ¬ In x l.
Proof. by rewrite <-among_true, not_true_iff_false. Qed.

Section plans.
Context {D : Type} `{Decimal D}.
Implicit Types (a : Acc (D := D)) (r : ModelRow D).

Lemma choose_named (model : ListedModel D) choice o :
  choose model choice = Ok o → lm_upstream model = Some (of_upstream o).
Proof.
  intros Ho. destruct (OfferLemmas.choose_unfold model choice) as [(u & (Hu & _) & Heq)|(_ & e & He)];
    [|congruence].
  rewrite Ho in Heq. destruct (match choice with Cheapest => _ | First => _ end); [|done].
  rewrite Hu. by injection Heq as ->.
Qed.

Section pass.
Context (endpoint label : string) (options : SyncOptions).

(** The row a listed model becomes, if the run manages it and it is offered. *)
Definition row_of (model : ListedModel D) : option (ModelRow D) :=
  match lm_upstream model with
  | None => None
  | Some name =>
      if admits (so_include options) (so_exclude options) name (endpoint +:+ "/" +:+ name) then
        match choose model (so_price options) with
        | Ok offer => Some (catalog_row endpoint label offer)
        | Err _ => None
        end
      else None
  end.

(** The first row of each id. *)
Fixpoint firsts (seen : list string) (rows : list (ModelRow D)) : list (ModelRow D) :=
  match rows with
  | [] => []
  | r :: rows => if among seen (mr_id r) then firsts seen rows else r :: firsts (mr_id r :: seen) rows
  end.

Lemma firsts_spec rows : ∀ seen,
  NoDup (map mr_id (firsts seen rows)) ∧ Forall (fun r => ¬ In (mr_id r) seen ∧ In r rows) (firsts seen rows).
Proof.
  induction rows as [|r rows IH]; intros seen; cbn [firsts map]; [by repeat constructor|].
  destruct (among seen (mr_id r)) eqn:Hr.
  - destruct (IH seen) as [H1 H2]. split; [done|]. eapply Forall_impl; [exact H2|].
    intros x [? ?]. split; [done|by right].
  - apply among_false in Hr. destruct (IH (mr_id r :: seen)) as [H1 H2]. split; cbn [map].
    + apply NoDup_cons. split; [|done]. intros (x & Hx & Hin)%list_elem_of_fmap.
      rewrite Forall_forall in H2. destruct (H2 x Hin) as [Hn _]. apply Hn. by left.
    + constructor; [split; [done|by left]|]. eapply Forall_impl; [exact H2|].
      intros x [Hx ?]. split; [intros ?; apply Hx; by right|by right].
Qed.

Lemma row_of_id model r :
  row_of model = Some r →
  ∃ name, lm_upstream model = Some name ∧ mr_id r = endpoint +:+ "/" +:+ name ∧ mr_upstream_name r = name
  ∧ admits (so_include options) (so_exclude options) name (mr_id r) = true
  ∧ mr_provider r = endpoint ∧ is_Some (mr_display_label r).
Proof.
  unfold row_of. destruct (lm_upstream model) as [name|] eqn:Hn; [|done].
  destruct (admits _ _ name _) eqn:Ha; [|done].
  destruct (choose model (so_price options)) as [o|] eqn:Ho; [|done]. intros Heq. injection Heq as <-.
  apply choose_named in Ho. rewrite Hn in Ho. injection Ho as ->. cbn. by exists (of_upstream o).
Qed.

Definition listed_as (models : list (ListedModel D)) (id : string) : Prop :=
  ∃ model name, In model models ∧ lm_upstream model = Some name ∧ id = endpoint +:+ "/" +:+ name
  ∧ admits (so_include options) (so_exclude options) name id = true.

Section existing.
Context (existing : list (StoredModelRow D)).

Definition verdict r : Verdict :=
  match by_id existing (mr_id r) with
  | None => IsNew
  | Some stored =>
      if negb (Str.eqb (mr_provider (sm_model stored)) endpoint) then IsHeld
      else if unchanged stored r then IsSame else IsChanged
  end.

Definition found (v : Verdict) r : bool := bool_decide (verdict r = v).
Definition ids (v : Verdict) (rows : list (ModelRow D)) : list string := map mr_id (keep (found v) rows).
Definition to_write r : bool := found IsNew r || found IsChanged r.

(** What a pass adds to what was there. *)
Definition grown a (fs : list (ModelRow D)) (models : list (ListedModel D)) (b : Acc (D := D)) : Prop :=
  ac_added b = ac_added a ++ ids IsNew fs ∧ ac_updated b = ac_updated a ++ ids IsChanged fs
  ∧ ac_unchanged b = ac_unchanged a ++ ids IsSame fs ∧ ac_held b = ac_held a ++ ids IsHeld fs
  ∧ ac_writes b = ac_writes a ++ keep to_write fs
  ∧ ac_offered b = rev (map mr_id fs) ++ ac_offered a
  ∧ ∀ id, In id (ac_named b) ↔ In id (ac_named a) ∨ listed_as models id.

Lemma place_grown r a :
  let b := place endpoint existing r a in
  let fs := if among (ac_offered a) (mr_id r) then [] else [r] in
  ac_added b = ac_added a ++ ids IsNew fs ∧ ac_updated b = ac_updated a ++ ids IsChanged fs
  ∧ ac_unchanged b = ac_unchanged a ++ ids IsSame fs ∧ ac_held b = ac_held a ++ ids IsHeld fs
  ∧ ac_writes b = ac_writes a ++ keep to_write fs
  ∧ ac_offered b = rev (map mr_id fs) ++ ac_offered a ∧ ac_named b = ac_named a.
Proof.
  cbn zeta. unfold place. destruct (among (ac_offered a) (mr_id r)); [by rewrite !app_nil_r|].
  unfold ids, to_write, found, verdict, keep. cbn [List.filter].
  destruct (by_id existing (mr_id r)) as [stored|]; [|by cbn; rewrite ?app_nil_r].
  destruct (negb _); [by cbn; rewrite ?app_nil_r|]. by destruct (unchanged stored r); cbn; rewrite ?app_nil_r.
Qed.

Lemma take_model_grown model a :
  grown a (match row_of model with
           | Some r => if among (ac_offered a) (mr_id r) then [] else [r] | None => [] end)
    [model] (take_model endpoint label existing options a model).
Proof.
  unfold take_model, row_of, choose_row.
  assert (∀ name, lm_upstream model = Some name →
    admits (so_include options) (so_exclude options) name (endpoint +:+ "/" +:+ name) = true →
    listed_as [model] (endpoint +:+ "/" +:+ name)) as Hl.
  { intros name Hn Ha. exists model, name. by split_and!; [left|..]. }
  assert (∀ id, listed_as [model] id → ∃ name, lm_upstream model = Some name ∧ id = endpoint +:+ "/" +:+ name
    ∧ admits (so_include options) (so_exclude options) name id = true) as Hl'.
  { intros id (m & name & [<-|[]] & Hn & Hid & Ha). by exists name. }
  destruct (lm_upstream model) as [name|] eqn:Hn.
  - destruct (admits _ _ name _) eqn:Ha.
    + destruct (choose model (so_price options)) as [o|skip] eqn:Ho.
      * pose proof (place_grown (catalog_row endpoint label o) (name_it (endpoint +:+ "/" +:+ name) a)) as Hp.
        cbn zeta in Hp. destruct Hp as (H1 & H2 & H3 & H4 & H5 & H6 & H7).
        unfold grown. cbn [ac_offered name_it] in *. split_and!; try done. intros id. rewrite H7.
        cbn [name_it ac_named In]. split.
        -- intros [<-|?]; [right; by apply Hl|by left].
        -- intros [?|(n & [= <-] & -> & _)%Hl']; [by right|by left].
      * unfold grown. cbn. rewrite !app_nil_r. split_and!; try done. intros id. split.
        -- intros [<-|?]; [right; by apply Hl|by left].
        -- intros [?|(n & [= <-] & -> & _)%Hl']; [by right|by left].
    + unfold grown. cbn. rewrite !app_nil_r. split_and!; try done. intros id. split; [by left|].
      intros [?|(n & [= <-] & -> & Ha')%Hl']; [done|congruence].
  - destruct (choose model (so_price options)) as [o|skip] eqn:Ho.
    { apply choose_named in Ho. congruence. }
    unfold grown. cbn. rewrite !app_nil_r. split_and!; try done. intros id. split; [by left|].
    by intros [?|(n & ? & _)%Hl'].
Qed.

Lemma keep_app {A} (p : A → bool) l l' : keep p (l ++ l') = keep p l ++ keep p l'.
Proof. apply List.filter_app. Qed.

Lemma fold_grown models : ∀ a,
  grown a (firsts (ac_offered a) (filter_map row_of models)) models
    (fold_left (take_model endpoint label existing options) models a).
Proof.
  induction models as [|model models IH]; intros a; cbn [fold_left].
  { unfold grown, ids. cbn. rewrite !app_nil_r. split_and!; try done. intros id. split; [by left|].
    by intros [?|(? & ? & [] & _)]. }
  pose proof (take_model_grown model a) as Hstep.
  set (b := take_model endpoint label existing options a model) in *.
  specialize (IH b). destruct Hstep as (S1 & S2 & S3 & S4 & S5 & S6 & S7).
  destruct IH as (I1 & I2 & I3 & I4 & I5 & I6 & I7).
  set (f := match row_of model with Some r => _ | None => [] end) in *.
  assert (firsts (ac_offered a) (filter_map row_of (model :: models))
          = f ++ firsts (ac_offered b) (filter_map row_of models)) as Hf.
  { rewrite S6. unfold f. cbn [filter_map]. destruct (row_of model) as [r|]; [|done].
    cbn [firsts]. by destruct (among (ac_offered a) (mr_id r)). }
  unfold grown, ids in *. rewrite Hf, !keep_app, !map_app.
  rewrite I1, I2, I3, I4, I5, I6, S1, S2, S3, S4, S5, S6, rev_app_distr.
  split_and!; try by rewrite <-?app_assoc. intros id. rewrite I7, S7. unfold listed_as. split.
  - intros [[?|(m & n & [<-|[]] & ?)]|(m & n & Hm & ?)]; [by left|right; exists model, n; by split; [left|]|].
    right. exists m, n. by split; [right|].
  - intros [?|(m & n & [<-|Hm] & ?)]; [by left; left|left; right; exists model, n; by split; [left|]|].
    right. by exists m, n.
Qed.

End existing.
End pass.
End plans.
End PlanLemmas.

(** ** The tables *)

Module TableLemmas.
Import Sync PlanLemmas Entry.

Section tables.
Context {D : Type} `{Decimal D} (jsonb_text : Json → string).
Implicit Types (db : Db D) (r : StoredModelRow D) (m : ModelRow D).
#[local] Abbreviation laddered_models := (laddered_models (D := D) jsonb_text).
#[local] Abbreviation delete_stale := (delete_stale (D := D) jsonb_text).

(** The primary key. *)
Definition keyed_by_id db : Prop := map_Forall (fun id r => mr_id (sm_model r) = id) (db_catalog db).

Lemma find_In {A} (p : A → bool) (l : list A) x : find p l = Some x → In x l ∧ p x = true.
Proof. apply List.find_some. Qed.

Lemma by_id_stored endpoint db id :
  keyed_by_id db → Str.starts_with id (endpoint +:+ "/") = true →
  by_id (provider_models endpoint db) id = db_catalog db !! id.
Proof.
  intros Hk Hp. unfold by_id, provider_models.
  set (l := keep _ (map snd (map_to_list (db_catalog db)))).
  assert (∀ r, In r l → db_catalog db !! mr_id (sm_model r) = Some r) as Hin.
  { intros r [([k r'] & <- & Hl)%in_map_iff _]%keep_In. apply list_elem_of_In, elem_of_map_to_list in Hl.
    cbn. by rewrite (Hk _ _ Hl). }
  destruct (find _ l) as [r|] eqn:Hf.
  - apply find_In in Hf as [Hr%Hin Hid]. apply Str.str_eqb_eq in Hid as <-. done.
  - destruct (db_catalog db !! id) as [r|] eqn:Hr; [exfalso|done].
    assert (In r l) as Hl.
    { apply keep_In. split.
      - apply in_map_iff. exists (id, r). split; [done|]. by apply list_elem_of_In, elem_of_map_to_list.
      - rewrite (Hk _ _ Hr), Hp. by rewrite orb_true_r. }
    eapply List.find_none in Hf; [|exact Hl]. cbn in Hf. rewrite (Hk _ _ Hr), Str.str_eqb_refl in Hf. done.
Qed.

(** *** The rows *)

Definition takes db m : bool :=
  match db_catalog db !! mr_id m with
  | None => true
  | Some old => Str.eqb (mr_provider (sm_model old)) (mr_provider m)
  end.

Definition written_over m (old : option (StoredModelRow D)) : option (StoredModelRow D) :=
  match old with
  | None => Some (synced_row m None)
  | Some o =>
      if Str.eqb (mr_provider (sm_model o)) (mr_provider m) then Some (synced_row m (Some (sm_model o)))
      else Some o
  end.

Lemma sync_model_spec db m :
  db_tiers (sync_model db m).1 = db_tiers db
  ∧ (sync_model db m).2 = (if takes db m then Some (mr_id m) else None)
  ∧ ∀ id, db_catalog (sync_model db m).1 !! id =
      if Str.eqb (mr_id m) id then written_over m (db_catalog db !! id) else db_catalog db !! id.
Proof.
  unfold sync_model, takes. destruct (db_catalog db !! mr_id m) as [old|] eqn:Ho.
  1: destruct (Str.eqb (mr_provider (sm_model old)) (mr_provider m)) eqn:Hp.
  all: split_and!; try done; intros id; cbn [fst db_catalog with_catalog];
    destruct (Str.eqb (mr_id m) id) eqn:E.
  1, 5: apply Str.str_eqb_eq in E as <-; by rewrite lookup_insert_eq, Ho; cbn; rewrite ?Hp.
  1, 4: by rewrite lookup_insert_ne by (intros <-; by rewrite Str.str_eqb_refl in E).
  - apply Str.str_eqb_eq in E as <-. rewrite Ho. cbn. by rewrite Hp.
  - done.
Qed.

Lemma sync_rows_spec rows : ∀ db, NoDup (map mr_id rows) →
  let out := sync_rows db rows in
  db_tiers out.1.1 = db_tiers db
  ∧ out.1.2 = map mr_id (keep (takes db) rows)
  ∧ out.2 = map mr_id (keep (fun m => negb (takes db m)) rows)
  ∧ ∀ id, db_catalog out.1.1 !! id =
      match find (fun m => Str.eqb (mr_id m) id) rows with
      | Some m => written_over m (db_catalog db !! id)
      | None => db_catalog db !! id
      end.
Proof.
  induction rows as [|m rows IH]; intros db Hn; [done|]. cbn [map] in Hn. apply NoDup_cons in Hn as [Hm Hn].
  cbn zeta. cbn [sync_rows]. pose proof (sync_model_spec db m) as (Ht & Hw & Hl).
  destruct (sync_model db m) as [db1 w]. cbn [fst snd] in *.
  specialize (IH db1 Hn). cbn zeta in IH. destruct (sync_rows db1 rows) as [[db2 ids] held].
  cbn [fst snd] in *. destruct IH as (I1 & I2 & I3 & I4).
  assert (∀ x, In x rows → takes db1 x = takes db x) as Htk.
  { intros x Hx. unfold takes. rewrite Hl. destruct (Str.eqb (mr_id m) (mr_id x)) eqn:E; [|done].
    exfalso. apply Hm. apply Str.str_eqb_eq in E as ->. apply list_elem_of_In, in_map_iff. by exists x. }
  assert (keep (takes db1) rows = keep (takes db) rows
    ∧ keep (fun m => negb (takes db1 m)) rows = keep (fun m => negb (takes db m)) rows) as [K1 K2].
  { split; apply List.filter_ext_in; intros x Hx; by rewrite (Htk x Hx). }
  rewrite K1 in I2. rewrite K2 in I3. rewrite Hw. unfold keep in *. cbn [List.filter].
  destruct (takes db m); cbn [fst snd negb map]; (split_and!; [congruence|congruence|congruence|]);
    intros id; rewrite I4, Hl; cbn [find List.find]; unfold find;
    destruct (Str.eqb (mr_id m) id) eqn:E; try done;
    (destruct (List.find _ rows) as [x|] eqn:Hf; [exfalso|done]);
    apply List.find_some in Hf as [Hx Heq]; apply Hm; apply Str.str_eqb_eq in E as ->;
    apply Str.str_eqb_eq in Heq as <-; apply list_elem_of_In, in_map_iff; by exists x.
Qed.

(** *** Their levels *)

(** A row but for its levels. *)
Definition no_efforts r : StoredModelRow D :=
  let m := sm_model r in {|
  sm_model := {|
    mr_id := mr_id m; mr_provider := mr_provider m; mr_upstream_name := mr_upstream_name m;
    mr_input_per_mtok := mr_input_per_mtok m; mr_output_per_mtok := mr_output_per_mtok m;
    mr_cache_read_per_mtok := mr_cache_read_per_mtok m; mr_cache_write_per_mtok := mr_cache_write_per_mtok m;
    mr_context_window := mr_context_window m; mr_max_output_tokens := mr_max_output_tokens m;
    mr_supports_vision := mr_supports_vision m; mr_supports_tools := mr_supports_tools m;
    mr_supports_reasoning := mr_supports_reasoning m; mr_supports_prompt_cache := mr_supports_prompt_cache m;
    mr_display_label := mr_display_label m; mr_reasoning_efforts := None; mr_reasoning_effort := None |};
  sm_is_override := sm_is_override r; sm_synced_by := sm_synced_by r |}.

Definition levels_aside provider (before after : option (StoredModelRow D)) : Prop :=
  no_efforts <$> after = no_efforts <$> before
  ∧ ∀ r, before = Some r → mr_provider (sm_model r) ≠ provider → after = Some r.

Lemma set_efforts_spec provider db e :
  db_tiers (set_efforts (Some provider) db e).1 = db_tiers db
  ∧ ∀ id, levels_aside provider (db_catalog db !! id) (db_catalog (set_efforts (Some provider) db e).1 !! id).
Proof.
  unfold set_efforts. destruct (db_catalog db !! e.1) as [old|] eqn:Ho; [|by repeat split].
  destruct (Str.eqb (mr_provider (sm_model old)) provider && _) eqn:Hp; [|by repeat split].
  apply andb_true_iff in Hp as [Hp%Str.str_eqb_eq _]. split; [done|]. intros id.
  cbn [fst db_catalog with_catalog]. destruct (decide (e.1 = id)) as [<-|Hne].
  - rewrite lookup_insert_eq, Ho. split; [done|]. intros r Hr Hn. injection Hr as <-. done.
  - by rewrite lookup_insert_ne.
Qed.

Lemma write_efforts_spec provider es : ∀ db,
  db_tiers (write_efforts (Some provider) db es).1 = db_tiers db
  ∧ ∀ id, levels_aside provider (db_catalog db !! id) (db_catalog (write_efforts (Some provider) db es).1 !! id).
Proof.
  induction es as [|e es IH]; intros db; [by repeat split|]. cbn [write_efforts].
  pose proof (set_efforts_spec provider db e) as [Ht Hs]. destruct (set_efforts _ db e) as [db1 c].
  specialize (IH db1). destruct (write_efforts _ db1 es) as [db2 rest]. cbn [fst] in *.
  destruct IH as [It Is]. split; [congruence|]. intros id. destruct (Hs id) as [S1 S2], (Is id) as [I1 I2].
  split; [congruence|]. intros r Hr Hn. by apply I2; [apply S2|].
Qed.

Lemma levels_aside_Some provider r after :
  levels_aside provider (Some r) after → ∃ r', after = Some r' ∧ no_efforts r' = no_efforts r.
Proof. intros [Heq _]. destruct after as [r'|]; [|done]. exists r'. split; [done|]. by apply (inj Some) in Heq. Qed.

Lemma levels_aside_None provider after : levels_aside provider None after → after = None.
Proof. intros [Heq _]. by destruct after. Qed.

(** *** The rows removed *)

Lemma delete_stale_spec provider stale db :
  db_tiers (delete_stale provider stale db).1 = db_tiers db
  ∧ ∀ id, db_catalog (delete_stale provider stale db).1 !! id =
      match db_catalog db !! id with
      | Some r => if is_stale provider stale (laddered_models db) r then None else Some r
      | None => None
      end.
Proof.
  split; [done|]. intros id. cbn [fst Sync.delete_stale db_catalog with_catalog]. rewrite map_lookup_filter.
  destruct (db_catalog db !! id) as [r|]; [|done]. cbn.
  destruct (is_stale provider stale _ r) eqn:E; case_guard; cbn in *; congruence.
Qed.

Lemma removed_In provider stale db id :
  keyed_by_id db →
  In id (delete_stale provider stale db).2 ↔
  ∃ r, db_catalog db !! id = Some r ∧ is_stale provider stale (laddered_models db) r = true.
Proof.
  intros Hk. unfold Sync.delete_stale. cbn [snd]. rewrite in_map_iff. split.
  - intros (r & <- & [([k r'] & <- & Hl)%in_map_iff Hs]%keep_In).
    apply list_elem_of_In, elem_of_map_to_list in Hl. cbn in *. rewrite (Hk _ _ Hl). by exists r'.
  - intros (r & Hr & Hs). exists r. split; [by apply Hk|]. apply keep_In. split; [|done].
    apply in_map_iff. exists (id, r). split; [done|]. by apply list_elem_of_In, elem_of_map_to_list.
Qed.

Lemma is_stale_true provider stale laddered r :
  is_stale provider stale laddered r = true ↔
  mr_provider (sm_model r) = provider ∧ sm_synced_by r = Some provider
  ∧ In (mr_id (sm_model r)) stale ∧ ¬ In (mr_id (sm_model r)) laddered.
Proof.
  unfold is_stale. rewrite !andb_true_iff, bool_decide_eq_true, among_true, negb_true_iff, among_false,
    Str.str_eqb_eq. tauto.
Qed.

Lemma no_efforts_stale provider stale laddered r r' :
  no_efforts r' = no_efforts r → is_stale provider stale laddered r' = is_stale provider stale laddered r.
Proof.
  intros Heq. unfold is_stale.
  pose proof (f_equal (fun x => mr_provider (sm_model x)) Heq) as H1.
  pose proof (f_equal sm_synced_by Heq) as H2. pose proof (f_equal (fun x => mr_id (sm_model x)) Heq) as H3.
  cbn in H1, H2, H3. by rewrite H1, H2, H3.
Qed.

End tables.
End TableLemmas.

(** ** What a sync promises *)

Module CatalogSync.
Import Sync PlanLemmas TableLemmas Entry Offers.

#[local] Instance Ok_inj {A E} : Inj (=) (=) (@Ok A E).
Proof. intros x y Heq. congruence. Qed.

Section syncs.
Context {D : Type} `{Decimal D} (jsonb_text : Json → string).
Context (endpoint label url : string) (models : list (ListedModel D)) (options : SyncOptions).
Context (sources : option (gmap string (option ReasoningEfforts) * gmap string ReasoningEfforts)).
Implicit Types (db read : Db D) (r : StoredModelRow D) (m : ModelRow D).
#[local] Abbreviation laddered_models := (laddered_models (D := D) jsonb_text).
#[local] Abbreviation sync := (Sync.sync jsonb_text endpoint label url models options sources).
#[local] Abbreviation plan := (Sync.plan endpoint label models).
#[local] Abbreviation listed := (listed_as endpoint options models).

(** The rows the list offers, each id once. *)
Definition offered_rows : list (ModelRow D) := firsts [] (filter_map (row_of endpoint label options) models).

Lemma offered_row m :
  In m offered_rows →
  listed (mr_id m) ∧ mr_provider m = endpoint ∧ Str.starts_with (mr_id m) (endpoint +:+ "/") = true
  ∧ is_Some (mr_display_label m).
Proof.
  intros Hm. destruct (firsts_spec (filter_map (row_of endpoint label options) models) []) as [_ Hf].
  rewrite Forall_forall in Hf. apply list_elem_of_In in Hm. destruct (Hf m Hm) as [_ Hin].
  apply filter_map_In in Hin as (model & Hmodel & Hr).
  apply row_of_id in Hr as (name & Hn & Hid & _ & Ha & Hp & Hl). split_and!; try done.
  - by exists model, name.
  - rewrite Hid, <-Str.append_assoc. by apply Str.starts_with_app; eexists.
Qed.

Lemma offered_NoDup : NoDup (map mr_id offered_rows).
Proof. apply firsts_spec. Qed.

Lemma plan_spec existing laddered p :
  plan existing laddered options = Ok p →
  pl_writes p = keep (to_write endpoint existing) offered_rows
  ∧ rp_added (pl_report p) = ids endpoint existing IsNew offered_rows
  ∧ rp_updated (pl_report p) = ids endpoint existing IsChanged offered_rows
  ∧ offered_rows ≠ []
  ∧ ∀ id, In id (pl_remove p) ↔
      (∃ m, In m (synced endpoint existing options) ∧ mr_id m = id) ∧ ¬ listed id ∧ ¬ In id laddered.
Proof.
  unfold Sync.plan. pose proof (fold_grown endpoint label options existing models empty_acc) as Hg.
  set (a := fold_left _ models empty_acc) in *. destruct Hg as (H1 & H2 & _ & _ & H5 & H6 & H7).
  change (firsts (ac_offered empty_acc) _) with offered_rows in *. rewrite app_nil_r in H6.
  destruct (ac_offered a) as [|o os] eqn:Ho; [done|].
  destruct (_ && _); [done|]. intros Heq. apply (inj Ok) in Heq. subst p. cbn [pl_writes pl_report rp_added
    rp_updated pl_remove]. split_and!; [done..| |].
  { intros Hn. by rewrite Hn in H6. }
  intros id. rewrite keep_In, in_map_iff, negb_true_iff, among_false. split.
  - intros [(m & <- & [Hm Hn]%keep_In) Hl]. rewrite negb_true_iff, among_false in Hn.
    split_and!; [by exists m|intros Hli; apply Hn, H7; by right|done].
  - intros ((m & Hm & <-) & Hn & Hl). split; [|done]. exists m. split; [done|]. apply keep_In. split; [done|].
    rewrite negb_true_iff, among_false, H7. by intros [[]|?].
Qed.

(** A plan is refused when nothing is offered, or something would go. *)
Lemma plan_Err existing laddered e :
  plan existing laddered options = Err e →
  offered_rows = []
  ∨ ∃ id, (∃ m, In m (synced endpoint existing options) ∧ mr_id m = id) ∧ ¬ listed id ∧ ¬ In id laddered.
Proof.
  unfold Sync.plan. pose proof (fold_grown endpoint label options existing models empty_acc) as Hg.
  set (a := fold_left _ models empty_acc) in *. destruct Hg as (_ & _ & _ & _ & _ & H6 & H7).
  change (firsts (ac_offered empty_acc) _) with offered_rows in *. rewrite app_nil_r in H6.
  destruct (ac_offered a) as [|o os] eqn:Ho.
  { intros _. left. destruct offered_rows as [|m l]; [done|]. cbn in H6. by destruct (rev (map mr_id l)). }
  set (gone := keep (fun id => negb (among laddered id)) _).
  destruct gone as [|id rest] eqn:Hgone; [destruct (length _) in |- *; done|]. intros _. right. exists id.
  assert (In id gone) as Hin by (rewrite Hgone; by left).
  apply keep_In in Hin as [(m & <- & [Hm Hn]%keep_In)%in_map_iff Hl].
  rewrite negb_true_iff, among_false in *. split_and!; [by exists m|intros Hli; apply Hn, H7; by right|done].
Qed.

(** The writes' ids, each once, are listed. *)
Lemma writes_spec existing :
  NoDup (map mr_id (keep (to_write endpoint existing) offered_rows))
  ∧ ∀ m, In m (keep (to_write endpoint existing) offered_rows) →
      In m offered_rows ∧ to_write endpoint existing m = true.
Proof.
  split; [|intros m [? ?]%keep_In; done]. pose proof offered_NoDup as Hn.
  induction offered_rows as [|m l IH]; [done|]. cbn in Hn. apply NoDup_cons in Hn as [Hm Hn].
  unfold keep. cbn [List.filter]. destruct (to_write endpoint existing m); [|by apply IH].
  cbn [map]. apply NoDup_cons. split; [|by apply IH]. intros Hin. apply Hm.
  apply list_elem_of_In, in_map_iff in Hin as (x & Hx & [Hl _]%keep_In). apply list_elem_of_In, in_map_iff.
  by exists x.
Qed.

(** What the row of an id is once the writes are done, and what it is after. *)
Definition rewritten writes db id : option (StoredModelRow D) :=
  match find (fun m => Str.eqb (mr_id m) id) writes with
  | Some m => written_over m (db_catalog db !! id)
  | None => db_catalog db !! id
  end.

(** The transaction, up to the last statement. *)
Lemma sync_steps read db db' rep :
  so_dry_run options = false → sync read db = Ok (db', rep) →
  ∃ p mid done, plan (provider_models endpoint read) (laddered_models read) options = Ok p
  ∧ db_tiers mid = db_tiers db
  ∧ (∀ id, levels_aside endpoint (rewritten (pl_writes p) db id) (db_catalog mid !! id))
  ∧ db' = (delete_stale jsonb_text endpoint (pl_remove p) mid).1
  ∧ es_removed done = (delete_stale jsonb_text endpoint (pl_remove p) mid).2
  ∧ es_held done = map mr_id (keep (fun m => negb (takes db m)) (pl_writes p))
  ∧ rep = settle (pl_report p) done (pl_remove p).
Proof.
  intros Hd. unfold Sync.sync. destruct (plan _ _ options) as [p|[]] eqn:Hp; [|done..]. rewrite Hd.
  unfold sync_endpoint_models. destruct (find _ (pl_writes p)); [done|].
  pose proof (plan_spec _ _ _ Hp) as (Hw & _).
  pose proof (sync_rows_spec (pl_writes p) db) as Hr. cbn zeta in Hr.
  destruct (sync_rows db (pl_writes p)) as [[db1 written] held].
  destruct Hr as (T1 & _ & Hh & L1); [rewrite Hw; apply writes_spec|]. cbn [fst snd] in *.
  set (es := match sources with Some _ => _ | None => [] end).
  pose proof (write_efforts_spec endpoint es db1) as [T2 L2].
  destruct (write_efforts (Some endpoint) db1 es) as [db2 changed]. cbn [fst] in *.
  destruct (delete_stale jsonb_text endpoint (pl_remove p) db2) as [db3 removed] eqn:Hdel.
  intros Heq. apply (inj Ok) in Heq. pose proof (f_equal fst Heq) as H1. pose proof (f_equal snd Heq) as H2.
  cbn in H1, H2. subst db' rep.
  exists p, db2, {| es_written := written; es_held := held; es_removed := removed; es_efforts := changed |}. rewrite Hdel. split_and!; [done|congruence| |done|done|done|done].
  intros id. specialize (L1 id). specialize (L2 id). by rewrite L1 in L2.
Qed.

Lemma sync_spec read db db' rep :
  so_dry_run options = false → sync read db = Ok (db', rep) →
  ∃ p, plan (provider_models endpoint read) (laddered_models read) options = Ok p
  ∧ db_tiers db' = db_tiers db
  ∧ ∀ id, ∃ after, levels_aside endpoint (rewritten (pl_writes p) db id) after
      ∧ db_catalog db' !! id =
        match after with
        | Some r => if is_stale endpoint (pl_remove p) (laddered_models db) r then None else Some r
        | None => None
        end.
Proof.
  intros Hd Hs. destruct (sync_steps _ _ _ _ Hd Hs) as (p & mid & done & Hp & Ht & Hid & -> & _).
  pose proof (delete_stale_spec jsonb_text endpoint (pl_remove p) mid) as [T3 L3].
  exists p. split_and!; [exact Hp|congruence|]. intros id. exists (db_catalog mid !! id). split; [done|].
  rewrite L3. assert (laddered_models mid = laddered_models db) as -> by (unfold Sync.laddered_models; congruence).
  done.
Qed.

Lemma find_written writes id m :
  find (fun m => Str.eqb (mr_id m) id) writes = Some m → In m writes ∧ mr_id m = id.
Proof. by intros [? ->%Str.str_eqb_eq]%find_In. Qed.

Lemma rewritten_keyed writes db id r :
  keyed_by_id db → levels_aside endpoint (rewritten writes db id) (Some r) → mr_id (sm_model r) = id.
Proof.
  intros Hk. unfold rewritten. destruct (find _ _) as [m|] eqn:Hf.
  - apply find_written in Hf as [_ <-]. unfold written_over.
    destruct (db_catalog db !! mr_id m) as [old|] eqn:Ho; [destruct (Str.eqb _ _)|];
      intros (x & Hx & Hne)%levels_aside_Some; injection Hx as <-;
      apply (f_equal (fun x => mr_id (sm_model x))) in Hne; cbn in Hne; [done| |done].
    rewrite Hne. by apply (Hk _ _ Ho).
  - destruct (db_catalog db !! id) as [old|] eqn:Ho; [|by intros ?%levels_aside_None].
    intros (x & Hx & Hne)%levels_aside_Some. injection Hx as <-.
    apply (f_equal (fun x => mr_id (sm_model x))) in Hne. cbn in Hne. rewrite Hne. by apply (Hk _ _ Ho).
Qed.

(** A row that is neither written nor removed is as it was but for its levels. *)
Definition label_kept r r' : Prop :=
  ∀ l, mr_display_label (sm_model r) = Some l → mr_display_label (sm_model r') = Some l.

Definition spared (before after : option (StoredModelRow D)) (id : string) (laddered : list string) : Prop :=
  match before, after with
  | Some r, None =>
      mr_provider (sm_model r) = endpoint ∧ sm_synced_by r = Some endpoint ∧ ¬ In id laddered ∧ ¬ listed id
  | Some r, Some r' =>
      (mr_provider (sm_model r) ≠ endpoint → r' = r)
      ∧ mr_provider (sm_model r') = mr_provider (sm_model r) ∧ label_kept r r'
      ∧ (no_efforts r' = no_efforts r ∨ listed id)
  | None, Some r' => listed id ∧ mr_provider (sm_model r') = endpoint ∧ sm_synced_by r' = Some endpoint
  | None, None => True
  end.

Lemma spared_same o id laddered : spared o o id laddered.
Proof. destruct o as [r|]; cbn; [|done]. split_and!; [done..|by intros ?|by left]. Qed.

Lemma no_efforts_facts r r' :
  no_efforts r' = no_efforts r →
  mr_provider (sm_model r') = mr_provider (sm_model r) ∧ label_kept r r' ∧ sm_synced_by r' = sm_synced_by r.
Proof.
  intros Heq. pose proof (f_equal (fun x => mr_provider (sm_model x)) Heq) as H1.
  pose proof (f_equal (fun x => mr_display_label (sm_model x)) Heq) as H2.
  pose proof (f_equal sm_synced_by Heq) as H3. cbn in H1, H2, H3. split_and!; [done| |done].
  unfold label_kept. by rewrite H2.
Qed.

(** C18. A sync touches only what is its own, whatever was written between its
    look at the catalogue and its own write: a row goes only if it is of the
    endpoint, an earlier sync of the endpoint wrote it, no ladder names it as
    it goes, and the list does not name it; a row of another provider is left
    whole; a label an operator gave stays; and a row appears only for a model
    the list names. *)
Theorem sync_spares_what_is_not_its_own read db db' rep :
  keyed_by_id db → sync read db = Ok (db', rep) →
  db_tiers db' = db_tiers db
  ∧ ∀ id, spared (db_catalog db !! id) (db_catalog db' !! id) id (laddered_models db).
Proof.
  intros Hk Hs. destruct (so_dry_run options) eqn:Hd.
  { unfold Sync.sync in Hs. destruct (plan _ _ options) as [p|[]]; [|done..]. rewrite Hd in Hs.
    apply (inj Ok), (f_equal fst) in Hs. cbn in Hs. subst db'. split; [done|]. intros id. apply spared_same. }
  destruct (sync_spec read db db' rep Hd Hs) as (p & Hp & Ht & Hid). split; [done|]. intros id.
  destruct (Hid id) as (after & Ha & ->). apply plan_spec in Hp as (Hw & _ & _ & _ & Hrm).
  unfold rewritten in Ha. destruct (find _ (pl_writes p)) as [m|] eqn:Hf.
  - apply find_written in Hf as [Hm <-]. rewrite Hw in Hm. apply writes_spec in Hm as [Hm _].
    destruct (offered_row m Hm) as (Hl & Hpv & _ & _).
    assert (∀ r, mr_id (sm_model r) = mr_id m → is_stale endpoint (pl_remove p) (laddered_models db) r = false)
      as Hns.
    { intros r Hr. apply not_true_iff_false. rewrite is_stale_true, Hr. by intros (_ & _ & (_ & ? & _)%Hrm & _). }
    unfold written_over in Ha. destruct (db_catalog db !! mr_id m) as [old|] eqn:Ho.
    1: destruct (Str.eqb (mr_provider (sm_model old)) (mr_provider m)) eqn:Hpe.
    + apply levels_aside_Some in Ha as (r' & -> & Hr'). apply Str.str_eqb_eq in Hpe.
      rewrite Hns by apply (f_equal (fun x => mr_id (sm_model x)) Hr').
      destruct (no_efforts_facts _ _ Hr') as (F1 & F2 & F3). cbn in F1, F3. cbn [spared].
      split_and!; [congruence|congruence| |by right]. intros l Hlb. apply F2. cbn. by rewrite Hlb.
    + destruct Ha as [Ha1 Ha2]. specialize (Ha2 old eq_refl). rewrite Ha2.
      * rewrite Hns by apply (Hk _ _ Ho). apply spared_same.
      * intros Hx. rewrite Hx, Hpv, Str.str_eqb_refl in Hpe. done.
    + apply levels_aside_Some in Ha as (r' & -> & Hr'). rewrite Hns by apply (f_equal (fun x => mr_id (sm_model x)) Hr').
      destruct (no_efforts_facts _ _ Hr') as (F1 & _ & F3). cbn in F1, F3. cbn [spared]. split_and!; congruence.
  - destruct (db_catalog db !! id) as [r|] eqn:Hr; [|by apply levels_aside_None in Ha as ->].
    pose proof Ha as [_ Hsame]. apply levels_aside_Some in Ha as (r' & -> & Hr').
    rewrite (no_efforts_stale _ _ _ _ _ Hr'). destruct (is_stale _ _ _ r) eqn:Hst.
    + apply is_stale_true in Hst as (S1 & S2 & S3 & S4). rewrite (Hk _ _ Hr) in S3, S4. apply Hrm in S3 as (_ & ? & _).
      done.
    + destruct (no_efforts_facts _ _ Hr') as (F1 & F2 & _). cbn [spared]. split_and!; [|done|done|by left].
      intros Hn. specialize (Hsame r eq_refl Hn). by injection Hsame.
Qed.

Lemma NoDup_same_key {A B} (f : A → B) l : NoDup (map f l) → ∀ x y, In x l → In y l → f x = f y → x = y.
Proof.
  induction l as [|a l IH]; intros Hn x y Hx Hy Hf; [done|]. cbn in Hn. apply NoDup_cons in Hn as [Ha Hn].
  assert (∀ z, In z l → f a ≠ f z) as Hne.
  { intros z Hz Heq. apply Ha. rewrite Heq. apply list_elem_of_In, in_map_iff. by exists z. }
  destruct Hx as [->|Hx], Hy as [->|Hy]; [done|by destruct (Hne y)|by destruct (Hne x)|by apply IH].
Qed.

Lemma rewritten_writes db m existing :
  In m offered_rows →
  rewritten (keep (to_write endpoint existing) offered_rows) db (mr_id m) =
  if to_write endpoint existing m then written_over m (db_catalog db !! mr_id m)
  else db_catalog db !! mr_id m.
Proof.
  intros Hm. unfold rewritten. destruct (find _ _) as [x|] eqn:Hf.
  - apply find_written in Hf as [Hx Hid]. apply writes_spec in Hx as [Hx Hw].
    assert (x = m) as ->; [|by rewrite Hw].
    by apply (NoDup_same_key mr_id offered_rows offered_NoDup).
  - destruct (to_write endpoint existing m) eqn:Hw; [exfalso|done].
    eapply List.find_none in Hf; [|apply keep_In; split; [exact Hm|exact Hw]]. cbn in Hf.
    by rewrite Str.str_eqb_refl in Hf.
Qed.

Lemma written_row existing db mid m :
  In m offered_rows → to_write endpoint existing m = true → takes db m = true →
  levels_aside endpoint (rewritten (keep (to_write endpoint existing) offered_rows) db (mr_id m))
    (db_catalog mid !! mr_id m) →
  ∃ r, db_catalog mid !! mr_id m = Some r ∧ mr_provider (sm_model r) = endpoint
    ∧ sm_synced_by r = Some endpoint.
Proof.
  intros Hoff Hm Htk. rewrite (rewritten_writes _ _ _ Hoff), Hm. destruct (offered_row m Hoff) as (_ & Hpv & _ & _).
  unfold written_over, takes in *. destruct (db_catalog db !! mr_id m) as [old|]; [rewrite Htk|];
    intros (r & -> & Hne)%levels_aside_Some; exists r;
    destruct (no_efforts_facts _ _ Hne) as (F1 & _ & F3); cbn in F1, F3; by rewrite F1, F3, Hpv.
Qed.

(** The report is of what was done: an id is reported as removed exactly
    when its row was there and is gone, and what is reported as added or
    updated is in the catalogue, the endpoint's and marked as its sync's. *)
Theorem report_says_what_was_done read db db' rep :
  keyed_by_id db → so_dry_run options = false → sync read db = Ok (db', rep) →
  (∀ id, In id (rp_removed rep) ↔ is_Some (db_catalog db !! id) ∧ db_catalog db' !! id = None)
  ∧ ∀ id, In id (rp_added rep ++ rp_updated rep) →
      ∃ r, db_catalog db' !! id = Some r ∧ mr_provider (sm_model r) = endpoint ∧ sm_synced_by r = Some endpoint.
Proof.
  intros Hk Hd Hs. destruct (sync_steps _ _ _ _ Hd Hs) as (p & mid & dn & Hp & Ht & Hid & -> & Hrem & Hheld & ->).
  destruct (plan_spec _ _ _ Hp) as (Hw & Ha & Hu & _ & Hrm).
  assert (keyed_by_id mid) as Hkm.
  { intros id r Hr. specialize (Hid id). rewrite Hr in Hid. by eapply rewritten_keyed. }
  destruct (delete_stale_spec jsonb_text endpoint (pl_remove p) mid) as [_ L3]. split; intros id.
  - cbn [settle rp_removed]. rewrite keep_In, among_true, Hrem, removed_In, L3 by done. split.
    + intros (Hin & r & Hr & Hst). rewrite Hr, Hst. split; [|done]. specialize (Hid id). rewrite Hr in Hid.
      apply Hrm in Hin as (_ & Hnl & _). unfold rewritten in Hid.
      destruct (find _ _) as [m|] eqn:Hf; [exfalso|].
      * apply find_written in Hf as [Hm <-]. rewrite Hw in Hm. apply writes_spec in Hm as [Hm _].
        by apply Hnl, (offered_row m Hm).
      * destruct (db_catalog db !! id); [by eexists|by apply levels_aside_None in Hid].
    + intros [[old Ho] Hgone]. specialize (Hid id).
      assert (is_Some (db_catalog mid !! id)) as [r Hr].
      { unfold rewritten, written_over in Hid. rewrite Ho in Hid.
        destruct (find _ _); [destruct (Str.eqb _ _)|]; apply levels_aside_Some in Hid as (x & -> & _); by eexists. }
      rewrite Hr in Hgone. destruct (is_stale _ _ _ r) eqn:Hst; [|done]. split; [|by exists r].
      apply is_stale_true in Hst as (_ & _ & Hin & _). by rewrite (Hkm _ _ Hr) in Hin.
  - cbn [settle rp_added rp_updated]. rewrite in_app_iff, !keep_In, Hheld, Ha, Hu. intros Hin.
    assert (∃ m, In m (pl_writes p) ∧ mr_id m = id ∧ In m offered_rows ∧ takes db m = true)
      as (m & Hm & <- & Hoff & Htk).
    { rewrite Hw. destruct Hin as [[(m & <- & [Hm Hv]%keep_In)%in_map_iff Hn]|[(m & <- & [Hm Hv]%keep_In)%in_map_iff Hn]];
        exists m; rewrite negb_true_iff, among_false in Hn;
        assert (In m (pl_writes p)) as Hin by
          (rewrite Hw; apply keep_In; split; [done|unfold to_write; by rewrite Hv, ?orb_true_r]);
        (split_and!; [by rewrite <-Hw|done..|]);
        destruct (takes db m) eqn:E; try done; exfalso; apply Hn; rewrite Hw in Hin; rewrite Hw;
        apply in_map_iff; exists m; (split; [done|]); apply keep_In; by rewrite E. }
    destruct (offered_row m Hoff) as (Hl & _). rewrite L3. specialize (Hid (mr_id m)). rewrite Hw in Hid, Hm.
    apply keep_In in Hm as [_ Hm]. destruct (written_row _ db mid m Hoff Hm Htk Hid) as (r & Hr & H1 & H2).
    rewrite Hr. exists r. split_and!; [|done..]. destruct (is_stale _ _ _ r) eqn:Hst; [exfalso|done].
    apply is_stale_true in Hst as (_ & _ & Hin' & _). rewrite (Hkm _ _ Hr) in Hin'. by apply Hrm in Hin' as (_ & ? & _).
Qed.

(** *** A second sync *)

Section again.
Context {DL : DecimalLaws D}.

Lemma same_price_refl (p : option D) : same_price p p = true.
Proof using DL. destruct p; [|done]. cbn. unfold deq. by rewrite dle_refl. Qed.

Lemma unchanged_written m old : is_Some (mr_display_label m) → unchanged (synced_row m old) m = true.
Proof using DL.
  intros [l Hl]. unfold unchanged. cbn [synced_row sm_model sm_is_override mr_upstream_name mr_input_per_mtok
    mr_output_per_mtok mr_cache_read_per_mtok mr_cache_write_per_mtok mr_context_window mr_max_output_tokens
    mr_supports_vision mr_supports_tools mr_supports_reasoning mr_supports_prompt_cache mr_display_label].
  rewrite Str.str_eqb_refl, !same_price_refl, !Z.eqb_refl, !Bool.eqb_reflx, Hl. unfold deq. rewrite !dle_refl.
  destruct old as [o|]; [|done]. by destruct (mr_display_label o).
Qed.

Lemma unchanged_no_efforts r r' m : no_efforts r' = no_efforts r → unchanged r' m = unchanged r m.
Proof. intros Heq. change (unchanged (no_efforts r') m = unchanged (no_efforts r) m). by rewrite Heq. Qed.

(** After a sync, each offered row is the list's, or another provider's. *)
Lemma offered_settled db db' rep m :
  keyed_by_id db → so_dry_run options = false → sync db db = Ok (db', rep) → In m offered_rows →
  ∃ r', db_catalog db' !! mr_id m = Some r'
  ∧ (mr_provider (sm_model r') ≠ endpoint ∨ mr_provider (sm_model r') = endpoint ∧ unchanged r' m = true).
Proof using DL.
  intros Hk Hd Hs Hm. destruct (sync_spec db db db' rep Hd Hs) as (p & Hp & _ & Hid).
  destruct (Hid (mr_id m)) as (after & Ha & ->). destruct (offered_row m Hm) as (Hl & Hpv & Hst & Hlb).
  apply plan_spec in Hp as (Hw & _ & _ & _ & Hrm). rewrite Hw, rewritten_writes in Ha by done.
  assert (∀ r, mr_id (sm_model r) = mr_id m → is_stale endpoint (pl_remove p) (laddered_models db) r = false)
    as Hns.
  { intros r Hr. apply not_true_iff_false. rewrite is_stale_true, Hr. by intros (_ & _ & (_ & ? & _)%Hrm & _). }
  assert (∀ r r', no_efforts r' = no_efforts r → after = Some r' → mr_id (sm_model r) = mr_id m →
    mr_provider (sm_model r) ≠ endpoint ∨ mr_provider (sm_model r) = endpoint ∧ unchanged r m = true →
    ∃ r', match after with
          | Some r => if is_stale endpoint (pl_remove p) (laddered_models db) r then None else Some r
          | None => None end = Some r'
      ∧ (mr_provider (sm_model r') ≠ endpoint ∨ mr_provider (sm_model r') = endpoint ∧ unchanged r' m = true))
    as Hfin.
  { intros r r' Hne -> Hi Hc. exists r'. rewrite (no_efforts_stale _ _ _ _ _ Hne), Hns by done.
    destruct (no_efforts_facts _ _ Hne) as (F1 & _). rewrite (unchanged_no_efforts _ _ _ Hne), F1. done. }
  unfold to_write, found, verdict in Ha. rewrite by_id_stored in Ha by done.
  destruct (db_catalog db !! mr_id m) as [old|] eqn:Ho.
  - destruct (Str.eqb (mr_provider (sm_model old)) endpoint) eqn:Hpe; cbn [negb] in Ha.
    + apply Str.str_eqb_eq in Hpe. destruct (unchanged old m) eqn:Hu; cbn in Ha.
      * apply levels_aside_Some in Ha as (r' & -> & Hr'). eapply Hfin; [done..|by apply (Hk _ _ Ho)|by right].
      * rewrite Hpe, Hpv, Str.str_eqb_refl in Ha. apply levels_aside_Some in Ha as (r' & -> & Hr').
        eapply Hfin; [done..|right]. split; [done|by apply unchanged_written].
    + cbn in Ha. apply levels_aside_Some in Ha as (r' & -> & Hr').
      eapply Hfin; [done..|by apply (Hk _ _ Ho)|left]. intros Hx. by rewrite Hx, Str.str_eqb_refl in Hpe.
  - cbn in Ha. apply levels_aside_Some in Ha as (r' & -> & Hr').
    eapply Hfin; [done..|right]. split; [done|by apply unchanged_written].
Qed.

Lemma sync_keyed db db' rep :
  keyed_by_id db → so_dry_run options = false → sync db db = Ok (db', rep) → keyed_by_id db'.
Proof.
  intros Hk Hd Hs id r Hr. destruct (sync_spec db db db' rep Hd Hs) as (p & _ & _ & Hid).
  destruct (Hid id) as (after & Ha & Heq). rewrite Hr in Heq. destruct after as [r'|]; [|done].
  destruct (is_stale _ _ _ r'); [done|]. injection Heq as <-. by eapply rewritten_keyed.
Qed.

(** A row that a second sync would remove was removed by the first. *)
Lemma nothing_left_to_remove db db' rep id :
  keyed_by_id db → so_dry_run options = false → sync db db = Ok (db', rep) →
  (∃ m, In m (synced endpoint (provider_models endpoint db') options) ∧ mr_id m = id) → ¬ listed id →
  ¬ In id (laddered_models db) → False.
Proof.
  intros Hk Hd Hs (m & Hm & Hmid) Hnl Hlad. pose proof (sync_keyed _ _ _ Hk Hd Hs) as Hk'.
  destruct (sync_spec db db db' rep Hd Hs) as (p & Hp & _ & Hid). destruct (Hid id) as (after & Ha & Heq).
  apply keep_In in Hm as [(r & <- & [Hr Hsy]%keep_In)%in_map_iff Hadm].
  apply keep_In in Hr as [([k r0] & Hk0 & Hr)%in_map_iff Hpm]. cbn in Hk0. subst r0.
  apply list_elem_of_In, elem_of_map_to_list in Hr. pose proof (Hk' _ _ Hr) as Hkid. cbn in Hkid.
  rewrite Hmid in Hkid. subst k. rewrite Hr in Heq. destruct after as [r'|]; [|done].
  destruct (is_stale _ _ _ r') eqn:Hst; [done|]. injection Heq as <-.
  apply plan_spec in Hp as (Hw & _ & _ & _ & Hrm). unfold rewritten in Ha.
  destruct (find _ (pl_writes p)) as [w|] eqn:Hf.
  { apply find_written in Hf as [Hin <-]. rewrite Hw in Hin. apply writes_spec in Hin as [Hin _].
    by apply Hnl, (offered_row w Hin). }
  destruct (db_catalog db !! id) as [old|] eqn:Ho; [|by apply levels_aside_None in Ha].
  apply levels_aside_Some in Ha as (x & Hx & Hne). injection Hx as <-.
  apply not_true_iff_false in Hst. apply Hst. apply andb_true_iff in Hadm as [Hpe%Str.str_eqb_eq Hadm].
  apply bool_decide_eq_true in Hsy. apply is_stale_true. rewrite Hmid. split_and!; try done.
  apply Hrm. split_and!; [|done..]. exists (sm_model old). split; [|by apply (Hk _ _ Ho)].
  pose proof (no_efforts_facts _ _ Hne) as (F1 & _ & F3).
  pose proof (f_equal (fun x => mr_upstream_name (sm_model x)) Hne) as F4. cbn in F4.
  apply keep_In. split.
  - apply in_map_iff. exists old. split; [done|]. apply keep_In. split; [|by rewrite bool_decide_eq_true, <-F3].
    apply keep_In. split; [|by rewrite <-F1, Hpe, Str.str_eqb_refl].
    apply in_map_iff. exists (id, old). split; [done|]. by apply list_elem_of_In, elem_of_map_to_list.
  - rewrite <-F1, Hpe, Str.str_eqb_refl, <-F4, (Hk _ _ Ho). by rewrite <-Hmid.
Qed.

(** Synced again from the same list, with nothing else written in between,
    the catalogue stays as it is: the second run would write nothing and
    remove nothing. *)
Theorem second_sync_changes_nothing db db' rep :
  keyed_by_id db → so_dry_run options = false → sync db db = Ok (db', rep) →
  ∃ p, plan (provider_models endpoint db') (laddered_models db') options = Ok p
  ∧ pl_writes p = [] ∧ pl_remove p = [] ∧ rp_added (pl_report p) = [] ∧ rp_updated (pl_report p) = [].
Proof using DL.
  intros Hk Hd Hs. pose proof (sync_keyed _ _ _ Hk Hd Hs) as Hk'.
  assert (laddered_models db' = laddered_models db) as Hlad.
  { destruct (sync_spec db db db' rep Hd Hs) as (_ & _ & Ht & _). unfold Sync.laddered_models. congruence. }
  assert (∀ m, In m offered_rows → found endpoint (provider_models endpoint db') IsNew m = false
    ∧ found endpoint (provider_models endpoint db') IsChanged m = false) as Hv.
  { intros m Hm. destruct (offered_settled _ _ _ m Hk Hd Hs Hm) as (r' & Hr' & Hc).
    destruct (offered_row m Hm) as (_ & _ & Hst & _). unfold found, verdict. rewrite by_id_stored, Hr' by done.
    destruct Hc as [Hc|[Hc Hu]].
    - by destruct (Str.eqb (mr_provider (sm_model r')) endpoint) eqn:E; [apply Str.str_eqb_eq in E|].
    - by rewrite Hc, Str.str_eqb_refl, Hu. }
  destruct (plan (provider_models endpoint db') (laddered_models db') options) as [p|e] eqn:Hp.
  - exists p. split; [done|]. destruct (plan_spec _ _ _ Hp) as (Hw & Hna & Hnu & _ & Hrm). rewrite Hw, Hna, Hnu.
    split_and!.
    + apply keep_nil. intros m Hm. unfold to_write. by destruct (Hv m Hm) as [-> ->].
    + destruct (pl_remove p) as [|id rest]; [done|exfalso].
      destruct (proj1 (Hrm id) ltac:(by left)) as (Hex & Hnl & Hl). rewrite Hlad in Hl.
      exact (nothing_left_to_remove db db' rep id Hk Hd Hs Hex Hnl Hl).
    + unfold ids. rewrite (proj2 (keep_nil _ _)); [done|]. intros m Hm. by apply Hv.
    + unfold ids. rewrite (proj2 (keep_nil _ _)); [done|]. intros m Hm. by apply Hv.
  - exfalso. apply plan_Err in Hp as [Hno|(id & Hex & Hnl & Hl)].
    + destruct (sync_spec db db db' rep Hd Hs) as (p & Hp' & _). by apply plan_spec in Hp' as (_ & _ & _ & ? & _).
    + rewrite Hlad in Hl. exact (nothing_left_to_remove db db' rep id Hk Hd Hs Hex Hnl Hl).
Qed.

End again.
End syncs.
End CatalogSync.

(** ** A sync *)

Module SmallSync.
Import Sync PlanLemmas TableLemmas CatalogSync SmallLists.

Definition a_row (id provider : string) (synced_by : option string) : StoredModelRow Q := {|
  sm_model := {|
    mr_id := id; mr_provider := provider; mr_upstream_name := "old"; mr_input_per_mtok := inject_Z 1;
    mr_output_per_mtok := inject_Z 1; mr_cache_read_per_mtok := None; mr_cache_write_per_mtok := None;
    mr_context_window := 1000; mr_max_output_tokens := 1000; mr_supports_vision := false;
    mr_supports_tools := false; mr_supports_reasoning := false; mr_supports_prompt_cache := false;
    mr_display_label := None; mr_reasoning_efforts := None; mr_reasoning_effort := None |};
  sm_is_override := true; sm_synced_by := synced_by |}.

Definition tables (rows : list (StoredModelRow Q)) (ladder : list string) : Db Q := {|
  db_catalog := list_to_map (map (fun r => (mr_id (sm_model r), r)) rows);
  db_tiers := [JArray [JObject [("models", JArray (map JString ladder))]]] |}.

(** One of the endpoint's rows is on a ladder, one is an operator's, one is
    another provider's, and one is an earlier sync's alone. *)
Definition before : Db Q :=
  tables [a_row "merge/gone" "merge" (Some "merge"); a_row "merge/laddered" "merge" (Some "merge");
          a_row "merge/stated" "merge" None; a_row "openai/o" "openai" None] ["merge/laddered"; "openai/o"].

Definition options : SyncOptions := {|
  so_listing_url := None; so_include := []; so_exclude := ["*/art"]; so_price := Cheapest;
  so_dry_run := false; so_allow_shrink := false |}.

Definition synced_once : result (Db Q * SyncReport) Error :=
  sync (fun _ => "") "merge" "Merge" "https://gateway.merge.dev/v1/models" [glm] options None before before.

Definition after : Db Q := match synced_once with Ok x => x.1 | Err _ => before end.
Definition the_report : SyncReport :=
  match synced_once with
  | Ok x => x.2
  | Err _ => {| rp_endpoint := ""; rp_price := Cheapest; rp_dry_run := false; rp_added := [];
                rp_updated := []; rp_unchanged := []; rp_removed := []; rp_kept_on_ladder := [];
                rp_held := []; rp_skipped := []; rp_filtered := [] |}
  end.

Example merge_synced :
  (rp_added the_report, rp_removed the_report, rp_kept_on_ladder the_report)
  = (["merge/zai/glm"], ["merge/gone"], ["merge/laddered"]).
Proof. vm_compute. reflexivity. Qed.

Lemma before_keyed : keyed_by_id before.
Proof. apply (bool_decide_unpack _). vm_compute. exact I. Defined.

Lemma synced_once_Ok : synced_once = Ok (after, the_report).
Proof. vm_compute. reflexivity. Defined.

Lemma sync_spares_what_is_not_its_own_witness :
  db_tiers after = db_tiers before
  ∧ ∀ id, spared "merge" [glm] options (db_catalog before !! id) (db_catalog after !! id) id
            (laddered_models (fun _ => "") before).
Proof.
  apply (sync_spares_what_is_not_its_own (fun _ => "") "merge" "Merge" "https://gateway.merge.dev/v1/models"
    [glm] options None before before after the_report before_keyed synced_once_Ok).
Defined.

Lemma report_says_what_was_done_witness :
  (∀ id, In id (rp_removed the_report) ↔ is_Some (db_catalog before !! id) ∧ db_catalog after !! id = None)
  ∧ ∀ id, In id (rp_added the_report ++ rp_updated the_report) →
      ∃ r, db_catalog after !! id = Some r ∧ mr_provider (sm_model r) = "merge" ∧ sm_synced_by r = Some "merge".
Proof.
  apply (report_says_what_was_done (fun _ => "") "merge" "Merge" "https://gateway.merge.dev/v1/models"
    [glm] options None before before after the_report before_keyed eq_refl synced_once_Ok).
Defined.

Lemma second_sync_changes_nothing_witness :
  ∃ p, plan "merge" "Merge" [glm] (provider_models "merge" after) (laddered_models (fun _ => "") after) options
       = Ok p
  ∧ pl_writes p = [] ∧ pl_remove p = [] ∧ rp_added (pl_report p) = [] ∧ rp_updated (pl_report p) = [].
Proof.
  apply (second_sync_changes_nothing (fun _ => "") "merge" "Merge" "https://gateway.merge.dev/v1/models"
    [glm] options None before after the_report before_keyed eq_refl synced_once_Ok).
Defined.

(** A stale row the operator states again before the write is not removed, and
    is reported as kept because a ladder names it, which none does. *)
Example restated_is_reported_laddered :
  let look := tables [a_row "merge/gone" "merge" (Some "merge"); a_row "merge/b" "merge" (Some "merge")] [] in
  let write := tables [a_row "merge/gone" "merge" None; a_row "merge/b" "merge" None] [] in
  let allowed := {| so_listing_url := None; so_include := []; so_exclude := []; so_price := Cheapest;
                    so_dry_run := false; so_allow_shrink := true |} in
  laddered_models (fun _ => "") write = []
  ∧ match sync (fun _ => "") "merge" "Merge" "" [glm] allowed None look write with
    | Ok (_, report) => Permutation (rp_kept_on_ladder report) ["merge/gone"; "merge/b"]
    | Err _ => False
    end.
Proof.
  split; [reflexivity|]. vm_compute.
  first [exact (Permutation_refl _)|apply perm_swap].
Qed.

(** [*] crosses slashes, and [?] takes one character, however many its bytes. *)
Example globs :
  Globs.glob "zai/*" "zai/a/b" = true ∧ Globs.glob "?" (Str.of_bytes (map ascii_of_N [195%N; 169%N])) = true
  ∧ Globs.glob "??" (Str.of_bytes (map ascii_of_N [195%N; 169%N])) = false ∧ Globs.glob "a?c" "ac" = false.
Proof. vm_compute. done. Qed.

End SmallSync.
