(* ===== verification/Period.v ===== *)
(** * Reporting periods

    [oag-server/src/admin/period.rs]: a query string's window turned into two
    instants, half-open, in a fixed offset, and how many calendar months of a
    seat's fee a window covers.

    Instants are nanoseconds since the epoch; an [OffsetDateTime]'s own offset
    only decides its calendar fields, and is passed beside it.  The [time]
    package's calendar is a class; [Gregorian] is an instance of it, with its
    laws proved. *)

From Stdlib Require Import Ascii QArith.
From S2P Require Import Prelude Text Money.
From S2P Require Import Endpoints.
#[local] Open Scope string_scope.
#[local] Open Scope oag_scope.
#[local] Open Scope list_scope.
#[local] Open Scope Z_scope.

(** ** The [time] package *)

Class TimeCrate := {
  Date : Type;
  from_calendar_date : Z → Z → Z → option Date;
  next_day : Date → option Date;
  date_leb : Date → Date → bool;
  (** [Display], and [parse] of [[year]-[month]-[day]]. *)
  date_text : Date → string;
  parse_ymd : string → option Date;
  (** Days since the epoch, and the year and month a day is in. *)
  day_number : Date → Z;
  year_month_of : Z → Z * Z
}.

(** [Decimal]'s subtraction. *)
Class DecimalSub (D : Type) := dsub : D → D → D.

Definition NANOS : Z := 1000000000.
Definition DAY : Z := 86400 * NANOS.
Definition I32_MIN : Z := -2147483648.

(** ** [period.rs] *)

Record Window : Type := {
  w_period : option string;
  w_from : option string;
  w_to : option string;
  w_days : option Z;
  w_tz : option Z
}.

Record Resolved : Type := {
  r_start : option Z;
  r_end : option Z;
  r_now : Z;
  r_offset : Z;       (* seconds east of UTC *)
  r_period : string;
  r_label : string
}.

Record WindowView : Type := {
  v_period : string;
  v_label : string;
  v_start : option string;
  v_end : string;
  v_tz_offset_minutes : Z
}.

Module Period.

Definition DEFAULT_DAYS : Z := 30.

Section period.
Context `{T : TimeCrate} `{S : DebugStr}.

(** The year and month of an instant, in an offset. *)
Definition year_month_at (at_ : Z) (offset : Z) : Z * Z := year_month_of ((at_ + offset * NANOS) / DAY).

Definition midnight (date : Date) (offset : Z) : Z := day_number date * DAY - offset * NANOS.

Definition month_start (year month offset : Z) : option Z :=
  match from_calendar_date year month 1 with
  | Some d => Some (midnight d offset)
  | None => None
  end.

Definition year_start (year offset : Z) : option Z := month_start year 1 offset.

Definition previous_month (year month : Z) : Z * Z :=
  if month =? 1 then (year - 1, 12) else (year, month - 1).

Definition next_month (year month : Z) : Z * Z :=
  if month =? 12 then (year + 1, 1) else (year, month + 1).

(** [{year:04}], which counts a sign among the four. *)
Definition padded (width : nat) (n : Z) : string :=
  let digits := Str.decimal (Z.abs n) in
  let sign := if n <? 0 then "-" else "" in
  sign +:+ Str.of_bytes (repeat "0"%char (width - String.length sign - String.length digits)) +:+ digits.

(** [{n}] of a signed integer. *)
Definition shown (n : Z) : string := padded 0 n.

Definition year_month (year month : Z) : string := padded 4 year +:+ "-" +:+ padded 2 month.

Definition unrepresentable : string := "that period falls outside the representable calendar".

Definition offset_from (tz : option Z) : result Z string :=
  let minutes := default 0 tz in
  if negb ((-720 <=? minutes) && (minutes <=? 840)) then
    Err ("tz must be minutes east of UTC, between -720 and 840; got " +:+ shown minutes)
  else Ok (minutes * 60).

Definition parse_date (s : string) : result Date string :=
  match parse_ymd (Str.trim s) with
  | Some d => Ok d
  | None => Err (debug_str s +:+ " is not a date of the form YYYY-MM-DD")
  end.

Definition named (period : string) (now offset : Z) : result Resolved string :=
  let '(year, month) := year_month_at now offset in
  let window period label start end_ := {|
    r_start := start; r_end := end_; r_now := now; r_offset := offset;
    r_period := period; r_label := label |} in
  if Str.eqb period "month" then
    let? start := ok_or (month_start year month offset) unrepresentable in
    Ok (window "month" (year_month year month +:+ " to date") (Some start) None)
  else if Str.eqb period "last-month" then
    let '(py, pm) := previous_month year month in
    let? start := ok_or (month_start py pm offset) unrepresentable in
    let? end_ := ok_or (month_start year month offset) unrepresentable in
    Ok (window "last-month" (year_month py pm) (Some start) (Some end_))
  else if Str.eqb period "year" then
    let? start := ok_or (year_start year offset) unrepresentable in
    Ok (window "year" (shown year +:+ " to date") (Some start) None)
  else if Str.eqb period "last-year" then
    let? start := ok_or (year_start (year - 1) offset) unrepresentable in
    let? end_ := ok_or (year_start year offset) unrepresentable in
    Ok (window "last-year" (shown (year - 1)) (Some start) (Some end_))
  else if Str.eqb period "all" then Ok (window "all" "all time" None None)
  else
    Err ("unknown period " +:+ debug_str period
      +:+ ": valid values are month, last-month, year, last-year, all — or pass from=YYYY-MM-DD&to=YYYY-MM-DD for a custom range, or days=N for a rolling look-back").

Definition custom (from to : string) (now offset : Z) : result Resolved string :=
  let? from_date := parse_date from in
  let? to_date := parse_date to in
  if negb (date_leb from_date to_date) then
    Err ("from (" +:+ date_text from_date +:+ ") is after to (" +:+ date_text to_date
      +:+ "); a range runs forwards")
  else
    let? end_date := ok_or (next_day to_date) unrepresentable in
    Ok {| r_start := Some (midnight from_date offset); r_end := Some (midnight end_date offset);
          r_now := now; r_offset := offset; r_period := "custom";
          r_label := date_text from_date +:+ " to " +:+ date_text to_date |}.

Definition rolling (days now offset : Z) : Resolved :=
  let days := Z.max 1 (Z.min 3650 days) in {|
  r_start := Some (now - days * DAY); r_end := None; r_now := now; r_offset := offset;
  r_period := "days"; r_label := "last " +:+ shown days +:+ " days" |}.

Definition resolve (window : Window) (now : Z) : result Resolved string :=
  let? offset := offset_from (w_tz window) in
  match match w_period window with
        | Some p => let p := Str.trim p in if Str.is_empty p then None else Some p
        | None => None
        end with
  | Some period => named period now offset
  | None =>
      match w_from window, w_to window with
      | Some from, Some to => custom from to now offset
      | Some _, None | None, Some _ => Err "a custom range needs both from and to, each as YYYY-MM-DD"
      | None, None => Ok (rolling (default DEFAULT_DAYS (w_days window)) now offset)
      end
  end.

Definition effective_end (r : Resolved) : Z := default (r_now r) (r_end r).

(** [rfc3339] is [OffsetDateTime::format]'s, of an instant in an offset. *)
Definition view (rfc3339 : Z → Z → string) (r : Resolved) : WindowView := {|
  v_period := r_period r; v_label := r_label r;
  v_start := match r_start r with Some s => Some (rfc3339 s (r_offset r)) | None => None end;
  v_end := rfc3339 (effective_end r) (r_offset r);
  v_tz_offset_minutes := r_offset r ÷ 60
|}.

(** *** Calendar months *)

Context {D : Type} `{Decimal D} `{!DecimalSub D}.

(** [whole_seconds] *)
Definition whole_seconds (nanos : Z) : Z := nanos ÷ NANOS.

Definition elapsed_fraction (at_ offset : Z) : option D :=
  let '(year, month) := year_month_at at_ offset in
  let '(ny, nm) := next_month year month in
  match month_start year month offset, month_start ny nm offset with
  | Some start, Some end_ =>
      let span := whole_seconds (end_ - start) in
      if span <=? 0 then None
      else Some (ddiv (dint (whole_seconds (at_ - start))) (dint span))
  | _, _ => None
  end.

Definition calendar_months (start end_ offset : Z) : option D :=
  if end_ <=? start then Some dzero
  else
    let '(sy, sm) := year_month_at start offset in
    let '(ey, em) := year_month_at end_ offset in
    let whole := (ey - sy) * 12 + em - sm in
    match elapsed_fraction start offset, elapsed_fraction end_ offset with
    | Some fs, Some fe => Some (dadd (dsub (dint whole) fs) fe)
    | _, _ => None
    end.

Definition seat_months (r : Resolved) (created_at : Z) : option D :=
  let start := match r_start r with Some s => Z.max s created_at | None => created_at end in
  calendar_months start (effective_end r) (r_offset r).

End period.
End Period.

(** ** The calendar's laws *)

Class TimeLaws `{T : TimeCrate} : Prop := {
  month_range n : 1 ≤ (year_month_of n).2 ≤ 12;
  (** A month's first day is in it, and a day of a month is at or after its
      first day and before the next month's. *)
  first_day y m d : from_calendar_date y m 1 = Some d → year_month_of (day_number d) = (y, m);
  day_after n d :
    from_calendar_date (year_month_of n).1 (year_month_of n).2 1 = Some d → day_number d ≤ n;
  day_before n d :
    let '(y, m) := Period.next_month (year_month_of n).1 (year_month_of n).2 in
    from_calendar_date y m 1 = Some d → n < day_number d;
  month_mono a b :
    a ≤ b → (year_month_of a).1 * 12 + (year_month_of a).2 ≤ (year_month_of b).1 * 12 + (year_month_of b).2;
  next_day_number d d' : next_day d = Some d' → day_number d' = day_number d + 1;
  date_leb_number a b : date_leb a b = (day_number a <=? day_number b)
}.

Class DecimalSubLaws (D : Type) `{Decimal D} `{!DecimalSub D} : Prop := {
  dsub_mono a b c d :
    dle a b = true → dle c d = true → dle (dsub a d) (dsub b c) = true;
  dsub_back a : deq (dadd (dsub dzero a) a) dzero = true;
  dsub_int x y : deq (dsub (dint x) (dint y)) (dint (x - y)) = true;
  dadd_int x y : deq (dadd (dint x) (dint y)) (dint (x + y)) = true
}.

(** ** Months *)

Module Months.
Import Period.

Lemma next_previous y m : 1 ≤ m ≤ 12 → let '(py, pm) := previous_month y m in next_month py pm = (y, m).
Proof.
  intros Hm. unfold previous_month. destruct (m =? 1) eqn:E; unfold next_month.
  - apply Z.eqb_eq in E as ->. cbn. f_equal. lia.
  - apply Z.eqb_neq in E. replace (m - 1 =? 12) with false by (symmetry; apply Z.eqb_neq; lia). f_equal. lia.
Qed.

Lemma ok_or_Ok {A E} (o : option A) (e : E) a : ok_or o e = Ok a → o = Some a.
Proof. destruct o; cbn; congruence. Qed.

Section months.
Context `{T : TimeCrate} `{TL : !TimeLaws}.

Lemma DAY_pos : 0 < DAY.
Proof. unfold DAY, NANOS. lia. Qed.

Lemma start_is_in_it y m offset s : month_start y m offset = Some s → year_month_at s offset = (y, m).
Proof using TL.
  unfold month_start. destruct (from_calendar_date y m 1) as [d|] eqn:Hd; [|done]. intros Heq. injection Heq as <-.
  unfold year_month_at, midnight. replace (day_number d * DAY - offset * NANOS + offset * NANOS)
    with (day_number d * DAY) by lia.
  rewrite Z.div_mul by (pose proof DAY_pos; lia). by apply first_day.
Qed.

Lemma in_its_month at_ offset :
  (∀ s, month_start (year_month_at at_ offset).1 (year_month_at at_ offset).2 offset = Some s → s ≤ at_)
  ∧ ∀ e, (let '(y, m) := next_month (year_month_at at_ offset).1 (year_month_at at_ offset).2 in
          month_start y m offset) = Some e → at_ < e.
Proof using TL.
  pose proof DAY_pos as Hpos. unfold year_month_at. set (n := (at_ + offset * NANOS) / DAY).
  assert (n * DAY ≤ at_ + offset * NANOS < (n + 1) * DAY) as [H1 H2].
  { pose proof (Z.div_mod (at_ + offset * NANOS) DAY ltac:(lia)).
    pose proof (Z.mod_pos_bound (at_ + offset * NANOS) DAY Hpos). unfold n. lia. }
  split.
  - intros s. unfold month_start. destruct (from_calendar_date _ _ 1) as [d|] eqn:Hd; [|done].
    intros Heq. injection Heq as <-. pose proof (day_after n d Hd). unfold midnight. nia.
  - intros e. pose proof (day_before n) as Hb. destruct (next_month _ _) as [y m]. unfold month_start.
    destruct (from_calendar_date y m 1) as [d|] eqn:Hd; [|done]. intros Heq. injection Heq as <-.
    specialize (Hb d eq_refl). unfold midnight. nia.
Qed.

Lemma months_in_order a b offset :
  a ≤ b →
  (year_month_at a offset).1 * 12 + (year_month_at a offset).2
  ≤ (year_month_at b offset).1 * 12 + (year_month_at b offset).2.
Proof using TL. intros Hab. apply month_mono. apply Z.div_le_mono; [apply DAY_pos|lia]. Qed.

Lemma starts_in_order y m y' m' offset s s' :
  month_start y m offset = Some s → month_start y' m' offset = Some s' → y * 12 + m < y' * 12 + m' → s < s'.
Proof using TL.
  intros Hs Hs' Hlt. destruct (Z.lt_ge_cases s s') as [|Hge]; [done|exfalso].
  pose proof (months_in_order s' s offset Hge) as Hm.
  rewrite (start_is_in_it _ _ _ _ Hs), (start_is_in_it _ _ _ _ Hs') in Hm. cbn in Hm. lia.
Qed.

(** A month is at least a day long. *)
Lemma month_spans at_ offset s e :
  month_start (year_month_at at_ offset).1 (year_month_at at_ offset).2 offset = Some s →
  (let '(y, m) := next_month (year_month_at at_ offset).1 (year_month_at at_ offset).2 in
   month_start y m offset) = Some e →
  s ≤ at_ < e ∧ 0 < whole_seconds (e - s) ∧ 0 ≤ whole_seconds (at_ - s) ≤ whole_seconds (e - s).
Proof using TL.
  intros Hs He. destruct (in_its_month at_ offset) as [H1 H2]. specialize (H1 s Hs). specialize (H2 e He).
  split; [done|]. pose proof DAY_pos as Hpos.
  assert (∃ k, e - s = k * DAY) as [k Hk].
  { unfold month_start in Hs. destruct (from_calendar_date _ _ 1) as [d|]; [|done]. injection Hs as <-.
    destruct (next_month _ _) as [y m]. unfold month_start in He. destruct (from_calendar_date y m 1) as [d'|]; [|done].
    injection He as <-. exists (day_number d' - day_number d). unfold midnight. lia. }
  assert (1 ≤ k) by nia. unfold whole_seconds. rewrite !Z.quot_div_nonneg by (unfold NANOS; lia).
  assert (k * 86400 ≤ (e - s) / NANOS) as Hq.
  { apply Z.div_le_lower_bound; [unfold NANOS; lia|]. rewrite Hk. unfold DAY. lia. }
  split; [lia|]. split; [apply Z.div_pos; unfold NANOS; lia|]. apply Z.div_le_mono; [unfold NANOS; lia|lia].
Qed.

End months.

Section fractions.
Context `{T : TimeCrate} `{TL : !TimeLaws}.
Context {D : Type} `{DL : DecimalLaws D} `{DS : !DecimalSub D} `{SL : !DecimalSubLaws D}.
Implicit Types a b f : D.

Lemma fraction_spec at_ offset f :
  elapsed_fraction at_ offset = Some f →
  ∃ s e, month_start (year_month_at at_ offset).1 (year_month_at at_ offset).2 offset = Some s
  ∧ (let '(y, m) := next_month (year_month_at at_ offset).1 (year_month_at at_ offset).2 in
     month_start y m offset) = Some e
  ∧ f = ddiv (dint (whole_seconds (at_ - s))) (dint (whole_seconds (e - s)))
  ∧ dle dzero f = true ∧ dle f done_ = true.
Proof using TL DL.
  unfold elapsed_fraction. destruct (year_month_at at_ offset) as [y m] eqn:Hym.
  destruct (next_month y m) as [ny nm] eqn:Hn.
  destruct (month_start y m offset) as [s|] eqn:Hs; [|done].
  destruct (month_start ny nm offset) as [e|] eqn:He; [|done].
  destruct (whole_seconds (e - s) <=? 0) eqn:Hz; [done|]. apply Z.leb_gt in Hz.
  intros Heq. injection Heq as <-. exists s, e. cbn. rewrite Hn. split_and!; [done..| |].
  all: pose proof (month_spans at_ offset s e) as Hsp; rewrite Hym in Hsp; cbn in Hsp; rewrite Hn in Hsp;
    specialize (Hsp Hs He) as (_ & _ & H0 & H1).
  all: pose proof (dint_lt _ _ Hz) as Hpos.
  - destruct (deq_le _ _ (ddiv_zero _ Hpos)) as [_ Hd]. eapply dle_trans; [exact Hd|].
    apply ddiv_mono; [done|by apply dint_mono].
  - destruct (deq_le _ _ (ddiv_self _ Hpos)) as [Hd _]. eapply dle_trans; [|exact Hd].
    apply ddiv_mono; [done|by apply dint_mono].
Qed.

Lemma dsub_zero n : deq (dsub (dint n) dzero) (dint n) = true.
Proof using DL SL. pose proof (dsub_int n 0) as Hd. by rewrite Z.sub_0_r in Hd. Qed.

(** A start of a month has no part of it behind it. *)
Lemma no_fraction y m offset s f :
  month_start y m offset = Some s → elapsed_fraction s offset = Some f → deq f dzero = true.
Proof using TL DL.
  intros Hs (s' & e & Hs' & He & -> & _)%fraction_spec.
  pose proof (month_spans s offset s' e Hs' He) as (_ & Hsp & _).
  rewrite (start_is_in_it _ _ _ _ Hs) in Hs'. cbn in Hs'. rewrite Hs in Hs'. injection Hs' as <-.
  rewrite Z.sub_diag. change (whole_seconds 0) with 0. apply ddiv_zero. by apply dint_lt.
Qed.

End fractions.
End Months.

(** ** What the windows promise *)

Module Periods.
Import Period Months.

Section windows.
Context `{T : TimeCrate} `{TL : !TimeLaws} `{S : DebugStr}.

(** A window's shape: it runs forwards, and from the past unless a caller
    wrote its days. *)
Definition forwards (now offset : Z) (r : Resolved) : Prop :=
  r_now r = now ∧ r_offset r = offset
  ∧ (∀ s e, r_start r = Some s → r_end r = Some e → s < e)
  ∧ (r_period r ≠ "custom" →
     (∀ s, r_start r = Some s → s ≤ now) ∧ ∀ e, r_end r = Some e → e ≤ now).

Lemma open_forwards now offset s p l :
  s ≤ now →
  forwards now offset {| r_start := Some s; r_end := None; r_now := now; r_offset := offset;
                         r_period := p; r_label := l |}.
Proof. intros Hs. split_and!; try done. intros _. split; [|done]. intros s' Heq. by injection Heq as <-. Qed.

Lemma closed_forwards now offset s e p l :
  s < e → (p ≠ "custom" → e ≤ now) →
  forwards now offset {| r_start := Some s; r_end := Some e; r_now := now; r_offset := offset;
                         r_period := p; r_label := l |}.
Proof.
  intros Hs He. split_and!; try done; cbn.
  - intros s' e' Heq Heq'. injection Heq as <-. by injection Heq' as <-.
  - intros Hp%He. split; intros x Heq; injection Heq as <-; lia.
Qed.

(** The months of a calendar year start in it, and this year's is past. *)
Lemma year_is_past now offset y m s :
  year_month_at now offset = (y, m) → year_start y offset = Some s → s ≤ now.
Proof using TL.
  intros Hym Hs. destruct (Z.le_gt_cases s now) as [|Hgt]; [done|exfalso]. unfold year_start in Hs.
  pose proof (months_in_order now s offset ltac:(lia)) as Hmo.
  rewrite Hym, (start_is_in_it _ _ _ _ Hs) in Hmo. cbn in Hmo.
  destruct (in_its_month now offset) as [Hin _]. rewrite Hym in Hin. cbn in Hin.
  pose proof (month_range ((now + offset * NANOS) / DAY)) as Hmr. unfold year_month_at in Hym. rewrite Hym in Hmr.
  cbn in Hmr. destruct (decide (m = 1)) as [->|]; [specialize (Hin s Hs); lia|lia].
Qed.

Lemma named_forwards period now offset r : named period now offset = Ok r → forwards now offset r.
Proof using TL.
  unfold named. destruct (in_its_month now offset) as [Hin _].
  pose proof (λ y m s, year_is_past now offset y m s) as Hyear.
  destruct (year_month_at now offset) as [y m] eqn:Hym. cbn in Hin.
  repeat (destruct (Str.eqb period _)); [| | | | |done].
  - intros (s & Hs%ok_or_Ok & Hr)%result_bind_Ok. injection Hr as <-. by apply open_forwards, Hin.
  - destruct (previous_month y m) as [py pm] eqn:Hpm.
    intros (s & Hs%ok_or_Ok & (e & He%ok_or_Ok & Hr)%result_bind_Ok)%result_bind_Ok. injection Hr as <-.
    apply closed_forwards; [|intros _; by apply Hin]. eapply starts_in_order; [exact Hs|exact He|].
    unfold previous_month in Hpm. destruct (m =? 1) eqn:E; injection Hpm as <- <-; lia.
  - intros (s & Hs%ok_or_Ok & Hr)%result_bind_Ok. injection Hr as <-. by eapply open_forwards, Hyear.
  - intros (s & Hs%ok_or_Ok & (e & He%ok_or_Ok & Hr)%result_bind_Ok)%result_bind_Ok. injection Hr as <-.
    apply closed_forwards; [|intros _; by eapply Hyear]. eapply starts_in_order; [exact Hs|exact He|lia].
  - intros Hr. injection Hr as <-. by split_and!.
Qed.

Lemma custom_forwards from to now offset r : custom from to now offset = Ok r → forwards now offset r.
Proof using TL.
  unfold custom. intros (f & _ & (t & _ & Hr)%result_bind_Ok)%result_bind_Ok.
  destruct (date_leb f t) eqn:Hft; [|done]. cbn [negb] in Hr.
  apply result_bind_Ok in Hr as (n & Hn%ok_or_Ok & Hr). injection Hr as <-.
  apply next_day_number in Hn. rewrite date_leb_number in Hft. apply Z.leb_le in Hft. pose proof DAY_pos.
  apply closed_forwards; [|done]. unfold midnight. nia.
Qed.

(** What a window resolves to runs forwards, in an offset no further from
    UTC than real ones are: its end, when it has one, is after its start; and
    unless it is a custom range, its start is no later than now, and so is its
    end when it is a calendar period that is over. *)
Theorem windows_run_forwards w now r :
  resolve w now = Ok r →
  ∃ offset, forwards now offset r ∧ -43200 ≤ offset ≤ 50400.
Proof using TL.
  unfold resolve. intros (offset & Ho & Hr)%result_bind_Ok. exists offset. split.
  - destruct (match w_period w with Some p => _ | None => None end) as [period|]; [by eapply named_forwards|].
    destruct (w_from w) as [from|], (w_to w) as [to|]; try done; [by eapply custom_forwards|].
    injection Hr as <-. apply open_forwards. pose proof DAY_pos. nia.
  - unfold offset_from in Ho. destruct (negb _) eqn:Hn; [done|]. injection Ho as <-.
    apply negb_false_iff, andb_true_iff in Hn. lia.
Qed.

(** Neighbouring windows share their boundary and nothing else: what ends
    last month is what starts this one, what ends last year is what starts
    this one, and a range to one day ends where a range from the next begins.
    The windows being half-open, an instant is in at most one of the two. *)
Theorem neighbours_meet now offset :
  (∀ a b, named "last-month" now offset = Ok a → named "month" now offset = Ok b →
     r_end a = r_start b ∧ is_Some (r_start b))
  ∧ (∀ a b, named "last-year" now offset = Ok a → named "year" now offset = Ok b →
     r_end a = r_start b ∧ is_Some (r_start b))
  ∧ ∀ from to from' to' a b t f' now',
      custom from to now offset = Ok a → custom from' to' now' offset = Ok b →
      parse_date to = Ok t → parse_date from' = Ok f' → next_day t = Some f' →
      r_end a = r_start b ∧ is_Some (r_start b).
Proof.
  split_and!.
  - intros a b. unfold named. destruct (year_month_at now offset) as [y m].
    cbn -[ok_or month_start previous_month]. destruct (previous_month y m) as [py pm].
    intros (s & _ & (e & He & Ha)%result_bind_Ok)%result_bind_Ok (s' & Hs' & Hb)%result_bind_Ok.
    injection Ha as <-. injection Hb as <-. cbn. rewrite He in Hs'. by injection Hs' as ->.
  - intros a b. unfold named. destruct (year_month_at now offset) as [y m].
    cbn -[ok_or year_start]. intros (s & _ & (e & He & Ha)%result_bind_Ok)%result_bind_Ok (s' & Hs' & Hb)%result_bind_Ok.
    injection Ha as <-. injection Hb as <-. cbn. rewrite He in Hs'. by injection Hs' as ->.
  - intros from to from' to' a b t f' now' Ha Hb Ht Hf Hn. unfold custom in *.
    rewrite Ht in Ha. rewrite Hf in Hb. cbn [result_bind] in *.
    apply result_bind_Ok in Ha as (f & _ & Ha). apply result_bind_Ok in Hb as (t' & _ & Hb).
    destruct (negb _); [done|]. destruct (negb _); [done|]. rewrite Hn in Ha. cbn [ok_or result_bind] in Ha.
    apply result_bind_Ok in Hb as (n & _ & Hb). by injection Ha as <-; injection Hb as <-.
Qed.

End windows.

Section fees.
Context `{T : TimeCrate} `{TL : !TimeLaws}.
Context {D : Type} `{DL : DecimalLaws D} `{DS : !DecimalSub D} `{SL : !DecimalSubLaws D}.

(** A window from the start of one month to the start of another covers as many
    months as lie between them, exactly: any one month is 1 and any year is
    12, however many days they have. *)
Theorem whole_months_are_whole y m y' m' offset s e (f : D) :
  month_start y m offset = Some s → month_start y' m' offset = Some e →
  0 ≤ (y' - y) * 12 + m' - m → calendar_months s e offset = Some f →
  deq f (dint ((y' - y) * 12 + m' - m)) = true.
Proof using TL DL SL.
  intros Hs He Hn. unfold calendar_months. destruct (e <=? s) eqn:Hle.
  { intros Heq. injection Heq as <-. apply Z.leb_le in Hle.
    pose proof (months_in_order e s offset Hle) as Hm.
    rewrite (start_is_in_it _ _ _ _ Hs), (start_is_in_it _ _ _ _ He) in Hm. cbn in Hm.
    replace ((y' - y) * 12 + m' - m) with 0 by lia. apply andb_true_iff. split; apply dle_refl. }
  rewrite (start_is_in_it _ _ _ _ Hs), (start_is_in_it _ _ _ _ He).
  set (n := (y' - y) * 12 + m' - m) in *.
  destruct (elapsed_fraction s offset) as [fs|] eqn:Hfs; [|done].
  destruct (elapsed_fraction e offset) as [fe|] eqn:Hfe; [|done]. intros Heq. injection Heq as <-.
  pose proof (no_fraction _ _ _ _ _ Hs Hfs) as Hzs. pose proof (no_fraction _ _ _ _ _ He Hfe) as Hze.
  apply deq_le in Hzs as [S1 S2], Hze as [E1 E2].
  destruct (deq_le _ _ (dsub_zero (D := D) n)) as [Z1 Z2].
  destruct (deq_le _ _ (dadd_int (D := D) n 0)) as [A1 A2]. rewrite Z.add_0_r in A1, A2.
  apply andb_true_iff. split.
  - eapply dle_trans; [|exact A1]. apply dadd_mono; [|exact E1].
    eapply dle_trans; [|exact Z1]. apply dsub_mono; [apply dle_refl|exact S2].
  - eapply dle_trans; [exact A2|]. apply dadd_mono; [|exact E2].
    eapply dle_trans; [exact Z2|]. apply dsub_mono; [apply dle_refl|exact S1].
Qed.

(** A seat is never charged a negative fee for a window, nor more than a
    month beyond the months between the two ends' own. *)
Theorem fees_are_bounded start end_ offset (f : D) :
  calendar_months start end_ offset = Some f →
  dle dzero f = true
  ∧ (start < end_ →
     dle f (dint (((year_month_at end_ offset).1 - (year_month_at start offset).1) * 12
                  + (year_month_at end_ offset).2 - (year_month_at start offset).2 + 1)) = true).
Proof using TL DL SL.
  unfold calendar_months. destruct (end_ <=? start) eqn:Hle.
  { intros Heq. injection Heq as <-. apply Z.leb_le in Hle. split; [apply dle_refl|lia]. }
  apply Z.leb_gt in Hle. pose proof (months_in_order start end_ offset ltac:(lia)) as Hm.
  destruct (year_month_at start offset) as [sy sm] eqn:Hs. destruct (year_month_at end_ offset) as [ey em] eqn:He.
  cbn in Hm |- *. set (n := (ey - sy) * 12 + em - sm) in *.
  destruct (elapsed_fraction start offset) as [fs|] eqn:Hfs; [|done].
  destruct (elapsed_fraction end_ offset) as [fe|] eqn:Hfe; [|done]. intros Heq. injection Heq as <-.
  destruct (fraction_spec _ _ _ Hfs) as (s & e & Hms & Hme & Hfsv & S0 & S1).
  destruct (fraction_spec _ _ _ Hfe) as (s' & e' & Hms' & Hme' & Hfev & E0 & E1).
  destruct (deq_le _ _ (dsub_zero (D := D) n)) as [Z1 _].
  destruct (deq_le _ _ (dadd_int (D := D) n 1)) as [A1 _].
  split.
  - destruct (Z.eq_dec n 0) as [Hn|Hn].
    + rewrite Hn. destruct (deq_le _ _ (dsub_back (D := D) fs)) as [_ Hb].
      eapply dle_trans; [exact Hb|]. apply dadd_mono; [apply dle_refl|].
      pose proof (month_range ((start + offset * NANOS) / DAY)) as R1.
      pose proof (month_range ((end_ + offset * NANOS) / DAY)) as R2. unfold year_month_at in Hs, He.
      rewrite Hs in R1. rewrite He in R2. cbn in R1, R2.
      assert (ey = sy ∧ em = sm) as [-> ->] by (unfold n in Hn; lia).
      fold (year_month_at start offset) in Hs. fold (year_month_at end_ offset) in He.
      pose proof (month_spans start offset s e Hms Hme) as (B1 & B2 & _).
      rewrite Hs in Hms, Hme. rewrite He in Hms', Hme'. cbn in *.
      assert (s' = s) as -> by congruence. assert (e' = e) as ->.
      { destruct (next_month sy sm). congruence. }
      rewrite Hfsv, Hfev. apply ddiv_mono; [by apply dint_lt|]. apply dint_mono.
      unfold whole_seconds. apply Z.quot_le_mono; unfold NANOS; lia.
    + destruct (deq_le _ _ (dadd_zero (D := D) dzero)) as [_ Hz]. eapply dle_trans; [exact Hz|].
      apply dadd_mono; [|exact E0].
      destruct (deq_le _ _ (dsub_int (D := D) 1 1)) as [_ Hd]. eapply dle_trans; [exact Hd|].
      apply dsub_mono; [apply dint_mono; unfold n in *; lia|exact S1].
  - intros _. eapply dle_trans; [|exact A1]. apply dadd_mono; [|exact E1].
    eapply dle_trans; [|exact Z1]. apply dsub_mono; [apply dle_refl|exact S0].
Qed.

End fees.
End Periods.

(** ** The Gregorian calendar *)

Module Gregorian.
Import Period.

(** Days before a year, counted from the first day of year 1. *)
Definition days_before (y : Z) : Z := 365 * (y - 1) + (y - 1) / 4 - (y - 1) / 100 + (y - 1) / 400.

Definition leap (y : Z) : bool := (y mod 4 =? 0) && (negb (y mod 100 =? 0) || (y mod 400 =? 0)).

(** Days of the year before a month. *)
Definition months_before (l : bool) (m : Z) : Z :=
  let f := if l then 1 else 0 in
  if m =? 1 then 0 else if m =? 2 then 31 else if m =? 3 then 59 + f else if m =? 4 then 90 + f
  else if m =? 5 then 120 + f else if m =? 6 then 151 + f else if m =? 7 then 181 + f
  else if m =? 8 then 212 + f else if m =? 9 then 243 + f else if m =? 10 then 273 + f
  else if m =? 11 then 304 + f else if m =? 12 then 334 + f else 365 + f.

(** The first day of year 1, before the epoch. *)
Definition EPOCH : Z := 719162.

Definition year_of (n : Z) : Z :=
  let y := n * 400 / 146097 + 1 in
  if n <? days_before y then y - 1 else if days_before (y + 1) <=? n then y + 1 else y.

Definition month_of (l : bool) (k : Z) : Z :=
  if k <? months_before l 2 then 1 else if k <? months_before l 3 then 2
  else if k <? months_before l 4 then 3 else if k <? months_before l 5 then 4
  else if k <? months_before l 6 then 5 else if k <? months_before l 7 then 6
  else if k <? months_before l 8 then 7 else if k <? months_before l 9 then 8
  else if k <? months_before l 10 then 9 else if k <? months_before l 11 then 10
  else if k <? months_before l 12 then 11 else 12.

Definition civil (n : Z) : Z * Z :=
  let n := n + EPOCH in
  let y := year_of n in (y, month_of (leap y) (n - days_before y)).

(** A date is its day number. *)
Definition date_of (y m d : Z) : option Z :=
  if (-9999 <=? y) && (y <=? 9999) && (1 <=? m) && (m <=? 12) && (1 <=? d)
     && (d <=? months_before (leap y) (m + 1) - months_before (leap y) m)
  then Some (days_before y + months_before (leap y) m + (d - 1) - EPOCH) else None.

Definition parsed (s : string) : option Z :=
  match Str.split s "-" with
  | [y; m; d] =>
      if all Str.is_ascii_digit (Str.bytes (y +:+ m +:+ d)) && Nat.eqb (String.length y) 4
         && Nat.eqb (String.length m) 2 && Nat.eqb (String.length d) 2
      then date_of (Str.value y) (Str.value m) (Str.value d) else None
  | _ => None
  end.

#[global] Instance gregorian : TimeCrate := {|
  Date := Z;
  from_calendar_date := date_of;
  next_day n := if n + 1 <? days_before 10000 - EPOCH then Some (n + 1) else None;
  date_leb := Z.leb;
  date_text n :=
    let '(y, m) := civil n in
    year_month y m +:+ "-" +:+ padded 2 (n + EPOCH - days_before y - months_before (leap y) m + 1);
  parse_ymd := parsed;
  day_number n := n;
  year_month_of := civil
|}.

Lemma year_length y : days_before (y + 1) = days_before y + (if leap y then 366 else 365).
Proof.
  unfold days_before, leap. replace (y + 1 - 1) with y by lia.
  assert (∀ k, 0 < k → y / k - (y - 1) / k = if y mod k =? 0 then 1 else 0) as H.
  { intros k Hk. pose proof (Z.div_mod y k ltac:(lia)). pose proof (Z.mod_pos_bound y k Hk).
    destruct (Z.eqb_spec (y mod k) 0) as [E|E].
    - enough ((y - 1) / k = y / k - 1) by lia. symmetry. apply (Z.div_unique _ _ _ (k - 1)); [lia|nia].
    - enough ((y - 1) / k = y / k) by lia. symmetry. apply (Z.div_unique _ _ _ (y mod k - 1)); [lia|nia]. }
  pose proof (H 4 ltac:(lia)). pose proof (H 100 ltac:(lia)). pose proof (H 400 ltac:(lia)).
  assert (y mod 100 = 0 → y mod 4 = 0) as H4 by (intros; Z.to_euclidean_division_equations; lia).
  assert (y mod 400 = 0 → y mod 100 = 0) as H100 by (intros; Z.to_euclidean_division_equations; lia).
  destruct (Z.eqb_spec (y mod 4) 0), (Z.eqb_spec (y mod 100) 0), (Z.eqb_spec (y mod 400) 0); cbn; lia.
Qed.

Lemma year_of_spec n : days_before (year_of n) ≤ n < days_before (year_of n + 1).
Proof.
  unfold year_of. set (q := n * 400 / 146097).
  assert (146097 * q ≤ n * 400 < 146097 * (q + 1)) as Hq.
  { pose proof (Z.div_mod (n * 400) 146097 ltac:(lia)). pose proof (Z.mod_pos_bound (n * 400) 146097 ltac:(lia)).
    unfold q. lia. }
  clearbody q.
  assert (days_before q ≤ n < days_before (q + 3)) as [H1 H2].
  { unfold days_before. split; Z.to_euclidean_division_equations; lia. }
  replace (q + 1 - 1) with q by lia.
  destruct (n <? days_before (q + 1)) eqn:E1; [apply Z.ltb_lt in E1; replace (q + 1 - 1 + 1) with (q + 1) by lia;
    replace (q + 1 - 1) with q by lia; lia|]. apply Z.ltb_ge in E1.
  destruct (days_before (q + 1 + 1) <=? n) eqn:E2; [apply Z.leb_le in E2|apply Z.leb_gt in E2; lia].
  replace (q + 1 + 1 + 1) with (q + 3) by lia. lia.
Qed.

Lemma days_before_mono a b : a ≤ b → days_before a ≤ days_before b.
Proof. intros H. unfold days_before. Z.to_euclidean_division_equations. lia. Qed.

Lemma year_of_unique n y : days_before y ≤ n < days_before (y + 1) → year_of n = y.
Proof.
  intros Hy. pose proof (year_of_spec n) as Hs. destruct (Z.lt_trichotomy (year_of n) y) as [Hlt|[Heq|Hgt]]; [|done|].
  - pose proof (days_before_mono (year_of n + 1) y ltac:(lia)). lia.
  - pose proof (days_before_mono (y + 1) (year_of n) ltac:(lia)). lia.
Qed.

Lemma year_of_mono a b : a ≤ b → year_of a ≤ year_of b.
Proof.
  intros H. pose proof (year_of_spec a). pose proof (year_of_spec b).
  destruct (Z.le_gt_cases (year_of a) (year_of b)) as [|Hgt]; [done|].
  pose proof (days_before_mono (year_of b + 1) (year_of a) ltac:(lia)). lia.
Qed.

(** The table of months, read at its numerals. *)
#[local] Ltac table :=
  repeat match goal with
  | |- context [months_before ?b ?m] =>
      let v := eval vm_compute in (months_before b m) in change (months_before b m) with v
  | H : context [months_before ?b ?m] |- _ =>
      let v := eval vm_compute in (months_before b m) in change (months_before b m) with v in H
  end.

Lemma month_of_spec (l : bool) k :
  0 ≤ k < (if l then 366 else 365) →
  1 ≤ month_of l k ≤ 12 ∧ months_before l (month_of l k) ≤ k < months_before l (month_of l k + 1).
Proof.
  intros Hk. unfold month_of.
  repeat match goal with
  | |- context [if k <? ?b then _ else _] => destruct (Z.ltb_spec k b); [destruct l; table; lia|]
  end.
  destruct l; table; lia.
Qed.

Lemma months_before_step (l : bool) m :
  1 ≤ m ≤ 12 → 0 ≤ months_before l m ∧ months_before l m + 28 ≤ months_before l (m + 1)
  ∧ months_before l (m + 1) ≤ if l then 366 else 365.
Proof.
  intros Hm. assert (m = 1 ∨ m = 2 ∨ m = 3 ∨ m = 4 ∨ m = 5 ∨ m = 6 ∨ m = 7 ∨ m = 8 ∨ m = 9 ∨ m = 10 ∨ m = 11
    ∨ m = 12) as H by lia.
  repeat (destruct H as [->|H]; [destruct l; table; lia|]). subst m. destruct l; table; lia.
Qed.

Lemma months_before_mono (l : bool) a b : 1 ≤ a → a < b → b ≤ 12 → months_before l (a + 1) ≤ months_before l b.
Proof.
  intros Ha Hab Hb. assert (∃ j, b = a + 1 + Z.of_nat j) as [j ->] by (exists (Z.to_nat (b - a - 1)); lia).
  clear Hab. induction j as [|j IH]; [by rewrite Z.add_0_r|].
  pose proof (months_before_step l (a + 1 + Z.of_nat j) ltac:(lia)) as (_ & C & _).
  replace (a + 1 + Z.of_nat (S j)) with (a + 1 + Z.of_nat j + 1) by lia. specialize (IH ltac:(lia)). lia.
Qed.

Lemma month_of_mono (l : bool) k k' : 0 ≤ k → k ≤ k' → k' < (if l then 366 else 365) → month_of l k ≤ month_of l k'.
Proof.
  intros H0 Hk H1. destruct (month_of_spec l k) as [Hr Hs]; [lia|]. destruct (month_of_spec l k') as [Hr' Hs']; [lia|].
  destruct (Z.le_gt_cases (month_of l k) (month_of l k')) as [|Hgt]; [done|].
  pose proof (months_before_mono l (month_of l k') (month_of l k)). lia.
Qed.

Lemma month_of_unique (l : bool) k m :
  1 ≤ m ≤ 12 → months_before l m ≤ k < months_before l (m + 1) → month_of l k = m.
Proof.
  intros Hm Hk. pose proof (months_before_step l m Hm) as (B1 & B2 & B3).
  destruct (month_of_spec l k) as [Hr Hs]; [lia|].
  destruct (Z.lt_trichotomy (month_of l k) m) as [Hlt|[Heq|Hgt]]; [|done|].
  - pose proof (months_before_mono l (month_of l k) m). lia.
  - pose proof (months_before_mono l m (month_of l k)). lia.
Qed.

Lemma civil_spec n :
  let '(y, m) := civil n in
  1 ≤ m ≤ 12 ∧ days_before y + months_before (leap y) m ≤ n + EPOCH
  ∧ n + EPOCH < days_before y + months_before (leap y) (m + 1).
Proof.
  unfold civil. pose proof (year_of_spec (n + EPOCH)) as Hy. rewrite year_length in Hy.
  destruct (month_of_spec (leap (year_of (n + EPOCH))) (n + EPOCH - days_before (year_of (n + EPOCH)))) as [H1 H2];
    [destruct (leap _); lia|]. lia.
Qed.

Lemma date_of_first y m d : date_of y m 1 = Some d → 1 ≤ m ≤ 12 ∧ d = days_before y + months_before (leap y) m - EPOCH.
Proof.
  unfold date_of. destruct (_ && _) eqn:E; [|done]. intros Heq. injection Heq as <-. bool_to_prop. lia.
Qed.

#[global] Instance gregorian_laws : TimeLaws.
Proof.
  constructor; cbn [day_number year_month_of from_calendar_date next_day date_leb gregorian]; try done.
  - intros n. pose proof (civil_spec n) as H. destruct (civil n). apply H.
  - intros y m d [Hm ->]%date_of_first. unfold civil. pose proof (months_before_step (leap y) m Hm) as (B1 & B2 & B3).
    replace (days_before y + months_before (leap y) m - EPOCH + EPOCH)
      with (days_before y + months_before (leap y) m) by lia.
    rewrite (year_of_unique _ y) by (rewrite year_length; lia). f_equal.
    apply month_of_unique; [done|lia].
  - intros n d. pose proof (civil_spec n) as H. destruct (civil n) as [y m]. cbn.
    intros [_ ->]%date_of_first. lia.
  - intros n d. pose proof (civil_spec n) as H. destruct (civil n) as [y m]. cbn. unfold next_month.
    destruct (m =? 12) eqn:E; intros [_ ->]%date_of_first.
    + apply Z.eqb_eq in E as ->. rewrite year_length. destruct (leap y), (leap (y + 1)); table; lia.
    + lia.
  - intros a b Hab. unfold civil. cbn [fst snd].
    pose proof (year_of_mono (a + EPOCH) (b + EPOCH) ltac:(lia)) as Hy.
    pose proof (civil_spec a) as Ha. pose proof (civil_spec b) as Hb. unfold civil in Ha, Hb.
    destruct (Z.eq_dec (year_of (a + EPOCH)) (year_of (b + EPOCH))) as [Heq|Hne]; [|lia]. rewrite Heq.
    enough (month_of (leap (year_of (b + EPOCH))) (a + EPOCH - days_before (year_of (b + EPOCH)))
      ≤ month_of (leap (year_of (b + EPOCH))) (b + EPOCH - days_before (year_of (b + EPOCH)))) by lia.
    pose proof (months_before_step (leap (year_of (b + EPOCH))) _ (proj1 Hb)) as (_ & _ & Hend).
    pose proof (months_before_step (leap (year_of (a + EPOCH))) _ (proj1 Ha)) as (Hbegin & _).
    rewrite Heq in *. apply month_of_mono; lia.
  - intros d d'. destruct (_ <? _); [|done]. intros Heq. by injection Heq.
Qed.

#[export] Instance rational_sub : DecimalSub Q := fun a b => Qred (Qminus a b).

#[export] Instance rational_sub_laws : DecimalSubLaws Q.
Proof.
  constructor; intros *; rewrite ?exact_deq; unfold dsub, rational_sub, dzero; simpl; rewrite ?Qle_bool_iff, ?Qred_correct.
  - intros H1 H2. unfold Qminus. by apply Qplus_le_compat, Qopp_le_compat.
  - ring.
  - unfold Qeq. cbn. lia.
  - unfold Qeq. cbn. lia.
Qed.

End Gregorian.

(** ** At concrete windows *)

Module SmallPeriods.
Import Period Months Periods Gregorian Small.

(** 2026-03-31T12:00:00Z. *)
Definition noon : Z := 1774958400 * NANOS.

Definition window (period : option string) (from to : option string) (tz : option Z) : Window :=
  {| w_period := period; w_from := from; w_to := to; w_days := None; w_tz := tz |}.

Example last_month_of_march :
  (let? r := resolve (window (Some " last-month ") None None (Some 60)) noon in Ok (r_label r, r_start r, r_end r))
  = Ok ("2026-02", Some ((1769904000 - 3600) * NANOS), Some ((1772323200 - 3600) * NANOS)).
Proof. vm_compute. reflexivity. Qed.

Example february_is_one_month : calendar_months (D := Q) (1769904000 * NANOS) (1772323200 * NANOS) 0 = Some 1%Q.
Proof. vm_compute. reflexivity. Qed.

Example a_leap_day_is_a_date : date_of 2024 2 29 = Some 19782.
Proof. vm_compute. reflexivity. Qed.

Lemma windows_run_forwards_witness :
  ∃ r offset, resolve (window None (Some "2026-02-28") (Some "2026-03-01") (Some (-330))) noon = Ok r
    ∧ forwards noon offset r ∧ -43200 ≤ offset ≤ 50400.
Proof.
  destruct (resolve (window None (Some "2026-02-28") (Some "2026-03-01") (Some (-330))) noon) as [r|e] eqn:E;
    [|vm_compute in E; discriminate].
  destruct (windows_run_forwards _ _ _ E) as (o & Ho). exists r, o. by split.
Defined.

Lemma neighbours_meet_witness :
  ∃ a b, named "last-month" noon 3600 = Ok a ∧ named "month" noon 3600 = Ok b ∧ r_end a = r_start b.
Proof.
  destruct (named "last-month" noon 3600) as [a|] eqn:Ea; [|vm_compute in Ea; discriminate].
  destruct (named "month" noon 3600) as [b|] eqn:Eb; [|vm_compute in Eb; discriminate].
  exists a, b. split; [done|]. split; [done|]. by apply (proj1 (neighbours_meet noon 3600) a b).
Defined.

Lemma whole_months_are_whole_witness :
  ∃ s e f, month_start 2026 2 0 = Some s ∧ month_start 2027 2 0 = Some e
    ∧ calendar_months (D := Q) s e 0 = Some f ∧ deq f (dint 12) = true.
Proof.
  destruct (month_start 2026 2 0) as [s|] eqn:Es; [|vm_compute in Es; discriminate].
  destruct (month_start 2027 2 0) as [e|] eqn:Ee; [|vm_compute in Ee; discriminate].
  destruct (calendar_months (D := Q) s e 0) as [f|] eqn:Ef;
    [|vm_compute in Es, Ee; injection Es as <-; injection Ee as <-; vm_compute in Ef; discriminate].
  exists s, e, f. split; [done|]. split; [done|]. split; [done|].
  apply (whole_months_are_whole 2026 2 2027 2 0 s e f Es Ee); [lia|done].
Defined.

Lemma fees_are_bounded_witness :
  ∃ f, calendar_months (D := Q) (1769904000 * NANOS) noon 0 = Some f ∧ dle dzero f = true.
Proof.
  destruct (calendar_months (D := Q) (1769904000 * NANOS) noon 0) as [f|] eqn:Ef; [|vm_compute in Ef; discriminate].
  exists f. split; [done|]. apply (proj1 (fees_are_bounded _ _ _ _ Ef)).
Defined.

End SmallPeriods.
