(* ===== verification/Plan.v ===== *)
(** * Planning a request

    [crates/oag-server/src/gateway/plan.rs] and the part of [handle] in
    [gateway/mod.rs] that reads the model's name, plans and respells it: from
    the caller's key, the route's row and the request to the [Plan] the rest of
    the gateway runs on.  What the database and the cache answer is a record of
    functions; logging is left out. *)

From Stdlib Require Import Ascii QArith.
From S2P Require Import Prelude Text Money Domain Breaker Efforts Catalog Cost.
From S2P Require Import Ladder Classify Budget Policy Canonical Names Stream Meter Failover.
From S2P Require Import Climb Alias Respond.
#[local] Open Scope string_scope.
#[local] Open Scope oag_scope.
#[local] Open Scope list_scope.
#[local] Open Scope Z_scope.

Section records.
Context {D : Type}.

(** [oag_store::RouteRow], the columns planning reads. *)
Record RouteRow : Type := {
  route_row_id : N;
  route_name : string;
  tiers : Json;
  default_mode : string;
  floor_tier : option string;
  rpm_limit : option Z;
  monthly_budget_usd : option D;
  route_spent_usd : D
}.

(** [oag_store::Spend]. *)
Record Spend : Type := { key_usd : D; principal_usd : D }.

(** [oag_store::AuthContext], with the fields planning reads beside the
    identities. *)
Record Caller : Type := {
  caller_ids : AuthContext;
  key_floor_tier : option string;
  quota_usd : option D;
  principal_budget_usd : option D;
  principal_hard_stop_multiple : D
}.

(** What the store answers, read once each: [route_by_id], [spend_for],
    [take_rate_token] (how long to wait when there is none), [route_channels]
    (provider, kind, models served) and [provider_standing]. *)
Record Reads : Type := {
  route_by_id : N → result (option RouteRow) Error;
  spend_for : N → N → result Spend Error;
  take_rate_token : N → Z → result (option Z) Error;
  route_channels : N → N → result (list (string * string * option (list string))) Error;
  provider_standing : N → string → N → result ProviderStanding Error
}.
End records.
Arguments RouteRow : clear implicits.
Arguments Spend : clear implicits.
Arguments Caller : clear implicits.
Arguments Reads : clear implicits.

Module Plan.

(** ** The ladder of a route *)

(** What [serde] reads a [Rung] from: its fields by name, or in order. *)
Definition model_ids (l : list Json) : option (list string) :=
  mapM (fun v => match v with JString s => Some s | _ => None end) l.

Definition parse_rung (v : Json) : option Rung :=
  match v with
  | JObject fs =>
      match Js.field "name" fs, Js.field "models" fs with
      | Some (JString name), Some (JArray models) =>
          (fun ms => {| rung_name := name; rung_models := ms |}) <$> model_ids models
      | _, _ => None
      end
  | JArray [JString name; JArray models] =>
      (fun ms => {| rung_name := name; rung_models := ms |}) <$> model_ids models
  | _ => None
  end.

(** [serde_json]'s words for a value that is no ladder are its own. *)
Definition parse_ladder (serde_words : Json → string) (v : Json) : result TierLadder Error :=
  match (match v with JArray rungs => mapM parse_rung rungs | _ => None end) with
  | None => Err (Config ("route.tiers is not a ladder: " +:+ serde_words v))
  | Some rungs =>
      ok_or (Ladder.new rungs) (Config "route.tiers is empty; a route must have a rung")
  end.

(** [virtual_tier]. *)
Definition virtual_tier (model : string) : option TierName :=
  match Str.strip_prefix model "oag/" with
  | Some s => if Str.eqb s "auto" then None else Some s
  | None => None
  end.

(** [extract_key]: the [Authorization] header, [x-api-key], [x-goog-api-key].
    A header value is opaque, and readable or not. *)
Definition extract_key {V} (get : string → option V) (to_str : V → option string) : option string :=
  let read v := match v with Some v => to_str v | None => None end in
  let bearer :=
    match read (get "authorization") with
    | Some v => Str.strip_prefix v "Bearer "
    | None => None
    end in
  match bearer with
  | Some token => Some token
  | None => read (match get "x-api-key" with Some v => Some v | None => get "x-goog-api-key" end)
  end.

Section plan.
Context {D : Type} {HD : Decimal D}.
Context (serde_words : Json → string) (json_len : Json → Z) (utc_second : Z → string)
  (registry : gmap string Endpoint).
Context (reads : Reads D).
Implicit Types (auth : Caller D) (c : Catalog D) (canonical : CanonicalRequest).

(** The floor a route and a key ask for, by name: the key's beats the
    route's. *)
Definition floor_named auth (route : RouteRow D) : option TierName :=
  match key_floor_tier auth with Some name => Some name | None => floor_tier route end.

(** [policy_for]. *)
Definition policy_for auth : result (RouteRow D * RoutingPolicy * Spend D) Error :=
  let ids := caller_ids auth in
  let? found := route_by_id reads (route_id ids) in
  let? route := ok_or found (Internal "route vanished between auth and routing") in
  let? spend := spend_for reads (api_key_id ids) (principal_id ids) in
  let? ladder := parse_ladder serde_words (tiers route) in
  let floor := floor_named auth route ≫= Ladder.tier ladder in
  Ok (route,
      Policy.with_floor (Policy.new_policy ladder (Classify.classify Classify.default_thresholds)) floor,
      spend).

(** [budgets_for]. *)
Definition budgets_for auth (route : RouteRow D) (spend : Spend D) : Budgets D := {|
  key := {| spent_usd := key_usd spend; limit_usd := quota_usd auth; hard_stop_multiple := done_ |};
  Budget.route := {| spent_usd := route_spent_usd route; limit_usd := monthly_budget_usd route;
                     hard_stop_multiple := done_ |};
  principal := {| spent_usd := principal_usd spend; limit_usd := principal_budget_usd auth;
                  hard_stop_multiple := principal_hard_stop_multiple auth |} |}.

(** [served_models_for]: a set, here without repetition in some order. *)
Definition served_models_for auth : list string :=
  match route_channels reads (route_id (caller_ids auth)) (principal_id (caller_ids auth)) with
  | Ok rows => remove_dups (List.concat (filter_map snd rows))
  | Err _ => []
  end.

(** [laddered] and [explain]. *)
Definition laddered (requested : string) (l : TierLadder) c : option Laddered :=
  let requested := Str.trim requested in
  let names id := any (fun rung => any (Str.eqb id) (rung_models rung)) (Ladder.rungs l) in
  let spec := resolve c requested in
  if negb (names requested)
     && negb (match spec with Some spec => names (model_id spec) | None => false end) then None
  else if bool_decide (is_Some spec) then Some Catalogued
  else
    match Str.split_once requested "/" with
    | None => None
    | Some (prefix, _) =>
        Some match Prov.from_str registry prefix with
             | Some p =>
                 if dialect_is_chat (Prov.native_dialect p)
                 then Uncatalogued (Prov.as_str p) None else Unserved prefix
             | None => Unserved prefix
             end
    end.

Definition explain auth (requested : string) (l : TierLadder) c : option Laddered :=
  match laddered requested l c with
  | Some (Uncatalogued provider blocked) =>
      Some (Uncatalogued provider
        match provider_standing reads (route_id (caller_ids auth)) provider
                (principal_id (caller_ids auth)) with
        | Ok standing => Respond.blocked_of standing
        | Err _ => blocked
        end)
  | found => found
  end.

(** The rung a request asks for: the header's if it names one, else the one the
    model's name pins if it names one. *)
Definition on_rung (p : RoutingPolicy) (name : TierName) : option TierName :=
  if bool_decide (is_Some (Ladder.tier (ladder p) name)) then Some name else None.

Definition explicit (p : RoutingPolicy) (header_tier : option TierName) (model : string)
    : option TierName :=
  match header_tier ≫= on_rung p with
  | Some name => Some name
  | None => virtual_tier model
  end ≫= on_rung p.

Definition with_tier (s : RequestSignal) (t : option TierName) : RequestSignal := {|
  sig_prompt_tokens := sig_prompt_tokens s; tool_count := tool_count s;
  turn_count := turn_count s; Classify.has_images := Classify.has_images s;
  thinking_requested := thinking_requested s; Classify.has_code := Classify.has_code s;
  explicit_tier := t |}.

Definition mode_of (route : RouteRow D) (model : string) (asked : option TierName) : RoutingMode :=
  if Str.starts_with model "oag/" || Str.eqb (default_mode route) "managed"
     || bool_decide (is_Some asked)
  then Managed else Domain.Passthrough.

(** The rate token: [Some] when the route has a limit and none is left. *)
Definition throttled (route : RouteRow D) : result (option Z) Error :=
  match rpm_limit route with
  | Some rpm =>
      if 0 <=? rpm then take_rate_token reads (route_row_id route) rpm else Ok None
  | None => Ok None
  end.

(** [plan_request]; [header_tier] is [x-oag-tier] when it is readable. *)
Definition plan_request auth canonical (header_tier : option TierName) c
    (channel : option CredentialKind) : result (Plan D) Error :=
  let? (route, policy, spend) := policy_for auth in
  let? wait := throttled route in
  match wait with
  | Some retry_after => Err (RateLimited retry_after)
  | None =>
      let asked := explicit policy header_tier (model canonical) in
      let signal := with_tier (Canonical.signal json_len canonical) asked in
      let mode := mode_of route (model canonical) asked in
      let budget := budgets_for auth route spend in
      let served := served_models_for auth in
      match Policy.decide policy mode (Some (model canonical)) signal budget c
              (max_tokens canonical) served with
      | Ok decision => Ok {|
          plan_policy := policy; plan_decision := decision; plan_signal := signal;
          plan_catalog := c; plan_pressure := Budget.budgets_pressure budget;
          plan_channel := channel; plan_served := served |}
      | Err (NoViableModel _) =>
          Err (NoViableModel (Respond.no_viable_message utc_second registry (route_name route)
            (model canonical) (ladder policy) (explain auth (model canonical) (ladder policy) c)))
      | Err e => Err e
      end
  end.

(** [handle], from the parsed request to the one [run_with_escalation] is
    given: the name read once, the plan made, and the upstream's name put in. *)
Definition route_request auth canonical (header_tier : option TierName) c
    : result (Plan D * CanonicalRequest) Error :=
  let? n := Alias.normalise (model canonical) c in
  let canonical :=
    match norm_model n with Some name => Climb.with_model canonical name | None => canonical end in
  let? plan := plan_request auth canonical header_tier c (norm_channel n) in
  Ok (plan, Climb.with_model canonical (upstream_name (dec_model (plan_decision plan)))).

(** ** What planning comes to *)

Lemma policy_for_Ok auth route policy spend :
  policy_for auth = Ok (route, policy, spend) →
  classifier policy = Classify.classify Classify.default_thresholds ∧
  pol_floor policy = floor_named auth route ≫= Ladder.tier (ladder policy) ∧
  Policy.wf_policy policy.
Proof.
  unfold policy_for. intros (found & _ & H)%result_bind_Ok.
  apply result_bind_Ok in H as (rt & _ & H). apply result_bind_Ok in H as (sp & _ & H).
  apply result_bind_Ok in H as (l & _ & H). revert H.
  intros [= <- <- <-]. split_and!; [done..|]. intros f Hf. cbn in Hf |- *.
  destruct (floor_named auth _); cbn in Hf; [|done]. by apply Ladder.tier_on in Hf as [? _].
Qed.

(** What a plan is made of. *)
Record planned auth canonical (header_tier : option TierName) c (channel : option CredentialKind)
    (route : RouteRow D) (policy : RoutingPolicy) (spend : Spend D) (plan : Plan D) : Prop := {
  planned_policy : policy_for auth = Ok (route, policy, spend);
  planned_token : throttled route = Ok None;
  planned_decision :
    Policy.decide policy
      (mode_of route (model canonical) (explicit policy header_tier (model canonical)))
      (Some (model canonical)) (plan_signal plan) (budgets_for auth route spend) c
      (max_tokens canonical) (plan_served plan) = Ok (plan_decision plan);
  planned_fields : plan = {|
    plan_policy := policy; plan_decision := plan_decision plan;
    plan_signal := with_tier (Canonical.signal json_len canonical)
      (explicit policy header_tier (model canonical));
    plan_catalog := c; plan_pressure := Budget.budgets_pressure (budgets_for auth route spend);
    plan_channel := channel; plan_served := served_models_for auth |}
}.

Lemma plan_request_Ok auth canonical header_tier c channel plan :
  plan_request auth canonical header_tier c channel = Ok plan ↔
  ∃ route policy spend, planned auth canonical header_tier c channel route policy spend plan.
Proof.
  unfold plan_request. split.
  - intros H. apply result_bind_Ok in H as ([[route policy] spend] & Hp & H).
    apply result_bind_Ok in H as ([w|] & Ht & H); [done|].
    destruct (Policy.decide _ _ _ _ _ _ _ _) as [d|[]] eqn:Hd; try discriminate.
    injection H as <-. by exists route, policy, spend.
  - intros (route & policy & spend & [-> Ht Hd Hf]). cbn [result_bind]. rewrite Ht.
    cbn [result_bind]. rewrite Hf in Hd. cbn in Hd. rewrite Hd. by rewrite Hf.
Qed.

(** C34. A floor holds end to end.  Whatever a request asks for, by header, by
    name or by nothing, the plan made for it serves at or above the floor of
    its key -- of its route when the key has none, and never a route's in
    place of a key's -- on a rung of the route's ladder, with a model that rung
    lists; off the ladder it serves only when that floor is the cheapest rung. *)
Theorem plan_respects_floor auth canonical header_tier c channel plan route policy spend f :
  wf c → policy_for auth = Ok (route, policy, spend) →
  (match key_floor_tier auth with
   | Some name => Some name
   | None => floor_tier route
   end) ≫= Ladder.tier (ladder policy) = Some f →
  plan_request auth canonical header_tier c channel = Ok plan →
  match dec_tier (plan_decision plan) with
  | Some t => tier_rank f ≤ tier_rank t ∧ Policy.sits_on policy c (plan_decision plan) t
  | None => tier_rank f ≤ 0 ∧ dec_reason (plan_decision plan) = ByPassthrough
  end.
Proof.
  intros Hc Hp Hf (route' & policy' & spend' & [Hp' _ Hd _])%plan_request_Ok.
  rewrite Hp in Hp'. injection Hp' as <- <- <-.
  destruct (policy_for_Ok _ _ _ _ Hp) as (_ & Hfloor & Hwf).
  pose proof (Policy.decide_sound _ _ _ _ _ _ _ _ _ Hwf Hc Hd) as [H _].
  unfold Policy.floor_rank in H. unfold floor_named in Hfloor. by rewrite Hfloor, Hf in H.
Qed.

Lemma on_rung_Some policy name n :
  on_rung policy name = Some n ↔ n = name ∧ is_Some (Ladder.tier (ladder policy) name).
Proof. unfold on_rung. case_bool_decide; naive_solver. Qed.

Lemma explicit_Some policy header_tier m name :
  explicit policy header_tier m = Some name ↔
  is_Some (Ladder.tier (ladder policy) name) ∧
  (header_tier = Some name ∨ virtual_tier m = Some name ∧
    ∀ h, header_tier = Some h → Ladder.tier (ladder policy) h = None).
Proof.
  unfold explicit. destruct header_tier as [h|]; cbn [mbind option_bind].
  - unfold on_rung at 2. case_bool_decide as Hh; cbn.
    + rewrite on_rung_Some. split; [naive_solver|]. intros [Hn [[= <-]|[_ Hno]]]; [done|].
      rewrite (Hno h eq_refl) in Hh. by destruct Hh.
    + destruct (virtual_tier m) as [v|]; cbn.
      * rewrite on_rung_Some. split.
        { intros [-> Hv]. split; [done|]. right. split; [done|]. intros h' [= <-].
          by apply eq_None_not_Some. }
        intros [Hn [[= <-]|[[= <-] _]]]; done.
      * split; [done|]. intros [Hn [[= <-]|[? _]]]; done.
  - destruct (virtual_tier m) as [v|]; cbn; [rewrite on_rung_Some|]; naive_solver.
Qed.

(** A rung a caller asks for is where their request starts.  The header
    names it, or the model's name does -- [oag/<rung>] -- and then a header
    that names no rung takes nothing away; if the caller is told the rung is
    theirs to ask for, the plan is made on the lowest rung from it up with a
    model that can serve the request, with the first such model, and says it
    was classified: no floor, no budget and no passthrough default moved it. *)
Theorem asked_rung_is_served auth canonical header_tier c channel plan route policy spend name :
  policy_for auth = Ok (route, policy, spend) →
  NoDup (map rung_name (Ladder.rungs (ladder policy))) →
  header_tier = Some name ∨
    model canonical = "oag/" +:+ name ∧ name ≠ "auto" ∧
    (∀ h, header_tier = Some h → Ladder.tier (ladder policy) h = None) →
  In name (Policy.virtual_names policy (Budget.budgets_pressure (budgets_for auth route spend))) →
  plan_request auth canonical header_tier c channel = Ok plan →
  ∃ t u, tier_name t = name ∧ dec_tier (plan_decision plan) = Some u ∧
    dec_reason (plan_decision plan) = Classified ∧
    Policy.lowest (ladder policy)
      (fun t => Ladder.pick (ladder policy) t c
        (Classify.requirements (Canonical.signal json_len canonical) (max_tokens canonical)))
      (Ladder.index t) u (dec_model (plan_decision plan)).
Proof.
  intros Hp Hnd Hasked Hin (route' & policy' & spend' & [Hp' _ Hd Hf])%plan_request_Ok.
  rewrite Hp in Hp'. injection Hp' as <- <- <-.
  destruct (policy_for_Ok _ _ _ _ Hp) as (Hcl & _ & Hwf).
  pose proof Hin as (Hex & t & Ht & Hname & _)%Policy.virtual_names_In.
  assert (explicit policy header_tier (model canonical) = Some name) as Hexp.
  { apply explicit_Some. rewrite <- Hname, (Policy.tier_of_name_unique policy t Hnd Ht).
    split; [by eexists|]. rewrite Hname. destruct Hasked as [?|(Hm & Ha & Hh)]; [by left|right].
    split; [|done]. unfold virtual_tier. rewrite (proj2 (Str.strip_prefix_Some _ _ _) Hm).
    by rewrite (proj2 (Str.str_eqb_neq _ _) Ha). }
  rewrite Hexp in Hd, Hf. rewrite Hf in Hd. cbn [plan_signal plan_served plan_decision] in Hd.
  set (signal := with_tier _ _) in Hd.
  assert (classifier policy signal = name) as Hc by by rewrite Hcl.
  destruct (Policy.asked_rung_starts policy signal _ Hwf Hnd Hex) as [Hstart Hreason]; [by rewrite Hc|].
  revert Hd. unfold Policy.decide. rewrite bool_decide_eq_false_2 by done.
  assert (mode_of route (model canonical) (Some name) = Managed) as ->.
  { unfold mode_of. rewrite bool_decide_eq_true_2 by by eexists. by rewrite !orb_true_r. }
  pose proof (Policy.managed_start_on policy signal (Budget.budgets_pressure (budgets_for auth route spend)) Hwf)
    as Hon.
  destruct (Policy.managed_start _ _ _) as [t' reason]. cbn [fst snd] in *. subst reason.
  intros (u & m & Hd & Hlow)%Policy.resolve_from_Ok; [|done].
  exists t', u. rewrite Hd. cbn. split_and!; [congruence|done|done|exact Hlow].
Qed.

(** A refusal says what it is.  When no plan is made, a read failed, the
    route has no ladder, the route's rate token was refused -- before anything
    else was decided, with the wait the bucket gave -- or, with a token, the
    spend is past a hard stop, with the cap that binds, or no model of the
    ladder can serve the request; nothing else. *)
Theorem plan_refusals auth canonical header_tier c channel e :
  plan_request auth canonical header_tier c channel = Err e →
  policy_for auth = Err e ∨
  ∃ route policy spend, policy_for auth = Ok (route, policy, spend) ∧
    let pressure := Budget.budgets_pressure (budgets_for auth route spend) in
    match throttled route with
    | Err e' => e = e'
    | Ok (Some wait) => e = RateLimited wait
    | Ok None =>
        (pressure = Exhausted ∧ e = BudgetExhausted (Budget.binding (budgets_for auth route spend))) ∨
        (pressure ≠ Exhausted ∧ ∃ words, e = NoViableModel words)
    end.
Proof.
  unfold plan_request. destruct (policy_for auth) as [[[route policy] spend]|e']; cbn [result_bind];
    [|by intros [= ->]; left].
  intros H. right. exists route, policy, spend. split; [done|]. cbv zeta.
  destruct (throttled route) as [[wait|]|e']; cbn [result_bind] in H; [congruence| |congruence].
  match type of H with context [Policy.decide ?p ?m ?r ?s ?b ?c ?x ?v] =>
    pose proof (Policy.decide_refuses p m r s b c x v) as Hd end.
  destruct (Policy.decide _ _ _ _ _ _ _ _) as [d|e']; [done|].
  case_bool_decide as Hp; subst e'; [left|right]; [by split; [|congruence]|].
  split; [done|]. unfold Policy.NO_VIABLE in H. injection H as <-. by eexists.
Qed.

End plan.

(** ** A caller and a route for the witnesses *)

Definition request_example (name : string) : CanonicalRequest := {|
  model := name; system := []; messages := [ {| role := RoleUser; content := [BText "hello" None] |} ];
  req_tools := []; max_tokens := 100; stream := false; thinking_budget := None;
  thinking_effort := None; client_session := None; tool_choice := None; response_format := None;
  stop := []; previous_response_id := None; passthrough := None |}.

Definition rung_json (name : string) (models : list string) : Json :=
  JObject [("name", JString name); ("models", JArray (map JString models))].

Definition route_example : RouteRow Q := {|
  route_row_id := 7%N; route_name := "default";
  tiers := JArray [rung_json "cheap" ["anthropic/haiku"];
                   rung_json "frontier" ["bedrock/opus"; "anthropic/opus"]];
  default_mode := "passthrough"; floor_tier := Some "cheap"; rpm_limit := Some 60;
  monthly_budget_usd := None; route_spent_usd := dzero |}.

Definition caller_example (floor : option string) (quota : option Q) : Caller Q := {|
  caller_ids := {| api_key_id := 1%N; principal_id := 2%N; Meter.route_id := 7%N |};
  key_floor_tier := floor; quota_usd := quota; principal_budget_usd := None;
  principal_hard_stop_multiple := done_ |}.

Definition reads_example (wait : option Z) : Reads Q := {|
  route_by_id := fun _ => Ok (Some route_example);
  spend_for := fun _ _ => Ok {| key_usd := dint 50; principal_usd := dzero |};
  take_rate_token := fun _ _ => Ok wait;
  route_channels := fun _ _ => Ok [("anthropic", "api_key", None)];
  provider_standing := fun _ _ _ =>
    Ok {| total := 0; usable := 0; ownerless_seats := 0; live := 0; back_at := None |} |}.

Definition plan_example (floor : option string) (quota : option Q) (wait : option Z)
    (name : string) (header_tier : option string) : result (Plan Q) Error :=
  plan_request (fun _ => "") (fun _ => 2) (fun _ => "") ∅ (reads_example wait)
    (caller_example floor quota) (request_example name) header_tier
    (from_entries entries_example) None.

(** A key floored on the upper rung, asking for the model of the lower. *)
Lemma plan_respects_floor_witness :
  ∃ plan t, plan_example (Some "frontier") None None "anthropic/haiku" None = Ok plan ∧
    dec_tier (plan_decision plan) = Some t ∧ 1 ≤ tier_rank t.
Proof.
  destruct (plan_example (Some "frontier") None None "anthropic/haiku" None) as [plan|e] eqn:E;
    [|vm_compute in E; discriminate E].
  destruct (policy_for (fun _ => "") (reads_example None) (caller_example (Some "frontier") None))
    as [[[route policy] spend]|e] eqn:Ep; [|vm_compute in Ep; discriminate Ep].
  pose proof (plan_respects_floor (fun _ => "") (fun _ => 2) (fun _ => "") ∅ (reads_example None)
    (caller_example (Some "frontier") None) (request_example "anthropic/haiku") None
    (from_entries entries_example) None plan route policy spend Policy.frontier_tier_example
    (from_entries_wf _) Ep) as H.
  exists plan. destruct (dec_tier (plan_decision plan)) as [t|].
  - exists t. split_and!; [done|done|].
    apply H; [vm_compute in Ep; injection Ep as <- <- <-; reflexivity|exact E].
  - exfalso. destruct H as [H _]; [|exact E|vm_compute in H; by apply H].
    vm_compute in Ep. injection Ep as <- <- <-. reflexivity.
Defined.

(** A header that names no rung, beside a name that does, on a stock route. *)
Lemma asked_rung_is_served_witness :
  ∃ plan t, plan_example None None None "oag/frontier" (Some "frontire") = Ok plan ∧
    dec_tier (plan_decision plan) = Some t ∧ dec_reason (plan_decision plan) = Classified.
Proof.
  destruct (plan_example None None None "oag/frontier" (Some "frontire")) as [plan|e] eqn:E;
    [|vm_compute in E; discriminate E].
  destruct (policy_for (fun _ => "") (reads_example None) (caller_example None None))
    as [[[route policy] spend]|e] eqn:Ep; [|vm_compute in Ep; discriminate Ep].
  destruct (asked_rung_is_served (fun _ => "") (fun _ => 2) (fun _ => "") ∅ (reads_example None)
    (caller_example None None) (request_example "oag/frontier") (Some "frontire")
    (from_entries entries_example) None plan route policy spend "frontier" Ep)
    as (t & u & _ & Hu & Hr & _); [..|exact E|by exists plan, u].
  all: vm_compute in Ep; injection Ep as <- <- <-.
  - change (NoDup ["cheap"; "frontier"]). by apply (bool_decide_unpack (NoDup ["cheap"; "frontier"])).
  - right. split_and!; [done|done|]. intros h [= <-]. reflexivity.
  - vm_compute. auto.
Defined.

(** No token left, and a quota spent. *)
Lemma plan_refusals_witness :
  plan_example None None (Some 1500) "oag/auto" None = Err (RateLimited 1500) ∧
  plan_example None (Some (dint 50)) None "oag/auto" None = Err (BudgetExhausted ScopeApiKey).
Proof.
  split.
  - destruct (plan_example None None (Some 1500) "oag/auto" None) as [|e] eqn:E;
      [vm_compute in E; discriminate E|].
    destruct (plan_refusals _ _ _ _ _ _ _ _ _ _ e E) as [H|(route & policy & spend & H & Hm)];
      vm_compute in H; [discriminate H|].
    injection H as <- <- <-. vm_compute in Hm. by rewrite Hm.
  - destruct (plan_example None (Some (dint 50)) None "oag/auto" None) as [|e] eqn:E;
      [vm_compute in E; discriminate E|].
    destruct (plan_refusals _ _ _ _ _ _ _ _ _ _ e E) as [H|(route & policy & spend & H & Hm)];
      vm_compute in H; [discriminate H|].
    injection H as <- <- <-. vm_compute in Hm.
    destruct Hm as [[_ Hm]|[Hm _]]; [by rewrite Hm|by destruct Hm].
Defined.

End Plan.
