(* ===== verification/Listing.v ===== *)
(** * What a caller is told it may ask for

    [crates/oag-server/src/gateway/models.rs]: [GET /v1/models] and its Gemini
    twin, from the route's policy, its credentials and the catalogue to the
    JSON of each entry.  What each provider's presence says is a parameter
    here.  A [BTreeMap] over providers is an association list in the order the
    rows came; nothing reads that order. *)

From Stdlib Require Import Ascii QArith.
From S2P Require Import Prelude Text Money Domain Breaker Efforts Catalog Cost.
From S2P Require Import Ladder Classify Budget Policy Canonical Names Stream Meter Failover.
From S2P Require Import Wire Climb Alias Respond Plan.
#[local] Open Scope string_scope.
#[local] Open Scope oag_scope.
#[local] Open Scope list_scope.
#[local] Open Scope Z_scope.

(** The models a kind of credential serves; [None] is never asked. *)
Definition Served : Type := option (gset string).
Definition Held : Type := list (CredentialKind * Served).
Definition Channels : Type := list (Provider * Held).

Module Listing.
Import Js Wire.

(** ** Channels *)

Definition held_kind (k : CredentialKind) (h : Held) : option Served :=
  snd <$> find (fun e : CredentialKind * Served => Credential.eqb e.1 k) h.

Definition channels_get (p : Provider) (ch : Channels) : option Held :=
  snd <$> find (fun e : Provider * Held => Prov.eqb e.1 p) ch.

(** Two credentials of one kind: both known unite, either unknown makes the
    pair unknown. *)
Definition merge_served (slot served : Served) : Served :=
  match slot, served with
  | Some acc, Some more => Some (acc ∪ more)
  | _, _ => None
  end.

Fixpoint hold (k : CredentialKind) (served : Served) (h : Held) : Held :=
  match h with
  | [] => [(k, served)]
  | (k', slot) :: h =>
      if Credential.eqb k' k then (k', merge_served slot served) :: h
      else (k', slot) :: hold k served h
  end.

Fixpoint channel_in (p : Provider) (k : CredentialKind) (served : Served) (ch : Channels) : Channels :=
  match ch with
  | [] => [(p, hold k served [])]
  | (p', h) :: ch =>
      if Prov.eqb p' p then (p', hold k served h) :: ch else (p', h) :: channel_in p k served ch
  end.

(** A row nobody can parse narrows the answer. *)
Definition read_row (registry : gmap string Endpoint) (row : string * string * option (list string))
    : option (Provider * CredentialKind * Served) :=
  let '(name, kind, served) := row in
  match Prov.from_str registry name, Credential.from_column kind with
  | Some p, Some k => Some (p, k, list_to_set <$> served)
  | _, _ => None
  end.

(** [channels_for], of the rows read. *)
Definition channels_of (registry : gmap string Endpoint)
    (rows : list (string * string * option (list string))) : Channels :=
  fold_left (fun out row =>
    match read_row registry row with
    | Some (p, k, served) => channel_in p k served out
    | None => out
    end) rows [].

(** [serves], over the values in the order they are walked. *)
Fixpoint serves_from (unknown : bool) (h : Held) (upstream : string) : option bool :=
  match h with
  | [] => if unknown then None else Some false
  | (_, Some s) :: h =>
      if bool_decide (upstream ∈ s) then Some true else serves_from unknown h upstream
  | (_, None) :: h => serves_from true h upstream
  end.

Definition serves := serves_from false.

Definition kind_serves (h : Held) (k : CredentialKind) (upstream : string) : bool :=
  match held_kind k h with
  | Some (Some served) => bool_decide (upstream ∈ served)
  | Some None => true
  | None => false
  end.

(** ** Entries *)

Definition opt_string (s : option string) : Json := match s with Some s => JString s | None => JNull end.

Definition wants_aliases (raw : option string) (configured : bool) : bool :=
  match raw with
  | Some s =>
      if any (Str.eqb s) ["1"; "true"; "yes"; "on"] then true
      else if any (Str.eqb s) ["0"; "false"; "no"; "off"] then false
      else configured
  | None => configured
  end.

Definition effort_option (level : Level) (default : bool) : Json :=
  JObject (("value", JString (value level)) :: ("label", JString (label level))
    :: (if default then [("default", JBool true)] else [])).

Section listing.
Context {D : Type} {HD : Decimal D}.
Implicit Types (c : Catalog D) (e : Entitlement D) (spec : ModelSpec D).

(** [describe]: the fields it adds to an entry. *)
Definition describe (fs : Fields) spec : Fields :=
  let known := if 0 <? context_window spec then [("context_length", num (context_window spec))] else [] in
  let known := known ++
    (if 0 <? model_max_output_tokens spec
     then [("max_output_tokens", num (model_max_output_tokens spec))] else []) in
  let known := known ++ [
    ("supports_tool_use", JBool (cap_tools (capabilities spec)));
    ("supports_reasoning", JBool (cap_reasoning (capabilities spec)));
    ("supports_vision", JBool (cap_vision (capabilities spec)))] in
  match reasoning_efforts spec with
  | None => put "capabilities" (JObject known) fs
  | Some efforts =>
      let def := default_level efforts in
      let fs := put "supports_reasoning_effort" (JBool true) fs in
      let fs := put "reasoning_effort" (JString (value def)) fs in
      let fs := put "reasoning_efforts"
        (JArray (map (fun l => effort_option l (bool_decide (l = def))) (levels efforts))) fs in
      put "capabilities" (JObject (known ++
        [("reasoning_effort", JArray (map JString (Efforts.values efforts)))])) fs
  end.

(** [entry]; [oag] is given as its fields. *)
Definition entry (id owned_by display_name : string) (m : option (ModelSpec D)) (oag : Fields) : Json :=
  let fs := [("id", JString id); ("object", JString "model"); ("created", num 0);
             ("owned_by", JString owned_by)] in
  let fs := match m with Some spec => describe fs spec | None => fs end in
  let fs := put "type" (JString "model") fs in
  let fs := put "display_name" (JString display_name) fs in
  let fs := put "created_at" (JString "1970-01-01T00:00:00Z") fs in
  JObject (put "oag" (JObject (put "alias_of" JNull oag)) fs).

(** [entry["oag"]["alias_of"] = v]. *)
Definition set_alias_of (v : Json) (entry : Json) : Json :=
  match entry with
  | JObject fs =>
      match field "oag" fs with
      | Some (JObject oag) => JObject (put "oag" (JObject (put "alias_of" v oag)) fs)
      | _ => entry
      end
  | _ => entry
  end.

Definition concrete_entry e (channel : option CredentialKind) : Json :=
  let spec := ent_spec e in
  let id := default (model_id spec) (match channel with
    | Some k => Alias.qualified_id (model_id spec) k | None => None end) in
  let display := match channel with
    | Some kind => model_label spec +:+ " · " +:+ Credential.channel_label kind
    | None => model_label spec end in
  let entry := entry id (Prov.as_str (model_provider spec)) display (Some spec) [
    ("tier", opt_string (ent_tier e));
    ("provider", JString (Prov.as_str (model_provider spec)));
    ("virtual", JBool false);
    ("honoured", JBool (honoured e));
    ("context_window", num (context_window spec));
    ("max_output_tokens", num (model_max_output_tokens spec));
    ("capabilities", JObject [
      ("vision", JBool (cap_vision (capabilities spec)));
      ("tools", JBool (cap_tools (capabilities spec)));
      ("reasoning", JBool (cap_reasoning (capabilities spec)));
      ("prompt_cache", JBool (prompt_cache (capabilities spec)))]);
    ("channel", opt_string (match channel with Some k => Credential.qualifier k | None => None end))] in
  match channel with
  | Some _ => set_alias_of (JString (model_id spec)) entry
  | None => entry
  end.

Definition concrete_entries e (ch : Channels) : list Json :=
  concrete_entry e None ::
  match channels_get (model_provider (ent_spec e)) ch with
  | None => []
  | Some held =>
      map (fun k => concrete_entry e (Some k))
        (keep (fun k => kind_serves held k (upstream_name (ent_spec e))) Credential.QUALIFIED)
  end.

(** [None] is [oag/auto]. *)
Definition virtual_entry (rung : option TierName) (pinned : option (ModelSpec D)) : Json :=
  let name := default "auto" rung in
  entry ("oag/" +:+ name) "oag" (derive_label "OAG" name) pinned [
    ("tier", opt_string rung); ("provider", JString "oag"); ("virtual", JBool true);
    ("honoured", JBool true); ("context_window", JNull); ("max_output_tokens", JNull);
    ("capabilities", JNull); ("channel", JNull)].

(** ** The list *)

Definition on_offer e (ch : Channels) : bool :=
  match channels_get (model_provider (ent_spec e)) ch with
  | None => false
  | Some held =>
      match serves held (upstream_name (ent_spec e)) with
      | Some answer => answer
      | None =>
          bool_decide (is_Some (ent_tier e))
          || any (fun k => negb (Credential.flat_rate k)) (map fst held)
      end
  end.

Definition offered (concrete : list (Entitlement D)) (ch : Channels) : list (Entitlement D) :=
  keep (fun e => on_offer e ch) concrete.

Definition advertise (pressure : BudgetPressure) (concrete : nat) : bool :=
  negb (bool_decide (pressure = Exhausted)) && Nat.ltb 0 concrete.

Definition virtual_rungs (p : RoutingPolicy) (pressure : BudgetPressure) (auto : bool)
    : list (option TierName) :=
  (if auto then [None] else []) ++ map Some (Policy.virtual_names p pressure).

Definition id_of (entry : Json) : option string :=
  match entry with
  | JObject fs => match field "id" fs with Some (JString id) => Some id | _ => None end
  | _ => None
  end.

Definition oag_field (k : string) (entry : Json) : option Json :=
  match entry with
  | JObject fs => match field "oag" fs with Some (JObject oag) => field k oag | _ => None end
  | _ => None
  end.

Definition with_id (id : string) (entry : Json) : Json :=
  match entry with JObject fs => JObject (put "id" (JString id) fs) | _ => entry end.

Definition alias_twin (entry : Json) : option Json :=
  match id_of entry with
  | None => None
  | Some id =>
      match Alias.discovery_alias id with
      | None => None
      | Some aliased =>
          let named := match oag_field "alias_of" entry with
                    | Some (JString canonical) => canonical | _ => id end in
          Some (set_alias_of (JString named) (with_id aliased entry))
      end
  end.

(** [push], as what is appended. *)
Definition pushed (aliases : bool) (entry : Json) : list Json :=
  entry :: match (if aliases then alias_twin entry else None) with
           | Some twin => [twin] | None => [] end.

(** [list], its [data]. *)
Definition data (p : RoutingPolicy) (ch : Channels) (mode : RoutingMode) (pressure : BudgetPressure)
    c (aliases auto : bool) : list Json :=
  let concrete := offered (Policy.entitled p mode c (map fst ch) pressure) ch in
  if advertise pressure (length concrete) then
    List.concat (map (fun rung =>
      let pinned := match Policy.pinned_model p rung pressure with
                    | Some id => get c id | None => None end in
      pushed aliases (virtual_entry rung pinned)) (virtual_rungs p pressure auto))
    ++ List.concat (map (fun e => List.concat (map (pushed aliases) (concrete_entries e ch))) concrete)
  else [].

(** [envelope], the parts that do not restate the configuration. *)
Definition envelope (data : list Json) (mode : RoutingMode) (aliases : bool)
    (pressure : BudgetPressure) (providers : list Json) : Json :=
  let id_at (v : option Json) := match v with Some v => opt_string (id_of v) | None => JNull end in
  JObject [("object", JString "list"); ("has_more", JBool false);
    ("first_id", id_at (head data)); ("last_id", id_at (last data));
    ("oag", JObject [
      ("mode", JString (match mode with Managed => "managed" | Domain.Passthrough => "passthrough" end));
      ("claude_code_aliases", JBool aliases);
      ("budget", JObject [("pressure", JString (Budget.as_str pressure))]);
      ("providers", JArray providers)]);
    ("data", JArray data)].

(** [list_gemini]. *)
Definition gemini (id : string) (window max_output : Z) : Json :=
  JObject [("name", JString ("models/" +:+ id)); ("displayName", JString id);
    ("inputTokenLimit", num window); ("outputTokenLimit", num max_output);
    ("supportedGenerationMethods",
      JArray [JString "generateContent"; JString "streamGenerateContent"])].

Definition widest (key : ModelSpec D → Z) (concrete : list (Entitlement D)) : Z :=
  match concrete with
  | [] => 0
  | e :: es => fold_left (fun m e => Z.max m (key (ent_spec e))) es (key (ent_spec e))
  end.

Definition gemini_models (p : RoutingPolicy) (ch : Channels) (mode : RoutingMode)
    (pressure : BudgetPressure) c (auto : bool) : list Json :=
  let concrete := offered (Policy.entitled p mode c (map fst ch) pressure) ch in
  if advertise pressure (length concrete) then
    map (fun rung => gemini (match rung with Some r => "oag/" +:+ r | None => "oag/auto" end)
      (widest context_window concrete) (widest model_max_output_tokens concrete))
      (virtual_rungs p pressure auto)
    ++ map (fun e => gemini (model_id (ent_spec e)) (context_window (ent_spec e))
         (model_max_output_tokens (ent_spec e))) concrete
  else [].

(** [resolve]: who is asking, and what the route lets them reach. *)
Definition resolve_caller (serde_words : Json → string) (registry : gmap string Endpoint)
    (reads : Reads D) (auth : Caller D)
    : result (RoutingPolicy * Channels * RoutingMode * BudgetPressure) Error :=
  let? (route, policy, spend) := Plan.policy_for serde_words reads auth in
  let mode := if Str.eqb (default_mode route) "managed" then Managed else Domain.Passthrough in
  let pressure := Budget.budgets_pressure (Plan.budgets_for auth route spend) in
  if bool_decide (pressure = Exhausted) then Ok (policy, [], mode, pressure)
  else
    let? rows := route_channels reads (Meter.route_id (caller_ids auth))
      (principal_id (caller_ids auth)) in
    Ok (policy, channels_of registry rows, mode, pressure).

(** ** What the rows of a route's credentials come to *)

(** The slot of a kind of credential at a provider. *)
Definition slot (p : Provider) (k : CredentialKind) (ch : Channels) : option Served :=
  match channels_get p ch with Some h => held_kind k h | None => None end.

Lemma held_kind_hold k k' served h :
  held_kind k' (hold k served h) =
  if Credential.eqb k k' then
    Some match held_kind k h with Some s => merge_served s served | None => served end
  else held_kind k' h.
Proof.
  unfold held_kind, Credential.eqb. induction h as [|[k0 s0] h IH]; cbn [hold].
  { cbn. by repeat case_bool_decide. }
  destruct (Credential.eqb k0 k) eqn:E; unfold Credential.eqb in E; simpl find;
    [apply bool_decide_eq_true in E as ->|].
  - rewrite (bool_decide_eq_true_2 (k = k)) by done. by case_bool_decide.
  - rewrite E. apply bool_decide_eq_false in E. revert IH. simpl find. intros IH.
    destruct (bool_decide (k0 = k')) eqn:E'; [|exact IH].
    apply bool_decide_eq_true in E' as ->. by rewrite bool_decide_eq_false_2 by congruence.
Qed.

Lemma slot_same p p' k ch : Prov.eqb p p' = true → slot p k ch = slot p' k ch.
Proof.
  intros H. unfold slot, channels_get.
  assert (find (fun e : Provider * Held => Prov.eqb e.1 p) ch =
    find (fun e : Provider * Held => Prov.eqb e.1 p') ch) as ->; [|done].
  induction ch as [|[p0 h] ch IH]; [done|]. simpl find.
  rewrite (Prov.provider_eqb_sym p0 p), (Prov.provider_eqb_respects _ _ p0 H), Prov.provider_eqb_sym.
  by destruct (Prov.eqb p0 p').
Qed.

Lemma slot_channel_in p k served ch p' k' :
  slot p' k' (channel_in p k served ch) =
  if Prov.eqb p p' && Credential.eqb k k' then
    Some match slot p k ch with Some s => merge_served s served | None => served end
  else slot p' k' ch.
Proof.
  unfold slot, channels_get. induction ch as [|[p0 h] ch IH]; cbn [channel_in].
  { simpl find. destruct (Prov.eqb p p'); [|done]. cbn [andb fmap option_fmap option_map snd].
    change [(k, served)] with (hold k served []). rewrite held_kind_hold.
    by destruct (Credential.eqb k k'). }
  destruct (Prov.eqb p0 p) eqn:E; simpl find.
  - rewrite E. rewrite (Prov.provider_eqb_respects _ _ p' E).
    destruct (Prov.eqb p p') eqn:E'; [|done]. cbn [andb fmap option_fmap option_map snd].
    rewrite held_kind_hold. by destruct (Credential.eqb k k').
  - rewrite E. destruct (Prov.eqb p0 p') eqn:E'; [|exact IH].
    rewrite (Prov.provider_eqb_respects _ _ p E') in E.
    by rewrite Prov.provider_eqb_sym, E.
Qed.

(** The rows of one kind of credential at one provider, as what they serve. *)
Definition rows_of (registry : gmap string Endpoint) (rows : list (string * string * option (list string)))
    (p : Provider) (k : CredentialKind) : list Served :=
  filter_map (fun row =>
    match read_row registry row with
    | Some (p', k', served) => if Prov.eqb p' p && Credential.eqb k' k then Some served else None
    | None => None
    end) rows.

(** Known and listing a model; unknown; held at all. *)
Definition lists (upstream : string) (s : Served) : Prop :=
  match s with Some m => upstream ∈ m | None => False end.

Lemma merged_rows l s0 :
  (fold_left merge_served l s0 = None ↔ In None (s0 :: l)) ∧
  ∀ m u, fold_left merge_served l s0 = Some m → u ∈ m ↔ ∃ s, In s (s0 :: l) ∧ lists u s.
Proof.
  revert s0; induction l as [|s l IH]; intros s0; cbn [fold_left].
  { cbn. split; [naive_solver|]. intros m u ->. naive_solver. }
  destruct (IH (merge_served s0 s)) as [H1 H2]. split.
  - rewrite H1. cbn. destruct s0, s; cbn; naive_solver.
  - intros m u Hm. rewrite (H2 m u Hm). assert (¬ In None (merge_served s0 s :: l)) as Hn
      by (rewrite <- H1; congruence).
    destruct s0 as [a|], s as [b|]; cbn in Hn |- *; [|by exfalso; apply Hn; left..].
    split.
    + intros (x & [<-|Hx] & Hu); [|by eauto]. cbn in Hu. apply elem_of_union in Hu as [?|?];
        [exists (Some a)|exists (Some b)]; auto.
    + intros (x & [<-|[<-|Hx]] & Hu); [exists (Some (a ∪ b))..|eauto]; cbn in *; set_solver.
Qed.

Lemma slot_rows registry rows p k :
  slot p k (channels_of registry rows) =
  match rows_of registry rows p k with
  | [] => None
  | s :: l => Some (fold_left merge_served l s)
  end.
Proof.
  unfold channels_of, rows_of. induction rows as [|row rows IH] using rev_ind; [done|].
  rewrite fold_left_app. cbn [fold_left].
  assert (∀ {A B} (f : A → option B) l x, filter_map f (l ++ [x]) =
    filter_map f l ++ match f x with Some y => [y] | None => [] end) as Hf.
  { intros A B f l x. induction l as [|y l IHl]; cbn; [by destruct (f x)|].
    destruct (f y); cbn; by rewrite IHl. }
  rewrite Hf. destruct (read_row registry row) as [[[p' k'] served]|]; [|by rewrite app_nil_r].
  rewrite slot_channel_in, IH. destruct (Prov.eqb p' p && Credential.eqb k' k) eqn:E;
    [|by rewrite app_nil_r].
  apply andb_true_iff in E as [Ep Ek]. unfold Credential.eqb in Ek. apply bool_decide_eq_true in Ek as ->.
  rewrite (slot_same _ _ _ _ Ep), IH.
  destruct (filter_map _ rows) as [|s l]; [done|]. cbn [app]. by rewrite fold_left_app.
Qed.

Lemma hold_keys k served h :
  map fst (hold k served h) = map fst h ++ (if any (Credential.eqb k) (map fst h) then [] else [k]).
Proof.
  induction h as [|[k0 s0] h IH]; [done|]. cbn [hold map fst app]. unfold any in *. cbn [existsb].
  destruct (Credential.eqb k0 k) eqn:E; unfold Credential.eqb in *.
  - apply bool_decide_eq_true in E as ->. rewrite bool_decide_eq_true_2 by done.
    cbn [map fst orb]. by rewrite app_nil_r.
  - apply bool_decide_eq_false in E. rewrite bool_decide_eq_false_2 by congruence.
    cbn [map fst orb]. by rewrite IH.
Qed.

Lemma hold_NoDup k served h : NoDup (map fst h) → NoDup (map fst (hold k served h)).
Proof.
  intros H. rewrite hold_keys. destruct (any _ _) eqn:E; [by rewrite app_nil_r|].
  apply NoDup_app. split_and!; [done| |apply NoDup_singleton].
  intros x Hx ->%list_elem_of_singleton. enough (any (Credential.eqb k) (map fst h) = true) by congruence.
  apply any_true. exists k. split; [by apply list_elem_of_In|]. unfold Credential.eqb.
  by rewrite bool_decide_eq_true_2.
Qed.

(** Each kind is in a provider's map once. *)
Lemma channels_NoDup registry rows p h :
  channels_get p (channels_of registry rows) = Some h → NoDup (map fst h).
Proof.
  assert (∀ ch q, Forall (fun e : Provider * Held => NoDup (map fst e.2)) ch →
    channels_get q ch = Some h → NoDup (map fst h)) as Hget.
  { intros ch q Hall. unfold channels_get. destruct (find _ ch) as [[q' h']|] eqn:E; [|done].
    intros [= <-]. apply find_Some in E as [Hin _].
    rewrite Forall_forall in Hall. by apply (Hall _ (proj2 (list_elem_of_In _ _) Hin)). }
  apply Hget. unfold channels_of. induction rows as [|row rows IH] using rev_ind; [constructor|].
  rewrite fold_left_app. cbn [fold_left]. destruct (read_row registry row) as [[[q k] s]|]; [|exact IH].
  revert IH. generalize (fold_left (λ out row, match read_row registry row with
    | Some (p, k, served) => channel_in p k served out | None => out end) rows []).
  intros ch. induction ch as [|[q' h'] ch IHch]; intros Hall; cbn [channel_in].
  - constructor; [apply hold_NoDup; constructor|constructor].
  - inversion Hall; subst. destruct (Prov.eqb q' q); constructor; cbn in *; auto using hold_NoDup.
Qed.

Lemma held_kind_In k s h : NoDup (map fst h) → held_kind k h = Some s ↔ In (k, s) h.
Proof.
  unfold held_kind. induction h as [|[k0 s0] h IH]; [done|]. cbn [map fst]. intros [Hn Hd]%NoDup_cons.
  simpl find. unfold Credential.eqb. case_bool_decide as E; cbn [fmap option_fmap option_map snd fst].
  - subst k0. split; [intros [= ->]; by left|]. intros [[= ->]|Hin]; [done|].
    exfalso. apply Hn. apply list_elem_of_In. apply in_map_iff. by exists (k, s).
  - unfold Credential.eqb in IH. rewrite IH by done. split; [by right|].
    intros [[= <- _]|Hin]; done.
Qed.

Lemma serves_spec b h up :
  (serves_from b h up = Some true ↔ ∃ k s, In (k, s) h ∧ lists up s) ∧
  (serves_from b h up = None ↔
    (¬ ∃ k s, In (k, s) h ∧ lists up s) ∧ (b = true ∨ ∃ k, In (k, None) h)).
Proof.
  revert b; induction h as [|[k [m|]] h IH]; intros b; cbn [serves_from].
  - destruct b; naive_solver.
  - case_bool_decide as Hm.
    + split; [split; [intros _|done]; exists k, (Some m); by split; [left|]|].
      split; [done|]. intros [Hno _]. destruct Hno. exists k, (Some m). by split; [left|].
    + destruct (IH b) as [H1 H2]. rewrite H1, H2. cbn [In].
      assert ((∃ k' s, ((k, Some m) = (k', s) ∨ In (k', s) h) ∧ lists up s) ↔
        ∃ k s, In (k, s) h ∧ lists up s) as -> by naive_solver. naive_solver.
  - destruct (IH true) as [H1 H2]. rewrite H1, H2. cbn [In].
    assert ((∃ k' s, ((k, None) = (k', s) ∨ In (k', s) h) ∧ lists up s) ↔
      ∃ k s, In (k, s) h ∧ lists up s) as -> by naive_solver. naive_solver.
Qed.

(** A kind's slot, by its rows. *)
Lemma slot_facts registry rows p k up :
  let R := rows_of registry rows p k in
  let s := slot p k (channels_of registry rows) in
  (is_Some s ↔ R ≠ []) ∧ (s = Some None ↔ In None R) ∧
  ((∃ x, s = Some x ∧ lists up x) ↔ ¬ In None R ∧ ∃ x, In x R ∧ lists up x).
Proof.
  cbv zeta. rewrite slot_rows. destruct (rows_of registry rows p k) as [|s l].
  { split_and!; [by split; [intros []|]|naive_solver|naive_solver]. }
  destruct (merged_rows l s) as [H1 H2]. destruct (fold_left merge_served l s) as [m|].
  - specialize (H2 m up eq_refl). assert (¬ In None (s :: l)) as Hn by (rewrite <- H1; done).
    split_and!; [by split; [|eauto]|by split; [|intros ?%Hn]|].
    rewrite <- H2. split; [intros (x & [= <-] & Hx); done|]. intros [_ Hx]. by exists (Some m).
  - assert (In None (s :: l)) as Hn by by apply H1. split_and!; [by split; [|eauto]|done|].
    split; [by intros (x & [= <-] & Hx)|by intros [? _]].
Qed.

(** [on_offer] of what is held, by what is known of it. *)
Lemma offer_held (R : CredentialKind → list Served) h e :
  (∀ k, In (k, None) h ↔ In None (R k)) → (∀ k, (∃ s, In (k, s) h) ↔ R k ≠ []) →
  match serves h (upstream_name (ent_spec e)) with
  | Some answer => answer
  | None =>
      bool_decide (is_Some (ent_tier e))
      || any (fun k => negb (Credential.flat_rate k)) (map fst h)
  end = true ↔
  (∃ k s, In (k, s) h ∧ lists (upstream_name (ent_spec e)) s) ∨
  ¬ (∃ k s, In (k, s) h ∧ lists (upstream_name (ent_spec e)) s) ∧ (∃ k, In None (R k)) ∧
    (is_Some (ent_tier e) ∨ ∃ k, R k ≠ [] ∧ Credential.flat_rate k = false).
Proof.
  intros Hnone Hheld. destruct (serves_spec false h (upstream_name (ent_spec e))) as [H1 H2].
  setoid_rewrite <- Hnone. setoid_rewrite <- Hheld. unfold serves.
  assert (any (fun k => negb (Credential.flat_rate k)) (map fst h) = true ↔
    ∃ k, (∃ s, In (k, s) h) ∧ Credential.flat_rate k = false) as Ha.
  { rewrite any_true. setoid_rewrite in_map_iff. setoid_rewrite negb_true_iff. split.
    - intros (k & ([k' s] & <- & ?) & ?). eauto.
    - intros (k & [s ?] & ?). exists k. split; [by exists (k, s)|done]. }
  destruct (serves_from false h _) as [[|]|].
  - split; [left; by apply H1|done].
  - split; [done|]. intros [?%H1|(Hno & [k Hk] & _)]; [done|].
    assert (Some false = None) by (apply H2; eauto). done.
  - destruct (proj1 H2 eq_refl) as [Hno [|Hk]]; [done|].
    rewrite orb_true_iff, bool_decide_eq_true, Ha. naive_solver.
Qed.

(** What is advertised can be reached, as far as the credentials have
    said.  A model is offered exactly when some kind of its provider's
    credentials, each of which has been asked, has one that serves it; or when
    none has said so, some credential has not been asked, and the model is on
    a rung or a metered credential is held.  Its [@api] and [@sub] ids are
    offered exactly when a credential of that very kind is held and either
    serves it or shares its kind with one not asked.  The order of the rows
    and rows that cannot be read change nothing. *)
Theorem offers_are_reachable registry rows e :
  let ch := channels_of registry rows in
  let R := rows_of registry rows (model_provider (ent_spec e)) in
  let up := upstream_name (ent_spec e) in
  let known := ∃ k s, ¬ In None (R k) ∧ In s (R k) ∧ lists up s in
  (on_offer e ch = true ↔
    known ∨ ¬ known ∧ (∃ k, In None (R k)) ∧
      (is_Some (ent_tier e) ∨ ∃ k, R k ≠ [] ∧ Credential.flat_rate k = false)) ∧
  ∀ h k, channels_get (model_provider (ent_spec e)) ch = Some h →
    kind_serves h k up = true ↔ ∃ s, In s (R k) ∧ (s = None ∨ lists up s).
Proof.
  cbv zeta. set (p := model_provider (ent_spec e)). set (up := upstream_name (ent_spec e)).
  set (R := rows_of registry rows p). set (ch := channels_of registry rows).
  assert (∀ k, slot p k ch = match channels_get p ch with Some h => held_kind k h | None => None end)
    as Hslot by done.
  pose proof (λ k, slot_facts registry rows p k up) as Hf. cbv zeta in Hf. fold R ch in Hf.
  destruct (channels_get p ch) as [h|] eqn:Hch.
  - pose proof (channels_NoDup registry rows p h Hch) as Hnd.
    assert (∀ k s, In (k, s) h ↔ slot p k ch = Some s) as Hin
      by (intros k s; rewrite Hslot; symmetry; by apply held_kind_In).
    assert ((∃ k s, ¬ In None (R k) ∧ In s (R k) ∧ lists up s) ↔ ∃ k s, In (k, s) h ∧ lists up s) as ->.
    { split; [intros (k & s & Hn & Hs & Hl)|intros (k & s & Hs%Hin & Hl)].
      - destruct (proj2 (proj2 (proj2 (Hf k)))) as (x & Hx & Hlx); [by eauto|].
        exists k, x. by rewrite Hin.
      - destruct (proj1 (proj2 (proj2 (Hf k)))) as (Hn & x & ? & ?); eauto. }
    split.
    + unfold on_offer. fold p up. rewrite Hch. apply (offer_held R h e).
      * intros k. by rewrite Hin, (proj1 (proj2 (Hf k))).
      * intros k. rewrite <- (proj1 (Hf k)). split; [intros [s Hs]; exists s|intros [s Hs]; exists s]; by apply Hin.
    + intros h' k [= <-]. unfold kind_serves. rewrite <- Hslot.
      destruct (Hf k) as (H1 & H2 & H3). destruct (slot p k ch) as [[m|]|].
      * rewrite bool_decide_eq_true. split.
        { intros Hm. destruct (proj1 H3) as (_ & x & ? & ?); [by exists (Some m)|]. eauto. }
        intros (x & Hx & [->|Hl]); [by apply H2 in Hx|].
        destruct (proj2 H3) as (y & [= <-] & Hy); [|done]. split; [|eauto]. by rewrite <- H2.
      * split; [intros _|done]. exists None. split; [by apply H2|by left].
      * split; [done|]. intros (x & Hx & _). destruct (proj2 H1) as [? [=]]. by intros Hr; rewrite Hr in Hx.
  - split; [|done]. unfold on_offer. fold p up. rewrite Hch. split; [done|].
    assert (∀ k, R k = []) as Hno.
    { intros k. destruct (R k) eqn:E; [done|]. destruct (proj2 (proj1 (Hf k))) as [? Hs]; [by rewrite E|].
      by rewrite Hslot in Hs. }
    setoid_rewrite Hno. cbn. naive_solver.
Qed.

(** ** Reading an entry *)

Lemma field_describe fs spec : field "id" (describe fs spec) = field "id" fs.
Proof. unfold describe. destruct (reasoning_efforts spec); by rewrite !field_put. Qed.

Lemma entry_shape id owner name m oag :
  ∃ fs, entry id owner name m oag = JObject fs ∧ field "id" fs = Some (JString id) ∧
    field "oag" fs = Some (JObject (put "alias_of" JNull oag)).
Proof.
  unfold entry. eexists. split; [reflexivity|]. rewrite !field_put. cbn [Str.eqb String.eqb].
  split; [|done]. destruct m as [spec|]; [|done]. by rewrite field_describe.
Qed.

(** What a reader takes an entry to say: its id, the name it stands for,
    whether it is virtual, whether it is honoured, and the pin. *)
Record shown (v : Json) (id canonical : string) (virtual hon : bool) (channel : option CredentialKind)
    : Prop := {
  shown_id : id_of v = Some id;
  shown_canonical : match oag_field "alias_of" v with Some (JString s) => s | _ => id end = canonical;
  shown_virtual : oag_field "virtual" v = Some (JBool virtual);
  shown_honoured : oag_field "honoured" v = Some (JBool hon);
  shown_channel : oag_field "channel" v =
    Some (opt_string (match channel with Some k => Credential.qualifier k | None => None end))
}.

Lemma set_alias_of_shape canonical v :
  is_Some (oag_field "virtual" v) →
  id_of (set_alias_of (JString canonical) v) = id_of v ∧
  ∀ k, oag_field k (set_alias_of (JString canonical) v) =
    if Str.eqb "alias_of" k then Some (JString canonical) else oag_field k v.
Proof.
  unfold set_alias_of, id_of, oag_field. destruct v as [| | | | |fs]; try by intros [].
  destruct (field "oag" fs) as [[| | | | |oag]|]; try by intros [].
  intros _. rewrite field_put. cbn [Str.eqb String.eqb Ascii.eqb Bool.eqb]. split; [done|].
  intros k. rewrite field_put, Str.str_eqb_refl. apply field_put.
Qed.

Lemma set_alias_of_id w v : id_of (set_alias_of w v) = id_of v.
Proof.
  unfold set_alias_of, id_of. destruct v as [| | | | |fs]; try done.
  destruct (field "oag" fs) as [[| | | | |oag]|]; try done. by rewrite field_put.
Qed.

Lemma with_id_shape id v : is_Some (id_of v) →
  id_of (with_id id v) = Some id ∧ ∀ k, oag_field k (with_id id v) = oag_field k v.
Proof.
  unfold with_id, id_of, oag_field. destruct v as [| | | | |fs]; try by intros [].
  intros _. rewrite field_put, Str.str_eqb_refl. split; [done|].
  intros k. by rewrite field_put.
Qed.

Lemma virtual_entry_shown rung pinned :
  shown (virtual_entry rung pinned) ("oag/" +:+ default "auto" rung) ("oag/" +:+ default "auto" rung)
    true true None.
Proof.
  unfold virtual_entry. match goal with |- context [entry ?i ?o ?n ?m ?g] =>
    destruct (entry_shape i o n m g) as (fs & -> & Hi & Ho) end.
  split; unfold id_of, oag_field; rewrite ?Hi, ?Ho; reflexivity.
Qed.

Lemma concrete_entry_shown e channel name :
  name = default (model_id (ent_spec e))
    (match channel with Some k => Alias.qualified_id (model_id (ent_spec e)) k | None => None end) →
  shown (concrete_entry e channel) name (model_id (ent_spec e)) false (honoured e) channel.
Proof.
  intros ->. unfold concrete_entry. match goal with |- context [entry ?i ?o ?n ?m ?g] =>
    destruct (entry_shape i o n m g) as (fs & -> & Hi & Ho) end.
  destruct channel as [k|].
  - destruct (set_alias_of_shape (model_id (ent_spec e)) (JObject fs)) as [Hid Hoag].
    { unfold oag_field. rewrite Ho. by eexists. }
    split; rewrite ?Hid, ?Hoag; unfold id_of, oag_field; rewrite ?Hi, ?Ho; reflexivity.
  - split; unfold id_of, oag_field; rewrite ?Hi, ?Ho; reflexivity.
Qed.

(** A twin says the same under a name the client keeps. *)
Lemma twin_shown v id canonical virtual hon channel twin :
  shown v id canonical virtual hon channel → alias_twin v = Some twin →
  ∃ alias, Alias.discovery_alias id = Some alias ∧ shown twin alias canonical virtual hon channel.
Proof.
  intros [Hi Hc Hv Hh Hk]. unfold alias_twin. rewrite Hi.
  destruct (Alias.discovery_alias id) as [alias|] eqn:Ha; [|done]. rewrite Hc. intros [= <-].
  destruct (with_id_shape alias v) as [Hid Hoag]; [by eexists|].
  destruct (set_alias_of_shape canonical (with_id alias v)) as [Hid' Hoag'];
    [rewrite Hoag, Hv; by eexists|].
  exists alias. split; [done|]. split; rewrite ?Hid', ?Hid, ?Hoag', ?Hoag; done.
Qed.

Lemma pushed_In v id canonical virtual hon channel aliases x :
  shown v id canonical virtual hon channel → Alias.spelled canonical channel id →
  In x (pushed aliases v) →
  ∃ name, shown x name canonical virtual hon channel ∧ Alias.spelled canonical channel name.
Proof.
  intros Hs Hsp. unfold pushed. intros [<-|Hin]; [by exists id|].
  destruct aliases; [|done]. destruct (alias_twin v) as [twin|] eqn:Ht; [|done].
  destruct Hin as [<-|[]]. destruct (twin_shown _ _ _ _ _ _ _ Hs Ht) as (alias & Ha & Hsh).
  exists alias. split; [done|]. by eapply Alias.spelled_alias.
Qed.

(** Where the entries of the list come from. *)
Inductive origin (p : RoutingPolicy) (ch : Channels) (mode : RoutingMode) (pressure : BudgetPressure) c
    : string → bool → bool → option CredentialKind → Prop :=
  | origin_virtual rung :
      In rung (virtual_rungs p pressure true) →
      origin p ch mode pressure c ("oag/" +:+ default "auto" rung) true true None
  | origin_concrete e channel :
      In e (Policy.entitled p mode c (map fst ch) pressure) →
      (∀ k, channel = Some k → ∃ h, channels_get (model_provider (ent_spec e)) ch = Some h ∧
        kind_serves h k (upstream_name (ent_spec e)) = true ∧ is_Some (Credential.qualifier k)) →
      origin p ch mode pressure c (model_id (ent_spec e)) false (honoured e) channel.

Lemma origin_model p ch mode pressure c canonical hon channel :
  origin p ch mode pressure c canonical false hon channel →
  ∃ e, In e (Policy.entitled p mode c (map fst ch) pressure) ∧ canonical = model_id (ent_spec e) ∧
    hon = honoured e ∧
    ∀ k, channel = Some k → ∃ h, channels_get (model_provider (ent_spec e)) ch = Some h ∧
      kind_serves h k (upstream_name (ent_spec e)) = true.
Proof.
  intros H. remember false as virtual eqn:Hv. destruct H as [|e channel He Hch]; [done|].
  exists e. split_and!; [done..|]. intros k Hk. destruct (Hch k Hk) as (h & ? & ? & _). eauto.
Qed.

Lemma concrete_In e ch x :
  In x (concrete_entries e ch) →
  ∃ channel, x = concrete_entry e channel ∧ ∀ k, channel = Some k →
    ∃ h, channels_get (model_provider (ent_spec e)) ch = Some h ∧
      kind_serves h k (upstream_name (ent_spec e)) = true ∧ is_Some (Credential.qualifier k).
Proof.
  unfold concrete_entries. intros [<-|Hin]; [by exists None|].
  destruct (channels_get _ ch) as [h|]; [|done].
  apply in_map_iff in Hin as (k & <- & [Hk Hs]%keep_In). exists (Some k). split; [done|].
  intros k' [= <-]. exists h. split_and!; [done|done|].
  destruct Hk as [<-|[<-|[]]]; by eexists.
Qed.

Lemma data_In p ch mode pressure c aliases auto v :
  In v (data p ch mode pressure c aliases auto) →
  ∃ name canonical virtual hon channel, shown v name canonical virtual hon channel ∧
    Alias.spelled canonical channel name ∧ origin p ch mode pressure c canonical virtual hon channel.
Proof.
  unfold data. destruct (advertise _ _); [|done]. rewrite in_app_iff, !in_concat. intros [H|H].
  - destruct H as (l & (rung & <- & Hr)%in_map_iff & Hv).
    destruct (pushed_In _ _ _ _ _ _ _ _ (virtual_entry_shown rung _) (Alias.spelled_id _) Hv)
      as (name & Hs & Hsp).
    eexists name, _, true, true, None. split_and!; [exact Hs|exact Hsp|]. constructor.
    revert Hr. unfold virtual_rungs. rewrite !in_app_iff. destruct auto; naive_solver.
  - destruct H as (l & (e & <- & He)%in_map_iff & Hv). apply in_concat in Hv as (l & Hl & Hv).
    apply in_map_iff in Hl as (x & <- & (channel & -> & Hch)%concrete_In).
    apply keep_In in He as [He _].
    assert (Alias.spelled (model_id (ent_spec e)) channel (default (model_id (ent_spec e))
      (match channel with Some k => Alias.qualified_id (model_id (ent_spec e)) k | None => None end)))
      as Hspell.
    { destruct channel as [k|]; [|constructor]. destruct (Hch k eq_refl) as (_ & _ & _ & [q Hq]).
      constructor. unfold Alias.qualified_id. by rewrite Hq. }
    destruct (pushed_In _ _ _ _ _ _ _ _ (concrete_entry_shown e channel _ eq_refl) Hspell Hv)
      as (name & Hs & Hsp).
    eexists name, _, false, _, channel. split_and!; [exact Hs|exact Hsp|by constructor].
Qed.

(** Claude Code sees the whole list.  It drops every id that does not begin
    with [claude] or [anthropic]; with the aliases on, every entry -- each
    virtual name, each model, each model pinned to a credential kind -- is
    still there under an id it keeps, standing for the same name with the same
    pin, so a picker filtered so misses nothing. *)
Theorem discovery_misses_nothing p ch mode pressure c auto v name canonical virtual hon channel :
  In v (data p ch mode pressure c true auto) → shown v name canonical virtual hon channel →
  ∃ v' name', In v' (data p ch mode pressure c true auto) ∧
    shown v' name' canonical virtual hon channel ∧
    Alias.survives_discovery_filter name' = true.
Proof.
  intros Hin Hs. destruct (Alias.survives_discovery_filter name) eqn:Hsv; [by exists v, name|].
  assert (∃ x, In v (pushed true x) ∧ ∀ y, In y (pushed true x) →
    In y (data p ch mode pressure c true auto)) as (x & Hx & Hall).
  { unfold data in *. destruct (advertise _ _); [|done]. revert Hin. setoid_rewrite in_app_iff.
    setoid_rewrite in_concat. intros [(l & Hl & Hv)|(l & Hl & Hv)].
    - pose proof Hl as (rung & <- & Hr)%in_map_iff. eexists. split; [exact Hv|]. intros y Hy. left. eauto.
    - pose proof Hl as (e & <- & He)%in_map_iff. apply in_concat in Hv as (l & Hl' & Hv).
      pose proof Hl' as (x & <- & Hx)%in_map_iff. exists x. split; [done|]. intros y Hy. right.
      eexists. split; [exact Hl|]. apply in_concat. eauto. }
  assert (∃ twin alias, alias_twin v = Some twin ∧ Alias.discovery_alias name = Some alias) as
    (twin & alias & Ht & Ha).
  { unfold alias_twin. rewrite (shown_id _ _ _ _ _ _ Hs). unfold Alias.discovery_alias. rewrite Hsv. eauto. }
  destruct (twin_shown _ _ _ _ _ _ _ Hs Ht) as (alias' & Ha' & Hsh). exists twin, alias'.
  assert (In twin (pushed true x)) as Htw.
  { destruct Hx as [->|Hx]; [unfold pushed; rewrite Ht; by right; left|].
    exfalso. destruct (alias_twin x) as [tx|] eqn:Htx; [|done]. destruct Hx as [->|[]].
    unfold alias_twin in Htx. destruct (id_of x) as [idx|] eqn:Hidx; [|done].
    destruct (Alias.discovery_alias idx) as [a|] eqn:Hax; [|done]. injection Htx as <-.
    pose proof (shown_id _ _ _ _ _ _ Hs) as Hname. rewrite set_alias_of_id in Hname.
    destruct (with_id_shape a x) as [Hw _]; [by eexists|]. rewrite Hw in Hname. injection Hname as <-.
    unfold Alias.discovery_alias in Hax. destruct (Alias.survives_discovery_filter idx); [done|].
    injection Hax as <-. by rewrite Alias.alias_survives in Hsv. }
  split_and!; [by apply Hall|done|].
  unfold Alias.discovery_alias in Ha'. rewrite Hsv in Ha'. injection Ha' as <-. apply Alias.alias_survives.
Qed.

(** ** Sending an id back *)

(** The model an entry stands for, listed under [name]. *)
Definition stands_for (v : Json) (name : string) : string :=
  match oag_field "alias_of" v with Some (JString s) => s | _ => name end.

(** The model's id does not look virtual, no decoration of it is another's
    name, and if it holds an [@] it is not listed under its discovery alias. *)
Definition plain c (id name : string) : Prop :=
  Str.starts_with id "oag/" = false ∧ Alias.undecorated c id ∧
  (In Alias.CHANNEL_SEPARATOR (Str.bytes id) → Alias.discovery_alias id ≠ Some name).

(** The kinds of credentials on record are kinds their providers have. *)
Definition registered (ch : Channels) : Prop :=
  ∀ p h k, channels_get p ch = Some h → is_Some (held_kind k h) → Prov.accepts (Prov.support p) k = true.

Section sent_back.
Context (serde_words : Json → string) (json_len : Json → Z) (utc_second : Z → string)
  (registry : gmap string Endpoint) (reads : Reads D).

Lemma resolve_caller_Ok auth policy ch mode pressure :
  resolve_caller serde_words registry reads auth = Ok (policy, ch, mode, pressure) →
  ∃ route spend, Plan.policy_for serde_words reads auth = Ok (route, policy, spend) ∧
    mode = (if Str.eqb (default_mode route) "managed" then Managed else Domain.Passthrough) ∧
    pressure = Budget.budgets_pressure (Plan.budgets_for auth route spend).
Proof.
  unfold resolve_caller. intros ([[route p] spend] & Hp & H)%result_bind_Ok.
  exists route, spend. destruct (bool_decide _); [by simplify_eq|].
  apply result_bind_Ok in H as (rows & _ & H). by simplify_eq.
Qed.

(** The route of a request, through what its name is read as. *)
Lemma route_request_read auth canonical header_tier c :
  Plan.route_request serde_words json_len utc_second registry reads auth canonical header_tier c =
  let? (id, channel) := Alias.read_as (model canonical) c in
  let sent := Climb.with_model canonical id in
  let? plan := Plan.plan_request serde_words json_len utc_second registry reads auth sent
    header_tier c channel in
  Ok (plan, Climb.with_model sent (upstream_name (dec_model (plan_decision plan)))).
Proof.
  unfold Plan.route_request, Alias.read_as.
  destruct (Alias.normalise (model canonical) c) as [[nm ch]|e]; [|done]. cbn.
  destruct nm as [name|]; cbn; [done|]. by destruct canonical.
Qed.

(** C33. What the list offers as honoured is what is served.  Take any entry of
    [/v1/models] that is a model, reads as honoured and stands for the caller
    now; send its id back, exactly as listed -- bare, pinned to [@api] or
    [@sub], or under its discovery alias -- and the request is planned onto
    that very model as the caller's choice, pinned to the credential kind the
    entry names, under the name its provider knows it by.  Of the caller: its
    rate limit has a token left.  Of the model: it sits on one rung, or the
    route has no floor -- of one on two rungs the promise is not kept
    ([Policy.entitled_overpromises_shared_model]) --; its id does not look
    virtual, and no decoration of it is another model's name; and if its id
    holds an [@] it is not the discovery alias that is sent back, which is
    refused ([Alias.alias_of_at_id_refused]).  Of the credentials: they are of
    kinds their providers have. *)
Theorem listed_is_served auth policy ch mode pressure c aliases auto v name canonical :
  resolve_caller serde_words registry reads auth = Ok (policy, ch, mode, pressure) →
  (∀ route p spend, Plan.policy_for serde_words reads auth = Ok (route, p, spend) →
    Plan.throttled reads route = Ok None) →
  wf c → plain c (stands_for v name) name → registered ch →
  Policy.on_one_rung policy (stands_for v name) ∨ Policy.floor_rank policy = 0 →
  In v (data policy ch mode pressure c aliases auto) →
  id_of v = Some name → oag_field "virtual" v = Some (JBool false) →
  oag_field "honoured" v = Some (JBool true) → model canonical = name →
  ∃ plan sent, Plan.route_request serde_words json_len utc_second registry reads auth canonical None c
      = Ok (plan, sent) ∧
    dec_reason (plan_decision plan) = ByPassthrough ∧
    stands_for v name = model_id (dec_model (plan_decision plan)) ∧
    oag_field "channel" v = Some (opt_string
      (match plan_channel plan with Some k => Credential.qualifier k | None => None end)) ∧
    model sent = upstream_name (dec_model (plan_decision plan)).
Proof.
  intros Hcaller Htoken Hc Hplain Hreg Hside Hv Hid Hvirtual Hhon Hname.
  destruct (resolve_caller_Ok _ _ _ _ _ Hcaller) as (route & spend & Hp & -> & ->).
  destruct (data_In _ _ _ _ _ _ _ _ Hv) as (nm & can & vt & hon & channel & [Si Sc Sv Sh Sk] & Hsp & Ho).
  rewrite Hid in Si. injection Si as <-. rewrite Hvirtual in Sv. injection Sv as <-.
  rewrite Hhon in Sh. injection Sh as <-. rewrite Sk. change (stands_for v name = can) in Sc. rewrite Sc in *. clear Sc.
  apply origin_model in Ho as (e & He & -> & Hh & Hch). symmetry in Hh. destruct (Plan.policy_for_Ok _ _ _ _ _ _ Hp) as (_ & _ & Hwf).
  destruct (Policy.entitled_row _ _ _ _ _ _ Hc He) as [Hrow Hres].
  destruct Hplain as (Hoag & Hund & Hat).
  assert (Alias.read_as name c = Ok (model_id (ent_spec e), channel)) as Hread.
  { apply Alias.read_spelled; [|done| |by intros ?%Hat; rewrite Hres|done].
    - apply Alias.known_resolved. rewrite Hres. by eexists.
    - intros k spec -> Hr. rewrite Hres in Hr. injection Hr as <-.
      destruct (Hch k eq_refl) as (h & Hh' & Hs). apply (Hreg _ h); [done|].
      unfold kind_serves in Hs. destruct (held_kind k h); [by eexists|done]. }
  rewrite route_request_read, Hname, Hread. cbn [result_bind].
  set (sent := Climb.with_model canonical (model_id (ent_spec e))).
  assert (Plan.explicit policy None (model sent) = None) as Hexp.
  { unfold Plan.explicit, Plan.virtual_tier. cbn [mbind option_bind].
    destruct (Str.strip_prefix (model sent) "oag/") eqn:E; [|done]. exfalso.
    apply Str.strip_prefix_Some in E. enough (Str.starts_with (model_id (ent_spec e)) "oag/" = true) by congruence.
    apply Str.starts_with_app. eauto. }
  set (signal := Plan.with_tier (Canonical.signal json_len sent) None).
  destruct (Policy.entitled_honoured policy _ signal (Plan.budgets_for auth route spend) c (max_tokens sent)
    (Plan.served_models_for reads auth) (map fst ch) e Hwf Hc He Hh Hside) as (Hm & d & Hd & Hreason & Hmodel).
  assert (Plan.mode_of route (model sent) None =
    if Str.eqb (default_mode route) "managed" then Managed else Domain.Passthrough) as Hmode.
  { unfold Plan.mode_of. cbn [model sent Climb.with_model]. by rewrite Hoag, orb_false_r. }
  set (plan := {| plan_policy := policy; plan_decision := d; plan_signal := signal; plan_catalog := c;
    plan_pressure := Budget.budgets_pressure (Plan.budgets_for auth route spend);
    plan_channel := channel; plan_served := Plan.served_models_for reads auth |}).
  exists plan, (Climb.with_model sent (upstream_name (dec_model d))).
  assert (Plan.plan_request serde_words json_len utc_second registry reads auth sent None c channel = Ok plan)
    as ->.
  { apply Plan.plan_request_Ok. exists route, policy, spend. split; [done|by eapply Htoken| |by rewrite Hexp].
    rewrite Hexp, Hmode. exact Hd. }
  cbn. by rewrite Hmodel.
Qed.

End sent_back.

End listing.

(** ** A listing for the witnesses *)

Definition catalog_listing_example : Catalog Q := from_entries [
  spec_example "anthropic/haiku" Anthropic "haiku" 1 5;
  spec_example "xai/grok-4.6" XAI "grok-4.6" 3 15 ].

Definition reads_listing_example : Reads Q := {|
  route_by_id := fun _ => Ok (Some Plan.route_example);
  spend_for := fun _ _ => Ok {| key_usd := dint 50; principal_usd := dzero |};
  take_rate_token := fun _ _ => Ok None;
  route_channels := fun _ _ => Ok [("xai", "oauth", Some ["grok-4.6"]); ("anthropic", "api_key", None)];
  provider_standing := fun _ _ _ =>
    Ok {| total := 0; usable := 0; ownerless_seats := 0; live := 0; back_at := None |} |}.

Definition channels_example : Channels :=
  channels_of ∅ [("xai", "oauth", Some ["grok-4.6"]); ("anthropic", "api_key", None)].

Lemma plain_example name : plain catalog_listing_example "xai/grok-4.6" name.
Proof.
  split; [reflexivity|]. split; [|intros Hat; vm_compute in Hat; intuition discriminate].
  split; [vm_compute; reflexivity|]. intros [] n; intros [= <-]; split; vm_compute; reflexivity.
Qed.

Lemma registered_example : registered channels_example.
Proof.
  intros p h k. assert (channels_example = [(XAI, [(OAuth, Some {[ "grok-4.6" ]})]); (Anthropic, [(ApiKey, None)])])
    as -> by (vm_compute; reflexivity).
  unfold channels_get. simpl find. destruct p; cbn; try discriminate; intros [= <-];
    destruct k; cbn; try (by intros []); done.
Qed.

Definition policy_listing_example : RoutingPolicy :=
  Policy.with_floor (Policy.new_policy Ladder.ladder_example
    (Classify.classify Classify.default_thresholds)) (Some {| tier_name := "cheap"; tier_rank := 0 |}).

Definition listed_example : list Json :=
  data policy_listing_example channels_example Domain.Passthrough Normal catalog_listing_example
    true true.

Lemma caller_resolved_example :
  resolve_caller (fun _ => "") ∅ reads_listing_example (Plan.caller_example None None) =
    Ok (policy_listing_example, channels_example, Domain.Passthrough, Normal).
Proof. vm_compute. reflexivity. Qed.

Lemma discovery_misses_nothing_witness :
  ∃ v' name', In v' listed_example ∧ shown v' name' "xai/grok-4.6" false true (Some OAuth) ∧
    Alias.survives_discovery_filter name' = true.
Proof.
  destruct (List.nth_error listed_example 10) as [v|] eqn:Ev; [|vm_compute in Ev; discriminate Ev].
  apply (discovery_misses_nothing _ _ _ _ _ true v "xai/grok-4.6@sub" "xai/grok-4.6" false true
    (Some OAuth) (nth_error_In _ _ Ev)).
  vm_compute in Ev. injection Ev as <-. split; reflexivity.
Defined.

Lemma listed_is_served_witness :
  ∃ plan sent, Plan.route_request (fun _ => "") (fun _ => 2) (fun _ => "") ∅ reads_listing_example
      (Plan.caller_example None None) (Plan.request_example "anthropic/xai/grok-4.6@sub") None
      catalog_listing_example = Ok (plan, sent) ∧
    dec_reason (plan_decision plan) = ByPassthrough ∧ model sent = "grok-4.6".
Proof.
  destruct (List.nth_error listed_example 11) as [v|] eqn:Ev; [|vm_compute in Ev; discriminate Ev].
  assert (id_of v = Some "anthropic/xai/grok-4.6@sub" ∧ oag_field "virtual" v = Some (JBool false) ∧
    oag_field "honoured" v = Some (JBool true) ∧
    stands_for v "anthropic/xai/grok-4.6@sub" = "xai/grok-4.6") as (Hid & Hvirtual & Hhon & Hcan)
    by (vm_compute in Ev; injection Ev as <-; split_and!; reflexivity).
  destruct (listed_is_served (fun _ => "") (fun _ => 2) (fun _ => "") ∅ reads_listing_example
    (Plan.caller_example None None) _ _ _ _ catalog_listing_example true true v
    "anthropic/xai/grok-4.6@sub" (Plan.request_example "anthropic/xai/grok-4.6@sub")
    caller_resolved_example) as (plan & sent & Hr & Hreason & _ & _ & Hm).
  - intros route p spend Hp. assert (rpm_limit route = Some 60) as Hrpm.
    { enough (result_ok (Plan.policy_for (fun _ => "") reads_listing_example
        (Plan.caller_example None None)) ≫= (fun x => rpm_limit x.1.1) = Some 60) as Hx
        by (rewrite Hp in Hx; exact Hx). vm_compute. reflexivity. }
    unfold Plan.throttled. by rewrite Hrpm.
  - apply from_entries_wf.
  - rewrite Hcan. apply plain_example.
  - apply registered_example.
  - by right.
  - by apply (nth_error_In _ 11).
  - exact Hid.
  - exact Hvirtual.
  - exact Hhon.
  - reflexivity.
  - exists plan, sent. split_and!; [exact Hr|exact Hreason|].
    assert (upstream_name (dec_model (plan_decision plan)) = "grok-4.6") as Hu; [|by rewrite Hm].
    enough (result_ok (Plan.route_request (fun _ => "") (fun _ => 2) (fun _ => "") ∅ reads_listing_example
      (Plan.caller_example None None) (Plan.request_example "anthropic/xai/grok-4.6@sub") None
      catalog_listing_example) ≫= (fun ps => Some (upstream_name (dec_model (plan_decision ps.1)))) =
      Some "grok-4.6") as Hx by (rewrite Hr in Hx; cbn in Hx; congruence).
    vm_compute. reflexivity.
Defined.

End Listing.
