(* ===== verification/Identity.v ===== *)
(** * Who is calling

    From an inbound key to the identity it stands for: the rows and statements
    of [oag-store/src/repo/keys.rs], the signed entries of the shared cache
    ([AuthMac] and the auth cache of [oag-store/src/cache.rs]), the three tiers
    of [oag-store/src/auth.rs] and the layer in front of every inference route
    ([oag-server/src/gateway/authn.rs]).

    A replica's lookup is not one step: its reads, its write and everybody
    else's writes interleave ([act]).  Times are milliseconds, of one clock. *)

From Stdlib Require Import Ascii QArith.
From S2P Require Import Prelude Text Money Domain.
From S2P Require Import Names Sticky Meter Plan.
#[local] Open Scope string_scope.
#[local] Open Scope oag_scope.
#[local] Open Scope list_scope.
#[local] Open Scope Z_scope.

(** ** Rows *)

Section rows.
Context {D : Type}.

(** The cached [AuthContext]: what planning reads, and what it does not. *)
Record Known : Type := {
  known : Caller D;
  known_admin : bool;
  known_expires_at : option Z
}.

Record KeyRow : Type := {
  kr_id : N;
  kr_prefix : string;
  kr_name : string;
  kr_principal : N;
  kr_route : N;
  kr_floor_tier : option string;
  kr_quota : option D;
  kr_active : bool;
  kr_admin : bool;
  kr_expires_at : option Z
}.

Record PrincipalRow : Type := {
  pr_email : string;
  pr_role : string;
  pr_budget : option D;
  pr_hard_stop : D;
  pr_active : bool
}.

Record RouteEntry : Type := { rt_name : string; rt_active : bool }.

(** [api_key] by [key_hash], which is unique; the others by their ids. *)
Record Db : Type := {
  api_key : gmap string KeyRow;
  principal : gmap N PrincipalRow;
  route : gmap N RouteEntry
}.
End rows.
Arguments Known : clear implicits.
Arguments KeyRow : clear implicits.
Arguments PrincipalRow : clear implicits.
Arguments Db : clear implicits.

(** ** [repo/keys.rs] *)

Module Keys.

Definition KEY_PREFIX : string := "oag_live_".
Definition KEY_LEN : Z := 9 + 64.

Definition loggable_key_prefix (raw : string) : string := Str.take 16 raw.

Definition is_issued_key_shape (raw : string) : bool :=
  (Str.len raw =? KEY_LEN) && Str.starts_with raw KEY_PREFIX
  && all (fun b => Str.is_ascii_digit b || Str.in_span 97 102 b)
       (Str.bytes (Str.drop (String.length KEY_PREFIX) raw)).

Section keys.
Context {D : Type} (sha256 : list ascii → list ascii).

Definition hash_key (raw : string) : string := Sticky.hex (sha256 (Str.bytes raw)).

Definition set_api_key (m : gmap string (KeyRow D)) (db : Db D) : Db D :=
  {| api_key := m; principal := principal db; route := route db |}.

Definition known_of (k : KeyRow D) (p : PrincipalRow D) : Known D := {|
  known := {|
    caller_ids := {| api_key_id := kr_id k; principal_id := kr_principal k; route_id := kr_route k |};
    key_floor_tier := kr_floor_tier k;
    quota_usd := kr_quota k;
    principal_budget_usd := pr_budget p;
    principal_hard_stop_multiple := pr_hard_stop p |};
  known_admin := kr_admin k;
  known_expires_at := kr_expires_at k
|}.

(** The query, for a hash and the instant bound as [$2]. *)
Definition authenticate (db : Db D) (hash : string) (now : Z) : option (Known D) :=
  match api_key db !! hash with
  | Some k =>
      match principal db !! kr_principal k, route db !! kr_route k with
      | Some p, Some r =>
          if kr_active k && pr_active p && rt_active r
             && match kr_expires_at k with None => true | Some expires_at => now <? expires_at end
          then Some (known_of k p) else None
      | _, _ => None
      end
  | None => None
  end.

Definition deactivated (k : KeyRow D) : KeyRow D := {|
  kr_id := kr_id k; kr_prefix := kr_prefix k; kr_name := kr_name k; kr_principal := kr_principal k;
  kr_route := kr_route k; kr_floor_tier := kr_floor_tier k; kr_quota := kr_quota k;
  kr_active := false; kr_admin := kr_admin k; kr_expires_at := kr_expires_at k |}.

Definition with_quota (quota : option D) (k : KeyRow D) : KeyRow D := {|
  kr_id := kr_id k; kr_prefix := kr_prefix k; kr_name := kr_name k; kr_principal := kr_principal k;
  kr_route := kr_route k; kr_floor_tier := kr_floor_tier k; kr_quota := quota;
  kr_active := kr_active k; kr_admin := kr_admin k; kr_expires_at := kr_expires_at k |}.

(** [UPDATE api_key SET .. WHERE .. RETURNING key_hash, name, key_prefix]. *)
Definition update (which : KeyRow D → bool) (set : KeyRow D → KeyRow D) (db : Db D)
  : list (string * string * string) * Db D :=
  (filter_map (fun x : string * KeyRow D =>
     if which x.2 then Some (x.1, kr_name x.2, kr_prefix x.2) else None) (map_to_list (api_key db)),
   set_api_key ((fun k => if which k then set k else k) <$> api_key db) db).

Definition by_id (id : N) (k : KeyRow D) : bool := N.eqb (kr_id k) id.

Definition revoke_key (id : N) (db : Db D) : option (string * string * string) * Db D :=
  let '(rows, db) := update (by_id id) deactivated db in (head rows, db).

Definition revoke_key_by_prefix (prefix : string) (db : Db D)
  : list (string * string * string) * Db D :=
  update (fun k => Str.eqb (kr_prefix k) prefix && kr_active k) deactivated db.

Definition set_key_quota (id : N) (quota : option D) (db : Db D)
  : option (string * string * string) * Db D :=
  let '(rows, db) := update (by_id id) (with_quota quota) db in (head rows, db).

Definition key_hashes_for_principal (db : Db D) (id : N) : list string :=
  map fst (keep (fun x : string * KeyRow D => N.eqb (kr_principal x.2) id) (map_to_list (api_key db))).

Definition key_exists (db : Db D) (id : N) : bool :=
  any (fun x : string * KeyRow D => by_id id x.2) (map_to_list (api_key db)).

Definition principal_id_for_email (db : Db D) (email : string) : option N :=
  match find (fun x : N * PrincipalRow D => Str.eqb (pr_email x.2) email) (map_to_list (principal db)) with
  | Some (id, _) => Some id
  | None => None
  end.

Definition route_named (db : Db D) (name : string) : option N :=
  match find (fun x : N * RouteEntry => Str.eqb (rt_name x.2) name) (map_to_list (route db)) with
  | Some (id, _) => Some id
  | None => None
  end.

Definition coalesce {A} (a b : option A) : option A := match a with Some _ => a | None => b end.

(** The hard stop of a new principal is the column's default; a role the
    column's check refuses fails the statement. *)
Definition upsert_principal (hard_stop : D) (id : N) (email role : string) (budget : option D) (db : Db D)
  : result N Error * Db D :=
  let with_row id row :=
    (Ok id, {| api_key := api_key db; principal := <[id := row]> (principal db); route := route db |}) in
  if negb (any (Str.eqb role) ["member"; "admin"]) then
    (Err (Internal "upserting principal: the role check refused it"), db)
  else
  match principal_id_for_email db email with
  | Some found =>
      match principal db !! found with
      | Some p => with_row found {| pr_email := pr_email p; pr_role := pr_role p;
                    pr_budget := coalesce budget (pr_budget p); pr_hard_stop := pr_hard_stop p;
                    pr_active := pr_active p |}
      | None => (Ok found, db)
      end
  | None => with_row id {| pr_email := email; pr_role := role; pr_budget := budget;
                           pr_hard_stop := hard_stop; pr_active := true |}
  end.

Record MintedKey : Type := { mk_id : N; mk_prefix : string; mk_key : string }.

Definition minted_text (raw : list ascii) : string := KEY_PREFIX +:+ Sticky.hex raw.

(** [mint_key], of the bytes and the id it drew.  A hash that is taken breaks
    the table's unique constraint, and the statement fails. *)
Definition mint_key (raw : list ascii) (id : N) (email route_name name : string) (quota : option D)
    (db : Db D) : result (option MintedKey) Error * Db D :=
  let key := minted_text raw in
  let hash := hash_key key in
  match principal_id_for_email db email, route_named db route_name with
  | Some p, Some r =>
      match api_key db !! hash with
      | Some _ => (Err (Internal "minting key: duplicate key value violates unique constraint"), db)
      | None =>
          let row := {| kr_id := id; kr_prefix := loggable_key_prefix key; kr_name := name;
            kr_principal := p; kr_route := r; kr_floor_tier := None; kr_quota := quota;
            kr_active := true; kr_admin := false; kr_expires_at := None |} in
          (Ok (Some {| mk_id := id; mk_prefix := loggable_key_prefix key; mk_key := key |}),
           set_api_key (<[hash := row]> (api_key db)) db)
      end
  | _, _ => (Ok None, db)
  end.

End keys.
End Keys.

(** ** The shared cache's entries *)

(** The packages behind an entry: [serde_json] on an [AuthContext], [hex], and
    HMAC-SHA256. *)
Class AuthCodec (D : Type) := {
  to_json : Known D → option string;
  from_json : string → option (Known D);
  hex_encode : list ascii → string;
  hex_decode : string → option (list ascii);
  hmac_sha256 : list ascii → list ascii → list ascii
}.

(** What is printed reads back, and hexadecimal has no dot in it. *)
Class AuthCodecLaws (D : Type) `{!AuthCodec D} : Prop := {
  json_reads_back c j : to_json c = Some j → from_json j = Some c;
  hex_reads_back l : hex_decode (hex_encode l) = Some l;
  hex_no_dot l : ¬ In "."%char (Str.bytes (hex_encode l))
}.

Module AuthMac.

Definition AUTH_MAC_DOMAIN : string := "oag:auth-cache:v1".
Definition AUTH_ENVELOPE_PREFIX : string := "v1.".
Definition NUL : ascii := Ascii.zero.

(** What [primed] feeds the MAC. *)
Definition message (hash json : string) : list ascii :=
  Str.bytes AUTH_MAC_DOMAIN ++ [NUL] ++ Str.bytes hash ++ [NUL] ++ Str.bytes json.

Section mac.
Context {D : Type} `{!AuthCodec D} (key : list ascii).

Definition primed (hash json : string) : list ascii := hmac_sha256 key (message hash json).

Definition seal (hash : string) (ctx : Known D) : option string :=
  match to_json ctx with
  | Some json => Some (AUTH_ENVELOPE_PREFIX +:+ hex_encode (primed hash json) +:+ "." +:+ json)
  | None => None
  end.

(** The tag and the text it is over, as an entry claims them. *)
Definition parts (sealed : string) : option (list ascii * string) :=
  match Str.strip_prefix sealed AUTH_ENVELOPE_PREFIX with
  | Some rest =>
      match Str.split_once rest "." with
      | Some (tag, json) => match hex_decode tag with Some tag => Some (tag, json) | None => None end
      | None => None
      end
  | None => None
  end.

Definition verifies (tag : list ascii) (hash json : string) : bool := bool_decide (tag = primed hash json).

Definition open (hash sealed : string) : option (Known D) :=
  match parts sealed with
  | Some (tag, json) => if verifies tag hash json then from_json json else None
  | None => None
  end.

End mac.
End AuthMac.

(** ** Redis strings *)

Module Redis.

(** A key's value, and when it goes. *)
Definition Store : Type := gmap string (string * Z).

Definition get (now : Z) (key : string) (s : Store) : option string :=
  match s !! key with
  | Some (value, expires) => if now <? expires then Some value else None
  | None => None
  end.

(** [SETEX]: a lifetime that is not positive is an error, and writes nothing. *)
Definition set_ex (now : Z) (key value : string) (secs : Z) (s : Store) : Store :=
  if 0 <? secs then <[key := (value, now + secs * 1000)]> s else s.

Definition del (key : string) (s : Store) : Store := delete key s.

End Redis.

Definition auth_key (hash : string) : string := "oag:auth:" +:+ hash.

(** ** [auth.rs] *)

Module AuthCache.
Import Keys AuthMac.

Definition L1_TTL : Z := 15 * 1000.
Definition L2_TTL : Z := 5 * 60 * 1000.

Section cache.
Context {D : Type} `{!AuthCodec D} (sha256 : list ascii → list ascii).
(** [security.signing_secret], and how many lookups may be in flight. *)
Context (signing_secret : string) (lookup_permits : nat).
(** How long a lookup may take before whoever waits for it gives up. *)
Context (lag : Z).

Definition mac_key : list ascii := Str.bytes signing_secret.

Definition cacheable_for (ctx : Known D) (now ttl : Z) : option Z :=
  match known_expires_at ctx with
  | None => Some ttl
  | Some expires_at => if expires_at <=? now then None else Some (Z.min ttl (expires_at - now))
  end.

(** Where a load has come to: about to read the shared cache; holding a permit
    to ask the database, with the instant it will bind; with a row to cache;
    about to write it, for so long; done. *)
Inductive Phase : Type :=
  | AtRedis
  | AtDb (asked : Z)
  | AtCap (found : Known D)
  | AtSet (found : Known D) (ttl : Z)
  | Loaded (outcome : result (option (Known D)) Error).

Record Load : Type := { ld_phase : Phase; ld_start : Z; ld_permit : bool }.

Definition moved (ld : Load) (p : Phase) : Load :=
  {| ld_phase := p; ld_start := ld_start ld; ld_permit := ld_permit ld |}.

(** A replica and a hash. *)
Definition Slot : Type := nat * string.

(** Everything a lookup reads or writes, on every replica.  The last three
    fields are kept by nobody: what the database answered and when, what was
    signed, and what callers were told. *)
Record System : Type := {
  now : Z;
  db : Db D;
  redis : Redis.Store;
  l1 : gmap Slot (option (Known D) * Z);
  loads : gmap Slot Load;
  answers : list (Z * Z * string * Known D);
  signed : list (list ascii);
  told : list (Z * string * result (option (Known D)) Error)
}.

Definition set_now t s := {| now := t; db := db s; redis := redis s; l1 := l1 s; loads := loads s;
  answers := answers s; signed := signed s; told := told s |}.
Definition set_db d s := {| now := now s; db := d; redis := redis s; l1 := l1 s; loads := loads s;
  answers := answers s; signed := signed s; told := told s |}.
Definition set_redis r s := {| now := now s; db := db s; redis := r; l1 := l1 s; loads := loads s;
  answers := answers s; signed := signed s; told := told s |}.
Definition set_l1 m s := {| now := now s; db := db s; redis := redis s; l1 := m; loads := loads s;
  answers := answers s; signed := signed s; told := told s |}.
Definition set_loads m s := {| now := now s; db := db s; redis := redis s; l1 := l1 s; loads := m;
  answers := answers s; signed := signed s; told := told s |}.
Definition answer a s := {| now := now s; db := db s; redis := redis s; l1 := l1 s; loads := loads s;
  answers := a :: answers s; signed := signed s; told := told s |}.
Definition sign m s := {| now := now s; db := db s; redis := redis s; l1 := l1 s; loads := loads s;
  answers := answers s; signed := m :: signed s; told := told s |}.
Definition tell h v s := {| now := now s; db := db s; redis := redis s; l1 := l1 s; loads := loads s;
  answers := answers s; signed := signed s; told := (now s, h, v) :: told s |}.

(** What happens, one at a time. *)
Inductive Action : Type :=
  | Tick (later : Z)
  (** any statement of anybody's *)
  | WriteDb (next : Db D)
  (** a request with this key reaches this replica *)
  | Request (replica : nat) (raw : string)
  (** the steps of a load; [ok] says whether Redis or the database answered *)
  | AskRedis (at_ : Slot) (ok : bool)
  | AskDb (at_ : Slot) (ok : bool)
  | Cap (at_ : Slot)
  | SetRedis (at_ : Slot) (ok : bool)
  | Finish (at_ : Slot)
  (** whoever waited is gone *)
  | Abandon (at_ : Slot)
  (** [invalidate_hash] on this replica, its two halves; [invalidate_all]; an
      entry the replica's cache dropped for room *)
  | ForgetL1 (at_ : Slot)
  | Evict (key : string)
  | InvalidateAll (replica : nat)
  (** somebody else writes to Redis *)
  | Tamper (key value : string) (expires : Z).

Definition live (entry : option (option (Known D) * Z)) (now : Z) : option (option (Known D)) :=
  match entry with
  | Some (v, inserted) => if now <? inserted + L1_TTL then Some v else None
  | None => None
  end.

(** The permits a replica's loads hold. *)
Definition permits_out (replica : nat) (s : System) : nat :=
  size (filter (fun x : Slot * Load => x.1.1 = replica ∧ ld_permit x.2 = true) (loads s)).

(** Nobody waits on a load for longer than [lag]. *)
Definition patient (later : Z) (s : System) : bool :=
  bool_decide (map_Forall (fun _ ld => later ≤ ld_start ld + lag) (loads s)).

(** A value that verifies for a key is one whose message was signed. *)
Definition unforged (s : System) (key value : string) : bool :=
  match Str.strip_prefix key "oag:auth:", parts value with
  | Some hash, Some (tag, json) =>
      negb (verifies mac_key tag hash json) || bool_decide (message hash json ∈ signed s)
  | _, _ => true
  end.

Definition at_phase (s : System) (at_ : Slot) (f : Load → option System) : option System :=
  match loads s !! at_ with Some ld => f ld | None => None end.

Definition go (at_ : Slot) (ld : Load) (p : Phase) (s : System) : System :=
  set_loads (<[at_ := moved ld p]> (loads s)) s.

(** The error a waiter sees. *)
Definition load_error (display : Error → string) (e : Error) : Error :=
  match e with Overloaded => Overloaded | other => Internal ("auth lookup: " +:+ display other) end.

Context (display : Error → string).

(** [try_get_with] on this replica: an entry, a load to join, or a new one. *)
Definition request (replica : nat) (raw : string) (s : System) : System :=
  let hash := hash_key sha256 raw in
  match live (l1 s !! (replica, hash)) (now s) with
  | Some v => tell hash (Ok v) s
  | None =>
      match loads s !! (replica, hash) with
      | Some _ => s
      | None => set_loads (<[(replica, hash) :=
          {| ld_phase := AtRedis; ld_start := now s; ld_permit := false |}]> (loads s)) s
      end
  end.

(** [auth_get], and past a miss the permit. *)
Definition ask_redis (at_ : Slot) (ok : bool) (ld : Load) (s : System) : System :=
  let hit := if ok then
      match Redis.get (now s) (auth_key at_.2) (redis s) with
      | Some raw => open mac_key at_.2 raw
      | None => None
      end else None in
  match hit with
  | Some ctx => go at_ ld (Loaded (Ok (Some ctx))) s
  | None =>
      if (permits_out at_.1 s <? Nat.max 1 lookup_permits)%nat then
        set_loads (<[at_ := {| ld_phase := AtDb (now s); ld_start := ld_start ld; ld_permit := true |}]> (loads s)) s
      else go at_ ld (Loaded (Err Overloaded)) s
  end.

Definition ask_db (at_ : Slot) (ok : bool) (asked : Z) (ld : Load) (s : System) : System :=
  if ok then
    match Keys.authenticate (db s) at_.2 asked with
    | Some ctx => go at_ ld (AtCap ctx) (answer (now s, asked, at_.2, ctx) s)
    | None => go at_ ld (Loaded (Ok None)) s
    end
  else go at_ ld (Loaded (Err (Internal "authenticating"))) s.

Definition cap (at_ : Slot) (ctx : Known D) (ld : Load) (s : System) : System :=
  match cacheable_for ctx (now s) L2_TTL with
  | Some ttl => go at_ ld (AtSet ctx ttl) s
  | None => go at_ ld (Loaded (Ok (Some ctx))) s
  end.

(** [auth_set], best effort. *)
Definition set_l2 (at_ : Slot) (ok : bool) (ctx : Known D) (ttl : Z) (ld : Load) (s : System) : System :=
  let done s := go at_ ld (Loaded (Ok (Some ctx))) s in
  match seal mac_key at_.2 ctx, to_json ctx with
  | Some sealed, Some json =>
      if ok then
        done (sign (message at_.2 json)
          (set_redis (Redis.set_ex (now s) (auth_key at_.2) sealed (ttl / 1000) (redis s)) s))
      else done s
  | _, _ => done s
  end.

Definition finish (at_ : Slot) (outcome : result (option (Known D)) Error) (s : System) : System :=
  let s := set_loads (delete at_ (loads s)) s in
  match outcome with
  | Ok v => tell at_.2 (Ok v) (set_l1 (<[at_ := (v, now s)]> (l1 s)) s)
  | Err e => tell at_.2 (Err (load_error display e)) s
  end.

Definition act (a : Action) (s : System) : option System :=
  match a with
  | Tick later => if (now s <=? later) && patient later s then Some (set_now later s) else None
  | WriteDb next => Some (set_db next s)
  | Request replica raw => Some (request replica raw s)
  | AskRedis at_ ok =>
      at_phase s at_ (fun ld => match ld_phase ld with AtRedis => Some (ask_redis at_ ok ld s) | _ => None end)
  | AskDb at_ ok =>
      at_phase s at_ (fun ld => match ld_phase ld with AtDb asked => Some (ask_db at_ ok asked ld s) | _ => None end)
  | Cap at_ =>
      at_phase s at_ (fun ld => match ld_phase ld with AtCap ctx => Some (cap at_ ctx ld s) | _ => None end)
  | SetRedis at_ ok =>
      at_phase s at_ (fun ld => match ld_phase ld with
                                | AtSet ctx ttl => Some (set_l2 at_ ok ctx ttl ld s) | _ => None end)
  | Finish at_ =>
      at_phase s at_ (fun ld => match ld_phase ld with Loaded r => Some (finish at_ r s) | _ => None end)
  | Abandon at_ => Some (set_loads (delete at_ (loads s)) s)
  | ForgetL1 at_ => Some (set_l1 (delete at_ (l1 s)) s)
  | Evict key => Some (set_redis (Redis.del key (redis s)) s)
  | InvalidateAll replica =>
      Some (set_l1 (filter (fun x : Slot * (option (Known D) * Z) => x.1.1 ≠ replica) (l1 s)) s)
  | Tamper key value expires =>
      if unforged s key value then Some (set_redis (<[key := (value, expires)]> (redis s)) s) else None
  end.

Fixpoint run (acts : list Action) (s : System) : option System :=
  match acts with
  | [] => Some s
  | a :: acts => match act a s with Some s => run acts s | None => None end
  end.

Definition fresh (t : Z) (d : Db D) : System :=
  {| now := t; db := d; redis := ∅; l1 := ∅; loads := ∅; answers := []; signed := []; told := [] |}.

End cache.
Arguments System : clear implicits.
Arguments Action : clear implicits.
Arguments Load : clear implicits.
Arguments Phase : clear implicits.
End AuthCache.

(** ** Lemmas *)

Module IdentityLemmas.
Import Keys AuthMac AuthCache.

Lemma hex_chars l c : In c (Str.bytes (Sticky.hex l)) → Str.is_ascii_alphanumeric c = true.
Proof.
  unfold Sticky.hex. enough (∀ acc, (∀ c, In c (Str.bytes acc) → Str.is_ascii_alphanumeric c = true) →
    ∀ c, In c (Str.bytes (fold_left (fun acc b => acc +:+ Names.hex 2 (Str.code b)) l acc)) →
    Str.is_ascii_alphanumeric c = true) as H by (apply H; intros ? []).
  induction l as [|b l IH]; intros acc Hacc; [exact Hacc|]. cbn [fold_left]. apply IH.
  intros d. rewrite Str.bytes_app, in_app_iff. intros [Hd|Hd]; [by apply Hacc|].
  by apply (proj2 (Names.hex_spec 2 (Str.code b))).
Qed.

Lemma hash_no_nul sha256 raw : ¬ In NUL (Str.bytes (hash_key sha256 raw)).
Proof. intros H%hex_chars. done. Qed.

Lemma split_at_nul a b a' b' :
  ¬ In NUL a → ¬ In NUL a' → a ++ NUL :: b = a' ++ NUL :: b' → a = a' ∧ b = b'.
Proof.
  revert a'; induction a as [|x a IH]; intros [|y a'] Ha Ha' H; cbn in *.
  - injection H as ->. done.
  - injection H as <- _. exfalso. apply Ha'. by left.
  - injection H as -> _. exfalso. apply Ha. by left.
  - injection H as -> H. apply IH in H as [-> ->]; [done| |]; intros Hin; [apply Ha|apply Ha']; by right.
Qed.

(** The framing is unambiguous. *)
Lemma message_inj h j h' j' :
  ¬ In NUL (Str.bytes h) → ¬ In NUL (Str.bytes h') → message h j = message h' j' → h = h' ∧ j = j'.
Proof.
  intros Hh Hh' H. unfold message in H. apply app_inv_head in H. cbn [app] in H. injection H as H.
  apply split_at_nul in H as [H1 H2]; [|done..]. split; by apply Str.bytes_inj.
Qed.

Lemma auth_key_inj h h' : auth_key h = auth_key h' → h = h'.
Proof. apply Str.append_inj_l. Qed.

Lemma strip_auth_key h : Str.strip_prefix (auth_key h) "oag:auth:" = Some h.
Proof. by apply Str.strip_prefix_Some. Qed.

(** An identity the database gives has not expired. *)
Lemma authenticate_live {D} (d : Db D) h asked c x :
  authenticate d h asked = Some c → known_expires_at c = Some x → asked < x.
Proof.
  unfold authenticate. destruct (api_key d !! h) as [k|]; [|done].
  destruct (principal d !! kr_principal k) as [p|]; [|done]. destruct (route d !! kr_route k) as [r|]; [|done].
  destruct (_ && _) eqn:Hc; [|done]. intros Heq. injection Heq as <-. cbn. intros Hx. rewrite Hx in Hc.
  by apply andb_true_iff in Hc as [_ Hc%Z.ltb_lt].
Qed.

Section mac.
Context {D : Type} `{HL : AuthCodecLaws D} (key : list ascii).

Lemma parts_seal h c v :
  seal key h c = Some v → ∃ j, to_json c = Some j ∧ parts v = Some (primed key h j, j).
Proof using HL.
  unfold seal. destruct (to_json c) as [j|] eqn:Hj; [|done]. intros Heq. injection Heq as <-.
  exists j. split; [done|]. unfold parts.
  replace (Str.strip_prefix _ _) with (Some (hex_encode (primed key h j) +:+ "." +:+ j))
    by (symmetry; by apply Str.strip_prefix_Some).
  assert (Str.split_once (hex_encode (primed key h j) +:+ "." +:+ j) "." = Some (hex_encode (primed key h j), j))
    as ->; [|by rewrite hex_reads_back].
  pose proof (hex_no_dot (primed key h j)) as Hd. revert Hd. generalize (hex_encode (primed key h j)) as s.
  induction s as [|x s IH]; intros Hd; [done|].
  change ((String x s +:+ "." +:+ j)) with (String x (s +:+ "." +:+ j)). cbn [Str.split_once].
  destruct (Ascii.eqb_spec x "."); [subst; exfalso; apply Hd; by left|]. rewrite IH; [done|].
  intros Hin. apply Hd. by right.
Qed.

Lemma open_message h v c :
  open key h v = Some c → ∃ j, parts v = Some (primed key h j, j) ∧ from_json j = Some c.
Proof.
  unfold open. destruct (parts v) as [[tag j]|]; [|done]. unfold verifies.
  case_bool_decide as Ht; [|done]. subst tag. eauto.
Qed.

(** An entry opens under the hash it was sealed for, as what was sealed. *)
Lemma open_seal h c v : seal key h c = Some v → open key h v = Some c.
Proof using HL.
  intros (j & Hj & Hp)%parts_seal. unfold open, verifies. rewrite Hp, bool_decide_true by done.
  by eapply json_reads_back.
Qed.

End mac.
End IdentityLemmas.

(** ** Where an identity came from *)

Module Provenance.
Import Keys AuthMac AuthCache IdentityLemmas.

Section provenance.
Context {D : Type} `{HL : AuthCodecLaws D} (sha256 : list ascii → list ascii).
Context (signing_secret : string) (lookup_permits : nat) (lag : Z) (display : Error → string).

Abbreviation act := (act sha256 signing_secret lookup_permits lag display).
Abbreviation run := (run sha256 signing_secret lookup_permits lag display).
Abbreviation mac := (mac_key signing_secret).

Definition answered (s : System D) (h : string) (c : Known D) : Prop :=
  ∃ t asked, (t, asked, h, c) ∈ answers s.

Definition hashed (h : string) : Prop := ∃ raw, h = hash_key sha256 raw.

(** The identity a load carries. *)
Definition carries (p : Phase D) : option (Known D) :=
  match p with
  | AtCap c | AtSet c _ | Loaded (Ok (Some c)) => Some c
  | _ => None
  end.

Record provenance (s : System D) : Prop := {
  p_l1 : ∀ r h c ins, l1 s !! (r, h) = Some (Some c, ins) → answered s h c;
  p_load : ∀ r h ld, loads s !! (r, h) = Some ld →
    hashed h ∧ ∀ c, carries (ld_phase ld) = Some c → answered s h c;
  p_redis : ∀ h v e c, hashed h → redis s !! auth_key h = Some (v, e) → open mac h v = Some c → answered s h c;
  p_signed : ∀ h j, hashed h → message h j ∈ signed s → ∃ c, to_json c = Some j ∧ answered s h c;
  p_told : ∀ t h c, (t, h, Ok (Some c)) ∈ told s → answered s h c
}.

Lemma hashed_no_nul h : hashed h → ¬ In NUL (Str.bytes h).
Proof. intros [raw ->]. apply hash_no_nul. Qed.

(** [s'] knows every answer [s] does. *)
Definition knows (s s' : System D) : Prop := ∀ h c, answered s h c → answered s' h c.

(** Nothing but the loads moves. *)
Lemma provenance_loads s m :
  provenance s →
  (∀ r h ld, m !! (r, h) = Some ld → hashed h ∧ ∀ c, carries (ld_phase ld) = Some c → answered s h c) →
  provenance (set_loads m s).
Proof. intros [H1 _ H3 H4 H5] Hm. by split. Qed.

Lemma provenance_load s r h ld :
  provenance s → hashed h → (∀ c, carries (ld_phase ld) = Some c → answered s h c) →
  provenance (set_loads (<[(r, h) := ld]> (loads s)) s).
Proof.
  intros Hp Hh Hc. apply provenance_loads; [done|]. intros r' h' ld'.
  destruct (decide ((r, h) = (r', h'))) as [Heq|Hne].
  - rewrite Heq, lookup_insert_eq. intros H. injection H as <-. injection Heq as <- <-. by split.
  - rewrite lookup_insert_ne by done. by apply p_load.
Qed.

Lemma provenance_unload s at_ : provenance s → provenance (set_loads (delete at_ (loads s)) s).
Proof. intros Hp. apply provenance_loads; [done|]. intros r h ld [_ H]%lookup_delete_Some. by apply Hp in H. Qed.

Lemma provenance_tell s h v :
  provenance s → (∀ c, v = Ok (Some c) → answered s h c) → provenance (tell h v s).
Proof.
  intros [H1 H2 H3 H4 H5] Hv. split; try done. intros t h' c [Heq|Hin]%elem_of_cons; [|by eapply H5].
  injection Heq as _ -> <-. by apply Hv.
Qed.

Lemma provenance_l1 s at_ v ins :
  provenance s → (∀ c, v = Some c → answered s at_.2 c) →
  provenance (set_l1 (<[at_ := (v, ins)]> (l1 s)) s).
Proof.
  intros [H1 H2 H3 H4 H5] Hv. split; try done. intros r h c ins' Hl. cbn in Hl.
  apply lookup_insert_Some in Hl as [[-> Heq]|[_ Hl]]; [|by eapply H1]. injection Heq as -> _. by apply Hv.
Qed.

Lemma provenance_forget s m :
  provenance s → m ⊆ l1 s → provenance (set_l1 m s).
Proof.
  intros [H1 H2 H3 H4 H5] Hm. split; try done. intros r h c ins Hl. eapply H1, lookup_weaken; [exact Hl|exact Hm].
Qed.

Lemma provenance_redis s m :
  provenance s →
  (∀ h v e c, hashed h → m !! auth_key h = Some (v, e) → open mac h v = Some c → answered s h c) →
  provenance (set_redis m s).
Proof. intros [H1 H2 H3 H4 H5] Hm. by split. Qed.

Lemma provenance_answer s a : provenance s → provenance (answer a s).
Proof.
  intros [H1 H2 H3 H4 H5]. assert (knows s (answer a s)) as Hk.
  { intros h c (t & asked & Hin). exists t, asked. by right. }
  split; cbn; [eauto| |eauto| |eauto].
  - intros r h ld Hl. destruct (H2 r h ld Hl) as [? Hc]. split; [done|]. eauto.
  - intros h j Hh Hin. destruct (H4 h j Hh Hin) as (c & ? & ?). eauto.
Qed.

Lemma provenance_sign s h c j :
  provenance s → hashed h → to_json c = Some j → answered s h c → provenance (sign (message h j) s).
Proof.
  intros [H1 H2 H3 H4 H5] Hh Hj Ha. split; try done. intros h' j' Hh' [Heq|Hin]%elem_of_cons; [|by apply H4].
  apply message_inj in Heq as [-> ->]; [|by apply hashed_no_nul..]. by exists c.
Qed.

Lemma provenance_request r raw s :
  provenance s → provenance (request sha256 r raw s).
Proof.
  intros Hp. unfold request. destruct (live _ _) as [v|] eqn:Hl.
  - apply provenance_tell; [done|]. intros c Heq. injection Heq as ->. unfold live in Hl.
    destruct (l1 s !! _) as [[v ins]|] eqn:Hs; [|done]. destruct (_ <? _); [|done]. injection Hl as ->.
    by eapply p_l1.
  - destruct (loads s !! _); [done|]. apply provenance_load; [done|by exists raw|done].
Qed.

Lemma provenance_ask_redis at_ ok ld s :
  provenance s → loads s !! at_ = Some ld →
  provenance (ask_redis signing_secret lookup_permits at_ ok ld s).
Proof.
  intros Hp Hl. destruct at_ as [r h]. destruct (p_load _ Hp _ _ _ Hl) as [Hh _]. unfold ask_redis, go. cbn [snd].
  destruct (if ok then _ else None) as [c|] eqn:Hit.
  - apply provenance_load; [done..|]. cbn. intros c' Heq. injection Heq as <-.
    destruct ok; [|done]. unfold Redis.get in Hit. destruct (redis s !! _) as [[v e]|] eqn:Hr; [|done].
    destruct (_ <? _); [|done]. by eapply p_redis.
  - destruct (_ <? _)%nat; by apply provenance_load.
Qed.

Lemma provenance_ask_db at_ ok asked ld s :
  provenance s → loads s !! at_ = Some ld → provenance (ask_db at_ ok asked ld s).
Proof.
  intros Hp Hl. destruct at_ as [r h]. destruct (p_load _ Hp _ _ _ Hl) as [Hh _]. unfold ask_db, go. cbn [snd].
  destruct ok; [|by apply provenance_load].
  destruct (authenticate _ _ _) as [c|]; [|by apply provenance_load].
  apply provenance_load; [by apply provenance_answer|done|]. cbn. intros c' Heq. injection Heq as <-.
  exists (now s), asked. by left.
Qed.

Lemma provenance_cap at_ c ld s :
  provenance s → loads s !! at_ = Some ld → ld_phase ld = AtCap c → provenance (cap at_ c ld s).
Proof.
  intros Hp Hl Hph. destruct at_ as [r h]. destruct (p_load _ Hp _ _ _ Hl) as [Hh Hc].
  specialize (Hc c). rewrite Hph in Hc. specialize (Hc eq_refl). unfold cap, go.
  destruct (cacheable_for _ _ _); (apply provenance_load; [done..|]; cbn; congruence).
Qed.

Lemma provenance_set_l2 at_ ok c ttl ld s :
  provenance s → loads s !! at_ = Some ld → ld_phase ld = AtSet c ttl →
  provenance (set_l2 signing_secret at_ ok c ttl ld s).
Proof using HL.
  intros Hp Hl Hph. destruct at_ as [r h]. destruct (p_load _ Hp _ _ _ Hl) as [Hh Hc].
  specialize (Hc c). rewrite Hph in Hc. specialize (Hc eq_refl). unfold set_l2, go. cbn [snd].
  assert (∀ s', provenance s' → answered s' h c → loads s' = loads s →
    provenance (set_loads (<[(r, h) := moved ld (Loaded (Ok (Some c)))]> (loads s')) s')) as Hdone.
  { intros s' Hp' Ha _. apply provenance_load; [done..|]. cbn. congruence. }
  destruct (seal _ _ _) as [v|] eqn:Hv; [|by apply Hdone].
  destruct (to_json c) as [j|] eqn:Hj; [|by apply Hdone]. destruct ok; [|by apply Hdone].
  apply Hdone; [|done|done]. apply (provenance_sign _ h c); [|done..].
  apply provenance_redis; [done|]. intros h' v' e c' Hh' Hr Ho. unfold Redis.set_ex in Hr.
  destruct (_ <? _); [|by eapply p_redis].
  apply lookup_insert_Some in Hr as [[Heq Hval]|[_ Hr]]; [|by eapply p_redis].
  apply auth_key_inj in Heq as <-. injection Hval as <- _. rewrite (open_seal _ _ _ _ Hv) in Ho.
  injection Ho as <-. done.
Qed.

Lemma provenance_finish at_ r s ld :
  provenance s → loads s !! at_ = Some ld → ld_phase ld = Loaded r → provenance (finish display at_ r s).
Proof.
  intros Hp Hl Hph. destruct at_ as [i h]. destruct (p_load _ Hp _ _ _ Hl) as [Hh Hc]. rewrite Hph in Hc.
  unfold finish. cbn [snd]. pose proof (provenance_unload s (i, h) Hp) as Hu. destruct r as [v|e].
  - assert (∀ c, v = Some c → answered s h c) as Hv by (intros c ->; by apply Hc).
    apply provenance_tell; [|intros c Heq; injection Heq as ->; by apply Hv].
    by apply provenance_l1.
  - apply provenance_tell; [done|]. unfold load_error. by destruct e.
Qed.

(** What an outsider writes opens only as something that was signed. *)
Lemma provenance_tamper k v e s :
  provenance s → unforged signing_secret s k v = true →
  provenance (set_redis (<[k := (v, e)]> (redis s)) s).
Proof using HL.
  intros Hp Hu. apply provenance_redis; [done|]. intros h v' e' c Hh Hr Ho.
  apply lookup_insert_Some in Hr as [[-> Hval]|[_ Hr]]; [|by eapply p_redis]. injection Hval as <- _.
  destruct (open_message _ _ _ _ Ho) as (j & Hparts & Hj). unfold unforged in Hu.
  rewrite strip_auth_key, Hparts in Hu. unfold verifies in Hu. rewrite (bool_decide_true (primed _ _ _ = _)) in Hu by done.
  apply bool_decide_eq_true in Hu. destruct (p_signed _ Hp h j Hh Hu) as (c' & Hc' & Ha).
  apply json_reads_back in Hc'. congruence.
Qed.

Lemma provenance_act a s s' : provenance s → act a s = Some s' → provenance s'.
Proof using HL.
  intros Hp. unfold AuthCache.act, at_phase. destruct a.
  1, 2, 3: destruct (_ && _) || idtac; try done; intros H; injection H as <-; try (by destruct Hp); by apply provenance_request.
  1-5: destruct (loads s !! at_) as [ld|] eqn:Hl; [|done]; destruct (ld_phase ld) eqn:Hph; try done; intros H; injection H as <-.
  - by apply provenance_ask_redis.
  - by apply provenance_ask_db.
  - by eapply provenance_cap.
  - by eapply provenance_set_l2.
  - by eapply provenance_finish.
  - intros H; injection H as <-. by apply provenance_unload.
  - intros H; injection H as <-. apply provenance_forget; [done|]. apply delete_subseteq.
  - intros H; injection H as <-. apply provenance_redis; [done|]. intros h v e c Hh Hr.
    unfold Redis.del in Hr. apply lookup_delete_Some in Hr as [_ Hr]. by eapply p_redis.
  - intros H; injection H as <-. apply provenance_forget; [done|]. apply map_filter_subseteq.
  - destruct (unforged _ _ _ _) eqn:Hu; [|done]. intros H; injection H as <-. by apply provenance_tamper.
Qed.

Lemma provenance_run acts s s' : provenance s → run acts s = Some s' → provenance s'.
Proof using HL.
  revert s; induction acts as [|a acts IH]; intros s Hp; cbn; [intros H; by injection H as <-|].
  destruct (act a s) as [s1|] eqn:Ha; [|done]. apply IH. by eapply provenance_act.
Qed.

Lemma provenance_fresh t d : provenance (fresh t d).
Proof. split; cbn; intros *; rewrite ?lookup_empty; try done; intros; match goal with H : _ ∈ [] |- _ => by apply not_elem_of_nil in H end. Qed.

End provenance.
End Provenance.

(** ** How long an identity lasts *)

Module Ageing.
Import Keys AuthMac AuthCache IdentityLemmas Provenance.

Section ageing.
Context {D : Type} `{HL : AuthCodecLaws D} (sha256 : list ascii → list ascii).
Context (signing_secret : string) (lookup_permits : nat) (lag : Z) (display : Error → string).
Context (Hlag : 0 ≤ lag).

Abbreviation act := (act sha256 signing_secret lookup_permits lag display).
Abbreviation run := (run sha256 signing_secret lookup_permits lag display).
Abbreviation mac := (mac_key signing_secret).

(** Before the key's expiry, or it has none. *)
Definition by_expiry (c : Known D) (slack t : Z) : Prop :=
  ∀ x, known_expires_at c = Some x → t < x + slack.

(** The database answered [c] for [h] so lately that [t] is within [age] of it,
    and [t] is within [slack] of the key's expiry. *)
Definition recent (s : System D) (h : string) (c : Known D) (age slack t : Z) : Prop :=
  (∃ t0 asked, (t0, asked, h, c) ∈ answers s ∧ t < t0 + age) ∧ by_expiry c slack t.

(** A load's own database answer: after it began. *)
Definition fetched (s : System D) (h : string) (c : Known D) (start : Z) : Prop :=
  (∃ t0 asked, (t0, asked, h, c) ∈ answers s ∧ start ≤ t0) ∧ by_expiry c 0 start.

Definition phase_ok (s : System D) (h : string) (start : Z) (p : Phase D) : Prop :=
  match p with
  | AtRedis => True
  | AtDb asked => start ≤ asked
  | AtCap c => fetched s h c start
  | AtSet c ttl => fetched s h c start ∧ ttl ≤ L2_TTL
      ∧ ∀ x, known_expires_at c = Some x → ttl ≤ x - start
  | Loaded (Ok (Some c)) => recent s h c (L2_TTL + lag) lag start
  | Loaded _ => True
  end.

Record aged (s : System D) : Prop := {
  a_load : ∀ at_ ld, loads s !! at_ = Some ld →
    ld_start ld ≤ now s ≤ ld_start ld + lag ∧ phase_ok s at_.2 (ld_start ld) (ld_phase ld);
  a_redis : ∀ h v e c, redis s !! auth_key h = Some (v, e) → open mac h v = Some c →
    recent s h c (L2_TTL + lag + 1) (lag + 1) e;
  a_l1 : ∀ at_ c ins, l1 s !! at_ = Some (Some c, ins) →
    recent s at_.2 c (L2_TTL + 2 * lag) (2 * lag) ins;
  a_told : ∀ t h c, (t, h, Ok (Some c)) ∈ told s →
    recent s h c (L1_TTL + L2_TTL + 2 * lag) (L1_TTL + 2 * lag) t
}.

Lemma by_expiry_mono c k k' t t' : by_expiry c k t → t' - t ≤ k' - k → by_expiry c k' t'.
Proof. intros H Hk x Hx. specialize (H x Hx). lia. Qed.

Lemma recent_mono s s' h c a a' k k' t t' :
  recent s h c a k t → (∀ e, e ∈ answers s → e ∈ answers s') → t' - t ≤ a' - a → t' - t ≤ k' - k →
  recent s' h c a' k' t'.
Proof.
  intros [(t0 & asked & Hin & Hlt) Hx] Hs Ha Hk. split; [|by eapply by_expiry_mono].
  exists t0, asked. split; [by apply Hs|lia].
Qed.

Lemma phase_ok_mono s s' h start p :
  phase_ok s h start p → (∀ e, e ∈ answers s → e ∈ answers s') → phase_ok s' h start p.
Proof.
  intros Hp Hs. assert (∀ c, fetched s h c start → fetched s' h c start) as Hf.
  { intros c [(t0 & asked & Hin & Hle) Hx]. split; [|done]. exists t0, asked. split; [by apply Hs|done]. }
  destruct p as [| |c|c ttl|[[c|]|]]; cbn in *; try done.
  - by apply Hf.
  - destruct Hp as (? & ? & ?). by split_and!; [apply Hf|..].
  - eapply recent_mono; [exact Hp|done|lia|lia].
Qed.

(** A state that differs from an aged one in no clock, cache or report. *)
Lemma aged_loads s m :
  aged s →
  (∀ at_ ld, m !! at_ = Some ld →
     ld_start ld ≤ now s ≤ ld_start ld + lag ∧ phase_ok s at_.2 (ld_start ld) (ld_phase ld)) →
  aged (set_loads m s).
Proof. intros [_ H2 H3 H4] Hm. by split. Qed.

Lemma aged_load s at_ ld p :
  aged s → loads s !! at_ = Some ld → phase_ok s at_.2 (ld_start ld) p → aged (go at_ ld p s).
Proof.
  intros Ha Hl Hp. apply aged_loads; [done|]. intros at' ld' [[<- <-]|[_ H]]%lookup_insert_Some; [|by apply a_load].
  cbn. split; [|done]. by apply (a_load _ Ha at_ ld).
Qed.

Lemma aged_unload s at_ : aged s → aged (set_loads (delete at_ (loads s)) s).
Proof. intros Ha. apply aged_loads; [done|]. intros at' ld' [_ H]%lookup_delete_Some. by apply a_load. Qed.

Lemma aged_tell s h v :
  aged s → (∀ c, v = Ok (Some c) → recent s h c (L1_TTL + L2_TTL + 2 * lag) (L1_TTL + 2 * lag) (now s)) →
  aged (tell h v s).
Proof.
  intros [H1 H2 H3 H4] Hv. split; try done. intros t h' c [Heq|Hin]%elem_of_cons; [|by eapply H4].
  injection Heq as -> -> <-. by apply Hv.
Qed.

Lemma aged_forget s m : aged s → m ⊆ l1 s → aged (set_l1 m s).
Proof. intros [H1 H2 H3 H4] Hm. split; try done. intros at_ c ins Hl. eapply H3, lookup_weaken; [exact Hl|exact Hm]. Qed.

Lemma aged_redis s m :
  aged s → (∀ h v e c, m !! auth_key h = Some (v, e) → open mac h v = Some c →
    recent s h c (L2_TTL + lag + 1) (lag + 1) e) → aged (set_redis m s).
Proof. intros [H1 H2 H3 H4] Hm. by split. Qed.

Lemma aged_answers s a : aged s → aged (answer a s).
Proof.
  intros [H1 H2 H3 H4]. assert (∀ e, e ∈ answers s → e ∈ answers (answer a s)) as Hs by (intros e He; by right).
  split.
  - intros at_ ld Hl. destruct (H1 at_ ld Hl) as [Ht Hp]. split; [done|]. by eapply phase_ok_mono.
  - intros h v e c Hr Ho. eapply recent_mono; [by eapply H2|done|lia|lia].
  - intros at_ c ins Hl. eapply recent_mono; [by eapply H3|done|lia|lia].
  - intros t h c Hin. eapply recent_mono; [by eapply H4|done|lia|lia].
Qed.

Lemma aged_sign s m : aged s → aged (sign m s).
Proof. intros [H1 H2 H3 H4]. by split. Qed.

Lemma aged_tick s later :
  aged s → now s ≤ later → patient lag later s = true → aged (set_now later s).
Proof.
  intros [H1 H2 H3 H4] Hl Hp. split; try done. intros at_ ld Hld.
  apply bool_decide_eq_true in Hp. specialize (Hp _ _ Hld). cbn in Hp. destruct (H1 at_ ld Hld). split; [cbn; lia|done].
Qed.

Lemma aged_request r raw s : aged s → aged (request sha256 r raw s).
Proof using Hlag.
  intros Ha. unfold request. destruct (live _ _) as [v|] eqn:Hl.
  - apply aged_tell; [done|]. intros c Heq. injection Heq as ->. unfold live in Hl.
    destruct (l1 s !! _) as [[v ins]|] eqn:Hs; [|done]. destruct (now s <? ins + L1_TTL) eqn:Ht; [|done].
    injection Hl as ->. apply Z.ltb_lt in Ht.
    pose proof (a_l1 _ Ha (r, hash_key sha256 raw) c ins Hs) as Hrec. eapply recent_mono; [exact Hrec|done|lia|lia].
  - destruct (loads s !! _); [done|]. apply aged_loads; [done|].
    intros at' ld' [[<- <-]|[_ H]]%lookup_insert_Some; [cbn; split; [lia|done]|by apply a_load].
Qed.

Lemma aged_ask_redis at_ ok ld s :
  aged s → loads s !! at_ = Some ld → aged (ask_redis signing_secret lookup_permits at_ ok ld s).
Proof.
  intros Ha Hl. destruct (a_load _ Ha _ _ Hl) as [Ht _]. unfold ask_redis.
  destruct (if ok then _ else None) as [c|] eqn:Hit.
  - apply aged_load; [done..|]. cbn. destruct ok; [|done]. unfold Redis.get in Hit.
    destruct (redis s !! _) as [[v e]|] eqn:Hr; [|done]. destruct (now s <? e) eqn:He; [|done]. apply Z.ltb_lt in He.
    eapply recent_mono; [by eapply (a_redis _ Ha)|done|lia|lia].
  - destruct (_ <? _)%nat; [|by apply aged_load]. apply aged_loads; [done|].
    intros at' ld' [[<- <-]|[_ H]]%lookup_insert_Some; [cbn; lia|by apply a_load].
Qed.

Lemma aged_ask_db at_ ok asked ld s :
  aged s → loads s !! at_ = Some ld → ld_phase ld = AtDb asked → aged (ask_db at_ ok asked ld s).
Proof.
  intros Ha Hl Hph. destruct (a_load _ Ha _ _ Hl) as [Ht Hp]. rewrite Hph in Hp. cbn in Hp. unfold ask_db.
  destruct ok; [|by apply aged_load]. destruct (authenticate _ _ _) as [c|] eqn:Hdb; [|by apply aged_load].
  apply aged_load; [by apply aged_answers|done|]. split.
  - exists (now s), asked. split; [by left|lia].
  - intros x Hx. pose proof (authenticate_live _ _ _ _ _ Hdb Hx). lia.
Qed.

Lemma aged_cap at_ c ld s :
  aged s → loads s !! at_ = Some ld → ld_phase ld = AtCap c → aged (cap at_ c ld s).
Proof using Hlag.
  intros Ha Hl Hph. destruct (a_load _ Ha _ _ Hl) as [Ht Hp]. rewrite Hph in Hp. cbn in Hp. unfold cap, cacheable_for.
  assert (recent s at_.2 c (L2_TTL + lag) lag (ld_start ld)) as Hr.
  { destruct Hp as [(t0 & asked & Hin & Hle) Hx]. split; [exists t0, asked; split; [done|unfold L2_TTL; lia]|].
    eapply by_expiry_mono; [exact Hx|lia]. }
  destruct (known_expires_at c) as [x|] eqn:Hx.
  - destruct (x <=? now s) eqn:Hn; [by apply aged_load|]. apply aged_load; [done..|]. cbn. split_and!; [done|lia|].
    intros x' Hx'. assert (x' = x) as -> by congruence. lia.
  - apply aged_load; [done..|]. cbn. split_and!; [done|lia|]. intros x' Hx'. congruence.
Qed.

Lemma aged_set_l2 at_ ok c ttl ld s :
  aged s → loads s !! at_ = Some ld → ld_phase ld = AtSet c ttl → aged (set_l2 signing_secret at_ ok c ttl ld s).
Proof using HL Hlag.
  intros Ha Hl Hph. destruct (a_load _ Ha _ _ Hl) as [Ht Hp]. rewrite Hph in Hp. cbn in Hp.
  destruct Hp as (Hf & Httl & Hexp). unfold set_l2. destruct Hf as [(t0 & asked & Hin & Hle) Hx].
  assert (∀ s', aged s' → answers s' = answers s → loads s' = loads s → aged (go at_ ld (Loaded (Ok (Some c))) s')) as Hd.
  { intros s' Ha' Hs Hls. apply aged_load; [done|by rewrite Hls|]. cbn. split.
    - exists t0, asked. rewrite Hs. split; [done|unfold L2_TTL; lia].
    - eapply by_expiry_mono; [exact Hx|lia]. }
  destruct (seal _ _ _) as [v|] eqn:Hv; [|by apply Hd]. destruct (to_json c) as [j|]; [|by apply Hd].
  destruct ok; [|by apply Hd]. apply Hd; [|done..]. apply aged_sign, aged_redis; [done|].
  intros h v' e c' Hr Ho. unfold Redis.set_ex in Hr. destruct (_ <? _); [|by eapply (a_redis _ Ha)].
  apply lookup_insert_Some in Hr as [[Heq Hval]|[_ Hr]]; [|by eapply (a_redis _ Ha)].
  apply auth_key_inj in Heq as <-. injection Hval as <- <-. rewrite (open_seal _ _ _ _ Hv) in Ho.
  injection Ho as <-. pose proof (Z.mul_div_le ttl 1000 ltac:(lia)). split.
  - exists t0, asked. split; [done|lia].
  - intros x Hxx. specialize (Hexp x Hxx). lia.
Qed.

Lemma aged_finish at_ r s ld :
  aged s → loads s !! at_ = Some ld → ld_phase ld = Loaded r → aged (finish display at_ r s).
Proof using Hlag.
  intros Ha Hl Hph. destruct (a_load _ Ha _ _ Hl) as [Ht Hp]. rewrite Hph in Hp. unfold finish.
  pose proof (aged_unload s at_ Ha) as Hu. destruct r as [v|e].
  - assert (∀ c, v = Some c → recent s at_.2 c (L2_TTL + 2 * lag) (2 * lag) (now s)) as Hv.
    { intros c ->. eapply recent_mono; [exact Hp|done|lia|lia]. }
    apply aged_tell.
    + destruct Hu as [H1 H2 H3 H4]. split; try done. intros at' c ins Hl1. cbn in Hl1.
      apply lookup_insert_Some in Hl1 as [[<- Heq]|[_ Hl1]]; [|by eapply H3]. injection Heq as -> <-. by apply Hv.
    + intros c Heq. injection Heq as ->.
      eapply recent_mono; [by apply Hv|done|cbn [now set_l1 set_loads]; unfold L1_TTL; lia..].
  - apply aged_tell; [done|]. unfold load_error. by destruct e.
Qed.

(** Nobody else writes to Redis. *)
Definition untampered (a : Action D) : Prop := match a with Tamper _ _ _ => False | _ => True end.

Lemma aged_act a s s' : untampered a → aged s → act a s = Some s' → aged s'.
Proof using HL Hlag.
  intros Hu Ha. unfold AuthCache.act, at_phase. destruct a; try done.
  1: destruct (_ && _) eqn:Hc; [|done]; intros H; injection H as <-; bool_to_prop; by apply aged_tick.
  1: intros H; injection H as <-; by destruct Ha.
  1: intros H; injection H as <-; by apply aged_request.
  1-5: destruct (loads s !! at_) as [ld|] eqn:Hl; [|done]; destruct (ld_phase ld) eqn:Hph; try done; intros H; injection H as <-.
  - by apply aged_ask_redis.
  - by apply aged_ask_db.
  - by eapply aged_cap.
  - by eapply aged_set_l2.
  - by eapply aged_finish.
  - intros H; injection H as <-. by apply aged_unload.
  - intros H; injection H as <-. apply aged_forget; [done|]. apply delete_subseteq.
  - intros H; injection H as <-. apply aged_redis; [done|]. intros h v e c Hr Ho.
    unfold Redis.del in Hr. apply lookup_delete_Some in Hr as [_ Hr]. by eapply a_redis.
  - intros H; injection H as <-. apply aged_forget; [done|]. apply map_filter_subseteq.
Qed.

Lemma aged_run acts s s' : Forall untampered acts → aged s → run acts s = Some s' → aged s'.
Proof using HL Hlag.
  intros Hu. revert s; induction Hu as [|a acts Ha Hu IH]; intros s Hs; cbn; [intros H; by injection H as <-|].
  destruct (act a s) as [s1|] eqn:Hact; [|done]. apply IH. by eapply aged_act.
Qed.

Lemma aged_fresh t d : aged (fresh t d).
Proof. split; cbn; intros *; rewrite ?lookup_empty; try done; intros; match goal with H : _ ∈ [] |- _ => by apply not_elem_of_nil in H end. Qed.

End ageing.
End Ageing.

(** ** What a caller may rely on *)

Module Identities.
Import Keys AuthMac AuthCache IdentityLemmas Provenance Ageing.

Section identities.
Context {D : Type} `{HL : AuthCodecLaws D} (sha256 : list ascii → list ascii).
Context (signing_secret : string) (lookup_permits : nat) (lag : Z) (display : Error → string).

Abbreviation act := (act sha256 signing_secret lookup_permits lag display).
Abbreviation run := (run sha256 signing_secret lookup_permits lag display).

(** What one action adds to the database's answers. *)
Lemma act_answers a s s' e :
  act a s = Some s' → e ∈ answers s' →
  e ∈ answers s ∨ ∃ at_ asked c ld, e = (now s, asked, at_.2, c) ∧ authenticate (db s) at_.2 asked = Some c
    ∧ loads s !! at_ = Some ld ∧ ld_phase ld = AtDb asked.
Proof.
  unfold AuthCache.act, at_phase. destruct a.
  1: destruct (_ && _); [|done].
  1, 2: intros H; injection H as <-; by left.
  1: intros H; injection H as <-; unfold request; destruct (live _ _); [by left|]; destruct (loads s !! _); by left.
  1-5: destruct (loads s !! at_) as [ld|] eqn:Hl; [|done]; destruct (ld_phase ld) eqn:Hph; try done;
       intros H; injection H as <-.
  - unfold ask_redis. destruct (if ok then _ else None); [by left|]. destruct (_ <? _)%nat; by left.
  - unfold ask_db. destruct ok; [|by left]. destruct (authenticate _ _ _) as [c|] eqn:Hc; [|by left].
    intros [->|Hin]%elem_of_cons; [|by left]. right. by exists at_, asked, c, ld.
  - unfold cap. destruct (cacheable_for _ _ _); by left.
  - unfold set_l2. destruct (seal _ _ _); [|by left]. destruct (to_json _); [|by left]. destruct ok; by left.
  - unfold finish. destruct outcome; by left.
  - intros H; injection H as <-. by left.
  - intros H; injection H as <-. by left.
  - intros H; injection H as <-. by left.
  - intros H; injection H as <-. by left.
  - destruct (unforged _ _ _ _); [|done]. intros H; injection H as <-. by left.
Qed.

(** A load's bound instant is behind the clock. *)
Definition asked_past (s : System D) : Prop :=
  ∀ at_ ld asked, loads s !! at_ = Some ld → ld_phase ld = AtDb asked → asked ≤ now s.

Lemma asked_past_insert s at_ ld :
  asked_past s → (∀ asked, ld_phase ld = AtDb asked → asked ≤ now s) →
  asked_past (set_loads (<[at_ := ld]> (loads s)) s).
Proof.
  intros Hs Hld at' ld' asked Hl Hph. cbn in Hl.
  apply lookup_insert_Some in Hl as [[<- <-]|[_ Hl]]; [by apply Hld|by eapply Hs].
Qed.

Lemma asked_past_delete s at_ : asked_past s → asked_past (set_loads (delete at_ (loads s)) s).
Proof. intros Hs at' ld' asked Hl Hph. cbn in Hl. apply lookup_delete_Some in Hl as [_ Hl]. by eapply Hs. Qed.

Lemma asked_past_act a s s' : asked_past s → act a s = Some s' → asked_past s'.
Proof.
  intros Hs. unfold AuthCache.act, at_phase, go. destruct a.
  1: destruct (now s <=? later) eqn:Hl; [|done]; destruct (patient _ _ _); [|done]; intros H; injection H as <-.
  1: intros at_ ld asked H1 H2; specialize (Hs at_ ld asked H1 H2); cbn; lia.
  1: by intros H; injection H as <-.
  1: intros H; injection H as <-; unfold request; destruct (live _ _); [done|];
     destruct (loads s !! _); [done|]; by apply asked_past_insert.
  1-5: destruct (loads s !! at_) as [ld|] eqn:Hl; [|done]; destruct (ld_phase ld) eqn:Hph; try done;
       intros H; injection H as <-.
  - unfold ask_redis, go. destruct (if ok then _ else None); [by apply asked_past_insert|].
    destruct (_ <? _)%nat; (apply asked_past_insert; [done|]); cbn; intros a Heq; [|done]. injection Heq as <-. lia.
  - unfold ask_db, go. destruct ok; [|by apply asked_past_insert].
    destruct (authenticate _ _ _); by apply asked_past_insert.
  - unfold cap, go. destruct (cacheable_for _ _ _); by apply asked_past_insert.
  - unfold set_l2, go. destruct (seal _ _ _); [|by apply asked_past_insert].
    destruct (to_json _); [|by apply asked_past_insert]. destruct ok; by apply asked_past_insert.
  - unfold finish. pose proof (asked_past_delete s at_ Hs). by destruct outcome.
  - intros H; injection H as <-. by apply asked_past_delete.
  - by intros H; injection H as <-.
  - by intros H; injection H as <-.
  - by intros H; injection H as <-.
  - destruct (unforged _ _ _ _); [|done]. by intros H; injection H as <-.
Qed.

(** At some moment of the run the database gave [c] for [h], asked at an
    instant that was not to come. *)
Definition once_given (acts : list (Action D)) (s0 : System D) (h : string) (c : Known D) (t0 : Z) : Prop :=
  ∃ pre post s1 asked, acts = pre ++ post ∧ run pre s0 = Some s1 ∧ now s1 = t0 ∧ asked ≤ t0
  ∧ authenticate (db s1) h asked = Some c.

Lemma answers_are_true acts s0 s t0 asked h c :
  asked_past s0 → run acts s0 = Some s → (t0, asked, h, c) ∈ answers s →
  (t0, asked, h, c) ∈ answers s0 ∨ once_given acts s0 h c t0.
Proof.
  revert s0; induction acts as [|a acts IH]; intros s0 Hs; cbn; [intros H; injection H as <-; by left|].
  destruct (act a s0) as [s1|] eqn:Ha; [|done]. intros Hrun Hin.
  destruct (IH s1 (asked_past_act _ _ _ Hs Ha) Hrun Hin) as [H1|(pre & post & s2 & asked' & -> & Hpre & Ht & Hd)].
  - destruct (act_answers _ _ _ _ Ha H1) as [|(at_ & asked' & c' & ld & Heq & Hd & Hl & Hph)]; [by left|right].
    pose proof (Hs _ _ _ Hl Hph). injection Heq as -> -> -> ->. by exists [], (a :: acts), s0, asked'.
  - right. exists (a :: pre), post, s2, asked'. split; [done|]. cbn. by rewrite Ha.
Qed.

Lemma fresh_past t0 d : asked_past (fresh t0 d).
Proof. intros at_ ld asked. cbn. by rewrite lookup_empty. Qed.

Lemma given_from_fresh acts t0 d s t1 asked h c :
  run acts (fresh t0 d) = Some s → (t1, asked, h, c) ∈ answers s → once_given acts (fresh t0 d) h c t1.
Proof.
  intros Hrun Ha. destruct (answers_are_true _ _ _ _ _ _ _ (fresh_past t0 d) Hrun Ha) as [Hn|]; [|done].
  by apply not_elem_of_nil in Hn.
Qed.

(** C8. Whoever writes to the shared cache, an identity a caller is given is one
    the database gave, for the hash of that caller's own key.  An outsider may
    delete entries, replay them and move them between keys; what is asked of
    the MAC is that a tag that verifies was made, for that message, by a
    gateway. *)
Theorem identity_is_the_databases acts t0 d s t h c :
  run acts (fresh t0 d) = Some s → (t, h, Ok (Some c)) ∈ told s →
  ∃ t1, once_given acts (fresh t0 d) h c t1.
Proof using HL.
  intros Hrun Hin. pose proof (provenance_run _ _ _ _ _ _ _ _ (provenance_fresh _ _ _ _) Hrun) as Hp.
  destruct (p_told _ _ _ Hp _ _ _ Hin) as (t1 & asked & Ha). exists t1.
  by eapply given_from_fresh.
Qed.

(** With nobody else writing to the shared cache, an identity lasts no
    longer than the two caches together: a caller is given one only within
    five minutes and fifteen seconds, and two lookups, of the database giving
    it, whatever was evicted, written back or read meanwhile, and on whichever
    replica; and only within fifteen seconds, and two lookups, of its key's
    expiry. *)
Theorem identities_age_out acts t0 d s t h c :
  0 ≤ lag → Forall untampered acts → run acts (fresh t0 d) = Some s → (t, h, Ok (Some c)) ∈ told s →
  (∃ t1, once_given acts (fresh t0 d) h c t1 ∧ t < t1 + 315000 + 2 * lag)
  ∧ ∀ expires_at, known_expires_at c = Some expires_at → t < expires_at + 15000 + 2 * lag.
Proof using HL.
  intros Hlag Hu Hrun Hin.
  pose proof (aged_run sha256 signing_secret lookup_permits lag display Hlag _ _ _ Hu (aged_fresh _ _ _ _) Hrun) as Ha.
  destruct (a_told _ _ _ Ha _ _ _ Hin) as [(t1 & asked & Hans & Ht) Hx]. split.
  - exists t1. split; [|unfold L1_TTL, L2_TTL in Ht; lia].
    by eapply given_from_fresh.
  - intros x Hxx. specialize (Hx x Hxx). unfold L1_TTL in Hx. lia.
Qed.

End identities.
End Identities.

(** ** Minting and revoking *)

Module KeyLemmas.
Import Keys AuthMac AuthCache IdentityLemmas.

Section tables.
Context {D : Type} (sha256 : list ascii → list ascii).
Implicit Types db : Db D.

Lemma principal_found db email p :
  principal_id_for_email db email = Some p → ∃ row, principal db !! p = Some row ∧ pr_email row = email.
Proof.
  unfold principal_id_for_email. destruct (find _ _) as [[q row]|] eqn:Hf; [|done]. intros Heq. injection Heq as ->.
  apply find_Some in Hf as [Hin He]. apply list_elem_of_In, elem_of_map_to_list in Hin. apply Str.str_eqb_eq in He. eauto.
Qed.

Lemma route_found db name r :
  route_named db name = Some r → ∃ row, route db !! r = Some row ∧ rt_name row = name.
Proof.
  unfold route_named. destruct (find _ _) as [[q row]|] eqn:Hf; [|done]. intros Heq. injection Heq as ->.
  apply find_Some in Hf as [Hin He]. apply list_elem_of_In, elem_of_map_to_list in Hin. apply Str.str_eqb_eq in He. eauto.
Qed.

(** Keys of a table that agree are authenticated alike. *)
Lemma authenticate_same m db h now :
  m !! h = api_key db !! h → authenticate (set_api_key m db) h now = authenticate db h now.
Proof. intros H. unfold authenticate. cbn. by rewrite H. Qed.

Lemma deactivated_is_refused db h now k :
  api_key db !! h = Some k → kr_active k = false → authenticate db h now = None.
Proof. intros Hk Ha. unfold authenticate. rewrite Hk, Ha.
  by destruct (principal db !! kr_principal k), (route db !! kr_route k). Qed.

(** Two hexadecimal digits a byte, of the shape a key has. *)
Lemma hex_digits n h :
  Str.len (Names.hex n h) = Z.of_nat n ∧
  all (fun b => Str.is_ascii_digit b || Str.in_span 97 102 b) (Str.bytes (Names.hex n h)) = true.
Proof.
  revert h; induction n as [|n IH]; intros h; [done|]. cbn [Names.hex]. unfold Str.push. destruct (IH (h / 16)) as [Hl Hc].
  rewrite Str.len_append, Str.bytes_app. unfold all in *. rewrite forallb_app, Hc, Hl. split; [cbn; unfold Str.len; cbn; lia|].
  cbn. pose proof (Names.hex_digit_cases (h mod 16) (Z.mod_pos_bound h 16 ltac:(lia))) as Hd.
  destruct_or!; by subst || (rewrite Hd).
Qed.

Lemma hex_shape l :
  Str.len (Sticky.hex l) = 2 * Z.of_nat (length l) ∧
  all (fun b => Str.is_ascii_digit b || Str.in_span 97 102 b) (Str.bytes (Sticky.hex l)) = true.
Proof.
  unfold Sticky.hex. enough (∀ acc, all (fun b => Str.is_ascii_digit b || Str.in_span 97 102 b) (Str.bytes acc) = true →
    let r := fold_left (fun acc b => acc +:+ Names.hex 2 (Str.code b)) l acc in
    Str.len r = Str.len acc + 2 * Z.of_nat (length l) ∧
    all (fun b => Str.is_ascii_digit b || Str.in_span 97 102 b) (Str.bytes r) = true) as H by apply (H "" eq_refl).
  induction l as [|b l IH]; intros acc Hacc; cbn [fold_left length]; [split; [lia|done]|].
  destruct (hex_digits 2 (Str.code b)) as [Hl Hc]. destruct (IH (acc +:+ Names.hex 2 (Str.code b))) as [H1 H2].
  { unfold all in *. by rewrite Str.bytes_app, forallb_app, Hacc, Hc. }
  cbv zeta. rewrite H1, Str.len_append, Hl. split; [lia|done].
Qed.

Lemma minted_shape raw : length raw = 32%nat → is_issued_key_shape (minted_text raw) = true.
Proof.
  intros Hl. unfold is_issued_key_shape, minted_text. destruct (hex_shape raw) as [H1 H2].
  rewrite Str.len_append, H1, Hl, Str.drop_app_exact, H2. rewrite (proj2 (Str.starts_with_app _ _)) by eauto. done.
Qed.

End tables.

Section permits.
Context {D : Type} (replica : nat).
Implicit Types (m : gmap Slot (Load D)) (ld : Load D).

Definition holds (x : Slot * Load D) : Prop := x.1.1 = replica ∧ ld_permit x.2 = true.
Definition holders m : nat := size (filter holds m).

Lemma holders_insert m at_ ld : (holders (<[at_ := ld]> m) ≤ S (holders m))%nat.
Proof.
  unfold holders. destruct (decide (holds (at_, ld))) as [Hp|Hp].
  - rewrite map_filter_insert_True by done. rewrite map_size_insert. case_match; unfold id; lia.
  - rewrite map_filter_insert_False by done. transitivity (size (filter holds m)); [|lia].
    apply map_subseteq_size, map_filter_subseteq_mono, delete_subseteq.
Qed.

Lemma holders_insert_none m at_ ld : ¬ holds (at_, ld) → (holders (<[at_ := ld]> m) ≤ holders m)%nat.
Proof.
  intros Hp. unfold holders. rewrite map_filter_insert_False by done.
  apply map_subseteq_size, map_filter_subseteq_mono, delete_subseteq.
Qed.

Lemma holders_moved m at_ ld p : m !! at_ = Some ld → (holders (<[at_ := moved ld p]> m) ≤ holders m)%nat.
Proof.
  intros Hl. destruct (decide (holds (at_, ld))) as [Hp|Hp]; [|by apply holders_insert_none].
  unfold holders. rewrite map_filter_insert_True by done. rewrite map_size_insert.
  assert (filter holds m !! at_ = Some ld) as ->; [|done]. by apply map_lookup_filter_Some.
Qed.

Lemma holders_delete m at_ : (holders (delete at_ m) ≤ holders m)%nat.
Proof. apply map_subseteq_size, map_filter_subseteq_mono, delete_subseteq. Qed.
End permits.

End KeyLemmas.

Module Admission.
Import Keys AuthMac AuthCache IdentityLemmas KeyLemmas.

Section layer.
Context {D : Type}.

(** [require_key_layer], before the lookup and after it. *)
Definition presented {V} (get : string → option V) (to_str : V → option string) : result string Error :=
  match Plan.extract_key get to_str with
  | None => Err Unauthenticated
  | Some key => if is_issued_key_shape key then Ok key else Err Unauthenticated
  end.

Definition admitted (looked_up : result (option (Known D)) Error) : result (Known D) Error :=
  match looked_up with
  | Ok (Some ctx) => Ok ctx
  | Ok None => Err Unauthenticated
  | Err e => Err e
  end.

(** [invalidate_hash] on a replica. *)
Definition invalidate_hash (replica : nat) (hash : string) : list (Action D) :=
  [ForgetL1 (replica, hash); Evict (auth_key hash)].

(** [revoke_key] of the administration API, on a replica. *)
Definition revoke_and_evict (replica : nat) (id : N) (db : Db D) : list (Action D) :=
  let '(row, db) := revoke_key id db in
  WriteDb db :: match row with Some (hash, _, _) => invalidate_hash replica hash | None => [] end.

End layer.

Section keys.
Context {D : Type} (sha256 : list ascii → list ascii).

(** A key that was minted has the shape the gateway asks for, and stands for
    the principal and the route it was minted on, with its own cap and no
    authority over the gateway, while these are active; nobody else's key
    changes.  Revoked by its id it stands for nobody. *)
Theorem minted_key_is_its_own raw id email route_name name quota (db db' : Db D) minted :
  length raw = 32%nat →
  mint_key sha256 raw id email route_name name quota db = (Ok (Some minted), db') →
  is_issued_key_shape (mk_key minted) = true
  ∧ (∀ h now, h ≠ hash_key sha256 (mk_key minted) → authenticate db' h now = authenticate db h now)
  ∧ (∃ p prow r rrow, principal db !! p = Some prow ∧ pr_email prow = email
     ∧ route db !! r = Some rrow ∧ rt_name rrow = route_name
     ∧ ∀ now, authenticate db' (hash_key sha256 (mk_key minted)) now =
         if pr_active prow && rt_active rrow then
           Some {| known := {| caller_ids := {| api_key_id := id; principal_id := p; route_id := r |};
                     key_floor_tier := None; quota_usd := quota; principal_budget_usd := pr_budget prow;
                     principal_hard_stop_multiple := pr_hard_stop prow |};
                   known_admin := false; known_expires_at := None |}
         else None)
  ∧ ∀ now, authenticate (revoke_key id db').2 (hash_key sha256 (mk_key minted)) now = None.
Proof.
  intros Hraw. unfold mint_key. destruct (principal_id_for_email db email) as [p|] eqn:Hp; [|done].
  destruct (route_named db route_name) as [r|] eqn:Hr; [|done].
  set (hash := hash_key sha256 (minted_text raw)). destruct (api_key db !! hash) as [k|] eqn:Hk; [done|].
  intros Heq.
  apply (f_equal fst) in Heq as Hm. apply (f_equal snd) in Heq as Hd. clear Heq. cbn [fst snd] in *. subst db'.
  injection Hm as <-. cbn [mk_key]. fold hash. split; [by apply minted_shape|]. split_and!.
  - intros h now Hh. apply authenticate_same. by rewrite lookup_insert_ne.
  - apply principal_found in Hp as (prow & Hp & He). apply route_found in Hr as (rrow & Hr & Hn).
    exists p, prow, r, rrow. split_and!; [done..|]. intros now. unfold authenticate. cbn [api_key set_api_key principal route].
    rewrite lookup_insert_eq. cbn [kr_principal kr_route]. rewrite Hp, Hr. cbn. by rewrite andb_true_r.
  - intros now. unfold revoke_key, update, by_id. cbn [snd].
    eapply deactivated_is_refused; [cbn [api_key set_api_key]; rewrite lookup_fmap, lookup_insert_eq; cbn; by rewrite N.eqb_refl|done].
Qed.

End keys.

Section permits.
Context {D : Type} `{!AuthCodec D} (sha256 : list ascii → list ascii).
Context (signing_secret : string) (lookup_permits : nat) (lag : Z) (display : Error → string).

Lemma permits_act replica a s s' :
  act sha256 signing_secret lookup_permits lag display a s = Some s' →
  (permits_out (D := D) replica s' ≤ Nat.max (permits_out replica s) (Nat.max 1 lookup_permits))%nat.
Proof.
  unfold act, at_phase. change (permits_out replica s) with (holders replica (loads s)).
  change (permits_out replica s') with (holders replica (loads s')). destruct a.
  1: destruct (_ && _); [|done].
  1, 2: intros H; injection H as <-; cbn; lia.
  1: intros H; injection H as <-; unfold request; destruct (live _ _); [cbn; lia|]; destruct (loads s !! _); [lia|];
     etransitivity; [by apply holders_insert_none; intros []|lia].
  1-5: destruct (loads s !! at_) as [ld|] eqn:Hl; [|done]; pose proof (λ p, holders_moved replica _ _ _ p Hl) as Hm;
       destruct (ld_phase ld) eqn:Hph; try done; intros H; injection H as <-.
  - unfold ask_redis, go. destruct (if ok then _ else None); [etransitivity; [apply Hm|lia]|].
    destruct (_ <? _)%nat eqn:Hlt; [|etransitivity; [apply Hm|lia]]. apply Nat.ltb_lt in Hlt. cbn [loads set_loads].
    destruct (decide (at_.1 = replica)) as [<-|Hne].
    + etransitivity; [apply holders_insert|]. change (permits_out at_.1 s) with (holders at_.1 (loads s)) in Hlt. lia.
    + etransitivity; [by apply holders_insert_none; intros []|lia].
  - unfold ask_db, go. destruct ok; [|etransitivity; [apply Hm|lia]].
    destruct (authenticate _ _ _); (etransitivity; [apply Hm|lia]).
  - unfold cap, go. destruct (cacheable_for _ _ _); (etransitivity; [apply Hm|lia]).
  - unfold set_l2, go. destruct (seal _ _ _); [|etransitivity; [apply Hm|lia]].
    destruct (to_json _); [|etransitivity; [apply Hm|lia]]. destruct ok; (etransitivity; [apply Hm|lia]).
  - unfold finish. destruct outcome; (etransitivity; [apply holders_delete|lia]).
  - intros H; injection H as <-. etransitivity; [apply holders_delete|lia].
  - intros H; injection H as <-. cbn; lia.
  - intros H; injection H as <-. cbn; lia.
  - intros H; injection H as <-. cbn; lia.
  - destruct (unforged _ _ _ _); [|done]. intros H; injection H as <-. cbn; lia.
Qed.

(** No more database lookups are in flight on a replica than it has permits,
    however many keys are asked about: the rest are refused, not queued. *)
Theorem lookups_are_bounded acts t0 d s replica :
  run sha256 signing_secret lookup_permits lag display acts (fresh t0 d) = Some s →
  (permits_out (D := D) replica s ≤ Nat.max 1 lookup_permits)%nat.
Proof.
  enough (∀ s0, run sha256 signing_secret lookup_permits lag display acts s0 = Some s →
    (permits_out replica s ≤ Nat.max (permits_out replica s0) (Nat.max 1 lookup_permits))%nat) as H.
  { intros Hr. specialize (H _ Hr). unfold permits_out in H at 2. cbn [loads fresh] in H.
    rewrite map_filter_empty, map_size_empty in H. lia. }
  induction acts as [|a acts IH]; intros s0; cbn [run]; [intros Heq; injection Heq as <-; lia|].
  destruct (act _ _ _ _ _ a s0) as [s1|] eqn:Ha; [|done]. intros Hr. specialize (IH _ Hr).
  pose proof (permits_act replica _ _ _ Ha). lia.
Qed.
End permits.
End Admission.

(** ** At concrete keys *)

Module SmallIdentity.
Import Keys AuthMac AuthCache IdentityLemmas Provenance Ageing Identities KeyLemmas Admission.

(** An identity as a number, and a number as binary digits. *)
#[export] Instance q_eq_dec : EqDecision Q.
Proof. solve_decision. Defined.

#[export] Instance q_countable : Countable Q :=
  inj_countable' (fun q => (Qnum q, Qden q)) (fun x => Qmake x.1 x.2) ltac:(by intros []).

#[export] Instance known_eq_dec : EqDecision (Known Q).
Proof.
  assert (EqDecision AuthContext) by solve_decision. assert (EqDecision (Caller Q)) by solve_decision.
  solve_decision.
Defined.

Definition flat (c : Known Q) :=
  (api_key_id (caller_ids (known c)), principal_id (caller_ids (known c)), route_id (caller_ids (known c)),
   key_floor_tier (known c), quota_usd (known c), principal_budget_usd (known c),
   principal_hard_stop_multiple (known c), known_admin c, known_expires_at c).

Definition unflat (x : N * N * N * option string * option Q * option Q * Q * bool * option Z) : Known Q :=
  let '(k, p, r, f, q, b, h, a, e) := x in
  {| known := {| caller_ids := {| api_key_id := k; principal_id := p; route_id := r |};
       key_floor_tier := f; quota_usd := q; principal_budget_usd := b; principal_hard_stop_multiple := h |};
     known_admin := a; known_expires_at := e |}.

#[export] Instance known_countable : Countable (Known Q) :=
  inj_countable' flat unflat ltac:(by intros [[[] ] ]).

Fixpoint bits (p : positive) : string :=
  match p with xH => "" | xO p => String "0" (bits p) | xI p => String "1" (bits p) end.

Fixpoint unbits (s : string) : positive :=
  match s with
  | EmptyString => xH
  | String c s => if Ascii.eqb c "0" then xO (unbits s) else xI (unbits s)
  end.

Lemma unbits_bits p : unbits (bits p) = p.
Proof. induction p as [p IH|p IH|]; cbn; by rewrite ?IH. Qed.

Definition nibble (c : ascii) : N :=
  if Str.is_ascii_digit c then N_of_ascii c - 48 else N_of_ascii c - 87.

Fixpoint unhex (s : string) : option (list ascii) :=
  match s with
  | EmptyString => Some []
  | String a (String b s) =>
      match unhex s with Some l => Some (ascii_of_N (16 * nibble a + nibble b) :: l) | None => None end
  | String _ EmptyString => None
  end.

#[export] Instance small_codec : AuthCodec Q := {|
  to_json c := Some (bits (encode c));
  from_json s := decode (unbits s);
  hex_encode := Sticky.hex;
  hex_decode := unhex;
  hmac_sha256 key data := data ++ key
|}.

Lemma hex_two b :
  ∃ x y, Names.hex 2 (Str.code b) = String x (String y "") ∧ ascii_of_N (16 * nibble x + nibble y) = b.
Proof.
  destruct b as [b0 b1 b2 b3 b4 b5 b6 b7]. destruct b0, b1, b2, b3, b4, b5, b6, b7;
    (eexists _, _; split; [vm_compute; reflexivity|vm_compute; reflexivity]).
Qed.

Lemma unhex_byte b s : unhex (Names.hex 2 (Str.code b) +:+ s) =
  match unhex s with Some l => Some (b :: l) | None => None end.
Proof.
  destruct (hex_two b) as (x & y & -> & Hb). change (String x (String y "") +:+ s) with (String x (String y s)).
  cbn [unhex]. by rewrite Hb.
Qed.

Lemma unhex_hex l : unhex (Sticky.hex l) = Some l.
Proof.
  set (step := fun acc b => acc +:+ Names.hex 2 (Str.code b)).
  assert (∀ l acc, fold_left step l acc = acc +:+ fold_left step l "") as Hacc.
  { intros l'. induction l' as [|b l' IH]; intros acc; cbn [fold_left]; [by rewrite Str.append_empty_r|].
    rewrite (IH (step acc b)), (IH (step "" b)). unfold step. by rewrite Str.append_assoc. }
  unfold Sticky.hex. fold step. induction l as [|b l IH]; [done|]. cbn [fold_left]. rewrite Hacc.
  change (step "" b) with (Names.hex 2 (Str.code b)). by rewrite unhex_byte, IH.
Qed.

#[export] Instance small_codec_laws : AuthCodecLaws Q.
Proof.
  constructor.
  - intros c j Hj. cbn in *. injection Hj as <-. by rewrite unbits_bits, decode_encode.
  - apply unhex_hex.
  - intros l Hin. by apply hex_chars in Hin.
Qed.

(** SHA-256's stand-in, and an error's words. *)
Definition toy_sha (l : list ascii) : list ascii := firstn 32 (rev l).
Definition shown_error (e : Error) : string := match e with Internal what => what | _ => "" end.

Definition raw_bytes : list ascii := repeat "K"%char 32.

Definition one_member : Db Q := {|
  api_key := ∅;
  principal := {[ 7%N := {| pr_email := "a@example.org"; pr_role := "member"; pr_budget := None;
                             pr_hard_stop := 1.2%Q; pr_active := true |} ]};
  route := {[ 3%N := {| rt_name := "default"; rt_active := true |} ]}
|}.

Definition with_key : Db Q := (mint_key toy_sha raw_bytes 9 "a@example.org" "default" "ci" None one_member).2.
Definition the_key : string := minted_text raw_bytes.
Definition the_hash : string := hash_key toy_sha the_key.

Definition small_run := run (D := Q) toy_sha "signing secret" 4 2000 shown_error.

(** A whole lookup on a replica that knows nothing. *)
Definition cold_lookup (r : nat) : list (Action Q) :=
  [Request r the_key; AskRedis (r, the_hash) true; AskDb (r, the_hash) true; Cap (r, the_hash);
   SetRedis (r, the_hash) true; Finish (r, the_hash)].

Definition answer_given (s : option (System Q)) : option (Z * bool) :=
  match s with
  | Some s => match told s with (t, _, Ok (Some _)) :: _ => Some (t, true) | (t, _, _) :: _ => Some (t, false) | [] => None end
  | None => None
  end.

(** A revocation that lands while a replica is about to write what it read
    undoes its own eviction: minutes later another replica still takes the
    key. *)
Definition revoked_midway : list (Action Q) :=
  firstn 4 (cold_lookup 0) ++ revoke_and_evict 0 9 with_key
  ++ [SetRedis (0%nat, the_hash) true; Finish (0%nat, the_hash); Tick 290000;
      Request 1 the_key; AskRedis (1%nat, the_hash) true; Finish (1%nat, the_hash)].

Definition after_revocation : option (System Q) := small_run revoked_midway (fresh 0 with_key).

Example revoked_key_is_taken_later :
  answer_given after_revocation = Some (290000, true)
  ∧ authenticate (revoke_key 9 with_key).2 the_hash 0 = None.
Proof. by split; vm_compute. Qed.

(** A key that ran out seconds ago, still held in a replica's own cache. *)
Definition expiring : Db Q :=
  set_api_key ((fun k => {| kr_id := kr_id k; kr_prefix := kr_prefix k; kr_name := kr_name k;
    kr_principal := kr_principal k; kr_route := kr_route k; kr_floor_tier := kr_floor_tier k;
    kr_quota := kr_quota k; kr_active := kr_active k; kr_admin := kr_admin k;
    kr_expires_at := Some 1000 |}) <$> api_key with_key) with_key.

Example expired_key_is_taken_briefly :
  answer_given (small_run (cold_lookup 0 ++ [Tick 14999; Request 0 the_key]) (fresh 0 expiring)) = Some (14999, true).
Proof. by vm_compute. Qed.

(** An entry moved to another key's place is a miss. *)
Example moved_entry_does_not_open :
  match seal (mac_key "signing secret") the_hash (known_of {| kr_id := 9; kr_prefix := ""; kr_name := "";
      kr_principal := 7; kr_route := 3; kr_floor_tier := None; kr_quota := None; kr_active := true;
      kr_admin := true; kr_expires_at := None |}
      {| pr_email := ""; pr_role := ""; pr_budget := None; pr_hard_stop := 1%Q; pr_active := true |}) with
  | Some v => is_Some (open (mac_key "signing secret") the_hash v) ∧ open (mac_key "signing secret") "another" v = None
  | None => False
  end.
Proof. vm_compute. split; [by eexists|done]. Qed.

Lemma last_told_in s t :
  answer_given (Some s) = Some (t, true) → ∃ h c, (t, h, Ok (Some c)) ∈ told s.
Proof.
  cbn. destruct (told s) as [|[[t' h] [[c|]|e]] l]; try done. intros H. injection H as ->. exists h, c. by left.
Qed.

Lemma identity_is_the_databases_witness :
  ∃ s t h c t1, after_revocation = Some s ∧ (t, h, Ok (Some c)) ∈ told s
    ∧ once_given toy_sha "signing secret" 4 2000 shown_error revoked_midway (fresh 0 with_key) h c t1.
Proof.
  pose proof (proj1 revoked_key_is_taken_later) as Hr. destruct after_revocation as [s|] eqn:Hs; [|done].
  destruct (last_told_in s 290000 Hr) as (h & c & Hin).
  destruct (identity_is_the_databases toy_sha "signing secret" 4 2000 shown_error _ _ _ _ _ _ _ Hs Hin) as (t1 & Ht1).
  exists s, 290000, h, c, t1. split; [reflexivity|]. by split.
Defined.

Lemma identities_age_out_witness :
  ∃ s h c, after_revocation = Some s ∧ (290000, h, Ok (Some c)) ∈ told s
    ∧ ∃ t1, 290000 < t1 + 315000 + 2 * 2000.
Proof.
  pose proof (proj1 revoked_key_is_taken_later) as Hr. destruct after_revocation as [s|] eqn:Hs; [|done].
  destruct (last_told_in s 290000 Hr) as (h & c & Hin). exists s, h, c. split; [reflexivity|]. split; [exact Hin|].
  destruct (identities_age_out toy_sha "signing secret" 4 2000 shown_error revoked_midway 0 with_key s 290000 h c) as [(t1 & _ & Ht) _];
    [lia|repeat constructor|exact Hs|done|]. by exists t1.
Defined.

Lemma minted_key_is_its_own_witness :
  ∃ minted db', mint_key toy_sha raw_bytes 9 "a@example.org" "default" "ci" None one_member = (Ok (Some minted), db')
    ∧ is_issued_key_shape (mk_key minted) = true.
Proof.
  destruct (mint_key toy_sha raw_bytes 9 "a@example.org" "default" "ci" None one_member) as [[[minted|]|e] db'] eqn:Hm;
    [|vm_compute in Hm; discriminate..].
  exists minted, db'. split; [done|]. apply (minted_key_is_its_own toy_sha raw_bytes 9 "a@example.org" "default" "ci" None one_member db' minted);
    [reflexivity|done].
Defined.

(** Two requests of different keys, and one permit: the second is refused. *)
Definition crowded : list (Action Q) :=
  [Request 0 the_key; AskRedis (0%nat, the_hash) true; Request 0 "other"; AskRedis (0%nat, hash_key toy_sha "other") true;
   Finish (0%nat, hash_key toy_sha "other")].

Definition after_crowd : option (System Q) :=
  run (D := Q) toy_sha "signing secret" 1 2000 shown_error crowded (fresh 0 with_key).

Example second_lookup_is_refused : answer_given after_crowd = Some (0, false).
Proof. by vm_compute. Qed.

Lemma lookups_are_bounded_witness : ∃ s, after_crowd = Some s ∧ (permits_out 0 s ≤ 1)%nat.
Proof.
  pose proof second_lookup_is_refused as Hr. destruct after_crowd as [s|] eqn:Hs; [|done]. exists s. split; [done|].
  exact (lookups_are_bounded toy_sha "signing secret" 1 2000 shown_error crowded 0 with_key s 0%nat Hs).
Defined.

End SmallIdentity.
