(* ===== verification/Shared.v ===== *)
(** * What the replicas share

    The rest of [crates/oag-store/src/cache.rs]: a route's token bucket, which
    Redis keeps by a script; the one connection a replica holds to Redis and
    the dial that makes it; the deadline and the retries around a command; and
    the small claims and pins that are keys with a lifetime.

    The script's numbers are Lua's, doubles; here they are rationals, so the
    theorems are of the arithmetic it writes and not of its rounding.  Redis's
    clock is microseconds. *)

From Stdlib Require Import Ascii QArith Lqa.
From Stdlib Require Import Qround.
From S2P Require Import Prelude Text Money Domain.
From S2P Require Import Respond.
From S2P Require Import Slots.
From S2P Require Import Plan.
From S2P Require Import Identity.
#[local] Open Scope string_scope.
#[local] Open Scope oag_scope.
#[local] Open Scope list_scope.
#[local] Open Scope Z_scope.

(** ** The token bucket *)

Record Bucket : Type := { b_tokens : Q; b_ts : Q }.

(** A bucket's key: what it holds, and when Redis drops it. *)
Record RateKey : Type := { rk_bucket : option Bucket; rk_expires : Z }.

(** What [str::parse::<f64>] may give. *)
Inductive F64 : Type := Nan | Infinite (negative : bool) | Finite (q : Q).

Module Bucket.

Definition MICROS : Z := 1000000.

Definition qmin (a b : Q) : Q := if Qle_bool a b then a else b.

(** [TIME], as the script adds it up. *)
Definition seconds (us : Z) : Q := Qred (inject_Z (us / MICROS) + inject_Z (us mod MICROS) / inject_Z MICROS).

(** The key as a command at [us] finds it. *)
Definition found (us : Z) (k : RateKey) : option Bucket :=
  if rk_expires k <=? us then None else rk_bucket k.

(** What the bucket holds at [now], refilled. *)
Definition refilled (rate burst now : Q) (b : option Bucket) : Q :=
  let '(tokens, ts) := match b with Some b => (b_tokens b, b_ts b) | None => (burst, now) end in
  Qred (qmin burst (tokens + (now - ts) * rate)).

(** The script: the seconds to wait, and the key it leaves. *)
Definition TAKE_TOKEN (rate burst : Q) (us : Z) (k : RateKey) : Q * RateKey :=
  let now := seconds us in
  let tokens := refilled rate burst now (found us k) in
  let '(tokens, wait) :=
    if Qle_bool 1 tokens then (Qred (tokens - 1), 0%Q) else (tokens, Qred ((1 - tokens) / rate)) in
  (wait, {| rk_bucket := Some {| b_tokens := tokens; b_ts := now |};
            rk_expires := us + (Qceiling (burst / rate) + 1) * MICROS |}).

Definition new_key : RateKey := {| rk_bucket := None; rk_expires := 0 |}.

Definition rate_and_burst (rpm : Z) : Q * Q :=
  let burst := inject_Z (Z.max rpm 1) in (Qred (burst / 60), burst).

(** A script's answer, a string, read as a wait: anything that is not a
    positive number of seconds a [Duration] can hold is no wait. *)
Definition DURATION_MAX : Q := inject_Z (U64_MAX + 1).

Definition wait_from_redis (parse_f64 : string → option F64) (raw : string) : option Q :=
  match default (Finite 0) (parse_f64 raw) with
  | Finite q => if negb (Qle_bool q 0) && negb (Qle_bool DURATION_MAX q) then Some q else None
  | _ => None
  end.

(** [take_rate_token]: the answer of the timed script, or the error that
    stopped it, which allows the request. *)
Definition take_rate_token (parse_f64 : string → option F64) (rpm : Z) (script : result string Error) : option Q :=
  if rpm =? 0 then None
  else match script with Ok raw => wait_from_redis parse_f64 raw | Err _ => None end.

(** A run of takes, each at its instant, with nothing else touching the key. *)
Fixpoint takes (rate burst : Q) (at_ : list Z) (k : RateKey) : list Q * RateKey :=
  match at_ with
  | [] => ([], k)
  | us :: at_ =>
      let '(wait, k) := TAKE_TOKEN rate burst us k in
      let '(waits, k) := takes rate burst at_ k in (wait :: waits, k)
  end.

Definition granted (waits : list Q) : nat := length (keep (fun w => Qle_bool w 0) waits).

End Bucket.

(** ** Keys with a lifetime *)

Module Claims.

(** [SET key value NX EX secs], or [PX] with milliseconds: taken if nobody
    holds it. *)
Definition set_nx (now : Z) (key value : string) (lives : Z) (s : Redis.Store) : bool * Redis.Store :=
  match Redis.get now key s with
  | Some _ => (false, s)
  | None => (true, <[key := (value, now + lives)]> s)
  end.

Definition refresh_key (account : string) : string := "oag:refresh-lock:" +:+ account.
Definition usage_poll_key (account : string) : string := "oag:usage-poll:" +:+ account.

Definition acquire_refresh_lock (account : string) (ttl_secs now : Z) (s : Redis.Store) : bool * Redis.Store :=
  set_nx now (refresh_key account) "1" (ttl_secs * 1000) s.

Definition release_refresh_lock (account : string) (s : Redis.Store) : Redis.Store :=
  Redis.del (refresh_key account) s.

Definition claim_usage_poll (account : string) (hold now : Z) (s : Redis.Store) : bool * Redis.Store :=
  set_nx now (usage_poll_key account) "1" (Z.max (Z.min hold U64_MAX) 1) s.

(** [GETEX]: a hit is kept for [ttl] more. *)
Definition sticky_get (parse_uuid : string → option AccountId) (key : string) (ttl_secs now : Z) (s : Redis.Store)
  : option AccountId * Redis.Store :=
  match Redis.get now key s with
  | Some raw => (parse_uuid raw, <[key := (raw, now + ttl_secs * 1000)]> s)
  | None => (None, s)
  end.

Definition sticky_set (key account : string) (ttl_secs now : Z) (s : Redis.Store) : Redis.Store :=
  Redis.set_ex now key account ttl_secs s.

(** [flush_auth_cache], of the pages [SCAN] gives until its cursor is zero;
    [None] when the pages end before it is. *)
Fixpoint flush_auth_cache (pages : list (Z * list string)) (removed : nat) (s : Redis.Store)
  : option (nat * Redis.Store) :=
  match pages with
  | [] => None
  | (cursor, keys) :: pages =>
      let here := length (keep (fun k => bool_decide (is_Some (s !! k))) (remove_dups keys)) in
      let s := fold_left (fun s k => Redis.del k s) keys s in
      if cursor =? 0 then Some ((removed + here)%nat, s) else flush_auth_cache pages (removed + here) s
  end.

End Claims.

(** ** One connection *)

Module Dial.

(** A dial's task: about to look for a connection; connecting; with one to
    put in place; done with [dialing] still set; to wake who waits. *)
Inductive Task : Type := Looking | Connecting | Placing (generation : nat) | Closing | Waking.

(** A caller in [conn_with_gen]: registered for the wake, then having found no
    connection, then waiting; and whether the wake has come. *)
Inductive Place : Type := Registered | FoundNone | Waiting.

Record Conn : Type := {
  conn : option nat;
  conn_gen : nat;
  dialing : bool;
  tasks : gmap nat Task;
  callers : gmap nat (Place * bool);
  commands : gmap nat nat      (* the generation each runs on *)
}.

Definition set_conn c s := {| conn := c; conn_gen := conn_gen s; dialing := dialing s; tasks := tasks s;
  callers := callers s; commands := commands s |}.
Definition set_gen g s := {| conn := conn s; conn_gen := g; dialing := dialing s; tasks := tasks s;
  callers := callers s; commands := commands s |}.
Definition set_dialing d s := {| conn := conn s; conn_gen := conn_gen s; dialing := d; tasks := tasks s;
  callers := callers s; commands := commands s |}.
Definition set_tasks m s := {| conn := conn s; conn_gen := conn_gen s; dialing := dialing s; tasks := m;
  callers := callers s; commands := commands s |}.
Definition set_callers m s := {| conn := conn s; conn_gen := conn_gen s; dialing := dialing s; tasks := tasks s;
  callers := m; commands := commands s |}.
Definition set_commands m s := {| conn := conn s; conn_gen := conn_gen s; dialing := dialing s; tasks := tasks s;
  callers := callers s; commands := m |}.

Definition idle : Conn :=
  {| conn := None; conn_gen := 0; dialing := false; tasks := ∅; callers := ∅; commands := ∅ |}.

Definition move (c : nat) (p : Place * bool) (s : Conn) : Conn := set_callers (<[c := p]> (callers s)) s.
Definition leave (c : nat) (s : Conn) : Conn := set_callers (delete c (callers s)) s.
Definition task (t : nat) (k : Task) (s : Conn) : Conn := set_tasks (<[t := k]> (tasks s)) s.
Definition given (c g : nat) (s : Conn) : Conn := set_commands (<[c := g]> (commands s)) (leave c s).

(** [drop_conn]. *)
Definition drop_conn (used : nat) (s : Conn) : Conn :=
  match conn s with
  | Some g => if Nat.eqb g used then set_conn None s else s
  | None => s
  end.

Inductive step : Conn → Conn → Prop :=
  (** a caller registers for the wake, then looks *)
  | d_register c s : callers s !! c = None → step s (move c (Registered, false) s)
  | d_found c w g s : callers s !! c = Some (Registered, w) → conn s = Some g → step s (given c g s)
  | d_none c w s : callers s !! c = Some (Registered, w) → conn s = None → step s (move c (FoundNone, w) s)
  (** [start_dial], with a dial running or not *)
  | d_joins c w s : callers s !! c = Some (FoundNone, w) → dialing s = true → step s (move c (Waiting, w) s)
  | d_starts c w t s : callers s !! c = Some (FoundNone, w) → dialing s = false → tasks s !! t = None →
      step s (move c (Waiting, w) (set_dialing true (task t Looking s)))
  (** woken, or tired of waiting: a connection, or the error; or dropped *)
  | d_served c w g s : callers s !! c = Some (Waiting, w) → conn s = Some g → step s (given c g s)
  | d_leaves c s : step s (leave c s)
  (** the task's own steps *)
  | d_looks t s : tasks s !! t = Some Looking →
      step s (task t (match conn s with None => Connecting | Some _ => Closing end) s)
  | d_connects t s : tasks s !! t = Some Connecting → step s (set_gen (S (conn_gen s)) (task t (Placing (conn_gen s)) s))
  | d_fails t s : tasks s !! t = Some Connecting → step s (task t Closing s)
  | d_places t g s : tasks s !! t = Some (Placing g) → step s (set_conn (Some g) (task t Closing s))
  | d_closes t s : tasks s !! t = Some Closing → step s (set_dialing false (task t Waking s))
  | d_wakes t s : tasks s !! t = Some Waking →
      step s (set_callers ((λ x, (x.1, true)) <$> callers s) (set_tasks (delete t (tasks s)) s))
  (** a command ends, well or on its deadline *)
  | d_done c s : step s (set_commands (delete c (commands s)) s)
  | d_timed_out c g s : commands s !! c = Some g → step s (drop_conn g (set_commands (delete c (commands s)) s)).

Inductive steps : Conn → Conn → Prop :=
  | s_refl s : steps s s
  | s_step s s' s'' : steps s s' → step s' s'' → steps s s''.

Definition reachable (s : Conn) : Prop := steps idle s.

End Dial.

(** ** A command, its deadline and its retries *)

Module Command.

Definition NOSCRIPT_ATTEMPTS : nat := 4.

Section command.
Context (debug_duration : Z → string).

(** Whether an error is a timeout, by its words. *)
Definition is_timeout (e : Error) : bool :=
  let text := Str.to_ascii_lowercase (Respond.to_string debug_duration e) in
  Str.contains text "timeout" || Str.contains text "timed out".

(** [slot_timed]: what the operation came to before the deadline, [None] if it
    did not, and the generation it had got to run on; the answer, and the
    generation to drop. *)
Definition slot_timed {T} (op : string) (used : option nat) (outcome : option (result T Error))
  : result T Error * option nat :=
  match outcome with
  | Some (Ok v) => (Ok v, None)
  | Some (Err e) => (Err e, if is_timeout e then used else None)
  | None => (Err (Internal (op +:+ ": redis timed out")), used)
  end.

(** What one [EVALSHA] answers: [NoScript] with its words, or another error. *)
Inductive Eval (T : Type) : Type := Evaluated (v : T) | NoScript (words : string) | Failed (words : string).
Arguments Evaluated {T} v.
Arguments NoScript {T} words.
Arguments Failed {T} words.

(** [eval_slot_script]: [attempts] left, the last refusal. *)
Fixpoint eval_slot_script {T} (attempts : nat) (invoke : nat → Eval T) (load : nat → option string)
    (op : string) (last : option string) : result T Error :=
  match attempts with
  | O => Err (Internal (op +:+ ": " +:+ default "NoScript" last))
  | S attempts =>
      match invoke attempts with
      | Evaluated v => Ok v
      | NoScript words =>
          match load attempts with
          | Some load_err => Err (Internal (op +:+ ": loading script: " +:+ load_err))
          | None => eval_slot_script attempts invoke load op (Some words)
          end
      | Failed words => Err (Internal (op +:+ ": " +:+ words))
      end
  end.

(** [try_acquire_slot]'s reading of the script's pair. *)
Definition slot_claim (answer : Z * Z) : SlotClaim :=
  if answer.1 =? 1 then Taken
  else Full (if Z.max answer.2 0 <=? U32_MAX then Z.max answer.2 0 else U32_MAX).

End command.
End Command.

(** ** One dial, and no stale drop *)

Module Dialling.
Import Dial.

Definition active (k : Task) : Prop := k ≠ Waking.

(** A task that is still to clear [dialing]. *)
Definition dials (s : Conn) (t : nat) : Prop := ∃ k, tasks s !! t = Some k ∧ active k.

Record dial_ok (s : Conn) : Prop := {
  k_one : ∀ t t', dials s t → dials s t' → t = t';
  k_dialing : dialing s = true ↔ ∃ t, dials s t;
  k_waiting : ∀ c, callers s !! c = Some (Waiting, false) → ∃ t k, tasks s !! t = Some k;
  k_conn : ∀ g, conn s = Some g → (g < conn_gen s)%nat;
  k_command : ∀ c g, commands s !! c = Some g → (g < conn_gen s)%nat;
  k_connecting : ∀ t, tasks s !! t = Some Connecting → conn s = None;
  k_placing : ∀ t g, tasks s !! t = Some (Placing g) →
    conn s = None ∧ (g < conn_gen s)%nat ∧ ∀ c, commands s !! c ≠ Some g
}.

(** The tasks are the same, and so is the connection, or it is gone; commands
    are fewer. *)
Lemma dial_ok_fewer s s' :
  dial_ok s → tasks s' = tasks s → dialing s' = dialing s → conn_gen s' = conn_gen s →
  (conn s' = conn s ∨ conn s' = None) → (∀ c g, commands s' !! c = Some g → commands s !! c = Some g) →
  (∀ c, callers s' !! c = Some (Waiting, false) → (∃ t k, tasks s !! t = Some k)) → dial_ok s'.
Proof.
  intros [H1 H2 H3 H4 H5 H6 H7] Ht Hd Hg Hc Hu Hw. unfold dials in *. split; unfold dials; rewrite ?Ht, ?Hd, ?Hg; try done.
  - intros g Hs. apply H4. destruct Hc as [Hc|Hc]; congruence.
  - intros c g Hs. by eapply H5, Hu.
  - intros t Hs. specialize (H6 t Hs). destruct Hc; congruence.
  - intros t g Hs. destruct (H7 t g Hs) as (Hn & Hl & Hf). split_and!; [destruct Hc; congruence|done|].
    intros c Hs'. by eapply Hf, Hu.
Qed.

Lemma dial_ok_callers s m :
  dial_ok s → (∀ c, m !! c = Some (Waiting, false) → (∃ t k, tasks s !! t = Some k)) → dial_ok (set_callers m s).
Proof. intros Hk Hm. eapply dial_ok_fewer; [exact Hk|done..|by left|done|done]. Qed.

Lemma dial_ok_move s c p :
  dial_ok s → (p = (Waiting, false) → ∃ t k, tasks s !! t = Some k) → dial_ok (move c p s).
Proof.
  intros Hk Hp. apply dial_ok_callers; [done|]. intros c' Hl.
  apply lookup_insert_Some in Hl as [[_ ->]|[_ Hl]]; [by apply Hp|by eapply k_waiting].
Qed.

Lemma dial_ok_leave s c : dial_ok s → dial_ok (leave c s).
Proof.
  intros Hk. apply dial_ok_callers; [done|]. intros c' Hl. apply lookup_delete_Some in Hl as [_ Hl]. by eapply k_waiting.
Qed.

(** A command is given the connection there is. *)
Lemma dial_ok_given s c g : dial_ok s → conn s = Some g → dial_ok (given c g s).
Proof.
  intros Hk Hc. pose proof (dial_ok_leave s c Hk) as [H1 H2 H3 H4 H5 H6 H7]. split; try done.
  - intros c' g' Hl. cbn in Hl. apply lookup_insert_Some in Hl as [[_ <-]|[_ Hl]]; [by apply (k_conn _ Hk)|by eapply (k_command _ Hk)].
  - intros t g' Ht. destruct (H7 t g' Ht) as (Hn & _). cbn in Hn. congruence.
Qed.

(** One active task takes a step. *)
Lemma dials_task s t k k0 t' :
  tasks s !! t = Some k0 → active k0 → active k → dials (task t k s) t' ↔ dials s t'.
Proof.
  intros Ht H0 Hk. unfold dials, task. cbn. destruct (decide (t = t')) as [<-|Hne].
  - rewrite lookup_insert_eq, Ht. naive_solver.
  - by rewrite lookup_insert_ne.
Qed.

Lemma dial_ok_task s t k0 k :
  dial_ok s → tasks s !! t = Some k0 → active k0 → active k →
  (k = Connecting → conn s = None) →
  (∀ g, k = Placing g → conn s = None ∧ (g < conn_gen s)%nat ∧ ∀ c, commands s !! c ≠ Some g) →
  dial_ok (task t k s).
Proof.
  intros [H1 H2 H3 H4 H5 H6 H7] Ht H0 Hk Hc Hp. split; try done.
  - intros t1 t2. rewrite !(dials_task s t k k0) by done. apply H1.
  - cbn [dialing task set_tasks]. rewrite H2. split; intros [t' Hd]; exists t'; by apply (dials_task s t k k0).
  - intros c Hl. exists t, k. apply lookup_insert_eq.
  - intros t' Hl. cbn in Hl. apply lookup_insert_Some in Hl as [[_ ->]|[_ Hl]]; [by apply Hc|by eapply H6].
  - intros t' g Hl. cbn in Hl. apply lookup_insert_Some in Hl as [[_ ->]|[_ Hl]]; [by apply Hp|by apply (H7 t')].
Qed.

Lemma dial_ok_start s t : dial_ok s → dialing s = false → tasks s !! t = None → dial_ok (set_dialing true (task t Looking s)).
Proof.
  intros [H1 H2 H3 H4 H5 H6 H7] Hd Ht.
  assert (∀ t', ¬ dials s t') as Hno by (intros t' Hx; rewrite (proj2 H2) in Hd by eauto; done).
  assert (∀ t', dials (set_dialing true (task t Looking s)) t' ↔ t' = t) as Hdials.
  { intros t'. unfold dials. cbn. destruct (decide (t = t')) as [<-|Hne].
    - rewrite lookup_insert_eq. split; [done|]. intros _. by exists Looking.
    - rewrite lookup_insert_ne by done. split; [intros Hx; by destruct (Hno t')|congruence]. }
  split; try done.
  - intros t1 t2 ->%Hdials ->%Hdials. done.
  - split; [intros _; exists t; by apply Hdials|done].
  - intros c Hl. exists t, Looking. apply lookup_insert_eq.
  - intros t' Hl. cbn in Hl. apply lookup_insert_Some in Hl as [[_ ?]|[_ Hl]]; [done|by eapply H6].
  - intros t' g Hl. cbn in Hl. apply lookup_insert_Some in Hl as [[_ ?]|[_ Hl]]; [done|by apply (H7 t')].
Qed.

(** The active task of a state with one. *)
Lemma only_dial s t t' k k' :
  dial_ok s → tasks s !! t = Some k → active k → tasks s !! t' = Some k' → active k' → t' = t.
Proof. intros Hk Ht Ha Ht' Ha'. apply (k_one s Hk); [by exists k'|by exists k]. Qed.

Lemma dial_ok_connects s t :
  dial_ok s → tasks s !! t = Some Connecting → dial_ok (set_gen (S (conn_gen s)) (task t (Placing (conn_gen s)) s)).
Proof.
  intros Hk Ht. pose proof (k_connecting s Hk t Ht) as Hn.
  assert (∀ t' k, tasks s !! t' = Some k → active k → t' = t) as Hone by (intros; by eapply only_dial).
  destruct Hk as [H1 H2 H3 H4 H5 H6 H7]. split; try done.
  - intros t1 t2 Ha Hb. apply H1; by eapply (dials_task s t (Placing (conn_gen s)) Connecting).
  - cbn. rewrite H2. split; intros [t' Hd]; exists t'; by apply (dials_task s t (Placing (conn_gen s)) Connecting).
  - intros c Hl. exists t, (Placing (conn_gen s)). apply lookup_insert_eq.
  - intros g Hg. cbn in *. apply H4 in Hg. lia.
  - intros c g Hg. cbn in *. apply H5 in Hg. lia.
  - intros t' g Hl. cbn in *. apply lookup_insert_Some in Hl as [[_ Hg]|[Hne Hl]].
    + injection Hg as <-. split_and!; [done|lia|]. intros c Hc. apply H5 in Hc. lia.
    + destruct Hne. symmetry. by eapply (Hone t').
Qed.

Lemma dial_ok_places s t g :
  dial_ok s → tasks s !! t = Some (Placing g) → dial_ok (set_conn (Some g) (task t Closing s)).
Proof.
  intros Hk Ht. destruct (k_placing s Hk t g Ht) as (Hn & Hg & Hf).
  assert (∀ t' k, tasks s !! t' = Some k → active k → t' = t) as Hone by (intros; by eapply only_dial).
  destruct Hk as [H1 H2 H3 H4 H5 H6 H7]. split; try done.
  - intros t1 t2 Ha Hb. apply H1; by eapply (dials_task s t Closing (Placing g)).
  - cbn. rewrite H2. split; intros [t' Hd]; exists t'; by apply (dials_task s t Closing (Placing g)).
  - intros c Hl. exists t, Closing. apply lookup_insert_eq.
  - intros g' Heq. injection Heq as <-. done.
  - intros t' Hl. cbn in Hl. apply lookup_insert_Some in Hl as [[_ ?]|[Hne Hl]]; [done|].
    destruct Hne. symmetry. by eapply (Hone t').
  - intros t' g' Hl. cbn in Hl. apply lookup_insert_Some in Hl as [[_ ?]|[Hne Hl]]; [done|].
    destruct Hne. symmetry. by eapply (Hone t').
Qed.

Lemma dial_ok_closes s t : dial_ok s → tasks s !! t = Some Closing → dial_ok (set_dialing false (task t Waking s)).
Proof.
  intros Hk Ht. assert (∀ t' k, tasks s !! t' = Some k → active k → t' = t) as Hone by (intros; by eapply only_dial).
  assert (∀ t', ¬ dials (set_dialing false (task t Waking s)) t') as Hno.
  { intros t' (k & Hl & Ha). cbn in Hl. apply lookup_insert_Some in Hl as [[_ <-]|[Hne Hl]]; [by apply Ha|].
    destruct Hne. symmetry. by eapply Hone. }
  destruct Hk as [H1 H2 H3 H4 H5 H6 H7]. split; try done.
  - intros t1 t2 Ha. by destruct (Hno t1).
  - split; [done|]. intros [t' Ha]. by destruct (Hno t').
  - intros c Hl. exists t, Waking. apply lookup_insert_eq.
  - intros t' Hl. cbn in Hl. apply lookup_insert_Some in Hl as [[_ ?]|[_ Hl]]; [done|by eapply H6].
  - intros t' g Hl. cbn in Hl. apply lookup_insert_Some in Hl as [[_ ?]|[_ Hl]]; [done|by apply (H7 t')].
Qed.

Lemma dial_ok_wakes s t :
  dial_ok s → tasks s !! t = Some Waking →
  dial_ok (set_callers ((λ x, (x.1, true)) <$> callers s) (set_tasks (delete t (tasks s)) s)).
Proof.
  intros [H1 H2 H3 H4 H5 H6 H7] Ht. set (s' := set_callers _ _).
  assert (∀ t', dials s' t' ↔ dials s t') as Hdials.
  { intros t'. unfold dials. cbn. destruct (decide (t = t')) as [<-|Hne].
    - rewrite lookup_delete_eq, Ht. split; intros (k & Heq & Ha); [done|]. injection Heq as <-. by destruct Ha.
    - by rewrite lookup_delete_ne. }
  split; try done.
  - intros t1 t2. rewrite !Hdials. apply H1.
  - change (dialing s') with (dialing s). rewrite H2. by setoid_rewrite Hdials.
  - intros c Hl. cbn in Hl. rewrite lookup_fmap in Hl. by destruct (callers s !! c) as [[]|].
  - intros t' Hl. cbn in Hl. apply lookup_delete_Some in Hl as [_ Hl]. by eapply H6.
  - intros t' g Hl. cbn in Hl. apply lookup_delete_Some in Hl as [_ Hl]. by apply (H7 t').
Qed.

Lemma dial_ok_timed_out s c g :
  dial_ok s → dial_ok (drop_conn g (set_commands (delete c (commands s)) s)).
Proof.
  intros Hk. set (s1 := set_commands (delete c (commands s)) s).
  assert (dial_ok s1) as H1.
  { eapply dial_ok_fewer; [exact Hk|done..|by left| |exact (k_waiting _ Hk)]. intros c' g' Hl.
    cbn in Hl. by apply lookup_delete_Some in Hl as [_ Hl]. }
  unfold drop_conn. destruct (conn s1) as [g'|]; [|done]. destruct (Nat.eqb g' g); [|done].
  eapply dial_ok_fewer; [exact H1|done..|by right|done|exact (k_waiting _ H1)].
Qed.

Lemma dial_ok_step s s' : dial_ok s → step s s' → dial_ok s'.
Proof.
  intros Hk Hst. destruct Hst.
  - by apply dial_ok_move.
  - by apply dial_ok_given.
  - by apply dial_ok_move.
  - apply dial_ok_move; [done|]. intros _. destruct (proj1 (k_dialing _ Hk)) as (t & k & Ht & _); [done|]. by exists t, k.
  - apply dial_ok_move; [by apply dial_ok_start|]. intros _. exists t, Looking. apply lookup_insert_eq.
  - by apply dial_ok_given.
  - by apply dial_ok_leave.
  - eapply dial_ok_task; [done..|by destruct (conn s)| |]; destruct (conn s); done.
  - by apply dial_ok_connects.
  - by eapply dial_ok_task.
  - by apply dial_ok_places.
  - by apply dial_ok_closes.
  - by apply dial_ok_wakes.
  - eapply dial_ok_fewer; [exact Hk|done..|by left| |exact (k_waiting _ Hk)]. intros c' g' Hl.
    cbn in Hl. by apply lookup_delete_Some in Hl as [_ Hl].
  - by apply dial_ok_timed_out.
Qed.

Lemma dial_ok_idle : dial_ok idle.
Proof.
  split; cbn; intros *; rewrite ?lookup_empty; try done; unfold dials; cbn.
  - intros (k & Hk & _). by rewrite lookup_empty in Hk.
  - split; [done|]. intros (t & k & Hk & _). by rewrite lookup_empty in Hk.
Qed.

Lemma dial_ok_steps s s' : dial_ok s → steps s s' → dial_ok s'.
Proof. intros Hk Hs. induction Hs as [|s s1 s2 _ IH Hst]; [done|]. eapply dial_ok_step; [by apply IH|done]. Qed.

(** However requests, dials and deadlines interleave: one dial runs at a
    time; a connection that is put in place never replaces one that is there;
    and a caller that waits, and has not been woken, is waiting for a task
    that will wake it. *)
Theorem one_dial_at_a_time s :
  reachable s →
  (∀ t t', dials s t → dials s t' → t = t')
  ∧ (∀ t g, tasks s !! t = Some (Placing g) → conn s = None)
  ∧ ∀ c, callers s !! c = Some (Waiting, false) → ∃ t k, tasks s !! t = Some k.
Proof.
  intros Hr. pose proof (dial_ok_steps _ _ dial_ok_idle Hr) as Hk. split_and!; [by apply k_one| |by apply k_waiting].
  intros t g Ht. by destruct (k_placing _ Hk t g Ht).
Qed.

(** The steps a task has left, but for the waking. *)
Definition rank (k : Task) : nat :=
  match k with Looking => 4 | Connecting => 3 | Placing _ => 2 | Closing => 1 | Waking => 0 end.

Lemma rank_step s s' t k c :
  step s s' → tasks s !! t = Some k → callers s' !! c = Some (Waiting, false) →
  tasks s' !! t = Some k ∨ ∃ k', tasks s' !! t = Some k' ∧ (rank k' < rank k)%nat.
Proof.
  assert (∀ t0 k0 k1, tasks s !! t = Some k → tasks s !! t0 = Some k0 → (rank k1 < rank k0)%nat →
    <[t0 := k1]> (tasks s) !! t = Some k ∨ ∃ k', <[t0 := k1]> (tasks s) !! t = Some k' ∧ (rank k' < rank k)%nat) as Hown.
  { intros t0 k0 k1 Ht H0 Hr. destruct (decide (t0 = t)) as [->|Hne].
    - right. exists k1. rewrite lookup_insert_eq. split; [done|]. congruence.
    - left. by rewrite lookup_insert_ne. }
  intros Hst Ht Hc. destruct Hst; cbn -[rank] in *; try (by left); try (by (eapply Hown; [done..|cbn; lia])).
  - left. rewrite lookup_insert_ne; [done|congruence].
  - eapply Hown; [done..|]. destruct (conn s); cbn; lia.
  - rewrite lookup_fmap in Hc. by destruct (callers s !! c) as [[]|].
  - left. unfold drop_conn. destruct (conn _) as [g'|]; [|done]. by destruct (Nat.eqb g' g).
Qed.

(** A task has a step of its own to take, whatever the state. *)
Lemma task_can_step s t k : tasks s !! t = Some k → ∃ s', step s s' ∧ tasks s' !! t ≠ tasks s !! t.
Proof.
  intros Ht. assert (∀ k', k' ≠ k → <[t := k']> (tasks s) !! t ≠ tasks s !! t) as Hne.
  { intros k' Hk. rewrite lookup_insert_eq, Ht. congruence. }
  destruct k as [| |g| |].
  - eexists. split; [by apply d_looks|]. apply Hne. by destruct (conn s).
  - eexists. split; [by apply (d_fails t)|]. by apply Hne.
  - eexists. split; [by apply (d_places t g)|]. by apply Hne.
  - eexists. split; [by apply (d_closes t)|]. by apply Hne.
  - eexists. split; [by apply (d_wakes t)|]. cbn. by rewrite lookup_delete_eq, Ht.
Qed.

#[export] Instance Task_eq_dec : EqDecision Task.
Proof. solve_decision. Defined.

(** A run in which [c] waits and is not woken, and how many of its steps were
    the task [t]'s own. *)
Inductive waits (t c : nat) (s : Conn) : nat → Conn → Prop :=
  | w_here : callers s !! c = Some (Waiting, false) → waits t c s 0 s
  | w_step n s' s'' : waits t c s n s' → step s' s'' → callers s'' !! c = Some (Waiting, false) →
      waits t c s (if bool_decide (tasks s'' !! t = tasks s' !! t) then n else S n) s''.

Lemma waits_rank t c s n s' k :
  waits t c s n s' → tasks s !! t = Some k → ∃ k', tasks s' !! t = Some k' ∧ (n + rank k' ≤ rank k)%nat.
Proof.
  intros Hw Ht. induction Hw as [Hc|n s1 s2 _ IH Hst Hc]; [exists k; split; [done|lia]|].
  destruct IH as (k1 & H1 & Hle). destruct (rank_step _ _ t k1 c Hst H1 Hc) as [H2|(k2 & H2 & Hlt)].
  - exists k1. rewrite bool_decide_true by congruence. done.
  - exists k2. split; [done|]. case_bool_decide; lia.
Qed.

(** C10. Nobody waits in vain: a caller that waits, not yet woken, waits for a
    task that takes at most four steps while the caller still waits, whatever
    everyone else does in between, and that always has a step to take; so the
    next one wakes it. *)
Theorem a_waiting_caller_is_woken s c :
  reachable s → callers s !! c = Some (Waiting, false) →
  ∃ t, ∀ n s', waits t c s n s' →
    (n ≤ 4)%nat ∧ ∃ s'', step s' s'' ∧ tasks s'' !! t ≠ tasks s' !! t.
Proof.
  intros Hr Hc. pose proof (dial_ok_steps _ _ dial_ok_idle Hr) as Hk.
  destruct (k_waiting s Hk c Hc) as (t & k & Ht). exists t. intros n s' Hw.
  destruct (waits_rank t c s n s' k Hw Ht) as (k' & Ht' & Hle). split; [|by eapply task_can_step].
  assert (rank k ≤ 4)%nat by (destruct k; cbn; lia). lia.
Qed.

(** A generation that is gone stays gone. *)
Definition gone (g : nat) (s : Conn) : Prop :=
  dial_ok s ∧ conn s ≠ Some g ∧ (g < conn_gen s)%nat ∧ ∀ t, tasks s !! t ≠ Some (Placing g).

Lemma gone_step g s s' : gone g s → step s s' → gone g s'.
Proof.
  intros (Hk & Hc & Hg & Hp) Hst. split; [by eapply dial_ok_step|]. destruct Hst; cbn; try done.
  - split_and!; [done..|]. intros t' Hl. apply lookup_insert_Some in Hl as [[_ ?]|[_ Hl]]; [done|by apply (Hp t')].
  - split_and!; [done..|]. intros t' Hl. apply lookup_insert_Some in Hl as [[_ Heq]|[_ Hl]]; [by destruct (conn s)|by apply (Hp t')].
  - split_and!; [done|lia|]. intros t' Hl. apply lookup_insert_Some in Hl as [[_ Heq]|[_ Hl]]; [injection Heq as <-; lia|by apply (Hp t')].
  - split_and!; [done..|]. intros t' Hl. apply lookup_insert_Some in Hl as [[_ ?]|[_ Hl]]; [done|by apply (Hp t')].
  - split_and!; [|done|]. { intros Heq. injection Heq as ->. by apply (Hp t). }
    intros t' Hl. apply lookup_insert_Some in Hl as [[_ ?]|[_ Hl]]; [done|by apply (Hp t')].
  - split_and!; [done..|]. intros t' Hl. apply lookup_insert_Some in Hl as [[_ ?]|[_ Hl]]; [done|by apply (Hp t')].
  - split_and!; [done..|]. intros t' Hl. apply lookup_delete_Some in Hl as [_ Hl]. by apply (Hp t').
  - unfold drop_conn. destruct (conn (set_commands _ _)) as [g'|]; [|by split_and!].
    destruct (Nat.eqb g' _); by split_and!.
Qed.

(** A command whose connection is gone cannot take a later one with it: its
    deadline, whenever it comes, drops nothing. *)
Theorem stale_deadline_spares s s' c g :
  reachable s → commands s !! c = Some g → conn s ≠ Some g → steps s s' → drop_conn g s' = s'.
Proof.
  intros Hr Hc Hg Hs. pose proof (dial_ok_steps _ _ dial_ok_idle Hr) as Hk.
  assert (gone g s) as H0.
  { split_and!; [done|done|by eapply k_command|]. intros t Ht. by destruct (k_placing _ Hk t g Ht) as (_ & _ & Hf); apply (Hf c). }
  assert (gone g s') as (_ & Hn & _).
  { clear Hr Hc Hg Hk. induction Hs as [|s s1 s2 _ IH Hst]; [done|]. eapply gone_step; [by apply IH|done]. }
  unfold drop_conn. destruct (conn s') as [g'|]; [|done]. destruct (Nat.eqb_spec g' g) as [->|]; [by destruct Hn|done].
Qed.

End Dialling.

(** ** What a bucket allows *)

Module Buckets.
Import Bucket.

Lemma qmin_spec a b : (qmin a b == a ∧ a <= b ∨ qmin a b == b ∧ b <= a)%Q.
Proof.
  unfold qmin. destruct (Qle_bool a b) eqn:E.
  - apply Qle_bool_iff in E. left. split; [reflexivity|done].
  - right. split; [reflexivity|]. destruct (Qlt_le_dec b a) as [|Hab]; [by apply Qlt_le_weak|].
    apply Qle_bool_iff in Hab. congruence.
Qed.

#[export] Instance qmin_proper : Proper (Qeq ==> Qeq ==> Qeq) qmin.
Proof.
  intros a a' Ha b b' Hb. destruct (qmin_spec a b) as [[-> ?]|[-> ?]], (qmin_spec a' b') as [[-> ?]|[-> ?]]; lra.
Qed.

Lemma seconds_eq us : (seconds us == inject_Z us / 1000000)%Q.
Proof.
  unfold seconds. rewrite Qred_correct. pose proof (Z.div_mod us MICROS ltac:(done)) as H. rewrite H at 3.
  unfold MICROS in *. rewrite inject_Z_plus, inject_Z_mult. field.
Qed.

Lemma seconds_mono a b : a ≤ b → (seconds a <= seconds b)%Q.
Proof. intros H. rewrite !seconds_eq. apply Qmult_le_compat_r; [by rewrite <- Zle_Qle|done]. Qed.

Section bucket.
Context (rate burst : Q) (Hrate : (0 < rate)%Q) (Hburst : (1 <= burst)%Q).
Local Open Scope Q_scope.

(** A key no command has been too late for: its bucket is not over-full, was
    last touched before now, and will have refilled before it expires. *)
Definition key_ok (us : Z) (k : RateKey) : Prop :=
  match rk_bucket k with
  | Some b => 0 <= b_tokens b ∧ b_tokens b <= burst ∧ b_ts b <= seconds us
      ∧ burst <= (seconds (rk_expires k) - b_ts b) * rate
  | None => True
  end.

Definition level (us : Z) (k : RateKey) : Q := refilled rate burst (seconds us) (found us k).

Lemma refilled_full now : refilled rate burst now None == burst.
Proof. unfold refilled. rewrite Qred_correct. destruct (qmin_spec burst (burst + (now - now) * rate)) as [[-> _]|[-> _]]; lra. Qed.

(** A bucket that expired was full. *)
Lemma expired_is_full us k : key_ok us k → level us k == refilled rate burst (seconds us) (rk_bucket k).
Proof using Hrate.
  unfold key_ok, level, found. destruct (rk_expires k <=? us)%Z eqn:E; [|done]. apply Z.leb_le in E.
  destruct (rk_bucket k) as [b|]; [|done]. intros (H0 & _ & _ & Hf). rewrite refilled_full. unfold refilled.
  rewrite Qred_correct. pose proof (seconds_mono _ _ E) as Hs.
  assert (burst <= (seconds us - b_ts b) * rate) as Hle.
  { eapply Qle_trans; [exact Hf|]. apply Qmult_le_compat_r; lra. }
  destruct (qmin_spec burst (b_tokens b + (seconds us - b_ts b) * rate)) as [[-> _]|[-> ?]]; lra.
Qed.

Lemma level_bounds us k : key_ok us k → 0 <= level us k ∧ level us k <= burst.
Proof using Hrate Hburst.
  intros Hk. rewrite expired_is_full by done. unfold key_ok in Hk. destruct (rk_bucket k) as [b|].
  - destruct Hk as (H0 & H1 & H2 & _). unfold refilled. rewrite Qred_correct.
    assert (0 <= (seconds us - b_ts b) * rate) by (apply Qmult_le_0_compat; lra).
    destruct (qmin_spec burst (b_tokens b + (seconds us - b_ts b) * rate)) as [[-> ?]|[-> ?]]; lra.
  - rewrite refilled_full. lra.
Qed.

Lemma key_ok_later us us' k : (us <= us')%Z → key_ok us k → key_ok us' k.
Proof. intros H. unfold key_ok. pose proof (seconds_mono _ _ H). destruct (rk_bucket k); [|done]. intros (? & ? & ? & ?). split_and!; try done; lra. Qed.

(** Tokens accrue at [rate], up to [burst]. *)
Lemma level_later us us' k :
  (us <= us')%Z → key_ok us k → level us' k == qmin burst (level us k + (seconds us' - seconds us) * rate).
Proof using Hrate Hburst.
  intros Hle Hk. pose proof (seconds_mono _ _ Hle) as Hs. pose proof (level_bounds us k Hk) as Hb.
  rewrite (expired_is_full us') by (by eapply key_ok_later). revert Hb. rewrite (expired_is_full us) by done. unfold key_ok in Hk.
  assert (0 <= (seconds us' - seconds us) * rate) as Hd by (apply Qmult_le_0_compat; lra).
  set (d := (seconds us' - seconds us) * rate) in *. destruct (rk_bucket k) as [b|].
  - unfold refilled. rewrite !Qred_correct.
    assert ((seconds us' - b_ts b) * rate == (seconds us - b_ts b) * rate + d) as Heq by (unfold d; ring).
    set (x := (seconds us - b_ts b) * rate) in *. set (y := (seconds us' - b_ts b) * rate) in *. intros Hb.
    destruct (qmin_spec burst (b_tokens b + y)) as [[-> ?]|[-> ?]], (qmin_spec burst (b_tokens b + x)) as [[Hx ?]|[Hx ?]];
      match goal with |- _ == qmin ?a ?c => destruct (qmin_spec a c) as [[-> ?]|[-> ?]] end; rewrite ?Hx in *; lra.
  - rewrite !refilled_full. intros _. destruct (qmin_spec burst (burst + d)) as [[-> ?]|[-> ?]]; lra.
Qed.

(** One take: granted when there is a token, which it takes. *)
Lemma take_spec us k :
  key_ok us k →
  let '(wait, k') := TAKE_TOKEN rate burst us k in
  key_ok us k' ∧ (Qle_bool wait 0 = true ↔ 1 <= level us k)
  ∧ level us k' == (if Qle_bool 1 (level us k) then level us k - 1 else level us k)
  ∧ (level us k < 1 → wait == (1 - level us k) / rate).
Proof using Hrate Hburst.
  intros Hk. pose proof (level_bounds us k Hk) as [L0 L1]. unfold TAKE_TOKEN. fold (level us k).
  set (expires := (us + (Qceiling (burst / rate) + 1) * MICROS)%Z).
  assert (us < expires)%Z as Hexp.
  { unfold expires, MICROS. pose proof (Qceiling_resp_le 0 (burst / rate)) as Hc.
    assert (0 <= burst / rate) by (apply Qle_shift_div_l; lra). specialize (Hc H). change (Qceiling 0) with 0%Z in Hc. lia. }
  assert (burst <= (seconds expires - seconds us) * rate) as Hfull.
  { rewrite !seconds_eq. unfold expires, MICROS. rewrite inject_Z_plus, inject_Z_mult, inject_Z_plus.
    pose proof (Qle_ceiling (burst / rate)) as Hc. set (n := inject_Z (Qceiling (burst / rate))) in *.
    assert (burst <= n * rate) as Hn. { apply Qle_shift_div_r in Hc || idtac. assert (burst == burst / rate * rate) as Hb by (field; lra).
      rewrite Hb. apply Qmult_le_compat_r; lra. }
    assert ((inject_Z us + (n + inject_Z 1) * inject_Z 1000000) / 1000000 - inject_Z us / 1000000 == n + 1) as -> by field. lra. }
  assert (∀ tokens, 0 <= tokens → tokens <= burst →
    level us {| rk_bucket := Some {| b_tokens := tokens; b_ts := seconds us |}; rk_expires := expires |} == tokens) as Hlev.
  { intros tokens H0 H1. unfold level, found. cbn [rk_expires rk_bucket].
    destruct (expires <=? us)%Z eqn:E; [apply Z.leb_le in E; lia|]. unfold refilled. cbn [b_tokens b_ts]. rewrite Qred_correct.
    destruct (qmin_spec burst (tokens + (seconds us - seconds us) * rate)) as [[-> ?]|[-> ?]]; lra. }
  destruct (Qle_bool 1 (level us k)) eqn:E.
  - apply Qle_bool_iff in E. assert (Qred (level us k - 1) == level us k - 1) as Hr by apply Qred_correct. split_and!.
    + unfold key_ok. cbn. split_and!; [lra|lra|lra|done].
    + done.
    + rewrite Hlev; lra.
    + lra.
  - assert (level us k < 1) as Hlt by (apply Qnot_le_lt; intros H; apply Qle_bool_iff in H; congruence). split_and!.
    + unfold key_ok. cbn. split_and!; [done|done|lra|done].
    + split; [|lra]. intros Hw%Qle_bool_iff. rewrite Qred_correct in Hw.
      assert (0 < (1 - level us k) / rate) by (apply Qlt_shift_div_l; lra). lra.
    + apply Hlev; done.
    + intros _. apply Qred_correct.
Qed.

(** Instants in order, from one on. *)
Fixpoint ordered (from : Z) (at_ : list Z) : Prop :=
  match at_ with [] => True | us :: at_ => (from <= us)%Z ∧ ordered us at_ end.

Lemma takes_bound at_ us0 us1 k :
  key_ok us0 k → ordered us0 at_ → Forall (fun us => (us <= us1)%Z) at_ → (us0 <= us1)%Z →
  inject_Z (Z.of_nat (granted (takes rate burst at_ k).1)) <= level us0 k + (seconds us1 - seconds us0) * rate.
Proof using Hrate Hburst.
  revert us0 k; induction at_ as [|us at_ IH]; intros us0 k Hk Ho Hall H01; cbn [takes].
  - pose proof (level_bounds us0 k Hk) as [H0 _]. pose proof (seconds_mono _ _ H01).
    assert (0 <= (seconds us1 - seconds us0) * rate) by (apply Qmult_le_0_compat; lra).
    change (0 <= level us0 k + (seconds us1 - seconds us0) * rate). lra.
  - destruct Ho as [Hle Ho]. inversion Hall as [|? ? Hus Hall']; subst.
    pose proof (key_ok_later _ _ _ Hle Hk) as Hk1. pose proof (take_spec us k Hk1) as Ht.
    destruct (TAKE_TOKEN rate burst us k) as [wait k']. destruct Ht as (Hk' & Hw & Hl & _).
    specialize (IH us k' Hk' Ho Hall' Hus). destruct (takes rate burst at_ k') as [waits k'']. cbn [fst] in *.
    pose proof (level_later us0 us k Hle Hk) as Hgrow.
    assert (level us k <= level us0 k + (seconds us - seconds us0) * rate) as Hgrow'.
    { rewrite Hgrow. destruct (qmin_spec burst (level us0 k + (seconds us - seconds us0) * rate)) as [[-> ?]|[-> ?]]; lra. }
    unfold granted in *. cbn [keep List.filter]. fold (keep (fun w => Qle_bool w 0) waits).
    destruct (Qle_bool wait 0) eqn:E.
    + pose proof (proj1 Hw eq_refl) as H1. rewrite (proj2 (Qle_bool_iff _ _) H1) in Hl.
      cbn [length]. rewrite Nat2Z.inj_succ. unfold Z.succ. rewrite inject_Z_plus. change (inject_Z 1) with 1. lra.
    + destruct (Qle_bool 1 (level us k)) eqn:E1; [|lra]. apply Qle_bool_iff, Hw in E1. congruence.
Qed.

Lemma takes_ok at_ us0 us1 k :
  key_ok us0 k → ordered us0 at_ → Forall (fun us => (us <= us1)%Z) at_ → (us0 <= us1)%Z →
  key_ok us1 (takes rate burst at_ k).2.
Proof using Hrate Hburst.
  revert us0 k; induction at_ as [|us at_ IH]; intros us0 k Hk Ho Hall H01; cbn [takes].
  - by eapply key_ok_later.
  - destruct Ho as [Hle Ho]. inversion Hall as [|? ? Hus Hall']; subst.
    pose proof (take_spec us k (key_ok_later _ _ _ Hle Hk)) as Ht.
    destruct (TAKE_TOKEN rate burst us k) as [wait k']. destruct Ht as (Hk' & _).
    specialize (IH us k' Hk' Ho Hall' Hus). by destruct (takes rate burst at_ k').
Qed.

End bucket.

Lemma rate_is_positive rpm : 0 < rpm → let '(rate, burst) := rate_and_burst rpm in
  (0 < rate)%Q ∧ (1 <= burst)%Q ∧ (burst == inject_Z rpm)%Q ∧ (rate == inject_Z rpm / 60)%Q.
Proof.
  intros H. unfold rate_and_burst. rewrite Z.max_l by lia.
  assert (1 <= inject_Z rpm)%Q by (change 1%Q with (inject_Z 1); rewrite <- Zle_Qle; lia).
  split_and!; [rewrite Qred_correct; apply Qlt_shift_div_l; lra|done|reflexivity|apply Qred_correct].
Qed.

(** C9. A route limited to [rpm] requests a minute lets no more than [rpm] and
    what accrues through, over any stretch of time, whatever came before it
    and however the requests in it are spaced: less than twice the allowance
    in less than a minute. *)
Theorem bucket_bounds_a_stretch rpm before at_ us0 us1 :
  0 < rpm → us0 ≤ us1 → ordered 0 before → Forall (λ us, us ≤ us0) before → 0 ≤ us0 →
  ordered us0 at_ → Forall (λ us, us ≤ us1) at_ →
  let '(rate, burst) := rate_and_burst rpm in
  let waits := (takes rate burst at_ (takes rate burst before new_key).2).1 in
  (inject_Z (Z.of_nat (granted waits)) <= inject_Z rpm * (1 + inject_Z (us1 - us0) / 60000000))%Q.
Proof.
  intros Hrpm H01 Hb Hbu H0 Ha Hau. pose proof (rate_is_positive rpm Hrpm) as Hr.
  destruct (rate_and_burst rpm) as [rate burst]. destruct Hr as (Hrate & Hburst & Heb & Her). cbv zeta.
  pose proof (takes_ok rate burst Hrate Hburst before 0 us0 new_key I Hb Hbu H0) as Hk.
  pose proof (takes_bound rate burst Hrate Hburst at_ us0 us1 _ Hk Ha Hau H01) as Hg.
  pose proof (level_bounds rate burst Hrate Hburst us0 _ Hk) as [_ Hl].
  eapply Qle_trans; [exact Hg|]. set (l := level _ _ _ _) in *. clearbody l. clear Hg Hk.
  rewrite !seconds_eq, Her. unfold Z.sub. rewrite inject_Z_plus, inject_Z_opp.
  rewrite Heb in Hl. set (r := inject_Z rpm) in *.
  assert (r * (1 + (inject_Z us1 + - inject_Z us0) / 60000000)
    == r + (inject_Z us1 / 1000000 - inject_Z us0 / 1000000) * (r / 60))%Q as -> by field. lra.
Qed.

(** A wait is exact: with nobody else asking meanwhile, a request refused
    with it is refused before it has passed and granted once it has. *)
Theorem waits_are_exact rpm before us us' rate burst wait k :
  0 < rpm → ordered 0 before → Forall (λ t, t ≤ us) before → 0 ≤ us → us ≤ us' →
  rate_and_burst rpm = (rate, burst) →
  TAKE_TOKEN rate burst us (takes rate burst before new_key).2 = (wait, k) → (0 < wait)%Q →
  Qle_bool (TAKE_TOKEN rate burst us' k).1 0 = true ↔ (wait <= inject_Z (us' - us) / 1000000)%Q.
Proof.
  intros Hrpm Hb Hbu H0 Hus Hrb Htake Hpos. pose proof (rate_is_positive rpm Hrpm) as Hr.
  rewrite Hrb in Hr. destruct Hr as (Hrate & Hburst & _).
  pose proof (takes_ok rate burst Hrate Hburst before 0 us new_key I Hb Hbu H0) as Hk.
  set (k0 := (takes rate burst before new_key).2) in *.
  pose proof (take_spec rate burst Hrate Hburst us k0 Hk) as Ht.
  rewrite Htake in Ht. destruct Ht as (Hk' & Hw & Hl & Hwait).
  assert (level rate burst us k0 < 1)%Q as Hlt.
  { apply Qnot_le_lt. intros H. apply Hw, Qle_bool_iff in H. lra. }
  specialize (Hwait Hlt).
  destruct (Qle_bool 1 (level rate burst us k0)) eqn:E; [apply Qle_bool_iff in E; lra|].
  pose proof (take_spec rate burst Hrate Hburst us' k (key_ok_later _ _ us us' k Hus Hk')) as Ht'.
  destruct (TAKE_TOKEN rate burst us' k) as [wait' k'']. destruct Ht' as (_ & Hw' & _ & _). cbn [fst].
  rewrite Hw', (level_later rate burst Hrate Hburst us us' k Hus Hk'), Hl, Hwait.
  assert (inject_Z (us' - us) / 1000000 == seconds us' - seconds us)%Q as ->.
  { rewrite !seconds_eq. unfold Z.sub. rewrite inject_Z_plus, inject_Z_opp. field. }
  set (l := level rate burst us k0) in *. set (dt := (seconds us' - seconds us)%Q).
  assert ((1 - l) / rate <= dt ↔ 1 <= l + dt * rate)%Q as ->.
  { split; intros H.
    - assert ((1 - l) / rate * rate == 1 - l)%Q as Hm by (field; lra).
      assert ((1 - l) / rate * rate <= dt * rate)%Q by (apply Qmult_le_compat_r; lra). lra.
    - apply Qle_shift_div_r; lra. }
  destruct (qmin_spec burst (l + dt * rate)) as [[-> ?]|[-> ?]]; split; lra.
Qed.

End Buckets.

(** ** Small cases *)

Module SmallCache.
Import Bucket Dial Dialling Buckets.

(** One caller dials and is served, a second joins the connection and its
    deadline passes, and a third dials again. *)
Definition dialled : Conn := move 0 (Waiting, false) (set_dialing true (task 0 Looking (move 0 (FoundNone, false) (move 0 (Registered, false) idle)))).
Definition placing : Conn :=
  let s := task 0 Connecting (move 0 (Waiting, false) (set_dialing true (task 0 Looking (move 0 (FoundNone, false) (move 0 (Registered, false) idle))))) in
  set_gen (S (conn_gen s)) (task 0 (Placing (conn_gen s)) s).
Definition served : Conn := given 0 0 (set_conn (Some 0%nat) (task 0 Closing placing)).
Definition both : Conn := given 1 0 (move 1 (Registered, false) served).
Definition dropped : Conn := drop_conn 0 (set_commands (delete 1%nat (commands both)) both).
Definition cleared : Conn := set_dialing false (task 0 Waking dropped).
Definition again : Conn := move 2 (Waiting, false) (set_dialing true (task 1 Looking (move 2 (FoundNone, false) (move 2 (Registered, false) cleared)))).
Definition connecting : Conn := task 1 Connecting again.
Definition replaced : Conn :=
  let s := set_gen (S (conn_gen connecting)) (task 1 (Placing (conn_gen connecting)) connecting) in
  set_conn (Some (conn_gen connecting)) (task 1 Closing s).

Lemma dialled_reachable : reachable dialled.
Proof.
  eapply s_step; [|exact (d_starts 0 false 0 (move 0 (FoundNone, false) (move 0 (Registered, false) idle)) eq_refl eq_refl eq_refl)].
  eapply s_step; [|exact (d_none 0 false (move 0 (Registered, false) idle) eq_refl eq_refl)].
  eapply s_step; [|exact (d_register 0 idle eq_refl)]. apply s_refl.
Qed.

Lemma placing_reachable : reachable placing.
Proof.
  eapply s_step; [|exact (d_connects 0 (task 0 Connecting dialled) eq_refl)].
  eapply s_step; [|exact (d_looks 0 dialled eq_refl)]. exact dialled_reachable.
Qed.

Lemma dropped_reachable : reachable dropped.
Proof.
  eapply s_step; [|exact (d_timed_out 1 0 both eq_refl)].
  eapply s_step; [|exact (d_found 1 false 0 (move 1 (Registered, false) served) eq_refl eq_refl)].
  eapply s_step; [|exact (d_register 1 served eq_refl)].
  eapply s_step; [|exact (d_served 0 false 0 (set_conn (Some 0%nat) (task 0 Closing placing)) eq_refl eq_refl)].
  eapply s_step; [|exact (d_places 0 0 placing eq_refl)]. exact placing_reachable.
Qed.

Lemma dropped_to_replaced : steps dropped replaced.
Proof.
  eapply s_step; [|exact (d_places 1 1 (set_gen 2 (task 1 (Placing 1) connecting)) eq_refl)].
  eapply s_step; [|exact (d_connects 1 connecting eq_refl)].
  eapply s_step; [|exact (d_looks 1 again eq_refl)].
  eapply s_step; [|exact (d_starts 2 false 1 (move 2 (FoundNone, false) (move 2 (Registered, false) cleared)) eq_refl eq_refl eq_refl)].
  eapply s_step; [|exact (d_none 2 false (move 2 (Registered, false) cleared) eq_refl eq_refl)].
  eapply s_step; [|exact (d_register 2 cleared eq_refl)].
  eapply s_step; [|exact (d_closes 0 dropped eq_refl)]. apply s_refl.
Qed.

Lemma one_dial_at_a_time_witness :
  reachable placing ∧ dials placing 0 ∧ ∀ t, dials placing t → t = 0%nat.
Proof.
  split_and!; [exact placing_reachable|by exists (Placing 0)|].
  intros t Ht. apply (proj1 (one_dial_at_a_time placing placing_reachable) t 0%nat Ht). by exists (Placing 0).
Defined.

Lemma a_waiting_caller_is_woken_witness :
  callers dialled !! 0%nat = Some (Waiting, false)
  ∧ ∃ t, ∀ n s', waits t 0 dialled n s' → (n ≤ 4)%nat ∧ ∃ s'', step s' s'' ∧ tasks s'' !! t ≠ tasks s' !! t.
Proof.
  split; [reflexivity|]. apply a_waiting_caller_is_woken; [exact dialled_reachable|reflexivity].
Defined.

Lemma stale_deadline_spares_witness :
  commands dropped !! 0%nat = Some 0%nat ∧ conn replaced = Some 1%nat ∧ drop_conn 0 replaced = replaced.
Proof.
  split_and!; [reflexivity..|].
  apply (stale_deadline_spares dropped replaced 0 0); [exact dropped_reachable|reflexivity|done|exact dropped_to_replaced].
Defined.

(** Two requests a minute: an empty bucket, one waiting out its refill. *)
Definition three : list Z := [1000000; 1000000; 1000000].

Example third_waits : (takes 2 2 three new_key).1 = [0; 0; (1 # 2)]%Q.
Proof. vm_compute. reflexivity. Qed.

(** What is not a positive number of seconds is no wait, and neither is a
    script that failed: the request goes on. *)
Example odd_waits (parse_f64 : string → option F64) e :
  parse_f64 "-1" = Some (Finite (-1)) → parse_f64 "inf" = Some (Infinite false) →
  parse_f64 "junk" = None → parse_f64 "0.5" = Some (Finite (1 # 2)) →
  map (take_rate_token parse_f64 60) [Ok "-1"; Ok "inf"; Ok "junk"; Err e; Ok "0.5"]
  = [None; None; None; None; Some (1 # 2)%Q].
Proof. intros H1 H2 H3 H4. unfold take_rate_token, wait_from_redis. cbn. by rewrite H1, H2, H3, H4. Qed.

Definition later : list Z := [61000000; 61000000; 61000000; 91000000].

Lemma bucket_bounds_a_stretch_witness :
  granted (takes (1 # 30) 2 later (takes (1 # 30) 2 three new_key).2).1 = 3%nat
  ∧ let '(rate, burst) := rate_and_burst 2 in
    let waits := (takes rate burst later (takes rate burst three new_key).2).1 in
    (inject_Z (Z.of_nat (granted waits)) <= inject_Z 2 * (1 + inject_Z (121000000 - 61000000) / 60000000))%Q.
Proof.
  split; [vm_compute; reflexivity|].
  apply (bucket_bounds_a_stretch 2 three later 61000000 121000000); [lia|lia|..|lia| |]; unfold later, three;
    try (repeat split; lia); repeat constructor; lia.
Defined.

(** The third of three at once waits thirty seconds, and then is let through. *)
Example third_waits_half_a_minute :
  (TAKE_TOKEN (1 # 30) 2 1000000 (takes (1 # 30) 2 [1000000; 1000000] new_key).2).1 = 30%Q
  ∧ Qle_bool (TAKE_TOKEN (1 # 30) 2 31000000
      (TAKE_TOKEN (1 # 30) 2 1000000 (takes (1 # 30) 2 [1000000; 1000000] new_key).2).2).1 0 = true.
Proof. split; vm_compute; reflexivity. Qed.

Lemma waits_are_exact_witness :
  let k := {| rk_bucket := Some {| b_tokens := 0; b_ts := 1 |}; rk_expires := 62000000 |} in
  Qle_bool (TAKE_TOKEN (1 # 30) 2 31000000 k).1 0 = true ↔ (30 <= inject_Z (31000000 - 1000000) / 1000000)%Q.
Proof.
  apply (waits_are_exact 2 [1000000; 1000000] 1000000 31000000); [lia| | |lia|lia|reflexivity|vm_compute; reflexivity|done].
  - repeat split; lia.
  - repeat constructor; lia.
Defined.

End SmallCache.
