(* ===== verification/Ordered.v ===== *)
(** * Maps in the order of their keys

    A [BTreeMap] of strings: a finite map, and its entries in the order of the
    keys' bytes. *)

From stdpp Require Import sorting.
From S2P Require Import Prelude Text Money Domain.
From S2P Require Import Efforts Catalog.
#[local] Open Scope string_scope.
#[local] Open Scope list_scope.

Module Ordered.

Section ordered.
Context {A : Type}.

Definition before (a b : string * A) : Prop := str_leb a.1 b.1 = true.

#[export] Instance before_dec a b : Decision (before a b).
Proof. unfold before. apply _. Defined.

(** The entries, in order; and the map of a list of them, the last of equal
    keys. *)
Definition in_order (m : gmap string A) : list (string * A) := merge_sort before (map_to_list m).

Definition collect (fs : list (string * A)) : gmap string A := fold_left (λ m f, <[f.1 := f.2]> m) fs ∅.

Lemma in_order_In m k v : In (k, v) (in_order m) ↔ m !! k = Some v.
Proof.
  unfold in_order. rewrite <- list_elem_of_In, merge_sort_Permutation. apply elem_of_map_to_list.
Qed.

Lemma in_order_length m : length (in_order m) = size m.
Proof. unfold in_order. rewrite merge_sort_Permutation. apply length_map_to_list. Qed.

End ordered.
End Ordered.
