(* ===== verification/Refresh.v ===== *)
(** * Keeping a subscription's tokens fresh

    [crates/oag-core/src/seal.rs]: a credential sealed at rest; and
    [crates/oag-server/src/gateway/refresh.rs] with [store_credentials] of
    [crates/oag-store/src/repo/accounts.rs]: requests on any number of replicas
    that find one account's token about to expire, and what each does, as
    steps that interleave.

    The cipher, base64 and the random nonce are parameters; so is the vendor's
    token endpoint, which may answer anything.  A request's future may be
    dropped at any step, Redis and the database may fail at any step, before
    or after they did what was asked, and the account may be removed.  Time is
    milliseconds. *)

From Stdlib Require Import Ascii.
From S2P Require Import Prelude Text Money Domain.
From S2P Require Import Efforts Catalog Classify Canonical.
From S2P Require Import Wire.
From S2P Require Import Frames.
From S2P Require Import Collected.
From S2P Require Import Identity.
From S2P Require Import Shared.
#[local] Open Scope string_scope.
#[local] Open Scope list_scope.
#[local] Open Scope Z_scope.

(** ** Sealing at rest *)

Record Sealed : Type := { ciphertext : list ascii; nonce : list ascii }.

(** XChaCha20-Poly1305, under a key and a nonce of the lengths it takes. *)
Class Aead := {
  encrypt : list ascii → list ascii → list ascii → option (list ascii);
  decrypt : list ascii → list ascii → list ascii → option (list ascii)
}.

(** What was encrypted decrypts, under the same key and nonce. *)
Class AeadLaws `{Aead} : Prop := {
  decrypts k n plain c : encrypt k n plain = Some c → decrypt k n c = Some plain
}.

Module Seal.
Import Js Wire Credential.

Section seal.
Context `{Aead}.
Context (base64_decode : string → option (list ascii)).
Context (to_vec : Json → list ascii) (from_slice : list ascii → option Json).
Context (serde_error : list ascii → string).

Definition KEY_LEN : nat := 32.
Definition NONCE_LEN : nat := 24.

Definition from_base64 (encoded : string) : result (list ascii) Error :=
  match base64_decode (Str.trim encoded) with
  | None => Err (Config ("security.credential_kek is not valid base64; " +:+
      "generate one with `openssl rand -base64 32`"))
  | Some raw =>
      if Nat.eqb (length raw) KEY_LEN then Ok raw
      else Err (Config ("security.credential_kek must decode to exactly 32 bytes, got "
        +:+ Str.decimal (Z.of_nat (length raw))))
  end.

Definition seal (kek random plaintext : list ascii) : result Sealed Error :=
  match encrypt kek random plaintext with
  | Some c => Ok {| ciphertext := c; nonce := random |}
  | None => Err (Internal "sealing credential failed")
  end.

Definition open (kek : list ascii) (sealed : Sealed) : result (list ascii) Error :=
  if negb (Nat.eqb (length (nonce sealed)) NONCE_LEN) then Err (Internal "stored credential nonce is malformed")
  else match decrypt kek (nonce sealed) (ciphertext sealed) with
       | Some plain => Ok plain
       | None => Err (Internal "could not open sealed credential: wrong key, or the row was tampered with")
       end.

(** A number, as serde writes and reads an [i64]. *)
Definition int (n : Z) : Json :=
  JNumber (if n <? 0 then String "-" (Str.decimal (- n)) else Str.decimal n).

Definition parse_int (text : string) : option Z :=
  match text with
  | String "-" rest =>
      match parse_digits (I64_MAX + 1) rest with Some n => if n =? 0 then None else Some (- n) | None => None end
  | _ => parse_digits I64_MAX text
  end.

Definition as_i64 (v : Json) : option Z := match v with JNumber text => parse_int text | _ => None end.

(** [Serialize]: an absent field is not written. *)
Definition given {A} (k : string) (f : A → Json) (o : option A) : Fields :=
  match o with Some a => [(k, f a)] | None => [] end.

Definition material_fields (m : SecretMaterial) : Fields :=
  [("access_token", JString (access_token m))]
  ++ given "refresh_token" JString (refresh_token m)
  ++ given "expires_at" int (expires_at m)
  ++ [("version", num (version m))]
  ++ given "client_id" JString (client_id m)
  ++ given "account_id" JString (account_id m).

(** [Deserialize]: a field by its name, at most once, or by its place; one with
    [default] may be missing, and an [Option]'s may be null. *)
Definition member (arity : nat) (v : Json) (place : nat) (k : string) : option (option Json) :=
  match v with
  | JObject fs =>
      match keep (λ f, Str.eqb f.1 k) fs with
      | [] => Some None
      | [(_, v)] => Some (Some v)
      | _ => None
      end
  | JArray l => if (length l <=? arity)%nat then Some (nth_error l place) else None
  | _ => None
  end.

Definition optional {A} (read : Json → option A) (v : option Json) : option (option A) :=
  match v with
  | None | Some JNull => Some None
  | Some v => Some <$> read v
  end.

Definition material_of (v : Json) : option SecretMaterial :=
  access ← member 6 v 0 "access_token";
  access ← access;
  access ← as_str access;
  refresh ← member 6 v 1 "refresh_token" ≫= optional as_str;
  expires ← member 6 v 2 "expires_at" ≫= optional as_i64;
  counter ← member 6 v 3 "version";
  counter ← match counter with None => Some 0 | Some v => as_u64 v end;
  client ← member 6 v 4 "client_id" ≫= optional as_str;
  account ← member 6 v 5 "account_id" ≫= optional as_str;
  Some {| access_token := access; refresh_token := refresh; expires_at := expires;
          version := counter; client_id := client; account_id := account |}.

Definition seal_json (kek random : list ascii) (m : SecretMaterial) : result Sealed Error :=
  seal kek random (to_vec (JObject (material_fields m))).

Definition open_json (kek : list ascii) (sealed : Sealed) : result SecretMaterial Error :=
  match open kek sealed with
  | Err e => Err e
  | Ok plain =>
      match from_slice plain ≫= material_of with
      | Some m => Ok m
      | None => Err (Serde (serde_error plain))
      end
  end.

End seal.
End Seal.

(** ** A refresh, step by step *)

(** What a refresh reads of the account's row. *)
Record TokenRow : Type := { tr_sealed : Sealed; tr_version : Z }.

Module Refresh.
Import Credential.

Definition REFRESH_SKEW : Z := 300.
Definition LOCK_TTL : Z := 30.
Definition LOSER_WAIT : Z := 5 * 1000.

(** Where a request is in [ensure_fresh]. *)
Inductive Phase : Type :=
  | AtGate
  | Rereading
  | Locking
  | Losing (until : Z)
  | Reading
  | Presenting (row : TokenRow) (current : SecretMaterial)
  | Asked (row : TokenRow) (current : SecretMaterial)
  | Storing (row : TokenRow) (fresh : SecretMaterial) (sealed : Sealed)
  | Outrun
  | Refused (current : SecretMaterial) (e : Error)
  | Releasing (r : result SecretMaterial Error)
  | Finished (r : result SecretMaterial Error).

(** A request: its replica, the row it was leased, the second it began, and,
    of one that holds the lock, since when. *)
Record Request : Type := {
  rq_replica : nat; rq_row : TokenRow; rq_began : Z; rq_since : Z; rq_phase : Phase
}.

Inductive Event : Type :=
  | Sent (request : nat) (row : TokenRow) (current : SecretMaterial)
  | Answered (current fresh : SecretMaterial).

Record World : Type := {
  now : Z;
  row : option TokenRow;         (* the account's row *)
  rows : list TokenRow;          (* and every one it has been, the last first *)
  redis : Redis.Store;
  gates : gmap nat nat;          (* per replica, who is through *)
  requests : gmap nat Request;
  trace : list Event
}.

Definition unix (w : World) : Z := now w / 1000.

Definition set_now n w := {| now := n; row := row w; rows := rows w; redis := redis w; gates := gates w;
  requests := requests w; trace := trace w |}.
Definition set_row r w := {| now := now w; row := r;
  rows := match r with Some r => r :: rows w | None => rows w end; redis := redis w; gates := gates w;
  requests := requests w; trace := trace w |}.
Definition set_redis s w := {| now := now w; row := row w; rows := rows w; redis := s; gates := gates w;
  requests := requests w; trace := trace w |}.
Definition set_gates g w := {| now := now w; row := row w; rows := rows w; redis := redis w; gates := g;
  requests := requests w; trace := trace w |}.
Definition set_requests m w := {| now := now w; row := row w; rows := rows w; redis := redis w; gates := gates w;
  requests := m; trace := trace w |}.
Definition log e w := {| now := now w; row := row w; rows := rows w; redis := redis w; gates := gates w;
  requests := requests w; trace := e :: trace w |}.

Definition at_phase (ph : Phase) (q : Request) : Request :=
  {| rq_replica := rq_replica q; rq_row := rq_row q; rq_began := rq_began q; rq_since := rq_since q; rq_phase := ph |}.
Definition locked_at (t : Z) (q : Request) : Request :=
  {| rq_replica := rq_replica q; rq_row := rq_row q; rq_began := rq_began q; rq_since := t; rq_phase := Reading |}.

Definition put (p : nat) (q : Request) (w : World) : World := set_requests (<[p := q]> (requests w)) w.
Definition goes (p : nat) (q : Request) (ph : Phase) (w : World) : World := put p (at_phase ph q) w.

(** Through the gate, or out of it. *)
Definition inside (ph : Phase) : bool := match ph with AtGate | Finished _ => false | _ => true end.

(** Dropping [_local] gives the gate back. *)
Definition ungate (q : Request) (w : World) : World :=
  if inside (rq_phase q) then set_gates (delete (rq_replica q) (gates w)) w else w.

Definition finish (p : nat) (q : Request) (r : result SecretMaterial Error) (w : World) : World :=
  put p (at_phase (Finished r) q) (ungate q w).

Section refresh.
Context (open_ : Sealed → result SecretMaterial Error) (seal_ : list ascii → SecretMaterial → result Sealed Error).
Context (account : string).

(** A row's credential, trimmed on its way out of the seal. *)
Definition opened (r : TokenRow) : result SecretMaterial Error :=
  match open_ (tr_sealed r) with Ok m => Ok (trimmed m) | Err e => Err e end.

(** What reading the row comes to: [None] when it is gone. *)
Definition reread (w : World) : result (option SecretMaterial) Error :=
  match row w with
  | None => Ok None
  | Some r => match opened r with Ok m => Ok (Some m) | Err e => Err e end
  end.

Definition vanished : Error := Internal "credential vanished during refresh".

Definition or_vanished (e : Error) (r : result (option SecretMaterial) Error) : result SecretMaterial Error :=
  match r with Ok (Some m) => Ok m | Ok None => Err e | Err e => Err e end.

(** [ensure_fresh] up to its gate: a result already, or a wait. *)
Definition entered (adapter : result unit Error) (r : TokenRow) (now_unix : Z) : Phase :=
  match opened r with
  | Err e => Finished (Err e)
  | Ok m =>
      if negb (expires_within m now_unix REFRESH_SKEW) then Finished (Ok m)
      else match adapter with Err e => Finished (Err e) | Ok _ => AtGate end
  end.

(** The version the row's credential gets. *)
Definition bumped (current fresh : SecretMaterial) : SecretMaterial :=
  {| access_token := access_token fresh; refresh_token := refresh_token fresh; expires_at := expires_at fresh;
     version := sat_add U64_MAX (version current) 1; client_id := client_id fresh; account_id := account_id fresh |}.

(** [store_credentials]: whether it won, and the row it leaves. *)
Definition store_credentials (sealed : Sealed) (expected : Z) (w : World) : bool * World :=
  match row w with
  | Some r =>
      if tr_version r =? expected
      then (true, set_row (Some {| tr_sealed := sealed; tr_version := tr_version r + 1 |}) w)
      else (false, w)
  | None => (false, w)
  end.

(** After the gate: whether somebody on this replica refreshed meanwhile. *)
Definition after_gate (p : nat) (q : Request) (read : result (option SecretMaterial) Error) (w : World) : World :=
  match read with
  | Err e => finish p q (Err e) w
  | Ok (Some m) =>
      if negb (expires_within m (rq_began q) REFRESH_SKEW) then finish p q (Ok m) w else goes p q Locking w
  | Ok None => goes p q Locking w
  end.

(** [refresh_locked], up to the call. *)
Definition under_lock (began : Z) (r : option TokenRow) : Phase :=
  match r with
  | None => Releasing (Err vanished)
  | Some r =>
      match opened r with
      | Err e => Releasing (Err e)
      | Ok m => if negb (expires_within m began REFRESH_SKEW) then Releasing (Ok m) else Presenting r m
      end
  end.

(** A refusal: what somebody else rotated to meanwhile, or the error. *)
Definition after_refusal (current : SecretMaterial) (e : Error) (read : result (option SecretMaterial) Error)
  : result SecretMaterial Error :=
  match read with
  | Ok (Some after) => if version current <? version after then Ok after else Err e
  | _ => Err e
  end.

(** A database call gives what the state says, or fails. *)
Definition or_fails {A} (v : result A Error) (got : result A Error) : Prop := got = v ∨ ∃ e, got = Err e.

Inductive step : World → World → Prop :=
  | f_begins p replica r adapter w : requests w !! p = None → In r (rows w) →
      step w (put p {| rq_replica := replica; rq_row := r; rq_began := unix w; rq_since := 0;
                       rq_phase := entered adapter r (unix w) |} w)
  (* 1: the replica's gate, and another look *)
  | f_through p q w : requests w !! p = Some q → rq_phase q = AtGate → gates w !! rq_replica q = None →
      step w (goes p q Rereading (set_gates (<[rq_replica q := p]> (gates w)) w))
  | f_rereads p q read w : requests w !! p = Some q → rq_phase q = Rereading → or_fails (reread w) read →
      step w (after_gate p q read w)
  (* 2: the fleet's lock; an answer that is lost may have taken it *)
  | f_locks p q s w : requests w !! p = Some q → rq_phase q = Locking →
      Claims.acquire_refresh_lock account LOCK_TTL (now w) (redis w) = (true, s) →
      step w (put p (locked_at (now w) q) (set_redis s w))
  | f_loses p q s w : requests w !! p = Some q → rq_phase q = Locking →
      Claims.acquire_refresh_lock account LOCK_TTL (now w) (redis w) = (false, s) →
      step w (goes p q (Losing (now w + LOSER_WAIT)) w)
  | f_unheard p q (got : bool) w : requests w !! p = Some q → rq_phase q = Locking →
      step w (goes p q (Losing (now w + LOSER_WAIT))
        (if got then set_redis (Claims.acquire_refresh_lock account LOCK_TTL (now w) (redis w)).2 w else w))
  | f_gives_up p q until read w : requests w !! p = Some q → rq_phase q = Losing until → until ≤ now w →
      or_fails (reread w) read → step w (finish p q (or_vanished vanished read) w)
  (* 3: a fresh read, and the call *)
  | f_reads p q w : requests w !! p = Some q → rq_phase q = Reading →
      step w (goes p q (under_lock (rq_began q) (row w)) w)
  | f_unread p q e w : requests w !! p = Some q → rq_phase q = Reading → step w (goes p q (Releasing (Err e)) w)
  | f_sends p q r m w : requests w !! p = Some q → rq_phase q = Presenting r m →
      step w (goes p q (Asked r m) (log (Sent p r m) w))
  | f_unsent p q r m e w : requests w !! p = Some q → rq_phase q = Presenting r m → step w (goes p q (Refused m e) w)
  | f_cannot p q r m w : requests w !! p = Some q → rq_phase q = Presenting r m →
      step w (goes p q (Releasing (Ok m)) w)
  | f_answered p q r m fresh random w : requests w !! p = Some q → rq_phase q = Asked r m →
      step w (goes p q
        (match seal_ random (bumped m fresh) with
         | Ok sealed => Storing r (bumped m fresh) sealed
         | Err e => Releasing (Err e)
         end) (log (Answered m fresh) w))
  | f_refused p q r m e w : requests w !! p = Some q → rq_phase q = Asked r m → step w (goes p q (Refused m e) w)
  (* 4: the write; an answer that is lost may have written *)
  | f_stores p q r fresh sealed w : requests w !! p = Some q → rq_phase q = Storing r fresh sealed →
      step w (let '(won, w) := store_credentials sealed (tr_version r) w in
              goes p q (if won then Releasing (Ok fresh) else Outrun) w)
  | f_unstored p q r fresh sealed (wrote : bool) e w : requests w !! p = Some q → rq_phase q = Storing r fresh sealed →
      step w (goes p q (Releasing (Err e)) (if wrote then (store_credentials sealed (tr_version r) w).2 else w))
  | f_outrun p q read w : requests w !! p = Some q → rq_phase q = Outrun → or_fails (reread w) read →
      step w (goes p q (Releasing (or_vanished (Internal "credential vanished") read)) w)
  | f_reconsiders p q m e read w : requests w !! p = Some q → rq_phase q = Refused m e → or_fails (reread w) read →
      step w (goes p q (Releasing (after_refusal m e read)) w)
  | f_releases p q r (heard : bool) w : requests w !! p = Some q → rq_phase q = Releasing r →
      step w (finish p q r (if heard then set_redis (Claims.release_refresh_lock account (redis w)) w else w))
  (* what else happens *)
  | f_dropped p q w : requests w !! p = Some q → step w (set_requests (delete p (requests w)) (ungate q w))
  | f_time t w : now w ≤ t → step w (set_now t w)
  | f_removed w : step w (set_row None w).

Inductive steps (ok : World → Prop) : World → World → Prop :=
  | fs_refl w : steps ok w w
  | fs_step w w' w'' : steps ok w w' → step w' w'' → ok w'' → steps ok w w''.

Definition fresh_world (r : TokenRow) (t : Z) : World :=
  {| now := t; row := Some r; rows := [r]; redis := ∅; gates := ∅; requests := ∅; trace := [] |}.

End refresh.
End Refresh.

(** ** What is sealed opens *)

Module Sealing.
Import Js Wire Credential Seal.

Section sealing.
Context `{AeadLaws}.
Context (to_vec : Json → list ascii) (from_slice : list ascii → option Json) (serde_error : list ascii → string).
Context (Htext : ∀ v, from_slice (to_vec v) = Some v).

Lemma parse_int_int n : is_i64 n → as_i64 (int n) = Some n.
Proof.
  unfold is_i64, I64_MIN, I64_MAX. intros Hn. unfold int, as_i64. destruct (n <? 0) eqn:E.
  - apply Z.ltb_lt in E. cbn [parse_int]. unfold I64_MAX. rewrite parse_decimal by (unfold U64_MAX; lia).
    destruct (- n =? 0) eqn:E0; [apply Z.eqb_eq in E0; lia|]. f_equal. lia.
  - apply Z.ltb_ge in E. pose proof (parse_decimal I64_MAX n) as Hp. unfold U64_MAX, I64_MAX in Hp.
    specialize (Hp ltac:(lia) ltac:(lia)). unfold parse_int, I64_MAX. destruct (Str.decimal n) as [|[[] [] [] [] [] [] [] []] rest]; done.
Qed.

Lemma material_of_fields m :
  0 ≤ version m ≤ U64_MAX → (∀ e, expires_at m = Some e → is_i64 e) → material_of (JObject (material_fields m)) = Some m.
Proof.
  intros Hv He. destruct m as [a r e v c ac]. cbn [version expires_at] in *.
  assert (as_u64 (num v) = Some v) as Hnum by (cbn; apply parse_decimal; lia).
  assert (∀ e', e = Some e' → as_i64 (int e') = Some e') as Hint by (intros e' ->; apply parse_int_int; by apply He).
  clear Hv He. unfold material_of, material_fields, given. cbn [access_token refresh_token expires_at version client_id account_id].
  unfold num in *. set (n := Str.decimal v) in *. clearbody n. cbn [as_u64] in Hnum.
  destruct e as [e|]; [specialize (Hint e eq_refl); unfold int in *; set (t := if _ : bool then _ else _) in *;
    clearbody t; cbn [as_i64] in Hint|]; destruct r, c, ac; cbn; rewrite ?Hnum, ?Hint; done.
Qed.

(** A credential that was sealed opens to itself, under its key, whatever
    the nonce drawn for it. *)
Theorem sealed_credential_opens kek random m s :
  0 ≤ version m ≤ U64_MAX → (∀ e, expires_at m = Some e → is_i64 e) → length random = NONCE_LEN →
  seal_json to_vec kek random m = Ok s → open_json from_slice serde_error kek s = Ok m.
Proof using All.
  intros Hv He Hl. unfold seal_json, open_json, seal. destruct (encrypt kek random _) as [c|] eqn:E; [|done].
  intros Hs. injection Hs as <-. unfold open. cbn [nonce ciphertext]. rewrite Hl. cbn [negb Nat.eqb NONCE_LEN].
  rewrite (decrypts _ _ _ _ E). rewrite Htext. cbn [mbind option_bind]. by rewrite material_of_fields.
Qed.

End sealing.
End Sealing.

(** ** What interleaving cannot break *)

Module Refreshing.
Import Credential Refresh.

Section refreshing.
Context (open_ : Sealed → result SecretMaterial Error) (seal_ : list ascii → SecretMaterial → result Sealed Error).
Context (account : string).

Abbreviation opened := (opened open_).
Abbreviation step := (step open_ seal_ account).
Abbreviation steps := (steps open_ seal_ account).

(** A row is what refreshing the one before it gave. *)
Definition succeeds (tr : list Event) (old new : TokenRow) : Prop :=
  tr_version new = tr_version old + 1
  ∧ ∃ m fresh n, opened old = Ok m ∧ In (Answered m fresh) tr ∧ seal_ n (bumped m fresh) = Ok (tr_sealed new).

Fixpoint chained (tr : list Event) (l : list TokenRow) : Prop :=
  match l with
  | new :: (old :: _) as rest => succeeds tr old new ∧ chained tr rest
  | _ => True
  end.

(** The credential a row holds, or that was sealed into it. *)
Definition holds (r : TokenRow) (m : SecretMaterial) : Prop :=
  opened r = Ok m ∨ ∃ n, seal_ n m = Ok (tr_sealed r).

Definition no_older (l : list TokenRow) (from : TokenRow) (m : SecretMaterial) : Prop :=
  ∃ r, In r l ∧ tr_version from ≤ tr_version r ∧ holds r m.

Definition phase_ok (l : list TokenRow) (tr : list Event) (from : TokenRow) (ph : Phase) : Prop :=
  match ph with
  | Presenting r m | Asked r m => In r l ∧ tr_version from ≤ tr_version r ∧ opened r = Ok m
  | Storing r fresh sealed => In r l ∧ tr_version from ≤ tr_version r ∧ (∃ n, seal_ n fresh = Ok sealed)
      ∧ ∃ m f, opened r = Ok m ∧ In (Answered m f) tr ∧ fresh = bumped m f
  | Releasing (Ok m) | Finished (Ok m) => no_older l from m
  | _ => True
  end.

Record inv (w : World) : Prop := {
  i_chain : chained (trace w) (rows w);
  i_row : ∀ r, row w = Some r → ∃ rest, rows w = r :: rest;
  i_phase : ∀ p q, requests w !! p = Some q → In (rq_row q) (rows w) ∧ phase_ok (rows w) (trace w) (rq_row q) (rq_phase q)
}.

Lemma succeeds_mono tr tr' old new : incl tr tr' → succeeds tr old new → succeeds tr' old new.
Proof. intros Hi (Hv & m & f & n & H1 & H2 & H3). split; [done|]. exists m, f, n. split_and!; auto. Qed.

Lemma chained_mono tr tr' l : incl tr tr' → chained tr l → chained tr' l.
Proof.
  intros Hi. induction l as [|new [|old l] IH]; [done..|]. intros [Hs Hc]. split; [by eapply succeeds_mono|by apply IH].
Qed.

Lemma phase_stays_ok l l' tr tr' from ph : incl l l' → incl tr tr' → phase_ok l tr from ph → phase_ok l' tr' from ph.
Proof.
  intros Hl Ht. destruct ph as [| | | | |r m|r m|r f s| |m e|[m|e]|[m|e]]; cbn; try done.
  - intros (? & ? & ?). auto.
  - intros (? & ? & ?). auto.
  - intros (? & ? & ? & m & f' & ? & ? & ?). split_and!; auto. exists m, f'. auto.
  - intros (r & ? & ? & ?). exists r. auto.
  - intros (r & ? & ? & ?). exists r. auto.
Qed.

(** The row there is, is the newest there was. *)
Lemma head_newest tr l r : chained tr l → ∀ rest, l = r :: rest → ∀ r', In r' l → tr_version r' ≤ tr_version r ∧ (tr_version r' = tr_version r → r' = r).
Proof.
  revert r. induction l as [|new l IH]; intros r Hc rest Heq; [done|]. injection Heq as -> <-.
  intros r' [<-|Hin]; [done|]. destruct l as [|old l]; [done|]. destruct Hc as [[Hv _] Hc].
  specialize (IH old Hc l eq_refl r' Hin). split; [lia|]. lia.
Qed.

Lemma row_newest w r r' : inv w → row w = Some r → In r' (rows w) → tr_version r' ≤ tr_version r ∧ (tr_version r' = tr_version r → r' = r).
Proof. intros Hi Hr. destruct (i_row w Hi r Hr) as [rest Hrest]. by eapply (head_newest (trace w)); [apply i_chain|]. Qed.

Lemma row_in w r : inv w → row w = Some r → In r (rows w).
Proof. intros Hi Hr. destruct (i_row w Hi r Hr) as [rest ->]. by left. Qed.

(** A step that leaves the row moves one request, at most. *)
Lemma inv_moves w w' :
  inv w → row w' = row w ∨ row w' = None → rows w' = rows w → incl (trace w) (trace w') →
  (∀ p q, requests w' !! p = Some q → requests w !! p = Some q
     ∨ In (rq_row q) (rows w) ∧ phase_ok (rows w) (trace w') (rq_row q) (rq_phase q)) → inv w'.
Proof.
  intros [Hc Hr Hp] Hrow Hrows Ht Hq. split.
  - rewrite Hrows. by eapply chained_mono.
  - rewrite Hrows. intros r Heq. destruct Hrow; [apply Hr|]; congruence.
  - rewrite Hrows. intros p q Hl. destruct (Hq p q Hl) as [Hl'|Hl']; [|done]. destruct (Hp p q Hl') as [H1 H2].
    split; [done|]. eapply phase_stays_ok; [apply incl_refl|exact Ht|exact H2].
Qed.

Lemma inv_put w w1 p q q' :
  inv w → requests w !! p = Some q → rq_row q' = rq_row q →
  row w1 = row w → rows w1 = rows w → trace w1 = trace w → requests w1 = requests w →
  phase_ok (rows w) (trace w) (rq_row q) (rq_phase q') → inv (put p q' w1).
Proof.
  intros Hi Hl Hrq Hrow Hrows Ht Hreq Hp. eapply inv_moves; [exact Hi|by left|done|cbn; rewrite Ht; apply incl_refl|].
  intros p0 q0. cbn. rewrite Hreq, Ht. intros [[_ <-]|[_ ?]]%lookup_insert_Some; [right|by left].
  rewrite Hrq. split; [by apply (i_phase w Hi p q Hl)|done].
Qed.

Lemma ungate_rest q w :
  row (ungate q w) = row w ∧ rows (ungate q w) = rows w ∧ trace (ungate q w) = trace w ∧ requests (ungate q w) = requests w
  ∧ redis (ungate q w) = redis w ∧ now (ungate q w) = now w.
Proof. unfold ungate. by destruct (inside _). Qed.

Lemma inv_finish w w1 p q r :
  inv w → requests w !! p = Some q → row w1 = row w → rows w1 = rows w → trace w1 = trace w → requests w1 = requests w →
  phase_ok (rows w) (trace w) (rq_row q) (Finished r) → inv (finish p q r w1).
Proof.
  intros. destruct (ungate_rest q w1) as (? & ? & ? & ? & _). eapply inv_put; [done..|congruence|congruence|congruence|congruence|done].
Qed.

(** A credential read from the row there is, is no older than a request's. *)
Lemma reread_no_older w p q m :
  inv w → requests w !! p = Some q → reread open_ w = Ok (Some m) → no_older (rows w) (rq_row q) m.
Proof.
  intros Hi Hl. unfold reread. destruct (row w) as [r|] eqn:Hr; [|done]. destruct (opened r) as [m'|e] eqn:Ho; [|done].
  intros Heq. injection Heq as ->. exists r. split_and!; [by apply row_in| |by left].
  apply (row_newest w r (rq_row q) Hi Hr). by apply (i_phase w Hi p q Hl).
Qed.

Lemma or_fails_no_older w p q read m :
  inv w → requests w !! p = Some q → or_fails (reread open_ w) read → read = Ok (Some m) → no_older (rows w) (rq_row q) m.
Proof. intros Hi Hl [->|[e ->]]; [|done]. by eapply reread_no_older. Qed.

Lemma inv_store w p q r fresh sealed w' (won : bool) :
  inv w → requests w !! p = Some q → rq_phase q = Storing r fresh sealed →
  store_credentials sealed (tr_version r) w = (won, w') →
  inv w' ∧ requests w' = requests w ∧ (won = true → no_older (rows w') (rq_row q) fresh).
Proof.
  intros Hi Hl Hph. destruct (i_phase w Hi p q Hl) as [Hin Hok]. rewrite Hph in Hok.
  destruct Hok as (Hr & Hle & (n & Hseal) & m & f & Hm & Ha & ->).
  unfold store_credentials. destruct (row w) as [r0|] eqn:Hrow; [|by intros [= <- <-]; split_and!].
  destruct (tr_version r0 =? tr_version r) eqn:E; [|by intros [= <- <-]; split_and!]. intros [= <- <-]. apply Z.eqb_eq in E.
  destruct (row_newest w r0 r Hi Hrow Hr) as [_ Heq]. rewrite (Heq (eq_sym E)) in *. clear Heq E r.
  destruct (i_row w Hi r0 Hrow) as [rest Hrest]. set (new := {| tr_sealed := sealed; tr_version := tr_version r0 + 1 |}).
  assert (incl (rows w) (rows (set_row (Some new) w))) as Hincl by (cbn; intros x Hx; by right).
  split_and!; [|done|].
  - split; cbn [row rows trace requests set_row].
    + rewrite Hrest. split; [|rewrite <- Hrest; apply (i_chain w Hi)]. split; [done|]. exists m, f, n. done.
    + intros r [= <-]. by eexists.
    + intros p0 q0 H0. destruct (i_phase w Hi p0 q0 H0) as [H1 H2]. split; [by right|].
      eapply phase_stays_ok; [exact Hincl|apply incl_refl|exact H2].
  - intros _. exists new. split_and!; [by left|cbn; lia|]. right. by exists n.
Qed.

Lemma inv_step w w' : inv w → step w w' → inv w'.
Proof.
  intros Hi Hst. destruct Hst.
  - eapply inv_moves; [exact Hi|by left|done|apply incl_refl|]. intros p0 q0. cbn.
    intros [[_ <-]|[_ ?]]%lookup_insert_Some; [right|by left]. split; [done|]. cbn [rq_row rq_phase]. unfold entered.
    destruct (opened r) as [m|e] eqn:Ho; [|done]. destruct (negb _); [|by destruct adapter]. exists r. split_and!; [done|lia|by left].
  - by eapply inv_put.
  - pose proof (λ m, or_fails_no_older w p q read m Hi H H1) as Hno. unfold after_gate. destruct read as [[m|]|e].
    + destruct (negb _); [|by eapply inv_put]. eapply inv_finish; [done..|]. by apply Hno.
    + by eapply inv_put.
    + by eapply inv_finish.
  - by eapply inv_put.
  - by eapply inv_put.
  - destruct got; by eapply inv_put.
  - pose proof (λ m, or_fails_no_older w p q read m Hi H H2) as Hno. eapply inv_finish; [done..|].
    destruct read as [[m|]|e]; [by apply Hno|done..].
  - eapply inv_put; [done..|]. cbn. unfold under_lock. destruct (row w) as [r|] eqn:Hr; [|done].
    destruct (opened r) as [m|e] eqn:Ho; [|done].
    assert (tr_version (rq_row q) ≤ tr_version r) by (eapply row_newest; [done..|]; by apply (i_phase w Hi p q H)).
    pose proof (row_in w r Hi Hr). destruct (negb _); cbn; [|done]. exists r. split_and!; [done..|by left].
  - by eapply inv_put.
  - pose proof (proj2 (i_phase w Hi p q H)) as Hok. rewrite H0 in Hok.
    eapply inv_moves; [exact Hi|by left|done|cbn; by apply incl_tl, incl_refl|]. intros p0 q0. cbn.
    intros [[_ <-]|[_ ?]]%lookup_insert_Some; [right|by left]. split; [by apply (i_phase w Hi p q H)|done].
  - by eapply inv_put.
  - pose proof (proj2 (i_phase w Hi p q H)) as Hok. rewrite H0 in Hok. destruct Hok as (? & ? & ?).
    eapply inv_put; [done..|]. exists r. split_and!; [done..|by left].
  - pose proof (i_phase w Hi p q H) as [Hin Hok]. rewrite H0 in Hok. destruct Hok as (? & ? & ?).
    eapply inv_moves; [exact Hi|by left|done|cbn; by apply incl_tl, incl_refl|]. intros p0 q0. cbn -[phase_ok].
    intros [[_ <-]|[_ ?]]%lookup_insert_Some; [right|by left]. split; [done|]. cbn [rq_row rq_phase at_phase].
    destruct (seal_ random (bumped m fresh)) as [s|e] eqn:Es; [|done]. split_and!; [done..|by exists random|].
    exists m, fresh. split_and!; [done|by left|done].
  - by eapply inv_put.
  - destruct (store_credentials _ _ w) as [won w1] eqn:E. destruct (inv_store w p q r fresh sealed w1 won Hi H H0 E) as (Hi1 & Hq & Hno).
    eapply (inv_put w1); [done|by rewrite Hq|done..|]. destruct won; [by apply Hno|done].
  - destruct wrote; [|by eapply inv_put]. destruct (store_credentials _ _ w) as [won w1] eqn:E.
    destruct (inv_store w p q r fresh sealed w1 won Hi H H0 E) as (Hi1 & Hq & Hno). eapply (inv_put w1); [done|by rewrite Hq|done..].
  - pose proof (λ m, or_fails_no_older w p q read m Hi H H1) as Hno. eapply inv_put; [done..|].
    destruct read as [[m|]|e]; [by apply Hno|done..].
  - pose proof (λ m', or_fails_no_older w p q read m' Hi H H1) as Hno. eapply inv_put; [done..|]. cbn. unfold after_refusal.
    destruct read as [[m'|]|e']; [|done..]. destruct (_ <? _); [by apply Hno|done].
  - pose proof (proj2 (i_phase w Hi p q H)) as Hok. rewrite H0 in Hok. eapply inv_finish; [done| |by destruct heard..|].
    + done.
    + by destruct r.
  - destruct (ungate_rest q w) as (? & ? & ? & ? & _). eapply inv_moves; [exact Hi|by left|done|cbn; rewrite H2; apply incl_refl|].
    intros p0 q0. cbn. intros [_ ?]%lookup_delete_Some. by left.
  - eapply inv_moves; [exact Hi|by left|done|apply incl_refl|]. by left.
  - eapply inv_moves; [exact Hi|by right|done|apply incl_refl|]. by left.
Qed.

Lemma inv_steps ok w w' : inv w → steps ok w w' → inv w'.
Proof.
  intros Hi Hs. induction Hs as [|w w1 w2 _ IH Hst _]; [done|]. eapply inv_step; [by apply IH|done].
Qed.

Lemma inv_fresh r t : inv (fresh_world r t).
Proof.
  split; cbn; [done| |].
  - intros r' [= <-]. by eexists.
  - intros p q. by rewrite lookup_empty.
Qed.

(** C15. However refreshes interleave -- a lock that lapses, a request that is
    dropped, an answer that is lost -- the account's credential is never set
    back: each row it has had is what the vendor answered to the credential in
    the row before, a version up. *)
Theorem stored_credentials_form_a_chain r t w :
  steps (λ _, True) (fresh_world r t) w →
  chained (trace w) (rows w) ∧ ∀ r', row w = Some r' → ∃ rest, rows w = r' :: rest.
Proof. intros Hs. destruct (inv_steps _ _ _ (inv_fresh r t) Hs). done. Qed.

(** A request is never handed a credential older than the row it came
    with. *)
Theorem no_request_goes_backwards r t w p q m :
  steps (λ _, True) (fresh_world r t) w → requests w !! p = Some q → rq_phase q = Finished (Ok m) →
  ∃ r', In r' (rows w) ∧ tr_version (rq_row q) ≤ tr_version r' ∧ holds r' m.
Proof.
  intros Hs Hl Hp. pose proof (inv_steps _ _ _ (inv_fresh r t) Hs) as Hi.
  destruct (i_phase w Hi p q Hl) as [_ Hok]. by rewrite Hp in Hok.
Qed.

(** ** One at a time *)

(** Holding the fleet's lock. *)
Definition critical (ph : Phase) : bool :=
  match ph with
  | Reading | Presenting _ _ | Asked _ _ | Storing _ _ _ | Outrun | Refused _ _ | Releasing _ => true
  | _ => false
  end.

(** Who holds the lock gives it back before it lapses. *)
Definition prompt (w : World) : Prop :=
  ∀ p q, requests w !! p = Some q → critical (rq_phase q) = true → now w < rq_since q + LOCK_TTL * 1000.

(** The row a holder has read. *)
Definition has_read (ph : Phase) : option TokenRow :=
  match ph with Presenting r _ | Asked r _ | Storing r _ _ => Some r | _ => None end.

Record locked (w : World) : Prop := {
  l_gate : ∀ p q, requests w !! p = Some q → inside (rq_phase q) = true → gates w !! rq_replica q = Some p;
  l_key : ∀ p q, requests w !! p = Some q → critical (rq_phase q) = true →
    redis w !! Claims.refresh_key account = Some ("1", rq_since q + LOCK_TTL * 1000);
  l_one : ∀ p q p' q', requests w !! p = Some q → requests w !! p' = Some q' →
    critical (rq_phase q) = true → critical (rq_phase q') = true → p = p';
  l_row : ∀ p q r, requests w !! p = Some q → has_read (rq_phase q) = Some r → row w = Some r ∨ row w = None
}.

Lemma critical_inside ph : critical ph = true → inside ph = true.
Proof. by destruct ph. Qed.

Lemma has_read_critical ph r : has_read ph = Some r → critical ph = true.
Proof. by destruct ph. Qed.

(** While a prompt holder holds the lock, nobody takes it. *)
Lemma held_is_not_taken w p q :
  locked w → prompt w → requests w !! p = Some q → critical (rq_phase q) = true →
  Claims.acquire_refresh_lock account LOCK_TTL (now w) (redis w) = (false, redis w).
Proof.
  intros Hl Hp Hq Hc. unfold Claims.acquire_refresh_lock, Claims.set_nx, Redis.get.
  rewrite (l_key w Hl p q Hq Hc). pose proof (Hp p q Hq Hc) as Ht. by rewrite (proj2 (Z.ltb_lt _ _) Ht).
Qed.

(** A request goes on inside, to a phase no more critical than its own. *)
Lemma locked_goes w w1 p q ph :
  locked w → requests w !! p = Some q → inside (rq_phase q) = true → inside ph = true →
  requests w1 = requests w → gates w1 = gates w → redis w1 = redis w →
  row w1 = row w → (critical ph = true → critical (rq_phase q) = true) →
  (∀ r, has_read ph = Some r → row w = Some r ∨ row w = None) → locked (goes p q ph w1).
Proof.
  intros [Hg Hk Ho Hr] Hq Hin Hin' E1 E2 E3 E4 Hc Hrd. split; cbn; rewrite ?E1, ?E2, ?E3, ?E4.
  - intros p0 q0 [[<- <-]|[_ ?]]%lookup_insert_Some; [|by eauto]. intros _. cbn. by apply (Hg p q).
  - intros p0 q0 [[<- <-]|[_ ?]]%lookup_insert_Some; [|by eauto]. cbn. intros Hx. apply (Hk p q); auto.
  - intros p0 q0 p1 q1 [[<- <-]|[Hn0 H0]]%lookup_insert_Some [[<- <-]|[Hn1 H1]]%lookup_insert_Some; cbn; intros C0 C1;
      [done|by eapply Ho; eauto..].
  - intros p0 q0 r [[<- <-]|[_ ?]]%lookup_insert_Some; [by apply Hrd|by eapply Hr].
Qed.

(** The requests that are left, hold what they held. *)
Lemma locked_fewer w w' p q :
  locked w → requests w !! p = Some q →
  (∀ p' q', requests w' !! p' = Some q' → p' ≠ p ∧ requests w !! p' = Some q' ∨ inside (rq_phase q') = false) →
  gates w' = (if inside (rq_phase q) then delete (rq_replica q) (gates w) else gates w) →
  (critical (rq_phase q) = false → redis w' = redis w) → row w' = row w → locked w'.
Proof.
  intros [Hg Hk Ho Hr] Hq Hreq Eg Er Erow.
  assert (∀ p' q', requests w' !! p' = Some q' → inside (rq_phase q') = true → p' ≠ p ∧ requests w !! p' = Some q') as Hreq'.
  { intros p' q' Hl Hin. destruct (Hreq p' q' Hl) as [?|Hx]; [done|congruence]. }
  split.
  - intros p' q' Hl Hin. destruct (Hreq' p' q' Hl Hin) as [Hne Hl']. rewrite Eg. pose proof (Hg p' q' Hl' Hin) as Hg'.
    destruct (inside (rq_phase q)) eqn:Hin0; [|done]. rewrite lookup_delete_ne; [done|].
    intros Heq. pose proof (Hg p q Hq Hin0) as Hg0. congruence.
  - intros p' q' Hl Hc. destruct (Hreq' p' q' Hl (critical_inside _ Hc)) as [Hne Hl'].
    destruct (critical (rq_phase q)) eqn:Hc0; [destruct Hne; by eapply Ho|]. rewrite (Er eq_refl). by apply (Hk p').
  - intros p1 q1 p2 q2 H1 H2 C1 C2. destruct (Hreq' p1 q1 H1 (critical_inside _ C1)) as [_ ?], (Hreq' p2 q2 H2 (critical_inside _ C2)) as [_ ?].
    by eapply Ho.
  - intros p' q' r Hl Hrd. rewrite Erow. eapply (Hr p' q'); [|done].
    by apply (Hreq' p' q' Hl (critical_inside _ (has_read_critical _ _ Hrd))).
Qed.

Lemma locked_finish w w1 p q r :
  locked w → requests w !! p = Some q → requests w1 = requests w → gates w1 = gates w → row w1 = row w →
  (critical (rq_phase q) = false → redis w1 = redis w) → locked (finish p q r w1).
Proof.
  intros Hl Hq E1 E2 E3 E4. destruct (ungate_rest q w1) as (U1 & _ & _ & U4 & U5 & _). eapply (locked_fewer w _ p q); [done..| | | |].
  - intros p' q'. cbn. rewrite U4, E1. intros [[<- <-]|[Hne ?]]%lookup_insert_Some; [by right|left; by split].
  - cbn. unfold ungate. destruct (inside (rq_phase q)); cbn; by rewrite E2.
  - intros Hc. cbn. rewrite U5. by apply E4.
  - cbn. by rewrite U1, E3.
Qed.

Lemma locked_world w w' :
  locked w → requests w' = requests w → gates w' = gates w → redis w' = redis w → (row w' = row w ∨ row w' = None) → locked w'.
Proof.
  intros [Hg Hk Ho Hr] E1 E2 E3 E4. split; rewrite ?E1, ?E2, ?E3; try done.
  intros p q r Hl Hrd. destruct E4 as [->| ->]; [by eapply Hr|by right].
Qed.

(** The write is by the only holder, who has read the row that it replaces. *)
Lemma locked_store w p q r fresh sealed w' (won : bool) ph :
  locked w → requests w !! p = Some q → rq_phase q = Storing r fresh sealed →
  store_credentials sealed (tr_version r) w = (won, w') → inside ph = true → has_read ph = None → locked (goes p q ph w').
Proof.
  intros Hl Hq Hph Hst Hin Hrd. assert (requests w' = requests w ∧ gates w' = gates w ∧ redis w' = redis w) as (E1 & E2 & E3).
  { revert Hst. unfold store_credentials. destruct (row w); [|by intros [= _ <-]]. destruct (_ =? _); by intros [= _ <-]. }
  destruct Hl as [Hg Hk Ho Hr]. assert (critical (rq_phase q) = true) as Hc by by rewrite Hph.
  assert (∀ p0 q0, requests w !! p0 = Some q0 → p ≠ p0 → critical (rq_phase q0) = false) as Hnone.
  { intros p0 q0 H0 Hne. destruct (critical (rq_phase q0)) eqn:C0; [|done]. destruct Hne. by eapply Ho. }
  split; cbn; rewrite ?E1, ?E2, ?E3.
  - intros p0 q0 [[<- <-]|[_ ?]]%lookup_insert_Some; [|by eauto]. intros _. cbn. apply (Hg p q); [done|by apply critical_inside].
  - intros p0 q0 [[<- <-]|[_ ?]]%lookup_insert_Some; [|by eauto]. cbn. intros Hx. by apply (Hk p q).
  - intros p0 q0 p1 q1 [[<- <-]|[Hn0 H0]]%lookup_insert_Some [[<- <-]|[Hn1 H1]]%lookup_insert_Some; cbn; intros C0 C1;
      [done|by eapply Ho; eauto..].
  - intros p0 q0 r0 [[<- <-]|[Hne H0]]%lookup_insert_Some Hx; [cbn in Hx; congruence|].
    apply has_read_critical in Hx. by rewrite (Hnone p0 q0 H0 Hne) in Hx.
Qed.

Lemma locked_entered w p replica r a t :
  locked w → requests w !! p = None →
  locked (put p {| rq_replica := replica; rq_row := r; rq_began := t; rq_since := 0; rq_phase := entered open_ a r t |} w).
Proof.
  intros [Hg Hk Ho Hr] Hq. set (q := {| rq_replica := _ |}).
  assert (inside (rq_phase q) = false) as Hout.
  { cbn. unfold entered. destruct (opened r); [|done]. destruct (negb _); [done|]. by destruct a. }
  assert (critical (rq_phase q) = false) as Hnc by (destruct (critical (rq_phase q)) eqn:E; [apply critical_inside in E; congruence|done]).
  split; cbn.
  - intros p0 q0 [[<- <-]|[_ ?]]%lookup_insert_Some; [congruence|by eauto].
  - intros p0 q0 [[<- <-]|[_ ?]]%lookup_insert_Some; [congruence|by eauto].
  - intros p0 q0 p1 q1 [[<- <-]|[Hn0 H0]]%lookup_insert_Some [[<- <-]|[Hn1 H1]]%lookup_insert_Some C0 C1; try congruence. by eapply Ho.
  - intros p0 q0 r0 [[<- <-]|[_ ?]]%lookup_insert_Some Hx; [apply has_read_critical in Hx; congruence|by eapply Hr].
Qed.

Lemma locked_through w p q :
  locked w → requests w !! p = Some q → rq_phase q = AtGate → gates w !! rq_replica q = None →
  locked (goes p q Rereading (set_gates (<[rq_replica q := p]> (gates w)) w)).
Proof.
  intros [Hg Hk Ho Hr] Hq Hph Hfree. split; cbn.
  - intros p0 q0 [[<- <-]|[_ H0]]%lookup_insert_Some Hin; cbn; [apply lookup_insert_eq|].
    pose proof (Hg p0 q0 H0 Hin) as H1. rewrite lookup_insert_ne; [done|]. congruence.
  - intros p0 q0 [[<- <-]|[_ ?]]%lookup_insert_Some; [done|by eauto].
  - intros p0 q0 p1 q1 [[<- <-]|[Hn0 H0]]%lookup_insert_Some [[<- <-]|[Hn1 H1]]%lookup_insert_Some C0 C1; try done. by eapply Ho.
  - intros p0 q0 r0 [[<- <-]|[_ ?]]%lookup_insert_Some Hx; [done|by eapply Hr].
Qed.

Lemma locked_acquires w p q s :
  locked w → prompt w → requests w !! p = Some q → rq_phase q = Locking →
  Claims.acquire_refresh_lock account LOCK_TTL (now w) (redis w) = (true, s) →
  locked (put p (locked_at (now w) q) (set_redis s w)).
Proof.
  intros Hl Hp Hq Hph Hget.
  assert (∀ p0 q0, requests w !! p0 = Some q0 → critical (rq_phase q0) = false) as Hnone.
  { intros p0 q0 H0. destruct (critical (rq_phase q0)) eqn:C0; [|done].
    rewrite (held_is_not_taken w p0 q0) in Hget by done. done. }
  assert (s = <[Claims.refresh_key account := ("1", now w + LOCK_TTL * 1000)]> (redis w)) as ->.
  { revert Hget. unfold Claims.acquire_refresh_lock, Claims.set_nx. destruct (Redis.get _ _ _); [done|]. by intros [= <-]. }
  destruct Hl as [Hg Hk Ho Hr]. split; cbn.
  - intros p0 q0 [[<- <-]|[_ H0]]%lookup_insert_Some Hin; cbn; [|by eauto]. apply (Hg p q); [done|by rewrite Hph].
  - intros p0 q0 [[<- <-]|[_ H0]]%lookup_insert_Some C0; cbn; [apply lookup_insert_eq|]. by rewrite (Hnone p0 q0 H0) in C0.
  - intros p0 q0 p1 q1 [[<- <-]|[Hn0 H0]]%lookup_insert_Some [[<- <-]|[Hn1 H1]]%lookup_insert_Some C0 C1; try done.
    + by rewrite (Hnone p1 q1 H1) in C1.
    + by rewrite (Hnone p0 q0 H0) in C0.
    + by rewrite (Hnone p0 q0 H0) in C0.
  - intros p0 q0 r0 [[<- <-]|[_ ?]]%lookup_insert_Some Hx; [done|by eapply Hr].
Qed.

(** An answer that is lost: if it took the lock, nobody else had it. *)
Lemma locked_unheard w p q (got : bool) until :
  locked w → prompt w → requests w !! p = Some q → rq_phase q = Locking →
  locked (goes p q (Losing until)
    (if got then set_redis (Claims.acquire_refresh_lock account LOCK_TTL (now w) (redis w)).2 w else w)).
Proof.
  intros Hl Hp Hq Hph. assert (locked (goes p q (Losing until) w)) as Hw by (eapply locked_goes; try done; by rewrite Hph).
  destruct got; [|done]. set (s := (Claims.acquire_refresh_lock _ _ _ _).2).
  destruct Hw as [Hg Hk Ho Hr]. split; try done. intros p0 q0 H0 C0. cbn in H0 |- *.
  apply lookup_insert_Some in H0 as [[<- <-]|[Hne H0]]; [done|].
  assert (s = redis w) as -> by (unfold s; by rewrite (held_is_not_taken w p0 q0)). by apply (l_key w Hl p0).
Qed.

Lemma locked_step w w' : locked w → prompt w → step w w' → locked w'.
Proof.
  intros Hl Hp Hst. destruct Hst.
  - by apply locked_entered.
  - by apply locked_through.
  - unfold after_gate. destruct read as [[m|]|e]; [destruct (negb _)| |].
    all: first [eapply locked_finish|eapply locked_goes]; try done; rewrite H0; done.
  - by eapply locked_acquires.
  - eapply locked_goes; try done; by rewrite H0.
  - by apply locked_unheard.
  - eapply locked_finish; try done; by rewrite H0.
  - assert (∀ r, has_read (under_lock open_ (rq_began q) (row w)) = Some r → row w = Some r) as Hrd.
    { intros r. unfold under_lock. destruct (row w) as [r0|]; [|done]. destruct (opened r0); [|done].
      destruct (negb _); [done|]. by intros [= ->]. }
    eapply locked_goes; try done; try (by rewrite H0); [|by left; apply Hrd].
    unfold under_lock. destruct (row w); [|done]. destruct (opened _); [|done]. by destruct (negb _).
  - eapply locked_goes; try done; by rewrite H0.
  - eapply locked_goes; try done; try (by rewrite H0). intros r' [= <-]. eapply (l_row w Hl p q); [done|]. by rewrite H0.
  - eapply locked_goes; try done; by rewrite H0.
  - eapply locked_goes; try done; by rewrite H0.
  - destruct (seal_ _ _); eapply locked_goes; try done; try (by rewrite H0). intros r' [= <-]. eapply (l_row w Hl p q); [done|]. by rewrite H0.
  - eapply locked_goes; try done; by rewrite H0.
  - destruct (store_credentials _ _ w) as [won w1] eqn:E. eapply locked_store; try done; by destruct won.
  - destruct wrote; [|eapply locked_goes; try done; by rewrite H0].
    destruct (store_credentials _ _ w) as [won w1] eqn:E. by eapply locked_store.
  - eapply locked_goes; try done; by rewrite H0.
  - eapply locked_goes; try done; by rewrite H0.
  - eapply locked_finish; try done; try (by destruct heard). by rewrite H0.
  - destruct (ungate_rest q w) as (U1 & _ & _ & U4 & U5 & _). eapply (locked_fewer w _ p q); [done..| | | |].
    + intros p' q'. cbn. intros [Hne ?]%lookup_delete_Some. left. by split.
    + cbn. unfold ungate. by destruct (inside _).
    + intros _. cbn. by rewrite U5.
    + cbn. by rewrite U1.
  - eapply locked_world; try done. by left.
  - eapply locked_world; try done. by right.
Qed.

Lemma locked_steps r t w : steps prompt (fresh_world r t) w → locked w ∧ prompt w.
Proof.
  intros Hs. remember (fresh_world r t) as w0 eqn:E. induction Hs as [w|w w' w'' Hs IH Hst Hok].
  - subst. split; [split|]; unfold prompt; cbn; intros *; by rewrite lookup_empty.
  - destruct (IH E) as [Hl Hp]. split; [by eapply locked_step|done].
Qed.

(** C14. While nobody keeps the lock past its time, requests take turns: through
    the gate one at a time on a replica, under the lock one at a time in the
    fleet; so a refresh token is presented only while nobody else presents
    one, and only if it is the one the row still holds. *)
Theorem refreshes_take_turns r t w :
  steps prompt (fresh_world r t) w →
  (∀ p q p' q', requests w !! p = Some q → requests w !! p' = Some q' → rq_replica q = rq_replica q' →
     inside (rq_phase q) = true → inside (rq_phase q') = true → p = p')
  ∧ (∀ p q p' q', requests w !! p = Some q → requests w !! p' = Some q' →
     critical (rq_phase q) = true → critical (rq_phase q') = true → p = p')
  ∧ ∀ p q r' m, requests w !! p = Some q → rq_phase q = Asked r' m → row w = Some r' ∨ row w = None.
Proof.
  intros Hs. destruct (locked_steps r t w Hs) as [Hl _]. split_and!; [|by apply l_one|].
  - intros p q p' q' Hp Hp' Heq Hin Hin'. pose proof (l_gate w Hl p q Hp Hin). pose proof (l_gate w Hl p' q' Hp' Hin'). congruence.
  - intros p q r' m Hq Hph. eapply (l_row w Hl p q); [done|]. by rewrite Hph.
Qed.

End refreshing.
End Refreshing.

(** ** Small cases *)

Module SmallRefresh.
Import Credential Refresh Refreshing.

(** A cipher that hides nothing, and a toy JSON text. *)
#[local] Instance clear : Aead := {| encrypt _ _ plain := Some plain; decrypt _ _ c := Some c |}.

#[local] Instance clear_laws : AeadLaws.
Proof. split. intros k n plain c [= <-]. done. Qed.

Definition to_vec (v : Json) : list ascii := Str.bytes (Wire.a_printer v).
Definition from_slice (b : list ascii) : option Json := Wire.a_parser (Str.of_bytes b).
Lemma text_back v : from_slice (to_vec v) = Some v.
Proof. unfold from_slice, to_vec. rewrite Str.of_bytes_bytes. apply Wire.a_printer_parses. Qed.

Definition serde_error (b : list ascii) : string := "expected value".
Definition kek : list ascii := repeat Ascii.zero 32.
Definition drawn : list ascii := repeat Ascii.zero 24.

Definition seal_ (random : list ascii) (m : SecretMaterial) := Seal.seal_json to_vec kek random m.
Definition open_ (s : Sealed) := Seal.open_json from_slice serde_error kek s.

Definition due : SecretMaterial :=
  {| access_token := "at-1"; refresh_token := Some "rt-1"; expires_at := Some 1100; version := 0;
     client_id := Some "client"; account_id := None |}.
Definition renewed : SecretMaterial :=
  {| access_token := "at-2"; refresh_token := Some "rt-2"; expires_at := Some 9000; version := 0;
     client_id := Some "client"; account_id := None |}.

Lemma sealed_credential_opens_witness :
  ∃ s, seal_ drawn due = Ok s ∧ open_ s = Ok due.
Proof.
  eexists. split; [reflexivity|].
  apply (Sealing.sealed_credential_opens to_vec from_slice serde_error text_back kek drawn due); [done| |done|reflexivity].
  intros e [= <-]. by split; vm_compute.
Defined.

Definition row0 : TokenRow :=
  {| tr_sealed := match seal_ drawn due with Ok s => s | Err _ => {| ciphertext := []; nonce := [] |} end; tr_version := 7 |}.

Abbreviation step := (step open_ seal_ "acct").
Abbreviation steps := (steps open_ seal_ "acct").

Definition the (p : nat) (w : World) : Request :=
  default {| rq_replica := 0; rq_row := row0; rq_began := 0; rq_since := 0; rq_phase := AtGate |} (requests w !! p).

Lemma prompt_dec w :
  bool_decide (map_Forall (λ _ q, critical (rq_phase q) = true → now w < rq_since q + LOCK_TTL * 1000) (requests w)) = true →
  prompt w.
Proof. intros H%bool_decide_eq_true p q Hq. by apply (H p q). Qed.

(** A request on a replica, up to the call. *)
Definition begins (p replica : nat) (w : World) : World :=
  put p {| rq_replica := replica; rq_row := row0; rq_began := unix w; rq_since := 0;
           rq_phase := entered open_ (Ok tt) row0 (unix w) |} w.
Definition through (p : nat) (w : World) : World :=
  goes p (the p w) Rereading (set_gates (<[rq_replica (the p w) := p]> (gates w)) w).
Definition rereads (p : nat) (w : World) : World := after_gate p (the p w) (reread open_ w) w.
Definition locks (p : nat) (w : World) : World :=
  put p (locked_at (now w) (the p w)) (set_redis (Claims.acquire_refresh_lock "acct" LOCK_TTL (now w) (redis w)).2 w).
Definition reads (p : nat) (w : World) : World := goes p (the p w) (under_lock open_ (rq_began (the p w)) (row w)) w.
Definition sends (p : nat) (w : World) : World := goes p (the p w) (Asked row0 due) (log (Sent p row0 due) w).
Definition answered (p : nat) (w : World) : World :=
  goes p (the p w)
    (match seal_ drawn (bumped due renewed) with
     | Ok sealed => Storing row0 (bumped due renewed) sealed
     | Err e => Releasing (Err e)
     end) (log (Answered due renewed) w).
Definition sealed1 : Sealed :=
  match seal_ drawn (bumped due renewed) with Ok s => s | Err _ => {| ciphertext := []; nonce := [] |} end.
Definition stores (p : nat) (w : World) : World :=
  let '(won, w) := store_credentials sealed1 7 w in
  goes p (the p w) (if won then Releasing (Ok (bumped due renewed)) else Outrun) w.
Definition releases (p : nat) (w : World) : World :=
  finish p (the p w) (Ok (bumped due renewed)) (set_redis (Claims.release_refresh_lock "acct" (redis w)) w).

Definition asked (p replica : nat) (w : World) : World := sends p (reads p (locks p (rereads p (through p (begins p replica w))))).

Definition start : World := fresh_world row0 1000000.
Definition waiting : World := begins 1 0 (asked 0 0 start).
Definition finished : World := rereads 1 (through 1 (releases 0 (stores 0 (answered 0 waiting)))).

(** Each is a step, where its request is where it has to be. *)
Definition is_at (p : nat) (ph : Phase) (w : World) : Prop :=
  requests w !! p = Some (the p w) ∧ rq_phase (the p w) = ph.

Lemma by_begins p replica w : requests w !! p = None → In row0 (rows w) → step w (begins p replica w).
Proof. apply f_begins. Qed.
Lemma by_through p w : is_at p AtGate w → gates w !! rq_replica (the p w) = None → step w (through p w).
Proof. intros []. by apply f_through. Qed.
Lemma by_rereads p w : is_at p Rereading w → step w (rereads p w).
Proof. intros []. apply f_rereads; [done..|by left]. Qed.
Lemma by_locks p w : is_at p Locking w → (Claims.acquire_refresh_lock "acct" LOCK_TTL (now w) (redis w)).1 = true → step w (locks p w).
Proof. intros [] Hl. apply f_locks; [done..|]. destruct (Claims.acquire_refresh_lock _ _ _ _) as [b s]. cbn in *. by rewrite Hl. Qed.
Lemma by_reads p w : is_at p Reading w → step w (reads p w).
Proof. intros []. by apply f_reads. Qed.
Lemma by_sends p w : is_at p (Presenting row0 due) w → step w (sends p w).
Proof. intros []. by apply f_sends. Qed.
Lemma by_answered p w : is_at p (Asked row0 due) w → step w (answered p w).
Proof. intros []. by apply f_answered. Qed.
Lemma by_stores p w : is_at p (Storing row0 (bumped due renewed) sealed1) w → requests (store_credentials sealed1 7 w).2 = requests w → step w (stores p w).
Proof.
  intros [] He. pose proof (f_stores open_ seal_ "acct" p (the p w) row0 (bumped due renewed) sealed1 w) as Hs.
  unfold stores, the in *. change (tr_version row0) with 7 in Hs. destruct (store_credentials sealed1 7 w) as [won w']. cbn in He. rewrite He. by apply Hs.
Qed.
Lemma by_releases p w : is_at p (Releasing (Ok (bumped due renewed))) w → step w (releases p w).
Proof. intros []. by apply (f_releases open_ seal_ "acct" p (the p w) (Ok (bumped due renewed)) true). Qed.

Ltac goes_by c :=
  eapply fs_step; [|apply c; try (split; vm_compute; reflexivity); vm_compute; first [reflexivity|by left]
    |first [exact I|apply prompt_dec; vm_compute; reflexivity]].

Lemma asked_reachable : steps prompt start (asked 0 0 start).
Proof.
  goes_by by_sends. goes_by by_reads. goes_by by_locks. goes_by by_rereads. goes_by by_through. goes_by by_begins. apply fs_refl.
Qed.

Lemma waiting_reachable : steps prompt start waiting.
Proof. goes_by by_begins. exact asked_reachable. Qed.

Lemma finished_reachable : steps prompt start finished.
Proof.
  goes_by by_rereads. goes_by by_through. goes_by by_releases. goes_by by_stores. goes_by by_answered. exact waiting_reachable.
Qed.

Lemma any_run ok w w' : steps ok w w' → steps (λ _, True) w w'.
Proof. intros H. induction H; [apply fs_refl|]. by eapply fs_step. Qed.

(** Who waited at the gate is handed what the first was answered, and nothing
    more is sent. *)
Example the_second_takes_what_the_first_got :
  rq_phase (the 0 finished) = Finished (Ok (bumped due renewed)) ∧ rq_phase (the 1 finished) = Finished (Ok (bumped due renewed))
  ∧ trace finished = [Answered due renewed; Sent 0 row0 due] ∧ gates finished = ∅ ∧ redis finished = ∅.
Proof. split_and!; vm_compute; reflexivity. Qed.

Lemma stored_credentials_form_a_chain_witness :
  chained open_ seal_ (trace finished) (rows finished) ∧ length (rows finished) = 2%nat.
Proof.
  split; [|vm_compute; reflexivity]. apply (stored_credentials_form_a_chain open_ seal_ "acct" row0 1000000 finished).
  exact (any_run _ _ _ finished_reachable).
Defined.

Lemma no_request_goes_backwards_witness :
  ∃ r', In r' (rows finished) ∧ 7 ≤ tr_version r' ∧ holds open_ seal_ r' (bumped due renewed).
Proof.
  apply (no_request_goes_backwards open_ seal_ "acct" row0 1000000 finished 1 (the 1 finished)).
  - exact (any_run _ _ _ finished_reachable).
  - vm_compute. reflexivity.
  - vm_compute. reflexivity.
Defined.

Lemma refreshes_take_turns_witness :
  rq_phase (the 0 waiting) = Asked row0 due ∧ (row waiting = Some row0 ∨ row waiting = None).
Proof.
  split; [vm_compute; reflexivity|].
  refine (proj2 (proj2 (refreshes_take_turns open_ seal_ "acct" row0 1000000 waiting waiting_reachable)) 0%nat (the 0 waiting) row0 due _ _);
    vm_compute; reflexivity.
Defined.

(** A call that outlasts the lock: another replica takes it and presents the
    same refresh token while the first presentation is out.  Grok's refresh is
    two requests, each let take twenty seconds. *)
Definition overlap : World := asked 1 1 (set_now (1000000 + 31000) (asked 0 0 start)).

Example two_at_once :
  steps (λ _, True) start overlap ∧ rq_phase (the 0 overlap) = Asked row0 due ∧ rq_phase (the 1 overlap) = Asked row0 due.
Proof.
  split; [|split; vm_compute; reflexivity].
  goes_by by_sends. goes_by by_reads. goes_by by_locks. goes_by by_rereads. goes_by by_through. goes_by by_begins.
  eapply fs_step; [|apply f_time; vm_compute; discriminate|exact I]. exact (any_run _ _ _ asked_reachable).
Qed.

End SmallRefresh.
