(* ===== verification/Import.v ===== *)
(** * Importing transcripts

    [crates/oag/src/admin/usage_import.rs] and its directory: the usage a
    command line records of itself, folded into the ledger.  Module Transcript
    reads the records ([claude_code.rs], [grok_cli.rs]); Module Verdict decides
    which sessions this gateway's ledger already holds ([verdict.rs]); Module
    Planning prices what is left ([planning.rs]); Module Apply writes it and
    takes it back ([apply.rs], with [gateway_fingerprints] and
    [gateway_activity] of [oag-store/src/repo/usage.rs]).

    Reading a directory is a list of files.  An instant is in nanoseconds.
    RFC 3339, JSON text and UUIDs are parameters. *)

From Stdlib Require Import Ascii QArith.
From stdpp Require Import sorting.
From S2P Require Import Prelude Text Money Domain.
From S2P Require Import Efforts Catalog Cost.
From S2P Require Import Classify Canonical.
From S2P Require Import Wire.
From S2P Require Import Ordered.
From S2P Require Import CatalogSync.
From S2P Require Import Refresh.
#[local] Open Scope string_scope.
#[local] Open Scope list_scope.
#[local] Open Scope Z_scope.
Import Js Wire.

(** ** What is read *)

Inductive Source : Type := ClaudeCode | GrokCli.

#[export] Instance Source_eq_dec : EqDecision Source.
Proof. solve_decision. Defined.

Definition Fingerprint : Type := Z * Z * Z * Z.

Record Message : Type := {
  external_id : string; occurred_at : Z; model_slug : string; usage : Usage; vendor_ticks : option Z
}.

Record Session : Type := { messages : gmap string Message }.

Record Scan : Type := {
  sessions : gmap string Session; files : Z; malformed : Z; unusable : Z; incomplete : Z
}.

Definition SECOND : Z := 1000000000.
Definition DISTINCTIVE_TOKENS : Z := 1000.
Definition LEDGER_SLACK : Z := 10 * 60 * SECOND.
Definition IMPORTED_LABEL : string := "imported".
Definition ORIGIN_CLAUDE_CODE : string := "claude-code".
Definition ORIGIN_GROK_CLI : string := "grok-cli".

Definition clamp (v : Z) : Z := Z.min v I64_MAX.

Definition fingerprint_of (u : Usage) : Fingerprint :=
  (clamp (input_tokens u), clamp (output_tokens u), clamp (cache_read_tokens u), clamp (cache_write_tokens u)).

Definition fingerprint (m : Message) : Fingerprint := fingerprint_of (usage m).

Definition distinctive (m : Message) : bool := DISTINCTIVE_TOKENS <=? Usages.total (usage m).

(** [Session::messages] in order, and the window they span. *)
Definition values (s : Session) : list Message := map snd (Ordered.in_order (messages s)).

Definition spread (first : Z * Z) (l : list (Z * Z)) : Z * Z :=
  fold_left (λ w x, (Z.min w.1 x.1, Z.max w.2 x.2)) l first.

Definition window (s : Session) : option (Z * Z) :=
  match map (λ m, (occurred_at m, occurred_at m)) (values s) with
  | [] => None
  | first :: l => Some (spread first l)
  end.

Module Origins.

Definition message_ids_are_global (s : Source) : bool := match s with ClaudeCode => true | GrokCli => false end.
Definition origin (s : Source) : string := match s with ClaudeCode => ORIGIN_CLAUDE_CODE | GrokCli => ORIGIN_GROK_CLI end.
Definition provider (s : Source) : string := match s with ClaudeCode => "anthropic" | GrokCli => "xai" end.
Definition foreign_model_proves_proxying (s : Source) : bool := match s with ClaudeCode => true | GrokCli => false end.

End Origins.

(** ** Reading the records *)

Module Transcript.

Definition GROK_USAGE_LOG : string := "updates.jsonl".
Definition GROK_TURN_COMPLETED : string := "turn_completed".
Definition GROK_AGENT_SUFFIX : string := "-build".
Definition GROK_UNNAMED_MODEL : string := "unnamed".

Definition empty_scan : Scan := {| sessions := ∅; files := 0; malformed := 0; unusable := 0; incomplete := 0 |}.

Definition set_sessions m s := {| sessions := m; files := files s; malformed := malformed s; unusable := unusable s; incomplete := incomplete s |}.
Definition add_file s := {| sessions := sessions s; files := files s + 1; malformed := malformed s; unusable := unusable s; incomplete := incomplete s |}.
Definition add_malformed s := {| sessions := sessions s; files := files s; malformed := malformed s + 1; unusable := unusable s; incomplete := incomplete s |}.
Definition add_unusable s := {| sessions := sessions s; files := files s; malformed := malformed s; unusable := unusable s + 1; incomplete := incomplete s |}.
Definition add_incomplete s := {| sessions := sessions s; files := files s; malformed := malformed s; unusable := unusable s; incomplete := incomplete s + 1 |}.

(** A message into its session: the last of one id is the one. *)
Definition insert_message (m : Message) (s : Session) : Session := {| messages := <[external_id m := m]> (messages s) |}.

Definition session_named (name : string) (s : Scan) : Session := default {| messages := ∅ |} (sessions s !! name).

Definition into_session (name : string) (f : Session → Session) (s : Scan) : Scan :=
  set_sessions (<[name := f (session_named name s)]> (sessions s)) s.

(** [as_str().filter(|s| !s.is_empty())]. *)
Definition nonempty_str (v : Json) : option string :=
  match as_str v with Some s => if Str.is_empty s then None else Some s | None => None end.

Definition count (v : Json) (key : string) : Z := default 0 (as_u64 (idx v key)).

Definition is_object (v : Json) : bool := match v with JObject _ => true | _ => false end.

Section transcript.
Context (from_str : string → option Json) (parse_rfc3339 : string → option Z).

Definition claude_usage (usage : Json) : Usage :=
  {| input_tokens := count usage "input_tokens"; output_tokens := count usage "output_tokens";
     cache_read_tokens := count usage "cache_read_input_tokens";
     cache_write_tokens := count usage "cache_creation_input_tokens" |}.

Definition absorb_claude_line (fallback_session : string) (scan : Scan) (line : string) : Scan :=
  let line := Str.trim line in
  if Str.is_empty line then scan else
  match from_str line with
  | None => add_malformed scan
  | Some v =>
      if negb (bool_decide (as_str (idx v "type") = Some "assistant")) then scan else
      if bool_decide (as_bool (idx v "isApiErrorMessage") = Some true) then scan else
      let msg := idx v "message" in
      let usage := idx msg "usage" in
      if negb (is_object usage) then scan else
      let model := str_or "" (idx msg "model") in
      if Str.is_empty model || Str.eqb model "<synthetic>" then scan else
      match as_str (idx msg "id"), as_str (idx v "timestamp") with
      | Some id, Some ts =>
          match parse_rfc3339 ts with
          | None => add_unusable scan
          | Some occurred_at =>
              let session := default fallback_session (nonempty_str (idx v "sessionId")) in
              into_session session (insert_message
                {| external_id := id; occurred_at := occurred_at; model_slug := model;
                   usage := claude_usage usage; vendor_ticks := None |}) scan
          end
      | _, _ => add_unusable scan
      end
  end.

Definition grok_usage (u : Json) : Usage :=
  let cache_read := count u "cachedReadTokens" in
  {| input_tokens := Z.max 0 (count u "inputTokens" - cache_read); output_tokens := count u "outputTokens";
     cache_read_tokens := cache_read; cache_write_tokens := count u "cacheCreationTokens" |}.

(** The seconds [from_unix_timestamp] takes: the years -9999 to 9999. *)
Definition UNIX_MIN : Z := -377705116800.
Definition UNIX_MAX : Z := 253402300799.

Definition grok_instant (v : Json) : option Z :=
  match Seal.as_i64 v with
  | Some seconds => if (UNIX_MIN <=? seconds) && (seconds <=? UNIX_MAX) then Some (seconds * SECOND) else None
  | None => as_str v ≫= parse_rfc3339
  end.

Definition push_grok_turn (prompt : string) (occurred_at : Z) (slug : string) (usage : Json) (session : Session) : Session :=
  insert_message {| external_id := prompt +:+ ":" +:+ slug; occurred_at := occurred_at; model_slug := slug;
                    usage := grok_usage usage; vendor_ticks := as_u64 (idx usage "costUsdTicks") |} session.

Definition absorb_grok_line (fallback_session : string) (scan : Scan) (line : string) : Scan :=
  let line := Str.trim line in
  if Str.is_empty line then scan else
  match from_str line with
  | None => add_malformed scan
  | Some v =>
      let params := idx v "params" in
      let update := idx params "update" in
      if negb (bool_decide (as_str (idx update "sessionUpdate") = Some GROK_TURN_COMPLETED)) then scan else
      let usage := idx update "usage" in
      if negb (is_object usage) then scan else
      match nonempty_str (idx update "prompt_id"), grok_instant (idx v "timestamp") with
      | Some prompt, Some occurred_at =>
          let scan := if bool_decide (as_bool (idx usage "usageIsIncomplete") = Some true) then add_incomplete scan else scan in
          let session := default fallback_session (nonempty_str (idx params "sessionId")) in
          into_session session (λ into,
            match idx usage "modelUsage" with
            | JObject ((_ :: _) as models) => fold_left (λ into m, push_grok_turn prompt occurred_at m.1 m.2 into) models into
            | _ => push_grok_turn prompt occurred_at GROK_UNNAMED_MODEL usage into
            end) scan
      | _, _ => add_unusable scan
      end
  end.

(** A file: its name and its stem, its directory's name, and its text if it
    can be read. *)
Record File : Type := { f_name : option string; f_stem : option string; f_parent : option string; f_text : option string }.

Definition LF : ascii := ascii_of_N 10.

Definition absorb_file (absorb : string → Scan → string → Scan) (fallback : string) (f : File) (scan : Scan) : Scan :=
  match f_text f with
  | None => add_malformed scan
  | Some text => fold_left (absorb fallback) (Str.split text LF) (add_file scan)
  end.

Definition scan_claude_code (fs : list File) : Scan :=
  fold_left (λ scan f, absorb_file absorb_claude_line (default "unknown" (f_stem f)) f scan) fs empty_scan.

Definition scan_grok_cli (named_directly : bool) (fs : list File) : Scan :=
  fold_left (λ scan f,
    if negb named_directly && negb (bool_decide (f_name f = Some GROK_USAGE_LOG)) then scan
    else absorb_file absorb_grok_line (default "unknown" (f_parent f)) f scan) fs empty_scan.

End transcript.
End Transcript.

(** ** Which sessions the ledger holds *)

(** What the importer asks of a ledger's row, and writes to one. *)
Record Event (D : Type) : Type := {
  e_request_id : string; e_attempt : Z; e_occurred_at : Z; e_account_id : option string; e_model_id : string;
  e_fingerprint : Fingerprint; e_cost_usd : D; e_counterfactual_usd : D; e_counterfactual_api_usd : D;
  e_origin : string; e_source_ref : option string; e_cost_known : bool
}.
Arguments e_request_id {D} _. Arguments e_attempt {D} _. Arguments e_occurred_at {D} _. Arguments e_account_id {D} _.
Arguments e_model_id {D} _. Arguments e_fingerprint {D} _. Arguments e_cost_usd {D} _. Arguments e_counterfactual_usd {D} _.
Arguments e_counterfactual_api_usd {D} _. Arguments e_origin {D} _. Arguments e_source_ref {D} _. Arguments e_cost_known {D} _.

Inductive Skip : Type :=
  | AlreadyInLedger (matched of_ : nat)
  | AfterCutoff
  | ForeignModel (model : string)
  | GatewayActive (rows : nat).

Inductive Verdict : Type := ToImport | Skipped (s : Skip).

Module Verdict.

Record LedgerIndex : Type := { li_at : gmap Fingerprint (list Z); li_served : list Z }.

Definition no_index : LedgerIndex := {| li_at := ∅; li_served := [] |}.

Definition sort (l : list Z) : list Z := merge_sort Z.le l.

Definition push_at (index : gmap Fingerprint (list Z)) (row : Z * Fingerprint) : gmap Fingerprint (list Z) :=
  <[row.2 := default [] (index !! row.2) ++ [row.1]]> index.

Definition build (rows : list (Z * Fingerprint)) : LedgerIndex :=
  {| li_at := sort <$> fold_left push_at rows ∅; li_served := [] |}.

Definition activity (served : list Z) : LedgerIndex := {| li_at := ∅; li_served := sort served |}.

(** [partition_point], of a list that is partitioned. *)
Fixpoint partition_point (p : Z → bool) (l : list Z) : nat :=
  match l with [] => 0 | x :: l => if p x then S (partition_point p l) else 0 end.

Definition seen_between (index : LedgerIndex) (fp : Fingerprint) (from to : Z) : bool :=
  match li_at index !! fp with
  | None => false
  | Some times =>
      match nth_error times (partition_point (λ t, t <? from) times) with
      | Some t => t <=? to
      | None => false
      end
  end.

Definition served_between (index : LedgerIndex) (from to : Z) : nat :=
  partition_point (λ t, t <=? to) (li_served index) - partition_point (λ t, t <? from) (li_served index).

Definition last_segment (s : string) : string := match Str.rsplit_once s "/" with Some (_, r) => r | None => s end.

Definition is_native_model (slug : string) : bool := Str.starts_with (last_segment slug) "claude".

Definition foreign_model (session : Session) : option string :=
  find (λ slug, negb (is_native_model slug)) (map model_slug (values session)).

Definition judge (session : Session) (ledger : LedgerIndex) (source : Source) (before : option Z) : option Verdict :=
  match window session with
  | None => None
  | Some (start, end_) =>
      if match before with Some cutoff => cutoff <=? end_ | None => false end then Some (Skipped AfterCutoff) else
      match (if Origins.foreign_model_proves_proxying source then foreign_model session else None) with
      | Some model => Some (Skipped (ForeignModel model))
      | None =>
          let from := start - LEDGER_SLACK in
          let to := end_ + LEDGER_SLACK in
          match source with
          | ClaudeCode =>
              let matched := length (keep (λ m, distinctive m && seen_between ledger (fingerprint m) from to) (values session)) in
              if (0 <? matched)%nat then Some (Skipped (AlreadyInLedger matched (size (messages session))))
              else Some ToImport
          | GrokCli =>
              let rows := served_between ledger from to in
              if (0 <? rows)%nat then Some (Skipped (GatewayActive rows)) else Some ToImport
          end
      end
  end.

(** [reporting::span]. *)
Definition span (scan : Scan) : option (Z * Z) :=
  match filter_map (λ s, window s.2) (Ordered.in_order (sessions scan)) with
  | [] => None
  | first :: l => Some (spread first l)
  end.

Section ledger.
Context {D : Type}.

(** The two questions of the ledger. *)
Definition gateway_fingerprints (ledger : list (Event D)) (from to : Z) : list (Z * Fingerprint) :=
  map (λ e, (e_occurred_at e, e_fingerprint e))
    (keep (λ e, Str.eqb (e_origin e) "gateway" && (from <=? e_occurred_at e) && (e_occurred_at e <=? to)) ledger).

Definition gateway_activity (ledger : list (Event D)) (provider : string) (from to : Z) : list Z :=
  map e_occurred_at
    (keep (λ e, Str.eqb (e_origin e) "gateway" && Str.starts_with (e_model_id e) (provider +:+ "/")
                && (from <=? e_occurred_at e) && (e_occurred_at e <=? to)) ledger).

(** What [import] builds of the ledger, over the records' own span. *)
Definition index_for (source : Source) (ledger : list (Event D)) (scan : Scan) : LedgerIndex :=
  match span scan with
  | None => no_index
  | Some (from, to) =>
      let from := from - LEDGER_SLACK in
      let to := to + LEDGER_SLACK in
      match source with
      | ClaudeCode => build (gateway_fingerprints ledger from to)
      | GrokCli => activity (gateway_activity ledger (Origins.provider source) from to)
      end
  end.

End ledger.
End Verdict.

(** ** What survives, priced *)

Module Planning.
Import Verdict.

Section planning.
Context {D : Type} {HD : Decimal D}.

Record Prices : Type := { by_name : gmap string (option (string * Pricing D)) }.

Definition entry_of (row : ModelRow D) : string * Pricing D :=
  (mr_id row, {| input_per_mtok := mr_input_per_mtok row; output_per_mtok := mr_output_per_mtok row;
                 cache_read_per_mtok := mr_cache_read_per_mtok row; cache_write_per_mtok := mr_cache_write_per_mtok row |}).

Definition spellings (row : ModelRow D) : list string := [mr_upstream_name row; mr_id row; last_segment (mr_id row)].

(** One spelling of one row: the first to answer to it, until another does. *)
Definition index_one (m : gmap string (option (string * Pricing D))) (key : string) (row : ModelRow D)
  : gmap string (option (string * Pricing D)) :=
  match m !! key with
  | None => <[key := Some (entry_of row)]> m
  | Some held =>
      let collides := match held with Some (id, _) => negb (Str.eqb id (mr_id row)) | None => false end in
      if collides then <[key := None]> m else m
  end.

Definition index (rows : list (ModelRow D)) (provider : string) : Prices :=
  {| by_name := fold_left (λ m x, index_one m x.1 x.2)
       (flat_map (λ row, map (λ k, (k, row)) (spellings row)) (keep (λ r, Str.eqb (mr_provider r) provider) rows)) ∅ |}.

Definition get (p : Prices) (slug : string) : option (string * Pricing D) :=
  match by_name p !! slug with Some (Some e) => Some e | _ => None end.

(** [Source::price]. *)
Definition price (source : Source) (p : Prices) (slug : string) : option (string * Pricing D) :=
  match get p slug with
  | Some e => Some e
  | None =>
      match source with
      | ClaudeCode => None
      | GrokCli => match Str.strip_suffix slug Transcript.GROK_AGENT_SUFFIX with Some base => get p base | None => None end
      end
  end.

Record Seat : Type := { s_id : string; s_name : string; s_provider : string; s_kind : CredentialKind }.

Definition flat_rate (s : Seat) : bool := Credential.flat_rate (s_kind s).

Definition describe (s : Seat) : string := s_provider s +:+ " " +:+ Credential.channel_label (s_kind s).

(** [account_by_name], of the rows of that name. *)
Definition account_by_name (rows : list (string * string * string * string)) (name : string) : result Seat Error :=
  match keep (λ r, Str.eqb r.1.1.2 name) rows with
  | [] => Err (Config ("no credential named " +:+ name +:+ "; see `oag admin account list`"))
  | [(id, name, provider, kind)] =>
      Ok {| s_id := id; s_name := name; s_provider := provider;
            s_kind := match Credential.from_column kind with Some k => k | None => ApiKey end |}
  | many => Err (Config (Str.decimal (Z.of_nat (length many)) +:+ " credentials are named " +:+ name +:+
      "; rename one, or the import cannot say which subscription paid"))
  end.

Record Pending : Type := {
  p_request_id : string; p_source_ref : string; p_occurred_at : Z; p_model_id : string; p_usage : Usage;
  p_listed : option D; p_vendor_ticks : option Z
}.

Definition booked (p : Pending) (seat : option Seat) : D * D :=
  let listed := default dzero (p_listed p) in
  if match seat with Some s => flat_rate s | None => false end then (dzero, listed) else (listed, listed).

Record Plan : Type := {
  pl_rows : list Pending; pl_skipped : list (string * Skip); pl_unpriced : gmap string nat;
  pl_seat : option Seat; pl_source : Source; pl_scan : Scan
}.

Definition tokens (p : Plan) : Usage :=
  fold_left (λ acc r,
    {| input_tokens := input_tokens acc + input_tokens (p_usage r);
       output_tokens := output_tokens acc + output_tokens (p_usage r);
       cache_read_tokens := cache_read_tokens acc + cache_read_tokens (p_usage r);
       cache_write_tokens := cache_write_tokens acc + cache_write_tokens (p_usage r) |}) (pl_rows p) no_usage.

Definition listed (p : Plan) : D := fold_left dadd (filter_map p_listed (pl_rows p)) dzero.

Definition skipped_as_foreign (p : Plan) : nat :=
  length (keep (λ s, match s.2 with ForeignModel _ => true | _ => false end) (pl_skipped p)).
Definition skipped_as_proxied (p : Plan) : nat :=
  length (keep (λ s, match s.2 with AlreadyInLedger _ _ => true | _ => false end) (pl_skipped p)).
Definition skipped_as_overlapping (p : Plan) : nat :=
  length (keep (λ s, match s.2 with GatewayActive _ => true | _ => false end) (pl_skipped p)).

Definition cross_check (p : Plan) : option (Z * D * nat) :=
  let '(ticks, listed, rows) :=
    fold_left (λ acc r, let '(ticks, listed, rows) := acc in
      match p_vendor_ticks r, p_listed r with
      | Some t, Some l => (sat_add U64_MAX ticks t, dadd listed l, S rows)
      | _, _ => (ticks, listed, rows)
      end) (pl_rows p) (0, dzero, 0%nat) in
  if (0 <? rows)%nat then Some (ticks, listed, rows) else None.

Context (uuid_v5 : string → string).

Definition source_ref (source : Source) (session_id external_id : string) : string :=
  if Origins.message_ids_are_global source then Origins.origin source +:+ ":" +:+ external_id
  else Origins.origin source +:+ ":" +:+ session_id +:+ ":" +:+ external_id.

Definition pending (source : Source) (prices : Prices) (session_id : string) (m : Message) : Pending :=
  let ref := source_ref source session_id (external_id m) in
  let priced := price source prices (model_slug m) in
  {| p_request_id := uuid_v5 ref; p_source_ref := ref; p_occurred_at := occurred_at m;
     p_model_id := match priced with Some (id, _) => id | None => Origins.provider source +:+ "/" +:+ model_slug m end;
     p_usage := usage m;
     p_listed := match priced with Some (_, p) => Some (Usages.cost p (usage m)) | None => None end;
     p_vendor_ticks := vendor_ticks m |}.

Definition note_unpriced (source : Source) (prices : Prices) (m : gmap string nat) (slug : string) : gmap string nat :=
  match price source prices slug with
  | Some _ => m
  | None => <[slug := S (default 0%nat (m !! slug))]> m
  end.

Definition plan_session (ledger : LedgerIndex) (prices : Prices) (source : Source) (before : option Z)
    (out : Plan) (s : string * Session) : Plan :=
  match judge s.2 ledger source before with
  | None => out
  | Some (Skipped reason) =>
      {| pl_rows := pl_rows out; pl_skipped := pl_skipped out ++ [(s.1, reason)]; pl_unpriced := pl_unpriced out;
         pl_seat := pl_seat out; pl_source := pl_source out; pl_scan := pl_scan out |}
  | Some ToImport =>
      {| pl_rows := pl_rows out ++ map (pending source prices s.1) (values s.2); pl_skipped := pl_skipped out;
         pl_unpriced := fold_left (note_unpriced source prices) (map model_slug (values s.2)) (pl_unpriced out);
         pl_seat := pl_seat out; pl_source := pl_source out; pl_scan := pl_scan out |}
  end.

Definition plan (scan : Scan) (ledger : LedgerIndex) (prices : Prices) (source : Source) (before : option Z) : Plan :=
  fold_left (plan_session ledger prices source before) (Ordered.in_order (sessions scan))
    {| pl_rows := []; pl_skipped := []; pl_unpriced := ∅; pl_seat := None; pl_source := source; pl_scan := scan |}.

Definition seated (seat : option Seat) (p : Plan) : Plan :=
  {| pl_rows := pl_rows p; pl_skipped := pl_skipped p; pl_unpriced := pl_unpriced p; pl_seat := seat;
     pl_source := pl_source p; pl_scan := pl_scan p |}.

End planning.
Arguments Prices D : clear implicits.
Arguments Pending D : clear implicits.
Arguments Plan D : clear implicits.
End Planning.

(** ** Writing it, and taking it back *)

Module Apply.
Import Verdict Planning.

Section apply.
Context {D : Type} {HD : Decimal D}.

Definition WRITE_BATCH : nat := 1000.

(** The ledger's two unique keys. *)
Definition conflicts (a b : Event D) : bool :=
  (Str.eqb (e_request_id a) (e_request_id b) && (e_attempt a =? e_attempt b))
  || match e_source_ref a, e_source_ref b with Some x, Some y => Str.eqb x y | _, _ => false end.

(** [ON CONFLICT DO NOTHING], of one row. *)
Definition insert_event (ledger : list (Event D)) (e : Event D) : list (Event D) :=
  if any (conflicts e) ledger then ledger else ledger ++ [e].

Definition event_of (source : Source) (seat : option Seat) (p : Pending D) : Event D :=
  let '(cost, api) := booked p seat in
  {| e_request_id := p_request_id p; e_attempt := 0; e_occurred_at := p_occurred_at p;
     e_account_id := match seat with Some s => Some (s_id s) | None => None end; e_model_id := p_model_id p;
     e_fingerprint := fingerprint_of (p_usage p);
     e_cost_usd := cost; e_counterfactual_usd := api; e_counterfactual_api_usd := api;
     e_origin := Origins.origin source; e_source_ref := Some (p_source_ref p);
     e_cost_known := match p_listed p with Some _ => true | None => false end |}.

(** [chunks(n)], with fuel for the list. *)
Fixpoint chunks_fuel {A} (fuel n : nat) (l : list A) : list (list A) :=
  match fuel, l with
  | S fuel, _ :: _ => firstn n l :: chunks_fuel fuel n (skipn n l)
  | _, _ => []
  end.

Definition chunks {A} (n : nat) (l : list A) : list (list A) := chunks_fuel (length l) n l.

(** One statement writes all of its batch, or fails, and may have written it. *)
Fixpoint write_batches (fails : nat → option (string * bool)) (n : nat) (batches : list (list (Event D)))
    (written : nat) (ledger : list (Event D)) : result nat Error * list (Event D) :=
  match batches with
  | [] => (Ok written, ledger)
  | batch :: batches =>
      match fails n with
      | Some (e, wrote) =>
          (Err (Internal ("importing usage: " +:+ e)), if wrote : bool then fold_left insert_event batch ledger else ledger)
      | None =>
          let ledger' := fold_left insert_event batch ledger in
          write_batches fails (S n) batches (written + (length ledger' - length ledger)) ledger'
      end
  end.

Definition events (p : Plan D) : list (Event D) := map (event_of (pl_source p) (pl_seat p)) (pl_rows p).

Definition write (fails : nat → option (string * bool)) (p : Plan D) (ledger : list (Event D))
  : result nat Error * list (Event D) :=
  write_batches fails 0 (chunks WRITE_BATCH (events p)) 0 ledger.

(** [import], once its arguments and the records are read. *)
Definition import (uuid_v5 : string → string) (fails : nat → option (string * bool)) (source : Source) (scan : Scan)
    (before : option Z) (seat : option Seat) (catalog : list (ModelRow D)) (apply : bool) (ledger : list (Event D))
  : result (Plan D) Error * list (Event D) :=
  let prices := index catalog (Origins.provider source) in
  let p := seated seat (plan uuid_v5 scan (index_for source ledger scan) prices source before) in
  if negb apply then (Ok p, ledger)
  else match write fails p ledger with
       | (Ok _, ledger) => (Ok p, ledger)
       | (Err e, ledger) => (Err e, ledger)
       end.

(** The rows [revert] counts, and those it deletes. *)
Definition scoped (origin : string) (id : option string) (e : Event D) : bool :=
  Str.eqb (e_origin e) origin && match id with None => true | Some id => bool_decide (e_account_id e = Some id) end.

Definition revert (origin : string) (seat : option (result Seat Error)) (apply : bool) (ledger : list (Event D))
  : result nat Error * list (Event D) :=
  if Str.eqb origin "gateway" then
    (Err (Config "refusing to delete gateway-served rows; this command only removes imports"), ledger)
  else
    match seat with
    | Some (Err e) => (Err e, ledger)
    | _ =>
        let id := match seat with Some (Ok s) => Some (s_id s) | _ => None end in
        let n := length (keep (scoped origin id) ledger) in
        (Ok n, if apply then keep (λ e, negb (scoped origin id e)) ledger else ledger)
    end.

End apply.
End Apply.

(** ** The index answers for the ledger *)

Module Judging.
Import Verdict.

Lemma sort_In l t : In t (sort l) ↔ In t l.
Proof. unfold sort. by rewrite <- !list_elem_of_In, merge_sort_Permutation. Qed.

Lemma sort_sorted l : StronglySorted Z.le (sort l).
Proof. apply (StronglySorted_merge_sort Z.le). Qed.

(** What lies at a partition point of an ascending list. *)
Lemma partition_point_seen l from to :
  StronglySorted Z.le l →
  match nth_error l (partition_point (λ t, t <? from) l) with Some t => t <=? to | None => false end = true
  ↔ ∃ t, In t l ∧ from ≤ t ≤ to.
Proof.
  induction 1 as [|x l Hs IH Hx]; [split; [done|by intros (? & [] & _)]|]. cbn [partition_point].
  destruct (Z.ltb_spec x from) as [Hlt|Hge]; cbn [nth_error].
  - rewrite IH. split; intros (t & Hin & Ht); exists t; [split; [by right|done]|]. destruct Hin as [<-|Hin]; [lia|done].
  - rewrite Z.leb_le. split; [intros Hle; exists x; split; [by left|lia]|]. intros (t & [<-|Hin] & Ht); [lia|].
    rewrite List.Forall_forall in Hx. specialize (Hx t Hin). lia.
Qed.

(** An ascending list's elements up to a bound are counted by one partition
    point, so those in a window by two. *)
Lemma partition_point_le l a b : a ≤ b → (partition_point (λ t, (t <? a)%Z) l ≤ partition_point (λ t, (t <=? b)%Z) l)%nat.
Proof.
  intros Hab. induction l as [|x l IH]; [done|]. cbn [partition_point]. destruct (Z.ltb_spec x a), (Z.leb_spec x b); lia.
Qed.

Lemma partition_points_differ l a b :
  a ≤ b → StronglySorted Z.le l →
  (0 < partition_point (λ t, (t <=? b)%Z) l - partition_point (λ t, (t <? a)%Z) l)%nat ↔ ∃ t, In t l ∧ a ≤ t ≤ b.
Proof.
  intros Hab. induction 1 as [|x l Hs IH Hx]; [cbn; split; [lia|by intros (? & [] & _)]|]. cbn [partition_point].
  rewrite List.Forall_forall in Hx. destruct (Z.ltb_spec x a) as [Ha|Ha], (Z.leb_spec x b) as [Hb|Hb]; try lia.
  - assert (∀ n m : nat, S n - S m = n - m)%nat as -> by lia. rewrite IH.
    split; intros (t & Hin & Ht); exists t; [split; [by right|done]|]. destruct Hin as [<-|Hin]; [lia|done].
  - split; [|lia]. intros _. exists x. split; [by left|lia].
  - split; [lia|]. intros (t & [<-|Hin] & Ht); [lia|]. specialize (Hx t Hin). lia.
Qed.

Lemma push_all_In rows m t fp :
  In t (default [] (fold_left push_at rows m !! fp)) ↔ In t (default [] (m !! fp)) ∨ In (t, fp) rows.
Proof.
  revert m; induction rows as [|[t' fp'] rows IH]; intros m; cbn [fold_left]; [cbn; naive_solver|].
  rewrite IH. unfold push_at at 1. cbn [fst snd]. destruct (decide (fp' = fp)) as [->|Hne].
  - rewrite lookup_insert_eq. cbn [default from_option id]. rewrite in_app_iff. cbn [In]. naive_solver.
  - rewrite lookup_insert_ne by done. cbn [In]. naive_solver.
Qed.

Lemma build_seen rows fp from to :
  seen_between (build rows) fp from to = true ↔ ∃ t, In (t, fp) rows ∧ from ≤ t ≤ to.
Proof.
  unfold seen_between, build. cbn [li_at]. rewrite lookup_fmap.
  pose proof (λ t, push_all_In rows ∅ t fp) as Hin. destruct (fold_left push_at rows ∅ !! fp) as [times|]; cbn [fmap option_fmap option_map].
  - rewrite partition_point_seen by apply sort_sorted. split; intros (t & Ht & Hb); exists t; (split; [|done]).
    + rewrite sort_In in Ht. apply Hin in Ht as [Ht|Ht]; [by rewrite lookup_empty in Ht|done].
    + rewrite sort_In. apply Hin. by right.
  - split; [done|]. intros (t & Ht & _). destruct (proj2 (Hin t) (or_intror Ht)).
Qed.

Lemma activity_served served from to :
  from ≤ to → (0 < served_between (activity served) from to)%nat ↔ ∃ t, In t served ∧ from ≤ t ≤ to.
Proof.
  intros Hle. unfold served_between, activity. cbn [li_served]. rewrite partition_points_differ by (done || apply sort_sorted).
  by setoid_rewrite sort_In.
Qed.

(** ** Windows *)

Lemma spread_bounds l first :
  (spread first l).1 ≤ first.1 ∧ first.2 ≤ (spread first l).2 ∧ ∀ x, In x l → (spread first l).1 ≤ x.1 ∧ x.2 ≤ (spread first l).2.
Proof.
  revert first; induction l as [|y l IH]; intros first; [cbn; split_and!; [lia..|done]|]. unfold spread in *. cbn [fold_left].
  destruct (IH (Z.min first.1 y.1, Z.max first.2 y.2)) as (H1 & H2 & H3). cbn [fst snd] in *. split_and!; [lia..|].
  intros x [<-|Hin]; [lia|by apply H3].
Qed.

Lemma spread_least l first lo hi :
  lo ≤ first.1 → first.2 ≤ hi → (∀ x, In x l → lo ≤ x.1 ∧ x.2 ≤ hi) → lo ≤ (spread first l).1 ∧ (spread first l).2 ≤ hi.
Proof.
  revert first; induction l as [|y l IH]; intros first H1 H2 H3; [done|]. unfold spread in *. cbn [fold_left].
  destruct (H3 y ltac:(by left)). apply IH; cbn [fst snd]; [lia|lia|]. intros x Hx. apply H3. by right.
Qed.

Lemma window_In s m start end_ : window s = Some (start, end_) → In m (values s) → start ≤ occurred_at m ≤ end_.
Proof.
  unfold window. intros Hw Hin. apply (in_map (λ m, (occurred_at m, occurred_at m))) in Hin.
  destruct (map _ (values s)) as [|first l]; [done|]. injection Hw as Hw. pose proof (spread_bounds l first) as (H1 & H2 & H3).
  rewrite Hw in *. cbn [fst snd] in *. destruct Hin as [->|Hin]; [cbn in *; lia|]. specialize (H3 _ Hin). cbn in H3. lia.
Qed.

Lemma window_ordered s start end_ : window s = Some (start, end_) → start ≤ end_.
Proof.
  intros Hw. assert (∃ m, In m (values s)) as [m Hm].
  { revert Hw. unfold window. destruct (values s) as [|m l]; [done|]. intros _. exists m. by left. }
  pose proof (window_In s m start end_ Hw Hm). lia.
Qed.

Lemma window_None s : window s = None ↔ values s = [].
Proof. unfold window. by destruct (values s). Qed.

Lemma span_covers scan sid s start end_ :
  sessions scan !! sid = Some s → window s = Some (start, end_) → ∃ lo hi, span scan = Some (lo, hi) ∧ lo ≤ start ∧ end_ ≤ hi.
Proof.
  intros Hs Hw. unfold span.
  assert (In (start, end_) (filter_map (λ s, window s.2) (Ordered.in_order (sessions scan)))) as Hin.
  { apply filter_map_In. exists (sid, s). split; [by apply Ordered.in_order_In|done]. }
  destruct (filter_map _ _) as [|first l]; [done|]. pose proof (spread_bounds l first) as (H1 & H2 & H3).
  exists (spread first l).1, (spread first l).2. split; [by rewrite <- surjective_pairing|].
  destruct Hin as [->|Hin]; [done|]. by apply (H3 _ Hin).
Qed.

Section judging.
Context {D : Type}.

(** A session no row of the gateway's speaks against. *)
Definition spared (source : Source) (ledger : list (Event D)) (before : option Z) (s : Session) : Prop :=
  ∀ start end_, window s = Some (start, end_) →
  (∀ cutoff, before = Some cutoff → end_ < cutoff)
  ∧ match source with
    | ClaudeCode =>
        (∀ m, In m (values s) → is_native_model (model_slug m) = true)
        ∧ ∀ m e, In m (values s) → distinctive m = true → In e ledger → e_origin e = "gateway" →
            e_fingerprint e = fingerprint m → ¬ (start - LEDGER_SLACK ≤ e_occurred_at e ≤ end_ + LEDGER_SLACK)
    | GrokCli =>
        ∀ e, In e ledger → e_origin e = "gateway" → Str.starts_with (e_model_id e) "xai/" = true →
          ¬ (start - LEDGER_SLACK ≤ e_occurred_at e ≤ end_ + LEDGER_SLACK)
    end.

Lemma fingerprints_In (ledger : list (Event D)) from to t fp :
  In (t, fp) (gateway_fingerprints ledger from to)
  ↔ ∃ e, In e ledger ∧ e_origin e = "gateway" ∧ from ≤ t ≤ to ∧ e_occurred_at e = t ∧ e_fingerprint e = fp.
Proof.
  unfold gateway_fingerprints. rewrite in_map_iff. split.
  - intros (e & Heq & Hin). injection Heq as <- <-. apply keep_In in Hin as [Hin H]. apply andb_true_iff in H as [[H1 H2]%andb_true_iff H3].
    apply Str.str_eqb_eq in H1. exists e. split_and!; [done|done|lia..|done|done].
  - intros (e & Hin & Ho & Hb & <- & <-). exists e. split; [done|]. apply keep_In. split; [done|]. rewrite Ho. cbn.
    apply andb_true_iff. lia.
Qed.

Lemma activity_In (ledger : list (Event D)) p from to t :
  In t (gateway_activity ledger p from to)
  ↔ ∃ e, In e ledger ∧ e_origin e = "gateway" ∧ Str.starts_with (e_model_id e) (p +:+ "/") = true ∧ from ≤ t ≤ to ∧ e_occurred_at e = t.
Proof.
  unfold gateway_activity. rewrite in_map_iff. split.
  - intros (e & <- & Hin). apply keep_In in Hin as [Hin H]. apply andb_true_iff in H as [[[H1 H2]%andb_true_iff H3]%andb_true_iff H4].
    apply Str.str_eqb_eq in H1. exists e. split_and!; try done; lia.
  - intros (e & Hin & Ho & Hm & Hb & <-). exists e. split; [done|]. apply keep_In. split; [done|]. rewrite Ho, Hm. cbn.
    apply andb_true_iff. lia.
Qed.

Lemma foreign_model_None s : foreign_model s = None ↔ ∀ m, In m (values s) → is_native_model (model_slug m) = true.
Proof.
  unfold foreign_model. split.
  - intros H m Hin. pose proof (find_none _ _ H (model_slug m) (in_map model_slug _ _ Hin)) as Hn. by apply negb_false_iff in Hn.
  - intros H. destruct (find _ _) as [slug|] eqn:E; [|done]. apply find_some in E as [Hin Hn]. apply in_map_iff in Hin as (m & <- & Hin).
    by rewrite (H m Hin) in Hn.
Qed.

(** The index of the records' own span answers as the whole ledger would. *)
Lemma judged_by_the_whole_ledger source (ledger : list (Event D)) scan before sid s :
  sessions scan !! sid = Some s →
  judge s (index_for source ledger scan) source before = Some ToImport ↔ values s ≠ [] ∧ spared source ledger before s.
Proof.
  intros Hs. unfold judge, spared. destruct (window s) as [[start end_]|] eqn:Hw.
  2: { apply window_None in Hw. naive_solver. }
  assert (values s ≠ []) as Hne by (intros Hv; apply window_None in Hv; congruence).
  destruct (span_covers scan sid s start end_ Hs Hw) as (lo & hi & Hspan & Hlo & Hhi). pose proof (window_ordered _ _ _ Hw) as Hle.
  destruct (match before with Some cutoff => cutoff <=? end_ | None => false end) eqn:Hcut.
  { split; [done|]. intros [_ H]. destruct (H _ _ eq_refl) as [Hc _]. destruct before as [c|]; [|done]. specialize (Hc c eq_refl). lia. }
  assert (∀ cutoff, before = Some cutoff → end_ < cutoff) as Hbefore by (intros c ->; lia). unfold index_for. rewrite Hspan.
  destruct source; cbn [Origins.foreign_model_proves_proxying].
  - destruct (foreign_model s) as [slug|] eqn:Hf.
    { split; [done|]. intros [_ H]. destruct (H _ _ eq_refl) as (_ & Hnat & _). rewrite <- foreign_model_None in Hnat. congruence. }
    pose proof (proj1 (foreign_model_None s) Hf) as Hnat. set (p := λ m, distinctive m && _).
    transitivity (keep p (values s) = []).
    { destruct (keep p (values s)); cbn; naive_solver. }
    rewrite keep_nil. split.
    + intros H. split; [done|]. intros ? ? [= <- <-]. split_and!; [done..|]. intros m e Hm Hd He Ho Hfp Hb.
      specialize (H m Hm). unfold p in H. rewrite Hd in H. cbn [andb] in H. apply not_true_iff_false in H. apply H.
      apply build_seen. exists (e_occurred_at e). split; [|done]. apply fingerprints_In. exists e. split_and!; try done; lia.
    + intros [_ H] m Hm. destruct (H _ _ eq_refl) as (_ & _ & H'). unfold p. destruct (distinctive m) eqn:Hd; [|done]. cbn [andb].
      apply not_true_iff_false. intros (t & Ht & Hb)%build_seen. apply fingerprints_In in Ht as (e & He & Ho & _ & <- & Hfp). by apply (H' m e).
  - transitivity (¬ (0 < served_between (activity (gateway_activity ledger (Origins.provider GrokCli) (lo - LEDGER_SLACK)%Z (hi + LEDGER_SLACK)%Z))
        (start - LEDGER_SLACK)%Z (end_ + LEDGER_SLACK)%Z)%nat).
    { destruct (Nat.ltb_spec 0 (served_between (activity (gateway_activity ledger (Origins.provider GrokCli) (lo - LEDGER_SLACK) (hi + LEDGER_SLACK)))
        (start - LEDGER_SLACK) (end_ + LEDGER_SLACK))); naive_solver lia. }
    rewrite activity_served by (unfold LEDGER_SLACK, SECOND; lia). split.
    + intros H. split; [done|]. intros ? ? [= <- <-]. split; [done|]. intros e He Ho Hm Hb. apply H. exists (e_occurred_at e).
      split; [|done]. apply activity_In. exists e. split_and!; try done; lia.
    + intros [_ H] (t & Ht & Hb). destruct (H _ _ eq_refl) as (_ & H'). apply activity_In in Ht as (e & He & Ho & Hm & _ & <-). by apply (H' e).
Qed.

End judging.
End Judging.

(** ** What is planned, and what it leaves in the ledger *)

Module Importing.
Import Verdict Judging Planning Apply.

Section importing.
Context {D : Type} {HD : Decimal D} (uuid_v5 : string → string).

Abbreviation plan := (plan uuid_v5).
Abbreviation pending := (pending uuid_v5).

(** The rows of a plan are those of its sessions, one after another. *)
Definition session_rows (ledger : LedgerIndex) (prices : Prices D) (source : Source) (before : option Z) (s : string * Session)
  : list (Pending D) :=
  match judge s.2 ledger source before with
  | Some ToImport => map (pending source prices s.1) (values s.2)
  | _ => []
  end.

Lemma plan_rows_fold ledger prices source before l out :
  pl_rows (fold_left (plan_session uuid_v5 ledger prices source before) l out)
  = pl_rows out ++ flat_map (session_rows ledger prices source before) l.
Proof.
  revert out; induction l as [|s l IH]; intros out; cbn [fold_left flat_map]; [by rewrite app_nil_r|].
  rewrite IH. unfold plan_session, session_rows. destruct (judge s.2 ledger source before) as [[|r]|]; cbn [pl_rows].
  - by rewrite <- app_assoc.
  - done.
  - done.
Qed.

Lemma plan_rows scan ledger prices source before :
  pl_rows (plan scan ledger prices source before)
  = flat_map (session_rows ledger prices source before) (Ordered.in_order (sessions scan)).
Proof. unfold Planning.plan. by rewrite plan_rows_fold. Qed.

(** C11. A session's messages are a row each, or it is left out whole.  It is
    left out when it does not end before the operator's cutoff; when it is
    Claude Code's and names a model that is not Anthropic's, or one of its
    messages of at least [DISTINCTIVE_TOKENS] has a gateway row of the whole
    ledger with its four counts within [LEDGER_SLACK] of the session; and when
    it is the Grok CLI's and any gateway row of its provider is that near.
    Every other session is imported. *)
Theorem what_is_imported source (ledger : list (Event D)) scan prices before x :
  In x (pl_rows (plan scan (index_for source ledger scan) prices source before))
  ↔ ∃ sid s m, sessions scan !! sid = Some s ∧ In m (values s) ∧ spared source ledger before s
      ∧ x = pending source prices sid m.
Proof.
  rewrite plan_rows, in_flat_map. split.
  - intros ([sid s] & Hin & Hx). apply Ordered.in_order_In in Hin. unfold session_rows in Hx. cbn [fst snd] in Hx.
    pose proof (judged_by_the_whole_ledger source ledger scan before sid s Hin) as [Hj _].
    destruct (judge s _ source before) as [[|r]|]; [|done..]. destruct (Hj eq_refl) as [_ Hsp].
    apply in_map_iff in Hx as (m & <- & Hm). by exists sid, s, m.
  - intros (sid & s & m & Hs & Hm & Hsp & ->). exists (sid, s). split; [by apply Ordered.in_order_In|].
    unfold session_rows. cbn [fst snd]. rewrite (proj2 (judged_by_the_whole_ledger source ledger scan before sid s Hs)).
    + by apply in_map.
    + split; [|done]. by destruct (values s).
Qed.

(** A session's messages, and so the rows of its plan, are one an id. *)
Lemma values_length s : length (values s) = size (messages s).
Proof. unfold values. by rewrite length_map, Ordered.in_order_length. Qed.

(** ** Writing is once *)

Lemma conflicts_self (e : Event D) : conflicts e e = true.
Proof. unfold conflicts. rewrite (proj2 (Str.str_eqb_eq _ _) eq_refl), Z.eqb_refl. done. Qed.

Lemma any_app {A} (p : A → bool) l l' : any p (l ++ l') = any p l || any p l'.
Proof. apply existsb_app. Qed.

Lemma insert_keeps (ledger : list (Event D)) l e : any (conflicts e) ledger = true → any (conflicts e) (fold_left insert_event l ledger) = true.
Proof.
  revert ledger; induction l as [|x l IH]; intros ledger H; [done|]. cbn [fold_left]. apply IH. unfold insert_event.
  destruct (any (conflicts x) ledger); [done|]. by rewrite any_app, H.
Qed.

Lemma inserted_is_there (ledger : list (Event D)) l e : In e l → any (conflicts e) (fold_left insert_event l ledger) = true.
Proof.
  revert ledger; induction l as [|x l IH]; intros ledger; [done|]. cbn [fold_left]. intros [->|Hin]; [|by apply IH].
  apply insert_keeps. unfold insert_event. destruct (any (conflicts e) ledger) eqn:E; [done|].
  rewrite any_app. cbn. by rewrite conflicts_self, orb_true_r.
Qed.

Lemma insert_again (ledger : list (Event D)) l : (∀ e, In e l → any (conflicts e) ledger = true) → fold_left insert_event l ledger = ledger.
Proof.
  induction l as [|x l IH]; [done|]. intros H. cbn [fold_left]. assert (insert_event ledger x = ledger) as ->.
  { unfold insert_event. by rewrite (H x (or_introl eq_refl)). }
  apply IH. intros e He. apply H. by right.
Qed.

(** What was written of a list, however little, is not written again. *)
Lemma insert_finishes (ledger : list (Event D)) done_ rest :
  fold_left insert_event (done_ ++ rest) (fold_left insert_event done_ ledger) = fold_left insert_event (done_ ++ rest) ledger.
Proof.
  rewrite !fold_left_app. f_equal. apply insert_again. intros e He. by apply inserted_is_there.
Qed.

Lemma chunks_concat {A} n (l : list A) : (0 < n)%nat → concat (chunks n l) = l.
Proof.
  intros Hn. unfold chunks. assert (∀ fuel (l' : list A), (length l' ≤ fuel)%nat → concat (chunks_fuel fuel n l') = l') as H; [|by apply H].
  induction fuel as [|fuel IH]; intros [|x l'] Hl; cbn [length] in Hl; try done; [lia|].
  cbn [chunks_fuel concat]. rewrite IH; [apply firstn_skipn|]. rewrite length_skipn. cbn [length]. lia.
Qed.

Lemma write_clean (batches : list (list (Event D))) n written ledger :
  write_batches (λ _, None) n batches written ledger
  = (Ok (written + (length (fold_left insert_event (concat batches) ledger) - length ledger))%nat,
     fold_left insert_event (concat batches) ledger).
Proof.
  assert (∀ l (L : list (Event D)), (length L ≤ length (fold_left insert_event l L))%nat) as Hgrow.
  { induction l as [|x l IH]; intros L; [done|]. cbn [fold_left]. etransitivity; [|apply IH]. unfold insert_event.
    destruct (any _ _); [done|]. rewrite length_app. lia. }
  revert n written ledger; induction batches as [|b batches IH]; intros n written ledger; cbn [write_batches concat].
  - cbn. do 2 f_equal. lia.
  - rewrite IH, fold_left_app. f_equal. f_equal. pose proof (Hgrow b ledger).
    pose proof (Hgrow (concat batches) (fold_left insert_event b ledger)). lia.
Qed.

Lemma write_partial fails (batches : list (list (Event D))) n written ledger :
  ∃ k, (write_batches fails n batches written ledger).2 = fold_left insert_event (concat (firstn k batches)) ledger.
Proof.
  revert n written ledger; induction batches as [|b batches IH]; intros n written ledger; cbn [write_batches]; [by exists 0%nat|].
  destruct (fails n) as [[e [|]]|].
  - exists 1%nat. cbn. by rewrite app_nil_r.
  - by exists 0%nat.
  - destruct (IH (S n) (written + (length (fold_left insert_event b ledger) - length ledger))%nat (fold_left insert_event b ledger)) as [k Hk].
    exists (S k). rewrite Hk. cbn [firstn concat]. by rewrite fold_left_app.
Qed.

(** What a write may leave is the ledger, and rows the importer labels as its
    own. *)
Lemma insert_only_adds (ledger : list (Event D)) l :
  ∃ added, fold_left insert_event l ledger = ledger ++ added ∧ ∀ e, In e added → In e l.
Proof.
  revert ledger; induction l as [|x l IH]; intros ledger; [exists []; by rewrite app_nil_r|]. cbn [fold_left].
  destruct (IH (insert_event ledger x)) as (added & -> & Hin). unfold insert_event. destruct (any (conflicts x) ledger).
  - exists added. split; [done|]. intros e He. right. by apply Hin.
  - exists (x :: added). split; [by rewrite <- app_assoc|]. intros e [<-|He]; [by left|]. right. by apply Hin.
Qed.

Lemma all_chunks (p : Plan D) : concat (chunks WRITE_BATCH (events p)) = events p.
Proof. apply chunks_concat. unfold WRITE_BATCH. lia. Qed.

Lemma write_adds fails (p : Plan D) ledger :
  ∃ added, (write fails p ledger).2 = ledger ++ added ∧ ∀ e, In e added → e_origin e = Origins.origin (pl_source p).
Proof.
  unfold write. destruct (write_partial fails (chunks WRITE_BATCH (events p)) 0 0 ledger) as [k ->].
  destruct (insert_only_adds ledger (concat (firstn k (chunks WRITE_BATCH (events p))))) as (added & -> & Hadd).
  exists added. split; [done|]. intros e He%Hadd.
  assert (In e (events p)) as Hin.
  { rewrite <- all_chunks, <- (firstn_skipn k (chunks _ _)), concat_app. apply in_app_iff. by left. }
  apply in_map_iff in Hin as (x & <- & _). unfold event_of. by destruct (booked x (pl_seat p)).
Qed.

Lemma kept_app {A} (p : A → bool) l l' : keep p (l ++ l') = keep p l ++ keep p l'.
Proof. apply List.filter_app. Qed.

Lemma kept_less {A} (p : A → bool) l l' : (∀ x, In x l' → p x = false) → keep p (l ++ l') = keep p l.
Proof. intros H. by rewrite kept_app, (proj2 (keep_nil p l')), app_nil_r. Qed.

(** An importer's rows are no evidence to a later run. *)
Lemma index_for_less source (ledger added : list (Event D)) scan :
  (∀ e, In e added → e_origin e ≠ "gateway") → index_for source (ledger ++ added) scan = index_for source ledger scan.
Proof.
  intros H. assert (∀ e, In e added → Str.eqb (e_origin e) "gateway" = false) as Hne
    by (intros e He; apply not_true_iff_false; rewrite Str.str_eqb_eq; auto).
  unfold index_for, gateway_fingerprints, gateway_activity. destruct (span scan) as [[from to]|]; [|done].
  destruct source; (rewrite kept_less; [done|intros e He; by rewrite Hne]).
Qed.

Lemma plan_source ledger prices source before (l : list (string * Session)) (out : Plan D) :
  pl_source (fold_left (plan_session uuid_v5 ledger prices source before) l out) = pl_source out.
Proof.
  revert out; induction l as [|s l IH]; intros out; cbn [fold_left]; [done|]. rewrite IH. unfold plan_session.
  by destruct (judge _ _ _ _) as [[|r]|].
Qed.

Lemma write_again fails (p : Plan D) ledger :
  let clean := (write (λ _, None) p ledger).2 in
  (write (λ _, None) p (write fails p ledger).2).2 = clean ∧ (write (λ _, None) p clean).2 = clean.
Proof.
  cbv zeta. unfold write. rewrite !write_clean. cbn [snd]. split.
  - destruct (write_partial fails (chunks WRITE_BATCH (events p)) 0 0 ledger) as [k ->].
    rewrite <- (firstn_skipn k (chunks WRITE_BATCH (events p))) at 1 3. rewrite concat_app. apply insert_finishes.
  - rewrite all_chunks. apply insert_again. intros e He. by apply inserted_is_there.
Qed.

(** One run of the command that writes. *)
Definition run (fails : nat → option (string * bool)) source scan before (seat : option Seat) (catalog : list (ModelRow D))
    (ledger : list (Event D)) : result (Plan D) Error * list (Event D) :=
  import uuid_v5 fails source scan before seat catalog true ledger.

(** What a run plans in a ledger that an earlier one has written to. *)
Lemma run_is fails source scan before seat catalog ledger added p :
  p = seated seat (plan scan (index_for source ledger scan) (index catalog (Origins.provider source)) source before) →
  (∀ e, In e added → e_origin e = Origins.origin source) →
  run fails source scan before seat catalog (ledger ++ added) =
    (match (write fails p (ledger ++ added)).1 with Ok _ => Ok p | Err e => Err e end, (write fails p (ledger ++ added)).2).
Proof.
  intros -> H. unfold run, import. cbn [negb].
  rewrite index_for_less by (intros e He; rewrite (H e He); by destruct source).
  by destruct (write _ _ _) as [[n|e] l].
Qed.

(** C12. An import that failed part of the way, at whatever statement and
    whether or not that statement was carried out, is finished by running the
    command again.  The second run judges every session against the ledger the
    first one left: it plans what the first one planned, the ledger it leaves
    is what one clean run leaves, and a run after that plans the same and
    writes nothing. *)
Theorem a_rerun_finishes fails source scan before seat catalog (ledger : list (Event D)) :
  let rerun := run (λ _, None) source scan before seat catalog in
  let clean := rerun ledger in
  (∃ p, clean.1 = Ok p) ∧ rerun (run fails source scan before seat catalog ledger).2 = clean ∧ rerun clean.2 = clean.
Proof.
  cbv zeta. set (p := seated seat (plan scan (index_for source ledger scan) (index catalog (Origins.provider source)) source before)).
  assert (pl_source p = source) as Hsrc by (cbn; unfold Planning.plan; by rewrite plan_source).
  assert (∀ fails, (run fails source scan before seat catalog ledger).2 = (write fails p ledger).2) as Hrun
    by (intros f; unfold run, import; cbn [negb]; fold p; by destruct (write f p ledger) as [[n|e] l]).
  assert (∀ L, (write (λ _, None) p L).1 = Ok (length (write (λ _, None) p L).2 - length L)%nat) as Hok
    by (intros L; unfold write; by rewrite write_clean).
  assert (∀ f, run (λ _, None) source scan before seat catalog (write f p ledger).2
    = (Ok p, (write (λ _, None) p (write f p ledger).2).2)) as Hagain.
  { intros f. destruct (write_adds f p ledger) as (added & -> & Hadd). rewrite Hsrc in Hadd.
    rewrite (run_is _ source scan before seat catalog ledger added p eq_refl Hadd). by rewrite Hok. }
  pose proof (run_is (λ _, None) source scan before seat catalog ledger [] p eq_refl (λ e He, match He with end)) as Hclean.
  rewrite app_nil_r, Hok in Hclean.
  destruct (write_again fails p ledger) as [Hpart Hdone].
  rewrite Hclean. cbn [fst snd]. rewrite Hrun, !Hagain, Hpart, Hdone. split; [by exists p|done].
Qed.

(** ** And taken back *)

Lemma keep_ext {A} (p q : A → bool) l : (∀ x, p x = q x) → keep p l = keep q l.
Proof. intros H. unfold keep. by apply List.filter_ext. Qed.

(** C13. Taking an import back removes the rows of its origin and no others:
    however much of it was written, what is left is the rows of every other
    origin, in place, as they were before; named a seat, only that seat's rows
    of the origin go; the command counts what it removes; without [apply] it
    removes nothing; and the gateway's own rows it refuses to remove. *)
Theorem revert_undoes_an_import fails (p : Plan D) ledger s o seat apply :
  let origin := Origins.origin (pl_source p) in
  let written := (write fails p ledger).2 in
  let mine := keep (λ e, bool_decide (e_origin e = origin)) written in
  revert origin None true written
    = (Ok (length mine), keep (λ e, bool_decide (e_origin e ≠ origin)) ledger)
  ∧ (revert origin (Some (Ok s)) true written).2
    = keep (λ e, bool_decide (e_origin e ≠ origin ∨ e_account_id e ≠ Some (s_id s))) written
  ∧ (revert o seat false ledger).2 = ledger
  ∧ revert "gateway" seat apply ledger
    = (Err (Config "refusing to delete gateway-served rows; this command only removes imports"), ledger).
Proof.
  cbv zeta. set (og := Origins.origin (pl_source p)). assert (Str.eqb og "gateway" = false) as Ho by (unfold og; by destruct (pl_source p)).
  destruct (write_adds fails p ledger) as (added & -> & Hadd). fold og in Hadd.
  assert (∀ e : Event D, Str.eqb (e_origin e) og = bool_decide (e_origin e = og)) as Hb
    by (intros e; apply eq_true_iff_eq; by rewrite Str.str_eqb_eq, bool_decide_eq_true).
  split_and!.
  - unfold revert. rewrite Ho. f_equal.
    + do 2 f_equal. apply keep_ext. intros e. unfold scoped. by rewrite Hb, andb_true_r.
    + rewrite <- (kept_less (λ e, bool_decide (e_origin e ≠ og)) ledger added)
        by (intros e He; apply bool_decide_eq_false_2; by rewrite (Hadd e He); intros []).
      apply keep_ext. intros e. unfold scoped. rewrite Hb, andb_true_r. by rewrite bool_decide_not.
  - unfold revert. rewrite Ho. cbn [snd]. apply keep_ext. intros e. unfold scoped. rewrite Hb.
    rewrite <- bool_decide_and, <- bool_decide_not. apply bool_decide_ext. destruct (decide (e_origin e = og)); naive_solver.
  - unfold revert. destruct (Str.eqb o "gateway"); [done|]. by destruct seat as [[]|].
  - done.
Qed.

End importing.

(** ** A name that two models answer to prices neither *)

Section pricing.
Context {D : Type} {HD : Decimal D}.


Lemma index_one_at (m : gmap string (option (string * Pricing D))) key row key' :
  index_one m key row !! key' =
    if decide (key = key') then
      match m !! key with
      | None => Some (Some (entry_of row))
      | Some (Some (id, p)) => if Str.eqb id (mr_id row) then Some (Some (id, p)) else Some None
      | Some None => Some None
      end
    else m !! key'.
Proof.
  unfold index_one. destruct (decide (key = key')) as [<-|Hne].
  - destruct (m !! key) as [[[id p]|]|] eqn:E; [|done|apply lookup_insert_eq]. destruct (Str.eqb id (mr_id row)); cbn [negb]; [done|apply lookup_insert_eq].
  - destruct (m !! key) as [[[id p]|]|]; [|done|by apply lookup_insert_ne]. destruct (negb _); [by apply lookup_insert_ne|done].
Qed.

Lemma index_fold (l : list (string * ModelRow D)) slug :
  match fold_left (λ m x, index_one m x.1 x.2) l (∅ : gmap string (option (string * Pricing D))) !! slug with
  | None => ∀ row, ¬ In (slug, row) l
  | Some (Some (id, p)) => (∃ row, In (slug, row) l ∧ (id, p) = entry_of row) ∧ ∀ row, In (slug, row) l → mr_id row = id
  | Some None => ∃ row row', In (slug, row) l ∧ In (slug, row') l ∧ mr_id row ≠ mr_id row'
  end.
Proof.
  induction l as [|[key row] l IH] using rev_ind; [cbn [fold_left]; rewrite lookup_empty; intros row []|]. rewrite fold_left_app. cbn [fold_left fst snd].
  rewrite index_one_at.
  assert (∀ r, In (slug, r) (l ++ [(key, row)]) ↔ In (slug, r) l ∨ key = slug ∧ r = row) as Happ.
  { intros r. rewrite in_app_iff. cbn [In]. naive_solver. }
  destruct (decide (key = slug)) as [->|Hne].
  - assert (In (slug, row) (l ++ [(slug, row)])) as Hlast by (apply Happ; by right).
    destruct (fold_left _ l ∅ !! slug) as [[[id p]|]|].
    + destruct IH as ((row0 & Hin & He) & Hall). destruct (Str.eqb id (mr_id row)) eqn:E.
      * apply Str.str_eqb_eq in E. split; [exists row0; rewrite Happ; by split; [left|]|].
        intros row1 [H1|[_ ->]]%Happ; [by apply Hall|done].
      * exists row0, row. split_and!; [apply Happ; by left|done|]. injection He as -> _. intros Heq. rewrite Heq in E.
        by rewrite (proj2 (Str.str_eqb_eq _ _) eq_refl) in E.
    + destruct IH as (r1 & r2 & H1 & H2 & Hd). exists r1, r2. rewrite !Happ. naive_solver.
    + split; [by exists row|]. intros row1 [H1|[_ ->]]%Happ; [by destruct (IH row1)|done].
  - assert (∀ r, In (slug, r) (l ++ [(key, row)]) ↔ In (slug, r) l) as Heq by (intros r; rewrite Happ; naive_solver).
    destruct (fold_left _ l ∅ !! slug) as [[[id p]|]|].
    + destruct IH as ((row0 & Hin & He) & Hall). split; [exists row0; by rewrite Heq|]. intros row1 H1. apply Hall. by apply Heq.
    + destruct IH as (r1 & r2 & H1 & H2 & Hd). exists r1, r2. by rewrite !Heq.
    + intros row1 H1. apply (IH row1). by apply Heq.
Qed.

(** The rows of a provider that a spelling names. *)
Definition named (rows : list (ModelRow D)) (provider slug : string) (row : ModelRow D) : Prop :=
  In row rows ∧ mr_provider row = provider ∧ In slug (spellings row).

(** A name a transcript uses is priced only when one model answers to it,
    and then at that model's price. *)
Theorem prices_are_unambiguous (rows : list (ModelRow D)) provider slug id p :
  get (index rows provider) slug = Some (id, p) →
  (∃ row, named rows provider slug row ∧ (id, p) = entry_of row) ∧ ∀ row, named rows provider slug row → mr_id row = id.
Proof.
  unfold get, index. cbn [by_name]. set (l := flat_map _ _). pose proof (index_fold l slug) as H.
  assert (∀ row, In (slug, row) l ↔ named rows provider slug row) as Hl.
  { intros row. unfold l, named. rewrite in_flat_map. split.
    - intros (r & Hr & Hin). apply keep_In in Hr as [Hr Hp]. apply Str.str_eqb_eq in Hp. apply in_map_iff in Hin as (k & Heq & Hk).
      injection Heq as -> ->. by split_and!.
    - intros (Hr & Hp & Hs). exists row. split; [apply keep_In; split; [done|by apply Str.str_eqb_eq]|]. apply in_map_iff. by exists slug. }
  destruct (fold_left _ l ∅ !! slug) as [[[id' p']|]|]; [|done..]. intros [= <- <-]. destruct H as ((row & Hin & He) & Hall).
  split; [exists row; by rewrite <- Hl|]. intros row' Hr. apply Hall. by apply Hl.
Qed.

End pricing.
End Importing.

(** ** Small cases *)

Module SmallImport.
Import Transcript Verdict Planning Apply Importing.

Definition row (id upstream : string) (price : Z) : ModelRow Q := {|
  mr_id := id; mr_provider := "anthropic"; mr_upstream_name := upstream; mr_input_per_mtok := dint price;
  mr_output_per_mtok := dint price; mr_cache_read_per_mtok := None; mr_cache_write_per_mtok := None;
  mr_context_window := 200000; mr_max_output_tokens := 8192; mr_supports_vision := true; mr_supports_tools := true;
  mr_supports_reasoning := true; mr_supports_prompt_cache := true; mr_display_label := None;
  mr_reasoning_efforts := None; mr_reasoning_effort := None |}.

Definition catalog : list (ModelRow Q) :=
  [row "anthropic/claude-opus-5" "claude-opus-5" 15; row "anthropic/claude-haiku" "claude-haiku-4" 1;
   row "anthropic/old" "claude-haiku" 2].

Definition prices : Prices Q := index catalog "anthropic".

Lemma prices_are_unambiguous_witness :
  ∀ r, named catalog "anthropic" "claude-opus-5" r → mr_id r = "anthropic/claude-opus-5".
Proof.
  apply (prices_are_unambiguous catalog "anthropic" "claude-opus-5" "anthropic/claude-opus-5"
    {| input_per_mtok := dint 15; output_per_mtok := dint 15; cache_read_per_mtok := None; cache_write_per_mtok := None |}).
  vm_compute. reflexivity.
Defined.

(** Two rows answer to [claude-haiku], one by its name upstream and one by the
    tail of its id. *)
Example ambiguous_names_are_unpriced :
  get prices "claude-haiku" = None ∧ bool_decide (is_Some (get prices "claude-haiku-4")) = true ∧ bool_decide (is_Some (get prices "old")) = true.
Proof. split_and!; vm_compute; reflexivity. Qed.

(** A line a session writes: a message's content block, with its usage. *)
Definition line (session id model : string) (at_ tokens : Z) : string :=
  a_printer (JObject [("type", JString "assistant"); ("sessionId", JString session); ("timestamp", JString (Str.decimal at_));
    ("message", JObject [("id", JString id); ("model", JString model);
      ("usage", JObject [("input_tokens", num tokens); ("output_tokens", num 7)])])]).

Definition joined (lines : list string) : string := Str.join (String LF "") lines.

Definition transcript : list File :=
  [{| f_name := Some "a.jsonl"; f_stem := Some "a"; f_parent := None;
      f_text := Some (joined [line "direct" "m1" "claude-opus-5" 1000 5000; line "direct" "m1" "claude-opus-5" 1000 5000;
        line "direct" "m2" "claude-opus-5" 1100 6000; line "proxied" "m3" "claude-opus-5" 2000 7000; "{torn"]) |};
   {| f_name := Some "b.jsonl"; f_stem := Some "b"; f_parent := None;
      f_text := Some (joined [line "direct" "m2" "claude-opus-5" 1100 6000; line "elsewhere" "m4" "grok-4.6" 3000 9000;
        line "tiny" "m5" "claude-opus-5" 2000 8]) |};
   {| f_name := Some "c.jsonl"; f_stem := Some "c"; f_parent := None; f_text := None |}].

Definition scan : Scan := scan_claude_code a_parser (λ s, Some (Str.value s * SECOND)) transcript.

Definition served (at_ tokens : Z) : Event Q := {|
  e_request_id := "r" +:+ Str.decimal at_; e_attempt := 0; e_occurred_at := at_ * SECOND; e_account_id := None;
  e_model_id := "anthropic/claude-opus-5"; e_fingerprint := (tokens, 7, 0, 0); e_cost_usd := dint 1;
  e_counterfactual_usd := dint 1; e_counterfactual_api_usd := dint 1; e_origin := "gateway"; e_source_ref := None;
  e_cost_known := true |}.

(** The gateway served [m3], and at another time a call like [m5]. *)
Definition ledger : list (Event Q) := [served 2100 7000; served 2100 8].

Definition planned : Plan Q := plan (λ s, s) scan (index_for ClaudeCode ledger scan) prices ClaudeCode None.

Example what_is_left_out :
  (files scan, malformed scan) = (2, 2)
  ∧ map p_source_ref (pl_rows planned) = ["claude-code:m1"; "claude-code:m2"; "claude-code:m5"]
  ∧ pl_skipped planned = [("elsewhere", ForeignModel "grok-4.6"); ("proxied", AlreadyInLedger 1 1)]
  ∧ map (skipped_as_proxied (D := Q)) [planned] = [1%nat].
Proof. split_and!; vm_compute; reflexivity. Qed.

(** The second statement of three fails having written; the rerun finishes,
    and the import is taken back. *)
Definition after (ledger : list (Event Q)) : list string := map e_request_id ledger.

Example once_and_back :
  after (write (λ _, None) planned ledger).2 = ["r2100"; "r2100"; "claude-code:m1"; "claude-code:m2"; "claude-code:m5"]
  ∧ (write (λ _, None) planned (write (λ _, None) planned ledger).2).1 = Ok 0%nat
  ∧ after (revert "claude-code" None true (write (λ _, None) planned ledger).2).2 = ["r2100"; "r2100"]
  ∧ (revert "gateway" None true ledger).2 = ledger.
Proof. split_and!; vm_compute; reflexivity. Qed.

(** A seat's messages cost nothing and stand for their list price. *)
Example what_is_booked :
  let seat := Some {| s_id := "s"; s_name := "max"; s_provider := "anthropic"; s_kind := OAuth |} in
  map (λ p, (Qeq_bool (booked p seat).1 0, Qeq_bool (booked p seat).2 0,
             Qeq_bool (booked p None).1 (booked p None).2)) (pl_rows planned)
  = [(true, false, true); (true, false, true); (true, false, true)].
Proof. vm_compute. reflexivity. Qed.

End SmallImport.
