(* ===== verification/SystemOne.v ===== *)
(** * Questions to a System One host

    [crates/oag-server/src/gateway/systemone.rs], with the two catalogues of
    [state.rs] ([set_catalog]): which host a question goes to, the call that
    carries it from credential to credential, its ledger row and its answer,
    and the listing of what each host answers.

    The world is the one [Failover] threads -- the breakers and a trace of
    leases, requests, parkings and waits -- and the reads of admission are those
    of [Plan].  The host, the pool, the SDK's decoders and [serde_json] are
    parameters. *)

From Stdlib Require Import Ascii QArith.
From stdpp Require Import sorting.
From S2P Require Import Prelude.
From S2P Require Import Text.
From S2P Require Import Money.
From S2P Require Import Domain.
From S2P Require Import Breaker.
From S2P Require Import Efforts.
From S2P Require Import Catalog.
From S2P Require Import Cost.
From S2P Require Import Ladder.
From S2P Require Import Classify.
From S2P Require Import Budget.
From S2P Require Import Policy.
From S2P Require Import Canonical.
From S2P Require Import Wire.
From S2P Require Import Sticky.
From S2P Require Import Stream.
From S2P Require Import Meter.
From S2P Require Import Failover.
From S2P Require Import Climb.
From S2P Require Import Plan.
From S2P Require Import Identity.
From S2P Require Import Endpoints.
From S2P Require Import Upstream.
From S2P Require Import Offers.
#[local] Open Scope string_scope.
#[local] Open Scope oag_scope.
#[local] Open Scope list_scope.
#[local] Open Scope Z_scope.

(** ** Data *)

Inductive Purpose : Type := ForAnswer | ForListing.

#[export] Instance Purpose_eq_dec : EqDecision Purpose.
Proof. solve_decision. Defined.

(** A 2xx body as it is read: whole, not before the ceiling, or broken off. *)
Inductive HostBody : Type :=
  | BodyWhole (bytes : string)
  | BodyLate
  | BodyBroken (why : string).

(** What sending a request comes to; of a response's headers, those read. *)
Inductive HostReply : Type :=
  | HostSuccess (status : Z) (content_type request_id : option string) (body : HostBody)
  | HostStatus (status : Z) (body : string) (retry_after : option string)
  | HostError (e : Error).

Section data.
Context {T : Type}.

(** [Reply<T>]. *)
Record Whole : Type := {
  wh_status : Z;
  wh_content_type : option string;
  wh_request_id : option string;
  wh_body : string;
  wh_decoded : T
}.

(** [Answered<T>]. *)
Record Answered : Type := { an_lease : Lease; an_attempt : nat; an_reply : Whole }.

(** [Tried<T>]. *)
Inductive Tried : Type :=
  | TriedAnswered (reply : Whole)
  | TriedSwitch (e : Error)
  | TriedRaced
  | TriedFatal (e : Error).
End data.
Arguments Whole : clear implicits.
Arguments Answered : clear implicits.
Arguments Tried : clear implicits.

(** The fields of the SDK's [SystemOneRequest] and [SystemOneResponse] that are
    read. *)
Record SystemOneRequest : Type := { rq_model : option string }.
Record SystemOneResponse : Type := {
  rs_model : string;
  rs_input_tokens : option Z;
  rs_output_tokens : option Z
}.

(** The response a caller gets. *)
Record Response : Type := {
  re_status : Z;
  re_headers : list (string * string);
  re_body : string
}.

Section data.
Context {D : Type}.
Record Target : Type := {
  tg_provider : Provider;
  tg_upstream_model : option string;
  tg_spec : option (ModelSpec D)
}.
End data.
Arguments Target : clear implicits.

Module SystemOne.

(** ** The hosts

    [system_one_upstreams]: a map, so no two entries have equal keys. *)
Definition Hosts : Type := list (Provider * Custom.JevUpstream).

(** The derived [Ord] of [Provider]: by variant, endpoints by name. *)
Definition rank (p : Provider) : Z :=
  match p with
  | Anthropic => 0 | OpenAI => 1 | Gemini => 2 | Kimi => 3 | DeepSeek => 4 | Zhipu => 5
  | XAI => 6 | Bedrock => 7 | Jev => 8 | Custom _ => 9
  end.

Definition provider_leb (a b : Provider) : bool :=
  (rank a <? rank b) || ((rank a =? rank b) &&
    match a, b with Custom a, Custom b => str_leb (ep_name a) (ep_name b) | _, _ => true end).

Definition provider_le (a b : Provider) : Prop := provider_leb a b = true.

#[export] Instance provider_le_dec a b : Decision (provider_le a b).
Proof. unfold provider_le. apply _. Defined.

(** [AppState::system_one] and [system_one_providers]. *)
Definition system_one (hosts : Hosts) (p : Provider) : result Custom.JevUpstream Error :=
  match find (fun h : Provider * Custom.JevUpstream => Prov.eqb h.1 p) hosts with
  | Some (_, upstream) => Ok upstream
  | None => Err (Internal ("no System One upstream for provider " +:+ Prov.as_str p))
  end.

Definition system_one_providers (hosts : Hosts) : list Provider :=
  merge_sort provider_le (map fst hosts).

Section systemone.
Context {D : Type} {HD : Decimal D}.

(** ** The two catalogues *)

(** [set_catalog]: the System One models', then the chat models'. *)
Definition chat_spec (s : ModelSpec D) : bool := dialect_is_chat (Prov.native_dialect (model_provider s)).

Definition set_catalog (specs : list (ModelSpec D)) : Catalog D * Catalog D :=
  (from_entries (keep chat_spec specs), from_entries (keep (fun s => negb (chat_spec s)) specs)).

(** ** Which host *)

Definition jev : Target D := {| tg_provider := Jev; tg_upstream_model := None; tg_spec := None |}.

Definition unpriced_message (model prefix name : string) : string :=
  "'" +:+ model +:+ "' is not in the catalog, so what " +:+ prefix
    +:+ " charges for its answer could not be metered, and it is not sent there. Price it first: oag admin catalog add --id "
    +:+ model +:+ " --upstream " +:+ name
    +:+ " --input-per-mtok <usd> --output-per-mtok <usd> --context <tokens> --max-output <tokens>".

Definition unserved_message (model : string) : string :=
  "'" +:+ model
    +:+ "' is not a System One model this gateway serves. GET /jev/v1/models lists the ones it does; a name with no provider in it is sent to Jev as it is".

(** A host's row for the model it calls [name]: the first by id. *)
Definition row_of (c : Catalog D) (host : Provider) (name : string) : option (ModelSpec D) :=
  find (fun s => Prov.eqb (model_provider s) host && Str.eqb (upstream_name s) name) (iter c).

Definition host_named (hosts : list Provider) (prefix : string) : option Provider :=
  find (fun h => Prov.is_custom h && Str.eqb (Prov.as_str h) prefix) hosts.

Definition resolve (registry : gmap string Endpoint) (model : option string) (c : Catalog D)
    (hosts : list Provider) : result (Target D) Error :=
  match model with
  | None => Ok jev
  | Some model =>
      match get c model with
      | Some spec =>
          Ok {| tg_provider := model_provider spec;
                tg_upstream_model :=
                  if negb (Str.eqb (upstream_name spec) model) then Some (upstream_name spec) else None;
                tg_spec := Some spec |}
      | None =>
          match Str.split_once model "/" with
          | None => Ok jev
          | Some (prefix, name) =>
              match host_named hosts prefix with
              | Some host =>
                  match row_of c host name with
                  | None => Err (NoViableModel (unpriced_message model prefix name))
                  | Some spec =>
                      Ok {| tg_provider := host; tg_upstream_model := Some name; tg_spec := Some spec |}
                  end
              | None =>
                  if match Prov.from_str registry prefix with Some p => Prov.eqb p Jev | None => false end
                  then Ok jev
                  else Err (NoViableModel (unserved_message model))
              end
          end
      end
  end.

(** ** The body *)

Section body.
(** [serde_json]: an object's members with each value's bytes, and a string
    written. *)
Context (members : string → result (list (string * string)) string) (quote : string → string).

Definition member_text (model : string) (m : string * string) : string :=
  quote m.1 +:+ ":" +:+ (if Str.eqb m.1 "model" then quote model else m.2).

Definition renamed (body model : string) : result string Error :=
  match members body with
  | Err e => Err (Serde e)
  | Ok ms => Ok ("{" +:+ Str.join "," (map (member_text model) ms) +:+ "}")
  end.
End body.

(** ** What an answer costs *)

Definition unpriced (id : string) (p : Provider) (model : string) : ModelSpec D := {|
  model_id := id; model_provider := p; upstream_name := model;
  pricing := {| input_per_mtok := dzero; output_per_mtok := dzero;
                cache_read_per_mtok := None; cache_write_per_mtok := None |};
  context_window := 0; model_max_output_tokens := 0;
  capabilities := {| cap_vision := false; cap_tools := false; cap_reasoning := false; prompt_cache := false |};
  display_label := None; reasoning_efforts := None |}.

Definition priced (c : Catalog D) (p : Provider) (model : string) (asked : option (ModelSpec D))
    : ModelSpec D :=
  let id := Prov.as_str p +:+ "/" +:+ model in
  match get c id with
  | Some spec => spec
  | None => default (unpriced id p model) asked
  end.

(** [tokens]: an [i64] as a count. *)
Definition tokens (count : option Z) : Z :=
  match count with Some n => if 0 <=? n then n else 0 | None => 0 end.

(** ** One call

    [env] gives the clock, the transports and the bounds; [lease_one] is
    [select::lease] under the caller's pin, [secret] the credential as
    [ensure_fresh] unseals it, [send] the host, [accounts] the store's
    [candidates]. *)
Section call.
Context (env : Env D).
Context `{U : UrlCrate} `{HC : HeaderCrate}.
Context (lease_one : nat → Provider → string → list AccountId → result Lease Error).
Context (secret : nat → Lease → result string Error).
Context (send : nat → Lease → Request → HostReply).
Context (accounts : nat → N → string → N → result (list AccountId) Error).
Context (sha256 : list ascii → list ascii).
Context (max_stream_secs : Z) (show_id : N → string) (show_secs : Z → string).
Context (hosts : Hosts).

(** *** [Health]: what one attempt writes against its credential *)

Definition counts (p : Purpose) : bool := bool_decide (p = ForAnswer).

Definition succeeded (p : Purpose) (a : AccountId) (w : World) : World :=
  if counts p then Failover.set_breakers (Fleet.record_success (breakers w) a) w else w.

Definition failed (p : Purpose) (a : AccountId) (w : World) : World :=
  if counts p then Failover.record_failure env a w else w.

Definition dispose (p : Purpose) (a : AccountId) (d : Disposition) (w : World) : World :=
  if counts p then Failover.apply_disposition a d w else w.

Definition unreachable (p : Purpose) (a : AccountId) (retrying : bool) (w : World) : World :=
  if counts p then
    let '(d, w) := Failover.transport_failure env a retrying w in
    match d with Some d => Failover.apply_disposition a d w | None => w end
  else w.

(** *** [attempt_on] *)

(** [decoded]: the SDK's reading of a body, whose type it names. *)
Definition decoded {T} (type_name : string) (from_slice : string → result T string) (body : string)
    : result T Error :=
  match from_slice body with
  | Ok v => Ok v
  | Err e => Err (Internal ("the System One upstream answered with a body that is not a "
      +:+ type_name +:+ ": " +:+ e))
  end.

Section attempt.
Context {T : Type} (upstream : Custom.JevUpstream) (provider : Provider) (purpose : Purpose).
Context (build : Custom.JevUpstream → string → result Request Error) (decode : string → result T Error).

Definition read (status : Z) (content_type request_id : option string) (body : HostBody)
    : result (Whole T) Error :=
  match body with
  | BodyLate =>
      Err (Internal ("the System One answer was not complete after " +:+ show_secs max_stream_secs +:+ "s"))
  | BodyBroken e => Err (Internal ("reading the System One answer: " +:+ e))
  | BodyWhole bytes =>
      let? v := decode bytes in
      Ok {| wh_status := status; wh_content_type := content_type; wh_request_id := request_id;
            wh_body := bytes; wh_decoded := v |}
  end.

(** What one pass of the loop decides: the credential's outcome, or one more
    request to it after a wait. *)
Inductive Turn : Type :=
  | Done (t : Tried T)
  | Again (e : Error).

(** A same-credential retry, if the breaker still permits one. *)
Definition recheck (a : AccountId) (e : Error) (w : World) : Turn * World :=
  ((if Fleet.permits (breakers w) a (clock env (tick w)) then Again e else Done (TriedSwitch e)),
   Failover.next w).

Definition on_success (a : AccountId) (status : Z) (content_type request_id : option string)
    (body : HostBody) (w : World) : Turn * World :=
  match read status content_type request_id body with
  | Ok reply => (Done (TriedAnswered reply), succeeded purpose a w)
  | Err e => (Done (TriedSwitch e), failed purpose a w)
  end.

Definition refusal (a : AccountId) (status : Z) (body : string) (retry_after : option string) : Error :=
  Upstream provider a status (Failover.truncate body 512) (Failover.upstream_retry_after retry_after).

Definition on_refusal (a : AccountId) (retries_left : bool) (status : Z) (body : string)
    (retry_after : option string) (w : World) : Turn * World :=
  let err := refusal a status body retry_after in
  let disposition := Errors.disposition err in
  let w := dispose purpose a disposition (failed purpose a w) in
  match Failover.step_for disposition retries_left with
  | StepRetry => recheck a err w
  | StepEscalate | StepFatal => (Done (TriedFatal err), w)
  | StepSwitch => (Done (TriedSwitch err), w)
  end.

Definition on_nothing (a : AccountId) (retries_left : bool) (e : Error) (w : World) : Turn * World :=
  match e with
  | UpstreamTimeout _ =>
      (Done (TriedSwitch e), dispose purpose a (Errors.disposition e) (failed purpose a w))
  | _ =>
      let w := unreachable purpose a retries_left w in
      if retries_left then recheck a e w else (Done (TriedSwitch e), w)
  end.

Definition turn (retries_left : bool) (lease : Lease) (credential : string)
    (d : option Fleet.Dispatch) (w : World) : Turn * option Fleet.Dispatch * World :=
  let a := lease_account lease in
  match build upstream credential with
  | Err e => (Done (TriedFatal e), d, w)
  | Ok request =>
      match transport env (tick w) lease with
      | Err e => (Done (TriedSwitch e), d, Failover.next w)
      | Ok _ =>
          let w := Failover.next w in
          let d := Fleet.sent <$> d in
          let reply := send (tick w) lease request in
          let w := Failover.log (EvSend a) (Failover.next w) in
          let '(t, w) :=
            match reply with
            | HostSuccess status content_type request_id body =>
                on_success a status content_type request_id body w
            | HostStatus status body retry_after => on_refusal a retries_left status body retry_after w
            | HostError e => on_nothing a retries_left e w
            end in
          (t, d, w)
      end
  end.

(** Returning: the guard, if one was taken, is dropped. *)
Definition finish (d : option Fleet.Dispatch) (t : Tried T) (w : World) : Tried T * World :=
  match d with
  | Some d => (t, Failover.set_breakers (Fleet.drop (breakers w) d) w)
  | None => (t, w)
  end.

Fixpoint attempts (remaining : nat) (attempt : Z) (lease : Lease) (credential : string)
    (d : option Fleet.Dispatch) (w : World) : Tried T * World :=
  let '(t, d, w) := turn (negb (Nat.eqb remaining 0)) lease credential d w in
  match t, remaining with
  | Done o, _ => finish d o w
  | Again e, S remaining =>
      attempts remaining (attempt + 1) lease credential d
        (Failover.log (EvSleep (Failover.backoff attempt)) w)
  | Again e, O => finish d (TriedSwitch e) w
  end.

(** A listing claims no dispatch. *)
Definition attempt_on (lease : Lease) (w : World) : Tried T * World :=
  match secret (tick w) lease with
  | Err e => (TriedSwitch e, Failover.next w)
  | Ok credential =>
      let w := Failover.next w in
      let start d w := attempts (same_account_retries env) 0 lease credential d w in
      match purpose with
      | ForListing => start None (Failover.next w)
      | ForAnswer =>
          let '(claimed, bs) := Fleet.claim (breakers w) (lease_account lease) (clock env (tick w)) in
          let w := Failover.next (Failover.set_breakers bs w) in
          match claimed with
          | None => (TriedRaced, w)
          | Some d => start (Some d) w
          end
      end
  end.

(** *** [call] *)

Definition unconfigured (auth : AuthContext) (route : RouteRow D) (e : Error) (w : World)
    : Error * World :=
  match e with
  | NoCredential _ =>
      (match accounts (tick w) (route_id auth) (Prov.as_str provider) (principal_id auth) with
       | Ok [] => SystemOneNotConfigured (route_name route) provider
       | _ => e
       end, Failover.next w)
  | _ => (e, w)
  end.

(** The loop; [remaining] switches remain after this. *)
Fixpoint switches (remaining switch : nat) (began : Z) (auth : AuthContext) (route : RouteRow D)
    (session : string) (excluded : list AccountId) (last_error : option Error) (w : World)
    : result (Answered T) Error * World :=
  let elapsed := clock env (tick w) - began in
  let w := Failover.next w in
  let spent last_error := default (NoCredential provider) last_error in
  if negb (Failover.may_try_another switch elapsed (failover_budget env)) then
    (Err (spent last_error), w)
  else
    match lease_one (tick w) provider session excluded with
    | Err e =>
        let w := Failover.next w in
        match last_error with
        | Some last => (Err last, w)
        | None => let '(e, w) := unconfigured auth route e w in (Err e, w)
        end
    | Ok lease =>
        let a := lease_account lease in
        let '(tried, w) := attempt_on lease (Failover.log (EvLease a) (Failover.next w)) in
        let again last_error w :=
          match remaining with
          | O => (Err (spent last_error), w)
          | S remaining =>
              switches remaining (S switch) began auth route session (a :: excluded) last_error w
          end in
        match tried with
        | TriedAnswered reply =>
            (Ok {| an_lease := lease; an_attempt := switch; an_reply := reply |}, w)
        | TriedFatal e => (Err e, Failover.log (EvRelease a) w)
        | TriedSwitch e => again (Some e) (Failover.log (EvRelease a) w)
        | TriedRaced => again last_error (Failover.log (EvRelease a) w)
        end
    end.
End attempt.

Definition call {T} (auth : AuthContext) (route : RouteRow D) (provider : Provider)
    (purpose : Purpose) (build : Custom.JevUpstream → string → result Request Error)
    (decode : string → result T Error) (w : World) : result (Answered T) Error * World :=
  match system_one hosts provider with
  | Err e => (Err e, w)
  | Ok upstream =>
      let session := Sticky.from_caller sha256 (show_id (api_key_id auth)) (Prov.as_str provider) in
      let began := clock env (tick w) in
      switches upstream provider purpose build decode (max_account_switches env) 0 began auth route
        session [] None (Failover.next w)
  end.

(** ** Admission *)

Section admission.
Context (reads : Reads D).

Definition admission (auth : Caller D) : result (RouteRow D) Error :=
  let ids := caller_ids auth in
  let? found := route_by_id reads (route_id ids) in
  let? route := ok_or found (Internal "route vanished between auth and admission") in
  let? wait := Plan.throttled reads route in
  match wait with
  | Some retry_after => Err (RateLimited retry_after)
  | None =>
      let? spend := spend_for reads (api_key_id ids) (principal_id ids) in
      let budgets := Plan.budgets_for auth route spend in
      if bool_decide (Budget.budgets_pressure budgets = Exhausted)
      then Err (BudgetExhausted (Budget.binding budgets))
      else Ok route
  end.

(** ** Responses *)

(** The build's header, the SDK's name for a host's request id. *)
Context (identity_headers : N → list (string * string)).

Definition REQUEST_ID_HEADER : string := "x-typesafe-request-id".

Definition relay {T} (reply : Whole T) (model : option string) (request_id : N) : Response := {|
  re_status := wh_status reply;
  re_headers := identity_headers request_id
    ++ [("content-type", default "application/json" (wh_content_type reply))]
    ++ match wh_request_id reply with Some id => [(REQUEST_ID_HEADER, id)] | None => [] end
    ++ match model ≫= header_value with Some v => [("x-oag-model", v)] | None => [] end;
  re_body := wh_body reply |}.

(** [serde_json::to_vec] of a listing, when it has one. *)
Context (listing_text : list ModelMetadata → option string).

Definition written (listing : list ModelMetadata) (request_id : N) : Response :=
  match listing_text listing with
  | None => {| re_status := 500; re_headers := []; re_body := "" |}
  | Some body => {|
      re_status := 200;
      re_headers := identity_headers request_id ++ [("content-type", "application/json")];
      re_body := body |}
  end.

(** ** [ask] *)

Context (registry : gmap string Endpoint) (catalog : Catalog D).
Context (members : string → result (list (string * string)) string) (quote : string → string).
Context (read_request : string → result SystemOneRequest string)
  (read_response : string → result SystemOneResponse string) (response_type : string).
Context (reqwest_error : string).

Definition prepare (auth : Caller D) (body : string) : result (Target D * RouteRow D * string) Error :=
  let? request := match read_request body with Ok r => Ok r | Err e => Err (Serde e) end in
  let? target := resolve registry (rq_model request) catalog (system_one_providers hosts) in
  let? route := admission auth in
  let? body :=
    match tg_upstream_model target with
    | Some model => renamed members quote body model
    | None => Ok body
    end in
  Ok (target, route, body).

Definition usage_of (response : SystemOneResponse) : Usage := {|
  input_tokens := tokens (rs_input_tokens response);
  output_tokens := tokens (rs_output_tokens response);
  cache_read_tokens := 0; cache_write_tokens := 0 |}.

Definition decision_for (target : Target D) (response : SystemOneResponse) : RoutingDecision D := {|
  dec_model := priced catalog (tg_provider target) (rs_model response) (tg_spec target);
  dec_tier := None;
  dec_reason := ByPassthrough;
  capability_escalated_from := None;
  ceiling_model := None |}.

(** The answer, and the rows the detached task writes. *)
Definition ask (auth : Caller D) (body : string) (request_id : N) (w : World)
    : result Response Error * list (UsageWrite D) * World :=
  let started := clock env (tick w) in
  let w := Failover.next w in
  match prepare auth body with
  | Err e => (Err e, [], w)
  | Ok (target, route, body) =>
      match call (caller_ids auth) route (tg_provider target) ForAnswer
              (fun upstream credential =>
                 Upstream.system_one_build reqwest_error upstream credential body)
              (decoded response_type read_response) w with
      | (Err e, w) => (Err e, [], w)
      | (Ok answer, w) =>
          let response := wh_decoded (an_reply answer) in
          let decision := decision_for target response in
          let ctx := Meter.meter_context (caller_ids auth) decision (an_lease answer) request_id
            started (Z.of_nat (an_attempt answer)) in
          let w := Failover.log (EvRelease (lease_account (an_lease answer))) w in
          (Ok (relay (an_reply answer) (Some (model_id (dec_model decision))) request_id),
           [Meter.record_answer ctx (usage_of response) (clock env (tick w))], Failover.next w)
      end
  end.

(** ** [list] *)

Context (read_models : string → result (list ModelMetadata) string) (models_type : string).
Context (from_slice : string → result Json string) (MODELS_PATH : string).

Definition MAX_LISTING_PAGES : nat := 8.

(** [Listed]. *)
Inductive Listed : Type :=
  | ListedJev (reply : Whole (list ModelMetadata))
  | ListedHost (models : list ModelMetadata).

Definition under (p : Provider) (m : ModelMetadata) : ModelMetadata := {|
  mm_name := Prov.as_str p +:+ "/" +:+ mm_name m;
  mm_description := mm_description m; mm_release_date := mm_release_date m |}.

(** A page's models, each under its host's name and once. *)
Definition gather (p : Provider) (models page : list ModelMetadata) : list ModelMetadata :=
  fold_left (fun models m =>
    if any (fun seen => Str.eqb (mm_name (under p m)) (mm_name seen)) models then models
    else models ++ [under p m]) page models.

(** The pages of one host; [pages] may still be read. *)
Fixpoint listed_pages (pages : nat) (auth : AuthContext) (route : RouteRow D) (p : Provider)
    (models : list ModelMetadata) (cursors : list string) (cursor : option string) (w : World)
    : result Listed Error * World :=
  match pages with
  | O => (Ok (ListedHost models), w)
  | S pages =>
      match call auth route p ForListing
              (fun upstream credential =>
                 OtherLists.models_page MODELS_PATH reqwest_error upstream credential cursor)
              (OtherLists.listing_page from_slice) w with
      | (Err e, w) => (Err e, w)
      | (Ok answer, w) =>
          let w := Failover.log (EvRelease (lease_account (an_lease answer))) w in
          let page := wh_decoded (an_reply answer) in
          let models := gather p models (lp_models page) in
          match lp_next page with
          | Some next =>
              if any (Str.eqb next) cursors then (Ok (ListedHost models), w)
              else listed_pages pages auth route p models (next :: cursors) (Some next) w
          | None => (Ok (ListedHost models), w)
          end
      end
  end.

Definition listed (auth : AuthContext) (route : RouteRow D) (p : Provider) (w : World)
    : result Listed Error * World :=
  if Prov.eqb p Jev then
    match call auth route p ForListing
            (fun upstream credential => OtherLists.models MODELS_PATH reqwest_error upstream credential)
            (decoded models_type read_models) w with
    | (Err e, w) => (Err e, w)
    | (Ok answer, w) =>
        (Ok (ListedJev (an_reply answer)),
         Failover.log (EvRelease (lease_account (an_lease answer))) w)
    end
  else listed_pages MAX_LISTING_PAGES auth route p [] [] None w.

(** What the loop of [list] has gathered. *)
Record Gathered : Type := {
  g_jev : option (Whole (list ModelMetadata));
  g_hosted : list ModelMetadata;
  g_hosts_listed : bool;
  g_failed : option Error
}.

Definition nothing_gathered : Gathered :=
  {| g_jev := None; g_hosted := []; g_hosts_listed := false; g_failed := None |}.

Definition gathered (g : Gathered) (l : result Listed Error) : Gathered :=
  match l with
  | Ok (ListedJev reply) =>
      {| g_jev := Some reply; g_hosted := g_hosted g; g_hosts_listed := g_hosts_listed g;
         g_failed := g_failed g |}
  | Ok (ListedHost models) =>
      {| g_jev := g_jev g; g_hosted := g_hosted g ++ models; g_hosts_listed := true;
         g_failed := g_failed g |}
  | Err (SystemOneNotConfigured _ _) => g
  | Err e =>
      {| g_jev := g_jev g; g_hosted := g_hosted g; g_hosts_listed := g_hosts_listed g;
         g_failed := match g_failed g with Some first => Some first | None => Some e end |}
  end.

Fixpoint each_listed (auth : AuthContext) (route : RouteRow D) (providers : list Provider)
    (g : Gathered) (w : World) : Gathered * World :=
  match providers with
  | [] => (g, w)
  | p :: providers =>
      let '(l, w) := listed auth route p w in
      each_listed auth route providers (gathered g l) w
  end.

Definition list_response (route : RouteRow D) (request_id : N) (g : Gathered)
    : result Response Error :=
  match g_jev g, g_hosts_listed g with
  | Some reply, false => Ok (relay reply None request_id)
  | None, false => Err (default (SystemOneNotConfigured (route_name route) Jev) (g_failed g))
  | jev, true =>
      Ok (written (match jev with Some reply => wh_decoded reply | None => [] end ++ g_hosted g)
        request_id)
  end.

Definition list_models (auth : Caller D) (request_id : N) (w : World) : result Response Error * World :=
  match admission auth with
  | Err e => (Err e, w)
  | Ok route =>
      let '(g, w) := each_listed (caller_ids auth) route (system_one_providers hosts) nothing_gathered w in
      (list_response route request_id g, w)
  end.
End admission.
End call.
End systemone.
End SystemOne.

(** ** Lemmas of the call *)

Module Asking.
Import SystemOne.

Section asking.
Context {D : Type} {HD : Decimal D} (env : Env D).
Context `{U : UrlCrate} `{HC : HeaderCrate}.
Context (lease_one : nat → Provider → string → list AccountId → result Lease Error).
Context (secret : nat → Lease → result string Error) (send : nat → Lease → Request → HostReply).
Context (accounts : nat → N → string → N → result (list AccountId) Error).
Context (sha256 : list ascii → list ascii).
Context (max_stream_secs : Z) (show_id : N → string) (show_secs : Z → string) (hosts : Hosts).

(** *** Work on one credential *)

#[local] Abbreviation worked a w w' := (Failover.works a 0 [] w w').

Lemma worked_same a w w' : trace w' = trace w → worked a w w'.
Proof. apply Failover.works_same. Qed.

Lemma worked_trans a w w' w'' : worked a w w' → worked a w' w'' → worked a w w''.
Proof. intros H H'. by apply (Failover.works_trans a 0 0 0 [] w w'). Qed.

Lemma worked_failed p a w : worked a w (failed env p a w).
Proof. unfold failed. destruct (counts p); by apply worked_same. Qed.

Lemma worked_succeeded p a w : worked a w (succeeded p a w).
Proof. unfold succeeded. destruct (counts p); by apply worked_same. Qed.

Lemma worked_dispose p a d w : worked a w (dispose p a d w).
Proof. unfold dispose. destruct (counts p); [apply Failover.works_disposition|by apply worked_same]. Qed.

Lemma worked_unreachable p a r w : worked a w (unreachable env p a r w).
Proof.
  unfold unreachable. destruct (counts p); [|by apply worked_same].
  unfold Failover.transport_failure. destruct r; [by apply worked_same|]. apply Failover.works_failed.
Qed.

Section attempt.
Context {T : Type} (upstream : Custom.JevUpstream) (provider : Provider) (purpose : Purpose).
Context (build : Custom.JevUpstream → string → result Request Error) (decode : string → result T Error).
#[local] Abbreviation turn_ := (turn env send max_stream_secs show_secs upstream provider purpose build decode).
#[local] Abbreviation attempts_ :=
  (attempts env send max_stream_secs show_secs upstream provider purpose build decode).
#[local] Abbreviation attempt_on_ :=
  (attempt_on env secret send max_stream_secs show_secs upstream provider purpose build decode).

(** What a credential's turn and attempts may come to, whatever is asked of
    them. *)
Definition genuine (t : Tried T) : Prop :=
  match t with TriedAnswered r => decode (wh_body r) = Ok (wh_decoded r) | _ => True end.

Lemma read_genuine st ct id body r :
  read max_stream_secs show_secs decode st ct id body = Ok r → decode (wh_body r) = Ok (wh_decoded r).
Proof. destruct body; cbn; try done. destruct (decode bytes) eqn:E; [|done]. by intros [= <-]. Qed.

Lemma turn_works r lease cred d w :
  let '(t, _, w') := turn_ r lease cred d w in
  Failover.works (lease_account lease) 1 [] w w' ∧
  match t with Done o => genuine o | Again _ => True end.
Proof.
  unfold turn. destruct (build _ _) as [request|]; [|split; [by apply Failover.works_same|done]].
  destruct (transport _ _ _) as [[]|]; [|split; [by apply Failover.works_same|done]].
  set (a := lease_account lease). set (w1 := Failover.log _ _).
  assert (Failover.works a 1 [] w w1) as H1 by by apply Failover.works_send.
  assert (∀ w', worked a w1 w' → Failover.works a 1 [] w w') as Hw
    by (intros w' Hw'; by apply (Failover.works_trans _ 1 0 1 _ _ _ _ H1 Hw')).
  destruct (send _ _ _) as [st ct id body|st body ra|e].
  - unfold on_success. destruct (read _ _ _ _ _ _ _) as [reply|e] eqn:E; (split; [apply Hw|]);
      try done; [apply worked_succeeded|by eapply read_genuine|apply worked_failed].
  - unfold on_refusal, recheck. set (err := refusal _ _ _ _ _).
    pose proof (worked_trans a w1 _ _ (worked_failed purpose a w1)
      (worked_dispose purpose a (Errors.disposition err) (failed env purpose a w1))) as Hd.
    destruct (Failover.step_for _ _); (split; [by apply Hw|]); try done.
    by destruct (Fleet.permits _ _ _).
  - assert (worked a w1 (on_nothing (T:=T) env purpose a r e w1).2) as Hn.
    { unfold on_nothing, recheck. pose proof (worked_unreachable purpose a r w1).
      destruct e, r; cbn [snd]; try done;
        apply (worked_trans a w1 _ _ (worked_failed purpose a w1) (worked_dispose _ _ _ _)). }
    assert (match (on_nothing (T:=T) env purpose a r e w1).1 with Done o => genuine o | Again _ => True end) as Hg.
    { unfold on_nothing, recheck. destruct e, r; cbn [fst]; try done; by destruct (Fleet.permits _ _ _). }
    destruct (on_nothing _ _ _ _ _ _) as [t w2]. by split; [apply Hw|].
Qed.

Lemma attempts_work remaining attempt lease cred d w :
  let '(o, w') := attempts_ remaining attempt lease cred d w in
  Failover.works (lease_account lease) (S remaining) [] w w' ∧ genuine o.
Proof.
  revert attempt d w; induction remaining as [|n IH]; intros attempt d w; cbn [attempts].
  all: match goal with |- context [turn _ _ _ _ _ _ _ _ _ ?b ?l ?c ?d ?w] =>
    pose proof (turn_works b l c d w) as Ht;
    destruct (turn _ _ _ _ _ _ _ _ _ b l c d w) as [[[o|e] d'] w'] end; destruct Ht as [Ht Hg].
  - by destruct d'.
  - by destruct d'.
  - destruct Ht as (t & ? & ? & ? & ?).
    destruct d'; (split; [exists t; split_and!; [done|done|lia|done]|done]).
  - set (w1 := Failover.log _ _).
    assert (Failover.works (lease_account lease) 1 [] w w1) as H1.
    { apply (Failover.works_trans _ 1 0 1 _ _ _ _ Ht); [|lia].
      by apply (Failover.works_log _ (EvSleep (Failover.backoff attempt))). }
    specialize (IH (attempt + 1) d' w1). destruct (attempts_ _ _ _ _ _ _) as [o w2].
    destruct IH as [IH ?]. split; [|done].
    apply (Failover.works_trans _ 1 (S n) _ _ _ _ _ H1 IH). lia.
Qed.

Lemma attempt_on_works lease w :
  let '(o, w') := attempt_on_ lease w in
  Failover.works (lease_account lease) (S (same_account_retries env)) [] w w' ∧ genuine o.
Proof.
  unfold attempt_on. destruct (secret _ _) as [cred|e]; [|split; [by apply Failover.works_same|done]].
  assert (∀ d w1, trace w1 = trace w →
    let '(o, w') := attempts_ (same_account_retries env) 0 lease cred d w1 in
    Failover.works (lease_account lease) (S (same_account_retries env)) [] w w' ∧ genuine o) as Hgo.
  { intros d w1 Hw1. pose proof (attempts_work (same_account_retries env) 0 lease cred d w1) as Ha.
    destruct (attempts_ _ _ _ _ _ _) as [o w']. destruct Ha as [Ha ?]. split; [|done].
    by apply (Failover.works_trans _ 0 _ _ _ w w1 _ (Failover.works_same _ _ _ _ Hw1) Ha). }
  destruct purpose; [|by apply Hgo].
  destruct (Fleet.claim _ _ _) as [[d|] bs]; [by apply Hgo|].
  split; [by apply Failover.works_same|done].
Qed.

(** *** A listing writes nothing against a credential *)

Definition idle (e : Event) : Prop :=
  match e with EvLease _ | EvRelease _ | EvSend _ | EvSleep _ => True | _ => False end.

(** From [w] to [w'] no breaker moved, and nothing was parked. *)
Definition quiet (w w' : World) : Prop :=
  breakers w' = breakers w ∧ ∃ t, trace w' = trace w ++ t ∧ Forall idle t.

#[global] Instance quiet_preorder : PreOrder quiet.
Proof.
  split; [intros w; split; [done|]; exists []; by rewrite app_nil_r|].
  intros w1 w2 w3 (H1 & t & Ht & Hf) (H2 & u & Hu & Hg). split; [congruence|].
  exists (t ++ u). rewrite Hu, Ht, app_assoc. split; [done|by apply Forall_app].
Qed.

Lemma quiet_next w : quiet w (Failover.next w).
Proof. split; [done|]. exists []. by rewrite app_nil_r. Qed.

Lemma quiet_log e w : idle e → quiet w (Failover.log e w).
Proof. intros He. split; [done|]. exists [e]. split; [done|by constructor]. Qed.

Lemma turn_quiet r lease cred w :
  purpose = ForListing → (turn_ r lease cred None w).1.2 = None ∧ quiet w (turn_ r lease cred None w).2.
Proof.
  intros Hp. unfold turn. destruct (build _ _) as [request|]; [|split; [done|reflexivity]].
  destruct (transport _ _ _) as [[]|]; [|split; [done|apply quiet_next]].
  set (w1 := Failover.log _ _).
  assert (quiet w w1) as H1.
  { unfold w1. transitivity (Failover.next (Failover.next w)); [|by apply quiet_log].
    transitivity (Failover.next w); apply quiet_next. }
  pose proof (quiet_next w1) as H2.
  destruct (send _ _ _) as [st ct id body|st body ra|e].
  - unfold on_success, succeeded, failed, counts. rewrite Hp. by destruct (read _ _ _ _ _ _ _).
  - unfold on_refusal, recheck, dispose, failed, counts. rewrite Hp, bool_decide_eq_false_2 by done.
    destruct (Failover.step_for _ _); cbn [fst snd]; (split; [done|]); by try transitivity w1.
  - unfold on_nothing, recheck, dispose, failed, unreachable, counts. rewrite Hp, bool_decide_eq_false_2 by done.
    destruct e, r; cbn [fst snd]; (split; [done|]); try done; by transitivity w1.
Qed.

Lemma attempts_quiet remaining attempt lease cred w :
  purpose = ForListing → quiet w (attempts_ remaining attempt lease cred None w).2.
Proof.
  intros Hp. revert attempt w; induction remaining as [|n IH]; intros attempt w; cbn [attempts].
  all: match goal with |- context [turn _ _ _ _ _ _ _ _ _ ?b ?l ?c ?d ?w] =>
    pose proof (turn_quiet b l c w Hp) as [Hd Hq];
    destruct (turn _ _ _ _ _ _ _ _ _ b l c d w) as [[[o|e] d'] w'] end; cbn [fst snd] in *; subst d'.
  1-3: done.
  transitivity w'; [done|]. etransitivity; [by apply (quiet_log (EvSleep (Failover.backoff attempt)))|].
  apply IH.
Qed.

Lemma attempt_on_quiet lease w : purpose = ForListing → quiet w (attempt_on_ lease w).2.
Proof.
  intros Hp. unfold attempt_on. destruct (secret _ _) as [cred|]; [|apply quiet_next].
  pose proof (λ w, attempts_quiet (same_account_retries env) 0 lease cred w Hp) as Ha.
  rewrite Hp in Ha |- *. etransitivity; [|apply Ha]. by do 2 (etransitivity; [|apply quiet_next]).
Qed.

(** *** A question leaves every probe as it found it *)

Lemma turn_settles m r lease cred d w :
  purpose = ForAnswer → Failover.under_way m (lease_account lease) d w →
  ∃ d', (turn_ r lease cred (Some d) w).1.2 = Some d' ∧
    Failover.under_way m (lease_account lease) d' (turn_ r lease cred (Some d) w).2.
Proof.
  intros Hp H. unfold turn. destruct (build _ _) as [request|]; [|by exists d].
  destruct (transport _ _ _) as [[]|]; [|exists d; split; [done|by eapply Failover.under_way_same]].
  set (a := lease_account lease). set (w1 := Failover.log _ _).
  assert (Failover.under_way m a d w1) as H1 by by eapply Failover.under_way_same.
  assert (∀ now w', breakers w' = Fleet.record_failure (breakers w1) a now →
    Failover.under_way m a (Fleet.sent d) w') as Hfail
    by (intros now w' Hw'; by eapply Failover.under_way_failure).
  exists (Fleet.sent d). destruct (send _ _ _) as [st ct id body|st body ra|e].
  - unfold on_success, succeeded, failed, counts. rewrite Hp, bool_decide_eq_true_2 by done.
    destruct (read _ _ _ _ _ _ _); (split; [done|]); [by eapply Failover.under_way_success|by eapply Hfail].
  - unfold on_refusal, recheck, dispose, failed, counts. rewrite Hp, bool_decide_eq_true_2 by done.
    destruct (Failover.step_for _ _); cbn [fst snd]; (split; [done|]); eapply Hfail;
      cbn [Failover.next breakers]; by rewrite Failover.disposition_breakers.
  - unfold on_nothing, recheck, dispose, failed, unreachable, Failover.transport_failure, counts.
    rewrite Hp, bool_decide_eq_true_2 by done.
    destruct e, r; cbn [fst snd]; (split; [done|]); eapply Hfail;
      cbn [Failover.next breakers]; by rewrite ?Failover.disposition_breakers.
Qed.

Definition settled (m : gmap AccountId Breaker.Breaker) (w : World) : Prop :=
  ∃ m', breakers w = Some m' ∧ Failover.sound m' ∧ ∀ a, Failover.flag m' a = Failover.flag m a.

Lemma attempts_settled m remaining attempt lease cred d w :
  purpose = ForAnswer → Failover.under_way m (lease_account lease) d w →
  Failover.flag m (lease_account lease) = false →
  settled m (attempts_ remaining attempt lease cred (Some d) w).2.
Proof.
  intros Hp H Hf. revert attempt d w H; induction remaining as [|n IH]; intros attempt d w H;
    cbn [attempts].
  all: match goal with |- context [turn _ _ _ _ _ _ _ _ _ ?b ?l ?c (Some ?d) ?w] =>
    destruct (turn_settles m b l c d w Hp H) as (d2 & Hd & Hu);
    destruct (turn _ _ _ _ _ _ _ _ _ b l c (Some d) w) as [[[o|e] d'] w'] end;
    cbn [fst snd] in *; subst d'.
  1-3: by apply (Failover.finish_settles m (lease_account lease) d2 OutRaced).
  by apply IH.
Qed.

Lemma attempt_on_settled m lease w :
  purpose = ForAnswer → breakers w = Some m → Failover.sound m → settled m (attempt_on_ lease w).2.
Proof.
  intros Hp Hw Hs. unfold attempt_on. destruct (secret _ _) as [cred|]; [|by exists m].
  pose proof (λ d w, attempts_settled m (same_account_retries env) 0 lease cred d w Hp) as Ha.
  rewrite Hp in Ha |- *. cbn [Failover.next breakers tick]. rewrite Hw.
  destruct (Fleet.claim _ _ _) as [od bs] eqn:Hc.
  match goal with |- context [Failover.set_breakers bs ?w0] =>
    pose proof (Failover.claim_under_way m _ _ od bs (Failover.next (Failover.set_breakers bs w0)) Hs Hc
      eq_refl) as Hu end.
  destruct od as [d|]; [|done]. destruct Hu as [Hu Hf]. by apply Ha.
Qed.

(** *** From credential to credential *)

Definition never_again : Prop :=
  ∀ i p session excluded l, lease_one i p session excluded = Ok l → (lease_account l ∉ excluded).

(** The credential an answer still holds. *)
Definition seat (r : result (Answered T) Error) : option AccountId :=
  match r with Ok an => Some (lease_account (an_lease an)) | Err _ => None end.

(** What at most [n] credentials, counted from [switch], leave behind. *)
Record went (n switch : nat) (excluded : list AccountId) (r : result (Answered T) Error)
    (t : list Event) : Prop := {
  went_held : Failover.holding None t = Some (seat r);
  went_leases : (length (Failover.leased t) ≤ n)%nat;
  went_sends :
    (Failover.sends t ≤ length (Failover.leased t) * S (same_account_retries env))%nat;
  went_fresh : never_again →
    NoDup (Failover.leased t) ∧ ∀ a, a ∈ excluded → (a ∉ Failover.leased t);
  went_answer : ∀ an, r = Ok an →
    last (Failover.leased t) = Some (lease_account (an_lease an)) ∧
    S (an_attempt an) = (switch + length (Failover.leased t))%nat ∧
    decode (wh_body (an_reply an)) = Ok (wh_decoded (an_reply an))
}.

Lemma went_nothing n switch excluded e : went n switch excluded (Err e) [].
Proof.
  split; [done|cbn; lia|cbn; lia| |done].
  intros _. split; [constructor|]. intros a _. apply not_elem_of_nil.
Qed.

Lemma leased_tail a t u :
  all (Failover.about a) t = true →
  Failover.leased (EvLease a :: t ++ u) = a :: Failover.leased u.
Proof.
  intros Ha. unfold Failover.leased. cbn. rewrite filter_map_app. fold (Failover.leased t).
  by rewrite (Failover.leased_about a t).
Qed.

Lemma sends_tail a t u k :
  (Failover.sends t ≤ k)%nat → (Failover.sends (EvLease a :: t ++ u) ≤ k + Failover.sends u)%nat.
Proof.
  intros Ht. change (EvLease a :: t ++ u) with ([EvLease a] ++ t ++ u).
  rewrite !Failover.sends_app. change (Failover.sends [EvLease a]) with 0%nat. lia.
Qed.

(** The credential that ends a call: it answered and is kept, or is let go. *)
Lemma went_last n switch excluded lease t r rel :
  let a := lease_account lease in
  all (Failover.about a) t = true → (Failover.sends t ≤ S (same_account_retries env))%nat →
  (never_again → (a ∉ excluded)) →
  (∃ reply, rel = [] ∧ r = Ok {| an_lease := lease; an_attempt := switch; an_reply := reply |} ∧
     genuine (TriedAnswered reply)) ∨
  (∃ e, rel = [EvRelease a] ∧ r = Err e) →
  went (S n) switch excluded r (EvLease a :: t ++ rel).
Proof.
  intros a Ha Hs Hx Hr.
  assert (Failover.leased (EvLease a :: t ++ rel) = [a]) as Hl.
  { rewrite leased_tail by done. by destruct Hr as [(? & -> & _)|(? & -> & _)]. }
  assert (Failover.sends rel = 0%nat) as H0 by by destruct Hr as [(? & -> & _)|(? & -> & _)].
  split; rewrite ?Hl.
  - cbn. rewrite Failover.holding_app, Failover.holding_about by done.
    destruct Hr as [(? & -> & -> & _)|(? & -> & ->)]; [done|]. cbn. by rewrite bool_decide_eq_true_2.
  - cbn; lia.
  - pose proof (sends_tail a t rel _ Hs). cbn [length]. lia.
  - intros Hn. split; [apply NoDup_singleton|].
    intros b Hb ->%list_elem_of_singleton. by apply Hx.
  - intros an ->. destruct Hr as [(? & _ & [= ->] & ?)|(? & _ & ?)]; [|done].
    cbn. split_and!; [done|lia|done].
Qed.

(** A credential let go before the rest. *)
Lemma went_on n switch excluded a t r u :
  all (Failover.about a) t = true → (Failover.sends t ≤ S (same_account_retries env))%nat →
  (never_again → (a ∉ excluded)) → went n (S switch) (a :: excluded) r u →
  went (S n) switch excluded r (EvLease a :: t ++ EvRelease a :: u).
Proof.
  intros Ha Hs Hx [Hh Hl Hse Hf Han].
  assert (Failover.leased (EvLease a :: t ++ EvRelease a :: u) = a :: Failover.leased u) as He
    by by rewrite leased_tail.
  split; rewrite ?He.
  - cbn. rewrite Failover.holding_app, Failover.holding_about by done. cbn.
    by rewrite bool_decide_eq_true_2.
  - cbn; lia.
  - pose proof (sends_tail a t (EvRelease a :: u) _ Hs) as H.
    change (EvRelease a :: u) with ([EvRelease a] ++ u) in H at 2.
    rewrite Failover.sends_app in H. change (Failover.sends [EvRelease a]) with 0%nat in H.
    cbn [length]. lia.
  - intros Hn. destruct (Hf Hn) as [Hnd Hdis]. split; [constructor; [apply Hdis; left|done]|].
    intros b Hb [->|Hin]%elem_of_cons; [by apply Hx|]. by apply (Hdis b); [right|].
  - intros an Hr. destruct (Han an Hr) as (Hlast & Hnum & Hd). split_and!; [|cbn; lia|done].
    by destruct (Failover.leased u).
Qed.

#[local] Abbreviation switches_ :=
  (switches env lease_one secret send accounts max_stream_secs show_secs upstream provider purpose
     build decode).

Lemma unconfigured_trace auth (route : RouteRow D) e w :
  trace (unconfigured accounts provider auth route e w).2 = trace w.
Proof. by destruct e. Qed.

(** One credential, whose attempts end the call or leave the rest of it to
    [K]. *)
Lemma went_try n switch excluded lease w w1 last
    (K : option Error → World → result (Answered T) Error * World) :
  let a := lease_account lease in
  trace w1 = trace w ++ [EvLease a] → (never_again → (a ∉ excluded)) →
  (∀ e w, ∃ t, trace (K e w).2 = trace w ++ t ∧ went n (S switch) (a :: excluded) (K e w).1 t) →
  let '(tried, w2) := attempt_on_ lease w1 in
  let out :=
    match tried with
    | TriedAnswered reply =>
        (Ok {| an_lease := lease; an_attempt := switch; an_reply := reply |}, w2)
    | TriedFatal e => (Err e, Failover.log (EvRelease a) w2)
    | TriedSwitch e => K (Some e) (Failover.log (EvRelease a) w2)
    | TriedRaced => K last (Failover.log (EvRelease a) w2)
    end in
  ∃ t, trace out.2 = trace w ++ t ∧ went (S n) switch excluded out.1 t.
Proof.
  intros a Hw1 Hx HK. pose proof (attempt_on_works lease w1) as Hw.
  destruct (attempt_on_ lease w1) as [o w2]. destruct Hw as [(t & Ht & Ha & Hs & _) Hg]. fold a in Ha.
  rewrite Hw1, <- app_assoc in Ht.
  assert (∀ e, ∃ u, trace (K e (Failover.log (EvRelease a) w2)).2 = trace w ++ u ∧
    went (S n) switch excluded (K e (Failover.log (EvRelease a) w2)).1 u) as Hagain.
  { intros e. destruct (HK e (Failover.log (EvRelease a) w2)) as (u & Hu & Hwent).
    exists (EvLease a :: t ++ EvRelease a :: u). rewrite Hu. cbn [Failover.log trace].
    rewrite Ht, <- !app_assoc. split; [done|by apply went_on]. }
  destruct o as [reply|e| |e]; cbn [fst snd]; try apply Hagain.
  - exists (EvLease a :: t ++ []). rewrite Ht, app_nil_r. split; [done|]. rewrite <- (app_nil_r t).
    apply went_last; eauto 6.
  - exists (EvLease a :: t ++ [EvRelease a]). cbn [Failover.log trace]. rewrite Ht, <- !app_assoc.
    split; [done|]. apply went_last; eauto.
Qed.

Lemma switches_went n switch began auth route session excluded last w :
  let out := switches_ n switch began auth route session excluded last w in
  ∃ t, trace out.2 = trace w ++ t ∧ went (S n) switch excluded out.1 t.
Proof.
  assert (∀ m sw ex e w w', trace w' = trace w →
    ∃ t, trace w' = trace w ++ t ∧ went m sw ex (Err e) t) as Hstop.
  { intros m sw ex e w1 w2 Hw. exists []. rewrite app_nil_r. split; [done|apply went_nothing]. }
  revert switch excluded last w; induction n as [|n IH]; intros switch excluded last w; cbn [switches].
  all: destruct (negb _); [by apply Hstop|].
  all: destruct (lease_one _ _ _ _) as [lease|e] eqn:Hlease.
  2,4: destruct last; [by apply Hstop|];
    match goal with |- context [unconfigured ?a ?p ?au ?ro ?e ?w1] =>
      pose proof (unconfigured_trace au ro e w1) as Hu;
      destruct (unconfigured a p au ro e w1) as [e' w2] end; by apply Hstop.
  all: set (w1 := Failover.log _ _).
  - pose proof (went_try 0 switch excluded lease w w1 last
      (λ e w, (Err (default (NoCredential provider) e), w))) as Hstep.
    destruct (attempt_on_ lease w1) as [o w2].
    apply Hstep; [done|by intros Hn; apply (Hn _ _ _ _ _ Hlease)|]. intros. by apply Hstop.
  - pose proof (went_try (S n) switch excluded lease w w1 last
      (switches_ n (S switch) began auth route session (lease_account lease :: excluded))) as Hstep.
    destruct (attempt_on_ lease w1) as [o w2].
    apply Hstep; [done|by intros Hn; apply (Hn _ _ _ _ _ Hlease)|]. intros. apply IH.
Qed.

(** What every step of a call keeps, a call keeps. *)
Lemma switches_keep (R : World → World → Prop) `{!PreOrder R} n switch began auth route session
    excluded last w :
  (∀ w, R w (Failover.next w)) →
  (∀ a w, R w (Failover.log (EvLease a) w) ∧ R w (Failover.log (EvRelease a) w)) →
  (∀ lease w, R w (attempt_on_ lease w).2) →
  R w (switches_ n switch began auth route session excluded last w).2.
Proof.
  intros Hn Hl Ha. assert (∀ e w, R w (unconfigured accounts provider auth route e w).2) as Hu
    by (intros [] w1; try reflexivity; apply Hn).
  revert switch excluded last w; induction n as [|n IH]; intros switch excluded last w; cbn [switches].
  all: (transitivity (Failover.next w); [apply Hn|]); generalize (Failover.next w) as w0; intros w0.
  all: destruct (negb _); [reflexivity|].
  all: destruct (lease_one _ _ _ _) as [lease|e];
    (transitivity (Failover.next w0); [apply Hn|]); generalize (Failover.next w0) as w1; intros w1.
  2,4: destruct last; [reflexivity|]; specialize (Hu e w1);
    by destruct (unconfigured accounts provider auth route e w1).
  all: (transitivity (Failover.log (EvLease (lease_account lease)) w1); [apply Hl|]).
  all: (etransitivity; [apply (Ha lease)|]); destruct (attempt_on_ lease _) as [o w2]; cbn [fst snd].
  all: assert (R w2 (Failover.log (EvRelease (lease_account lease)) w2)) as Hr by apply Hl.
  all: destruct o; cbn [snd]; try done; (etransitivity; [exact Hr|apply IH]).
Qed.
End attempt.

(** *** A whole call *)

#[local] Abbreviation call_ :=
  (call env lease_one secret send accounts sha256 max_stream_secs show_id show_secs hosts).

Lemma call_went {T} auth route p purpose build (decode : string → result T Error) w :
  let out := call_ auth route p purpose build decode w in
  ∃ t, trace out.2 = trace w ++ t ∧
    went decode (S (max_account_switches env)) 0 [] out.1 t.
Proof.
  unfold call. destruct (system_one hosts p) as [upstream|e].
  - apply (switches_went upstream p purpose build decode _ 0 _ auth route _ [] None (Failover.next w)).
  - exists []. rewrite app_nil_r. split; [done|apply went_nothing].
Qed.

Lemma call_keeps {T} (R : World → World → Prop) `{!PreOrder R} auth route p purpose build
    (decode : string → result T Error) w :
  (∀ w, R w (Failover.next w)) →
  (∀ a w, R w (Failover.log (EvLease a) w) ∧ R w (Failover.log (EvRelease a) w)) →
  (∀ upstream lease w, R w (attempt_on env secret send max_stream_secs show_secs upstream p purpose
    build decode lease w).2) →
  R w (call_ auth route p purpose build decode w).2.
Proof.
  intros Hn Hl Ha. unfold call. destruct (system_one hosts p); [|reflexivity].
  etransitivity; [apply Hn|]. by apply switches_keep.
Qed.

Definition settles (w w' : World) : Prop :=
  ∀ m, breakers w = Some m → Failover.sound m → settled m w'.

#[global] Instance settles_preorder : PreOrder settles.
Proof.
  split; [by intros w m Hw Hs; exists m|].
  intros w1 w2 w3 H1 H2 m Hw Hs. destruct (H1 m Hw Hs) as (m2 & Hw2 & Hs2 & Hf2).
  destruct (H2 m2 Hw2 Hs2) as (m3 & Hw3 & Hs3 & Hf3). exists m3. split_and!; [done|done|].
  intros a. by rewrite Hf3.
Qed.

Lemma settles_same w w' : breakers w' = breakers w → settles w w'.
Proof. intros H m Hw Hs. exists m. by rewrite H. Qed.

Lemma call_settles {T} auth route p build (decode : string → result T Error) w :
  settles w (call_ auth route p ForAnswer build decode w).2.
Proof.
  apply call_keeps; [apply _|by intros; apply settles_same|by intros; split; apply settles_same|].
  intros upstream lease w0 m Hw Hs. by apply attempt_on_settled.
Qed.

Lemma call_quiet {T} auth route p build (decode : string → result T Error) w :
  quiet w (call_ auth route p ForListing build decode w).2.
Proof.
  apply call_keeps; [apply _|apply quiet_next|by intros; split; apply quiet_log|].
  intros upstream lease w0. by apply attempt_on_quiet.
Qed.

(** A call whose answer's lease is let go leaves none held. *)
Lemma call_returns {T} auth route p purpose build (decode : string → result T Error) w :
  let out := call_ auth route p purpose build decode w in
  ∃ t, trace out.2 = trace w ++ t ∧
    match out.1 with
    | Ok an => Failover.holding None (t ++ [EvRelease (lease_account (an_lease an))]) = Some None
    | Err _ => Failover.holding None t = Some None
    end.
Proof.
  destruct (call_went auth route p purpose build decode w) as (t & Ht & Hw). cbv zeta in *.
  destruct (call_ auth route p purpose build decode w) as [r w']. exists t. split; [done|].
  destruct Hw as [Hh _ _ _ _]. cbn [fst snd] in *. destruct r as [an|e]; [|done].
  rewrite Failover.holding_app, Hh. cbn. by rewrite bool_decide_eq_true_2.
Qed.

(** *** A listing *)

(** Quietly, and with every lease returned. *)
Definition harmless (w w' : World) : Prop :=
  quiet w w' ∧ ∃ t, trace w' = trace w ++ t ∧ Failover.holding None t = Some None.

#[global] Instance harmless_preorder : PreOrder harmless.
Proof.
  split; [intros w; split; [reflexivity|]; exists []; by rewrite app_nil_r|].
  intros w1 w2 w3 (H1 & t & Ht & Hh) (H2 & u & Hu & Hk). split; [by transitivity w2|].
  exists (t ++ u). rewrite Hu, Ht, app_assoc. split; [done|]. by rewrite Failover.holding_app, Hh.
Qed.

Lemma call_harmless {T} auth route p build (decode : string → result T Error) w :
  match call_ auth route p ForListing build decode w with
  | (Ok an, w') => harmless w (Failover.log (EvRelease (lease_account (an_lease an))) w')
  | (Err _, w') => harmless w w'
  end.
Proof.
  pose proof (call_quiet auth route p build decode w) as Hq.
  destruct (call_returns auth route p ForListing build decode w) as (t & Ht & Hr).
  destruct (call_ auth route p ForListing build decode w) as [[an|e] w']; cbn [fst snd] in *.
  - split; [by transitivity w'; [|apply quiet_log]|].
    exists (t ++ [EvRelease (lease_account (an_lease an))]). cbn [Failover.log trace].
    by rewrite Ht, app_assoc.
  - split; [done|]. by exists t.
Qed.

Section listing.
Context (reqwest_error : string) (read_models : string → result (list ModelMetadata) string)
  (models_type : string) (from_slice : string → result Json string) (MODELS_PATH : string).

#[local] Abbreviation pages_ :=
  (listed_pages env lease_one secret send accounts sha256 max_stream_secs show_id show_secs hosts
     reqwest_error from_slice MODELS_PATH).
#[local] Abbreviation listed_ :=
  (listed env lease_one secret send accounts sha256 max_stream_secs show_id show_secs hosts
     reqwest_error read_models models_type from_slice MODELS_PATH).
#[local] Abbreviation each_ :=
  (each_listed env lease_one secret send accounts sha256 max_stream_secs show_id show_secs hosts
     reqwest_error read_models models_type from_slice MODELS_PATH).

Lemma pages_harmless n auth route p models cursors cursor w :
  harmless w (pages_ n auth route p models cursors cursor w).2.
Proof.
  revert models cursors cursor w; induction n as [|n IH]; intros models cursors cursor w;
    cbn [listed_pages]; [reflexivity|].
  match goal with |- context [call_ auth route p ForListing ?b ?d w] =>
    pose proof (call_harmless auth route p b d w) as H;
    destruct (call_ auth route p ForListing b d w) as [[an|e] w'] end; [|done].
  destruct (lp_next _) as [next|]; [|done]. destruct (any _ _); [done|].
  etransitivity; [exact H|apply IH].
Qed.

Lemma listed_harmless auth route p w : harmless w (listed_ auth route p w).2.
Proof.
  unfold listed. destruct (Prov.eqb p Jev); [|apply pages_harmless].
  match goal with |- context [call_ auth route p ForListing ?b ?d w] =>
    pose proof (call_harmless auth route p b d w) as H;
    destruct (call_ auth route p ForListing b d w) as [[an|e] w'] end; done.
Qed.

Lemma each_harmless auth route ps g w : harmless w (each_ auth route ps g w).2.
Proof.
  revert g w; induction ps as [|p ps IH]; intros g w; cbn [each_listed]; [reflexivity|].
  pose proof (listed_harmless auth route p w) as H. destruct (listed_ auth route p w) as [l w'].
  etransitivity; [exact H|apply IH].
Qed.

(** *** What a host's pages come to *)

(** Every name once, each under the host's. *)
Definition gathered_under (p : Provider) (models : list ModelMetadata) : Prop :=
  NoDup (map mm_name models) ∧
  Forall (λ m, ∃ name, mm_name m = Prov.as_str p +:+ "/" +:+ name) models.

Lemma gather_under p models page : gathered_under p models → gathered_under p (gather p models page).
Proof.
  unfold gather. revert models; induction page as [|m page IH]; intros models H; cbn [fold_left]; [done|].
  apply IH. destruct (any _ models) eqn:Hin; [done|]. destruct H as [Hnd Hall].
  split; [|apply Forall_app; split; [done|]; constructor; [by eexists|done]].
  rewrite map_app. apply NoDup_app. split_and!; [done| |apply NoDup_singleton].
  intros x Hx Hx2. apply list_elem_of_singleton in Hx2. subst x.
  apply list_elem_of_In, in_map_iff in Hx as (seen & Hname & Hseen).
  assert (any (λ seen, Str.eqb (mm_name (under p m)) (mm_name seen)) models = true) as Hc
    by (apply any_true; exists seen; split; [done|]; rewrite Hname; apply Str.str_eqb_refl).
  congruence.
Qed.

Lemma pages_under n auth route p models cursors cursor w l w' :
  gathered_under p models → pages_ n auth route p models cursors cursor w = (Ok l, w') →
  ∃ ms, l = ListedHost ms ∧ gathered_under p ms.
Proof.
  revert models cursors cursor w; induction n as [|n IH]; intros models cursors cursor w Hm;
    cbn [listed_pages]; [intros [= <- _]; by exists models|].
  destruct (call_ _ _ _ _ _ _ _) as [[an|e] w1]; [|done].
  pose proof (gather_under p models (lp_models (wh_decoded (an_reply an))) Hm) as Hg.
  destruct (lp_next _) as [next|]; [|intros [= <- _]; by eexists].
  destruct (any _ _); [intros [= <- _]; by eexists|]. by apply IH.
Qed.
End listing.
End asking.
End Asking.

(** ** Theorems *)

Module Questions.
Import SystemOne Asking.

(** *** Where a question goes *)

Section target.
Context {D : Type} {HD : Decimal D}.
Implicit Types c : Catalog D.

Lemma row_of_Some c host name s :
  row_of c host name = Some s →
  (∃ id, get c id = Some s) ∧ Prov.eqb (model_provider s) host = true ∧ upstream_name s = name.
Proof.
  intros [Hin [Hp Hn]%andb_true_iff]%find_Some. apply iter_In in Hin as [id Hid].
  split_and!; [by exists id|done|by apply Str.str_eqb_eq].
Qed.

Lemma host_named_Some hosts prefix h :
  host_named hosts prefix = Some h → In h hosts ∧ Prov.is_custom h = true ∧ Prov.as_str h = prefix.
Proof. intros [? [? ?%Str.str_eqb_eq]%andb_true_iff]%find_Some. done. Qed.

Lemma priced_catalogued c p answered s :
  wf c → get c (model_id s) = Some s →
  get c (model_id (priced c p answered (Some s))) = Some (priced c p answered (Some s)).
Proof.
  intros Hc Hs. unfold priced.
  destruct (get c (Prov.as_str p +:+ "/" +:+ answered)) as [s'|] eqn:E; [|done].
  by rewrite (wf_key c Hc _ _ E).
Qed.

(** C3. A question goes where it is addressed.  It goes to Jev, as it arrived,
    when it names no model, a model with no provider in its name, or one whose
    provider is Jev and that no row prices.  Otherwise it names a priced model:
    it goes to the provider of that model's row under the name that row gives
    it, and either the row's id is the name asked for, or the name is the
    host's, a slash and the row's name for it.  Whatever model the host then
    says answered, the answer is priced by a row of the catalogue. *)
Theorem questions_go_where_named registry model c hosts t :
  wf c → resolve registry model c hosts = Ok t →
  (t = jev ∧ ∀ m, model = Some m → get c m = None ∧
     ∀ prefix name, Str.split_once m "/" = Some (prefix, name) →
       host_named hosts prefix = None ∧
       ∃ p, Prov.from_str registry prefix = Some p ∧ Prov.eqb p Jev = true) ∨
  ∃ m s, model = Some m ∧ tg_spec t = Some s ∧ get c (model_id s) = Some s ∧
    Prov.eqb (model_provider s) (tg_provider t) = true ∧
    default m (tg_upstream_model t) = upstream_name s ∧
    (model_id s = m ∨
     In (tg_provider t) hosts ∧ m = Prov.as_str (tg_provider t) +:+ "/" +:+ upstream_name s) ∧
    ∀ answered, ∃ row, priced c (tg_provider t) answered (tg_spec t) = row ∧
      get c (model_id row) = Some row.
Proof.
  intros Hc. unfold resolve. destruct model as [m|]; [|intros [= <-]; by left].
  destruct (get c m) as [s|] eqn:Hm.
  { intros [= <-]. right. pose proof (wf_key c Hc _ _ Hm) as Hid. exists m, s. cbn.
    assert (get c (model_id s) = Some s) as Hs by by rewrite Hid.
    split_and!; try done; [apply Prov.provider_eqb_refl| |by left|].
    - destruct (Str.eqb _ _) eqn:E; cbn; [by apply Str.str_eqb_eq in E|done].
    - intros answered. eexists. split; [reflexivity|]. by apply priced_catalogued. }
  destruct (Str.split_once m "/") as [[prefix name]|] eqn:Hsplit.
  2: { intros [= <-]. left. split; [done|]. intros ? [= <-]. split; [done|]. by rewrite Hsplit. }
  destruct (host_named hosts prefix) as [h|] eqn:Hh.
  - destruct (row_of c h name) as [s|] eqn:Hs; [|done]. intros [= <-]. right.
    apply row_of_Some in Hs as ([id Hid] & Hp & Hn). apply host_named_Some in Hh as (Hin & _ & Hpre).
    apply Str.split_once_Some in Hsplit as [-> _]. subst prefix name.
    assert (get c (model_id s) = Some s) as Hs by by rewrite (wf_key c Hc _ _ Hid).
    eexists _, s. cbn. split_and!; try done; [by right|].
    intros answered. eexists. split; [reflexivity|]. by apply priced_catalogued.
  - destruct (Prov.from_str registry prefix) as [p|] eqn:Hp; [|done].
    destruct (Prov.eqb p Jev) eqn:Hj; [|done]. intros [= <-]. left. split; [done|].
    intros ? [= <-]. split; [done|]. rewrite Hsplit. intros ? ? [= <- <-]. eauto.
Qed.

(** *** Two catalogues *)

Lemma from_entries_In (specs : list (ModelSpec D)) id s :
  get (from_entries specs) id = Some s → In s specs.
Proof. unfold get. rewrite from_entries_lookup. intros [Hin _]%find_Some. by apply in_rev. Qed.

Lemma chat_side specs id s : get (set_catalog (D:=D) specs).1 id = Some s → chat_spec s = true.
Proof. intros [_ H]%from_entries_In%keep_In. done. Qed.

Lemma question_side specs id s :
  get (set_catalog (D:=D) specs).2 id = Some s → Prov.native_dialect (model_provider s) = SystemOne.
Proof.
  intros [_ H]%from_entries_In%keep_In. unfold chat_spec in H. by destruct (Prov.native_dialect _).
Qed.

Lemma decided_in_catalog p mode name signal (budget : Budgets D) c max_output served d :
  Policy.wf_policy p → wf c →
  Policy.decide p mode (Some name) signal budget c max_output served = Ok d →
  ∃ id, get c id = Some (dec_model d).
Proof.
  intros Hp Hc Hd. destruct (Policy.decide_sound _ _ _ _ _ _ _ _ _ Hp Hc Hd) as [Hs _].
  destruct (dec_tier d) eqn:Ht; [destruct Hs as (_ & _ & (rung & id & _ & _ & H)); by exists id|].
  destruct Hs as [_ Hr]. destruct mode.
  - assert (∃ s, Catalog.resolve c name = Some s ∧ d = {| dec_model := s; dec_tier := None;
      dec_reason := ByPassthrough; capability_escalated_from := None;
      ceiling_model := ceiling_model d |}) as (s & Hs & ->).
    { pose proof (proj1 (Policy.passthrough_decision p name signal budget c max_output served d)
        (conj Hd Hr)) as (_ & s & Hs & _ & ->). exists s. split; [done|]. cbn in *. by rewrite Ht. }
    exists (model_id s). cbn. by apply (resolve_wf c name).
  - exfalso. revert Hd. unfold Policy.decide. destruct (bool_decide _); [done|].
    pose proof (Policy.managed_start_on p signal (Budget.budgets_pressure budget) Hp) as Hon.
    destruct (Policy.managed_start _ _ _) as [t reason].
    intros (u & Hu & _)%Policy.resolve_from_sound; [|done]. by rewrite Ht in Hu.
Qed.

(** C4. Chat and questions keep apart.  Of one set of models split into the two
    catalogues, a plan for a chat request, however it was asked for, never
    names a model of a System One provider; and a question, on a gateway whose
    hosts all speak System One, never goes to a provider that does not. *)
Theorem chat_and_questions_keep_apart serde_words json_len utc_second registry (reads : Reads D)
    (specs : list (ModelSpec D)) hosts :
  let '(chat, questions) := set_catalog specs in
  (∀ auth canonical header_tier channel plan,
    Plan.plan_request serde_words json_len utc_second registry reads auth canonical header_tier chat
      channel = Ok plan →
    Prov.native_dialect (model_provider (dec_model (plan_decision plan))) ≠ SystemOne) ∧
  ∀ model t, Forall (λ h, Prov.native_dialect h = SystemOne) hosts →
    resolve registry model questions hosts = Ok t → Prov.native_dialect (tg_provider t) = SystemOne.
Proof.
  destruct (set_catalog specs) as [chat questions] eqn:E.
  assert (chat = (set_catalog specs).1 ∧ questions = (set_catalog specs).2) as [-> ->] by by rewrite E.
  split.
  - intros auth canonical header_tier channel plan
      (route & policy & spend & [Hp _ Hd _])%Plan.plan_request_Ok.
    apply Plan.policy_for_Ok in Hp as (_ & _ & Hwf).
    apply decided_in_catalog in Hd as [id Hid]; [|done|apply from_entries_wf].
    apply chat_side in Hid. unfold chat_spec in Hid. by intros He; rewrite He in Hid.
  - intros model t Hhosts. unfold resolve. destruct model as [m|]; [|by intros [= <-]].
    destruct (get _ m) as [s|] eqn:Hs; [intros [= <-]; by apply question_side in Hs|].
    destruct (Str.split_once m "/") as [[prefix name]|]; [|by intros [= <-]].
    destruct (host_named hosts prefix) as [h|] eqn:Hh.
    + destruct (row_of _ h name); [|done]. intros [= <-]. apply host_named_Some in Hh as [Hin _].
      by apply (proj1 (List.Forall_forall _ _) Hhosts).
    + destruct (match Prov.from_str registry prefix with Some p => _ | None => _ end);
        [by intros [= <-]|done].
Qed.
End target.

(** *** The members of a question *)

(** What is relied on of [serde_json]: the value of every member it reads, and
    every string it writes, is the text of a value; and members written out
    with such values read back. *)
Record member_laws (members : string → result (list (string * string)) string)
    (quote : string → string) (is_value : string → Prop) : Prop := {
  quote_value s : is_value (quote s);
  members_values body ms : members body = Ok ms → Forall (λ m, is_value m.2) ms;
  members_back ms : Forall (λ m : string * string, is_value m.2) ms →
    members ("{" +:+ Str.join "," (map (λ m, quote m.1 +:+ ":" +:+ m.2) ms) +:+ "}") = Ok ms
}.

(** C7. Renaming a question's model changes nothing else.  A body that reads as
    members is rewritten to one that reads as the same members in the same
    order, each value the bytes it was, but that every [model] is the name
    given; a body that does not is refused and nothing is sent. *)
Theorem renamed_keeps_the_rest members quote is_value body model :
  member_laws members quote is_value →
  match members body with
  | Ok ms => ∃ out, renamed members quote body model = Ok out ∧
      members out = Ok (map (λ m, if Str.eqb m.1 "model" then (m.1, quote model) else m) ms)
  | Err e => renamed members quote body model = Err (Serde e)
  end.
Proof.
  intros [Hq Hv Hb]. unfold renamed. destruct (members body) as [ms|e] eqn:E; [|done].
  eexists. split; [reflexivity|]. apply Hv in E.
  set (f := λ m : string * string, if Str.eqb m.1 "model" then (m.1, quote model) else m).
  assert (map (member_text quote model) ms = map (λ m, quote m.1 +:+ ":" +:+ m.2) (map f ms)) as ->.
  { rewrite map_map. apply map_ext. intros [k v]. unfold member_text, f. cbn [fst snd]. by destruct (Str.eqb k "model"). }
  apply Hb. apply Forall_map. eapply Forall_impl; [exact E|].
  intros [k v] H. unfold f. cbn [fst snd]. destruct (Str.eqb k "model"); [apply Hq|exact H].
Qed.

(** *** A question and a listing, whole *)

Section theorems.
Context {D : Type} {HD : Decimal D} (env : Env D).
Context `{U : UrlCrate} `{HC : HeaderCrate}.
Context (lease_one : nat → Provider → string → list AccountId → result Lease Error).
Context (secret : nat → Lease → result string Error) (send : nat → Lease → Request → HostReply).
Context (accounts : nat → N → string → N → result (list AccountId) Error).
Context (sha256 : list ascii → list ascii).
Context (max_stream_secs : Z) (show_id : N → string) (show_secs : Z → string) (hosts : Hosts).
Context (reads : Reads D) (identity_headers : N → list (string * string)).
Context (reqwest_error : string).

Section question.
Context (registry : gmap string Endpoint) (catalog : Catalog D).
Context (members : string → result (list (string * string)) string) (quote : string → string).
Context (read_request : string → result SystemOneRequest string)
  (read_response : string → result SystemOneResponse string) (response_type : string).

#[local] Abbreviation ask_ :=
  (ask env lease_one secret send accounts sha256 max_stream_secs show_id show_secs hosts reads
     identity_headers registry catalog members quote read_request read_response response_type
     reqwest_error).
#[local] Abbreviation prepare_ := (prepare hosts reads registry catalog members quote read_request).

(** What the ledger is told of an answer, and of whose it was. *)
Definition answered_by (target : Target D) (response : SystemOneResponse) (request_id : N)
    (tried : list AccountId) (row : UsageWrite D) : Prop :=
  let model := SystemOne.priced catalog (tg_provider target) (rs_model response) (tg_spec target) in
  uw_request_id row = request_id ∧ uw_status row = 200 ∧
  uw_account_id row = last tried ∧ uw_attempt row + 1 = Z.of_nat (length tried) ∧
  uw_usage row = usage_of response ∧ uw_model_id row = model_id model ∧
  counterfactual_api_usd row = Usages.cost (pricing model) (usage_of response) ∧
  counterfactual_usd row = cost_usd row.

Lemma tokens_nonneg n : 0 ≤ tokens n.
Proof. unfold tokens. destruct n as [n|]; [|done]. by destruct (Z.leb_spec 0 n). Qed.

Lemma observed_usage response :
  usage (Stream.observe Stream.new (EvUsageUpdate (usage_of response))) = usage_of response.
Proof.
  pose proof (tokens_nonneg (rs_input_tokens response)).
  pose proof (tokens_nonneg (rs_output_tokens response)).
  unfold usage_of. cbn. unfold Usages.merge. cbn. f_equal; lia.
Qed.

(** The row of an answer whose credential was the last tried. *)
Lemma answered_row auth target (an : Answered SystemOneResponse) request_id started now tried :
  last tried = Some (lease_account (an_lease an)) → S (an_attempt an) = length tried →
  answered_by target (wh_decoded (an_reply an)) request_id tried
    (Meter.record_answer
      (Meter.meter_context auth (decision_for catalog target (wh_decoded (an_reply an))) (an_lease an)
        request_id started (Z.of_nat (an_attempt an)))
      (usage_of (wh_decoded (an_reply an))) now).
Proof.
  intros Hl Hn. unfold answered_by, Meter.record_answer, Meter.record_collected, Meter.usage_write.
  cbn [out_accumulator Meter.collected]. rewrite observed_usage.
  cbn. rewrite Hl. split_and!; try done. lia.
Qed.

Lemma decoded_Ok type_name body v : decoded type_name read_response body = Ok v → read_response body = Ok v.
Proof. unfold decoded. destruct (read_response body); [by intros [= ->]|done]. Qed.

(** C2. A question is accounted for.  Its route's credentials are leased one at
    a time, no more of them than the bound on switches allows, each sent no
    more requests than the bound on retries, none twice -- if the pool never
    gives back one it was told to leave out -- and every lease is returned.
    The probe of every breaker is as it was found.  A question that is refused
    has no row; one that is answered has one, which says whose credential it
    was, the last leased, and how many were tried before it, and what the
    body the caller gets says was used, at the price of the model it names. *)
Theorem question_is_accounted auth body request_id w :
  let '(r, rows, w') := ask_ auth body request_id w in
  settles w w' ∧
  ∃ t, trace w' = trace w ++ t ∧ Failover.holding None t = Some None ∧
    (length (Failover.leased t) ≤ S (max_account_switches env))%nat ∧
    (Failover.sends t ≤ S (max_account_switches env) * S (same_account_retries env))%nat ∧
    (never_again lease_one → NoDup (Failover.leased t)) ∧
    match r with
    | Err _ => rows = []
    | Ok answer => ∃ target route sent response row,
        prepare_ auth body = Ok (target, route, sent) ∧
        read_response (re_body answer) = Ok response ∧ rows = [row] ∧
        answered_by target response request_id (Failover.leased t) row
    end.
Proof.
  unfold ask. destruct (prepare_ auth body) as [[[target route] sent]|e].
  2: { split; [by apply settles_same|]. exists []. rewrite app_nil_r. cbn.
       split_and!; [done|done|lia|lia|constructor|done]. }
  set (w1 := Failover.next w).
  match goal with |- context [call ?a1 ?a2 ?a3 ?a4 ?a5 ?a6 ?a7 ?a8 ?a9 ?a10 ?au ?ro ?p ForAnswer ?b ?d w1] =>
    pose proof (call_settles env lease_one secret send accounts sha256 max_stream_secs show_id show_secs
      hosts au ro p b d w1) as Hset;
    destruct (call_went env lease_one secret send accounts sha256 max_stream_secs show_id show_secs
      hosts au ro p ForAnswer b d w1) as (t & Ht & Hw);
    destruct (call a1 a2 a3 a4 a5 a6 a7 a8 a9 a10 au ro p ForAnswer b d w1) as [[an|e] w2] end.
  all: cbn [fst snd] in *; destruct Hw as [Hh Hl Hs Hf Ha]; cbn [seat] in Hh.
  all: assert (Failover.sends t ≤ S (max_account_switches env) * S (same_account_retries env))%nat as Hs'
    by nia.
  all: assert (settles w w2) as Hset' by (transitivity w1; [by apply settles_same|done]).
  2: { split; [done|]. exists t. split_and!; try done. by intros Hn; apply Hf. }
  destruct (Ha an eq_refl) as (Hlast & Hnum & Hdec). apply decoded_Ok in Hdec.
  set (a := lease_account (an_lease an)) in *.
  assert (Failover.leased (t ++ [EvRelease a]) = Failover.leased t) as Hle
    by (unfold Failover.leased; rewrite filter_map_app; cbn; by rewrite app_nil_r).
  split; [transitivity w2; [done|by apply settles_same]|].
  exists (t ++ [EvRelease a]). rewrite Hle, Failover.sends_app. split_and!.
  - cbn. by rewrite Ht, <- app_assoc.
  - rewrite Failover.holding_app, Hh. cbn. by rewrite bool_decide_eq_true_2.
  - done.
  - change (Failover.sends [EvRelease a]) with 0%nat. lia.
  - by intros Hn; apply Hf.
  - eexists target, route, sent, _, _. split_and!; [done|exact Hdec|reflexivity|].
    apply answered_row; [done|lia].
Qed.
End question.

Section listing.
Context (read_models : string → result (list ModelMetadata) string) (models_type : string).
Context (from_slice : string → result Json string) (MODELS_PATH : string).
Context (listing_text : list ModelMetadata → option string).

#[local] Abbreviation list_models_ :=
  (list_models env lease_one secret send accounts sha256 max_stream_secs show_id show_secs hosts reads
     identity_headers listing_text reqwest_error read_models models_type from_slice MODELS_PATH).
#[local] Abbreviation listed_ :=
  (listed env lease_one secret send accounts sha256 max_stream_secs show_id show_secs hosts
     reqwest_error read_models models_type from_slice MODELS_PATH).

(** C5. A listing says nothing about a credential.  Whatever the hosts answer,
    refuse or fail to, listing their models moves no breaker, parks no
    credential and spends no half-open probe, and returns every lease. *)
Theorem listing_writes_nothing auth request_id w :
  let w' := (list_models_ auth request_id w).2 in
  breakers w' = breakers w ∧
  ∃ t, trace w' = trace w ++ t ∧ Forall idle t ∧ Failover.holding None t = Some None.
Proof.
  assert (harmless w (list_models_ auth request_id w).2) as ((Hb & t & Ht & Hi) & u & Hu & Hh).
  { unfold list_models. destruct (admission reads auth) as [route|]; [|reflexivity].
    match goal with |- context [each_listed ?a1 ?a2 ?a3 ?a4 ?a5 ?a6 ?a7 ?a8 ?a9 ?a10 ?a11 ?a12 ?a13
      ?a14 ?a15 ?au ?ro ?ps ?g ?w0] =>
      pose proof (each_harmless env lease_one secret send accounts sha256 max_stream_secs show_id
        show_secs hosts reqwest_error read_models models_type from_slice MODELS_PATH au ro ps g w0) as H;
      destruct (each_listed a1 a2 a3 a4 a5 a6 a7 a8 a9 a10 a11 a12 a13 a14 a15 au ro ps g w0) end.
    exact H. }
  cbv zeta. split; [done|]. exists t. split_and!; [done|done|].
  assert (t = u) as -> by (apply (app_inv_head (trace w)); congruence). done.
Qed.

(** The name of an endpoint leads no path. *)
Lemma endpoint_name_plain name : Prov.validate_name name = Ok () → ¬ In "/"%char (Str.bytes name).
Proof.
  unfold Prov.validate_name. destruct (negb _) eqn:E; [done|]. intros _ Hin.
  apply negb_false_iff, andb_true_iff in E as [_ E].
  destruct (Str.bytes name) as [|b rest]; [done|]. apply andb_true_iff in E as [Hb Hrest].
  destruct Hin as [->|Hin]; [done|]. by apply (proj1 (all_true _ _) Hrest) in Hin.
Qed.

Lemma eqb_custom e p :
  Prov.is_custom p = true → Prov.as_str p = ep_name e → Prov.eqb p (Custom e) = true.
Proof. destruct p; try done. intros _ H. cbn in *. by apply Str.str_eqb_eq. Qed.

Lemma row_of_respects (c : Catalog D) p q name : Prov.eqb p q = true → row_of c p name = row_of c q name.
Proof.
  intros H. assert (∀ s : ModelSpec D, Prov.eqb (model_provider s) p = Prov.eqb (model_provider s) q) as Hs.
  { intros s. rewrite (Prov.provider_eqb_sym (model_provider s) p), (Prov.provider_eqb_sym (model_provider s) q).
    by apply Prov.provider_eqb_respects. }
  unfold row_of, find. induction (iter c) as [|s l IH]; [done|]. cbn [List.find]. by rewrite Hs, IH.
Qed.

(** The row a question to a listed name is asked of and priced by: the one with
    that very id, else the endpoint's row for the host's name. *)
Definition asked_row (c : Catalog D) (p : Provider) (id name : string) : option (ModelSpec D) :=
  match get c id with Some s => Some s | None => row_of c p name end.

(** C6. A name that is listed is answered where it was listed.  What an endpoint
    is said to serve is named once each, the endpoint's name, a slash and the
    host's own name.  In a catalogue where a row with such a name for its id is
    the endpoint's own -- as [catalog add] requires and a sync writes -- a
    question to the name goes to that endpoint, is asked there by the upstream
    name of the row it is priced by, and is refused only while no row prices
    it; the row is the one with that very id, and otherwise the endpoint's row
    whose upstream name is the host's own. *)
Theorem listed_name_is_answered_there auth route e w l w' :
  Prov.validate_name (ep_name e) = Ok () → In (Custom e) (system_one_providers hosts) →
  listed_ auth route (Custom e) w = (Ok l, w') →
  ∃ models, l = ListedHost models ∧ NoDup (map mm_name models) ∧
    ∀ m registry c, In m models →
    (∀ s, get (D:=D) c (mm_name m) = Some s → Prov.eqb (model_provider s) (Custom e) = true) →
    ∃ name, mm_name m = ep_name e +:+ "/" +:+ name ∧
      match asked_row c (Custom e) (mm_name m) name with
      | Some s => ∃ t,
          SystemOne.resolve registry (Some (mm_name m)) c (system_one_providers hosts) = Ok t ∧
          Prov.eqb (tg_provider t) (Custom e) = true ∧ tg_spec t = Some s ∧
          Prov.eqb (model_provider s) (Custom e) = true ∧
          default (mm_name m) (tg_upstream_model t) = upstream_name s ∧
          (get c (mm_name m) = Some s ∨ upstream_name s = name)
      | None =>
          SystemOne.resolve registry (Some (mm_name m)) c (system_one_providers hosts) =
            Err (NoViableModel (unpriced_message (mm_name m) (ep_name e) name))
      end.
Proof.
  intros Hname Hin Hl. unfold listed in Hl. cbn [Prov.eqb] in Hl.
  apply pages_under in Hl as (models & -> & Hnd & Hall); [|by split; [constructor|]].
  exists models. split_and!; [done|done|]. intros m registry c Hm Hown.
  apply (proj1 (List.Forall_forall _ _) Hall) in Hm as [name Hn]. cbn [Prov.as_str] in Hn.
  exists name. split; [done|]. unfold asked_row, resolve.
  destruct (get c (mm_name m)) as [s|] eqn:Hget.
  { eexists. split_and!; [done|by apply Hown|done|by apply Hown| |].
    - cbn. destruct (Str.eqb (upstream_name s) (mm_name m)) eqn:E; [|done]. by apply Str.str_eqb_eq in E.
    - by left. }
  destruct (host_named (system_one_providers hosts) (ep_name e)) as [p|] eqn:Hp.
  2: { unfold host_named in Hp. rewrite find_None in Hp. specialize (Hp _ Hin). cbn in Hp.
       by rewrite Str.str_eqb_refl in Hp. }
  apply host_named_Some in Hp as Hp'. destruct Hp' as (_ & Hc & Hs).
  pose proof (eqb_custom e p Hc Hs) as Heq. cbv beta iota.
  assert (Str.split_once (mm_name m) "/" = Some (ep_name e, name)) as ->
    by (apply Str.split_once_Some; split; [by rewrite Hn|by apply endpoint_name_plain]).
  rewrite Hp, (row_of_respects c p (Custom e) name Heq).
  destruct (row_of c (Custom e) name) as [s|] eqn:Hr; [|done].
  apply find_some in Hr as [_ [Hr1 Hr2%Str.str_eqb_eq]%andb_true_iff].
  eexists. split_and!; [done|done|done|done|by cbn|by right].
Qed.
End listing.
End theorems.
End Questions.

(** ** A gateway with two hosts, for the witnesses *)

Module SmallQuestions.
Import SystemOne Asking Questions Endpoints.Small SentRequests.

(** *** Members written with their names in hexadecimal *)

Definition special (c : ascii) : bool := any (Ascii.eqb c) [","; ":"; "{"; "}"]%char.
Definition plain (s : string) : Prop := ∀ c, In c (Str.bytes s) → special c = false.
Definition plainb (s : string) : bool := all (λ c, negb (special c)) (Str.bytes s).
Definition toy_quote (s : string) : string := Sticky.hex (Str.bytes s).

Definition toy_member (s : string) : option (string * string) :=
  match Str.split_once s ":" with
  | Some (k, v) =>
      if plainb v then (λ k, (Str.of_bytes k, v)) <$> SmallIdentity.unhex k else None
  | None => None
  end.

Definition toy_members (s : string) : result (list (string * string)) string :=
  match Str.strip_prefix s "{" with
  | None => Err "not an object"
  | Some s =>
      match Str.strip_suffix s "}" with
      | None => Err "not an object"
      | Some s => ok_or (mapM toy_member (if Str.is_empty s then [] else Str.split s ",")) "not members"
      end
  end.

Lemma plainb_spec s : plainb s = true ↔ plain s.
Proof.
  unfold plainb, plain. rewrite all_true. split; intros H c Hc; specialize (H c Hc).
  - by apply negb_true_iff in H.
  - by rewrite H.
Qed.

Lemma plain_not s c : plain s → special c = true → ¬ In c (Str.bytes s).
Proof. intros Hs Hc Hin. apply Hs in Hin. congruence. Qed.

Lemma toy_quote_plain s : plain (toy_quote s).
Proof.
  intros c Hc. apply IdentityLemmas.hex_chars in Hc. destruct (special c) eqn:E; [|done].
  unfold special in E. apply any_true in E as (d & Hd & ->%Ascii.eqb_eq).
  repeat (destruct Hd as [<-|Hd]; [done|]). destruct Hd.
Qed.

Lemma split_piece p s c : ¬ In c (Str.bytes p) → Str.split (p +:+ String c s) c = p :: Str.split s c.
Proof.
  induction p as [|a p IH]; intros Hn; cbn [Str.bytes String.list_ascii_of_string] in *.
  - change ("" +:+ String c s) with (String c s). cbn [Str.split]. by rewrite Ascii.eqb_refl.
  - change (String a p +:+ String c s) with (String a (p +:+ String c s)). cbn [Str.split].
    destruct (Ascii.eqb_spec a c) as [->|]; [exfalso; apply Hn; by left|].
    rewrite IH; [done|]. intros Hin. apply Hn. by right.
Qed.

Lemma split_last p c : ¬ In c (Str.bytes p) → Str.split p c = [p].
Proof.
  induction p as [|a p IH]; intros Hn; [done|]. cbn [Str.split].
  destruct (Ascii.eqb_spec a c) as [->|]; [exfalso; apply Hn; by left|].
  rewrite IH; [done|]. intros Hin. apply Hn. by right.
Qed.

Lemma split_join ps : ps ≠ [] → Forall (λ p, ¬ In ","%char (Str.bytes p)) ps →
  Str.split (Str.join "," ps) "," = ps.
Proof.
  induction ps as [|p ps IH]; intros Hne Hall; [done|]. inversion Hall as [|? ? Hp Hps]; subst.
  destruct ps as [|q ps]; [by apply split_last|].
  change (Str.join "," (p :: q :: ps)) with (p +:+ String "," (Str.join "," (q :: ps))).
  rewrite split_piece by done. by rewrite IH.
Qed.

Definition written_member (m : string * string) : string := toy_quote m.1 +:+ ":" +:+ m.2.

Lemma written_member_back m : plain m.2 → toy_member (written_member m) = Some m.
Proof.
  destruct m as [k v]. intros Hv. unfold toy_member, written_member. cbn [fst snd] in *.
  rewrite (proj2 (Str.split_once_Some _ ":" (toy_quote k) v)).
  - rewrite (proj2 (plainb_spec v) Hv). unfold toy_quote. rewrite SmallIdentity.unhex_hex. cbn.
    by rewrite Str.of_bytes_bytes.
  - split; [done|]. apply plain_not; [apply toy_quote_plain|done].
Qed.

Lemma written_member_comma m : plain m.2 → ¬ In ","%char (Str.bytes (written_member m)).
Proof.
  intros Hv. unfold written_member. rewrite !Str.bytes_app, !in_app_iff.
  intros [Hin|[[Hin|[]]|Hin]]; [|done|].
  - by apply (plain_not _ "," (toy_quote_plain m.1)) in Hin.
  - by apply (plain_not _ "," Hv) in Hin.
Qed.

Lemma toy_members_values body ms : toy_members body = Ok ms → Forall (λ m, plain m.2) ms.
Proof.
  unfold toy_members. destruct (Str.strip_prefix _ _); [|done]. destruct (Str.strip_suffix _ _); [|done].
  destruct (mapM toy_member _) as [l|] eqn:E; [|done]. intros [= <-].
  apply mapM_Some in E. clear -E. induction E as [|p m ps l Hm Hl IH]; [constructor|].
  constructor; [|done]. unfold toy_member in Hm. destruct (Str.split_once _ _) as [[k v]|]; [|done].
  destruct (plainb v) eqn:Hv; [|done]. apply plainb_spec in Hv.
  destruct (SmallIdentity.unhex k); [|done]. by injection Hm as <-.
Qed.

Lemma written_nonempty m ms : Str.join "," (map written_member (m :: ms)) ≠ "".
Proof.
  assert (written_member m ≠ "") as Hne.
  { intros E. apply (f_equal (λ s, In ":"%char (Str.bytes s))) in E. unfold written_member in E.
    rewrite !Str.bytes_app in E. enough (In ":"%char (Str.bytes "")) as [] by done.
    rewrite <- E, !in_app_iff. right. left. by left. }
  cbn [map Str.join]. destruct (map written_member ms); [done|]. by destruct (written_member m).
Qed.

Lemma toy_members_back ms : Forall (λ m : string * string, plain m.2) ms →
  toy_members ("{" +:+ Str.join "," (map (λ m, toy_quote m.1 +:+ ":" +:+ m.2) ms) +:+ "}") = Ok ms.
Proof.
  intros Hall. change (λ m, _) with written_member. unfold toy_members.
  rewrite (proj2 (Str.strip_prefix_Some _ _ _) eq_refl), (proj2 (Str.strip_suffix_Some _ _ _) eq_refl).
  assert (mapM toy_member (map written_member ms) = Some ms) as Hm.
  { apply mapM_Some. induction Hall; constructor; [by apply written_member_back|done]. }
  destruct ms as [|m ms]; [done|].
  destruct (Str.is_empty _) eqn:E; [by apply Str.is_empty_true, written_nonempty in E|].
  rewrite split_join, Hm; [done|done|]. apply Forall_map. eapply Forall_impl; [exact Hall|].
  intros x. apply written_member_comma.
Qed.

Lemma toy_members_laws : member_laws toy_members toy_quote plain.
Proof. split; [apply toy_quote_plain|apply toy_members_values|apply toy_members_back]. Qed.

Lemma renamed_keeps_the_rest_witness :
  ∃ out, renamed toy_members toy_quote "{6d6f64656c:jev,7374617465:7.50,6d6f64656c:again}" "typesafe/jev" = Ok out ∧
    toy_members out = Ok [("model", toy_quote "typesafe/jev"); ("state", "7.50"); ("model", toy_quote "typesafe/jev")].
Proof.
  exact (renamed_keeps_the_rest toy_members toy_quote plain
    "{6d6f64656c:jev,7374617465:7.50,6d6f64656c:again}" "typesafe/jev" toy_members_laws).
Defined.

(** *** Two hosts *)

Definition merge : Endpoint := endpoint "merge" Plain SystemOne.

Definition upstream_at (base : string) : Custom.JevUpstream :=
  {| Custom.jv_base_url := base; Custom.jv_path := "/v1/systemone";
     Custom.jv_auth := Bearer; Custom.jv_extra_headers := [] |}.

Definition two_hosts : Hosts :=
  [(Custom merge, upstream_at "https://merge.dev"); (Jev, upstream_at "https://typesafe.ai")].

Definition specs_example : list (ModelSpec Q) := [
  spec_example "merge/typesafe/jev" (Custom merge) "typesafe/jev" 3 9;
  spec_example "anthropic/opus" Anthropic "opus" 15 75;
  spec_example "jev/jev-latest" Jev "jev-latest" 2 8;
  spec_example "cheap-jev" (Custom merge) "jev-mini" 1 2
].

Example hosts_in_order : system_one_providers two_hosts = [Jev; Custom merge].
Proof. vm_compute. reflexivity. Qed.

Definition resolve_example (model : option string) : result (Target Q) Error :=
  SystemOne.resolve {["merge" := merge]} model (set_catalog specs_example).2 (system_one_providers two_hosts).

(** Where each kind of name goes, and what it is sent as. *)
Example where_names_go :
  map (λ m, match resolve_example m with
            | Ok t => Some (Prov.as_str (tg_provider t), tg_upstream_model t)
            | Err _ => None
            end)
    [None; Some "jev-9"; Some "typesafe/jev-9"; Some "jev/jev-latest"; Some "merge/typesafe/jev";
     Some "merge/jev-mini"; Some "merge/jev-9"; Some "anthropic/opus"] =
  [Some ("jev", None); Some ("jev", None); Some ("jev", None); Some ("jev", Some "jev-latest");
   Some ("merge", Some "typesafe/jev"); Some ("merge", Some "jev-mini"); None; None].
Proof. vm_compute. reflexivity. Qed.

Lemma questions_go_where_named_witness :
  ∃ t, resolve_example (Some "merge/jev-mini") = Ok t ∧ tg_provider t = Custom merge ∧
    ∀ answered, ∃ row, SystemOne.priced (set_catalog specs_example).2 (tg_provider t) answered (tg_spec t)
      = row ∧ get (set_catalog specs_example).2 (model_id row) = Some row.
Proof.
  destruct (resolve_example (Some "merge/jev-mini")) as [t|e] eqn:E; [|vm_compute in E; discriminate].
  exists t. split; [done|].
  assert (tg_provider t = Custom merge) as Hp by (vm_compute in E; by injection E as <-).
  split; [done|].
  destruct (questions_go_where_named _ _ _ _ t (from_entries_wf _) E) as [[-> _]|(m & s & _ & _ & _ & _ & _ & _ & H)].
  - discriminate Hp.
  - exact H.
Defined.

Definition plan_of (name : string) : result (Plan Q) Error :=
  Plan.plan_request (λ _, "") (λ _, 2) (λ _, "") {["merge" := merge]} (Plan.reads_example None)
    (Plan.caller_example None None) (Plan.request_example name) None (set_catalog specs_example).1 None.

(** A chat request that names a System One model is refused; one that may be
    served is planned onto a chat model. *)
Lemma chat_and_questions_keep_apart_witness :
  (∃ e, plan_of "cheap-jev" = Err e) ∧
  ∃ plan, plan_of "anthropic/opus" = Ok plan ∧
    Prov.native_dialect (model_provider (dec_model (plan_decision plan))) ≠ SystemOne.
Proof.
  split; [destruct (plan_of "cheap-jev") as [p|e] eqn:E; [vm_compute in E; discriminate|by exists e]|].
  destruct (plan_of "anthropic/opus") as [plan|e] eqn:E; [|vm_compute in E; discriminate].
  exists plan. split; [done|].
  exact (proj1 (chat_and_questions_keep_apart (λ _, "") (λ _, 2) (λ _, "") {["merge" := merge]}
    (Plan.reads_example None) specs_example [Jev]) _ _ _ _ _ E).
Defined.

(** *** A question that is refused by one credential and answered by the next *)

Definition send_example (i : nat) (l : Lease) (r : Request) : HostReply :=
  if bool_decide (lease_account l = 1%N) then HostStatus 429 "slow down" (Some "17")
  else HostSuccess 200 None (Some "req-1") (BodyWhole "jev-1.13.0").

Definition desk_lease (_ : nat) (p : Provider) (_ : string) (excluded : list AccountId)
    : result Lease Error :=
  match keep (λ a, negb (bool_decide (a ∈ excluded))) [1; 2]%N with
  | a :: _ => Ok {| lease_account := a; lease_kind := "api_key" |}
  | [] => Err (NoCredential p)
  end.

Definition read_request_example (body : string) : result SystemOneRequest string :=
  match toy_members body with
  | Ok ms => Ok {| rq_model := snd <$> find (λ m, Str.eqb m.1 "model") ms |}
  | Err e => Err e
  end.

Definition read_response_example (body : string) : result SystemOneResponse string :=
  Ok {| rs_model := body; rs_input_tokens := Some 1000000; rs_output_tokens := Some (-4) |}.

Definition ask_example (model : string) :=
  ask Failover.env_example desk_lease (λ _ _, Ok "sk-1") send_example (λ _ _ _ _, Ok []) (firstn 8) 60
    (λ _, "k") (λ _, "60") two_hosts (Plan.reads_example None) (λ _, [("x-oag-request-id", "9")])
    {["merge" := merge]} (set_catalog specs_example).2 toy_members toy_quote read_request_example
    read_response_example "SystemOneResponse" "" (Plan.caller_example None None)
    ("{6d6f64656c:" +:+ model +:+ ",7374617465:7.50}") 9%N Failover.world_example.

Example refused_then_answered :
  let out := ask_example "merge/jev-mini" in
  (match out.1.1 with Ok r => Some (re_status r, re_headers r, re_body r) | Err _ => None end =
    Some (200, [("x-oag-request-id", "9"); ("content-type", "application/json");
                ("x-typesafe-request-id", "req-1"); ("x-oag-model", "cheap-jev")], "jev-1.13.0")) ∧
  map (λ row, (uw_account_id row, uw_attempt row, uw_model_id row, uw_usage row)) out.1.2 =
    [(Some 2%N, 1, "cheap-jev",
      {| input_tokens := 1000000; output_tokens := 0; cache_read_tokens := 0; cache_write_tokens := 0 |})] ∧
  trace out.2 = [EvLease 1; EvSend 1; EvRateLimit 1 17000; EvRelease 1; EvLease 2; EvSend 2; EvRelease 2]%N.
Proof. vm_compute. done. Qed.

(** A name no row prices is sent nowhere. *)
Example unpriced_name_is_refused :
  let out := ask_example "merge/jev-9" in
  (match out.1.1 with Ok _ => false | Err _ => true end) = true ∧ out.1.2 = [] ∧ trace out.2 = [].
Proof. vm_compute. done. Qed.

Lemma never_again_example : never_again desk_lease.
Proof.
  intros i p session excluded l. unfold desk_lease, keep.
  destruct (List.filter _ _) as [|a rest] eqn:Hf; [done|]. intros [= <-]. cbn.
  assert (In a (a :: rest)) as Ha by (by left). rewrite <- Hf in Ha.
  apply filter_In in Ha as [_ Ha]. bool_to_prop. done.
Qed.

Lemma question_is_accounted_witness :
  let out := ask_example "merge/jev-mini" in
  ∃ row, out.1.2 = [row] ∧ uw_usage row = usage_of (wh_decoded {| wh_status := 200;
      wh_content_type := None; wh_request_id := None; wh_body := "jev-1.13.0";
      wh_decoded := {| rs_model := "jev-1.13.0"; rs_input_tokens := Some 1000000;
                       rs_output_tokens := Some (-4) |} |}) ∧
    NoDup (Failover.leased (trace out.2)).
Proof.
  pose proof (question_is_accounted Failover.env_example desk_lease (λ _ _, Ok "sk-1") send_example
    (λ _ _ _ _, Ok []) (firstn 8) 60 (λ _, "k") (λ _, "60") two_hosts (Plan.reads_example None)
    (λ _, [("x-oag-request-id", "9")]) "" {["merge" := merge]} (set_catalog specs_example).2
    toy_members toy_quote read_request_example read_response_example "SystemOneResponse"
    (Plan.caller_example None None) "{6d6f64656c:merge/jev-mini,7374617465:7.50}" 9%N
    Failover.world_example) as H.
  cbv zeta. change (ask _ _ _ _ _ _ _ _ _ _ _ _ _ _ _ _ _ _ _ _ _ _ _ _) with (ask_example "merge/jev-mini") in H.
  destruct (ask_example "merge/jev-mini") as [[r rows] w'] eqn:E. cbn [fst snd].
  destruct H as (_ & t & Ht & _ & _ & _ & Hnd & Hr). cbn [Failover.world_example trace app] in Ht.
  destruct r as [answer|e]; [|vm_compute in E; discriminate].
  destruct Hr as (target & route & sent & response & row & _ & Hread & -> & Hrow).
  exists row. split_and!; [done| |rewrite Ht; apply Hnd, never_again_example].
  destruct Hrow as (_ & _ & _ & _ & -> & _).
  assert (re_body answer = "jev-1.13.0") as Hb by (vm_compute in E; by injection E as <- _ _).
  unfold read_response_example in Hread. rewrite Hb in Hread. by injection Hread as <-.
Defined.

(** *** Listings *)

Definition entry_of (name : string) : Json := JObject [("name", JString name)].
Definition page_of (names : list string) (next : option string) : string :=
  Wire.a_printer (JObject ([("models", JArray (map entry_of names))]
    ++ match next with
       | Some cursor => [("has_more", JBool true); ("next_cursor", JString cursor)]
       | None => []
       end)).

Definition from_slice_example (body : string) : result Json string :=
  match Wire.a_parser body with Some v => Ok v | None => Err "not JSON" end.

(** A host of two pages, whose second names the second again. *)
Definition list_example (i : nat) (l : Lease) (r : Request) : HostReply :=
  HostSuccess 200 None None (BodyWhole
    (if any (λ q : string * string, Str.eqb q.1 "cursor") (rq_query r)
     then page_of ["jev-mini"; "typesafe/jev"] (Some "2") else page_of ["jev-mini"; "old"] (Some "2"))).

Definition listed_example :=
  listed Failover.env_example desk_lease (λ _ _, Ok "sk-1") list_example (λ _ _ _ _, Ok []) (firstn 8) 60
    (λ _, "k") (λ _, "60") two_hosts "" (λ _, Err "no") "ListModelsResponse" from_slice_example
    "/v1/models" {| api_key_id := 1; principal_id := 2; Meter.route_id := 3 |}%N Plan.route_example
    (Custom merge) Failover.world_example.

Example what_merge_lists :
  match listed_example.1 with Ok (ListedHost models) => map mm_name models | _ => [] end =
    ["merge/jev-mini"; "merge/old"; "merge/typesafe/jev"] ∧
  Failover.sends (trace listed_example.2) = 2%nat.
Proof. vm_compute. done. Qed.

Lemma listed_name_is_answered_there_witness :
  ∃ models, listed_example.1 = Ok (ListedHost models) ∧
    ∀ n, n = "merge/jev-mini" ∨ n = "merge/typesafe/jev" →
    ∃ t, resolve_example (Some n) = Ok t ∧ Prov.eqb (tg_provider t) (Custom merge) = true.
Proof.
  destruct listed_example as [[l|e] w'] eqn:E; [|vm_compute in E; discriminate].
  destruct (listed_name_is_answered_there (D:=Q) Failover.env_example desk_lease (λ _ _, Ok "sk-1")
    list_example (λ _ _ _ _, Ok []) (firstn 8) 60 (λ _, "k") (λ _, "60") two_hosts "" (λ _, Err "no")
    "ListModelsResponse" from_slice_example "/v1/models"
    {| api_key_id := 1; principal_id := 2; Meter.route_id := 3 |}%N Plan.route_example merge
    Failover.world_example l w' eq_refl) as (models & -> & _ & H); [by right; left|exact E|].
  set (c := (set_catalog specs_example).2).
  assert (∀ n, n = "merge/jev-mini" ∨ n = "merge/typesafe/jev" →
    In {| mm_name := n; mm_description := ""; mm_release_date := "" |} models) as Hin
    by (vm_compute in E; injection E as <- _; intros n [->| ->]; cbn; auto).
  assert (∀ n, n = "merge/jev-mini" ∨ n = "merge/typesafe/jev" →
    ∀ s, get c n = Some s → Prov.eqb (model_provider s) (Custom merge) = true) as Hown
    by (intros n [->| ->] s Hs; vm_compute in Hs; [discriminate|by injection Hs as <-]).
  exists models. split; [done|]. intros n Hn.
  destruct (H _ {["merge" := merge]} c (Hin n Hn) (Hown n Hn)) as (name & Hname & Hr).
  cbn [mm_name] in Hname, Hr. unfold resolve_example. fold c.
  destruct (asked_row c (Custom merge) n name) as [s|] eqn:Hs.
  - destruct Hr as (t & Ht & Hp & _). exact (ex_intro _ t (conj Ht Hp)).
  - destruct Hn as [->| ->].
    + assert (name = "jev-mini") as -> by by injection Hname. vm_compute in Hs. discriminate Hs.
    + assert (name = "typesafe/jev") as -> by by injection Hname. vm_compute in Hs. discriminate Hs.
Defined.

Definition models_example :=
  list_models Failover.env_example desk_lease (λ _ _, Ok "sk-1")
    (λ _ _ _, HostStatus 401 "who are you" None) (λ _ _ _ _, Ok []) (firstn 8) 60
    (λ _, "k") (λ _, "60") two_hosts (Plan.reads_example None) (λ _, []) (λ _, Some "[]") ""
    (λ _, Err "no") "ListModelsResponse" from_slice_example "/v1/models" (Plan.caller_example None None) 9%N
    Failover.world_example.

(** Refused everywhere, and no credential the worse for it. *)
Example nobody_lists :
  (match models_example.1 with Err (Upstream p _ 401 _ _) => Prov.as_str p | _ => "" end) = "jev" ∧
  trace models_example.2 =
    [EvLease 1; EvSend 1; EvRelease 1; EvLease 2; EvSend 2; EvRelease 2;
     EvLease 1; EvSend 1; EvRelease 1; EvLease 2; EvSend 2; EvRelease 2]%N.
Proof. vm_compute. done. Qed.

Lemma listing_writes_nothing_witness : breakers models_example.2 = Some ∅.
Proof.
  exact (proj1 (listing_writes_nothing Failover.env_example desk_lease (λ _ _, Ok "sk-1")
    (λ _ _ _, HostStatus 401 "who are you" None) (λ _ _ _ _, Ok []) (firstn 8) 60
    (λ _, "k") (λ _, "60") two_hosts (Plan.reads_example None) (λ _, []) "" (λ _, Err "no")
    "ListModelsResponse" from_slice_example "/v1/models" (λ _, Some "[]") (Plan.caller_example None None) 9%N
    Failover.world_example)).
Defined.

End SmallQuestions.
